(* ===== verification/_CoqProject ===== *)
-Q . S2P
Prelude.v
SafeInt.v
Keys.v
CircularBuffer.v
CircularBufferProps.v
Utf8.v
Varint.v
TransactLog.v
Reverser.v
ConvenientEncoder.v
ChunkedRangeVector.v
RangeList.v
IndexSet.v
IndexSetCount.v
RangeBuilder.v
IndexLists.v
IndexSetMerge.v
IndexSetShifted.v
IndexSetProps.v
ChangeBuilder.v
KeptElements.v
Collection.v
Tracking.v
TrackedChanges.v
ChangeReport.v
RowDiff.v
LongestMatch.v
RowAlignment.v
Calculation.v
CalculateProps.v
Transport.v
MergeMoves.v
MergeChanges.v
MergeProps.v
ObjectChangeSet.v
TransactLogHandler.v
LogTracking.v
DeepChangeChecker.v
RelatedTables.v
DeepCheckProps.v
CollectionNotifier.v
CallbackDelivery.v
Notifiers.v
NotifierRuns.v
NotifierPipeline.v
NotifierLists.v
ViewHandover.v
IncrementalChangeInfo.v
SyncSession.v
SyncTasks.v
SyncRuns.v
SyncProps.v
SyncSamples.v
SyncNotifiers.v
KVOAdapter.v
NodeHeader.v
PackedArray.v
SortedSearch.v
ArrayFind.v
ChunkFields.v
ArraySearch.v
ArrayEqual.v
ArrayRelation.v
ArrayFindProps.v
ArrayResults.v
SchemaData.v
SchemaValidation.v
SchemaChanges.v
SchemaStore.v
SchemaApply.v
SchemaUpdate.v
SchemaLaws.v
SchemaRead.v
SchemaPasses.v
SchemaChunks.v
SchemaMigration.v
SchemaResult.v
SchemaRealm.v
SchemaSamples.v
