(* ===== verification/Prelude.v ===== *)
(** A verification of the Realm database's object store, as it is vendored in this repository under
    [src/notVK/Pods/Realm]: the C++ of [Realm/ObjectStore/src] with its headers in [include], and
    those headers of the core and of its utilities ([include/core/realm]) whose bodies are in the
    repository.

    * The program and its parts

    A Realm is a file of tables.  A thread writes to it in transactions; every change a
    transaction makes is recorded in a *transaction log*.  Other threads that read the file
    advance over the logs, and what they observe is *notified* to them: a list or a query result as
    a set of deletions, insertions, modifications and moves.  Opening a Realm brings the *schema*
    of the file to the schema that the program asks for.  A file may be synchronized with a server
    over a *sync session*.  The elements of a table are kept in *packed arrays* inside the file.

    The flow of a change through the parts is that of the files below:
    write, record ([ConvenientEncoder]), parse ([TransactLog]), observe ([TransactLogHandler]), keep
    as index sets ([ChangeBuilder], [ObjectChangeSet]), bring several versions together
    ([IncrementalChangeInfo]), run the notifiers ([Notifiers], [RowDiff], [DeepChangeChecker]), hand
    over ([ViewHandover]), accumulate and deliver ([CollectionNotifier], [KVOAdapter]).

    * Files, code and correspondence

    Every definition keeps the name of the function or type it translates; where two parts of the
    program use one name a Module or the file tells them apart.  Names of fields are those of the
    code ([m_run_tv]).  A member function takes the object and returns the new one; a function that
    can throw or fail an assertion returns [result] (this file), or [schema_result] in the
    schema files, whose errors carry the texts of the code.  [OutOfBounds], [NullDereference] and
    [OutOfFuel] are not outcomes of the code: the theorems exclude them.  [std::size_t] and the
    other integers are [Z] with the wrap-around written out ([u64], [cast], [to_int64]).

    Shared: [Prelude] (errors, 64-bit arithmetic, lists, tactics).

    Integers and keys
    - [SafeInt]: [util/safe_int_ops.hpp] with [util/type_traits.hpp].
    - [Keys]: [keys.hpp].

    Utilities
    - [CircularBuffer], [CircularBufferProps]: [util/circular_buffer.hpp].
    - [Utf8]: [util/utf8.hpp].

    The transaction log, [impl/transact_log.hpp]
    - [Varint]: [encode_int], [read_int] and the streams of [impl/input_stream.hpp].
    - [TransactLog]: the instruction set, the encoder with its buffer ([util/buffer.hpp]), the parser.
    - [Reverser]: [TransactReverser], [ReversedNoCopyInputStream].
    - [ConvenientEncoder]: [TransactLogConvenientEncoder] with its selection caches.

    Index sets, [index_set.cpp]
    - [ChunkedRangeVector]: the chunked vector of ranges and its iterators; [RangeBuilder]: its builder.
    - [IndexSet], [IndexSetCount], [IndexSetMerge], [IndexSetShifted]: the set and its operations;
      [RangeList] and [IndexLists]: reference definitions on plain lists; [IndexSetProps]: the
      theorems.

    Changes of collections, [impl/collection_change_builder.cpp], [object_changeset.cpp]
    - [ChangeBuilder]: [CollectionChangeBuilder], its [merge] and [finalize].
    - [Collection], [KeptElements], [Tracking], [TrackedChanges]: the lists that a builder tracks and
      the relation between the two; [ChangeReport]: what is reported at the end.
    - [Transport], [MergeMoves], [MergeChanges], [MergeProps]: two change sets merged.
    - [RowDiff], [LongestMatch], [RowAlignment], [Calculation], [CalculateProps]: [calculate].
    - [ObjectChangeSet]: the changes of the objects of a table.

    From logs to callbacks, [impl/]
    - [TransactLogHandler], [LogTracking]: [transact_log_handler.cpp], its validator and observer;
      [KVOAdapter]: the adapter for key-value observation in that file.
    - [DeepChangeChecker], [RelatedTables], [DeepCheckProps]: [DeepChangeChecker] of
      [collection_notifier.cpp].
    - [CollectionNotifier], [CallbackDelivery]: the callbacks of a notifier, in the same file.
    - [Notifiers], [NotifierRuns], [NotifierPipeline], [NotifierLists]: [object_notifier.cpp],
      [list_notifier.cpp], [results_notifier.cpp]; [ViewHandover]: the hand-over in the last.
    - [IncrementalChangeInfo]: that class of [realm_coordinator.cpp].

    Sync sessions, [sync/sync_session.cpp]
    - [SyncSession]: the states, the methods, the handlers given to the sync client, and the system of
      threads; [SyncTasks], [SyncRuns], [SyncProps], [SyncSamples]: the proofs and sample runs.
    - [SyncNotifiers]: progress and connection notifiers.

    Arrays, [node_header.hpp], [array_direct.hpp], [array.hpp], [query_conditions.hpp]
    - [NodeHeader], [PackedArray], [SortedSearch]: header, elements, binary search.
    - [ArrayFind]: the search for a value; [ChunkFields], [ArraySearch], [ArrayEqual],
      [ArrayRelation], [ArrayFindProps], [ArrayResults]: the bit tricks and the results.

    Schemas, [property.hpp], [object_schema.cpp], [schema.cpp], [object_store.cpp], [shared_realm.cpp]
    - [SchemaData], [SchemaValidation], [SchemaChanges]: data and lookup, validation, comparison.
    - [SchemaStore], [SchemaApply]: reading and changing the schema of a file.
    - [SchemaUpdate]: [Realm::update_schema] and its kin.
    - [SchemaLaws]: what is relied on from groups and tables.
    - [SchemaRead], [SchemaPasses], [SchemaChunks], [SchemaMigration], [SchemaResult], [SchemaRealm]:
      the proofs, from one column to the update of a Realm; [SchemaSamples]: a store in memory and
      concrete files.

    * Interfaces

    What is not in the repository is a class with the operations the code uses, and a second class
    with the laws that its documentation promises: input streams ([NoCopyInputStream],
    [StreamSpec]), the selection instructions of the compiled encoder ([SelectEncoding],
    [SelectEncodingSpec], [SelectionSteps], [SelectionStepsSpec]), [std::sort] ([StdSort]), tables
    and links ([Tables]), groups ([Store], [StoreSpec]).  Theorems about clients are proved over the
    class; each class has an instance, with which the witnesses apply the theorems to concrete
    inputs.

    * What the theorems show

    Each theorem's comment states its conditions; where the code fails without one, a counterexample
    beside the theorem runs it.

    Logs: what is encoded is what is parsed, however the bytes are cut; the selection caches change
    nothing; the reversed log performs the inverses of the operations, which undo what they do to a
    list ([inverse_restores]), except for renamings, link types and moves of list elements
    ([undoable]), which the reverser does not reverse ([reversed_list_move_not_undone]); the
    observer's report of a parsed log is true of every observed list and object ([log_observed]).
    Change sets: for every sequence of changes the report replays to the new list and names the moved
    and modified rows ([changes_reported]); the same after merging, after [calculate], over several
    runs of a notifier and several versions ([merge_reported], [calculate_verified], [results_told],
    [infos_combined]).  Merging is correct while the merged deletions fit the chunks allocated for
    them: always up to two chunks of rows; an object that one version creates is not removed by the
    next, and no table is cleared after the first.
    Index sets: the invariant that [verify()] checks, and the effect of each operation on the members.
    Notification: callbacks that come and go during the delivery, but for removing one that came
    meanwhile; results handed over at most once and at the right version; what the deep checker
    reports is found by the plain search of depth three, and all of it is reported when no two
    tables share a column key ([ColumnsApart], [shared_column_keys_cut]).
    Sync sessions: in every interleaving, the protocol of the sync client is kept, no completion
    callback is called twice, the states follow the documented diagram ([listed_to], [listed_from]; the
    step from Active to WaitingForAccessToken is in one of its lists only), and threads end; no
    callback is lost or left waiting if no other thread runs between the halves of a client resync.
    Arrays: the vectorized search is the plain one, from a state whose limit is not reached, except
    that a count, sum, maximum or minimum of a range that matches as a whole does not stop at its
    limit ([outcome]); binary search counts; header fields are independent.
    Utilities: the circular buffer is a sequence, whatever wraps around and whatever throws, and its
    iterators are positions in it, for the operations that [operation_ok] allows; transcoding
    between UTF-8 and UTF-16 is exact and goes both ways.
    Schemas: validation accepts exactly the well-formed schemas, for names that are compared alike
    everywhere ([same_order]); an automatic update of a Realm ends in a file that needs no change to
    be the target ([storable] targets, [simple_changes]), and an additive one with all that the
    target has, its indexes included when its version is greater; what each mode allows, and when an
    update fails.

    * Bounds and fuel

    A loop over iterators or pointers has as fuel the number of steps the code can take at most (the
    ranges of a set, the bytes of a buffer, the elements of a range, the rows of a list); that the
    fuel is enough is part of each theorem that says what the loop returns, since [OutOfFuel] is not
    the result it gives.  The binary search of [Schema::find] and of the arrays takes the length as
    fuel.  The depth of the deep change checker is 3 and the chunk size of an index set a positive
    parameter ([MaxSize]), as in debug and release builds.  Sync threads end within a bound on the
    steps that is computed from the tasks.

    * What is not modelled

    - [Sources] of the application (Swift), RealmSwift, and the Objective-C++ binding ([.mm]): user
      interface and bridging of types.
    - The core whose bodies are compiled (groups, tables, clusters, the allocator, transactions,
      queries): the headers declare it.  The templates of [query_expression.hpp], [query_engine.hpp]
      and [bplustree.hpp] consist of calls into it.
    - Sockets, HTTP, TLS, files, threads, logging and locks between processes ([util/]): I/O.
    - The rest of [realm_coordinator.cpp] and [shared_realm.cpp], [results.cpp], [list.cpp],
      [object.cpp]: they drive transactions and queries of the compiled core.  Sync users, the sync
      manager and its metadata, subscriptions of partial synchronization: the same, with a server.
    - Capacities reserved in vectors, copies and moves of C++ objects, debug-only checks, and the
      search of arrays with SSE.
    - A race of two threads outside of the locks the code takes: the steps that interleave are those
      between two releases of a lock. *)

From stdpp Require Export base numbers list gmap sorting.
From Stdlib Require Export Lia.

#[global] Open Scope Z_scope.

(** ** Error results

    The C++ code reports failures by throwing; a [REALM_ASSERT] that does not hold
    terminates the process.  Both are values of [result]. *)

Inductive error : Set :=
| BadTransactLog            (** [TransactLogParser::BadTransactLog] *)
| BufferSizeOverflow        (** [util::BufferSizeOverflow] *)
| UnsupportedSchemaChange   (** [_impl::UnsupportedSchemaChange] *)
| InvalidKey                (** [realm::InvalidKey] *)
| AssertionFailed           (** a [REALM_ASSERT] that does not hold *)
| NullDereference           (** not an outcome: the use of a null pointer *)
| OutOfBounds               (** not an outcome: an access outside of a container *)
| OutOfFuel.                (** not an outcome of the code: a model loop given too little fuel *)

#[export] Instance error_eq_dec : EqDecision error.
Proof. solve_decision. Defined.

Inductive result (A : Type) : Type :=
| Ok (a : A)
| Err (e : error).
Arguments Ok {_} _.
Arguments Err {_} _.

#[export] Instance result_ret : MRet result := fun A a => Ok a.
#[export] Instance result_bind : MBind result :=
  fun A B k m => match m with Ok a => k a | Err e => Err e end.
#[export] Instance result_fmap : FMap result :=
  fun A B f m => match m with Ok a => Ok (f a) | Err e => Err e end.

(** [REALM_ASSERT(b)]: nothing when [b] holds, the end of the process when it does not. *)
Definition realm_assert (b : bool) : result unit :=
  if b then Ok tt else Err AssertionFailed.

(** Run a fallible step over a list, left to right. *)
Fixpoint fold_result {A S} (f : S -> A -> result S) (s : S) (l : list A) : result S :=
  match l with
  | [] => Ok s
  | a :: l => s' ← f s a; fold_result f s' l
  end.

Lemma fold_result_app {A S} (f : S -> A -> result S) (s : S) (l1 l2 : list A) :
  fold_result f s (l1 ++ l2) = (s' ← fold_result f s l1; fold_result f s' l2).
Proof.
  revert s; induction l1 as [|a l1 IH]; intros s; simpl; [done|].
  destruct (f s a); simpl; [apply IH|done].
Qed.

Lemma bind_Ok {A B} (r : result A) (k : A -> result B) b : (a ← r; k a) = Ok b -> exists a, r = Ok a /\ k a = Ok b.
Proof. destruct r as [a|e]; [|done]. by exists a. Qed.

(** Invert a sequence of steps that succeeded. *)
Ltac invert_steps :=
  repeat match goal with
  | H : Err _ = Ok _ |- _ => discriminate H
  | H : Ok _ = Ok _ |- _ => injection H as H
  | p : (_ * _)%type |- _ => destruct p
  | H : mbind _ _ = Ok _ |- _ => apply bind_Ok in H as (? & ? & H)
  | H : (if ?b then _ else _) = Ok _ |- _ => destruct b
  end.

Lemma Forall_impl2 {A} (P Q R : A -> Prop) (l : list A) :
  Forall P l -> Forall Q l -> (forall x, P x -> Q x -> R x) -> Forall R l.
Proof. rewrite !Forall_forall. naive_solver. Qed.

(** ** Predicates that keep a state

    A predicate of the code may remember what it found.  It answers exactly [P] for what may be
    asked, from every state that is [ok], which is what the code that calls it relies on. *)

Class ExactOracle {K S} (f : K -> S -> result (bool * S)) (ok : S -> Prop) (asked P : K -> Prop) : Prop :=
  oracle_answer k s : ok s -> asked k -> exists b s', f k s = Ok (b, s') /\ ok s' /\ (b = true <-> P k).

(** The answers to a sequence of questions. *)
Fixpoint ask_all {K S} (f : K -> S -> result (bool * S)) (l : list K) (s : S) : result (list bool) :=
  match l with
  | [] => Ok []
  | k :: l => '(b, s) ← f k s; bs ← ask_all f l s; Ok (b :: bs)
  end.

Lemma ask_all_answers {K S} (f : K -> S -> result (bool * S)) (ok : S -> Prop) (asked : K -> Prop) (R : K -> bool -> Prop) l s :
  (forall k s, ok s -> asked k -> exists b s', f k s = Ok (b, s') /\ ok s' /\ R k b) ->
  ok s -> Forall asked l -> exists bs, ask_all f l s = Ok bs /\ Forall2 R l bs.
Proof.
  intros Hf Hs Hl. revert s Hs. induction Hl as [|k l Hk _ IH]; intros s Hs; [by exists []|].
  destruct (Hf k s Hs Hk) as (b & s1 & Ef & Hs1 & Hb). destruct (IH s1 Hs1) as (bs & E & Hbs).
  exists (b :: bs). cbn [ask_all]. rewrite Ef. cbn [mbind result_bind]. rewrite E. split; [done|]. by constructor.
Qed.

Lemma ask_all_exact {K S} (f : K -> S -> result (bool * S)) ok asked P `{!ExactOracle f ok asked P} l s :
  ok s -> Forall asked l -> exists bs, ask_all f l s = Ok bs /\ Forall2 (fun k b => b = true <-> P k) l bs.
Proof. apply ask_all_answers. intros k s' Hs Hk. by apply oracle_answer. Qed.

(** ** Lists *)

Lemma StronglySorted_filter {B} (R : B -> B -> Prop) (P : B -> Prop) `{forall x, Decision (P x)} (l : list B) :
  StronglySorted R l -> StronglySorted R (filter P l).
Proof.
  induction 1 as [|x l _ IH Hx]; [constructor|]. rewrite filter_cons. case_decide; [|done].
  constructor; [done|].
  rewrite !Forall_forall in *. intros y [_ Hy]%list_elem_of_filter. by apply Hx.
Qed.

Lemma sublist_map {B C} (f : B -> C) (l l' : list B) : l `sublist_of` l' -> f <$> l `sublist_of` f <$> l'.
Proof. induction 1; rewrite ?fmap_cons; by constructor. Qed.

Lemma filter_none {B} (P : B -> Prop) `{forall x, Decision (P x)} (l : list B) :
  Forall (fun x => ~ P x) l -> filter P l = [].
Proof. induction 1; [done|]. by rewrite filter_cons_False. Qed.

Lemma filter_all {B} (P : B -> Prop) `{forall x, Decision (P x)} (l : list B) :
  Forall P l -> filter P l = l.
Proof. induction 1; [done|]. rewrite filter_cons_True by done. by f_equal. Qed.

(** Distinct elements that are not in the wrong order are in the right one. *)
Lemma StronglySorted_strict {A B} (R R' : A -> A -> Prop) (f : A -> B) (l : list A) :
  (forall x y, R x y -> f x <> f y -> R' x y) -> NoDup (f <$> l) -> StronglySorted R l -> StronglySorted R' l.
Proof.
  intros HR Hn Hs. induction Hs as [|x l Hs IH Hx]; [constructor|].
  rewrite fmap_cons in Hn. apply NoDup_cons in Hn as [Hnx Hn]. constructor; [by apply IH|].
  rewrite Forall_forall in *. intros y Hy. apply HR; [by apply Hx|]. intros E. apply Hnx. rewrite E.
  by apply list_elem_of_fmap_2.
Qed.

Lemma StronglySorted_weaken {A} (R R' : A -> A -> Prop) (l : list A) :
  (forall x y, R x y -> R' x y) -> StronglySorted R l -> StronglySorted R' l.
Proof.
  induction 2 as [|x l _ IH Hx]; constructor; [done|]. eapply Forall_impl; [exact Hx|]. naive_solver.
Qed.

Lemma StronglySorted_sublist {A} (R : A -> A -> Prop) (l l' : list A) :
  l `sublist_of` l' -> StronglySorted R l' -> StronglySorted R l.
Proof.
  induction 1 as [|x l l' Hsub IH|x l l' Hsub IH]; [done|intros [Hs Hx]%StronglySorted_inv..].
  - constructor; [by apply IH|]. rewrite Forall_forall in *. intros y Hy. apply Hx.
    by eapply elem_of_sublist.
  - by apply IH.
Qed.

Lemma StronglySorted_fmap {A B} (f : A -> B) (R : B -> B -> Prop) (l : list A) :
  StronglySorted (fun x y => R (f x) (f y)) l -> StronglySorted R (f <$> l).
Proof.
  induction 1 as [|x l Hs IH Hx]; [constructor|]. rewrite fmap_cons. constructor; [done|].
  rewrite Forall_fmap. exact Hx.
Qed.

(** ** Machine words

    A [size_t] is a [Z] between 0 and [2^64 - 1]; [u64] is the reduction the hardware
    performs on every addition and subtraction. *)

Definition word_size : Z := 2 ^ 64.
Definition npos : Z := word_size - 1.
Definition u64 (x : Z) : Z := x mod word_size.

Lemma u64_small x : 0 <= x < word_size -> u64 x = x.
Proof. apply Z.mod_small. Qed.

Lemma u64_range x : 0 <= u64 x < word_size.
Proof. apply Z.mod_pos_bound; reflexivity. Qed.

Lemma u64_add_l a b : u64 (u64 a + b) = u64 (a + b).
Proof. apply Zplus_mod_idemp_l. Qed.

Lemma u64_add_r a b : u64 (a + u64 b) = u64 (a + b).
Proof. apply Zplus_mod_idemp_r. Qed.

Lemma u64_sub_l a b : u64 (u64 a - b) = u64 (a - b).
Proof. apply Zminus_mod_idemp_l. Qed.

Lemma u64_sub_r a b : u64 (a - u64 b) = u64 (a - b).
Proof. apply Zminus_mod_idemp_r. Qed.

(** ** Powers of two *)

Lemma pow2_pos n : 0 <= n -> 0 < 2 ^ n.
Proof. intros; apply Z.pow_pos_nonneg; lia. Qed.

Lemma pow2_le a b : a <= b -> 2 ^ a <= 2 ^ b.
Proof. intros; apply Z.pow_le_mono_r; lia. Qed.

Lemma pow2_double n : 0 <= n -> 2 ^ (n + 1) = 2 * 2 ^ n.
Proof. intros; rewrite Z.pow_add_r by lia; lia. Qed.

Lemma mod_pow2_mod_pow2 x a b :
  0 <= b <= a -> (x mod 2 ^ a) mod 2 ^ b = x mod 2 ^ b.
Proof.
  intros [Hb Hba]. apply Z.mod_mod_divide.
  exists (2 ^ (a - b)). rewrite <- Z.pow_add_r by lia. f_equal. lia.
Qed.

(** Bits below [n] and bits from [n] on do not interfere: their union is their sum. *)
Lemma lor_low_high a b n : 0 <= n -> 0 <= a < 2 ^ n -> Z.lor a (b * 2 ^ n) = a + b * 2 ^ n.
Proof.
  intros Hn Ha. rewrite <- Z.add_lor_land.
  assert (Z.land a (b * 2 ^ n) = 0) as ->; [|lia].
  apply Z.bits_inj'; intros k Hk. rewrite Z.land_spec, Z.bits_0.
  destruct (Z.lt_ge_cases k n).
  - by rewrite Z.mul_pow2_bits_low, andb_false_r by lia.
  - rewrite <- (Z.mod_small a (2 ^ n)) by lia. by rewrite Z.mod_pow2_bits_high by lia.
Qed.

Lemma land_ones_mod x n : 0 <= n -> Z.land x (2 ^ n - 1) = x mod 2 ^ n.
Proof. intros. rewrite <- Z.land_ones, Z.ones_equiv by done. f_equal; lia. Qed.

Lemma mod_wrap_once x K :
  - K <= x < 2 * K ->
  x mod K = if x <? 0 then x + K else if x <? K then x else x - K.
Proof.
  intros ?. destruct (Z.ltb_spec x 0); [|destruct (Z.ltb_spec x K)].
  - symmetry. apply Z.mod_unique with (-1); lia.
  - apply Z.mod_small; lia.
  - symmetry. apply Z.mod_unique with 1; lia.
Qed.

(** ** Automation *)

Create HintDb realm discriminated.
Create Rewrite HintDb u64_norm.
#[export] Hint Resolve u64_range pow2_pos pow2_le : realm.
#[export] Hint Rewrite u64_add_l u64_add_r u64_sub_l u64_sub_r : u64_norm.

(** Destruct every boolean integer comparison in sight, keeping its meaning. *)
Ltac case_Z_compare :=
  match goal with
  | |- context [Z.ltb ?a ?b] => destruct (Z.ltb_spec a b)
  | |- context [Z.leb ?a ?b] => destruct (Z.leb_spec a b)
  | |- context [Z.eqb ?a ?b] => destruct (Z.eqb_spec a b)
  | |- context [Z.gtb ?a ?b] => rewrite (Z.gtb_ltb a b)
  | |- context [Z.geb ?a ?b] => rewrite (Z.geb_leb a b)
  end.

(** Turn boolean integer comparisons among the hypotheses into propositions. *)
Ltac bool_to_Prop :=
  repeat match goal with
  | H : (_ && _)%bool = true |- _ => apply andb_prop in H as [? ?]
  | H : (_ <? _) = true |- _ => apply Z.ltb_lt in H
  | H : (_ <? _) = false |- _ => apply Z.ltb_ge in H
  | H : (_ <=? _) = true |- _ => apply Z.leb_le in H
  | H : (_ <=? _) = false |- _ => apply Z.leb_gt in H
  | H : (_ =? _) = true |- _ => apply Z.eqb_eq in H
  | H : (_ =? _) = false |- _ => apply Z.eqb_neq in H
  end.
