(* ===== verification/SafeInt.v ===== *)
(** Overflow-checked integer operations: [realm/util/safe_int_ops.hpp] and the
    choice of unsigned types of [realm/util/type_traits.hpp].

    An integer type is its signedness and its number of value bits
    ([std::numeric_limits<T>::digits]); a value is a [Z] in the range of its type.
    C++'s conversions, integral promotion and usual arithmetic conversions are
    written out ([cast], [promote], [usual], [arith]).  One Module per
    specialisation of [SafeIntBinopsImpl]; the theorems say that every operation
    is exact for all sixteen-by-sixteen combinations of widths and signedness. *)

From S2P Require Import Prelude.

(** ** Integer types of the C++ abstract machine *)

Record int_type : Set := IntType { is_signed : bool; digits : Z }.

#[export] Instance int_type_eq_dec : EqDecision int_type.
Proof. solve_decision. Defined.

Definition int_t : int_type := IntType true 31.
Definition unsigned_t : int_type := IntType false 32.
Definition int64_t : int_type := IntType true 63.
Definition uint32_t : int_type := IntType false 32.
Definition uint64_t : int_type := IntType false 64.
Definition size_t : int_type := uint64_t.
Definition bool_t : int_type := IntType false 1.

Definition lim_max (t : int_type) : Z := 2 ^ digits t - 1.
Definition lim_min (t : int_type) : Z := if is_signed t then - 2 ^ digits t else 0.
Definition in_range (t : int_type) (x : Z) : Prop := lim_min t <= x <= lim_max t.
Definition in_rangeb (t : int_type) (x : Z) : bool := (lim_min t <=? x) && (x <=? lim_max t).

(** The types the platform has: [bool] and the 8, 16, 32 and 64-bit integers. *)
Definition wf_type (t : int_type) : Prop :=
  digits t ∈ (if is_signed t then [7; 15; 31; 63] else [1; 8; 16; 32; 64]).

(** [T(x)] for an integer [x]: reduction modulo [2^N] (two's complement). *)
Definition cast (t : int_type) (x : Z) : Z :=
  if is_signed t then (x + 2 ^ digits t) mod 2 ^ (digits t + 1) - 2 ^ digits t
  else x mod 2 ^ digits t.

(** Integral promotion: what fits in an [int] becomes one. *)
Definition promote (t : int_type) : int_type := if digits t <=? 31 then int_t else t.

(** The type of a binary arithmetic operation ([ArithBinOpType]). *)
Definition usual (a b : int_type) : int_type :=
  let a := promote a in
  let b := promote b in
  if Bool.eqb (is_signed a) (is_signed b) then (if digits b <=? digits a then a else b)
  else
    let u := if is_signed a then b else a in
    let s := if is_signed a then a else b in
    if digits s <? digits u then u else s.

Definition arith (op : Z -> Z -> Z) (a b : int_type) (x y : Z) : Z :=
  let c := usual a b in cast c (op (cast c x) (cast c y)).

(** [LeastUnsigned<bits>], [ChooseWidestInt<A, B>] and [FastestUnsigned<bits>]. *)
Definition LeastUnsigned (bits : Z) : int_type :=
  if bits <=? 8 then IntType false 8
  else if bits <=? 16 then IntType false 16
  else if bits <=? 32 then IntType false 32
  else IntType false 64.

Definition ChooseWidestInt (a b : int_type) : int_type :=
  if digits b <=? digits a then a else b.

Definition FastestUnsigned (bits : Z) : int_type :=
  ChooseWidestInt unsigned_t (LeastUnsigned bits).

(** ** Helpers of [safe_int_ops.hpp] *)

Definition is_negative (t : int_type) (value : Z) : bool :=
  if is_signed t then value <? 0 else false.

(** [CastToUnsigned<To>], with its specialisation for [bool]. *)
Definition cast_to_unsigned (to : int_type) (from : Z) : Z :=
  if decide (to = bool_t) then Z.land (cast unsigned_t from) 1 else cast to from.

Definition from_twos_compl (to from : int_type) (twos_compl : Z) : Z :=
  let sign_bit_pos := digits from - 1 in
  let sign_bit := cast from (Z.shiftl 1 sign_bit_pos) in
  let non_negative := negb (is_signed to) || (Z.land twos_compl sign_bit =? 0) in
  if non_negative then cast to twos_compl
  else cast to (arith Z.sub int_t to (-1)
                  (cast to (arith Z.sub from from (cast from (-1)) twos_compl))).

(** ** The four specialisations of [SafeIntBinopsImpl]

    [add] and [sub] return the overflow flag and the new value of [lval], which is the
    old one when the operation overflows. *)

Module UU.
Section ops.
Variables L R : int_type.

Definition needed_bits : Z :=
  if digits R <=? digits L then digits L else digits R.
Definition common_unsigned : int_type := FastestUnsigned needed_bits.

Definition equal (l r : Z) : bool := cast common_unsigned l =? cast common_unsigned r.
Definition less (l r : Z) : bool := cast common_unsigned l <? cast common_unsigned r.

Definition add (lval rval : Z) : bool * Z :=
  let lval_2 := cast_to_unsigned L (arith Z.add L R lval rval) in
  let overflow := cast common_unsigned lval_2 <? cast common_unsigned rval in
  if overflow then (true, lval) else (false, lval_2).

Definition sub (lval rval : Z) : bool * Z :=
  let lval_2 := cast common_unsigned
                  (cast common_unsigned lval - cast common_unsigned rval) in
  let overflow := cast common_unsigned lval <? lval_2 in
  if overflow then (true, lval) else (false, cast_to_unsigned L lval_2).
End ops.
End UU.

Module US.
Section ops.
Variables L R : int_type.

Definition needed_bits : Z :=
  if digits R + 1 <=? digits L then digits L else digits R + 1.
Definition common_unsigned : int_type := FastestUnsigned needed_bits.

Definition equal (l r : Z) : bool :=
  if digits R <? digits L then (0 <=? r) && (l =? cast_to_unsigned L r)
  else cast R l =? r.
Definition less (l r : Z) : bool :=
  if digits R <? digits L then (0 <=? r) && (l <? cast_to_unsigned L r)
  else cast R l <? r.

Definition add (lval rval : Z) : bool * Z :=
  let lval_2 := arith Z.add L common_unsigned lval (cast common_unsigned rval) in
  let overflow :=
    if digits L <? digits common_unsigned then
      cast common_unsigned (lim_max L) <? cast common_unsigned lval_2
    else Bool.eqb (lval_2 <? cast common_unsigned lval) (0 <=? rval) in
  if overflow then (true, lval) else (false, cast_to_unsigned L lval_2).

Definition sub (lval rval : Z) : bool * Z :=
  let lval_2 := arith Z.sub L common_unsigned lval (cast common_unsigned rval) in
  let overflow :=
    if digits L <? digits common_unsigned then
      cast common_unsigned (lim_max L) <? cast common_unsigned lval_2
    else Bool.eqb (cast common_unsigned lval <? cast common_unsigned lval_2) (0 <=? rval) in
  if overflow then (true, lval) else (false, cast_to_unsigned L lval_2).
End ops.
End US.

Module SU.
Section ops.
Variables L R : int_type.

Definition needed_bits : Z :=
  if digits R <=? digits L + 1 then digits L + 1 else digits R.
Definition common_unsigned : int_type := FastestUnsigned needed_bits.

Definition equal (l r : Z) : bool :=
  if digits L <? digits R then (0 <=? l) && (cast_to_unsigned R l =? r)
  else l =? cast L r.
Definition less (l r : Z) : bool :=
  if digits L <? digits R then (l <? 0) || (cast_to_unsigned R l <? r)
  else l <? cast L r.

Definition add (lval rval : Z) : bool * Z :=
  let max_add := cast common_unsigned
                   (cast common_unsigned (lim_max L) - cast common_unsigned lval) in
  let overflow := max_add <? cast common_unsigned rval in
  if overflow then (true, lval)
  else (false, from_twos_compl L common_unsigned
                 (arith Z.add common_unsigned R (cast common_unsigned lval) rval)).

Definition sub (lval rval : Z) : bool * Z :=
  let max_sub := cast common_unsigned
                   (cast common_unsigned lval - cast common_unsigned (lim_min L)) in
  let overflow := max_sub <? cast common_unsigned rval in
  if overflow then (true, lval)
  else (false, from_twos_compl L common_unsigned
                 (arith Z.sub common_unsigned R (cast common_unsigned lval) rval)).
End ops.
End SU.

Module SS.
Section ops.
Variables L R : int_type.

Definition equal (l r : Z) : bool := l =? r.
Definition less (l r : Z) : bool := l <? r.

Definition add (lval rval : Z) : bool * Z :=
  let overflow :=
    if rval <? 0 then lval <? arith Z.sub L R (lim_min L) rval
    else arith Z.sub L R (lim_max L) rval <? lval in
  if overflow then (true, lval) else (false, cast L (arith Z.add L R lval rval)).

Definition sub (lval rval : Z) : bool * Z :=
  let overflow :=
    if rval <? 0 then arith Z.add L R (lim_max L) rval <? lval
    else lval <? arith Z.add L R (lim_min L) rval in
  if overflow then (true, lval) else (false, cast L (arith Z.sub L R lval rval)).
End ops.
End SS.

(** ** The public operations *)

Section SafeIntBinops.
Variables L R : int_type.

Definition binops_equal : Z -> Z -> bool :=
  match is_signed L, is_signed R with
  | false, false => UU.equal L R | false, true => US.equal L R
  | true, false => SU.equal L R | true, true => SS.equal
  end.

Definition binops_less : Z -> Z -> bool :=
  match is_signed L, is_signed R with
  | false, false => UU.less L R | false, true => US.less L R
  | true, false => SU.less L R | true, true => SS.less
  end.

Definition int_add_with_overflow_detect : Z -> Z -> bool * Z :=
  match is_signed L, is_signed R with
  | false, false => UU.add L R | false, true => US.add L R
  | true, false => SU.add L R | true, true => SS.add L R
  end.

Definition int_subtract_with_overflow_detect : Z -> Z -> bool * Z :=
  match is_signed L, is_signed R with
  | false, false => UU.sub L R | false, true => US.sub L R
  | true, false => SU.sub L R | true, true => SS.sub L R
  end.
End SafeIntBinops.

Definition int_equal_to (A B : int_type) (a b : Z) : bool := binops_equal A B a b.
Definition int_not_equal_to (A B : int_type) (a b : Z) : bool := negb (binops_equal A B a b).
Definition int_less_than (A B : int_type) (a b : Z) : bool := binops_less A B a b.
Definition int_less_than_or_equal (A B : int_type) (a b : Z) : bool := negb (binops_less B A b a).
Definition int_greater_than (A B : int_type) (a b : Z) : bool := binops_less B A b a.
Definition int_greater_than_or_equal (A B : int_type) (a b : Z) : bool :=
  negb (binops_less A B a b).

Definition int_multiply_with_overflow_detect (L R : int_type) (lval rval : Z)
  : result (bool * Z) :=
  _ ← realm_assert (int_greater_than_or_equal L int_t lval 0);
  _ ← realm_assert (int_greater_than R int_t rval 0);
  if int_less_than (usual L R) L (arith Z.quot L R (lim_max L) rval) lval
  then Ok (true, lval)
  else Ok (false, cast L (arith Z.mul L R lval rval)).

Definition int_shift_left_with_overflow_detect (T : int_type) (lval i : Z)
  : result (bool * Z) :=
  _ ← realm_assert (int_greater_than_or_equal T int_t lval 0);
  if Z.shiftr (lim_max T) i <? lval then Ok (true, lval)
  else Ok (false, cast T (Z.shiftl lval i)).

Definition int_cast_has_overflow (To From : int_type) (from : Z) : bool :=
  int_less_than From To from (lim_min To) || int_less_than To From (lim_max To) from.

(** The flag, and the new value of [to] when the cast is done. *)
Definition int_cast_with_overflow_detect (To From : int_type) (from to : Z) : bool * Z :=
  if negb (int_cast_has_overflow To From from) then (false, cast To from) else (true, to).

(** ** Lemmas on conversions *)

Lemma wf_digits_pos t : wf_type t -> 1 <= digits t <= 64.
Proof.
  unfold wf_type. rewrite list_elem_of_In. destruct (is_signed t); simpl; lia.
Qed.

Lemma wf_unsigned_small t :
  wf_type t -> is_signed t = false -> digits t <= 31 -> digits t <= 16.
Proof. unfold wf_type. rewrite list_elem_of_In. intros Ht Hs. rewrite Hs in Ht. simpl in Ht. lia. Qed.

Lemma cast_unsigned t x : is_signed t = false -> cast t x = x mod 2 ^ digits t.
Proof. unfold cast. by intros ->. Qed.

Lemma cast_in_range t x : 0 <= digits t -> in_range t x -> cast t x = x.
Proof.
  unfold cast, in_range, lim_min, lim_max. intros Hd ?.
  pose proof (pow2_pos (digits t) Hd).
  destruct (is_signed t); [|by rewrite Z.mod_small by lia].
  rewrite pow2_double by done. rewrite Z.mod_small by lia. lia.
Qed.

Lemma cast_range t x : 0 <= digits t -> in_range t (cast t x).
Proof.
  unfold cast, in_range, lim_min, lim_max. intros Hd.
  pose proof (pow2_pos (digits t) Hd).
  destruct (is_signed t).
  - rewrite pow2_double by done.
    pose proof (Z.mod_pos_bound (x + 2 ^ digits t) (2 * 2 ^ digits t)). lia.
  - pose proof (Z.mod_pos_bound x (2 ^ digits t)). lia.
Qed.

Lemma cast_to_unsigned_mod t x :
  is_signed t = false -> 1 <= digits t -> cast_to_unsigned t x = x mod 2 ^ digits t.
Proof.
  intros Hs Hd. unfold cast_to_unsigned. case_decide as Hb; [|by apply cast_unsigned].
  subst t. rewrite cast_unsigned by done. simpl digits.
  change 1 with (Z.ones 1) at 1. rewrite Z.land_ones by lia.
  apply mod_pow2_mod_pow2. lia.
Qed.

Lemma in_range_unsigned t x :
  is_signed t = false -> in_range t x <-> 0 <= x < 2 ^ digits t.
Proof. intros Hs. unfold in_range, lim_min, lim_max. rewrite Hs. lia. Qed.

Lemma in_range_signed t x :
  is_signed t = true -> in_range t x <-> - 2 ^ digits t <= x < 2 ^ digits t.
Proof. intros Hs. unfold in_range, lim_min, lim_max. rewrite Hs. lia. Qed.

Lemma in_range_0 t : wf_type t -> in_range t 0.
Proof.
  intros H%wf_digits_pos. unfold in_range, lim_min, lim_max.
  pose proof (pow2_pos (digits t)). destruct (is_signed t); lia.
Qed.

Lemma fastest_spec n :
  1 <= n <= 64 ->
  is_signed (FastestUnsigned n) = false /\ n <= digits (FastestUnsigned n) /\
  (digits (FastestUnsigned n) = 32 \/ digits (FastestUnsigned n) = 64).
Proof.
  intros. unfold FastestUnsigned, LeastUnsigned.
  repeat case_Z_compare; split_and!; (done || (vm_compute; lia) || (cbn; lia)).
Qed.

Lemma promote_id t : 31 < digits t -> promote t = t.
Proof. intros. unfold promote. by case_Z_compare; [lia|]. Qed.

Lemma promote_small t : digits t <= 31 -> promote t = int_t.
Proof. intros. unfold promote. by case_Z_compare; [|lia]. Qed.

Ltac simpl_promote :=
  repeat match goal with
  | H : digits ?t <= 31 |- context [promote ?t] => rewrite (promote_small t H)
  | H : 31 < digits ?t |- context [promote ?t] => rewrite (promote_id t H)
  end.

(** An unsigned type of at least 32 bits absorbs every unsigned type not wider. *)
Lemma usual_absorb_l c t :
  is_signed c = false -> is_signed t = false -> 31 < digits c -> digits t <= digits c ->
  usual c t = c.
Proof.
  intros Hc Ht H1 H2. unfold usual. rewrite (promote_id c) by done.
  destruct (Z.leb_spec (digits t) 31).
  - rewrite promote_small, Hc by done. simpl. by case_Z_compare; [|lia].
  - rewrite promote_id, Hc, Ht by lia. simpl. by case_Z_compare; [|lia].
Qed.

Lemma usual_absorb_r c t :
  is_signed c = false -> is_signed t = false -> 31 < digits c -> digits t <= digits c ->
  usual t c = c.
Proof.
  intros Hc Ht H1 H2. unfold usual. rewrite (promote_id c) by done.
  destruct (Z.leb_spec (digits t) 31).
  - rewrite promote_small, Hc by done. simpl. by case_Z_compare; [|lia].
  - rewrite promote_id, Hc, Ht by lia. simpl. case_Z_compare; [|done].
    destruct c, t; simpl in *. subst. f_equal. lia.
Qed.

Lemma usual_unsigned a b :
  is_signed a = false -> is_signed b = false ->
  usual a b = int_t /\ digits a <= 31 /\ digits b <= 31 \/
  is_signed (usual a b) = false /\ digits a <= digits (usual a b) /\ digits b <= digits (usual a b).
Proof.
  intros Ha Hb.
  destruct (Z.leb_spec (digits a) 31), (Z.leb_spec (digits b) 31).
  - left. unfold usual. rewrite !promote_small by done. done.
  - right. rewrite usual_absorb_r by (done || lia). split_and!; (done || lia).
  - right. rewrite usual_absorb_l by (done || lia). split_and!; (done || lia).
  - right. unfold usual. rewrite !promote_id, Ha, Hb by done. simpl. case_Z_compare; split_and!; (done || lia).
Qed.

Lemma usual_signed a b :
  is_signed a = true -> is_signed b = true ->
  is_signed (usual a b) = true /\ digits a <= digits (usual a b) /\
  digits b <= digits (usual a b) /\ 31 <= digits (usual a b).
Proof.
  intros Ha Hb. unfold usual.
  destruct (Z.leb_spec (digits a) 31), (Z.leb_spec (digits b) 31);
    simpl_promote; rewrite ?Ha, ?Hb;
    cbn [Bool.eqb is_signed int_t];
    repeat case_Z_compare; rewrite ?Ha, ?Hb; cbn [is_signed digits int_t] in *;
    split_and!; (done || lia).
Qed.

Lemma in_range_signed_mono t u x :
  is_signed t = true -> is_signed u = true -> digits t <= digits u ->
  in_range t x -> in_range u x.
Proof.
  intros Ht Hu Hd. rewrite !in_range_signed by done. pose proof (pow2_le _ _ Hd). lia.
Qed.

(** When the exact result fits the common type, [arith] computes it. *)
Lemma arith_exact op a b x y :
  0 <= digits (usual a b) ->
  in_range (usual a b) x -> in_range (usual a b) y -> in_range (usual a b) (op x y) ->
  arith op a b x y = op x y.
Proof.
  intros ? Hx Hy Ho. unfold arith. cbv zeta.
  rewrite (cast_in_range _ x), (cast_in_range _ y) by done. by apply cast_in_range.
Qed.

(** The top bit of an [n+1]-bit number is set when the number is at least [2^n]. *)
Lemma land_top_bit y n :
  0 <= n -> 0 <= y < 2 * 2 ^ n -> (Z.land y (2 ^ n) =? 0) = (y <? 2 ^ n).
Proof.
  intros Hn Hy. pose proof (pow2_pos n Hn).
  assert (Z.land y (2 ^ n) = if y <? 2 ^ n then 0 else 2 ^ n) as ->
    by (apply Z.bits_inj'; intros k Hk; rewrite Z.land_spec, Z.pow2_bits_eqb by lia;
        destruct (Z.eqb_spec n k) as [<-|Hne];
        [|destruct (y <? 2 ^ n); rewrite ?Z.bits_0, ?Z.pow2_bits_false by lia; apply andb_false_r];
        rewrite andb_true_r, Z.testbit_odd, Z.shiftr_div_pow2 by lia;
        destruct (Z.ltb_spec y (2 ^ n));
        [rewrite Z.div_small, Z.bits_0 by lia; done|];
        rewrite Z.pow2_bits_true by lia;
        rewrite <- (Z.div_unique y (2 ^ n) 1 (y - 2 ^ n)) by lia; done).
  repeat case_Z_compare; (done || lia).
Qed.

Lemma from_twos_compl_spec to from x :
  is_signed to = true -> is_signed from = false -> 1 <= digits to -> digits to + 1 <= digits from ->
  31 < digits from ->
  in_range to x -> from_twos_compl to from (x mod 2 ^ digits from) = x.
Proof.
  intros Ht Hf H1 H2 H3 Hx. pose proof Hx as Hx'. rewrite in_range_signed in Hx by done.
  set (D := digits from) in *.
  pose proof (pow2_le (digits to) (D - 1) ltac:(lia)) as Hle.
  assert (2 ^ D = 2 * 2 ^ (D - 1)) as HD
    by (rewrite <- pow2_double by lia; f_equal; lia).
  pose proof (pow2_pos (D - 1) ltac:(lia)) as Hp.
  unfold from_twos_compl. fold D. rewrite Ht. simpl negb. rewrite orb_false_l.
  rewrite (cast_unsigned from) by done. fold D. rewrite Z.shiftl_mul_pow2, Z.mul_1_l by lia.
  rewrite (Z.mod_small (2 ^ (D - 1))) by lia.
  assert ((Z.land (x mod 2 ^ D) (2 ^ (D - 1)) =? 0) = negb (x <? 0)) as ->.
  { rewrite land_top_bit by (first [lia | rewrite <- HD; apply Z.mod_pos_bound; lia]).
    rewrite mod_wrap_once by lia.
    destruct (Z.ltb_spec x 0), (Z.ltb_spec x (2 ^ D)); case_Z_compare; (done || lia). }
  destruct (Z.ltb_spec x 0); cbn [negb].
  - rewrite mod_wrap_once by lia. destruct (Z.ltb_spec x 0); [|lia].
    assert (arith Z.sub from from (cast from (-1)) (x + 2 ^ D) = - 1 - x) as ->.
    { unfold arith. rewrite usual_absorb_l by (done || lia).
      rewrite !cast_unsigned by done. fold D. rewrite <- Zminus_mod, Zminus_mod_idemp_l.
      symmetry. apply Z.mod_unique with (-1); lia. }
    rewrite (cast_in_range to (-1 - x)) by first [lia | apply in_range_signed; [done|lia]].
    destruct (usual_signed int_t to eq_refl Ht) as (U1 & U2 & U3 & U4).
    pose proof (pow2_le _ _ U3) as Hpu. pose proof (pow2_pos (digits to) ltac:(lia)).
    rewrite arith_exact by first [lia | apply in_range_signed; [done|lia]].
    replace (-1 - (-1 - x)) with x by lia. apply cast_in_range; [lia|done].
  - simpl. rewrite Z.mod_small by lia. apply cast_in_range; [lia|done].
Qed.

(** ** Each specialisation is exact *)

(** What a checked operation must do: the exact value when it fits, the overflow
    flag and the unchanged operand when it does not. *)
Definition checked (L : int_type) (exact lval : Z) : bool * Z :=
  if in_rangeb L exact then (false, exact) else (true, lval).

Lemma checked_in_range L exact lval : in_range L exact -> checked L exact lval = (false, exact).
Proof.
  unfold checked, in_rangeb, in_range. intros [??].
  repeat case_Z_compare; simpl; (done || lia).
Qed.

Lemma checked_overflow L exact lval : ~ in_range L exact -> checked L exact lval = (true, lval).
Proof.
  unfold checked, in_rangeb, in_range. intros H.
  repeat case_Z_compare; simpl; (done || lia).
Qed.

(** A flag that is set exactly when the value does not fit, with the right value when it does. *)
Lemma checked_intro L (flag : bool) v exact lval :
  (flag = true <-> ~ in_range L exact) -> (in_range L exact -> v = exact) ->
  (if flag then (true, lval) else (false, v)) = checked L exact lval.
Proof.
  intros Hf Hv. destruct (decide (in_rangeb L exact)) as [Hb|Hb].
  - assert (in_range L exact) as Hin.
    { unfold in_rangeb in Hb. unfold in_range.
      destruct (Z.leb_spec (lim_min L) exact), (Z.leb_spec exact (lim_max L)); simpl in Hb; done. }
    rewrite checked_in_range by done. destruct flag; [by exfalso; apply Hf|]. by rewrite Hv.
  - assert (~ in_range L exact) as Hin.
    { intros [??]. apply Hb. unfold in_rangeb. repeat case_Z_compare; simpl; (done || lia). }
    rewrite checked_overflow by done. by rewrite (proj2 Hf).
Qed.

Section unsigned_unsigned.
Variables L R : int_type.
Hypothesis HL : is_signed L = false.
Hypothesis HR : is_signed R = false.
Hypothesis WL : wf_type L.
Hypothesis WR : wf_type R.

Local Lemma UU_common :
  is_signed (UU.common_unsigned L R) = false /\
  digits L <= digits (UU.common_unsigned L R) /\ digits R <= digits (UU.common_unsigned L R) /\
  31 < digits (UU.common_unsigned L R).
Proof using WL WR.
  apply wf_digits_pos in WL, WR. unfold UU.common_unsigned.
  destruct (fastest_spec (UU.needed_bits L R)) as (? & Hn & Hd);
    [unfold UU.needed_bits; case_Z_compare; lia|].
  split_and!; [done| |  |lia];
    (etrans; [|exact Hn]); unfold UU.needed_bits; case_Z_compare; lia.
Qed.

Lemma arith_mod_unsigned op l r :
  (op = Z.add \/ op = Z.sub) -> in_range L l -> in_range R r ->
  arith op L R l r mod 2 ^ digits L = op l r mod 2 ^ digits L.
Proof using HL HR WL WR.
  intros Hop Hl Hr. rewrite in_range_unsigned in Hl, Hr by done.
  destruct (usual_unsigned L R HL HR) as [(E & H1 & H2)|(E & H1 & H2)].
  - apply wf_unsigned_small in H1, H2; [|done..].
    pose proof (pow2_le _ _ H1). pose proof (pow2_le _ _ H2).
    rewrite arith_exact; [done|rewrite E; unfold in_range, lim_min, lim_max; simpl;
        destruct Hop as [-> | ->]; lia..].
  - pose proof (wf_digits_pos _ WL).
    unfold arith. cbv zeta. rewrite !cast_unsigned by done. rewrite mod_pow2_mod_pow2 by lia.
    pose proof (pow2_le _ _ H1). pose proof (pow2_le _ _ H2).
    rewrite (Z.mod_small l), (Z.mod_small r) by lia. done.
Qed.

Lemma UU_add_spec l r :
  in_range L l -> in_range R r -> UU.add L R l r = checked L (l + r) l.
Proof using HL HR WL WR.
  intros Hl Hr. pose proof (arith_mod_unsigned Z.add l r (or_introl eq_refl) Hl Hr) as Ha.
  pose proof (wf_digits_pos _ WL). pose proof (wf_digits_pos _ WR).
  destruct UU_common as (C1 & C2 & C3 & C4).
  pose proof (pow2_le _ _ C2). pose proof (pow2_le _ _ C3).
  unfold UU.add. cbv zeta. rewrite cast_to_unsigned_mod by (done || lia). rewrite Ha.
  rewrite !(cast_unsigned (UU.common_unsigned L R)) by done.
  rewrite in_range_unsigned in Hl, Hr by done.
  pose proof (Z.mod_pos_bound (l + r) (2 ^ digits L) ltac:(lia)).
  rewrite (Z.mod_small _ (2 ^ digits (UU.common_unsigned L R))), (Z.mod_small r) by lia.
  apply checked_intro; rewrite in_range_unsigned by done; [|intros; apply Z.mod_small; lia].
  destruct (Z.ltb_spec r (2 ^ digits L)).
  - rewrite Z.ltb_lt, mod_wrap_once by lia. repeat case_Z_compare; lia.
  - rewrite Z.ltb_lt. lia.
Qed.

Lemma UU_sub_spec l r :
  in_range L l -> in_range R r -> UU.sub L R l r = checked L (l - r) l.
Proof using HL HR WL WR.
  intros Hl Hr. rewrite in_range_unsigned in Hl, Hr by done.
  pose proof (wf_digits_pos _ WL). pose proof (wf_digits_pos _ WR).
  destruct UU_common as (C1 & C2 & C3 & C4).
  pose proof (pow2_le _ _ C2). pose proof (pow2_le _ _ C3).
  unfold UU.sub. cbv zeta. rewrite cast_to_unsigned_mod by (done || lia).
  rewrite !(cast_unsigned (UU.common_unsigned L R)) by done.
  rewrite (Z.mod_small l), (Z.mod_small r), mod_wrap_once by lia.
  apply checked_intro; rewrite in_range_unsigned, ?Z.ltb_lt by done.
  - repeat case_Z_compare; lia.
  - intros. repeat case_Z_compare; try lia. apply Z.mod_small; lia.
Qed.

Lemma UU_compare_spec l r :
  in_range L l -> in_range R r ->
  UU.equal L R l r = (l =? r) /\ UU.less L R l r = (l <? r).
Proof using HL HR WL WR.
  intros Hl Hr. rewrite in_range_unsigned in Hl, Hr by done.
  destruct UU_common as (C1 & C2 & C3 & C4).
  pose proof (pow2_le _ _ C2). pose proof (pow2_le _ _ C3).
  unfold UU.equal, UU.less. rewrite !cast_unsigned by done.
  by rewrite (Z.mod_small l), (Z.mod_small r) by lia.
Qed.
End unsigned_unsigned.

Section unsigned_signed.
Variables L R : int_type.
Hypothesis HL : is_signed L = false.
Hypothesis HR : is_signed R = true.
Hypothesis WL : wf_type L.
Hypothesis WR : wf_type R.

Local Lemma US_common :
  is_signed (US.common_unsigned L R) = false /\
  digits L <= digits (US.common_unsigned L R) /\
  digits R + 1 <= digits (US.common_unsigned L R) /\
  31 < digits (US.common_unsigned L R).
Proof using WL WR HR.
  pose proof (wf_digits_pos _ WL). pose proof (wf_digits_pos _ WR).
  assert (digits R <= 63)
    by (revert WR; unfold wf_type; rewrite HR, list_elem_of_In; simpl; lia).
  unfold US.common_unsigned.
  destruct (fastest_spec (US.needed_bits L R)) as (? & Hn & Hd);
    [unfold US.needed_bits; case_Z_compare; lia|].
  split_and!; [done| | |lia];
    (etrans; [|exact Hn]); unfold US.needed_bits; case_Z_compare; lia.
Qed.

(** Both operands, and what the common unsigned type makes of the exact result. *)
Local Lemma US_setup l r :
  in_range L l -> in_range R r ->
  let K := 2 ^ digits (US.common_unsigned L R) in
  (0 <= l < 2 ^ digits L) /\ (- 2 ^ digits R <= r < 2 ^ digits R) /\
  2 ^ digits L <= K /\ 2 * 2 ^ digits R <= K /\
  (digits L < digits (US.common_unsigned L R) -> 2 * 2 ^ digits L <= K) /\
  cast (US.common_unsigned L R) l = l /\
  arith Z.add L (US.common_unsigned L R) l (cast (US.common_unsigned L R) r) = (l + r) mod K /\
  arith Z.sub L (US.common_unsigned L R) l (cast (US.common_unsigned L R) r) = (l - r) mod K.
Proof using HL HR WL WR.
  intros Hl Hr K. rewrite in_range_unsigned in Hl by done. rewrite in_range_signed in Hr by done.
  pose proof (wf_digits_pos _ WL). pose proof (wf_digits_pos _ WR).
  destruct US_common as (C1 & C2 & C3 & C4).
  pose proof (pow2_le _ _ C2). pose proof (pow2_le _ _ C3) as HK.
  rewrite pow2_double in HK by lia.
  assert (cast (US.common_unsigned L R) l = l) as El
    by (rewrite cast_unsigned by done; apply Z.mod_small; lia).
  split_and!; [lia..| |done| |].
  - intros Hlt. rewrite <- pow2_double by lia. apply pow2_le. lia.
  - unfold arith. rewrite usual_absorb_r by (done || lia). cbv zeta. rewrite El.
    rewrite !cast_unsigned by done. rewrite Z.mod_mod by (unfold K in *; lia).
    apply Zplus_mod_idemp_r.
  - unfold arith. rewrite usual_absorb_r by (done || lia). cbv zeta. rewrite El.
    rewrite !cast_unsigned by done. rewrite Z.mod_mod by (unfold K in *; lia).
    apply Zminus_mod_idemp_r.
Qed.

Lemma US_add_spec l r :
  in_range L l -> in_range R r -> US.add L R l r = checked L (l + r) l.
Proof using HL HR WL WR.
  intros Hl Hr. pose proof (wf_digits_pos _ WL).
  destruct (US_setup l r Hl Hr) as (Hl' & Hr' & K1 & K2 & K3 & El & Ea & _).
  destruct US_common as (C1 & C2 & _).
  set (K := 2 ^ digits (US.common_unsigned L R)) in *.
  unfold US.add. cbv zeta. rewrite cast_to_unsigned_mod by (done || lia).
  rewrite Ea, El, !(cast_unsigned (US.common_unsigned L R)) by done. fold K.
  rewrite Z.mod_mod, (Z.mod_small (lim_max L)) by (unfold lim_max; lia).
  rewrite (mod_wrap_once (l + r) K) by lia.
  apply checked_intro; rewrite in_range_unsigned by done.
  - unfold lim_max. destruct (Z.ltb_spec (l + r) 0), (Z.ltb_spec (l + r) K);
      destruct (Z.ltb_spec (digits L) (digits (US.common_unsigned L R)));
      try specialize (K3 ltac:(lia)); try (rewrite Z.ltb_lt; lia);
      assert (2 ^ digits L = K) by (unfold K; f_equal; lia);
      repeat case_Z_compare; simpl; split; (done || lia).
  - intros. repeat case_Z_compare; try lia. apply Z.mod_small; lia.
Qed.

Lemma US_sub_spec l r :
  in_range L l -> in_range R r -> US.sub L R l r = checked L (l - r) l.
Proof using HL HR WL WR.
  intros Hl Hr. pose proof (wf_digits_pos _ WL).
  destruct (US_setup l r Hl Hr) as (Hl' & Hr' & K1 & K2 & K3 & El & _ & Ea).
  destruct US_common as (C1 & C2 & _).
  set (K := 2 ^ digits (US.common_unsigned L R)) in *.
  unfold US.sub. cbv zeta. rewrite cast_to_unsigned_mod by (done || lia).
  rewrite Ea, El, !(cast_unsigned (US.common_unsigned L R)) by done. fold K.
  rewrite Z.mod_mod, (Z.mod_small (lim_max L)) by (unfold lim_max; lia).
  rewrite (mod_wrap_once (l - r) K) by lia.
  apply checked_intro; rewrite in_range_unsigned by done.
  - unfold lim_max. destruct (Z.ltb_spec (l - r) 0), (Z.ltb_spec (l - r) K);
      destruct (Z.ltb_spec (digits L) (digits (US.common_unsigned L R)));
      try specialize (K3 ltac:(lia)); try (rewrite Z.ltb_lt; lia);
      assert (2 ^ digits L = K) by (unfold K; f_equal; lia);
      repeat case_Z_compare; simpl; split; (done || lia).
  - intros. repeat case_Z_compare; try lia. apply Z.mod_small; lia.
Qed.

Lemma US_compare_spec l r :
  in_range L l -> in_range R r ->
  US.equal L R l r = (l =? r) /\ US.less L R l r = (l <? r).
Proof using HL HR WL WR.
  intros Hl Hr. pose proof (wf_digits_pos _ WL). pose proof (wf_digits_pos _ WR).
  pose proof Hl as Hl'. pose proof Hr as Hr'.
  rewrite in_range_unsigned in Hl by done. rewrite in_range_signed in Hr by done.
  unfold US.equal, US.less. destruct (Z.ltb_spec (digits R) (digits L)) as [Hd|Hd].
  - rewrite !cast_to_unsigned_mod by (done || lia). pose proof (pow2_le _ _ (Z.lt_le_incl _ _ Hd)).
    destruct (Z.leb_spec 0 r); simpl; [by rewrite Z.mod_small by lia|].
    repeat case_Z_compare; split; (done || lia).
  - pose proof (pow2_le _ _ Hd).
    by rewrite cast_in_range by first [lia | apply in_range_signed; [done|lia]].
Qed.
End unsigned_signed.

Section signed_unsigned.
Variables L R : int_type.
Hypothesis HL : is_signed L = true.
Hypothesis HR : is_signed R = false.
Hypothesis WL : wf_type L.
Hypothesis WR : wf_type R.

Local Lemma SU_common :
  is_signed (SU.common_unsigned L R) = false /\
  digits L + 1 <= digits (SU.common_unsigned L R) /\
  digits R <= digits (SU.common_unsigned L R) /\
  31 < digits (SU.common_unsigned L R).
Proof using WL WR HL.
  pose proof (wf_digits_pos _ WL). pose proof (wf_digits_pos _ WR).
  assert (digits L <= 63)
    by (revert WL; unfold wf_type; rewrite HL, list_elem_of_In; simpl; lia).
  unfold SU.common_unsigned.
  destruct (fastest_spec (SU.needed_bits L R)) as (? & Hn & Hd);
    [unfold SU.needed_bits; case_Z_compare; lia|].
  split_and!; [done| | |lia];
    (etrans; [|exact Hn]); unfold SU.needed_bits; case_Z_compare; lia.
Qed.

Local Lemma SU_setup l r :
  in_range L l -> in_range R r ->
  let K := 2 ^ digits (SU.common_unsigned L R) in
  (- 2 ^ digits L <= l < 2 ^ digits L) /\ (0 <= r < 2 ^ digits R) /\
  2 * 2 ^ digits L <= K /\ 2 ^ digits R <= K /\
  cast (SU.common_unsigned L R) r = r /\
  arith Z.add (SU.common_unsigned L R) R (cast (SU.common_unsigned L R) l) r = (l + r) mod K /\
  arith Z.sub (SU.common_unsigned L R) R (cast (SU.common_unsigned L R) l) r = (l - r) mod K.
Proof using HL HR WL WR.
  intros Hl Hr K. rewrite in_range_unsigned in Hr by done. rewrite in_range_signed in Hl by done.
  pose proof (wf_digits_pos _ WL). pose proof (wf_digits_pos _ WR).
  destruct SU_common as (C1 & C2 & C3 & C4).
  pose proof (pow2_le _ _ C2) as HK. pose proof (pow2_le _ _ C3).
  rewrite pow2_double in HK by lia.
  assert (cast (SU.common_unsigned L R) r = r) as Er
    by (rewrite cast_unsigned by done; apply Z.mod_small; lia).
  split_and!; [lia..|done| |];
    unfold arith; rewrite usual_absorb_l by (done || lia); cbv zeta; rewrite Er;
    rewrite !cast_unsigned by done; rewrite Z.mod_mod by (unfold K in *; lia).
  - apply Zplus_mod_idemp_l.
  - apply Zminus_mod_idemp_l.
Qed.

Lemma SU_add_spec l r :
  in_range L l -> in_range R r -> SU.add L R l r = checked L (l + r) l.
Proof using HL HR WL WR.
  intros Hl Hr. pose proof (wf_digits_pos _ WL).
  destruct (SU_setup l r Hl Hr) as (Hl' & Hr' & K1 & K2 & Er & Ea & _).
  destruct SU_common as (C1 & C2 & C3 & C4).
  set (K := 2 ^ digits (SU.common_unsigned L R)) in *.
  unfold SU.add. cbv zeta. rewrite Er, Ea, !(cast_unsigned (SU.common_unsigned L R)) by done. fold K.
  rewrite <- Zminus_mod. rewrite (Z.mod_small (lim_max L - l)) by (unfold lim_max; lia).
  apply checked_intro.
  - rewrite in_range_signed, Z.ltb_lt by done. unfold lim_max. lia.
  - intros Hin. apply from_twos_compl_spec; (done || lia).
Qed.

Lemma SU_sub_spec l r :
  in_range L l -> in_range R r -> SU.sub L R l r = checked L (l - r) l.
Proof using HL HR WL WR.
  intros Hl Hr. pose proof (wf_digits_pos _ WL).
  destruct (SU_setup l r Hl Hr) as (Hl' & Hr' & K1 & K2 & Er & _ & Ea).
  destruct SU_common as (C1 & C2 & C3 & C4).
  set (K := 2 ^ digits (SU.common_unsigned L R)) in *.
  unfold SU.sub. cbv zeta. rewrite Er, Ea, !(cast_unsigned (SU.common_unsigned L R)) by done. fold K.
  rewrite <- Zminus_mod. unfold lim_min. rewrite HL. rewrite (Z.mod_small (l - _)) by lia.
  apply checked_intro.
  - rewrite in_range_signed, Z.ltb_lt by done. lia.
  - intros Hin. apply from_twos_compl_spec; (done || lia).
Qed.

Lemma SU_compare_spec l r :
  in_range L l -> in_range R r ->
  SU.equal L R l r = (l =? r) /\ SU.less L R l r = (l <? r).
Proof using HL HR WL WR.
  intros Hl Hr. pose proof (wf_digits_pos _ WL). pose proof (wf_digits_pos _ WR).
  rewrite in_range_unsigned in Hr by done. rewrite in_range_signed in Hl by done.
  unfold SU.equal, SU.less. destruct (Z.ltb_spec (digits L) (digits R)) as [Hd|Hd].
  - rewrite !cast_to_unsigned_mod by (done || lia). pose proof (pow2_le _ _ (Z.lt_le_incl _ _ Hd)).
    destruct (Z.leb_spec 0 l); simpl.
    + rewrite Z.mod_small by lia. by destruct (Z.ltb_spec l 0); [lia|].
    + destruct (Z.ltb_spec l 0); [|lia]. simpl. repeat case_Z_compare; split; (done || lia).
  - pose proof (pow2_le _ _ Hd).
    by rewrite cast_in_range by first [lia | apply in_range_signed; [done|lia]].
Qed.
End signed_unsigned.

Section signed_signed.
Variables L R : int_type.
Hypothesis HL : is_signed L = true.
Hypothesis HR : is_signed R = true.
Hypothesis WL : wf_type L.
Hypothesis WR : wf_type R.

Lemma arith_signed op l r :
  in_range (usual L R) l -> in_range (usual L R) r -> in_range (usual L R) (op l r) ->
  arith op L R l r = op l r.
Proof using HL HR.
  intros. destruct (usual_signed L R HL HR) as (U1 & U2 & U3 & U4).
  apply arith_exact; (done || lia).
Qed.

Ltac signed_exact :=
  apply arith_signed; rewrite in_range_signed by done; unfold lim_min, lim_max; rewrite ?HL; lia.

Lemma SS_add_spec l r :
  in_range L l -> in_range R r -> SS.add L R l r = checked L (l + r) l.
Proof using HL HR WL.
  intros Hl Hr. pose proof (wf_digits_pos _ WL).
  rewrite in_range_signed in Hl, Hr by done.
  destruct (usual_signed L R HL HR) as (U1 & U2 & U3 & U4).
  pose proof (pow2_le _ _ U2). pose proof (pow2_le _ _ U3).
  unfold SS.add. cbv zeta. apply checked_intro; rewrite in_range_signed by done.
  - destruct (Z.ltb_spec r 0).
    + assert (arith Z.sub L R (lim_min L) r = lim_min L - r) as -> by signed_exact.
      rewrite Z.ltb_lt. unfold lim_min. rewrite HL. lia.
    + assert (arith Z.sub L R (lim_max L) r = lim_max L - r) as -> by signed_exact.
      rewrite Z.ltb_lt. unfold lim_max. lia.
  - intros. assert (arith Z.add L R l r = l + r) as -> by signed_exact.
    apply cast_in_range; [lia|]. by apply in_range_signed.
Qed.

Lemma SS_sub_spec l r :
  in_range L l -> in_range R r -> SS.sub L R l r = checked L (l - r) l.
Proof using HL HR WL.
  intros Hl Hr. pose proof (wf_digits_pos _ WL).
  rewrite in_range_signed in Hl, Hr by done.
  destruct (usual_signed L R HL HR) as (U1 & U2 & U3 & U4).
  pose proof (pow2_le _ _ U2). pose proof (pow2_le _ _ U3).
  unfold SS.sub. cbv zeta. apply checked_intro; rewrite in_range_signed by done.
  - destruct (Z.ltb_spec r 0).
    + assert (arith Z.add L R (lim_max L) r = lim_max L + r) as -> by signed_exact.
      rewrite Z.ltb_lt. unfold lim_max. lia.
    + assert (arith Z.add L R (lim_min L) r = lim_min L + r) as -> by signed_exact.
      rewrite Z.ltb_lt. unfold lim_min. rewrite HL. lia.
  - intros. assert (arith Z.sub L R l r = l - r) as -> by signed_exact.
    apply cast_in_range; [lia|]. by apply in_range_signed.
Qed.
End signed_signed.

(** ** The public operations are exact *)

Lemma binops_equal_spec L R l r :
  wf_type L -> wf_type R -> in_range L l -> in_range R r ->
  binops_equal L R l r = (l =? r).
Proof.
  intros. unfold binops_equal. destruct (is_signed L) eqn:?, (is_signed R) eqn:?;
    [done|by apply SU_compare_spec|by apply US_compare_spec|by apply UU_compare_spec].
Qed.

Lemma binops_less_spec L R l r :
  wf_type L -> wf_type R -> in_range L l -> in_range R r ->
  binops_less L R l r = (l <? r).
Proof.
  intros. unfold binops_less. destruct (is_signed L) eqn:?, (is_signed R) eqn:?;
    [done|by apply SU_compare_spec|by apply US_compare_spec|by apply UU_compare_spec].
Qed.

Lemma int_add_checked L R l r :
  wf_type L -> wf_type R -> in_range L l -> in_range R r ->
  int_add_with_overflow_detect L R l r = checked L (l + r) l.
Proof.
  intros. unfold int_add_with_overflow_detect.
  destruct (is_signed L) eqn:?, (is_signed R) eqn:?;
    auto using UU_add_spec, US_add_spec, SU_add_spec, SS_add_spec.
Qed.

Lemma int_subtract_checked L R l r :
  wf_type L -> wf_type R -> in_range L l -> in_range R r ->
  int_subtract_with_overflow_detect L R l r = checked L (l - r) l.
Proof.
  intros. unfold int_subtract_with_overflow_detect.
  destruct (is_signed L) eqn:?, (is_signed R) eqn:?;
    auto using UU_sub_spec, US_sub_spec, SU_sub_spec, SS_sub_spec.
Qed.

(** ** Multiplication, shift and casts *)

Lemma usual_wf a b : wf_type a -> wf_type b -> wf_type (usual a b).
Proof.
  assert (forall t, wf_type t -> wf_type (promote t)) as Hp.
  { intros t Ht. unfold promote. case_Z_compare; [|done].
    unfold wf_type. rewrite list_elem_of_In. simpl. lia. }
  intros Ha%Hp Hb%Hp. unfold usual. cbv zeta.
  repeat case_match; done.
Qed.

Lemma usual_digits a b :
  digits a <= digits (usual a b) /\ digits b <= digits (usual a b).
Proof.
  assert (forall t, digits t <= digits (promote t)) as Hp
    by (intros t; unfold promote; case_Z_compare; simpl; lia).
  pose proof (Hp a). pose proof (Hp b). unfold usual. cbv zeta.
  destruct (is_signed (promote a)), (is_signed (promote b)); simpl; case_Z_compare; lia.
Qed.

Lemma in_range_nonneg t x : 0 <= digits t -> 0 <= x < 2 ^ digits t -> in_range t x.
Proof.
  intros Hd ?. unfold in_range, lim_min, lim_max.
  pose proof (pow2_pos _ Hd). destruct (is_signed t); lia.
Qed.

Lemma in_range_lt t x : in_range t x -> x < 2 ^ digits t.
Proof. unfold in_range, lim_max. lia. Qed.

Lemma in_range_limits t : wf_type t -> in_range t (lim_min t) /\ in_range t (lim_max t).
Proof.
  intros H%wf_digits_pos. unfold in_range, lim_min, lim_max.
  pose proof (pow2_pos (digits t)). destruct (is_signed t); lia.
Qed.

Lemma wf_int_t : wf_type int_t.
Proof. unfold wf_type. rewrite list_elem_of_In. simpl. lia. Qed.

Lemma in_range_int_0 : in_range int_t 0.
Proof. vm_compute. by split. Qed.

#[export] Hint Resolve wf_int_t in_range_int_0 : realm.

Lemma int_multiply_checked L R l r :
  wf_type L -> wf_type R -> in_range L l -> in_range R r -> 0 <= l -> 0 < r ->
  int_multiply_with_overflow_detect L R l r = Ok (checked L (l * r) l).
Proof.
  intros WL WR Hl Hr Hl0 Hr0. unfold int_multiply_with_overflow_detect.
  unfold int_greater_than_or_equal, int_greater_than, int_less_than.
  rewrite (binops_less_spec L int_t), (binops_less_spec int_t R) by auto with realm.
  destruct (Z.ltb_spec l 0); [lia|]. destruct (Z.ltb_spec 0 r); [|lia]. simpl.
  pose proof (wf_digits_pos _ WL). pose proof (wf_digits_pos _ (usual_wf _ _ WL WR)).
  destruct (usual_digits L R) as [D1 D2]. apply in_range_lt in Hr as Hr'.
  apply in_range_lt in Hl as Hl'.
  pose proof (pow2_le _ _ D1). pose proof (pow2_le _ _ D2).
  pose proof (Z.quot_pos (lim_max L) r ltac:(unfold lim_max; lia) ltac:(lia)).
  assert (Z.quot (lim_max L) r <= lim_max L) by (apply Z.quot_le_upper_bound; unfold lim_max; nia).
  assert (Hq : arith Z.quot L R (lim_max L) r = lim_max L ÷ r).
  { apply arith_exact; try apply in_range_nonneg; unfold lim_max in *; lia. }
  rewrite Hq. rewrite binops_less_spec; [|by apply usual_wf|done| |done].
  2: { apply in_range_nonneg; unfold lim_max in *; lia. }
  assert (Hiff : lim_max L ÷ r < l <-> ~ in_range L (l * r)).
  { assert (lim_max L ÷ r < l <-> lim_max L < l * r) as ->.
    - pose proof (Z.quot_rem (lim_max L) r ltac:(lia)).
      pose proof (Z.rem_bound_pos (lim_max L) r ltac:(unfold lim_max; lia) ltac:(lia)). nia.
    - unfold in_range, lim_min. pose proof (pow2_pos (digits L)).
      destruct (is_signed L); nia. }
  destruct (Z.ltb_spec (lim_max L ÷ r) l).
  - rewrite checked_overflow by tauto. done.
  - assert (in_range L (l * r)) as Hin.
    { apply in_range_nonneg; [lia|]. split; [nia|]. apply Z.lt_nge. intros Hge.
      apply (Z.lt_irrefl (lim_max L ÷ r)). apply Z.lt_le_trans with l; [|done].
      apply Hiff. intros ?%in_range_lt. lia. }
    rewrite checked_in_range by done. do 2 f_equal.
    apply in_range_lt in Hin as ?.
    rewrite arith_exact; [by apply cast_in_range; [lia|]|lia|apply in_range_nonneg; nia..].
Qed.

Lemma int_shift_left_checked T l i :
  wf_type T -> in_range T l -> 0 <= l -> 0 <= i ->
  int_shift_left_with_overflow_detect T l i = Ok (checked T (l * 2 ^ i) l).
Proof.
  intros WT Hl Hl0 Hi. unfold int_shift_left_with_overflow_detect, int_greater_than_or_equal.
  rewrite binops_less_spec by auto with realm.
  destruct (Z.ltb_spec l 0); [lia|]. simpl.
  pose proof (wf_digits_pos _ WT). pose proof (pow2_pos _ Hi). apply in_range_lt in Hl as Hl'.
  rewrite Z.shiftr_div_pow2, Z.shiftl_mul_pow2 by lia.
  pose proof (Z.div_mod (lim_max T) (2 ^ i) ltac:(lia)).
  pose proof (Z.mod_pos_bound (lim_max T) (2 ^ i) ltac:(lia)).
  destruct (Z.ltb_spec (lim_max T / 2 ^ i) l).
  - rewrite checked_overflow; [done|]. intros [_ ?]. nia.
  - assert (in_range T (l * 2 ^ i)) as Hin
      by (apply in_range_nonneg; [lia|]; unfold lim_max in *; nia).
    rewrite checked_in_range by done. by rewrite cast_in_range by (done || lia).
Qed.

Lemma int_cast_checked To From from to :
  wf_type To -> wf_type From -> in_range From from ->
  int_cast_with_overflow_detect To From from to = checked To from to.
Proof.
  intros WT WF Hf. destruct (in_range_limits To WT).
  unfold int_cast_with_overflow_detect, int_cast_has_overflow, int_less_than.
  rewrite !binops_less_spec by done.
  destruct (Z.ltb_spec from (lim_min To)), (Z.ltb_spec (lim_max To) from); simpl;
    try (rewrite checked_overflow by (unfold in_range; lia); done).
  pose proof (wf_digits_pos _ WT).
  rewrite checked_in_range by (unfold in_range; lia).
  by rewrite cast_in_range by first [lia | unfold in_range; lia].
Qed.

(** ** Properties *)

(** C40: on every pair of integer types, [int_add_with_overflow_detect] and
    [int_subtract_with_overflow_detect] deliver the exact sum and difference when it is
    representable in the type of the left operand; otherwise they raise the flag and leave
    the operand alone. *)
Theorem int_add_sub_exact (L R : int_type) (l r : Z) :
  wf_type L -> wf_type R -> in_range L l -> in_range R r ->
  int_add_with_overflow_detect L R l r =
    (if in_rangeb L (l + r) then (false, l + r) else (true, l)) /\
  int_subtract_with_overflow_detect L R l r =
    (if in_rangeb L (l - r) then (false, l - r) else (true, l)).
Proof. intros. by rewrite int_add_checked, int_subtract_checked. Qed.

Lemma int_add_sub_exact_witness :
  int_add_with_overflow_detect int64_t size_t (2 ^ 63 - 1) 1 = (true, 2 ^ 63 - 1) /\
  int_subtract_with_overflow_detect int64_t size_t (2 ^ 63 - 1) 1 = (false, 2 ^ 63 - 2).
Proof.
  refine (int_add_sub_exact int64_t size_t (2 ^ 63 - 1) 1 _ _ _ _);
    first [apply (bool_decide_unpack _); vm_compute; exact I | by vm_compute].
Defined.

(** The six mixed-type comparisons are the comparisons of the mathematical integers,
    whatever the widths and signedness of the two types (where C++'s own operators are not). *)
Theorem int_comparisons_exact (A B : int_type) (a b : Z) :
  wf_type A -> wf_type B -> in_range A a -> in_range B b ->
  int_equal_to A B a b = (a =? b) /\ int_not_equal_to A B a b = negb (a =? b) /\
  int_less_than A B a b = (a <? b) /\ int_less_than_or_equal A B a b = (a <=? b) /\
  int_greater_than A B a b = (b <? a) /\ int_greater_than_or_equal A B a b = (b <=? a).
Proof.
  intros. unfold int_equal_to, int_not_equal_to, int_less_than, int_less_than_or_equal,
    int_greater_than, int_greater_than_or_equal.
  rewrite binops_equal_spec, !binops_less_spec, <- !Z.leb_antisym by done. done.
Qed.

Lemma int_comparisons_exact_witness :
  int_less_than int_t unsigned_t (-1) 0 = true /\ int_greater_than int_t unsigned_t (-1) 0 = false.
Proof.
  destruct (int_comparisons_exact int_t unsigned_t (-1) 0) as (_ & _ & H1 & _ & H2 & _);
    [apply (bool_decide_unpack _); vm_compute; exact I..|by vm_compute|by vm_compute|].
  split; [exact H1|exact H2].
Defined.

(** Checked multiplication, left shift and casts are exact when the result is
    representable, flag the overflow otherwise, and their assertions on the sign of the
    operands hold whenever the documented preconditions do. *)
Theorem int_multiply_shift_cast_exact (L R To : int_type) (l r i to : Z) :
  wf_type L -> wf_type R -> wf_type To -> in_range L l -> in_range R r ->
  0 <= l -> 0 < r -> 0 <= i ->
  int_multiply_with_overflow_detect L R l r =
    Ok (if in_rangeb L (l * r) then (false, l * r) else (true, l)) /\
  int_shift_left_with_overflow_detect L l i =
    Ok (if in_rangeb L (l * 2 ^ i) then (false, l * 2 ^ i) else (true, l)) /\
  int_cast_with_overflow_detect To R r to =
    (if in_rangeb To r then (false, r) else (true, to)).
Proof.
  intros. by rewrite int_multiply_checked, int_shift_left_checked, int_cast_checked.
Qed.

Lemma int_multiply_shift_cast_exact_witness :
  int_multiply_with_overflow_detect size_t int_t (2 ^ 63) 3 = Ok (true, 2 ^ 63) /\
  int_shift_left_with_overflow_detect size_t (2 ^ 63) 0 = Ok (false, 2 ^ 63) /\
  int_cast_with_overflow_detect bool_t int_t 3 7 = (true, 7).
Proof.
  refine (int_multiply_shift_cast_exact size_t int_t bool_t (2 ^ 63) 3 0 7 _ _ _ _ _ _ _ _);
    first [apply (bool_decide_unpack _); vm_compute; exact I | by vm_compute].
Defined.
