(* ===== verification/Keys.v ===== *)
(** The keys of tables, columns and objects, [realm/keys.hpp]: their null values and the
    packing of a column key.  A key is its integer value; the platform is LP64 (an
    [unsigned long] has 64 bits). *)

From S2P Require Import Prelude SafeInt.

(** Table, column and object keys are their integer values ([uint32_t], [int64_t],
    [int64_t]). *)
Abbreviation TableKey := Z (only parsing).
Abbreviation ColKey := Z (only parsing).
Abbreviation ObjKey := Z (only parsing).

(** The values of the default constructors. *)
Definition null_table_key : TableKey := Z.shiftr (cast uint32_t (-1)) 1.
Definition null_col_key : ColKey := Z.shiftr (cast uint64_t (-1)) 1.
Definition null_key : ObjKey := -1.

(** The conversions to [bool]. *)
Definition table_key_bool (key : TableKey) : bool := negb (key =? null_table_key).
Definition col_key_bool (key : ColKey) : bool := negb (key =? null_col_key).
Definition obj_key_bool (key : ObjKey) : bool := negb (key =? -1).

(** [ColKey::ColKey(Idx, ColumnType, ColumnAttrMask, unsigned)]. *)
Definition ColKey_make (index type attrs tag : Z) : ColKey :=
  cast int64_t
    (Z.lor (Z.lor (Z.lor (Z.land index 0xFFFF)
                         (cast uint64_t (Z.shiftl (Z.land type 0x3F) 16)))
                  (cast uint64_t (Z.shiftl (Z.land attrs 0xFF) 22)))
           (cast uint64_t (Z.shiftl (Z.land tag 0xFFFFFFFF) 30))).

Definition get_index (value : ColKey) : Z := Z.land (cast unsigned_t value) 0xFFFF.
Definition get_type (value : ColKey) : Z := Z.land (Z.shiftr (cast unsigned_t value) 16) 0x3F.
Definition get_attrs (value : ColKey) : Z := Z.land (Z.shiftr (cast unsigned_t value) 22) 0xFF.
Definition get_tag (value : ColKey) : Z :=
  cast unsigned_t (Z.land (cast uint64_t (Z.shiftr value 30)) 0xFFFFFFFF).

(** ** The packing as a sum *)

(** Bits below [n], and [f] shifted to position [n]. *)
Lemma lor_field a f n w :
  0 <= n -> 0 <= w -> n + w <= 64 -> 0 <= a < 2 ^ n -> 0 <= f < 2 ^ w ->
  Z.lor a (cast uint64_t (Z.shiftl f n)) = a + f * 2 ^ n /\
  0 <= a + f * 2 ^ n < 2 ^ (n + w).
Proof.
  intros Hn Hw Hm Ha Hf. rewrite Z.shiftl_mul_pow2 by lia.
  assert (Hb : 0 <= a + f * 2 ^ n < 2 ^ (n + w)).
  { rewrite Z.pow_add_r by lia. split; [apply Z.add_nonneg_nonneg; [lia|apply Z.mul_nonneg_nonneg; lia]|].
    apply Z.lt_le_trans with (2 ^ n + f * 2 ^ n); [lia|].
    replace (2 ^ n + f * 2 ^ n) with (2 ^ n * (f + 1)) by ring.
    apply Z.mul_le_mono_nonneg_l; lia. }
  pose proof (pow2_le (n + w) 64 ltac:(lia)).
  assert (0 <= f * 2 ^ n) by (apply Z.mul_nonneg_nonneg; lia).
  rewrite cast_unsigned by done. change (digits uint64_t) with 64.
  rewrite Z.mod_small by lia. by rewrite lor_low_high by lia.
Qed.

Lemma ColKey_make_sum index type attrs tag :
  ColKey_make index type attrs tag =
    index mod 2 ^ 16 + type mod 2 ^ 6 * 2 ^ 16 + attrs mod 2 ^ 8 * 2 ^ 22 + tag mod 2 ^ 32 * 2 ^ 30 /\
  0 <= ColKey_make index type attrs tag < 2 ^ 62.
Proof.
  unfold ColKey_make.
  change 0xFFFF with (2 ^ 16 - 1). change 0x3F with (2 ^ 6 - 1). change 0xFF with (2 ^ 8 - 1).
  change 0xFFFFFFFF with (2 ^ 32 - 1). rewrite !land_ones_mod by lia.
  pose proof (Z.mod_pos_bound index (2 ^ 16) ltac:(lia)).
  pose proof (Z.mod_pos_bound type (2 ^ 6) ltac:(lia)).
  pose proof (Z.mod_pos_bound attrs (2 ^ 8) ltac:(lia)).
  pose proof (Z.mod_pos_bound tag (2 ^ 32) ltac:(lia)).
  destruct (lor_field (index mod 2 ^ 16) (type mod 2 ^ 6) 16 6) as [-> ?]; try lia.
  destruct (lor_field (index mod 2 ^ 16 + type mod 2 ^ 6 * 2 ^ 16) (attrs mod 2 ^ 8) 22 8)
    as [-> ?]; try lia.
  destruct (lor_field (index mod 2 ^ 16 + type mod 2 ^ 6 * 2 ^ 16 + attrs mod 2 ^ 8 * 2 ^ 22)
    (tag mod 2 ^ 32) 30 32) as [-> ?]; try lia.
  rewrite cast_in_range; [done|done|]. apply in_range_signed; [done|].
  change (digits int64_t) with 63. lia.
Qed.

(** ** Properties *)

(** A column key gives back the index, the type, the attributes and the tag it was made
    of, each reduced to its field; it is never negative and never the null key. *)
Theorem ColKey_fields (index type attrs tag : Z) :
  let key := ColKey_make index type attrs tag in
  get_index key = index mod 2 ^ 16 /\ get_type key = type mod 2 ^ 6 /\
  get_attrs key = attrs mod 2 ^ 8 /\ get_tag key = tag mod 2 ^ 32 /\
  0 <= key < 2 ^ 62 /\ col_key_bool key = true.
Proof.
  intros key. destruct (ColKey_make_sum index type attrs tag) as [E B].
  fold key in E, B. clearbody key. unfold get_index, get_type, get_attrs, get_tag, col_key_bool.
  change 0xFFFF with (2 ^ 16 - 1). change 0x3F with (2 ^ 6 - 1). change 0xFF with (2 ^ 8 - 1).
  change 0xFFFFFFFF with (2 ^ 32 - 1). rewrite !land_ones_mod, !Z.shiftr_div_pow2 by lia.
  rewrite !cast_unsigned by done. change (digits unsigned_t) with 32. change (digits uint64_t) with 64.
  change null_col_key with (2 ^ 63 - 1).
  assert (key <> 2 ^ 63 - 1) by lia.
  split_and!; try lia; try (by case_Z_compare);
    Z.to_euclidean_division_equations; lia.
Qed.
