(* ===== verification/CircularBuffer.v ===== *)
(** [util::CircularBuffer] of [realm/util/circular_buffer.hpp]: a sequence with insertion and
    removal at both ends, in one chunk of memory that it may wrap around.

    Memory is a list of slots; a slot holds the object that lives there, or none.  Constructing an
    object fills its slot, destroying one empties it, and the use of an object outside of its
    lifetime is [DeadObject], which is not an outcome of correct code.  [m_memory_owner] is the
    address of the chunk, 0 for none; an allocation gives another one.  Constructors of elements
    and allocations may throw (class [Elements]), and what a step did before it throws stays
    done.  A [const T&] is the value of an object elsewhere or refers to a slot of the buffer.

    [difference_type] and [size_type] are the 64-bit integers of the platform. *)

From S2P Require Import Prelude SafeInt.

Class Elements (T : Type) := {
  construct_throws : T -> bool;     (** whether the construction of an element with the value throws *)
  nothrow_move : bool;              (** whether [std::move_if_noexcept] moves *)
  can_allocate : Z -> bool;         (** whether there is memory for a number of elements *)
  default_value : T
}.

Inductive buffer_error : Set :=
| OutOfRange            (** [util::out_of_range] *)
| CapacityOverflow      (** [util::overflow_error] *)
| BadAlloc
| ElementThrows         (** what the constructor of an element throws *)
| BufferAssertion       (** a [REALM_ASSERT] that does not hold *)
| DeadObject            (** not an outcome: the use of an object that does not live *)
| LoopFuel.             (** not an outcome of the code: a loop of the model given too little fuel *)

Inductive outcome (A : Type) := Returns (a : A) | Throws (e : buffer_error).
Arguments Returns {_} _.
Arguments Throws {_} _.

Record CircularBuffer (T : Type) := MkBuffer {
  m_memory_owner : Z;
  m_memory : list (option T);
  m_begin : Z;
  m_size : Z;
  m_allocated_size : Z
}.
Arguments MkBuffer {_} _ _ _ _ _.
Arguments m_memory_owner {_} _.
Arguments m_memory {_} _.
Arguments m_begin {_} _.
Arguments m_size {_} _.
Arguments m_allocated_size {_} _.

(** A step on a buffer; the buffer is what the step leaves, whether it throws or not. *)
Definition B (T A : Type) : Type := CircularBuffer T -> outcome A * CircularBuffer T.
#[export] Instance B_ret {T} : MRet (B T) := fun A a b => (Returns a, b).
#[export] Instance B_bind {T} : MBind (B T) := fun A C k m b =>
  match m b with (Returns a, b) => k a b | (Throws e, b) => (Throws e, b) end.

(** Where a [const T&] leads. *)
Inductive Reference (T : Type) := Outside (x : T) | InSlot (owner slot : Z).
Arguments Outside {_} _.
Arguments InSlot {_} _ _.

Section buffer.
Context {T : Type} `{Elements T}.
Implicit Types (b : CircularBuffer T).

Definition throw {A} (e : buffer_error) : B T A := fun b => (Throws e, b).
Definition get {A} (f : CircularBuffer T -> A) : B T A := fun b => (Returns (f b), b).
Definition change (f : CircularBuffer T -> CircularBuffer T) : B T unit := fun b => (Returns tt, f b).
(** A function that fails only by an assertion. *)
Definition lift {A} (r : result A) : B T A := match r with Ok a => mret a | Err _ => throw BufferAssertion end.
Definition assert (c : bool) : B T unit := if c then mret tt else throw BufferAssertion.

Definition with_begin (i : Z) b := MkBuffer (m_memory_owner b) (m_memory b) i (m_size b) (m_allocated_size b).
Definition with_size (n : Z) b := MkBuffer (m_memory_owner b) (m_memory b) (m_begin b) n (m_allocated_size b).
Definition with_memory (memory : list (option T)) b := MkBuffer (m_memory_owner b) memory (m_begin b) (m_size b) (m_allocated_size b).

(** ** Slots *)

Definition slot_at (i : Z) (memory : list (option T)) : option (option T) := if i <? 0 then None else memory !! Z.to_nat i.

(** [memory[i]], where a living object is used. *)
Definition read_slot (i : Z) : B T T := fun b =>
  match slot_at i (m_memory b) with Some (Some x) => (Returns x, b) | _ => (Throws DeadObject, b) end.

(** [new (&memory[i]) T(value)]. *)
Definition construct (i : Z) (x : T) : B T unit := fun b =>
  if construct_throws x then (Throws ElementThrows, b)
  else match slot_at i (m_memory b) with
       | Some _ => (Returns tt, with_memory (<[Z.to_nat i := Some x]> (m_memory b)) b)
       | None => (Throws DeadObject, b)
       end.

(** [memory[i].~T()]. *)
Definition destroy_slot (i : Z) : B T unit := fun b =>
  match slot_at i (m_memory b) with
  | Some (Some _) => (Returns tt, with_memory (<[Z.to_nat i := None]> (m_memory b)) b)
  | _ => (Throws DeadObject, b)
  end.

Definition deref (r : Reference T) : B T T :=
  match r with
  | Outside x => mret x
  | InSlot owner slot => current ← get m_memory_owner; if owner =? current then read_slot slot else throw DeadObject
  end.

(** ** Indices *)

Definition circular_inc (index : Z) b : Z :=
  let index_2 := u64 (index + 1) in
  if index_2 <? m_allocated_size b then index_2 else 0.

Definition circular_dec (index : Z) b : Z :=
  if 0 <? index then index - 1 else u64 (m_allocated_size b - 1).

Definition wrap (index : Z) b : Z :=
  let top := u64 (m_allocated_size b - m_begin b) in
  if index <? top then u64 (m_begin b + index) else u64 (index - top).

Definition unwrap (index : Z) b : Z :=
  if m_begin b <=? index then index - m_begin b else u64 (m_allocated_size b - (m_begin b - index)).

(** ** Memory *)

(** The loop of [destroy] and of [realloc]: the object at [j] and those after it. *)
Fixpoint destroy_from (n : nat) (j : Z) : B T unit :=
  match n with
  | O => mret tt
  | S n => _ ← destroy_slot j; j ← get (circular_inc j); destroy_from n j
  end.

Definition destroy (offset : Z) : B T unit :=
  size ← get m_size; j ← get m_begin; destroy_from (Z.to_nat (size - offset)) j.

(** The elements that [realloc] puts into the new chunk, or what the constructor of one throws;
    the copies that were made are destroyed then. *)
Fixpoint moved_elements (n : nat) (j : Z) : B T (list T) :=
  match n with
  | O => mret []
  | S n =>
      x ← read_slot j;
      _ ← (if negb nothrow_move && construct_throws x then throw ElementThrows else mret tt);
      j ← get (circular_inc j);
      l ← moved_elements n j;
      mret (x :: l)
  end.

Definition realloc (new_allocated_size : Z) : B T unit :=
  _ ← assert (1 <? new_allocated_size);
  size ← get m_size;
  _ ← assert (size <? new_allocated_size);
  _ ← (if can_allocate new_allocated_size then mret tt else throw BadAlloc);
  first ← get m_begin;
  l ← moved_elements (Z.to_nat size) first;
  _ ← destroy_from (Z.to_nat size) first;
  change (fun b => MkBuffer (m_memory_owner b + 1) ((Some <$> l) ++ replicate (Z.to_nat (new_allocated_size - size)) None)
                     0 (m_size b) new_allocated_size).

Definition reserve (capacity : Z) : B T unit :=
  if capacity =? 0 then mret tt
  else
    let '(overflow, min_allocated_size) := int_add_with_overflow_detect size_t int_t capacity 1 in
    if overflow : bool then throw CapacityOverflow
    else
      allocated ← get m_allocated_size;
      if min_allocated_size <=? allocated then mret tt
      else
        '(overflow, doubled) ← lift (int_multiply_with_overflow_detect size_t int_t allocated 2);
        let new_allocated_size := if overflow : bool then lim_max size_t else doubled in
        realloc (if new_allocated_size <? min_allocated_size then min_allocated_size else new_allocated_size).

Definition shrink_to_fit : B T unit :=
  size ← get m_size;
  allocated ← get m_allocated_size;
  if 0 <? size then
    let new_allocated_size := u64 (size + 1) in
    if new_allocated_size <? allocated then realloc new_allocated_size else mret tt
  else change (fun b => MkBuffer 0 [] 0 (m_size b) 0).

(** ** Access *)

Definition empty b : bool := m_size b =? 0.
Definition size b : Z := m_size b.
Definition capacity b : Z := if 0 <? m_allocated_size b then m_allocated_size b - 1 else 0.

(** [operator[]]: the slot that the reference refers to. *)
Definition operator_index (i : Z) : B T Z :=
  n ← get m_size; _ ← assert (i <? n); get (wrap i).
Definition at_ (i : Z) : B T Z :=
  n ← get m_size; if i <? n then operator_index i else throw OutOfRange.
Definition front : B T Z := operator_index 0.
Definition back : B T Z := n ← get m_size; operator_index (u64 (n - 1)).

(** ** Modifiers *)

Definition emplace_front (args : Reference T) : B T Z :=
  n ← get m_size;
  let new_size := u64 (n + 1) in
  _ ← reserve new_size;
  allocated ← get m_allocated_size;
  _ ← assert (0 <? allocated);
  first ← get m_begin;
  i ← get (circular_dec first);
  x ← deref args;
  _ ← construct i x;
  _ ← change (with_begin i);
  _ ← change (with_size new_size);
  mret i.

Definition emplace_back (args : Reference T) : B T Z :=
  n ← get m_size;
  let new_size := u64 (n + 1) in
  _ ← reserve new_size;
  allocated ← get m_allocated_size;
  _ ← assert (0 <? allocated);
  i ← get (wrap n);
  x ← deref args;
  _ ← construct i x;
  _ ← change (with_size new_size);
  mret i.

Definition push_front (value : Reference T) : B T Z := emplace_front value.
Definition push_back (value : Reference T) : B T Z := emplace_back value.

Definition pop_front : B T unit :=
  n ← get m_size;
  _ ← assert (0 <? n);
  first ← get m_begin;
  _ ← destroy_slot first;
  i ← get (circular_inc first);
  _ ← change (with_begin i);
  change (with_size (n - 1)).

Definition pop_back : B T unit :=
  n ← get m_size;
  _ ← assert (0 <? n);
  let new_size := n - 1 in
  i ← get (wrap new_size);
  _ ← destroy_slot i;
  change (with_size new_size).

Definition clear : B T unit :=
  _ ← destroy 0; _ ← change (with_begin 0); change (with_size 0).

(** The loop of [resize]. *)
Fixpoint construct_until (fuel : nat) (size i : Z) (value : Reference T) : B T unit :=
  match fuel with
  | O => throw LoopFuel
  | S fuel =>
      x ← deref value;
      _ ← construct i x;
      i ← get (circular_inc i);
      n ← get m_size;
      _ ← change (with_size (u64 (n + 1)));
      if u64 (n + 1) <? size then construct_until fuel size i value else mret tt
  end.

Definition resize_value (size : Z) (value : Reference T) : B T unit :=
  n ← get m_size;
  if size <=? n then
    _ ← destroy size; change (with_size size)
  else
    _ ← reserve size;
    i ← get (wrap n);
    construct_until (Z.to_nat (size - n)) size i value.

Definition resize (size : Z) : B T unit := resize_value size (Outside default_value).

(** ** Iterators

    An iterator is the index that it points to; the buffer that it belongs to is the one that its
    operations are given, and those on two iterators assert that it is the same. *)

Record Iter := MkIter { m_index : Z }.

Definition begin_ b : Iter := MkIter (m_begin b).
Definition end_ b : Iter := MkIter (wrap (m_size b) b).
Definition iter_deref (i : Iter) : B T T := read_slot (m_index i).
Definition iter_inc (i : Iter) b : Iter := MkIter (circular_inc (m_index i) b).
Definition iter_dec (i : Iter) b : Iter := MkIter (circular_dec (m_index i) b).
Definition iter_add (i : Iter) (value : Z) b : Iter := MkIter (wrap (u64 (unwrap (m_index i) b + u64 value)) b).
Definition iter_sub (i : Iter) (value : Z) b : Iter := MkIter (wrap (u64 (unwrap (m_index i) b - u64 value)) b).
Definition iter_index (i : Iter) (value : Z) : B T T := j ← get (iter_add i value); iter_deref j.
Definition iter_distance (i i' : Iter) b : Z := from_twos_compl int64_t size_t (u64 (unwrap (m_index i) b - unwrap (m_index i') b)).
Definition iter_eq (i i' : Iter) : bool := m_index i =? m_index i'.
Definition iter_ne (i i' : Iter) : bool := negb (iter_eq i i').
Definition iter_lt (i i' : Iter) b : bool := unwrap (m_index i) b <? unwrap (m_index i') b.
Definition iter_gt (i i' : Iter) b : bool := iter_lt i' i b.
Definition iter_le (i i' : Iter) b : bool := negb (iter_gt i i' b).
Definition iter_ge (i i' : Iter) b : bool := negb (iter_lt i i' b).

(** [std::reverse_iterator]: it points to the element before its base. *)
Definition rbegin b : Iter := end_ b.
Definition rend b : Iter := begin_ b.
Definition reverse_deref (i : Iter) : B T T := j ← get (iter_dec i); iter_deref j.
Definition reverse_inc (i : Iter) b : Iter := iter_dec i b.

(** The elements that a loop over the iterators from [i] to [last] sees. *)
Fixpoint elements_from (fuel : nat) (i last : Iter) : B T (list T) :=
  if iter_eq i last then mret []
  else match fuel with
       | O => throw LoopFuel
       | S fuel => x ← iter_deref i; j ← get (iter_inc i); l ← elements_from fuel j last; mret (x :: l)
       end.
Definition elements : B T (list T) :=
  first ← get begin_; last ← get end_; n ← get m_allocated_size; elements_from (Z.to_nat n) first last.

(** ** Comparison *)

Fixpoint std_equal {A C} (eq : A -> C -> bool) (l : list A) (l' : list C) : bool :=
  match l, l' with
  | [], [] => true
  | x :: l, y :: l' => eq x y && std_equal eq l l'
  | _, _ => false
  end.
Fixpoint lexicographical_compare (lt : T -> T -> bool) (l l' : list T) : bool :=
  match l, l' with
  | _, [] => false
  | [], _ :: _ => true
  | x :: l, y :: l' => if lt x y then true else if lt y x then false else lexicographical_compare lt l l'
  end.

Definition with_elements {A} (f : list T -> list T -> A) b b' : outcome A :=
  match elements b, elements b' with
  | (Returns l, _), (Returns l', _) => Returns (f l l')
  | (Throws e, _), _ | _, (Throws e, _) => Throws e
  end.
Definition buffer_eq (eq : T -> T -> bool) b b' : outcome bool := with_elements (std_equal eq) b b'.
Definition buffer_ne (eq : T -> T -> bool) b b' : outcome bool := with_elements (fun l l' => negb (std_equal eq l l')) b b'.
Definition buffer_lt (lt : T -> T -> bool) b b' : outcome bool := with_elements (lexicographical_compare lt) b b'.
Definition buffer_gt (lt : T -> T -> bool) b b' : outcome bool := buffer_lt lt b' b.
Definition negated (r : outcome bool) : outcome bool := match r with Returns c => Returns (negb c) | Throws e => Throws e end.
Definition buffer_le (lt : T -> T -> bool) b b' : outcome bool := negated (buffer_gt lt b b').
Definition buffer_ge (lt : T -> T -> bool) b b' : outcome bool := negated (buffer_lt lt b b').

(** ** Copies *)

(** [copy] of what input iterators deliver, and of what forward iterators do. *)
Fixpoint copy_input (l : list T) : B T unit :=
  match l with [] => mret tt | x :: l => _ ← push_back (Outside x); copy_input l end.

Fixpoint copy_elements (l : list T) : B T unit :=
  match l with
  | [] => mret tt
  | x :: l => n ← get m_size; _ ← construct n x; _ ← change (with_size (u64 (n + 1))); copy_elements l
  end.
Definition copy_forward (l : list T) : B T unit :=
  first ← get m_begin;
  _ ← assert (first =? 0);
  n ← get m_size;
  _ ← assert (n =? 0);
  _ ← reserve (Z.of_nat (length l));
  copy_elements l.
Definition copy (forward : bool) (l : list T) : B T unit := if forward then copy_forward l else copy_input l.

Definition default_buffer : CircularBuffer T := MkBuffer 0 [] 0 0 0.

(** A constructor: when a step of it throws, what was made is destroyed. *)
Definition constructor (m : B T unit) : outcome (CircularBuffer T) :=
  match m default_buffer with
  | (Returns _, b) => Returns b
  | (Throws e, b) => match destroy 0 b with (Returns _, _) => Throws e | (Throws e', _) => Throws e' end
  end.
Definition buffer_of_copy b : outcome (CircularBuffer T) :=
  constructor (match elements b with (Returns l, _) => copy_forward l | (Throws e, _) => throw e end).
Definition buffer_of_size (count : Z) : outcome (CircularBuffer T) := constructor (resize count).
Definition buffer_of_values (count : Z) (value : Reference T) : outcome (CircularBuffer T) := constructor (resize_value count value).
Definition buffer_of_range (forward : bool) (l : list T) : outcome (CircularBuffer T) := constructor (copy forward l).

(** The new buffer and what is left of the other. *)
Definition buffer_of_move b : CircularBuffer T * CircularBuffer T := (b, default_buffer).

Definition assign_values (count : Z) (value : Reference T) : B T unit := _ ← clear; resize_value count value.
Definition assign_range (forward : bool) (l : list T) : B T unit := _ ← clear; copy forward l.
(** The assignment of another buffer, and of the buffer itself, which is clear when it is read. *)
Definition assign_copy (buffer : option (CircularBuffer T)) : B T unit :=
  _ ← clear;
  l ← (match buffer with
       | Some other => match elements other with (Returns l, _) => mret l | (Throws e, _) => throw e end
       | None => elements
       end);
  copy_forward l.
Definition assign_move (buffer : CircularBuffer T) : B T (CircularBuffer T) :=
  _ ← destroy 0; _ ← change (fun _ => buffer); mret default_buffer.

Definition swap b b' : CircularBuffer T * CircularBuffer T := (b', b).
End buffer.
