(* ===== verification/CircularBufferProps.v ===== *)
(** What a [CircularBuffer] promises: it is a sequence, whatever is done to it and whatever throws
    meanwhile; its iterators are positions in the sequence, and stay where they are when elements
    are pushed within the capacity. *)

From S2P Require Import Prelude SafeInt CircularBuffer.

Section props.
Context {T : Type} `{Elements T}.
Implicit Types (b : CircularBuffer T) (l : list T) (f : Z -> option T).

(** ** The ring *)

Record dims b : Prop := {
  dims_memory : length (m_memory b) = Z.to_nat (m_allocated_size b);
  dims_allocated : 0 <= m_allocated_size b < word_size;
  dims_begin : 0 <= m_begin b < m_allocated_size b \/ m_allocated_size b = 0 /\ m_begin b = 0
}.

Lemma wrap_eq k b : dims b -> 0 <= k <= m_allocated_size b ->
  wrap k b = if m_begin b + k <? m_allocated_size b then m_begin b + k else m_begin b + k - m_allocated_size b.
Proof.
  intros [_ Ha Hb] Hk. unfold wrap. rewrite (u64_small (_ - m_begin b)) by lia.
  destruct (Z.ltb_spec k (m_allocated_size b - m_begin b)), (Z.ltb_spec (m_begin b + k) (m_allocated_size b)); rewrite ?u64_small; lia.
Qed.

Lemma unwrap_eq i b : dims b -> 0 <= i <= m_allocated_size b ->
  unwrap i b = if m_begin b <=? i then i - m_begin b else m_allocated_size b - m_begin b + i.
Proof. intros [_ Ha Hb] Hi. unfold unwrap. destruct (Z.leb_spec (m_begin b) i); rewrite ?u64_small; lia. Qed.

Lemma inc_eq i b : dims b -> 0 <= i < m_allocated_size b -> circular_inc i b = if i + 1 <? m_allocated_size b then i + 1 else 0.
Proof. intros [_ Ha Hb] Hi. unfold circular_inc. rewrite u64_small by lia. done. Qed.

Lemma dec_eq i b : dims b -> 0 <= i < m_allocated_size b -> circular_dec i b = if 0 <? i then i - 1 else m_allocated_size b - 1.
Proof. intros [_ Ha Hb] Hi. unfold circular_dec. by rewrite (u64_small (_ - 1)) by lia. Qed.

Ltac ring_cases :=
  repeat match goal with
  | |- context [if ?a <? ?b then _ else _] => destruct (Z.ltb_spec a b)
  | |- context [if ?a <=? ?b then _ else _] => destruct (Z.leb_spec a b)
  | E : context [if ?a <? ?b then _ else _] |- _ => destruct (Z.ltb_spec a b)
  end.

Lemma wrap_range k b : dims b -> 0 <= k < m_allocated_size b -> 0 <= wrap k b < m_allocated_size b.
Proof. intros Hd Hk. rewrite wrap_eq by (done || lia). destruct Hd as [_ Ha Hb]. ring_cases; lia. Qed.

Lemma unwrap_wrap k b : dims b -> 0 <= k < m_allocated_size b -> unwrap (wrap k b) b = k.
Proof.
  intros Hd Hk. pose proof (wrap_range k b Hd Hk). rewrite unwrap_eq by (done || lia). rewrite wrap_eq by (done || lia).
  destruct Hd as [_ Ha Hb]. ring_cases; lia.
Qed.

Lemma wrap_inj k k' b : dims b -> 0 <= k < m_allocated_size b -> 0 <= k' < m_allocated_size b -> wrap k b = wrap k' b -> k = k'.
Proof. intros Hd Hk Hk' E. by rewrite <- (unwrap_wrap k b), <- (unwrap_wrap k' b), E. Qed.

Lemma inc_wrap k b : dims b -> 0 <= k < m_allocated_size b -> circular_inc (wrap k b) b = wrap (k + 1) b.
Proof.
  intros Hd Hk. pose proof (wrap_range k b Hd Hk). rewrite inc_eq by done. rewrite !wrap_eq by (done || lia).
  destruct Hd as [_ Ha Hb]. ring_cases; lia.
Qed.

Lemma dec_wrap k b : dims b -> 0 < k <= m_allocated_size b -> 0 < m_allocated_size b -> circular_dec (wrap k b) b = wrap (k - 1) b.
Proof.
  intros Hd Hk Ha0. assert (0 <= wrap k b < m_allocated_size b) by (rewrite wrap_eq by (done || lia); destruct Hd as [_ Ha Hb]; ring_cases; lia).
  rewrite dec_eq by done. rewrite !wrap_eq by (done || lia). destruct Hd as [_ Ha Hb]. ring_cases; lia.
Qed.

Lemma wrap_0 b : dims b -> wrap 0 b = m_begin b.
Proof. intros Hd. pose proof Hd as [_ Ha Hb]. rewrite wrap_eq by (done || lia). ring_cases; lia. Qed.

(** The slots in the order of the ring. *)
Definition ring b f : Prop := dims b /\ forall k, 0 <= k < m_allocated_size b -> slot_at (wrap k b) (m_memory b) = Some (f k).

Lemma slot_at_insert (memory : list (option T)) i j x : 0 <= i -> i < Z.of_nat (length memory) -> 0 <= j ->
  slot_at j (<[Z.to_nat i := x]> memory) = if j =? i then Some x else slot_at j memory.
Proof.
  intros Hi Hl Hj. unfold slot_at. destruct (Z.ltb_spec j 0); [lia|]. destruct (Z.eqb_spec j i) as [->|Hne].
  - apply list_lookup_insert_eq. lia.
  - apply list_lookup_insert_ne. lia.
Qed.

Definition set (f : Z -> option T) (k : Z) (x : option T) : Z -> option T := fun k' => if k' =? k then x else f k'.

Lemma ring_put b f k x : ring b f -> 0 <= k < m_allocated_size b ->
  ring (with_memory (<[Z.to_nat (wrap k b) := x]> (m_memory b)) b) (set f k x).
Proof.
  intros [Hd Hs] Hk. pose proof (wrap_range k b Hd Hk) as Hw. pose proof (dims_memory b Hd) as Hl. split.
  - destruct Hd as [H1 H2 H3]. split; [|done..]. cbn. by rewrite length_insert.
  - intros k' Hk'. cbn in Hk'. change (wrap k' (with_memory _ b)) with (wrap k' b). pose proof (wrap_range k' b Hd Hk') as Hw'.
    change (m_memory (with_memory ?m b)) with m. rewrite slot_at_insert by lia. unfold set.
    destruct (Z.eqb_spec (wrap k' b) (wrap k b)) as [E|E], (Z.eqb_spec k' k) as [E'|E']; [done|..|by apply Hs].
    + exfalso. apply E'. by apply (wrap_inj k' k b).
    + exfalso. apply E. by rewrite E'.
Qed.

Lemma read_ring b f k x : ring b f -> 0 <= k < m_allocated_size b -> f k = Some x -> read_slot (wrap k b) b = (Returns x, b).
Proof. intros [_ Hs] Hk E. unfold read_slot. by rewrite Hs, E. Qed.

Lemma construct_ring b f k x : ring b f -> 0 <= k < m_allocated_size b ->
  construct (wrap k b) x b = if construct_throws x then (Throws ElementThrows, b)
                             else (Returns tt, with_memory (<[Z.to_nat (wrap k b) := Some x]> (m_memory b)) b).
Proof. intros [_ Hs] Hk. unfold construct. destruct (construct_throws x); [done|]. by rewrite Hs. Qed.

Lemma destroy_ring b f k x : ring b f -> 0 <= k < m_allocated_size b -> f k = Some x ->
  destroy_slot (wrap k b) b = (Returns tt, with_memory (<[Z.to_nat (wrap k b) := None]> (m_memory b)) b).
Proof. intros [_ Hs] Hk E. unfold destroy_slot. by rewrite Hs, E. Qed.

Lemma ring_ext b f f' : (forall k, 0 <= k < m_allocated_size b -> f k = f' k) -> ring b f -> ring b f'.
Proof. intros E [Hd Hs]. split; [done|]. intros k Hk. by rewrite <- E, Hs. Qed.

(** The same chunk, of which only the contents differ. *)
Definition same_chunk b b' : Prop :=
  m_memory_owner b' = m_memory_owner b /\ m_begin b' = m_begin b /\ m_size b' = m_size b /\ m_allocated_size b' = m_allocated_size b.

Lemma same_chunk_wrap k b b' : same_chunk b b' -> wrap k b' = wrap k b.
Proof. intros (_ & E1 & _ & E2). unfold wrap. by rewrite E1, E2. Qed.

Definition cleared f (k n : Z) : Z -> option T := fun k' => if (k <=? k') && (k' <? k + n) then None else f k'.

Lemma destroy_from_ring n : forall b f k, ring b f -> 0 <= k -> k + Z.of_nat n < m_allocated_size b \/ n = 0%nat ->
  (forall k', k <= k' < k + Z.of_nat n -> is_Some (f k')) ->
  exists b', destroy_from n (wrap k b) b = (Returns tt, b') /\ ring b' (cleared f k (Z.of_nat n)) /\ same_chunk b b'.
Proof.
  induction n as [|n IH]; intros b f k Hr Hk Hn Hf.
  { exists b. split_and!; [done| |done..]. eapply ring_ext; [|exact Hr]. intros k' Hk'. unfold cleared.
    destruct (Z.leb_spec k k'), (Z.ltb_spec k' (k + Z.of_nat 0)); done || lia. }
  destruct (Hf k ltac:(lia)) as [x Ex]. assert (0 <= k < m_allocated_size b) as Hka by lia.
  set (b1 := with_memory (<[Z.to_nat (wrap k b) := None]> (m_memory b)) b).
  assert (ring b1 (set f k None)) as Hr1 by by apply ring_put.
  destruct (IH b1 (set f k None) (k + 1) Hr1) as (b' & E & Hr' & Hsame); [lia|cbn; lia| |].
  { intros k' Hk'. unfold set. destruct (Z.eqb_spec k' k); [lia|]. apply Hf. lia. }
  exists b'. split_and!.
  - cbn [destroy_from]. unfold mbind, B_bind. rewrite (destroy_ring b f k x) by done. unfold get.
    change (circular_inc (wrap k b) _) with (circular_inc (wrap k b) b). rewrite inc_wrap by (apply Hr || done). exact E.
  - eapply ring_ext; [|exact Hr']. intros k' Hk'. unfold cleared, set.
    destruct (Z.leb_spec (k + 1) k'), (Z.ltb_spec k' (k + 1 + Z.of_nat n)), (Z.leb_spec k k'), (Z.ltb_spec k' (k + Z.of_nat (S n))), (Z.eqb_spec k' k); done || lia.
  - done.
Qed.

Lemma moved_elements_ring n : forall b f k l, ring b f -> 0 <= k -> k + Z.of_nat n < m_allocated_size b \/ n = 0%nat -> length l = n ->
  (forall i x, l !! i = Some x -> f (k + Z.of_nat i) = Some x) ->
  moved_elements n (wrap k b) b = (Returns l, b) \/ moved_elements n (wrap k b) b = (Throws ElementThrows, b) /\ nothrow_move = false.
Proof.
  induction n as [|n IH]; intros b f k l Hr Hk Hn Hl Hf; [left; by destruct l|]. destruct l as [|x l]; [done|]. injection Hl as Hl.
  cbn [moved_elements]. unfold mbind, B_bind. rewrite (read_ring b f k x) by (done || lia || (rewrite <- (Z.add_0_r k); by apply (Hf 0%nat x))).
  destruct (negb nothrow_move && construct_throws x) eqn:Et; [right; cbn; split; [done|]; apply andb_true_iff in Et as [Et _]; by apply negb_true_iff|].
  cbn. unfold get. rewrite inc_wrap by (apply Hr || lia).
  destruct (IH b f (k + 1) l Hr) as [-> | [-> Hm]]; [lia|lia|done| |by left|by right].
  intros i y E. rewrite <- (Hf (S i) y E). f_equal. lia.
Qed.

(** ** The sequence *)

Definition at_index l (k : Z) : option T := l !! Z.to_nat k.

(** The buffer holds the list, and no object lives in the rest of its memory. *)
Record represents b l : Prop := {
  rep_ring : ring b (at_index l);
  rep_size : m_size b = Z.of_nat (length l);
  rep_room : m_size b < m_allocated_size b \/ m_allocated_size b = 0 /\ l = []
}.

Lemma represents_default : represents default_buffer [].
Proof.
  split; [|done|by right]. split; [split; [done|by cbn|by right]|]. intros k Hk. cbn in Hk. lia.
Qed.

Lemma at_index_range l k x : 0 <= k -> at_index l k = Some x -> k < Z.of_nat (length l).
Proof. intros Hk E. apply lookup_lt_Some in E. lia. Qed.

Lemma at_index_some l k : 0 <= k < Z.of_nat (length l) -> is_Some (at_index l k).
Proof. intros Hk. apply lookup_lt_is_Some. lia. Qed.

Lemma at_index_none l k : Z.of_nat (length l) <= k -> at_index l k = None.
Proof. intros Hk. apply lookup_ge_None. lia. Qed.

(** The slots of a chunk that starts at its first slot. *)
Lemma ring_fresh owner l n size : 0 <= Z.of_nat (length l) <= n -> n < word_size -> 0 < n ->
  ring (MkBuffer owner ((Some <$> l) ++ replicate (Z.to_nat (n - Z.of_nat (length l))) None) 0 size n) (at_index l).
Proof.
  intros Hl Hn Hn0. set (b := MkBuffer _ _ _ _ _). assert (dims b) as Hd.
  { split; cbn; [rewrite length_app, length_fmap, length_replicate; lia|lia|lia]. }
  split; [done|]. intros k Hk. rewrite wrap_eq by (done || lia). cbn in *. destruct (Z.ltb_spec (0 + k) n); [|lia].
  unfold slot_at. destruct (Z.ltb_spec (0 + k) 0); [lia|]. rewrite Z.add_0_l. unfold at_index. destruct (decide (Z.to_nat k < length l)%nat) as [Hlt|Hge].
  - rewrite lookup_app_l by (by rewrite length_fmap). by rewrite list_lookup_fmap, (proj2 (lookup_lt_is_Some l _) Hlt) || (rewrite list_lookup_fmap; destruct (lookup_lt_is_Some_2 l (Z.to_nat k) Hlt) as [x ->]).
  - rewrite lookup_app_r by (rewrite length_fmap; lia). rewrite length_fmap, (lookup_ge_None_2 l) by lia. apply lookup_replicate. split; [done|lia].
Qed.

Definition may_throw (e : buffer_error) : Prop := e = CapacityOverflow \/ e = BadAlloc \/ e = ElementThrows.

Lemma realloc_represents b l n : represents b l -> 1 < n < word_size -> Z.of_nat (length l) < n ->
  (exists b', realloc n b = (Returns tt, b') /\ represents b' l /\ m_allocated_size b' = n /\ m_begin b' = 0) \/
  exists e, realloc n b = (Throws e, b) /\ may_throw e.
Proof.
  intros [Hr Hs Hroom] Hn Hl. pose proof Hr as [Hd _]. unfold realloc. unfold mbind, B_bind, assert, get. rewrite (proj2 (Z.ltb_lt 1 n)) by lia. cbn [mret B_ret].
  rewrite Hs, (proj2 (Z.ltb_lt (Z.of_nat (length l)) n)) by lia. cbn [mret B_ret]. destruct (can_allocate n); [|right; exists BadAlloc; split; [done|by right; left]].
  assert (0 + Z.of_nat (length l) < m_allocated_size b \/ length l = 0%nat) as Hin by (destruct Hroom as [?|[_ ->]]; [left; lia|by right]).
  cbn [mret B_ret]. rewrite <- (wrap_0 b Hd), Nat2Z.id.
  destruct (moved_elements_ring (length l) b (at_index l) 0 l Hr) as [-> | [-> _]]; [lia|done|done| | |right; exists ElementThrows; split; [done|by right; right]].
  { intros i x E. unfold at_index. by rewrite Z.add_0_l, Nat2Z.id. }
  destruct (destroy_from_ring (length l) b (at_index l) 0 Hr) as (b1 & -> & _ & Hsame); [lia|done|intros k Hk; apply at_index_some; lia|].
  left. unfold change. eexists. split; [done|]. destruct Hsame as (_ & _ & E3 & _). split; [|by cbn]. split.
  - cbn [m_memory_owner]. rewrite E3, Hs. apply ring_fresh; lia.
  - cbn. by rewrite E3.
  - left. cbn. rewrite E3. lia.
Qed.

Lemma size_max : lim_max size_t = word_size - 1.
Proof. reflexivity. Qed.

Lemma in_size_t x : 0 <= x < word_size -> in_range size_t x.
Proof. intros Hx. unfold in_range. rewrite size_max. change (lim_min size_t) with 0. lia. Qed.

Lemma in_size_tb x : in_rangeb size_t x = (0 <=? x) && (x <? word_size).
Proof.
  unfold in_rangeb. rewrite size_max. change (lim_min size_t) with 0. f_equal.
  destruct (Z.leb_spec x (word_size - 1)), (Z.ltb_spec x word_size); done || lia.
Qed.

Lemma reserve_eq b n : 0 <= n < word_size -> 0 <= m_allocated_size b < word_size ->
  reserve n b =
    if n =? 0 then (Returns tt, b)
    else if word_size <=? n + 1 then (Throws CapacityOverflow, b)
    else if n + 1 <=? m_allocated_size b then (Returns tt, b)
    else realloc (Z.max (n + 1) (Z.min (2 * m_allocated_size b) (word_size - 1))) b.
Proof.
  intros Hn Ha. unfold reserve. destruct (Z.eqb_spec n 0) as [E|E]; [done|].
  assert (wf_type size_t /\ wf_type int_t) as [W W'] by (split; apply (bool_decide_unpack _); vm_compute; exact I). assert (in_range int_t 1 /\ in_range int_t 2) as [R1 R2] by (unfold in_range; change (lim_max int_t) with 2147483647; change (lim_min int_t) with (-2147483648); lia).
  rewrite int_add_checked by (done || by apply in_size_t). unfold checked. rewrite in_size_tb.
  destruct (Z.leb_spec 0 (n + 1)), (Z.ltb_spec (n + 1) word_size), (Z.leb_spec word_size (n + 1)); try lia; [|done]. cbn [andb].
  unfold mbind, B_bind, get. destruct (Z.leb_spec (n + 1) (m_allocated_size b)); [done|].
  rewrite int_multiply_checked by (done || lia || by apply in_size_t). cbn [lift mret B_ret]. unfold checked. rewrite in_size_tb.
  destruct (Z.leb_spec 0 (m_allocated_size b * 2)); [|lia]. cbn [andb]. destruct (Z.ltb_spec (m_allocated_size b * 2) word_size).
  - destruct (Z.ltb_spec (m_allocated_size b * 2) (n + 1)); f_equal; lia.
  - rewrite size_max. destruct (Z.ltb_spec (word_size - 1) (n + 1)); f_equal; lia.
Qed.

Lemma reserve_represents b l n : represents b l -> 0 <= n < word_size -> Z.of_nat (length l) <= n ->
  (exists b', reserve n b = (Returns tt, b') /\ represents b' l /\ (n = 0 \/ n < m_allocated_size b') /\ (m_begin b = 0 -> m_begin b' = 0) /\
     (n = 0 \/ n < m_allocated_size b -> b' = b)) \/
  exists e, reserve n b = (Throws e, b) /\ may_throw e /\ 0 < n /\ m_allocated_size b <= n.
Proof.
  intros Hrep Hn Hl. pose proof Hrep as [[Hd _] _ _]. pose proof Hd as [_ Ha _]. rewrite reserve_eq by done.
  destruct (Z.eqb_spec n 0) as [E|E]; [left; exists b; by split_and!; try left|].
  destruct (Z.leb_spec word_size (n + 1)); [right; exists CapacityOverflow; split_and!; [done|by left|lia|lia]|].
  destruct (Z.leb_spec (n + 1) (m_allocated_size b)); [left; exists b; split_and!; try done; right; lia|]. set (new := Z.max _ _).
  destruct (realloc_represents b l new Hrep) as [(b' & -> & Hrep' & E1 & E2)|(e & -> & He)]; [lia|lia| |].
  - left. exists b'. split_and!; [done|done|right; rewrite E1; lia|done|lia].
  - right. exists e. split_and!; [done|done|lia|lia].
Qed.

(** A [const T&] of the value: it refers to an object elsewhere or to an element. *)
Definition refers (r : Reference T) (x : T) b l : Prop :=
  r = Outside x \/ exists k, r = InSlot (m_memory_owner b) (wrap k b) /\ 0 <= k /\ at_index l k = Some x.

Lemma deref_refers r x b l : refers r x b l -> represents b l -> deref r b = (Returns x, b).
Proof.
  intros [->|(k & -> & Hk & Ex)] Hrep; [done|]. cbn. unfold mbind, B_bind, get. rewrite Z.eqb_refl.
  pose proof (at_index_range l k x Hk Ex). apply (read_ring b (at_index l)); [apply Hrep|destruct (rep_room _ _ Hrep) as [Hr|[_ ->]]; [rewrite (rep_size _ _ Hrep) in Hr; lia|done]|done].
Qed.

(** A [const T&] of the value that stays good in a call that pushes [n] elements: it refers to an
    object elsewhere, or to an element, and the capacity is enough. *)
Definition good_reference (r : Reference T) (x : T) (n : Z) b l : Prop :=
  r = Outside x \/ refers r x b l /\ Z.of_nat (length l) + n <= capacity b.

Lemma deref_good r x n b l b1 : good_reference r x n b l -> represents b l -> (Z.of_nat (length l) + n <= capacity b -> b1 = b) -> deref r b1 = (Returns x, b1).
Proof. intros [->|[Hr Hroom]] Hrep Hb; [done|]. rewrite (Hb Hroom). by eapply deref_refers. Qed.

Lemma capacity_room b n : dims b -> 0 < n -> n <= capacity b -> n < m_allocated_size b.
Proof. intros [_ Ha _] Hn. unfold capacity. destruct (Z.ltb_spec 0 (m_allocated_size b)); lia. Qed.

Lemma represents_length b l : represents b l -> Z.of_nat (length l) + 1 < word_size.
Proof. intros [[[_ Ha _] _] Hs [Hr|[_ ->]]]; [lia|]. by vm_compute. Qed.

(** What a call that may throw leaves, which in either case is a sequence again. *)
Definition leaves {A} (m : B T A) b (returned : A -> CircularBuffer T -> Prop) (thrown : CircularBuffer T -> Prop) : Prop :=
  match m b with (Returns a, b') => returned a b' | (Throws e, b') => may_throw e /\ thrown b' end.

Lemma represents_put b l i x l' n : represents b l -> 0 <= i < m_allocated_size b -> n = Z.of_nat (length l') -> n < m_allocated_size b ->
  (forall k, 0 <= k < m_allocated_size b -> at_index l' k = set (at_index l) i x k) ->
  represents (with_size n (with_memory (<[Z.to_nat (wrap i b) := x]> (m_memory b)) b)) l'.
Proof.
  intros [Hr Hs Hroom] Hi Hn Hna Hl. pose proof (ring_put b _ i x Hr Hi) as [[D1 D2 D3] Hslots]. split; [split; [by split|]|done|by left].
  intros k Hk. cbn in Hk. rewrite Hl by done. by apply Hslots.
Qed.

(** The end of a push at the back. *)
Lemma emplace_back_leaves b l r x : represents b l -> good_reference r x 1 b l ->
  leaves (emplace_back r) b
    (fun i b' => represents b' (l ++ [x]) /\ i = wrap (Z.of_nat (length l)) b' /\
       (Z.of_nat (length l) < capacity b -> m_memory_owner b' = m_memory_owner b /\ m_begin b' = m_begin b /\ m_allocated_size b' = m_allocated_size b))
    (fun b' => represents b' l).
Proof.
  intros Hrep Hgood. pose proof Hrep as [[Hd _] Hs Hroom]. pose proof Hd as [_ Ha _]. pose proof (represents_length b l Hrep) as Hlen. unfold leaves, emplace_back, mbind, B_bind. unfold get at 1. rewrite Hs, u64_small by lia.
  destruct (reserve_represents b l (Z.of_nat (length l) + 1) Hrep) as [(b1 & -> & Hrep1 & Hbig & Hb1 & Hsame)|(e & -> & He & _)]; [lia|lia| |by split].
  pose proof Hrep1 as [Hr1 Hs1 _]. pose proof Hr1 as [Hd1 _]. unfold get, assert. rewrite (proj2 (Z.ltb_lt 0 _)) by lia. cbn [mret B_ret].
  rewrite (deref_good r x 1 b l b1) by (done || (intros Hc; apply Hsame; right; apply capacity_room; [done|lia|done])).
  rewrite (construct_ring b1 (at_index l)) by (done || lia). destruct (construct_throws x); [split; [by right; right|done]|]. unfold change. cbn [mret B_ret].
  split_and!; [|done|].
  - apply (represents_put b1 l (Z.of_nat (length l)) (Some x)); [done|lia|rewrite length_app; cbn; lia|lia|]. intros k Hk. unfold set, at_index.
    destruct (Z.eqb_spec k (Z.of_nat (length l))) as [->|Hne]; [rewrite Nat2Z.id; by apply list_lookup_middle|].
    destruct (decide (Z.to_nat k < length l)%nat) as [Hlt|Hge]; [by apply lookup_app_l|].
    by rewrite (lookup_ge_None_2 l), (lookup_ge_None_2 (l ++ [x])) by (rewrite ?length_app; cbn [length]; lia).
  - intros Hc. rewrite Hsame by (right; apply capacity_room; [done|lia|lia]). done.
Qed.

(** The ring seen from the slot before its first one, and from the one after. *)
Lemma dec_begin b : dims b -> 0 < m_allocated_size b -> circular_dec (m_begin b) b = wrap (m_allocated_size b - 1) b.
Proof. intros Hd Ha0. pose proof Hd as [_ Ha Hb]. rewrite dec_eq, wrap_eq by (done || lia). ring_cases; lia. Qed.

Lemma ring_back b f i : ring b f -> 0 < m_allocated_size b -> i = circular_dec (m_begin b) b ->
  ring (with_begin i b) (fun k => if k =? 0 then f (m_allocated_size b - 1) else f (k - 1)) /\
  forall k, 0 <= k < m_allocated_size b -> wrap k (with_begin i b) = if k =? 0 then i else wrap (k - 1) b.
Proof.
  intros [Hd Hs] Ha0 ->. pose proof Hd as [D1 Ha Hb]. pose proof (wrap_range (m_allocated_size b - 1) b Hd ltac:(lia)) as Hw. rewrite <- dec_begin in Hw by done.
  assert (dims (with_begin (circular_dec (m_begin b) b) b)) as Hd' by (split; [done|done|left; cbn; lia]).
  assert (forall k, 0 <= k < m_allocated_size b -> wrap k (with_begin (circular_dec (m_begin b) b) b) = if k =? 0 then circular_dec (m_begin b) b else wrap (k - 1) b) as Hwrap.
  { intros k Hk. rewrite wrap_eq by (done || (cbn; lia)). cbn. rewrite dec_eq by (done || lia). destruct (Z.eqb_spec k 0).
    - ring_cases; lia.
    - rewrite wrap_eq by (done || lia). ring_cases; lia. }
  split; [split; [done|]|done]. intros k Hk. cbn in Hk. rewrite Hwrap by done. cbn. destruct (Z.eqb_spec k 0).
  - rewrite dec_begin by done. apply Hs. lia.
  - apply Hs. lia.
Qed.

Lemma ring_forth b f i : ring b f -> 0 < m_allocated_size b -> i = circular_inc (m_begin b) b ->
  ring (with_begin i b) (fun k => if k =? m_allocated_size b - 1 then f 0 else f (k + 1)) /\
  forall k, 0 <= k < m_allocated_size b - 1 -> wrap k (with_begin i b) = wrap (k + 1) b.
Proof.
  intros [Hd Hs] Ha0 ->. pose proof Hd as [D1 Ha Hb]. rewrite inc_eq by (done || lia). set (i := if _ <? _ then _ else _).
  assert (0 <= i < m_allocated_size b) as Hi by (unfold i; ring_cases; lia).
  assert (dims (with_begin i b)) as Hd' by (split; [done|done|left; cbn; lia]).
  assert (forall k, 0 <= k < m_allocated_size b -> wrap k (with_begin i b) = if k =? m_allocated_size b - 1 then wrap 0 b else wrap (k + 1) b) as Hwrap.
  { intros k Hk. rewrite wrap_eq by (done || (cbn; lia)). cbn. unfold i. destruct (Z.eqb_spec k (m_allocated_size b - 1)); rewrite wrap_eq by (done || lia); ring_cases; lia. }
  split.
  - split; [done|]. intros k Hk. cbn in Hk. rewrite Hwrap by done. cbn. destruct (Z.eqb_spec k (m_allocated_size b - 1)); apply Hs; lia.
  - intros k Hk. rewrite Hwrap by lia. destruct (Z.eqb_spec k (m_allocated_size b - 1)); [lia|done].
Qed.

Lemma emplace_front_leaves b l r x : represents b l -> good_reference r x 1 b l ->
  leaves (emplace_front r) b
    (fun i b' => represents b' (x :: l) /\ i = m_begin b' /\
       (Z.of_nat (length l) < capacity b -> m_memory_owner b' = m_memory_owner b /\ m_allocated_size b' = m_allocated_size b /\
          forall k, 0 <= k <= Z.of_nat (length l) -> wrap (k + 1) b' = wrap k b))
    (fun b' => represents b' l).
Proof.
  intros Hrep Hgood. pose proof Hrep as [[Hd _] Hs Hroom]. pose proof Hd as [_ Ha _]. pose proof (represents_length b l Hrep) as Hlen. unfold leaves, emplace_front, mbind, B_bind.
  unfold get at 1. rewrite Hs, u64_small by lia.
  destruct (reserve_represents b l (Z.of_nat (length l) + 1) Hrep) as [(b1 & -> & Hrep1 & Hbig & Hb1 & Hsame)|(e & -> & He & _)]; [lia|lia| |by split].
  pose proof Hrep1 as [Hr1 Hs1 _]. pose proof Hr1 as [Hd1 _]. unfold get, assert. rewrite (proj2 (Z.ltb_lt 0 _)) by lia. cbn [mret B_ret].
  rewrite (deref_good r x 1 b l b1) by (done || (intros Hc; apply Hsame; right; apply capacity_room; [done|lia|done])).
  rewrite dec_begin by (done || lia). rewrite (construct_ring b1 (at_index l)) by (done || lia). destruct (construct_throws x); [split; [by right; right|done]|].
  unfold change. cbn [mret B_ret]. rewrite <- dec_begin by (done || lia).
  pose proof (ring_put b1 _ (m_allocated_size b1 - 1) (Some x) Hr1 ltac:(lia)) as Hput. rewrite <- dec_begin in Hput by (done || lia).
  set (b2 := with_memory _ b1) in *. destruct (ring_back b2 _ (circular_dec (m_begin b1) b1) Hput) as [[D Hslots] Hwrap]; [cbn; lia|done|].
  split_and!.
  - split; [split; [by destruct D; split|]|cbn; lia|left; cbn; lia]. intros k Hk. cbn in Hk. specialize (Hslots k Hk). cbn in Hslots |- *.
    change (wrap k (with_size _ (with_begin ?i b2))) with (wrap k (with_begin i b2)). rewrite Hslots. f_equal. unfold set, at_index.
    destruct (Z.eqb_spec k 0) as [E0|Hne]; [by rewrite E0, Z.eqb_refl|]. destruct (Z.eqb_spec (k - 1) (m_allocated_size b1 - 1)); [lia|].
    replace (Z.to_nat k) with (S (Z.to_nat (k - 1))) by lia. done.
  - done.
  - intros Hc. assert (b1 = b) as -> by (apply Hsame; right; apply capacity_room; [done|lia|lia]). split_and!; [done|done|]. intros k Hk.
    change (wrap (k + 1) (with_size _ (with_begin ?i b2))) with (wrap (k + 1) (with_begin i b2)). rewrite Hwrap by (cbn; lia).
    destruct (Z.eqb_spec (k + 1) 0); [lia|]. by replace (k + 1 - 1) with k by lia.
Qed.

Lemma pop_front_represents b x l : represents b (x :: l) ->
  exists b', pop_front b = (Returns tt, b') /\ represents b' l /\ m_memory_owner b' = m_memory_owner b /\ m_allocated_size b' = m_allocated_size b /\
    forall k, 0 <= k <= Z.of_nat (length l) -> wrap k b' = wrap (k + 1) b.
Proof.
  intros Hrep. pose proof Hrep as [Hr Hs Hroom]. pose proof Hr as [Hd _]. cbn [length] in Hs. destruct Hroom as [Hroom|[_ E]]; [|done].
  unfold pop_front, mbind, B_bind, get, assert. rewrite Hs, (proj2 (Z.ltb_lt 0 _)) by lia. cbn [mret B_ret].
  rewrite <- (wrap_0 b Hd), (destroy_ring b (at_index (x :: l)) 0 x Hr) by (done || lia). rewrite (wrap_0 b Hd). unfold change.
  pose proof (ring_put b _ 0 None Hr ltac:(lia)) as Hput. rewrite (wrap_0 b Hd) in Hput. set (b2 := with_memory _ b) in *.
  change (circular_inc (m_begin b) b2) with (circular_inc (m_begin b) b). eexists. split; [done|].
  destruct (ring_forth b2 _ (circular_inc (m_begin b) b) Hput) as [[D Hslots] Hwrap]; [cbn; lia|done|]. split_and!; [|done|done|].
  - split; [split; [by destruct D; split|]|cbn; lia|left; cbn; lia]. intros k Hk. cbn in Hk. specialize (Hslots k Hk).
    change (wrap k (with_size _ (with_begin ?i b2))) with (wrap k (with_begin i b2)). cbn in Hslots |- *. rewrite Hslots. f_equal. unfold set, at_index.
    destruct (Z.eqb_spec k (m_allocated_size b - 1)) as [Ek|Hne].
    + by rewrite lookup_ge_None_2 by lia.
    + destruct (Z.eqb_spec (k + 1) 0); [lia|]. by replace (Z.to_nat (k + 1)) with (S (Z.to_nat k)) by lia.
  - intros k Hk. change (wrap k (with_size _ (with_begin ?i b2))) with (wrap k (with_begin i b2)). rewrite Hwrap by (cbn; lia). done.
Qed.

Lemma pop_back_represents b x l : represents b (l ++ [x]) ->
  exists b', pop_back b = (Returns tt, b') /\ represents b' l /\ m_memory_owner b' = m_memory_owner b /\ m_allocated_size b' = m_allocated_size b /\
    m_begin b' = m_begin b.
Proof.
  intros Hrep. pose proof Hrep as [Hr Hs Hroom]. pose proof Hr as [Hd _]. rewrite length_app in Hs. cbn [length] in Hs.
  destruct Hroom as [Hroom|[_ E]]; [|by destruct l].
  unfold pop_back, mbind, B_bind, get, assert. rewrite Hs, (proj2 (Z.ltb_lt 0 _)) by lia. cbn [mret B_ret].
  replace (Z.of_nat (length l + 1) - 1) with (Z.of_nat (length l)) by lia.
  rewrite (destroy_ring b (at_index (l ++ [x])) _ x Hr) by (try lia; unfold at_index; rewrite Nat2Z.id; by apply list_lookup_middle). unfold change.
  eexists. split; [done|]. split_and!; [|done..]. apply (represents_put b (l ++ [x]) (Z.of_nat (length l)) None l); [done|lia|done|lia|]. intros k Hk. unfold set, at_index.
  destruct (Z.eqb_spec k (Z.of_nat (length l))) as [->|Hne]; [rewrite Nat2Z.id; by rewrite lookup_ge_None_2|].
  destruct (decide (Z.to_nat k < length l)%nat) as [Hlt|Hge]; [by rewrite lookup_app_l|].
  by rewrite (lookup_ge_None_2 l), (lookup_ge_None_2 (l ++ [x])) by (rewrite ?length_app; cbn [length]; lia).
Qed.

Lemma wrap_unwrap i b : dims b -> 0 <= i < m_allocated_size b -> 0 <= unwrap i b < m_allocated_size b /\ wrap (unwrap i b) b = i.
Proof.
  intros Hd Hi. pose proof Hd as [_ Ha Hb]. assert (0 <= unwrap i b < m_allocated_size b) as Hu by (rewrite unwrap_eq by (done || lia); ring_cases; lia).
  split; [done|]. rewrite wrap_eq by (done || lia). rewrite unwrap_eq by (done || lia). ring_cases; lia.
Qed.

Lemma clear_represents b l : represents b l ->
  exists b', clear b = (Returns tt, b') /\ represents b' [] /\ m_memory_owner b' = m_memory_owner b /\ m_allocated_size b' = m_allocated_size b.
Proof.
  intros Hrep. pose proof Hrep as [Hr Hs Hroom]. pose proof Hr as [Hd _]. unfold clear, destroy, mbind, B_bind, get. rewrite Hs, Z.sub_0_r, Nat2Z.id, <- (wrap_0 b Hd).
  destruct (destroy_from_ring (length l) b (at_index l) 0 Hr) as (b1 & -> & [Hd1 Hs1] & (E1 & E2 & E3 & E4)); [lia|destruct Hroom as [?|[_ ->]]; [left; lia|by right]|intros k Hk; apply at_index_some; lia|].
  unfold change. eexists. split; [done|]. split_and!; [|done|done].
  assert (dims (with_size 0 (with_begin 0 b1))) as Hd2 by (destruct Hd1 as [D1 D2 D3]; split; [done|done|cbn; lia]).
  split; [split; [done|]|done|destruct Hd1 as [_ D2 _]; cbn; destruct (Z.eq_dec (m_allocated_size b1) 0); [by right|left; lia]].
  intros k Hk. cbn in Hk. pose proof (wrap_range k _ Hd2 Hk) as Hw. change (m_allocated_size (with_size _ (with_begin _ b1))) with (m_allocated_size b1) in Hw.
  destruct (wrap_unwrap _ b1 Hd1 Hw) as [Hu <-]. change (m_memory (with_size _ (with_begin _ b1))) with (m_memory b1). rewrite Hs1 by done. f_equal. unfold cleared.
  destruct (Z.leb_spec 0 (unwrap (wrap k (with_size 0 (with_begin 0 b1))) b1)); [|lia]. cbn [andb]. destruct (Z.ltb_spec (unwrap (wrap k (with_size 0 (with_begin 0 b1))) b1) (0 + Z.of_nat (length l))); [done|].
  rewrite at_index_none by lia. done.
Qed.

Lemma shrink_leaves b l : represents b l -> leaves shrink_to_fit b
  (fun _ b' => represents b' l /\ capacity b' = Z.of_nat (length l)) (fun b' => b' = b).
Proof.
  intros Hrep. pose proof Hrep as [Hr Hs Hroom]. pose proof Hr as [Hd _]. pose proof Hd as [_ Ha _]. pose proof (represents_length b l Hrep) as Hlen.
  unfold leaves, shrink_to_fit, mbind, B_bind, get. rewrite Hs. destruct (Z.ltb_spec 0 (Z.of_nat (length l))) as [Hl|Hl].
  - rewrite u64_small by lia. destruct (Z.ltb_spec (Z.of_nat (length l) + 1) (m_allocated_size b)) as [Hlt|Hge].
    + destruct (realloc_represents b l (Z.of_nat (length l) + 1) Hrep) as [(b' & -> & Hrep' & E1 & _)|(e & -> & He)]; [lia|lia| |by split].
      split; [done|]. unfold capacity. rewrite E1. destruct (Z.ltb_spec 0 (Z.of_nat (length l) + 1)); lia.
    + split; [done|]. unfold capacity. destruct Hroom as [Hroom|[_ ->]]; [|cbn in Hl; lia]. destruct (Z.ltb_spec 0 (m_allocated_size b)); lia.
  - destruct l; [|cbn in Hl; lia]. split; [|done]. split; [split; [split; [done|by cbn|by right]|]|done|by right]. intros k Hk. cbn in Hk. lia.
Qed.

Lemma refers_push r x b l b' l' : refers r x b l -> m_memory_owner b' = m_memory_owner b -> m_begin b' = m_begin b -> m_allocated_size b' = m_allocated_size b ->
  refers r x b' (l ++ l').
Proof.
  intros [->|(k & -> & Hk & Ex)] E1 E2 E3; [by left|]. right. exists k. unfold wrap. rewrite E1, E2, E3. split_and!; [done|done|]. unfold at_index in *.
  by rewrite lookup_app_l by (by eapply lookup_lt_Some).
Qed.

(** An element at the back, where there is room for it. *)
Lemma construct_back b l x : represents b l -> Z.of_nat (length l) < m_allocated_size b - 1 ->
  construct (wrap (Z.of_nat (length l)) b) x b = (Throws ElementThrows, b) \/
  exists b1, construct (wrap (Z.of_nat (length l)) b) x b = (Returns tt, b1) /\ represents (with_size (Z.of_nat (length l) + 1) b1) (l ++ [x]) /\ same_chunk b b1.
Proof.
  intros Hrep Hl. pose proof Hrep as [Hr Hs _]. rewrite (construct_ring b (at_index l)) by (done || lia). destruct (construct_throws x); [by left|]. right. eexists. split_and!; [done| |done].
  apply (represents_put b l (Z.of_nat (length l)) (Some x)); [done|lia|rewrite length_app; cbn; lia|lia|]. intros k Hk. unfold set, at_index.
  destruct (Z.eqb_spec k (Z.of_nat (length l))) as [->|Hne]; [rewrite Nat2Z.id; by apply list_lookup_middle|].
  destruct (decide (Z.to_nat k < length l)%nat) as [Hlt|Hge]; [by apply lookup_app_l|].
  by rewrite (lookup_ge_None_2 l), (lookup_ge_None_2 (l ++ [x])) by (rewrite ?length_app; cbn [length]; lia).
Qed.

Lemma construct_until_leaves fuel size r x : forall b l, represents b l -> refers r x b l -> Z.of_nat (length l) < size < m_allocated_size b ->
  size - Z.of_nat (length l) <= Z.of_nat fuel ->
  leaves (construct_until fuel size (wrap (Z.of_nat (length l)) b) r) b
    (fun _ b' => represents b' (l ++ replicate (Z.to_nat (size - Z.of_nat (length l))) x))
    (fun b' => exists n, Z.of_nat n < size - Z.of_nat (length l) /\ represents b' (l ++ replicate n x)).
Proof.
  induction fuel as [|fuel IH]; intros b l Hrep Href Hsize Hfuel; [lia|]. pose proof Hrep as [[Hd _] Hs _]. pose proof Hd as [_ Ha _].
  unfold leaves. cbn [construct_until]. unfold mbind, B_bind. rewrite (deref_refers r x b l) by done.
  destruct (construct_back b l x Hrep ltac:(lia)) as [->|(b1 & -> & Hrep1 & Hsame)].
  { split; [by right; right|]. exists 0%nat. split; [lia|]. by rewrite app_nil_r. }
  unfold get, change. destruct Hsame as (E1 & E2 & E3 & E4). rewrite E3, Hs, u64_small by lia. set (b2 := with_size _ b1) in *.
  assert (circular_inc (wrap (Z.of_nat (length l)) b) b1 = wrap (Z.of_nat (length (l ++ [x]))) b2) as ->.
  { transitivity (circular_inc (wrap (Z.of_nat (length l)) b) b); [unfold circular_inc; by rewrite E4|]. rewrite inc_wrap by (done || lia).
    rewrite length_app. cbn [length]. rewrite Nat2Z.inj_add. unfold wrap. cbn. by rewrite E2, E4. }
  assert (Z.of_nat (length (l ++ [x])) = Z.of_nat (length l) + 1) as Hlen by (rewrite length_app; cbn [length]; lia).
  destruct (Z.ltb_spec (Z.of_nat (length l) + 1) size) as [Hlt|Hge].
  - pose proof (IH b2 (l ++ [x]) Hrep1 ltac:(by apply refers_push with b) ltac:(rewrite Hlen; cbn; lia) ltac:(lia)) as Hrest. unfold leaves in Hrest.
    destruct (construct_until _ _ _ _ b2) as [[[]|e] b3].
    + rewrite <- app_assoc in Hrest. change ([x] ++ replicate ?n x) with (replicate (S n) x) in Hrest.
      by replace (Z.to_nat (size - Z.of_nat (length l))) with (S (Z.to_nat (size - Z.of_nat (length (l ++ [x]))))) by lia.
    + destruct Hrest as (He & n & Hn & Hrep3). split; [done|]. exists (S n). split; [lia|]. by rewrite <- app_assoc in Hrep3.
  - by replace (Z.to_nat (size - Z.of_nat (length l))) with 1%nat by lia.
Qed.

Lemma resize_leaves b l size r x : represents b l -> 0 <= size < word_size -> Z.of_nat (length l) < size -> good_reference r x (size - Z.of_nat (length l)) b l ->
  leaves (resize_value size r) b
    (fun _ b' => represents b' (l ++ replicate (Z.to_nat (size - Z.of_nat (length l))) x))
    (fun b' => exists n, Z.of_nat n < size - Z.of_nat (length l) /\ represents b' (l ++ replicate n x)).
Proof.
  intros Hrep Hsize Hgrow Hgood. pose proof Hrep as [[Hd _] Hs _]. unfold leaves, resize_value, mbind, B_bind. unfold get at 1. rewrite Hs.
  destruct (Z.leb_spec size (Z.of_nat (length l))); [lia|].
  destruct (reserve_represents b l size Hrep) as [(b1 & -> & Hrep1 & Hbig & Hb1 & Hsame)|(e & -> & He & _)]; [lia|lia| |split; [done|]].
  2:{ exists 0%nat. split; [lia|]. by rewrite app_nil_r. }
  unfold get. apply construct_until_leaves; [done| |lia|lia]. destruct Hgood as [->|[Href Hroom]]; [by left|].
  rewrite Hsame by (right; apply capacity_room; [done|lia|lia]). done.
Qed.

Lemma copy_elements_leaves l' : forall b l, represents b l -> m_begin b = 0 -> Z.of_nat (length l + length l') < m_allocated_size b \/ l' = [] ->
  leaves (copy_elements l') b (fun _ b' => represents b' (l ++ l')) (fun b' => exists n, (n < length l')%nat /\ represents b' (l ++ take n l')).
Proof.
  induction l' as [|x l' IH]; intros b l Hrep Hb Hroom; [unfold leaves; cbn; by rewrite app_nil_r|]. destruct Hroom as [Hroom|]; [|done]. cbn [length] in Hroom.
  pose proof Hrep as [[Hd _] Hs _]. pose proof Hd as [_ Ha _]. unfold leaves. cbn [copy_elements]. unfold mbind, B_bind, get. rewrite Hs.
  assert (Z.of_nat (length l) = wrap (Z.of_nat (length l)) b) as Ew by (rewrite wrap_eq by (done || lia); rewrite Hb; ring_cases; lia).
  pose proof (construct_back b l x Hrep ltac:(lia)) as Hc. rewrite <- Ew in Hc. destruct Hc as [->|(b1 & -> & Hrep1 & Hsame)].
  { split; [by right; right|]. exists 0%nat. split; [cbn; lia|]. by rewrite app_nil_r. }
  unfold change. rewrite u64_small by lia. destruct Hsame as (E1 & E2 & E3 & E4). set (b2 := with_size _ b1) in *.
  pose proof (IH b2 (l ++ [x]) Hrep1 ltac:(cbn; congruence) ltac:(left; cbn; rewrite length_app; cbn [length]; lia)) as Hrest. unfold leaves in Hrest.
  destruct (copy_elements l' b2) as [[[]|e] b3]; [by rewrite <- app_assoc in Hrest|]. destruct Hrest as (He & n & Hn & Hrep3). split; [done|].
  exists (S n). cbn [length take]. split; [lia|]. by rewrite <- app_assoc in Hrep3.
Qed.

Lemma copy_input_leaves l' : forall b l, represents b l ->
  leaves (copy_input l') b (fun _ b' => represents b' (l ++ l')) (fun b' => exists n, represents b' (l ++ take n l')).
Proof.
  induction l' as [|x l' IH]; intros b l Hrep; [unfold leaves; cbn; by rewrite app_nil_r|]. unfold leaves. cbn [copy_input]. unfold mbind, B_bind, push_back.
  pose proof (emplace_back_leaves b l (Outside x) x Hrep ltac:(by left)) as Hpush. unfold leaves in Hpush. destruct (emplace_back _ b) as [[i|e] b1].
  - destruct Hpush as (Hrep1 & _). pose proof (IH b1 (l ++ [x]) Hrep1) as Hrest. unfold leaves in Hrest. destruct (copy_input l' b1) as [[[]|e] b2].
    + by rewrite <- app_assoc in Hrest.
    + destruct Hrest as (He & n & Hrep2). split; [done|]. exists (S n). by rewrite <- app_assoc in Hrep2.
  - destruct Hpush as (He & Hrep1). split; [done|]. exists 0%nat. by rewrite app_nil_r.
Qed.

Lemma copy_leaves forward l' b : represents b [] -> m_begin b = 0 -> Z.of_nat (length l') < word_size ->
  leaves (copy forward l') b (fun _ b' => represents b' l') (fun b' => exists n, represents b' (take n l')).
Proof.
  intros Hrep Hb Hl. destruct forward; cbn [copy]; [|by apply (copy_input_leaves l' b [])].
  pose proof Hrep as [[Hd _] Hs _]. unfold leaves, copy_forward, mbind, B_bind, get, assert. rewrite Hb. cbn [Z.eqb mret B_ret]. rewrite Hs. change (Z.of_nat (length [])) with 0. cbn [Z.eqb mret B_ret].
  destruct (reserve_represents b [] (Z.of_nat (length l')) Hrep) as [(b1 & -> & Hrep1 & Hbig & Hb1 & Hsame)|(e & -> & He & _)]; [lia|cbn; lia| |split; [done|by exists 0%nat]].
  pose proof (copy_elements_leaves l' b1 [] Hrep1 (Hb1 Hb)) as Hcopy. unfold leaves in Hcopy.
  specialize (Hcopy ltac:(destruct Hbig as [?|?]; [right; destruct l'; [done|cbn in *; lia]|left; cbn; lia])).
  destruct (copy_elements l' b1) as [[[]|e] b2]; [done|]. destruct Hcopy as (He & n & _ & Hrep2). split; [done|by exists n].
Qed.

(** ** Iterators *)

Definition iter_at b (k : Z) : Iter := MkIter (wrap k b).

Lemma begin_at b : dims b -> begin_ b = iter_at b 0.
Proof. intros Hd. unfold begin_, iter_at. by rewrite wrap_0. Qed.

Lemma represents_range b l k : represents b l -> 0 <= k <= Z.of_nat (length l) -> 0 <= k < m_allocated_size b \/ m_allocated_size b = 0 /\ k = 0.
Proof. intros [_ Hs [Hr|[Ha ->]]] Hk; [left; lia|right; cbn in Hk; lia]. Qed.

Lemma iter_eq_at b l i j : represents b l -> 0 <= i <= Z.of_nat (length l) -> 0 <= j <= Z.of_nat (length l) -> iter_eq (iter_at b i) (iter_at b j) = (i =? j).
Proof.
  intros Hrep Hi Hj. pose proof Hrep as [[Hd _] _ _]. unfold iter_eq, iter_at. cbn.
  destruct (represents_range b l i Hrep Hi) as [Hi'|[Ha ->]], (represents_range b l j Hrep Hj) as [Hj'|[Ha' ->]]; try lia.
  destruct (Z.eqb_spec i j) as [->|Hne]; [apply Z.eqb_refl|]. apply Z.eqb_neq. intros E. apply Hne. by apply (wrap_inj i j b).
Qed.

Lemma unwrap_at b l k : represents b l -> 0 <= k <= Z.of_nat (length l) -> unwrap (wrap k b) b = k.
Proof.
  intros Hrep Hk. pose proof Hrep as [[Hd _] _ _]. destruct (represents_range b l k Hrep Hk) as [Hk'|[Ha ->]]; [by apply unwrap_wrap|].
  rewrite wrap_0 by done. destruct Hd as [_ _ [Hb|[_ Hb]]]; [lia|]. unfold unwrap. rewrite Hb. done.
Qed.

Lemma deref_at b l k x : represents b l -> 0 <= k -> at_index l k = Some x -> iter_deref (iter_at b k) b = (Returns x, b).
Proof.
  intros Hrep Hk Ex. pose proof (at_index_range l k x Hk Ex). apply (read_ring b (at_index l)); [apply Hrep| |done].
  destruct (represents_range b l k Hrep) as [?|[? ->]]; [lia|done|]. destruct Hrep as [_ Hs [Hr|[_ ->]]]; [lia|done].
Qed.

Lemma elements_from_at b l : represents b l -> forall fuel k, 0 <= k <= Z.of_nat (length l) -> Z.of_nat (length l) - k <= Z.of_nat fuel ->
  elements_from fuel (iter_at b k) (iter_at b (Z.of_nat (length l))) b = (Returns (drop (Z.to_nat k) l), b).
Proof.
  intros Hrep. pose proof Hrep as [[Hd _] _ _]. induction fuel as [|fuel IH]; intros k Hk Hf; cbn [elements_from]; rewrite (iter_eq_at b l) by (done || lia).
  - destruct (Z.eqb_spec k (Z.of_nat (length l))) as [->|]; [|lia]. cbn. by rewrite Nat2Z.id, drop_all.
  - destruct (Z.eqb_spec k (Z.of_nat (length l))) as [->|Hne]; [cbn; by rewrite Nat2Z.id, drop_all|].
    destruct (at_index_some l k) as [x Ex]; [lia|]. unfold mbind, B_bind, get. rewrite (deref_at b l k x) by (done || lia).
    destruct (represents_range b l k Hrep Hk) as [Hk'|[Ha0 ->]]; [|destruct Hrep as [_ Hs [Hr|[_ ->]]]; [lia|done]].
    unfold iter_inc at 1. cbn [m_index iter_at]. rewrite inc_wrap by done. fold (iter_at b (k + 1)). rewrite IH by lia. cbn.
    replace (Z.to_nat (k + 1)) with (S (Z.to_nat k)) by lia. by rewrite <- (drop_S l x (Z.to_nat k)).
Qed.

Lemma elements_are b l : represents b l -> elements b = (Returns l, b).
Proof.
  intros Hrep. pose proof Hrep as [[Hd _] Hs Hroom]. unfold elements, mbind, B_bind, get. rewrite begin_at by done. unfold end_. rewrite Hs. fold (iter_at b (Z.of_nat (length l))).
  rewrite (elements_from_at b l Hrep) by (try lia; destruct Hroom as [?|[_ ->]]; cbn; lia). done.
Qed.

Lemma operator_index_at b l i : represents b l -> 0 <= i -> operator_index i b = if i <? Z.of_nat (length l) then (Returns (wrap i b), b) else (Throws BufferAssertion, b).
Proof. intros [_ Hs _] Hi. unfold operator_index, mbind, B_bind, get, assert. rewrite Hs. by destruct (i <? Z.of_nat (length l)). Qed.

(** C8: Iterators are positions: in a buffer that holds a list, [begin] and [end] are the positions 0
    and its length, the element at a position is that of the list, stepping, adding and subtracting
    lead to the position they should, and so do distances and comparisons; at both ends of the
    chunk of memory as well. *)
Theorem iterators_are_positions b l i j :
  represents b l -> 0 <= i <= Z.of_nat (length l) -> 0 <= j <= Z.of_nat (length l) -> Z.of_nat (length l) < 2 ^ 63 ->
  begin_ b = iter_at b 0 /\ end_ b = iter_at b (Z.of_nat (length l)) /\
  (forall x, l !! Z.to_nat i = Some x -> iter_deref (iter_at b i) b = (Returns x, b)) /\
  (i < Z.of_nat (length l) -> iter_inc (iter_at b i) b = iter_at b (i + 1) /\ iter_dec (iter_at b (i + 1)) b = iter_at b i) /\
  iter_add (iter_at b i) (j - i) b = iter_at b j /\ iter_sub (iter_at b i) (i - j) b = iter_at b j /\
  iter_distance (iter_at b i) (iter_at b j) b = i - j /\
  iter_eq (iter_at b i) (iter_at b j) = (i =? j) /\ iter_lt (iter_at b i) (iter_at b j) b = (i <? j) /\ iter_le (iter_at b i) (iter_at b j) b = (i <=? j).
Proof.
  intros Hrep Hi Hj Hlen. pose proof Hrep as [[Hd _] Hs _]. pose proof Hd as [_ Ha _].
  assert (0 <= i < word_size /\ 0 <= j < word_size) as [Hi' Hj'] by (change word_size with (2 * 2 ^ 63); lia).
  split_and!.
  - by apply begin_at.
  - unfold end_. by rewrite Hs.
  - intros x Ex. by apply (deref_at b l); [|lia|].
  - intros Hlt. destruct (represents_range b l i Hrep Hi) as [Hk|[Ha0 ->]]; [|destruct Hrep as [_ _ [?|[_ ->]]]; [lia|done]].
    assert (i + 1 < m_allocated_size b) by (destruct Hrep as [_ _ [?|[_ ->]]]; [lia|cbn in Hlt; lia]).
    unfold iter_inc, iter_dec, iter_at. cbn. rewrite inc_wrap, dec_wrap by (done || lia). split; [done|]. by replace (i + 1 - 1) with i by lia.
  - unfold iter_add. cbn. rewrite (unwrap_at b l) by done. rewrite u64_add_r. replace (i + (j - i)) with j by lia. by rewrite u64_small.
  - unfold iter_sub. cbn. rewrite (unwrap_at b l) by done. rewrite u64_sub_r. replace (i - (i - j)) with j by lia. by rewrite u64_small.
  - unfold iter_distance. cbn. rewrite !(unwrap_at b l) by done. change (u64 (i - j)) with ((i - j) mod 2 ^ digits size_t).
    apply from_twos_compl_spec; try done. unfold in_range. change (lim_max int64_t) with (2 ^ 63 - 1). change (lim_min int64_t) with (- 2 ^ 63). lia.
  - by apply (iter_eq_at b l).
  - unfold iter_lt. cbn. by rewrite !(unwrap_at b l).
  - unfold iter_le, iter_gt, iter_lt. cbn. rewrite !(unwrap_at b l) by done. by rewrite <- Z.leb_antisym.
Qed.

(** Where the capacity exceeds the size, pushes do not move the elements: iterators stay at
    the elements they point to, after a push at the front and at the back, and so they do when
    an element is popped. *)
Theorem iterators_stay b l x :
  represents b l ->
  (Z.of_nat (length l) < capacity b -> forall b' i k, 0 <= k <= Z.of_nat (length l) ->
     (push_back (Outside x) b = (Returns i, b') -> m_memory_owner b' = m_memory_owner b /\ iter_at b' k = iter_at b k /\
        (k = Z.of_nat (length l) -> iter_at b k = MkIter i)) /\
     (push_front (Outside x) b = (Returns i, b') -> m_memory_owner b' = m_memory_owner b /\ iter_at b' (k + 1) = iter_at b k)) /\
  (forall y l' k, 0 <= k <= Z.of_nat (length l') ->
     (l = y :: l' -> exists b', pop_front b = (Returns tt, b') /\ m_memory_owner b' = m_memory_owner b /\ iter_at b' k = iter_at b (k + 1)) /\
     (l = l' ++ [y] -> exists b', pop_back b = (Returns tt, b') /\ m_memory_owner b' = m_memory_owner b /\ iter_at b' k = iter_at b k)).
Proof.
  intros Hrep. split.
  - intros Hc b' i k Hk. split; intros E.
    + pose proof (emplace_back_leaves b l (Outside x) x Hrep ltac:(by left)) as Hpush. unfold leaves in Hpush. unfold push_back in E. rewrite E in Hpush.
      destruct Hpush as (_ & Ei & Hsame). destruct (Hsame Hc) as (E1 & E2 & E3). assert (forall k, wrap k b' = wrap k b) as Ew by (intros k'; unfold wrap; by rewrite E2, E3).
      unfold iter_at. rewrite Ei, !Ew. by split_and!; [| |intros ->].
    + pose proof (emplace_front_leaves b l (Outside x) x Hrep ltac:(by left)) as Hpush. unfold leaves in Hpush. unfold push_front in E. rewrite E in Hpush.
      destruct Hpush as (_ & _ & Hsame). destruct (Hsame Hc) as (E1 & E2 & E3). unfold iter_at. split; [done|]. by rewrite E3.
  - intros y l' k Hk. split; intros ->.
    + destruct (pop_front_represents b y l' Hrep) as (b' & E & _ & E1 & _ & E3). exists b'. unfold iter_at. by rewrite E3.
    + destruct (pop_back_represents b y l' Hrep) as (b' & E & _ & E1 & E2 & E3). exists b'. unfold iter_at, wrap. by rewrite E2, E3.
Qed.

(** ** The buffer as a sequence *)

Inductive operation :=
| PushFront (x : T) | PushBack (x : T) | PopFront | PopBack | Clear | Reserve (n : Z) | ShrinkToFit
| Resize (n : Z) (x : T) | AssignValues (n : Z) (x : T) | AssignRange (forward : bool) (l : list T).

Definition run_operation (op : operation) : B T unit :=
  match op with
  | PushFront x => _ ← push_front (Outside x); mret tt
  | PushBack x => _ ← push_back (Outside x); mret tt
  | PopFront => pop_front
  | PopBack => pop_back
  | Clear => clear
  | Reserve n => reserve n
  | ShrinkToFit => shrink_to_fit
  | Resize n x => resize_value n (Outside x)
  | AssignValues n x => assign_values n (Outside x)
  | AssignRange forward l => assign_range forward l
  end.

(** What an operation asks for: no pop of an empty sequence, and no [resize] to a smaller size. *)
Definition operation_ok (op : operation) b : Prop :=
  match op with
  | PopFront | PopBack => 0 < size b
  | Reserve n | AssignValues n _ => 0 <= n < word_size
  | Resize n _ => size b <= n < word_size
  | AssignRange _ l' => Z.of_nat (length l') < word_size
  | _ => True
  end.

Definition after_operation (op : operation) l : list T :=
  match op with
  | PushFront x => x :: l
  | PushBack x => l ++ [x]
  | PopFront => tail l
  | PopBack => removelast l
  | Clear => []
  | Reserve _ | ShrinkToFit => l
  | Resize n x => l ++ replicate (Z.to_nat n - length l) x
  | AssignValues n x => replicate (Z.to_nat n) x
  | AssignRange _ l' => l'
  end.

(** What an operation that throws may leave: pushes, [reserve] and [shrink_to_fit] nothing
    new, the others a part of what they make. *)
Definition left_by_throw (op : operation) l l' : Prop :=
  match op with
  | PushFront _ | PushBack _ | Reserve _ | ShrinkToFit => l' = l
  | Resize n x => exists k, l' = l ++ replicate k x /\ Z.of_nat (length l') < n
  | AssignValues n x => exists k, l' = replicate k x /\ Z.of_nat k < n
  | AssignRange _ l0 => exists k, l' = take k l0
  | PopFront | PopBack | Clear => False
  end.

Definition operation_outcome (op : operation) l (r : outcome unit) l' : Prop :=
  match r with Returns _ => l' = after_operation op l | Throws e => may_throw e /\ left_by_throw op l l' end.

Lemma leaves_outcome op b l (m : B T unit) P Q : leaves m b P Q -> run_operation op b = m b ->
  (forall b', P tt b' -> exists l', represents b' l' /\ l' = after_operation op l) -> (forall b', Q b' -> exists l', represents b' l' /\ left_by_throw op l l') ->
  exists r b' l', run_operation op b = (r, b') /\ represents b' l' /\ operation_outcome op l r l'.
Proof.
  unfold leaves. intros Hm -> HP HQ. destruct (m b) as [[[]|e] b'].
  - destruct (HP b' Hm) as (l' & ? & ?). by exists (Returns tt), b', l'.
  - destruct Hm as [He Hq]. destruct (HQ b' Hq) as (l' & ? & ?). by exists (Throws e), b', l'.
Qed.

Lemma resize_outcome n x b l : represents b l -> Z.of_nat (length l) <= n < word_size ->
  leaves (resize_value n (Outside x)) b (fun _ b' => represents b' (l ++ replicate (Z.to_nat n - length l) x))
    (fun b' => exists k, represents b' (l ++ replicate k x) /\ Z.of_nat (length l + k) < n).
Proof.
  intros Hrep Hn. destruct (Z.eq_dec n (Z.of_nat (length l))) as [->|Hne].
  - unfold leaves, resize_value, mbind, B_bind, get. pose proof Hrep as [[Hd Hslots] Hs Hroom]. rewrite Hs, Z.leb_refl. unfold destroy, mbind, B_bind, get. rewrite Hs, Z.sub_diag.
    change (Z.to_nat 0) with 0%nat. cbn [destroy_from mret B_ret]. unfold change. assert (with_size (Z.of_nat (length l)) b = b) as -> by (destruct b; cbn in *; by rewrite Hs).
    by rewrite Nat2Z.id, Nat.sub_diag, app_nil_r.
  - pose proof (resize_leaves b l n (Outside x) x Hrep ltac:(lia) ltac:(lia) ltac:(by left)) as Hl. unfold leaves in *.
    destruct (resize_value n (Outside x) b) as [[[]|e] b']; [by replace (Z.to_nat n - length l)%nat with (Z.to_nat (n - Z.of_nat (length l))) by lia|].
    destruct Hl as (He & k & Hk & Hrep'). split; [done|]. exists k. split; [done|lia].
Qed.

Lemma operation_refined op b l : represents b l -> operation_ok op b ->
  exists r b' l', run_operation op b = (r, b') /\ represents b' l' /\ operation_outcome op l r l'.
Proof.
  intros Hrep Hok. pose proof (represents_length b l Hrep) as Hlen. unfold size in *.
  assert (m_size b = Z.of_nat (length l)) as Hs by apply Hrep. destruct op; cbn [operation_ok] in Hok; unfold size in Hok; rewrite ?Hs in Hok.
  - pose proof (emplace_front_leaves b l (Outside x) x Hrep ltac:(by left)) as Hl. unfold leaves in Hl. cbn [run_operation]. unfold mbind, B_bind, push_front.
    destruct (emplace_front _ b) as [[i|e] b']; destruct Hl as [Hl1 Hl2]; [by exists (Returns tt), b', (x :: l)|by exists (Throws e), b', l].
  - pose proof (emplace_back_leaves b l (Outside x) x Hrep ltac:(by left)) as Hl. unfold leaves in Hl. cbn [run_operation]. unfold mbind, B_bind, push_back.
    destruct (emplace_back _ b) as [[i|e] b']; destruct Hl as [Hl1 Hl2]; [by exists (Returns tt), b', (l ++ [x])|by exists (Throws e), b', l].
  - destruct l as [|y l]; [cbn in Hok; lia|]. destruct (pop_front_represents b y l Hrep) as (b' & E & Hrep' & _). by exists (Returns tt), b', l.
  - destruct (exists_last (l := l)) as (l' & y & ->); [intros ->; cbn in Hok; lia|]. destruct (pop_back_represents b y l' Hrep) as (b' & E & Hrep' & _). exists (Returns tt), b', l'. split_and!; [done|done|].
    cbn. by rewrite removelast_last.
  - destruct (clear_represents b l Hrep) as (b' & E & Hrep' & _). by exists (Returns tt), b', [].
  - destruct (decide (Z.of_nat (length l) <= n)) as [Hle|Hgt].
    + destruct (reserve_represents b l n Hrep) as [(b' & E & Hrep' & _)|(e & E & He & _)]; [lia|done|by exists (Returns tt), b', l|by exists (Throws e), b, l].
    + exists (Returns tt), b, l. split_and!; [|done|done]. cbn [run_operation]. pose proof Hrep as [[[_ Ha _] _] _ Hroom]. rewrite reserve_eq by done.
      destruct (Z.eqb_spec n 0); [done|]. destruct (Z.leb_spec word_size (n + 1)); [lia|]. destruct (Z.leb_spec (n + 1) (m_allocated_size b)); [done|].
      destruct Hroom as [?|[_ ->]]; [lia|cbn in Hgt; lia].
  - eapply leaves_outcome; [by apply (shrink_leaves b l)|done|intros b' [Hrep' _]; by exists l|intros b' ->; by exists l].
  - eapply leaves_outcome; [by apply (resize_outcome n x b l)|done| |].
    + intros b' Hrep'. eexists. by split; [exact Hrep'|].
    + intros b' (k & Hrep' & Hk). eexists. split; [done|]. exists k. split; [done|]. rewrite length_app, length_replicate. lia.
  - destruct (clear_represents b l Hrep) as (b1 & E & Hrep1 & _). eapply leaves_outcome; [apply (resize_outcome n x b1 []); [done|cbn; lia]| | |].
    + cbn [run_operation]. unfold assign_values, mbind, B_bind. by rewrite E.
    + intros b' Hrep'. cbn in Hrep'. rewrite Nat.sub_0_r in Hrep'. eexists. by split; [exact Hrep'|].
    + intros b' (k & Hrep' & Hk). cbn in Hrep', Hk. eexists. split; [done|]. by exists k.
  - destruct (clear_represents b l Hrep) as (b1 & E & Hrep1 & _). assert (m_begin b1 = 0) as Hb1.
    { unfold clear, mbind, B_bind, change in E. destruct (destroy 0 b) as [[[]|e] b2]; [|done]. by injection E as <-. }
    eapply leaves_outcome; [by apply (copy_leaves forward l0 b1)| | |].
    + cbn [run_operation]. unfold assign_range, mbind, B_bind. by rewrite E.
    + intros b' Hrep'. eexists. by split; [exact Hrep'|].
    + intros b' (k & Hrep'). eexists. split; [done|]. by exists k.
Qed.

(** Operations one after the other, whether they throw or not. *)
Fixpoint run (ops : list operation) b : list (outcome unit) * CircularBuffer T :=
  match ops with
  | [] => ([], b)
  | op :: ops => let '(r, b) := run_operation op b in let '(rs, b) := run ops b in (r :: rs, b)
  end.

Inductive trace : list T -> list operation -> list (outcome unit) -> list T -> Prop :=
| trace_nil l : trace l [] [] l
| trace_cons l op r l' ops rs l'' : operation_outcome op l r l' -> trace l' ops rs l'' -> trace l (op :: ops) (r :: rs) l''.

(** No operation asks for what it may not. *)
Fixpoint allowed (ops : list operation) b : Prop :=
  match ops with [] => True | op :: ops => operation_ok op b /\ allowed ops (run_operation op b).2 end.

Lemma run_refined ops : forall b l, represents b l -> allowed ops b -> exists l', trace l ops (run ops b).1 l' /\ represents (run ops b).2 l'.
Proof.
  induction ops as [|op ops IH]; intros b l Hrep Hok; [exists l; split; [constructor|done]|]. destruct Hok as [Hok Hrest].
  destruct (operation_refined op b l Hrep Hok) as (r & b1 & l1 & E & Hrep1 & Hout). cbn. rewrite E in Hrest |- *. destruct (IH b1 l1 Hrep1 Hrest) as (l2 & Ht & Hrep2).
  exists l2. destruct (run ops b1) as [rs b2]. split; [|done]. by econstructor.
Qed.

(** C7: A circular buffer is a sequence: any pushes of values from elsewhere, pops where there is an
    element, [clear], [reserve], [shrink_to_fit], [resize] to a size that is not smaller, and
    assignments of values and ranges from elsewhere, one after the other, do on it what they do on
    a list, whether memory is moved or wrapped around; one that throws leaves the sequence as it
    was, or a part of what it was to make.  Afterwards the size, the access by index and a loop over
    the iterators give the list, and no object lives in the rest of the memory.  For a smaller
    [resize], self assignment and pushes of own elements see [resize_destroys_first],
    [self_assignment_empties] and [own_element_pushed]. *)
Theorem buffer_is_sequence ops : allowed ops default_buffer ->
  let '(rs, b) := run ops default_buffer in
  exists l, trace [] ops rs l /\ represents b l /\ elements b = (Returns l, b) /\ size b = Z.of_nat (length l) /\ Z.of_nat (length l) <= capacity b /\
    forall i, 0 <= i -> match l !! Z.to_nat i with
                    | Some x => at_ i b = (Returns (wrap i b), b) /\ read_slot (wrap i b) b = (Returns x, b)
                    | None => at_ i b = (Throws OutOfRange, b)
                    end.
Proof.
  intros Hok. destruct (run_refined ops default_buffer [] represents_default Hok) as (l & Ht & Hrep). destruct (run ops default_buffer) as [rs b]. cbn in Ht, Hrep. exists l.
  pose proof Hrep as [_ Hs Hroom]. split_and!; [done|done|by apply elements_are|done|unfold capacity; destruct Hroom as [?|[-> ->]]; [case_match|]; cbn; lia|].
  intros i Hi. unfold at_, mbind, B_bind, get. rewrite Hs. destruct (l !! Z.to_nat i) as [x|] eqn:Ex.
  - pose proof (at_index_range l i x Hi Ex). rewrite (proj2 (Z.ltb_lt _ _)) by done. rewrite (operator_index_at b l) by done. rewrite (proj2 (Z.ltb_lt _ _)) by done.
    split; [done|]. by apply (deref_at b l).
  - apply lookup_ge_None_1 in Ex. destruct (Z.ltb_spec i (Z.of_nat (length l))); [lia|done].
Qed.

Lemma run_represents ops l : allowed ops default_buffer -> elements (run ops default_buffer).2 = (Returns l, (run ops default_buffer).2) ->
  represents (run ops default_buffer).2 l.
Proof.
  intros Hok E. destruct (run_refined ops default_buffer [] represents_default Hok) as (l' & _ & Hrep). rewrite (elements_are _ _ Hrep) in E. by injection E as <-.
Qed.

(** ** Copies *)

Lemma constructed m l : leaves m default_buffer (fun _ b' => represents b' l) (fun b' => exists l', represents b' l') ->
  match constructor m with Returns b' => represents b' l | Throws e => may_throw e end.
Proof.
  unfold leaves, constructor. destruct (m default_buffer) as [[[]|e] b]; [done|]. intros (He & l' & Hrep). pose proof Hrep as [Hr Hs Hroom]. pose proof Hr as [Hd _].
  unfold destroy, mbind, B_bind, get. rewrite Hs, Z.sub_0_r, Nat2Z.id, <- (wrap_0 b Hd).
  destruct (destroy_from_ring (length l') b (at_index l') 0 Hr) as (b1 & -> & _); [lia|destruct Hroom as [?|[_ ->]]; [left; lia|by right]|intros k Hk; apply at_index_some; lia|done].
Qed.

(** A copy holds what the buffer holds, and the buffer still holds it; so does the buffer that
    another is assigned to; and the comparison is that of the lists. *)
Theorem copies_are_equal b l b0 l0 (eq : T -> T -> bool) : represents b l -> represents b0 l0 ->
  match buffer_of_copy b with Returns b' => represents b' l | Throws e => may_throw e end /\
  leaves (assign_copy (Some b)) b0 (fun _ b' => represents b' l) (fun b' => exists n, represents b' (take n l)) /\
  buffer_eq eq b b0 = Returns (std_equal eq l l0).
Proof.
  intros Hrep Hrep0. pose proof (represents_length b l Hrep) as Hlen. split_and!.
  - unfold buffer_of_copy. rewrite (elements_are b l) by done. apply constructed.
    pose proof (copy_leaves true l default_buffer represents_default eq_refl ltac:(lia)) as Hc. unfold leaves in *. cbn [copy] in Hc.
    destruct (copy_forward l default_buffer) as [[[]|e] b1]; [done|]. destruct Hc as (He & n & Hr). split; [done|by eexists].
  - destruct (clear_represents b0 l0 Hrep0) as (b1 & E & Hrep1 & _). assert (m_begin b1 = 0) as Hb1.
    { unfold clear, mbind, B_bind, change in E. destruct (destroy 0 b0) as [[[]|e] b2]; [|done]. by injection E as <-. }
    unfold leaves, assign_copy, mbind, B_bind. rewrite E, (elements_are b l) by done. cbn [mret B_ret]. apply (copy_leaves true l b1); [done|done|lia].
  - unfold buffer_eq, with_elements. by rewrite (elements_are b l), (elements_are b0 l0).
Qed.
End props.

(** ** A buffer of integers *)

Section samples.
#[local] Instance plain_integers : Elements Z := {| construct_throws _ := false; nothrow_move := true; can_allocate _ := true; default_value := 0 |}.

Definition sample_operations : list operation :=
  [PushBack 1; PushBack 2; PushBack 3; PopFront; PushBack 4; PushBack 5; PopFront; PushFront 7; Resize 6 9; ShrinkToFit; PopBack; Reserve 20; PushFront 8].

Lemma buffer_is_sequence_witness :
  allowed sample_operations default_buffer /\
  exists l, l = [8; 7; 3; 4; 5; 9] /\ elements (run sample_operations default_buffer).2 = (Returns l, (run sample_operations default_buffer).2).
Proof.
  assert (allowed sample_operations default_buffer) as Hok by (vm_compute; repeat split; done). split; [exact Hok|].
  pose proof (buffer_is_sequence sample_operations Hok) as Hs.
  assert (elements (run sample_operations default_buffer).2 = (Returns [8; 7; 3; 4; 5; 9], (run sample_operations default_buffer).2)) as E' by (vm_compute; reflexivity).
  destruct (run sample_operations default_buffer) as [rs b]. destruct Hs as (l & _ & _ & El & _). exists l. split; [|exact El]. cbn in E'. congruence.
Defined.

(** A buffer that wraps around: the third slot holds its first element. *)
Definition wrapped : CircularBuffer Z := (run [PushBack 1; PushBack 2; PushBack 3; PopFront; PopFront; PushBack 4; PushBack 5] default_buffer).2.

Lemma wrapped_represents : represents wrapped [3; 4; 5].
Proof. apply run_represents; [vm_compute; repeat split; done|vm_compute; reflexivity]. Qed.

Lemma iterators_are_positions_witness :
  represents wrapped [3; 4; 5] /\ m_index (iter_at wrapped 0) = 2 /\ m_index (iter_at wrapped 2) = 0 /\
  iter_add (iter_at wrapped 0) 2 wrapped = iter_at wrapped 2 /\ iter_distance (iter_at wrapped 0) (iter_at wrapped 2) wrapped = -2.
Proof.
  split; [apply wrapped_represents|]. split_and!; [vm_compute; reflexivity..| |].
  - apply (iterators_are_positions wrapped [3; 4; 5] 0 2 wrapped_represents); cbn; lia.
  - apply (iterators_are_positions wrapped [3; 4; 5] 0 2 wrapped_represents); cbn; lia.
Defined.

Definition roomy : CircularBuffer Z := (run [Reserve 9; PushBack 4; PushBack 5] default_buffer).2.

Lemma iterators_stay_witness :
  represents roomy [4; 5] /\ forall b' i, push_front (Outside 1) roomy = (Returns i, b') -> iter_at b' 1 = iter_at roomy 0.
Proof.
  assert (represents roomy [4; 5]) as Hrep by (apply run_represents; [vm_compute; repeat split; done|vm_compute; reflexivity]).
  split; [exact Hrep|]. intros b' i E. destruct (iterators_stay roomy [4; 5] 1 Hrep) as [Hstay _].
  apply (Hstay ltac:(vm_compute; reflexivity) b' i 0 ltac:(cbn; lia)). exact E.
Defined.

(** [resize] to a smaller size destroys elements from the first one on, and keeps the last. *)
Lemma resize_destroys_first : let b := (run [PushBack 1; PushBack 2] default_buffer).2 in
  exists b', resize 1 b = (Returns tt, b') /\ (i ← front; read_slot i) b' = (Throws DeadObject, b') /\ read_slot 1 b' = (Returns 2, b').
Proof. eexists. split; [vm_compute; reflexivity|]. split; vm_compute; reflexivity. Qed.

(** A buffer that is assigned to itself is empty. *)
Lemma self_assignment_empties : let b := (run [PushBack 1; PushBack 2] default_buffer).2 in
  exists b', assign_copy None b = (Returns tt, b') /\ elements b' = (Returns [], b').
Proof. eexists. split; [vm_compute; reflexivity|]. vm_compute; reflexivity. Qed.

(** An element of the buffer that is pushed again is gone when its copy is made, if memory is
    allocated for it. *)
Lemma own_element_pushed : let b := (run [PushBack 1; ShrinkToFit] default_buffer).2 in
  size b = capacity b /\ (push_back (InSlot (m_memory_owner b) 0) b).1 = Throws DeadObject.
Proof. split; vm_compute; reflexivity. Qed.

(** An empty buffer keeps its memory. *)
Lemma empty_keeps_memory : let b := (run [PushBack 1; PopBack] default_buffer).2 in m_size b = 0 /\ m_allocated_size b = 2.
Proof. split; vm_compute; reflexivity. Qed.
End samples.
