(* ===== verification/Utf8.v ===== *)
(** Transcoding between UTF-8 and UTF-16, [Utf8x16] of [realm/util/utf8.hpp], and that it is exact:
    what is transcoded is a sequence of code points, and where transcoding stops there is no code
    point or no room for one.

    The input is the list of the bytes (as [traits8::to_int_type] gives them, from 0 to 255) or of
    the UTF-16 elements that are left, the output the list of those that were written, and the room
    the number of those that still fit.  The pointers that are advanced are the input that is left
    and the length of the output.  [uint_fast16_t] and [uint_fast32_t] have at least 16 and 32 bits,
    more on some platforms (class [FastIntegers]), and so may [Char16] have. *)

From S2P Require Import Prelude SafeInt.

Class FastIntegers := {
  fast16_bits : Z;
  fast32_bits : Z;
  char16_bits : Z;
  fast16_wide : 16 <= fast16_bits;
  fast32_wide : 32 <= fast32_bits;
  char16_wide : 16 <= char16_bits
}.

(** What the body of a loop does: it leaves the loop, with the flag [invalid], or writes and
    advances the input. *)
Inductive step := Break (invalid : bool) | Continue (written : list Z) (consumed : nat).

(** The same of the loops that only count. *)
Inductive count_step := Stop | Count (num_out : Z) (consumed : nat).

Section utf8.
Context `{FastIntegers}.

Definition fast16 (v : Z) : Z := v mod 2 ^ fast16_bits.
Definition fast32 (v : Z) : Z := v mod 2 ^ fast32_bits.
Definition char16 (v : Z) : Z := v mod 2 ^ char16_bits.
Definition char8 (v : Z) : Z := v mod 256.

(** [(v & 0xC0) != 0x80] *)
Definition not_continuation (v : Z) : bool := negb (Z.land v 0xC0 =? 0x80).

(** ** From UTF-8 to UTF-16 *)

Definition to_utf16_step (input : list Z) (room : nat) : step :=
  match input with
  | [] => Break false
  | b1 :: input =>
      let v1 := fast16 b1 in
      if (room =? 0)%nat then Break false
      else if v1 <? 0x80 then Continue [char16 v1] 1
      else if v1 <? 0xC0 then Break true
      else if v1 <? 0xE0 then
        match input with
        | b2 :: _ =>
            let v2 := fast16 b2 in
            if not_continuation v2 then Break true
            else
              let v := fast16 (Z.lor (Z.shiftl (Z.land v1 0x1F) 6) (Z.land v2 0x3F)) in
              if v <? 0x80 then Break true else Continue [char16 v] 2
        | _ => Break true
        end
      else if v1 <? 0xF0 then
        match input with
        | b2 :: b3 :: _ =>
            let v2 := fast16 b2 in
            let v3 := fast16 b3 in
            if not_continuation v2 || not_continuation v3 then Break true
            else
              let v := fast16 (Z.lor (Z.lor (Z.shiftl (Z.land v1 0x0F) 12) (Z.shiftl (Z.land v2 0x3F) 6)) (Z.land v3 0x3F)) in
              if v <? 0x800 then Break true
              else if (0xD800 <=? v) && (v <? 0xE000) then Break true
              else Continue [char16 v] 3
        | _ => Break true
        end
      else if (room =? 1)%nat then Break false
      else if v1 <? 0xF8 then
        match input with
        | b2 :: b3 :: b4 :: _ =>
            let w1 := fast32 v1 in
            let v2 := fast32 b2 in
            let v3 := fast16 b3 in
            let v4 := fast16 b4 in
            if not_continuation v2 || not_continuation v3 || not_continuation v4 then Break true
            else
              let v := fast32 (Z.lor (Z.lor (Z.lor (Z.shiftl (Z.land w1 0x07) 18) (Z.shiftl (Z.land v2 0x3F) 12)) (Z.shiftl (Z.land v3 0x3F) 6))
                                 (Z.land v4 0x3F)) in
              if v <? 0x10000 then Break true
              else if 0x110000 <=? v then Break true
              else
                let v := v - 0x10000 in
                Continue [char16 (0xD800 + v / 0x400); char16 (0xDC00 + v mod 0x400)] 4
        | _ => Break true
        end
      else Break true
  end.

Definition find_utf16_step (input : list Z) : count_step :=
  match input with
  | [] => Stop
  | b1 :: input =>
      let v1 := fast16 b1 in
      if v1 <? 0x80 then Count 1 1
      else if v1 <? 0xC0 then Stop
      else if v1 <? 0xE0 then if (length input <? 1)%nat then Stop else Count 1 2
      else if v1 <? 0xF0 then if (length input <? 2)%nat then Stop else Count 1 3
      else if v1 <? 0xF8 then if (length input <? 3)%nat then Stop else Count 2 4
      else Stop
  end.

(** ** From UTF-16 to UTF-8 *)

Definition to_utf8_step (input : list Z) (room : nat) : step :=
  match input with
  | [] => Break false
  | u1 :: input =>
      let v1 := fast16 u1 in
      if v1 <? 0x80 then if (room =? 0)%nat then Break false else Continue [char8 v1] 1
      else if v1 <? 0x800 then
        if (room <? 2)%nat then Break false else Continue [char8 (0xC0 + v1 / 0x40); char8 (0x80 + v1 mod 0x40)] 1
      else if (v1 <? 0xD800) || (0xE000 <=? v1) then
        if (room <? 3)%nat then Break false
        else Continue [char8 (0xE0 + v1 / 0x1000); char8 (0x80 + v1 / 0x40 mod 0x40); char8 (0x80 + v1 mod 0x40)] 1
      else if (room <? 4)%nat then Break false
      else if 0xDC00 <=? v1 then Break true
      else
        match input with
        | [] => Break true
        | u2 :: _ =>
            let v2 := fast16 u2 in
            if (v2 <? 0xDC00) || (0xE000 <=? v2) then Break true
            else
              let v := fast32 (0x10000 + (fast32 (v1 - 0xD800) * 0x400 + (v2 - 0xDC00))) in
              Continue [char8 (0xF0 + v / 0x40000); char8 (0x80 + v / 0x1000 mod 0x40); char8 (0x80 + v / 0x40 mod 0x40); char8 (0x80 + v mod 0x40)] 2
        end
  end.

Definition find_utf8_step (input : list Z) : count_step :=
  match input with
  | [] => Stop
  | u1 :: input =>
      let v := fast16 u1 in
      if v <? 0x80 then Count 1 1
      else if v <? 0x800 then Count 2 1
      else if (v <? 0xD800) || (0xE000 <=? v) then Count 3 1
      else match input with [] => Stop | _ :: _ => Count 4 2 end
  end.

(** ** The loops

    [transcode] gives what is returned, the input that is left and the output; the counts of
    [find_utf16_buf_size] are added without a check, those of [find_utf8_buf_size] with one that
    leaves the loop. *)

Fixpoint transcode (body : list Z -> nat -> step) (fuel : nat) (input : list Z) (room : nat) : result (bool * list Z * list Z) :=
  match body input room with
  | Break invalid => Ok (negb invalid, input, [])
  | Continue written consumed =>
      match fuel with
      | O => Err OutOfFuel
      | S fuel =>
          '(valid, rest, output) ← transcode body fuel (drop consumed input) (room - length written);
          Ok (valid, rest, (written ++ output)%list)
      end
  end.

Definition to_utf16 (input : list Z) (room : nat) : result (bool * list Z * list Z) := transcode to_utf16_step (length input) input room.
Definition to_utf8 (input : list Z) (room : nat) : result (bool * list Z * list Z) := transcode to_utf8_step (length input) input room.

Fixpoint count (body : list Z -> count_step) (add : Z -> Z -> bool * Z) (fuel : nat) (input : list Z) (num_out : Z) : result (Z * list Z) :=
  match body input with
  | Stop => Ok (num_out, input)
  | Count n consumed =>
      match fuel with
      | O => Err OutOfFuel
      | S fuel =>
          let '(overflow, num_out) := add num_out n in
          if overflow : bool then Ok (num_out, input) else count body add fuel (drop consumed input) num_out
      end
  end.

Definition find_utf16_buf_size (input : list Z) : result (Z * list Z) :=
  count find_utf16_step (fun num_out n => (false, u64 (num_out + n))) (length input) input 0.
Definition find_utf8_buf_size (input : list Z) : result (Z * list Z) :=
  count find_utf8_step (int_add_with_overflow_detect size_t int_t) (length input) input 0.
End utf8.

(** ** Code points *)

Definition scalar (c : Z) : Prop := 0 <= c < 0xD800 \/ 0xE000 <= c < 0x110000.

Definition utf8_of (c : Z) : list Z :=
  if c <? 0x80 then [c]
  else if c <? 0x800 then [0xC0 + c / 0x40; 0x80 + c mod 0x40]
  else if c <? 0x10000 then [0xE0 + c / 0x1000; 0x80 + c / 0x40 mod 0x40; 0x80 + c mod 0x40]
  else [0xF0 + c / 0x40000; 0x80 + c / 0x1000 mod 0x40; 0x80 + c / 0x40 mod 0x40; 0x80 + c mod 0x40].

Definition utf16_of (c : Z) : list Z :=
  if c <? 0x10000 then [c] else [0xD800 + (c - 0x10000) / 0x400; 0xDC00 + (c - 0x10000) mod 0x400].

Definition utf8 (cs : list Z) : list Z := cs ≫= utf8_of.
Definition utf16 (cs : list Z) : list Z := cs ≫= utf16_of.

Definition byte (b : Z) : Prop := 0 <= b < 256.
Definition unit16 (u : Z) : Prop := 0 <= u < 0x10000.

Section steps.
Context `{FastIntegers}.

Lemma fast16_id v : 0 <= v < 0x10000 -> fast16 v = v.
Proof. intros Hv. unfold fast16. apply Z.mod_small. pose proof (Z.pow_le_mono_r 2 16 fast16_bits ltac:(lia) fast16_wide). change (2 ^ 16) with 0x10000 in *. lia. Qed.
Lemma fast32_id v : 0 <= v < 0x100000000 -> fast32 v = v.
Proof. intros Hv. unfold fast32. apply Z.mod_small. pose proof (Z.pow_le_mono_r 2 32 fast32_bits ltac:(lia) fast32_wide). change (2 ^ 32) with 0x100000000 in *. lia. Qed.
Lemma char16_id v : 0 <= v < 0x10000 -> char16 v = v.
Proof. intros Hv. unfold char16. apply Z.mod_small. pose proof (Z.pow_le_mono_r 2 16 char16_bits ltac:(lia) char16_wide). change (2 ^ 16) with 0x10000 in *. lia. Qed.
Lemma char8_id v : 0 <= v < 256 -> char8 v = v.
Proof. intros Hv. by apply Z.mod_small. Qed.

Lemma continuation_byte b : byte b -> not_continuation b = negb ((128 <=? b) && (b <? 192)).
Proof.
  intros Hb. assert (forallb (fun b => Bool.eqb (not_continuation b) (negb ((128 <=? b) && (b <? 192)))) (seqZ 0 256) = true) as Hall by by vm_compute.
  rewrite forallb_forall in Hall. apply eqb_prop, Hall, list_elem_of_In, elem_of_seqZ. unfold byte in Hb. lia.
Qed.

Lemma payload b : Z.land b 0x3F = b mod 0x40 /\ Z.land b 0x1F = b mod 0x20 /\ Z.land b 0x0F = b mod 0x10 /\ Z.land b 0x07 = b mod 0x08.
Proof.
  change 0x3F with (2 ^ 6 - 1). change 0x1F with (2 ^ 5 - 1). change 0x0F with (2 ^ 4 - 1). change 0x07 with (2 ^ 3 - 1). by rewrite !land_ones_mod.
Qed.

Lemma lor_shifted a b n : 0 <= n -> 0 <= b < 2 ^ n -> Z.lor (Z.shiftl a n) b = a * 2 ^ n + b.
Proof. intros Hn Hb. rewrite Z.lor_comm, Z.shiftl_mul_pow2, lor_low_high by done. lia. Qed.

Lemma two_payloads v1 v2 : Z.lor (Z.shiftl (Z.land v1 0x1F) 6) (Z.land v2 0x3F) = v1 mod 0x20 * 0x40 + v2 mod 0x40.
Proof. destruct (payload v1) as (_ & -> & _), (payload v2) as (-> & _). rewrite lor_shifted; [done|done|]. apply (Z.mod_pos_bound v2 0x40). lia. Qed.

Lemma three_payloads v1 v2 v3 :
  Z.lor (Z.lor (Z.shiftl (Z.land v1 0x0F) 12) (Z.shiftl (Z.land v2 0x3F) 6)) (Z.land v3 0x3F) = v1 mod 0x10 * 0x1000 + v2 mod 0x40 * 0x40 + v3 mod 0x40.
Proof.
  destruct (payload v1) as (_ & _ & -> & _), (payload v2) as (-> & _), (payload v3) as (-> & _).
  pose proof (Z.mod_pos_bound v2 0x40 ltac:(lia)). pose proof (Z.mod_pos_bound v3 0x40 ltac:(lia)).
  replace (Z.shiftl (v1 mod 0x10) 12) with (Z.shiftl (Z.shiftl (v1 mod 0x10) 6) 6) by by rewrite Z.shiftl_shiftl.
  rewrite <- Z.shiftl_lor, !lor_shifted by (done || (change (2 ^ 6) with 0x40; lia)). change (2 ^ 6) with 0x40. lia.
Qed.

Lemma four_payloads v1 v2 v3 v4 :
  Z.lor (Z.lor (Z.lor (Z.shiftl (Z.land v1 0x07) 18) (Z.shiftl (Z.land v2 0x3F) 12)) (Z.shiftl (Z.land v3 0x3F) 6)) (Z.land v4 0x3F) =
  v1 mod 0x08 * 0x40000 + v2 mod 0x40 * 0x1000 + v3 mod 0x40 * 0x40 + v4 mod 0x40.
Proof.
  destruct (payload v1) as (_ & _ & _ & ->), (payload v2) as (-> & _), (payload v3) as (-> & _), (payload v4) as (-> & _).
  pose proof (Z.mod_pos_bound v2 0x40 ltac:(lia)). pose proof (Z.mod_pos_bound v3 0x40 ltac:(lia)). pose proof (Z.mod_pos_bound v4 0x40 ltac:(lia)).
  replace (Z.shiftl (v1 mod 0x08) 18) with (Z.shiftl (Z.shiftl (Z.shiftl (v1 mod 0x08) 6) 6) 6) by by rewrite !Z.shiftl_shiftl.
  replace (Z.shiftl (v2 mod 0x40) 12) with (Z.shiftl (Z.shiftl (v2 mod 0x40) 6) 6) by by rewrite Z.shiftl_shiftl.
  rewrite <- !Z.shiftl_lor, !lor_shifted by (done || (change (2 ^ 6) with 0x40; lia)). change (2 ^ 6) with 0x40. lia.
Qed.

Ltac euclid := Z.to_euclidean_division_equations; lia.
Ltac cases :=
  repeat match goal with
  | |- context [?a <? ?b] => destruct (Z.ltb_spec a b); try lia
  | |- context [?a <=? ?b] => destruct (Z.leb_spec a b); try lia
  end; cbn [andb orb negb].

(** A code point is decoded where it is. *)
Lemma to_utf16_step_complete c rest room : scalar c -> (length (utf16_of c) <= room)%nat ->
  to_utf16_step (utf8_of c ++ rest) room = Continue (utf16_of c) (length (utf8_of c)).
Proof.
  unfold scalar, utf8_of, utf16_of. intros Hc Hroom.
  destruct (Z.ltb_spec c 0x80); [|destruct (Z.ltb_spec c 0x800); [|destruct (Z.ltb_spec c 0x10000)]]; cbn [app to_utf16_step length].
  - rewrite (proj2 (Z.ltb_lt c 0x10000)) in * by lia. cbn [length] in Hroom. destruct room as [|room]; [lia|]. cbn [Nat.eqb]. rewrite fast16_id, (proj2 (Z.ltb_lt c 0x80)) by lia.
    by rewrite char16_id by lia.
  - rewrite (proj2 (Z.ltb_lt c 0x10000)) in * by lia. cbn [length] in Hroom. destruct room as [|room]; [lia|]. cbn [Nat.eqb].
    assert (0x0 <= c / 0x40 < 0x20 /\ 0 <= c mod 0x40 < 0x40) as [Q1 Q2] by euclid. rewrite (fast16_id (0xC0 + _)), (fast16_id (0x80 + _)) by lia.
    rewrite continuation_byte, two_payloads by (unfold byte; lia).
    assert ((0xC0 + c / 0x40) mod 0x20 * 0x40 + (0x80 + c mod 0x40) mod 0x40 = c) as -> by euclid. rewrite (fast16_id c) by lia. cases. by rewrite (char16_id c) by lia.
  - cbn [length] in Hroom. destruct room as [|room]; [lia|]. cbn [Nat.eqb].
    assert (0x0 <= c / 0x1000 < 0x10 /\ 0 <= c / 0x40 mod 0x40 < 0x40 /\ 0 <= c mod 0x40 < 0x40) as (Q1 & Q2 & Q3) by euclid. rewrite (fast16_id (0xE0 + _)), (fast16_id (0x80 + _ / _ mod _)), (fast16_id (0x80 + c mod _)) by lia.
    rewrite !continuation_byte, three_payloads by (unfold byte; lia).
    assert ((0xE0 + c / 0x1000) mod 0x10 * 0x1000 + (0x80 + c / 0x40 mod 0x40) mod 0x40 * 0x40 + (0x80 + c mod 0x40) mod 0x40 = c) as -> by euclid.
    rewrite (fast16_id c) by lia. cases; by rewrite (char16_id c) by lia.
  - cbn [length] in Hroom. destruct room as [|[|room]]; [lia|lia|]. cbn [Nat.eqb].
    assert (0x0 <= c / 0x40000 < 0x5 /\ 0 <= c / 0x1000 mod 0x40 < 0x40 /\ 0 <= c / 0x40 mod 0x40 < 0x40 /\ 0 <= c mod 0x40 < 0x40) as (Q1 & Q2 & Q3 & Q4) by euclid.
    rewrite (fast16_id (0xF0 + _)), (fast32_id (0xF0 + _)), (fast32_id (0x80 + _)), (fast16_id (0x80 + c / 0x1000 mod _)), (fast16_id (0x80 + c / 0x40 mod _)), (fast16_id (0x80 + c mod _)) by lia.
    rewrite !continuation_byte, four_payloads by (unfold byte; lia).
    assert ((0xF0 + c / 0x40000) mod 0x08 * 0x40000 + (0x80 + c / 0x1000 mod 0x40) mod 0x40 * 0x1000 + (0x80 + c / 0x40 mod 0x40) mod 0x40 * 0x40 + (0x80 + c mod 0x40) mod 0x40 = c) as -> by euclid.
    rewrite (fast32_id c) by lia. cases. assert (0 <= (c - 0x10000) / 0x400 < 0x400 /\ 0 <= (c - 0x10000) mod 0x400 < 0x400) as [? ?] by euclid. by rewrite (char16_id (0xD800 + _)), (char16_id (0xDC00 + _)) by lia.
Qed.

Lemma not_continuation_false b : byte b -> not_continuation b = false -> 128 <= b < 192.
Proof. intros Hb. rewrite continuation_byte by done. intros E%negb_false_iff. apply andb_true_iff in E as [?%Z.leb_le ?%Z.ltb_lt]. lia. Qed.

(** What the code makes of two, three and four bytes is a code point of which they are the bytes. *)
Lemma utf8_of_two b1 b2 : 0xC0 <= b1 < 0xE0 -> 128 <= b2 < 192 -> let v := b1 mod 0x20 * 0x40 + b2 mod 0x40 in
  0x80 <= v -> scalar v /\ utf8_of v = [b1; b2] /\ utf16_of v = [v] /\ v < 0x10000.
Proof.
  intros H1 H2 v Hv. assert (v = (b1 - 0xC0) * 0x40 + (b2 - 128)) as Ev by (unfold v; euclid). split_and!; [left; lia| | |lia].
  - unfold utf8_of. rewrite (proj2 (Z.ltb_ge v 0x80)), (proj2 (Z.ltb_lt v 0x800)) by lia. repeat f_equal; euclid.
  - unfold utf16_of. by rewrite (proj2 (Z.ltb_lt v 0x10000)) by lia.
Qed.

Lemma utf8_of_three b1 b2 b3 : 0xE0 <= b1 < 0xF0 -> 128 <= b2 < 192 -> 128 <= b3 < 192 -> let v := b1 mod 0x10 * 0x1000 + b2 mod 0x40 * 0x40 + b3 mod 0x40 in
  0x800 <= v -> v < 0xD800 \/ 0xE000 <= v -> scalar v /\ utf8_of v = [b1; b2; b3] /\ utf16_of v = [v] /\ v < 0x10000.
Proof.
  intros H1 H2 H3 v Hv Hs. assert (v = (b1 - 0xE0) * 0x1000 + (b2 - 128) * 0x40 + (b3 - 128)) as Ev by (unfold v; euclid). split_and!; [unfold scalar; lia| | |lia].
  - unfold utf8_of. rewrite (proj2 (Z.ltb_ge v 0x80)), (proj2 (Z.ltb_ge v 0x800)), (proj2 (Z.ltb_lt v 0x10000)) by lia. repeat f_equal; euclid.
  - unfold utf16_of. by rewrite (proj2 (Z.ltb_lt v 0x10000)) by lia.
Qed.

Lemma utf8_of_four b1 b2 b3 b4 : 0xF0 <= b1 < 0xF8 -> 128 <= b2 < 192 -> 128 <= b3 < 192 -> 128 <= b4 < 192 ->
  let v := b1 mod 0x08 * 0x40000 + b2 mod 0x40 * 0x1000 + b3 mod 0x40 * 0x40 + b4 mod 0x40 in
  0x10000 <= v < 0x110000 -> scalar v /\ utf8_of v = [b1; b2; b3; b4] /\ utf16_of v = [0xD800 + (v - 0x10000) / 0x400; 0xDC00 + (v - 0x10000) mod 0x400].
Proof.
  intros H1 H2 H3 H4 v Hv. assert (v = (b1 - 0xF0) * 0x40000 + (b2 - 128) * 0x1000 + (b3 - 128) * 0x40 + (b4 - 128)) as Ev by (unfold v; euclid). split_and!; [unfold scalar; lia| |].
  - unfold utf8_of. rewrite (proj2 (Z.ltb_ge v 0x80)), (proj2 (Z.ltb_ge v 0x800)), (proj2 (Z.ltb_ge v 0x10000)) by lia. repeat f_equal; euclid.
  - unfold utf16_of. by rewrite (proj2 (Z.ltb_ge v 0x10000)) by lia.
Qed.

(** What a step of a transcoding may do: it transcodes a code point, or there is none, or no room for it. *)
Definition code_point_step (from to : Z -> list Z) (short : list Z -> nat -> Prop) (body : list Z -> nat -> step) (input : list Z) (room : nat) : Prop :=
  match body input room with
  | Continue written consumed => exists c rest, scalar c /\ input = from c ++ rest /\ consumed = length (from c) /\ written = to c /\ (length written <= room)%nat
  | Break false => input = [] \/ short input room
  | Break true => ~ exists c rest, scalar c /\ input = from c ++ rest
  end.

(** No room is left, or room for one element where a surrogate pair may follow. *)
Definition short16 (input : list Z) (room : nat) : Prop := room = 0%nat \/ room = 1%nat /\ exists b rest, input = b :: rest /\ 0xF0 <= b.

Lemma to_utf16_step_written input room written consumed : Forall byte input -> to_utf16_step input room = Continue written consumed ->
  exists c rest, scalar c /\ input = utf8_of c ++ rest /\ consumed = length (utf8_of c) /\ written = utf16_of c /\ (length written <= room)%nat.
Proof.
  intros Hin. destruct input as [|b1 input]; [done|]. apply Forall_cons in Hin as [Hb1 Hin]. cbn [to_utf16_step]. rewrite fast16_id by (unfold byte in Hb1; lia).
  destruct (Nat.eqb_spec room 0) as [|Hroom]; [done|]. destruct (Z.ltb_spec b1 0x80) as [Hb|Hb].
  { intros [= <- <-]. exists b1, input. unfold byte in Hb1. unfold scalar, utf8_of, utf16_of. rewrite char16_id, (proj2 (Z.ltb_lt b1 0x80)), (proj2 (Z.ltb_lt b1 0x10000)) by lia.
    split_and!; [lia|done|done|done|cbn; lia]. }
  destruct (Z.ltb_spec b1 0xC0) as [|Hc0]; [done|]. destruct (Z.ltb_spec b1 0xE0) as [He0|He0].
  { destruct input as [|b2 rest]; [done|]. apply Forall_cons in Hin as [Hb2 _]. rewrite fast16_id by (unfold byte in Hb2; lia).
    destruct (not_continuation b2) eqn:E2; [done|]. apply not_continuation_false in E2; [|done]. rewrite two_payloads.
    assert (0 <= b1 mod 0x20 * 0x40 + b2 mod 0x40 < 0x10000) by euclid. rewrite fast16_id by done. destruct (Z.ltb_spec (b1 mod 0x20 * 0x40 + b2 mod 0x40) 0x80); [done|].
    rewrite char16_id by done. intros [= <- <-]. destruct (utf8_of_two b1 b2) as (Hs & E8 & E16 & _); [lia|done|done|].
    exists (b1 mod 0x20 * 0x40 + b2 mod 0x40), rest. rewrite E8, E16. split_and!; [done|done|done|done|cbn; lia]. }
  destruct (Z.ltb_spec b1 0xF0) as [Hf0|Hf0].
  { destruct input as [|b2 [|b3 rest]]; [done..|]. apply Forall_cons in Hin as [Hb2 [Hb3 _]%Forall_cons]. rewrite (fast16_id b2), (fast16_id b3) by (unfold byte in *; lia).
    destruct (not_continuation b2) eqn:E2; [done|]. destruct (not_continuation b3) eqn:E3; [done|]. cbn [orb]. apply not_continuation_false in E2, E3; [|done..]. rewrite three_payloads.
    set (v := b1 mod 0x10 * 0x1000 + b2 mod 0x40 * 0x40 + b3 mod 0x40). assert (0 <= v < 0x10000) by (unfold v; euclid). rewrite fast16_id by done.
    destruct (Z.ltb_spec v 0x800); [done|]. destruct ((0xD800 <=? v) && (v <? 0xE000)) eqn:Es; [done|]. apply andb_false_iff in Es. rewrite Z.leb_gt, Z.ltb_ge in Es.
    rewrite char16_id by done. intros [= <- <-]. destruct (utf8_of_three b1 b2 b3) as (Hs & E8 & E16 & _); [lia|done|done|done|fold v; lia|].
    exists v, rest. fold v in Hs, E8, E16. rewrite E8, E16. split_and!; [done|done|done|done|cbn; lia]. }
  destruct (Nat.eqb_spec room 1) as [|Hroom1]; [done|]. destruct (Z.ltb_spec b1 0xF8) as [Hf8|]; [|done].
  destruct input as [|b2 [|b3 [|b4 rest]]]; [done..|]. apply Forall_cons in Hin as [Hb2 [Hb3 [Hb4 _]%Forall_cons]%Forall_cons].
  rewrite (fast32_id b1), (fast32_id b2), (fast16_id b3), (fast16_id b4) by (unfold byte in *; lia).
  destruct (not_continuation b2) eqn:E2; [done|]. destruct (not_continuation b3) eqn:E3; [done|]. destruct (not_continuation b4) eqn:E4; [done|]. cbn [orb].
  apply not_continuation_false in E2, E3, E4; [|done..]. rewrite four_payloads.
  set (v := b1 mod 0x08 * 0x40000 + b2 mod 0x40 * 0x1000 + b3 mod 0x40 * 0x40 + b4 mod 0x40). assert (0 <= v < 0x200000) by (unfold v; euclid). rewrite fast32_id by lia.
  destruct (Z.ltb_spec v 0x10000); [done|]. destruct (Z.leb_spec 0x110000 v); [done|].
  assert (0 <= (v - 0x10000) / 0x400 < 0x400 /\ 0 <= (v - 0x10000) mod 0x400 < 0x400) as [? ?] by euclid. rewrite (char16_id (0xD800 + _)), (char16_id (0xDC00 + _)) by lia.
  intros [= <- <-]. destruct (utf8_of_four b1 b2 b3 b4) as (Hs & E8 & E16); [lia|done|done|done|done|]. exists v, rest. fold v in Hs, E8, E16. rewrite E8, E16.
  split_and!; [done|done|done|done|cbn; lia].
Qed.

(** Where the loop is left without an error, there is no input or no room. *)
Lemma to_utf16_step_stops input room : Forall byte input -> to_utf16_step input room = Break false -> input = [] \/ short16 input room.
Proof.
  intros Hin. destruct input as [|b1 input]; [by left|]. apply Forall_cons in Hin as [Hb1 _]. cbn [to_utf16_step]. rewrite fast16_id by (unfold byte in Hb1; lia).
  destruct (Nat.eqb_spec room 0) as [->|Hroom]; [by right; left|]. destruct (Nat.eqb_spec room 1) as [->|Hroom1].
  - destruct (Z.ltb_spec b1 0xF0) as [Hf|Hf]; [|intros _; right; right; split; [done|by exists b1, input]]. repeat case_match; done.
  - repeat case_match; done.
Qed.

Lemma utf8_of_head c : scalar c -> exists b l, utf8_of c = b :: l /\ 0 <= b < 256 /\ (0xF0 <= b <-> length (utf16_of c) = 2%nat).
Proof.
  intros Hc. unfold scalar in Hc. unfold utf8_of, utf16_of. cases; eexists _, _; (split; [reflexivity|]); cbn [length]; (split; [euclid|]);
    (split; [intros; first [reflexivity|exfalso; euclid]|intros E; first [discriminate E|euclid]]).
Qed.

Lemma to_utf16_code_points input room : Forall byte input -> code_point_step utf8_of utf16_of short16 to_utf16_step input room.
Proof.
  intros Hin. unfold code_point_step. destruct (to_utf16_step input room) as [[]|written consumed] eqn:E.
  - intros (c & rest & Hc & ->). destruct (decide (length (utf16_of c) <= room)%nat) as [Hfit|Hno].
    + by rewrite to_utf16_step_complete in E.
    + destruct (utf8_of_head c Hc) as (b & l & Eb & Hb & Hlong). rewrite Eb in E. cbn [app to_utf16_step] in E. rewrite fast16_id in E by lia.
      assert (length (utf16_of c) = 1%nat \/ length (utf16_of c) = 2%nat) as Hlen by (unfold utf16_of; destruct (c <? 0x10000); [by left|by right]).
      destruct (Nat.eqb_spec room 0); [done|]. destruct (Nat.eqb_spec room 1); [|lia]. assert (0xF0 <= b) by (apply Hlong; lia).
      rewrite !(proj2 (Z.ltb_ge b _)) in E by lia. done.
  - by apply to_utf16_step_stops.
  - by apply (to_utf16_step_written input room).
Qed.

(** ** The other direction *)

Lemma surrogates c : 0x10000 <= c < 0x110000 -> let h := 0xD800 + (c - 0x10000) / 0x400 in let l := 0xDC00 + (c - 0x10000) mod 0x400 in
  0xD800 <= h < 0xDC00 /\ 0xDC00 <= l < 0xE000 /\ 0x10000 + ((h - 0xD800) * 0x400 + (l - 0xDC00)) = c.
Proof. intros Hc h l. unfold h, l. euclid. Qed.

(** The bytes of the first unit, or of the pair that it begins. *)
Definition needed8 (u : Z) : nat := if u <? 0x80 then 1 else if u <? 0x800 then 2 else if (u <? 0xD800) || (0xE000 <=? u) then 3 else 4.
Definition short8 (input : list Z) (room : nat) : Prop := exists u rest, input = u :: rest /\ (room < needed8 u)%nat.

Lemma bytes_of c : scalar c -> Forall byte (utf8_of c).
Proof. intros Hc. unfold scalar in Hc. unfold utf8_of, byte. cases; repeat constructor; euclid. Qed.

Lemma char8_bytes l : Forall byte l -> char8 <$> l = l.
Proof. induction 1 as [|b l Hb _ IH]; [done|]. cbn. by rewrite IH, char8_id. Qed.

Lemma to_utf8_step_complete c rest room : scalar c -> (length (utf8_of c) <= room)%nat ->
  to_utf8_step (utf16_of c ++ rest) room = Continue (utf8_of c) (length (utf16_of c)).
Proof.
  intros Hc. pose proof (char8_bytes _ (bytes_of c Hc)) as Eb. revert Eb. unfold scalar in Hc. unfold utf8_of, utf16_of.
  destruct (Z.ltb_spec c 0x10000).
  - cbn [app to_utf8_step length]. rewrite fast16_id by lia.
    destruct (Z.ltb_spec c 0x80); [|destruct (Z.ltb_spec c 0x800)]; cbn [length fmap list_fmap]; intros Eb Hroom.
    + destruct (Nat.eqb_spec room 0); [lia|]. by injection Eb as ->.
    + destruct (Nat.ltb_spec room 2); [lia|]. by injection Eb as -> ->.
    + destruct (Z.ltb_spec c 0xD800), (Z.leb_spec 0xE000 c); try lia; cbn [orb]; (destruct (Nat.ltb_spec room 3); [lia|]); by injection Eb as -> -> ->.
  - destruct (surrogates c ltac:(lia)) as (Hh & Hl & Ec). set (h := 0xD800 + _) in *. set (l := 0xDC00 + _) in *.
    rewrite !(proj2 (Z.ltb_ge c _)) by lia. cbn [app to_utf8_step length fmap list_fmap]. intros Eb Hroom. rewrite (fast16_id h), (fast16_id l) by lia.
    rewrite !(proj2 (Z.ltb_ge h _)), (proj2 (Z.leb_gt 0xE000 h)), (proj2 (Z.leb_gt 0xDC00 h)), (proj2 (Z.ltb_ge l 0xDC00)), (proj2 (Z.leb_gt 0xE000 l)) by lia.
    cbn [orb]. destruct (Nat.ltb_spec room 4); [lia|]. rewrite (fast32_id (h - 0xD800)) by lia. rewrite Ec, fast32_id by lia. by injection Eb as -> -> -> ->.
Qed.

Lemma to_utf8_step_short input room : Forall unit16 input -> match to_utf8_step input room with Break false => input = [] \/ short8 input room | _ => True end.
Proof.
  intros Hin. destruct input as [|u input]; [by left|]. apply Forall_cons in Hin as [Hu _]. cbn [to_utf8_step]. rewrite fast16_id by done.
  assert (forall n, (room < n)%nat -> needed8 u = n -> u :: input = [] \/ short8 (u :: input) room) as Hs by (intros n Hn Eu; right; exists u, input; by rewrite Eu).
  unfold needed8 in Hs. destruct (u <? 0x80); [destruct (Nat.eqb_spec room 0); [by apply (Hs 1%nat); [lia|]|done]|].
  destruct (u <? 0x800); [destruct (Nat.ltb_spec room 2); [by apply (Hs 2%nat)|done]|].
  destruct ((u <? 0xD800) || (0xE000 <=? u)); [destruct (Nat.ltb_spec room 3); [by apply (Hs 3%nat)|done]|].
  destruct (Nat.ltb_spec room 4); [by apply (Hs 4%nat)|]. repeat case_match; done.
Qed.

(** Where a step writes, what it reads is a code point; and where it finds an error, it is none. *)
Lemma to_utf8_step_code_point input room : Forall unit16 input ->
  match to_utf8_step input room with
  | Continue _ _ => exists c rest, scalar c /\ input = utf16_of c ++ rest /\ (length (utf8_of c) <= room)%nat
  | Break true => ~ exists c rest, scalar c /\ input = utf16_of c ++ rest
  | Break false => True
  end.
Proof.
  intros Hin. destruct input as [|u input]; [done|]. apply Forall_cons in Hin as [Hu Hin]. unfold unit16 in Hu. cbn [to_utf8_step]. rewrite fast16_id by lia.
  assert (forall n, u < 0xD800 \/ 0xE000 <= u -> length (utf8_of u) = n -> (n <= room)%nat -> exists c rest, scalar c /\ u :: input = utf16_of c ++ rest /\ (length (utf8_of c) <= room)%nat) as Hone.
  { intros n Hs Hl Hn. exists u, input. unfold utf16_of. rewrite (proj2 (Z.ltb_lt u 0x10000)) by lia. split_and!; [unfold scalar; lia|done|lia]. }
  destruct (Z.ltb_spec u 0x80); [destruct (Nat.eqb_spec room 0); [done|]; apply (Hone 1%nat); [lia|unfold utf8_of; cases; done|lia]|].
  destruct (Z.ltb_spec u 0x800); [destruct (Nat.ltb_spec room 2); [done|]; apply (Hone 2%nat); [lia|unfold utf8_of; cases; done|lia]|].
  destruct (decide (u < 0xD800 \/ 0xE000 <= u)) as [Hs|Hs].
  { assert ((u <? 0xD800) || (0xE000 <=? u) = true) as -> by (cases; done). destruct (Nat.ltb_spec room 3); [done|]. apply (Hone 3%nat); [lia|unfold utf8_of; cases; done|lia]. }
  assert ((u <? 0xD800) || (0xE000 <=? u) = false) as -> by (cases; done). destruct (Nat.ltb_spec room 4) as [|Hroom]; [done|].
  assert (forall c rest, scalar c -> u :: input = utf16_of c ++ rest -> 0x10000 <= c < 0x110000) as Hpair.
  { intros c rest Hc. unfold utf16_of, scalar in *. destruct (Z.ltb_spec c 0x10000); [intros [= -> _]|]; lia. }
  destruct (Z.leb_spec 0xDC00 u) as [Hd|Hd].
  { intros (c & rest & Hc & E). pose proof (Hpair c rest Hc E) as Hc'. destruct (surrogates c Hc') as (Hh & _). unfold utf16_of in E. rewrite (proj2 (Z.ltb_ge c 0x10000)) in E by lia.
    injection E as E _. lia. }
  destruct input as [|u2 rest].
  { intros (c & rest & Hc & E). pose proof (Hpair c rest Hc E). unfold utf16_of in E. by rewrite (proj2 (Z.ltb_ge c 0x10000)) in E by lia. }
  apply Forall_cons in Hin as [Hu2 _]. unfold unit16 in Hu2. rewrite fast16_id by lia. destruct ((u2 <? 0xDC00) || (0xE000 <=? u2)) eqn:E2.
  { intros (c & rest' & Hc & E). pose proof (Hpair c rest' Hc E) as Hc'. destruct (surrogates c Hc') as (_ & Hl & _). unfold utf16_of in E. rewrite (proj2 (Z.ltb_ge c 0x10000)) in E by lia.
    injection E as _ E _. apply orb_true_iff in E2 as [?%Z.ltb_lt|?%Z.leb_le]; lia. }
  apply orb_false_iff in E2 as [?%Z.ltb_ge ?%Z.leb_gt]. set (c := 0x10000 + ((u - 0xD800) * 0x400 + (u2 - 0xDC00))). exists c, rest. split_and!; [unfold scalar, c; lia| |].
  - unfold utf16_of. rewrite (proj2 (Z.ltb_ge c 0x10000)) by (unfold c; lia). cbn. unfold c. repeat f_equal; euclid.
  - unfold utf8_of. rewrite !(proj2 (Z.ltb_ge c _)) by (unfold c; lia). cbn. lia.
Qed.

Lemma to_utf8_code_points input room : Forall unit16 input -> code_point_step utf16_of utf8_of short8 to_utf8_step input room.
Proof.
  intros Hin. unfold code_point_step. pose proof (to_utf8_step_code_point input room Hin) as Hstep. pose proof (to_utf8_step_short input room Hin) as Hshort.
  destruct (to_utf8_step input room) as [[]|written consumed] eqn:E; [done|done|]. destruct Hstep as (c & rest & Hc & -> & Hfit).
  rewrite to_utf8_step_complete in E by done. injection E as <- <-. by exists c, rest.
Qed.

(** ** The loops *)

Lemma utf8_of_nonempty c : utf8_of c <> [].
Proof. unfold utf8_of. by repeat case_match. Qed.
Lemma utf16_of_nonempty c : utf16_of c <> [].
Proof. unfold utf16_of. by case_match. Qed.

(** What transcoding gives: the longest run of code points that fits, and why it ends. *)
Definition transcoded (from to : Z -> list Z) (short : list Z -> nat -> Prop) (input : list Z) (room : nat) (r : result (bool * list Z * list Z)) : Prop :=
  exists (cs : list Z) valid rest, r = Ok (valid, rest, cs ≫= to) /\ Forall scalar cs /\ input = (cs ≫= from) ++ rest /\ (length (cs ≫= to) <= room)%nat /\
    if valid : bool then rest = [] \/ short rest (room - length (cs ≫= to))%nat else ~ exists c rest', scalar c /\ rest = from c ++ rest'.

Lemma transcode_exact from to short body (P : Z -> Prop) : (forall c, from c <> []) ->
  (forall input room, Forall P input -> code_point_step from to short body input room) ->
  forall fuel input room, Forall P input -> (length input <= fuel)%nat -> transcoded from to short input room (transcode body fuel input room).
Proof.
  intros Hfrom Hbody. induction fuel as [|fuel IH]; intros input room Hin Hfuel; pose proof (Hbody input room Hin) as Hstep; unfold code_point_step in Hstep; cbn [transcode];
    destruct (body input room) as [invalid|written consumed].
  1, 3: exists [], (negb invalid), input; cbn; (split_and!; [done|constructor|done|lia|]); destruct invalid; cbn in *; [done|by rewrite Nat.sub_0_r].
  - destruct Hstep as (c & rest & _ & -> & _). rewrite length_app in Hfuel. pose proof (Hfrom c). destruct (from c); [done|cbn in Hfuel; lia].
  - destruct Hstep as (c & rest & Hc & -> & -> & -> & Hfit). rewrite drop_app_length. apply Forall_app in Hin as [_ Hin]. rewrite length_app in Hfuel.
    assert (length (from c) <> 0%nat) by (pose proof (Hfrom c); by destruct (from c)).
    destruct (IH rest (room - length (to c))%nat Hin ltac:(lia)) as (cs & valid & rest' & -> & Hcs & -> & Hroom & Hend). exists (c :: cs), valid, rest'. cbn [mbind result_bind].
    rewrite !bind_cons, !length_app. split_and!; [done|by constructor|by rewrite app_assoc|lia|].
    by replace (room - (length (to c) + length (cs ≫= to)))%nat with (room - length (to c) - length (cs ≫= to))%nat by lia.
Qed.

Lemma transcode_complete from to body : (forall c, from c <> []) ->
  (forall c rest room, scalar c -> (length (to c) <= room)%nat -> body (from c ++ rest) room = Continue (to c) (length (from c))) -> (forall room, body [] room = Break false) ->
  forall cs fuel room, Forall scalar cs -> (length (cs ≫= from) <= fuel)%nat -> (length (cs ≫= to) <= room)%nat -> transcode body fuel (cs ≫= from) room = Ok (true, [], cs ≫= to).
Proof.
  intros Hfrom Hbody Hnil. induction cs as [|c cs IH]; intros fuel room Hcs Hfuel Hroom; [destruct fuel; cbn [transcode mbind list_bind]; by rewrite Hnil|].
  apply Forall_cons in Hcs as [Hc Hcs]. rewrite !bind_cons in *. rewrite !length_app in Hfuel, Hroom. assert (length (from c) <> 0%nat) by (pose proof (Hfrom c); by destruct (from c)).
  destruct fuel as [|fuel]; [lia|]. cbn [transcode]. rewrite Hbody by (done || lia). rewrite drop_app_length, IH by (done || lia). done.
Qed.

Lemma count_complete from (size : Z -> nat) body add : (forall c, from c <> []) -> (forall c rest, scalar c -> body (from c ++ rest) = Count (Z.of_nat (size c)) (length (from c))) -> body [] = Stop ->
  (forall m n, 0 <= m -> 0 <= n <= 4 -> m + n < word_size -> add m n = (false, m + n)) -> (forall c, (size c <= 4)%nat) ->
  forall cs fuel m, Forall scalar cs -> (length (cs ≫= from) <= fuel)%nat -> 0 <= m -> m + Z.of_nat (sum_list (size <$> cs)) < word_size ->
  count body add fuel (cs ≫= from) m = Ok (m + Z.of_nat (sum_list (size <$> cs)), []).
Proof.
  intros Hfrom Hbody Hnil Hadd Hsize. induction cs as [|c cs IH]; intros fuel m Hcs Hfuel Hm Hsum.
  { destruct fuel; cbn [count mbind list_bind]; rewrite Hnil; cbn; by rewrite Z.add_0_r. }
  apply Forall_cons in Hcs as [Hc Hcs]. rewrite bind_cons in *. rewrite length_app in Hfuel. change (sum_list (size <$> c :: cs)) with (size c + sum_list (size <$> cs))%nat in *.
  assert (length (from c) <> 0%nat) by (pose proof (Hfrom c); by destruct (from c)). pose proof (Hsize c).
  destruct fuel as [|fuel]; [lia|]. cbn [count]. rewrite Hbody, Hadd by (done || lia). rewrite drop_app_length. rewrite IH by (done || lia). f_equal. f_equal. lia.
Qed.

Lemma length_bind (f : Z -> list Z) (cs : list Z) : length (cs ≫= f) = sum_list ((fun c => length (f c)) <$> cs).
Proof. induction cs as [|c cs IH]; [done|]. rewrite bind_cons, length_app, IH. done. Qed.

Lemma find_utf16_step_complete c rest : scalar c -> find_utf16_step (utf8_of c ++ rest) = Count (Z.of_nat (length (utf16_of c))) (length (utf8_of c)).
Proof.
  intros Hc. destruct (utf8_of_head c Hc) as (b & l & _). unfold scalar in Hc. unfold utf8_of, utf16_of.
  destruct (Z.ltb_spec c 0x80); [|destruct (Z.ltb_spec c 0x800); [|destruct (Z.ltb_spec c 0x10000)]]; cbn [app find_utf16_step length].
  - rewrite fast16_id, (proj2 (Z.ltb_lt c 0x80)), (proj2 (Z.ltb_lt c 0x10000)) by lia. done.
  - assert (0 <= c / 0x40 < 0x20) by euclid. rewrite fast16_id by lia. cases; done.
  - assert (0 <= c / 0x1000 < 0x10) by euclid. rewrite fast16_id by lia. cases; done.
  - assert (0 <= c / 0x40000 < 0x5) by euclid. rewrite fast16_id by lia. cases; done.
Qed.

Lemma find_utf8_step_complete c rest : scalar c -> find_utf8_step (utf16_of c ++ rest) = Count (Z.of_nat (length (utf8_of c))) (length (utf16_of c)).
Proof.
  intros Hc. unfold scalar in Hc. unfold utf8_of, utf16_of. destruct (Z.ltb_spec c 0x10000); cbn [app find_utf8_step length].
  - rewrite fast16_id by lia. cases; done.
  - destruct (surrogates c ltac:(lia)) as (Hh & _). rewrite fast16_id by lia. cases; done.
Qed.

(** C9: Transcoding is exact, in both directions: what is read is a sequence of code points, what is
    written is the same sequence in the other encoding, and it fits; the result is true only when
    the input was read to the end or the next code point may lack room, and false only where no
    code point follows. *)
Theorem transcoding_exact input room :
  (Forall byte input -> transcoded utf8_of utf16_of short16 input room (to_utf16 input room)) /\
  (Forall unit16 input -> transcoded utf16_of utf8_of short8 input room (to_utf8 input room)).
Proof.
  split; intros Hin.
  - apply (transcode_exact _ _ _ _ byte); [apply utf8_of_nonempty|intros i r; apply to_utf16_code_points|done|done].
  - apply (transcode_exact _ _ _ _ unit16); [apply utf16_of_nonempty|intros i r; apply to_utf8_code_points|done|done].
Qed.

(** C10: Any text is transcoded from UTF-8 to UTF-16 and back, in buffers of the sizes that are
    computed for it. *)
Theorem transcoding_round_trip cs :
  Forall scalar cs -> Z.of_nat (length (utf8 cs)) < 2 ^ 64 ->
  find_utf16_buf_size (utf8 cs) = Ok (Z.of_nat (length (utf16 cs)), []) /\ to_utf16 (utf8 cs) (length (utf16 cs)) = Ok (true, [], utf16 cs) /\
  find_utf8_buf_size (utf16 cs) = Ok (Z.of_nat (length (utf8 cs)), []) /\ to_utf8 (utf16 cs) (length (utf8 cs)) = Ok (true, [], utf8 cs).
Proof.
  intros Hcs Hlen. change (2 ^ 64) with word_size in Hlen. unfold utf8, utf16 in *. split_and!.
  - unfold find_utf16_buf_size. rewrite (count_complete utf8_of (fun c => length (utf16_of c))); rewrite ?length_bind; try done.
    + apply utf8_of_nonempty.
    + intros c rest. apply find_utf16_step_complete.
    + intros m n Hm Hn Hmn. by rewrite u64_small by lia.
    + intros c. unfold utf16_of. case_match; cbn; lia.
    + rewrite length_bind in Hlen. assert (sum_list ((fun c => length (utf16_of c)) <$> cs) <= sum_list ((fun c => length (utf8_of c)) <$> cs))%nat; [|lia].
      clear Hlen Hcs. induction cs as [|c cs IH]; [done|]. rewrite !fmap_cons.
      assert (length (utf16_of c) <= length (utf8_of c))%nat; [|by apply Nat.add_le_mono].
      unfold utf16_of, utf8_of. cases; cbn; lia.
  - unfold to_utf16. apply transcode_complete; [apply utf8_of_nonempty|apply to_utf16_step_complete|done|done|done|done].
  - unfold find_utf8_buf_size. rewrite (count_complete utf16_of (fun c => length (utf8_of c))); rewrite ?length_bind; try done.
    + apply utf16_of_nonempty.
    + intros c rest. apply find_utf8_step_complete.
    + intros m n Hm Hn Hmn. rewrite int_add_checked; [|apply (bool_decide_unpack _); vm_compute; exact I..| |].
      * apply checked_in_range. unfold in_range. change (lim_max size_t) with (word_size - 1). change (lim_min size_t) with 0. lia.
      * unfold in_range. change (lim_max size_t) with (word_size - 1). change (lim_min size_t) with 0. lia.
      * unfold in_range. change (lim_max int_t) with 2147483647. change (lim_min int_t) with (-2147483648). lia.
    + intros c. unfold utf8_of. repeat case_match; cbn; lia.
    + by rewrite length_bind in Hlen.
  - unfold to_utf8. apply transcode_complete; [apply utf16_of_nonempty|apply to_utf8_step_complete|done|done|done|done].
Qed.
End steps.

(** ** Samples *)

Section samples.
#[local] Instance exact_integers : FastIntegers.
Proof. refine {| fast16_bits := 16; fast32_bits := 32; char16_bits := 16 |}; lia. Defined.

(** One code point of each length. *)
Definition sample_text : list Z := [0x41; 0xE9; 0x20AC; 0x1F600].

Lemma transcoding_round_trip_witness :
  Forall scalar sample_text /\ utf8 sample_text = [0x41; 0xC3; 0xA9; 0xE2; 0x82; 0xAC; 0xF0; 0x9F; 0x98; 0x80] /\
  to_utf16 (utf8 sample_text) 5 = Ok (true, [], [0x41; 0xE9; 0x20AC; 0xD83D; 0xDE00]) /\ find_utf8_buf_size (utf16 sample_text) = Ok (10, []).
Proof.
  assert (Forall scalar sample_text) as Hs by (repeat constructor; unfold scalar; lia). split; [exact Hs|]. split; [vm_compute; reflexivity|].
  destruct (transcoding_round_trip sample_text Hs) as (_ & E16 & E8 & _); [vm_compute; reflexivity|]. split; [exact E16|exact E8].
Defined.

(** An overlong form is no code point, and transcoding stops before it. *)
Lemma transcoding_exact_witness :
  Forall byte [0x41; 0xC0; 0x80] /\ Forall unit16 [0x41; 0xD800] /\ to_utf16 [0x41; 0xC0; 0x80] 9 = Ok (false, [0xC0; 0x80], [0x41]) /\
  ~ exists c rest, scalar c /\ [0xC0; 0x80] = utf8_of c ++ rest.
Proof.
  assert (Forall byte [0x41; 0xC0; 0x80]) as Hb by (repeat constructor; lia). split; [exact Hb|]. split; [repeat constructor; lia|].
  assert (to_utf16 [0x41; 0xC0; 0x80] 9 = Ok (false, [0xC0; 0x80], [0x41])) as E by (vm_compute; reflexivity). split; [exact E|].
  destruct (transcoding_exact [0x41; 0xC0; 0x80] 9) as [Hto _]. destruct (Hto Hb) as (cs & valid & rest & E' & _ & _ & _ & Hend).
  rewrite E in E'. injection E' as <- <- _. exact Hend.
Defined.
End samples.
