(* ===== verification/Varint.v ===== *)
(** The integer encoding of the transaction log: [TransactLogEncoder::encode_int] and
    [TransactLogParser::read_int] of [realm/impl/transact_log.hpp], and the input streams
    of [realm/impl/input_stream.hpp] the parser reads from.

    A byte is a [Z] between 0 and 255.  A stream is anything with a [next_block]
    operation (class [NoCopyInputStream]); what a stream promises is the law
    [next_block_blocks] of class [StreamSpec], and the reader is verified against it. *)

From S2P Require Import Prelude SafeInt.

(** ** Encoding *)

Definition max_enc_bytes_per_int : Z := 10.
Definition bits_per_byte : Z := 7.

(** The [for] loop: at most [fuel] bytes with the continuation bit, and what is left. *)
Fixpoint encode_loop (fuel : nat) (value : Z) : list Z * Z :=
  match fuel with
  | O => ([], value)
  | S fuel =>
      if Z.shiftr value (bits_per_byte - 1) =? 0 then ([], value)
      else
        let byte := Z.lor (Z.shiftl 1 bits_per_byte)
                          (Z.land value (Z.shiftl 1 bits_per_byte - 1)) mod 256 in
        let '(bytes, rest) := encode_loop fuel (Z.shiftr value bits_per_byte) in
        (byte :: bytes, rest)
  end.

Definition encode_int (T : int_type) (value : Z) : list Z :=
  let negative := is_negative T value in
  let value := if negative then - (value + 1) else value in
  let num_bits := 1 + digits T in
  let max_bytes := (num_bits + (bits_per_byte - 1)) / bits_per_byte in
  let '(bytes, rest) := encode_loop (Z.to_nat max_bytes) value in
  bytes ++ [(if negative then Z.lor (Z.shiftl 1 (bits_per_byte - 1)) rest else rest) mod 256].

(** ** Input streams *)

(** [next_block]: the next chunk of memory, [None] for end of input. *)
Class NoCopyInputStream (S : Type) := next_block : S -> option (list Z) * S.

(** The contract: a stream delivers a finite sequence of non-empty blocks, in order. *)
Class StreamSpec (S : Type) `{!NoCopyInputStream S} := {
  stream_blocks : S -> list (list Z);
  blocks_nonempty s : Forall (fun b => b <> []) (stream_blocks s);
  next_block_blocks s :
    match next_block s with
    | (Some b, s') => stream_blocks s = b :: stream_blocks s'
    | (None, _) => stream_blocks s = []
    end
}.

(** [SimpleInputStream]: [read] copies at most [size] bytes. *)
Record SimpleInputStream := { si_data : list Z }.

Definition SimpleInputStream_read (s : SimpleInputStream) (size : Z)
  : list Z * SimpleInputStream :=
  let n := Z.to_nat (Z.min size (Z.of_nat (length (si_data s)))) in
  (take n (si_data s), {| si_data := drop n (si_data s) |}).

(** [NoCopyInputStreamAdaptor]: an [InputStream] read through a buffer of fixed size.
    The bytes of the buffer are those of the last [read]. *)
Record NoCopyInputStreamAdaptor := { ad_in : SimpleInputStream; ad_buffer_size : Z }.

#[export] Instance Adaptor_next_block : NoCopyInputStream NoCopyInputStreamAdaptor := fun s =>
  let '(bytes, in') := SimpleInputStream_read (ad_in s) (ad_buffer_size s) in
  let n := length bytes in
  (if decide (n = 0%nat) then None else Some bytes,
   {| ad_in := in'; ad_buffer_size := ad_buffer_size s |}).

(** [SimpleNoCopyInputStream]: one block, once.  The [m_size] bytes at [m_data] are a list. *)
Record SimpleNoCopyInputStream := { sn_data : list Z }.

#[export] Instance Simple_next_block : NoCopyInputStream SimpleNoCopyInputStream := fun s =>
  if decide (length (sn_data s) = 0%nat) then (None, s)
  else (Some (sn_data s), {| sn_data := [] |}).

(** [MultiLogNoCopyInputStream]: a sequence of logs.  [next_block] skips the empty ones;
    [read] copies piecewise.  [ml_remaining] is [m_curr_buf_remaining_size]. *)
Record MultiLogNoCopyInputStream := { ml_logs : list (list Z); ml_remaining : Z }.

Definition MultiLog_make (logs : list (list Z)) : MultiLogNoCopyInputStream :=
  {| ml_logs := logs;
     ml_remaining := match logs with [] => 0 | l :: _ => Z.of_nat (length l) end |}.

Fixpoint MultiLog_read_loop (logs : list (list Z)) (remaining size : Z)
  : list Z * MultiLogNoCopyInputStream :=
  match logs with
  | [] => ([], {| ml_logs := []; ml_remaining := remaining |})
  | log :: rest =>
      if 0 <? remaining then
        let offset := Z.of_nat (length log) - remaining in
        let size_2 := Z.min remaining size in
        (take (Z.to_nat size_2) (drop (Z.to_nat offset) log),
         {| ml_logs := logs; ml_remaining := remaining - size_2 |})
      else
        let remaining' :=
          match rest with [] => remaining | l :: _ => Z.of_nat (length l) end in
        MultiLog_read_loop rest remaining' size
  end.

Definition MultiLog_read (s : MultiLogNoCopyInputStream) (size : Z)
  : list Z * MultiLogNoCopyInputStream :=
  MultiLog_read_loop (ml_logs s) (ml_remaining s) size.

Fixpoint MultiLog_next (logs : list (list Z)) : option (list Z) * list (list Z) :=
  match logs with
  | [] => (None, [])
  | log :: logs =>
      if decide (length log = 0%nat) then MultiLog_next logs else (Some log, logs)
  end.

#[export] Instance MultiLog_next_block : NoCopyInputStream MultiLogNoCopyInputStream := fun s =>
  let '(b, logs) := MultiLog_next (ml_logs s) in
  (b, {| ml_logs := logs; ml_remaining := ml_remaining s |}).

(** ** The reader *)

(** [m_input], and the bytes from [m_input_begin] to [m_input_end]. *)
Record parser (S : Type) := Parser { m_input : S; m_block : list Z }.
Arguments Parser {_} _ _.
Arguments m_input {_} _.
Arguments m_block {_} _.

Section reader.
Context {S : Type} `{!NoCopyInputStream S}.

(** [next_input_buffer]: whether a block was available. *)
Definition next_input_buffer (p : parser S) : bool * parser S :=
  match next_block (m_input p) with
  | (Some b, s) => (true, Parser s b)
  | (None, s) => (false, Parser s (m_block p))
  end.

Definition has_next (p : parser S) : bool * parser S :=
  if decide (m_block p <> []) then (true, p) else next_input_buffer p.

(** [read_char]; [None] when no input was available.  A block that is empty after
    [next_input_buffer] succeeded would be read out of bounds: an assertion here. *)
Definition read_char (p : parser S) : result (option Z * parser S) :=
  let '(available, p) := has_next p in
  if available then
    match m_block p with
    | c :: rest => Ok (Some c, Parser (m_input p) rest)
    | [] => Err AssertionFailed
    end
  else Ok (None, p).

Section read_int.
Variable T : int_type.

Definition max_bytes : Z := (digits T + 1 + 6) / 7.

(** The [for] loop of [read_int] from iteration [i] on: the value and the last byte. *)
Fixpoint read_int_loop (iterations : nat) (i value part : Z) (p : parser S)
  : result ((Z * Z) * parser S) :=
  match iterations with
  | O => Ok ((value, part), p)
  | Datatypes.S iterations =>
      '(c, p) ← read_char p;
      match c with
      | None => Err BadTransactLog
      | Some c =>
          let part := c mod 256 in
          if 255 <? part then Err BadTransactLog
          else if Z.land part 128 =? 0 then
            let q := cast T (Z.land part 63) in
            '(overflow, q) ← int_shift_left_with_overflow_detect T q (i * 7);
            if (overflow : bool) then Err BadTransactLog
            else Ok ((Z.lor value q, part), p)
          else if i =? max_bytes - 1 then Err BadTransactLog
          else
            read_int_loop iterations (i + 1)
              (Z.lor value (cast T (Z.shiftl (cast T (Z.land part 127)) (i * 7))))
              part p
      end
  end.

Definition read_int (p : parser S) : result (Z * parser S) :=
  '((value, part), p) ← read_int_loop (Z.to_nat max_bytes) 0 0 0 p;
  if negb (Z.land part 64 =? 0) then
    let value := cast T (- value) in
    let '(overflow, value) := int_subtract_with_overflow_detect T int_t value 1 in
    if overflow then Err BadTransactLog else Ok (value, p)
  else Ok (value, p).
End read_int.
End reader.

(** ** The streams keep their contract *)

#[export] Program Instance Simple_spec : StreamSpec SimpleNoCopyInputStream := {|
  stream_blocks s := if decide (sn_data s = []) then [] else [sn_data s]
|}.
Next Obligation. intros s. simpl. case_decide; auto. Qed.
Next Obligation.
  intros [[|c l]]; cbn; [done|]. by repeat case_decide.
Qed.

Fixpoint skip_empty (logs : list (list Z)) : list (list Z) :=
  match logs with
  | [] => []
  | log :: logs => if decide (log = []) then skip_empty logs else log :: skip_empty logs
  end.

Lemma concat_skip_empty logs : concat (skip_empty logs) = concat logs.
Proof. induction logs as [|l logs IH]; simpl; [done|]. case_decide; subst; simpl; congruence. Qed.

#[export] Program Instance MultiLog_spec : StreamSpec MultiLogNoCopyInputStream := {|
  stream_blocks s := skip_empty (ml_logs s)
|}.
Next Obligation.
  intros s. simpl. induction (ml_logs s) as [|l logs IH]; simpl; [done|]. case_decide; auto.
Qed.
Next Obligation.
  intros [logs r]. unfold next_block, MultiLog_next_block. simpl.
  induction logs as [|[|c l] logs IH]; simpl; [done| |].
  - simpl in IH. destruct (MultiLog_next logs) as [[b|] logs']; exact IH.
  - by repeat case_decide.
Qed.

(** The blocks an adaptor delivers: the data cut in pieces of the buffer's size. *)
Fixpoint chunks (fuel : nat) (n : nat) (l : list Z) : list (list Z) :=
  match fuel with
  | O => []
  | S fuel => match take n l with [] => [] | _ => take n l :: chunks fuel n (drop n l) end
  end.

Lemma chunks_fuel n l f1 f2 :
  (length l <= f1)%nat -> (length l <= f2)%nat -> chunks f1 n l = chunks f2 n l.
Proof.
  revert l f2. induction f1 as [|f1 IH]; intros l [|f2] H1 H2; simpl.
  - done.
  - destruct l; [by rewrite take_nil|simpl in H1; lia].
  - destruct l; [by rewrite take_nil|simpl in H2; lia].
  - destruct (take n l) eqn:Ht; [done|]. f_equal.
    assert (0 < n)%nat by (destruct n; [done|lia]).
    assert (0 < length l)%nat by (destruct l; [by rewrite take_nil in Ht|simpl; lia]).
    apply IH; rewrite length_drop; lia.
Qed.

Lemma chunks_nonempty f n l : Forall (fun b => b <> []) (chunks f n l).
Proof.
  revert l. induction f as [|f IH]; intros l; simpl; [done|].
  destruct (take n l) eqn:Ht; [done|]. by constructor.
Qed.

#[export] Program Instance Adaptor_spec : StreamSpec NoCopyInputStreamAdaptor := {|
  stream_blocks s :=
    chunks (length (si_data (ad_in s))) (Z.to_nat (ad_buffer_size s)) (si_data (ad_in s))
|}.
Next Obligation. intros s. apply chunks_nonempty. Qed.
Next Obligation.
  intros [[l] bs]. unfold next_block, Adaptor_next_block, SimpleInputStream_read. simpl.
  set (n := Z.to_nat bs).
  assert (take (Z.to_nat (Z.min bs (Z.of_nat (length l)))) l = take n l /\
          drop (Z.to_nat (Z.min bs (Z.of_nat (length l)))) l = drop n l) as [-> ->].
  { destruct (Z.le_ge_cases bs (Z.of_nat (length l))).
    - by rewrite Z.min_l by lia.
    - rewrite Z.min_r by lia. rewrite Nat2Z.id. subst n.
      by rewrite !take_ge, !drop_ge by lia. }
  destruct l as [|c l]; simpl; [by rewrite !take_nil, drop_nil|].
  destruct (take n (c :: l)) as [|b bl] eqn:Ht; simpl.
  - done.
  - f_equal. apply chunks_fuel; rewrite length_drop; simpl; destruct n; (done || lia).
Qed.

(** ** Reading a lawful stream is reading its bytes *)

Section reader_spec.
Context {S : Type} `{StreamSpec S}.
Implicit Types p : parser S.

(** The bytes a parser has yet to read. *)
Definition remaining (p : parser S) : list Z :=
  m_block p ++ concat (stream_blocks (m_input p)).

Lemma has_next_remaining p :
  fst (has_next p) = bool_decide (remaining p <> []) /\
  (fst (has_next p) = true -> remaining (snd (has_next p)) = remaining p) /\
  (fst (has_next p) = true -> m_block (snd (has_next p)) <> []).
Proof.
  unfold has_next, remaining. destruct p as [s [|c b]]; simpl; [|done].
  unfold next_input_buffer. simpl.
  pose proof (blocks_nonempty s) as Hne. pose proof (next_block_blocks s) as Hb.
  destruct (next_block s) as [[b|] s']; rewrite Hb in *; simpl.
  - apply Forall_cons_1 in Hne as [Hb' _].
    split_and!; [|done|done]. symmetry. apply bool_decide_eq_true. by destruct b.
  - done.
Qed.

Lemma read_char_remaining p :
  match remaining p with
  | [] => exists p', read_char p = Ok (None, p')
  | c :: rest => exists p', read_char p = Ok (Some c, p') /\ remaining p' = rest
  end.
Proof.
  destruct (has_next_remaining p) as (H1 & H2 & H3). unfold read_char.
  destruct (has_next p) as [av p']; simpl in *. subst av.
  destruct (remaining p) as [|c rest] eqn:Hr; simpl.
  - by exists p'.
  - specialize (H2 eq_refl). unfold remaining in H2. destruct p' as [s' [|c' b']]; simpl in *; [by destruct (H3 eq_refl)|].
    injection H2 as -> <-. eauto.
Qed.
End reader_spec.

(** ** The codec on bytes *)

(** The magnitude that is encoded: [v] itself, or [-(v + 1)] for a negative [v]. *)
Definition magnitude (v : Z) : Z := if v <? 0 then - (v + 1) else v.

(** The bytes of [encode_int], independently of the type: fuel and width drop out. *)
Definition int_bytes (v : Z) : list Z :=
  let '(bytes, rest) := encode_loop 10 (magnitude v) in
  bytes ++ [(if v <? 0 then 64 + rest else rest)].

Lemma magnitude_nonneg v : 0 <= magnitude v.
Proof. unfold magnitude. case_Z_compare; lia. Qed.

Lemma encode_loop_S fuel v :
  0 <= v ->
  encode_loop (S fuel) v =
    if v <? 64 then ([], v)
    else let '(bytes, rest) := encode_loop fuel (v / 128) in (v mod 128 + 128 :: bytes, rest).
Proof.
  intros Hv. cbn [encode_loop]. unfold bits_per_byte. rewrite !Z.shiftr_div_pow2 by lia.
  change (2 ^ (7 - 1)) with 64. change (2 ^ 7) with 128.
  assert ((v / 64 =? 0) = (v <? 64)) as ->.
  { destruct (Z.ltb_spec v 64); [by rewrite Z.div_small by lia|].
    destruct (Z.eqb_spec (v / 64) 0) as [E|]; [|done]. apply Z.div_small_iff in E; lia. }
  destruct (v <? 64); [done|]. destruct (encode_loop fuel (v / 128)). do 2 f_equal.
  change (Z.shiftl 1 7 - 1) with (Z.ones 7). rewrite Z.land_ones by lia.
  change (Z.shiftl 1 7) with (1 * 2 ^ 7). pose proof (Z.mod_pos_bound v (2 ^ 7) ltac:(lia)).
  rewrite Z.lor_comm, lor_low_high by lia. change (2 ^ 7) with 128 in *.
  rewrite Z.mod_small by lia. lia.
Qed.

(** Enough iterations: more fuel changes nothing. *)
Lemma encode_loop_fuel f1 f2 v :
  0 <= v < 2 ^ (7 * Z.of_nat f1 + 6) -> (f1 <= f2)%nat -> 0 <= v ->
  encode_loop (S f1) v = encode_loop (S f2) v.
Proof.
  revert f2 v. induction f1 as [|f1 IH]; intros f2 v Hv Hf H0.
  - rewrite !encode_loop_S by lia. change (2 ^ (7 * Z.of_nat 0 + 6)) with 64 in Hv.
    destruct (Z.ltb_spec v 64); [done|lia].
  - rewrite (encode_loop_S (S f1)), (encode_loop_S f2) by lia. destruct (v <? 64); [done|].
    destruct f2 as [|f2]; [lia|]. rewrite (IH f2); [done| |lia|by apply Z.div_pos; lia].
    split; [apply Z.div_pos; lia|]. apply Z.div_lt_upper_bound; [lia|].
    rewrite <- (Z.pow_add_r 2 7) by lia. replace (7 + _) with (7 * Z.of_nat (S f1) + 6) by lia. lia.
Qed.

(** What is left for the last byte is below 64: its sign bit is free. *)
Lemma encode_loop_rest fuel v :
  0 <= v < 2 ^ (7 * Z.of_nat fuel + 6) -> 0 <= snd (encode_loop (S fuel) v) < 64.
Proof.
  revert v. induction fuel as [|fuel IH]; intros v Hv; rewrite (encode_loop_S _ v) by lia.
  - change (2 ^ (7 * Z.of_nat 0 + 6)) with 64 in Hv.
    destruct (Z.ltb_spec v 64); simpl; lia.
  - destruct (Z.ltb_spec v 64); [simpl; lia|].
    assert (0 <= v / 128 < 2 ^ (7 * Z.of_nat fuel + 6)) as Hd.
    { split; [apply Z.div_pos; lia|]. apply Z.div_lt_upper_bound; [lia|].
      rewrite <- (Z.pow_add_r 2 7) by lia.
      replace (7 + _) with (7 * Z.of_nat (S fuel) + 6) by lia. lia. }
    specialize (IH _ Hd). by destruct (encode_loop (S fuel) (v / 128)).
Qed.

Lemma magnitude_lt T v : wf_type T -> in_range T v -> magnitude v < 2 ^ digits T.
Proof.
  intros WT%wf_digits_pos. unfold in_range, lim_min, lim_max, magnitude.
  pose proof (pow2_pos (digits T)). destruct (is_signed T); case_Z_compare; lia.
Qed.

(** The fuel of [encode_int] is enough for every value of the type. *)
Lemma enough_fuel T :
  wf_type T ->
  exists f, Z.to_nat ((1 + digits T + (bits_per_byte - 1)) / bits_per_byte) = S f /\
    digits T <= 7 * Z.of_nat f + 6 /\ (f <= 9)%nat.
Proof.
  intros WT%wf_digits_pos. unfold bits_per_byte.
  exists (Z.to_nat (digits T / 7)).
  pose proof (Z.div_mod (digits T) 7 ltac:(lia)).
  pose proof (Z.mod_pos_bound (digits T) 7 ltac:(lia)).
  replace (1 + digits T + (7 - 1)) with (digits T + 1 * 7) by lia.
  rewrite Z.div_add by lia. lia.
Qed.

Lemma encode_int_bytes T v :
  wf_type T -> in_range T v -> encode_int T v = int_bytes v.
Proof.
  intros WT Hv. pose proof (magnitude_lt T v WT Hv) as Hm. pose proof (magnitude_nonneg v).
  destruct (enough_fuel T WT) as (f & Ef & Hf & Hf9).
  pose proof (pow2_le _ _ Hf) as Hp.
  assert (is_negative T v = (v <? 0)) as Hneg.
  { unfold is_negative. destruct (is_signed T) eqn:Hs; [done|].
    apply in_range_unsigned in Hv; [|done]. by destruct (Z.ltb_spec v 0); [lia|]. }
  unfold encode_int, int_bytes. cbv zeta. rewrite Hneg, Ef.
  fold (magnitude v). rewrite (encode_loop_fuel f 9) by (lia || done).
  pose proof (encode_loop_rest 9 (magnitude v)) as Hr. simpl Z.of_nat in Hr.
  assert (0 <= snd (encode_loop 10 (magnitude v)) < 64) as Hr'.
  { apply Hr. split; [done|]. pose proof (pow2_le (7 * Z.of_nat f + 6) (7 * 9 + 6)). lia. }
  destruct (encode_loop 10 (magnitude v)) as [bytes rest]. simpl in Hr'. do 2 f_equal.
  unfold bits_per_byte. change (Z.shiftl 1 (7 - 1)) with (1 * 2 ^ 6).
  destruct (v <? 0); [|apply Z.mod_small; lia].
  rewrite Z.lor_comm, lor_low_high by lia. rewrite Z.mod_small by lia. lia.
Qed.

(** ** Decoding *)

(** What [read_int<T>] makes of the encoding of [v].  A magnitude that does not fit the
    value bits of [T] is refused.  A negative value read as an unsigned type is refused
    only when it is [-1]: any other one wraps around. *)
Definition decoded (T : int_type) (v : Z) : result Z :=
  if 2 ^ digits T <=? magnitude v then Err BadTransactLog
  else if 0 <=? v then Ok v
  else if is_signed T then Ok v
  else if v =? -1 then Err BadTransactLog
  else Ok (v + 2 ^ digits T).

Section decode.
Context {S : Type} `{StreamSpec S}.
Variable T : int_type.
Hypothesis WT : wf_type T.
Hypothesis HT : 7 <= digits T.

Local Lemma max_bytes_bounds :
  7 * (max_bytes T - 1) <= digits T < 7 * max_bytes T /\ 1 < max_bytes T.
Proof using HT.
  unfold max_bytes. replace (digits T + 1 + 6) with (digits T + 1 * 7) by lia.
  rewrite Z.div_add by lia.
  pose proof (Z.div_mod (digits T) 7 ltac:(lia)).
  pose proof (Z.mod_pos_bound (digits T) 7 ltac:(lia)). lia.
Qed.

Local Lemma cast_small x : 0 <= x < 2 ^ digits T -> cast T x = x.
Proof using HT. intros. apply cast_in_range; [lia|]. apply in_range_nonneg; lia. Qed.

(** One iteration on the last byte of a number. *)
Local Lemma read_last its i acc part0 (p : parser S) last sgn rest :
  remaining p = (last + sgn) :: rest -> 0 <= last < 64 -> sgn = 0 \/ sgn = 64 ->
  0 <= i < max_bytes T -> 0 <= acc < 2 ^ (i * 7) ->
  if acc + last * 2 ^ (i * 7) <? 2 ^ digits T
  then exists p', read_int_loop T (Datatypes.S its) i acc part0 p =
         Ok ((acc + last * 2 ^ (i * 7), last + sgn), p') /\ remaining p' = rest
  else read_int_loop T (Datatypes.S its) i acc part0 p = Err BadTransactLog.
Proof using WT HT.
  intros Hp Hl Hs Hi Ha. pose proof max_bytes_bounds as [Hm _].
  pose proof (read_char_remaining p) as Hc. rewrite Hp in Hc. destruct Hc as (p' & Hc & Hr).
  cbn [read_int_loop]. rewrite Hc. cbn.
  rewrite (Z.mod_small (last + sgn)) by lia.
  destruct (Z.ltb_spec 255 (last + sgn)); [lia|].
  change 128 with (2 ^ 7). rewrite land_top_bit by lia.
  destruct (Z.ltb_spec (last + sgn) (2 ^ 7)); [|lia].
  change 63 with (2 ^ 6 - 1). rewrite land_ones_mod by lia.
  assert ((last + sgn) mod 2 ^ 6 = last) as ->.
  { destruct Hs as [-> | ->]; [rewrite Z.add_0_r; apply Z.mod_small; lia|].
    symmetry. apply Z.mod_unique with 1; lia. }
  pose proof (pow2_le 7 (digits T) HT).
  assert (cast T last = last) as -> by (apply cast_small; lia).
  rewrite int_shift_left_checked; [|done|apply in_range_nonneg; lia|lia..].
  cbn. pose proof (pow2_pos (i * 7) ltac:(lia)).
  assert (i * 7 <= digits T) as Hi7 by lia. pose proof (pow2_le _ _ Hi7).
  assert (Hsplit : 2 ^ digits T = 2 ^ (digits T - i * 7) * 2 ^ (i * 7))
    by (rewrite <- Z.pow_add_r by lia; f_equal; lia).
  pose proof (Z.mul_nonneg_nonneg last (2 ^ (i * 7)) ltac:(lia) ltac:(lia)).
  destruct (Z.ltb_spec (acc + last * 2 ^ (i * 7)) (2 ^ digits T)).
  - rewrite checked_in_range by (apply in_range_nonneg; lia). cbn.
    rewrite lor_low_high by lia. eauto.
  - rewrite checked_overflow; [done|]. intros Hin%in_range_lt. rewrite Hsplit in Hin.
    apply Z.mul_lt_mono_pos_r in Hin; [|lia].
    pose proof (Z.mul_le_mono_nonneg_r last (2 ^ (digits T - i * 7) - 1) (2 ^ (i * 7))). lia.
Qed.

Lemma read_int_loop_spec f v i acc part0 (p : parser S) bytes last sgn rest :
  encode_loop (Datatypes.S f) v = (bytes, last) ->
  remaining p = bytes ++ (last + sgn) :: rest -> sgn = 0 \/ sgn = 64 ->
  0 <= v < 2 ^ (7 * Z.of_nat f + 6) ->
  0 <= i < max_bytes T -> 0 <= acc < 2 ^ (i * 7) ->
  if acc + v * 2 ^ (i * 7) <? 2 ^ digits T
  then exists p', read_int_loop T (Z.to_nat (max_bytes T - i)) i acc part0 p =
         Ok ((acc + v * 2 ^ (i * 7), last + sgn), p') /\ remaining p' = rest
  else read_int_loop T (Z.to_nat (max_bytes T - i)) i acc part0 p = Err BadTransactLog.
Proof using WT HT.
  revert v i acc part0 p bytes.
  induction f as [|f IH]; intros v i acc part0 p bytes He Hp Hs Hv Hi Ha;
    rewrite (encode_loop_S _ v) in He by lia;
    replace (Z.to_nat (max_bytes T - i))
      with (Datatypes.S (Z.to_nat (max_bytes T - (i + 1)))) by lia;
    destruct (Z.ltb_spec v 64) as [Hlt|Hge].
  1, 3: injection He as <- <-; apply read_last; (done || lia).
  { change (2 ^ (7 * Z.of_nat 0 + 6)) with 64 in Hv. lia. }
  destruct (encode_loop (Datatypes.S f) (v / 128)) as [bytes' last'] eqn:He'.
  injection He as <- <-.
  pose proof max_bytes_bounds as [Hm _]. pose proof (pow2_pos (i * 7) ltac:(lia)).
  pose proof (Z.mod_pos_bound v 128 ltac:(lia)). pose proof (Z.div_mod v 128 ltac:(lia)).
  pose proof (read_char_remaining p) as Hc. rewrite Hp in Hc. destruct Hc as (p' & Hc & Hr).
  cbn [read_int_loop]. rewrite Hc. cbn.
  rewrite (Z.mod_small (v mod 128 + 128)) by lia.
  destruct (Z.ltb_spec 255 (v mod 128 + 128)); [lia|].
  change (Z.land (v mod 128 + 128) 128) with (Z.land (v mod 128 + 128) (2 ^ 7)).
  rewrite land_top_bit by (change (2 ^ 7) with 128; lia).
  destruct (Z.ltb_spec (v mod 128 + 128) (2 ^ 7)) as [Hx|_]; [change (2 ^ 7) with 128 in Hx; lia|].
  assert (Hsplit : 2 ^ ((i + 1) * 7) = 128 * 2 ^ (i * 7))
    by (replace ((i + 1) * 7) with (7 + i * 7) by lia; by rewrite Z.pow_add_r by lia).
  destruct (Z.eqb_spec i (max_bytes T - 1)) as [E|E].
  - assert (2 ^ digits T <= 2 ^ (6 + i * 7)) as Hle by (apply pow2_le; lia).
    rewrite Z.pow_add_r in Hle by lia. 
    pose proof (Z.mul_le_mono_nonneg_r 64 v (2 ^ (i * 7))).
    change (2 ^ 6) with 64 in Hle. by destruct (Z.ltb_spec (acc + v * 2 ^ (i * 7)) (2 ^ digits T)); [lia|].
  - change 127 with (2 ^ 7 - 1). rewrite land_ones_mod by lia. change (2 ^ 7) with 128.
    assert ((v mod 128 + 128) mod 128 = v mod 128) as ->
      by (symmetry; apply Z.mod_unique with 1; lia).
    assert (Hd : 2 ^ ((i + 1) * 7) <= 2 ^ digits T) by (apply pow2_le; lia).
    pose proof (Z.mul_nonneg_nonneg (v mod 128) (2 ^ (i * 7)) ltac:(lia) ltac:(lia)).
    pose proof (Z.mul_le_mono_nonneg_r (v mod 128) 127 (2 ^ (i * 7))).
    rewrite (cast_small (v mod 128)) by lia. rewrite Z.shiftl_mul_pow2 by lia.
    rewrite (cast_small (v mod 128 * _)), lor_low_high by lia.
    replace (acc + v * 2 ^ (i * 7))
      with (acc + v mod 128 * 2 ^ (i * 7) + v / 128 * 2 ^ ((i + 1) * 7))
      by (rewrite Hsplit; transitivity (acc + (128 * (v / 128) + v mod 128) * 2 ^ (i * 7));
          [ring|congruence]).
    apply (IH _ _ _ _ _ bytes'); [done|done|done| |lia|lia].
    split; [lia|]. apply Z.div_lt_upper_bound; [lia|].
    rewrite <- (Z.pow_add_r 2 7) by lia.
    replace (7 + _) with (7 * Z.of_nat (Datatypes.S f) + 6) by lia. lia.
Qed.
End decode.

Section read_int_spec.
Context {S : Type} `{StreamSpec S}.

Lemma read_int_spec T (p : parser S) v rest :
  wf_type T -> 7 <= digits T -> magnitude v < 2 ^ 64 ->
  remaining p = int_bytes v ++ rest ->
  match decoded T v with
  | Ok x => exists p', read_int T p = Ok (x, p') /\ remaining p' = rest
  | Err e => read_int T p = Err e
  end.
Proof.
  intros WT HT Hm Hp. unfold int_bytes in Hp.
  pose proof (magnitude_nonneg v) as Hm0.
  assert (Hm' : 0 <= magnitude v < 2 ^ (7 * Z.of_nat 9 + 6))
    by (pose proof (pow2_le 64 (7 * Z.of_nat 9 + 6)); lia).
  pose proof (encode_loop_rest 9 _ Hm') as Hlast.
  destruct (encode_loop 10 (magnitude v)) as [bytes last] eqn:He. simpl in Hlast.
  set (sgn := if v <? 0 then 64 else 0).
  assert ((if v <? 0 then 64 + last else last) = last + sgn) as Es
    by (unfold sgn; destruct (v <? 0); lia).
  rewrite Es, <- app_assoc in Hp. simpl in Hp.
  pose proof (max_bytes_bounds T HT) as [_ Hmb].
  pose proof (read_int_loop_spec T WT HT 9 (magnitude v) 0 0 0 p bytes last sgn rest He Hp
    ltac:(unfold sgn; destruct (v <? 0); lia) Hm' ltac:(lia) ltac:(change (2 ^ (0 * 7)) with 1; lia)) as Hloop.
  rewrite Z.mul_0_l, Z.pow_0_r, Z.mul_1_r, Z.add_0_l, Z.sub_0_r in Hloop.
  unfold decoded, read_int.
  destruct (Z.ltb_spec (magnitude v) (2 ^ digits T)) as [Hlt|Hge].
  2: { destruct (Z.leb_spec (2 ^ digits T) (magnitude v)); [|lia]. by rewrite Hloop. }
  destruct (Z.leb_spec (2 ^ digits T) (magnitude v)); [lia|].
  destruct Hloop as (p' & Hloop & Hr). rewrite Hloop. cbn.
  assert ((Z.land (last + sgn) 64 =? 0) = (0 <=? v)) as ->.
  { change 64 with (2 ^ 6). rewrite land_top_bit by (unfold sgn; destruct (v <? 0); lia).
    change (2 ^ 6) with 64. unfold sgn.
    destruct (Z.ltb_spec v 0); repeat case_Z_compare; (done || lia). }
  destruct (Z.leb_spec 0 v); cbn.
  { unfold magnitude in *. destruct (Z.ltb_spec v 0); [lia|]. eauto. }
  assert (magnitude v = - (v + 1)) as E
    by (unfold magnitude; by destruct (Z.ltb_spec v 0); [|lia]).
  rewrite E in *. assert (in_range int_t 1) by (vm_compute; done).
  rewrite int_subtract_checked by (auto with realm; apply cast_range; lia).
  destruct (is_signed T) eqn:Hs.
  - rewrite cast_in_range by first [lia | apply in_range_signed; [done|lia]].
    rewrite checked_in_range by (apply in_range_signed; [done|lia]). cbn.
    replace (- - (v + 1) - 1) with v by lia. eauto.
  - rewrite cast_unsigned by done. destruct (Z.eqb_spec v (-1)) as [->|Hne].
    + rewrite checked_overflow; [done|]. rewrite in_range_unsigned by done.
      replace (- - (-1 + 1)) with 0 by lia. rewrite Z.mod_0_l by lia. lia.
    + assert (- - (v + 1) mod 2 ^ digits T = v + 1 + 2 ^ digits T) as ->.
      { symmetry. apply Z.mod_unique with (-1); lia. }
      rewrite checked_in_range by (apply in_range_unsigned; [done|lia]). cbn.
      replace (v + 1 + 2 ^ digits T - 1) with (v + 2 ^ digits T) by lia. eauto.
Qed.
End read_int_spec.

(** ** The length of an encoding *)

(** The number of bits of a magnitude in plain binary. *)
Definition bit_length (m : Z) : Z := if m =? 0 then 0 else Z.log2 m + 1.

Lemma bit_length_div m : 64 <= m -> bit_length m = bit_length (m / 128) + 7.
Proof.
  intros Hm. unfold bit_length. destruct (Z.eqb_spec m 0); [lia|].
  change 128 with (2 ^ 7). rewrite <- Z.shiftr_div_pow2 by lia.
  destruct (Z.eqb_spec (Z.shiftr m 7) 0) as [E|E].
  - rewrite Z.shiftr_div_pow2 in E by lia. change (2 ^ 7) with 128 in E.
    assert (m < 128) by (apply Z.div_small_iff in E; lia).
    enough (Z.log2 m = 6) by lia. apply Z.log2_unique; lia.
  - pose proof (Z.log2_nonneg (Z.shiftr m 7)).
    assert (0 < Z.log2 m - 7 \/ Z.log2 m <= 7) as [?|?] by lia;
      rewrite Z.log2_shiftr by lia; [lia|].
    assert (Z.log2 m = 7); [|lia].
    assert (128 <= m) by (destruct (Z.lt_ge_cases m 128); [|done];
      rewrite Z.shiftr_div_pow2, Z.div_small in E by lia; lia).
    pose proof (Z.log2_le_mono 128 m ltac:(lia)). change (Z.log2 128) with 7 in *. lia.
Qed.

Lemma encode_loop_length f v :
  0 <= v < 2 ^ (7 * Z.of_nat f + 6) ->
  Z.of_nat (length (fst (encode_loop (S f) v))) = bit_length v / 7.
Proof.
  revert v. induction f as [|f IH]; intros v Hv; rewrite (encode_loop_S _ v) by lia;
    destruct (Z.ltb_spec v 64) as [Hlt|Hge].
  1, 3: simpl; symmetry; apply Z.div_small; unfold bit_length; case_Z_compare; [lia|];
    pose proof (Z.log2_nonneg v); assert (Z.log2 v < 6) by (apply Z.log2_lt_pow2; lia); lia.
  { change (2 ^ (7 * Z.of_nat 0 + 6)) with 64 in Hv. lia. }
  assert (0 <= v / 128 < 2 ^ (7 * Z.of_nat f + 6)) as Hd.
  { split; [apply Z.div_pos; lia|]. apply Z.div_lt_upper_bound; [lia|].
    rewrite <- (Z.pow_add_r 2 7) by lia.
    replace (7 + _) with (7 * Z.of_nat (S f) + 6) by lia. lia. }
  specialize (IH _ Hd). destruct (encode_loop (S f) (v / 128)) as [bytes rest]. simpl in *.
  rewrite bit_length_div by lia. replace (bit_length (v / 128) + 7)
    with (bit_length (v / 128) + 1 * 7) by lia. rewrite Z.div_add by lia. lia.
Qed.

Lemma length_int_bytes v :
  magnitude v < 2 ^ 64 ->
  Z.of_nat (length (int_bytes v)) = bit_length (magnitude v) / 7 + 1 /\
  (1 <= Z.of_nat (length (int_bytes v)) <= 10).
Proof.
  intros Hm. pose proof (magnitude_nonneg v).
  assert (0 <= magnitude v < 2 ^ (7 * Z.of_nat 9 + 6)) as Hm'
    by (pose proof (pow2_le 64 (7 * Z.of_nat 9 + 6)); lia).
  pose proof (encode_loop_length 9 _ Hm') as Hl. unfold int_bytes.
  destruct (encode_loop 10 (magnitude v)) as [bytes rest]. simpl in Hl.
  rewrite length_app, Nat2Z.inj_add, Hl. simpl. split; [done|].
  unfold bit_length. case_Z_compare; [change (0 / 7) with 0; lia|].
  pose proof (Z.log2_nonneg (magnitude v)). assert (Z.log2 (magnitude v) < 64) by (apply Z.log2_lt_pow2; lia).
  pose proof (Z.div_le_mono (Z.log2 (magnitude v) + 1) 64 7 ltac:(lia) ltac:(lia)).
  pose proof (Z.div_pos (Z.log2 (magnitude v) + 1) 7 ltac:(lia) ltac:(lia)).
  change (64 / 7) with 9 in *. lia.
Qed.

Lemma magnitude_lt_64 T v : wf_type T -> in_range T v -> magnitude v < 2 ^ 64.
Proof.
  intros WT Hv. pose proof (magnitude_lt T v WT Hv). apply wf_digits_pos in WT.
  pose proof (pow2_le (digits T) 64). lia.
Qed.

Lemma decoded_in_range T v : wf_type T -> in_range T v -> decoded T v = Ok v.
Proof.
  intros WT Hv. unfold decoded. pose proof (magnitude_lt T v WT Hv).
  destruct (Z.leb_spec (2 ^ digits T) (magnitude v)); [lia|].
  destruct (Z.leb_spec 0 v); [done|]. destruct (is_signed T) eqn:Hs; [done|].
  apply in_range_unsigned in Hv; [lia|done].
Qed.

Lemma decoded_out_of_range T v :
  is_signed T = true -> ~ in_range T v -> decoded T v = Err BadTransactLog.
Proof.
  intros Hs Hv. rewrite in_range_signed in Hv by done. unfold decoded, magnitude.
  destruct (Z.ltb_spec v 0), (Z.leb_spec (2 ^ digits T) (- (v + 1)));
    destruct (Z.leb_spec (2 ^ digits T) v); (done || lia).
Qed.

(** Reading back an encoded integer of the same or of another type. *)
Lemma read_encoded {St} `{StreamSpec St} T T' (p : parser St) v rest :
  wf_type T -> wf_type T' -> 7 <= digits T' -> in_range T v -> in_range T' v ->
  remaining p = encode_int T v ++ rest ->
  exists p', read_int T' p = Ok (v, p') /\ remaining p' = rest.
Proof.
  intros WT WT' HT' Hv Hv' Hp. rewrite encode_int_bytes in Hp by done.
  pose proof (read_int_spec T' p v rest WT' HT' (magnitude_lt_64 T v WT Hv) Hp) as Hr.
  by rewrite decoded_in_range in Hr.
Qed.

(** ** Properties *)

(** C39: an integer of any type, encoded by [encode_int] and read back by [read_int] from any
    lawful stream, whatever its block boundaries, gives the integer again and leaves the
    stream right after the encoding, provided the destination type (of at least 7 value bits)
    can represent it; for a signed destination type decoding fails, with
    [BadTransactLog], if and only if it cannot. *)
Theorem read_int_encode_int {St} `{StreamSpec St} (T T' : int_type) (p : parser St) (v : Z)
    (rest : list Z) :
  wf_type T -> wf_type T' -> 7 <= digits T' -> in_range T v ->
  remaining p = encode_int T v ++ rest ->
  (in_range T' v -> exists p', read_int T' p = Ok (v, p') /\ remaining p' = rest) /\
  (is_signed T' = true -> (read_int T' p = Err BadTransactLog <-> ~ in_range T' v)).
Proof.
  intros WT WT' HT' Hv Hp. split; [intros; by eapply (read_encoded T T')|].
  intros Hs. rewrite encode_int_bytes in Hp by done.
  pose proof (read_int_spec T' p v rest WT' HT' (magnitude_lt_64 T v WT Hv) Hp) as Hr.
  split.
  - intros He Hv'. rewrite decoded_in_range in Hr by done. destruct Hr as (p' & Hr & _). congruence.
  - intros Hn. by rewrite decoded_out_of_range in Hr.
Qed.

Definition bytes_of (l : list (list Z)) : parser MultiLogNoCopyInputStream :=
  Parser (MultiLog_make l) [].

Lemma read_int_encode_int_witness :
  (exists p', read_int int64_t (bytes_of [[255]; []; [255; 64; 9]]) = Ok (-16384, p') /\
              remaining p' = [9]) /\
  read_int (IntType true 7) (bytes_of [[255]; []; [255; 64; 9]]) = Err BadTransactLog.
Proof.
  pose proof (read_int_encode_int int64_t int64_t (bytes_of [[255]; []; [255; 64; 9]]) (-16384) [9]
    ltac:(by apply (bool_decide_unpack _)) ltac:(by apply (bool_decide_unpack _)) ltac:(vm_compute; done)
    ltac:(by vm_compute) eq_refl) as [H1 _].
  pose proof (read_int_encode_int int64_t (IntType true 7) (bytes_of [[255]; []; [255; 64; 9]]) (-16384) [9]
    ltac:(by apply (bool_decide_unpack _)) ltac:(by apply (bool_decide_unpack _)) ltac:(vm_compute; done)
    ltac:(by vm_compute) eq_refl) as [_ H2].
  split; [apply H1; by vm_compute|]. apply H2; [done|]. intros [Hlo _]. by vm_compute in Hlo.
Defined.

(** The encoding of an integer has the documented length, [ceil((W + 1) / 7)] bytes for
    [W] significant bits (of [v], or of [-(v + 1)] for a negative [v]), and never more than
    the [max_enc_bytes_per_int] the encoder reserves. *)
Theorem encode_int_length (T : int_type) (v : Z) :
  wf_type T -> in_range T v ->
  Z.of_nat (length (encode_int T v)) = (bit_length (magnitude v) + 1 + 6) / 7 /\
  Z.of_nat (length (encode_int T v)) <= max_enc_bytes_per_int.
Proof.
  intros WT Hv. rewrite encode_int_bytes by done.
  destruct (length_int_bytes v (magnitude_lt_64 T v WT Hv)) as [Hl Hb].
  replace (bit_length (magnitude v) + 1 + 6) with (bit_length (magnitude v) + 1 * 7) by lia.
  rewrite Z.div_add by lia. unfold max_enc_bytes_per_int. lia.
Qed.

Lemma encode_int_length_witness :
  Z.of_nat (length (encode_int int64_t (- 2 ^ 63))) = 10 /\
  Z.of_nat (length (encode_int int64_t (- 2 ^ 63))) <= max_enc_bytes_per_int.
Proof. apply (encode_int_length int64_t (- 2 ^ 63)); [by apply (bool_decide_unpack _)|by vm_compute]. Defined.

(** Decoding does not always fail when the encoded value is outside the range of the
    requested type: a negative value other than [-1], encoded from a signed type and read
    as an unsigned type, is accepted and wraps around. *)
Theorem read_int_negative_as_unsigned {St} `{StreamSpec St} (T U : int_type) (p : parser St)
    (v : Z) (rest : list Z) :
  wf_type T -> wf_type U -> 7 <= digits U -> is_signed U = false ->
  in_range T v -> v < -1 -> - v <= 2 ^ digits U ->
  remaining p = encode_int T v ++ rest ->
  ~ in_range U v /\
  exists p', read_int U p = Ok (v + 2 ^ digits U, p') /\ remaining p' = rest.
Proof.
  intros WT WU HU Hs Hv Hneg Hfit Hp. rewrite encode_int_bytes in Hp by done.
  pose proof (read_int_spec U p v rest WU HU (magnitude_lt_64 T v WT Hv) Hp) as Hr.
  split; [rewrite in_range_unsigned by done; lia|]. unfold decoded, magnitude in Hr.
  destruct (Z.ltb_spec v 0), (Z.leb_spec (2 ^ digits U) (- (v + 1))), (Z.leb_spec 0 v),
    (Z.eqb_spec v (-1)); try lia. by rewrite Hs in Hr.
Qed.

Lemma read_int_negative_as_unsigned_witness :
  ~ in_range uint32_t (-2) /\
  exists p', read_int uint32_t (bytes_of [encode_int int64_t (-2)]) = Ok (4294967294, p') /\
             remaining p' = [].
Proof.
  apply (read_int_negative_as_unsigned int64_t uint32_t (bytes_of [encode_int int64_t (-2)]) (-2) []);
    first [apply (bool_decide_unpack _); vm_compute; exact I | by vm_compute].
Defined.
