(* ===== verification/TransactLog.v ===== *)
(** The transaction log: the instruction set, [TransactLogBufferStream],
    [TransactLogEncoder] and [TransactLogParser] of [realm/impl/transact_log.hpp], on top of
    [util::Buffer] of [realm/util/buffer.hpp].

    An encoder is the bytes written so far and the size of its buffer; a write beyond the
    space reserved for it is an error.  [encoder.select_table] and [encoder.select_list]
    are defined in the compiled core library and are not part of this repository: the bytes
    they append are parameters ([SelectEncoding]), with what the parser expects of them
    ([SelectEncodingSpec]).  Instructions are what a handler of the parser receives:
    one constructor of [log_instr] per handler method. *)

From S2P Require Import Prelude SafeInt Varint Keys.

(** ** Instructions *)

Inductive Instruction : Set :=
| instr_InsertGroupLevelTable | instr_EraseGroupLevelTable | instr_RenameGroupLevelTable
| instr_SelectTable | instr_CreateObject | instr_RemoveObject | instr_Set | instr_SetDefault
| instr_ClearTable
| instr_InsertColumn | instr_EraseColumn | instr_RenameColumn | instr_SetLinkType
| instr_SelectList | instr_ListInsert | instr_ListSet | instr_ListMove | instr_ListSwap
| instr_ListErase | instr_ListClear.

#[export] Instance Instruction_eq_dec : EqDecision Instruction.
Proof. solve_decision. Defined.

(** The values of the enumeration: a change is a file-format breaking change. *)
Definition Instruction_value (i : Instruction) : Z :=
  match i with
  | instr_InsertGroupLevelTable => 1 | instr_EraseGroupLevelTable => 2
  | instr_RenameGroupLevelTable => 3
  | instr_SelectTable => 10 | instr_CreateObject => 11 | instr_RemoveObject => 12
  | instr_Set => 13 | instr_SetDefault => 14 | instr_ClearTable => 15
  | instr_InsertColumn => 20 | instr_EraseColumn => 21 | instr_RenameColumn => 22
  | instr_SetLinkType => 23
  | instr_SelectList => 30 | instr_ListInsert => 31 | instr_ListSet => 32
  | instr_ListMove => 33 | instr_ListSwap => 34 | instr_ListErase => 35 | instr_ListClear => 36
  end.

Definition all_Instructions : list Instruction :=
  [instr_InsertGroupLevelTable; instr_EraseGroupLevelTable; instr_RenameGroupLevelTable;
   instr_SelectTable; instr_CreateObject; instr_RemoveObject; instr_Set; instr_SetDefault;
   instr_ClearTable; instr_InsertColumn; instr_EraseColumn; instr_RenameColumn;
   instr_SetLinkType; instr_SelectList; instr_ListInsert; instr_ListSet; instr_ListMove;
   instr_ListSwap; instr_ListErase; instr_ListClear].

(** [Instruction(instr_ch)], as far as the [switch] recognises it. *)
Definition Instruction_of (c : Z) : option Instruction :=
  snd <$> list_find (fun i => Instruction_value i = c) all_Instructions.

(** A call of a handler method. *)
Inductive log_instr : Set :=
| SelectTable (key : TableKey)
| InsertGroupLevelTable (key : TableKey)
| EraseGroupLevelTable (key : TableKey)
| RenameGroupLevelTable (key : TableKey)
| CreateObject (key : ObjKey)
| RemoveObject (key : ObjKey)
| ModifyObject (col : ColKey) (key : ObjKey)
| ClearTable (old_size : Z)
| InsertColumn (col : ColKey)
| EraseColumn (col : ColKey)
| RenameColumn (col : ColKey)
| SetLinkType (col : ColKey)
| SelectList (col : ColKey) (key : ObjKey)
| ListSet (ndx : Z)
| ListInsert (ndx : Z)
| ListMove (from_ndx to_ndx : Z)
| ListSwap (ndx1 ndx2 : Z)
| ListErase (ndx : Z)
| ListClear (old_size : Z).

#[export] Instance log_instr_eq_dec : EqDecision log_instr.
Proof. solve_decision. Defined.

(** ** The buffer *)

(** [util::Buffer::reserve] and [reserve_extra], on the size of the buffer: growth by a
    factor of 1.5.  The retained bytes are those below [used_size]. *)
Definition Buffer_reserve (m_size used_size min_capacity : Z) : result Z :=
  let current_capacity := m_size in
  if min_capacity <=? current_capacity then Ok m_size
  else
    '(overflow, new_capacity) ←
      int_multiply_with_overflow_detect size_t int_t current_capacity 3;
    let new_capacity := if (overflow : bool) then lim_max size_t else new_capacity in
    let new_capacity := new_capacity / 2 in
    Ok (if new_capacity <? min_capacity then min_capacity else new_capacity).

Definition Buffer_reserve_extra (m_size used_size min_extra_capacity : Z) : result Z :=
  let '(overflow, min_capacity) :=
    int_add_with_overflow_detect size_t size_t used_size min_extra_capacity in
  if overflow then Err BufferSizeOverflow
  else Buffer_reserve m_size used_size min_capacity.

(** ** The encoder over a [TransactLogBufferStream] *)

(** The bytes before [m_transact_log_free_begin]; the size of the stream's buffer; the
    offset of [m_transact_log_free_end] in it. *)
Record encoder := Encoder {
  written : list Z;
  buffer_size : Z;
  free_end : Z
}.

Definition empty_encoder : encoder := Encoder [] 0 0.

Definition write_position (e : encoder) : Z := Z.of_nat (length (written e)).

Definition transact_log_reserve (size : Z) (e : encoder) : result encoder :=
  _ ← realm_assert (0 <=? write_position e);
  _ ← realm_assert (write_position e <=? buffer_size e);
  let used_size := write_position e in
  new_size ← Buffer_reserve_extra (buffer_size e) used_size size;
  Ok (Encoder (written e) new_size new_size).

Definition transact_log_append (data : list Z) (e : encoder) : result encoder :=
  e ← transact_log_reserve (Z.of_nat (length data)) e;
  Ok (Encoder (written e ++ data) (buffer_size e) (free_end e)).

Definition reserve (n : Z) (e : encoder) : result encoder :=
  if u64 (free_end e - write_position e) <? n then transact_log_reserve n e else Ok e.

(** [advance(ptr)] after [bytes] were stored from the write position on: the pointer may
    not pass the end of the free space. *)
Definition advance (bytes : list Z) (e : encoder) : result encoder :=
  _ ← realm_assert (write_position e + Z.of_nat (length bytes) <=? free_end e);
  Ok (Encoder (written e ++ bytes) (buffer_size e) (free_end e)).

(** The arguments of [append_simple_instr]. *)
Inductive enc_arg : Set :=
| ArgInstr (i : Instruction)
| ArgTableKey (key : TableKey)
| ArgColKey (key : ColKey)
| ArgObjKey (key : ObjKey)
| ArgSize (n : Z).

(** The overloads of [encode] and of [max_size]. *)
Definition encode (a : enc_arg) : list Z :=
  match a with
  | ArgInstr i => encode_int int64_t (Instruction_value i)
  | ArgTableKey key => encode_int int64_t key
  | ArgColKey key => encode_int int64_t key
  | ArgObjKey key => encode_int int64_t key
  | ArgSize n => encode_int size_t n
  end.

Definition max_size (a : enc_arg) : Z :=
  match a with ArgInstr _ => 1 | _ => max_enc_bytes_per_int end.

Definition max_size_list (args : list enc_arg) : Z :=
  foldr (fun a n => max_size a + n) 0 args.

Definition encode_list (args : list enc_arg) : list Z :=
  foldr (fun a bytes => encode a ++ bytes) [] args.

Definition append_simple_instr (args : list enc_arg) (e : encoder) : result encoder :=
  let max_required_bytes := max_size_list args in
  e ← reserve max_required_bytes e;
  advance (encode_list args) e.

(** The methods of [TransactLogEncoder] (each returns [true]). *)
Module TransactLogEncoder.
Definition insert_group_level_table (table_key : TableKey) : encoder -> result encoder :=
  append_simple_instr [ArgInstr instr_InsertGroupLevelTable; ArgTableKey table_key].
Definition erase_group_level_table (table_key : TableKey) : encoder -> result encoder :=
  append_simple_instr [ArgInstr instr_EraseGroupLevelTable; ArgTableKey table_key].
Definition rename_group_level_table (table_key : TableKey) : encoder -> result encoder :=
  append_simple_instr [ArgInstr instr_RenameGroupLevelTable; ArgTableKey table_key].
Definition insert_column (col_key : ColKey) : encoder -> result encoder :=
  append_simple_instr [ArgInstr instr_InsertColumn; ArgColKey col_key].
Definition erase_column (col_key : ColKey) : encoder -> result encoder :=
  append_simple_instr [ArgInstr instr_EraseColumn; ArgColKey col_key].
Definition rename_column (col_key : ColKey) : encoder -> result encoder :=
  append_simple_instr [ArgInstr instr_RenameColumn; ArgColKey col_key].
Definition modify_object (col_key : ColKey) (key : ObjKey) : encoder -> result encoder :=
  append_simple_instr [ArgInstr instr_Set; ArgColKey col_key; ArgObjKey key].
Definition list_set (list_ndx : Z) : encoder -> result encoder :=
  append_simple_instr [ArgInstr instr_ListSet; ArgSize list_ndx].
Definition list_insert (list_ndx : Z) : encoder -> result encoder :=
  append_simple_instr [ArgInstr instr_ListInsert; ArgSize list_ndx].
Definition create_object (key : ObjKey) : encoder -> result encoder :=
  append_simple_instr [ArgInstr instr_CreateObject; ArgObjKey key].
Definition remove_object (key : ObjKey) : encoder -> result encoder :=
  append_simple_instr [ArgInstr instr_RemoveObject; ArgObjKey key].
Definition set_link_type (col_key : ColKey) : encoder -> result encoder :=
  append_simple_instr [ArgInstr instr_SetLinkType; ArgColKey col_key].
Definition clear_table (old_size : Z) : encoder -> result encoder :=
  append_simple_instr [ArgInstr instr_ClearTable; ArgSize old_size].
Definition list_move (from_link_ndx to_link_ndx : Z) (e : encoder) : result encoder :=
  _ ← realm_assert (negb (from_link_ndx =? to_link_ndx));
  append_simple_instr [ArgInstr instr_ListMove; ArgSize from_link_ndx; ArgSize to_link_ndx] e.
Definition list_swap (link1_ndx link2_ndx : Z) : encoder -> result encoder :=
  append_simple_instr [ArgInstr instr_ListSwap; ArgSize link1_ndx; ArgSize link2_ndx].
Definition list_erase (list_ndx : Z) : encoder -> result encoder :=
  append_simple_instr [ArgInstr instr_ListErase; ArgSize list_ndx].
Definition list_clear (old_list_size : Z) : encoder -> result encoder :=
  append_simple_instr [ArgInstr instr_ListClear; ArgSize old_list_size].
End TransactLogEncoder.

(** [select_table] and [select_list] of the encoder, compiled elsewhere. *)
Class SelectEncoding := {
  encoder_select_table : TableKey -> encoder -> result encoder;
  encoder_select_list : ColKey -> ObjKey -> encoder -> result encoder
}.

(** The encoder as a handler of instructions: the method called for each of them. *)
Definition encode_instr `{SelectEncoding} (i : log_instr) : encoder -> result encoder :=
  match i with
  | SelectTable key => encoder_select_table key
  | InsertGroupLevelTable key => TransactLogEncoder.insert_group_level_table key
  | EraseGroupLevelTable key => TransactLogEncoder.erase_group_level_table key
  | RenameGroupLevelTable key => TransactLogEncoder.rename_group_level_table key
  | CreateObject key => TransactLogEncoder.create_object key
  | RemoveObject key => TransactLogEncoder.remove_object key
  | ModifyObject col key => TransactLogEncoder.modify_object col key
  | ClearTable old_size => TransactLogEncoder.clear_table old_size
  | InsertColumn col => TransactLogEncoder.insert_column col
  | EraseColumn col => TransactLogEncoder.erase_column col
  | RenameColumn col => TransactLogEncoder.rename_column col
  | SetLinkType col => TransactLogEncoder.set_link_type col
  | SelectList col key => encoder_select_list col key
  | ListSet ndx => TransactLogEncoder.list_set ndx
  | ListInsert ndx => TransactLogEncoder.list_insert ndx
  | ListMove from_ndx to_ndx => TransactLogEncoder.list_move from_ndx to_ndx
  | ListSwap ndx1 ndx2 => TransactLogEncoder.list_swap ndx1 ndx2
  | ListErase ndx => TransactLogEncoder.list_erase ndx
  | ListClear old_size => TransactLogEncoder.list_clear old_size
  end.

(** ** The parser *)

(** A handler: its methods, given as one function of the instruction.  The flag is the
    method's return value; a method may throw. *)
Class InstructionHandler (H : Type) := handle : log_instr -> H -> result (H * bool).

Section parse.
Context {S : Type} `{!NoCopyInputStream S}.

(** The instruction code and the arguments that [parse_one] reads for it. *)
Definition read_instruction (p : parser S) : result (log_instr * parser S) :=
  '(instr_ch, p) ← read_char p;
  match instr_ch with
  | None => Err BadTransactLog
  | Some instr_ch =>
      match Instruction_of instr_ch with
      | Some instr_Set =>
          '(col_key, p) ← read_int int64_t p;
          '(key, p) ← read_int int64_t p;
          Ok (ModifyObject col_key key, p)
      | Some instr_SetDefault => Err BadTransactLog
      | Some instr_ListSet =>
          '(list_ndx, p) ← read_int size_t p; Ok (ListSet list_ndx, p)
      | Some instr_CreateObject =>
          '(key, p) ← read_int int64_t p; Ok (CreateObject key, p)
      | Some instr_RemoveObject =>
          '(key, p) ← read_int int64_t p; Ok (RemoveObject key, p)
      | Some instr_SelectTable =>
          '(levels, p) ← read_int int_t p;
          _ ← realm_assert (levels =? 0);
          '(key, p) ← read_int uint32_t p; Ok (SelectTable key, p)
      | Some instr_ClearTable =>
          '(old_size, p) ← read_int size_t p; Ok (ClearTable old_size, p)
      | Some instr_ListInsert =>
          '(list_ndx, p) ← read_int size_t p; Ok (ListInsert list_ndx, p)
      | Some instr_ListMove =>
          '(from_link_ndx, p) ← read_int size_t p;
          '(to_link_ndx, p) ← read_int size_t p;
          Ok (ListMove from_link_ndx to_link_ndx, p)
      | Some instr_ListSwap =>
          '(link1_ndx, p) ← read_int size_t p;
          '(link2_ndx, p) ← read_int size_t p;
          Ok (ListSwap link1_ndx link2_ndx, p)
      | Some instr_ListErase =>
          '(link_ndx, p) ← read_int size_t p; Ok (ListErase link_ndx, p)
      | Some instr_ListClear =>
          '(old_list_size, p) ← read_int size_t p; Ok (ListClear old_list_size, p)
      | Some instr_SelectList =>
          '(col_key, p) ← read_int int64_t p;
          '(key, p) ← read_int int64_t p;
          Ok (SelectList col_key key, p)
      | Some instr_SetLinkType =>
          '(col_key, p) ← read_int int64_t p; Ok (SetLinkType col_key, p)
      | Some instr_InsertColumn =>
          '(col_key, p) ← read_int int64_t p; Ok (InsertColumn col_key, p)
      | Some instr_EraseColumn =>
          '(col_key, p) ← read_int int64_t p; Ok (EraseColumn col_key, p)
      | Some instr_RenameColumn =>
          '(col_key, p) ← read_int int64_t p; Ok (RenameColumn col_key, p)
      | Some instr_InsertGroupLevelTable =>
          '(table_key, p) ← read_int uint32_t p; Ok (InsertGroupLevelTable table_key, p)
      | Some instr_EraseGroupLevelTable =>
          '(table_key, p) ← read_int uint32_t p; Ok (EraseGroupLevelTable table_key, p)
      | Some instr_RenameGroupLevelTable =>
          '(table_key, p) ← read_int uint32_t p; Ok (RenameGroupLevelTable table_key, p)
      | None => Err BadTransactLog
      end
  end.

Context {H : Type} `{!InstructionHandler H}.

(** The call of a handler method: [parser_error] when it returns [false]. *)
Definition dispatch (h : H) (i : log_instr) : result H :=
  '(h, ok) ← handle i h;
  if (ok : bool) then Ok h else Err BadTransactLog.

Definition parse_one (p : parser S) (h : H) : result (parser S * H) :=
  '(i, p) ← read_instruction p;
  h ← dispatch h i;
  Ok (p, h).

(** [while (has_next()) parse_one(handler)]. *)
Fixpoint parse_loop (fuel : nat) (p : parser S) (h : H) : result H :=
  let '(more, p) := has_next p in
  if more then
    match fuel with
    | O => Err OutOfFuel
    | Datatypes.S fuel => '(p, h) ← parse_one p h; parse_loop fuel p h
    end
  else Ok h.
End parse.

(** [TransactLogParser::parse(NoCopyInputStream&, InstructionHandler&)].  Every instruction
    takes a byte: as many iterations as the stream has bytes are enough. *)
Definition parse {S H} `{StreamSpec S} `{!InstructionHandler H} (in_ : S) (handler : H)
  : result H :=
  parse_loop (length (concat (stream_blocks in_))) (Parser in_ []) handler.

(** [TransactLogParser::parse(InputStream&, InstructionHandler&)], through the parser's own
    input buffer of 1024 bytes. *)
Definition parse_input_stream {H} `{!InstructionHandler H} (in_ : SimpleInputStream)
    (handler : H) : result H :=
  parse {| ad_in := in_; ad_buffer_size := 1024 |} handler.

(** [NullInstructionObserver]: every method returns [true] and does nothing. *)
Record NullInstructionObserver := NullObserver {}.

#[export] Instance Null_handler : InstructionHandler NullInstructionObserver :=
  fun _ h => Ok (h, true).

(** ** Well-formed encoders *)

(** The invariant of an encoder attached to its buffer. *)
Definition encoder_ok (e : encoder) : Prop :=
  write_position e <= free_end e /\ free_end e = buffer_size e /\ buffer_size e < word_size.

Definition valid_table (key : Z) : Prop := in_range uint32_t key.
Definition valid_key (key : Z) : Prop := in_range int64_t key.
Definition valid_size (n : Z) : Prop := in_range size_t n.

Definition valid_arg (a : enc_arg) : Prop :=
  match a with
  | ArgInstr _ => True
  | ArgTableKey key => valid_table key
  | ArgColKey key | ArgObjKey key => valid_key key
  | ArgSize n => valid_size n
  end.

(** The arguments of an instruction are in the ranges of their C++ types, and a list move
    has two different indices. *)
Definition valid_instr (i : log_instr) : Prop :=
  match i with
  | SelectTable k | InsertGroupLevelTable k | EraseGroupLevelTable k
  | RenameGroupLevelTable k => valid_table k
  | CreateObject k | RemoveObject k | InsertColumn k | EraseColumn k | RenameColumn k
  | SetLinkType k => valid_key k
  | ModifyObject c k | SelectList c k => valid_key c /\ valid_key k
  | ClearTable n | ListSet n | ListInsert n | ListErase n | ListClear n => valid_size n
  | ListMove a b => valid_size a /\ valid_size b /\ a <> b
  | ListSwap a b => valid_size a /\ valid_size b
  end.

#[export] Instance valid_instr_dec i : Decision (valid_instr i).
Proof.
  destruct i; unfold valid_instr, valid_table, valid_key, valid_size, in_range; apply _.
Defined.

(** An upper bound of the bytes of one instruction: one code and two numbers. *)
Definition max_instr_bytes : Z := 21.

(** What the parser and the reserving encoder expect of the two compiled methods. *)
Class SelectEncodingSpec `{SelectEncoding} := {
  select_table_bytes : TableKey -> list Z;
  select_list_bytes : ColKey -> ObjKey -> list Z;
  encoder_select_table_spec key e :
    valid_table key -> encoder_ok e -> write_position e + max_instr_bytes < word_size ->
    exists e', encoder_select_table key e = Ok e' /\ encoder_ok e' /\
               written e' = written e ++ select_table_bytes key;
  encoder_select_list_spec col key e :
    valid_key col -> valid_key key -> encoder_ok e ->
    write_position e + max_instr_bytes < word_size ->
    exists e', encoder_select_list col key e = Ok e' /\ encoder_ok e' /\
               written e' = written e ++ select_list_bytes col key;
  select_table_read {St} `{StreamSpec St} key (p : parser St) rest :
    valid_table key -> remaining p = select_table_bytes key ++ rest ->
    exists p', read_instruction p = Ok (SelectTable key, p') /\ remaining p' = rest;
  select_list_read {St} `{StreamSpec St} col key (p : parser St) rest :
    valid_key col -> valid_key key -> remaining p = select_list_bytes col key ++ rest ->
    exists p', read_instruction p = Ok (SelectList col key, p') /\ remaining p' = rest;
  select_table_length key :
    1 <= Z.of_nat (length (select_table_bytes key)) <= max_instr_bytes;
  select_list_length col key :
    1 <= Z.of_nat (length (select_list_bytes col key)) <= max_instr_bytes
}.

(** The arguments [encode_instr] hands to [append_simple_instr]. *)
Definition instr_args (i : log_instr) : list enc_arg :=
  match i with
  | SelectTable _ | SelectList _ _ => []
  | InsertGroupLevelTable k => [ArgInstr instr_InsertGroupLevelTable; ArgTableKey k]
  | EraseGroupLevelTable k => [ArgInstr instr_EraseGroupLevelTable; ArgTableKey k]
  | RenameGroupLevelTable k => [ArgInstr instr_RenameGroupLevelTable; ArgTableKey k]
  | CreateObject k => [ArgInstr instr_CreateObject; ArgObjKey k]
  | RemoveObject k => [ArgInstr instr_RemoveObject; ArgObjKey k]
  | ModifyObject c k => [ArgInstr instr_Set; ArgColKey c; ArgObjKey k]
  | ClearTable n => [ArgInstr instr_ClearTable; ArgSize n]
  | InsertColumn c => [ArgInstr instr_InsertColumn; ArgColKey c]
  | EraseColumn c => [ArgInstr instr_EraseColumn; ArgColKey c]
  | RenameColumn c => [ArgInstr instr_RenameColumn; ArgColKey c]
  | SetLinkType c => [ArgInstr instr_SetLinkType; ArgColKey c]
  | ListSet n => [ArgInstr instr_ListSet; ArgSize n]
  | ListInsert n => [ArgInstr instr_ListInsert; ArgSize n]
  | ListMove a b => [ArgInstr instr_ListMove; ArgSize a; ArgSize b]
  | ListSwap a b => [ArgInstr instr_ListSwap; ArgSize a; ArgSize b]
  | ListErase n => [ArgInstr instr_ListErase; ArgSize n]
  | ListClear n => [ArgInstr instr_ListClear; ArgSize n]
  end.

Definition instr_bytes `{SelectEncodingSpec} (i : log_instr) : list Z :=
  match i with
  | SelectTable key => select_table_bytes key
  | SelectList col key => select_list_bytes col key
  | _ => encode_list (instr_args i)
  end.

(** ** Reserving and appending *)

Lemma write_position_nonneg e : 0 <= write_position e.
Proof. unfold write_position. lia. Qed.

Lemma wf_size_t : wf_type size_t.
Proof. by apply (bool_decide_unpack _). Qed.
Lemma wf_int64_t : wf_type int64_t.
Proof. by apply (bool_decide_unpack _). Qed.
Lemma wf_uint32_t : wf_type uint32_t.
Proof. by apply (bool_decide_unpack _). Qed.
#[export] Hint Resolve wf_size_t wf_int64_t wf_uint32_t : realm.

Lemma in_range_size_t n : in_range size_t n <-> 0 <= n < word_size.
Proof. apply in_range_unsigned. done. Qed.

(** Growth by half, at least to what is asked for, never beyond [size_t]. *)
Lemma Buffer_reserve_spec size used min :
  0 <= size < word_size -> 0 <= min < word_size ->
  exists size', Buffer_reserve size used min = Ok size' /\
                Z.max size min <= size' < word_size.
Proof.
  intros Hs Hm. unfold Buffer_reserve.
  destruct (Z.leb_spec min size); [exists size; split; [done|lia]|].
  rewrite int_multiply_checked by
    first [lia | solve [auto with realm] | by apply in_range_size_t | by vm_compute].
  unfold checked. assert (lim_max size_t = word_size - 1) as E by done.
  assert (lim_min size_t = 0) as E0 by done. unfold in_rangeb. rewrite E, E0.
  destruct (Z.leb_spec 0 (size * 3)); [|lia].
  destruct (Z.leb_spec (size * 3) (word_size - 1)); cbn [andb];
    change (?x ≫= ?f) with (result_bind _ _ f x); cbn [result_bind]; rewrite ?E;
    eexists; (split; [reflexivity|]); unfold word_size in *; case_Z_compare;
    Z.to_euclidean_division_equations; lia.
Qed.

Lemma transact_log_reserve_spec n e :
  encoder_ok e -> 0 <= n < word_size ->
  if write_position e + n <? word_size
  then exists e', transact_log_reserve n e = Ok e' /\ encoder_ok e' /\
                  written e' = written e /\ write_position e + n <= free_end e'
  else transact_log_reserve n e = Err BufferSizeOverflow.
Proof.
  intros (H1 & H2 & H3) Hn. pose proof (write_position_nonneg e) as Hp.
  unfold transact_log_reserve. destruct (Z.leb_spec 0 (write_position e)); [|lia]. cbn [realm_assert].
  destruct (Z.leb_spec (write_position e) (buffer_size e)); [|lia]. cbn.
  unfold Buffer_reserve_extra.
  rewrite int_add_checked by (auto with realm; apply in_range_size_t; lia).
  destruct (Z.ltb_spec (write_position e + n) word_size).
  - rewrite checked_in_range by (apply in_range_size_t; lia). cbn.
    destruct (Buffer_reserve_spec (buffer_size e) (write_position e) (write_position e + n))
      as (size' & -> & Hs); [lia..|]. cbn.
    eexists. split_and!; [done| |done|cbn; lia]. unfold encoder_ok, write_position in *. cbn. lia.
  - rewrite checked_overflow; [done|]. rewrite in_range_size_t. lia.
Qed.

Lemma length_encode_int T v :
  wf_type T -> in_range T v -> 1 <= Z.of_nat (length (encode_int T v)) <= max_enc_bytes_per_int.
Proof.
  intros. rewrite encode_int_bytes by done. apply length_int_bytes. by apply (magnitude_lt_64 T).
Qed.

Lemma encode_instruction_code i : encode_int int64_t (Instruction_value i) = [Instruction_value i].
Proof. by destruct i. Qed.

Lemma in_range_uint32_int64 k : in_range uint32_t k -> in_range int64_t k.
Proof. unfold in_range, lim_min, lim_max. simpl. lia. Qed.

Lemma length_encode_arg a :
  valid_arg a -> 1 <= Z.of_nat (length (encode a)) <= max_size a.
Proof.
  destruct a; intros Hv; unfold encode, max_size.
  - by rewrite encode_instruction_code.
  - apply length_encode_int; auto with realm. by apply in_range_uint32_int64.
  - by apply length_encode_int; auto with realm.
  - by apply length_encode_int; auto with realm.
  - by apply length_encode_int; auto with realm.
Qed.

Lemma length_encode_list args :
  Forall valid_arg args -> 0 <= Z.of_nat (length (encode_list args)) <= max_size_list args.
Proof.
  induction 1 as [|a args Ha _ IH]; simpl; [lia|].
  pose proof (length_encode_arg a Ha). rewrite length_app. lia.
Qed.

Lemma append_simple_instr_spec args e :
  encoder_ok e -> Forall valid_arg args -> max_size_list args < word_size ->
  if write_position e + max_size_list args <? word_size
  then exists e', append_simple_instr args e = Ok e' /\ encoder_ok e' /\
                  written e' = written e ++ encode_list args
  else append_simple_instr args e = Err BufferSizeOverflow.
Proof.
  intros Hok Hv Hmax. pose proof (length_encode_list args Hv) as Hlen.
  pose proof (transact_log_reserve_spec (max_size_list args) e Hok ltac:(lia)) as Hr.
  pose proof Hok as (H1 & H2 & H3). pose proof (write_position_nonneg e).
  unfold append_simple_instr, reserve. rewrite u64_small by lia.
  assert (Hadv : forall e', encoder_ok e' -> written e' = written e ->
            write_position e + max_size_list args <= free_end e' ->
            exists e'', advance (encode_list args) e' = Ok e'' /\ encoder_ok e'' /\
                        written e'' = written e ++ encode_list args).
  { intros e' (K1 & K2 & K3) Hw Hfe. unfold advance. unfold write_position in *. rewrite Hw in *.
    destruct (Z.leb_spec (Z.of_nat (length (written e)) + Z.of_nat (length (encode_list args)))
                (free_end e')); [|lia].
    eexists. split_and!; [done| |done]. unfold encoder_ok, write_position in *. cbn.
    rewrite length_app. lia. }
  destruct (Z.ltb_spec (write_position e + max_size_list args) word_size);
    destruct (Z.ltb_spec (free_end e - write_position e) (max_size_list args)); try lia.
  - destruct Hr as (e' & -> & Hok' & Hw & Hfe). cbn. by apply Hadv.
  - cbn. apply Hadv; (done || lia).
  - by rewrite Hr.
Qed.

(** ** Encoding an instruction *)

Section encode_instr_spec.
Context `{SelectEncodingSpec}.

Lemma instr_args_spec i :
  valid_instr i -> (forall k, i <> SelectTable k) -> (forall c k, i <> SelectList c k) ->
  (forall e, encode_instr i e = append_simple_instr (instr_args i) e) /\
  Forall valid_arg (instr_args i) /\ max_size_list (instr_args i) <= max_instr_bytes.
Proof.
  intros Hv H1 H2. destruct i; try done; simpl in Hv;
    try (exfalso; by eapply H1); try (exfalso; by eapply H2);
    (split; [intros e; try done|split; [repeat (apply Forall_cons; split; [simpl; tauto|]);
      apply Forall_nil; exact I|vm_compute; done]]).
  unfold encode_instr, TransactLogEncoder.list_move.
  destruct (Z.eqb_spec from_ndx to_ndx); [tauto|done].
Qed.

Lemma encode_instr_spec i e :
  valid_instr i -> encoder_ok e -> write_position e + max_instr_bytes < word_size ->
  exists e', encode_instr i e = Ok e' /\ encoder_ok e' /\
             written e' = written e ++ instr_bytes i.
Proof.
  intros Hv Hok Hw.
  destruct i as [key| | | | | | | | | | | |col key| | | | | |];
    try exact (encoder_select_table_spec key e Hv Hok Hw);
    try exact (encoder_select_list_spec col key e (proj1 Hv) (proj2 Hv) Hok Hw);
    match goal with |- context [encode_instr ?i] =>
      destruct (instr_args_spec i Hv ltac:(intros; discriminate) ltac:(intros; discriminate)) as (Ea & Hva & Hm);
      rewrite Ea; pose proof (append_simple_instr_spec (instr_args i) e Hok Hva
        ltac:(unfold max_instr_bytes, word_size in *; lia)) as Hs;
      destruct (Z.ltb_spec (write_position e + max_size_list (instr_args i)) word_size);
        [exact Hs|lia]
    end.
Qed.

Lemma length_instr_bytes i :
  valid_instr i -> 1 <= Z.of_nat (length (instr_bytes i)) <= max_instr_bytes.
Proof.
  intros Hv.
  destruct i as [key| | | | | | | | | | | |col key| | | | | |];
    try apply select_table_length; try apply select_list_length;
    match goal with |- context [instr_bytes ?i] =>
      destruct (instr_args_spec i Hv ltac:(intros; discriminate) ltac:(intros; discriminate)) as (_ & Hva & Hm);
      pose proof (length_encode_list _ Hva); split; [|unfold instr_bytes; lia]
    end;
    inversion_clear Hva as [|? ? Ha ?]; apply length_encode_arg in Ha;
    unfold instr_bytes, instr_args, encode_list; cbn [foldr];
    rewrite length_app; unfold instr_args in *; lia.
Qed.

(** ** Reading an instruction back *)

Context {St : Type} `{StreamSpec St}.

Lemma read_instruction_code (p : parser St) i rest :
  remaining p = encode (ArgInstr i) ++ rest ->
  exists p', read_char p = Ok (Some (Instruction_value i), p') /\ remaining p' = rest.
Proof.
  unfold encode. rewrite encode_instruction_code. intros Hp.
  pose proof (read_char_remaining p) as Hr. rewrite Hp in Hr. exact Hr.
Qed.

Lemma Instruction_of_value i : Instruction_of (Instruction_value i) = Some i.
Proof. by destruct i. Qed.

Lemma read_size (p : parser St) n rest :
  remaining p = encode (ArgSize n) ++ rest -> valid_size n ->
  exists p', read_int size_t p = Ok (n, p') /\ remaining p' = rest.
Proof. intros. eapply (read_encoded size_t size_t); (done || auto with realm). Qed.

Lemma read_table (p : parser St) k rest :
  remaining p = encode (ArgTableKey k) ++ rest -> valid_table k ->
  exists p', read_int uint32_t p = Ok (k, p') /\ remaining p' = rest.
Proof.
  intros. eapply (read_encoded int64_t uint32_t); try done; auto with realm.
  by apply in_range_uint32_int64.
Qed.

Lemma read_key (p : parser St) k rest :
  remaining p = encode (ArgObjKey k) ++ rest -> valid_key k ->
  exists p', read_int int64_t p = Ok (k, p') /\ remaining p' = rest.
Proof. intros. eapply (read_encoded int64_t int64_t); (done || auto with realm). Qed.

(** Read one argument: the next [read_int] of the goal returns what was encoded. *)
Ltac read_arg Hp p' Hp' :=
  let E := fresh in
  first
    [ destruct (read_size _ _ _ Hp ltac:(assumption)) as (p' & E & Hp')
    | destruct (read_table _ _ _ Hp ltac:(assumption)) as (p' & E & Hp')
    | destruct (read_key _ _ _ Hp ltac:(assumption)) as (p' & E & Hp') ];
  rewrite E; clear E; cbn.

Lemma read_instruction_spec (p : parser St) i rest :
  valid_instr i -> remaining p = instr_bytes i ++ rest ->
  exists p', read_instruction p = Ok (i, p') /\ remaining p' = rest.
Proof.
  intros Hv Hp.
  destruct i as [key| | | | | | | | | | | |col key| | | | | |];
    [exact (select_table_read key p rest Hv Hp)| | | | | | | | | | | |
     exact (select_list_read col key p rest (proj1 Hv) (proj2 Hv) Hp)| | | | | |];
    unfold instr_bytes, instr_args, encode_list in Hp; cbn [foldr] in Hp;
    rewrite ?app_nil_r, <- ?app_assoc in Hp;
    unfold read_instruction; destruct (read_instruction_code p _ _ Hp) as (p1 & E & Hp1);
    rewrite E; clear E; cbn - [Instruction_of Instruction_value];
    rewrite Instruction_of_value; cbn;
    simpl in Hv; repeat match goal with Hc : _ /\ _ |- _ => destruct Hc end;
    read_arg Hp1 p2 Hp2; try (eexists; by split);
    read_arg Hp2 p3 Hp3; eexists; by split.
Qed.
End encode_instr_spec.

(** ** Parsing a log *)

Section parse_spec.
Context `{SelectEncodingSpec} {St : Type} `{StreamSpec St} {Hd : Type} `{!InstructionHandler Hd}.

Definition log_bytes (log : list log_instr) : list Z := concat (instr_bytes <$> log).

Lemma parse_loop_spec log fuel (p : parser St) (h : Hd) :
  Forall valid_instr log -> remaining p = log_bytes log -> (length log <= fuel)%nat ->
  parse_loop fuel p h = fold_result dispatch h log.
Proof.
  revert fuel p h. induction log as [|i log IH]; intros fuel p h Hv Hp Hf.
  - destruct (has_next_remaining p) as (Hn & _). destruct fuel; simpl;
      destruct (has_next p); simpl in *; subst; rewrite bool_decide_false; auto.
  - inversion_clear Hv as [|? ? Hi Hv'].
    destruct (has_next_remaining p) as (Hn & Hr & _). rewrite Hp in Hn, Hr.
    pose proof (length_instr_bytes i Hi) as Hl.
    destruct fuel as [|fuel]; [simpl in Hf; lia|]. simpl.
    destruct (has_next p) as [more p1]. simpl in Hn, Hr. rewrite Hn. unfold log_bytes in *.
    simpl in *. rewrite bool_decide_true
      by (intros E%(f_equal length); rewrite length_app in E; simpl in E; lia).
    rewrite Hn, bool_decide_true in Hr
      by (intros E%(f_equal length); rewrite length_app in E; simpl in E; lia).
    unfold parse_one. destruct (read_instruction_spec p1 i _ Hi (Hr eq_refl)) as (p2 & E & Hp2).
    rewrite E. cbn. destruct (dispatch h i) as [h'|e]; cbn; [|done].
    apply IH; [done|done|lia].
Qed.

Lemma length_log_bytes log :
  Forall valid_instr log ->
  Z.of_nat (length log) <= Z.of_nat (length (log_bytes log)) <=
    max_instr_bytes * Z.of_nat (length log).
Proof.
  unfold log_bytes. induction 1 as [|i log Hi _ IH]; [simpl; lia|].
  rewrite fmap_cons. cbn [concat length]. rewrite length_app.
  pose proof (length_instr_bytes i Hi). unfold max_instr_bytes in *. lia.
Qed.

Lemma parse_log_bytes log (s : St) (h : Hd) :
  Forall valid_instr log -> concat (stream_blocks s) = log_bytes log ->
  parse s h = fold_result dispatch h log.
Proof.
  intros Hv Hs. unfold parse. pose proof (length_log_bytes log Hv).
  apply parse_loop_spec; [done|unfold remaining; simpl; done|rewrite Hs; lia].
Qed.
End parse_spec.

Lemma encode_log_spec `{SelectEncodingSpec} log e :
  Forall valid_instr log -> encoder_ok e ->
  write_position e + max_instr_bytes * (1 + Z.of_nat (length log)) <= word_size ->
  exists e', fold_result (fun e i => encode_instr i e) e log = Ok e' /\ encoder_ok e' /\
             written e' = written e ++ log_bytes log.
Proof.
  revert e. induction log as [|i log IH]; intros e Hv Hok Hw.
  - exists e. unfold log_bytes. simpl. by rewrite app_nil_r.
  - inversion_clear Hv as [|? ? Hi Hv']. pose proof (length_instr_bytes i Hi) as Hl.
    simpl length in Hw.
    destruct (encode_instr_spec i e Hi Hok ltac:(unfold max_instr_bytes in *; lia))
      as (e1 & E & Hok1 & Hw1).
    destruct (IH e1 Hv' Hok1) as (e2 & E2 & Hok2 & Hw2).
    { unfold write_position, max_instr_bytes in *. rewrite Hw1, length_app. lia. }
    exists e2. simpl. rewrite E. cbn. split_and!; [done|done|].
    rewrite Hw2, Hw1. unfold log_bytes. simpl. by rewrite <- app_assoc.
Qed.

(** ** Parsing depends on the bytes only

    Two readers in the same place of the same bytes behave alike, however their streams
    cut the bytes in blocks.  [same_read n] also bounds by [n] what is left to read. *)

Section same_bytes.
Context {S1 : Type} `{StreamSpec S1} {S2 : Type} `{StreamSpec S2}.

Definition same_read {A} (n : nat) (r1 : result (A * parser S1)) (r2 : result (A * parser S2))
  : Prop :=
  match r1, r2 with
  | Ok (a1, p1), Ok (a2, p2) =>
      a1 = a2 /\ remaining p1 = remaining p2 /\ (length (remaining p1) <= n)%nat
  | Err e1, Err e2 => e1 = e2 /\ e1 <> OutOfFuel
  | _, _ => False
  end.

Lemma same_read_ret {A} n (a : A) p1 p2 :
  remaining p1 = remaining p2 -> (length (remaining p1) <= n)%nat ->
  same_read n (Ok (a, p1)) (Ok (a, p2)).
Proof. done. Qed.

Lemma same_read_bind {A B} n (r1 : result (A * parser S1)) (r2 : result (A * parser S2))
    (k1 : A * parser S1 -> result (B * parser S1)) (k2 : A * parser S2 -> result (B * parser S2)) :
  same_read n r1 r2 ->
  (forall a p1 p2, remaining p1 = remaining p2 -> (length (remaining p1) <= n)%nat ->
     same_read n (k1 (a, p1)) (k2 (a, p2))) ->
  same_read n (r1 ≫= k1) (r2 ≫= k2).
Proof.
  destruct r1 as [[a1 p1]|e1], r2 as [[a2 p2]|e2]; simpl; try done.
  intros (-> & Hr & Hn) Hk. by apply Hk.
Qed.

(** A step that does not read: the same value or the same error on both sides. *)
Lemma same_read_pure {A B} n (r : result A)
    (k1 : A -> result (B * parser S1)) (k2 : A -> result (B * parser S2)) :
  r <> Err OutOfFuel -> (forall a, same_read n (k1 a) (k2 a)) -> same_read n (r ≫= k1) (r ≫= k2).
Proof. destruct r; simpl; [auto|]. intros Hne _. split; [done|congruence]. Qed.

Lemma same_read_char n (p1 : parser S1) (p2 : parser S2) :
  remaining p1 = remaining p2 -> (length (remaining p1) <= n)%nat ->
  match remaining p1 with
  | [] => exists q1 q2, read_char p1 = Ok (None, q1) /\ read_char p2 = Ok (None, q2)
  | c :: rest => exists q1 q2,
      read_char p1 = Ok (Some c, q1) /\ read_char p2 = Ok (Some c, q2) /\
      remaining q1 = remaining q2 /\ (length (remaining q1) < n)%nat
  end.
Proof.
  intros Hr Hn. pose proof (read_char_remaining p1) as H1. pose proof (read_char_remaining p2) as H2'.
  rewrite <- Hr in H2'. destruct (remaining p1) as [|c rest].
  - destruct H1 as [q1 ?], H2' as [q2 ?]. eauto.
  - destruct H1 as (q1 & ? & E1), H2' as (q2 & ? & E2). exists q1, q2.
    rewrite E1, E2. simpl in Hn. split_and!; (done || lia).
Qed.

Lemma shift_detect_not_fuel T x i : int_shift_left_with_overflow_detect T x i <> Err OutOfFuel.
Proof.
  unfold int_shift_left_with_overflow_detect, realm_assert.
  destruct (int_greater_than_or_equal _ _ _ _); cbn; [|done]. by case_match.
Qed.

Lemma same_read_int_loop T its i value part n (p1 : parser S1) (p2 : parser S2) :
  remaining p1 = remaining p2 -> (length (remaining p1) <= n)%nat ->
  same_read n (read_int_loop T its i value part p1) (read_int_loop T its i value part p2).
Proof.
  revert i value part p1 p2. induction its as [|its IH]; intros i value part p1 p2 Hr Hn; [done|].
  cbn [read_int_loop]. pose proof (same_read_char n p1 p2 Hr Hn) as Hc.
  destruct (remaining p1) as [|c rest] eqn:E.
  - destruct Hc as (q1 & q2 & -> & ->). done.
  - destruct Hc as (q1 & q2 & -> & -> & Hq & Hl). cbn.
    case_match; [done|]. case_match.
    + apply same_read_pure; [apply shift_detect_not_fuel|].
      intros [[|] q]; [done|]. apply same_read_ret; (done || lia).
    + case_match; [done|]. apply IH; (done || lia).
Qed.

Lemma same_read_int T n (p1 : parser S1) (p2 : parser S2) :
  remaining p1 = remaining p2 -> (length (remaining p1) <= n)%nat ->
  same_read n (read_int T p1) (read_int T p2).
Proof.
  intros Hr Hn. unfold read_int. apply same_read_bind; [by apply same_read_int_loop|].
  intros [value part] q1 q2 Hq Hl. case_match; [|done].
  destruct (int_subtract_with_overflow_detect T int_t (cast T (- value)) 1) as [[|] v]; done.
Qed.

Lemma same_read_instruction (p1 : parser S1) (p2 : parser S2) :
  remaining p1 = remaining p2 ->
  same_read (pred (length (remaining p1))) (read_instruction p1) (read_instruction p2).
Proof.
  intros Hr. unfold read_instruction.
  pose proof (same_read_char _ p1 p2 Hr (Nat.le_refl _)) as Hc.
  destruct (remaining p1) as [|c rest] eqn:E.
  - destruct Hc as (q1 & q2 & -> & ->). done.
  - destruct Hc as (q1 & q2 & -> & -> & Hq & Hl). cbn [mbind result_bind].
    assert (length (remaining q1) <= pred (length (c :: rest)))%nat as Hl' by (simpl in *; lia).
    destruct (Instruction_of c) as [[]|];
      repeat first
        [ done
        | apply same_read_bind; [by apply same_read_int|intros ?????]
        | apply same_read_pure; [by destruct (_ =? _)|intros _] ].
Qed.

Context {Hd : Type} `{!InstructionHandler Hd}.

Lemma parse_loop_same f1 f2 (p1 : parser S1) (p2 : parser S2) (h : Hd) :
  remaining p1 = remaining p2 ->
  (length (remaining p1) <= f1)%nat -> (length (remaining p1) <= f2)%nat ->
  parse_loop f1 p1 h = parse_loop f2 p2 h.
Proof.
  revert f2 p1 p2 h. induction f1 as [|f1 IH]; intros f2 p1 p2 h Hr Hf1 Hf2;
    destruct (has_next_remaining p1) as (Hn1 & Hr1 & _);
    destruct (has_next_remaining p2) as (Hn2 & Hr2 & _).
  - assert (remaining p1 = []) as E by (destruct (remaining p1); [done|simpl in Hf1; lia]).
    rewrite <- Hr, E in Hn2. rewrite E in Hn1.
    destruct f2; simpl; destruct (has_next p1), (has_next p2); simpl in *; subst;
      first [done | by rewrite bool_decide_false by auto].
  - destruct f2 as [|f2].
    { assert (remaining p1 = []) as E by (destruct (remaining p1); [done|simpl in Hf2; lia]).
      rewrite <- Hr, E in Hn2. rewrite E in Hn1.
      simpl; destruct (has_next p1), (has_next p2); simpl in *; subst;
        first [done | by rewrite bool_decide_false by auto]. }
    simpl. destruct (has_next p1) as [m1 q1], (has_next p2) as [m2 q2]. simpl in *.
    rewrite <- Hr in Hn2. rewrite <- Hn1 in Hn2. subst m2. destruct m1; [|done].
    specialize (Hr1 eq_refl). specialize (Hr2 eq_refl).
    assert (remaining q1 = remaining q2) as Hq by congruence.
    pose proof (same_read_instruction q1 q2 Hq) as Hs. unfold parse_one.
    destruct (read_instruction q1) as [[i1 q1']|], (read_instruction q2) as [[i2 q2']|];
      simpl in Hs; try done; cbn; [|by destruct Hs as [-> _]].
    destruct Hs as (-> & Hq' & Hl). destruct (dispatch h i2) as [h'|]; cbn; [|done].
    symmetry in Hn1. apply bool_decide_eq_true in Hn1.
    assert (0 < length (remaining p1))%nat by (destruct (remaining p1); [done|simpl; lia]).
    rewrite Hr1 in Hl. apply IH; [done|lia|lia].
Qed.
End same_bytes.

(** ** Properties *)

(** The encoding of selections that the parser's [switch] reads: levels, always 0, and the
    key of a table; the keys of a column and of an object for a list. *)
Module SampleSelect.
#[export] Instance sample_select : SelectEncoding := {|
  encoder_select_table key :=
    append_simple_instr [ArgInstr instr_SelectTable; ArgSize 0; ArgTableKey key];
  encoder_select_list col key :=
    append_simple_instr [ArgInstr instr_SelectList; ArgColKey col; ArgObjKey key]
|}.

Lemma sample_append args e :
  Forall valid_arg args -> max_size_list args <= max_instr_bytes ->
  encoder_ok e -> write_position e + max_instr_bytes < word_size ->
  exists e', append_simple_instr args e = Ok e' /\ encoder_ok e' /\
             written e' = written e ++ encode_list args.
Proof.
  intros Hv Hm Hok Hw.
  pose proof (append_simple_instr_spec args e Hok Hv
    ltac:(unfold max_instr_bytes, word_size in *; lia)) as Hs.
  destruct (Z.ltb_spec (write_position e + max_size_list args) word_size); [exact Hs|lia].
Qed.

Definition table_bytes (key : TableKey) : list Z :=
  encode_list [ArgInstr instr_SelectTable; ArgSize 0; ArgTableKey (key mod 2 ^ 32)].
Definition list_bytes (col : ColKey) (key : ObjKey) : list Z :=
  encode_list [ArgInstr instr_SelectList; ArgColKey (cast int64_t col);
               ArgObjKey (cast int64_t key)].

Lemma valid_size_0 : valid_size 0.
Proof. by vm_compute. Qed.

Lemma key_mod key : valid_table key -> key mod 2 ^ 32 = key.
Proof. intros Hk. apply Z.mod_small. by apply (in_range_unsigned uint32_t). Qed.

Lemma table_spec key e :
  valid_table key -> encoder_ok e -> write_position e + max_instr_bytes < word_size ->
  exists e', encoder_select_table key e = Ok e' /\ encoder_ok e' /\
             written e' = written e ++ table_bytes key.
Proof.
  intros Hk Hok Hw. unfold table_bytes. rewrite (key_mod key Hk).
  apply sample_append; [|done..]. repeat (apply Forall_cons; split; [first [exact I | exact Hk | exact valid_size_0]|]).
  by apply Forall_nil.
Qed.

Lemma list_spec col key e :
  valid_key col -> valid_key key -> encoder_ok e ->
  write_position e + max_instr_bytes < word_size ->
  exists e', encoder_select_list col key e = Ok e' /\ encoder_ok e' /\
             written e' = written e ++ list_bytes col key.
Proof.
  intros Hc Hk Hok Hw. unfold list_bytes. rewrite !cast_in_range by done. apply sample_append; [|done..].
  repeat (apply Forall_cons; split; [done|]). by apply Forall_nil.
Qed.

Lemma table_read St `{StreamSpec St} key (p : parser St) rest :
  valid_table key -> remaining p = table_bytes key ++ rest ->
  exists p', read_instruction p = Ok (SelectTable key, p') /\ remaining p' = rest.
Proof.
  intros Hk Hp. unfold table_bytes in Hp.
  rewrite (key_mod key Hk) in Hp.
  unfold encode_list in Hp. cbn [foldr] in Hp. rewrite app_nil_r, <- !app_assoc in Hp.
  unfold read_instruction. destruct (read_instruction_code p _ _ Hp) as (p1 & -> & Hp1).
  cbn - [Instruction_of Instruction_value]. rewrite Instruction_of_value. cbn.
  destruct (read_encoded size_t int_t p1 0 _ wf_size_t wf_int_t ltac:(by vm_compute)
    ltac:(by vm_compute) ltac:(by vm_compute) Hp1) as (p2 & -> & Hp2). cbn.
  destruct (read_table p2 _ _ Hp2 Hk) as (p3 & -> & Hp3). cbn. eauto.
Qed.

Lemma list_read St `{StreamSpec St} col key (p : parser St) rest :
  valid_key col -> valid_key key -> remaining p = list_bytes col key ++ rest ->
  exists p', read_instruction p = Ok (SelectList col key, p') /\ remaining p' = rest.
Proof.
  intros Hc Hk Hp. unfold list_bytes in Hp. rewrite !cast_in_range in Hp by done.
  unfold encode_list in Hp. cbn [foldr] in Hp. rewrite app_nil_r, <- !app_assoc in Hp.
  unfold read_instruction. destruct (read_instruction_code p _ _ Hp) as (p1 & -> & Hp1).
  cbn - [Instruction_of Instruction_value]. rewrite Instruction_of_value. cbn.
  destruct (read_key p1 _ _ Hp1 Hc) as (p2 & -> & Hp2). cbn.
  destruct (read_key p2 _ _ Hp2 Hk) as (p3 & -> & Hp3). cbn. eauto.
Qed.

Lemma table_length key : 1 <= Z.of_nat (length (table_bytes key)) <= max_instr_bytes.
Proof.
  assert (valid_table (key mod 2 ^ 32)) as Hk
    by (apply (in_range_unsigned uint32_t); [done|by apply Z.mod_pos_bound]).
  pose proof (length_encode_arg (ArgTableKey (key mod 2 ^ 32)) Hk) as Hl.
  unfold table_bytes, encode_list. cbn [foldr]. rewrite !length_app.
  change (length (encode (ArgInstr instr_SelectTable))) with 1%nat.
  change (length (encode (ArgSize 0))) with 1%nat.
  cbn [max_size] in *. unfold max_enc_bytes_per_int, max_instr_bytes in *. cbn [length]. lia.
Qed.

Lemma list_length col key : 1 <= Z.of_nat (length (list_bytes col key)) <= max_instr_bytes.
Proof.
  pose proof (length_encode_arg (ArgColKey (cast int64_t col)) (cast_range int64_t col ltac:(done))).
  pose proof (length_encode_arg (ArgObjKey (cast int64_t key)) (cast_range int64_t key ltac:(done))).
  unfold list_bytes, encode_list. cbn [foldr]. rewrite !length_app.
  change (length (encode (ArgInstr instr_SelectList))) with 1%nat.
  cbn [max_size] in *. unfold max_enc_bytes_per_int, max_instr_bytes in *. cbn [length]. lia.
Qed.

#[export] Instance sample_spec : SelectEncodingSpec := {|
  select_table_bytes := table_bytes;
  select_list_bytes := list_bytes;
  encoder_select_table_spec := table_spec;
  encoder_select_list_spec := list_spec;
  select_table_read := @table_read;
  select_list_read := @list_read;
  select_table_length := table_length;
  select_list_length := list_length
|}.
End SampleSelect.

(** A handler that records the instructions it receives. *)
Record recorder := Recorder { recorded : list log_instr }.

#[export] Instance recorder_handler : InstructionHandler recorder :=
  fun i h => Ok (Recorder (recorded h ++ [i]), true).

Lemma recorder_log log h :
  fold_result dispatch h log = Ok (Recorder (recorded h ++ log)).
Proof.
  revert h. induction log as [|i log IH]; intros h; simpl.
  - rewrite app_nil_r. by destruct h.
  - rewrite IH. simpl. by rewrite <- app_assoc.
Qed.

(** C35: a log of valid instructions, encoded one after the other into an empty buffer and
    parsed back from any lawful stream that delivers the bytes written, however it cuts them
    in blocks, makes the parser call the handler with exactly the instructions of the log, in
    order, up to the first call that throws or returns [false]. *)
Theorem parse_encoded_log `{SelectEncodingSpec} (log : list log_instr) :
  Forall valid_instr log -> max_instr_bytes * (1 + Z.of_nat (length log)) <= word_size ->
  exists e, fold_result (fun e i => encode_instr i e) empty_encoder log = Ok e /\
    forall (St Hd : Type) (I1 : NoCopyInputStream St) (I2 : StreamSpec St)
           (I3 : InstructionHandler Hd) (s : St) (h : Hd),
      concat (stream_blocks s) = written e -> parse s h = fold_result dispatch h log.
Proof.
  intros Hv Hl. destruct (encode_log_spec log empty_encoder Hv) as (e & E & Hok & Hw);
    [done|by simpl|].
  exists e. split; [done|]. intros St Hd I1 I2 I3 s h Hs. apply parse_log_bytes; [done|].
  by rewrite Hs, Hw.
Qed.

Definition sample_log : list log_instr :=
  [InsertGroupLevelTable 7; SelectTable 7; InsertColumn 3; CreateObject 5; ModifyObject 3 5;
   SelectList 3 5; ListInsert 0; ListMove 0 300; ListErase 300; ClearTable 1; RenameColumn (-2)].

Import SampleSelect.

Lemma parse_encoded_log_witness :
  exists e, fold_result (fun e i => encode_instr i e) empty_encoder sample_log = Ok e /\
    parse (MultiLog_make [[]; written e; []]) (Recorder []) = Ok (Recorder sample_log).
Proof.
  destruct (parse_encoded_log sample_log) as (e & He & Hp);
    [apply (bool_decide_unpack _); vm_compute; exact I|by vm_compute|].
  exists e. split; [exact He|].
  rewrite (Hp _ _ _ _ _ (MultiLog_make [[]; written e; []]) (Recorder [])).
  - by rewrite recorder_log.
  - etrans; [exact (concat_skip_empty [[]; written e; []])|]. simpl. by rewrite app_nil_r.
Defined.

(** What the parser does with any bytes, corrupt ones included, depends on the bytes
    only and not on how the streams cut them in blocks, and the bound on the number of
    instructions it handles is never reached: parsing terminates with the handler's final
    state or with a definite error. *)
Theorem parse_same_bytes {S1 S2 Hd : Type} `{StreamSpec S1} `{StreamSpec S2}
    `{!InstructionHandler Hd} (s1 : S1) (s2 : S2) (fuel : nat) (h : Hd) :
  concat (stream_blocks s1) = concat (stream_blocks s2) ->
  (length (concat (stream_blocks s1)) <= fuel)%nat ->
  parse s1 h = parse s2 h /\ parse s1 h = parse_loop fuel (Parser s1 []) h.
Proof.
  intros Hs Hf. unfold parse.
  split; apply parse_loop_same; unfold remaining; simpl; rewrite ?Hs; (done || lia || (rewrite <- Hs; lia)).
Qed.

Lemma parse_same_bytes_witness :
  parse (MultiLog_make [[11]; [200; 1]]) (Recorder []) =
    parse {| sn_data := [11; 200; 1] |} (Recorder []) /\
  parse (MultiLog_make [[11]; [200; 1]]) (Recorder []) =
    parse_loop 100 (Parser (MultiLog_make [[11]; [200; 1]]) []) (Recorder []).
Proof. apply parse_same_bytes; [by vm_compute|vm_compute; lia]. Defined.

(** An instruction is appended to the bytes already written without ever storing a byte
    outside the reserved space; the only failure is [BufferSizeOverflow], exactly when the
    reserved size is not representable in a [size_t]. *)
Theorem append_simple_instr_bounds (args : list enc_arg) (e : encoder) :
  encoder_ok e -> Forall valid_arg args -> max_size_list args < word_size ->
  if write_position e + max_size_list args <? word_size
  then exists e', append_simple_instr args e = Ok e' /\ encoder_ok e' /\
                  written e' = written e ++ encode_list args
  else append_simple_instr args e = Err BufferSizeOverflow.
Proof. apply append_simple_instr_spec. Qed.

Lemma append_simple_instr_bounds_witness :
  exists e', append_simple_instr [ArgInstr instr_ListMove; ArgSize 1; ArgSize npos] empty_encoder = Ok e' /\
             encoder_ok e' /\ written e' = written empty_encoder ++
               encode_list [ArgInstr instr_ListMove; ArgSize 1; ArgSize npos].
Proof.
  refine (append_simple_instr_bounds [ArgInstr instr_ListMove; ArgSize 1; ArgSize npos]
    empty_encoder _ _ _); [by vm_compute|..|by vm_compute].
  repeat (apply Forall_cons; split; [by vm_compute|]). by apply Forall_nil.
Defined.
