(* ===== verification/Reverser.v ===== *)
(** [TransactReverser] and [ReversedNoCopyInputStream] of [realm/impl/transact_log.hpp]:
    the handler that builds the log which undoes the log it is fed with, and the stream
    that delivers the reversed log, last instruction first.

    The reverser writes the inverse instructions forward into one buffer and remembers
    where each of them starts and ends; a selection is kept pending until the operations
    it selects for are over, so that in the reversed order it comes before them. *)

From S2P Require Import Prelude SafeInt Varint Keys TransactLog.

(** The span of an instruction in the buffer. *)
Record Instr : Set := MkInstr { instr_begin : Z; instr_end : Z }.

Record TransactReverser := Reverser {
  m_encoder : encoder;              (** [m_encoder], over [m_buffer] *)
  m_instructions : list Instr;
  current_instr_start : Z;
  m_pending_ts_instr : Instr;
  m_pending_ls_instr : Instr
}.

Definition empty_reverser : TransactReverser :=
  Reverser empty_encoder [] 0 (MkInstr 0 0) (MkInstr 0 0).

Definition transact_log_size (r : TransactReverser) : Z := write_position (m_encoder r).

Definition get_inst (r : TransactReverser) : Instr * TransactReverser :=
  (MkInstr (current_instr_start r) (transact_log_size r),
   Reverser (m_encoder r) (m_instructions r) (transact_log_size r)
     (m_pending_ts_instr r) (m_pending_ls_instr r)).

Definition append_instruction_at (i : Instr) (r : TransactReverser) : TransactReverser :=
  Reverser (m_encoder r) (m_instructions r ++ [i]) (current_instr_start r)
    (m_pending_ts_instr r) (m_pending_ls_instr r).

Definition append_instruction (r : TransactReverser) : TransactReverser :=
  let '(i, r) := get_inst r in append_instruction_at i r.

(** [sync_list] and [sync_table]: [sync_select] on the pending selections. *)
Definition sync_list (r : TransactReverser) : TransactReverser :=
  let pending := m_pending_ls_instr r in
  if negb (instr_begin pending =? instr_end pending) then
    let r := append_instruction_at pending r in
    Reverser (m_encoder r) (m_instructions r) (current_instr_start r)
      (m_pending_ts_instr r) (MkInstr 0 0)
  else r.

Definition sync_table (r : TransactReverser) : TransactReverser :=
  let r := sync_list r in
  let pending := m_pending_ts_instr r in
  if negb (instr_begin pending =? instr_end pending) then
    let r := append_instruction_at pending r in
    Reverser (m_encoder r) (m_instructions r) (current_instr_start r)
      (MkInstr 0 0) (m_pending_ls_instr r)
  else r.

Definition set_encoder (r : TransactReverser) (e : encoder) : TransactReverser :=
  Reverser e (m_instructions r) (current_instr_start r)
    (m_pending_ts_instr r) (m_pending_ls_instr r).

Section reverser.
Context `{SelectEncoding}.

(** [m_encoder.f(...)]. *)
Definition on_encoder (f : encoder -> result encoder) (r : TransactReverser)
  : result TransactReverser :=
  e ← f (m_encoder r); Ok (set_encoder r e).

Definition encode_and_append (f : encoder -> result encoder) (r : TransactReverser)
  : result TransactReverser :=
  r ← on_encoder f r; Ok (append_instruction r).

(** [while (old_size--)] of [clear_table]. *)
Fixpoint clear_table_loop (old_size : nat) (r : TransactReverser) : result TransactReverser :=
  match old_size with
  | O => Ok r
  | S old_size =>
      r ← encode_and_append (TransactLogEncoder.create_object null_key) r;
      clear_table_loop old_size r
  end.

(** [for (size_t i = old_list_size; i > 0; --i)] of [list_clear]. *)
Fixpoint list_clear_loop (i : nat) (r : TransactReverser) : result TransactReverser :=
  match i with
  | O => Ok r
  | S i =>
      r ← encode_and_append (TransactLogEncoder.list_insert (Z.of_nat i)) r;
      list_clear_loop i r
  end.

(** The handler methods, one per instruction. *)
Definition reverse_instr (i : log_instr) (r : TransactReverser) : result TransactReverser :=
  match i with
  | SelectTable key =>
      r ← on_encoder (encoder_select_table key) (sync_table r);
      let '(inst, r) := get_inst r in
      Ok (Reverser (m_encoder r) (m_instructions r) (current_instr_start r)
            inst (m_pending_ls_instr r))
  | InsertGroupLevelTable table_key =>
      encode_and_append (TransactLogEncoder.erase_group_level_table table_key) (sync_table r)
  | EraseGroupLevelTable table_key =>
      encode_and_append (TransactLogEncoder.insert_group_level_table table_key) (sync_table r)
  | RenameGroupLevelTable _ => Ok (sync_table r)
  | CreateObject key => encode_and_append (TransactLogEncoder.remove_object key) r
  | RemoveObject key => encode_and_append (TransactLogEncoder.create_object key) r
  | ModifyObject col_key key =>
      encode_and_append (TransactLogEncoder.modify_object col_key key) r
  | ListSet ndx => encode_and_append (TransactLogEncoder.list_set ndx) r
  | ListInsert ndx => encode_and_append (TransactLogEncoder.list_erase ndx) r
  | ClearTable old_size => clear_table_loop (Z.to_nat old_size) r
  | SetLinkType key => on_encoder (TransactLogEncoder.set_link_type key) r
  | InsertColumn col_key => encode_and_append (TransactLogEncoder.erase_column col_key) r
  | EraseColumn col_key => encode_and_append (TransactLogEncoder.insert_column col_key) r
  | RenameColumn col_key => on_encoder (TransactLogEncoder.rename_column col_key) r
  | SelectList col_key key =>
      r ← on_encoder (encoder_select_list col_key key) (sync_list r);
      let '(inst, r) := get_inst r in
      Ok (Reverser (m_encoder r) (m_instructions r) (current_instr_start r)
            (m_pending_ts_instr r) inst)
  | ListMove from_link_ndx to_link_ndx =>
      encode_and_append (TransactLogEncoder.list_move from_link_ndx to_link_ndx) r
  | ListSwap link1_ndx link2_ndx =>
      encode_and_append (TransactLogEncoder.list_swap link1_ndx link2_ndx) r
  | ListErase list_ndx => encode_and_append (TransactLogEncoder.list_insert list_ndx) r
  | ListClear old_list_size => list_clear_loop (Z.to_nat old_list_size) r
  end.

#[export] Instance reverser_handler : InstructionHandler TransactReverser :=
  fun i r => r ← reverse_instr i r; Ok (r, true).
End reverser.

(** ** The reversed stream *)

(** [m_buffer], [m_instr_order] and [m_current]. *)
Record ReversedNoCopyInputStream := ReversedStream {
  rs_buffer : list Z;
  rs_order : list Instr;
  rs_current : nat
}.

(** The constructor pushes any pending selection into the order first. *)
Definition ReversedNoCopyInputStream_make (r : TransactReverser) : ReversedNoCopyInputStream :=
  let r := sync_table r in
  ReversedStream (written (m_encoder r)) (m_instructions r) (length (m_instructions r)).

(** The bytes from [m_buffer + begin] to [m_buffer + end]. *)
Definition span (buffer : list Z) (i : Instr) : list Z :=
  take (Z.to_nat (instr_end i) - Z.to_nat (instr_begin i)) (drop (Z.to_nat (instr_begin i)) buffer).

(** [return (end > begin)]: an instruction without bytes ends the stream. *)
#[export] Instance Reversed_next_block : NoCopyInputStream ReversedNoCopyInputStream := fun s =>
  match rs_current s with
  | O => (None, s)
  | S current =>
      let s := ReversedStream (rs_buffer s) (rs_order s) current in
      match rs_order s !! current with
      | Some i =>
          match span (rs_buffer s) i with
          | [] => (None, s)
          | b => (Some b, s)
          end
      | None => (None, s)
      end
  end.

(** ** Specification: what the reversed log should be *)

(** What is selected when an instruction is handled: a table and, in it, a list. *)
Definition context : Type := option TableKey * option (ColKey * ObjKey).

Inductive instr_kind := KSelect | KGroup | KTable | KList.

#[export] Instance instr_kind_eq_dec : EqDecision instr_kind.
Proof. solve_decision. Defined.

Definition kind (i : log_instr) : instr_kind :=
  match i with
  | SelectTable _ | SelectList _ _ => KSelect
  | InsertGroupLevelTable _ | EraseGroupLevelTable _ | RenameGroupLevelTable _ => KGroup
  | CreateObject _ | RemoveObject _ | ModifyObject _ _ | ClearTable _ | InsertColumn _
  | EraseColumn _ | RenameColumn _ | SetLinkType _ => KTable
  | _ => KList
  end.

(** The part of the selection an instruction acts on. *)
Definition target (c : context) (i : log_instr) : context :=
  match kind i with KTable => (fst c, None) | KList => c | _ => (None, None) end.

(** The selection after an instruction: a change to the set of tables leaves none. *)
Definition select (c : context) (i : log_instr) : context :=
  match i with
  | SelectTable key => (Some key, None)
  | SelectList col key => (fst c, Some (col, key))
  | _ => match kind i with KGroup => (None, None) | _ => c end
  end.

(** The operations of a log, each with what it acts on; selections themselves dropped. *)
Fixpoint operations (c : context) (log : list log_instr) : list (context * log_instr) :=
  match log with
  | [] => []
  | i :: log =>
      match kind i with KSelect => [] | _ => [(target c i, i)] end ++ operations (select c i) log
  end.

(** The operations that undo one operation, in the order opposite to their use.  Values and names
    are not in the log: a modification is undone by another, of the same property or element, a
    clearing by as many creations; there is nothing for the renamings, or for a change of a link
    type. *)
Definition inverse (i : log_instr) : list log_instr :=
  match i with
  | SelectTable _ | SelectList _ _ | RenameGroupLevelTable _ | SetLinkType _ | RenameColumn _ => []
  | InsertGroupLevelTable k => [EraseGroupLevelTable k]
  | EraseGroupLevelTable k => [InsertGroupLevelTable k]
  | CreateObject k => [RemoveObject k]
  | RemoveObject k => [CreateObject k]
  | ModifyObject c k => [ModifyObject c k]
  | ClearTable n => replicate (Z.to_nat n) (CreateObject null_key)
  | InsertColumn c => [EraseColumn c]
  | EraseColumn c => [InsertColumn c]
  | ListSet n => [ListSet n]
  | ListInsert n => [ListErase n]
  | ListMove a b => [ListMove b a]
  | ListSwap a b => [ListSwap a b]
  | ListErase n => [ListInsert n]
  | ListClear n => ListInsert <$> rev (Z.of_nat <$> seq 0 (Z.to_nat n))
  end.

Definition inverse_operations (ops : list (context * log_instr)) : list (context * log_instr) :=
  ops ≫= (fun '(c, i) => (fun j => (c, j)) <$> inverse i).

(** The operations that are undone: no renaming, no change of a link type, which the reverser does
    not end (see [reversed_rename_column_misplaced]), and no move of a list element, which it does again (see [reversed_list_move_not_undone]). *)
Definition undoable (i : log_instr) : bool :=
  match i with
  | RenameGroupLevelTable _ | SetLinkType _ | RenameColumn _ | ListMove _ _ => false
  | _ => true
  end.

(** An operation is one of those, and has what it acts on selected. *)
Definition admissible (c : context) (i : log_instr) : bool :=
  undoable i &&
  match i with
  | SelectList _ _ => bool_decide (is_Some (fst c))
  | _ =>
      match kind i with
      | KTable => bool_decide (is_Some (fst c))
      | KList => bool_decide (is_Some (fst c)) && bool_decide (is_Some (snd c))
      | _ => true
      end
  end.

Fixpoint reversible (c : context) (log : list log_instr) : bool :=
  match log with
  | [] => true
  | i :: log => admissible c i && reversible (select c i) log
  end.

(** ** The reversed stream keeps the contract of a stream *)

Fixpoint reversed_blocks (buffer : list Z) (order : list Instr) (current : nat)
  : list (list Z) :=
  match current with
  | O => []
  | S current =>
      match order !! current with
      | Some i =>
          match span buffer i with [] => [] | b => b :: reversed_blocks buffer order current end
      | None => []
      end
  end.

#[export] Program Instance Reversed_spec : StreamSpec ReversedNoCopyInputStream := {|
  stream_blocks s := reversed_blocks (rs_buffer s) (rs_order s) (rs_current s)
|}.
Next Obligation.
  intros [buffer order current]. simpl. induction current as [|n IH]; simpl; [done|].
  destruct (order !! n); [|done]. destruct (span buffer _) eqn:E; [done|]. by constructor.
Qed.
Next Obligation.
  intros [buffer order [|n]]; cbn; [done|]. destruct (order !! n); [|done].
  by destruct (span buffer _).
Qed.

Lemma reversed_blocks_spec {A} buffer (bytes : A -> list Z) order (l : list A) n :
  Forall2 (fun i a => span buffer i = bytes a /\ bytes a <> []) order l ->
  (n <= length l)%nat ->
  reversed_blocks buffer order n = bytes <$> rev (take n l).
Proof.
  intros Hl. induction n as [|n IH]; intros Hn; [done|]. simpl.
  destruct (lookup_lt_is_Some_2 l n ltac:(lia)) as [a Ha].
  destruct (Forall2_lookup_r _ _ _ _ _ Hl Ha) as (i & Hi & Hs & Hne). rewrite Hi, Hs.
  rewrite (take_S_r _ _ _ Ha), rev_app_distr. cbn [rev app]. rewrite fmap_cons, <- IH by lia.
  by destruct (bytes a).
Qed.

(** ** What the reverser holds *)

Section reverser_spec.
Context `{SelectEncodingSpec}.

(** The bytes of [i] are at [sp] in [buffer]. *)
Definition holds (buffer : list Z) (sp : Instr) (i : log_instr) : Prop :=
  0 <= instr_begin sp /\ instr_end sp <= Z.of_nat (length buffer) /\
  span buffer sp = instr_bytes i.

Definition holds_pending (buffer : list Z) (sp : Instr) (i : option log_instr) : Prop :=
  match i with
  | Some i => instr_begin sp < instr_end sp /\ valid_instr i /\ holds buffer sp i
  | None => instr_begin sp = instr_end sp
  end.

Definition pending_table (c : context) : option log_instr := SelectTable <$> fst c.
Definition pending_list (c : context) : option log_instr :=
  (fun '(col, key) => SelectList col key) <$> snd c.

(** The reverser stands for the instructions [out] and the pending selections of [c]. *)
Record reverser_holds (r : TransactReverser) (c : context) (out : list log_instr) : Prop := {
  rh_encoder : encoder_ok (m_encoder r);
  rh_start : current_instr_start r = write_position (m_encoder r);
  rh_out : Forall2 (holds (written (m_encoder r))) (m_instructions r) out;
  rh_valid : Forall valid_instr out;
  rh_table : holds_pending (written (m_encoder r)) (m_pending_ts_instr r) (pending_table c);
  rh_list : holds_pending (written (m_encoder r)) (m_pending_ls_instr r) (pending_list c)
}.

Lemma holds_app buffer more sp i : holds buffer sp i -> holds (buffer ++ more) sp i.
Proof.
  intros (Hb & He & Hs). unfold holds. rewrite length_app. split_and!; [done|lia|].
  rewrite <- Hs. unfold span. destruct (decide (Z.to_nat (instr_begin sp) <= length buffer)%nat).
  - rewrite drop_app_le by done. apply take_app_le. rewrite length_drop. lia.
  - replace (Z.to_nat (instr_end sp) - Z.to_nat (instr_begin sp))%nat with 0%nat by lia. done.
Qed.

Lemma holds_pending_app buffer more sp i :
  holds_pending buffer sp i -> holds_pending (buffer ++ more) sp i.
Proof. destruct i; simpl; [|done]. intros (?&?&?). split_and!; auto using holds_app. Qed.

Lemma holds_end buffer i :
  holds (buffer ++ instr_bytes i)
    (MkInstr (Z.of_nat (length buffer)) (Z.of_nat (length (buffer ++ instr_bytes i)))) i.
Proof.
  unfold holds, span. simpl. split_and!; [lia|lia|]. rewrite length_app.
  rewrite drop_app_length' by lia. apply take_ge. lia.
Qed.

(** The span of what an encoder wrote last. *)
Lemma holds_pending_end r e i start :
  valid_instr i -> start = write_position (m_encoder r) ->
  written e = written (m_encoder r) ++ instr_bytes i ->
  holds_pending (written e) (MkInstr start (write_position e)) (Some i).
Proof.
  intros Hv -> Hb. unfold write_position. rewrite Hb. split_and!; [|done|apply holds_end].
  simpl. rewrite length_app. pose proof (length_instr_bytes i Hv). lia.
Qed.

Lemma empty_reverser_holds : reverser_holds empty_reverser (None, None) [].
Proof. by split; try apply Forall2_nil. Qed.

(** Writing one instruction: its span is what [get_inst] then returns. *)
Lemma write_spec i r c out :
  reverser_holds r c out -> valid_instr i ->
  write_position (m_encoder r) + max_instr_bytes < word_size ->
  exists e, encode_instr i (m_encoder r) = Ok e /\ encoder_ok e /\
    written e = written (m_encoder r) ++ instr_bytes i /\
    write_position (m_encoder r) < write_position e <=
      write_position (m_encoder r) + max_instr_bytes.
Proof.
  intros R Hi Hw. destruct (encode_instr_spec i _ Hi (rh_encoder _ _ _ R) Hw) as (e & He & Hok & Hb).
  exists e. split_and!; [done|done|done|..]; pose proof (length_instr_bytes i Hi);
    unfold write_position; rewrite Hb, length_app; lia.
Qed.

Lemma append_spec i r c out :
  reverser_holds r c out -> valid_instr i ->
  write_position (m_encoder r) + max_instr_bytes < word_size ->
  exists r', encode_and_append (encode_instr i) r = Ok r' /\
    reverser_holds r' c (out ++ [i]) /\
    write_position (m_encoder r') <= write_position (m_encoder r) + max_instr_bytes.
Proof.
  intros R Hi Hw. destruct (write_spec i r c out R Hi Hw) as (e & He & Hok & Hb & Hl).
  unfold encode_and_append, on_encoder. rewrite He. simpl. eexists; split; [done|].
  destruct R. split; [|by simpl; lia]. split; simpl; try done; rewrite ?Hb.
  - apply Forall2_app.
    + eapply Forall2_impl; [done|]. intros; by apply holds_app.
    + apply Forall2_cons; split; [|by apply Forall2_nil]. rewrite <- Hb.
      by eapply holds_pending_end.
  - apply Forall_app; auto.
  - by apply holds_pending_app.
  - by apply holds_pending_app.
Qed.

(** Append the instructions [js] one after the other. *)
Definition append_all (js : list log_instr) (r : TransactReverser) : result TransactReverser :=
  fold_result (fun r j => encode_and_append (encode_instr j) r) r js.

Lemma append_all_spec js r c out :
  reverser_holds r c out -> Forall valid_instr js ->
  write_position (m_encoder r) + max_instr_bytes * Z.of_nat (length js) < word_size ->
  exists r', append_all js r = Ok r' /\ reverser_holds r' c (out ++ js) /\
    write_position (m_encoder r') <=
      write_position (m_encoder r) + max_instr_bytes * Z.of_nat (length js).
Proof.
  intros R Hv. revert r out R. induction Hv as [|j js Hj Hv IH]; intros r out R Hw.
  - exists r. rewrite app_nil_r. split_and!; [done|done|cbn; lia].
  - cbn [length] in *. rewrite Nat2Z.inj_succ in *. unfold max_instr_bytes in *.
    destruct (append_spec j r c out R Hj) as (r1 & E1 & R1 & W1); [unfold max_instr_bytes; lia|].
    unfold max_instr_bytes in *.
    destruct (IH r1 _ R1) as (r2 & E2 & R2 & W2); [lia|].
    exists r2. unfold append_all. cbn [fold_result]. rewrite E1. cbn.
    rewrite <- app_assoc in R2. split_and!; [done|done|lia].
Qed.

Definition option_list (i : option log_instr) : list log_instr :=
  match i with Some i => [i] | None => [] end.

Lemma sync_list_spec r c out :
  reverser_holds r c out ->
  reverser_holds (sync_list r) (fst c, None) (out ++ option_list (pending_list c)) /\
  m_encoder (sync_list r) = m_encoder r.
Proof.
  intros []. unfold sync_list. destruct (pending_list c) as [i|] eqn:E; simpl in *.
  - destruct rh_list0 as (Hlt & Hv & Hh).
    destruct (Z.eqb_spec (instr_begin (m_pending_ls_instr r)) (instr_end (m_pending_ls_instr r))); [lia|].
    simpl. split; [|done]. split; simpl; try done.
    + apply Forall2_app; [done|]. by apply Forall2_cons.
    + apply Forall_app; auto.
  - rewrite rh_list0, Z.eqb_refl. simpl. rewrite app_nil_r. split; [|done]. by split.
Qed.

Lemma sync_table_spec r c out :
  reverser_holds r c out ->
  reverser_holds (sync_table r) (None, None)
    (out ++ option_list (pending_list c) ++ option_list (pending_table c)) /\
  m_encoder (sync_table r) = m_encoder r.
Proof.
  intros R. destruct (sync_list_spec r c out R) as [R1 E1]. unfold sync_table.
  rewrite app_assoc. destruct R1. rewrite <- E1.
  destruct (pending_table c) as [i|] eqn:E; unfold pending_table in E, rh_table0; simpl in *;
    rewrite E in rh_table0.
  - destruct rh_table0 as (Hlt & Hv & Hh). case_Z_compare; [lia|]. simpl. split; [|done].
    split; simpl; try done.
    + apply Forall2_app; [done|]. by apply Forall2_cons.
    + apply Forall_app; auto.
  - rewrite rh_table0, Z.eqb_refl. simpl. rewrite app_nil_r. split; [|done]. by split.
Qed.
End reverser_spec.

(** ** The operations of the reversed log *)

(** [c'] selects at least what [c] selects. *)
Definition selects (c c' : context) : Prop :=
  (is_Some (fst c) -> fst c' = fst c) /\ (is_Some (snd c) -> snd c' = snd c).

(** Run backwards, [out] performs [ops] from every selection that includes [c]. *)
Definition undoes (c : context) (out : list log_instr) (ops : list (context * log_instr)) : Prop :=
  forall c', selects c c' -> operations c' (rev out) = rev ops.

Lemma undoes_weaken c1 c2 out ops :
  undoes c1 out ops -> (forall c', selects c2 c' -> selects c1 c') -> undoes c2 out ops.
Proof. intros Hu Hs c' Hc. by apply Hu, Hs. Qed.

Lemma undoes_sync_list c out ops :
  undoes c out ops -> undoes (fst c, None) (out ++ option_list (pending_list c)) ops.
Proof.
  intros Hu c' Hc. destruct c as [t [[col key]|]]; simpl in *.
  - rewrite rev_app_distr. simpl. apply Hu. destruct Hc as [Hc _].
    split; simpl in *; [|done]. intros; by rewrite Hc.
  - rewrite app_nil_r. by apply Hu.
Qed.

Lemma undoes_sync_table c out ops :
  undoes c out ops ->
  undoes (None, None) (out ++ option_list (pending_list c) ++ option_list (pending_table c)) ops.
Proof.
  intros Hu c' Hc. rewrite app_assoc, rev_app_distr.
  apply undoes_sync_list in Hu. destruct c as [[t|] l]; simpl in *.
  - apply Hu. by split; simpl.
  - apply Hu. split; simpl; by intros [? ?].
Qed.

(** An operation and its inverses act on the same target. *)
Lemma kind_inverse i : Forall (fun j => kind j = kind i) (inverse i).
Proof.
  destruct i; simpl; repeat (apply Forall_cons; split; [done|]); try apply Forall_nil; try done.
  - by apply Forall_replicate.
  - apply Forall_fmap. by apply Forall_true.
Qed.

Lemma valid_inverse i : valid_instr i -> Forall valid_instr (inverse i).
Proof.
  intros Hv. destruct i; simpl in *; try (by apply Forall_singleton); try apply Forall_nil; try done.
  - apply Forall_replicate. by vm_compute.
  - destruct Hv as (Ha & Hb & Hab). apply Forall_singleton. split_and!; congruence.
  - apply Forall_fmap, Forall_rev, Forall_fmap, Forall_seq. intros n Hn.
    apply in_range_size_t in Hv. simpl. apply in_range_size_t. lia.
Qed.

Lemma operations_same_kind c i js rest :
  kind i = KTable \/ kind i = KList -> Forall (fun j => kind j = kind i) js ->
  operations c (js ++ rest) = (pair (target c i) <$> js) ++ operations c rest.
Proof.
  intros Hi. induction 1 as [|j js Hj _ IH]; [done|]. rewrite fmap_cons. simpl. rewrite <- IH.
  assert (select c j = c) as -> by (destruct j; simpl in *; destruct Hi; congruence).
  unfold target. rewrite Hj. destruct Hi as [-> | ->]; done.
Qed.

Lemma undoes_operation c i out ops :
  kind i = KTable \/ kind i = KList ->
  (forall c', selects c c' -> target c' i = target c i) ->
  undoes c out ops ->
  undoes c (out ++ inverse i) (ops ++ (pair (target c i) <$> inverse i)).
Proof.
  intros Hi Ht Hu c' Hc. rewrite !rev_app_distr, operations_same_kind with (i := i).
  - rewrite Hu, Ht by done. f_equal. apply (map_rev (pair (target c i))).
  - done.
  - apply Forall_rev, kind_inverse.
Qed.

Lemma admissible_target c c' i :
  admissible c i = true -> kind i = KTable \/ kind i = KList -> selects c c' ->
  target c' i = target c i.
Proof.
  destruct c as [[t|] [l|]], c' as [t' l']. all: intros Ha Hk [H1 H2]; unfold target; simpl in *.
  all: rewrite ?H1, ?H2 by eauto; destruct Hk as [Hk|Hk]; rewrite Hk; try done.
  all: destruct i; simpl in *; try done.
Qed.

Lemma undoes_group c i out ops :
  kind i = KGroup -> undoes (None, None) out ops ->
  undoes (None, None) (out ++ inverse i) (ops ++ (pair (target c i) <$> inverse i)).
Proof.
  intros Hk Hu c' Hc.
  destruct i; try done; cbn [inverse]; rewrite ?app_nil_r; try (by apply Hu);
    rewrite !rev_app_distr; cbn; f_equal; by apply Hu.
Qed.

(** The operation an instruction is, if it is one. *)
Definition operation (c : context) (i : log_instr) : list (context * log_instr) :=
  match kind i with KSelect => [] | _ => [(target c i, i)] end.

Lemma inverse_operations_app ops1 ops2 :
  inverse_operations (ops1 ++ ops2) = inverse_operations ops1 ++ inverse_operations ops2.
Proof. apply bind_app. Qed.

Lemma inverse_operation c i : inverse_operations (operation c i) = pair (target c i) <$> inverse i.
Proof. destruct i; cbn; rewrite ?app_nil_r; done. Qed.

(** How many instructions the reverser writes for an instruction. *)
Definition written_for (i : log_instr) : nat :=
  match kind i with KSelect => 1 | _ => length (inverse i) end.

Section reverser_run.
Context `{SelectEncodingSpec}.

Lemma append_one j (r : TransactReverser) :
  append_all [j] r = encode_and_append (encode_instr j) r.
Proof. unfold append_all. simpl. by destruct (encode_and_append _ r). Qed.

Lemma clear_table_loop_all n r :
  clear_table_loop n r = append_all (replicate n (CreateObject null_key)) r.
Proof.
  unfold append_all. revert r. induction n as [|n IH]; intros r; [done|].
  cbn [replicate clear_table_loop fold_result encode_instr].
  destruct (encode_and_append _ r); [apply IH|done].
Qed.

Lemma list_clear_loop_all n r :
  list_clear_loop n r = append_all (ListInsert <$> rev (Z.of_nat <$> seq 0 n)) r.
Proof.
  unfold append_all. revert r. induction n as [|n IH]; intros r; [done|].
  rewrite seq_S, fmap_app, rev_app_distr. change (Z.of_nat <$> [(0 + n)%nat]) with [Z.of_nat n].
  cbn [rev app list_clear_loop]. rewrite fmap_cons.
  cbn [fold_result encode_instr]. destruct (encode_and_append _ r); [apply IH|done].
Qed.

(** Every operation is reversed by appending its inverses; a change to the set of tables
    first ends the selections. *)
Lemma reverse_operation c i r :
  admissible c i = true -> kind i <> KSelect ->
  reverse_instr i r =
    append_all (inverse i) match kind i with KGroup => sync_table r | _ => r end.
Proof.
  destruct i; try done; intros _ _; cbn [inverse kind reverse_instr];
    rewrite ?append_one, ?clear_table_loop_all, ?list_clear_loop_all; done.
Qed.

(** A selection is written and becomes pending. *)
Lemma reverse_select c i r out :
  reverser_holds r c out -> valid_instr i -> kind i = KSelect ->
  write_position (m_encoder r) + max_instr_bytes < word_size ->
  exists r', reverse_instr i r = Ok r' /\
    reverser_holds r' (select c i)
      (out ++ option_list (pending_list c) ++
       match i with SelectTable _ => option_list (pending_table c) | _ => [] end) /\
    write_position (m_encoder r') <= write_position (m_encoder r) + max_instr_bytes.
Proof.
  intros R Hv Hk Hw.
  destruct (sync_table_spec r c out R) as [Rt Et], (sync_list_spec r c out R) as [Rl El].
  destruct i; try done; cbn [reverse_instr].
  - rewrite <- Et in *. destruct (write_spec _ _ _ _ Rt Hv Hw) as (e & He & Hok & Hb & Hl).
    unfold on_encoder. cbn [encode_instr] in He. rewrite He. simpl. eexists; split; [done|].
    destruct Rt. split; [|simpl in *; lia]. split; simpl; try done; rewrite ?Hb.
    + eapply Forall2_impl; [done|]. intros; by apply holds_app.
    + rewrite <- Hb. exact (holds_pending_end _ e _ _ Hv rh_start0 Hb).
  - rewrite app_nil_r. rewrite <- El in *.
    destruct (write_spec _ _ _ _ Rl Hv Hw) as (e & He & Hok & Hb & Hl).
    unfold on_encoder. cbn [encode_instr] in He. rewrite He. simpl. eexists; split; [done|].
    destruct Rl. split; [|simpl in *; lia]. split; simpl; try done; rewrite ?Hb.
    + eapply Forall2_impl; [done|]. intros; by apply holds_app.
    + by apply holds_pending_app.
    + rewrite <- Hb. exact (holds_pending_end _ e _ _ Hv rh_start0 Hb).
Qed.

Lemma undoes_select c i out ops :
  kind i = KSelect -> admissible c i = true -> undoes c out ops ->
  undoes (select c i)
    (out ++ option_list (pending_list c) ++
     match i with SelectTable _ => option_list (pending_table c) | _ => [] end) ops.
Proof.
  intros Hk Ha Hu. destruct i; try done; cbn [select].
  - eapply undoes_weaken; [by apply undoes_sync_table|]. intros c' _. by split; intros [? ?].
  - rewrite app_nil_r. eapply undoes_weaken; [by apply undoes_sync_list|].
    intros c' [H1 _]. split; simpl in *; [done|by intros [? ?]].
Qed.

Lemma reverse_step c i r out ops :
  reverser_holds r c out -> undoes c out ops ->
  valid_instr i -> admissible c i = true ->
  write_position (m_encoder r) + max_instr_bytes * Z.of_nat (written_for i) < word_size ->
  exists r' out', reverse_instr i r = Ok r' /\ reverser_holds r' (select c i) out' /\
    undoes (select c i) out' (ops ++ inverse_operations (operation c i)) /\
    write_position (m_encoder r') <=
      write_position (m_encoder r) + max_instr_bytes * Z.of_nat (written_for i).
Proof.
  intros R Hu Hv Ha Hw. destruct (decide (kind i = KSelect)) as [Hk|Hk].
  { unfold written_for in *. rewrite Hk in *.
    destruct (reverse_select c i r out R Hv Hk) as (r' & E & R' & W); [lia|].
    exists r'. eexists. split_and!; [done|done| |lia].
    assert (operation c i = []) as -> by (unfold operation; by rewrite Hk).
    cbn. rewrite app_nil_r. by apply undoes_select. }
  rewrite (reverse_operation c i r Ha Hk), inverse_operation.
  assert (written_for i = length (inverse i)) as Hw' by (unfold written_for; by destruct (kind i)).
  rewrite Hw' in *. pose proof (valid_inverse i Hv) as Hvi.
  destruct (decide (kind i = KGroup)) as [Hg|Hg].
  - rewrite Hg. destruct (sync_table_spec r c out R) as [Rt Et]. rewrite <- Et in *.
    destruct (append_all_spec _ _ _ _ Rt Hvi Hw) as (r' & E & R' & W).
    eexists r', _. split_and!; [done| | |done].
    + by replace (select c i) with (None : option TableKey, None : option (ColKey * ObjKey)) by (by destruct i).
    + replace (select c i) with (None : option TableKey, None : option (ColKey * ObjKey)) by (by destruct i).
      apply undoes_sync_table in Hu. by apply undoes_group.
  - destruct (append_all_spec _ _ _ _ R Hvi Hw) as (r' & E & R' & W).
    assert (kind i = KTable \/ kind i = KList) as Hk' by (destruct (kind i); auto; done).
    assert (select c i = c) as -> by (destruct i; simpl in *; destruct Hk'; done).
    eexists r', _. split_and!; [by destruct Hk' as [-> | ->]|done| |done].
    apply undoes_operation; [done| |done]. intros; by apply admissible_target.
Qed.

Lemma reverse_run log c r out ops :
  reverser_holds r c out -> undoes c out ops ->
  Forall valid_instr log -> reversible c log = true ->
  write_position (m_encoder r) +
    max_instr_bytes * Z.of_nat (sum_list_with written_for log) < word_size ->
  exists r' c' out', fold_result dispatch r log = Ok r' /\ reverser_holds r' c' out' /\
    undoes c' out' (ops ++ inverse_operations (operations c log)).
Proof.
  intros R Hu Hv. revert c r out ops R Hu.
  induction Hv as [|i log Hi Hv IH]; intros c r out ops R Hu Ha Hw.
  - exists r, c, out. cbn. rewrite app_nil_r. done.
  - simpl in Ha. apply andb_prop in Ha as [Ha Hl]. cbn [sum_list_with] in Hw. unfold max_instr_bytes in *.
    destruct (reverse_step c i r out ops R Hu Hi Ha) as (r1 & out1 & E1 & R1 & U1 & W1);
      [unfold max_instr_bytes; lia|]. unfold max_instr_bytes in *.
    destruct (IH _ _ _ _ R1 U1 Hl) as (r2 & c2 & out2 & E2 & R2 & U2); [lia|].
    exists r2, c2, out2. cbn [fold_result].
    assert (dispatch r i = Ok r1) as ->
      by (unfold dispatch, handle, reverser_handler; by rewrite E1).
    split_and!; [done|done|]. cbn [operations]. rewrite inverse_operations_app, app_assoc. done.
Qed.

(** The reversed stream of a finished reverser holds the log in the opposite order. *)
Lemma reversed_stream_bytes r out :
  reverser_holds r (None, None) out ->
  concat (reversed_blocks (written (m_encoder r)) (m_instructions r) (length (m_instructions r)))
    = log_bytes (rev out).
Proof.
  intros []. rewrite (Forall2_length _ _ _ rh_out0).
  rewrite (reversed_blocks_spec (written (m_encoder r)) instr_bytes (m_instructions r) out).
  - by rewrite take_ge by lia.
  - apply (Forall2_impl (fun sp i => holds (written (m_encoder r)) sp i /\ valid_instr i)).
    + apply Forall2_same_length_lookup_2; [by eapply Forall2_length|]. intros n sp i Hsp Hi.
      split; [by eapply Forall2_lookup_lr|by eapply Forall_lookup_1].
    + intros sp i [(_ & _ & Hs) Hv]. split; [done|]. pose proof (length_instr_bytes i Hv).
      intros E. rewrite E in *. simpl in *. lia.
  - lia.
Qed.
End reverser_run.

(** The whole of it; the statement of the property below. *)
Lemma reversal `{SelectEncodingSpec} (log : list log_instr) :
  Forall valid_instr log -> reversible (None, None) log = true ->
  max_instr_bytes * (1 + Z.of_nat (sum_list_with written_for log)) <= word_size ->
  exists r rlog,
    fold_result dispatch empty_reverser log = Ok r /\
    operations (None, None) rlog = rev (inverse_operations (operations (None, None) log)) /\
    forall (Hd : Type) (I : InstructionHandler Hd) (h : Hd),
      parse (ReversedNoCopyInputStream_make r) h = fold_result dispatch h rlog.
Proof.
  intros Hv Hr Hl.
  destruct (reverse_run log (None, None) empty_reverser [] []) as (r & c & out & E & R & U);
    [apply empty_reverser_holds|done|done|done|change (write_position (m_encoder empty_reverser)) with 0; unfold max_instr_bytes in *; lia|].
  destruct (sync_table_spec r c out R) as [R' _].
  eexists r, (rev _). split_and!; [done| |].
  - by apply (undoes_sync_table _ _ _ U).
  - intros Hd I h. apply parse_log_bytes; [apply Forall_rev, R'|].
    exact (reversed_stream_bytes _ _ R').
Qed.

(** ** What undoing does to a list *)

(** What [list_move] does to a list. *)
Definition list_move {A} (from_ndx to_ndx : nat) (l : list A) : list A :=
  match l !! from_ndx with
  | Some a => let l := delete from_ndx l in take to_ndx l ++ a :: drop to_ndx l
  | None => l
  end.

(** What an operation does to a list; an element that comes from outside of it is none. *)
Definition list_effect {A} (i : log_instr) (l : list (option A)) : list (option A) :=
  match i with
  | ListSet n => <[Z.to_nat n := None]> l
  | ListInsert n => take (Z.to_nat n) l ++ None :: drop (Z.to_nat n) l
  | ListMove a b => list_move (Z.to_nat a) (Z.to_nat b) l
  | ListSwap a b =>
      match l !! Z.to_nat a, l !! Z.to_nat b with
      | Some x, Some y => <[Z.to_nat a := y]> (<[Z.to_nat b := x]> l)
      | _, _ => l
      end
  | ListErase n => delete (Z.to_nat n) l
  | ListClear _ => []
  | _ => l
  end.

(** The operation is one on a list of [len] elements. *)
Definition fits (i : log_instr) (len : nat) : Prop :=
  match i with
  | ListSet n | ListErase n => (Z.to_nat n < len)%nat
  | ListInsert n => (Z.to_nat n <= len)%nat
  | ListMove a b | ListSwap a b => (Z.to_nat a < len)%nat /\ (Z.to_nat b < len)%nat
  | ListClear n => Z.to_nat n = len
  | _ => False
  end.

(** The elements that it takes away. *)
Definition taken_away (i : log_instr) (k : nat) : Prop :=
  match i with ListSet n | ListErase n => k = Z.to_nat n | ListClear _ => True | _ => False end.

Lemma delete_inserted {A} n (x : A) l : (n <= length l)%nat -> delete n (take n l ++ x :: drop n l) = l.
Proof.
  intros Hn. rewrite delete_take_drop, take_app_le, take_take, Nat.min_id by (rewrite length_take; lia).
  rewrite drop_app_ge by (rewrite length_take; lia). rewrite length_take, Nat.min_l by done.
  replace (S n - n)%nat with 1%nat by lia. cbn [drop]. rewrite ?drop_0. apply take_drop.
Qed.

Lemma lookup_inserted {A} n (x : A) l k : (n <= length l)%nat ->
  (take n l ++ x :: drop n l) !! k = if decide (k < n)%nat then l !! k else if decide (k = n) then Some x else l !! (k - 1)%nat.
Proof.
  intros Hn. case_decide as Hk.
  - rewrite lookup_app_l by (rewrite length_take; lia). by apply lookup_take_lt.
  - rewrite lookup_app_r, length_take, Nat.min_l by (rewrite ?length_take; lia). case_decide as Hkn.
    + subst. by rewrite Nat.sub_diag.
    + replace (k - n)%nat with (S (k - n - 1)) by lia. rewrite lookup_cons, lookup_drop. f_equal. lia.
Qed.

Lemma list_move_back {A} a b (l : list A) : (a < length l)%nat -> (b < length l)%nat -> list_move b a (list_move a b l) = l.
Proof.
  intros Ha Hb. unfold list_move. destruct (lookup_lt_is_Some_2 l a Ha) as [x Ex]. rewrite Ex. cbn zeta.
  pose proof (length_delete l a ltac:(by eexists)) as Hd. rewrite lookup_inserted by lia. rewrite decide_False, decide_True by lia.
  rewrite delete_inserted by lia. apply list_eq. intros k. rewrite lookup_inserted by lia. case_decide; [by rewrite list_lookup_delete_lt|].
  case_decide; [by subst|]. rewrite list_lookup_delete_ge by lia. f_equal. lia.
Qed.

Lemma insert_all {A} n (l : list (option A)) :
  fold_left (fun l j => list_effect j l) (ListInsert <$> (Z.of_nat <$> seq (length l) n)) l = l ++ replicate n None.
Proof.
  revert l. induction n as [|n IH]; intros l; cbn [seq fmap list_fmap fold_left replicate]; [by rewrite app_nil_r|].
  cbn [list_effect]. rewrite Nat2Z.id, take_ge, drop_ge by lia. specialize (IH (l ++ [None])).
  rewrite length_app, Nat.add_1_r in IH. rewrite IH, <- app_assoc. done.
Qed.

(** The inverses of an operation on a list leave it as long as it was, and every element that the
    operation did not take away at its place. *)
Lemma inverse_restores {A} i (l : list (option A)) :
  fits i (length l) ->
  let l' := fold_left (fun l j => list_effect j l) (rev (inverse i)) (list_effect i l) in
  length l' = length l /\ forall k, ~ taken_away i k -> l' !! k = l !! k.
Proof.
  destruct i; try done; cbn [fits inverse taken_away rev app fold_left list_effect].
  - intros _. rewrite !length_insert. split; [done|]. intros k Hk. by rewrite !list_lookup_insert_ne by congruence.
  - intros Hn. by rewrite delete_inserted.
  - intros [Ha Hb]. by rewrite list_move_back.
  - intros [Ha Hb]. destruct (lookup_lt_is_Some_2 l _ Ha) as [x Ex], (lookup_lt_is_Some_2 l _ Hb) as [y Ey]. rewrite Ex, Ey.
    rewrite list_lookup_insert_eq by (rewrite length_insert; lia).
    assert (<[Z.to_nat ndx1:=y]> (<[Z.to_nat ndx2:=x]> l) !! Z.to_nat ndx2 = Some x) as ->.
    { destruct (decide (Z.to_nat ndx1 = Z.to_nat ndx2)) as [E|E].
      - rewrite E, list_lookup_insert_eq by (rewrite length_insert; lia). congruence.
      - rewrite list_lookup_insert_ne, list_lookup_insert_eq by (done || lia). done. }
    rewrite !length_insert. split; [done|]. intros k _. rewrite !list_lookup_insert, !length_insert.
    repeat case_decide; naive_solver.
  - intros Hn. destruct (lookup_lt_is_Some_2 l _ Hn) as [x Ex]. pose proof (length_delete l (Z.to_nat ndx) ltac:(by eexists)) as Hd.
    split.
    + rewrite length_app, length_take. cbn. rewrite length_drop. lia.
    + intros k Hk. rewrite lookup_inserted by lia. case_decide; [by rewrite list_lookup_delete_lt|]. rewrite decide_False by done.
      rewrite list_lookup_delete_ge by lia. f_equal. lia.
  - intros Hn. pose proof (insert_all (Z.to_nat old_size) (@nil (option A))) as E. cbn [length app] in E.
    assert (rev (ListInsert <$> rev (Z.of_nat <$> seq 0 (Z.to_nat old_size))) = ListInsert <$> (Z.of_nat <$> seq 0 (Z.to_nat old_size))) as ->
      by (rewrite <- (map_rev ListInsert), rev_involutive; done).
    rewrite E. rewrite length_replicate. split; [done|]. intros k []. done.
Qed.

(** ** Properties *)

(** C36: for any valid log in which every operation has its table or list selected, without
    renamings, changes of link types and moves of list elements, the reverser
    succeeds, and parsing the stream it leaves performs exactly the inverses of the operations of
    the log, in the opposite order, each on the table or list the original acted on, whatever the
    handler ([inverse_restores] says what an inverse does to a list); [written_for] counts the
    instructions written, which must fit the address space. *)
Theorem reversed_log_undoes `{SelectEncodingSpec} (log : list log_instr) :
  Forall valid_instr log -> reversible (None, None) log = true ->
  max_instr_bytes * (1 + Z.of_nat (sum_list_with written_for log)) <= word_size ->
  exists r rlog,
    fold_result dispatch empty_reverser log = Ok r /\
    operations (None, None) rlog = rev (inverse_operations (operations (None, None) log)) /\
    forall (Hd : Type) (I : InstructionHandler Hd) (h : Hd),
      parse (ReversedNoCopyInputStream_make r) h = fold_result dispatch h rlog.
Proof. apply reversal. Qed.

Definition sample_changes : list log_instr :=
  [InsertGroupLevelTable 7; SelectTable 7; InsertColumn 3; CreateObject 5; ModifyObject 3 5;
   SelectList 3 5; ListInsert 0; ListClear 2; SelectTable 8; ClearTable 2;
   EraseGroupLevelTable 9].

Import SampleSelect.

Lemma reversed_log_undoes_witness :
  exists r rlog,
    fold_result dispatch empty_reverser sample_changes = Ok r /\
    operations (None, None) rlog =
      [(None, None, InsertGroupLevelTable 9);
       (Some 8, None, CreateObject null_key); (Some 8, None, CreateObject null_key);
       (Some 7, Some (3, 5), ListInsert 0); (Some 7, Some (3, 5), ListInsert 1);
       (Some 7, Some (3, 5), ListErase 0);
       (Some 7, None, ModifyObject 3 5); (Some 7, None, RemoveObject 5);
       (Some 7, None, EraseColumn 3); (None, None, EraseGroupLevelTable 7)] /\
    parse (ReversedNoCopyInputStream_make r) (Recorder []) = Ok (Recorder rlog).
Proof.
  destruct (reversed_log_undoes sample_changes) as (r & rlog & E & Ho & Hp);
    [apply (bool_decide_unpack _); vm_compute; exact I|by vm_compute|by vm_compute|].
  exists r, rlog. split; [exact E|]. split; [rewrite Ho; by vm_compute|].
  rewrite Hp. apply recorder_log.
Defined.

(** The reversed form of a log, as a recording handler sees it. *)
Definition reversed (log : list log_instr) : result recorder :=
  r ← fold_result dispatch empty_reverser log;
  parse (ReversedNoCopyInputStream_make r) (Recorder []).

(** The reverser writes the renaming of a column without ending its instruction: the bytes
    become part of the next span.  Here the renaming comes out before any table is selected,
    and a renaming at the end of the log is dropped. *)
Theorem reversed_rename_column_misplaced :
  reversed [SelectTable 1; RenameColumn 3; SelectTable 2; CreateObject 5] =
    Ok (Recorder [RenameColumn 3; SelectTable 2; RemoveObject 5; SelectTable 1]) /\
  reversed [SelectTable 1; RenameColumn 3] = Ok (Recorder [SelectTable 1]) /\
  reversed [SelectTable 1; SetLinkType 3] = Ok (Recorder [SelectTable 1]).
Proof. by vm_compute. Qed.

(** The reverser undoes a move by the same move: the list is not what it was. *)
Theorem reversed_list_move_not_undone :
  reversed [SelectTable 1; SelectList 3 5; ListMove 0 2] =
    Ok (Recorder [SelectTable 1; SelectList 3 5; ListMove 0 2]) /\
  list_move 0 2 (list_move 0 2 [1; 2; 3]) <> [1; 2; 3] /\
  list_move 2 0 (list_move 0 2 [1; 2; 3]) = [1; 2; 3].
Proof. split; [by vm_compute|]. split; [by vm_compute|done]. Qed.
