(* ===== verification/ConvenientEncoder.v ===== *)
(** [TransactLogConvenientEncoder] of [realm/impl/transact_log.hpp]: the recorder of changes,
    with a method per kind of change, which selects the table or list a change is made to
    unless its caches say that it is selected already.

    A [const Table*] is an address, 0 the null pointer; the values that are stored do not
    reach the log and are not arguments here.  [do_select_table] and [do_select_list] are
    defined in the compiled core library: they are parameters ([SelectionSteps]) with the
    laws of [SelectionStepsSpec].  The methods that are declared only ([list_clear],
    [add_class], the creations with a global or primary key) are not modelled. *)

From S2P Require Import Prelude SafeInt Varint Keys TransactLog Reverser.

(** ** State *)

Record LinkListId : Set := ListId { id_table_key : TableKey; id_object_key : ObjKey; id_col : ColKey }.

#[export] Instance LinkListId_eq_dec : EqDecision LinkListId.
Proof. solve_decision. Defined.

(** [LinkListId()], of null keys. *)
Definition no_list : LinkListId := ListId null_table_key null_key null_col_key.

(** [LinkListId::operator!=]. *)
Definition id_neq (a b : LinkListId) : bool :=
  negb (id_object_key a =? id_object_key b) || negb (id_table_key a =? id_table_key b) ||
  negb (id_col a =? id_col b).

Record ConvenientEncoder := Convenient {
  ce_encoder : encoder;            (** [m_encoder] *)
  m_selected_table : Z;
  m_selected_list : LinkListId
}.

(** A list accessor: what [get_table()], [get_key()] and [get_col_key()] return. *)
Record ConstLstBase : Set := Lst { lst_table : Z; lst_key : ObjKey; lst_col : ColKey }.

Definition unselect_all (s : ConvenientEncoder) : ConvenientEncoder :=
  Convenient (ce_encoder s) 0 no_list.

Definition reset_selection_caches (s : ConvenientEncoder) : ConvenientEncoder := unselect_all s.

(** ** Operations *)

(** The selections that are compiled elsewhere. *)
Class SelectionSteps := {
  do_select_table : Z -> ConvenientEncoder -> result ConvenientEncoder;
  do_select_list : ConstLstBase -> ConvenientEncoder -> result ConvenientEncoder
}.

Section methods.
Context `{SelectEncoding} `{SelectionSteps}.

(** [Table::get_key], by the address of the table. *)
Variable table_key : Z -> TableKey.

Definition list_id (list : ConstLstBase) : LinkListId :=
  ListId (table_key (lst_table list)) (lst_key list) (lst_col list).

Definition select_table (table : Z) (s : ConvenientEncoder) : result ConvenientEncoder :=
  s ← (if negb (table =? m_selected_table s) then do_select_table table s else Ok s);
  Ok (Convenient (ce_encoder s) (m_selected_table s) no_list).

Definition select_list (list : ConstLstBase) (s : ConvenientEncoder) : result ConvenientEncoder :=
  if id_neq (list_id list) (m_selected_list s) then do_select_list list s else Ok s.

(** [m_encoder.f(...)]. *)
Definition encode_call (f : encoder -> result encoder) (s : ConvenientEncoder)
  : result ConvenientEncoder :=
  e ← f (ce_encoder s); Ok (Convenient e (m_selected_table s) (m_selected_list s)).

Definition insert_group_level_table (key : TableKey) (s : ConvenientEncoder) :=
  encode_call (TransactLogEncoder.insert_group_level_table key) (unselect_all s).
Definition erase_group_level_table (key : TableKey) (s : ConvenientEncoder) :=
  encode_call (TransactLogEncoder.erase_group_level_table key) (unselect_all s).
Definition rename_group_level_table (key : TableKey) (s : ConvenientEncoder) :=
  encode_call (TransactLogEncoder.rename_group_level_table key) (unselect_all s).

Definition insert_column (t : Z) (col_key : ColKey) (s : ConvenientEncoder) :=
  s ← select_table t s; encode_call (TransactLogEncoder.insert_column col_key) s.
Definition erase_column (t : Z) (col_key : ColKey) (s : ConvenientEncoder) :=
  s ← select_table t s; encode_call (TransactLogEncoder.erase_column col_key) s.
Definition rename_column (t : Z) (col_key : ColKey) (s : ConvenientEncoder) :=
  s ← select_table t s; encode_call (TransactLogEncoder.rename_column col_key) s.

Definition do_set (t : Z) (col_key : ColKey) (key : ObjKey) (variant : Instruction)
    (s : ConvenientEncoder) : result ConvenientEncoder :=
  if negb (bool_decide (variant = instr_SetDefault)) then
    s ← select_table t s;
    encode_call (TransactLogEncoder.modify_object col_key key) s
  else Ok s.

Definition set_int (t : Z) (col_key : ColKey) (key : ObjKey) (variant : Instruction) :=
  do_set t col_key key variant.
Definition add_int (t : Z) (col_key : ColKey) (key : ObjKey) := do_set t col_key key instr_Set.
Definition set_bool (t : Z) (col_key : ColKey) (key : ObjKey) (variant : Instruction) :=
  do_set t col_key key variant.
Definition set_float (t : Z) (col_key : ColKey) (key : ObjKey) (variant : Instruction) :=
  do_set t col_key key variant.
Definition set_double (t : Z) (col_key : ColKey) (key : ObjKey) (variant : Instruction) :=
  do_set t col_key key variant.
Definition set_string (t : Z) (col_key : ColKey) (key : ObjKey) (variant : Instruction) :=
  do_set t col_key key variant.
Definition set_binary (t : Z) (col_key : ColKey) (key : ObjKey) (variant : Instruction) :=
  do_set t col_key key variant.
Definition set_timestamp (t : Z) (col_key : ColKey) (key : ObjKey) (variant : Instruction) :=
  do_set t col_key key variant.
Definition set_link (t : Z) (col_key : ColKey) (key : ObjKey) (variant : Instruction) :=
  do_set t col_key key variant.
Definition set_null (t : Z) (col_key : ColKey) (key : ObjKey) (variant : Instruction) :=
  do_set t col_key key variant.
Definition nullify_link (t : Z) (col_key : ColKey) (key : ObjKey) (s : ConvenientEncoder) :=
  s ← select_table t s; encode_call (TransactLogEncoder.modify_object col_key key) s.
Definition insert_substring (t : Z) (col_key : ColKey) (key : ObjKey) (value_size : Z)
    (s : ConvenientEncoder) :=
  if 0 <? value_size then do_set t col_key key instr_Set s else Ok s.
Definition erase_substring (t : Z) (col_key : ColKey) (key : ObjKey) (size : Z)
    (s : ConvenientEncoder) :=
  if 0 <? size then do_set t col_key key instr_Set s else Ok s.

Definition create_object (t : Z) (key : ObjKey) (s : ConvenientEncoder) :=
  s ← select_table t s; encode_call (TransactLogEncoder.create_object key) s.
Definition remove_object (t : Z) (key : ObjKey) (s : ConvenientEncoder) :=
  s ← select_table t s; encode_call (TransactLogEncoder.remove_object key) s.
Definition set_link_type (t : Z) (col_key : ColKey) (s : ConvenientEncoder) :=
  s ← select_table t s; encode_call (TransactLogEncoder.set_link_type col_key) s.
Definition clear_table (t : Z) (prior_num_rows : Z) (s : ConvenientEncoder) :=
  s ← select_table t s; encode_call (TransactLogEncoder.clear_table prior_num_rows) s.

(** [list_set_int], [_bool], [_float], [_double], [_string], [_binary], [_timestamp],
    [_null] and [_link] have this body. *)
Definition list_set (list : ConstLstBase) (list_ndx : Z) (s : ConvenientEncoder) :=
  s ← select_list list s; encode_call (TransactLogEncoder.list_set list_ndx) s.
(** [list_insert_int], [_bool], [_float], [_double], [_string], [_binary], [_timestamp],
    [_null] and [_link] have this body. *)
Definition list_insert (list : ConstLstBase) (list_ndx : Z) (s : ConvenientEncoder) :=
  s ← select_list list s; encode_call (TransactLogEncoder.list_insert list_ndx) s.
Definition link_list_nullify (list : ConstLstBase) (link_ndx : Z) (s : ConvenientEncoder) :=
  s ← select_list list s; encode_call (TransactLogEncoder.list_erase link_ndx) s.
Definition list_move (list : ConstLstBase) (from_link_ndx to_link_ndx : Z) (s : ConvenientEncoder) :=
  s ← select_list list s; encode_call (TransactLogEncoder.list_move from_link_ndx to_link_ndx) s.
Definition list_swap (list : ConstLstBase) (link1_ndx link2_ndx : Z) (s : ConvenientEncoder) :=
  s ← select_list list s; encode_call (TransactLogEncoder.list_swap link1_ndx link2_ndx) s.
Definition list_erase (list : ConstLstBase) (link_ndx : Z) (s : ConvenientEncoder) :=
  s ← select_list list s; encode_call (TransactLogEncoder.list_erase link_ndx) s.
End methods.

(** The calls of these methods. *)
Inductive encoder_call : Set :=
| CallInsertTable (key : TableKey) | CallEraseTable (key : TableKey) | CallRenameTable (key : TableKey)
| CallInsertColumn (t : Z) (col : ColKey) | CallEraseColumn (t : Z) (col : ColKey)
| CallRenameColumn (t : Z) (col : ColKey) | CallSetLinkType (t : Z) (col : ColKey)
| CallSetInt (t : Z) (col : ColKey) (key : ObjKey) (variant : Instruction)
| CallAddInt (t : Z) (col : ColKey) (key : ObjKey)
| CallSetNull (t : Z) (col : ColKey) (key : ObjKey) (variant : Instruction)
| CallNullifyLink (t : Z) (col : ColKey) (key : ObjKey)
| CallInsertSubstring (t : Z) (col : ColKey) (key : ObjKey) (value_size : Z)
| CallEraseSubstring (t : Z) (col : ColKey) (key : ObjKey) (size : Z)
| CallCreateObject (t : Z) (key : ObjKey) | CallRemoveObject (t : Z) (key : ObjKey)
| CallClearTable (t : Z) (prior_num_rows : Z)
| CallListSet (l : ConstLstBase) (ndx : Z) | CallListInsert (l : ConstLstBase) (ndx : Z)
| CallListNullify (l : ConstLstBase) (ndx : Z) | CallListErase (l : ConstLstBase) (ndx : Z)
| CallListMove (l : ConstLstBase) (from_ndx to_ndx : Z)
| CallListSwap (l : ConstLstBase) (ndx1 ndx2 : Z)
| CallResetCaches.

Section calls.
Context `{SelectEncoding} `{SelectionSteps}.
Variable table_key : Z -> TableKey.

Definition perform (c : encoder_call) (s : ConvenientEncoder) : result ConvenientEncoder :=
  match c with
  | CallInsertTable k => insert_group_level_table k s
  | CallEraseTable k => erase_group_level_table k s
  | CallRenameTable k => rename_group_level_table k s
  | CallInsertColumn t col => insert_column t col s
  | CallEraseColumn t col => erase_column t col s
  | CallRenameColumn t col => rename_column t col s
  | CallSetLinkType t col => set_link_type t col s
  | CallSetInt t col key variant => set_int t col key variant s
  | CallAddInt t col key => add_int t col key s
  | CallSetNull t col key variant => set_null t col key variant s
  | CallNullifyLink t col key => nullify_link t col key s
  | CallInsertSubstring t col key n => insert_substring t col key n s
  | CallEraseSubstring t col key n => erase_substring t col key n s
  | CallCreateObject t key => create_object t key s
  | CallRemoveObject t key => remove_object t key s
  | CallClearTable t n => clear_table t n s
  | CallListSet l n => list_set table_key l n s
  | CallListInsert l n => list_insert table_key l n s
  | CallListNullify l n => link_list_nullify table_key l n s
  | CallListErase l n => list_erase table_key l n s
  | CallListMove l a b => list_move table_key l a b s
  | CallListSwap l a b => list_swap table_key l a b s
  | CallResetCaches => Ok (reset_selection_caches s)
  end.

Definition fresh_encoder : ConvenientEncoder := Convenient empty_encoder 0 no_list.

(** The calls, one after the other. *)
Definition perform_all (calls : list encoder_call) (s : ConvenientEncoder)
  : result ConvenientEncoder :=
  fold_result (fun s call => perform call s) s calls.

(** ** Specification *)

(** The table or list a call is about, and the operations it stands for. *)
Definition on_table (t : Z) : context := (Some (table_key t), None).
Definition on_list (l : ConstLstBase) : context :=
  (Some (table_key (lst_table l)), Some (lst_col l, lst_key l)).

Definition intended (c : encoder_call) : list (context * log_instr) :=
  match c with
  | CallInsertTable k => [((None, None), InsertGroupLevelTable k)]
  | CallEraseTable k => [((None, None), EraseGroupLevelTable k)]
  | CallRenameTable k => [((None, None), RenameGroupLevelTable k)]
  | CallInsertColumn t col => [(on_table t, InsertColumn col)]
  | CallEraseColumn t col => [(on_table t, EraseColumn col)]
  | CallRenameColumn t col => [(on_table t, RenameColumn col)]
  | CallSetLinkType t col => [(on_table t, SetLinkType col)]
  | CallSetInt t col key variant | CallSetNull t col key variant =>
      if decide (variant = instr_SetDefault) then [] else [(on_table t, ModifyObject col key)]
  | CallAddInt t col key | CallNullifyLink t col key => [(on_table t, ModifyObject col key)]
  | CallInsertSubstring t col key n | CallEraseSubstring t col key n =>
      if decide (0 < n) then [(on_table t, ModifyObject col key)] else []
  | CallCreateObject t key => [(on_table t, CreateObject key)]
  | CallRemoveObject t key => [(on_table t, RemoveObject key)]
  | CallClearTable t n => [(on_table t, ClearTable n)]
  | CallListSet l n => [(on_list l, ListSet n)]
  | CallListInsert l n => [(on_list l, ListInsert n)]
  | CallListNullify l n | CallListErase l n => [(on_list l, ListErase n)]
  | CallListMove l a b => [(on_list l, ListMove a b)]
  | CallListSwap l a b => [(on_list l, ListSwap a b)]
  | CallResetCaches => []
  end.

(** A table is not the null pointer, a list belongs to a table and to an object. *)
Definition valid_table_ptr (t : Z) : Prop := t <> 0 /\ valid_table (table_key t).
Definition valid_list (l : ConstLstBase) : Prop :=
  valid_table_ptr (lst_table l) /\ valid_key (lst_key l) /\ valid_key (lst_col l) /\
  lst_key l <> null_key.

Definition call_subject (c : encoder_call) : Prop :=
  match c with
  | CallInsertTable _ | CallEraseTable _ | CallRenameTable _ | CallResetCaches => True
  | CallInsertColumn t _ | CallEraseColumn t _ | CallRenameColumn t _ | CallSetLinkType t _
  | CallSetInt t _ _ _ | CallAddInt t _ _ | CallSetNull t _ _ _ | CallNullifyLink t _ _
  | CallInsertSubstring t _ _ _ | CallEraseSubstring t _ _ _ | CallCreateObject t _
  | CallRemoveObject t _ | CallClearTable t _ => valid_table_ptr t
  | CallListSet l _ | CallListInsert l _ | CallListNullify l _ | CallListErase l _
  | CallListMove l _ _ | CallListSwap l _ _ => valid_list l
  end.

Definition valid_call (c : encoder_call) : Prop :=
  call_subject c /\ Forall (fun op => valid_instr (snd op)) (intended c).
End calls.

#[export] Instance call_subject_dec table_key c : Decision (call_subject table_key c).
Proof.
  destruct c; unfold call_subject, valid_list, valid_table_ptr, valid_table, valid_key, in_range;
    apply _.
Defined.

#[export] Instance valid_call_dec table_key c : Decision (valid_call table_key c).
Proof. unfold valid_call. apply _. Defined.

(** What the compiled selections do: they write the selection and update the caches; the
    selection of a list selects its table before, unless it is the selected one. *)
Class SelectionStepsSpec `{SelectEncodingSpec} `{SelectionSteps} (table_key : Z -> TableKey) := {
  do_select_table_spec t s :
    valid_table_ptr table_key t -> encoder_ok (ce_encoder s) ->
    write_position (ce_encoder s) + max_instr_bytes < word_size ->
    exists s', do_select_table t s = Ok s' /\ encoder_ok (ce_encoder s') /\
      written (ce_encoder s') = written (ce_encoder s) ++ log_bytes [SelectTable (table_key t)] /\
      m_selected_table s' = t;
  do_select_list_spec l s :
    valid_list table_key l -> encoder_ok (ce_encoder s) ->
    write_position (ce_encoder s) + 2 * max_instr_bytes < word_size ->
    exists s' pre, do_select_list l s = Ok s' /\ encoder_ok (ce_encoder s') /\
      written (ce_encoder s') =
        written (ce_encoder s) ++ log_bytes (pre ++ [SelectList (lst_col l) (lst_key l)]) /\
      (pre = [SelectTable (table_key (lst_table l))] \/
       pre = [] /\ m_selected_table s = lst_table l) /\
      m_selected_table s' = lst_table l /\ m_selected_list s' = list_id table_key l
}.

(** ** Logs and the selection they leave *)

Definition selected (c : context) (log : list log_instr) : context := fold_left select log c.

Lemma operations_app c l1 l2 :
  operations c (l1 ++ l2) = operations c l1 ++ operations (selected c l1) l2.
Proof.
  revert c. induction l1 as [|i l1 IH]; intros c; [done|]. cbn [app operations].
  by rewrite IH, app_assoc.
Qed.

Lemma reversible_app c l1 l2 :
  reversible c (l1 ++ l2) = reversible c l1 && reversible (selected c l1) l2.
Proof.
  revert c. induction l1 as [|i l1 IH]; intros c; [done|]. cbn [app reversible].
  by rewrite IH, andb_assoc.
Qed.

(** [log] leads from the selection [c] to [c'] and performs [ops]. *)
Record performs (c : context) (log : list log_instr) (c' : context)
    (ops : list (context * log_instr)) : Prop := {
  pf_valid : Forall valid_instr log;
  pf_selected : selected c log = c';
  pf_operations : operations c log = ops;
  pf_reversible : forallb (fun op => undoable (snd op)) ops = true -> reversible c log = true
}.

Lemma performs_nil c : performs c [] c [].
Proof. by split. Qed.

Lemma performs_app c1 l1 c2 ops1 l2 c3 ops2 :
  performs c1 l1 c2 ops1 -> performs c2 l2 c3 ops2 ->
  performs c1 (l1 ++ l2) c3 (ops1 ++ ops2).
Proof.
  intros [V1 S1 O1 R1] [V2 S2 O2 R2]. split.
  - by apply Forall_app.
  - unfold selected in *. by rewrite fold_left_app, S1.
  - by rewrite operations_app, O1, S1, O2.
  - rewrite forallb_app, reversible_app, S1. intros [H1 H2]%andb_prop. by rewrite R1, R2.
Qed.

(** One operation, with what it acts on selected. *)
Lemma performs_operation c i :
  valid_instr i -> kind i <> KSelect ->
  (kind i = KTable \/ kind i = KList -> is_Some (fst c)) ->
  (kind i = KList -> is_Some (snd c)) ->
  performs c [i] (select c i) [(target c i, i)].
Proof.
  intros Hv Hk Ht Hl. split; [by apply Forall_singleton|done| |].
  - cbn [operations]. by destruct (kind i).
  - cbn [reversible forallb snd]. rewrite !andb_true_r. intros Hh.
    destruct i; try done; cbn in *; rewrite ?bool_decide_true by auto; done.
Qed.

Section steps.
Context `{SelectionStepsSpec}.

(** What the caches say is so: a cached table is selected, a cached list is. *)
Record caches_ok (s : ConvenientEncoder) (c : context) : Prop := {
  co_encoder : encoder_ok (ce_encoder s);
  co_table : m_selected_table s <> 0 -> fst c = Some (table_key (m_selected_table s));
  co_list : m_selected_list s <> no_list ->
    c = (Some (id_table_key (m_selected_list s)),
         Some (id_col (m_selected_list s), id_object_key (m_selected_list s)))
}.

(** [s'] has written [log] after [s]. *)
Definition wrote (s : ConvenientEncoder) (log : list log_instr) (s' : ConvenientEncoder) : Prop :=
  written (ce_encoder s') = written (ce_encoder s) ++ log_bytes log.

Lemma wrote_length s log s' :
  Forall valid_instr log -> wrote s log s' ->
  write_position (ce_encoder s') <=
    write_position (ce_encoder s) + max_instr_bytes * Z.of_nat (length log).
Proof.
  intros Hv Hw. unfold write_position. rewrite Hw, length_app.
  pose proof (length_log_bytes log Hv). unfold max_instr_bytes in *. lia.
Qed.

Lemma log_bytes_app l1 l2 : log_bytes (l1 ++ l2) = log_bytes l1 ++ log_bytes l2.
Proof. unfold log_bytes. by rewrite fmap_app, concat_app. Qed.

Lemma log_bytes_singleton i : log_bytes [i] = instr_bytes i.
Proof. apply app_nil_r. Qed.

(** Room for [n] more instructions. *)
Definition room (n : Z) (s : ConvenientEncoder) : Prop :=
  write_position (ce_encoder s) + max_instr_bytes * n < word_size.

Lemma room_after s log s' n :
  Forall valid_instr log -> wrote s log s' -> room (Z.of_nat (length log) + n) s -> room n s'.
Proof.
  unfold room. intros Hv Hw. pose proof (wrote_length s log s' Hv Hw).
  unfold max_instr_bytes in *. lia.
Qed.

Lemma id_neq_spec a b : id_neq a b = negb (bool_decide (a = b)).
Proof.
  destruct a as [t k c], b as [t' k' c']. unfold id_neq. simpl.
  destruct (Z.eqb_spec k k'), (Z.eqb_spec t t'), (Z.eqb_spec c c'); subst; simpl;
    first [by rewrite bool_decide_true | by rewrite bool_decide_false by congruence].
Qed.

Lemma select_table_spec t s c :
  caches_ok s c -> valid_table_ptr table_key t -> room 1 s ->
  exists s' log c', select_table t s = Ok s' /\ wrote s log s' /\ (length log <= 1)%nat /\
    performs c log c' [] /\ fst c' = Some (table_key t) /\ caches_ok s' c'.
Proof.
  intros [Hok Ht Hl] Hv Hr. unfold select_table. destruct (Z.eqb_spec t (m_selected_table s)) as [->|Hne].
  - eexists _, [], c. cbn. split_and!; [done|unfold wrote; simpl; by rewrite app_nil_r|lia| | |].
    + apply performs_nil.
    + apply Ht. apply Hv.
    + by split.
  - destruct (do_select_table_spec t s Hv Hok) as (s' & E & Hok' & Hw & Hs);
      [unfold room in Hr; lia|]. cbn. rewrite E. cbn.
    eexists _, _, (Some (table_key t), None). split_and!; [done|exact Hw|done| |done|].
    + split; [apply Forall_singleton, Hv|done|done|done].
    + split; simpl; [done|by rewrite Hs|done].
Qed.

Lemma select_list_spec l s c :
  caches_ok s c -> valid_list table_key l -> room 2 s ->
  exists s' log, select_list table_key l s = Ok s' /\ wrote s log s' /\ (length log <= 2)%nat /\
    performs c log (on_list table_key l) [] /\ caches_ok s' (on_list table_key l).
Proof.
  intros Hc Hv Hr. pose proof Hc as [Hok Ht Hl]. pose proof Hv as ([Hp Hpt] & Hk & Hcol & Hn).
  assert (list_id table_key l <> no_list) as Hid by (intros [=]; done).
  unfold select_list. rewrite id_neq_spec. case_bool_decide as E; cbn.
  - rewrite <- E in Hl. assert (c = on_list table_key l) as -> by exact (Hl Hid).
    eexists _, []. split_and!; [done|unfold wrote; by rewrite app_nil_r|simpl; lia| |done].
    apply performs_nil.
  - destruct (do_select_list_spec l s Hv Hok) as (s' & pre & Es & Hok' & Hw & Hpre & Hst & Hsl);
      [unfold room in Hr; lia|]. exists s'. eexists.
    split_and!; [done|exact Hw|destruct Hpre as [-> | [-> _]]; simpl; lia| |].
    + destruct Hpre as [-> | [-> Hs]]; cbn [app].
      * split; [|reflexivity|reflexivity|reflexivity].
        apply Forall_cons; split; [exact Hpt|]. by apply Forall_singleton.
      * rewrite Hs in Ht. specialize (Ht Hp). destruct c as [ct cl]. simpl in Ht. subst ct.
        split; [by apply Forall_singleton|reflexivity..].
    + split; [done|by rewrite Hst|intros _; by rewrite Hsl].
Qed.

(** Append one operation to what is selected. *)
Lemma encode_call_spec i s c :
  caches_ok s c -> valid_instr i -> kind i <> KSelect -> room 1 s ->
  (kind i = KTable \/ kind i = KList -> is_Some (fst c)) ->
  (kind i = KList -> is_Some (snd c)) ->
  (kind i = KGroup -> m_selected_table s = 0 /\ m_selected_list s = no_list) ->
  exists s', encode_call (encode_instr i) s = Ok s' /\ wrote s [i] s' /\
    performs c [i] (select c i) [(target c i, i)] /\ caches_ok s' (select c i).
Proof.
  intros [Hok Ht Hl] Hv Hk Hr HT HL HG. unfold encode_call.
  destruct (encode_instr_spec i _ Hv Hok) as (e & -> & Hok' & Hw); [unfold room in Hr; lia|].
  cbn. eexists. split_and!; [done|unfold wrote; simpl; by rewrite log_bytes_singleton| |].
  - by apply performs_operation.
  - destruct (decide (kind i = KGroup)) as [Hg|Hg].
    + destruct (HG Hg) as [E1 E2]. split; simpl; rewrite ?E1, ?E2; done.
    + assert (select c i = c) as -> by (destruct i; simpl in *; done). by split.
Qed.

(** What every call does to a state whose caches are right. *)
Definition call_ok (s : ConvenientEncoder) (c : context) (r : result ConvenientEncoder)
    (ops : list (context * log_instr)) : Prop :=
  exists s' log c', r = Ok s' /\ wrote s log s' /\ (length log <= 3)%nat /\
    performs c log c' ops /\ caches_ok s' c'.

Lemma call_ok_nothing s c : caches_ok s c -> call_ok s c (Ok s) [].
Proof.
  intros Hc. exists s, [], c.
  split_and!; [done|unfold wrote; by rewrite app_nil_r|simpl; lia|apply performs_nil|done].
Qed.

Lemma table_call t i s c :
  caches_ok s c -> room 3 s -> valid_table_ptr table_key t -> valid_instr i -> kind i = KTable ->
  call_ok s c (s ← select_table t s; encode_call (encode_instr i) s)
    [(on_table table_key t, i)].
Proof.
  intros Hc Hr Ht Hv Hk. unfold room, max_instr_bytes in Hr.
  destruct (select_table_spec t s c Hc Ht) as (s1 & l1 & c1 & E1 & W1 & L1 & P1 & F1 & C1);
    [unfold room, max_instr_bytes; lia|]. rewrite E1. cbn [mbind result_bind].
  destruct (encode_call_spec i s1 c1 C1 Hv) as (s2 & E2 & W2 & P2 & C2);
    [by rewrite Hk|eapply room_after; [apply P1|exact W1|unfold room, max_instr_bytes; lia]
    |by rewrite F1|by rewrite Hk|by rewrite Hk|].
  exists s2, (l1 ++ [i]), (select c1 i).
  split_and!; [done| |rewrite length_app; simpl; lia| |done].
  - unfold wrote in *. by rewrite W2, W1, log_bytes_app, app_assoc.
  - pose proof (performs_app _ _ _ _ _ _ _ P1 P2) as P. unfold target in P.
    rewrite Hk, F1 in P. exact P.
Qed.

Lemma list_call l i s c :
  caches_ok s c -> room 3 s -> valid_list table_key l -> valid_instr i -> kind i = KList ->
  call_ok s c (s ← select_list table_key l s; encode_call (encode_instr i) s)
    [(on_list table_key l, i)].
Proof.
  intros Hc Hr Ht Hv Hk. unfold room, max_instr_bytes in Hr.
  destruct (select_list_spec l s c Hc Ht) as (s1 & l1 & E1 & W1 & L1 & P1 & C1);
    [unfold room, max_instr_bytes; lia|]. rewrite E1. cbn [mbind result_bind].
  destruct (encode_call_spec i s1 _ C1 Hv) as (s2 & E2 & W2 & P2 & C2);
    [by rewrite Hk|eapply room_after; [apply P1|exact W1|unfold room, max_instr_bytes; lia]
    |done|done|by rewrite Hk|].
  exists s2, (l1 ++ [i]). eexists.
  split_and!; [done| |rewrite length_app; simpl; lia| |exact C2].
  - unfold wrote in *. by rewrite W2, W1, log_bytes_app, app_assoc.
  - pose proof (performs_app _ _ _ _ _ _ _ P1 P2) as P. unfold target in P.
    rewrite Hk in P. exact P.
Qed.

Lemma unselect_all_ok s c : caches_ok s c -> caches_ok (unselect_all s) c.
Proof. intros []. by split. Qed.

Lemma group_call i s c :
  caches_ok s c -> room 3 s -> valid_instr i -> kind i = KGroup ->
  call_ok s c (encode_call (encode_instr i) (unselect_all s)) [((None, None), i)].
Proof.
  intros Hc Hr Hv Hk. unfold room, max_instr_bytes in Hr.
  destruct (encode_call_spec i _ _ (unselect_all_ok s c Hc) Hv) as (s2 & E2 & W2 & P2 & C2);
    [by rewrite Hk|unfold room, max_instr_bytes; simpl; lia|rewrite Hk; intros [?|?]; done|by rewrite Hk|done|].
  exists s2, [i]. eexists. split_and!; [done|exact W2|simpl; lia| |exact C2].
  unfold target in P2. rewrite Hk in P2. exact P2.
Qed.

Lemma valid_singleton (c : context) i : Forall (fun op => valid_instr (snd op)) [(c, i)] -> valid_instr i.
Proof. exact (proj1 (Forall_singleton _ _)). Qed.

Lemma perform_spec call s c :
  caches_ok s c -> room 3 s -> valid_call table_key call ->
  call_ok s c (perform table_key call s) (intended table_key call).
Proof.
  intros Hc Hr [Hs Hi]. destruct call; cbn [perform intended call_subject] in *;
    unfold set_int, set_null, add_int, insert_substring, erase_substring in *;
    repeat case_decide; repeat case_Z_compare; try lia; try subst variant; try (by apply call_ok_nothing);
    try apply valid_singleton in Hi;
    first [ by apply (group_call _ s c Hc Hr Hi)
          | by apply (table_call _ _ s c Hc Hr Hs Hi)
          | by apply (list_call _ _ s c Hc Hr Hs Hi)
          | unfold do_set; rewrite bool_decide_eq_false_2 by done;
            by apply (table_call _ _ s c Hc Hr Hs Hi)
          | idtac ].
  - exists (unselect_all s), [], c. split_and!; [done|unfold wrote; simpl; by rewrite app_nil_r|simpl; lia|..].
    + apply performs_nil.
    + by apply unselect_all_ok.
Qed.

Lemma perform_all_spec calls s c :
  caches_ok s c -> Forall (valid_call table_key) calls ->
  room (3 * (1 + Z.of_nat (length calls))) s ->
  exists s' log c', perform_all table_key calls s = Ok s' /\ wrote s log s' /\
    (length log <= 3 * length calls)%nat /\
    performs c log c' (calls ≫= intended table_key) /\ caches_ok s' c'.
Proof.
  intros Hc Hv. revert s c Hc. induction Hv as [|call calls Hcall _ IH]; intros s c Hc Hr.
  - exists s, [], c. split_and!; [done|unfold wrote; by rewrite app_nil_r|simpl; lia|apply performs_nil|done].
  - cbn [length] in Hr. rewrite Nat2Z.inj_succ in Hr.
    assert (room 3 s) by (unfold room, max_instr_bytes in *; lia).
    destruct (perform_spec call s c Hc) as (s1 & l1 & c1 & E1 & W1 & L1 & P1 & C1); [done|done|].
    destruct (IH s1 c1 C1) as (s2 & l2 & c2 & E2 & W2 & L2 & P2 & C2).
    { eapply (room_after _ _ _ _ (pf_valid _ _ _ _ P1) W1). unfold room, max_instr_bytes in *. lia. }
    exists s2, (l1 ++ l2), c2. unfold perform_all. cbn [fold_result]. rewrite E1.
    split_and!; [done| |rewrite length_app; cbn [length]; lia| |done].
    + unfold wrote in *. by rewrite W2, W1, log_bytes_app, app_assoc.
    + by apply (performs_app _ _ _ _ _ _ _ P1 P2).
Qed.
End steps.

(** The reverser writes no more than the selections of a log and the inverses of its
    operations. *)
Lemma written_for_operations c log :
  (sum_list_with written_for log <=
   length log + sum_list_with (fun op => length (inverse (snd op))) (operations c log))%nat.
Proof.
  revert c. induction log as [|i log IH]; intros c; [done|].
  specialize (IH (select c i)). cbn [sum_list_with operations length].
  rewrite sum_list_with_app. unfold written_for at 1.
  destruct (kind i); simpl; lia.
Qed.

(** ** Properties *)

(** C37: whatever the sequence of changes recorded, and whatever the caches skipped, parsing
    the bytes recorded performs exactly the intended operations, in order, each on the
    table or list it was meant for.  When no table or column is renamed, no link type set and no
    list element moved, feeding the reverser with the log parsed and parsing its stream performs
    their inverses in the opposite order.  The calls have values of the width of their types, and
    what is written fits the address space. *)
Theorem recorded_calls `{SelectionStepsSpec} (calls : list encoder_call) :
  Forall (valid_call table_key) calls ->
  max_instr_bytes * (3 * (1 + Z.of_nat (length calls))) < word_size ->
  exists s log,
    perform_all table_key calls fresh_encoder = Ok s /\
    operations (None, None) log = calls ≫= intended table_key /\
    (forall (St Hd : Type) (I1 : NoCopyInputStream St) (I2 : StreamSpec St)
            (I3 : InstructionHandler Hd) (st : St) (h : Hd),
       concat (stream_blocks st) = written (ce_encoder s) ->
       parse st h = fold_result dispatch h log) /\
    (forallb (fun op => undoable (snd op)) (calls ≫= intended table_key) = true ->
     max_instr_bytes * (1 + Z.of_nat (3 * length calls +
       sum_list_with (fun op => length (inverse (snd op))) (calls ≫= intended table_key)))
       <= word_size ->
     exists r rlog,
       fold_result dispatch empty_reverser log = Ok r /\
    operations (None, None) rlog = rev (inverse_operations (calls ≫= intended table_key)) /\
    forall (Hd : Type) (I : InstructionHandler Hd) (h : Hd),
         parse (ReversedNoCopyInputStream_make r) h = fold_result dispatch h rlog).
Proof.
  intros Hv Hr.
  destruct (perform_all_spec calls fresh_encoder (None, None)) as (s & log & c & E & W & L & P & _);
    [by split|done|unfold room; change (write_position (ce_encoder fresh_encoder)) with 0; lia|].
  exists s, log. destruct P as [Hval _ Hops Hrev]. split_and!; [done|done| |].
  - intros St Hd I1 I2 I3 st h Hst. apply parse_log_bytes; [done|]. by rewrite Hst.
  - intros Hh Hl. rewrite <- Hops in Hl |- *. apply reversal; [done|by apply Hrev|].
    pose proof (written_for_operations (None, None) log). unfold max_instr_bytes in *. lia.
Qed.

(** The compiled selections, as the laws describe them. *)
Module SampleSteps.
Import SampleSelect.

(** Tables live at multiples of 16. *)
Definition table_key (t : Z) : TableKey := t / 16.

Definition select_table_step (t : Z) (s : ConvenientEncoder) : result ConvenientEncoder :=
  e ← encoder_select_table (table_key t) (ce_encoder s);
  Ok (Convenient e t (m_selected_list s)).

Definition select_list_step (l : ConstLstBase) (s : ConvenientEncoder)
  : result ConvenientEncoder :=
  s ← (if lst_table l =? m_selected_table s then Ok s else select_table_step (lst_table l) s);
  e ← encoder_select_list (lst_col l) (lst_key l) (ce_encoder s);
  Ok (Convenient e (m_selected_table s) (list_id table_key l)).

#[export] Instance sample_steps : SelectionSteps := {|
  do_select_table := select_table_step;
  do_select_list := select_list_step
|}.

Lemma select_table_step_spec t s :
  valid_table_ptr table_key t -> encoder_ok (ce_encoder s) ->
  write_position (ce_encoder s) + max_instr_bytes < word_size ->
  exists s', do_select_table t s = Ok s' /\ encoder_ok (ce_encoder s') /\
    written (ce_encoder s') = written (ce_encoder s) ++ log_bytes [SelectTable (table_key t)] /\
    m_selected_table s' = t.
Proof.
  intros [_ Hv] Hok Hw.
  destruct (encoder_select_table_spec (table_key t) _ Hv Hok Hw) as (e & E & Hok' & Hb).
  cbn [do_select_table sample_steps]. unfold select_table_step. rewrite E.
  eexists. split_and!; [reflexivity|done| |done].
  rewrite (log_bytes_singleton (SelectTable (table_key t))). exact Hb.
Qed.

Lemma select_list_step_spec l s :
  valid_list table_key l -> encoder_ok (ce_encoder s) ->
  write_position (ce_encoder s) + 2 * max_instr_bytes < word_size ->
  exists s' pre, do_select_list l s = Ok s' /\ encoder_ok (ce_encoder s') /\
    written (ce_encoder s') =
      written (ce_encoder s) ++ log_bytes (pre ++ [SelectList (lst_col l) (lst_key l)]) /\
    (pre = [SelectTable (table_key (lst_table l))] \/
     pre = [] /\ m_selected_table s = lst_table l) /\
    m_selected_table s' = lst_table l /\ m_selected_list s' = list_id table_key l.
Proof.
  intros (Ht & Hk & Hc & _) Hok Hw. cbn [do_select_list sample_steps]. unfold select_list_step.
  destruct (Z.eqb_spec (lst_table l) (m_selected_table s)) as [E|E].
  - destruct (encoder_select_list_spec (lst_col l) (lst_key l) _ Hc Hk Hok) as (e & Ee & Hok' & Hb);
      [unfold max_instr_bytes in *; lia|]. cbn [mbind result_bind]. rewrite Ee.
    eexists _, []. split_and!; [reflexivity|done| |by right|done|done].
    cbn [app]. rewrite (log_bytes_singleton (SelectList (lst_col l) (lst_key l))). exact Hb.
  - destruct (select_table_step_spec (lst_table l) s Ht Hok) as (s1 & E1 & Hok1 & Hb1 & Hs1);
      [unfold max_instr_bytes in *; lia|]. cbn [do_select_table sample_steps] in E1. rewrite E1.
    pose proof (wrote_length s [SelectTable _] s1 (proj2 (Forall_singleton valid_instr (SelectTable _)) (proj2 Ht)) Hb1) as Hl.
    destruct (encoder_select_list_spec (lst_col l) (lst_key l) _ Hc Hk Hok1) as (e & Ee & Hok' & Hb);
      [unfold max_instr_bytes in *; simpl in Hl; lia|]. cbn [mbind result_bind]. rewrite Ee.
    eexists _, _. split_and!; [reflexivity|done| |by left|done|done].
    rewrite log_bytes_app, app_assoc, <- Hb1.
    rewrite (log_bytes_singleton (SelectList (lst_col l) (lst_key l))). exact Hb.
Qed.

#[export] Instance sample_steps_spec : SelectionStepsSpec table_key := {|
  do_select_table_spec := select_table_step_spec;
  do_select_list_spec := select_list_step_spec
|}.
End SampleSteps.

Import SampleSelect SampleSteps.

Definition sample_calls : list encoder_call :=
  [CallInsertTable 2; CallCreateObject 32 5; CallSetInt 32 7 5 instr_Set;
   CallSetInt 32 7 5 instr_SetDefault; CallListInsert (Lst 32 5 8) 0; CallListErase (Lst 32 5 8) 0;
   CallCreateObject 48 6; CallListSet (Lst 32 5 8) 3; CallEraseTable 3].

Lemma recorded_calls_witness :
  exists s log,
    perform_all SampleSteps.table_key sample_calls fresh_encoder = Ok s /\
    parse (MultiLog_make [written (ce_encoder s)]) (Recorder []) = Ok (Recorder log) /\
    operations (None, None) log =
      [((None, None), InsertGroupLevelTable 2); ((Some 2, None), CreateObject 5);
       ((Some 2, None), ModifyObject 7 5); ((Some 2, Some (8, 5)), ListInsert 0);
       ((Some 2, Some (8, 5)), ListErase 0); ((Some 3, None), CreateObject 6);
       ((Some 2, Some (8, 5)), ListSet 3); ((None, None), EraseGroupLevelTable 3)] /\
    exists r rlog, fold_result dispatch empty_reverser log = Ok r /\
      parse (ReversedNoCopyInputStream_make r) (Recorder []) = Ok (Recorder rlog).
Proof.
  destruct (recorded_calls (table_key := SampleSteps.table_key) sample_calls) as (s & log & E & Ho & Hp & Hr);
    [apply (bool_decide_unpack _); vm_compute; exact I|by vm_compute|].
  exists s, log. split; [exact E|]. split; [|split].
  - rewrite (Hp _ _ _ _ _ (MultiLog_make [written (ce_encoder s)]) (Recorder [])).
    + by rewrite recorder_log.
    + etrans; [exact (concat_skip_empty [written (ce_encoder s)])|]. simpl. by rewrite app_nil_r.
  - rewrite Ho. by vm_compute.
  - destruct Hr as (r & rlog & Er & _ & Hrp); [by vm_compute|by vm_compute|].
    exists r, rlog. split; [exact Er|]. rewrite Hrp. apply recorder_log.
Defined.
