(* ===== verification/ChunkedRangeVector.v ===== *)
(** [ChunkedRangeVector] and its iterators, [index_set.hpp] and [index_set.cpp]: a vector of
    ranges of [size_t] stored in chunks of bounded size, each chunk caching the start of its
    first range, the end of its last one and the number of indices in it; and the builder of
    such vectors.

    An iterator is the number of its chunk and its offset in it; the end iterator has the
    number of chunks.  Following an iterator outside of the vector is undefined behaviour:
    [OutOfBounds], which the lemmas exclude.  Every primitive is related to an operation on
    the list of all ranges, split where the iterator is ([at_pos]). *)

From S2P Require Import Prelude.

Abbreviation range := (Z * Z)%type (only parsing).

(** ** The vector *)

Record Chunk := MkChunk { data : list range; c_begin : Z; c_end : Z; c_count : Z }.

Abbreviation vector := (list Chunk) (only parsing).

Record iterator := It { outer : nat; offset : nat }.

#[export] Instance iterator_eq_dec : EqDecision iterator.
Proof. solve_decision. Defined.

(** [max_size]: 4 in debug builds, [4096 / sizeof(std::pair<size_t, size_t>)] in others.
    The code relies on it being even when it halves a chunk. *)
Class MaxSize := {
  max_size : nat;
  max_size_even : max_size = (2 * (max_size / 2))%nat;
  max_size_pos : (0 < max_size / 2)%nat
}.

Definition max_size_debug : MaxSize.
Proof. refine {| max_size := 4 |}; [done|]. by apply Nat.ltb_lt. Defined.
Definition max_size_release : MaxSize.
Proof. refine {| max_size := Nat.div 4096 16 |}; [done|]. by apply Nat.ltb_lt. Defined.

(** ** Iterators *)

Definition chunk_at (v : vector) (o : nat) : result Chunk :=
  match v !! o with Some c => Ok c | None => Err OutOfBounds end.

Definition range_at (c : Chunk) (i : nat) : result range :=
  match data c !! i with Some r => Ok r | None => Err OutOfBounds end.

Definition vec_end (v : vector) : iterator := It (length v) 0.
Definition vec_begin (v : vector) : iterator := match v with [] => vec_end v | _ => It 0 0 end.

Definition deref (v : vector) (it : iterator) : result range :=
  c ← chunk_at v (outer it); range_at c (offset it).

Definition next_chunk (it : iterator) : iterator := It (S (outer it)) 0.

Definition next (v : vector) (it : iterator) : result iterator :=
  c ← chunk_at v (outer it);
  let i := S (offset it) in
  Ok (if decide (i = length (data c)) then next_chunk it else It (outer it) i).

(** [operator--]: to the last range of the chunk before, from the first one of a chunk and
    from the end. *)
Definition prev (v : vector) (it : iterator) : result iterator :=
  match offset it, outer it with
  | S i, o => Ok (It o i)
  | O, O => Err OutOfBounds
  | O, S o =>
      c ← chunk_at v o;
      match length (data c) with O => Err OutOfBounds | S i => Ok (It o i) end
  end.

(** ** Mutation through an iterator *)

Definition is_back (c : Chunk) (i : nat) : bool := bool_decide (S i = length (data c)).

Definition it_set (v : vector) (it : iterator) (front back : Z) : result vector :=
  c ← chunk_at v (outer it);
  '(first, second) ← range_at c (offset it);
  let count := u64 (c_count c - u64 (second - first)) in
  let begin := if decide (offset it = 0%nat) then front else c_begin c in
  let end_ := if is_back c (offset it) then back else c_end c in
  let count := u64 (count + u64 (back - front)) in
  Ok (<[outer it := MkChunk (<[offset it := (front, back)]> (data c)) begin end_ count]> v).

Definition it_adjust (v : vector) (it : iterator) (front back : Z) : result vector :=
  c ← chunk_at v (outer it);
  '(first, second) ← range_at c (offset it);
  let begin := if decide (offset it = 0%nat) then u64 (c_begin c + front) else c_begin c in
  let end_ := if is_back c (offset it) then u64 (c_end c + back) else c_end c in
  let count := u64 (c_count c + (- front + back)) in
  Ok (<[outer it :=
        MkChunk (<[offset it := (u64 (first + front), u64 (second + back))]> (data c))
          begin end_ count]> v).

Definition it_shift (v : vector) (it : iterator) (distance : Z) : result vector :=
  c ← chunk_at v (outer it);
  '(first, second) ← range_at c (offset it);
  let begin := if decide (offset it = 0%nat) then u64 (c_begin c + distance) else c_begin c in
  let end_ := if is_back c (offset it) then u64 (c_end c + distance) else c_end c in
  Ok (<[outer it :=
        MkChunk (<[offset it := (u64 (first + distance), u64 (second + distance))]> (data c))
          begin end_ (c_count c)]> v).

Section operations.
Context `{MaxSize}.

Definition push_back (v : vector) (value : range) : result vector :=
  let fresh := MkChunk [value] (fst value) (snd value) (u64 (snd value - fst value)) in
  match last v with
  | Some c =>
      if decide (length (data c) < max_size)%nat then
        _ ← realm_assert (c_end c <=? fst value);
        Ok (<[pred (length v) :=
              MkChunk (data c ++ [value]) (c_begin c) (snd value)
                (u64 (c_count c + u64 (snd value - fst value)))]> v)
      else Ok (v ++ [fresh])
  | None => Ok (v ++ [fresh])
  end.

(** [moved_count += range.second - range.first] over the ranges moved. *)
Definition moved_count (l : list range) : Z :=
  foldl (fun n r => u64 (n + u64 (snd r - fst r))) 0 l.

(** [front().first] and [back().second]. *)
Definition front_first (l : list range) : result Z :=
  match l with r :: _ => Ok (fst r) | [] => Err OutOfBounds end.
Definition back_second (l : list range) : result Z :=
  match last l with Some r => Ok (snd r) | None => Err OutOfBounds end.

Definition ensure_space (v : vector) (pos : iterator) : result (vector * iterator) :=
  c ← chunk_at v (outer pos);
  if decide (length (data c) + 1 <= max_size)%nat then Ok (v, pos)
  else
    let to_move := (max_size / 2)%nat in
    let kept := take (length (data c) - to_move) (data c) in
    let moved := drop (length (data c) - to_move) (data c) in
    let n := moved_count moved in
    prev_end ← back_second kept;
    new_begin ← front_first moved;
    new_end ← back_second moved;
    let prev := MkChunk kept (c_begin c) prev_end (u64 (c_count c - n)) in
    let new_pos := MkChunk moved new_begin new_end n in
    Ok (take (outer pos) v ++ prev :: new_pos :: drop (S (outer pos)) v,
        if decide (to_move <= offset pos)%nat then It (S (outer pos)) (offset pos - to_move)
        else It (outer pos) (offset pos)).

Definition vec_insert (v : vector) (pos : iterator) (value : range)
  : result (vector * iterator) :=
  if decide (outer pos = length v) then
    v ← push_back v value;
    it ← prev v (vec_end v);
    Ok (v, it)
  else
    '(v, pos) ← ensure_space v pos;
    c ← chunk_at v (outer pos);
    Ok (<[outer pos :=
          MkChunk (take (offset pos) (data c) ++ value :: drop (offset pos) (data c))
            (Z.min (c_begin c) (fst value)) (Z.max (c_end c) (snd value))
            (u64 (c_count c + u64 (snd value - fst value)))]> v, pos).
End operations.

Definition vec_erase (v : vector) (pos : iterator) : result (vector * iterator) :=
  c ← chunk_at v (outer pos);
  r ← range_at c (offset pos);
  let count := u64 (c_count c - u64 (snd r - fst r)) in
  let d := delete (offset pos) (data c) in
  match d with
  | [] => Ok (delete (outer pos) v, It (outer pos) 0)
  | _ =>
      b ← front_first d;
      e ← back_second d;
      Ok (<[outer pos := MkChunk d b e count]> v,
          if decide (offset pos < length d)%nat then pos else next_chunk pos)
  end.

(** [verify()], the assertions of debug builds. *)
Fixpoint verify_ranges (prev_end : Z) (l : list range) : bool :=
  match l with
  | [] => true
  | (first, second) :: l =>
      (first <? second) && ((prev_end =? npos) || (prev_end <? first)) && verify_ranges second l
  end.

Definition verify_chunk (c : Chunk) : bool :=
  match front_first (data c), back_second (data c) with
  | Ok b, Ok e =>
      (b =? c_begin c) && (e =? c_end c) && (c_count c <=? u64 (c_end c - c_begin c)) &&
      (moved_count (data c) =? c_count c)
  | _, _ => false
  end.

(** All ranges, in order. *)
Definition ranges (v : vector) : list range := concat (data <$> v).

Definition verify (v : vector) : bool :=
  verify_ranges npos (ranges v) && forallb verify_chunk v.

(** ** The builder *)

Record ChunkedRangeVectorBuilder := Builder { b_data : vector; m_outer_pos : nat }.

Definition empty_chunk : Chunk := MkChunk [] 0 0 0.

Section builder.
Context `{MaxSize}.

Definition builder_make (expected : vector) : ChunkedRangeVectorBuilder :=
  let size := sum_list_with (fun c => length (data c)) expected in
  Builder (replicate (size / max_size + 1) empty_chunk) 0.

Definition builder_push_back (range : range) (b : ChunkedRangeVectorBuilder)
  : result ChunkedRangeVectorBuilder :=
  let width := u64 (snd range - fst range) in
  chunk ← chunk_at (b_data b) (m_outer_pos b);
  match last (data chunk) with
  | None =>
      Ok (Builder (<[m_outer_pos b := MkChunk [range] (fst range) (c_end chunk) width]> (b_data b))
            (m_outer_pos b))
  | Some back =>
      if fst range =? snd back then
        Ok (Builder (<[m_outer_pos b :=
                       MkChunk (<[pred (length (data chunk)) := (fst back, snd range)]> (data chunk))
                         (c_begin chunk) (c_end chunk) (u64 (c_count chunk + width))]> (b_data b))
              (m_outer_pos b))
      else if decide (length (data chunk) < max_size)%nat then
        Ok (Builder (<[m_outer_pos b :=
                       MkChunk (data chunk ++ [range]) (c_begin chunk) (c_end chunk)
                         (u64 (c_count chunk + width))]> (b_data b))
              (m_outer_pos b))
      else
        let m_data := <[m_outer_pos b :=
                        MkChunk (data chunk) (c_begin chunk) (snd back) (c_count chunk)]> (b_data b) in
        let m_outer_pos := S (m_outer_pos b) in
        if decide (length m_data <= m_outer_pos)%nat then
          Ok (Builder (m_data ++ [MkChunk [range] (fst range) 0 1]) m_outer_pos)
        else
          chunk ← chunk_at m_data m_outer_pos;
          Ok (Builder (<[m_outer_pos :=
                         MkChunk (data chunk ++ [range]) (fst range) (c_end chunk) width]> m_data)
                m_outer_pos)
  end.

Definition builder_push_index (index : Z) : ChunkedRangeVectorBuilder ->
    result ChunkedRangeVectorBuilder :=
  builder_push_back (index, u64 (index + 1)).

Definition builder_finalize (b : ChunkedRangeVectorBuilder) : result vector :=
  match b_data b with
  | [] => Ok []
  | _ =>
      let m_data := take (S (m_outer_pos b)) (b_data b) in
      match last m_data with
      | None => Err OutOfBounds
      | Some back =>
          match last (data back) with
          | None => Ok (take (pred (length m_data)) m_data)
          | Some r =>
              Ok (<[pred (length m_data) :=
                    MkChunk (data back) (c_begin back) (snd r) (c_count back)]> m_data)
          end
      end
  end.
End builder.

(** ** The invariant *)

Definition width (l : list range) : Z := foldr (fun r n => snd r - fst r + n) 0 l.

Lemma width_app l1 l2 : width (l1 ++ l2) = width l1 + width l2.
Proof. induction l1 as [|r l1 IH]; simpl; lia. Qed.

Lemma moved_count_width l : moved_count l = u64 (width l).
Proof.
  unfold moved_count. enough (forall n, foldl (fun n r => u64 (n + u64 (snd r - fst r))) (u64 n) l
    = u64 (n + width l)) as He by exact (He 0).
  induction l as [|r l IH]; intros n; cbn [foldl width foldr].
  - by rewrite Z.add_0_r.
  - rewrite u64_add_l, u64_add_r. fold (width l). rewrite IH. f_equal. lia.
Qed.

Definition hd_first (l : list range) (b : Z) : Prop := fst <$> head l = Some b.
Definition last_second (l : list range) (e : Z) : Prop := snd <$> last l = Some e.

Section invariant.
Context `{MaxSize}.

(** The caches of a chunk are right, except for the number of indices. *)
Record chunk_bounds (c : Chunk) : Prop := {
  cb_size : (length (data c) <= max_size)%nat;
  cb_begin : hd_first (data c) (c_begin c);
  cb_end : last_second (data c) (c_end c)
}.

Record chunk_ok (c : Chunk) : Prop := {
  co_bounds : chunk_bounds c;
  co_count : c_count c = u64 (width (data c))
}.

Definition wf_vec (v : vector) : Prop := Forall chunk_ok v.

Lemma ranges_app v1 v2 : ranges (v1 ++ v2) = ranges v1 ++ ranges v2.
Proof. unfold ranges. by rewrite fmap_app, concat_app. Qed.

Lemma ranges_cons c v : ranges (c :: v) = data c ++ ranges v.
Proof. done. Qed.

Lemma ranges_singleton c : ranges [c] = data c.
Proof. apply app_nil_r. Qed.

Lemma ranges_middle va c vb : ranges (va ++ c :: vb) = ranges va ++ data c ++ ranges vb.
Proof. by rewrite ranges_app. Qed.

Lemma chunk_nonempty c : chunk_ok c -> data c <> [].
Proof. intros [[_ Hb _] _] E. unfold hd_first in Hb. by rewrite E in Hb. Qed.

Lemma wf_middle va c vb : wf_vec (va ++ c :: vb) <-> wf_vec va /\ chunk_ok c /\ wf_vec vb.
Proof. unfold wf_vec. by rewrite Forall_app, Forall_cons. Qed.

Lemma ranges_nil v : wf_vec v -> ranges v = [] -> v = [].
Proof.
  intros Hv. destruct v as [|c v]; [done|]. apply Forall_cons in Hv as [Hc _].
  rewrite ranges_cons. intros [E _]%app_nil. by apply chunk_nonempty in Hc.
Qed.

Lemma chunk_at_middle va c vb : chunk_at (va ++ c :: vb) (length va) = Ok c.
Proof. unfold chunk_at. by rewrite list_lookup_middle. Qed.

Lemma insert_middle {A} (l1 l2 : list A) x y : <[length l1 := y]> (l1 ++ x :: l2) = l1 ++ y :: l2.
Proof. by rewrite insert_app_r_alt, Nat.sub_diag by lia. Qed.

Lemma drop_middle {A} (l1 l2 : list A) x : drop (S (length l1)) (l1 ++ x :: l2) = l2.
Proof. replace (S (length l1)) with (length l1 + 1)%nat by lia. by rewrite drop_app_add. Qed.

(** The iterator [it] splits the ranges of [v] in those before and those from it on. *)
Inductive at_pos (v : vector) : iterator -> list range -> list range -> Prop :=
| at_end : wf_vec v -> at_pos v (It (length v) 0) (ranges v) []
| at_in va c vb d1 r d2 :
    v = va ++ c :: vb -> wf_vec v -> data c = d1 ++ r :: d2 ->
    at_pos v (It (length va) (length d1)) (ranges va ++ d1) (r :: d2 ++ ranges vb).

Lemma at_wf v it pre post : at_pos v it pre post -> wf_vec v.
Proof. by destruct 1. Qed.

Lemma at_ranges v it pre post : at_pos v it pre post -> ranges v = pre ++ post.
Proof.
  destruct 1 as [|va c vb d1 r d2 -> _ E]; [by rewrite app_nil_r|].
  by rewrite ranges_middle, E, <- !app_assoc.
Qed.

(** The first position of a chunk, or the end. *)
Lemma at_chunk_start va vb :
  wf_vec (va ++ vb) -> at_pos (va ++ vb) (It (length va) 0) (ranges va) (ranges vb).
Proof.
  intros Hv. destruct vb as [|c vb].
  - rewrite app_nil_r in *. by apply at_end.
  - apply wf_middle in Hv as Hc. destruct Hc as (_ & Hc & _). pose proof (chunk_nonempty c Hc).
    destruct (data c) as [|r d] eqn:E; [done|]. rewrite ranges_cons, E.
    pose proof (at_in _ va c vb [] r d eq_refl Hv E) as Ha. by rewrite app_nil_r in Ha.
Qed.

Lemma at_begin v : wf_vec v -> at_pos v (vec_begin v) [] (ranges v).
Proof.
  intros Hv. destruct v as [|c v]; [by apply at_end|]. apply (at_chunk_start [] (c :: v) Hv).
Qed.

Lemma at_is_end v it pre post : at_pos v it pre post -> (it = vec_end v <-> post = []).
Proof.
  destruct 1 as [|va c vb d1 r d2 -> _ E]; [done|]. unfold vec_end. rewrite length_app. simpl.
  split; [|done]. intros [=]. lia.
Qed.

Lemma at_is_begin v it pre post : at_pos v it pre post -> (it = vec_begin v <-> pre = []).
Proof.
  destruct 1 as [Hv|va c vb d1 r d2 -> Hv E].
  - destruct v as [|c v]; [done|]. simpl. split; [intros [=]|].
    intros Hr. by apply ranges_nil in Hr.
  - assert (vec_begin (va ++ c :: vb) = It 0 0) as -> by (by destruct va). split.
    + intros [= Ha Hd]. apply nil_length_inv in Ha as ->. by apply nil_length_inv in Hd as ->.
    + intros [Ha ->]%app_nil. apply wf_middle in Hv as [Hv _]. by apply ranges_nil in Ha as ->.
Qed.

(** Two iterators at the same place are the same. *)
Lemma at_inj v it1 it2 pre post :
  at_pos v it1 pre post -> at_pos v it2 pre post -> it1 = it2.
Proof.
  intros H1 H2. destruct post as [|r post].
  { apply at_is_end in H1 as [_ ->]; [|done]. by apply at_is_end in H2 as [_ ->]. }
  inversion H1 as [|va c vb d1 r1 d2 Ev Hv E]; subst.
  inversion H2 as [|va' c' vb' d1' r1' d2' Ev' _ E']; subst.
  assert (forall wa wa' w w' e e' s s',
    wf_vec (wa ++ w) -> wa ++ w = wa' ++ w' -> ranges wa ++ e = ranges wa' ++ e' ->
    head (data <$> w) = Some (e ++ s) -> s <> [] -> head (data <$> w') = Some (e' ++ s') ->
    s' <> [] -> length wa = length wa' /\ length e = length e') as Hlen.
  { clear. intros wa. induction wa as [|x wa IH]; intros wa' w w' e e' s s' Hw Ew Er Es Hs Es' Hs'.
    - destruct wa' as [|x' wa']; [simpl in *; by rewrite Er|]. simpl in *. subst w. simpl in *.
      injection Es as Es. rewrite ranges_cons in Er.
      exfalso. apply Hs. apply (f_equal length) in Er, Es.
      destruct s; [done|]. rewrite !length_app in *. simpl in *. lia.
    - destruct wa' as [|x' wa']; simpl in *.
      + subst w'. simpl in Es'. injection Es' as Es'. rewrite ranges_cons in Er.
        exfalso. apply (f_equal length) in Er, Es'. destruct s'; [done|].
        rewrite !length_app in *. simpl in *. lia.
      + injection Ew as -> Ew. rewrite !ranges_cons, <- !app_assoc in Er.
        apply app_inv_head in Er. apply Forall_cons in Hw as [_ Hw].
        destruct (IH wa' w w' e e' s s' Hw Ew Er Es Hs Es' Hs') as [? ?]. auto. }
  destruct (Hlen va va' (c :: vb) (c' :: vb') d1 d1' (r :: d2) (r :: d2')) as [-> ->];
    simpl; rewrite ?E, ?E'; try done; congruence.
Qed.

Lemma at_deref v it pre r post : at_pos v it pre (r :: post) -> deref v it = Ok r.
Proof.
  inversion 1 as [|va c vb d1 r1 d2 -> Hv E]; subst. unfold deref. simpl.
  rewrite chunk_at_middle. simpl. unfold range_at. by rewrite E, list_lookup_middle.
Qed.

Lemma at_next v it pre r post :
  at_pos v it pre (r :: post) -> exists it', next v it = Ok it' /\ at_pos v it' (pre ++ [r]) post.
Proof.
  inversion 1 as [|va c vb d1 r1 d2 -> Hv E]; subst. unfold next. simpl.
  rewrite chunk_at_middle. simpl. rewrite E, length_app. simpl.
  eexists; split; [done|]. case_decide as Hd.
  - assert (d2 = []) as -> by (apply nil_length_inv; lia). unfold next_chunk. simpl.
    pose proof (at_chunk_start (va ++ [c]) vb) as Ha.
    rewrite <- app_assoc, length_app, Nat.add_1_r, ranges_app, ranges_cons, app_nil_r, E in Ha.
    simpl in Ha. rewrite <- app_assoc. by apply Ha.
  - destruct d2 as [|r2 d2]; [simpl in Hd; lia|].
    pose proof (at_in _ va c vb (d1 ++ [r]) r2 d2 eq_refl Hv) as Ha.
    rewrite length_app, Nat.add_1_r in Ha. rewrite <- app_assoc. apply Ha.
    by rewrite E, <- app_assoc.
Qed.

Lemma at_prev v it pre r post :
  at_pos v it (pre ++ [r]) post -> exists it', prev v it = Ok it' /\ at_pos v it' pre (r :: post).
Proof.
  (* the last range of the chunks before *)
  assert (forall va vb, wf_vec (va ++ vb) -> ranges va = pre ++ [r] ->
    exists it', prev (va ++ vb) (It (length va) 0) = Ok it' /\
                at_pos (va ++ vb) it' pre (r :: ranges vb)) as Hlast.
  { intros va vb Hv Er. destruct va as [|c va _] using rev_ind.
    { by destruct pre. }
    rewrite <- app_assoc in *. simpl in *.
    assert (wf_vec (va ++ c :: vb)) as Hv' by done.
    apply wf_middle in Hv' as (_ & Hc & _). pose proof (chunk_nonempty c Hc) as Hne.
    destruct (data c) as [|r0 d _] eqn:Ed using rev_ind; [done|].
    rewrite ranges_app, ranges_cons, app_nil_r, Ed, app_assoc in Er.
    apply app_inj_tail in Er as [<- ->].
    unfold prev. simpl. rewrite length_app, Nat.add_1_r, chunk_at_middle. simpl.
    rewrite Ed, length_app, Nat.add_1_r. eexists; split; [done|].
    exact (at_in _ va c vb d r [] eq_refl Hv Ed). }
  intros Ha. inversion Ha as [Hv|va c vb d1 r1 d2 Ev Hv E]; subst.
  - specialize (Hlast v []). rewrite app_nil_r in Hlast. by apply Hlast.
  - destruct d1 as [|r0 d1 _] using rev_ind.
    + rewrite app_nil_r in *. destruct (Hlast va (c :: vb)) as (it' & E1 & A1); [done|done|].
      exists it'. split; [done|]. rewrite ranges_cons, E in A1. done.
    + rewrite app_assoc in *. match goal with Hx : _ ++ [r0] = _ ++ [r] |- _ =>
        apply app_inj_tail in Hx as [<- ->] end.
      unfold prev. simpl. rewrite length_app, Nat.add_1_r. simpl. eexists; split; [done|].
      apply (at_in _ va c vb d1 r (r1 :: d2) eq_refl Hv). by rewrite E, <- app_assoc.
Qed.

(** ** Mutations keep the caches right *)

Lemma hd_first_app d1 r d2 b :
  hd_first (d1 ++ r :: d2) b <-> match d1 with [] => fst r = b | r1 :: _ => fst r1 = b end.
Proof. unfold hd_first. destruct d1; simpl; naive_solver. Qed.

Lemma last_second_app d1 r d2 e :
  last_second (d1 ++ r :: d2) e <-> match last d2 with None => snd r = e | Some r2 => snd r2 = e end.
Proof.
  unfold last_second. rewrite last_app, last_cons. destruct (last d2); simpl; naive_solver.
Qed.

(** Replace one range of a chunk. *)
Lemma chunk_replace c d1 r d2 r' begin end_ count :
  chunk_ok c -> data c = d1 ++ r :: d2 ->
  (d1 = [] -> begin = fst r') -> (d1 <> [] -> begin = c_begin c) ->
  (d2 = [] -> end_ = snd r') -> (d2 <> [] -> end_ = c_end c) ->
  count = u64 (c_count c - (snd r - fst r) + (snd r' - fst r')) ->
  chunk_ok (MkChunk (d1 ++ r' :: d2) begin end_ count).
Proof.
  intros [[Hs Hb He] Hc] E Hb1 Hb2 He1 He2 ->. rewrite E in *. split; [split|]; simpl.
  - rewrite length_app in *. done.
  - rewrite hd_first_app in *. destruct d1; [by rewrite Hb1|by rewrite Hb2].
  - rewrite last_second_app in *. destruct (last d2) as [r2|] eqn:El.
    + rewrite He2; [done|]. by intros ->.
    + apply last_None in El. by rewrite He1.
  - rewrite Hc, !width_app. simpl. unfold u64. rewrite Zplus_mod. rewrite Zminus_mod_idemp_l.
    rewrite <- Zplus_mod. f_equal. lia.
Qed.

Lemma replace_at va c vb d1 r d2 r' begin end_ count :
  wf_vec (va ++ c :: vb) -> data c = d1 ++ r :: d2 ->
  chunk_ok (MkChunk (d1 ++ r' :: d2) begin end_ count) ->
  at_pos (va ++ MkChunk (d1 ++ r' :: d2) begin end_ count :: vb)
    (It (length va) (length d1)) (ranges va ++ d1) (r' :: d2 ++ ranges vb).
Proof.
  intros Hv E Hc. apply at_in with (c := MkChunk (d1 ++ r' :: d2) begin end_ count); [done| |done].
  apply wf_middle in Hv. apply wf_middle. tauto.
Qed.

Lemma is_back_app c d1 r d2 : data c = d1 ++ r :: d2 -> is_back c (length d1) = bool_decide (d2 = []).
Proof.
  intros E. unfold is_back. rewrite E, length_app. simpl. apply bool_decide_ext.
  rewrite <- length_zero_iff_nil. lia.
Qed.

Lemma length_0_decide {A} {B : Type} (l : list A) (x y : B) :
  (if decide (length l = 0%nat) then x else y) = match l with [] => x | _ => y end.
Proof. by destruct l. Qed.

Ltac inversion_at :=
  match goal with
  | Ha : at_pos ?v ?it ?pre (?r :: ?post) |- _ =>
      inversion Ha as [|va c vb d1 r1 d2 -> Hv E]; subst; clear Ha
  end.

(** The sizes of the chunks; positions depend on nothing else. *)
Definition shape (v : vector) : list nat := (fun c => length (data c)) <$> v.

Lemma length_ranges v : length (ranges v) = sum_list (shape v).
Proof. induction v as [|c v IH]; [done|]. rewrite ranges_cons, length_app, IH. done. Qed.

Lemma shape_replace va c vb d1 r d2 r' begin end_ count :
  data c = d1 ++ r :: d2 ->
  shape (va ++ MkChunk (d1 ++ r' :: d2) begin end_ count :: vb) = shape (va ++ c :: vb).
Proof.
  intros E. unfold shape. rewrite !fmap_app, !fmap_cons. simpl. rewrite E, !length_app. done.
Qed.

Lemma at_shape v v' it pre post pre' post' :
  at_pos v it pre post -> wf_vec v' -> shape v' = shape v -> ranges v' = pre' ++ post' ->
  length pre' = length pre -> at_pos v' it pre' post'.
Proof.
  intros Ha Hv' Hsh Er Hl. destruct Ha as [Hv|va c vb d1 r d2 -> Hv E].
  - assert (length (ranges v') = length (ranges v)) as Hlen by (by rewrite !length_ranges, Hsh).
    rewrite Er, length_app in Hlen. assert (post' = []) as -> by (apply nil_length_inv; lia).
    apply (f_equal length) in Hsh. unfold shape in Hsh. rewrite !length_fmap in Hsh.
    rewrite app_nil_r in Er. subst pre'. rewrite <- Hsh. by apply at_end.
  - unfold shape in Hsh. rewrite fmap_app, fmap_cons in Hsh.
    apply fmap_app_inv in Hsh as (va' & w & Ha & Hw & ->).
    symmetry in Hw. apply fmap_cons_inv in Hw as (c' & vb' & Hc & Hb & ->).
    assert (length va' = length va) as <-
      by (apply (f_equal length) in Ha; rewrite !length_fmap in Ha; done).
    assert (length (ranges va') = length (ranges va)) as Hra
      by (rewrite !length_ranges; unfold shape; by rewrite Ha).
    rewrite E in Hc. rewrite length_app in Hc. cbn [length] in Hc.
    destruct (drop (length d1) (data c')) as [|r' d2'] eqn:Ed.
    { apply (f_equal length) in Ed. rewrite length_drop in Ed. cbn [length] in Ed. lia. }
    assert (data c' = take (length d1) (data c') ++ r' :: d2') as Ec by (by rewrite <- Ed, take_drop).
    assert (length (take (length d1) (data c')) = length d1) as Ht by (rewrite length_take; lia).
    rewrite ranges_middle, Ec, <- app_assoc, app_assoc in Er.
    apply app_inj_1 in Er as [<- <-].
    + rewrite <- Ht at 1. by apply (at_in _ va' c' vb' _ r' d2').
    + rewrite Hl, !length_app, Ht. lia.
Qed.

Lemma at_set v it pre r post a b :
  at_pos v it pre (r :: post) ->
  exists v', it_set v it a b = Ok v' /\ shape v' = shape v /\ at_pos v' it pre ((a, b) :: post).
Proof.
  intros Ha. inversion_at. unfold it_set. simpl. rewrite chunk_at_middle. simpl.
  unfold range_at. rewrite E, list_lookup_middle by done. destruct r as [f s].
  cbn [mbind result_bind]. eexists; split; [done|]. rewrite !insert_middle.
  split; [by eapply shape_replace|].
  rewrite (is_back_app _ _ _ _ E), length_0_decide.
  eapply replace_at; [done|done|]. apply wf_middle in Hv as (_ & Hc & _).
  eapply chunk_replace; [done|done|..]; simpl.
  - by intros ->.
  - by destruct d1.
  - by intros ->.
  - intros. by rewrite bool_decide_eq_false_2.
  - unfold u64. rewrite Zminus_mod_idemp_r, Zplus_mod_idemp_r, Zplus_mod_idemp_l. done.
Qed.

Lemma at_adjust v it pre f s post front back :
  at_pos v it pre ((f, s) :: post) ->
  exists v', it_adjust v it front back = Ok v' /\ shape v' = shape v /\
    (0 <= f + front < word_size -> 0 <= s + back < word_size ->
     at_pos v' it pre ((f + front, s + back) :: post)).
Proof.
  intros Ha. inversion_at. unfold it_adjust. simpl. rewrite chunk_at_middle. simpl.
  unfold range_at. rewrite E, list_lookup_middle by done.
  cbn [mbind result_bind]. eexists; split; [done|]. rewrite !insert_middle.
  split; [by eapply shape_replace|]. intros Hf Hs.
  rewrite (is_back_app _ _ _ _ E), length_0_decide, !(u64_small (_ + _)) by done.
  eapply replace_at; [done|done|]. apply wf_middle in Hv as (_ & Hc & _).
  pose proof Hc as [[_ Hb He] _]. rewrite E, hd_first_app in Hb. rewrite E, last_second_app in He.
  eapply chunk_replace; [done|done|..]; simpl.
  - intros ->. simpl in Hb. subst f. by apply u64_small.
  - by destruct d1.
  - intros ->. simpl in He. subst s. by apply u64_small.
  - intros. by rewrite bool_decide_eq_false_2.
  - f_equal. lia.
Qed.

Lemma at_shift v it pre f s post distance :
  at_pos v it pre ((f, s) :: post) ->
  exists v', it_shift v it distance = Ok v' /\ shape v' = shape v /\
    (0 <= f + distance < word_size -> 0 <= s + distance < word_size ->
     at_pos v' it pre ((f + distance, s + distance) :: post)).
Proof.
  intros Ha. inversion_at. unfold it_shift. simpl. rewrite chunk_at_middle. simpl.
  unfold range_at. rewrite E, list_lookup_middle by done.
  cbn [mbind result_bind]. eexists; split; [done|]. rewrite !insert_middle.
  split; [by eapply shape_replace|]. intros Hf Hs.
  rewrite (is_back_app _ _ _ _ E), length_0_decide, !(u64_small (_ + _)) by done.
  eapply replace_at; [done|done|]. apply wf_middle in Hv as (_ & Hc & _).
  pose proof Hc as [[_ Hb He] Hcount]. rewrite E, hd_first_app in Hb. rewrite E, last_second_app in He.
  eapply chunk_replace; [done|done|..]; simpl.
  - intros ->. simpl in Hb. subst f. by apply u64_small.
  - by destruct d1.
  - intros ->. simpl in He. subst s. by apply u64_small.
  - intros. by rewrite bool_decide_eq_false_2.
  - replace (c_count c - (s - f) + (s + distance - (f + distance))) with (c_count c) by lia.
    rewrite Hcount. symmetry. apply u64_small, u64_range.
Qed.

(** ** Insertion and removal *)

Definition before (x : Z) (l : list range) : Prop := Forall (fun p => fst p <= snd p <= x) l.
Definition after (x : Z) (l : list range) : Prop := Forall (fun p => x <= fst p <= snd p) l.

Lemma single_chunk_ok r : chunk_ok (MkChunk [r] (fst r) (snd r) (u64 (snd r - fst r))).
Proof.
  pose proof max_size_pos. pose proof max_size_even.
  split; [split; simpl; [lia|done|done]|]. simpl. f_equal. lia.
Qed.

Lemma before_last l r x : before x l -> last l = Some r -> snd r <= x.
Proof. intros Hb Hl. apply last_Some_elem_of in Hl. unfold before in Hb. rewrite Forall_forall in Hb. by apply Hb. Qed.

(** Append a range to a chunk that has room. *)
Lemma chunk_append c r :
  chunk_ok c -> (length (data c) < max_size)%nat ->
  chunk_ok (MkChunk (data c ++ [r]) (c_begin c) (snd r) (u64 (c_count c + u64 (snd r - fst r)))).
Proof.
  intros Hc Hl. pose proof (chunk_nonempty c Hc). destruct Hc as [[_ Hb _] Hn].
  split; [split; simpl|]; simpl.
  - rewrite length_app. simpl. lia.
  - destruct (data c); [done|]. exact Hb.
  - by apply last_second_app.
  - rewrite Hn, u64_add_l, u64_add_r, width_app. simpl. f_equal. lia.
Qed.

Lemma push_back_spec v r :
  wf_vec v -> before (fst r) (ranges v) ->
  exists v', push_back v r = Ok v' /\ wf_vec v' /\ ranges v' = ranges v ++ [r].
Proof.
  intros Hv Hb. unfold push_back. destruct v as [|c va _] using rev_ind.
  - eexists; split; [done|]. split; [|done]. apply Forall_singleton, single_chunk_ok.
  - rewrite last_snoc. apply wf_middle in Hv as (Hva & Hc & _). case_decide as Hd.
    + destruct (Z.leb_spec (c_end c) (fst r)) as [|Hlt].
      * cbn. rewrite length_app, Nat.add_1_r. cbn [pred]. rewrite (insert_middle va []).
        eexists; split; [done|]. split; [|by rewrite !ranges_app, !ranges_singleton, <- app_assoc].
        apply wf_middle. split_and!; [done| |by apply Forall_nil]. by apply chunk_append.
      * exfalso. destruct Hc as [[_ _ He] _]. unfold last_second in He.
        destruct (last (data c)) as [r2|] eqn:El; [|done]. injection He as He.
        rewrite ranges_app, ranges_cons, app_nil_r in Hb. unfold before in Hb.
        apply Forall_app in Hb as [_ Hb]. pose proof (before_last _ _ _ Hb El). lia.
    + eexists; split; [done|]. split.
      * apply Forall_app. split; [by apply Forall_app; split; [|apply Forall_singleton]|].
        apply Forall_singleton, single_chunk_ok.
      * by rewrite (ranges_app (va ++ [c])).
Qed.

Lemma front_first_app r l : front_first (r :: l) = Ok (fst r).
Proof. done. Qed.

Lemma back_second_some l : l <> [] -> exists r, last l = Some r /\ back_second l = Ok (snd r).
Proof.
  intros Hl. unfold back_second. destruct (last l) eqn:E; [eauto|]. by apply last_None in E.
Qed.

(** The halves of a full chunk. *)
Lemma split_chunk_ok c n :
  chunk_ok c -> (0 < n < length (data c))%nat ->
  exists e1 b2 e2,
    back_second (take n (data c)) = Ok e1 /\ front_first (drop n (data c)) = Ok b2 /\
    back_second (drop n (data c)) = Ok e2 /\
    chunk_ok (MkChunk (take n (data c)) (c_begin c) e1
                (u64 (c_count c - moved_count (drop n (data c))))) /\
    chunk_ok (MkChunk (drop n (data c)) b2 e2 (moved_count (drop n (data c)))).
Proof.
  intros [[Hs Hb He] Hn] Hl.
  assert (take n (data c) <> []) as H1
    by (intros E; apply (f_equal length) in E; rewrite length_take in E; simpl in E; lia).
  assert (drop n (data c) <> []) as H2
    by (intros E; apply (f_equal length) in E; rewrite length_drop in E; simpl in E; lia).
  destruct (back_second_some _ H1) as (r1 & L1 & E1), (back_second_some _ H2) as (r2 & L2 & E2).
  destruct (drop n (data c)) as [|r3 d] eqn:E3; [done|].
  exists (snd r1), (fst r3), (snd r2). split_and!; try done; rewrite moved_count_width.
  - split; [split; simpl|]; simpl.
    + rewrite length_take. lia.
    + unfold hd_first in *. rewrite <- Hb. f_equal. clear - Hl.
      destruct n; [lia|]. by destruct (data c).
    + unfold last_second. by rewrite L1.
    + rewrite u64_sub_r, Hn, u64_sub_l. f_equal.
      assert (width (data c) = width (take n (data c)) + width (r3 :: d)) as ->
        by (by rewrite <- E3, <- width_app, take_drop). simpl. lia.
  - split; [split; simpl|]; simpl.
    + apply (f_equal length) in E3. rewrite length_drop in E3. simpl in E3. lia.
    + done.
    + unfold last_second. by rewrite L2.
    + done.
Qed.

Lemma ensure_space_spec v it pre r post :
  at_pos v it pre (r :: post) ->
  exists va c vb d1 d2,
    ensure_space v it = Ok (va ++ c :: vb, It (length va) (length d1)) /\
    wf_vec (va ++ c :: vb) /\ data c = d1 ++ r :: d2 /\ (length (data c) < max_size)%nat /\
    ranges va ++ d1 = pre /\ d2 ++ ranges vb = post.
Proof.
  intros Ha. inversion_at. unfold ensure_space. cbn [outer offset].
  rewrite chunk_at_middle. cbn [mbind result_bind].
  case_decide as Hd.
  { exists va, c, vb, d1, d2. split_and!; try done. lia. }
  pose proof max_size_even as Hev. pose proof max_size_pos as Hpos.
  apply wf_middle in Hv as (Hva & Hc & Hvb). pose proof Hc as [[Hs _ _] _].
  set (h := (max_size / 2)%nat) in *.
  cbv zeta. assert (length (data c) - h = h)%nat as -> by lia.
  destruct (split_chunk_ok c h Hc ltac:(lia)) as (e1 & b2 & e2 & -> & -> & -> & C1 & C2).
  cbn [mbind result_bind]. rewrite take_app_length, drop_middle.
  rewrite E in *. rewrite length_app in Hs, Hd. simpl in Hs, Hd.
  case_decide as Hh.
  - rewrite (take_app_le d1), (drop_app_le d1) in * by lia.
    eexists (va ++ [_]), _, vb, (drop h d1), d2. rewrite <- app_assoc. cbn [app data].
    rewrite length_app, Nat.add_1_r, length_drop. split_and!; try done.
    + rewrite wf_middle. split_and!; [done|done|]. apply Forall_cons. done.
    + cbn [data]. rewrite length_app, length_drop. simpl. lia.
    + rewrite ranges_app, ranges_cons, app_nil_r, <- app_assoc. cbn [data]. by rewrite take_drop.
  - rewrite (take_app_ge d1), (drop_app_ge d1) in * by lia.
    destruct (h - length d1)%nat as [|k] eqn:Ek; [lia|]. cbn [take drop] in *.
    eexists va, _, (_ :: vb), d1, (take k d2). cbn [data]. split_and!; try done.
    + rewrite wf_middle. split_and!; [done|done|]. apply Forall_cons. done.
    + cbn [data]. rewrite length_app. simpl. rewrite length_take. lia.
    + rewrite ranges_cons, app_assoc. cbn [data]. by rewrite take_drop.
Qed.

Lemma before_app x l1 l2 : before x (l1 ++ l2) <-> before x l1 /\ before x l2.
Proof. apply Forall_app. Qed.

Lemma after_app x l1 l2 : after x (l1 ++ l2) <-> after x l1 /\ after x l2.
Proof. apply Forall_app. Qed.

Lemma at_insert v it pre post r :
  at_pos v it pre post -> before (fst r) pre -> after (snd r) post -> fst r <= snd r ->
  exists v' it', vec_insert v it r = Ok (v', it') /\ at_pos v' it' pre (r :: post).
Proof.
  intros Ha Hb Haf Hr. unfold vec_insert. destruct post as [|r0 post].
  { apply at_is_end in Ha as Hit. destruct Hit as [_ ->]; [|done].
    pose proof (at_ranges _ _ _ _ Ha) as Er. rewrite app_nil_r in Er. apply at_wf in Ha as Hv.
    simpl. rewrite decide_True by done. destruct (push_back_spec v r Hv) as (v' & -> & Hv' & Er');
      [by rewrite Er|]. cbn [mbind result_bind].
    destruct (at_prev v' (vec_end v') pre r []) as (it' & -> & Ha').
    - rewrite Er, <- Er' in *. by apply at_end.
    - cbn. eauto. }
  rewrite decide_False.
  2: { inversion_at. simpl. rewrite length_app. simpl. lia. }
  destruct (ensure_space_spec _ _ _ _ _ Ha) as (va & c & vb & d1 & d2 & -> & Hv & E & Hl & <- & <-).
  cbn [mbind result_bind outer offset]. rewrite chunk_at_middle. cbn [mbind result_bind].
  rewrite insert_middle, E, take_app_length, drop_app_length.
  eexists _, _. split; [done|].
  apply wf_middle in Hv as (Hva & Hc & Hvb). pose proof Hc as [[Hs Hbeg Hend] Hn].
  apply before_app in Hb as [_ Hb]. rewrite app_comm_cons in Haf. apply after_app in Haf as [Haf _].
  eapply at_in with (d2 := r0 :: d2); [reflexivity| |reflexivity].
  apply wf_middle. split_and!; [done| |done]. rewrite E in *.
  split; [split|]; simpl.
  - rewrite length_app in *. simpl in *. lia.
  - rewrite hd_first_app in *. destruct d1 as [|r1 d1].
    + apply Forall_cons in Haf as [? _]. lia.
    + apply Forall_cons in Hb as [? _]. lia.
  - rewrite last_second_app in *. rewrite last_cons. destruct (last d2) as [r2|] eqn:El.
    + apply last_Some_elem_of in El. apply Forall_cons in Haf as [_ Haf].
      unfold after in Haf. rewrite Forall_forall in Haf. specialize (Haf _ El). lia.
    + apply Forall_cons in Haf as [? _]. lia.
  - rewrite Hn, u64_add_l, u64_add_r, !width_app. simpl. f_equal. lia.
Qed.

Lemma delete_middle {A} (l1 l2 : list A) x : delete (length l1) (l1 ++ x :: l2) = l1 ++ l2.
Proof. by rewrite delete_take_drop, take_app_length, drop_middle. Qed.

Lemma at_erase v it pre r post :
  at_pos v it pre (r :: post) ->
  exists v' it', vec_erase v it = Ok (v', it') /\ at_pos v' it' pre post.
Proof.
  intros Ha. inversion_at. unfold vec_erase. simpl. rewrite chunk_at_middle. simpl.
  unfold range_at. rewrite E, list_lookup_middle by done. cbn [mbind result_bind].
  rewrite delete_middle. apply wf_middle in Hv as (Hva & Hc & Hvb).
  destruct (d1 ++ d2) as [|r0 d] eqn:Ed.
  { apply app_nil in Ed as [-> ->]. rewrite delete_middle, app_nil_r. simpl.
    eexists _, _; split; [done|]. apply at_chunk_start. by apply Forall_app. }
  destruct (back_second_some (r0 :: d)) as (r3 & L3 & E3); [done|].
  rewrite front_first_app, E3. cbn [mbind result_bind]. rewrite insert_middle.
  eexists _, _; split; [done|].
  assert (chunk_ok (MkChunk (r0 :: d) (fst r0) (snd r3) (u64 (c_count c - u64 (snd r - fst r))))) as Hc'.
  { pose proof Hc as [[Hs _ _] Hn]. rewrite E in *. split; [split|]; cbn [data c_begin c_end c_count].
    - apply (f_equal length) in Ed. rewrite length_app in *. simpl in *. lia.
    - done.
    - unfold last_second. by rewrite L3.
    - rewrite <- Ed, Hn, u64_sub_l, u64_sub_r, !width_app. simpl. f_equal. lia. }
  rewrite <- Ed in *. rewrite length_app. case_decide as Hd.
  - destruct d2 as [|r2 d2]; [simpl in Hd; lia|].
    eapply at_in; [reflexivity| |reflexivity].
    by apply wf_middle.
  - assert (d2 = []) as -> by (apply nil_length_inv; lia). rewrite app_nil_r in *. simpl.
    pose proof (at_chunk_start (va ++ [MkChunk d1 (fst r0) (snd r3)
      (u64 (c_count c - u64 (snd r - fst r)))]) vb) as Hs.
    rewrite <- app_assoc, length_app, Nat.add_1_r, ranges_app, ranges_cons, app_nil_r in Hs.
    apply Hs. by apply wf_middle.
Qed.

(** The chunk an iterator is at the start of. *)
Lemma at_chunk v it pre r post :
  at_pos v it pre (r :: post) -> offset it = 0%nat ->
  exists c rest, chunk_at v (outer it) = Ok c /\ chunk_ok c /\ r :: post = data c ++ rest /\
    at_pos v (next_chunk it) (pre ++ data c) rest.
Proof.
  intros Ha Ho. inversion_at. simpl in *. apply nil_length_inv in Ho as ->.
  exists c, (ranges vb). rewrite chunk_at_middle, E, app_nil_r. apply wf_middle in Hv as Hc.
  split_and!; [done|apply Hc|done|]. rewrite <- E.
  pose proof (at_chunk_start (va ++ [c]) vb) as Hs.
  rewrite <- app_assoc, length_app, Nat.add_1_r, ranges_app, ranges_cons, app_nil_r in Hs.
  by apply Hs.
Qed.
End invariant.
