(* ===== verification/RangeList.v ===== *)
(** The sets of indices that lists of ranges stand for: sorted lists of disjoint,
    non-adjacent ranges, membership, the number of members in an interval, and the effect on
    them of the changes the index set makes to its ranges. *)

From S2P Require Import Prelude ChunkedRangeVector.

(** ** Membership *)

Definition in_range_of (x : Z) (p : Z * Z) : Prop := fst p <= x < snd p.
Definition has (l : list (Z * Z)) (x : Z) : Prop := Exists (in_range_of x) l.

#[export] Instance has_dec l x : Decision (has l x).
Proof. unfold has. apply Exists_dec. intros p. unfold in_range_of. apply _. Defined.

Lemma has_nil x : has [] x <-> False.
Proof. apply Exists_nil. Qed.
Lemma has_cons p l x : has (p :: l) x <-> fst p <= x < snd p \/ has l x.
Proof. apply Exists_cons. Qed.
Lemma has_app l1 l2 x : has (l1 ++ l2) x <-> has l1 x \/ has l2 x.
Proof. apply Exists_app. Qed.

(** ** Sorted lists of ranges *)

Definition ok_range (p : Z * Z) : Prop := 0 <= fst p < snd p /\ snd p <= npos.
Definition apart (p q : Z * Z) : Prop := snd p < fst q.

(** Non-empty ranges of [size_t], in order, no two of them overlapping or adjacent. *)
Fixpoint sorted (l : list (Z * Z)) : Prop :=
  match l with
  | [] => True
  | p :: l => ok_range p /\ Forall (apart p) l /\ sorted l
  end.

#[export] Instance sorted_dec l : Decision (sorted l).
Proof.
  induction l as [|p l IH]; simpl; [apply _|]. unfold ok_range, apart. apply _.
Defined.

Lemma sorted_cons p l : sorted (p :: l) <-> ok_range p /\ Forall (apart p) l /\ sorted l.
Proof. done. Qed.

Lemma sorted_app l1 l2 :
  sorted (l1 ++ l2) <-> sorted l1 /\ sorted l2 /\ Forall (fun p => Forall (apart p) l2) l1.
Proof.
  induction l1 as [|p l1 IH]; simpl.
  - split; [intros; split_and!; auto using Forall_nil_2|tauto].
  - rewrite IH, Forall_app, Forall_cons. tauto.
Qed.

Lemma sorted_ok l : sorted l -> Forall ok_range l.
Proof. induction l; simpl; [done|]. intros (?&?&?). constructor; auto. Qed.

(** All ranges end at [x] or before; all ranges end after [x]; all start at [x] or after. *)
Definition below (x : Z) (l : list (Z * Z)) : Prop := Forall (fun p => snd p <= x) l.
Definition above (x : Z) (l : list (Z * Z)) : Prop := Forall (fun p => x < snd p) l.
Definition from (x : Z) (l : list (Z * Z)) : Prop := Forall (fun p => x <= fst p) l.

Lemma below_app x l1 l2 : below x (l1 ++ l2) <-> below x l1 /\ below x l2.
Proof. apply Forall_app. Qed.
Lemma below_cons x p l : below x (p :: l) <-> snd p <= x /\ below x l.
Proof. unfold below. by rewrite Forall_cons. Qed.
Lemma above_app x l1 l2 : above x (l1 ++ l2) <-> above x l1 /\ above x l2.
Proof. apply Forall_app. Qed.
Lemma above_cons x p l : above x (p :: l) <-> x < snd p /\ above x l.
Proof. unfold above. by rewrite Forall_cons. Qed.
Lemma from_app x l1 l2 : from x (l1 ++ l2) <-> from x l1 /\ from x l2.
Proof. apply Forall_app. Qed.
Lemma from_cons x p l : from x (p :: l) <-> x <= fst p /\ from x l.
Proof. unfold from. by rewrite Forall_cons. Qed.

Lemma below_weaken x y l : below x l -> x <= y -> below y l.
Proof. intros Hb Hxy. eapply Forall_impl; [exact Hb|]. simpl. lia. Qed.
Lemma from_weaken x y l : from x l -> y <= x -> from y l.
Proof. intros Hb Hxy. eapply Forall_impl; [exact Hb|]. simpl. lia. Qed.

Lemma has_below x y l : below y l -> has l x -> x < y.
Proof. induction 1 as [|p l ? _ IH]; rewrite ?has_nil, ?has_cons; [done|]. intros [?|?]; [lia|auto]. Qed.
Lemma has_from x y l : from y l -> has l x -> y <= x.
Proof. induction 1 as [|p l ? _ IH]; rewrite ?has_nil, ?has_cons; [done|]. intros [?|?]; [lia|auto]. Qed.

(** The ranges after a range start after its end. *)
Lemma apart_from p l : Forall (apart p) l <-> from (snd p + 1) l.
Proof. unfold from, apart. split; intros Hl; (eapply Forall_impl; [exact Hl|]); simpl; lia. Qed.

Lemma sorted_below_from l1 p l2 :
  sorted (l1 ++ p :: l2) -> below (fst p - 1) l1 /\ from (snd p + 1) l2.
Proof.
  rewrite sorted_app, sorted_cons. intros (_ & (_ & Hp & _) & Ha). split.
  - eapply Forall_impl; [exact Ha|]. simpl. intros q Hq. apply Forall_cons in Hq as [Hq _].
    unfold apart in Hq. lia.
  - by apply apart_from.
Qed.

(** A range between those that end before it and those that start after it. *)
Lemma sorted_middle l1 p l2 :
  sorted (l1 ++ p :: l2) <->
  sorted l1 /\ below (fst p - 1) l1 /\ ok_range p /\ from (snd p + 1) l2 /\ sorted l2.
Proof.
  split.
  - intros Hs. destruct (sorted_below_from _ _ _ Hs). apply sorted_app in Hs as (? & (? & ? & ?) & _).
    tauto.
  - intros (H1 & Hb & Hp & Hf & H2). rewrite sorted_app, sorted_cons, apart_from.
    split_and!; try done. eapply Forall_impl; [exact Hb|]. simpl. intros q Hq.
    rewrite Forall_cons. split; [unfold apart; lia|]. apply apart_from.
    eapply from_weaken; [exact Hf|]. unfold ok_range in Hp. lia.
Qed.

(** Lists that a number separates. *)
Lemma sorted_between y l1 l2 :
  sorted l1 -> below y l1 -> from (y + 1) l2 -> sorted l2 -> sorted (l1 ++ l2).
Proof.
  intros H1 Hb Hf H2. apply sorted_app. split_and!; [done|done|].
  eapply Forall_impl; [exact Hb|]. simpl. intros p Hp. apply apart_from.
  eapply from_weaken; [exact Hf|lia].
Qed.

Lemma sorted_app_inv l1 l2 : sorted (l1 ++ l2) -> sorted l1 /\ sorted l2.
Proof. rewrite sorted_app. tauto. Qed.

Lemma sorted_above x p l : sorted (p :: l) -> x < snd p -> above x (p :: l).
Proof.
  rewrite sorted_cons. intros (Hp & Ha & Hl) Hx. apply above_cons. split; [done|].
  apply apart_from in Ha. pose proof (sorted_ok _ Hl) as Hok.
  eapply Forall_impl2; [exact Ha|exact Hok|]. simpl. intros q ? [? ?]. lia.
Qed.

Lemma sorted_before x l : Forall ok_range l -> below x l -> before x l.
Proof.
  intros Ho Hb. eapply Forall_impl2; [exact Ho|exact Hb|].
  simpl. intros p [? ?] ?. lia.
Qed.

Lemma sorted_after x l : Forall ok_range l -> from x l -> after x l.
Proof.
  intros Ho Hb. eapply Forall_impl2; [exact Ho|exact Hb|].
  simpl. intros p [? ?] ?. lia.
Qed.

Create Rewrite HintDb ranges.
#[export] Hint Rewrite has_nil has_cons has_app below_app below_cons above_app above_cons
  from_app from_cons sorted_middle sorted_cons : ranges.

(** ** Counting *)

(** The members from [s] on and before [e]. *)
Definition overlap (s e : Z) (p : Z * Z) : Z := Z.max 0 (Z.min (snd p) e - Z.max (fst p) s).
Definition count_in (s e : Z) (l : list (Z * Z)) : Z := foldr (fun p n => overlap s e p + n) 0 l.

Lemma count_in_nil s e : count_in s e [] = 0.
Proof. done. Qed.
Lemma count_in_cons s e p l : count_in s e (p :: l) = overlap s e p + count_in s e l.
Proof. done. Qed.
Lemma count_in_app s e l1 l2 : count_in s e (l1 ++ l2) = count_in s e l1 + count_in s e l2.
Proof. induction l1 as [|p l1 IH]; [done|]. cbn [app]. rewrite !count_in_cons, IH. lia. Qed.

Lemma count_in_below s e l : below s l -> count_in s e l = 0.
Proof. induction 1 as [|p l Hp _ IH]; [done|]. rewrite count_in_cons, IH. unfold overlap. lia. Qed.
Lemma count_in_from s e l : from e l -> count_in s e l = 0.
Proof. induction 1 as [|p l Hp _ IH]; [done|]. rewrite count_in_cons, IH. unfold overlap. lia. Qed.

Lemma count_in_all s e l : Forall ok_range l -> from s l -> below e l -> count_in s e l = width l.
Proof.
  induction 1 as [|p l [Hp _] _ IH]; [done|]. rewrite from_cons, below_cons, count_in_cons.
  intros [? ?] [? ?]. rewrite IH by done. simpl. unfold overlap. lia.
Qed.

Lemma width_cons p l : width (p :: l) = snd p - fst p + width l.
Proof. done. Qed.

Lemma width_nonneg l : Forall ok_range l -> 0 <= width l.
Proof. induction 1 as [|p l [Hp _] _ IH]; simpl; lia. Qed.

Lemma count_in_nonneg s e l : 0 <= count_in s e l.
Proof. induction l as [|p l IH]; [done|]. rewrite count_in_cons. unfold overlap. lia. Qed.

(** Sorted ranges do not overlap: no more members than there are numbers. *)
Lemma count_in_le s e l : sorted l -> from s l -> s <= e -> count_in s e l <= e - s.
Proof.
  revert s. induction l as [|p l IH]; intros s Hs Hf He; [rewrite count_in_nil; lia|].
  apply sorted_cons in Hs as ([? ?] & Ha & Hs). apply from_cons in Hf as [? _].
  apply apart_from in Ha. rewrite count_in_cons.
  destruct (Z.le_ge_cases e (snd p)) as [Hle|Hge].
  - rewrite count_in_from by (eapply from_weaken; [exact Ha|lia]). unfold overlap. lia.
  - assert (count_in s e l = count_in (snd p) e l) as ->.
    { clear IH Hs. induction Ha as [|q l Hq _ IH]; [done|]. rewrite !count_in_cons, IH.
      unfold overlap. lia. }
    assert (count_in (snd p) e l <= e - snd p)
      by (apply IH; [done|eapply from_weaken; [exact Ha|lia]|lia]). unfold overlap. lia.
Qed.

Lemma width_le l s : sorted l -> from s l -> s <= npos -> width l <= npos - s.
Proof.
  intros Hs Hf Hn. pose proof (sorted_ok _ Hs) as Ho.
  rewrite <- (count_in_all s npos l); [by apply count_in_le|done|done|].
  eapply Forall_impl; [exact Ho|]. simpl. intros q [? ?]. done.
Qed.

(** The members in order; [count_in] counts them. *)
Definition indexes (l : list (Z * Z)) : list Z := l ≫= fun p => seqZ (fst p) (snd p - fst p).

Lemma elem_of_indexes l x : x ∈ indexes l <-> has l x.
Proof.
  unfold indexes, has. rewrite list_elem_of_bind, Exists_exists. split.
  - intros (p & Hx & Hp). exists p. split; [done|]. apply elem_of_seqZ in Hx. unfold in_range_of. lia.
  - intros (p & Hp & Hx). exists p. split; [|done]. apply elem_of_seqZ. unfold in_range_of in Hx. lia.
Qed.

Lemma length_filter_seqZ s e a n :
  Z.of_nat (length (filter (fun x => s <= x < e) (seqZ a (Z.of_nat n)))) =
    Z.max 0 (Z.min (a + Z.of_nat n) e - Z.max a s).
Proof.
  revert a. induction n as [|n IH]; intros a.
  - rewrite seqZ_nil by lia. simpl. lia.
  - rewrite Nat2Z.inj_succ. rewrite seqZ_cons by lia. rewrite filter_cons.
    replace (Z.pred (Z.succ (Z.of_nat n))) with (Z.of_nat n) by lia.
    specialize (IH (Z.succ a)). case_decide; cbn [length]; rewrite ?Nat2Z.inj_succ; lia.
Qed.

Lemma count_in_indexes s e l :
  Forall ok_range l ->
  count_in s e l = Z.of_nat (length (filter (fun x => s <= x < e) (indexes l))).
Proof.
  induction 1 as [|p l [Hp _] _ IH]; [done|]. unfold indexes in *. rewrite count_in_cons, IH.
  rewrite bind_cons, filter_app, length_app, Nat2Z.inj_add. f_equal.
  replace (snd p - fst p) with (Z.of_nat (Z.to_nat (snd p - fst p))) by lia.
  rewrite length_filter_seqZ. unfold overlap. lia.
Qed.

(** ** Shifted ranges *)

Definition shift_list (d : Z) (l : list (Z * Z)) : list (Z * Z) :=
  (fun p => (fst p + d, snd p + d)) <$> l.

Lemma has_shift d l x : has (shift_list d l) x <-> has l (x - d).
Proof.
  unfold has, shift_list. rewrite Exists_fmap. apply Exists_proper; [|done].
  intros p. unfold in_range_of. simpl. lia.
Qed.

Lemma below_shift d x l : below x (shift_list d l) <-> below (x - d) l.
Proof.
  unfold below, shift_list. rewrite Forall_fmap. apply Forall_proper; [|done].
  intros p. simpl. lia.
Qed.

Lemma from_shift d x l : from x (shift_list d l) <-> from (x - d) l.
Proof.
  unfold from, shift_list. rewrite Forall_fmap. apply Forall_proper; [|done].
  intros p. simpl. lia.
Qed.

Lemma above_shift d x l : above x (shift_list d l) <-> above (x - d) l.
Proof.
  unfold above, shift_list. rewrite Forall_fmap. apply Forall_proper; [|done].
  intros p. simpl. lia.
Qed.

Lemma sorted_shift d l :
  sorted l -> from (- d) l -> below (npos - d) l -> sorted (shift_list d l).
Proof.
  induction l as [|p l IH]; intros Hs Hf Hb; [done|]. unfold shift_list. rewrite fmap_cons.
  fold (shift_list d l). apply sorted_cons in Hs as (Hp & Ha & Hs).
  apply from_cons in Hf as [? ?]. apply below_cons in Hb as [? ?].
  apply sorted_cons. split_and!; [|apply apart_from, from_shift; simpl|by apply IH].
  - unfold ok_range in *. simpl. lia.
  - apply apart_from in Ha. eapply from_weaken; [exact Ha|lia].
Qed.

(** ** Automation

    [ranges_in_hyps] takes sorted lists, and bounds on lists, apart at the ranges they show;
    [solve_sorted] puts them together again; [solve_has] decides statements about membership
    in such lists, from the bounds among the hypotheses. *)

Ltac ranges_in_hyps :=
  repeat match goal with
  | Hs : sorted (_ ++ _ :: _) |- _ =>
      apply sorted_middle in Hs as (? & ? & [? ?] & ? & ?); cbn [fst snd] in *
  | Hs : sorted (_ :: _) |- _ =>
      apply (sorted_middle []) in Hs as (_ & _ & [? ?] & ? & ?); cbn [fst snd] in *
  | Hs : sorted (_ ++ _) |- _ => apply sorted_app_inv in Hs as [? ?]
  | Hb : below _ (_ ++ _) |- _ => apply below_app in Hb as [? ?]
  | Hb : below _ (_ :: _) |- _ => apply below_cons in Hb as [? ?]; cbn [fst snd] in *
  | Hb : above _ (_ ++ _) |- _ => apply above_app in Hb as [? ?]
  | Hb : above _ (_ :: _) |- _ => apply above_cons in Hb as [? ?]; cbn [fst snd] in *
  | Hb : from _ (_ ++ _) |- _ => apply from_app in Hb as [? ?]
  | Hb : from _ (_ :: _) |- _ => apply from_cons in Hb as [? ?]; cbn [fst snd] in *
  | Hb : below _ [] |- _ => clear Hb
  | Hb : above _ [] |- _ => clear Hb
  | Hb : from _ [] |- _ => clear Hb
  end.

Ltac ranges_weaken :=
  lazymatch goal with
  | |- context [shift_list _ _] => rewrite ?below_shift, ?from_shift, ?above_shift
  | _ => idtac
  end;
  match goal with
  | H : below _ ?l |- below _ ?l => eapply below_weaken; [exact H|lia]
  | H : from _ ?l |- from _ ?l => eapply from_weaken; [exact H|lia]
  | |- below _ [] => apply Forall_nil_2
  | |- from _ [] => apply Forall_nil_2
  | |- above _ [] => apply Forall_nil_2
  | |- sorted [] => exact I
  end.

Ltac solve_sorted :=
  repeat match goal with
  | |- _ /\ _ => split
  | |- sorted (_ ++ _ :: _) => apply sorted_middle
  | |- sorted (_ :: _) => apply (sorted_middle []); cbn [fst snd]
  | |- sorted (shift_list _ _) => apply sorted_shift
  | |- below _ (shift_list _ _) => apply below_shift
  | |- from _ (shift_list _ _) => apply from_shift
  | |- above _ (shift_list _ _) => apply above_shift
  | |- ok_range _ => split; cbn [fst snd]
  | |- below _ (_ ++ _) => apply below_app
  | |- below _ (_ :: _) => apply below_cons; cbn [fst snd]
  | |- above _ (_ :: _) => apply above_cons; cbn [fst snd]
  | |- from _ (_ ++ _) => apply from_app
  | |- from _ (_ :: _) => apply from_cons; cbn [fst snd]
  end; cbn [fst snd] in *; first [assumption | exact I | lia | ranges_weaken | idtac].

Lemma has_true l x : has l x -> (has l x <-> True).
Proof. tauto. Qed.
Lemma has_false l x : ~ has l x -> (has l x <-> False).
Proof. tauto. Qed.

(** Add what the bounds among the hypotheses say of a member [F : has l x]. *)
Ltac has_bounds F :=
  match type of F with
  | has ?l ?x =>
      repeat match goal with
      | Hb : below ?y l |- _ =>
          lazymatch goal with
          | _ : x < y |- _ => fail
          | _ => pose proof (has_below x y l Hb F)
          end
      | Hb : from ?y l |- _ =>
          lazymatch goal with
          | _ : y <= x |- _ => fail
          | _ => pose proof (has_from x y l Hb F)
          end
      end
  end.

Lemma sub_minus_1 x : x - -1 = x + 1.
Proof. lia. Qed.

Ltac solve_has :=
  intros; rewrite ?has_app, ?has_cons, ?has_nil, ?has_shift, ?sub_minus_1; cbn [fst snd];
  repeat match goal with
  | |- context [has ?l ?x] =>
      let F := fresh in destruct (decide (has l x)) as [F|F];
      [ has_bounds F; rewrite (has_true l x F); clear F
      | rewrite (has_false l x F); clear F ]
  end; lia.
