(* ===== verification/IndexSet.v ===== *)
(** [IndexSet] of [index_set.hpp] and [index_set.cpp]: a set of indices of type [size_t],
    kept as a chunked vector of ranges, with the operations that shift the indices the set
    holds when elements of the collection they point into are inserted or removed.

    The set is the vector; an operation returns the new one.  A loop over iterators carries
    as fuel the number of ranges (or of indices) there are, which the theorems show to be
    enough. *)

From S2P Require Import Prelude ChunkedRangeVector RangeList.

Abbreviation IndexSet := (list Chunk) (only parsing).

Section index_set.
Context `{MaxSize}.

(** ** Search *)

(** [std::find_if] over chunks: those before the first whose end is after [index]. *)
Fixpoint find_chunk (chunks : list Chunk) (index : Z) : nat :=
  match chunks with
  | [] => 0
  | c :: chunks => if index <? c_end c then 0 else S (find_chunk chunks index)
  end.

(** [std::lower_bound] over ranges that are sorted: those that end at [index] or before. *)
Fixpoint lower_bound (l : list (Z * Z)) (index : Z) : nat :=
  match l with
  | [] => 0
  | r :: l => if snd r <=? index then S (lower_bound l index) else 0
  end.

Definition find_from (v : IndexSet) (index : Z) (begin : iterator) : result iterator :=
  let o := (outer begin + find_chunk (drop (outer begin) v) index)%nat in
  match v !! o with
  | None => Ok (vec_end v)
  | Some c =>
      if index <? c_begin c then Ok (It o 0)
      else
        let inner_begin := if decide (o = outer begin) then offset begin else 0%nat in
        let inner := (inner_begin + lower_bound (drop inner_begin (data c)) index)%nat in
        if decide (inner < length (data c))%nat then Ok (It o inner) else Err OutOfBounds
  end.

Definition find (v : IndexSet) (index : Z) : result iterator := find_from v index (vec_begin v).

Definition contains (v : IndexSet) (index : Z) : result bool :=
  it ← find v index;
  if decide (it = vec_end v) then Ok false
  else r ← deref v it; Ok (fst r <=? index).

(** ** Counting *)

(** [for (++it; it != end && it->second < end_index && it.offset() != 0; ++it)]. *)
Fixpoint count_rest (fuel : nat) (v : IndexSet) (it : iterator) (end_index ret : Z)
  : result (iterator * Z) :=
  if decide (it = vec_end v) then Ok (it, ret)
  else
    '(first, second) ← deref v it;
    if (second <? end_index) && negb (bool_decide (offset it = 0%nat)) then
      match fuel with
      | O => Err OutOfFuel
      | S fuel => it ← next v it; count_rest fuel v it end_index (u64 (ret + u64 (second - first)))
      end
    else Ok (it, ret).

(** [while (it != end && it.outer()->end <= end_index)]. *)
Fixpoint count_chunks (fuel : nat) (v : IndexSet) (it : iterator) (end_index ret : Z)
  : result (iterator * Z) :=
  if decide (it = vec_end v) then Ok (it, ret)
  else
    c ← chunk_at v (outer it);
    if c_end c <=? end_index then
      match fuel with
      | O => Err OutOfFuel
      | S fuel =>
          _ ← realm_assert (bool_decide (offset it = 0%nat));
          count_chunks fuel v (next_chunk it) end_index (u64 (ret + c_count c))
      end
    else Ok (it, ret).

(** [while (it != end && it->second <= end_index)]. *)
Fixpoint count_ranges (fuel : nat) (v : IndexSet) (it : iterator) (end_index ret : Z)
  : result (iterator * Z) :=
  if decide (it = vec_end v) then Ok (it, ret)
  else
    '(first, second) ← deref v it;
    if second <=? end_index then
      match fuel with
      | O => Err OutOfFuel
      | S fuel => it ← next v it; count_ranges fuel v it end_index (u64 (ret + u64 (second - first)))
      end
    else Ok (it, ret).

Definition ranges_fuel (v : IndexSet) : nat := length (ranges v).

(** The part of [count] from the complete chunks on. *)
Definition count_tail (v : IndexSet) (it : iterator) (end_index ret : Z) : result Z :=
  '(it, ret) ← count_chunks (ranges_fuel v) v it end_index ret;
  '(it, ret) ← count_ranges (ranges_fuel v) v it end_index ret;
  if decide (it = vec_end v) then Ok ret
  else
    '(first, _) ← deref v it;
    Ok (if first <? end_index then u64 (ret + u64 (end_index - first)) else ret).

(** The rest of the chunk the count starts in, from the range after the first one on. *)
Definition count_middle (v : IndexSet) (it : iterator) (end_index ret : Z) : result Z :=
  '(it, ret) ← count_rest (ranges_fuel v) v it end_index ret;
  if decide (it = vec_end v) then Ok ret
  else
    '(first, second) ← deref v it;
    let ret := if (first <? end_index) && negb (bool_decide (offset it = 0%nat))
               then u64 (ret + u64 (end_index - first)) else ret in
    if end_index <=? second then Ok ret else count_tail v it end_index ret.

Definition count (v : IndexSet) (start_index end_index : Z) : result Z :=
  it ← find v start_index;
  if decide (it = vec_end v) then Ok 0
  else
    '(first, second) ← deref v it;
    if end_index <=? first then Ok 0
    else if end_index <=? second then
      Ok (u64 (Z.min second end_index - Z.max first start_index))
    else if (first <? start_index) || negb (bool_decide (offset it = 0%nat)) then
      let ret := u64 (second - Z.max first start_index) in
      it ← next v it;
      count_middle v it end_index ret
    else count_tail v it end_index 0.

(** ** Adding *)

Definition do_add (v : IndexSet) (it : iterator) (index : Z) : result (IndexSet * iterator) :=
  let more_before := negb (bool_decide (it = vec_begin v)) in
  let valid := negb (bool_decide (it = vec_end v)) in
  prev_it ← (if more_before then prev v it else Ok it);
  before ← (if more_before then deref v prev_it else Ok (0, 0));
  here ← (if valid then deref v it else Ok (0, 0));
  _ ← realm_assert (negb more_before || (snd before <=? index));
  if valid && (fst here <=? index) && (index <? snd here) then Ok (v, it)
  else if more_before && (snd before =? index) then
    v ← it_adjust v prev_it 0 1;
    before ← deref v prev_it;
    if valid && (snd before =? fst here) then
      v ← it_adjust v prev_it 0 (snd here - fst here);
      '(v, it) ← vec_erase v it;
      it ← prev v it;
      Ok (v, it)
    else Ok (v, prev_it)
  else if valid && (fst here =? u64 (index + 1)) then
    v ← it_adjust v it (-1) 0; Ok (v, it)
  else vec_insert v it (index, u64 (index + 1)).

Definition add (v : IndexSet) (index : Z) : result IndexSet :=
  it ← find v index; '(v, _) ← do_add v it index; Ok v.

(** [IndexSet(std::initializer_list<size_t>)]. *)
Definition of_list (values : list Z) : result IndexSet := fold_result add [] values.

Definition clear (v : IndexSet) : IndexSet := [].

Definition set (v : IndexSet) (len : Z) : result IndexSet :=
  let v := clear v in if len =? 0 then Ok v else push_back v (0, len).

(** The chunks, then the ranges, that end before the target. *)
Fixpoint add_shifted_chunks (fuel : nat) (v : IndexSet) (it : iterator) (index : Z)
  : result (iterator * Z) :=
  if decide (it = vec_end v) then Ok (it, index)
  else
    c ← chunk_at v (outer it);
    if c_end c <=? index then
      match fuel with
      | O => Err OutOfFuel
      | S fuel => add_shifted_chunks fuel v (next_chunk it) (u64 (index + c_count c))
      end
    else Ok (it, index).

Fixpoint add_shifted_ranges (fuel : nat) (v : IndexSet) (it : iterator) (index : Z)
  : result (iterator * Z) :=
  if decide (it = vec_end v) then Ok (it, index)
  else
    '(first, second) ← deref v it;
    if first <=? index then
      match fuel with
      | O => Err OutOfFuel
      | S fuel => it ← next v it; add_shifted_ranges fuel v it (u64 (index + u64 (second - first)))
      end
    else Ok (it, index).

Definition add_shifted (v : IndexSet) (index : Z) : result (IndexSet * Z) :=
  '(it, index) ← add_shifted_chunks (ranges_fuel v) v (vec_begin v) index;
  '(it, index) ← add_shifted_ranges (ranges_fuel v) v it index;
  '(v, _) ← do_add v it index;
  Ok (v, index).

(** ** Insertion and removal of elements of the collection *)

(** [for (; it != end; ++it) it.shift(distance)]. *)
Fixpoint shift_until_end (fuel : nat) (v : IndexSet) (it : iterator) (distance : Z)
  : result IndexSet :=
  if decide (it = vec_end v) then Ok v
  else
    match fuel with
    | O => Err OutOfFuel
    | S fuel => v ← it_shift v it distance; it ← next v it; shift_until_end fuel v it distance
    end.

(** [for (size_t i = 0; i < count; ++i) pos = std::next(do_add(pos, index + i))]. *)
Fixpoint insert_loop (n : nat) (v : IndexSet) (pos : iterator) (index : Z) : result IndexSet :=
  match n with
  | O => Ok v
  | S n =>
      '(v, pos) ← do_add v pos index;
      pos ← next v pos;
      insert_loop n v pos (u64 (index + 1))
  end.

Definition insert_at (v : IndexSet) (index count : Z) : result IndexSet :=
  _ ← realm_assert (0 <? count);
  pos ← find v index;
  if decide (pos = vec_end v) then insert_loop (Z.to_nat count) v pos index
  else
    '(first, _) ← deref v pos;
    let in_existing := first <=? index in
    v ← (if in_existing then it_adjust v pos 0 count else it_shift v pos count);
    it ← next v pos;
    v ← shift_until_end (ranges_fuel v) v it count;
    if in_existing then Ok v else insert_loop (Z.to_nat count) v pos index.

Definition shift_for_insert_at (v : IndexSet) (index count : Z) : result IndexSet :=
  _ ← realm_assert (0 <? count);
  it ← find v index;
  if decide (it = vec_end v) then Ok v
  else
    v ← shift_until_end (ranges_fuel v) v it count;
    '(first, second) ← deref v it;
    if first <? u64 (index + count) then
      let old_second := second in
      v ← it_set v it (u64 (first - count)) index;
      it ← next v it;
      '(v, _) ← vec_insert v it (u64 (index + count), old_second);
      Ok v
    else Ok v.

Definition do_erase (v : IndexSet) (it : iterator) (index : Z) : result IndexSet :=
  '(first, second) ← deref v it;
  '(v, it) ←
    (if first <=? index then
       if u64 (first + 1) =? second then vec_erase v it
       else v ← it_adjust v it 0 (-1); it ← next v it; Ok (v, it)
     else if decide (it = vec_begin v) then Ok (v, it)
     else
       prev_it ← prev v it;
       '(_, prev_second) ← deref v prev_it;
       if u64 (prev_second + 1) =? first then
         v ← it_adjust v prev_it 0 (second - first); vec_erase v it
       else Ok (v, it));
  shift_until_end (ranges_fuel v) v it (-1).

Definition erase_at (v : IndexSet) (index : Z) : result IndexSet :=
  it ← find v index;
  if decide (it = vec_end v) then Ok v else do_erase v it index.

Fixpoint unshift_chunks (fuel : nat) (v : IndexSet) (it : iterator) (index shifted : Z)
  : result (iterator * Z) :=
  if decide (it = vec_end v) then Ok (it, shifted)
  else
    c ← chunk_at v (outer it);
    if c_end c <=? index then
      match fuel with
      | O => Err OutOfFuel
      | S fuel => unshift_chunks fuel v (next_chunk it) index (u64 (shifted - c_count c))
      end
    else Ok (it, shifted).

Fixpoint unshift_ranges (fuel : nat) (v : IndexSet) (it : iterator) (index shifted : Z)
  : result (iterator * Z) :=
  if decide (it = vec_end v) then Ok (it, shifted)
  else
    '(first, second) ← deref v it;
    if second <=? index then
      match fuel with
      | O => Err OutOfFuel
      | S fuel => it ← next v it; unshift_ranges fuel v it index (u64 (shifted - u64 (second - first)))
      end
    else Ok (it, shifted).

Definition erase_or_unshift (v : IndexSet) (index : Z) : result (IndexSet * Z) :=
  '(it, shifted) ← unshift_chunks (ranges_fuel v) v (vec_begin v) index index;
  '(it, shifted) ← unshift_ranges (ranges_fuel v) v it index shifted;
  if decide (it = vec_end v) then Ok (v, shifted)
  else
    '(first, _) ← deref v it;
    let shifted := if first <=? index then npos else shifted in
    v ← do_erase v it index;
    Ok (v, shifted).

(** ** Removal of indices from the set *)

Fixpoint do_remove (fuel : nat) (v : IndexSet) (it : iterator) (begin end_ : Z)
  : result (IndexSet * iterator) :=
  it ← find_from v begin it;
  if decide (it = vec_end v) then Ok (v, it)
  else
    '(first, second) ← deref v it;
    if first <? end_ then
      match fuel with
      | O => Err OutOfFuel
      | S fuel =>
          let begin := Z.max first begin in
          if (first <? begin) && (end_ <? second) then
            let old_second := second in
            v ← it_set v it first begin;
            it ← next v it;
            '(v, it) ← vec_insert v it (end_, old_second);
            it ← prev v it;
            do_remove fuel v it begin end_
          else if (begin =? first) && (second <=? end_) then
            '(v, it) ← vec_erase v it;
            do_remove fuel v it begin end_
          else if begin =? first then
            v ← it_set v it end_ second;
            do_remove fuel v it begin end_
          else
            v ← it_set v it first begin;
            do_remove fuel v it begin end_
      end
    else Ok (v, it).

Definition remove (v : IndexSet) (index count : Z) : result IndexSet :=
  it ← find v index;
  '(v, _) ← do_remove (ranges_fuel v + 1) v it index (u64 (index + count));
  Ok v.

(** ** Translation of indices *)

Fixpoint shift_loop (l : list (Z * Z)) (index : Z) : Z :=
  match l with
  | [] => index
  | r :: l =>
      if index <? fst r then index else shift_loop l (u64 (index + u64 (snd r - fst r)))
  end.

(** The ranges in the order the iterator of the set visits them. *)
Definition shift (v : IndexSet) (index : Z) : Z := shift_loop (ranges v) index.

Definition unshift (v : IndexSet) (index : Z) : result Z :=
  n ← count v 0 index; Ok (u64 (index - n)).
End index_set.

(** ** Search: where the iterator found splits the ranges *)

Record index_set_ok `{MaxSize} (v : IndexSet) : Prop := {
  is_wf : wf_vec v;
  is_sorted : sorted (ranges v)
}.

Section search.
Context `{MaxSize}.

Lemma lower_bound_spec l index :
  sorted l -> exists l1 l2, l = l1 ++ l2 /\ lower_bound l index = length l1 /\
    below index l1 /\ above index l2.
Proof.
  induction l as [|p l IH]; intros Hl.
  - exists [], []. split_and!; try done; apply Forall_nil_2.
  - simpl. destruct (Z.leb_spec (snd p) index).
    + destruct IH as (l1 & l2 & -> & -> & H1 & H2); [by apply Hl|].
      exists (p :: l1), l2. split_and!; try done. by apply below_cons.
    + exists [], (p :: l). split_and!; try done; [apply Forall_nil_2|by apply sorted_above].
Qed.

Lemma find_chunk_spec w index :
  exists wa wb, w = wa ++ wb /\ find_chunk w index = length wa /\
    Forall (fun c => c_end c <= index) wa /\
    match wb with [] => True | c :: _ => index < c_end c end.
Proof.
  induction w as [|c w IH]; simpl.
  - exists [], []. by split_and!.
  - destruct (Z.ltb_spec index (c_end c)).
    + by exists [], (c :: w).
    + destruct IH as (wa & wb & -> & -> & Ha & Hb). exists (c :: wa), wb.
      split_and!; try done. by apply Forall_cons.
Qed.

(** The last range of a sorted chunk ends last. *)
Lemma chunk_below c : chunk_ok c -> sorted (data c) -> below (c_end c) (data c).
Proof.
  intros Hc Hs. pose proof (chunk_nonempty c Hc). destruct Hc as [[_ _ He] _].
  destruct (data c) as [|p d _] using rev_ind; [done|]. unfold last_second in He.
  rewrite last_snoc in He. injection He as <-. apply sorted_below_from in Hs as Hd.
  destruct Hd as [Hd _]. apply sorted_middle in Hs as (_ & _ & [? ?] & _).
  apply below_app. split; [eapply below_weaken; [done|lia]|by apply below_cons; split; [|apply Forall_nil_2]].
Qed.

Lemma chunks_below wa index :
  wf_vec wa -> sorted (ranges wa) -> Forall (fun c => c_end c <= index) wa ->
  below index (ranges wa).
Proof.
  intros Hw. induction Hw as [|c wa Hc Hw IH]; intros Hs He; [apply Forall_nil_2|].
  rewrite ranges_cons in *. apply sorted_app_inv in Hs as [H1 H2]. apply Forall_cons in He as [He1 He2].
  apply below_app. split; [|by apply IH]. eapply below_weaken; [by apply chunk_below|done].
Qed.

Lemma find_from_spec v index begin pre0 post0 :
  at_pos v begin pre0 post0 -> sorted (ranges v) -> below index pre0 ->
  exists it pre post, find_from v index begin = Ok it /\ at_pos v it pre post /\
    below index pre /\ above index post.
Proof.
  intros Ha Hs Hb. unfold find_from. pose proof (at_wf _ _ _ _ Ha) as Hv.
  assert (exists va w d1 d2, v = va ++ w /\ outer begin = length va /\ offset begin = length d1 /\
    pre0 = ranges va ++ d1 /\ match w with [] => d1 = [] | c :: _ => data c = d1 ++ d2 end)
    as (va & w & d1 & d2 & -> & -> & -> & -> & Hw).
  { destruct Ha as [_|va c vb d1 r d2 -> _ E].
    - exists v, [], [], []. by rewrite !app_nil_r.
    - by exists va, (c :: vb), d1, (r :: d2). }
  rewrite drop_app_length. destruct (find_chunk_spec w index) as (wa & wb & -> & -> & Hwa & Hwb).
  apply below_app in Hb as [Hb1 Hb2].
  assert (below index (ranges (va ++ wa))) as Hpre.
  { rewrite ranges_app. apply below_app. split; [done|]. apply chunks_below; [| |done].
    - unfold wf_vec in Hv. rewrite !Forall_app in Hv. apply Hv.
    - rewrite !ranges_app in Hs. apply sorted_app_inv in Hs as [_ Hs].
      by apply sorted_app_inv in Hs as [? _]. }
  rewrite app_assoc in *. rewrite <- length_app. set (o := length (va ++ wa)).
  destruct wb as [|c wb].
  { rewrite app_nil_r in *. subst o. rewrite lookup_ge_None_2 by done.
    exists (vec_end (va ++ wa)), (ranges (va ++ wa)), [].
    split_and!; [done|by apply at_end|done|apply Forall_nil_2]. }
  subst o. rewrite list_lookup_middle by done.
  rewrite ranges_middle in Hs. apply sorted_app_inv in Hs as [_ Hs].
  apply wf_middle in Hv as Hc. destruct Hc as (_ & Hc & _).
  pose proof (chunk_nonempty c Hc) as Hne.
  destruct (Z.ltb_spec index (c_begin c)).
  { destruct Hc as [[_ Hcb _] _]. unfold hd_first in Hcb.
    destruct (data c) as [|r d] eqn:E; [done|]. injection Hcb as Hcb.
    eexists _, (ranges (va ++ wa)), ((r :: d) ++ ranges wb). split_and!; [done| |done|].
    - rewrite <- E. exact (at_chunk_start (va ++ wa) (c :: wb) Hv).
    - apply sorted_above; [done|]. apply sorted_cons in Hs as ([? ?] & _). lia. }
  (* inside the chunk *)
  set (ib := if decide (length (va ++ wa) = length va) then length d1 else 0%nat).
  assert (below index (take ib (data c)) /\ (ib <= length (data c))%nat) as [Hib Hibl].
  { unfold ib. case_decide as Hd; [|rewrite take_0; split; [apply Forall_nil_2|lia]].
    rewrite length_app in Hd. assert (wa = []) as -> by (apply nil_length_inv; lia).
    simpl in Hw. rewrite Hw, take_app_length, length_app. split; [done|lia]. }
  pose proof Hs as Hrest. apply sorted_app_inv in Hs as [Hsc _].
  assert (sorted (drop ib (data c))) as Hsd
    by (rewrite <- (take_drop ib) in Hsc; by apply sorted_app_inv in Hsc as [_ ?]).
  destruct (lower_bound_spec _ index Hsd) as (l1 & l2 & El & -> & Hl1 & Hl2).
  assert (data c = (take ib (data c) ++ l1) ++ l2) as Ed by (by rewrite <- app_assoc, <- El, take_drop).
  set (d := take ib (data c) ++ l1) in *.
  assert (length d = ib + length l1)%nat as Eld
    by (unfold d; rewrite length_app, length_take; lia).
  rewrite <- Eld. assert (below index d) as Hd by (by apply below_app).
  destruct l2 as [|r l2].
  { exfalso. rewrite app_nil_r in Ed. destruct Hc as [[_ _ He] _]. unfold last_second in He.
    destruct (last (data c)) as [r|] eqn:Er; [|done]. injection He as He.
    rewrite Ed in Er. apply last_Some_elem_of in Er. unfold below in Hd. rewrite Forall_forall in Hd.
    specialize (Hd _ Er). lia. }
  rewrite decide_True by (rewrite Ed, length_app; simpl; lia).
  eexists _, _, _. split_and!; [done|by eapply at_in|by apply below_app|].
  apply sorted_above.
  - rewrite Ed, <- app_assoc in Hrest. by apply sorted_app_inv in Hrest as [_ ?].
  - by apply above_cons in Hl2 as [? _].
Qed.
End search.

(** ** Adding an index *)

(** The five ways in which [do_add] changes the ranges around the position of an index. *)
Inductive add_case (index : Z) :
  list (Z * Z) -> list (Z * Z) -> list (Z * Z) -> list (Z * Z) -> Prop :=
| add_present pre f s post :
    f <= index < s -> add_case index pre ((f, s) :: post) pre ((f, s) :: post)
| add_join pre f s post :
    add_case index (pre ++ [(f, index)]) ((index + 1, s) :: post) pre ((f, s) :: post)
| add_after pre f post :
    from (index + 2) post ->
    add_case index (pre ++ [(f, index)]) post pre ((f, index + 1) :: post)
| add_before pre s post :
    below (index - 1) pre ->
    add_case index pre ((index + 1, s) :: post) pre ((index, s) :: post)
| add_alone pre post :
    below (index - 1) pre -> from (index + 2) post ->
    add_case index pre post pre ((index, index + 1) :: post).

Lemma add_case_spec index pre post pre' post' :
  add_case index pre post pre' post' -> sorted (pre ++ post) -> below index pre ->
  above index post -> 0 <= index < npos ->
  sorted (pre' ++ post') /\ below index pre' /\
  (exists f s rest, post' = (f, s) :: rest /\ f <= index < s /\
    (s = index + 1 /\ rest = post \/ exists f2, post = (f2, s) :: rest /\ f2 <= index + 1)) /\
  (forall x, has (pre' ++ post') x <-> x = index \/ has (pre ++ post) x).
Proof.
  intros Hc Hs Hb Ha Hi. destruct Hc; rewrite <- ?app_assoc in Hs; cbn [app] in Hs;
    ranges_in_hyps; (split; [try solve_sorted|split; [solve_sorted|split]]).
  all: try (eexists _, _, _; split; [reflexivity|]; split; [lia|];
    first [left; split; [lia|reflexivity] | right; eexists; split; [reflexivity|lia]]; fail).
  all: solve_has.
Qed.

Section add.
Context `{MaxSize}.

Lemma at_sorted v it pre post : at_pos v it pre post -> sorted (ranges v) -> sorted (pre ++ post).
Proof. intros Ha. by rewrite (at_ranges _ _ _ _ Ha). Qed.

Lemma not_begin v it pre post : at_pos v it pre post ->
  bool_decide (it = vec_begin v) = bool_decide (pre = []).
Proof. intros Ha. apply bool_decide_ext. by eapply at_is_begin. Qed.

Lemma not_end v it pre post : at_pos v it pre post ->
  bool_decide (it = vec_end v) = bool_decide (post = []).
Proof. intros Ha. apply bool_decide_ext. by eapply at_is_end. Qed.

(** The last of a list, or the fact that it is empty. *)
Lemma last_cases {A} (l : list A) : l = [] \/ exists l' a, l = l' ++ [a].
Proof. destruct l as [|a l _] using rev_ind; eauto. Qed.

Lemma insert_index v it pre post index s :
  at_pos v it pre post -> sorted (pre ++ post) -> below index pre -> from s post ->
  index <= s ->
  exists v' it', vec_insert v it (index, s) = Ok (v', it') /\ at_pos v' it' pre ((index, s) :: post).
Proof.
  intros Ha Hs Hb Hf Hle. apply sorted_app_inv in Hs as [H1 H2].
  apply at_insert; simpl; [done| | |done].
  - apply sorted_before; [by apply sorted_ok|done].
  - apply sorted_after; [by apply sorted_ok|done].
Qed.

(** [do_add] when no range ends at the index. *)
Lemma add_not_adjacent v it pre post index here :
  at_pos v it pre post -> sorted (pre ++ post) -> below (index - 1) pre -> above index post ->
  0 <= index < npos -> match post with [] => True | p :: _ => here = p end ->
  exists v' it' pre' post',
    (let valid := negb (bool_decide (post = [])) in
     if valid && (fst here <=? index) && (index <? snd here) then Ok (v, it)
     else if valid && (fst here =? index + 1) then v ← it_adjust v it (-1) 0; Ok (v, it)
     else vec_insert v it (index, index + 1)) = Ok (v', it') /\
    at_pos v' it' pre' post' /\ add_case index pre post pre' post'.
Proof.
  intros Ha Hs Hb Hab Hi Hh. destruct post as [|[f s] post]; cbn [negb andb].
  { rewrite bool_decide_true by done. cbn [negb andb].
    destruct (insert_index v it pre [] index (index + 1)) as (v' & it' & -> & Ha');
      [done|done|ranges_weaken|ranges_weaken|lia|].
    eexists _, _, _, _. split_and!; [done|done|]. apply add_alone; [done|ranges_weaken]. }
  rewrite bool_decide_false by done. subst here. cbn [negb andb fst snd].
  ranges_in_hyps.
  destruct (Z.leb_spec f index), (Z.ltb_spec index s); try lia; cbn [andb].
  { eexists _, _, _, _. split_and!; [done|done|]. by apply add_present. }
  destruct (Z.eqb_spec f (index + 1)) as [->|].
  - destruct (at_adjust v it pre (index + 1) s post (-1) 0 Ha) as (v' & -> & _ & Ha').
    eexists _, _, _, _. split_and!; [done|apply Ha'; unfold npos in *; lia|].
    replace (index + 1 + -1) with index by lia. rewrite Z.add_0_r. by apply add_before.
  - destruct (insert_index v it pre ((f, s) :: post) index (index + 1)) as (v' & it' & -> & Ha');
      [done|solve_sorted|ranges_weaken|solve_sorted|lia|].
    eexists _, _, _, _. split_and!; [done|done|]. apply add_alone; [done|solve_sorted].
Qed.

Lemma do_add_spec v it pre post index :
  at_pos v it pre post -> sorted (ranges v) -> below index pre -> above index post ->
  0 <= index < npos ->
  exists v' it' pre' post', do_add v it index = Ok (v', it') /\ at_pos v' it' pre' post' /\
    add_case index pre post pre' post'.
Proof.
  intros Ha Hs Hb Hab Hi. apply (at_sorted _ _ _ _ Ha) in Hs. unfold do_add.
  rewrite (not_begin _ _ _ _ Ha), (not_end _ _ _ _ Ha).
  assert (u64 (index + 1) = index + 1) as ->
    by (apply u64_small; unfold npos in Hi; lia).
  assert (exists here, (if negb (bool_decide (post = [])) then deref v it else Ok (0, 0)) = Ok here /\
    match post with [] => True | p :: _ => here = p end) as (here & Ehere & Hhere).
  { destruct post as [|p post]; simpl; [eauto|]. by rewrite (at_deref _ _ _ _ _ Ha); eauto. }
  destruct (last_cases pre) as [-> | (p1 & [f b] & ->)].
  { cbn - [negb]. cbn [negb]. rewrite Ehere. cbn - [negb].
    apply (add_not_adjacent v it [] post index here); try done; try ranges_weaken. }
  rewrite (bool_decide_eq_false_2 (p1 ++ [(f, b)] = [])) by (by intros [_ ?]%app_nil).
  cbn [negb].
  destruct (at_prev _ _ _ _ _ Ha) as (pit & -> & Hp). cbn [mbind result_bind].
  rewrite (at_deref _ _ _ _ _ Hp), Ehere. cbn [mbind result_bind negb orb fst snd].
  pose proof Hb as Hb'. apply below_app in Hb' as [Hb1 Hb2]. apply below_cons in Hb2 as [Hb2 _].
  cbn [fst snd] in Hb2. destruct (Z.leb_spec b index); [|lia]. cbn [realm_assert mbind result_bind].
  destruct (Z.eqb_spec b index) as [->|Hne].
  2: { cbn [andb]. apply add_not_adjacent; try done. apply below_app. split; [|solve_sorted].
       rewrite <- app_assoc in Hs. cbn [app] in Hs. ranges_in_hyps. ranges_weaken. }
  assert (sorted p1 /\ below (f - 1) p1 /\ 0 <= f < index /\ from (index + 1) post /\ sorted post)
    as (S1 & B1 & Hf & F1 & S2) by (rewrite <- app_assoc in Hs; cbn [app] in Hs; ranges_in_hyps; done).
  destruct (at_adjust v pit p1 f index post 0 1 Hp) as (v1 & -> & Sh1 & Ha1).
  cbn [mbind result_bind]. rewrite Z.add_0_r in Ha1. unfold npos in Hi.
  specialize (Ha1 ltac:(lia) ltac:(lia)). rewrite (at_deref _ _ _ _ _ Ha1). cbn [mbind result_bind].
  assert ((negb (bool_decide (post = [])) && (fst here <=? index) && (index <? snd here)) = false) as ->.
  { destruct post as [|q post]; [done|]. subst q. apply from_cons in F1 as [? _].
    destruct (Z.leb_spec (fst here) index); [lia|]. by rewrite andb_false_r. }
  cbn [andb snd].
  destruct post as [|[f2 s2] post].
  { rewrite bool_decide_true by done. cbn [negb andb].
    eexists _, _, _, _. split_and!; [done|exact Ha1|]. apply add_after. ranges_weaken. }
  subst here. rewrite bool_decide_false by done. cbn [negb andb fst snd].
  apply from_cons in F1 as [F1 F2]. cbn [fst] in F1.
  destruct (Z.eqb_spec (index + 1) f2) as [<-|].
  2: { eexists _, _, _, _. split_and!; [done|exact Ha1|]. apply add_after.
       apply sorted_cons in S2 as ([? ?] & A2 & _). apply apart_from in A2. cbn [fst snd] in *.
       apply from_cons. cbn [fst]. split; [lia|]. ranges_weaken. }
  apply sorted_cons in S2 as ([? ?] & _ & _). cbn [fst snd] in *.
  destruct (at_adjust v1 pit p1 f (index + 1) _ 0 (s2 - (index + 1)) Ha1) as (v2 & -> & Sh2 & Ha2).
  cbn [mbind result_bind]. rewrite Z.add_0_r in Ha2. unfold npos in *.
  specialize (Ha2 ltac:(lia) ltac:(lia)).
  replace (index + 1 + (s2 - (index + 1))) with s2 in Ha2 by lia.
  assert (at_pos v2 it (p1 ++ [(f, s2)]) ((index + 1, s2) :: post)) as Ha3.
  { eapply at_shape; [exact Ha|by eapply at_wf|congruence| |by rewrite !length_app].
    rewrite (at_ranges _ _ _ _ Ha2), <- app_assoc. done. }
  destruct (at_erase _ _ _ _ _ Ha3) as (v3 & it3 & -> & Ha4). cbn [mbind result_bind].
  destruct (at_prev _ _ _ _ _ Ha4) as (it4 & -> & Ha5). cbn [mbind result_bind].
  eexists _, _, _, _. split_and!; [done|exact Ha5|]. apply add_join.
Qed.
End add.

(** ** Membership and addition *)

Section operations_spec.
Context `{MaxSize}.

(** The members of a set. *)
Abbreviation mem v x := (has (ranges v) x).

Lemma at_ok v it pre post :
  at_pos v it pre post -> sorted (pre ++ post) -> index_set_ok v.
Proof. intros Ha Hs. split; [by eapply at_wf|]. by rewrite (at_ranges _ _ _ _ Ha). Qed.

Lemma find_spec v index :
  index_set_ok v ->
  exists it pre post, find v index = Ok it /\ at_pos v it pre post /\
    sorted (pre ++ post) /\ below index pre /\ above index post.
Proof.
  intros [Hw Hs]. destruct (find_from_spec v index (vec_begin v) [] (ranges v))
    as (it & pre & post & E & Ha & Hb & Hab); [by apply at_begin|done|apply Forall_nil_2|].
  exists it, pre, post. split_and!; try done. by eapply at_sorted.
Qed.

(** Case analysis on whether an iterator is the end. *)
Lemma decide_end {A} v it pre post (a b : A) :
  at_pos v it pre post ->
  (if decide (it = vec_end v) then a else b) = match post with [] => a | _ => b end.
Proof.
  intros Ha. pose proof (at_is_end _ _ _ _ Ha) as He. destruct post.
  - rewrite decide_True by (by apply He). done.
  - rewrite decide_False; [done|]. intros E. by apply He in E.
Qed.

Lemma contains_spec v index :
  index_set_ok v -> exists b, contains v index = Ok b /\ (b = true <-> mem v index).
Proof.
  intros Hok. destruct (find_spec v index Hok) as (it & pre & post & E & Ha & Hs & Hb & Hab).
  unfold contains. rewrite E. cbn [mbind result_bind]. rewrite (decide_end _ _ _ _ _ _ Ha).
  rewrite (at_ranges _ _ _ _ Ha). destruct post as [|[f s] post].
  - eexists; split; [done|]. rewrite app_nil_r. split; [done|]. intros Hm.
    apply (has_below _ _ _ Hb) in Hm. lia.
  - rewrite (at_deref _ _ _ _ _ Ha). eexists; split; [done|]. cbn [fst].
    rewrite Z.leb_le. ranges_in_hyps. solve_has.
Qed.

Lemma add_spec v index :
  index_set_ok v -> 0 <= index < npos ->
  exists v', add v index = Ok v' /\ index_set_ok v' /\
    (forall x, mem v' x <-> x = index \/ mem v x).
Proof.
  intros Hok Hi. destruct (find_spec v index Hok) as (it & pre & post & E & Ha & Hs & Hb & Hab).
  destruct (do_add_spec v it pre post index Ha (is_sorted _ Hok) Hb Hab Hi)
    as (v' & it' & pre' & post' & E' & Ha' & Hc).
  apply add_case_spec in Hc as (Hs' & _ & _ & Hm); [|done..].
  unfold add. rewrite E. cbn [mbind result_bind]. rewrite E'. eexists; split; [done|].
  split; [by eapply at_ok|]. intros x. rewrite (at_ranges _ _ _ _ Ha), (at_ranges _ _ _ _ Ha').
  apply Hm.
Qed.

Lemma empty_ok : index_set_ok [].
Proof. split; [by apply Forall_nil_2|done]. Qed.

Lemma of_list_spec values :
  Forall (fun x => 0 <= x < npos) values ->
  exists v, of_list values = Ok v /\ index_set_ok v /\ (forall x, mem v x <-> x ∈ values).
Proof.
  unfold of_list. enough (forall v, index_set_ok v -> Forall (fun x => 0 <= x < npos) values ->
    exists v', fold_result add v values = Ok v' /\ index_set_ok v' /\
      (forall x, mem v' x <-> mem v x \/ x ∈ values)) as He.
  { intros Hv. destruct (He [] empty_ok Hv) as (v & E & Hok & Hm). exists v.
    split_and!; [done|done|]. intros x. rewrite Hm. change (ranges []) with (@nil (Z * Z)).
    rewrite has_nil. tauto. }
  induction values as [|i values IH]; intros v Hok Hv.
  - exists v. split_and!; [done|done|]. intros x. rewrite elem_of_nil. tauto.
  - apply Forall_cons in Hv as [Hi Hv]. destruct (add_spec v i Hok Hi) as (v1 & E1 & Hok1 & Hm1).
    destruct (IH v1 Hok1 Hv) as (v2 & E2 & Hok2 & Hm2). exists v2. cbn [fold_result]. rewrite E1.
    split_and!; [done|done|]. intros x. rewrite Hm2, Hm1, elem_of_cons. tauto.
Qed.

Lemma set_spec v len :
  0 <= len <= npos ->
  exists v', set v len = Ok v' /\ index_set_ok v' /\ (forall x, mem v' x <-> 0 <= x < len).
Proof.
  intros Hl. unfold set, clear. destruct (Z.eqb_spec len 0) as [->|Hne].
  - exists []. split_and!; [done|apply empty_ok|]. intros x. change (ranges []) with (@nil (Z * Z)).
    rewrite has_nil. lia.
  - destruct (push_back_spec [] (0, len)) as (v' & E & Hw & Er); [by apply Forall_nil_2..|].
    exists v'. split_and!; [done| |].
    + split; [done|]. rewrite Er. cbn [ranges app concat fmap list_fmap]. solve_sorted.
    + intros x. rewrite Er. cbn [ranges app concat fmap list_fmap]. solve_has.
Qed.

(** ** Shifting the rest of the set *)

Lemma shift_until_end_spec fuel v it pre post d :
  at_pos v it pre post -> (length post <= fuel)%nat ->
  Forall (fun p => 0 <= fst p + d /\ fst p <= snd p /\ snd p + d < word_size) post ->
  exists v', shift_until_end fuel v it d = Ok v' /\ shape v' = shape v /\ wf_vec v' /\
    ranges v' = pre ++ shift_list d post.
Proof.
  revert v it pre post. induction fuel as [|fuel IH]; intros v it pre post Ha Hl Hb;
    cbn [shift_until_end]; rewrite (decide_end _ _ _ _ _ _ Ha); destruct post as [|[f s] post].
  1, 3: exists v; split_and!; [done|done|by eapply at_wf|by rewrite (at_ranges _ _ _ _ Ha)].
  { cbn [length] in Hl. lia. }
  apply Forall_cons in Hb as [(? & ? & ?) Hb]. cbn [fst snd] in *.
  destruct (at_shift v it pre f s post d Ha) as (v1 & E1 & Sh1 & Ha1).
  specialize (Ha1 ltac:(lia) ltac:(lia)). destruct (at_next _ _ _ _ _ Ha1) as (it2 & E2 & Ha2).
  destruct (IH v1 it2 _ post Ha2) as (v' & E' & Sh' & Hw' & Er'); [cbn [length] in Hl; lia|done|].
  exists v'. rewrite E1. cbn [mbind result_bind]. rewrite E2. cbn [mbind result_bind].
  split_and!; [done|congruence|done|]. rewrite Er', <- app_assoc. done.
Qed.

Lemma shift_bounds d l :
  Forall ok_range l -> from (- d) l -> below (npos - d) l ->
  Forall (fun p => 0 <= fst p + d /\ fst p <= snd p /\ snd p + d < word_size) l.
Proof.
  intros Ho Hf Hb. eapply Forall_impl2; [exact (proj2 (Forall_and _ _) (conj Ho Hf))|exact Hb|].
  simpl. unfold ok_range, npos. lia.
Qed.

Lemma fuel_enough v it pre post : at_pos v it pre post -> (length post <= ranges_fuel v)%nat.
Proof. intros Ha. unfold ranges_fuel. rewrite (at_ranges _ _ _ _ Ha), length_app. lia. Qed.

Lemma fuel_shape v v' : shape v' = shape v -> ranges_fuel v' = ranges_fuel v.
Proof. intros Hs. unfold ranges_fuel. by rewrite !length_ranges, Hs. Qed.

Lemma insert_loop_spec n v pos pre post index :
  at_pos v pos pre post -> sorted (pre ++ post) -> below index pre ->
  from (index + Z.of_nat n + 1) post -> 0 <= index -> index + Z.of_nat n <= npos ->
  exists v', insert_loop n v pos index = Ok v' /\ index_set_ok v' /\
    (forall x, mem v' x <-> index <= x < index + Z.of_nat n \/ has (pre ++ post) x).
Proof.
  revert v pos pre post index. induction n as [|n IH]; intros v pos pre post index Ha Hs Hb Hf Hi Hn.
  - exists v. split_and!; [done|by eapply at_ok|]. intros x. rewrite (at_ranges _ _ _ _ Ha).
    rewrite Z.add_0_r. split; [tauto|]. intros [?|?]; [lia|done].
  - rewrite Nat2Z.inj_succ in *.
    assert (above index post) as Hab.
    { apply sorted_app_inv in Hs as [_ Hs]. apply sorted_ok in Hs.
      eapply Forall_impl2; [exact Hs|exact Hf|]. simpl. intros p [? ?] ?. lia. }
    assert (sorted (ranges v)) as Hsv by (by rewrite (at_ranges _ _ _ _ Ha)).
    destruct (do_add_spec v pos pre post index Ha Hsv Hb Hab ltac:(lia))
      as (v1 & it1 & pre1 & post1 & E1 & Ha1 & Hc).
    apply add_case_spec in Hc as (Hs1 & Hb1 & (f & s & rest & -> & Hfs & Hrest) & Hm); [|done|done|done|lia].
    assert (s = index + 1 /\ rest = post) as [-> ->].
    { destruct Hrest as [?|(f2 & -> & Hf2)]; [done|]. apply from_cons in Hf as [? _]. simpl in *. lia. }
    destruct (at_next _ _ _ _ _ Ha1) as (it2 & E2 & Ha2).
    destruct (IH v1 it2 _ post (index + 1) Ha2) as (v' & E' & Hok & Hm').
    + by rewrite <- app_assoc.
    + apply below_app. split; [ranges_weaken|solve_sorted].
    + ranges_weaken.
    + lia.
    + lia.
    + exists v'. cbn [insert_loop]. rewrite E1. cbn [mbind result_bind]. rewrite E2.
      cbn [mbind result_bind]. rewrite u64_small by (unfold npos in *; lia).
      split_and!; [done|done|]. intros x. rewrite Hm', <- app_assoc. cbn [app].
      rewrite Hm. solve_has.
Qed.
End operations_spec.

(** ** Insertion and removal of elements *)

Section shifting_spec.
Context `{MaxSize}.
Abbreviation mem v x := (has (ranges v) x).

(** The parts of a set before and after the position of an index. *)
Lemma below_parts v it pre post y :
  at_pos v it pre post -> below y (ranges v) -> below y pre /\ below y post.
Proof. intros Ha. rewrite (at_ranges _ _ _ _ Ha). apply below_app. Qed.

Lemma ok_parts pre post : sorted (pre ++ post) -> Forall ok_range pre /\ Forall ok_range post.
Proof. intros [H1 H2]%sorted_app_inv. split; by apply sorted_ok. Qed.

Lemma insert_at_spec v index n :
  index_set_ok v -> 0 <= index -> 0 < n -> index + n <= npos -> below (npos - n) (ranges v) ->
  exists v', insert_at v index n = Ok v' /\ index_set_ok v' /\
    (forall x, mem v' x <->
       index <= x < index + n \/ (x < index /\ mem v x) \/ (index + n <= x /\ mem v (x - n))).
Proof.
  intros Hok Hi Hn Hin Hbd.
  destruct (find_spec v index Hok) as (it & pre & post & E & Ha & Hs & Hb & Hab).
  destruct (below_parts _ _ _ _ _ Ha Hbd) as [_ Hbp].
  unfold insert_at. rewrite (proj2 (Z.ltb_lt 0 n) Hn), E. cbn [realm_assert mbind result_bind].
  rewrite (decide_end _ _ _ _ _ _ Ha). setoid_rewrite (at_ranges _ _ _ _ Ha).
  destruct post as [|[f s] post].
  { destruct (insert_loop_spec (Z.to_nat n) v it pre [] index) as (v' & E' & Hok' & Hm');
      [done|done|done|ranges_weaken|done|lia|]. exists v'. rewrite E'. split_and!; [done|done|].
    intros x. rewrite Hm', !app_nil_r. rewrite Z2Nat.id by lia. clear Hm'. solve_has. }
  rewrite (at_deref _ _ _ _ _ Ha). cbn [mbind result_bind].
  destruct (ok_parts _ _ Hs) as [_ Hop]. apply Forall_cons in Hop as [[? ?] Hop]. cbn [fst snd] in *.
  ranges_in_hyps.
  (* the first range, extended or shifted, and the others *)
  set (f' := if f <=? index then f else f + n).
  assert (exists v1, (if f <=? index then it_adjust v it 0 n else it_shift v it n) = Ok v1 /\
    shape v1 = shape v /\ at_pos v1 it pre ((f', s + n) :: post)) as (v1 & -> & Sh1 & Ha1).
  { unfold f'. destruct (Z.leb_spec f index).
    - destruct (at_adjust v it pre f s post 0 n Ha) as (v1 & -> & Sh1 & Ha1).
      exists v1. split_and!; [done|done|]. rewrite Z.add_0_r in Ha1. apply Ha1; unfold npos in *; lia.
    - destruct (at_shift v it pre f s post n Ha) as (v1 & -> & Sh1 & Ha1).
      exists v1. split_and!; [done|done|]. apply Ha1; unfold npos in *; lia. }
  cbn [mbind result_bind]. destruct (at_next _ _ _ _ _ Ha1) as (it2 & -> & Ha2). cbn [mbind result_bind].
  destruct (shift_until_end_spec (ranges_fuel v1) v1 it2 _ post n Ha2) as (v2 & -> & Sh2 & Hw2 & Er2).
  { pose proof (fuel_enough _ _ _ _ Ha1) as Hf. cbn [length] in Hf. lia. }
  { apply shift_bounds; [done|ranges_weaken|done]. }
  cbn [mbind result_bind]. rewrite <- app_assoc in Er2. cbn [app] in Er2. unfold f' in *. clear f'.
  destruct (Z.leb_spec f index).
  - exists v2. split_and!; [done| |].
    + split; [done|]. rewrite Er2. solve_sorted.
    + intros x. rewrite Er2. solve_has.
  - assert (at_pos v2 it pre ((f + n, s + n) :: shift_list n post)) as Ha3
      by (eapply at_shape; [exact Ha|done|congruence|done|done]).
    destruct (insert_loop_spec (Z.to_nat n) v2 it pre ((f + n, s + n) :: shift_list n post) index)
      as (v' & -> & Hok' & Hm'); [done|solve_sorted|done| |done|lia|].
    { rewrite Z2Nat.id by lia. solve_sorted. }
    exists v'. split_and!; [done|done|]. intros x. rewrite Hm', Z2Nat.id by lia. clear Hm'. solve_has.
Qed.

Lemma shift_for_insert_at_spec v index n :
  index_set_ok v -> 0 <= index -> 0 < n -> index + n <= npos -> below (npos - n) (ranges v) ->
  exists v', shift_for_insert_at v index n = Ok v' /\ index_set_ok v' /\
    (forall x, mem v' x <-> (x < index /\ mem v x) \/ (index + n <= x /\ mem v (x - n))).
Proof.
  intros Hok Hi Hn Hin Hbd.
  destruct (find_spec v index Hok) as (it & pre & post & E & Ha & Hs & Hb & Hab).
  destruct (below_parts _ _ _ _ _ Ha Hbd) as [_ Hbp].
  unfold shift_for_insert_at. rewrite (proj2 (Z.ltb_lt 0 n) Hn), E. cbn [realm_assert mbind result_bind].
  rewrite (decide_end _ _ _ _ _ _ Ha). setoid_rewrite (at_ranges _ _ _ _ Ha).
  destruct post as [|[f s] post].
  { exists v. split_and!; [done|done|]. intros x. rewrite (at_ranges _ _ _ _ Ha). solve_has. }
  destruct (ok_parts _ _ Hs) as [_ Hop].
  destruct (shift_until_end_spec (ranges_fuel v) v it pre ((f, s) :: post) n Ha)
    as (v1 & -> & Sh1 & Hw1 & Er1).
  { by eapply fuel_enough. }
  { apply shift_bounds; [done| |done]. apply sorted_app_inv in Hs as [_ Hs].
    apply Forall_cons in Hop as [[? ?] _]. ranges_in_hyps. solve_sorted. }
  cbn [mbind result_bind].
  assert (at_pos v1 it pre ((f + n, s + n) :: shift_list n post)) as Ha1
    by (eapply at_shape; [exact Ha|done|done|exact Er1|done]).
  rewrite (at_deref _ _ _ _ _ Ha1). cbn [mbind result_bind].
  ranges_in_hyps. rewrite !u64_small by (unfold npos in *; lia).
  destruct (Z.ltb_spec (f + n) (index + n)).
  2: { exists v1. split_and!; [done|eapply at_ok; [exact Ha1|solve_sorted]|].
       intros x. rewrite Er1. cbn [shift_list fmap list_fmap fst snd]. fold (shift_list n post). solve_has. }
  replace (f + n - n) with f by lia.
  destruct (at_set v1 it pre _ _ f index Ha1) as (v2 & -> & Sh2 & Ha2). cbn [mbind result_bind].
  destruct (at_next _ _ _ _ _ Ha2) as (it2 & -> & Ha3). cbn [mbind result_bind].
  destruct (insert_index v2 it2 _ _ (index + n) (s + n) Ha3) as (v3 & it3 & -> & Ha4).
  { rewrite <- app_assoc. cbn [app]. solve_sorted. }
  { solve_sorted. }
  { ranges_weaken. }
  { lia. }
  cbn [mbind result_bind]. exists v3. split_and!; [done| |].
  - eapply at_ok; [exact Ha4|]. rewrite <- app_assoc. cbn [app]. solve_sorted.
  - intros x. rewrite (at_ranges _ _ _ _ Ha4), <- app_assoc. cbn [app]. solve_has.
Qed.
End shifting_spec.

Section erasing_spec.
Context `{MaxSize}.
Abbreviation mem v x := (has (ranges v) x).

(** Shift all ranges from an iterator on. *)
Lemma shift_rest v it pre post d :
  at_pos v it pre post -> sorted (pre ++ post) -> from (- d) post -> below (npos - d) post ->
  exists v', shift_until_end (ranges_fuel v) v it d = Ok v' /\ wf_vec v' /\
    ranges v' = pre ++ shift_list d post.
Proof.
  intros Ha Hs Hf Hb. destruct (ok_parts _ _ Hs) as [_ Ho].
  destruct (shift_until_end_spec (ranges_fuel v) v it pre post d Ha) as (v' & E & _ & Hw & Er);
    [by eapply fuel_enough|by apply shift_bounds|]. eauto.
Qed.

Lemma below_npos l y : Forall ok_range l -> npos <= y -> below y l.
Proof. intros Ho Hy. eapply Forall_impl; [exact Ho|]. simpl. intros p [? ?]. lia. Qed.

Lemma do_erase_spec v it pre f s post index :
  at_pos v it pre ((f, s) :: post) -> sorted (pre ++ (f, s) :: post) -> below index pre ->
  0 <= index < s ->
  exists v', do_erase v it index = Ok v' /\ index_set_ok v' /\
    (forall x, mem v' x <-> (x < index /\ mem v x) \/ (index <= x /\ mem v (x + 1))).
Proof.
  intros Ha Hs Hb Hi. unfold do_erase. rewrite (at_deref _ _ _ _ _ Ha). cbn [mbind result_bind].
  setoid_rewrite (at_ranges _ _ _ _ Ha).
  destruct (ok_parts _ _ Hs) as [_ Hop]. apply Forall_cons in Hop as [[Hfs Hsn] Hop].
  cbn [fst snd] in *. assert (below (npos - -1) post) as Hbp by (apply below_npos; [done|lia]).
  ranges_in_hyps. rewrite !(u64_small (f + 1)) by (unfold npos in *; lia).
  destruct (Z.leb_spec f index); [destruct (Z.eqb_spec (f + 1) s) as [<-|]|].
  - destruct (at_erase _ _ _ _ _ Ha) as (v1 & it1 & -> & Ha1). cbn [mbind result_bind].
    destruct (shift_rest v1 it1 pre post (-1) Ha1) as (v2 & -> & Hw & Er);
      [eapply (sorted_between (f - 1)); solve_sorted|ranges_weaken|done|].
    exists v2. split_and!; [done|split; [done|]|]; [rewrite Er|intros x; rewrite Er; solve_has].
    eapply (sorted_between (f - 1)); solve_sorted.
  - destruct (at_adjust v it pre f s post 0 (-1) Ha) as (v1 & -> & _ & Ha1). rewrite Z.add_0_r in Ha1.
    specialize (Ha1 ltac:(unfold npos in *; lia) ltac:(unfold npos in *; lia)).
    cbn [mbind result_bind]. destruct (at_next _ _ _ _ _ Ha1) as (it1 & -> & Ha2). cbn [mbind result_bind].
    destruct (shift_rest v1 it1 _ post (-1) Ha2) as (v2 & -> & Hw & Er);
      [rewrite <- app_assoc; cbn [app]; solve_sorted|ranges_weaken|done|].
    rewrite <- app_assoc in Er. cbn [app] in Er.
    exists v2. split_and!; [done|split; [done|]|]; [rewrite Er; solve_sorted|intros x; rewrite Er; solve_has].
  - (* everything from the range found on moves; the range before may join it *)
    destruct (shift_rest v it pre ((f, s) :: post) (-1) Ha) as (v2 & E2 & Hw & Er);
      [solve_sorted|solve_sorted|solve_sorted|].
    assert (forall y, below y pre -> y < f - 1 -> exists v', shift_until_end (ranges_fuel v) v it (-1) = Ok v' /\
      index_set_ok v' /\ (forall x, mem v' x <->
        (x < index /\ has (pre ++ (f, s) :: post) x) \/
        (index <= x /\ has (pre ++ (f, s) :: post) (x + 1)))) as Hplain.
    { intros y Hy Hyf. exists v2. split; [done|]. cbn [shift_list fmap list_fmap fst snd] in Er.
      fold (shift_list (-1) post) in Er. split; [split; [done|]|]; [rewrite Er; solve_sorted|].
      intros x. rewrite Er. solve_has. }
    destruct (last_cases pre) as [-> | (p1 & [pf ps] & ->)].
    { apply at_is_begin in Ha as Hbeg. rewrite decide_True by (by apply Hbeg). cbn [mbind result_bind].
      apply (Hplain (f - 2)); [ranges_weaken|lia]. }
    rewrite decide_False by (intros Eb; apply (at_is_begin _ _ _ _ Ha) in Eb; by apply app_nil in Eb as [_ ?]).
    destruct (at_prev _ _ _ _ _ Ha) as (pit & -> & Hp). cbn [mbind result_bind].
    rewrite (at_deref _ _ _ _ _ Hp). cbn [mbind result_bind].
    ranges_in_hyps.
    rewrite u64_small by (unfold npos in *; lia).
    destruct (Z.eqb_spec (ps + 1) f) as [<-|Hgap].
    2: { cbn [mbind result_bind]. apply (Hplain (f - 2)); [|lia].
         apply below_app. split; [ranges_weaken|solve_sorted]. }
    destruct (at_adjust v pit p1 pf ps _ 0 (s - (ps + 1)) Hp) as (v1 & -> & Sh1 & Ha1).
    rewrite Z.add_0_r in Ha1. replace (ps + (s - (ps + 1))) with (s - 1) in Ha1 by lia.
    specialize (Ha1 ltac:(unfold npos in *; lia) ltac:(unfold npos in *; lia)).
    cbn [mbind result_bind].
    assert (at_pos v1 it (p1 ++ [(pf, s - 1)]) ((ps + 1, s) :: post)) as Ha3.
    { eapply at_shape; [exact Ha|by eapply at_wf|congruence| |by rewrite !length_app].
      rewrite (at_ranges _ _ _ _ Ha1), <- app_assoc. done. }
    destruct (at_erase _ _ _ _ _ Ha3) as (v3 & it3 & -> & Ha4). cbn [mbind result_bind].
    ranges_in_hyps.
    destruct (shift_rest v3 it3 _ post (-1) Ha4) as (v4 & -> & Hw4 & Er4);
      [rewrite <- app_assoc; cbn [app]; solve_sorted|ranges_weaken|done|].
    rewrite <- app_assoc in Er4. cbn [app] in Er4.
    exists v4. split_and!; [done|split; [done|]|]; [rewrite Er4; solve_sorted|].
    intros x. rewrite Er4, <- app_assoc. cbn [app]. clear Hplain. solve_has.
Qed.

Lemma erase_at_spec v index :
  index_set_ok v -> 0 <= index ->
  exists v', erase_at v index = Ok v' /\ index_set_ok v' /\
    (forall x, mem v' x <-> (x < index /\ mem v x) \/ (index <= x /\ mem v (x + 1))).
Proof.
  intros Hok Hi. destruct (find_spec v index Hok) as (it & pre & post & E & Ha & Hs & Hb & Hab).
  unfold erase_at. rewrite E. cbn [mbind result_bind]. rewrite (decide_end _ _ _ _ _ _ Ha).
  destruct post as [|[f s] post].
  - exists v. split_and!; [done|done|]. intros x. rewrite (at_ranges _ _ _ _ Ha). solve_has.
  - apply (do_erase_spec v it pre f s post); try done. ranges_in_hyps. lia.
Qed.
End erasing_spec.
