(* ===== verification/IndexSetCount.v ===== *)
(** Counting, translation and removal in an [IndexSet]: [count], [shift], [unshift],
    [add_shifted], [erase_or_unshift] and [remove] do on the chunks and ranges what they
    should do to the set of indices. *)

From S2P Require Import Prelude ChunkedRangeVector RangeList IndexSet.

(** ** Counting and translation *)

Section counting_spec.
Context `{MaxSize}.
Abbreviation mem v x := (has (ranges v) x).

(** A complete chunk. *)
Lemma at_chunk_sorted v it pre r post :
  at_pos v it pre (r :: post) -> offset it = 0%nat -> sorted (pre ++ r :: post) ->
  exists c rest, chunk_at v (outer it) = Ok c /\ r :: post = data c ++ rest /\ data c <> [] /\
    c_count c = u64 (width (data c)) /\ below (c_end c) (data c) /\
    (exists p, p ∈ data c /\ snd p = c_end c) /\
    at_pos v (next_chunk it) (pre ++ data c) rest.
Proof.
  intros Ha Ho Hs. destruct (at_chunk v it pre r post Ha Ho) as (c & rest & E & Hc & Er & Ha').
  exists c, rest. apply sorted_app_inv in Hs as [_ Hs]. rewrite Er in Hs.
  apply sorted_app_inv in Hs as [Hs _]. split_and!; try done.
  - by apply chunk_nonempty.
  - apply Hc.
  - by apply chunk_below.
  - destruct Hc as [[_ _ He] _]. unfold last_second in He.
    destruct (last (data c)) as [p|] eqn:El; [|done]. injection He as He.
    exists p. split; [|done]. by apply last_Some_elem_of in El.
Qed.

Lemma shorter_rest {A} (d rest : list A) r post n :
  r :: post = d ++ rest -> d <> [] -> (length (r :: post) <= S n)%nat -> (length rest <= n)%nat.
Proof.
  intros E Hd Hl. apply (f_equal length) in E. rewrite length_app in E. destruct d; [done|].
  simpl in *. lia.
Qed.

(** Skipping complete chunks and then ranges that end at the index or before. *)
Lemma unshift_chunks_spec fuel v it pre post index z :
  at_pos v it pre post -> offset it = 0%nat -> sorted (pre ++ post) -> below index pre ->
  (length post <= fuel)%nat ->
  exists it' pre' post',
    unshift_chunks fuel v it index (u64 z) = Ok (it', u64 (z - (width pre' - width pre))) /\
    at_pos v it' pre' post' /\ pre' ++ post' = pre ++ post /\ below index pre'.
Proof.
  revert it pre post z. induction fuel as [|fuel IH]; intros it pre post z Ha Ho Hs Hb Hl;
    cbn [unshift_chunks]; rewrite (decide_end _ _ _ _ _ _ Ha); destruct post as [|r post].
  1, 3: exists it, pre, []; split_and!; try done; do 2 f_equal; f_equal; lia.
  { cbn [length] in Hl. lia. }
  destruct (at_chunk_sorted _ _ _ _ _ Ha Ho Hs) as (c & rest & -> & Er & Hne & Hn & Hbc & _ & Ha').
  cbn [mbind result_bind]. destruct (Z.leb_spec (c_end c) index).
  - destruct (IH (next_chunk it) (pre ++ data c) rest (z - width (data c)) Ha') as
      (it' & pre' & post' & E & Ha2 & Ep & Hb'); [done|rewrite <- app_assoc, <- Er; done| | |].
    + apply below_app. split; [done|]. eapply below_weaken; [exact Hbc|lia].
    + by eapply shorter_rest.
    + exists it', pre', post'. rewrite Hn, u64_sub_l, u64_sub_r, E. split_and!; [|done| |done].
      * do 3 f_equal. rewrite width_app. lia.
      * by rewrite Ep, <- app_assoc, <- Er.
  - exists it, pre, (r :: post). split_and!; try done. do 2 f_equal. f_equal. lia.
Qed.

Lemma unshift_ranges_spec fuel v it pre post index z :
  at_pos v it pre post -> sorted (pre ++ post) -> below index pre -> (length post <= fuel)%nat ->
  exists it' pre' post',
    unshift_ranges fuel v it index (u64 z) = Ok (it', u64 (z - (width pre' - width pre))) /\
    at_pos v it' pre' post' /\ pre' ++ post' = pre ++ post /\ below index pre' /\
    match post' with [] => True | p :: _ => index < snd p end.
Proof.
  revert it pre post z. induction fuel as [|fuel IH]; intros it pre post z Ha Hs Hb Hl;
    cbn [unshift_ranges]; rewrite (decide_end _ _ _ _ _ _ Ha); destruct post as [|[f s] post].
  1, 3: exists it, pre, []; split_and!; try done; do 2 f_equal; f_equal; lia.
  { cbn [length] in Hl. lia. }
  rewrite (at_deref _ _ _ _ _ Ha). cbn [mbind result_bind]. destruct (Z.leb_spec s index).
  - destruct (at_next _ _ _ _ _ Ha) as (it2 & -> & Ha2). cbn [mbind result_bind].
    destruct (IH it2 _ _ (z - (s - f)) Ha2) as (it' & pre' & post' & E & Ha3 & Ep & Hb' & Hp);
      [rewrite <- app_assoc; done|solve_sorted|cbn [length] in Hl; lia|].
    exists it', pre', post'. rewrite u64_sub_l, u64_sub_r, E. split_and!; [|done| |done|done].
    + do 3 f_equal. rewrite width_app. simpl. lia.
    + by rewrite Ep, <- app_assoc.
  - exists it, pre, ((f, s) :: post). split_and!; try done. do 2 f_equal. f_equal. lia.
Qed.

Lemma begin_offset v : offset (vec_begin v) = 0%nat.
Proof. by destruct v. Qed.

Lemma erase_or_unshift_spec v index :
  index_set_ok v -> 0 <= index < npos ->
  exists v', erase_or_unshift v index =
      Ok (v', if decide (mem v index) then npos else index - count_in 0 index (ranges v)) /\
    index_set_ok v' /\
    (forall x, mem v' x <-> (x < index /\ mem v x) \/ (index <= x /\ mem v (x + 1))).
Proof.
  intros Hok Hi. pose proof Hok as [Hw Hs]. unfold erase_or_unshift.
  assert (u64 index = index) as Hu by (apply u64_small; unfold npos in Hi; lia).
  destruct (unshift_chunks_spec (ranges_fuel v) v (vec_begin v) [] (ranges v) index index)
    as (it1 & pre1 & post1 & E1 & Ha1 & Ep1 & Hb1);
    [by apply at_begin|apply begin_offset|done|ranges_weaken|done|].
  rewrite Hu in E1. rewrite E1. cbn [mbind result_bind app] in *. rewrite <- Ep1 in *.
  destruct (unshift_ranges_spec (ranges_fuel v) v it1 pre1 post1 index (index - (width pre1 - width [])))
    as (it & pre & post & -> & Ha & Ep & Hb & Hp); [done|done|done|by eapply fuel_enough|].
  cbn [mbind result_bind]. rewrite (decide_end _ _ _ _ _ _ Ha). rewrite <- Ep in *.
  destruct (ok_parts _ _ Hs) as [Hop Hopo].
  assert (from 0 pre) as Hf by (eapply Forall_impl; [exact Hop|]; simpl; intros p [? ?]; lia).
  assert (width pre <= index) as Hwp.
  { rewrite <- (count_in_all 0 index pre) by done. apply sorted_app_inv in Hs as [Hs _].
    pose proof (count_in_le 0 index pre Hs Hf). lia. }
  pose proof (width_nonneg _ Hop).
  assert (u64 (index - (width pre1 - width []) - (width pre - width pre1)) = index - width pre) as ->.
  { simpl. rewrite u64_small by (unfold npos in *; lia). lia. }
  rewrite count_in_app, (count_in_all 0 index pre) by done.
  destruct post as [|[f s] post].
  - exists v. split_and!; [|done|].
    + rewrite app_nil_r, decide_False by (intros Hm; apply (has_below _ _ _ Hb) in Hm; lia).
      rewrite count_in_nil. do 2 f_equal. lia.
    + intros x. rewrite (at_ranges _ _ _ _ Ha). solve_has.
  - rewrite (at_deref _ _ _ _ _ Ha). cbn [mbind result_bind snd] in *.
    destruct (do_erase_spec v it pre f s post index Ha Hs Hb) as (v' & -> & Hok' & Hm'); [lia|].
    exists v'. cbn [mbind result_bind]. split_and!; [|done|].
    + do 2 f_equal. ranges_in_hyps. destruct (Z.leb_spec f index).
      * rewrite decide_True; [done|]. apply has_app. right. apply has_cons. left. simpl. lia.
      * assert (has (pre ++ (f, s) :: post) index <-> False) as Hno by solve_has.
        rewrite decide_False by (by intros Hm%Hno).
        rewrite count_in_cons, (count_in_from 0 index post) by ranges_weaken.
        unfold overlap. simpl. lia.
    + intros x. rewrite Hm', (at_ranges _ _ _ _ Ha). done.
Qed.

(** ** Translation of an index *)

Lemma u64_width p : ok_range p -> u64 (snd p - fst p) = snd p - fst p.
Proof. intros [? ?]. apply u64_small. unfold npos in *. lia. Qed.

Lemma shift_loop_app l1 l2 i :
  Forall ok_range l1 -> below i l1 -> 0 <= i -> i + width l1 < word_size ->
  shift_loop (l1 ++ l2) i = shift_loop l2 (i + width l1).
Proof.
  intros Ho. revert i. induction Ho as [|p l1 Hp Ho IH]; intros i Hb Hi Hw; simpl in *.
  - f_equal. lia.
  - apply below_cons in Hb as [Hb1 Hb]. pose proof (width_nonneg _ Ho). pose proof Hp as [? ?].
    destruct (Z.ltb_spec i (fst p)); [lia|]. rewrite u64_width, u64_small by (done || lia).
    rewrite IH by (first [lia | eapply below_weaken; [exact Hb|lia]]). f_equal. lia.
Qed.

Lemma shift_loop_spec l i :
  sorted l -> from 0 l -> 0 <= i -> i + width l < word_size ->
  let y := shift_loop l i in
  ~ has l y /\ y = i + count_in 0 y l /\ i <= y <= i + width l.
Proof.
  revert i. induction l as [|p l IH]; intros i Hs Hf Hi Hw.
  - cbn. rewrite has_nil. lia.
  - apply sorted_cons in Hs as (Hp & Ha & Hs). apply from_cons in Hf as [? Hf].
    pose proof (width_nonneg _ (sorted_ok _ Hs)). pose proof Hp as [? ?]. simpl in *.
    apply apart_from in Ha. destruct (Z.ltb_spec i (fst p)).
    + rewrite has_cons, (count_in_from 0 i l) by (eapply from_weaken; [exact Ha|lia]).
      unfold overlap. split; [|lia]. intros [?|Hm]; [lia|]. apply (has_from _ _ _ Ha) in Hm. lia.
    + rewrite u64_width, u64_small by (done || lia).
      destruct (IH (i + (snd p - fst p)) Hs Hf) as (Hn & Ey & Hb); [lia|lia|].
      set (y := shift_loop l (i + (snd p - fst p))) in *.
      rewrite has_cons. unfold overlap. split; [|lia]. intros [?|?]; [lia|done].
Qed.

Lemma count_in_start s1 s2 e l : from s2 l -> s1 <= s2 -> count_in s1 e l = count_in s2 e l.
Proof.
  induction 1 as [|p l Hp _ IH]; [done|]. intros Hs. rewrite !count_in_cons, IH by done.
  unfold overlap. lia.
Qed.

(** The inverse translation: a non-member is what its own position shifts to. *)
Lemma shift_loop_unshift l y :
  sorted l -> from 0 l -> 0 <= y < word_size -> ~ has l y ->
  shift_loop l (y - count_in 0 y l) = y.
Proof.
  revert y. induction l as [|p l IH]; intros y Hs Hf Hy Hn.
  - rewrite count_in_nil. simpl. lia.
  - apply sorted_cons in Hs as (Hp & Ha & Hs). apply from_cons in Hf as [? Hf].
    rewrite has_cons in Hn. pose proof Hp as [? ?]. apply apart_from in Ha.
    rewrite count_in_cons. cbn [shift_loop].
    destruct (Z.lt_ge_cases y (fst p)) as [Hlt|Hge].
    + rewrite (count_in_from 0 y l) by (eapply from_weaken; [exact Ha|lia]).
      assert (overlap 0 y p = 0) as -> by (unfold overlap; lia). rewrite Z.add_0_r, Z.sub_0_r.
      by destruct (Z.ltb_spec y (fst p)); [|lia].
    + assert (snd p <= y) by (destruct (Z.le_gt_cases (snd p) y); [done|exfalso; apply Hn; left; lia]).
      assert (0 <= count_in 0 y l <= y - snd p).
      { split; [apply count_in_nonneg|].
        rewrite (count_in_start 0 (snd p)) by first [lia | eapply from_weaken; [exact Ha|lia]].
        apply count_in_le; [done| |done]. eapply from_weaken; [exact Ha|lia]. }
      assert (overlap 0 y p = snd p - fst p) as -> by (unfold overlap; lia).
      destruct (Z.ltb_spec (y - (snd p - fst p + count_in 0 y l)) (fst p)); [lia|].
      rewrite u64_width, u64_small by (done || lia).
      replace (y - (snd p - fst p + count_in 0 y l) + (snd p - fst p)) with (y - count_in 0 y l) by lia.
      apply IH; [done|done|done|tauto].
Qed.

Lemma sorted_from_0 l : Forall ok_range l -> from 0 l.
Proof. intros Ho. eapply Forall_impl; [exact Ho|]. simpl. intros p [? ?]. lia. Qed.

Lemma add_shifted_chunks_spec fuel v it pre post index :
  at_pos v it pre post -> offset it = 0%nat -> sorted (pre ++ post) -> below index pre ->
  0 <= index -> index + width post < npos -> (length post <= fuel)%nat ->
  exists it' pre' post' index',
    add_shifted_chunks fuel v it index = Ok (it', index') /\
    at_pos v it' pre' post' /\ pre' ++ post' = pre ++ post /\ below index' pre' /\
    0 <= index' /\ index' + width post' < npos /\
    shift_loop post' index' = shift_loop post index.
Proof.
  revert it pre post index. induction fuel as [|fuel IH]; intros it pre post index Ha Ho Hs Hb Hi Hw Hl;
    cbn [add_shifted_chunks]; rewrite (decide_end _ _ _ _ _ _ Ha); destruct post as [|r post].
  1, 3: by exists it, pre, [], index.
  { cbn [length] in Hl. lia. }
  destruct (at_chunk_sorted _ _ _ _ _ Ha Ho Hs) as (c & rest & -> & Er & Hne & Hn & Hbc & _ & Ha').
  cbn [mbind result_bind]. destruct (Z.leb_spec (c_end c) index); [|by exists it, pre, (r :: post), index].
  destruct (ok_parts _ _ Hs) as [_ Hop]. rewrite Er in Hop, Hw |- *. rewrite width_app in Hw.
  apply Forall_app in Hop as [Hod Hor]. pose proof (width_nonneg _ Hod). pose proof (width_nonneg _ Hor).
  assert (below index (data c)) as Hbd by (eapply below_weaken; [exact Hbc|lia]).
  assert (u64 (index + c_count c) = index + width (data c)) as ->
    by (rewrite Hn, u64_add_r; apply u64_small; unfold npos in *; lia).
  destruct (IH (next_chunk it) (pre ++ data c) rest (index + width (data c)) Ha') as
    (it' & pre' & post' & index' & E & Ha2 & Ep & Hb' & Hi' & Hw' & Esh); [done| | |lia|lia|by eapply shorter_rest|].
  - by rewrite <- app_assoc, <- Er.
  - apply below_app. split; eapply below_weaken; (exact Hb || exact Hbd || lia).
  - exists it', pre', post', index'. rewrite E. split_and!; try done.
    + by rewrite Ep, <- app_assoc.
    + rewrite Esh. symmetry. apply shift_loop_app; [done|done|lia|unfold npos in *; lia].
Qed.

Lemma add_shifted_ranges_spec fuel v it pre post index :
  at_pos v it pre post -> sorted (pre ++ post) -> below index pre ->
  0 <= index -> index + width post < npos -> (length post <= fuel)%nat ->
  exists it' pre' post' index',
    add_shifted_ranges fuel v it index = Ok (it', index') /\
    at_pos v it' pre' post' /\ pre' ++ post' = pre ++ post /\ below index' pre' /\
    0 <= index' < npos /\ match post' with [] => True | p :: _ => index' < fst p end /\
    shift_loop post index = index'.
Proof.
  revert it pre post index. induction fuel as [|fuel IH]; intros it pre post index Ha Hs Hb Hi Hw Hl;
    cbn [add_shifted_ranges]; rewrite (decide_end _ _ _ _ _ _ Ha); destruct post as [|[f s] post].
  1, 3: exists it, pre, [], index; simpl in Hw; split_and!; (done || lia).
  { cbn [length] in Hl. lia. }
  destruct (ok_parts _ _ Hs) as [_ Hop]. apply Forall_cons in Hop as [Hp Hop].
  pose proof (width_nonneg _ Hop). pose proof Hp as [? ?]. cbn [width foldr fst snd] in *.
  fold (width post) in *. rewrite (at_deref _ _ _ _ _ Ha). cbn [mbind result_bind shift_loop fst snd].
  destruct (Z.leb_spec f index), (Z.ltb_spec index f); try lia.
  2: { exists it, pre, ((f, s) :: post), index. split_and!; (done || lia). }
  destruct (at_next _ _ _ _ _ Ha) as (it2 & -> & Ha2). cbn [mbind result_bind].
  rewrite u64_add_r, u64_small by (unfold npos in *; lia).
  destruct (IH it2 (pre ++ [(f, s)]) post (index + (s - f)) Ha2) as
    (it' & pre' & post' & index' & E & Ha3 & Ep & Hb' & Hi' & Hh & Esh); [by rewrite <- app_assoc| |lia|lia|cbn [length] in Hl; lia|].
  - apply below_app. split; [ranges_weaken|]. apply below_cons. simpl. split; [lia|ranges_weaken].
  - exists it', pre', post', index'. split_and!; try done; try lia. by rewrite Ep, <- app_assoc.
Qed.

Lemma add_shifted_spec v index :
  index_set_ok v -> 0 <= index -> index + width (ranges v) < npos ->
  exists v', add_shifted v index = Ok (v', shift v index) /\ index_set_ok v' /\
    (forall x, mem v' x <-> x = shift v index \/ mem v x).
Proof.
  intros Hok Hi Hw. pose proof Hok as [Hwf Hs]. unfold add_shifted, shift.
  destruct (add_shifted_chunks_spec (ranges_fuel v) v (vec_begin v) [] (ranges v) index)
    as (it1 & pre1 & post1 & i1 & -> & Ha1 & Ep1 & Hb1 & Hi1 & Hw1 & Es1);
    [by apply at_begin|apply begin_offset|done|ranges_weaken|done|done|done|].
  cbn [mbind result_bind app] in *. rewrite <- Es1, <- Ep1 in *.
  destruct (add_shifted_ranges_spec (ranges_fuel v) v it1 pre1 post1 i1)
    as (it & pre & post & i & -> & Ha & Ep & Hb & Hin & Hh & Es); try done; [by eapply fuel_enough|].
  cbn [mbind result_bind]. rewrite Es. rewrite <- Ep in *.
  assert (above i post) as Hab.
  { destruct post as [|p post]; [ranges_weaken|]. apply sorted_above; [by apply sorted_app_inv in Hs as [_ ?]|].
    destruct (ok_parts _ _ Hs) as [_ Hop]. apply Forall_cons in Hop as [[? ?] _]. lia. }
  destruct (do_add_spec v it pre post i Ha (is_sorted _ Hok) Hb Hab Hin)
    as (v' & it' & pre' & post' & -> & Ha' & Hc).
  apply add_case_spec in Hc as (Hs' & _ & _ & Hm); [|done..].
  exists v'. cbn [mbind result_bind]. split_and!; [done|by eapply at_ok|].
  intros x. rewrite (at_ranges _ _ _ _ Ha'). apply Hm.
Qed.
End counting_spec.

(** ** Counting *)

Section count_spec.
Context `{MaxSize}.

(** The ranges from the index on, when the set starts there or has one chunk only. *)
Lemma count_chunks_spec fuel v it pre post s e z :
  at_pos v it pre post -> offset it = 0%nat \/ post = [] -> sorted (pre ++ post) -> from s post ->
  (length post <= fuel)%nat ->
  exists it' pre' post',
    count_chunks fuel v it e (u64 z) =
      Ok (it', u64 (z + (count_in s e pre' - count_in s e pre))) /\
    at_pos v it' pre' post' /\ pre' ++ post' = pre ++ post /\ from s post'.
Proof.
  revert it pre post z. induction fuel as [|fuel IH]; intros it pre post z Ha Ho Hs Hf Hl;
    cbn [count_chunks]; rewrite (decide_end _ _ _ _ _ _ Ha); destruct post as [|r post].
  1, 3: exists it, pre, []; split_and!; try done; do 2 f_equal; f_equal; lia.
  { cbn [length] in Hl. lia. }
  destruct Ho as [Ho|]; [|done].
  destruct (at_chunk_sorted _ _ _ _ _ Ha Ho Hs) as (c & rest & -> & Er & Hne & Hn & Hbc & _ & Ha').
  cbn [mbind result_bind]. destruct (Z.leb_spec (c_end c) e).
  - rewrite bool_decide_true by done. cbn [realm_assert mbind result_bind].
    destruct (ok_parts _ _ Hs) as [_ Hop]. rewrite Er in Hop, Hf. apply Forall_app in Hop as [Hod _].
    apply from_app in Hf as [Hfd Hfr].
    destruct (IH (next_chunk it) (pre ++ data c) rest (z + width (data c)) Ha') as
      (it' & pre' & post' & E & Ha2 & Ep & Hf'); [by left|rewrite <- app_assoc, <- Er; done|done|by eapply shorter_rest|].
    exists it', pre', post'. rewrite Hn, u64_add_l, u64_add_r, E. split_and!; [|done| |done].
    + do 3 f_equal. rewrite count_in_app, (count_in_all s e (data c)); [lia|done|done|].
      eapply below_weaken; [exact Hbc|lia].
    + by rewrite Ep, <- app_assoc, <- Er.
  - exists it, pre, (r :: post). split_and!; try done. do 2 f_equal. f_equal. lia.
Qed.

Lemma count_ranges_spec fuel v it pre post s e z :
  at_pos v it pre post -> sorted (pre ++ post) -> from s post -> (length post <= fuel)%nat ->
  exists it' pre' post',
    count_ranges fuel v it e (u64 z) =
      Ok (it', u64 (z + (count_in s e pre' - count_in s e pre))) /\
    at_pos v it' pre' post' /\ pre' ++ post' = pre ++ post /\ from s post' /\
    match post' with [] => True | p :: _ => e < snd p end.
Proof.
  revert it pre post z. induction fuel as [|fuel IH]; intros it pre post z Ha Hs Hf Hl;
    cbn [count_ranges]; rewrite (decide_end _ _ _ _ _ _ Ha); destruct post as [|[a b] post].
  1, 3: exists it, pre, []; split_and!; try done; do 2 f_equal; f_equal; lia.
  { cbn [length] in Hl. lia. }
  rewrite (at_deref _ _ _ _ _ Ha). cbn [mbind result_bind]. destruct (Z.leb_spec b e).
  - destruct (at_next _ _ _ _ _ Ha) as (it2 & -> & Ha2). cbn [mbind result_bind].
    apply from_cons in Hf as [Hf1 Hf]. simpl in Hf1.
    destruct (IH it2 _ _ (z + (b - a)) Ha2) as (it' & pre' & post' & E & Ha3 & Ep & Hb' & Hp);
      [rewrite <- app_assoc; done|done|cbn [length] in Hl; lia|].
    exists it', pre', post'. rewrite u64_add_l, u64_add_r, E. split_and!; [|done| |done|done].
    + do 3 f_equal. rewrite count_in_app, count_in_cons, count_in_nil. unfold overlap. simpl.
      destruct (ok_parts _ _ Hs) as [_ Hop]. apply Forall_cons in Hop as [[? ?] _]. simpl in *. lia.
    + by rewrite Ep, <- app_assoc.
  - exists it, pre, ((a, b) :: post). split_and!; try done. do 2 f_equal. f_equal. lia.
Qed.

Lemma count_in_bound s e l : 0 <= s -> Forall ok_range l -> sorted l -> 0 <= count_in s e l < word_size.
Proof.
  intros Hs Ho Hso. split; [apply count_in_nonneg|].
  assert (count_in s e l <= width l) as Hle.
  { clear Hso. induction Ho as [|p l [Hp _] Ho IH]; [done|].
    rewrite count_in_cons, width_cons. unfold overlap. lia. }
  pose proof (width_le l 0 Hso (sorted_from_0 _ Ho) ltac:(by vm_compute)). unfold npos in *. lia.
Qed.

Lemma count_tail_spec v it pre post s e z :
  at_pos v it pre post -> offset it = 0%nat \/ post = [] -> sorted (pre ++ post) -> from s post ->
  0 <= s ->
  count_tail v it e (u64 z) = Ok (u64 (z + count_in s e post)).
Proof.
  intros Ha Ho Hs Hf H0. unfold count_tail.
  destruct (count_chunks_spec (ranges_fuel v) v it pre post s e z) as
    (it1 & pre1 & post1 & -> & Ha1 & Ep1 & Hf1); try done; [by eapply fuel_enough|].
  cbn [mbind result_bind].
  destruct (count_ranges_spec (ranges_fuel v) v it1 pre1 post1 s e
    (z + (count_in s e pre1 - count_in s e pre))) as (it2 & pre2 & post2 & -> & Ha2 & Ep2 & Hf2 & Hh);
    try done; [by rewrite Ep1|by eapply fuel_enough|].
  cbn [mbind result_bind]. rewrite (decide_end _ _ _ _ _ _ Ha2).
  assert (count_in s e post = count_in s e pre2 - count_in s e pre + count_in s e post2) as ->.
  { pose proof (f_equal (count_in s e) (eq_trans Ep2 Ep1)) as Ec. rewrite !count_in_app in Ec. lia. }
  assert (sorted (pre2 ++ post2)) as Hs2 by (by rewrite Ep2, Ep1).
  destruct post2 as [|[a b] post2].
  - rewrite count_in_nil. do 2 f_equal. lia.
  - rewrite (at_deref _ _ _ _ _ Ha2). cbn [mbind result_bind snd] in *.
    apply from_cons in Hf2 as [Hf2 _]. simpl in Hf2. ranges_in_hyps.
    rewrite count_in_cons, (count_in_from s e post2) by ranges_weaken. unfold overlap. simpl.
    destruct (Z.ltb_spec a e).
    + rewrite u64_add_l, u64_add_r. do 2 f_equal. lia.
    + do 2 f_equal. lia.
Qed.

(** Within one chunk, all but the first position have an offset. *)
Lemma single_chunk_offset v it pre r post :
  at_pos v it pre (r :: post) -> (length v <= 1)%nat -> pre <> [] -> offset it <> 0%nat.
Proof.
  intros Ha Hv Hp. inversion Ha as [|va c vb d1 r1 d2 -> Hw E]; subst. simpl.
  rewrite length_app in Hv. simpl in Hv. assert (va = []) as -> by (apply nil_length_inv; lia).
  simpl in Hp. by destruct d1.
Qed.

Lemma count_rest_spec fuel v it pre post s e z :
  at_pos v it pre post -> (length v <= 1)%nat -> pre <> [] -> sorted (pre ++ post) -> from s post ->
  (length post <= fuel)%nat ->
  exists it' pre' post',
    count_rest fuel v it e (u64 z) =
      Ok (it', u64 (z + (count_in s e pre' - count_in s e pre))) /\
    at_pos v it' pre' post' /\ pre' ++ post' = pre ++ post /\ from s post' /\ pre' <> [] /\
    match post' with [] => True | p :: _ => e <= snd p end.
Proof.
  intros Ha Hv. revert it pre post z Ha.
  induction fuel as [|fuel IH]; intros it pre post z Ha Hne Hs Hf Hl;
    cbn [count_rest]; rewrite (decide_end _ _ _ _ _ _ Ha); destruct post as [|[a b] post].
  1, 3: exists it, pre, []; split_and!; try done; do 2 f_equal; f_equal; lia.
  { cbn [length] in Hl. lia. }
  rewrite (at_deref _ _ _ _ _ Ha). cbn [mbind result_bind].
  rewrite bool_decide_false by (by eapply single_chunk_offset). cbn [negb]. rewrite andb_true_r.
  destruct (Z.ltb_spec b e).
  - destruct (at_next _ _ _ _ _ Ha) as (it2 & -> & Ha2). cbn [mbind result_bind].
    apply from_cons in Hf as [Hf1 Hf]. simpl in Hf1.
    destruct (IH it2 _ _ (z + (b - a)) Ha2) as (it' & pre' & post' & E & Ha3 & Ep & Hb' & Hp);
      [by intros [_ ?]%app_nil|rewrite <- app_assoc; done|done|cbn [length] in Hl; lia|].
    exists it', pre', post'. rewrite u64_add_l, u64_add_r, E. split_and!; [|done| |done|apply Hp..].
    + do 3 f_equal. rewrite count_in_app, count_in_cons, count_in_nil. unfold overlap. simpl.
      destruct (ok_parts _ _ Hs) as [_ Hop]. apply Forall_cons in Hop as [[? ?] _]. simpl in *. lia.
    + by rewrite Ep, <- app_assoc.
  - exists it, pre, ((a, b) :: post). split_and!; try done. do 2 f_equal. f_equal. lia.
Qed.

Lemma count_middle_spec v it pre post s e z :
  at_pos v it pre post -> (length v <= 1)%nat -> pre <> [] -> sorted (pre ++ post) -> from s post ->
  0 <= s ->
  count_middle v it e (u64 z) = Ok (u64 (z + count_in s e post)).
Proof.
  intros Ha Hv Hne Hs Hf H0. unfold count_middle.
  destruct (count_rest_spec (ranges_fuel v) v it pre post s e z Ha) as
    (it' & pre' & post' & -> & Ha' & Ep & Hf' & Hne' & Hh); try done; [by eapply fuel_enough|].
  cbn [mbind result_bind]. rewrite (decide_end _ _ _ _ _ _ Ha').
  assert (count_in s e post = count_in s e pre' - count_in s e pre + count_in s e post') as ->.
  { pose proof (f_equal (count_in s e) Ep) as Ec. rewrite !count_in_app in Ec. lia. }
  rewrite <- Ep in Hs. destruct post' as [|[a b] post'].
  - rewrite count_in_nil. do 2 f_equal. lia.
  - rewrite (at_deref _ _ _ _ _ Ha'). cbn [mbind result_bind snd] in *.
    rewrite bool_decide_false by (by eapply single_chunk_offset). cbn [negb]. rewrite andb_true_r.
    destruct (Z.leb_spec e b); [|lia]. apply from_cons in Hf' as [Hf' _]. simpl in Hf'.
    clear Ep. ranges_in_hyps.
    rewrite count_in_cons, (count_in_from s e post') by ranges_weaken. unfold overlap. simpl.
    destruct (Z.ltb_spec a e); rewrite ?u64_add_l, ?u64_add_r; do 2 f_equal; lia.
Qed.

(** ** [count] returns, whatever the interval *)

Lemma count_rest_total fuel v it pre post e z :
  at_pos v it pre post -> (length post <= fuel)%nat ->
  exists it' pre' post' z', count_rest fuel v it e (u64 z) = Ok (it', u64 z') /\ at_pos v it' pre' post' /\
    pre' ++ post' = pre ++ post /\
    match post' with [] => True | p :: _ => offset it' = 0%nat \/ e <= snd p end.
Proof.
  revert it pre post z. induction fuel as [|fuel IH]; intros it pre post z Ha Hl;
    cbn [count_rest]; rewrite (decide_end _ _ _ _ _ _ Ha); destruct post as [|[a b] post].
  1, 3: by exists it, pre, [], z.
  { cbn [length] in Hl. lia. }
  rewrite (at_deref _ _ _ _ _ Ha). cbn [mbind result_bind].
  destruct (Z.ltb_spec b e); [destruct (bool_decide_reflect (offset it = 0%nat))|]; cbn [andb negb].
  - exists it, pre, ((a, b) :: post), z. split_and!; try done. by left.
  - destruct (at_next _ _ _ _ _ Ha) as (it2 & -> & Ha2). cbn [mbind result_bind].
    destruct (IH it2 _ _ (u64 z + u64 (b - a)) Ha2) as (it' & pre' & post' & z' & E & Ha3 & Ep & Hp);
      [cbn [length] in Hl; lia|].
    exists it', pre', post', z'. split_and!; try done. by rewrite Ep, <- app_assoc.
  - exists it, pre, ((a, b) :: post), z. split_and!; try done. right. by simpl.
Qed.

Lemma count_tail_total v it pre post e z :
  at_pos v it pre post -> offset it = 0%nat \/ post = [] -> sorted (pre ++ post) ->
  exists n, count_tail v it e (u64 z) = Ok n.
Proof.
  intros Ha Ho Hs. eexists. apply (count_tail_spec v it pre post 0); try done.
  apply sorted_from_0. by destruct (ok_parts _ _ Hs).
Qed.

Lemma count_total v s e : index_set_ok v -> exists n, count v s e = Ok n.
Proof.
  intros Hok. destruct (find_spec v s Hok) as (it & pre & post & E & Ha & Hs & _).
  unfold count. rewrite E. cbn [mbind result_bind]. rewrite (decide_end _ _ _ _ _ _ Ha).
  destruct post as [|[a b] post]; [by eexists|].
  rewrite (at_deref _ _ _ _ _ Ha). cbn [mbind result_bind].
  destruct (e <=? a); [by eexists|]. destruct (e <=? b); [by eexists|].
  destruct (bool_decide_reflect (offset it = 0%nat)) as [Ho|Ho]; cbn [negb]; rewrite ?orb_true_r, ?orb_false_r.
  1: destruct (a <? s); [|by eapply (count_tail_total v it pre _ e 0); [|left|]].
  all: destruct (at_next _ _ _ _ _ Ha) as (it2 & -> & Ha2); cbn [mbind result_bind]; unfold count_middle;
    destruct (count_rest_total (ranges_fuel v) v it2 _ _ e (b - Z.max a s) Ha2)
      as (it' & pre' & post' & z' & -> & Ha' & Ep & Hp); [by eapply fuel_enough|];
    cbn [mbind result_bind]; rewrite (decide_end _ _ _ _ _ _ Ha');
    destruct post' as [|[a' b'] post']; [by eexists|];
    rewrite (at_deref _ _ _ _ _ Ha'); cbn [mbind result_bind];
    destruct (Z.leb_spec e b'); [by eexists|]; cbn [snd] in Hp;
    destruct Hp as [Hp|]; [|lia]; rewrite bool_decide_true, andb_false_r by done;
    by eapply count_tail_total; [exact Ha'|by left|rewrite Ep, <- app_assoc].
Qed.

(** ** [count] of a set with one chunk, or from the start *)

Lemma first_offset v it r post :
  at_pos v it [] (r :: post) -> offset it = 0%nat.
Proof. intros Ha. apply at_is_begin in Ha as Hb. destruct Hb as [_ ->]; [apply begin_offset|done]. Qed.

Lemma count_spec v s e :
  index_set_ok v -> 0 <= s <= e -> (length v <= 1)%nat \/ from s (ranges v) ->
  count v s e = Ok (count_in s e (ranges v)).
Proof.
  intros Hok Hse Hc. destruct (find_spec v s Hok) as (it & pre & post & E & Ha & Hs & Hb & Hab).
  unfold count. rewrite E. cbn [mbind result_bind]. rewrite (decide_end _ _ _ _ _ _ Ha).
  rewrite (at_ranges _ _ _ _ Ha) in *. destruct (ok_parts _ _ Hs) as [Hopre Hop].
  rewrite count_in_app, (count_in_below s e pre Hb), Z.add_0_l.
  destruct post as [|[a b] post]; [done|].
  rewrite (at_deref _ _ _ _ _ Ha). cbn [mbind result_bind].
  pose proof (count_in_bound s e ((a, b) :: post) ltac:(lia) Hop
    ltac:(by apply sorted_app_inv in Hs as [_ ?])) as Hbd.
  assert (s < b /\ 0 <= a < b /\ from (b + 1) post) as (Hsb & Hab' & Hf)
    by (clear E; ranges_in_hyps; done).
  rewrite count_in_cons in *. unfold overlap in *. cbn [fst snd] in *.
  destruct (Z.leb_spec e a).
  { rewrite (count_in_from s e post) by ranges_weaken. f_equal. lia. }
  destruct (Z.leb_spec e b).
  { rewrite (count_in_from s e post) in * by ranges_weaken. rewrite u64_small by lia. f_equal. lia. }
  assert (offset it = 0%nat -> s <= a -> count_tail v it e 0 =
    Ok (Z.max 0 (Z.min b e - Z.max a s) + count_in s e post)) as Htail.
  { intros Ho Has. rewrite <- (u64_small 0) at 1 by (unfold word_size; lia).
    rewrite (count_tail_spec v it pre ((a, b) :: post) s) by
      first [exact Ha | by left | done | lia | apply from_cons; simpl; split; [lia|ranges_weaken]].
    rewrite count_in_cons. unfold overlap. cbn [fst snd]. rewrite u64_small by lia. by f_equal. }
  destruct (Z.ltb_spec a s) as [Has|Has]; cbn [orb].
  2: destruct (bool_decide_reflect (offset it = 0%nat)) as [Ho|Ho]; cbn [negb]; [by apply Htail|].
  all: assert (length v <= 1)%nat as Hv by
    (destruct Hc as [?|Hc]; [done|]; exfalso; apply from_app in Hc as [Hc1 Hc2];
     apply from_cons in Hc2 as [Hc2 _]; simpl in Hc2;
     first [ lia
           | destruct pre as [|p pre]; [by apply Ho; eapply first_offset|];
             apply from_cons in Hc1 as [Hc1 _]; apply below_cons in Hb as [Hb _];
             apply Forall_cons in Hopre as [[? ?] _]; lia ]).
  all: destruct (at_next _ _ _ _ _ Ha) as (it2 & -> & Ha2); cbn [mbind result_bind];
    rewrite (count_middle_spec v it2 _ post s) by
      first [exact Ha2 | done | by intros [_ ?]%app_nil | by rewrite <- app_assoc | ranges_weaken | lia];
    rewrite u64_small by lia; f_equal; lia.
Qed.

Lemma unshift_spec v index :
  index_set_ok v -> 0 <= index < npos ->
  unshift v index = Ok (index - count_in 0 index (ranges v)).
Proof.
  intros Hok Hi. pose proof Hok as [_ Hs]. pose proof (sorted_from_0 _ (sorted_ok _ Hs)) as Hf.
  unfold unshift. rewrite (count_spec v 0 index Hok) by (lia || by right).
  cbn [mbind result_bind]. f_equal. apply u64_small.
  pose proof (count_in_nonneg 0 index (ranges v)).
  pose proof (count_in_le 0 index (ranges v) Hs Hf ltac:(lia)). unfold npos in *. lia.
Qed.
End count_spec.

(** ** Removal of indices *)

Section remove_spec.
Context `{MaxSize}.
Abbreviation mem v x := (has (ranges v) x).

(** Nothing to remove: every range that ends after [b] starts at [e] or after. *)
Lemma do_remove_stop fuel v it pre post b e :
  at_pos v it pre post -> sorted (ranges v) -> below b pre ->
  Forall (fun p => b < snd p -> e <= fst p) (ranges v) ->
  exists it' pre' post', do_remove fuel v it b e = Ok (v, it') /\ at_pos v it' pre' post' /\
    below b pre'.
Proof.
  intros Ha Hs Hb Hall. destruct (find_from_spec v b it pre post Ha Hs Hb)
    as (it' & pre' & post' & E & Ha' & Hb' & Hab).
  exists it', pre', post'. split_and!; try done.
  destruct fuel; cbn [do_remove]; rewrite E; cbn [mbind result_bind];
    rewrite (decide_end _ _ _ _ _ _ Ha'); (destruct post' as [|[f s] post']; [done|]);
    rewrite (at_deref _ _ _ _ _ Ha'); cbn [mbind result_bind];
    rewrite (at_ranges _ _ _ _ Ha') in Hall; apply Forall_app in Hall as [_ Hall];
    apply Forall_cons in Hall as [Hall _]; apply above_cons in Hab as [Hab _];
    specialize (Hall Hab); simpl in Hall; by destruct (Z.ltb_spec f e); [lia|].
Qed.

Lemma from_stop (b e : Z) l : from e l -> Forall (fun p => b < snd p -> e <= fst p) l.
Proof. intros Hf. eapply Forall_impl; [exact Hf|]. simpl. auto. Qed.
Lemma below_stop (b e : Z) l : below b l -> Forall (fun p => b < snd p -> e <= fst p) l.
Proof. intros Hf. eapply Forall_impl; [exact Hf|]. simpl. lia. Qed.

(** The state after the loop, the indices from [b] to [e] gone. *)
Definition removed (v v' : IndexSet) (it' : iterator) (b e : Z) : Prop :=
  exists pre' post', at_pos v' it' pre' post' /\ sorted (ranges v') /\ below e pre' /\
    (forall x, mem v' x <-> mem v x /\ ~ (b <= x < e)).

(** The ranges that end after [b]: each iteration but the last ends one of them. *)
Definition ending_after (b : Z) (l : list (Z * Z)) : nat :=
  length (filter (fun p => b < snd p) l).

Lemma ending_after_app b l1 l2 : ending_after b (l1 ++ l2) = (ending_after b l1 + ending_after b l2)%nat.
Proof. unfold ending_after. by rewrite filter_app, length_app. Qed.
Lemma ending_after_below b l : below b l -> ending_after b l = 0%nat.
Proof.
  unfold ending_after. induction 1 as [|p l Hp _ IH]; [done|]. by rewrite filter_cons_False by lia.
Qed.
Lemma ending_after_above b l : above b l -> ending_after b l = length l.
Proof.
  unfold ending_after. induction 1 as [|p l Hp _ IH]; [done|].
  rewrite filter_cons_True by lia. simpl. by rewrite IH.
Qed.
Lemma ending_after_le b l : (ending_after b l <= length l)%nat.
Proof. apply length_filter. Qed.

(** Where there is nothing to remove. *)
Lemma removed_nothing v it pre post b e :
  at_pos v it pre post -> sorted (ranges v) -> below b pre -> b < e -> from e post ->
  removed v v it b e.
Proof.
  intros Ha Hs Hb Hbe Hf. exists pre, post. split_and!; [done|done|ranges_weaken|].
  intros x. rewrite (at_ranges _ _ _ _ Ha). solve_has.
Qed.

Lemma do_remove_spec fuel v it pre post b e :
  at_pos v it pre post -> sorted (ranges v) -> below b pre -> 0 <= b < e -> e <= npos ->
  (ending_after b (ranges v) <= fuel)%nat ->
  exists v' it', do_remove fuel v it b e = Ok (v', it') /\ removed v v' it' b e.
Proof.
  revert v it pre post b. induction fuel as [|fuel IH]; intros v it0 pre0 post0 b Ha0 Hs Hb0 Hbe He Hl;
    destruct (find_from_spec v b it0 pre0 post0 Ha0 Hs Hb0) as (it & pre & post & E & Ha & Hb & Hab);
    cbn [do_remove]; rewrite E; cbn [mbind result_bind]; rewrite (decide_end _ _ _ _ _ _ Ha);
    (destruct post as [|[f s] rest];
     [exists v, it; split; [done|]; apply (removed_nothing v it pre []); (done || lia || ranges_weaken)|]);
    rewrite (at_deref _ _ _ _ _ Ha); cbn [mbind result_bind];
    rewrite (at_ranges _ _ _ _ Ha), ending_after_app, (ending_after_below b pre Hb),
      (ending_after_above b _ Hab) in Hl; cbn [length] in Hl; [lia|].
  pose proof Hs as Hs'. rewrite (at_ranges _ _ _ _ Ha) in Hs'.
  assert (sorted pre /\ sorted rest /\ below (f - 1) pre /\ 0 <= f < s /\ s <= npos /\
    from (s + 1) rest /\ b < s) as (S1 & S2 & B1 & Hfs & Hsn & F2 & Hbs)
    by (clear E Hs; ranges_in_hyps; done).
  destruct (Z.ltb_spec f e) as [Hfe|Hfe].
  2: { exists v, it. split; [done|]. apply (removed_nothing v it pre ((f, s) :: rest)); try (done || lia).
       solve_sorted. }
  destruct (Z.ltb_spec f (Z.max f b)) as [Hfb|Hfb], (Z.ltb_spec e s) as [Hes|Hes]; cbn [andb].
  - (* split the range *)
    replace (Z.max f b) with b by lia.
    destruct (at_set v it pre _ _ f b Ha) as (v1 & -> & _ & Ha1). cbn [mbind result_bind].
    destruct (at_next _ _ _ _ _ Ha1) as (it2 & -> & Ha2). cbn [mbind result_bind].
    destruct (insert_index v1 it2 _ _ e s Ha2) as (v2 & it3 & -> & Ha3);
      [rewrite <- app_assoc; cbn [app]; solve_sorted|solve_sorted|ranges_weaken|lia|].
    cbn [mbind result_bind]. destruct (at_prev _ _ _ _ _ Ha3) as (it4 & -> & Ha4). cbn [mbind result_bind].
    assert (sorted (ranges v2)) as Hs2 by (rewrite (at_ranges _ _ _ _ Ha4); solve_sorted).
    destruct (do_remove_stop fuel v2 it4 pre ((f, b) :: (e, s) :: rest) b e) as
      (it' & pre' & post' & E' & Ha' & Hb'); try done.
    { rewrite (at_ranges _ _ _ _ Ha4). apply Forall_app; split; [by apply below_stop|].
      apply Forall_cons; split; [simpl; lia|]. apply from_stop. solve_sorted. }
    exists v2, it'. split; [done|]. exists pre', post'. split_and!; [done|done|ranges_weaken|].
    intros x. rewrite (at_ranges _ _ _ _ Ha4), (at_ranges _ _ _ _ Ha). clear E E' IH. solve_has.
  - (* drop the end of the range *)
    replace (Z.max f b) with b by lia. destruct (Z.eqb_spec b f); [lia|]. cbn [andb].
    destruct (at_set v it pre _ _ f b Ha) as (v1 & -> & _ & Ha1). cbn [mbind result_bind].
    assert (sorted (ranges v1)) as Hs1 by (rewrite (at_ranges _ _ _ _ Ha1); solve_sorted).
    destruct (IH v1 it pre _ b Ha1 Hs1 Hb Hbe He) as (v' & it' & E' & Hr).
    { rewrite (at_ranges _ _ _ _ Ha1), ending_after_app, (ending_after_below b pre Hb).
      rewrite (ending_after_app b [(f, b)] rest : ending_after b ((f, b) :: rest) = _).
      rewrite (ending_after_below b [(f, b)]) by solve_sorted.
      pose proof (ending_after_le b rest). lia. }
    exists v', it'. split; [done|]. destruct Hr as (pre' & post' & Ha' & Hs2 & Hb' & Hm).
    exists pre', post'. split_and!; [done|done|done|].
    intros x. rewrite Hm, (at_ranges _ _ _ _ Ha1), (at_ranges _ _ _ _ Ha). clear E E' IH Hm. solve_has.
  - (* drop the beginning of the range *)
    replace (Z.max f b) with f by lia. rewrite Z.eqb_refl. cbn [andb].
    destruct (Z.leb_spec s e); [lia|].
    destruct (at_set v it pre _ _ e s Ha) as (v1 & -> & _ & Ha1). cbn [mbind result_bind].
    assert (sorted (ranges v1)) as Hs1 by (rewrite (at_ranges _ _ _ _ Ha1); solve_sorted).
    destruct (do_remove_stop fuel v1 it pre ((e, s) :: rest) f e) as
      (it' & pre' & post' & E' & Ha' & Hb'); try done; [ranges_weaken| |].
    { rewrite (at_ranges _ _ _ _ Ha1). apply Forall_app; split;
        [apply below_stop; ranges_weaken|apply from_stop; solve_sorted]. }
    exists v1, it'. split; [done|]. exists pre', post'. split_and!; [done|done|ranges_weaken|].
    intros x. rewrite (at_ranges _ _ _ _ Ha1), (at_ranges _ _ _ _ Ha). clear E E' IH. solve_has.
  - (* drop the range *)
    replace (Z.max f b) with f by lia. rewrite Z.eqb_refl. cbn [andb].
    destruct (Z.leb_spec s e); [|lia].
    destruct (at_erase _ _ _ _ _ Ha) as (v1 & it1 & -> & Ha1). cbn [mbind result_bind].
    assert (sorted (ranges v1)) as Hs1
      by (rewrite (at_ranges _ _ _ _ Ha1); apply (sorted_between (f - 1)); solve_sorted).
    destruct (IH v1 it1 pre rest f Ha1 Hs1) as (v' & it' & E' & Hr); [ranges_weaken|lia|done| |].
    { rewrite (at_ranges _ _ _ _ Ha1), ending_after_app, (ending_after_below f pre) by ranges_weaken.
      pose proof (ending_after_le f rest). lia. }
    exists v', it'. split; [done|]. destruct Hr as (pre' & post' & Ha' & Hs2 & Hb' & Hm).
    exists pre', post'. split_and!; [done|done|done|].
    intros x. rewrite Hm, (at_ranges _ _ _ _ Ha1), (at_ranges _ _ _ _ Ha). clear E E' IH Hm. solve_has.
Qed.

Lemma remove_spec v index n :
  index_set_ok v -> 0 <= index -> 0 < n -> index + n <= npos ->
  exists v', remove v index n = Ok v' /\ index_set_ok v' /\
    (forall x, mem v' x <-> mem v x /\ ~ (index <= x < index + n)).
Proof.
  intros Hok Hi Hn Hin. destruct (find_spec v index Hok) as (it & pre & post & E & Ha & Hs & Hb & Hab).
  unfold remove. rewrite E. cbn [mbind result_bind].
  rewrite u64_small by (unfold npos in *; lia).
  destruct (do_remove_spec (ranges_fuel v + 1) v it pre post index (index + n)) as
    (v' & it' & -> & pre' & post' & Ha' & Hs' & _ & Hm); try done; [by apply Hok|lia| |].
  { pose proof (ending_after_le index (ranges v)). unfold ranges_fuel. lia. }
  exists v'. split_and!; [done| |done]. split; [by eapply at_wf|done].
Qed.
End remove_spec.
