(* ===== verification/RangeBuilder.v ===== *)
(** [ChunkedRangeVectorBuilder] at work: the state of the builder after a number of ranges
    were pushed in order, what each push makes of it, and the vector [finalize] returns. *)

From S2P Require Import Prelude ChunkedRangeVector RangeList.

(** ** Appending a range to a list of ranges *)

(** A range that starts where the last one ends extends it. *)
Definition append (l : list (Z * Z)) (r : Z * Z) : list (Z * Z) :=
  match last l with
  | Some back => if fst r =? snd back then take (pred (length l)) l ++ [(fst back, snd r)] else l ++ [r]
  | None => l ++ [r]
  end.

Lemma append_nil r : append [] r = [r].
Proof. done. Qed.

Lemma append_snoc l a b r :
  append (l ++ [(a, b)]) r = if fst r =? b then l ++ [(a, snd r)] else l ++ [(a, b); r].
Proof.
  unfold append. rewrite last_snoc, length_app, Nat.add_1_r. cbn [pred fst snd].
  rewrite take_app_length, <- app_assoc. done.
Qed.

Lemma length_append l r : (length l <= length (append l r) <= S (length l))%nat.
Proof.
  destruct l as [|[a b] l _] using rev_ind; [simpl; lia|]. rewrite append_snoc.
  case_Z_compare; rewrite !length_app; simpl; lia.
Qed.

Lemma append_members l r :
  sorted l -> below (fst r) l -> ok_range r ->
  sorted (append l r) /\ below (snd r) (append l r) /\
  (forall x, has (append l r) x <-> has l x \/ fst r <= x < snd r).
Proof.
  intros Hs Hb Hr. destruct r as [f s]. pose proof Hr as [? ?]. cbn [fst snd] in *.
  destruct l as [|[a b] l _] using rev_ind.
  - rewrite append_nil. split_and!; [solve_sorted|solve_sorted|]. solve_has.
  - rewrite append_snoc. cbn [fst snd]. ranges_in_hyps. destruct (Z.eqb_spec f b) as [->|].
    + split_and!; [solve_sorted|solve_sorted|]. solve_has.
    + split_and!; [|solve_sorted|solve_has].
      rewrite (app_assoc l [(a, b)] [(f, s)] : l ++ [(a, b); (f, s)] = _). solve_sorted.
Qed.

(** ** The builder *)

Section building.
Context `{MaxSize}.

Definition count_right (c : Chunk) : Prop := c_count c = u64 (width (data c)).
Definition counts_right (b : ChunkedRangeVectorBuilder) : Prop := Forall count_right (b_data b).

(** A chunk the builder has left behind. *)
Definition full_chunk (c : Chunk) : Prop := chunk_bounds c /\ length (data c) = max_size.

(** The builder holds the ranges [l], its vector at least [n0] chunks: the chunks before the
    current one are full, those after it are empty; the end of the current one is not set. *)
Inductive building (n0 : nat) (b : ChunkedRangeVectorBuilder) (l : list (Z * Z)) : Prop :=
| Building done_ cur rest :
    b = Builder (done_ ++ cur :: rest) (length done_) ->
    Forall full_chunk done_ ->
    (length (data cur) <= max_size)%nat ->
    (data cur = [] -> done_ = []) ->
    (data cur <> [] -> hd_first (data cur) (c_begin cur)) ->
    Forall (eq empty_chunk) rest ->
    (n0 <= length (done_ ++ cur :: rest))%nat ->
    l = ranges done_ ++ data cur ->
    building n0 b l.

Lemma max_size_positive : (0 < max_size)%nat.
Proof. pose proof max_size_even. pose proof max_size_pos. lia. Qed.

Lemma building_make v :
  building (length (ranges v) / max_size + 1) (builder_make v) [] /\ counts_right (builder_make v).
Proof.
  unfold builder_make.
  assert (sum_list_with (fun c => length (data c)) v = length (ranges v)) as ->
    by (induction v as [|c v IH]; [done|]; rewrite ranges_cons, length_app; simpl; lia).
  set (n := (length (ranges v) / max_size)%nat). rewrite Nat.add_1_r. split.
  - apply (Building _ _ _ [] empty_chunk (replicate n empty_chunk)); try done.
    + simpl. lia.
    + apply Forall_replicate. done.
    + simpl. rewrite length_replicate. lia.
  - apply Forall_replicate. done.
Qed.

Lemma length_full d : Forall full_chunk d -> length (ranges d) = (length d * max_size)%nat.
Proof.
  induction 1 as [|c d [_ Hc] _ IH]; [done|]. rewrite ranges_cons, length_app, IH, Hc. simpl. lia.
Qed.

(** What is pushed counts: its own width, or the capacity of the vector allocated. *)
Definition counted (n0 : nat) (l : list (Z * Z)) (r : Z * Z) : Prop :=
  snd r - fst r = 1 \/ (length (append l r) <= n0 * max_size)%nat.

Lemma ranges_snoc v c : ranges (v ++ [c]) = ranges v ++ data c.
Proof. by rewrite ranges_app, ranges_singleton. Qed.

Lemma counts_replace done_ cur rest o cur' o' :
  counts_right (Builder (done_ ++ cur :: rest) o) -> count_right cur' ->
  counts_right (Builder (done_ ++ cur' :: rest) o').
Proof. unfold counts_right. cbn [b_data]. rewrite !Forall_app, !Forall_cons. tauto. Qed.

Lemma counts_current done_ cur rest o :
  counts_right (Builder (done_ ++ cur :: rest) o) -> count_right cur.
Proof. unfold counts_right. cbn [b_data]. rewrite Forall_app, Forall_cons. tauto. Qed.

Lemma builder_push_spec n0 b l r :
  building n0 b l ->
  exists b', builder_push_back r b = Ok b' /\ building n0 b' (append l r) /\
    (counts_right b -> counted n0 l r -> counts_right b').
Proof.
  pose proof max_size_positive as Hmax. destruct r as [f s].
  intros [done_ cur rest -> Hd Hl Hne Hb Hr Hn ->].
  unfold builder_push_back. cbn [b_data m_outer_pos fst snd].
  rewrite chunk_at_middle. cbn [mbind result_bind].
  destruct (data cur) as [|[p q] d _] eqn:Ec using rev_ind.
  { rewrite (Hne eq_refl) in *. cbn [last]. eexists; split; [done|]. split.
    - eapply (Building _ _ _ [] _ rest); try done; simpl; lia.
    - intros Hc _. apply (counts_replace [] _ _ _ _ _ Hc). unfold count_right. simpl. f_equal. lia. }
  clear Hne. specialize (Hb ltac:(by intros [_ ?]%app_nil)).
  rewrite last_snoc, app_assoc, append_snoc. cbn [fst snd].
  destruct (Z.eqb_spec f q) as [->|Hfq].
  { (* the last range is extended *)
    eexists; split; [done|]. rewrite length_app, Nat.add_1_r, insert_middle. cbn [pred].
    rewrite (insert_middle d [] (p, q) (p, s)). split.
    - apply (Building _ _ _ done_ (MkChunk (d ++ [(p, s)]) (c_begin cur) (c_end cur)
        (u64 (c_count cur + u64 (s - q)))) rest); try done; cbn [data c_begin].
      + rewrite length_app in *. done.
      + by intros [_ ?]%app_nil.
      + intros _. rewrite hd_first_app in *. by destruct d.
      + rewrite length_app in *. done.
      + by rewrite <- app_assoc.
    - intros Hc _. apply (counts_replace _ _ _ _ _ _ Hc). apply counts_current in Hc.
      unfold count_right in *. cbn [data c_count]. rewrite Hc, Ec, u64_add_l, u64_add_r, !width_app.
      simpl. f_equal. lia. }
  case_decide as Hlt.
  { (* a range more in the chunk *)
    eexists; split; [done|]. rewrite insert_middle. split.
    - eapply (Building _ _ _ done_ _ rest); try done; cbn [data c_begin].
      + rewrite !length_app in *. simpl in *. lia.
      + intros E. by apply app_nil in E as [_ ?].
      + intros _. rewrite <- app_assoc. cbn [app]. rewrite hd_first_app in *. by destruct d.
      + rewrite length_app in *. done.
      + by rewrite <- !app_assoc.
    - intros Hc _. apply (counts_replace _ _ _ _ _ _ Hc). apply counts_current in Hc.
      unfold count_right in *. cbn [data c_count].
      rewrite Hc, Ec, u64_add_l, u64_add_r, !width_app. simpl. f_equal. lia. }
  (* the chunk is full *)
  assert (length (d ++ [(p, q)]) = max_size) as Hfull by lia.
  set (c1 := MkChunk (d ++ [(p, q)]) (c_begin cur) q (c_count cur)).
  assert (full_chunk c1) as Hc1.
  { split; [|done]. split; cbn [data c_begin c_end c1]; [lia|done|].
    unfold last_second. by rewrite last_snoc. }
  rewrite insert_middle, length_app. cbn [length]. fold c1.
  assert (forall rest', (done_ ++ c1 :: rest') = (done_ ++ [c1]) ++ rest') as Ha
    by (intros; by rewrite <- app_assoc).
  assert (S (length done_) = length (done_ ++ [c1])) as Hsl by (rewrite length_app; simpl; lia).
  assert ((ranges done_ ++ d) ++ [(p, q); (f, s)] = ranges (done_ ++ [c1]) ++ [(f, s)]) as ->
    by (rewrite ranges_snoc; cbn [data c1]; by rewrite <- !app_assoc).
  assert (forall o, counts_right (Builder (done_ ++ cur :: rest) o) ->
    counts_right (Builder (done_ ++ c1 :: rest) o)) as Hcr.
  { intros o Hc. apply (counts_replace _ _ _ _ _ _ Hc). apply counts_current in Hc.
    unfold count_right in *. cbn [data c_count c1]. by rewrite Hc, Ec. }
  destruct rest as [|e rest].
  - (* no chunk allocated is left *)
    rewrite decide_True by (simpl; lia). eexists; split; [done|]. rewrite Hsl. split.
    + apply (Building _ _ _ (done_ ++ [c1]) (MkChunk [(f, s)] f 0 1) []); try done.
      * apply Forall_app; split; [done|by apply Forall_singleton].
      * simpl. rewrite !length_app in *. simpl in *. lia.
    + intros Hc Hw. unfold counts_right in *. cbn [b_data] in *. apply (Hcr 0%nat) in Hc.
      apply Forall_app; split; [exact Hc|]. apply Forall_singleton. unfold count_right. simpl.
      destruct Hw as [Hw|Hw]; cbn [fst snd] in Hw; [by replace (s - f + 0) with 1 by lia|].
      exfalso. rewrite append_snoc in Hw. cbn [fst snd] in Hw.
      destruct (Z.eqb_spec f q); [done|]. rewrite length_app in Hw. simpl in Hw.
      rewrite !length_app in Hw, Hfull, Hn. rewrite length_full in Hw by done. simpl in *. nia.
  - apply Forall_cons in Hr as [<- Hr]. rewrite decide_False by (simpl; lia).
    rewrite Ha, Hsl, chunk_at_middle. cbn [mbind result_bind data empty_chunk c_end app].
    rewrite insert_middle. eexists; split; [done|]. split.
    + apply (Building _ _ _ (done_ ++ [c1]) (MkChunk [(f, s)] f 0 (u64 (s - f))) rest); try done.
      * apply Forall_app; split; [done|by apply Forall_singleton].
      * rewrite !length_app in *. simpl in *. lia.
    + intros Hc _. apply Hcr in Hc. rewrite Ha in Hc. apply (counts_replace _ _ _ _ _ _ Hc).
      unfold count_right. simpl. f_equal. lia.
Qed.

Lemma building_finalize n0 b l :
  building n0 b l ->
  exists v, builder_finalize b = Ok v /\ Forall chunk_bounds v /\ ranges v = l /\
    (counts_right b -> wf_vec v).
Proof.
  intros [done_ cur rest -> Hd Hl Hne Hb Hr Hn ->]. unfold builder_finalize. cbn [b_data m_outer_pos].
  replace (take (S (length done_)) (done_ ++ cur :: rest)) with (done_ ++ [cur])
    by (by rewrite <- (take_app_length (done_ ++ [cur]) rest), length_app, Nat.add_1_r, <- app_assoc).
  rewrite last_snoc, length_app, Nat.add_1_r. cbn [pred].
  destruct (data cur) as [|r d _] eqn:Ec using rev_ind.
  { rewrite (Hne eq_refl). exists []. split_and!; [by destruct done_|done|done|].
    intros _. by apply Forall_nil_2. }
  clear Hne. specialize (Hb ltac:(by intros [_ ?]%app_nil)). rewrite last_snoc.
  rewrite (insert_middle done_ []). rewrite <- Ec in *.
  set (c1 := MkChunk (data cur) (c_begin cur) (snd r) (c_count cur)).
  assert (chunk_bounds c1) as Hc1.
  { split; [done|done|]. unfold last_second. cbn [data c_end c1]. by rewrite Ec, last_snoc. }
  eexists; split; [by destruct done_|]. split_and!.
  - apply Forall_app; split; [|by apply Forall_singleton]. eapply Forall_impl; [exact Hd|].
    by intros c [? _].
  - by rewrite ranges_snoc.
  - unfold counts_right. cbn [b_data]. rewrite Forall_app, Forall_cons. intros (H1 & H2 & _).
    apply Forall_app; split; [|apply Forall_singleton; by split].
    eapply Forall_impl2; [exact Hd|exact H1|]. intros c [? _] ?. by split.
Qed.
End building.
