(* ===== verification/IndexLists.v ===== *)
(** Ascending lists of indices, and what merging two of them means: reference definitions,
    on plain lists, of the merges that the operations of [IndexSet] on sets of indices do
    with iterators, with their members. *)

From S2P Require Import Prelude ChunkedRangeVector RangeList IndexSet IndexSetCount.

(** ** Ascending lists *)

(** Indices from [lo] on, each larger than the one before. *)
Fixpoint ascending (lo : Z) (l : list Z) : Prop :=
  match l with
  | [] => True
  | x :: l => lo <= x < npos /\ ascending (x + 1) l
  end.

Lemma ascending_weaken lo lo' l : ascending lo l -> lo' <= lo -> ascending lo' l.
Proof. destruct l; simpl; [done|]. intros [? ?] ?. split; [lia|done]. Qed.

Lemma ascending_elem lo l x : ascending lo l -> x ∈ l -> lo <= x < npos.
Proof.
  revert lo. induction l as [|y l IH]; intros lo; [by intros _ ?%elem_of_nil|].
  intros [? Ha] [->|Hx]%elem_of_cons; [done|]. specialize (IH _ Ha Hx). lia.
Qed.

Lemma ascending_app lo l1 l2 :
  ascending lo (l1 ++ l2) <->
  ascending lo l1 /\ ascending lo l2 /\ (forall x y, x ∈ l1 -> y ∈ l2 -> x < y).
Proof.
  revert lo. induction l1 as [|x l1 IH]; intros lo; simpl.
  - split; [|tauto]. intros ?. split_and!; [done|done|]. by intros ? ? ?%elem_of_nil.
  - rewrite IH. setoid_rewrite elem_of_cons. split.
    + intros (Hx & H1 & H2 & Hlt). split_and!; try (done || lia); [eapply ascending_weaken; [done|lia]|].
      intros a b [->|Ha] Hb; [|by apply Hlt]. apply (ascending_elem _ _ _ H2) in Hb. lia.
    + intros ((Hx & H1) & H2 & Hlt). split_and!; try (done || lia); [|by auto].
      destruct l2 as [|y l2]; [done|]. destruct H2 as [Hy H2]. simpl. split; [|done].
      specialize (Hlt x y). rewrite elem_of_cons in Hlt. assert (x < y) by auto. lia.
Qed.

Lemma ascending_seqZ a n : 0 <= n -> a + n <= npos -> ascending a (seqZ a n).
Proof.
  intros Hn. rewrite <- (Z2Nat.id n Hn). generalize (Z.to_nat n) as k. clear n Hn. intros k.
  revert a. induction k as [|k IH]; intros a Hk; [done|].
  rewrite seqZ_cons by lia. replace (Z.pred (Z.of_nat (S k))) with (Z.of_nat k) by lia.
  simpl. split; [lia|]. apply IH. lia.
Qed.

Lemma indexes_cons f s l : indexes ((f, s) :: l) = seqZ f (s - f) ++ indexes l.
Proof. done. Qed.

Lemma ascending_indexes lo l : sorted l -> from lo l -> ascending lo (indexes l).
Proof.
  revert lo. induction l as [|[f s] l IH]; intros lo Hs Hf; [done|]. ranges_in_hyps.
  rewrite indexes_cons. apply ascending_app. split_and!.
  - eapply ascending_weaken; [apply ascending_seqZ; lia|lia].
  - apply IH; [done|ranges_weaken].
  - intros x y Hx Hy. apply elem_of_seqZ in Hx. apply elem_of_indexes in Hy.
    assert (from (s + 1) l) as Hfs by done. apply (has_from _ _ _ Hfs) in Hy. lia.
Qed.

Lemma length_indexes l : Forall ok_range l -> Z.of_nat (length (indexes l)) = width l.
Proof.
  induction 1 as [|[f s] l [Hp _] _ IH]; [done|]. rewrite indexes_cons, length_app, Nat2Z.inj_add, IH.
  rewrite length_seqZ, width_cons. simpl in *. lia.
Qed.

(** ** Translation of an index by the indices of an ascending list *)

Fixpoint shift_over (ps : list Z) (i : Z) : Z :=
  match ps with
  | [] => i
  | p :: ps => if i <? p then i else shift_over ps (i + 1)
  end.

Lemma shift_over_seqZ n f t i :
  f <= i -> shift_over (seqZ f (Z.of_nat n) ++ t) i = shift_over t (i + Z.of_nat n).
Proof.
  revert f i. induction n as [|n IH]; intros f i Hi; [simpl; by rewrite Z.add_0_r|].
  rewrite seqZ_cons by lia. replace (Z.pred (Z.of_nat (S n))) with (Z.of_nat n) by lia.
  simpl. destruct (Z.ltb_spec i f); [lia|]. rewrite IH by lia. f_equal. lia.
Qed.

(** [IndexSet::shift] translates by the members. *)
Lemma shift_loop_indexes l i :
  Forall ok_range l -> 0 <= i -> i + width l < word_size ->
  shift_loop l i = shift_over (indexes l) i.
Proof.
  intros Ho. revert i. induction Ho as [|[f s] l Hp Ho IH]; intros i Hi Hw; [done|].
  pose proof (width_nonneg _ Ho). pose proof Hp as [? ?]. rewrite width_cons in Hw.
  cbn [shift_loop fst snd] in *. rewrite indexes_cons. destruct (Z.ltb_spec i f).
  - rewrite seqZ_cons by lia. simpl. by destruct (Z.ltb_spec i f); [|lia].
  - rewrite (u64_width (f, s) Hp : u64 (s - f) = s - f), u64_small by lia. rewrite IH by lia.
    replace (s - f) with (Z.of_nat (Z.to_nat (s - f))) by lia.
    by rewrite (shift_over_seqZ (Z.to_nat (s - f))) by done.
Qed.

(** ** Inserting at positions

    [xs] moved over the positions [ps], merged with them when [keep] says so; [d] positions
    came before. *)
Fixpoint insert_list (keep : bool) (xs : list Z) : list Z -> Z -> list Z :=
  fix insert ps d :=
    match xs, ps with
    | [], _ => if keep then ps else []
    | _, [] => (fun x => x + d) <$> xs
    | x :: xs', p :: ps' =>
        if x + d <? p then x + d :: insert_list keep xs' ps d
        else if keep then p :: insert ps' (d + 1) else insert ps' (d + 1)
    end.

Lemma insert_list_nil_l keep ps d : insert_list keep [] ps d = if keep then ps else [].
Proof. by destruct ps. Qed.

Lemma insert_list_nil_r keep xs d : insert_list keep xs [] d = (fun x => x + d) <$> xs.
Proof. by destruct xs, keep. Qed.

Lemma insert_list_cons keep x xs p ps d :
  insert_list keep (x :: xs) (p :: ps) d =
  if x + d <? p then x + d :: insert_list keep xs (p :: ps) d
  else if keep then p :: insert_list keep (x :: xs) ps (d + 1)
  else insert_list keep (x :: xs) ps (d + 1).
Proof. done. Qed.

(** Induction along a merge. *)
Lemma merge_ind (P : list Z -> list Z -> Prop) :
  (forall ps, P [] ps) -> (forall xs, P xs []) ->
  (forall x xs p ps, P xs (p :: ps) -> P (x :: xs) ps -> P xs ps -> P (x :: xs) (p :: ps)) ->
  forall xs ps, P xs ps.
Proof.
  intros H1 H2 H3 xs. induction xs as [|x xs IH]; intros ps; [done|].
  induction ps as [|p ps IHp]; auto.
Qed.

Lemma elem_of_insert_list keep xs ps d z lo :
  ascending lo xs ->
  (z ∈ insert_list keep xs ps d <->
   (keep = true /\ z ∈ ps) \/ exists x, x ∈ xs /\ z = shift_over ps (x + d)).
Proof.
  revert d lo. pattern xs, ps. apply merge_ind; clear xs ps.
  - intros ps d lo _. rewrite insert_list_nil_l. destruct keep.
    + split; [by auto|]. intros [[_ ?]|(x & Hx%elem_of_nil & _)]; done.
    + rewrite elem_of_nil. split; [done|]. intros [[? _]|(x & Hx%elem_of_nil & _)]; done.
  - intros xs d lo _. rewrite insert_list_nil_r, list_elem_of_fmap, elem_of_nil.
    split; [intros (x & -> & ?); by eauto|intros [[_ ?]|(x & ? & ->)]; by eauto].
  - intros x xs p ps IH1 IH2 _ d lo Ha. pose proof Ha as [Hx Ha'].
    rewrite insert_list_cons. destruct (Z.ltb_spec (x + d) p) as [Hlt|Hge].
    + rewrite elem_of_cons, (IH1 d _ Ha').
      assert (shift_over (p :: ps) (x + d) = x + d) as Es
        by (simpl; by destruct (Z.ltb_spec (x + d) p); [|lia]).
      split.
      * intros [->|[?|(y & ? & ->)]]; [right; exists x|by left|right; exists y]; by rewrite elem_of_cons; auto.
      * intros [?|(y & [->|?]%elem_of_cons & ->)]; eauto.
    + assert (forall y, y ∈ x :: xs -> shift_over (p :: ps) (y + d) = shift_over ps (y + (d + 1))) as Es.
      { intros y Hy. apply (ascending_elem _ _ _ (conj (conj (Z.le_refl x) (proj2 Hx)) Ha' : ascending x (x :: xs))) in Hy.
        simpl. destruct (Z.ltb_spec (y + d) p); [lia|]. f_equal. lia. }
      assert ((exists y, y ∈ x :: xs /\ z = shift_over (p :: ps) (y + d)) <->
        exists y, y ∈ x :: xs /\ z = shift_over ps (y + (d + 1))) as ->
        by (split; intros (y & Hy & ->); exists y; by rewrite Es in *).
      pose proof (eq_refl true). assert (false <> true) by done. destruct keep; rewrite ?elem_of_cons, (IH2 (d + 1) _ Ha); tauto.
Qed.

Lemma ascending_insert_list keep xs ps d lo :
  ascending (lo - d) xs -> ascending lo ps ->
  Forall (fun x => x + d + Z.of_nat (length ps) < npos) xs ->
  ascending lo (insert_list keep xs ps d).
Proof.
  revert d lo. pattern xs, ps. apply merge_ind; clear xs ps.
  - intros ps d lo _ Hp _. rewrite insert_list_nil_l. by destruct keep.
  - intros xs d lo Ha _ Hb. rewrite insert_list_nil_r. simpl in Hb.
    revert lo Ha. induction xs as [|x xs IH]; intros lo Ha; [done|]. rewrite fmap_cons.
    apply Forall_cons in Hb as [Hx Hb]. destruct Ha as [? Ha]. split; [lia|].
    apply IH; [done|]. eapply ascending_weaken; [exact Ha|lia].
  - intros x xs p ps IH1 IH2 _ d lo Ha Hp Hb. rewrite insert_list_cons.
    pose proof Ha as [Hx Ha']. pose proof Hp as [Hp1 Hp']. apply Forall_cons in Hb as Hb'.
    destruct Hb' as [Hbx Hb']. destruct (Z.ltb_spec (x + d) p) as [Hlt|Hge].
    + split; [lia|]. apply IH1; [eapply ascending_weaken; [done|lia]|split; [lia|done]|done].
    + assert (Forall (fun y => y + (d + 1) + Z.of_nat (length ps) < npos) (x :: xs)) as Hb2.
      { eapply Forall_impl; [exact Hb|]. cbn [length]. lia. }
      assert (ascending (p + 1) (insert_list keep (x :: xs) ps (d + 1))) as Hr
        by (apply IH2; [split; [lia|done]|done|done]).
      destruct keep; [split; [lia|done]|]. eapply ascending_weaken; [exact Hr|lia].
Qed.

(** ** Erasing at positions

    [xs] without those among the positions [ps], the others moved down. *)
Fixpoint erase_list (xs : list Z) : list Z -> Z -> list Z :=
  fix erase ps d :=
    match xs, ps with
    | [], _ => []
    | _, [] => (fun x => x - d) <$> xs
    | x :: xs', p :: ps' =>
        if x <? p then x - d :: erase_list xs' ps d
        else if x =? p then erase_list xs' ps' (d + 1)
        else erase ps' (d + 1)
    end.

Lemma erase_list_nil_l ps d : erase_list [] ps d = [].
Proof. by destruct ps. Qed.

Lemma erase_list_nil_r xs d : erase_list xs [] d = (fun x => x - d) <$> xs.
Proof. by destruct xs. Qed.

Lemma erase_list_cons x xs p ps d :
  erase_list (x :: xs) (p :: ps) d =
  if x <? p then x - d :: erase_list xs (p :: ps) d
  else if x =? p then erase_list xs ps (d + 1)
  else erase_list (x :: xs) ps (d + 1).
Proof. done. Qed.

(** The positions before an index. *)
Definition positions_before (ps : list Z) (x : Z) : Z := Z.of_nat (length (filter (fun p => p < x) ps)).

Lemma positions_before_cons p ps x :
  positions_before (p :: ps) x = (if p <? x then 1 else 0) + positions_before ps x.
Proof.
  unfold positions_before. rewrite filter_cons. case_decide; case_Z_compare; try lia. simpl. lia.
Qed.

Lemma positions_before_from lo ps x : ascending lo ps -> x <= lo -> positions_before ps x = 0.
Proof.
  revert lo. induction ps as [|p ps IH]; intros lo; [done|]. intros [? Ha] ?.
  rewrite positions_before_cons, (IH _ Ha) by lia. case_Z_compare; lia.
Qed.

Lemma elem_of_erase_list xs ps d z lo lop :
  ascending lo xs -> ascending lop ps ->
  (z ∈ erase_list xs ps d <->
   exists x, x ∈ xs /\ (x ∉ ps) /\ z = x - d - positions_before ps x).
Proof.
  revert d lo lop. pattern xs, ps. apply merge_ind; clear xs ps.
  - intros ps d lo lop _ _. rewrite erase_list_nil_l, elem_of_nil. split; [done|].
    by intros (x & ?%elem_of_nil & _).
  - intros xs d lo lop _ _. rewrite erase_list_nil_r, list_elem_of_fmap. simpl.
    split; intros (x & H1 & H2); exists x; unfold positions_before in *; simpl in *.
    + split_and!; [done|by apply not_elem_of_nil|lia].
    + destruct H2. split; [lia|done].
  - intros x xs p ps IH1 IH2 IH3 d lo lop Ha Hp. pose proof Ha as [Hx Ha']. pose proof Hp as [Hp1 Hp'].
    assert (forall y, y ∈ xs -> x < y) as Hlt by (intros y Hy; apply (ascending_elem _ _ _ Ha') in Hy; lia).
    assert (forall y, y ∈ ps -> p < y) as Hpl by (intros y Hy; apply (ascending_elem _ _ _ Hp') in Hy; lia).
    rewrite erase_list_cons. destruct (Z.ltb_spec x p); [|destruct (Z.eqb_spec x p) as [->|]].
    + rewrite elem_of_cons, (IH1 d _ _ Ha' Hp). split.
      * intros [->|(y & ? & ? & ->)]; [|exists y; split_and!; [by right|done|done]].
        exists x. split; [by left|]. split; [intros [->|Hy%Hpl]%elem_of_cons; lia|].
        rewrite (positions_before_from p (p :: ps)) by first [lia | split; [lia|done]]. lia.
      * intros (y & [->|Hy]%elem_of_cons & Hn & ->); [left|right; by exists y].
        rewrite (positions_before_from p (p :: ps)) by first [lia | split; [lia|done]]. lia.
    + rewrite (IH3 (d + 1) _ _ Ha' Hp'). setoid_rewrite positions_before_cons.
      split; intros (y & Hy & Hn & ->); exists y.
      * apply Hlt in Hy as Hl. split_and!; [by right|intros [->|?]%elem_of_cons; [lia|done]|].
        case_Z_compare; lia.
      * apply not_elem_of_cons in Hn as [Hne Hn]. apply elem_of_cons in Hy as [->|Hy]; [done|].
        apply Hlt in Hy as Hl. split_and!; [done|done|]. case_Z_compare; lia.
    + rewrite (IH2 (d + 1) _ _ Ha Hp'). setoid_rewrite positions_before_cons.
      assert (forall y, y ∈ x :: xs -> p < y) as Hpy
        by (intros y [->|Hy%Hlt]%elem_of_cons; lia).
      split; intros (y & Hy & Hn & ->); exists y; apply Hpy in Hy as Hl.
      * split_and!; [done|intros [->|?]%elem_of_cons; [lia|done]|]. case_Z_compare; lia.
      * apply not_elem_of_cons in Hn as [Hne Hn]. split_and!; [done|done|]. case_Z_compare; lia.
Qed.

Lemma ascending_erase_list xs ps d lo :
  ascending (lo + d) xs -> ascending (lo + d) ps -> 0 <= d ->
  ascending lo (erase_list xs ps d).
Proof.
  revert d lo. pattern xs, ps. apply merge_ind; clear xs ps.
  - intros ps d lo _ _ _. by rewrite erase_list_nil_l.
  - intros xs d lo Ha _ Hd. rewrite erase_list_nil_r.
    revert lo Ha. induction xs as [|x xs IH]; intros lo Ha; [done|]. rewrite fmap_cons.
    destruct Ha as [? Ha]. split; [lia|]. apply IH. eapply ascending_weaken; [exact Ha|lia].
  - intros x xs p ps IH1 IH2 IH3 d lo Ha Hp Hd. pose proof Ha as [Hx Ha']. pose proof Hp as [Hp1 Hp'].
    rewrite erase_list_cons. destruct (Z.ltb_spec x p); [|destruct (Z.eqb_spec x p) as [->|]].
    + split; [lia|]. apply IH1; [eapply ascending_weaken; [done|lia]|split; [lia|done]|done].
    + eapply (ascending_weaken lo); [|lia].
      apply IH3; [eapply ascending_weaken; [done|lia]|eapply ascending_weaken; [done|lia]|lia].
    + eapply (ascending_weaken lo); [|lia].
      apply IH2; [split; [lia|done]|eapply ascending_weaken; [done|lia]|lia].
Qed.
