(* ===== verification/IndexSetMerge.v ===== *)
(** The operations of [IndexSet] that take another set: the iterator over single indices,
    the chunked vector builder at work, and [add], [insert_at], [shift_for_insert_at],
    [erase_at], [remove] and [add_shifted_by] of a whole set of indices. *)

From S2P Require Import Prelude ChunkedRangeVector RangeList IndexSet IndexSetCount RangeBuilder IndexLists.

(** ** The iterator over indices *)

Record IndexIterator := IxIt { m_iterator : iterator; m_offset : Z }.

Definition index_deref (v : IndexSet) (i : IndexIterator) : result Z :=
  '(first, _) ← deref v (m_iterator i); Ok (u64 (first + m_offset i)).

Definition index_next (v : IndexSet) (i : IndexIterator) : result IndexIterator :=
  let m_offset := u64 (m_offset i + 1) in
  '(first, second) ← deref v (m_iterator i);
  if u64 (first + m_offset) =? second then
    it ← next v (m_iterator i); Ok (IxIt it 0)
  else Ok (IxIt (m_iterator i) m_offset).

(** [cbegin()] of [IndexIteratableAdaptor]; an iterator equals the end when its range does. *)
Definition index_begin (v : IndexSet) : IndexIterator := IxIt (vec_begin v) 0.

(** A range-based [for] over [as_indexes()]: the indices in the order it visits them. *)
Fixpoint collect (fuel : nat) (v : IndexSet) (i : IndexIterator) : result (list Z) :=
  if decide (m_iterator i = vec_end v) then Ok []
  else
    match fuel with
    | O => Err OutOfFuel
    | S fuel =>
        x ← index_deref v i; i ← index_next v i; l ← collect fuel v i; Ok (x :: l)
    end.

(** As many iterations as there are indices. *)
Definition index_fuel (v : IndexSet) : nat := Z.to_nat (width (ranges v)).

Definition as_indexes (v : IndexSet) : result (list Z) := collect (index_fuel v) v (index_begin v).

Section merging.
Context `{MaxSize}.

(** ** Operations on sets of indices *)

Definition add_set (v other : IndexSet) : result IndexSet :=
  l ← as_indexes other;
  '(v, _) ← fold_result (fun '(v, it) index => it ← find_from v index it; do_add v it index)
              (v, vec_begin v) l;
  Ok v.

(** The rest of a merge: every index left is pushed, moved by [d]. *)
Fixpoint push_rest (fuel : nat) (v : IndexSet) (i : IndexIterator) (d : Z)
    (b : ChunkedRangeVectorBuilder) : result ChunkedRangeVectorBuilder :=
  if decide (m_iterator i = vec_end v) then Ok b
  else
    match fuel with
    | O => Err OutOfFuel
    | S fuel =>
        x ← index_deref v i;
        b ← builder_push_index (u64 (x + d)) b;
        i ← index_next v i;
        push_rest fuel v i d b
    end.

(** The [while] loops of [insert_at] and [shift_for_insert_at]: they differ in whether the
    position itself is pushed. *)
Fixpoint insert_merge (push_position : bool) (fuel : nat) (v positions : IndexSet)
    (begin1 begin2 : IndexIterator) (shift : Z) (b : ChunkedRangeVectorBuilder)
  : result (IndexIterator * IndexIterator * Z * ChunkedRangeVectorBuilder) :=
  if decide (m_iterator begin1 = vec_end v \/ m_iterator begin2 = vec_end positions) then
    Ok (begin1, begin2, shift, b)
  else
    match fuel with
    | O => Err OutOfFuel
    | S fuel =>
        x ← index_deref v begin1;
        p ← index_deref positions begin2;
        if u64 (x + shift) <? p then
          b ← builder_push_index (u64 (x + shift)) b;
          begin1 ← index_next v begin1;
          insert_merge push_position fuel v positions begin1 begin2 shift b
        else
          b ← (if push_position then builder_push_index p b else Ok b);
          begin2 ← index_next positions begin2;
          insert_merge push_position fuel v positions begin1 begin2 (u64 (shift + 1)) b
    end.

Definition merge_fuel (v positions : IndexSet) : nat := (index_fuel v + index_fuel positions)%nat.

Definition insert_at_set (v positions : IndexSet) : result IndexSet :=
  match positions, v with
  | [], _ => Ok v
  | _, [] => Ok positions
  | _, _ =>
      '(begin1, begin2, shift, b) ←
        insert_merge true (merge_fuel v positions) v positions (index_begin v)
          (index_begin positions) 0 (builder_make v);
      b ← push_rest (index_fuel v) v begin1 shift b;
      b ← push_rest (index_fuel positions) positions begin2 0 b;
      builder_finalize b
  end.

Definition shift_for_insert_at_set (v values : IndexSet) : result IndexSet :=
  match values, last v with
  | [], _ | _, None => Ok v
  | front :: _, Some back =>
      if c_end back <=? c_begin front then Ok v
      else
        '(begin1, _, shift, b) ←
          insert_merge false (merge_fuel v values) v values (index_begin v)
            (index_begin values) 0 (builder_make v);
        b ← push_rest (index_fuel v) v begin1 shift b;
        builder_finalize b
  end.

Fixpoint erase_merge (fuel : nat) (v positions : IndexSet) (begin1 begin2 : IndexIterator)
    (shift : Z) (b : ChunkedRangeVectorBuilder)
  : result (IndexIterator * Z * ChunkedRangeVectorBuilder) :=
  if decide (m_iterator begin1 = vec_end v \/ m_iterator begin2 = vec_end positions) then
    Ok (begin1, shift, b)
  else
    match fuel with
    | O => Err OutOfFuel
    | S fuel =>
        x ← index_deref v begin1;
        p ← index_deref positions begin2;
        if x <? p then
          b ← builder_push_index (u64 (x - shift)) b;
          begin1 ← index_next v begin1;
          erase_merge fuel v positions begin1 begin2 shift b
        else if x =? p then
          begin1 ← index_next v begin1;
          begin2 ← index_next positions begin2;
          erase_merge fuel v positions begin1 begin2 (u64 (shift + 1)) b
        else
          begin2 ← index_next positions begin2;
          erase_merge fuel v positions begin1 begin2 (u64 (shift + 1)) b
    end.

Definition erase_at_set (v positions : IndexSet) : result IndexSet :=
  match v, positions with
  | [], _ | _, [] => Ok v
  | _, _ =>
      '(begin1, shift, b) ←
        erase_merge (merge_fuel v positions) v positions (index_begin v) (index_begin positions) 0
          (builder_make v);
      b ← push_rest (index_fuel v) v begin1 (- shift) b;
      builder_finalize b
  end.

(** The ranges of [values], until nothing of the set is left behind the iterator. *)
Fixpoint remove_loop (l : list (Z * Z)) (v : IndexSet) (it : iterator) : result IndexSet :=
  match l with
  | [] => Ok v
  | (first, second) :: l =>
      '(v, it) ← do_remove (ranges_fuel v + 1) v it first second;
      if decide (it = vec_end v) then Ok v else remove_loop l v it
  end.

Definition remove_set (v values : IndexSet) : result IndexSet :=
  remove_loop (ranges values) v (vec_begin v).

(** [for (; shift_it != shift_end && shift_it->first <= index; ++shift_it)]. *)
Fixpoint skip_shifted (l : list (Z * Z)) (index new_shift skip_until : Z)
  : list (Z * Z) * Z * Z :=
  match l with
  | r :: l' =>
      if fst r <=? index then
        skip_shifted l' index (u64 (new_shift + u64 (snd r - fst r))) (snd r)
      else (l, new_shift, skip_until)
  | [] => ([], new_shift, skip_until)
  end.

(** [for (size_t i = first; i < second; ++i) builder.push_back(i)]. *)
Fixpoint push_each (n : nat) (i : Z) (b : ChunkedRangeVectorBuilder)
  : result ChunkedRangeVectorBuilder :=
  match n with
  | O => Ok b
  | S n => b ← builder_push_index i b; push_each n (u64 (i + 1)) b
  end.

(** The ranges of the set that come before the index to add. *)
Fixpoint push_old (l : list (Z * Z)) (target old_shift : Z) (b : ChunkedRangeVectorBuilder)
  : result (list (Z * Z) * Z * ChunkedRangeVectorBuilder) :=
  match l with
  | r :: l' =>
      if fst r <=? u64 (target + old_shift) then
        b ← push_each (Z.to_nat (snd r - fst r)) (fst r) b;
        push_old l' target (u64 (old_shift + u64 (snd r - fst r))) b
      else Ok (l, old_shift, b)
  | [] => Ok ([], old_shift, b)
  end.

Fixpoint add_shifted_loop (values : list Z) (old shifted_by : list (Z * Z))
    (skip_until old_shift new_shift : Z) (b : ChunkedRangeVectorBuilder)
  : result (list (Z * Z) * ChunkedRangeVectorBuilder) :=
  match values with
  | [] => Ok (old, b)
  | index :: values =>
      let '(shifted_by, new_shift, skip_until) :=
        skip_shifted shifted_by index new_shift skip_until in
      if index <? skip_until then
        add_shifted_loop values old shifted_by skip_until old_shift new_shift b
      else
        '(old, old_shift, b) ← push_old old (u64 (index - new_shift)) old_shift b;
        _ ← realm_assert (new_shift <=? index);
        b ← builder_push_index (u64 (u64 (index - new_shift) + old_shift)) b;
        add_shifted_loop values old shifted_by skip_until old_shift new_shift b
  end.

Definition add_shifted_by (v shifted_by values : IndexSet) : result IndexSet :=
  match values with
  | [] => Ok v
  | _ =>
      l ← as_indexes values;
      '(old, b) ← add_shifted_loop l (ranges v) (ranges shifted_by) 0 0 0 (builder_make v);
      b ← fold_result (fun b r => builder_push_back r b) b old;
      builder_finalize b
  end.
End merging.

(** ** The iterator visits the indices in order *)

Section index_iterator.
Context `{MaxSize}.

(** The iterator [i] has the indices [l] in front of it. *)
Inductive ix_at (v : IndexSet) : IndexIterator -> list Z -> Prop :=
| ix_at_end it pre : at_pos v it pre [] -> ix_at v (IxIt it 0) []
| ix_at_in it pre f s post o :
    at_pos v it pre ((f, s) :: post) -> 0 <= o -> 0 <= f -> f + o < s -> s <= npos ->
    Forall ok_range post -> ix_at v (IxIt it o) (seqZ (f + o) (s - (f + o)) ++ indexes post).

Lemma ix_at_start v it pre post :
  at_pos v it pre post -> Forall ok_range post -> ix_at v (IxIt it 0) (indexes post).
Proof.
  intros Ha Ho. destruct post as [|[f s] post]; [by eapply ix_at_end|].
  apply Forall_cons in Ho as [[? ?] Ho]. cbn [fst snd] in *.
  pose proof (ix_at_in v it pre f s post 0 Ha) as Hi. rewrite Z.add_0_r in Hi. apply Hi; first [lia|done].
Qed.

Lemma ix_at_begin v : index_set_ok v -> ix_at v (index_begin v) (indexes (ranges v)).
Proof. intros [Hw Hs]. eapply ix_at_start; [by apply at_begin|by apply sorted_ok]. Qed.

Lemma ix_end {A} v i l (a b : A) :
  ix_at v i l -> (if decide (m_iterator i = vec_end v) then a else b) = match l with [] => a | _ => b end.
Proof.
  destruct 1 as [it pre Ha|it pre f s post o Ha ? ? ? ? ?]; cbn [m_iterator];
    rewrite (decide_end _ _ _ _ _ _ Ha); [done|]. by rewrite seqZ_cons by lia.
Qed.

Lemma ix_ends v w i j l k {A} (a b : A) :
  ix_at v i l -> ix_at w j k ->
  (if decide (m_iterator i = vec_end v \/ m_iterator j = vec_end w) then a else b) =
  match l, k with [], _ | _, [] => a | _, _ => b end.
Proof.
  intros Hi Hj. pose proof (ix_end v i l true false Hi) as Ei. pose proof (ix_end w j k true false Hj) as Ej.
  destruct (decide (m_iterator i = vec_end v)), (decide (m_iterator j = vec_end w)), l, k; try done;
    first [rewrite decide_True by tauto | rewrite decide_False by tauto]; done.
Qed.

Lemma ix_step v i x l :
  ix_at v i (x :: l) ->
  index_deref v i = Ok x /\ exists i', index_next v i = Ok i' /\ ix_at v i' l.
Proof.
  intros Hi. remember (x :: l) as xl eqn:E. destruct Hi as [|it pre f s post o Ha ? ? ? ? Ho]; [done|].
  rewrite seqZ_cons in E by lia. cbn [app] in E. injection E as <- <-.
  unfold index_deref, index_next. cbn [m_iterator m_offset]. rewrite (at_deref _ _ _ _ _ Ha).
  cbn [mbind result_bind]. unfold npos in *. rewrite (u64_small (o + 1)), !u64_small by lia. split; [done|].
  destruct (Z.eqb_spec (f + (o + 1)) s) as [<-|].
  - destruct (at_next _ _ _ _ _ Ha) as (it' & -> & Ha'). eexists; split; [done|].
    rewrite seqZ_nil by lia. cbn [app]. by eapply ix_at_start.
  - eexists; split; [done|]. pose proof (ix_at_in v it pre f s post (o + 1) Ha) as Hi.
    replace (f + (o + 1)) with (Z.succ (f + o)) in Hi by lia.
    replace (s - Z.succ (f + o)) with (Z.pred (s - (f + o))) in Hi by lia. apply Hi; first [lia|done].
Qed.

Lemma collect_spec fuel v i l : ix_at v i l -> (length l <= fuel)%nat -> collect fuel v i = Ok l.
Proof.
  revert i l. induction fuel as [|fuel IH]; intros i l Hi Hl; cbn [collect];
    rewrite (ix_end _ _ _ _ _ Hi); (destruct l as [|x l]; [done|]); [simpl in Hl; lia|].
  destruct (ix_step _ _ _ _ Hi) as (-> & i' & E & Hi'). cbn [mbind result_bind]. rewrite E.
  cbn [mbind result_bind]. rewrite (IH _ l Hi') by (simpl in Hl; lia). done.
Qed.

Lemma index_fuel_spec v : index_set_ok v -> index_fuel v = length (indexes (ranges v)).
Proof.
  intros [_ Hs]. unfold index_fuel. rewrite <- length_indexes by (by apply sorted_ok). lia.
Qed.

Lemma as_indexes_spec v : index_set_ok v -> as_indexes v = Ok (indexes (ranges v)).
Proof.
  intros Hok. apply collect_spec; [by apply ix_at_begin|]. by rewrite index_fuel_spec.
Qed.

Lemma ascending_members v : index_set_ok v -> ascending 0 (indexes (ranges v)).
Proof. intros [_ Hs]. apply ascending_indexes; [done|]. by apply sorted_from_0, sorted_ok. Qed.

(** ** Pushing indices *)

(** The builder holds the indices [l]. *)
Definition built (n0 : nat) (b : ChunkedRangeVectorBuilder) (l : list Z) : Prop :=
  exists r, building n0 b r /\ counts_right b /\ sorted r /\ (forall x, has r x <-> x ∈ l).

Lemma built_make v : built (length (ranges v) / max_size + 1) (builder_make v) [].
Proof.
  destruct (building_make v) as [Hb Hc]. exists []. split_and!; [done|done|done|].
  intros x. by rewrite has_nil, elem_of_nil.
Qed.

(** The ranges of a list of indices end where the list does. *)
Lemma below_of_has r x : Forall ok_range r -> (forall y, has r y -> y < x) -> below x r.
Proof.
  intros Ho Hh. apply Forall_forall. intros p Hp. rewrite Forall_forall in Ho.
  destruct (Ho p Hp) as [? ?]. specialize (Hh (snd p - 1)).
  assert (has r (snd p - 1)) as Hm by (apply Exists_exists; exists p; split; [done|]; unfold in_range_of; lia).
  specialize (Hh Hm). lia.
Qed.

Lemma push_index_spec n0 b l x rest :
  built n0 b l -> ascending 0 (l ++ x :: rest) ->
  exists b', builder_push_index x b = Ok b' /\ built n0 b' (l ++ [x]).
Proof.
  intros (r & Hb & Hc & Hs & Hm) Ha. apply ascending_app in Ha as (_ & [Hx _] & Hlt).
  unfold builder_push_index. rewrite u64_small by (unfold npos in Hx; lia).
  destruct (builder_push_spec n0 b r (x, x + 1) Hb) as (b' & E & Hb' & Hc').
  destruct (append_members r (x, x + 1)) as (Hs' & _ & Hm'); [done| |split; simpl; lia|].
  - apply below_of_has; [by apply sorted_ok|]. intros y Hy%Hm. apply Hlt; [done|by left].
  - exists b'. split; [done|]. exists (append r (x, x + 1)). split_and!; [done| |done|].
    + apply Hc'; [done|]. left. simpl. lia.
    + intros y. rewrite Hm', Hm, elem_of_app, list_elem_of_singleton. simpl. split; (intros [?|?]; [by left|right; lia]).
Qed.

Lemma built_finalize n0 b l :
  built n0 b l -> exists v, builder_finalize b = Ok v /\ index_set_ok v /\ (forall x, has (ranges v) x <-> x ∈ l).
Proof.
  intros (r & Hb & Hc & Hs & Hm). destruct (building_finalize n0 b r Hb) as (v & E & _ & Er & Hw).
  exists v. subst r. split_and!; [done|split; auto|done].
Qed.

Lemma push_rest_spec n0 fuel v i l d b l0 :
  ix_at v i l -> (length l <= fuel)%nat -> built n0 b l0 ->
  ascending 0 (l0 ++ ((fun x => x + d) <$> l)) ->
  exists b', push_rest fuel v i d b = Ok b' /\ built n0 b' (l0 ++ ((fun x => x + d) <$> l)).
Proof.
  revert i l b l0. induction fuel as [|fuel IH]; intros i l b l0 Hi Hl Hb Ha; cbn [push_rest];
    rewrite (ix_end _ _ _ _ _ Hi); (destruct l as [|x l]; [exists b; by rewrite app_nil_r|]); [simpl in Hl; lia|].
  destruct (ix_step _ _ _ _ Hi) as (-> & i' & E & Hi'). cbn [mbind result_bind]. rewrite fmap_cons in *.
  pose proof Ha as Hxd. apply ascending_app in Hxd as (_ & [Hxd _] & _).
  rewrite u64_small by (unfold npos in Hxd; lia).
  destruct (push_index_spec n0 b l0 (x + d) _ Hb Ha) as (b1 & -> & Hb1). cbn [mbind result_bind]. rewrite E.
  cbn [mbind result_bind].
  destruct (IH i' l b1 (l0 ++ [x + d]) Hi') as (b' & -> & Hb'); [simpl in Hl; lia|done|by rewrite <- app_assoc|].
  exists b'. split; [done|]. by rewrite <- app_assoc in Hb'.
Qed.
End index_iterator.

(** ** The merges *)

Section merge_spec.
Context `{MaxSize}.
Abbreviation mem v x := (has (ranges v) x).

Lemma insert_merge_spec n0 keep fuel v w i j xs ps d b l0 :
  ix_at v i xs -> ix_at w j ps -> (length xs + length ps <= fuel)%nat -> built n0 b l0 ->
  ascending 0 (l0 ++ insert_list keep xs ps d) -> 0 <= d ->
  Forall (fun x => 0 <= x /\ x + d + Z.of_nat (length ps) < npos) xs ->
  exists i' j' d' b' xs' ps' l',
    insert_merge keep fuel v w i j d b = Ok (i', j', d', b') /\
    ix_at v i' xs' /\ ix_at w j' ps' /\ built n0 b' l' /\ (xs' = [] \/ ps' = []) /\
    l' ++ insert_list keep xs' ps' d' = l0 ++ insert_list keep xs ps d /\
    (length xs' <= length xs)%nat /\ (length ps' <= length ps)%nat.
Proof.
  revert i j xs ps d b l0. induction fuel as [|fuel IH]; intros i j xs ps d b l0 Hi Hj Hf Hb Ha Hd Hx;
    cbn [insert_merge]; rewrite (ix_ends _ _ _ _ _ _ _ _ Hi Hj);
    (destruct xs as [|x xs]; [exists i, j, d, b, [], ps, l0; split_and!; by auto|]);
    (destruct ps as [|p ps]; [exists i, j, d, b, (x :: xs), [], l0; split_and!; by auto|]);
    [simpl in Hf; lia|].
  destruct (ix_step _ _ _ _ Hi) as (-> & i1 & Ei & Hi1), (ix_step _ _ _ _ Hj) as (-> & j1 & Ej & Hj1).
  cbn [mbind result_bind]. apply Forall_cons in Hx as Hx1. destruct Hx1 as [[? Hx1] Hx2].
  cbn [length] in Hf, Hx1. rewrite u64_small by (unfold npos in Hx1; lia).
  rewrite insert_list_cons in *. destruct (Z.ltb_spec (x + d) p).
  - destruct (push_index_spec n0 b l0 (x + d) _ Hb Ha) as (b1 & -> & Hb1). cbn [mbind result_bind].
    rewrite Ei. cbn [mbind result_bind].
    destruct (IH i1 j xs (p :: ps) d b1 (l0 ++ [x + d])) as
      (i' & j' & d' & b' & xs' & ps' & l' & E & ? & ? & ? & ? & El & ? & ?); try done;
      [cbn [length]; lia|by rewrite <- app_assoc|].
    exists i', j', d', b', xs', ps', l'. rewrite E, El, <- app_assoc. cbn [length] in *. split_and!; done || lia.
  - assert (Forall (fun x => 0 <= x /\ x + (d + 1) + Z.of_nat (length ps) < npos) (x :: xs)) as Hx3.
    { eapply Forall_impl; [exact Hx|]. cbn [length]. intros y ?. lia. }
    assert (exists b1 l1, (if keep then builder_push_index p b else Ok b) = Ok b1 /\ built n0 b1 l1 /\
      l1 ++ insert_list keep (x :: xs) ps (d + 1) =
      l0 ++ (if keep then p :: insert_list keep (x :: xs) ps (d + 1)
             else insert_list keep (x :: xs) ps (d + 1))) as (b1 & l1 & -> & Hb1 & El).
    { destruct keep; [|by exists b, l0].
      destruct (push_index_spec n0 b l0 p _ Hb Ha) as (b1 & -> & Hb1).
      exists b1, (l0 ++ [p]). by rewrite <- app_assoc. }
    cbn [mbind result_bind]. rewrite Ej. cbn [mbind result_bind].
    rewrite u64_small by (unfold npos in Hx1; lia). rewrite <- El in Ha |- *.
    destruct (IH i j1 (x :: xs) ps (d + 1) b1 l1) as
      (i' & j' & d' & b' & xs' & ps' & l' & E & ? & ? & ? & ? & El' & ? & ?);
      try done; [cbn [length]; lia|lia|].
    exists i', j', d', b', xs', ps', l'. rewrite E. cbn [length] in *. split_and!; done || lia.
Qed.

Lemma erase_merge_spec n0 fuel v w i j xs ps d b l0 :
  ix_at v i xs -> ix_at w j ps -> (length xs + length ps <= fuel)%nat -> built n0 b l0 ->
  ascending 0 (l0 ++ erase_list xs ps d) -> ascending d xs -> ascending d ps -> 0 <= d ->
  exists i' j' d' b' xs' ps' l',
    erase_merge fuel v w i j d b = Ok (i', d', b') /\
    ix_at v i' xs' /\ ix_at w j' ps' /\ built n0 b' l' /\ (xs' = [] \/ ps' = []) /\
    l' ++ erase_list xs' ps' d' = l0 ++ erase_list xs ps d /\ (length xs' <= length xs)%nat.
Proof.
  revert i j xs ps d b l0. induction fuel as [|fuel IH]; intros i j xs ps d b l0 Hi Hj Hf Hb Ha Hxs Hps Hd;
    cbn [erase_merge]; rewrite (ix_ends _ _ _ _ _ _ _ _ Hi Hj);
    (destruct xs as [|x xs]; [exists i, j, d, b, [], ps, l0; split_and!; by auto|]);
    (destruct ps as [|p ps]; [exists i, j, d, b, (x :: xs), [], l0; split_and!; by auto|]);
    [simpl in Hf; lia|].
  destruct (ix_step _ _ _ _ Hi) as (-> & i1 & Ei & Hi1), (ix_step _ _ _ _ Hj) as (-> & j1 & Ej & Hj1).
  cbn [mbind result_bind]. cbn [length] in Hf. destruct Hxs as [Hx Hxs], Hps as [Hp Hps].
  assert (u64 (d + 1) = d + 1) as Hu by (apply u64_small; unfold npos in Hx; lia).
  rewrite erase_list_cons in *. destruct (Z.ltb_spec x p); [|destruct (Z.eqb_spec x p) as [->|]].
  - rewrite u64_small by (unfold npos in Hx; lia).
    destruct (push_index_spec n0 b l0 (x - d) _ Hb Ha) as (b1 & -> & Hb1). cbn [mbind result_bind].
    rewrite Ei. cbn [mbind result_bind].
    destruct (IH i1 j xs (p :: ps) d b1 (l0 ++ [x - d])) as
      (i' & j' & d' & b' & xs' & ps' & l' & E & ? & ? & ? & ? & El & ?); try done;
      [cbn [length]; lia|by rewrite <- app_assoc|eapply ascending_weaken; [done|lia]|].
    exists i', j', d', b', xs', ps', l'. rewrite E, El, <- app_assoc. cbn [length] in *. split_and!; done || lia.
  - rewrite Ei, Ej, Hu. cbn [mbind result_bind].
    destruct (IH i1 j1 xs ps (d + 1) b l0) as
      (i' & j' & d' & b' & xs' & ps' & l' & E & ? & ? & ? & ? & El & ?); try done;
      [lia|eapply ascending_weaken; [done|lia]..|lia|].
    exists i', j', d', b', xs', ps', l'. rewrite E. cbn [length]. split_and!; done || lia.
  - rewrite Ej, Hu. cbn [mbind result_bind].
    destruct (IH i j1 (x :: xs) ps (d + 1) b l0) as
      (i' & j' & d' & b' & xs' & ps' & l' & E & ? & ? & ? & ? & El & ?); try done;
      [cbn [length]; lia|split; [lia|done]|eapply ascending_weaken; [done|lia]|lia|].
    exists i', j', d', b', xs', ps', l'. rewrite E. split_and!; done.
Qed.

(** ** Operations on sets of indices *)

(** No member is moved out of the range of indices. *)
Lemma members_bounded v w :
  index_set_ok v -> index_set_ok w -> below (npos - width (ranges w)) (ranges v) ->
  Forall (fun x => 0 <= x /\ x + 0 + Z.of_nat (length (indexes (ranges w))) < npos) (indexes (ranges v)).
Proof.
  intros Hv [_ Hw] Hb. rewrite length_indexes by (by apply sorted_ok). apply Forall_forall. intros x Hx.
  pose proof (ascending_elem _ _ _ (ascending_members _ Hv) Hx). apply elem_of_indexes in Hx.
  pose proof (has_below _ _ _ Hb Hx). lia.
Qed.

Lemma indexes_empty v : index_set_ok v -> indexes (ranges v) = [] -> v = [].
Proof.
  intros [Hw Hs] E. apply ranges_nil; [done|]. destruct (ranges v) as [|[f s] l]; [done|].
  exfalso. ranges_in_hyps. by rewrite indexes_cons, seqZ_cons in E by lia.
Qed.

(** A member of the translated set, in terms of [IndexSet::shift]. *)
Lemma shifted_members v w x :
  index_set_ok v -> index_set_ok w -> below (npos - width (ranges w)) (ranges v) ->
  (exists y, y ∈ indexes (ranges v) /\ x = shift_over (indexes (ranges w)) (y + 0)) <->
  (exists y, mem v y /\ x = shift w y).
Proof.
  intros Hv Hw Hb. pose proof (members_bounded v w Hv Hw Hb) as Hm. rewrite Forall_forall in Hm.
  destruct Hw as [_ Hw]. apply sorted_ok in Hw. rewrite length_indexes in Hm by done.
  assert (forall y, y ∈ indexes (ranges v) -> shift w y = shift_over (indexes (ranges w)) (y + 0)) as Es.
  { intros y Hy%Hm. rewrite Z.add_0_r. apply shift_loop_indexes; [done|lia|unfold npos in *; lia]. }
  setoid_rewrite <- elem_of_indexes. split; intros (y & Hy & ->); exists y; by rewrite (Es y Hy).
Qed.

Lemma nil_or {A} (l : list A) : l = [] \/ l <> [].
Proof. destruct l; auto. Qed.

Lemma insert_at_set_nonempty v w :
  v <> [] -> w <> [] ->
  insert_at_set v w =
    ('(begin1, begin2, shift, b) ←
       insert_merge true (merge_fuel v w) v w (index_begin v) (index_begin w) 0 (builder_make v);
     b ← push_rest (index_fuel v) v begin1 shift b;
     b ← push_rest (index_fuel w) w begin2 0 b;
     builder_finalize b).
Proof. by destruct v, w. Qed.

Lemma insert_at_set_spec v w :
  index_set_ok v -> index_set_ok w -> below (npos - width (ranges w)) (ranges v) ->
  exists v', insert_at_set v w = Ok v' /\ index_set_ok v' /\
    (forall x, mem v' x <-> mem w x \/ exists y, mem v y /\ x = shift w y).
Proof.
  intros Hv Hw Hbd. pose proof (members_bounded v w Hv Hw Hbd) as Hbs.
  setoid_rewrite <- (shifted_members v w); try done. setoid_rewrite <- (elem_of_indexes (ranges w)).
  set (xs := indexes (ranges v)) in *. set (ps := indexes (ranges w)) in *.
  assert (forall x, x ∈ insert_list true xs ps 0 <->
    x ∈ ps \/ exists y, y ∈ xs /\ x = shift_over ps (y + 0)) as Hins.
  { intros x. rewrite (elem_of_insert_list true xs ps 0 x 0) by (by apply ascending_members). tauto. }
  setoid_rewrite <- Hins. destruct (nil_or w) as [->|Hnw].
  { exists v. split_and!; [by destruct v|done|]. intros x. subst ps. cbn. rewrite insert_list_nil_r.
    rewrite list_elem_of_fmap. unfold xs. setoid_rewrite elem_of_indexes.
    split; [intros; exists x; split; [lia|done]|]. intros (y & -> & ?). by rewrite !Z.add_0_r. }
  destruct (nil_or v) as [->|Hnv].
  { exists w. split_and!; [by destruct w|done|]. intros x. subst xs. change (indexes (ranges [])) with (@nil Z).
    rewrite (insert_list_nil_l true ps 0). unfold ps. by rewrite elem_of_indexes. }
  rewrite insert_at_set_nonempty by done.
  assert (ascending 0 (insert_list true xs ps 0)) as Hasc.
  { apply ascending_insert_list; [by apply ascending_members..|]. eapply Forall_impl; [exact Hbs|]. simpl. tauto. }
  assert (merge_fuel v w = length xs + length ps)%nat as -> by (unfold merge_fuel; by rewrite !index_fuel_spec).
  rewrite !index_fuel_spec by done. fold xs ps.
  destruct (insert_merge_spec (length (ranges v) / max_size + 1) true (length xs + length ps) v w (index_begin v) (index_begin w) xs ps 0
    (builder_make v) []) as (i & j & d & b & xs' & ps' & l & -> & Hi & Hj & Hb & He & El & Hlx & Hlp);
    [by apply ix_at_begin..|done|apply built_make|done|done|done|].
  cbn [mbind result_bind app] in *. rewrite <- El in *.
  destruct (push_rest_spec _ (length xs) v i xs' d b l Hi Hlx Hb) as (b1 & -> & Hb1).
  { destruct He as [-> | ->]; [rewrite app_nil_r; by apply ascending_app in Hasc as (? & _)|].
    by rewrite insert_list_nil_r in Hasc. }
  cbn [mbind result_bind].
  assert (((fun x => x + 0) <$> ps') = ps') as Eps
    by (rewrite <- (list_fmap_id ps') at 2; apply list_fmap_ext; intros; simpl; lia).
  assert (l ++ insert_list true xs' ps' d = (l ++ ((fun x => x + d) <$> xs')) ++ ps') as Eall.
  { destruct He as [-> | ->]; rewrite ?insert_list_nil_r, ?insert_list_nil_l, ?app_nil_r; done. }
  destruct (push_rest_spec _ (length ps) w j ps' 0 b1 _ Hj Hlp Hb1) as (b2 & -> & Hb2);
    [by rewrite Eps, <- Eall|].
  cbn [mbind result_bind]. rewrite Eps, <- Eall in Hb2.
  destruct (built_finalize _ _ _ Hb2) as (v' & -> & Hok & Hm). exists v'. split_and!; [done|done|].
  exact Hm.
Qed.

Lemma shift_for_insert_at_set_nonempty v w front w' back :
  v <> [] -> w = front :: w' -> last v = Some back ->
  shift_for_insert_at_set v w =
    (if c_end back <=? c_begin front then Ok v
     else
       '(begin1, _, shift, b) ←
         insert_merge false (merge_fuel v w) v w (index_begin v) (index_begin w) 0 (builder_make v);
       b ← push_rest (index_fuel v) v begin1 shift b;
       builder_finalize b).
Proof. intros Hv -> E. unfold shift_for_insert_at_set. by rewrite E. Qed.

(** The end of a set is that of its last chunk. *)
Lemma below_last_end v back : index_set_ok v -> last v = Some back -> below (c_end back) (ranges v).
Proof.
  intros [Hw Hs] E. destruct v as [|c va _] using rev_ind; [done|]. rewrite last_snoc in E.
  injection E as ->. apply wf_middle in Hw as (_ & Hc & _). rewrite ranges_snoc in *.
  pose proof (chunk_nonempty _ Hc). destruct Hc as [[_ _ He] _]. unfold last_second in He.
  destruct (data back) as [|r d _] using rev_ind; [done|]. rewrite last_snoc in He. injection He as <-.
  rewrite app_assoc in *. apply sorted_below_from in Hs as Hd. destruct Hd as [Hd _].
  apply sorted_middle in Hs as (_ & _ & [? ?] & _).
  apply below_app. split; [eapply below_weaken; [exact Hd|lia]|]. apply below_cons. split; [lia|apply Forall_nil_2].
Qed.

(** An index before the first chunk stays where it is. *)
Lemma shift_before front w y : chunk_ok front -> y < c_begin front -> shift (front :: w) y = y.
Proof.
  intros Hc Hy. pose proof (chunk_nonempty _ Hc). destruct Hc as [[_ Hb _] _]. unfold shift, hd_first in *.
  rewrite ranges_cons. destruct (data front) as [|r d]; [done|]. injection Hb as Hb. simpl.
  by destruct (Z.ltb_spec y (fst r)); [|lia].
Qed.

Lemma shift_for_insert_at_set_spec v w :
  index_set_ok v -> index_set_ok w -> below (npos - width (ranges w)) (ranges v) ->
  exists v', shift_for_insert_at_set v w = Ok v' /\ index_set_ok v' /\
    (forall x, mem v' x <-> exists y, mem v y /\ x = shift w y).
Proof.
  intros Hv Hw Hbd. pose proof (members_bounded v w Hv Hw Hbd) as Hbs.
  destruct (nil_or v) as [->|Hnv].
  { exists []. split_and!; [by destruct w|done|]. intros x. change (ranges []) with (@nil (Z * Z)).
    rewrite has_nil. split; [done|]. by intros (y & ?%has_nil & _). }
  destruct w as [|front w'] eqn:Ew.
  { exists v. split_and!; [done|done|]. intros x. split; [by eauto|]. by intros (y & ? & ->). }
  destruct (last v) as [back|] eqn:El; [|by apply last_None in El].
  rewrite (shift_for_insert_at_set_nonempty v _ front w' back) by done.
  destruct (Z.leb_spec (c_end back) (c_begin front)) as [Hle|_].
  { pose proof (below_last_end v back Hv El) as Hb. exists v. split_and!; [done|done|]. intros x.
    destruct Hw as [Hw _]. apply Forall_cons in Hw as [Hc _].
    assert (forall y, mem v y -> shift (front :: w') y = y) as Es.
    { intros y Hy. apply (has_below _ _ _ Hb) in Hy. apply shift_before; [done|lia]. }
    split; [intros Hx; exists x; by rewrite Es|]. intros (y & Hy & ->). by rewrite Es. }
  rewrite <- Ew in *. clear front w' Ew back El.
  setoid_rewrite <- (shifted_members v w); try done.
  set (xs := indexes (ranges v)) in *. set (ps := indexes (ranges w)) in *.
  assert (forall x, x ∈ insert_list false xs ps 0 <-> exists y, y ∈ xs /\ x = shift_over ps (y + 0)) as Hins.
  { intros x. rewrite (elem_of_insert_list false xs ps 0 x 0) by (by apply ascending_members).
    split; [intros [[? _]|?]; done|by right]. }
  setoid_rewrite <- Hins.
  assert (ascending 0 (insert_list false xs ps 0)) as Hasc.
  { apply ascending_insert_list; [by apply ascending_members..|]. eapply Forall_impl; [exact Hbs|]. simpl. tauto. }
  assert (merge_fuel v w = length xs + length ps)%nat as -> by (unfold merge_fuel; by rewrite !index_fuel_spec).
  rewrite index_fuel_spec by done. fold xs.
  destruct (insert_merge_spec (length (ranges v) / max_size + 1) false (length xs + length ps) v w
    (index_begin v) (index_begin w) xs ps 0 (builder_make v) [])
    as (i & j & d & b & xs' & ps' & l & -> & Hi & Hj & Hb & He & El & Hlx & Hlp);
    [by apply ix_at_begin..|done|apply built_make|done|done|done|].
  cbn [mbind result_bind app] in *. rewrite <- El in *.
  assert (insert_list false xs' ps' d = (fun x => x + d) <$> xs') as Erest.
  { destruct He as [-> | ->]; [by rewrite insert_list_nil_l|by rewrite insert_list_nil_r]. }
  rewrite Erest in *.
  destruct (push_rest_spec _ (length xs) v i xs' d b l Hi Hlx Hb Hasc) as (b1 & -> & Hb1).
  cbn [mbind result_bind].
  destruct (built_finalize _ _ _ Hb1) as (v' & -> & Hok & Hm). exists v'. split_and!; [done|done|].
  exact Hm.
Qed.

(** The positions before an index, in terms of ranges. *)
Lemma positions_before_count l x :
  Forall ok_range l -> positions_before (indexes l) x = count_in 0 x l.
Proof.
  intros Ho. rewrite count_in_indexes by done. unfold positions_before. do 2 f_equal.
  assert (Forall (fun y => 0 <= y) (indexes l)) as Hp.
  { apply Forall_forall. intros y Hy. apply elem_of_indexes in Hy.
    by apply (has_from _ _ _ (sorted_from_0 _ Ho)) in Hy. }
  induction Hp as [|y l' Hy _ IH]; [done|]. rewrite !filter_cons, IH.
  by repeat case_decide; try lia.
Qed.

Lemma erase_at_set_nonempty v w :
  v <> [] -> w <> [] ->
  erase_at_set v w =
    ('(begin1, shift, b) ←
       erase_merge (merge_fuel v w) v w (index_begin v) (index_begin w) 0 (builder_make v);
     b ← push_rest (index_fuel v) v begin1 (- shift) b;
     builder_finalize b).
Proof. by destruct v, w. Qed.

Lemma erase_at_set_spec v w :
  index_set_ok v -> index_set_ok w ->
  exists v', erase_at_set v w = Ok v' /\ index_set_ok v' /\
    (forall x, mem v' x <-> exists y, mem v y /\ ~ mem w y /\ x = y - count_in 0 y (ranges w)).
Proof.
  intros Hv Hw. destruct (nil_or v) as [->|Hnv].
  { exists []. split_and!; [done|done|]. intros x. change (ranges []) with (@nil (Z * Z)).
    rewrite has_nil. split; [done|]. by intros (y & ?%has_nil & _). }
  destruct (nil_or w) as [->|Hnw].
  { exists v. split_and!; [by destruct v|done|]. intros x. change (ranges []) with (@nil (Z * Z)).
    setoid_rewrite has_nil. setoid_rewrite count_in_nil. split.
    - intros. exists x. split_and!; [done|tauto|lia].
    - intros (y & ? & _ & ->). by rewrite Z.sub_0_r. }
  rewrite erase_at_set_nonempty by done.
  pose proof (ascending_members v Hv) as Hav. pose proof (ascending_members w Hw) as Haw.
  setoid_rewrite <- (positions_before_count (ranges w)); [|by apply sorted_ok, Hw].
  setoid_rewrite <- elem_of_indexes at 2 3.
  set (xs := indexes (ranges v)) in *. set (ps := indexes (ranges w)) in *.
  assert (forall x, x ∈ erase_list xs ps 0 <->
    exists y, y ∈ xs /\ ~ y ∈ ps /\ x = y - positions_before ps y) as Her.
  { intros x. rewrite (elem_of_erase_list xs ps 0 x 0 0) by done.
    split; intros (y & ? & ? & ->); exists y; rewrite Z.sub_0_r; done. }
  setoid_rewrite <- Her.
  assert (ascending 0 (erase_list xs ps 0)) as Hasc by (by apply ascending_erase_list).
  assert (merge_fuel v w = length xs + length ps)%nat as -> by (unfold merge_fuel; by rewrite !index_fuel_spec).
  rewrite index_fuel_spec by done. fold xs.
  destruct (erase_merge_spec (length (ranges v) / max_size + 1) (length xs + length ps) v w
    (index_begin v) (index_begin w) xs ps 0 (builder_make v) [])
    as (i & j & d & b & xs' & ps' & l & -> & Hi & Hj & Hb & He & El & Hlx);
    [by apply ix_at_begin..|done|apply built_make|done|done|done|done|].
  cbn [mbind result_bind app] in *. rewrite <- El in *.
  assert (erase_list xs' ps' d = (fun x => x + - d) <$> xs') as Erest.
  { destruct He as [-> | ->]; [by rewrite erase_list_nil_l|by rewrite erase_list_nil_r]. }
  rewrite Erest in *.
  destruct (push_rest_spec _ (length xs) v i xs' (- d) b l Hi Hlx Hb Hasc) as (b1 & -> & Hb1).
  cbn [mbind result_bind].
  destruct (built_finalize _ _ _ Hb1) as (v' & -> & Hok & Hm). exists v'. split_and!; [done|done|].
  exact Hm.
Qed.

(** ** Adding and removing the members of another set *)

Lemma remove_loop_spec l v it pre post :
  at_pos v it pre post -> sorted (ranges v) -> sorted l ->
  match l with [] => True | p :: _ => below (fst p) pre end ->
  exists v', remove_loop l v it = Ok v' /\ index_set_ok v' /\
    (forall x, mem v' x <-> mem v x /\ ~ has l x).
Proof.
  revert v it pre post. induction l as [|[f s] l IH]; intros v it pre post Ha Hs Hl Hb.
  - exists v. split_and!; [done|by split; [eapply at_wf|]|]. intros x. rewrite has_nil. tauto.
  - cbn [remove_loop fst] in *.
    assert (0 <= f < s /\ s <= npos /\ from (s + 1) l /\ sorted l) as (Hfs & Hn & Hf & Hsl)
      by (clear Ha Hs; ranges_in_hyps; done).
    destruct (do_remove_spec (ranges_fuel v + 1) v it pre post f s Ha Hs Hb Hfs Hn)
      as (v1 & it1 & -> & pre1 & post1 & Ha1 & Hs1 & Hb1 & Hm1).
    { pose proof (ending_after_le f (ranges v)). unfold ranges_fuel. lia. }
    cbn [mbind result_bind]. rewrite (decide_end _ _ _ _ _ _ Ha1).
    destruct post1 as [|p post1].
    + exists v1. split_and!; [done|by split; [eapply at_wf|]|]. intros x. rewrite Hm1, has_cons. cbn [fst snd].
      split; [|tauto]. intros [Hx Hx2]. split; [done|]. intros [?|Hxl]; [done|].
      assert (mem v1 x) as Hx1 by (by apply Hm1).
      rewrite (at_ranges _ _ _ _ Ha1), app_nil_r in Hx1. apply (has_below _ _ _ Hb1) in Hx1.
      apply (has_from _ _ _ Hf) in Hxl. lia.
    + destruct (IH v1 it1 pre1 (p :: post1) Ha1 Hs1 Hsl) as (v' & -> & Hok & Hm).
      { destruct l as [|q l]; [done|]. apply from_cons in Hf as [? _]. eapply below_weaken; [exact Hb1|lia]. }
      exists v'. split_and!; [done|done|]. intros x. rewrite Hm, Hm1, has_cons. simpl. tauto.
Qed.

Lemma remove_set_spec v w :
  index_set_ok v -> index_set_ok w ->
  exists v', remove_set v w = Ok v' /\ index_set_ok v' /\ (forall x, mem v' x <-> mem v x /\ ~ mem w x).
Proof.
  intros [Hv Hs] [_ Hw]. apply (remove_loop_spec (ranges w) v (vec_begin v) [] (ranges v));
    [by apply at_begin|done|done|]. destruct (ranges w); [done|apply Forall_nil_2].
Qed.

Lemma add_loop_spec l v it pre post lo :
  at_pos v it pre post -> sorted (ranges v) -> ascending lo l -> 0 <= lo -> below lo pre ->
  exists v' it', fold_result (fun '(v, it) index => it ← find_from v index it; do_add v it index) (v, it) l =
      Ok (v', it') /\ index_set_ok v' /\ (forall x, mem v' x <-> mem v x \/ x ∈ l).
Proof.
  revert v it pre post lo. induction l as [|i l IH]; intros v it pre post lo Ha Hs Hl Hlo Hb.
  - exists v, it. split_and!; [done|by split; [eapply at_wf|]|]. intros x. rewrite elem_of_nil. tauto.
  - destruct Hl as [Hi Hl]. cbn [fold_result].
    destruct (find_from_spec v i it pre post Ha Hs) as (it1 & pre1 & post1 & -> & Ha1 & Hb1 & Hab1);
      [eapply below_weaken; [done|lia]|].
    cbn [mbind result_bind].
    destruct (do_add_spec v it1 pre1 post1 i Ha1 Hs Hb1 Hab1 ltac:(lia))
      as (v2 & it2 & pre2 & post2 & -> & Ha2 & Hc).
    apply add_case_spec in Hc as (Hs2 & Hb2 & _ & Hm2);
      [|by rewrite <- (at_ranges _ _ _ _ Ha1)|done|done|lia].
    rewrite <- (at_ranges _ _ _ _ Ha1), <- (at_ranges _ _ _ _ Ha2) in *.
    cbn [mbind result_bind].
    destruct (IH v2 it2 pre2 post2 (i + 1) Ha2 Hs2 Hl) as (v' & it' & E & Hok & Hm);
      [lia|eapply below_weaken; [done|lia]|].
    exists v', it'. split_and!; [exact E|done|]. intros x.
    rewrite Hm, elem_of_cons, Hm2. tauto.
Qed.

Lemma add_set_spec v w :
  index_set_ok v -> index_set_ok w ->
  exists v', add_set v w = Ok v' /\ index_set_ok v' /\ (forall x, mem v' x <-> mem v x \/ mem w x).
Proof.
  intros [Hv Hs] Hw. unfold add_set. rewrite as_indexes_spec by done. cbn [mbind result_bind].
  destruct (add_loop_spec (indexes (ranges w)) v (vec_begin v) [] (ranges v) 0)
    as (v' & it' & E & Hok & Hm); [by apply at_begin|done|by apply ascending_members|done|apply Forall_nil_2|].
  rewrite E. cbn [mbind result_bind]. exists v'. split_and!; [done|done|]. intros x.
  by rewrite Hm, elem_of_indexes.
Qed.
End merge_spec.
