(* ===== verification/IndexSetShifted.v ===== *)
(** [IndexSet::add_shifted_by]: indices that had one set of indices added and the indices of
    the set removed are added to the set. *)

From S2P Require Import Prelude ChunkedRangeVector RangeList IndexSet IndexSetCount RangeBuilder.
From S2P Require Import IndexLists IndexSetMerge.

(** ** The parts of the loop *)

(** The end of the last range. *)
Definition end_of (l : list (Z * Z)) : Z := match last l with Some r => snd r | None => 0 end.

Lemma end_of_snoc l r : end_of (l ++ [r]) = snd r.
Proof. unfold end_of. by rewrite last_snoc. Qed.

Lemma below_end_of l : sorted l -> below (end_of l) l.
Proof.
  destruct l as [|[f s] l _] using rev_ind; intros Hs; [apply Forall_nil_2|].
  rewrite end_of_snoc. cbn [snd]. ranges_in_hyps. solve_sorted.
Qed.

Lemma from_end_of l1 l2 : sorted (l1 ++ l2) -> from (end_of l1) l2.
Proof.
  destruct l1 as [|[f s] l1 _] using rev_ind; intros Hs.
  - apply (sorted_from_0 l2), sorted_ok, Hs.
  - rewrite end_of_snoc. cbn [snd]. rewrite <- app_assoc in Hs. cbn [app] in Hs.
    ranges_in_hyps. ranges_weaken.
Qed.

(** Ranges between two numbers hold no more indices than there are. *)
Lemma width_between s l : sorted l -> from s l -> l <> [] -> width l <= end_of l - s.
Proof.
  intros Hs Hf Hne. rewrite <- (count_in_all s (end_of l) l);
    [|by apply sorted_ok|done|by apply below_end_of].
  apply count_in_le; [done|done|]. destruct l as [|[a b] l _] using rev_ind; [done|].
  rewrite end_of_snoc. cbn [snd]. ranges_in_hyps. lia.
Qed.

Lemma skip_shifted_spec l index n su :
  sorted l ->
  exists l1 l2, l = l1 ++ l2 /\
    skip_shifted l index (u64 n) su =
      (l2, u64 (n + width l1), match last l1 with Some r => snd r | None => su end) /\
    Forall (fun p => fst p <= index) l1 /\ from (index + 1) l2.
Proof.
  revert n su. induction l as [|[f s] l IH]; intros n su Hs.
  - exists [], []. split_and!; try done; [|apply Forall_nil_2..]. cbn. by rewrite Z.add_0_r.
  - cbn [skip_shifted fst snd]. destruct (Z.leb_spec f index).
    + destruct (IH (n + (s - f)) s) as (l1 & l2 & -> & E & H1 & H2); [by apply Hs|].
      exists ((f, s) :: l1), l2. split_and!; [done| |by apply Forall_cons|done].
      rewrite u64_add_l, u64_add_r, E, width_cons, last_cons. cbn [fst snd].
      rewrite Z.add_assoc. by destruct (last l1).
    + exists [], ((f, s) :: l). split_and!; [done|cbn; by rewrite Z.add_0_r|apply Forall_nil_2|].
      ranges_in_hyps. solve_sorted.
Qed.

Section add_shifted_by.
Context `{MaxSize}.
Abbreviation mem v x := (has (ranges v) x).

(** The builder holds the ranges [r]. *)
Record holds (n0 : nat) (b : ChunkedRangeVectorBuilder) (r : list (Z * Z)) : Prop := {
  h_building : building n0 b r;
  h_counts : counts_right b;
  h_sorted : sorted r
}.

Lemma holds_push n0 b r x :
  holds n0 b r -> below x r -> 0 <= x < npos ->
  exists b', builder_push_index x b = Ok b' /\
    holds n0 b' (append r (x, x + 1)) /\ below (x + 1) (append r (x, x + 1)) /\
    (forall y, has (append r (x, x + 1)) y <-> has r y \/ y = x).
Proof.
  intros [Hb Hc Hs] Hbel Hx. unfold builder_push_index. rewrite u64_small by (unfold npos in Hx; lia).
  destruct (builder_push_spec n0 b r (x, x + 1) Hb) as (b' & E & Hb' & Hc').
  destruct (append_members r (x, x + 1)) as (Hs' & Hbel' & Hm'); [done|done|split; simpl; lia|].
  exists b'. split_and!; [done| |done|].
  - split; [done| |done]. apply Hc'; [done|]. left. simpl. lia.
  - intros y. rewrite Hm'. simpl. split; (intros [?|?]; [by left|right; lia]).
Qed.

Lemma push_each_spec n0 n i b r :
  holds n0 b r -> below i r -> 0 <= i -> i + Z.of_nat n <= npos ->
  exists b' r', push_each n i b = Ok b' /\ holds n0 b' r' /\ below (i + Z.of_nat n) r' /\
    (forall x, has r' x <-> has r x \/ i <= x < i + Z.of_nat n).
Proof.
  revert i b r. induction n as [|n IH]; intros i b r Hb Hbel Hi Hn.
  - exists b, r. rewrite Z.add_0_r. split_and!; try done. intros x. split; [by left|]. intros [?|?]; [done|lia].
  - destruct (holds_push n0 b r i Hb Hbel) as (b1 & E1 & Hb1 & Hbel1 & Hm1); [lia|].
    cbn [push_each]. rewrite E1. cbn [mbind result_bind]. rewrite u64_small by (unfold npos in Hn; lia).
    destruct (IH (i + 1) b1 _ Hb1 Hbel1) as (b' & r' & E & Hb' & Hbel' & Hm'); [lia|lia|].
    exists b', r'. split_and!; [done|done|eapply below_weaken; [done|lia]|].
    intros x. rewrite Hm', Hm1. clear - Hi. solve_has.
Qed.

(** The ranges of the set before an index, pushed index by index. *)
Lemma push_old_spec n0 old t os b r e :
  holds n0 b r -> sorted old -> below e r -> from e old -> e <= t + os -> 0 <= t -> 0 <= os ->
  t + os + width old < npos ->
  exists old1 old2 b' r',
    push_old old t os b = Ok (old2, os + width old1, b') /\ old = old1 ++ old2 /\
    holds n0 b' r' /\ (forall x, has r' x <-> has r x \/ has old1 x) /\
    below (t + os + width old1) r' /\ from (t + os + width old1 + 1) old2 /\
    (forall t', t <= t' -> t' + os + width old < npos ->
       shift_loop old (t' + os) = shift_loop old2 (t' + os + width old1)).
Proof.
  revert os b r e. induction old as [|[f s] old IH]; intros os b r e Hb Ho Hbe Hfe He Ht Hos Hw.
  - exists [], [], b, r. cbn [push_old width foldr]. rewrite !Z.add_0_r. split_and!; try done.
    + intros x. rewrite has_nil. tauto.
    + ranges_weaken.
    + apply Forall_nil_2.
    + intros. by rewrite Z.add_0_r.
  - cbn [push_old fst snd]. rewrite width_cons in Hw. cbn [fst snd] in Hw.
    assert (0 <= f < s /\ s <= npos /\ e <= f /\ from (s + 1) old /\ sorted old) as (Hfs & Hn & Hef & Hfo & Hso)
      by (clear IH Hb Hbe; ranges_in_hyps; done).
    pose proof (width_nonneg _ (sorted_ok _ Hso)).
    rewrite u64_small by (unfold npos in Hw; lia). destruct (Z.leb_spec f (t + os)).
    + destruct (push_each_spec n0 (Z.to_nat (s - f)) f b r Hb) as (b1 & r1 & -> & Hb1 & Hbe1 & Hm1);
        [ranges_weaken|lia|lia|].
      rewrite Z2Nat.id in * by lia. replace (f + (s - f)) with s in * by lia.
      cbn [mbind result_bind]. rewrite u64_add_r, u64_small by (unfold npos in Hw; lia).
      destruct (IH (os + (s - f)) b1 r1 s Hb1 Hso Hbe1) as
        (old1 & old2 & b' & r' & -> & -> & Hb' & Hm' & Hbe' & Hf' & Hsh); [ranges_weaken|lia..|].
      exists ((f, s) :: old1), old2, b', r'. rewrite !width_cons. cbn [fst snd].
      replace (t + os + (s - f + width old1)) with (t + (os + (s - f)) + width old1) by lia.
      split_and!; [do 3 f_equal; lia|done|done| |done|done|].
      * intros x. rewrite Hm', Hm1, has_cons. simpl. tauto.
      * intros t' Htt Hw'. cbn [shift_loop fst snd]. destruct (Z.ltb_spec (t' + os) f); [lia|].
        rewrite u64_add_r, u64_small by (unfold npos in Hw'; lia).
        rewrite <- Z.add_assoc, Hsh by lia. f_equal. lia.
    + exists [], ((f, s) :: old), b, r. cbn [width foldr]. rewrite !Z.add_0_r.
      split_and!; try done.
      * intros x. rewrite has_nil. tauto.
      * ranges_weaken.
      * solve_sorted.
      * intros. by rewrite Z.add_0_r.
Qed.

Lemma shift_loop_from l i : from (i + 1) l -> shift_loop l i = i.
Proof. destruct l as [|p l]; [done|]. intros [? _]%from_cons. simpl. by destruct (Z.ltb_spec i (fst p)); [|lia]. Qed.

(** A set split before the first range that starts after an index. *)
Lemma split_at_index sd sh index :
  sorted (sd ++ sh) -> Forall (fun p => fst p <= index) sd -> from (index + 1) sh -> 0 <= index ->
  (index < end_of sd -> has (sd ++ sh) index) /\
  (end_of sd <= index -> ~ has (sd ++ sh) index /\ count_in 0 index (sd ++ sh) = width sd).
Proof.
  intros Hs Hd Hh Hi. pose proof Hs as Hs'. apply sorted_app_inv in Hs' as [Hsd _].
  pose proof (below_end_of _ Hsd) as Hb. split.
  - intros He. rewrite has_app. left. destruct sd as [|[f s] sd _] using rev_ind; [cbn in He; lia|].
    rewrite end_of_snoc in He. apply Forall_app in Hd as [_ Hd]. apply Forall_cons in Hd as [Hd _].
    rewrite has_app, has_cons. simpl in *. lia.
  - intros He. assert (below index sd) as Hbi by ranges_weaken. split.
    + rewrite has_app. intros [Hm|Hm]; [apply (has_below _ _ _ Hbi) in Hm|apply (has_from _ _ _ Hh) in Hm]; lia.
    + rewrite count_in_app, (count_in_from 0 index sh) by ranges_weaken.
      rewrite count_in_all; [lia|by apply sorted_ok|by apply sorted_from_0, sorted_ok|done].
Qed.

Lemma u64_total_width l : sorted l -> u64 (width l) = width l /\ 0 <= width l.
Proof.
  intros Hs. pose proof (sorted_ok _ Hs) as Ho. pose proof (width_nonneg _ Ho).
  pose proof (width_le l 0 Hs (sorted_from_0 _ Ho) ltac:(by vm_compute)).
  split; [apply u64_small; unfold npos in *; lia|done].
Qed.

Lemma end_of_app l1 l2 :
  match last l2 with Some r => snd r | None => end_of l1 end = end_of (l1 ++ l2).
Proof. unfold end_of. rewrite last_app. by destruct (last l2). Qed.

(** How far the next index is from the target after the last one. *)
Lemma target_advances sd sh1 sh2 m lo index :
  sorted (sd ++ sh1 ++ sh2) -> from lo (sh1 ++ sh2) -> lo <= index ->
  m + width sd <= Z.max (end_of sd) lo ->
  m + width (sd ++ sh1) <= Z.max (end_of (sd ++ sh1)) index.
Proof.
  intros Hs Hf Hlo Hm. apply from_end_of in Hs as He. apply from_app in He as [He _].
  apply from_app in Hf as [Hf _]. rewrite width_app. destruct (nil_or sh1) as [->|Hne].
  - rewrite app_nil_r. change (width []) with 0. lia.
  - apply sorted_app_inv in Hs as [_ Hs]. apply sorted_app_inv in Hs as [Hs _].
    assert (from (Z.max (end_of sd) lo) sh1) as Hmax.
    { destruct (Z.max_spec (end_of sd) lo) as [[_ ->]|[_ ->]]; done. }
    pose proof (width_between _ _ Hs Hmax Hne).
    rewrite <- (end_of_app sd sh1). unfold end_of in *. destruct (last sh1) eqn:E; [lia|].
    by apply last_None in E.
Qed.

Lemma add_shifted_loop_spec n0 values od old sd sh m lo e b r :
  sorted (od ++ old) -> sorted (sd ++ sh) -> holds n0 b r -> below e r -> from e old ->
  e <= m + width od -> 0 <= m -> 0 <= lo -> from lo sh -> Forall (fun p => fst p <= lo) sd ->
  m + width sd <= Z.max (end_of sd) lo ->
  (forall t, m <= t -> t + width (od ++ old) < npos ->
     shift_loop (od ++ old) t = shift_loop old (t + width od)) ->
  ascending lo values -> Forall (fun i => i + width (od ++ old) < npos) values ->
  exists old' b' r' e',
    add_shifted_loop values old sh (end_of sd) (width od) (width sd) b = Ok (old', b') /\
    (exists od', od ++ old = od' ++ old') /\ holds n0 b' r' /\ below e' r' /\ from e' old' /\
    (forall x, has r' x \/ has old' x <->
       (has r x \/ has old x) \/
       exists i, i ∈ values /\ ~ has (sd ++ sh) i /\
         x = shift_loop (od ++ old) (i - count_in 0 i (sd ++ sh))).
Proof.
  revert od old sd sh m lo e b r.
  induction values as [|index values IH];
    intros od old sd sh m lo e b r Ho Hs Hb Hbe Hfe He Hm Hlo Hsh Hsd Hc Hloop Hv Hw.
  { exists old, b, r, e. split_and!; try done; [by exists od|]. intros x. split; [by left|].
    by intros [?|(i & ?%elem_of_nil & _)]. }
  destruct Hv as [Hi Hv]. apply Forall_cons in Hw as [Hiw Hw]. cbn [add_shifted_loop].
  pose proof Hs as Hs'. apply sorted_app_inv in Hs' as [Hsd1 Hsh1].
  destruct (u64_total_width sd Hsd1) as [Hu _].
  destruct (skip_shifted_spec sh index (width sd) (end_of sd) Hsh1) as (sh1 & sh2 & -> & Esk & H1 & H2).
  rewrite Hu in Esk. rewrite Esk. clear Esk Hu.
  rewrite end_of_app, <- width_app. rewrite app_assoc in *. set (sd' := sd ++ sh1) in *.
  assert (sorted sd') as Hsd' by (by apply sorted_app_inv in Hs as [? _]).
  destruct (u64_total_width sd' Hsd') as [Hu' Hwsd]. rewrite Hu'.
  assert (Forall (fun p => fst p <= index) sd') as Hsdi.
  { apply Forall_app. split; [|done]. eapply Forall_impl; [exact Hsd|]. simpl. intros p ?. lia. }
  assert (m + width sd' <= Z.max (end_of sd') index) as Hc'.
  { apply (target_advances sd sh1 sh2 m lo); try done; [by rewrite app_assoc|lia]. }
  destruct (split_at_index sd' sh2 index Hs Hsdi H2 ltac:(lia)) as [Hin Hout].
  assert (Forall (fun p => fst p <= index + 1) sd') as Hsdi'.
  { eapply Forall_impl; [exact Hsdi|]. simpl. intros p ?. lia. }
  destruct (Z.ltb_spec index (end_of sd')) as [Hlt|Hge].
  - (* the index is one of those added before: skipped *)
    destruct (IH od old sd' sh2 m (index + 1) e b r) as (old' & b' & r' & e' & E & Hod & Hb' & Hbe' & Hfe' & Hm');
      try done; try lia.
    exists old', b', r', e'. split_and!; try done. intros x. rewrite Hm'. specialize (Hin Hlt).
    split; (intros [?|(i & Hv' & Hn & ->)]; [by left|right; exists i]).
    + split_and!; [by right|done|done].
    + apply elem_of_cons in Hv' as [->|Hv']; [done|]. by split_and!.
  - destruct (Hout Hge) as [Hnot Hcount]. clear Hin Hout.
    set (t := index - width sd') in *. assert (m <= t) as Hmt by lia.
    rewrite (u64_small t) by (unfold npos in *; lia).
    pose proof Ho as Ho'. apply sorted_app_inv in Ho' as [Hod Hold].
    destruct (u64_total_width od Hod) as [_ Hwo].
    destruct (u64_total_width old Hold) as [_ Hwold]. rewrite width_app in Hiw.
    destruct (push_old_spec n0 old t (width od) b r e Hb Hold Hbe Hfe) as
      (old1 & old2 & b1 & r1 & -> & -> & Hb1 & Hm1 & Hbe1 & Hf1 & Hsh'); [lia..|].
    cbn [mbind result_bind]. destruct (Z.leb_spec (width sd') index); [|lia].
    cbn [realm_assert mbind result_bind]. rewrite <- width_app.
    pose proof Hold as Hold'. apply sorted_app_inv in Hold' as [Hold1 Hold2].
    destruct (u64_total_width old1 Hold1) as [_ Hwo1]. destruct (u64_total_width old2 Hold2) as [_ Hwo2].
    rewrite width_app in Hiw, Hsh'.
    set (y := t + width od + width old1) in *.
    assert (u64 (t + width (od ++ old1)) = y) as ->
      by (rewrite width_app; unfold y; rewrite u64_small by (unfold npos in *; lia); lia).
    destruct (holds_push n0 b1 r1 y Hb1 Hbe1) as (b2 & -> & Hb2 & Hbe2 & Hm2); [lia|].
    cbn [mbind result_bind].
    assert (y = shift_loop (od ++ old1 ++ old2) t) as Ey.
    { rewrite Hloop by (rewrite ?width_app; lia). rewrite Hsh' by lia. symmetry. by apply shift_loop_from. }
    rewrite app_assoc in *.
    destruct (IH (od ++ old1) old2 sd' sh2 (t + 1) (index + 1) (y + 1) b2 (append r1 (y, y + 1)))
      as (old' & b' & r' & e' & E & Hod' & Hb' & Hbe' & Hfe' & Hm'); try done; try lia.
    { rewrite width_app. lia. }
    { intros t' Ht' Hw'. rewrite !width_app in Hw'. rewrite Hloop by (rewrite ?width_app; lia).
      rewrite Hsh' by lia. f_equal. rewrite width_app. lia. }
    exists old', b', r', e'. split_and!; try done. intros x. rewrite Hm', Hm2, Hm1, has_app.
    split.
    + intros [[[[?|?]| ->]|?]|(i & Hv' & Hn & ->)]; try tauto; right.
      * exists index. split_and!; [by left|done|]. by rewrite Hcount.
      * exists i. split_and!; [by right|done|done].
    + intros [?|(i & [->|Hv']%elem_of_cons & Hn & ->)]; [tauto| |].
      * rewrite Hcount. fold t. rewrite <- Ey. tauto.
      * right. by exists i.
Qed.

(** ** The whole operation *)

Lemma copy_spec n0 l b r e :
  building n0 b r -> sorted r -> below e r -> from e l -> sorted l ->
  exists b' r', fold_result (fun b r => builder_push_back r b) b l = Ok b' /\ building n0 b' r' /\
    sorted r' /\ (length r <= length r')%nat /\ (forall x, has r' x <-> has r x \/ has l x) /\
    (counts_right b -> (length r' <= n0 * max_size)%nat -> counts_right b').
Proof.
  revert b r e. induction l as [|p l IH]; intros b r e Hb Hs Hbe Hfe Hl.
  - exists b, r. split_and!; try done. intros x. rewrite has_nil. tauto.
  - apply from_cons in Hfe as [Hp Hfe]. apply sorted_cons in Hl as (Hok & Ha & Hl).
    destruct (builder_push_spec n0 b r p Hb) as (b1 & E1 & Hb1 & Hc1).
    destruct (append_members r p Hs) as (Hs1 & Hbe1 & Hm1); [eapply below_weaken; [done|lia]|done|].
    destruct (IH b1 (append r p) (snd p) Hb1 Hs1 Hbe1) as (b' & r' & E & Hb' & Hs' & Hlen & Hm' & Hc');
      [|done|].
    { apply apart_from in Ha. eapply from_weaken; [exact Ha|lia]. }
    exists b', r'. cbn [fold_result]. rewrite E1. cbn [mbind result_bind].
    pose proof (length_append r p). split_and!; [done|done|done|lia| |].
    + intros x. rewrite Hm', Hm1, has_cons. tauto.
    + intros Hc Hlr. apply Hc'; [|done]. apply Hc1; [done|]. right. lia.
Qed.

Lemma add_shifted_by_spec v s values :
  index_set_ok v -> index_set_ok s -> index_set_ok values ->
  below (npos - width (ranges v)) (ranges values) ->
  exists v', add_shifted_by v s values = Ok v' /\ sorted (ranges v') /\ Forall chunk_bounds v' /\
    ((length (ranges v') <= (length (ranges v) / max_size + 1) * max_size)%nat -> index_set_ok v') /\
    (forall x, mem v' x <->
       mem v x \/ exists i, mem values i /\ ~ mem s i /\ x = shift v (i - count_in 0 i (ranges s))).
Proof.
  intros Hv Hs Hvals Hbd.
  assert (forall values', add_shifted_by v s values' =
    match values' with
    | [] => Ok v
    | _ =>
        l ← as_indexes values';
        '(old, b) ← add_shifted_loop l (ranges v) (ranges s) 0 0 0 (builder_make v);
        b ← fold_result (fun b r => builder_push_back r b) b old;
        builder_finalize b
    end) as Hdef by done.
  destruct (nil_or values) as [->|Hne].
  { exists v. split_and!; [done|apply Hv| |done|].
    - eapply Forall_impl; [apply Hv|]. by intros c [? _].
    - intros x. change (ranges []) with (@nil (Z * Z)). split; [by left|].
      by intros [?|(i & ?%has_nil & _)]. }
  rewrite Hdef. destruct values as [|c0 cs] eqn:Ev; [done|]. rewrite <- Ev in *. clear Ev Hdef c0 cs.
  rewrite as_indexes_spec by done. cbn [mbind result_bind].
  destruct (building_make v) as [Hb0 Hc0]. pose proof (is_sorted _ Hv) as Hsv. pose proof (is_sorted _ Hs) as Hss.
  destruct (add_shifted_loop_spec (length (ranges v) / max_size + 1) (indexes (ranges values))
    [] (ranges v) [] (ranges s) 0 0 0 (builder_make v) []) as
    (old & b & r & e & E & (od & Hod) & Hb & Hbe & Hfe & Hm); cbn [app]; try done.
  { apply Forall_nil_2. }
  { by apply sorted_from_0, sorted_ok. }
  { by apply sorted_from_0, sorted_ok. }
  { intros. change (width []) with 0. by rewrite Z.add_0_r. }
  { by apply ascending_members. }
  { apply Forall_forall. intros i Hi%elem_of_indexes. apply (has_below _ _ _ Hbd) in Hi. lia. }
  change (end_of []) with 0 in E. change (width []) with 0 in E. rewrite E. cbn [mbind result_bind app] in *.
  rewrite Hod in Hsv. apply sorted_app_inv in Hsv as [_ Hsold].
  destruct (copy_spec _ old b r e (h_building _ _ _ Hb) (h_sorted _ _ _ Hb) Hbe Hfe Hsold)
    as (b' & r' & -> & Hb' & Hs' & _ & Hm' & Hc'). cbn [mbind result_bind].
  destruct (building_finalize _ _ _ Hb') as (v' & -> & Hcb & Er & Hw). exists v'. rewrite Er.
  split_and!; [done|done|done| |].
  - intros Hl. split; [|by rewrite Er]. apply Hw, Hc'; [apply Hb|done].
  - intros x. rewrite Hm', Hm, has_nil. setoid_rewrite elem_of_indexes. unfold shift. tauto.
Qed.
End add_shifted_by.
