(* ===== verification/IndexSetProps.v ===== *)
(** What [IndexSet] promises: after any sequence of its operations [verify()] holds, and each
    operation has on the set of members the effect its name says, with the exceptions found in
    [count] and in the cached counts of [add_shifted_by]. *)

From S2P Require Import Prelude ChunkedRangeVector RangeList IndexSet IndexSetCount RangeBuilder.
From S2P Require Import IndexLists IndexSetMerge IndexSetShifted.

(** ** The assertions of debug builds *)

Lemma verify_ranges_sorted l e :
  sorted l -> e = npos \/ from (e + 1) l -> verify_ranges e l = true.
Proof.
  revert e. induction l as [|[f s] l IH]; intros e Hs He; [done|]. cbn [verify_ranges].
  ranges_in_hyps. rewrite IH by (done || by right).
  destruct (Z.ltb_spec f s); [|lia].
  destruct He as [->|He]; [by rewrite Z.eqb_refl|]. ranges_in_hyps.
  destruct (Z.ltb_spec e f); [|lia]. by rewrite orb_true_r.
Qed.

Section verify.
Context `{MaxSize}.

Lemma verify_chunk_ok c : chunk_ok c -> sorted (data c) -> verify_chunk c = true.
Proof.
  intros Hc Hs. pose proof (chunk_below c Hc Hs) as Hb. pose proof (chunk_nonempty c Hc) as Hne.
  destruct (back_second_some _ Hne) as (r & Hl & He). destruct Hc as [[_ Hbeg Hend] Hn].
  unfold verify_chunk. rewrite He, moved_count_width, <- Hn.
  unfold hd_first, last_second in *. rewrite Hl in Hend. injection Hend as Hend.
  destruct (data c) as [|[f s] d] eqn:E; [done|]. injection Hbeg as Hbeg. cbn [front_first fst snd] in *.
  rewrite Hbeg, Hend, !Z.eqb_refl, andb_true_r. cbn [andb]. apply Z.leb_le.
  assert (from f ((f, s) :: d)) as Hf by (ranges_in_hyps; solve_sorted).
  assert (0 <= f) by (ranges_in_hyps; lia).
  pose proof (sorted_ok _ Hs) as Ho. pose proof (width_nonneg _ Ho) as Hw.
  rewrite <- (count_in_all f (c_end c) ((f, s) :: d)) in Hw, Hn by done.
  assert (f <= c_end c) by (apply below_cons in Hb as [? _]; ranges_in_hyps; simpl in *; lia).
  pose proof (count_in_le f (c_end c) _ Hs Hf ltac:(done)).
  assert (c_end c <= npos).
  { apply last_Some_elem_of in Hl. rewrite Forall_forall in Ho. apply Ho in Hl as [_ ?]. congruence. }
  rewrite Hn, !u64_small by (unfold npos in *; lia). lia.
Qed.

Lemma verify_ok v : index_set_ok v -> verify v = true.
Proof.
  intros [Hw Hs]. unfold verify. rewrite verify_ranges_sorted by (done || by left). cbn [andb].
  revert Hs. induction Hw as [|c v Hc Hw IH]; [done|]. rewrite ranges_cons. intros [H1 H2]%sorted_app_inv.
  cbn [forallb]. by rewrite verify_chunk_ok, IH.
Qed.
End verify.

(** ** Witness inputs *)

Section decidable.
Context `{MaxSize}.

#[export] Instance below_dec x l : Decision (below x l).
Proof. unfold below. apply _. Defined.
#[export] Instance from_dec x l : Decision (from x l).
Proof. unfold from. apply _. Defined.
#[export] Instance hd_first_dec l b : Decision (hd_first l b).
Proof. unfold hd_first. apply _. Defined.
#[export] Instance last_second_dec l e : Decision (last_second l e).
Proof. unfold last_second. apply _. Defined.

#[export] Instance chunk_bounds_dec c : Decision (chunk_bounds c).
Proof.
  destruct (decide ((length (data c) <= max_size)%nat /\ hd_first (data c) (c_begin c) /\
    last_second (data c) (c_end c))) as [(? & ? & ?)|Hn]; [by left|right].
  intros [? ? ?]. by apply Hn.
Defined.

#[export] Instance chunk_ok_dec c : Decision (chunk_ok c).
Proof.
  destruct (decide (chunk_bounds c /\ c_count c = u64 (width (data c)))) as [[? ?]|Hn]; [by left|right].
  intros [? ?]. by apply Hn.
Defined.

#[export] Instance index_set_ok_dec v : Decision (index_set_ok v).
Proof.
  destruct (decide (Forall chunk_ok v /\ sorted (ranges v))) as [[? ?]|Hn]; [by left|right].
  intros [? ?]. by apply Hn.
Defined.
End decidable.

(** Two chunks of a debug build. *)
Definition sample : list Chunk :=
  [MkChunk [(1, 2); (4, 6); (8, 9); (12, 20)] 1 20 12; MkChunk [(30, 31); (40, 44)] 30 44 5].
(** The positions 0, 5, 6 and 41. *)
Definition sample_positions : list Chunk := [MkChunk [(0, 1); (5, 7); (41, 42)] 0 42 4].

Ltac by_evaluation := apply (bool_decide_unpack _); vm_compute; exact I.

Section properties.
Context `{MaxSize}.
Abbreviation mem v x := (has (ranges v) x).

(** The members of a set, counted. *)
Lemma ascending_NoDup lo l : ascending lo l -> NoDup l.
Proof.
  revert lo. induction l as [|x l IH]; intros lo Ha; [apply NoDup_nil_2|].
  destruct Ha as [Hx Ha]. apply NoDup_cons. split; [|by eapply IH].
  intros Hin. apply (ascending_elem _ _ _ Ha) in Hin. lia.
Qed.

Lemma count_in_size v (l : list Z) :
  index_set_ok v -> (forall x, mem v x <-> x ∈ l) ->
  count_in 0 npos (ranges v) = Z.of_nat (size (list_to_set l : gset Z)).
Proof.
  intros Hok Hm. pose proof (is_sorted _ Hok) as Hs. pose proof (sorted_ok _ Hs) as Ho.
  rewrite count_in_all; [|done|by apply sorted_from_0|by apply below_npos].
  rewrite <- length_indexes by done. f_equal.
  rewrite <- (size_list_to_set (C := gset Z) (indexes (ranges v)))
    by (eapply ascending_NoDup, ascending_members; exact Hok).
  f_equal. apply set_eq. intros x. by rewrite !elem_of_list_to_set, elem_of_indexes.
Qed.

(** C38: a set built from any list of indices, in any order and with repetitions, satisfies
    its invariant and the assertions of [verify()], contains exactly the indices of the list,
    and counts each of them once. *)
Theorem of_list_members values :
  Forall (fun x => 0 <= x < npos) values ->
  exists v, of_list values = Ok v /\ index_set_ok v /\ verify v = true /\
    (forall x, contains v x = Ok (bool_decide (x ∈ values))) /\
    count v 0 npos = Ok (Z.of_nat (size (list_to_set values : gset Z))).
Proof.
  intros Hv. destruct (of_list_spec values Hv) as (v & E & Hok & Hm). exists v.
  split_and!; [done|done|by apply verify_ok| |].
  - intros x. destruct (contains_spec v x Hok) as (b & -> & Hb). f_equal.
    apply eq_true_iff_eq. by rewrite Hb, Hm, bool_decide_eq_true.
  - rewrite count_spec; [by rewrite (count_in_size v values)|done|by vm_compute|].
    right. by apply sorted_from_0, sorted_ok, Hok.
Qed.

(** [insert_at] makes the inserted indices members and moves those at or after the
    position back by their number, whatever the division of the ranges in chunks; [verify()]
    holds afterwards. *)
Theorem insert_at_members v index n :
  index_set_ok v -> 0 <= index -> 0 < n -> index + n <= npos -> below (npos - n) (ranges v) ->
  exists v', insert_at v index n = Ok v' /\ index_set_ok v' /\ verify v' = true /\
    (forall x, mem v' x <->
       index <= x < index + n \/ (x < index /\ mem v x) \/ (index + n <= x /\ mem v (x - n))).
Proof.
  intros. destruct (insert_at_spec v index n) as (v' & E & Hok & Hm); try done.
  exists v'. split_and!; [done|done|by apply verify_ok|done].
Qed.

(** [erase_at] takes an index out of the set and moves the members after it forward;
    [erase_or_unshift] does the same and returns [npos] for a member and, for another index,
    that index less the number of members before it. *)
Theorem erase_at_members v index :
  index_set_ok v -> 0 <= index < npos ->
  (exists v', erase_at v index = Ok v' /\ index_set_ok v' /\ verify v' = true /\
     (forall x, mem v' x <-> (x < index /\ mem v x) \/ (index <= x /\ mem v (x + 1)))) /\
  (exists v', erase_or_unshift v index =
      Ok (v', if decide (mem v index) then npos else index - count_in 0 index (ranges v)) /\
     index_set_ok v' /\ verify v' = true /\
     (forall x, mem v' x <-> (x < index /\ mem v x) \/ (index <= x /\ mem v (x + 1)))).
Proof.
  intros Hv Hi. split.
  - destruct (erase_at_spec v index) as (v' & E & Hok & Hm); [done|lia|].
    exists v'. split_and!; [done|done|by apply verify_ok|done].
  - destruct (erase_or_unshift_spec v index) as (v' & E & Hok & Hm); [done|lia|].
    exists v'. split_and!; [done|done|by apply verify_ok|done].
Qed.

(** [shift_for_insert_at] moves the members at or after the position back without adding
    any, splitting the range that contains the position. *)
Theorem shift_for_insert_at_members v index n :
  index_set_ok v -> 0 <= index -> 0 < n -> index + n <= npos -> below (npos - n) (ranges v) ->
  exists v', shift_for_insert_at v index n = Ok v' /\ index_set_ok v' /\ verify v' = true /\
    (forall x, mem v' x <-> (x < index /\ mem v x) \/ (index + n <= x /\ mem v (x - n))).
Proof.
  intros. destruct (shift_for_insert_at_spec v index n) as (v' & E & Hok & Hm); try done.
  exists v'. split_and!; [done|done|by apply verify_ok|done].
Qed.

(** [remove] takes an interval of indices, and [remove] of a set its members, out of the
    set without moving any; the loop that trims, splits and erases ranges ends. *)
Theorem remove_members v index n w :
  index_set_ok v -> 0 <= index -> 0 < n -> index + n <= npos -> index_set_ok w ->
  (exists v', remove v index n = Ok v' /\ index_set_ok v' /\ verify v' = true /\
     (forall x, mem v' x <-> mem v x /\ ~ (index <= x < index + n))) /\
  (exists v', remove_set v w = Ok v' /\ index_set_ok v' /\ verify v' = true /\
     (forall x, mem v' x <-> mem v x /\ ~ mem w x)).
Proof.
  intros Hv Hi Hn Hin Hw. split.
  - destruct (remove_spec v index n) as (v' & E & Hok & Hm); try done.
    exists v'. split_and!; [done|done|by apply verify_ok|done].
  - destruct (remove_set_spec v w) as (v' & E & Hok & Hm); try done.
    exists v'. split_and!; [done|done|by apply verify_ok|done].
Qed.

(** [shift] is a bijection from the indices to the indices outside of the set and
    [unshift] its inverse; [add_shifted] adds the index that its argument shifts to, which was
    not a member. *)
Theorem shift_bijective v i y :
  index_set_ok v -> 0 <= i -> i + width (ranges v) < npos -> 0 <= y < npos -> ~ mem v y ->
  ~ mem v (shift v i) /\ unshift v (shift v i) = Ok i /\
  (exists u, unshift v y = Ok u /\ shift v u = y) /\
  (exists v', add_shifted v i = Ok (v', shift v i) /\ index_set_ok v' /\ verify v' = true /\
     (forall x, mem v' x <-> x = shift v i \/ mem v x)).
Proof.
  intros Hv Hi Hw Hy Hn. pose proof (is_sorted _ Hv) as Hs.
  pose proof (sorted_from_0 _ (sorted_ok _ Hs)) as Hf.
  destruct (shift_loop_spec (ranges v) i Hs Hf Hi) as (Hns & Es & Hb); [unfold npos in *; lia|].
  fold (shift v i) in *. split_and!; [done| | |].
  - rewrite unshift_spec by (done || lia). f_equal. lia.
  - exists (y - count_in 0 y (ranges v)). split; [by apply unshift_spec|].
    apply shift_loop_unshift; [done|done|unfold npos in Hy; lia|done].
  - destruct (add_shifted_spec v i) as (v' & E & Hok & Hm); try done.
    exists v'. split_and!; [done|done|by apply verify_ok|done].
Qed.

(** [insert_at] of a set of positions makes the positions members and moves each member
    to where the insertions move its element; erasing the same positions gives the original
    members back. *)
Theorem insert_at_set_members v w :
  index_set_ok v -> index_set_ok w -> below (npos - width (ranges w)) (ranges v) ->
  exists v1 v2, insert_at_set v w = Ok v1 /\ index_set_ok v1 /\ verify v1 = true /\
    (forall x, mem v1 x <-> mem w x \/ exists y, mem v y /\ x = shift w y) /\
    erase_at_set v1 w = Ok v2 /\ (forall x, mem v2 x <-> mem v x).
Proof.
  intros Hv Hw Hb. destruct (insert_at_set_spec v w Hv Hw Hb) as (v1 & E1 & Hok1 & Hm1).
  destruct (erase_at_set_spec v1 w Hok1 Hw) as (v2 & E2 & Hok2 & Hm2).
  exists v1, v2. split_and!; [done|done|by apply verify_ok|done|done|].
  pose proof (is_sorted _ Hw) as Hs. pose proof (sorted_from_0 _ (sorted_ok _ Hs)) as Hf.
  pose proof (width_nonneg _ (sorted_ok _ Hs)).
  assert (forall y, mem v y -> ~ mem w (shift w y) /\ shift w y - count_in 0 (shift w y) (ranges w) = y) as Hsh.
  { intros y Hy. apply (has_below _ _ _ Hb) in Hy as Hlt.
    apply (has_from _ _ _ (sorted_from_0 _ (sorted_ok _ (is_sorted _ Hv)))) in Hy.
    destruct (shift_loop_spec (ranges w) y Hs Hf Hy) as (Hn & Ey & _); [unfold npos in *; lia|].
    fold (shift w y) in *. split; [done|lia]. }
  intros x. rewrite Hm2. split.
  - intros (y & Hy & Hn & ->). apply Hm1 in Hy as [Hy|(z & Hz & ->)]; [done|].
    by destruct (Hsh z Hz) as [_ ->].
  - intros Hx. destruct (Hsh x Hx) as [Hn Ex]. exists (shift w x). split_and!; [|done|done].
    apply Hm1. right. by exists x.
Qed.

(** [shift_for_insert_at] of a set of positions moves each member to where the insertions
    move its element, the early return for positions after all members included. *)
Theorem shift_for_insert_at_set_members v w :
  index_set_ok v -> index_set_ok w -> below (npos - width (ranges w)) (ranges v) ->
  exists v', shift_for_insert_at_set v w = Ok v' /\ index_set_ok v' /\ verify v' = true /\
    (forall x, mem v' x <-> exists y, mem v y /\ x = shift w y).
Proof.
  intros. destruct (shift_for_insert_at_set_spec v w) as (v' & E & Hok & Hm); try done.
  exists v'. split_and!; [done|done|by apply verify_ok|done].
Qed.

(** [erase_at] of a set of positions drops the members at those positions and moves each
    other member forward by the number of positions before it. *)
Theorem erase_at_set_members v w :
  index_set_ok v -> index_set_ok w ->
  exists v', erase_at_set v w = Ok v' /\ index_set_ok v' /\ verify v' = true /\
    (forall x, mem v' x <-> exists y, mem v y /\ ~ mem w y /\ x = y - count_in 0 y (ranges w)).
Proof.
  intros. destruct (erase_at_set_spec v w) as (v' & E & Hok & Hm); try done.
  exists v'. split_and!; [done|done|by apply verify_ok|done].
Qed.

(** [add] of another set is the union; the iterator carried from one index to the next
    never misses the position of an index, and the loop over single indices visits exactly the
    members in ascending order. *)
Theorem add_set_members v w :
  index_set_ok v -> index_set_ok w ->
  as_indexes w = Ok (indexes (ranges w)) /\ ascending 0 (indexes (ranges w)) /\
  exists v', add_set v w = Ok v' /\ index_set_ok v' /\ verify v' = true /\
    (forall x, mem v' x <-> mem v x \/ mem w x).
Proof.
  intros Hv Hw. split_and!; [by apply as_indexes_spec|by apply ascending_members|].
  destruct (add_set_spec v w) as (v' & E & Hok & Hm); try done.
  exists v'. split_and!; [done|done|by apply verify_ok|done].
Qed.

(** [add_shifted_by] adds, of the indices given, those not in [shifted_by], each moved
    first down by the indices of [shifted_by] before it and then up by those of the set.  The
    counts cached in the chunks are right when the result has no more ranges than the chunks
    allocated for the set can hold. *)
Theorem add_shifted_by_members v s values :
  index_set_ok v -> index_set_ok s -> index_set_ok values ->
  below (npos - width (ranges v)) (ranges values) ->
  exists v', add_shifted_by v s values = Ok v' /\ sorted (ranges v') /\ Forall chunk_bounds v' /\
    ((length (ranges v') <= (length (ranges v) / max_size + 1) * max_size)%nat -> index_set_ok v') /\
    (forall x, mem v' x <->
       mem v x \/ exists i, mem values i /\ ~ mem s i /\ x = shift v (i - count_in 0 i (ranges s))).
Proof. apply add_shifted_by_spec. Qed.

(** [count] is the number of members in the interval when the set has one chunk or the
    interval starts before all members. *)
Theorem count_members v s e :
  index_set_ok v -> 0 <= s <= e -> (length v <= 1)%nat \/ from s (ranges v) ->
  count v s e = Ok (Z.of_nat (length (filter (fun x => s <= x < e) (indexes (ranges v))))).
Proof.
  intros Hv Hse Hc. rewrite count_spec by done. f_equal. by apply count_in_indexes, sorted_ok, Hv.
Qed.
End properties.

(** ** The properties at concrete sets *)

Lemma of_list_members_witness :
  exists v, @of_list max_size_debug [9; 3; 20; 7; 3; 11; 1; 4] = Ok v /\ contains v 7 = Ok true /\
    count v 0 npos = Ok 7.
Proof.
  destruct (@of_list_members max_size_debug [9; 3; 20; 7; 3; 11; 1; 4]) as (v & E & _ & _ & C & N);
    [by_evaluation|]. exists v. rewrite C, N. split_and!; [exact E|by vm_compute..].
Defined.

Lemma insert_at_members_witness :
  exists v, @insert_at max_size_debug sample 10 3 = Ok v /\ verify v = true /\
    has (ranges v) 12 /\ has (ranges v) 46 /\ ~ has (ranges v) 40.
Proof.
  destruct (@insert_at_members max_size_debug sample 10 3) as (v & E & _ & V & M); [by_evaluation..|].
  exists v. rewrite !M. split_and!; [exact E|exact V|by_evaluation..].
Defined.

Lemma erase_at_members_witness :
  exists v w, erase_at sample 13 = Ok v /\ verify v = true /\
    erase_or_unshift sample 25 = Ok (w, 13) /\ verify w = true.
Proof.
  destruct (@erase_at_members max_size_debug sample 13) as [(v & E & _ & V & _) _]; [by_evaluation|done|].
  destruct (@erase_at_members max_size_debug sample 25) as [_ (w & F & _ & W & _)]; [by_evaluation|done|].
  exists v, w. split_and!; [exact E|exact V|exact F|exact W].
Defined.

Lemma shift_for_insert_at_members_witness :
  exists v, @shift_for_insert_at max_size_debug sample 14 3 = Ok v /\ verify v = true /\
    has (ranges v) 13 /\ ~ has (ranges v) 14 /\ has (ranges v) 17.
Proof.
  destruct (@shift_for_insert_at_members max_size_debug sample 14 3) as (v & E & _ & V & M); [by_evaluation..|].
  exists v. rewrite !M. split_and!; [exact E|exact V|by_evaluation..].
Defined.

Lemma remove_members_witness :
  (exists v, @remove max_size_debug sample 5 10 = Ok v /\ has (ranges v) 4 /\ ~ has (ranges v) 12) /\
  (exists v, @remove_set max_size_debug sample sample_positions = Ok v /\
     ~ has (ranges v) 5 /\ has (ranges v) 40 /\ ~ has (ranges v) 41).
Proof.
  destruct (@remove_members max_size_debug sample 5 10 sample_positions) as
    [(v & E & _ & _ & M) (w & F & _ & _ & N)]; [by_evaluation..|].
  split; [exists v; rewrite !M|exists w; rewrite !N]; split_and!;
    first [exact E|exact F|by_evaluation].
Defined.

Lemma shift_bijective_witness :
  unshift sample (shift sample 13) = Ok 13 /\
  exists v, @add_shifted max_size_debug sample 13 = Ok (v, 25) /\ verify v = true.
Proof.
  destruct (@shift_bijective max_size_debug sample 13 7) as (_ & U & _ & v & E & _ & V & _); [by_evaluation..|].
  split; [exact U|]. exists v. split; [exact E|exact V].
Defined.

Lemma insert_at_set_members_witness :
  exists v1 v2, @insert_at_set max_size_debug sample sample_positions = Ok v1 /\ has (ranges v1) 41 /\
    @erase_at_set max_size_debug v1 sample_positions = Ok v2 /\ has (ranges v2) 5 /\ ~ has (ranges v2) 7.
Proof.
  destruct (@insert_at_set_members max_size_debug sample sample_positions) as
    (v1 & v2 & E1 & _ & _ & M1 & E2 & M2); [by_evaluation..|].
  exists v1, v2. rewrite M1, !M2. split_and!; [exact E1|left; by_evaluation|exact E2|by_evaluation..].
Defined.

Lemma shift_for_insert_at_set_members_witness :
  exists v, @shift_for_insert_at_set max_size_debug sample sample_positions = Ok v /\
    verify v = true /\ has (ranges v) 2.
Proof.
  destruct (@shift_for_insert_at_set_members max_size_debug sample sample_positions) as
    (v & E & _ & V & M); [by_evaluation..|].
  exists v. rewrite M. split_and!; [exact E|exact V|]. exists 1. by_evaluation.
Defined.

Lemma erase_at_set_members_witness :
  exists v, @erase_at_set max_size_debug sample sample_positions = Ok v /\
    verify v = true /\ has (ranges v) 0.
Proof.
  destruct (@erase_at_set_members max_size_debug sample sample_positions) as
    (v & E & _ & V & M); [by_evaluation..|].
  exists v. rewrite M. split_and!; [exact E|exact V|]. exists 1. by_evaluation.
Defined.

Lemma add_set_members_witness :
  exists v, @add_set max_size_debug sample sample_positions = Ok v /\ has (ranges v) 0 /\ has (ranges v) 4.
Proof.
  destruct (@add_set_members max_size_debug sample sample_positions) as (_ & _ & v & E & _ & _ & M);
    [by_evaluation..|]. exists v. rewrite !M. split_and!; [exact E|by_evaluation..].
Defined.

Lemma add_shifted_by_members_witness :
  exists v, @add_shifted_by max_size_debug sample sample_positions sample_positions = Ok v /\
    has (ranges v) 13.
Proof.
  destruct (@add_shifted_by_members max_size_debug sample sample_positions sample_positions) as
    (v & E & _ & _ & _ & M); [by_evaluation..|].
  exists v. split; [exact E|]. apply M. left. by_evaluation.
Defined.

Lemma count_members_witness :
  count [MkChunk [(1, 2); (4, 6); (8, 9); (12, 20)] 1 20 12] 5 15 = Ok 5.
Proof.
  rewrite (@count_members max_size_debug) by by_evaluation. by vm_compute.
Defined.

(** ** Where the code falls short *)

(** [count] misses members when it starts inside a chunk and ends in the first range of
    the next one: of 1, 3, 5, 7 and 9, the four from 3 on are counted as three. *)
Theorem count_misses_next_chunk :
  exists v, @of_list max_size_debug [1; 3; 5; 7; 9] = Ok v /\
    count v 3 10 = Ok 3 /\ count_in 3 10 (ranges v) = 4.
Proof. eexists. split; [vm_compute; reflexivity|]. by split; vm_compute. Qed.

(** When the builder has used up the chunks it allocated, it gives a new one the count 1
    whatever the range: after [add_shifted_by] of 0, 2, 4 and 6 to the set of 100, 101 and 102,
    [verify()] fails and [count] returns 5 for the 7 members. *)
Theorem add_shifted_by_miscounts :
  exists v values v', @of_list max_size_debug [100; 101; 102] = Ok v /\
    @of_list max_size_debug [0; 2; 4; 6] = Ok values /\
    @add_shifted_by max_size_debug v [] values = Ok v' /\
    verify v' = false /\ count v' 0 npos = Ok 5 /\ count_in 0 npos (ranges v') = 7.
Proof.
  eexists _, _, _. split; [vm_compute; reflexivity|]. split; [vm_compute; reflexivity|].
  split; [vm_compute; reflexivity|]. by split_and!; vm_compute.
Qed.
