(* ===== verification/ChangeBuilder.v ===== *)
(** [CollectionChangeBuilder] of [collection_change_builder.hpp] and [.cpp]: the change of a
    collection, kept as index sets that the operations on the collection update, and its
    composition with a later change.

    A move whose destination changes keeps its place in the vector of moves; [std::remove_if]
    with a predicate that has effects is a fold over the vector, in order. *)

From S2P Require Import Prelude ChunkedRangeVector RangeList IndexSet IndexSetMerge.

(** ** Data *)

(** [CollectionChangeSet::Move]. *)
Record Move := MkMove { move_from : Z; move_to : Z }.

#[export] Instance Move_eq_dec : EqDecision Move.
Proof. solve_decision. Defined.

Record CollectionChangeSet := ChangeSet {
  cs_deletions : IndexSet;
  cs_insertions : IndexSet;
  cs_modifications : IndexSet;
  cs_modifications_new : IndexSet;
  cs_moves : list Move;
  cs_columns : gmap Z IndexSet
}.

(** The builder, which is a change set; it does not use [modifications_new]. *)
Record CollectionChangeBuilder := Builder {
  deletions : IndexSet;
  insertions : IndexSet;
  modifications : IndexSet;
  modifications_new : IndexSet;
  moves : list Move;
  columns : gmap Z IndexSet;
  m_track_columns : bool
}.

Definition empty_builder : CollectionChangeBuilder := Builder [] [] [] [] [] ∅ true.

Definition is_empty (b : CollectionChangeBuilder) : bool :=
  match deletions b, insertions b, modifications b, modifications_new b, moves b with
  | [], [], [], [], [] => true
  | _, _, _, _, _ => false
  end.

Definition with_deletions d (b : CollectionChangeBuilder) : CollectionChangeBuilder :=
  Builder d (insertions b) (modifications b) (modifications_new b) (moves b) (columns b) (m_track_columns b).
Definition with_insertions i (b : CollectionChangeBuilder) : CollectionChangeBuilder :=
  Builder (deletions b) i (modifications b) (modifications_new b) (moves b) (columns b) (m_track_columns b).
Definition with_moves m (b : CollectionChangeBuilder) : CollectionChangeBuilder :=
  Builder (deletions b) (insertions b) (modifications b) (modifications_new b) m (columns b) (m_track_columns b).
Definition with_modifications m c (b : CollectionChangeBuilder) : CollectionChangeBuilder :=
  Builder (deletions b) (insertions b) m (modifications_new b) (moves b) c (m_track_columns b).

(** [columns[col]], which is empty when there is none. *)
Definition column (m : gmap Z IndexSet) (col : Z) : IndexSet := default [] (m !! col).

(** Apply a fallible function to every value of a map. *)
Definition map_result {A} (f : A -> result A) (m : gmap Z A) : result (gmap Z A) :=
  fold_result (fun m' '(k, a) => a' ← f a; Ok (<[k := a']> m')) m (map_to_list m).

Section change_builder.
Context `{MaxSize}.

(** ** Construction *)

Definition make (deletions insertions modifications : IndexSet) (moves : list Move)
  : result CollectionChangeBuilder :=
  '(d, i) ← fold_result (fun '(d, i) m => d ← add d (move_from m); i ← add i (move_to m); Ok (d, i))
              (deletions, insertions) moves;
  Ok (Builder d i modifications [] moves ∅ true).

(** ** Changes of the collection *)

Definition for_each_col (f : IndexSet -> result IndexSet) (b : CollectionChangeBuilder)
  : result CollectionChangeBuilder :=
  m ← f (modifications b);
  c ← (if m_track_columns b then map_result f (columns b) else Ok (columns b));
  Ok (with_modifications m c b).

Definition modify (ndx col : Z) (b : CollectionChangeBuilder) : result CollectionChangeBuilder :=
  m ← add (modifications b) ndx;
  if negb (m_track_columns b) || (col =? npos) then Ok (with_modifications m (columns b) b)
  else
    c ← add (column (columns b) col) ndx;
    Ok (with_modifications m (<[col := c]> (columns b)) b).

Definition insert (index count : Z) (track_moves : bool) (b : CollectionChangeBuilder)
  : result CollectionChangeBuilder :=
  _ ← realm_assert (negb (count =? 0));
  b ← for_each_col (fun col => shift_for_insert_at col index count) b;
  if negb track_moves then Ok b
  else
    i ← insert_at (insertions b) index count;
    let m := (fun m => if index <=? move_to m then MkMove (move_from m) (u64 (move_to m + count)) else m)
               <$> moves b in
    Ok (with_moves m (with_insertions i b)).

(** The loop over the moves: the one to [index] is erased, those behind it are moved up. *)
Definition erase_moves (index : Z) (l : list Move) : list Move :=
  omap (fun m => if move_to m =? index then None
                 else if index <? move_to m then Some (MkMove (move_from m) (move_to m - 1))
                 else Some m) l.

Definition erase (index : Z) (b : CollectionChangeBuilder) : result CollectionChangeBuilder :=
  b ← for_each_col (fun col => erase_at col index) b;
  '(i, unshifted) ← erase_or_unshift (insertions b) index;
  d ← (if unshifted =? npos then Ok (deletions b)
       else '(d, _) ← add_shifted (deletions b) unshifted; Ok d);
  Ok (with_moves (erase_moves index (moves b)) (with_deletions d (with_insertions i b))).

Definition clear (old_size : Z) (b : CollectionChangeBuilder) : result CollectionChangeBuilder :=
  let old_size := foldl (fun n r => u64 (n + u64 (snd r - fst r))) old_size (ranges (deletions b)) in
  let old_size := foldl (fun n r => u64 (n - u64 (snd r - fst r))) old_size (ranges (insertions b)) in
  d ← set (deletions b) old_size;
  Ok (Builder d [] [] (modifications_new b) [] ∅ (m_track_columns b)).

(** The loop over the existing moves: the insertions, the moves and whether one was updated. *)
Fixpoint move_existing (from to : Z) (l : list Move) (updated : bool) (i : IndexSet)
  : result (list Move * bool * IndexSet) :=
  match l with
  | [] => Ok ([], updated, i)
  | m :: l =>
      if move_to m =? from then
        _ ← realm_assert (negb updated);
        i ← erase_at i from;
        i ← insert_at i to 1;
        '(l, updated, i) ← move_existing from to l true i;
        Ok (MkMove (move_from m) to :: l, updated, i)
      else
        let t := if (to <=? move_to m) && (move_to m <? from) then move_to m + 1
                 else if (move_to m <=? to) && (from <? move_to m) then move_to m - 1
                 else move_to m in
        '(l, updated, i) ← move_existing from to l updated i;
        Ok (MkMove (move_from m) t :: l, updated, i)
  end.

Definition move_column (from to : Z) (col : IndexSet) : result IndexSet :=
  modified ← contains col from;
  col ← erase_at col from;
  if (modified : bool) then insert_at col to 1 else shift_for_insert_at col to 1.

Definition move (from to : Z) (b : CollectionChangeBuilder) : result CollectionChangeBuilder :=
  _ ← realm_assert (negb (from =? to));
  '(m, updated, i) ← move_existing from to (moves b) false (insertions b);
  b ← (if (updated : bool) then Ok (with_moves m (with_insertions i b))
       else
         '(i, shifted_from) ← erase_or_unshift i from;
         i ← insert_at i to 1;
         if shifted_from =? npos then Ok (with_moves m (with_insertions i b))
         else
           '(d, shifted_from) ← add_shifted (deletions b) shifted_from;
           Ok (with_moves (m ++ [MkMove shifted_from to]) (with_deletions d (with_insertions i b))));
  for_each_col (move_column from to) b.

Definition verify (b : CollectionChangeBuilder) : result bool :=
  fold_result (fun ok m =>
      d ← contains (deletions b) (move_from m);
      i ← contains (insertions b) (move_to m);
      Ok (ok && d && i)) true (moves b).

(** ** Composition *)

(** Drop the moves that have become no-ops, with their insertion and deletion. *)
Fixpoint stale_moves (l : list Move) (d i : IndexSet) : result (list Move * IndexSet * IndexSet) :=
  match l with
  | [] => Ok ([], d, i)
  | m :: l =>
      nd ← count d 0 (move_from m);
      ni ← count i 0 (move_to m);
      if negb (u64 (move_from m - nd) =? u64 (move_to m - ni)) then
        '(l, d, i) ← stale_moves l d i; Ok (m :: l, d, i)
      else
        d ← remove d (move_from m) 1;
        i ← remove i (move_to m) 1;
        stale_moves l d i
  end.

Definition clean_up_stale_moves (b : CollectionChangeBuilder) : result CollectionChangeBuilder :=
  '(m, d, i) ← stale_moves (moves b) (deletions b) (insertions b);
  Ok (with_moves m (with_deletions d (with_insertions i b))).

(** The keys of the columns of both change sets. *)
Definition col_keys (b c : CollectionChangeBuilder) : list Z :=
  if m_track_columns b then elements (dom (columns b) ∪ dom (columns c) : gset Z) else [].

(** [for_each_col] of [merge]: both sets of modifications, then both sets of each column, which
    come into being when they do not exist. *)
Definition for_each_col_pair (f : IndexSet -> IndexSet -> result (IndexSet * IndexSet))
    (keys : list Z) (b c : CollectionChangeBuilder)
  : result (CollectionChangeBuilder * CollectionChangeBuilder) :=
  '(m, m') ← f (modifications b) (modifications c);
  '(cols, cols') ← fold_result (fun '(cols, cols') k =>
      '(x, x') ← f (column cols k) (column cols' k);
      Ok (<[k := x]> cols, <[k := x']> cols')) (columns b, columns c) keys;
  Ok (with_modifications m cols b, with_modifications m' cols' c).

(** [if (col.contains(m.from)) other.add(m.to)]. *)
Definition carry_modification (m : Move) (col other : IndexSet) : result (IndexSet * IndexSet) :=
  modified ← contains col (move_from m);
  if (modified : bool) then other ← add other (move_to m); Ok (col, other) else Ok (col, other).

(** [std::find_if] by source: the index of the move. *)
Fixpoint find_move (f : Z) (l : list Move) : option nat :=
  match l with
  | [] => None
  | m :: l => if f =? move_from m then Some 0%nat else S <$> find_move f l
  end.

(** [*it = c.moves.back(); c.moves.pop_back()]. *)
Definition swap_pop {A} (n : nat) (l : list A) : list A :=
  match last l with
  | Some back => take (pred (length l)) (<[n := back]> l)
  | None => l
  end.

(** [std::remove_if] over the old moves. *)
Fixpoint update_old_moves (keys : list Z) (l : list Move) (b c : CollectionChangeBuilder)
  : result (list Move * CollectionChangeBuilder * CollectionChangeBuilder) :=
  match l with
  | [] => Ok ([], b, c)
  | old :: l =>
      match find_move (move_to old) (moves c) with
      | Some n =>
          match moves c !! n with
          | Some m =>
              '(b, c) ← for_each_col_pair (carry_modification m) keys b c;
              '(l, b, c) ← update_old_moves keys l b (with_moves (swap_pop n (moves c)) c);
              Ok (MkMove (move_from old) (move_to m) :: l, b, c)
          | None => Err OutOfBounds
          end
      | None =>
          deleted ← contains (deletions c) (move_to old);
          if (deleted : bool) then update_old_moves keys l b c
          else
            u ← unshift (deletions c) (move_to old);
            let old := MkMove (move_from old) (shift (insertions c) u) in
            '(l, b, c) ← update_old_moves keys l b c;
            Ok (old :: l, b, c)
      end
  end.

(** Moves of rows that [i] does not contain. *)
Fixpoint drop_moves_from (i : IndexSet) (l : list Move) : result (list Move) :=
  match l with
  | [] => Ok []
  | m :: l =>
      inserted ← contains i (move_from m);
      l ← drop_moves_from i l;
      Ok (if (inserted : bool) then l else m :: l)
  end.

Definition nonempty (v : IndexSet) : bool := match v with [] => false | _ => true end.

(** The source of a new move, before the changes of the old change set. *)
Definition source_before (b : CollectionChangeBuilder) (m : Move) : result Move :=
  u ← unshift (insertions b) (move_from m);
  Ok (MkMove (shift (deletions b) u) (move_to m)).

Fixpoint map_moves (f : Move -> result Move) (l : list Move) : result (list Move) :=
  match l with [] => Ok [] | m :: l => m ← f m; l ← map_moves f l; Ok (m :: l) end.

(** [!c.moves.empty()]. *)
Definition has_moves (c : CollectionChangeBuilder) : bool := match moves c with [] => false | _ => true end.

(** First the old moves, which [c] may move on or delete. *)
Definition merge_old_moves (keys : list Z) (b c : CollectionChangeBuilder)
  : result (CollectionChangeBuilder * CollectionChangeBuilder) :=
  if has_moves c || nonempty (deletions c) || nonempty (insertions c)
  then '(l, b, c) ← update_old_moves keys (moves b) b c; Ok (with_moves l b, c)
  else Ok (b, c).

(** New moves of rows which were inserted before are dropped. *)
Definition drop_moves_of_inserted (b c : CollectionChangeBuilder) : result CollectionChangeBuilder :=
  if nonempty (insertions b) && has_moves c
  then l ← drop_moves_from (insertions b) (moves c); Ok (with_moves l c)
  else Ok c.

(** Modified rows which were moved are still modified. *)
Definition carry_modifications (keys : list Z) (b c : CollectionChangeBuilder)
  : result (CollectionChangeBuilder * CollectionChangeBuilder) :=
  if nonempty (modifications b) && has_moves c
  then fold_result (fun '(b, c) m => for_each_col_pair (carry_modification m) keys b c) (b, c) (moves c)
  else Ok (b, c).

(** The sources of the new moves, before the changes of the old change set. *)
Definition update_sources (b c : CollectionChangeBuilder) : result CollectionChangeBuilder :=
  if nonempty (deletions b) || nonempty (insertions b)
  then l ← map_moves (source_before b) (moves c); Ok (with_moves l c)
  else Ok c.

(** The moves, the deletions and the insertions of both. *)
Definition merge_sets (b c : CollectionChangeBuilder) : result CollectionChangeBuilder :=
  let b := with_moves (moves b ++ moves c) b in
  d ← add_shifted_by (deletions b) (insertions b) (deletions c);
  i ← erase_at_set (insertions b) (deletions c);
  i ← insert_at_set i (insertions c);
  clean_up_stale_moves (with_deletions d (with_insertions i b)).

Definition merge_column (deletions insertions col other : IndexSet) : result (IndexSet * IndexSet) :=
  col ← erase_at_set col deletions;
  col ← shift_for_insert_at_set col insertions;
  col ← add_set col other;
  Ok (col, other).

(** The change set composed with [c]; [c] itself is reset. *)
Definition merge (b c : CollectionChangeBuilder) : result CollectionChangeBuilder :=
  if is_empty c then Ok b
  else if is_empty b then Ok c
  else
    let keys := col_keys b c in
    '(b, c) ← merge_old_moves keys b c;
    c ← drop_moves_of_inserted b c;
    '(b, c) ← carry_modifications keys b c;
    c ← update_sources b c;
    b ← merge_sets b c;
    '(b, _) ← for_each_col_pair (merge_column (deletions c) (insertions c)) keys b c;
    Ok b.

Definition finalize (b : CollectionChangeBuilder) : result CollectionChangeSet :=
  m_old ← erase_at_set (modifications b) (insertions b);
  m_old ← shift_for_insert_at_set m_old (deletions b);
  m_new ← remove_set (modifications b) (insertions b);
  Ok (ChangeSet (deletions b) (insertions b) m_old m_new (moves b) (columns b)).
End change_builder.
