(* ===== verification/KeptElements.v ===== *)
(** The elements of a list at the indices that a set of ranges does not contain, and what
    happens to them when elements are inserted, removed and moved: the link between index sets
    and the collections they describe. *)

From S2P Require Import Prelude ChunkedRangeVector RangeList IndexSet IndexSetCount IndexLists.

Section keep.
Context {A : Type}.
Implicit Types l : list A.

(** The elements of [l], whose first one is at index [i], at indices that [r] does not contain. *)
Fixpoint keep (r : list (Z * Z)) (i : Z) (l : list A) : list A :=
  match l with
  | [] => []
  | a :: l => if decide (has r i) then keep r (i + 1) l else a :: keep r (i + 1) l
  end.

Lemma keep_app r i l1 l2 :
  keep r i (l1 ++ l2) = keep r i l1 ++ keep r (i + Z.of_nat (length l1)) l2.
Proof.
  revert i. induction l1 as [|a l1 IH]; intros i; simpl; [by rewrite Z.add_0_r|].
  rewrite IH. replace (i + 1 + Z.of_nat (length l1)) with (i + Z.of_nat (S (length l1))) by lia.
  by case_decide.
Qed.

(** The same indices, up to a translation. *)
Lemma keep_ext r r' i d l :
  (forall x, i <= x < i + Z.of_nat (length l) -> (has r x <-> has r' (x + d))) ->
  keep r i l = keep r' (i + d) l.
Proof.
  revert i. induction l as [|a l IH]; intros i Hr; simpl in *; [done|].
  rewrite (IH (i + 1)) by (intros; apply Hr; lia). replace (i + 1 + d) with (i + d + 1) by lia.
  pose proof (Hr i ltac:(lia)). by repeat case_decide; try tauto.
Qed.

Lemma keep_none r i l :
  (forall x, i <= x < i + Z.of_nat (length l) -> has r x) -> keep r i l = [].
Proof.
  revert i. induction l as [|a l IH]; intros i Hr; simpl in *; [done|].
  rewrite decide_True by (apply Hr; lia). apply IH. intros. apply Hr. lia.
Qed.

Lemma keep_all r i l :
  (forall x, i <= x < i + Z.of_nat (length l) -> ~ has r x) -> keep r i l = l.
Proof.
  revert i. induction l as [|a l IH]; intros i Hr; simpl in *; [done|].
  rewrite decide_False by (apply Hr; lia). f_equal. apply IH. intros. apply Hr. lia.
Qed.

(** ** Positions among the elements kept *)

Lemma overlap_next x p :
  ok_range p -> 0 <= x -> overlap 0 (x + 1) p = overlap 0 x p + (if decide (in_range_of x p) then 1 else 0).
Proof. intros [? ?] ?. unfold overlap, in_range_of. case_decide; lia. Qed.

Lemma count_in_next x r :
  sorted r -> 0 <= x -> count_in 0 (x + 1) r = count_in 0 x r + (if decide (has r x) then 1 else 0).
Proof.
  intros Hs Hx. induction r as [|p r IH]; [done|]. apply sorted_cons in Hs as (Hp & Ha & Hs).
  rewrite !count_in_cons, IH, overlap_next by done. apply apart_from in Ha.
  destruct (decide (in_range_of x p)) as [Hin|Hin], (decide (has r x)) as [Hr|Hr].
  - exfalso. apply (has_from _ _ _ Ha) in Hr. unfold in_range_of in Hin. lia.
  - rewrite decide_True by (apply has_cons; by left). lia.
  - rewrite decide_True by (apply has_cons; by right). lia.
  - rewrite decide_False by (by intros [?|?]%has_cons). lia.
Qed.

(** The number of indices before [x] that a set does not contain. *)
Definition rank (r : list (Z * Z)) (x : Z) : Z := x - count_in 0 x r.

Lemma rank_next x r :
  sorted r -> 0 <= x -> rank r (x + 1) = rank r x + (if decide (has r x) then 0 else 1).
Proof. intros. unfold rank. rewrite count_in_next by done. case_decide; lia. Qed.

Lemma rank_nonneg r x : sorted r -> 0 <= x -> 0 <= rank r x.
Proof.
  intros Hs Hx. unfold rank.
  pose proof (count_in_le 0 x r Hs (sorted_from_0 _ (sorted_ok _ Hs)) Hx). lia.
Qed.

Lemma length_keep_prefix r i l :
  sorted r -> 0 <= i -> Z.of_nat (length (keep r i l)) = rank r (i + Z.of_nat (length l)) - rank r i.
Proof.
  intros Hs. revert i. induction l as [|a l IH]; intros i Hi; cbn [keep length]; [rewrite Z.add_0_r; simpl; lia|].
  replace (i + Z.of_nat (S (length l))) with (i + 1 + Z.of_nat (length l)) by lia.
  specialize (IH (i + 1) ltac:(lia)). rewrite rank_next in IH by done. case_decide; cbn [length]; lia.
Qed.

Lemma rank_0 r : sorted r -> rank r 0 = 0.
Proof.
  intros Hs. unfold rank. rewrite count_in_from; [done|]. by apply sorted_from_0, sorted_ok.
Qed.

Lemma length_keep r l :
  sorted r -> Z.of_nat (length (keep r 0 l)) = rank r (Z.of_nat (length l)).
Proof. intros. rewrite length_keep_prefix, rank_0, Z.add_0_l, Z.sub_0_r by done. done. Qed.

(** A list at one of its indices. *)
Lemma split_index l (j : Z) :
  0 <= j < Z.of_nat (length l) ->
  exists l1 a l2, l = l1 ++ a :: l2 /\ Z.of_nat (length l1) = j /\ l !! Z.to_nat j = Some a.
Proof.
  intros Hj. destruct (lookup_lt_is_Some_2 l (Z.to_nat j)) as [a Ha]; [lia|].
  exists (take (Z.to_nat j) l), a, (drop (S (Z.to_nat j)) l). split_and!; [|rewrite length_take; lia|done].
  by rewrite take_drop_middle.
Qed.

(** The element at an index not in the set is at its rank among those kept. *)
Lemma keep_lookup r l j :
  sorted r -> 0 <= j < Z.of_nat (length l) -> ~ has r j ->
  keep r 0 l !! Z.to_nat (rank r j) = l !! Z.to_nat j.
Proof.
  intros Hs Hj Hn. destruct (split_index l j Hj) as (l1 & a & l2 & -> & Hl & Ha).
  rewrite Ha, keep_app, Z.add_0_l, Hl. cbn [keep]. rewrite decide_False by done.
  apply list_lookup_middle. pose proof (length_keep r l1 Hs) as E. rewrite Hl in E. lia.
Qed.

(** One more index in the set takes one element away. *)
Lemma keep_more r r' l j :
  sorted r -> 0 <= j < Z.of_nat (length l) -> ~ has r j -> (forall x, has r' x <-> x = j \/ has r x) ->
  keep r' 0 l = delete (Z.to_nat (rank r j)) (keep r 0 l).
Proof.
  intros Hs Hj Hn Hr. destruct (split_index l j Hj) as (l1 & a & l2 & -> & Hl & Ha).
  rewrite !keep_app, !Z.add_0_l, Hl. cbn [keep].
  rewrite (decide_True (P := has r' j)) by (apply Hr; by left). rewrite decide_False by done.
  assert (keep r' 0 l1 = keep r 0 l1) as ->.
  { rewrite (keep_ext r' r 0 0); [done|]. intros x Hx. rewrite Z.add_0_r, Hr. split; [intros [->|?]; [lia|done]|by right]. }
  assert (keep r' (j + 1) l2 = keep r (j + 1) l2) as ->.
  { rewrite (keep_ext r' r (j + 1) 0), Z.add_0_r; [done|]. intros x Hx.
    rewrite Z.add_0_r, Hr. split; [intros [->|?]; [lia|done]|by right]. }
  pose proof (length_keep r l1 Hs) as E. rewrite Hl in E.
  replace (Z.to_nat (rank r j)) with (length (keep r 0 l1)) by lia. by rewrite delete_middle.
Qed.

(** ** Changes of the list *)

(** Elements inserted at indices that the set then contains. *)
Lemma keep_insert r r' l1 new l2 :
  let j := Z.of_nat (length l1) in let n := Z.of_nat (length new) in
  (forall x, has r' x <-> j <= x < j + n \/ (x < j /\ has r x) \/ (j + n <= x /\ has r (x - n))) ->
  keep r' 0 (l1 ++ new ++ l2) = keep r 0 (l1 ++ l2).
Proof.
  intros j n Hr. rewrite !keep_app, !Z.add_0_l. fold j n. f_equal; [|rewrite keep_none; [cbn [app]|]].
  - rewrite (keep_ext r' r 0 0); [done|]. intros x Hx. rewrite Z.add_0_r, Hr. fold j in Hx.
    split; [intros [?|[[_ ?]|[? _]]]; [lia|done|lia]|intros; right; left; split; [lia|done]].
  - symmetry. apply keep_ext. intros x Hx. rewrite Hr. replace (x + n - n) with x by lia.
    split; [intros; right; right; split; [lia|done]|]. intros [?|[[? _]|[_ ?]]]; [lia|lia|done].
  - intros x Hx. apply Hr. left. fold n in Hx. lia.
Qed.

(** An element removed that the set contains, or the set does not. *)
Lemma keep_remove r r' l1 a l2 :
  let j := Z.of_nat (length l1) in
  sorted r ->
  (forall x, has r' x <-> (x < j /\ has r x) \/ (j <= x /\ has r (x + 1))) ->
  keep r' 0 (l1 ++ l2) =
  if decide (has r j) then keep r 0 (l1 ++ a :: l2)
  else delete (Z.to_nat (rank r j)) (keep r 0 (l1 ++ a :: l2)).
Proof.
  intros j Hs Hr. rewrite !keep_app, !Z.add_0_l. fold j. cbn [keep].
  assert (keep r' 0 l1 = keep r 0 l1) as ->.
  { rewrite (keep_ext r' r 0 0); [done|]. intros x Hx. rewrite Z.add_0_r, Hr. fold j in Hx.
    split; [intros [[_ ?]|[? _]]; [done|lia]|left; split; [lia|done]]. }
  assert (keep r' j l2 = keep r (j + 1) l2) as ->.
  { apply keep_ext. intros x Hx. rewrite Hr. split; [intros [[? _]|[_ ?]]; [lia|done]|right; split; [lia|done]]. }
  case_decide; [done|]. pose proof (length_keep r l1 Hs) as E. fold j in E.
  replace (Z.to_nat (rank r j)) with (length (keep r 0 l1)) by lia. by rewrite delete_middle.
Qed.
End keep.
