(* ===== verification/Collection.v ===== *)
(** The collections that change sets describe: lists of elements that carry marks for the
    modifications made to them, and the changes of such a list. *)

From S2P Require Import Prelude ChunkedRangeVector RangeList IndexSet IndexSetCount KeptElements.

(** ** Elements at an index *)

Section nth.
Context {A : Type}.
Implicit Types l : list A.

Definition nth_Z (l : list A) (x : Z) : option A := if decide (0 <= x) then l !! Z.to_nat x else None.

Lemma nth_lt l x a : nth_Z l x = Some a -> 0 <= x < Z.of_nat (length l).
Proof. unfold nth_Z. case_decide; [|done]. intros Ha%lookup_lt_Some. lia. Qed.

Lemma nth_is_Some l x : 0 <= x < Z.of_nat (length l) -> exists a, nth_Z l x = Some a.
Proof. intros Hx. unfold nth_Z. rewrite decide_True by lia. apply lookup_lt_is_Some. lia. Qed.

Lemma nth_app_l l1 l2 x : x < Z.of_nat (length l1) -> nth_Z (l1 ++ l2) x = nth_Z l1 x.
Proof. intros Hx. unfold nth_Z. case_decide; [|done]. apply lookup_app_l. lia. Qed.

Lemma nth_app_r l1 l2 x :
  Z.of_nat (length l1) <= x -> nth_Z (l1 ++ l2) x = nth_Z l2 (x - Z.of_nat (length l1)).
Proof.
  intros Hx. unfold nth_Z. rewrite !decide_True by lia. rewrite lookup_app_r by lia. f_equal. lia.
Qed.

Lemma nth_cons a l x : nth_Z (a :: l) x = if decide (x = 0) then Some a else nth_Z l (x - 1).
Proof.
  unfold nth_Z. repeat case_decide; try (done || lia); [by subst|].
  replace (Z.to_nat x) with (S (Z.to_nat (x - 1))) by lia. done.
Qed.

Lemma nth_nil x : nth_Z ([] : list A) x = None.
Proof. unfold nth_Z. by case_decide. Qed.

Lemma nth_split l1 a l2 x : x = Z.of_nat (length l1) -> nth_Z (l1 ++ a :: l2) x = Some a.
Proof. intros ->. rewrite nth_app_r by lia. by rewrite nth_cons, decide_True by lia. Qed.

(** The list around an index. *)
Lemma split_at_Z l x a :
  nth_Z l x = Some a -> exists l1 l2, l = l1 ++ a :: l2 /\ Z.of_nat (length l1) = x.
Proof.
  intros Ha. pose proof (nth_lt _ _ _ Ha) as Hx. destruct (split_index l x Hx) as (l1 & a' & l2 & -> & Hl & _).
  rewrite nth_split in Ha by done. injection Ha as ->. by exists l1, l2.
Qed.

Lemma split_before l x : 0 <= x <= Z.of_nat (length l) -> exists l1 l2, l = l1 ++ l2 /\ Z.of_nat (length l1) = x.
Proof.
  intros Hx. exists (take (Z.to_nat x) l), (drop (Z.to_nat x) l).
  rewrite take_drop, length_take. split; [done|lia].
Qed.

(** An index in a list with elements inserted, in terms of the list without. *)
Lemma nth_insert l1 new l2 x :
  let j := Z.of_nat (length l1) in let n := Z.of_nat (length new) in
  nth_Z (l1 ++ new ++ l2) x =
  if decide (x < j) then nth_Z (l1 ++ l2) x
  else if decide (x < j + n) then nth_Z new (x - j) else nth_Z (l1 ++ l2) (x - n).
Proof.
  intros j n. destruct (decide (x < j)).
  - by rewrite !nth_app_l by (fold j; lia).
  - rewrite nth_app_r by (fold j; lia). fold j. destruct (decide (x < j + n)).
    + by rewrite nth_app_l by (fold n; lia).
    + rewrite (nth_app_r new) by (fold n; lia). rewrite (nth_app_r l1) by (fold j; lia).
      fold j n. f_equal. lia.
Qed.

(** An index in a list with an element removed. *)
Lemma nth_remove l1 a l2 x :
  let j := Z.of_nat (length l1) in
  nth_Z (l1 ++ l2) x =
  if decide (x < j) then nth_Z (l1 ++ a :: l2) x else nth_Z (l1 ++ a :: l2) (x + 1).
Proof.
  intros j. destruct (decide (x < j)).
  - by rewrite !nth_app_l by (fold j; lia).
  - rewrite !nth_app_r by (fold j; lia). fold j. rewrite nth_cons, decide_False by lia. f_equal. lia.
Qed.

(** ** Insertion and removal at an index *)

Definition insert_items (index : Z) (new l : list A) : list A :=
  take (Z.to_nat index) l ++ new ++ drop (Z.to_nat index) l.

Lemma insert_items_split (l1 new l2 : list A) index :
  index = Z.of_nat (length l1) -> insert_items index new (l1 ++ l2) = l1 ++ new ++ l2.
Proof. intros ->. unfold insert_items. by rewrite Nat2Z.id, take_app_length, drop_app_length. Qed.

Lemma delete_split (l1 : list A) a l2 index :
  index = Z.of_nat (length l1) -> delete (Z.to_nat index) (l1 ++ a :: l2) = l1 ++ l2.
Proof. intros ->. by rewrite Nat2Z.id, delete_middle. Qed.

Lemma length_insert_items index new l : length (insert_items index new l) = (length new + length l)%nat.
Proof.
  unfold insert_items. rewrite !length_app, length_take, length_drop. lia.
Qed.
End nth.

(** ** Marked elements *)

(** [None] marks a modified element, [Some col] one with a modification in the column. *)
Record item (A : Type) := Item { it_id : A; it_marks : gset (option Z) }.
Arguments Item {_} _ _.
Arguments it_id {_} _.
Arguments it_marks {_} _.

Section marks.
Context {A : Type}.

Definition marked_at (cur : list (item A)) (k : option Z) (x : Z) : Prop :=
  exists it, nth_Z cur x = Some it /\ k ∈ it_marks it.

Lemma marked_at_lt cur k x : marked_at cur k x -> 0 <= x < Z.of_nat (length cur).
Proof. intros (it & Hit & _). by eapply nth_lt. Qed.

Lemma marked_insert l1 new l2 k x :
  let j := Z.of_nat (length l1) in let n := Z.of_nat (length new) in
  marked_at (l1 ++ new ++ l2) k x <->
  (j <= x < j + n /\ marked_at new k (x - j)) \/ (x < j /\ marked_at (l1 ++ l2) k x) \/
  (j + n <= x /\ marked_at (l1 ++ l2) k (x - n)).
Proof.
  intros j n. unfold marked_at. rewrite nth_insert. fold j n.
  destruct (decide (x < j)); [|destruct (decide (x < j + n))].
  - split; [auto|]. intros [[? _]|[[_ ?]|[? _]]]; [lia|done|lia].
  - split; [intros; left; split; [lia|done]|]. intros [[_ ?]|[[? _]|[? _]]]; [done|lia|lia].
  - split; [intros; right; right; split; [lia|done]|]. intros [[? _]|[[? _]|[_ ?]]]; [lia|lia|done].
Qed.

Lemma marked_remove l1 a l2 k x :
  let j := Z.of_nat (length l1) in
  marked_at (l1 ++ l2) k x <->
  (x < j /\ marked_at (l1 ++ a :: l2) k x) \/ (j <= x /\ marked_at (l1 ++ a :: l2) k (x + 1)).
Proof.
  intros j. unfold marked_at. rewrite (nth_remove l1 a). fold j. destruct (decide (x < j)).
  - split; [auto|]. intros [[_ ?]|[? _]]; [done|lia].
  - split; [intros; right; split; [lia|done]|]. intros [[? _]|[_ ?]]; [lia|done].
Qed.

(** ** Changes of a collection *)

Inductive change :=
| CModify (ndx col : Z)
| CInsert (index : Z) (new : list A)
| CErase (index : Z)
| CClear
| CMove (from to : Z).

Definition fresh (a : A) : item A := Item a ∅.

(** [npos] stands for no column. *)
Definition marks_of (col : Z) : gset (option Z) :=
  if decide (col = npos) then {[ None ]} else {[ None; Some col ]}.

Definition apply_change (c : change) (cur : list (item A)) : list (item A) :=
  match c with
  | CModify ndx col =>
      alter (fun it => Item (it_id it) (marks_of col ∪ it_marks it)) (Z.to_nat ndx) cur
  | CInsert index new => insert_items index (fresh <$> new) cur
  | CErase index => delete (Z.to_nat index) cur
  | CClear => []
  | CMove from to =>
      match nth_Z cur from with
      | Some it => insert_items to [it] (delete (Z.to_nat from) cur)
      | None => cur
      end
  end.

(** What the code requires: indices in range, a collection of at most [npos] elements, as many
    as an index set can hold. *)
Definition valid_change (c : change) (size : Z) : Prop :=
  match c with
  | CModify ndx _ => 0 <= ndx < size
  | CInsert index new => 0 <= index <= size /\ new <> [] /\ size + Z.of_nat (length new) <= npos
  | CErase index => 0 <= index < size
  | CClear => True
  | CMove from to => 0 <= from < size /\ 0 <= to < size /\ from <> to
  end.

#[export] Instance valid_change_dec c size : Decision (valid_change c size).
Proof.
  destruct c as [ndx col|index new|index| |from to]; simpl; try apply _.
Defined.

Definition ids (cur : list (item A)) : list A := it_id <$> cur.

Lemma length_ids cur : length (ids cur) = length cur.
Proof. apply length_fmap. Qed.

Lemma ids_insert index new cur : ids (insert_items index new cur) = insert_items index (ids new) (ids cur).
Proof. unfold ids, insert_items. by rewrite !fmap_app, fmap_take, fmap_drop. Qed.

Lemma ids_fresh (l : list A) : ids (fresh <$> l) = l.
Proof. unfold ids. rewrite <- list_fmap_compose. apply (list_fmap_id l). Qed.

Lemma ids_lookup cur x : nth_Z (ids cur) x = it_id <$> nth_Z cur x.
Proof. unfold nth_Z, ids. case_decide; [|done]. apply list_lookup_fmap. Qed.

(** Marks added to one element. *)
Lemma ids_alter (f : item A -> item A) n cur :
  (forall it, it_id (f it) = it_id it) -> ids (alter f n cur) = ids cur.
Proof.
  intros Hf. unfold ids. revert n. induction cur as [|it cur IH]; intros n; [done|].
  destruct n; cbn; [by rewrite Hf|]. f_equal. apply IH.
Qed.

Lemma marked_alter (cur : list (item A)) (ndx : Z) (ks : gset (option Z)) (k : option Z) (x : Z) :
  0 <= ndx < Z.of_nat (length cur) ->
  marked_at (alter (fun it => Item (it_id it) (ks ∪ it_marks it)) (Z.to_nat ndx) cur) k x <->
  (x = ndx /\ k ∈ ks) \/ marked_at cur k x.
Proof.
  intros Hn. destruct (nth_is_Some cur ndx Hn) as [it0 H0]. unfold marked_at, nth_Z in *.
  rewrite decide_True in H0 by lia. destruct (decide (0 <= x)) as [Hx|Hx].
  2: { split; [by intros (? & ? & _)|]. intros [[-> _]|(? & ? & _)]; [lia|done]. }
  destruct (decide (x = ndx)) as [->|Hne].
  - rewrite list_lookup_alter_eq, H0. split.
    + intros (it & [= <-] & Hk). cbn [it_marks] in Hk. apply elem_of_union in Hk as [?|?]; [by left|right; by exists it0].
    + intros [[_ Hk]|(it & [= <-] & Hk)]; eexists; (split; [done|]); cbn [it_marks]; apply elem_of_union; auto.
  - rewrite list_lookup_alter_ne by lia. split; [by right|]. intros [[? _]|?]; [done|done].
Qed.
End marks.
Arguments change : clear implicits.
