(* ===== verification/Tracking.v ===== *)
(** What a [CollectionChangeBuilder] says of the collection it tracks: the relation between the
    old collection, the current one and the builder, which every change of the collection
    preserves when the builder is told of it. *)

From S2P Require Import Prelude ChunkedRangeVector RangeList IndexSet IndexSetCount IndexLists IndexSetMerge.
From S2P Require Import IndexSetProps ChangeBuilder KeptElements Collection.

(** ** Fallible functions on maps *)

Lemma fold_insert_spec {A} (f : A -> result A) (l : list (Z * A)) (m : gmap Z A) :
  NoDup l.*1 -> Forall (fun p => exists a', f (snd p) = Ok a') l ->
  exists m', fold_result (fun m' '(k, a) => a' ← f a; Ok (<[k := a']> m')) m l = Ok m' /\
    forall k, (forall a, (k, a) ∈ l -> exists a', f a = Ok a' /\ m' !! k = Some a') /\
              ((forall a, (k, a) ∉ l) -> m' !! k = m !! k).
Proof.
  revert m. induction l as [|[k0 a0] l IH]; intros m Hn Hf.
  - exists m. split; [done|]. intros k. split; [by intros a ?%elem_of_nil|done].
  - rewrite fmap_cons in Hn. apply NoDup_cons in Hn as [Hk0 Hn]. apply Forall_cons in Hf as [[a1 Ha1] Hf].
    cbn [fst snd] in *. destruct (IH (<[k0 := a1]> m) Hn Hf) as (m' & E & Hm'). exists m'.
    cbn [fold_result]. rewrite Ha1. cbn [mbind result_bind]. split; [exact E|].
    assert (forall a, (k0, a) ∉ l) as Hno.
    { intros a Ha. apply Hk0. apply list_elem_of_fmap. by exists (k0, a). }
    intros k. destruct (Hm' k) as [H1 H2]. split.
    + intros a [[= -> ->]|Ha]%elem_of_cons; [|by apply H1].
      exists a1. split; [done|]. rewrite H2 by done. by rewrite lookup_insert_eq.
    + intros Ha. rewrite H2.
      * rewrite lookup_insert_ne; [done|]. intros ->. apply (Ha a0). by left.
      * intros a Hin. apply (Ha a). by right.
Qed.

Lemma map_result_spec {A} (f : A -> result A) (m : gmap Z A) :
  (forall k a, m !! k = Some a -> exists a', f a = Ok a') ->
  exists m', map_result f m = Ok m' /\
    forall k, match m !! k with
              | Some a => exists a', f a = Ok a' /\ m' !! k = Some a'
              | None => m' !! k = None
              end.
Proof.
  intros Hf. destruct (fold_insert_spec f (map_to_list m) m) as (m' & E & Hm').
  - apply NoDup_fst_map_to_list.
  - apply Forall_forall. intros [k a] Ha%elem_of_map_to_list. by apply (Hf k).
  - exists m'. split; [exact E|]. intros k. destruct (Hm' k) as [H1 H2].
    destruct (m !! k) as [a|] eqn:Ek.
    + apply H1. by apply elem_of_map_to_list.
    + rewrite H2; [done|]. intros a Ha%elem_of_map_to_list. congruence.
Qed.

(** ** The relation *)

Section tracking.
Context `{MaxSize} {A : Type}.
Implicit Types b : CollectionChangeBuilder.
Implicit Types cur : list (item A).
Abbreviation mem v x := (has (ranges v) x).

Definition marked b (k : option Z) : IndexSet :=
  match k with None => modifications b | Some col => column (columns b) col end.

(** A reported move is one: the element at the source is the one at the destination. *)
Record move_ok b (old : list A) cur (m : Move) : Prop := {
  mo_from : mem (deletions b) (move_from m);
  mo_to : mem (insertions b) (move_to m);
  mo_same : exists a, nth_Z old (move_from m) = Some a /\ nth_Z (ids cur) (move_to m) = Some a
}.

Record describes b (old : list A) cur : Prop := {
  ds_deletions : index_set_ok (deletions b);
  ds_insertions : index_set_ok (insertions b);
  ds_marks_ok : forall k, index_set_ok (marked b k);
  ds_old : forall x, mem (deletions b) x -> x < Z.of_nat (length old);
  ds_cur : forall x, mem (insertions b) x -> x < Z.of_nat (length cur);
  ds_old_size : Z.of_nat (length old) <= npos;
  ds_cur_size : Z.of_nat (length cur) <= npos;
  ds_kept : keep (ranges (deletions b)) 0 old = keep (ranges (insertions b)) 0 (ids cur);
  ds_marks : forall k x, mem (marked b k) x <-> marked_at cur k x;
  ds_moves : Forall (move_ok b old cur) (moves b);
  ds_distinct : NoDup (move_to <$> moves b);
  ds_sources : NoDup (move_from <$> moves b);
  ds_track : m_track_columns b = true
}.

Lemma column_empty col : column ∅ col = [].
Proof. unfold column. by rewrite lookup_empty. Qed.

Lemma has_empty x : has (ranges []) x <-> False.
Proof. apply has_nil. Qed.

Lemma describes_start (old : list A) :
  Z.of_nat (length old) <= npos -> describes empty_builder old (fresh <$> old).
Proof.
  intros Hn. split; cbn [deletions insertions moves m_track_columns empty_builder]; try apply empty_ok; try done.
  - intros [col|]; simpl; rewrite ?column_empty; apply empty_ok.
  - intros x ?%has_empty. done.
  - intros x ?%has_empty. done.
  - by rewrite length_fmap.
  - rewrite !keep_all by (by intros ? _ ?%has_empty). by rewrite ids_fresh.
  - intros k x. assert (marked empty_builder k = []) as -> by (destruct k; [apply column_empty|done]).
    rewrite has_empty. split; [done|]. intros (it & Hit & Hk). unfold nth_Z in Hit. case_decide; [|done].
    rewrite list_lookup_fmap in Hit. destruct (old !! Z.to_nat x); [|done]. injection Hit as <-.
    by apply elem_of_empty in Hk.
  - apply NoDup_nil_2.
  - apply NoDup_nil_2.
Qed.

(** ** Updating the marks *)

Lemma for_each_col_spec f b cur cur' :
  m_track_columns b = true -> (forall k, index_set_ok (marked b k)) ->
  (forall k x, mem (marked b k) x <-> marked_at cur k x) ->
  (forall v k, index_set_ok v -> (forall x, mem v x <-> marked_at cur k x) ->
     exists v', f v = Ok v' /\ index_set_ok v' /\ (forall x, mem v' x <-> marked_at cur' k x)) ->
  (forall k, (forall x, ~ marked_at cur k x) -> forall x, ~ marked_at cur' k x) ->
  exists m c, for_each_col f b = Ok (with_modifications m c b) /\
    (forall k, index_set_ok (marked (with_modifications m c b) k)) /\
    (forall k x, mem (marked (with_modifications m c b) k) x <-> marked_at cur' k x).
Proof.
  intros Ht Hok Hm Hf He. unfold for_each_col. rewrite Ht.
  destruct (Hf _ None (Hok None) (Hm None)) as (m & Em & Hokm & Hmm). simpl in Em. rewrite Em.
  assert (forall col v, columns b !! col = Some v -> column (columns b) col = v) as Hcol
    by (intros col v E; unfold column; by rewrite E).
  destruct (map_result_spec f (columns b)) as (c & Ec & Hc).
  { intros col v E. destruct (Hf _ (Some col) (Hok (Some col)) (Hm (Some col))) as (v' & Ev & _).
    simpl in Ev. rewrite (Hcol col v E) in Ev. eauto. }
  cbn [mbind result_bind]. rewrite Ec. cbn [mbind result_bind]. exists m, c. split; [done|].
  enough (forall k, index_set_ok (marked (with_modifications m c b) k) /\
    forall x, mem (marked (with_modifications m c b) k) x <-> marked_at cur' k x) as He'
    by (split; intros k; apply He').
  intros [col|]; [|done]. cbn [marked with_modifications columns]. specialize (Hc col).
  unfold column at 1 2. destruct (columns b !! col) as [v|] eqn:E.
  - destruct Hc as (v' & Ev & ->). destruct (Hf _ (Some col) (Hok (Some col)) (Hm (Some col))) as (v2 & Ev2 & H1 & H2).
    simpl in Ev2. rewrite (Hcol col v E), Ev in Ev2. injection Ev2 as <-. done.
  - rewrite Hc. cbn [default]. split; [apply empty_ok|]. intros x. rewrite has_empty.
    split; [done|]. apply (He (Some col)). intros y Hy. apply Hm in Hy. simpl in Hy.
    unfold column in Hy. rewrite E in Hy. by apply has_empty in Hy.
Qed.

(** The bounds of a set that marks elements. *)
Lemma marks_below v k cur :
  index_set_ok v -> (forall x, mem v x <-> marked_at cur k x) -> below (Z.of_nat (length cur)) (ranges v).
Proof.
  intros [_ Hs] Hm. apply below_of_has; [by apply sorted_ok|]. intros y Hy%Hm. by apply marked_at_lt in Hy as [_ ?].
Qed.

Lemma insertions_below b old cur : describes b old cur -> below (Z.of_nat (length cur)) (ranges (insertions b)).
Proof.
  intros Hd. apply below_of_has; [apply sorted_ok, Hd|]. intros y Hy. by apply (ds_cur _ _ _ Hd).
Qed.

Lemma deletions_below b old cur : describes b old cur -> below (Z.of_nat (length old)) (ranges (deletions b)).
Proof.
  intros Hd. apply below_of_has; [apply sorted_ok, Hd|]. intros y Hy. by apply (ds_old _ _ _ Hd).
Qed.
End tracking.
