(* ===== verification/TrackedChanges.v ===== *)
(** The changes of a collection, one by one: what [CollectionChangeBuilder] does on each keeps
    the relation [describes] between the builder and the collections. *)

From S2P Require Import Prelude ChunkedRangeVector RangeList IndexSet IndexSetCount IndexLists IndexSetMerge.
From S2P Require Import IndexSetProps ChangeBuilder KeptElements Collection Tracking.

Section steps.
Context `{MaxSize} {A : Type}.
Implicit Types b : CollectionChangeBuilder.
Implicit Types old : list A.
Implicit Types cur : list (item A).
Abbreviation mem v x := (has (ranges v) x).

(** Changes of the sets of modifications alone. *)
Lemma describes_marks b m c old cur cur' :
  describes b old cur -> ids cur' = ids cur ->
  (forall k, index_set_ok (marked (with_modifications m c b) k)) ->
  (forall k x, mem (marked (with_modifications m c b) k) x <-> marked_at cur' k x) ->
  describes (with_modifications m c b) old cur'.
Proof.
  intros [Hd Hi Hk Ho Hc Hos Hcs Hkept Hm Hmv Hn Hsrc Ht] E Hk' Hm'.
  assert (length cur' = length cur) as El by (by rewrite <- (length_ids cur'), E, length_ids).
  split; cbn [with_modifications deletions insertions moves m_track_columns]; rewrite ?E, ?El; try done.
  eapply Forall_impl; [exact Hmv|]. intros mv [? ? ?]. split; cbn [with_modifications deletions insertions];
    rewrite ?E; done.
Qed.

Lemma modify_step b old cur ndx col :
  describes b old cur -> valid_change (CModify ndx col : change A) (Z.of_nat (length cur)) ->
  exists b', modify ndx col b = Ok b' /\ describes b' old (apply_change (CModify ndx col) cur).
Proof.
  intros Hd Hv. cbn [valid_change] in Hv. cbn [apply_change]. set (cur' := alter _ _ cur).
  assert (ids cur' = ids cur) as Eid by (by apply ids_alter).
  pose proof (ds_cur_size _ _ _ Hd) as Hs.
  assert (forall k x, marked_at cur' k x <-> (x = ndx /\ k ∈ marks_of col) \/ marked_at cur k x) as Hm
    by (intros; by apply marked_alter).
  destruct (add_spec (modifications b) ndx) as (m & Em & Hokm & Hmm); [apply (ds_marks_ok _ _ _ Hd None)|lia|].
  unfold modify. rewrite Em, (ds_track _ _ _ Hd). cbn [mbind result_bind negb orb].
  pose proof (ds_marks _ _ _ Hd) as Hmarks. pose proof (ds_marks_ok _ _ _ Hd) as Hok.
  assert (forall x, mem m x <-> marked_at cur' None x) as Hnone.
  { intros x. rewrite Hmm, Hm, <- Hmarks. cbn [marked]. unfold marks_of. case_decide; set_solver. }
  destruct (Z.eqb_spec col npos) as [->|Hne].
  - eexists; split; [done|]. apply (describes_marks b m (columns b) old cur); try done.
    + intros [c|]; [apply (Hok (Some c))|done].
    + intros [c|] x; [|apply Hnone]. rewrite Hm. unfold marks_of. rewrite decide_True by done.
      rewrite <- (Hmarks (Some c)). set_solver.
  - destruct (add_spec (column (columns b) col) ndx) as (c & Ec & Hokc & Hmc);
      [apply (Hok (Some col))|lia|].
    rewrite Ec. cbn [mbind result_bind]. eexists; split; [done|].
    apply (describes_marks b m (<[col := c]> (columns b)) old cur); try done.
    + intros [c'|]; [|done]. cbn. unfold column. destruct (decide (c' = col)) as [->|Hc].
      * by rewrite lookup_insert_eq.
      * rewrite lookup_insert_ne by done. apply (Hok (Some c')).
    + intros [c'|] x; [|apply Hnone]. rewrite Hm, <- (Hmarks (Some c')).
      unfold marks_of. rewrite decide_False by done. cbn. unfold column. destruct (decide (c' = col)) as [->|Hc].
      * rewrite lookup_insert_eq. cbn [default]. rewrite Hmc. unfold column. set_solver.
      * rewrite lookup_insert_ne by done. set_solver.
Qed.

(** Destinations stay distinct. *)
Lemma NoDup_moves (f : Move -> Move) (l : list Move) :
  NoDup (move_to <$> l) ->
  (forall m m', m ∈ l -> m' ∈ l -> move_to (f m) = move_to (f m') -> move_to m = move_to m') ->
  NoDup (move_to <$> (f <$> l)).
Proof.
  induction l as [|m l IH]; intros Hn Hf; [apply NoDup_nil_2|].
  rewrite !fmap_cons in *. apply NoDup_cons in Hn as [Hm Hn]. apply NoDup_cons. split.
  - intros Hin. apply Hm. apply list_elem_of_fmap in Hin as (m2 & E & Hin).
    apply list_elem_of_fmap in Hin as (m' & -> & Hin). apply list_elem_of_fmap. exists m'.
    split; [|done]. apply Hf; [by left|by right|done].
  - apply IH; [done|]. intros m1 m2 H1 H2. apply Hf; by right.
Qed.

(** Sources stay the same. *)
Lemma same_sources (f : Move -> Move) (l : list Move) :
  (forall m, move_from (f m) = move_from m) -> NoDup (move_from <$> l) -> NoDup (move_from <$> (f <$> l)).
Proof.
  intros Hf Hn. rewrite <- list_fmap_compose. by rewrite (list_fmap_ext _ move_from) by (intros ? m ?; apply Hf).
Qed.

Lemma insert_step b old cur index new :
  describes b old cur -> valid_change (CInsert index new) (Z.of_nat (length cur)) ->
  exists b', insert index (Z.of_nat (length new)) true b = Ok b' /\
    describes b' old (apply_change (CInsert index new) cur).
Proof.
  intros Hd (Hi & Hne & Hn). cbn [apply_change]. set (n := Z.of_nat (length new)) in *.
  assert (0 < n) as Hn0 by (unfold n; destruct new; [done|simpl; lia]).
  destruct (split_before cur index Hi) as (l1 & l2 & -> & Hl).
  rewrite insert_items_split by done. set (cur' := l1 ++ (fresh <$> new) ++ l2).
  assert (Z.of_nat (length (l1 ++ l2)) <= npos - n) as Hsize by lia.
  destruct Hd as [Hd Hins Hk Ho Hc Hos Hcs Hkept Hm Hmv Hdist Hsrc Ht].
  assert (length (fresh <$> new) = length new) as Elen by apply length_fmap.
  assert (forall k x, marked_at cur' k x <-> (x < index /\ marked_at (l1 ++ l2) k x) \/
    (index + n <= x /\ marked_at (l1 ++ l2) k (x - n))) as Hmk.
  { intros k x. unfold cur'. rewrite marked_insert, Elen, Hl. fold n. split; [|tauto].
    intros [[_ (it & Hit & Hkx)]|?]; [|done]. exfalso. unfold nth_Z in Hit. case_decide; [|done].
    rewrite list_lookup_fmap in Hit. destruct (new !! _); [|done]. injection Hit as <-.
    by apply elem_of_empty in Hkx. }
  unfold insert. destruct (Z.eqb_spec n 0); [lia|]. cbn [negb realm_assert mbind result_bind].
  destruct (for_each_col_spec (fun col => shift_for_insert_at col index n) b (l1 ++ l2) cur') as
    (m & c & -> & Hk' & Hm'); [done|done|done| | |].
  { intros v k Hok Hv. pose proof (marks_below v k _ Hok Hv) as Hb.
    destruct (shift_for_insert_at_spec v index n) as (v' & E & Hok' & Hm'); [done|lia|done|lia|ranges_weaken|].
    exists v'. split_and!; [done|done|]. intros x. by rewrite Hm', Hmk, !Hv. }
  { intros k Hno x Hx. apply Hmk in Hx as [[_ Hx]|[_ Hx]]; by apply Hno in Hx. }
  cbn [mbind result_bind with_modifications insertions moves].
  assert (below (npos - n) (ranges (insertions b))) as Hb.
  { apply below_of_has; [apply sorted_ok, Hins|]. intros y Hy%Hc. lia. }
  destruct (insert_at_spec (insertions b) index n) as (i & -> & Hoki & Hmi); [done|lia|done|lia|done|].
  cbn [mbind result_bind]. eexists; split; [done|].
  assert (ids cur' = ids l1 ++ new ++ ids l2) as Eids by (unfold cur', ids at 1; rewrite !fmap_app; fold (ids (fresh <$> new)); by rewrite ids_fresh).
  assert (ids (l1 ++ l2) = ids l1 ++ ids l2) as Eids0 by apply fmap_app.
  assert (Z.of_nat (length (ids l1)) = index) as Hl' by (by rewrite length_ids).
  split; cbn [with_moves with_insertions with_modifications deletions insertions moves columns modifications m_track_columns]; try done.
  - intros x Hx. unfold cur'. rewrite !length_app, Elen. rewrite length_app in *.
    apply Hmi in Hx as [?|[[? Hx]|[? Hx]]]; [lia|apply Hc in Hx; lia|apply Hc in Hx; lia].
  - unfold cur'. rewrite !length_app, Elen. rewrite length_app in *. lia.
  - rewrite Hkept, Eids, Eids0. symmetry. apply keep_insert. rewrite Hl'. exact Hmi.
  - apply Forall_fmap. eapply Forall_impl; [exact Hmv|]. intros mv [Hf Hto (a & Ha & Hb')].
    rewrite Eids0 in Hb'.
    assert (index <= move_to mv \/ move_to mv < index) as [Hle|Hlt] by lia.
    + simpl. rewrite (proj2 (Z.leb_le _ _) Hle). pose proof (nth_lt _ _ _ Hb') as Hlt.
      rewrite length_app, !length_ids in Hlt. rewrite length_app in *. rewrite u64_small by (unfold npos in *; lia).
      split; cbn [move_from move_to with_moves with_insertions with_modifications deletions insertions];
        [done| |exists a; split; [done|]].
      * apply Hmi. right. right. split; [lia|]. by replace (move_to mv + n - n) with (move_to mv) by lia.
      * rewrite Eids, nth_insert. rewrite Hl'. fold n. rewrite !decide_False by lia.
        by replace (move_to mv + n - n) with (move_to mv) by lia.
    + simpl. rewrite (proj2 (Z.leb_gt _ _) Hlt).
      split; cbn [move_from move_to with_moves with_insertions with_modifications deletions insertions];
        [done| |exists a; split; [done|]].
      * apply Hmi. right. left. done.
      * rewrite Eids, nth_insert. rewrite Hl'. by rewrite decide_True by lia.
  - apply NoDup_moves; [done|]. intros mv mv' H1 H2. rewrite Forall_forall in Hmv.
    destruct (Hmv _ H1) as [_ Ht1%Hc _], (Hmv _ H2) as [_ Ht2%Hc _].
    destruct (Z.leb_spec index (move_to mv)), (Z.leb_spec index (move_to mv')); cbn [move_to];
      rewrite ?u64_small by (unfold npos in *; lia); lia.
  - apply same_sources; [|done]. intros mv. by destruct (index <=? move_to mv).
Qed.

(** ** Removal *)

(** The old index of an element that was not inserted: [shift] of its rank. *)
Lemma rank_mono r x y : sorted r -> 0 <= x <= y -> rank r x <= rank r y.
Proof.
  intros Hs [Hx Hxy]. revert y Hxy. apply Zlt_lower_bound_ind. intros y IH Hxy.
  destruct (decide (x = y)) as [->|]; [lia|]. specialize (IH (y - 1) ltac:(lia)).
  pose proof (rank_next (y - 1) r Hs ltac:(lia)) as E. replace (y - 1 + 1) with y in E by lia.
  case_decide; lia.
Qed.

Lemma rank_total r n : sorted r -> below n r -> rank r n = n - width r.
Proof. intros Hs Hb. unfold rank. rewrite count_in_all; [done|by apply sorted_ok|by apply sorted_from_0, sorted_ok|done]. Qed.

Lemma old_index (v : IndexSet) (l : list A) u :
  index_set_ok v -> below (Z.of_nat (length l)) (ranges v) -> Z.of_nat (length l) <= npos ->
  0 <= u < Z.of_nat (length (keep (ranges v) 0 l)) ->
  exists v' j, add_shifted v u = Ok (v', j) /\ index_set_ok v' /\ j = shift v u /\
    (forall x, mem v' x <-> x = j \/ mem v x) /\ ~ mem v j /\ 0 <= j < Z.of_nat (length l) /\
    rank (ranges v) j = u /\ keep (ranges v') 0 l = delete (Z.to_nat u) (keep (ranges v) 0 l).
Proof.
  intros Hok Hb Hl Hu. pose proof (is_sorted _ Hok) as Hs. pose proof (sorted_ok _ Hs) as Ho.
  pose proof (width_nonneg _ Ho). rewrite length_keep, rank_total in Hu by done.
  destruct (add_shifted_spec v u Hok) as (v' & E & Hok' & Hm); [lia|lia|].
  destruct (shift_loop_spec (ranges v) u Hs (sorted_from_0 _ Ho)) as (Hn & Ej & Hj);
    [lia|unfold npos in *; lia|]. fold (shift v u) in *. set (j := shift v u) in *.
  assert (rank (ranges v) j = u) as Hr by (unfold rank; lia).
  assert (j < Z.of_nat (length l)) as Hjl.
  { destruct (Z.lt_ge_cases j (Z.of_nat (length l))); [done|exfalso].
    pose proof (rank_mono (ranges v) (Z.of_nat (length l)) j Hs ltac:(lia)) as Hmono.
    rewrite rank_total in Hmono by done. lia. }
  exists v', j. split_and!; try done; [lia|].
  rewrite (keep_more (ranges v) (ranges v') l j) by (done || lia). by rewrite Hr.
Qed.

(** An element of the current collection that was not inserted, in the old one. *)
Lemma deleted_element b old cur index :
  describes b old cur -> 0 <= index < Z.of_nat (length cur) -> ~ mem (insertions b) index ->
  exists d j, add_shifted (deletions b) (rank (ranges (insertions b)) index) = Ok (d, j) /\
    j = shift (deletions b) (rank (ranges (insertions b)) index) /\
    index_set_ok d /\ (forall x, mem d x <-> x = j \/ mem (deletions b) x) /\ ~ mem (deletions b) j /\
    0 <= j < Z.of_nat (length old) /\ nth_Z old j = nth_Z (ids cur) index /\
    keep (ranges d) 0 old =
      delete (Z.to_nat (rank (ranges (insertions b)) index)) (keep (ranges (insertions b)) 0 (ids cur)).
Proof.
  intros Hd Hi Hn. pose proof (is_sorted _ (ds_insertions _ _ _ Hd)) as Hs.
  assert (Z.of_nat (length (ids cur)) = Z.of_nat (length cur)) as El by (by rewrite length_ids).
  set (u := rank (ranges (insertions b)) index).
  assert (0 <= u < Z.of_nat (length (keep (ranges (insertions b)) 0 (ids cur)))) as Hu.
  { split; [apply rank_nonneg; [done|lia]|]. rewrite length_keep by done. rewrite El.
    pose proof (rank_mono (ranges (insertions b)) (index + 1) (Z.of_nat (length cur)) Hs ltac:(lia)) as Hmono.
    rewrite rank_next, decide_False in Hmono by (done || lia). unfold u. lia. }
  rewrite <- (ds_kept _ _ _ Hd) in Hu |- *.
  destruct (old_index (deletions b) old u (ds_deletions _ _ _ Hd) (deletions_below _ _ _ Hd)
    (ds_old_size _ _ _ Hd) Hu) as (d & j & E & Hok & Ej & Hm & Hnj & Hj & Hr & Hk).
  exists d, j. split_and!; try (done || lia).
  unfold nth_Z. rewrite !decide_True by lia.
  rewrite <- (keep_lookup (ranges (deletions b)) old j) by (done || apply Hd).
  rewrite Hr, (ds_kept _ _ _ Hd). apply keep_lookup; [done|lia|done].
Qed.

(** The moves after a removal: those to other elements. *)
Lemma erase_moves_spec index (l : list Move) m' :
  m' ∈ erase_moves index l <->
  exists m, m ∈ l /\ move_from m' = move_from m /\
    ((move_to m < index /\ move_to m' = move_to m) \/ (index < move_to m /\ move_to m' = move_to m - 1)).
Proof.
  unfold erase_moves. rewrite list_elem_of_omap. split.
  - intros (m & Hm & E). exists m. split; [done|].
    destruct (Z.eqb_spec (move_to m) index); [done|].
    destruct (Z.ltb_spec index (move_to m)); injection E as <-; simpl; lia.
  - intros ([f t] & Hm & E & Ht). exists (MkMove f t). split; [done|]. destruct m' as [f' t'].
    cbn [move_from move_to] in *. subst f'.
    destruct (Z.eqb_spec t index); [lia|]. destruct (Z.ltb_spec index t); do 2 f_equal; lia.
Qed.

Lemma erase_moves_distinct index (l : list Move) :
  NoDup (move_to <$> l) -> NoDup (move_to <$> erase_moves index l).
Proof.
  induction l as [|m l IH]; intros Hn; [apply NoDup_nil_2|]. rewrite fmap_cons in Hn.
  apply NoDup_cons in Hn as [Hm Hn]. specialize (IH Hn).
  assert (forall m', (move_to m < index /\ move_to m' = move_to m) \/
      (index < move_to m /\ move_to m' = move_to m - 1) ->
    NoDup (move_to <$> m' :: erase_moves index l)) as Hcons.
  { intros m' Hm'. rewrite fmap_cons. apply NoDup_cons. split; [|done]. intros Hin.
    apply list_elem_of_fmap in Hin as (m2 & E2 & Hin).
    apply erase_moves_spec in Hin as (m3 & Hin & _ & Ht).
    apply Hm, list_elem_of_fmap. exists m3. split; [lia|done]. }
  unfold erase_moves in *. cbn [omap list_omap].
  destruct (Z.eqb_spec (move_to m) index); [done|].
  destruct (Z.ltb_spec index (move_to m)); apply Hcons; simpl; lia.
Qed.

Lemma erase_moves_sources index (l : list Move) :
  NoDup (move_from <$> l) -> NoDup (move_from <$> erase_moves index l).
Proof.
  induction l as [|m l IH]; intros Hn; [apply NoDup_nil_2|]. rewrite fmap_cons in Hn.
  apply NoDup_cons in Hn as [Hm Hn]. specialize (IH Hn).
  assert (move_from m ∉ move_from <$> erase_moves index l) as Hm'.
  { intros Hin. apply list_elem_of_fmap in Hin as (m2 & E2 & Hin).
    apply erase_moves_spec in Hin as (m3 & Hin & Ef & _).
    apply Hm, list_elem_of_fmap. exists m3. split; [congruence|done]. }
  unfold erase_moves in *. cbn [omap list_omap].
  destruct (move_to m =? index); [done|]. by destruct (index <? move_to m); rewrite fmap_cons; apply NoDup_cons.
Qed.

Lemma erase_step b old cur index :
  describes b old cur -> valid_change (CErase index : change A) (Z.of_nat (length cur)) ->
  exists b', erase index b = Ok b' /\ describes b' old (apply_change (CErase index) cur).
Proof.
  intros Hd Hi. cbn [valid_change] in Hi. cbn [apply_change].
  destruct (nth_is_Some cur index Hi) as [it Hit].
  destruct (split_at_Z _ _ _ Hit) as (l1 & l2 & -> & Hl). rewrite delete_split by done.
  assert (Z.of_nat (length (l1 ++ it :: l2)) = Z.of_nat (length (l1 ++ l2)) + 1) as Hlen
    by (rewrite !length_app; cbn [length]; lia).
  assert (ids (l1 ++ l2) = ids l1 ++ ids l2 /\ ids (l1 ++ it :: l2) = ids l1 ++ it_id it :: ids l2) as [E1 E2]
    by (by unfold ids; rewrite !fmap_app).
  assert (Z.of_nat (length (ids l1)) = index) as Hl' by (by rewrite length_ids).
  pose proof (deleted_element b old _ index Hd Hi) as Hdel.
  destruct Hd as [Hd Hins Hk Ho Hc Hos Hcs Hkept Hm Hmv Hdist Hsrc Ht].
  assert (forall k x, marked_at (l1 ++ l2) k x <-> (x < index /\ marked_at (l1 ++ it :: l2) k x) \/
    (index <= x /\ marked_at (l1 ++ it :: l2) k (x + 1))) as Hmk
    by (intros; rewrite (marked_remove l1 it), Hl; done).
  unfold erase. destruct (for_each_col_spec (fun col => erase_at col index) b (l1 ++ it :: l2) (l1 ++ l2)) as
    (m & c & -> & Hk' & Hm'); [done|done|done| | |].
  { intros v k Hok Hv. destruct (erase_at_spec v index Hok) as (v' & E & Hok' & Hm'); [lia|].
    exists v'. split_and!; [done|done|]. intros x. by rewrite Hm', Hmk, !Hv. }
  { intros k Hno x Hx. apply Hmk in Hx as [[_ Hx]|[_ Hx]]; by apply Hno in Hx. }
  cbn [mbind result_bind with_modifications insertions deletions moves].
  destruct (erase_or_unshift_spec (insertions b) index Hins) as (i & -> & Hoki & Hmi); [lia|].
  cbn [mbind result_bind]. fold (rank (ranges (insertions b)) index).
  pose proof (is_sorted _ Hins) as Hs. pose proof (rank_nonneg (ranges (insertions b)) index Hs ltac:(lia)) as Hr0.
  assert (rank (ranges (insertions b)) index <= index) as Hr1
    by (unfold rank; pose proof (count_in_nonneg 0 index (ranges (insertions b))); lia).
  assert (exists d, (if (if decide (mem (insertions b) index) then npos else rank (ranges (insertions b)) index) =? npos
     then Ok (deletions b)
     else '(d, _) ← add_shifted (deletions b) (if decide (mem (insertions b) index) then npos
                                              else rank (ranges (insertions b)) index); Ok d) = Ok d /\
    index_set_ok d /\ (forall x, mem d x -> x < Z.of_nat (length old)) /\
    (forall x, mem (deletions b) x -> mem d x) /\
    keep (ranges d) 0 old = keep (ranges i) 0 (ids (l1 ++ l2))) as (d & -> & Hokd & Hdl & Hdm & Hdk).
  { rewrite E1, (keep_remove (ranges (insertions b)) (ranges i) (ids l1) (it_id it)) by (done || by rewrite Hl').
    rewrite Hl', <- E2. destruct (decide (mem (insertions b) index)) as [Hin|Hin].
    - rewrite Z.eqb_refl. exists (deletions b). by split_and!.
    - destruct (Z.eqb_spec (rank (ranges (insertions b)) index) npos); [lia|].
      destruct (Hdel Hin) as (d & j & -> & _ & Hok & Hmd & _ & Hj & _ & Hkd). exists d.
      split_and!; try done; [|intros x Hx; apply Hmd; by right].
      intros x [->|Hx]%Hmd; [lia|by apply Ho]. }
  cbn [mbind result_bind]. eexists; split; [done|].
  split; cbn [with_moves with_deletions with_insertions with_modifications deletions insertions moves columns
    modifications m_track_columns]; try done.
  - intros x [[? Hx]|[? Hx]]%Hmi; apply Hc in Hx; lia.
  - lia.
  - apply Forall_forall. intros m' (mv & Hmvin & Ef & Hto)%erase_moves_spec.
    rewrite Forall_forall in Hmv. destruct (Hmv _ Hmvin) as [Hf Hmt (a & Ha & Hb)].
    split; cbn [with_moves with_deletions with_insertions with_modifications deletions insertions].
    + rewrite Ef. by apply Hdm.
    + apply Hmi. destruct Hto as [[? ->]|[? ->]]; [by left|right; split; [lia|]].
      by replace (move_to mv - 1 + 1) with (move_to mv) by lia.
    + exists a. rewrite Ef. split; [done|]. rewrite E1, (nth_remove (ids l1) (it_id it)), Hl', <- E2.
      destruct Hto as [[? ->]|[? ->]]; [by rewrite decide_True by lia|rewrite decide_False by lia].
      by replace (move_to mv - 1 + 1) with (move_to mv) by lia.
  - by apply erase_moves_distinct.
  - by apply erase_moves_sources.
Qed.

(** ** Clearing *)

Lemma fold_add_width n l :
  foldl (fun n r => u64 (n + u64 (snd r - fst r))) (u64 n) l = u64 (n + width l).
Proof.
  revert n. induction l as [|r l IH]; intros n; cbn [foldl]; [simpl; by rewrite Z.add_0_r|].
  rewrite u64_add_l, u64_add_r, IH, width_cons. f_equal. lia.
Qed.

Lemma fold_sub_width n l :
  foldl (fun n r => u64 (n - u64 (snd r - fst r))) (u64 n) l = u64 (n - width l).
Proof.
  revert n. induction l as [|r l IH]; intros n; cbn [foldl]; [simpl; by rewrite Z.sub_0_r|].
  rewrite u64_sub_l, u64_sub_r, IH, width_cons. f_equal. lia.
Qed.

(** The sizes of the two collections, less what was deleted and inserted. *)
Lemma describes_sizes b old cur :
  describes b old cur ->
  Z.of_nat (length old) - width (ranges (deletions b)) =
  Z.of_nat (length cur) - width (ranges (insertions b)).
Proof.
  intros Hd. pose proof (ds_kept _ _ _ Hd) as E.
  apply (f_equal (fun l => Z.of_nat (length l))) in E.
  rewrite !length_keep, length_ids in E by apply Hd.
  rewrite !rank_total in E; [done|apply Hd|by eapply insertions_below|apply Hd|by eapply deletions_below].
Qed.

Lemma clear_step b old cur :
  describes b old cur ->
  exists b', clear (Z.of_nat (length cur)) b = Ok b' /\ describes b' old (apply_change CClear cur).
Proof.
  intros Hd. pose proof (describes_sizes _ _ _ Hd) as Hsz. unfold clear.
  destruct Hd as [Hd Hins Hk Ho Hc Hos Hcs Hkept Hm Hmv Hdist Hsrc Ht].
  rewrite <- (u64_small (Z.of_nat (length cur))), fold_add_width, fold_sub_width by (unfold npos in *; lia).
  replace (Z.of_nat (length cur) + width (ranges (deletions b)) - width (ranges (insertions b)))
    with (Z.of_nat (length old)) by lia.
  rewrite u64_small by (unfold npos in *; lia).
  destruct (set_spec (deletions b) (Z.of_nat (length old))) as (d & -> & Hokd & Hmd); [lia|].
  cbn [mbind result_bind apply_change]. eexists; split; [done|].
  split; cbn [deletions insertions moves columns modifications m_track_columns]; try done.
  - apply empty_ok.
  - intros [c|]; simpl; [rewrite column_empty|]; apply empty_ok.
  - intros x Hx%Hmd. lia.
  - intros x ?%has_empty. done.
  - cbn. by rewrite keep_none by (intros x Hx; apply Hmd; lia).
  - intros k x. assert (marked (Builder d [] [] (modifications_new b) [] ∅ (m_track_columns b)) k = []) as ->
      by (destruct k; [apply column_empty|done]).
    rewrite has_empty. split; [done|]. intros (it & Hit & _). by rewrite nth_nil in Hit.
  - apply NoDup_nil_2.
  - apply NoDup_nil_2.
Qed.

(** ** Moving *)

(** The set of indices after the element at one index moved to another. *)
Definition moved_set (from to : Z) (P : Z -> Prop) (there : Prop) (x : Z) : Prop :=
  let E x := (x < from /\ P x) \/ (from <= x /\ P (x + 1)) in
  (to <= x < to + 1 /\ there) \/ (x < to /\ E x) \/ (to + 1 <= x /\ E (x - 1)).

(** Where the move takes another destination. *)
Definition moved_index (from to t : Z) : Z :=
  if (to <=? t) && (t <? from) then t + 1 else if (t <=? to) && (from <? t) then t - 1 else t.

Lemma moved_index_set from to (P : Z -> Prop) there t :
  t <> from -> from <> to -> P t -> moved_set from to P there (moved_index from to t).
Proof.
  intros Hne Hft HP. unfold moved_set.
  assert ((t < from /\ t < to /\ moved_index from to t = t) \/
    (to <= t < from /\ moved_index from to t = t + 1) \/
    (from < t <= to /\ moved_index from to t = t - 1) \/
    (from < t /\ to < t /\ moved_index from to t = t)) as [(? & ? & ->)|[[? ->]|[[? ->]|(? & ? & ->)]]]
    by (unfold moved_index; repeat case_Z_compare; cbn [andb]; lia); right.
  - left. split; [lia|]. left. split; [lia|done].
  - right. split; [lia|]. left. split; [lia|]. by replace (t + 1 - 1) with t by lia.
  - left. split; [lia|]. right. split; [lia|]. by replace (t - 1 + 1) with t by lia.
  - right. split; [lia|]. right. split; [lia|]. by replace (t - 1 + 1) with t by lia.
Qed.

Lemma moved_index_inj from to t t' :
  t <> from -> t' <> from -> from <> to -> moved_index from to t = moved_index from to t' -> t = t'.
Proof. intros ? ? ?. unfold moved_index. repeat case_Z_compare; cbn [andb]; lia. Qed.

Lemma moved_index_ne from to t : t <> from -> from <> to -> moved_index from to t <> to.
Proof. intros ? ?. unfold moved_index. repeat case_Z_compare; cbn [andb]; lia. Qed.

(** The collection after the move: its elements and their marks. *)
Lemma nth_moved (l : list A) from to a x :
  nth_Z l from = Some a -> 0 <= to < Z.of_nat (length l) -> from <> to ->
  nth_Z (insert_items to [a] (delete (Z.to_nat from) l)) to = Some a /\
  (x <> from -> 0 <= x < Z.of_nat (length l) ->
   nth_Z (insert_items to [a] (delete (Z.to_nat from) l)) (moved_index from to x) = nth_Z l x).
Proof.
  intros Ha Hto Hne. destruct (split_at_Z _ _ _ Ha) as (l1 & l2 & -> & Hl). rewrite delete_split by done.
  assert (Z.of_nat (length (l1 ++ a :: l2)) = Z.of_nat (length (l1 ++ l2)) + 1) as Hlen
    by (rewrite !length_app; cbn [length]; lia).
  destruct (split_before (l1 ++ l2) to) as (m1 & m2 & Em & Hm); [lia|].
  rewrite Em, insert_items_split by done. split; [by apply nth_split|]. intros Hx Hxl.
  rewrite nth_insert, <- Em, Hm. cbn [length]. pose proof (moved_index_ne from to x Hx Hne) as Hnt.
  rewrite !(nth_remove l1 a l2), Hl. unfold moved_index in *. revert Hnt.
  repeat case_Z_compare; cbn [andb]; intros ?; repeat (case_decide; try lia); f_equal; lia.
Qed.

(** The collection after a move. *)
Definition moved_list {B} (from to : Z) (a : B) (l : list B) : list B :=
  insert_items to [a] (delete (Z.to_nat from) l).

Lemma length_moved {B} from to (a a' : B) l :
  nth_Z l from = Some a' -> length (moved_list from to a l) = length l.
Proof.
  intros Ha. destruct (split_at_Z _ _ _ Ha) as (l1 & l2 & -> & Hl). unfold moved_list.
  rewrite delete_split, length_insert_items, !length_app by done. cbn [length]. lia.
Qed.

Lemma ids_moved from to it cur : ids (moved_list from to it cur) = moved_list from to (it_id it) (ids cur).
Proof. unfold moved_list. rewrite ids_insert. unfold ids. by rewrite list_fmap_delete. Qed.

Lemma marked_moved cur from to it k x :
  nth_Z cur from = Some it -> 0 <= to < Z.of_nat (length cur) ->
  marked_at (moved_list from to it cur) k x <->
  moved_set from to (marked_at cur k) (marked_at cur k from) x.
Proof.
  intros Hit Hto. destruct (split_at_Z _ _ _ Hit) as (l1 & l2 & -> & Hl). unfold moved_list.
  rewrite delete_split by done. rewrite length_app in Hto. cbn [length] in Hto.
  destruct (split_before (l1 ++ l2) to) as (m1 & m2 & Em & Hm); [rewrite length_app; lia|].
  rewrite Em, insert_items_split by done. rewrite marked_insert, <- Em, Hm. cbn [length].
  unfold moved_set. rewrite !(marked_remove l1 it l2), Hl.
  assert (marked_at (l1 ++ it :: l2) k from <-> k ∈ it_marks it) as Hfrom.
  { unfold marked_at. rewrite Hit. split; [by intros (? & [= <-] & ?)|by exists it]. }
  assert (to <= x < to + 1 -> (marked_at [it] k (x - to) <-> k ∈ it_marks it)) as Hsingle.
  { intros Hx. replace (x - to) with 0 by lia. unfold marked_at. rewrite nth_cons, decide_True by done.
    split; [by intros (? & [= <-] & ?)|by exists it]. }
  rewrite Hfrom. change (Z.of_nat 1) with 1.
  split; (intros [[Hx Hk]|?]; [left; split; [done|by apply Hsingle]|right; tauto]).
Qed.

(** A set with an index taken out and another put in. *)
Lemma reinsert_spec (v v1 : IndexSet) (n from to : Z) :
  index_set_ok v1 -> (forall x, mem v x -> x < n) -> n <= npos -> 0 <= from < n -> 0 <= to < n ->
  (forall x, mem v1 x <-> (x < from /\ mem v x) \/ (from <= x /\ mem v (x + 1))) ->
  exists v2, insert_at v1 to 1 = Ok v2 /\ index_set_ok v2 /\
    (forall x, mem v2 x <-> moved_set from to (fun y => mem v y) True x) /\
    (forall x, mem v2 x -> x < n) /\
    exists v3, shift_for_insert_at v1 to 1 = Ok v3 /\ index_set_ok v3 /\
      (forall x, mem v3 x <-> moved_set from to (fun y => mem v y) False x).
Proof.
  intros Hok Hv Hn Hf Ht Hm1.
  assert (below (npos - 1) (ranges v1)) as Hb.
  { apply below_of_has; [apply sorted_ok, Hok|]. intros y [[? Hy]|[? Hy]]%Hm1; apply Hv in Hy; lia. }
  destruct (insert_at_spec v1 to 1 Hok) as (v2 & E2 & Hok2 & Hm2); [lia|lia|lia|done|].
  destruct (shift_for_insert_at_spec v1 to 1 Hok) as (v3 & E3 & Hok3 & Hm3); [lia|lia|lia|done|].
  exists v2. split_and!; [done|done| | |].
  - intros x. rewrite Hm2. unfold moved_set. rewrite !Hm1. tauto.
  - intros x Hx. rewrite Hm2, !Hm1 in Hx.
    destruct Hx as [?|[[? [[? Hx]|[? Hx]]]|[? [[? Hx]|[? Hx]]]]]; try (apply Hv in Hx); lia.
  - exists v3. split_and!; [done|done|]. intros x. rewrite Hm3. unfold moved_set. rewrite !Hm1. tauto.
Qed.

Lemma move_column_spec v k cur from to it :
  index_set_ok v -> (forall x, mem v x <-> marked_at cur k x) ->
  Z.of_nat (length cur) <= npos -> nth_Z cur from = Some it -> 0 <= to < Z.of_nat (length cur) ->
  exists v', move_column from to v = Ok v' /\ index_set_ok v' /\
    (forall x, mem v' x <-> marked_at (moved_list from to it cur) k x).
Proof.
  intros Hok Hv Hn Hit Hto. pose proof (nth_lt _ _ _ Hit) as Hf. unfold move_column.
  destruct (contains_spec v from Hok) as (bt & -> & Hbt). cbn [mbind result_bind].
  destruct (erase_at_spec v from Hok) as (v1 & -> & Hok1 & Hm1); [lia|]. cbn [mbind result_bind].
  destruct (reinsert_spec v v1 (Z.of_nat (length cur)) from to) as
    (v2 & E2 & Hok2 & Hm2 & _ & v3 & E3 & Hok3 & Hm3); try done.
  { intros x Hx. apply Hv in Hx. by apply marked_at_lt in Hx as [_ ?]. }
  assert (forall P Q : Prop, (P <-> Q) -> forall x, moved_set from to (fun y => mem v y) P x <->
    moved_set from to (marked_at cur k) Q x) as Hset
    by (intros P Q HPQ x; unfold moved_set; by rewrite !Hv, HPQ).
  assert (bt = true <-> marked_at cur k from) as Hbk by (by rewrite Hbt).
  destruct bt.
  - exists v2. split_and!; [done|done|]. intros x. rewrite Hm2, (marked_moved cur from to it) by done.
    apply Hset. tauto.
  - exists v3. split_and!; [done|done|]. intros x. rewrite Hm3, (marked_moved cur from to it) by done.
    apply Hset. split; [done|]. intros Hk%Hbk. done.
Qed.

(** ** The loop over the moves *)

Definition redirect (from to : Z) (m : Move) : Move := MkMove (move_from m) (moved_index from to (move_to m)).

Lemma move_existing_none from to l updated i :
  (forall m, m ∈ l -> move_to m <> from) ->
  move_existing from to l updated i = Ok (redirect from to <$> l, updated, i).
Proof.
  induction l as [|m l IH]; intros Hl; [done|]. cbn [move_existing].
  destruct (Z.eqb_spec (move_to m) from) as [E|_]; [by apply (Hl m) in E; [|left]|].
  rewrite IH by (intros m' Hm'; apply Hl; by right). done.
Qed.

Lemma move_existing_some from to l1 m l2 i i1 i2 :
  NoDup (move_to <$> l1 ++ m :: l2) -> move_to m = from ->
  erase_at i from = Ok i1 -> insert_at i1 to 1 = Ok i2 ->
  move_existing from to (l1 ++ m :: l2) false i =
    Ok ((redirect from to <$> l1) ++ MkMove (move_from m) to :: (redirect from to <$> l2), true, i2).
Proof.
  intros Hn Hm E1 E2. induction l1 as [|m1 l1 IH]; cbn [app] in *; rewrite fmap_cons in Hn;
    apply NoDup_cons in Hn as [Hnin Hn]; cbn [move_existing].
  - rewrite Hm, Z.eqb_refl. cbn [negb realm_assert mbind result_bind]. rewrite E1. cbn [mbind result_bind].
    rewrite E2. cbn [mbind result_bind]. rewrite move_existing_none; [done|].
    intros m' Hm' E. apply Hnin, list_elem_of_fmap. exists m'. split; [congruence|done].
  - destruct (Z.eqb_spec (move_to m1) from) as [E|_].
    { exfalso. apply Hnin, list_elem_of_fmap. exists m. split; [congruence|].
      apply elem_of_app. right. by left. }
    rewrite IH by done. done.
Qed.

Lemma keep_moved {B} (r r1 r2 : list (Z * Z)) from to (a : B) l :
  sorted r -> nth_Z l from = Some a -> 0 <= to < Z.of_nat (length l) ->
  (forall x, has r1 x <-> (x < from /\ has r x) \/ (from <= x /\ has r (x + 1))) ->
  (forall x, has r2 x <-> moved_set from to (has r) True x) ->
  keep r2 0 (moved_list from to a l) =
    if decide (has r from) then keep r 0 l else delete (Z.to_nat (rank r from)) (keep r 0 l).
Proof.
  intros Hs Ha Hto Hm1 Hm2. destruct (split_at_Z _ _ _ Ha) as (l1 & l2 & -> & Hl). unfold moved_list.
  rewrite delete_split by done. rewrite length_app in Hto. cbn [length] in Hto.
  destruct (split_before (l1 ++ l2) to) as (m1 & m2 & Em & Hm); [rewrite length_app; lia|].
  rewrite Em, insert_items_split by done.
  rewrite (keep_insert r1 r2 m1 [a] m2); cbn [length].
  - rewrite <- Em, (keep_remove r r1 l1 a l2), Hl; [done|done|]. rewrite Hl. exact Hm1.
  - intros x. rewrite Hm, Hm2. unfold moved_set. rewrite !Hm1. change (Z.of_nat 1) with 1. tauto.
Qed.

(** The relation after a move, given the sets and the moves. *)
Lemma describes_moved b old cur from to it d i i1 mvs :
  describes b old cur -> nth_Z cur from = Some it -> 0 <= to < Z.of_nat (length cur) -> from <> to ->
  index_set_ok d -> index_set_ok i ->
  (forall x, mem d x -> x < Z.of_nat (length old)) ->
  (forall x, mem i x -> x < Z.of_nat (length cur)) ->
  (forall x, has i1 x <->
     (x < from /\ mem (insertions b) x) \/ (from <= x /\ mem (insertions b) (x + 1))) ->
  (forall x, mem i x <-> moved_set from to (fun y => mem (insertions b) y) True x) ->
  keep (ranges d) 0 old =
    (if decide (mem (insertions b) from) then keep (ranges (insertions b)) 0 (ids cur)
     else delete (Z.to_nat (rank (ranges (insertions b)) from)) (keep (ranges (insertions b)) 0 (ids cur))) ->
  Forall (move_ok (with_moves mvs (with_deletions d (with_insertions i b))) old (moved_list from to it cur)) mvs ->
  NoDup (move_to <$> mvs) -> NoDup (move_from <$> mvs) ->
  exists b', for_each_col (move_column from to) (with_moves mvs (with_deletions d (with_insertions i b))) = Ok b' /\
    describes b' old (moved_list from to it cur).
Proof.
  intros Hds Hit Hto Hne Hokd Hoki Hdl Hil Hm1 Hmi Hk Hmv Hn Hnf.
  destruct Hds as [Hd Hins Hmk Ho Hc Hos Hcs Hkept Hm Hmvb Hdist Hsrc Ht].
  set (b1 := with_moves mvs (with_deletions d (with_insertions i b))) in *.
  assert (forall k, marked b1 k = marked b k) as Emk by (by intros [c|]).
  destruct (for_each_col_spec (move_column from to) b1 cur (moved_list from to it cur)) as
    (m & c & -> & Hk' & Hm'); [done|intros k; rewrite Emk; apply Hmk|intros k x; rewrite Emk; apply Hm| | |].
  { intros v k Hok Hv. by apply (move_column_spec v k). }
  { intros k Hno x Hx. apply (marked_moved cur from to it) in Hx; [|done|done].
    destruct Hx as [[_ Hx]|[[_ [[_ Hx]|[_ Hx]]]|[_ [[_ Hx]|[_ Hx]]]]]; by apply Hno in Hx. }
  eexists; split; [done|].
  split; cbn [b1 with_moves with_deletions with_insertions with_modifications deletions insertions moves m_track_columns];
    rewrite ?(length_moved from to it it cur) by done; try done.
  - rewrite Hk, ids_moved. symmetry.
    apply (keep_moved _ i1); [apply Hins|by rewrite ids_lookup, Hit|by rewrite length_ids|done|done].
  - eapply Forall_impl; [exact Hmv|]. by intros mv [? ? ?].
Qed.

(** A move other than that of the element itself. *)
Lemma redirected_ok b old cur from to it d i mvs m :
  move_ok b old cur m -> move_to m <> from -> nth_Z cur from = Some it ->
  0 <= to < Z.of_nat (length cur) -> from <> to ->
  (forall x, mem (deletions b) x -> mem d x) ->
  (forall x, mem i x <-> moved_set from to (fun y => mem (insertions b) y) True x) ->
  move_ok (with_moves mvs (with_deletions d (with_insertions i b))) old (moved_list from to it cur)
    (redirect from to m).
Proof.
  intros [Hf Ht (a & Ha & Hb)] Hne Hit Hto Hft Hd Hi.
  split; cbn [with_moves with_deletions with_insertions deletions insertions redirect move_from move_to].
  - by apply Hd.
  - apply Hi. by apply moved_index_set.
  - exists a. split; [done|]. rewrite ids_moved. unfold moved_list.
    assert (nth_Z (ids cur) from = Some (it_id it)) as Hit' by (by rewrite ids_lookup, Hit).
    destruct (nth_moved (ids cur) from to (it_id it) (move_to m) Hit') as [_ E]; [by rewrite length_ids|done|].
    cbn [redirect move_to]. rewrite E; [done|done|by eapply nth_lt].
Qed.

(** The move of the element itself. *)
Lemma direct_ok b old cur from to it d i mvs f :
  nth_Z cur from = Some it -> 0 <= to < Z.of_nat (length cur) -> from <> to ->
  mem d f -> nth_Z old f = Some (it_id it) ->
  (forall x, mem i x <-> moved_set from to (fun y => mem (insertions b) y) True x) ->
  move_ok (with_moves mvs (with_deletions d (with_insertions i b))) old (moved_list from to it cur)
    (MkMove f to).
Proof.
  intros Hit Hto Hft Hd Hf Hi.
  split; cbn [with_moves with_deletions with_insertions deletions insertions move_from move_to].
  - done.
  - apply Hi. left. split; [lia|done].
  - exists (it_id it). split; [done|]. rewrite ids_moved. unfold moved_list.
    apply (nth_moved (ids cur) from to (it_id it) from); [by rewrite ids_lookup, Hit|by rewrite length_ids|done].
Qed.

Lemma redirect_distinct from to (l : list Move) :
  NoDup (move_to <$> l) -> (forall m, m ∈ l -> move_to m <> from) -> from <> to ->
  NoDup (move_to <$> (redirect from to <$> l)) /\ to ∉ move_to <$> (redirect from to <$> l).
Proof.
  intros Hn Hl Hft. split.
  - apply NoDup_moves; [done|]. intros m m' Hm Hm'. cbn [redirect move_to].
    by apply moved_index_inj; [apply Hl|apply Hl|].
  - intros Hin. apply list_elem_of_fmap in Hin as (m' & E & Hin).
    apply list_elem_of_fmap in Hin as (m & -> & Hin). cbn [redirect move_to] in E.
    by apply (moved_index_ne from to (move_to m)); [apply Hl|done|].
Qed.

(** Whether the element was moved before. *)
Lemma find_destination (l : list Move) from :
  (forall m, m ∈ l -> move_to m <> from) \/
  exists l1 m l2, l = l1 ++ m :: l2 /\ move_to m = from.
Proof.
  induction l as [|m l IH]; [left; by intros m ?%elem_of_nil|].
  destruct (decide (move_to m = from)) as [E|Hne]; [right; by exists [], m, l|].
  destruct IH as [IH|(l1 & m' & l2 & -> & E)].
  - left. by intros m' [->|?%IH]%elem_of_cons.
  - right. by exists (m :: l1), m', l2.
Qed.

Lemma move_step b old cur from to :
  describes b old cur -> valid_change (CMove from to : change A) (Z.of_nat (length cur)) ->
  exists b', move from to b = Ok b' /\ describes b' old (apply_change (CMove from to) cur).
Proof.
  intros Hds (Hf & Hto & Hft). destruct (nth_is_Some cur from Hf) as [it Hit].
  cbn [apply_change]. rewrite Hit. fold (moved_list from to it cur).
  pose proof (deleted_element b old cur from Hds Hf) as Hdel.
  pose proof (ds_insertions _ _ _ Hds) as Hins. pose proof (ds_cur_size _ _ _ Hds) as Hcs.
  pose proof (ds_moves _ _ _ Hds) as Hmv. rewrite Forall_forall in Hmv.
  pose proof (ds_distinct _ _ _ Hds) as Hdist. pose proof (ds_sources _ _ _ Hds) as Hsrc.
  unfold move. destruct (Z.eqb_spec from to); [done|]. cbn [negb realm_assert mbind result_bind].
  destruct (find_destination (moves b) from) as [Hnone|(l1 & m & l2 & El & Em)].
  - rewrite move_existing_none by done. cbn [mbind result_bind].
    destruct (redirect_distinct from to (moves b) Hdist Hnone Hft) as [Hrn Hrt].
    destruct (erase_or_unshift_spec (insertions b) from Hins) as (i1 & -> & Hok1 & Hm1); [lia|].
    fold (rank (ranges (insertions b)) from). cbn [mbind result_bind].
    destruct (reinsert_spec (insertions b) i1 _ from to Hok1 (ds_cur _ _ _ Hds) Hcs Hf Hto Hm1)
      as (i2 & -> & Hok2 & Hm2 & Hl2 & _). cbn [mbind result_bind].
    destruct (decide (mem (insertions b) from)) as [Hin|Hnin].
    + rewrite Z.eqb_refl.
      apply (describes_moved b old cur from to it (deletions b) i2 (ranges i1)); try done; try apply Hds.
      * rewrite decide_True by done. apply Hds.
      * apply Forall_fmap, Forall_forall. intros m Hm. apply redirected_ok; auto.
      * by apply same_sources.
    + pose proof (is_sorted _ Hins) as Hs. pose proof (rank_nonneg (ranges (insertions b)) from Hs ltac:(lia)) as Hr0.
      assert (rank (ranges (insertions b)) from <= from) as Hr1
        by (unfold rank; pose proof (count_in_nonneg 0 from (ranges (insertions b))); lia).
      destruct (Z.eqb_spec (rank (ranges (insertions b)) from) npos); [lia|].
      destruct (Hdel Hnin) as (d & j & -> & _ & Hokd & Hmd & Hnj & Hj & Hnth & Hkd). cbn [mbind result_bind].
      apply (describes_moved b old cur from to it d i2 (ranges i1)); try done.
      * intros x [->|Hx]%Hmd; [lia|by apply (ds_old _ _ _ Hds)].
      * rewrite decide_False by done. exact Hkd.
      * apply Forall_app; split; [|apply Forall_singleton].
        -- apply Forall_fmap, Forall_forall. intros m Hm.
           apply redirected_ok; auto. intros x Hx. apply Hmd. by right.
        -- apply direct_ok; try done; [apply Hmd; by left|]. by rewrite Hnth, ids_lookup, Hit.
      * rewrite fmap_app. apply NoDup_app. split_and!; [done| |apply NoDup_singleton].
        intros x Hx ->%list_elem_of_singleton. by apply Hrt.
      * rewrite fmap_app. apply NoDup_app. split_and!; [by apply same_sources| |apply NoDup_singleton].
        intros x Hx Hj'%list_elem_of_singleton. cbn [move_from] in Hj'. subst x. apply Hnj. rewrite <- list_fmap_compose in Hx.
        apply list_elem_of_fmap in Hx as (m & -> & Hm). by destruct (Hmv m Hm).
  - destruct (erase_at_spec (insertions b) from Hins) as (i1 & E1 & Hok1 & Hm1); [lia|].
    destruct (reinsert_spec (insertions b) i1 _ from to Hok1 (ds_cur _ _ _ Hds) Hcs Hf Hto Hm1)
      as (i2 & E2 & Hok2 & Hm2 & Hl2 & _).
    rewrite El in *. rewrite (move_existing_some from to l1 m l2 _ i1 i2) by done. cbn [mbind result_bind].
    destruct (Hmv m) as [Hmf Hmt (a & Ha & Hb)]; [apply elem_of_app; right; by left|]. rewrite Em in Hmt, Hb.
    rewrite ids_lookup, Hit in Hb. injection Hb as <-.
    assert (forall m', m' ∈ l1 ++ l2 -> move_to m' <> from) as Hothers.
    { rewrite fmap_app, fmap_cons in Hdist. apply NoDup_app in Hdist as (_ & Hdist & [Hn2 _]%NoDup_cons).
      intros m' [Hin|Hin]%elem_of_app E.
      - apply (Hdist (move_to m')); [by apply list_elem_of_fmap_2|]. rewrite E, <- Em. by left.
      - apply Hn2. rewrite Em, <- E. by apply list_elem_of_fmap_2. }
    assert (NoDup (move_to <$> (l1 ++ l2))) as Hdist2.
    { rewrite fmap_app, fmap_cons in Hdist. rewrite fmap_app. rewrite NoDup_app, NoDup_cons in Hdist.
      apply NoDup_app. destruct Hdist as (? & Hd & _ & ?). split_and!; [done| |done].
      intros x Hx Hx2. apply (Hd x Hx). by right. }
    destruct (redirect_distinct from to (l1 ++ l2) Hdist2 Hothers Hft) as [Hrn Hrt].
    apply (describes_moved b old cur from to it (deletions b) i2 (ranges i1)); try done; try apply Hds.
    + rewrite decide_True by done. apply Hds.
    + apply Forall_app; split; [|apply Forall_cons; split].
      1, 3: apply Forall_fmap, Forall_forall; intros m' Hm'; apply redirected_ok; auto.
      * apply Hmv. apply elem_of_app. by left.
      * apply Hothers. apply elem_of_app. by left.
      * apply Hmv. apply elem_of_app. right. by right.
      * apply Hothers. apply elem_of_app. by right.
      * by apply direct_ok.
    + rewrite !fmap_app in Hrn, Hrt. rewrite fmap_app, fmap_cons. cbn [move_to].
      apply not_elem_of_app in Hrt as [Hrt1 Hrt2]. apply NoDup_app in Hrn as (? & Hd & ?).
      apply NoDup_app. split_and!; [done| |by apply NoDup_cons].
      intros x Hx [->|Hx2]%elem_of_cons; [done|]. by apply (Hd x).
    + rewrite fmap_app, fmap_cons, <- !list_fmap_compose. by rewrite fmap_app, fmap_cons in Hsrc.
Qed.
End steps.
