(* ===== verification/ChangeReport.v ===== *)
(** What the observer of a collection is told: any sequence of changes, [finalize], and the
    replay of the reported deletions and insertions on the old collection, as the assertion
    [verify_changeset] of debug builds does it. *)

From S2P Require Import Prelude ChunkedRangeVector RangeList IndexSet IndexSetCount IndexLists IndexSetMerge.
From S2P Require Import IndexSetProps ChangeBuilder KeptElements Collection Tracking TrackedChanges.

(** ** Replaying a change *)

Section replay.
Context {A : Type}.

(** [rows.erase(rows.begin() + first, rows.begin() + second)], the last range first. *)
Definition erase_range (rows : list A) (r : Z * Z) : result (list A) :=
  if (fst r <=? snd r) && (snd r <=? Z.of_nat (length rows))
  then Ok (take (Z.to_nat (fst r)) rows ++ drop (Z.to_nat (snd r)) rows) else Err OutOfBounds.

(** [rows.insert(rows.begin() + i, next_rows[i])]. *)
Definition insert_row (next_rows rows : list A) (i : Z) : result (list A) :=
  match nth_Z next_rows i with
  | Some a => if i <=? Z.of_nat (length rows) then Ok (insert_items i [a] rows) else Err OutOfBounds
  | None => Err OutOfBounds
  end.

Definition replay (prev_rows next_rows : list A) (deletions insertions : IndexSet) : result (list A) :=
  rows ← fold_result erase_range prev_rows (reverse (ranges deletions));
  l ← as_indexes insertions;
  fold_result (insert_row next_rows) rows l.

Definition verify_changeset `{EqDecision A} (prev_rows next_rows : list A) (deletions insertions : IndexSet)
  : result bool :=
  rows ← replay prev_rows next_rows deletions insertions; Ok (bool_decide (rows = next_rows)).

Lemma erase_ranges_keep (r : list (Z * Z)) (l : list A) :
  sorted r -> below (Z.of_nat (length l)) r -> fold_result erase_range l (reverse r) = Ok (keep r 0 l).
Proof.
  revert l. induction r as [|[f s] r IH] using rev_ind; intros l Hs Hb.
  - cbn. by rewrite keep_all by (by intros x _ ?%has_nil).
  - rewrite reverse_snoc. cbn [fold_result]. ranges_in_hyps.
    assert (erase_range l (f, s) = Ok (take (Z.to_nat f) l ++ drop (Z.to_nat s) l)) as ->.
    { unfold erase_range. cbn [fst snd].
      by destruct (Z.leb_spec f s), (Z.leb_spec s (Z.of_nat (length l))); try lia. }
    cbn [mbind result_bind].
    destruct (split_before l s) as (l12 & l3 & -> & Hl12); [lia|].
    destruct (split_before l12 f) as (l1 & l2 & -> & Hl1); [lia|].
    assert (Z.to_nat s = length (l1 ++ l2) /\ Z.to_nat f = length l1) as [-> ->] by lia.
    rewrite drop_app_length, <- app_assoc, take_app_length. rewrite length_app in Hl12.
    rewrite IH; [|done|rewrite length_app; ranges_weaken]. f_equal.
    rewrite !keep_app, !Z.add_0_l. f_equal; [|rewrite (keep_none _ _ l2); [cbn [app]|]].
    + rewrite (keep_ext r (r ++ [(f, s)]) 0 0); [done|]. intros x Hx. rewrite Z.add_0_r, has_app, has_cons, has_nil.
      cbn [fst snd]. split; [by left|]. intros [?|[?|?]]; [done|lia|done].
    + rewrite !keep_all; [done| |]; intros x Hx; rewrite ?has_app, ?has_cons, ?has_nil; cbn [fst snd].
      * intros [Hr|[?|?]]; [|lia|done]. assert (below (f - 1) r) as Hbr by done.
        apply (has_below _ _ _ Hbr) in Hr. lia.
      * intros Hr. assert (below (f - 1) r) as Hbr by done. apply (has_below _ _ _ Hbr) in Hr. lia.
    + intros x Hx. rewrite has_app, has_cons. right. left. simpl. lia.
Qed.

(** The ranges of single indices. *)
Definition singles (l : list Z) : list (Z * Z) := (fun i => (i, i + 1)) <$> l.

Lemma has_singles l x : has (singles l) x <-> x ∈ l.
Proof.
  induction l as [|i l IH]; [by rewrite has_nil, elem_of_nil|].
  unfold singles in *. rewrite fmap_cons, has_cons, elem_of_cons, IH. simpl.
  split; (intros [?|?]; [left; lia|by right]).
Qed.

Lemma insert_rows_keep (next l : list A) (idx : list Z) :
  ascending 0 idx -> (forall i, i ∈ idx -> i < Z.of_nat (length next)) ->
  l = keep (singles idx) 0 next -> fold_result (insert_row next) l idx = Ok next.
Proof.
  revert l. induction idx as [|i idx IH]; intros l Ha Hl ->.
  - cbn. by rewrite keep_all by (by intros x _ ?%has_nil).
  - pose proof Ha as [Hi Ha']. assert (i < Z.of_nat (length next)) as Hil by (apply Hl; by left).
    destruct (nth_is_Some next i) as [a Hn]; [lia|]. destruct (split_at_Z _ _ _ Hn) as (l1 & l2 & E & Hl1).
    assert (forall l', (forall x, x ∈ l' -> i <= x) -> keep (singles l') 0 l1 = l1) as Hkeep.
    { intros l' Hl'. apply keep_all. intros x Hx Hh. apply has_singles, Hl' in Hh. lia. }
    assert (forall x, x ∈ idx -> i + 1 <= x) as His by (intros x Hx; by apply (ascending_elem _ _ _ Ha') in Hx as [? _]).
    assert (keep (singles (i :: idx)) 0 next = l1 ++ keep (singles idx) (i + 1) l2) as ->.
    { rewrite E, keep_app, Z.add_0_l, Hl1. cbn [keep].
      rewrite Hkeep by (intros x [->|Hx%His]%elem_of_cons; lia).
      rewrite decide_True by (apply has_singles; by left). f_equal.
      rewrite (keep_ext (singles (i :: idx)) (singles idx) (i + 1) 0), Z.add_0_r; [done|].
      intros x Hx. rewrite Z.add_0_r, !has_singles, elem_of_cons. split; [intros [?|?]; [lia|done]|by right]. }
    cbn [fold_result].
    assert (insert_row next (l1 ++ keep (singles idx) (i + 1) l2) i =
      Ok (l1 ++ [a] ++ keep (singles idx) (i + 1) l2)) as ->.
    { unfold insert_row. rewrite Hn, length_app, insert_items_split by done.
      by destruct (Z.leb_spec i (Z.of_nat (length l1 + length (keep (singles idx) (i + 1) l2)))); [|lia]. }
    cbn [mbind result_bind]. apply IH.
    + eapply ascending_weaken; [exact Ha'|lia].
    + intros x Hx. apply Hl. by right.
    + rewrite E, keep_app, Z.add_0_l, Hl1. cbn [keep app].
      rewrite Hkeep by (intros x Hx%His; lia). f_equal.
      rewrite decide_False; [done|]. rewrite has_singles. intros Hx%His. lia.
Qed.

(** Replaying deletions and insertions that leave the same elements gives the new rows. *)
Lemma replay_next `{MaxSize} (prev_rows next_rows : list A) (d i : IndexSet) :
  index_set_ok d -> index_set_ok i ->
  below (Z.of_nat (length prev_rows)) (ranges d) -> below (Z.of_nat (length next_rows)) (ranges i) ->
  keep (ranges d) 0 prev_rows = keep (ranges i) 0 next_rows ->
  replay prev_rows next_rows d i = Ok next_rows.
Proof.
  intros Hd Hi Hbd Hbi Hk. unfold replay. rewrite erase_ranges_keep by (done || apply Hd).
  cbn [mbind result_bind]. rewrite as_indexes_spec by done. cbn [mbind result_bind].
  apply insert_rows_keep; [by apply ascending_members| |].
  - intros x Hx%elem_of_indexes. by apply (has_below _ _ _ Hbi).
  - rewrite Hk, (keep_ext _ (singles (indexes (ranges i))) 0 0); [done|].
    intros x _. by rewrite Z.add_0_r, has_singles, elem_of_indexes.
Qed.
End replay.

(** ** Sequences of changes *)

Section report.
Context `{MaxSize} {A : Type}.
Abbreviation mem v x := (has (ranges v) x).
Implicit Types old : list A.

(** The call that tells the builder of a change of a collection of [size] elements. *)
Definition perform_change (c : change A) (size : Z) (b : CollectionChangeBuilder)
  : result CollectionChangeBuilder :=
  match c with
  | CModify ndx col => modify ndx col b
  | CInsert index new => insert index (Z.of_nat (length new)) true b
  | CErase index => erase index b
  | CClear => clear size b
  | CMove from to => move from to b
  end.

Fixpoint perform_changes (l : list (change A)) (cur : list (item A)) (b : CollectionChangeBuilder)
  : result CollectionChangeBuilder :=
  match l with
  | [] => Ok b
  | c :: l =>
      b ← perform_change c (Z.of_nat (length cur)) b;
      perform_changes l (apply_change c cur) b
  end.

Fixpoint apply_changes (l : list (change A)) (cur : list (item A)) : list (item A) :=
  match l with [] => cur | c :: l => apply_changes l (apply_change c cur) end.

Fixpoint valid_changes (l : list (change A)) (cur : list (item A)) : Prop :=
  match l with
  | [] => True
  | c :: l => valid_change c (Z.of_nat (length cur)) /\ valid_changes l (apply_change c cur)
  end.

#[export] Instance valid_changes_dec l cur : Decision (valid_changes l cur).
Proof. revert cur. induction l; intros cur; simpl; apply _. Defined.

Lemma change_step b old cur c :
  describes b old cur -> valid_change c (Z.of_nat (length cur)) ->
  exists b', perform_change c (Z.of_nat (length cur)) b = Ok b' /\ describes b' old (apply_change c cur).
Proof.
  intros Hd Hv. destruct c.
  - by apply modify_step.
  - by apply insert_step.
  - by apply erase_step.
  - by apply clear_step.
  - by apply move_step.
Qed.

Lemma changes_steps l b old cur :
  describes b old cur -> valid_changes l cur ->
  exists b', perform_changes l cur b = Ok b' /\ describes b' old (apply_changes l cur).
Proof.
  revert b cur. induction l as [|c l IH]; intros b cur Hd Hv; [by exists b|]. destruct Hv as [Hc Hl].
  destruct (change_step b old cur c Hd Hc) as (b1 & E1 & Hd1).
  destruct (IH b1 _ Hd1 Hl) as (b' & E & Hd'). exists b'. simpl. by rewrite E1.
Qed.

(** ** The report *)

(** What [finalize] reports of the change from [old] to [cur]. *)
Record reports (cs : CollectionChangeSet) old (cur : list (item A)) : Prop := {
  rp_replay : replay old (ids cur) (cs_deletions cs) (cs_insertions cs) = Ok (ids cur);
  rp_new : forall x, mem (cs_modifications_new cs) x <->
    marked_at cur None x /\ ~ mem (cs_insertions cs) x;
  rp_old : forall x, mem (cs_modifications cs) x <->
    exists y, mem (cs_modifications_new cs) y /\
      x = shift (cs_deletions cs) (y - count_in 0 y (ranges (cs_insertions cs)));
  rp_same : forall y, mem (cs_modifications_new cs) y ->
    nth_Z old (shift (cs_deletions cs) (y - count_in 0 y (ranges (cs_insertions cs)))) = nth_Z (ids cur) y;
  rp_columns : forall col x, mem (column (cs_columns cs) col) x <-> marked_at cur (Some col) x;
  rp_moves : forall m, m ∈ cs_moves cs ->
    mem (cs_deletions cs) (move_from m) /\ mem (cs_insertions cs) (move_to m) /\
    exists a, nth_Z old (move_from m) = Some a /\ nth_Z (ids cur) (move_to m) = Some a
}.

Lemma finalize_reports b old cur :
  describes b old cur -> exists cs, finalize b = Ok cs /\ reports cs old cur.
Proof.
  intros Hd. pose proof (ds_insertions _ _ _ Hd) as Hi. pose proof (ds_deletions _ _ _ Hd) as Hdel.
  pose proof (ds_marks_ok _ _ _ Hd None) as Hmk. pose proof (ds_marks _ _ _ Hd None) as Hm.
  cbn [marked] in Hmk, Hm. unfold finalize.
  destruct (erase_at_set_spec (modifications b) (insertions b) Hmk Hi) as (m1 & -> & Hok1 & Hm1).
  cbn [mbind result_bind].
  assert (forall y, mem (modifications b) y -> ~ mem (insertions b) y ->
    0 <= rank (ranges (insertions b)) y < Z.of_nat (length old) - width (ranges (deletions b)) /\
    nth_Z old (shift (deletions b) (rank (ranges (insertions b)) y)) = nth_Z (ids cur) y) as Hel.
  { intros y Hy Hn. apply Hm, marked_at_lt in Hy. pose proof (is_sorted _ Hi) as Hs. split.
    - split; [apply rank_nonneg; [done|lia]|]. rewrite (describes_sizes _ _ _ Hd).
      rewrite <- rank_total by (done || by eapply insertions_below).
      pose proof (rank_mono (ranges (insertions b)) (y + 1) (Z.of_nat (length cur)) Hs ltac:(lia)) as Hmono.
      rewrite rank_next, decide_False in Hmono by (done || lia). lia.
    - destruct (deleted_element b old cur y Hd Hy Hn) as (d & j & _ & -> & _ & _ & _ & _ & E & _). exact E. }
  destruct (shift_for_insert_at_set_spec m1 (deletions b) Hok1 Hdel) as (m2 & -> & _ & Hm2).
  { apply below_of_has; [apply sorted_ok, Hok1|]. intros x (y & Hy & Hn & ->)%Hm1.
    pose proof (ds_old_size _ _ _ Hd). destruct (Hel y Hy Hn) as [? _]. unfold rank in *. lia. }
  cbn [mbind result_bind].
  destruct (remove_set_spec (modifications b) (insertions b) Hmk Hi) as (m3 & -> & _ & Hm3).
  cbn [mbind result_bind]. eexists; split; [done|].
  split; cbn [cs_deletions cs_insertions cs_modifications cs_modifications_new cs_moves cs_columns].
  - apply replay_next; [done|done|by eapply deletions_below|rewrite length_ids; by eapply insertions_below|apply Hd].
  - intros x. by rewrite Hm3, Hm.
  - intros x. rewrite Hm2. setoid_rewrite Hm3. split.
    + intros (u & (y & Hy & Hn & ->)%Hm1 & ->). by exists y.
    + intros (y & [Hy Hn] & ->). eexists; split; [|done]. apply Hm1. by exists y.
  - intros y [Hy Hn]%Hm3. by apply Hel.
  - intros col x. exact (ds_marks _ _ _ Hd (Some col) x).
  - intros m Hin. pose proof (ds_moves _ _ _ Hd) as Hmv. rewrite Forall_forall in Hmv.
    destruct (Hmv m Hin) as [? ? ?]. done.
Qed.

Lemma moves_verified b old cur : describes b old cur -> verify b = Ok true.
Proof.
  intros Hd. unfold verify. pose proof (ds_moves _ _ _ Hd) as Hmv.
  induction Hmv as [|m l [Hf Ht _] _ IH]; [done|]. cbn [fold_result].
  destruct (contains_spec (deletions b) (move_from m)) as (d & -> & Hb); [apply Hd|].
  destruct (contains_spec (insertions b) (move_to m)) as (i & -> & Hi); [apply Hd|].
  cbn [mbind result_bind]. rewrite (proj2 Hb Hf), (proj2 Hi Ht). exact IH.
Qed.

(** ** The contract of the builder *)

(** C11: whatever valid sequence of modifications, insertions, erasures, moves and clearings a
    collection goes through, the builder accepts it and [finalize] reports the change: erasing
    the deletions from the old rows and inserting the insertions gives the new rows, as the
    assertion of [verify_changeset] demands; the modifications are the modified rows that are
    not insertions, in the new and in the old collection, where they are the same rows; the
    column sets are the modifications of each column; every move reported moved a row. *)
Theorem changes_reported old (l : list (change A)) :
  Z.of_nat (length old) <= npos -> valid_changes l (fresh <$> old) ->
  exists b cs, perform_changes l (fresh <$> old) empty_builder = Ok b /\ finalize b = Ok cs /\
    reports cs old (apply_changes l (fresh <$> old)).
Proof.
  intros Hn Hv. destruct (changes_steps l _ _ _ (describes_start old Hn) Hv) as (b & E & Hd).
  destruct (finalize_reports _ _ _ Hd) as (cs & F & Hr). by exists b, cs.
Qed.

(** C12: after every valid sequence of changes the assertions of debug builds hold: each move is
    from a deletion to an insertion, as [CollectionChangeBuilder::verify] demands, and each of
    the index sets passes [IndexSet::verify]. *)
Theorem builder_verified old (l : list (change A)) :
  Z.of_nat (length old) <= npos -> valid_changes l (fresh <$> old) ->
  exists b, perform_changes l (fresh <$> old) empty_builder = Ok b /\ verify b = Ok true /\
    ChunkedRangeVector.verify (deletions b) = true /\ ChunkedRangeVector.verify (insertions b) = true /\
    ChunkedRangeVector.verify (modifications b) = true /\
    forall col, ChunkedRangeVector.verify (column (columns b) col) = true.
Proof.
  intros Hn Hv. destruct (changes_steps l _ _ _ (describes_start old Hn) Hv) as (b & E & Hd).
  exists b. split_and!; [done|by eapply moves_verified| | | |]; intros; apply verify_ok; try apply Hd.
  - exact (ds_marks_ok _ _ _ Hd None).
  - exact (ds_marks_ok _ _ _ Hd (Some col)).
Qed.
End report.

(** ** A collection that goes through changes of every kind *)

Definition sample_changes : list (change Z) :=
  [CInsert 1 [20; 21]; CModify 4 3; CMove 4 0; CErase 1; CMove 0 3; CModify 1 npos].

Lemma changes_reported_witness :
  exists b cs, @perform_changes max_size_debug Z sample_changes (fresh <$> [10; 11; 12; 13]) empty_builder = Ok b /\
    @finalize max_size_debug b = Ok cs /\
    replay [10; 11; 12; 13] [20; 21; 11; 12; 13] (cs_deletions cs) (cs_insertions cs) = Ok [20; 21; 11; 12; 13] /\
    cs_moves cs = [MkMove 2 3].
Proof.
  destruct (@changes_reported max_size_debug Z [10; 11; 12; 13] sample_changes)
    as (b & cs & E & F & R); [by_evaluation..|].
  exists b, cs. split_and!; [exact E|exact F|exact (rp_replay _ _ _ R)|].
  vm_compute in E. injection E as <-. vm_compute in F. injection F as <-. reflexivity.
Defined.

Lemma builder_verified_witness :
  exists b, @perform_changes max_size_debug Z (sample_changes ++ [CClear]) (fresh <$> [10; 11; 12; 13]) empty_builder = Ok b /\
    verify b = Ok true /\ contains (deletions b) 3 = Ok true.
Proof.
  destruct (@builder_verified max_size_debug Z [10; 11; 12; 13] (sample_changes ++ [CClear]))
    as (b & E & V & _); [by_evaluation..|].
  exists b. split_and!; [exact E|exact V|].
  vm_compute in E. injection E as <-. reflexivity.
Defined.
