(* ===== verification/RowDiff.v ===== *)
(** [CollectionChangeBuilder::calculate] of [collection_change_builder.cpp]: the change from one
    list of rows to another, with the alignment of the rows in both that have the same keys by
    [LongestCommonSubsequenceCalculator].

    [std::sort] does not keep the order of equivalent elements: it is any function that returns
    an ordered permutation, the class [StdSort].  [std::lower_bound] is a scan for the first
    element that is not less, which is what it returns on the ordered vectors it is used on. *)

From S2P Require Import Prelude ChunkedRangeVector IndexSet IndexSetMerge.
From S2P Require Import ChangeBuilder Collection.

(** ** [std::sort] *)

(** What a comparator has to satisfy: "not less" is a total preorder. *)
Record weak_order {A} (lt : A -> A -> bool) : Prop := {
  wo_asym : forall x y, lt x y = true -> lt y x = false;
  wo_trans : forall x y z, lt y x = false -> lt z y = false -> lt z x = false
}.

Class StdSort := {
  std_sort : forall {A}, (A -> A -> bool) -> list A -> list A;
  std_sort_permutation : forall A (lt : A -> A -> bool) (l : list A), Permutation (std_sort lt l) l;
  std_sort_sorted : forall A (lt : A -> A -> bool) (l : list A),
    weak_order lt -> StronglySorted (fun x y => lt y x = false) (std_sort lt l)
}.

(** A stable sort is one. *)
#[export] Program Instance stable_sort : StdSort :=
  {| std_sort A lt l :=
       @merge_sort A (fun x y => lt y x = false) (fun x y => bool_eq_dec (lt y x) false) l |}.
Next Obligation. intros A lt l. apply merge_sort_Permutation. Qed.
Next Obligation.
  intros A lt l [Ha Ht].
  assert (Transitive (fun x y => lt y x = false)) by (intros x y z; apply Ht).
  assert (Total (fun x y => lt y x = false)).
  { intros x y. destruct (lt y x) eqn:E; [right; by apply Ha|by left]. }
  apply (StronglySorted_merge_sort _).
Qed.

(** [std::tie(a, b) < std::tie(c, d)]. *)
Definition lex_less (a b c d : Z) : bool := (a <? c) || ((a =? c) && (b <? d)).

(** ** Data *)

Record RowInfo := MkRowInfo { key : Z; prev_tv_index : Z; tv_index : Z }.

(** [LongestCommonSubsequenceCalculator::Row] and [::Match], and [Length] of
    [find_longest_match]. *)
Record Row := MkRow { r_key : Z; r_index : Z }.
Record Match := MkMatch { m_i : Z; m_j : Z; m_size : Z; m_modified : Z }.
Record Length := MkLength { l_j : Z; l_len : Z }.

(** ** The longest common blocks *)

Section lcs.
Context `{MaxSize}.
(** The rows in the old order, the rows in the new order sorted by key, the modified rows. *)
Context (modifications : IndexSet) (a b : list Row).

(** The lambda [length]. *)
Fixpoint block_length (prev : list Length) (j : Z) : Z :=
  match prev with
  | [] => 1
  | p :: prev => if u64 (l_j p + 1) =? j then u64 (l_len p + 1) else block_length prev j
  end.

Fixpoint lower_bound (k : Z) (b : list Row) : list Row :=
  match b with
  | [] => []
  | r :: b' => if r_key r <? k then lower_bound k b' else b
  end.

(** The loop of [for_each_b_match]. *)
Fixpoint b_matches (k begin2 end2 : Z) (b : list Row) : list Z :=
  match b with
  | [] => []
  | r :: b' =>
      if r_key r =? k then
        if r_index r <? begin2 then b_matches k begin2 end2 b'
        else if end2 <=? r_index r then []
        else r_index r :: b_matches k begin2 end2 b'
      else []
  end.

(** The indices [for_each_b_match] calls its function with. *)
Definition for_each_b_match (i begin2 end2 : Z) : result (list Z) :=
  match nth_Z a i with
  | Some ai =>
      let it := lower_bound (r_key ai) b in
      _ ← realm_assert (match it with r :: _ => r_key r =? r_key ai | [] => false end);
      Ok (b_matches (r_key ai) begin2 end2 it)
  | None => Err OutOfBounds
  end.

Definition better (best : Match) (i j size : Z) : result Match :=
  if m_size best <? size then Ok (MkMatch (u64 (i - size + 1)) (u64 (j - size + 1)) size npos)
  else if size =? m_size best then
    best ← (if m_modified best =? npos then
              n ← count modifications (u64 (m_j best - size + 1)) (u64 (m_j best + 1));
              Ok (MkMatch (m_i best) (m_j best) (m_size best) n)
            else Ok best);
    n ← count modifications (u64 (j - size + 1)) (u64 (j + 1));
    if n <? m_modified best then Ok (MkMatch (u64 (i - size + 1)) (u64 (j - size + 1)) size n)
    else Ok best
  else Ok best.

(** The function [for_each_b_match] is called with, on the lengths of the row and the best match. *)
Definition check_match (prev : list Length) (begin1 end1 begin2 end2 i : Z) (s : list Length * Match) (j : Z)
  : result (list Length * Match) :=
  let size := block_length prev j in
  best ← better (snd s) i j size;
  _ ← realm_assert ((begin1 <=? m_i best) && (u64 (m_i best + m_size best) <=? end1));
  _ ← realm_assert ((begin2 <=? m_j best) && (u64 (m_j best + m_size best) <=? end2));
  Ok (fst s ++ [MkLength j size], best).

Definition check_row (begin1 end1 begin2 end2 : Z) (s : list Length * Match) (i : Z)
  : result (list Length * Match) :=
  js ← for_each_b_match i begin2 end2;
  fold_result (check_match (fst s) begin1 end1 begin2 end2 i) ([], snd s) js.

Definition find_longest_match (begin1 end1 begin2 end2 : Z) : result Match :=
  '(_, best) ← fold_result (check_row begin1 end1 begin2 end2)
                 ([], MkMatch begin1 begin2 0 0) (seqZ begin1 (end1 - begin1));
  Ok best.

(** The matches pushed, in order. *)
Fixpoint find_longest_matches (fuel : nat) (begin1 end1 begin2 end2 : Z) : result (list Match) :=
  m ← find_longest_match begin1 end1 begin2 end2;
  if m_size m =? 0 then Ok []
  else
    match fuel with
    | O => Err OutOfFuel
    | S fuel =>
        l1 ← (if (begin1 <? m_i m) && (begin2 <? m_j m)
              then find_longest_matches fuel begin1 (m_i m) begin2 (m_j m) else Ok []);
        let e1 := u64 (m_i m + m_size m) in
        let e2 := u64 (m_j m + m_size m) in
        l2 ← (if (e1 <? end2) && (e2 <? end2)
              then find_longest_matches fuel e1 end1 e2 end2 else Ok []);
        Ok (l1 ++ m :: l2)
    end.

Definition longest_matches (start_index : Z) : result (list Match) :=
  let n1 := Z.of_nat (length a) in
  let n2 := Z.of_nat (length b) in
  l ← find_longest_matches (length a) start_index n1 start_index n2;
  Ok (l ++ [MkMatch n1 n2 0 0]).
End lcs.

(** ** The alignment *)

Section calculate.
Context `{MaxSize, StdSort}.

(** [for (; i < match.i; ++i) set.add(rows[i].tv_index)]. *)
Definition add_rows {A} (index : A -> Z) (rows : list A) (i m : Z) (v : IndexSet) : result IndexSet :=
  fold_result (fun v i => match nth_Z rows i with Some r => add v (index r) | None => Err OutOfBounds end)
    v (seqZ i (m - i)).

Definition align_match (a : list Row) (rows : list RowInfo) (s : Z * Z * IndexSet * IndexSet) (m : Match)
  : result (Z * Z * IndexSet * IndexSet) :=
  let '(i, j, deletions, insertions) := s in
  deletions ← add_rows r_index a i (m_i m) deletions;
  insertions ← add_rows tv_index rows j (m_j m) insertions;
  Ok (u64 (Z.max i (m_i m) + m_size m), u64 (Z.max j (m_j m) + m_size m), deletions, insertions).

(** The search for the first index at which the keys differ. *)
Fixpoint first_difference (i : Z) (a : list Row) (rows : list RowInfo) : result (option Z) :=
  match a with
  | [] => Ok None
  | r :: a =>
      match rows with
      | [] => Err OutOfBounds
      | row :: rows => if negb (r_key r =? key row) then Ok (Some i) else first_difference (i + 1) a rows
      end
  end.

Definition rows_by_index (rows : list RowInfo) : list Row :=
  std_sort (fun l r => lex_less (r_index l) (r_key l) (r_index r) (r_key r))
    ((fun row => MkRow (key row) (prev_tv_index row)) <$> rows).

Definition rows_by_key (rows : list RowInfo) : list Row :=
  std_sort (fun l r => lex_less (r_key l) (r_index l) (r_key r) (r_index r))
    (imap (fun i row => MkRow (key row) (Z.of_nat i)) rows).

Definition calculate_moves_sorted (rows : list RowInfo) (deletions insertions modifications : IndexSet)
  : result (IndexSet * IndexSet) :=
  let a := rows_by_index rows in
  difference ← first_difference 0 a rows;
  match difference with
  | None => Ok (deletions, insertions)
  | Some start =>
      let b := rows_by_key rows in
      matches ← longest_matches modifications a b start;
      '(_, _, deletions, insertions) ←
        fold_result (align_match a rows) (start, start, deletions, insertions) matches;
      Ok (deletions, insertions)
  end.

(** ** The rows that are in one list only *)

Definition set_prev_index (i : Z) (row : RowInfo) : RowInfo := MkRowInfo (key row) i (tv_index row).

(** The loops over the rows sorted by key: the deletions, the insertions and the new rows. *)
Fixpoint match_rows (old : list RowInfo) : list RowInfo -> IndexSet -> IndexSet ->
    result (IndexSet * IndexSet * list RowInfo) :=
  fix match_new (new : list RowInfo) (d i : IndexSet) :=
    match old, new with
    | o :: old', n :: new' =>
        if key o =? key n then
          '(d, i, l) ← match_rows old' new' d i;
          Ok (d, i, set_prev_index (tv_index o) n :: l)
        else if key o <? key n then
          d ← add d (tv_index o);
          match_rows old' new d i
        else
          i ← add i (tv_index n);
          '(d, i, l) ← match_new new' d i;
          Ok (d, i, n :: l)
    | o :: old', [] => d ← add d (tv_index o); match_rows old' [] d i
    | [], n :: new' =>
        i ← add i (tv_index n);
        '(d, i, l) ← match_new new' d i;
        Ok (d, i, n :: l)
    | [], [] => Ok (d, i, [])
    end.

Definition add_modifications (did_change : Z -> bool) (rows : list RowInfo) (v : IndexSet) : result IndexSet :=
  fold_result (fun v row => if did_change (key row) then add v (tv_index row) else Ok v) v rows.

Definition calculate_rows (old_rows new_rows : list RowInfo) (key_did_change : Z -> bool)
    (in_table_order : bool) : result CollectionChangeBuilder :=
  '(d, i, new_rows) ← match_rows old_rows new_rows [] [];
  let new_rows := filter (fun row => prev_tv_index row <> npos) new_rows in
  let new_rows := std_sort (fun l r => tv_index l <? tv_index r) new_rows in
  m ← add_modifications key_did_change new_rows [];
  '(d, i) ← (if in_table_order then Ok (d, i) else calculate_moves_sorted new_rows d i m);
  Ok (Builder d i m [] [] ∅ true).

Definition build_row_info (rows : list Z) : list RowInfo :=
  std_sort (fun l r => key l <? key r) (imap (fun i k => MkRowInfo k npos (Z.of_nat i)) rows).

Definition calculate (prev_rows next_rows : list Z) (key_did_change : Z -> bool) (in_table_order : bool)
  : result CollectionChangeBuilder :=
  calculate_rows (build_row_info prev_rows) (build_row_info next_rows) key_did_change in_table_order.

(** [static_cast<int64_t>] of a [size_t]. *)
Definition as_int64 (x : Z) : Z := if x <? 2 ^ 63 then x else x - 2 ^ 64.

(** The overload for rows that are a [size_t]. *)
Definition calculate_indexes (prev_rows next_rows : list Z) (key_did_change : Z -> bool)
  : result CollectionChangeBuilder :=
  calculate_rows (build_row_info (as_int64 <$> prev_rows)) (build_row_info (as_int64 <$> next_rows))
    key_did_change false.
End calculate.
