(* ===== verification/LongestMatch.v ===== *)
(** What [find_longest_match] and [find_longest_matches] find: a longest common block of the
    two row orders within the bounds, and an ascending chain of common blocks. *)

From S2P Require Import Prelude ChunkedRangeVector RangeList IndexSet IndexSetCount.
From S2P Require Import ChangeBuilder Collection RowDiff.

(** ** The index of the rows by key *)

(** The order [b] is sorted by. *)
Definition row_lt (x y : Row) : Prop :=
  r_key x < r_key y \/ (r_key x = r_key y /\ r_index x < r_index y).

(** [b] lists the positions of the keys, in order. *)
Record key_index (keys : list Z) (b : list Row) : Prop := {
  ki_sorted : StronglySorted row_lt b;
  ki_rows : forall k j, MkRow k j ∈ b <-> nth_Z keys j = Some k;
  ki_length : length b = length keys
}.

Lemma increasing_NoDup l : StronglySorted Z.lt l -> NoDup l.
Proof.
  induction 1 as [|x l _ IH Hx]; [apply NoDup_nil_2|]. apply NoDup_cons. split; [|done].
  intros Hin. rewrite Forall_forall in Hx. apply Hx in Hin. lia.
Qed.

Section visits.
Context (keys : list Z) (a b : list Row).
Implicit Types l : list Row.

Lemma lower_bound_rows k j l : MkRow k j ∈ lower_bound k l <-> MkRow k j ∈ l.
Proof.
  induction l as [|r l IH]; [done|]. simpl. destruct (Z.ltb_spec (r_key r) k); [|done].
  rewrite IH, elem_of_cons. split; [by right|]. intros [<-|?]; [simpl in *; lia|done].
Qed.

Lemma lower_bound_sorted k l :
  StronglySorted row_lt l ->
  StronglySorted row_lt (lower_bound k l) /\ Forall (fun r => k <= r_key r) (lower_bound k l).
Proof.
  induction 1 as [|r l Hs IH Hr]; [split; constructor|]. simpl. destruct (Z.ltb_spec (r_key r) k); [done|].
  split; [by constructor|]. constructor; [done|]. eapply Forall_impl; [exact Hr|].
  intros x [?|[? _]]; lia.
Qed.

(** The positions are visited in ascending order, each once. *)
Lemma b_matches_spec k begin2 end2 l :
  StronglySorted row_lt l -> Forall (fun r => k <= r_key r) l ->
  StronglySorted Z.lt (b_matches k begin2 end2 l) /\
  forall j, j ∈ b_matches k begin2 end2 l <-> MkRow k j ∈ l /\ begin2 <= j < end2.
Proof.
  assert (forall x l, (forall j, MkRow k j ∈ l -> x < j) -> forall js, (forall j, j ∈ js -> MkRow k j ∈ l) ->
    Forall (Z.lt x) js) as Hall.
  { intros x l' Hx js Hj. apply Forall_forall. eauto. }
  induction 1 as [|[kr jr] l Hs IH Hr]; intros Hk; cbn [b_matches r_key r_index].
  { split; [constructor|]. intros j. rewrite !elem_of_nil. tauto. }
  apply Forall_cons in Hk as [Hkr Hk]. simpl in Hkr. destruct (IH Hk) as [IHs IHm].
  assert (forall j, MkRow k j ∈ l -> kr = k -> jr < j) as Hlt.
  { intros j Hj ->. rewrite Forall_forall in Hr. apply Hr in Hj as [?|[_ ?]]; simpl in *; lia. }
  destruct (Z.eqb_spec kr k) as [->|Hne].
  - destruct (Z.ltb_spec jr begin2); [|destruct (Z.leb_spec end2 jr)].
    + split; [done|]. intros j. rewrite IHm, elem_of_cons.
      split; [tauto|]. intros [[[= ->]|?] ?]; [lia|done].
    + split; [constructor|]. intros j. rewrite elem_of_nil, elem_of_cons.
      split; [done|]. intros [[[= ->]|Hj] ?]; [lia|]. apply Hlt in Hj; [lia|done].
    + split; [constructor; [done|]|].
      * apply (Hall jr l); [by intros j Hj; apply Hlt|]. intros j. by rewrite IHm; intros [? _].
      * intros j. rewrite !elem_of_cons, IHm. split.
        -- intros [->|[? ?]]; [split; [by left|lia]|tauto].
        -- intros [[[= ->]|?] ?]; [by left|right; done].
  - split; [constructor|]. intros j. rewrite elem_of_nil, elem_of_cons. split; [done|].
    intros [[[= -> _]|Hj] _]; [done|]. rewrite Forall_forall in Hr. apply Hr in Hj as [?|[? _]]; simpl in *; lia.
Qed.

Lemma for_each_b_match_spec i r begin2 end2 :
  key_index keys b -> nth_Z a i = Some r -> r_key r ∈ keys ->
  exists js, for_each_b_match a b i begin2 end2 = Ok js /\ StronglySorted Z.lt js /\
    forall j, j ∈ js <-> nth_Z keys j = Some (r_key r) /\ begin2 <= j < end2.
Proof.
  intros [Hs Hr _] Ha Hin. unfold for_each_b_match. rewrite Ha.
  destruct (lower_bound_sorted (r_key r) b Hs) as [Hls Hlk].
  apply list_elem_of_lookup in Hin as [n Hn].
  assert (MkRow (r_key r) (Z.of_nat n) ∈ lower_bound (r_key r) b) as Hl.
  { apply lower_bound_rows, Hr. unfold nth_Z. by rewrite decide_True, Nat2Z.id by lia. }
  assert (match lower_bound (r_key r) b with r' :: _ => r_key r' =? r_key r | [] => false end = true) as ->.
  { destruct (lower_bound (r_key r) b) as [|r' l]; [by apply elem_of_nil in Hl|].
    apply Forall_cons in Hlk as [Hk _]. apply Z.eqb_eq. apply elem_of_cons in Hl as [<-|Hl]; [done|].
    apply StronglySorted_inv in Hls as [_ Hls]. rewrite Forall_forall in Hls.
    apply Hls in Hl as [?|[? _]]; simpl in *; lia. }
  cbn [realm_assert mbind result_bind]. eexists. split; [done|].
  destruct (b_matches_spec (r_key r) begin2 end2 _ Hls Hlk) as [Hbs Hbm]. split; [done|].
  intros j. by rewrite Hbm, lower_bound_rows, Hr.
Qed.
End visits.

(** ** Common blocks *)

Section longest_match.
Context `{MaxSize}.
Context (modifications : IndexSet) (keys : list Z) (a b : list Row).
Hypothesis modifications_ok : index_set_ok modifications.
Hypothesis indexed : key_index keys b.
(** Every row of the old order is one of the new order. *)
Hypothesis present : Forall (fun r => r_key r ∈ keys) a.
Hypothesis a_size : Z.of_nat (length a) < npos.
Hypothesis keys_size : Z.of_nat (length keys) < npos.

(** [n] rows from [i] in the old order and from [j] in the new order are the same. *)
Definition common (i j n : Z) : Prop :=
  forall t, 0 <= t < n -> exists r, nth_Z a (i + t) = Some r /\ nth_Z keys (j + t) = Some (r_key r).

Lemma common_next i j n r :
  nth_Z a (i + n) = Some r -> nth_Z keys (j + n) = Some (r_key r) -> common i j n -> common i j (n + 1).
Proof.
  intros Ha Hk Hc t Ht. destruct (decide (t = n)) as [->|]; [by exists r|]. apply Hc. lia.
Qed.

Lemma common_prefix i j n m : common i j n -> m <= n -> common i j m.
Proof. intros Hc Hm t Ht. apply Hc. lia. Qed.

Section bounds.
Context (begin1 end1 begin2 end2 : Z).
Hypothesis bounds1 : 0 <= begin1 /\ end1 <= Z.of_nat (length a).
Hypothesis bounds2 : 0 <= begin2 /\ end2 <= Z.of_nat (length keys).

(** A common block within the bounds. *)
Definition block (i j n : Z) : Prop :=
  begin1 <= i /\ i + n <= end1 /\ begin2 <= j /\ j + n <= end2 /\ common i j n.

(** The lengths of the longest blocks that end before [i]. *)
Record lengths_ok (prev : list Length) (i : Z) : Prop := {
  lo_block : forall j n, MkLength j n ∈ prev -> 1 <= n /\ block (i - n) (j + 1 - n) n;
  lo_longest : forall j m, 1 <= m -> block (i - m) (j + 1 - m) m -> exists n, MkLength j n ∈ prev /\ m <= n;
  lo_distinct : NoDup (l_j <$> prev)
}.

Lemma block_length_spec prev j :
  Forall (fun p => 0 <= l_j p < npos /\ 0 <= l_len p < npos) prev -> NoDup (l_j <$> prev) ->
  (exists n, MkLength (j - 1) n ∈ prev /\ block_length prev j = n + 1) \/
  ((forall n, MkLength (j - 1) n ∉ prev) /\ block_length prev j = 1).
Proof.
  induction prev as [|[jp n] prev IH]; intros Hp Hn; cbn [block_length l_j l_len].
  { right. split; [|done]. intros n ?%elem_of_nil. done. }
  apply Forall_cons in Hp as [[Hj Hl] Hp]. cbn [l_j l_len] in *. cbn in Hn. apply NoDup_cons in Hn as [Hnj Hn].
  rewrite !u64_small by (unfold npos in *; lia). destruct (Z.eqb_spec (jp + 1) j) as [<-|Hne].
  - left. exists n. split; [|done]. rewrite Z.add_simpl_r. by left.
  - destruct (IH Hp Hn) as [(m & Hm & ->)|[Hno ->]]; [left; exists m; split; [by right|done]|right].
    split; [|done]. intros m [[= ? _]|?]%elem_of_cons; [lia|by eapply Hno].
Qed.

(** The length of the block that ends at a visited position. *)
Lemma extended_block prev i j r :
  lengths_ok prev i -> begin1 <= i < end1 -> nth_Z a i = Some r ->
  nth_Z keys j = Some (r_key r) -> begin2 <= j < end2 ->
  let n := block_length prev j in
  1 <= n /\ block (i + 1 - n) (j + 1 - n) n /\ (forall m, 1 <= m -> block (i + 1 - m) (j + 1 - m) m -> m <= n).
Proof.
  intros [Hb Hl Hd] Hi Ha Hk Hj.
  assert (Forall (fun p => 0 <= l_j p < npos /\ 0 <= l_len p < npos) prev) as Hsmall.
  { apply Forall_forall. intros [jp n] Hp. apply Hb in Hp as (? & ? & ? & ? & ? & _). simpl. lia. }
  destruct (block_length_spec prev j Hsmall Hd) as [(n & Hn & ->)|[Hno ->]].
  - apply Hb in Hn as Hn'. destruct Hn' as (Hn1 & B1 & B2 & B3 & B4 & Hc). split; [lia|].
    replace (i + 1 - (n + 1)) with (i - n) by lia. replace (j + 1 - (n + 1)) with (j - n) by lia.
    replace (j - 1 + 1 - n) with (j - n) in Hc by lia. split.
    + split_and!; try lia. apply (common_next _ _ _ r); [rewrite <- Ha; f_equal; lia|rewrite <- Hk; f_equal; lia|done].
    + intros m Hm (C1 & C2 & C3 & C4 & C). destruct (decide (m = 1)); [lia|].
      destruct (Hl (j - 1) (m - 1)) as (n' & Hn2 & Hle); [lia| |].
      * split_and!; try lia. replace (i - (m - 1)) with (i + 1 - m) by lia.
        replace (j - 1 + 1 - (m - 1)) with (j + 1 - m) by lia. eapply common_prefix; [exact C|lia].
      * enough (n' = n) by lia. clear - Hd Hn Hn2.
        apply (list_elem_of_lookup) in Hn as [x Hx], Hn2 as [y Hy].
        assert (x = y) as <-.
        { eapply NoDup_lookup; [exact Hd|..]; rewrite list_lookup_fmap, ?Hx, ?Hy; done. }
        congruence.
  - split; [lia|]. split.
    + split_and!; try lia. intros t Ht. exists r. replace t with 0 by lia.
      split; [rewrite <- Ha|rewrite <- Hk]; f_equal; lia.
    + intros m Hm (C1 & C2 & C3 & C4 & C). destruct (decide (m = 1)); [lia|]. exfalso.
      destruct (Hl (j - 1) (m - 1)) as (n' & Hn2 & _); [lia| |by eapply Hno].
      split_and!; try lia. replace (i - (m - 1)) with (i + 1 - m) by lia.
      replace (j - 1 + 1 - (m - 1)) with (j + 1 - m) by lia. eapply common_prefix; [exact C|lia].
Qed.
Definition is_block (m : Match) : Prop := 0 <= m_size m /\ block (m_i m) (m_j m) (m_size m).

Lemma better_spec best i j size :
  is_block best -> 1 <= size -> block (i + 1 - size) (j + 1 - size) size ->
  exists best', better modifications best i j size = Ok best' /\ is_block best' /\
    m_size best' = Z.max (m_size best) size.
Proof.
  intros Hb Hs Hn. pose proof Hn as (? & ? & ? & ? & _). unfold better.
  rewrite (u64_small (i - size + 1)), (u64_small (j - size + 1)) by (unfold npos in *; lia).
  replace (i - size + 1) with (i + 1 - size) by lia. replace (j - size + 1) with (j + 1 - size) by lia.
  assert (forall n, is_block (MkMatch (i + 1 - size) (j + 1 - size) size n)) as Hnew
    by (intros n; split; [simpl; lia|done]).
  destruct (Z.ltb_spec (m_size best) size).
  { eexists. split_and!; [done|done|simpl; lia]. }
  destruct (Z.eqb_spec size (m_size best)) as [E|]; [|exists best; split_and!; [done|done|lia]].
  set (counted := if m_modified best =? npos then _ else _).
  assert (exists n, counted = Ok (MkMatch (m_i best) (m_j best) (m_size best) n)) as [n ->].
  { unfold counted. destruct (m_modified best =? npos); [|exists (m_modified best); by destruct best].
    match goal with |- context [count modifications ?x ?y] =>
      destruct (count_total modifications x y modifications_ok) as [n ->] end. by exists n. }
  cbn [mbind result_bind m_modified].
  match goal with |- context [count modifications ?x ?y] =>
    destruct (count_total modifications x y modifications_ok) as [n' ->] end.
  cbn [mbind result_bind]. destruct (n' <? n); eexists; (split_and!; [done|done|simpl; lia]).
Qed.

Lemma check_match_spec prev i cur best j :
  is_block best -> 1 <= block_length prev j ->
  block (i + 1 - block_length prev j) (j + 1 - block_length prev j) (block_length prev j) ->
  exists best', check_match modifications prev begin1 end1 begin2 end2 i (cur, best) j =
      Ok (cur ++ [MkLength j (block_length prev j)], best') /\
    is_block best' /\ m_size best' = Z.max (m_size best) (block_length prev j).
Proof.
  intros Hb Hn Hbl. destruct (better_spec best i j _ Hb Hn Hbl) as (best' & E & Hb' & Hs).
  exists best'. unfold check_match. cbn [fst snd]. rewrite E. cbn [mbind result_bind].
  destruct Hb' as [H0 (? & ? & ? & ? & Hc)]. rewrite !u64_small by (unfold npos in *; lia).
  rewrite !(proj2 (Z.leb_le _ _)) by lia. done.
Qed.

(** The matches of one row. *)
Lemma check_matches_spec prev i r js cur best :
  lengths_ok prev i -> begin1 <= i < end1 -> nth_Z a i = Some r -> is_block best ->
  Forall (fun j => nth_Z keys j = Some (r_key r) /\ begin2 <= j < end2) js ->
  exists best', fold_result (check_match modifications prev begin1 end1 begin2 end2 i) (cur, best) js =
      Ok (cur ++ ((fun j => MkLength j (block_length prev j)) <$> js), best') /\
    is_block best' /\ m_size best <= m_size best' /\
    Forall (fun j => block_length prev j <= m_size best') js.
Proof.
  intros Hl Hi Ha Hb Hj. revert cur best Hb.
  induction Hj as [|j js [Hk Hj] _ IH]; intros cur best Hb.
  { exists best. rewrite app_nil_r. split_and!; [done|done|lia|constructor]. }
  destruct (extended_block prev i j r Hl Hi Ha Hk Hj) as (Hn & Hbl & _).
  destruct (check_match_spec prev i cur best j Hb Hn Hbl) as (b1 & E1 & Hb1 & Hs1).
  destruct (IH (cur ++ [MkLength j (block_length prev j)]) b1 Hb1) as (b' & E & Hb' & Hs & Hf).
  exists b'. cbn [fold_result]. rewrite E1. cbn [mbind result_bind].
  split_and!; [|done|lia|constructor; [lia|done]].
  rewrite E, fmap_cons, <- app_assoc. done.
Qed.

(** No block that ends before [i] is longer. *)
Definition longest (i : Z) (best : Match) : Prop :=
  forall i' j n, block i' j n -> i' + n <= i -> n <= m_size best.

Lemma check_row_spec prev i best :
  lengths_ok prev i -> begin1 <= i < end1 -> is_block best -> longest i best ->
  exists cur best', check_row modifications a b begin1 end1 begin2 end2 (prev, best) i = Ok (cur, best') /\
    lengths_ok cur (i + 1) /\ is_block best' /\ longest (i + 1) best'.
Proof.
  intros Hl Hi Hb Hlong. destruct (nth_is_Some a i) as [r Ha]; [lia|].
  assert (r_key r ∈ keys) as Hin.
  { destruct (split_at_Z _ _ _ Ha) as (l1 & l2 & E & _). pose proof present as Hp. rewrite E in Hp.
    apply Forall_app in Hp as [_ Hp]. by apply Forall_cons in Hp as [? _]. }
  destruct (for_each_b_match_spec keys a b i r begin2 end2 indexed Ha Hin) as (js & E & Hs & Hm).
  unfold check_row. cbn [fst snd]. rewrite E. cbn [mbind result_bind].
  destruct (check_matches_spec prev i r js [] best) as (best' & E' & Hb' & Hle & Hf); try done.
  { apply Forall_forall. intros j Hj. by apply Hm. }
  eexists _, best'. split; [exact E'|]. cbn [app].
  assert (forall j m, 1 <= m -> block (i + 1 - m) (j + 1 - m) m ->
    j ∈ js /\ m <= block_length prev j) as Hmax.
  { intros j m Hm1 Hbl. pose proof Hbl as (B1 & B2 & B3 & B4 & Hc).
    destruct (Hc (m - 1)) as (r' & Ha' & Hk'); [lia|].
    replace (i + 1 - m + (m - 1)) with i in Ha' by lia. replace (j + 1 - m + (m - 1)) with j in Hk' by lia.
    rewrite Ha in Ha'. injection Ha' as <-. split; [apply Hm; split; [done|lia]|].
    by destruct (extended_block prev i j r Hl Hi Ha Hk' ltac:(lia)) as (_ & _ & Hx); apply Hx. }
  split; [|split; [done|]].
  - split.
    + intros j n Hj. apply list_elem_of_fmap in Hj as (j' & [= -> ->] & Hj). apply Hm in Hj as [Hk Hj].
      by destruct (extended_block prev i j' r Hl Hi Ha Hk Hj) as (? & ? & _).
    + intros j m Hm1 Hbl. destruct (Hmax j m Hm1 Hbl) as [Hj Hle']. exists (block_length prev j).
      split; [|done]. apply list_elem_of_fmap. by exists j.
    + rewrite <- list_fmap_compose, list_fmap_id. by apply increasing_NoDup.
  - intros i' j n Hbl Hin'. destruct (decide (i' + n <= i)) as [Hi'|Hi'].
    { specialize (Hlong i' j n Hbl Hi'). lia. }
    destruct (decide (n < 1)) as [|Hn]; [destruct Hb' as [? _]; lia|].
    assert (block (i + 1 - n) (j + n - 1 + 1 - n) n) as Hbl'.
    { replace (i + 1 - n) with i' by lia. by replace (j + n - 1 + 1 - n) with j by lia. }
    destruct (Hmax (j + n - 1) n ltac:(lia) Hbl') as [Hj Hle'].
    rewrite Forall_forall in Hf. specialize (Hf _ Hj). lia.
Qed.

Lemma check_rows_spec n prev i best :
  lengths_ok prev i -> begin1 <= i -> i + Z.of_nat n = end1 -> is_block best -> longest i best ->
  exists cur best', fold_result (check_row modifications a b begin1 end1 begin2 end2) (prev, best)
      (seqZ i (Z.of_nat n)) = Ok (cur, best') /\ is_block best' /\ longest end1 best'.
Proof.
  revert prev i best. induction n as [|n IH]; intros prev i best Hl Hi Hn Hb Hlong.
  { exists prev, best. replace end1 with i by lia. done. }
  rewrite seqZ_cons by lia. destruct (check_row_spec prev i best) as (cur & b1 & E1 & Hl1 & Hb1 & Hlong1); try done.
  { lia. }
  cbn [fold_result]. rewrite E1. cbn [mbind result_bind].
  replace (Z.pred (Z.of_nat (S n))) with (Z.of_nat n) by lia. apply IH; try done; lia.
Qed.

Lemma find_longest_match_spec :
  begin1 <= end1 -> begin2 <= end2 ->
  exists best, find_longest_match modifications a b begin1 end1 begin2 end2 = Ok best /\
    is_block best /\ (forall i j n, block i j n -> n <= m_size best).
Proof.
  intros H1 H2. unfold find_longest_match. replace (end1 - begin1) with (Z.of_nat (Z.to_nat (end1 - begin1))) by lia.
  destruct (check_rows_spec (Z.to_nat (end1 - begin1)) [] begin1 (MkMatch begin1 begin2 0 0)) as
    (cur & best & -> & Hb & Hlong); [|lia|lia| | |].
  - split; [by intros ? ? ?%elem_of_nil| |apply NoDup_nil_2]. intros j m Hm (? & _). lia.
  - split; [done|]. cbn [m_i m_j m_size]. split_and!; try lia. intros t Ht. lia.
  - intros i' j n (? & _) ?. simpl. lia.
  - cbn [mbind result_bind]. exists best. split_and!; [done|apply Hb..|].
    intros i j n Hbl. apply (Hlong i j n Hbl). by destruct Hbl as (_ & ? & _).
Qed.
End bounds.
(** ** Chains of common blocks *)

(** The matches ascend, in both orders, from [i] and [j] to [end1] and [end2]. *)
Fixpoint chain (i j : Z) (l : list Match) (end1 end2 : Z) : Prop :=
  match l with
  | [] => i <= end1 /\ j <= end2
  | m :: l =>
      i <= m_i m /\ j <= m_j m /\ 0 <= m_size m /\ common (m_i m) (m_j m) (m_size m) /\
      chain (m_i m + m_size m) (m_j m + m_size m) l end1 end2
  end.

Lemma chain_weaken i j l end1 end2 i0 j0 :
  chain i j l end1 end2 -> i0 <= i -> j0 <= j -> chain i0 j0 l end1 end2.
Proof. destruct l as [|m l]; simpl; [lia|]. intros (? & ? & ? & ? & ?) ? ?. split_and!; try done; lia. Qed.

Lemma chain_bounds i j l end1 end2 : chain i j l end1 end2 -> i <= end1 /\ j <= end2.
Proof.
  revert i j. induction l as [|m l IH]; intros i j; simpl; [done|].
  intros (? & ? & ? & _ & Hc). apply IH in Hc as [? ?]. lia.
Qed.

Lemma chain_app i j l1 i' j' l2 end1 end2 :
  chain i j l1 i' j' -> chain i' j' l2 end1 end2 -> chain i j (l1 ++ l2) end1 end2.
Proof.
  revert i j. induction l1 as [|m l1 IH]; intros i j; simpl; [intros [? ?] ?; by eapply chain_weaken|].
  intros (? & ? & ? & ? & Hc) Hrest. split_and!; try done. by apply IH.
Qed.

Lemma find_longest_matches_spec fuel begin1 end1 begin2 end2 :
  0 <= begin1 <= end1 -> end1 <= Z.of_nat (length a) ->
  0 <= begin2 <= end2 -> end2 <= Z.of_nat (length keys) -> end1 - begin1 <= Z.of_nat fuel ->
  exists l, find_longest_matches modifications a b fuel begin1 end1 begin2 end2 = Ok l /\
    chain begin1 begin2 l end1 end2.
Proof.
  revert begin1 end1 begin2 end2. induction fuel as [|fuel IH]; intros begin1 end1 begin2 end2 Hb1 He1 Hb2 He2 Hf;
    destruct (find_longest_match_spec begin1 end1 begin2 end2) as (m & E & [Hm (B1 & B2 & B3 & B4 & Hc)] & _);
    try (done || lia); cbn [find_longest_matches]; rewrite E; cbn [mbind result_bind].
  - replace (m_size m) with 0 by lia. exists []. cbn. split; [done|lia].
  - destruct (Z.eqb_spec (m_size m) 0) as [|Hpos]; [exists []; cbn; split; [done|lia]|].
    rewrite !u64_small by (unfold npos in *; lia).
    assert (exists l1, (if (begin1 <? m_i m) && (begin2 <? m_j m)
        then find_longest_matches modifications a b fuel begin1 (m_i m) begin2 (m_j m) else Ok []) = Ok l1 /\
      chain begin1 begin2 l1 (m_i m) (m_j m)) as (l1 & -> & Hl1).
    { destruct (_ && _); [apply IH; lia|]. exists []. cbn. split; [done|lia]. }
    assert (exists l2, (if (m_i m + m_size m <? end2) && (m_j m + m_size m <? end2)
        then find_longest_matches modifications a b fuel (m_i m + m_size m) end1 (m_j m + m_size m) end2
        else Ok []) = Ok l2 /\
      chain (m_i m + m_size m) (m_j m + m_size m) l2 end1 end2) as (l2 & -> & Hl2).
    { destruct (_ && _); [apply IH; lia|]. exists []. cbn. split; [done|lia]. }
    cbn [mbind result_bind]. eexists. split; [done|]. eapply chain_app; [exact Hl1|].
    cbn [chain]. split_and!; try done; lia.
Qed.

Lemma longest_matches_spec start :
  0 <= start <= Z.of_nat (length a) -> start <= Z.of_nat (length keys) ->
  exists l, longest_matches modifications a b start =
      Ok (l ++ [MkMatch (Z.of_nat (length a)) (Z.of_nat (length keys)) 0 0]) /\
    chain start start l (Z.of_nat (length a)) (Z.of_nat (length keys)).
Proof.
  intros Hs1 Hs2. unfold longest_matches. rewrite (ki_length _ _ indexed).
  destruct (find_longest_matches_spec (length a) start (Z.of_nat (length a)) start (Z.of_nat (length keys)))
    as (l & -> & Hl); try lia.
  cbn [mbind result_bind]. by exists l.
Qed.
End longest_match.
