(* ===== verification/RowAlignment.v ===== *)
(** The rows that [calculate] leaves in place: the loops that match the rows of the two lists by
    key, and those that delete and insert what lies between the common blocks. *)

From S2P Require Import Prelude ChunkedRangeVector RangeList IndexSet IndexSetCount IndexSetMerge.
From S2P Require Import ChangeBuilder KeptElements Collection RowDiff LongestMatch.

(** ** Elements with their indices *)

Section enum.
Context {A : Type}.
Implicit Types l : list A.

Definition enum (i : Z) (l : list A) : list (A * Z) := zip l (seqZ i (Z.of_nat (length l))).

Lemma enum_cons i a l : enum i (a :: l) = (a, i) :: enum (i + 1) l.
Proof.
  unfold enum. cbn [length]. rewrite seqZ_cons by lia. cbn [zip zip_with]. do 3 f_equal; lia.
Qed.

Lemma imap_enum {B} (f : A -> Z -> B) l :
  imap (fun i a => f a (Z.of_nat i)) l = (fun p => f (fst p) (snd p)) <$> enum 0 l.
Proof.
  assert (forall n, imap (fun i a => f a (Z.of_nat (n + i))) l = (fun p => f (fst p) (snd p)) <$> enum (Z.of_nat n) l)
    as Hn; [|apply (Hn 0%nat)].
  induction l as [|a l IH]; intros n; [done|]. rewrite enum_cons, imap_cons, fmap_cons, Nat.add_0_r. f_equal.
  replace (Z.of_nat n + 1) with (Z.of_nat (S n)) by lia. rewrite <- IH.
  apply imap_ext. intros i x _. simpl. do 2 f_equal. lia.
Qed.

Lemma elem_of_enum i a x l : (a, x) ∈ enum i l <-> nth_Z l (x - i) = Some a.
Proof.
  revert i. induction l as [|b l IH]; intros i; [by rewrite elem_of_nil, nth_nil|].
  rewrite enum_cons, elem_of_cons, nth_cons, IH. destruct (decide (x - i = 0)).
  - replace x with i by lia. split; [|intros [= ->]; by left].
    intros [[= ->]|H]; [done|]. apply nth_lt in H. lia.
  - replace (x - i - 1) with (x - (i + 1)) by lia. split; [intros [[= -> ->]|?]; [lia|done]|by right].
Qed.

Definition index_lt (p q : A * Z) : Prop := snd p < snd q.

Lemma enum_sorted i l : StronglySorted index_lt (enum i l).
Proof.
  revert i. induction l as [|a l IH]; intros i; [constructor|]. rewrite enum_cons. constructor; [done|].
  apply Forall_forall. intros [b x] Hb%elem_of_enum. apply nth_lt in Hb. unfold index_lt. simpl. lia.
Qed.

Lemma enum_fst i l : (enum i l).*1 = l.
Proof. unfold enum. apply fst_zip. rewrite length_seqZ. lia. Qed.

Lemma enum_distinct i l : NoDup (enum i l).*2.
Proof. unfold enum. rewrite snd_zip; [apply NoDup_seqZ|]. rewrite length_seqZ. lia. Qed.

Lemma keep_filter r i l : keep r i l = (filter (fun p => ~ has r (snd p)) (enum i l)).*1.
Proof.
  revert i. induction l as [|a l IH]; intros i; [done|]. rewrite enum_cons, filter_cons. cbn [keep snd].
  destruct (decide (has r i)); [rewrite decide_False by tauto|rewrite decide_True by done]; rewrite IH; done.
Qed.

#[export] Instance index_lt_antisymm : AntiSymm (=) index_lt.
Proof. intros p q ? ?. unfold index_lt in *. lia. Qed.

(** The elements that are left when those at some indices are taken away. *)
Lemma keep_of_permutation r l (taken left : list (A * Z)) :
  enum 0 l ≡ₚ taken ++ left -> (forall x, has r x <-> x ∈ taken.*2) -> StronglySorted index_lt left ->
  keep r 0 l = left.*1.
Proof.
  intros Hp Hr Hs. rewrite keep_filter. f_equal. apply (StronglySorted_unique index_lt).
  - apply StronglySorted_filter, enum_sorted.
  - done.
  - rewrite Hp, filter_app. pose proof (enum_distinct 0 l) as Hn. rewrite Hp, fmap_app in Hn.
    apply NoDup_app in Hn as (_ & Hn & _).
    assert (filter (fun p => ~ has r (snd p)) taken = []) as ->.
    { apply filter_none, Forall_forall. intros p Hin Hnot. apply Hnot, Hr, list_elem_of_fmap. by exists p. }
    rewrite filter_all; [done|]. apply Forall_forall. intros p Hin Hh%Hr.
    apply (Hn _ Hh). apply list_elem_of_fmap. by exists p.
Qed.
End enum.

(** ** The rows in one list only *)

Definition by_index (row : RowInfo) : Z * Z := (key row, tv_index row).
Definition by_prev_index (row : RowInfo) : Z * Z := (key row, prev_tv_index row).
Definition in_both (row : RowInfo) : Prop := prev_tv_index row <> npos.
Definition by_key (x y : RowInfo) : Prop := key x <= key y.

Section matching.
Context `{MaxSize}.
Abbreviation mem v x := (has (ranges v) x).

(** What the loops do: [deleted] and [inserted] are the rows in one list only. *)
Record matching (old new l : list RowInfo) (d i d' i' : IndexSet) (deleted inserted : list (Z * Z)) : Prop := {
  mt_deletions : index_set_ok d' /\ forall x, mem d' x <-> mem d x \/ x ∈ deleted.*2;
  mt_insertions : index_set_ok i' /\ forall x, mem i' x <-> mem i x \/ x ∈ inserted.*2;
  mt_old : by_index <$> old ≡ₚ deleted ++ (by_prev_index <$> filter in_both l);
  mt_new : by_index <$> new ≡ₚ inserted ++ (by_index <$> filter in_both l);
  mt_apart : StronglySorted by_key old -> StronglySorted by_key new ->
    forall k, k ∈ deleted.*1 -> k ∉ inserted.*1
}.

Lemma matching_nil d i : index_set_ok d -> index_set_ok i -> matching [] [] [] d i d i [] [].
Proof.
  intros Hd Hi. split; [| |done|done|by intros _ _ k ?%elem_of_nil];
    (split; [done|]); intros x; cbn; rewrite elem_of_nil; tauto.
Qed.

Lemma matching_delete o old new l d d1 i d' i' deleted inserted :
  (forall x, mem d1 x <-> x = tv_index o \/ mem d x) ->
  (StronglySorted by_key (o :: old) -> StronglySorted by_key new -> Forall (fun n => key o < key n) new) ->
  matching old new l d1 i d' i' deleted inserted ->
  matching (o :: old) new l d i d' i' (by_index o :: deleted) inserted.
Proof.
  intros Hd1 Hlt [[Hd Hdm] Hi Ho Hn Ha]. split; try done.
  - split; [done|]. intros x. rewrite fmap_cons, elem_of_cons, Hdm, Hd1. simpl. tauto.
  - by rewrite fmap_cons, Ho.
  - intros Hso Hsn k. rewrite fmap_cons, elem_of_cons. intros [->|Hk] Hin.
    + specialize (Hlt Hso Hsn). apply list_elem_of_fmap in Hin as (p & Ep & Hin).
      assert (p ∈ by_index <$> new) as Hp by (rewrite Hn; apply elem_of_app; by left).
      apply list_elem_of_fmap in Hp as (n & -> & Hp). rewrite Forall_forall in Hlt. apply Hlt in Hp.
      simpl in *. lia.
    + apply StronglySorted_inv in Hso as [Hso _]. by apply (Ha Hso Hsn k).
Qed.

Lemma matching_insert old n new l d i i1 d' i' deleted inserted :
  prev_tv_index n = npos ->
  (forall x, mem i1 x <-> x = tv_index n \/ mem i x) ->
  (StronglySorted by_key old -> StronglySorted by_key (n :: new) -> Forall (fun o => key n < key o) old) ->
  matching old new l d i1 d' i' deleted inserted ->
  matching old (n :: new) (n :: l) d i d' i' deleted (by_index n :: inserted).
Proof.
  intros Hprev Hi1 Hlt [Hd [Hi Him] Ho Hn Ha].
  assert (filter in_both (n :: l) = filter in_both l) as El
    by (rewrite filter_cons_False; [done|unfold in_both; tauto]).
  split; rewrite ?El; try done.
  - split; [done|]. intros x. rewrite fmap_cons, elem_of_cons, Him, Hi1. simpl. tauto.
  - by rewrite fmap_cons, Hn.
  - intros Hso Hsn k Hk. rewrite fmap_cons, elem_of_cons. intros [->|Hin].
    + specialize (Hlt Hso Hsn). apply list_elem_of_fmap in Hk as (p & Ep & Hk).
      assert (p ∈ by_index <$> old) as Hp by (rewrite Ho; apply elem_of_app; by left).
      apply list_elem_of_fmap in Hp as (o & -> & Hp). rewrite Forall_forall in Hlt. apply Hlt in Hp.
      simpl in *. lia.
    + apply StronglySorted_inv in Hsn as [Hsn _]. by apply (Ha Hso Hsn k).
Qed.

Lemma matching_both o old n new l d i d' i' deleted inserted :
  key o = key n -> tv_index o <> npos ->
  matching old new l d i d' i' deleted inserted ->
  matching (o :: old) (n :: new) (set_prev_index (tv_index o) n :: l) d i d' i' deleted inserted.
Proof.
  intros Hk Ht [Hd Hi Ho Hn Ha].
  assert (filter in_both (set_prev_index (tv_index o) n :: l) = set_prev_index (tv_index o) n :: filter in_both l)
    as El by (by rewrite filter_cons_True).
  split; rewrite ?El, ?fmap_cons; try done.
  - rewrite Ho. unfold by_index at 1, by_prev_index at 2, set_prev_index. cbn [key prev_tv_index].
    rewrite Hk. by rewrite Permutation_middle.
  - rewrite Hn. unfold by_index at 1 3, set_prev_index. cbn [key tv_index]. by rewrite Permutation_middle.
  - intros [Hso _]%StronglySorted_inv [Hsn _]%StronglySorted_inv. by apply Ha.
Qed.

Lemma sorted_head_lt x y l : key x < key y -> StronglySorted by_key (y :: l) -> Forall (fun z => key x < key z) (y :: l).
Proof.
  intros Hlt [_ Hl]%StronglySorted_inv. constructor; [done|]. eapply Forall_impl; [exact Hl|].
  unfold by_key. intros z ?. lia.
Qed.

Lemma match_rows_spec old new d i :
  Forall (fun r => 0 <= tv_index r < npos) old ->
  Forall (fun r => 0 <= tv_index r < npos /\ prev_tv_index r = npos) new ->
  index_set_ok d -> index_set_ok i ->
  exists d' i' l deleted inserted, match_rows old new d i = Ok (d', i', l) /\
    matching old new l d i d' i' deleted inserted.
Proof.
  intros Hold. revert new d i. induction Hold as [|o old Ho Hold IHo]; intros new d i Hnew;
    revert d i; induction Hnew as [|n new [Hn Hp] Hnew IHn]; intros d i Hd Hi; cbn [match_rows].
  - exists d, i, [], [], []. split; [done|]. by apply matching_nil.
  - destruct (add_spec i (tv_index n) Hi Hn) as (i1 & -> & Hi1 & Hm1). cbn [mbind result_bind].
    destruct (IHn d i1 Hd Hi1) as (d' & i' & l & de & ins & E & Hm). cbn [match_rows] in E. rewrite E.
    eexists _, _, _, de, _. split; [done|]. eapply matching_insert; [done|exact Hm1|constructor|exact Hm].
  - destruct (add_spec d (tv_index o) Hd Ho) as (d1 & -> & Hd1 & Hm1). cbn [mbind result_bind].
    destruct (IHo [] d1 i) as (d' & i' & l & de & ins & -> & Hm); [constructor|done|done|].
    eexists _, _, _, _, ins. split; [done|]. eapply matching_delete; [exact Hm1|constructor|exact Hm].
  - destruct (Z.eqb_spec (key o) (key n)) as [Hk|Hk]; [|destruct (Z.ltb_spec (key o) (key n))].
    + destruct (IHo new d i) as (d' & i' & l & de & ins & -> & Hm); [done..|]. cbn [mbind result_bind].
      eexists _, _, _, de, ins. split; [done|]. apply matching_both; [done|lia|done].
    + destruct (add_spec d (tv_index o) Hd Ho) as (d1 & -> & Hd1 & Hm1). cbn [mbind result_bind].
      destruct (IHo (n :: new) d1 i) as (d' & i' & l & de & ins & -> & Hm); [by constructor|done|done|].
      eexists _, _, _, _, ins. split; [done|]. eapply matching_delete; [exact Hm1| |exact Hm].
      intros _ Hs. by apply sorted_head_lt.
    + destruct (add_spec i (tv_index n) Hi Hn) as (i1 & -> & Hi1 & Hm1). cbn [mbind result_bind].
      destruct (IHn d i1 Hd Hi1) as (d' & i' & l & de & ins & E & Hm). cbn [match_rows] in E. rewrite E.
      eexists _, _, _, de, _. split; [done|]. eapply matching_insert; [done|exact Hm1| |exact Hm].
      intros Hs _. apply sorted_head_lt; [lia|done].
Qed.
End matching.

(** ** The alignment of the rows in both lists *)

Section alignment.
Context `{MaxSize}.
Abbreviation mem v x := (has (ranges v) x).

Lemma add_rows_spec {A} (index : A -> Z) (l1 l2 l3 : list A) v :
  Forall (fun r => 0 <= index r < npos) l2 -> index_set_ok v ->
  exists v', add_rows index (l1 ++ l2 ++ l3) (Z.of_nat (length l1)) (Z.of_nat (length l1 + length l2)) v = Ok v' /\
    index_set_ok v' /\ (forall x, mem v' x <-> mem v x \/ x ∈ index <$> l2).
Proof.
  unfold add_rows. intros Hl2. revert l1 v. induction Hl2 as [|r l2 Hr Hl2 IH]; intros l1 v Hv.
  { exists v. replace (Z.of_nat (length l1 + length (@nil A)) - Z.of_nat (length l1)) with 0 by (simpl; lia).
    split_and!; [done|done|]. intros x. cbn. rewrite elem_of_nil. tauto. }
  rewrite seqZ_cons by (simpl; lia). cbn [fold_result app]. rewrite nth_split by done.
  destruct (add_spec v (index r) Hv Hr) as (v1 & -> & Hv1 & Hm1). cbn [mbind result_bind].
  destruct (IH (l1 ++ [r]) v1 Hv1) as (v' & E & Hv' & Hm'). exists v'. rewrite <- !app_assoc in E. cbn [app] in E.
  split_and!; [|done|].
  - rewrite <- E. rewrite !length_app. cbn [length]. f_equal. f_equal; lia.
  - intros x. rewrite Hm', Hm1, fmap_cons, elem_of_cons. tauto.
Qed.

(** The same keys in a common block. *)
Lemma common_keys (a1 a2 a3 : list Row) (r1 r2 r3 : list RowInfo) n :
  common (key <$> (r1 ++ r2 ++ r3)) (a1 ++ a2 ++ a3) (Z.of_nat (length a1)) (Z.of_nat (length r1)) n ->
  Z.of_nat (length a2) = n -> Z.of_nat (length r2) = n -> r_key <$> a2 = key <$> r2.
Proof.
  intros Hc Ha Hr. apply list_eq. intros t.
  destruct (decide (t < length a2)%nat) as [Ht|Ht].
  - destruct (Hc (Z.of_nat t)) as (r & Hx & Hy); [lia|].
    rewrite nth_app_r, nth_app_l in Hx by lia.
    rewrite !fmap_app, nth_app_r, nth_app_l in Hy by (rewrite ?length_fmap; lia).
    rewrite length_fmap in Hy. unfold nth_Z in Hx, Hy. rewrite decide_True in Hx by lia. rewrite decide_True in Hy by lia.
    replace (Z.to_nat (Z.of_nat (length a1) + Z.of_nat t - Z.of_nat (length a1))) with t in Hx by lia.
    replace (Z.to_nat (Z.of_nat (length r1) + Z.of_nat t - Z.of_nat (length r1))) with t in Hy by lia.
    by rewrite list_lookup_fmap, Hx, Hy.
  - rewrite !lookup_ge_None_2 by (rewrite length_fmap; lia). done.
Qed.

(** Rows taken away and rows left, in order. *)
Record split_rows {A} (l taken left : list A) : Prop := {
  sr_permutation : l ≡ₚ taken ++ left;
  sr_sublist : left `sublist_of` l
}.

Lemma split_rows_block {A} (l1 l2 l taken left : list A) :
  split_rows l taken left -> split_rows (l1 ++ l2 ++ l) (l1 ++ taken) (l2 ++ left).
Proof.
  intros [Hp Hs]. split.
  - rewrite Hp. rewrite <- !app_assoc. f_equiv. rewrite !app_assoc. f_equiv. apply Permutation_app_comm.
  - apply sublist_inserts_l, sublist_app; done.
Qed.

(** The state after the loop over the matches: the rows between them are taken away. *)
Record aligned (a : list Row) (rows : list RowInfo) (d i d' i' : IndexSet) : Prop := {
  al_ok : index_set_ok d' /\ index_set_ok i';
  al_rows : exists taken_a left_a taken left,
    split_rows a taken_a left_a /\ split_rows rows taken left /\ r_key <$> left_a = key <$> left /\
    (forall x, mem d' x <-> mem d x \/ x ∈ r_index <$> taken_a) /\
    (forall x, mem i' x <-> mem i x \/ x ∈ tv_index <$> taken)
}.

Lemma aligned_block a1 a2 a3 r1 r2 r3 d i d1 i1 d' i' :
  r_key <$> a2 = key <$> r2 ->
  (forall x, mem d1 x <-> mem d x \/ x ∈ r_index <$> a1) ->
  (forall x, mem i1 x <-> mem i x \/ x ∈ tv_index <$> r1) ->
  aligned a3 r3 d1 i1 d' i' -> aligned (a1 ++ a2 ++ a3) (r1 ++ r2 ++ r3) d i d' i'.
Proof.
  intros Hk Hd1 Hi1 [Hok (ta & la & t & l & Ha & Hr & Hkl & Hd & Hi)]. split; [done|].
  exists (a1 ++ ta), (a2 ++ la), (r1 ++ t), (r2 ++ l). split_and!.
  - by apply split_rows_block.
  - by apply split_rows_block.
  - rewrite !fmap_app. congruence.
  - intros x. rewrite Hd, Hd1, fmap_app, elem_of_app. tauto.
  - intros x. rewrite Hi, Hi1, fmap_app, elem_of_app. tauto.
Qed.

(** One match: the loops before it and the block itself. *)
Lemma align_match_spec (a0 a1 a2 a3 : list Row) (r0 r1 r2 r3 : list RowInfo) d i m :
  let a := a0 ++ a1 ++ a2 ++ a3 in
  let rows := r0 ++ r1 ++ r2 ++ r3 in
  Forall (fun r => 0 <= r_index r < npos) a1 -> Forall (fun r => 0 <= tv_index r < npos) r1 ->
  index_set_ok d -> index_set_ok i ->
  m_i m = Z.of_nat (length a0 + length a1) -> m_j m = Z.of_nat (length r0 + length r1) ->
  m_size m = Z.of_nat (length a2) -> m_size m = Z.of_nat (length r2) ->
  Z.of_nat (length a) < npos -> Z.of_nat (length rows) < npos ->
  exists d' i', align_match a rows (Z.of_nat (length a0), Z.of_nat (length r0), d, i) m =
      Ok (Z.of_nat (length (a0 ++ a1 ++ a2)), Z.of_nat (length (r0 ++ r1 ++ r2)), d', i') /\
    index_set_ok d' /\ index_set_ok i' /\
    (forall x, mem d' x <-> mem d x \/ x ∈ r_index <$> a1) /\
    (forall x, mem i' x <-> mem i x \/ x ∈ tv_index <$> r1).
Proof.
  intros a rows Ha1 Hr1 Hd Hi Hmi Hmj Hsa Hsr Hla Hlr. unfold align_match. rewrite Hmi, Hmj.
  subst a rows.
  destruct (add_rows_spec r_index a0 a1 (a2 ++ a3) d Ha1 Hd) as (d' & -> & Hd' & Hmd).
  destruct (add_rows_spec tv_index r0 r1 (r2 ++ r3) i Hr1 Hi) as (i' & -> & Hi' & Hmi').
  cbn [mbind result_bind]. exists d', i'. split_and!; try done.
  rewrite !length_app in *.
  rewrite !u64_small by (unfold npos in *; lia). repeat f_equal; lia.
Qed.

Lemma align_spec (l : list Match) (a0 a : list Row) (r0 rows : list RowInfo) d i :
  let n := Z.of_nat (length (a0 ++ a)) in
  let n' := Z.of_nat (length (r0 ++ rows)) in
  chain (key <$> (r0 ++ rows)) (a0 ++ a) (Z.of_nat (length a0)) (Z.of_nat (length r0)) l n n' ->
  Forall (fun r => 0 <= r_index r < npos) a -> Forall (fun r => 0 <= tv_index r < npos) rows ->
  index_set_ok d -> index_set_ok i -> n < npos -> n' < npos ->
  exists d' i', fold_result (align_match (a0 ++ a) (r0 ++ rows))
      (Z.of_nat (length a0), Z.of_nat (length r0), d, i) (l ++ [MkMatch n n' 0 0]) = Ok (n, n', d', i') /\
    aligned a rows d i d' i'.
Proof.
  intros n n'. revert a0 a r0 rows d i n n'. induction l as [|m l IH];
    intros a0 a r0 rows d i n n' Hc Ha Hr Hd Hi Hn Hn'; cbn [app fold_result].
  - destruct (align_match_spec a0 a [] [] r0 rows [] [] d i (MkMatch n n' 0 0)) as
      (d' & i' & E & Hd' & Hi' & Hmd & Hmi); rewrite ?app_nil_r; try done.
    { unfold n. by rewrite length_app. }
    { unfold n'. by rewrite length_app. }
    rewrite !app_nil_r in E. rewrite E. cbn [mbind result_bind]. exists d', i'. split; [done|].
    rewrite <- (app_nil_r a), <- (app_nil_r rows).
    apply (aligned_block a [] [] rows [] [] d i d' i'); [done..|].
    split; [done|]. exists [], [], [], []. split_and!; try done; intros x; cbn; rewrite elem_of_nil; tauto.
  - destruct Hc as (Hci & Hcj & Hs & Hcom & Hc). apply chain_bounds in Hc as Hb. destruct Hb as [Hb1 Hb2].
    subst n n'. rewrite !length_app in Hb1, Hb2.
    destruct (split_before a (m_i m - Z.of_nat (length a0))) as (a1 & a' & -> & Hl1); [lia|].
    rewrite length_app in Hb1.
    destruct (split_before a' (m_size m)) as (a2 & a3 & -> & Hl2); [lia|].
    destruct (split_before rows (m_j m - Z.of_nat (length r0))) as (r1 & rows' & -> & Hl3); [lia|].
    rewrite length_app in Hb2.
    destruct (split_before rows' (m_size m)) as (r2 & r3 & -> & Hl4); [lia|].
    rewrite !Forall_app in Ha. rewrite !Forall_app in Hr. destruct Ha as (Ha1 & _ & Ha3), Hr as (Hr1 & _ & Hr3).
    destruct (align_match_spec a0 a1 a2 a3 r0 r1 r2 r3 d i m) as (d1 & i1 & -> & Hd1 & Hi1 & Hmd & Hmi);
      try done; try lia.
    cbn [mbind result_bind].
    assert (forall {A} (l0 l1 l2 l3 : list A), l0 ++ l1 ++ l2 ++ l3 = (l0 ++ l1 ++ l2) ++ l3) as Happ
      by (intros; by rewrite <- !app_assoc).
    rewrite (Happ _ a0 a1 a2 a3), (Happ _ r0 r1 r2 r3) in *.
    destruct (IH (a0 ++ a1 ++ a2) a3 (r0 ++ r1 ++ r2) r3 d1 i1) as (d' & i' & -> & Hal); try done.
    { eapply chain_weaken; [exact Hc|rewrite !length_app; lia..]. }
    exists d', i'. split; [done|]. rewrite <- !Happ in *. eapply aligned_block; [|exact Hmd|exact Hmi|exact Hal].
    apply (common_keys (a0 ++ a1) a2 a3 (r0 ++ r1) r2 r3 (m_size m)); [|done|done].
    rewrite <- !app_assoc, !length_app. replace (Z.of_nat (length a0 + length a1)) with (m_i m) by lia.
    by replace (Z.of_nat (length r0 + length r1)) with (m_j m) by lia.
Qed.
End alignment.
