(* ===== verification/Calculation.v ===== *)
(** The state of [calculate] before the moves: which rows are in one list only, which are in
    both, and that the alignment of those leaves the same rows in place in both lists. *)

From S2P Require Import Prelude ChunkedRangeVector RangeList IndexSet IndexSetCount IndexSetMerge.
From S2P Require Import IndexSetProps ChangeBuilder KeptElements Collection ChangeReport.
From S2P Require Import RowDiff LongestMatch RowAlignment.

(** ** Sorted vectors *)

Lemma weak_order_on {A} (f : A -> Z) : weak_order (fun x y => f x <? f y).
Proof.
  split.
  - intros x y ?%Z.ltb_lt. apply Z.ltb_ge. lia.
  - intros x y z ?%Z.ltb_ge ?%Z.ltb_ge. apply Z.ltb_ge. lia.
Qed.

Lemma lex_less_false a b c d : lex_less a b c d = false <-> c < a \/ (a = c /\ d <= b).
Proof.
  unfold lex_less. destruct (Z.ltb_spec a c), (Z.eqb_spec a c), (Z.ltb_spec b d); simpl;
    (split; [intros ?; try done; lia|intros [?|[? ?]]; try done; lia]).
Qed.

Lemma weak_order_lex {A} (f g : A -> Z) : weak_order (fun x y => lex_less (f x) (g x) (f y) (g y)).
Proof.
  split.
  - intros x y Hxy. apply lex_less_false. destruct (lex_less (f y) (g y) (f x) (g x)) eqn:E.
    + unfold lex_less in *. apply orb_true_iff in Hxy as [?|Hxy]; [bool_to_Prop; lia|].
      apply orb_true_iff in E as [?|E]; bool_to_Prop; lia.
    + apply lex_less_false in E. unfold lex_less in Hxy. apply orb_true_iff in Hxy as [?|?]; bool_to_Prop; lia.
  - intros x y z. rewrite !lex_less_false. lia.
Qed.

Definition row_pair (r : Row) : Z * Z := (r_key r, r_index r).

Section sorted_rows.
Context `{StdSort}.

Lemma rows_by_index_pairs rows : row_pair <$> rows_by_index rows ≡ₚ by_prev_index <$> rows.
Proof. unfold rows_by_index. rewrite std_sort_permutation, <- list_fmap_compose. done. Qed.

Lemma rows_by_index_elem r rows :
  r ∈ rows_by_index rows -> exists row, row ∈ rows /\ r_key r = key row /\ r_index r = prev_tv_index row.
Proof.
  intros Hr. apply (list_elem_of_fmap_2 row_pair) in Hr. rewrite rows_by_index_pairs in Hr.
  apply list_elem_of_fmap in Hr as (row & [= Hk Hi] & Hr). by exists row.
Qed.

Lemma rows_by_index_keys rows : Forall (fun r => r_key r ∈ key <$> rows) (rows_by_index rows).
Proof. apply Forall_forall. intros r (row & Hr & -> & _)%rows_by_index_elem. by apply list_elem_of_fmap_2. Qed.

Lemma rows_by_index_sorted rows :
  NoDup (by_prev_index <$> rows).*2 -> StronglySorted index_lt (row_pair <$> rows_by_index rows).
Proof.
  intros Hn. apply StronglySorted_fmap.
  eapply (StronglySorted_strict _ _ r_index); [| |apply std_sort_sorted, weak_order_lex].
  - intros x y Hxy%lex_less_false Hne. unfold index_lt. simpl. lia.
  - fold (rows_by_index rows). pose proof (rows_by_index_pairs rows) as Hp.
    rewrite <- Hp, <- list_fmap_compose in Hn. exact Hn.
Qed.

Lemma length_rows_by_index rows : length (rows_by_index rows) = length rows.
Proof.
  transitivity (length (row_pair <$> rows_by_index rows)); [by rewrite length_fmap|].
  by rewrite (rows_by_index_pairs rows), length_fmap.
Qed.

Lemma rows_by_key_index rows : key_index (key <$> rows) (rows_by_key rows).
Proof.
  assert (rows_by_key rows ≡ₚ (fun p => MkRow (fst p) (snd p)) <$> enum 0 (key <$> rows)) as Hp.
  { unfold rows_by_key. rewrite std_sort_permutation, <- imap_enum, imap_fmap. done. }
  split.
  - eapply (StronglySorted_strict _ _ r_index); [| |apply std_sort_sorted, weak_order_lex].
    + intros x y Hxy%lex_less_false Hne. unfold row_lt. lia.
    + fold (rows_by_key rows). rewrite Hp, <- list_fmap_compose. apply enum_distinct.
  - intros k j. rewrite Hp, <- (Z.sub_0_r j) at 1. rewrite Z.sub_0_r. rewrite <- (Z.sub_0_r j) at 2.
    rewrite <- elem_of_enum, list_elem_of_fmap. split.
    + intros ([k' j'] & [= -> ->] & Hin). done.
    + intros Hin. by exists (k, j).
  - rewrite Hp, length_fmap. unfold enum. rewrite length_zip, length_seqZ, length_fmap. lia.
Qed.
End sorted_rows.

(** ** The moves *)

Section moves.
Context `{MaxSize, StdSort}.
Abbreviation mem v x := (has (ranges v) x).

Lemma first_difference_spec i (a : list Row) (rows : list RowInfo) :
  length a = length rows ->
  exists o, first_difference i a rows = Ok o /\
    match o with
    | None => r_key <$> a = key <$> rows
    | Some s => exists a0 a1 r0 r1, a = a0 ++ a1 /\ rows = r0 ++ r1 /\ r_key <$> a0 = key <$> r0 /\
        s = i + Z.of_nat (length a0) /\ length a0 = length r0
    end.
Proof.
  revert i rows. induction a as [|r a IH]; intros i [|row rows] Hl; simplify_eq/=; [by eexists|].
  destruct (Z.eqb_spec (r_key r) (key row)) as [Hk|Hk]; cbn [negb].
  - destruct (IH (i + 1) rows Hl) as (o & -> & Ho). exists o. split; [done|]. destruct o as [s|].
    + destruct Ho as (a0 & a1 & r0 & r1 & -> & -> & Hk0 & -> & Hl0).
      exists (r :: a0), a1, (row :: r0), r1. rewrite !fmap_cons, Hk, Hk0. split_and!; try done; simpl; lia.
    + by rewrite Hk, Ho.
  - eexists. split; [done|]. exists [], (r :: a), [], (row :: rows). split_and!; try done. simpl. lia.
Qed.

Lemma calculate_moves_spec rows d i m :
  Forall (fun r => 0 <= prev_tv_index r < npos) rows -> Forall (fun r => 0 <= tv_index r < npos) rows ->
  Z.of_nat (length rows) < npos -> index_set_ok d -> index_set_ok i -> index_set_ok m ->
  exists d' i', calculate_moves_sorted rows d i m = Ok (d', i') /\
    aligned (rows_by_index rows) rows d i d' i'.
Proof.
  intros Hp Ht Hn Hd Hi Hm. unfold calculate_moves_sorted.
  pose proof (length_rows_by_index rows) as Hla.
  destruct (first_difference_spec 0 (rows_by_index rows) rows Hla) as (o & -> & Ho). cbn [mbind result_bind].
  destruct o as [s|].
  - destruct Ho as (a0 & a1 & r0 & r1 & Ea & Er & Hk & -> & Hl0).
    assert (Forall (fun r => 0 <= r_index r < npos) (rows_by_index rows)) as Hra.
    { apply Forall_forall. intros r (row & Hr & _ & ->)%rows_by_index_elem.
      rewrite Forall_forall in Hp. by apply Hp. }
    destruct (longest_matches_spec m (key <$> rows) (rows_by_index rows) (rows_by_key rows) Hm
      (rows_by_key_index rows) (rows_by_index_keys rows) ltac:(rewrite Hla; lia) ltac:(rewrite length_fmap; lia)
      (0 + Z.of_nat (length a0))) as (l & -> & Hc).
    { rewrite Ea, length_app. lia. }
    { rewrite Er, length_fmap, length_app. lia. }
    cbn [mbind result_bind]. rewrite Z.add_0_l in *. rewrite length_fmap in Hc |- *.
    rewrite Er, Ea in * |- *.
    destruct (align_spec l a0 a1 r0 r1 d i) as (d' & i' & E & Hal); try done.
    { by rewrite <- Hl0. }
    { by apply Forall_app in Hra as [_ ?]. }
    { by apply Forall_app in Ht as [_ ?]. }
    { lia. }
    rewrite <- Hl0 in E. rewrite E. cbn [mbind result_bind]. exists d', i'. split; [done|].
    apply (aligned_block [] a0 a1 [] r0 r1 d i d i); [done| | |done]; intros x; cbn; rewrite elem_of_nil; tauto.
  - exists d, i. split; [done|]. split; [done|]. exists [], (rows_by_index rows), [], rows.
    split_and!; try done; intros x; cbn; rewrite elem_of_nil; tauto.
Qed.
End moves.

(** ** The rows in both lists *)

Section start.
Context `{MaxSize, StdSort}.
Abbreviation mem v x := (has (ranges v) x).
Implicit Types prev next : list Z.

Lemma build_row_info_pairs l : by_index <$> build_row_info l ≡ₚ enum 0 l.
Proof.
  unfold build_row_info. rewrite std_sort_permutation, (imap_enum (fun k i => MkRowInfo k npos i)).
  rewrite <- list_fmap_compose. rewrite (list_fmap_ext _ id); [by rewrite list_fmap_id|]. by intros ? [].
Qed.

Lemma build_row_info_elem r l :
  r ∈ build_row_info l -> 0 <= tv_index r < Z.of_nat (length l) /\ prev_tv_index r = npos.
Proof.
  unfold build_row_info. rewrite std_sort_permutation, (imap_enum (fun k i => MkRowInfo k npos i)).
  intros ([k i] & -> & Hi)%list_elem_of_fmap. apply elem_of_enum, nth_lt in Hi. simpl. split; [lia|done].
Qed.

Lemma build_row_info_sorted l : StronglySorted by_key (build_row_info l).
Proof.
  unfold build_row_info. eapply (StronglySorted_weaken (fun x y => (key y <? key x) = false)).
  - intros x y ?%Z.ltb_ge. done.
  - apply std_sort_sorted, (weak_order_on key).
Qed.

Lemma add_modifications_spec (f : Z -> bool) rows v :
  Forall (fun r => 0 <= tv_index r < npos) rows -> index_set_ok v ->
  exists v', add_modifications f rows v = Ok v' /\ index_set_ok v' /\
    (forall x, mem v' x <-> mem v x \/ exists row, row ∈ rows /\ f (key row) = true /\ x = tv_index row).
Proof.
  intros Hr. revert v. unfold add_modifications. induction Hr as [|r rows Hr _ IH]; intros v Hv; cbn [fold_result].
  { exists v. split_and!; [done|done|]. intros x. split; [by left|]. by intros [?|(r & ?%elem_of_nil & _)]. }
  assert (exists v1, (if f (key r) then add v (tv_index r) else Ok v) = Ok v1 /\ index_set_ok v1 /\
    forall x, mem v1 x <-> mem v x \/ f (key r) = true /\ x = tv_index r) as (v1 & -> & Hv1 & Hm1).
  { destruct (f (key r)).
    - destruct (add_spec v (tv_index r) Hv Hr) as (v1 & E & Hv1 & Hm1). exists v1. split_and!; try done.
      intros x. rewrite Hm1. tauto.
    - exists v. split_and!; try done. intros x. split; [by left|]. by intros [?|[? _]]. }
  cbn [mbind result_bind]. destruct (IH v1 Hv1) as (v' & E & Hv' & Hm'). exists v'. split_and!; try done.
  intros x. rewrite Hm', Hm1. setoid_rewrite elem_of_cons. naive_solver.
Qed.

(** The state of [calculate] before the moves. *)
Record calculation prev next (f : Z -> bool) (d i m : IndexSet) (rows : list RowInfo)
    (deleted inserted : list (Z * Z)) : Prop := {
  ca_deletions : index_set_ok d /\ forall x, mem d x <-> x ∈ deleted.*2;
  ca_insertions : index_set_ok i /\ forall x, mem i x <-> x ∈ inserted.*2;
  ca_modifications : index_set_ok m /\
    forall x, mem m x <-> exists row, row ∈ rows /\ f (key row) = true /\ x = tv_index row;
  ca_prev : enum 0 prev ≡ₚ deleted ++ (by_prev_index <$> rows);
  ca_next : enum 0 next ≡ₚ inserted ++ (by_index <$> rows);
  ca_rows : StronglySorted index_lt (by_index <$> rows);
  ca_apart : forall k, k ∈ deleted.*1 -> k ∉ inserted.*1
}.

Arguments ca_deletions {_ _ _ _ _ _ _ _ _} _.
Arguments ca_insertions {_ _ _ _ _ _ _ _ _} _.
Arguments ca_modifications {_ _ _ _ _ _ _ _ _} _.
Arguments ca_prev {_ _ _ _ _ _ _ _ _} _.
Arguments ca_next {_ _ _ _ _ _ _ _ _} _.
Arguments ca_rows {_ _ _ _ _ _ _ _ _} _.
Arguments ca_apart {_ _ _ _ _ _ _ _ _} _.

Lemma calculate_start prev next f :
  Z.of_nat (length prev) < npos -> Z.of_nat (length next) < npos ->
  exists d i m rows deleted inserted, calculation prev next f d i m rows deleted inserted /\
    forall b, calculate prev next f b =
      ('(d, i) ← (if b then Ok (d, i) else calculate_moves_sorted rows d i m);
       Ok (Builder d i m [] [] ∅ true)).
Proof.
  intros Hp Hn. unfold calculate, calculate_rows.
  destruct (match_rows_spec (build_row_info prev) (build_row_info next) [] []) as
    (d & i & l & deleted & inserted & -> & [Hd Hi Hold Hnew Ha]); [..|apply empty_ok|apply empty_ok|].
  { apply Forall_forall. intros r Hr. apply build_row_info_elem in Hr as [? _]. lia. }
  { apply Forall_forall. intros r Hr. apply build_row_info_elem in Hr as [? ?]. split; [lia|done]. }
  cbn [mbind result_bind].
  set (rows := std_sort (fun l r => tv_index l <? tv_index r) (filter (fun row => prev_tv_index row <> npos) l)).
  assert (rows ≡ₚ filter in_both l) as Hrows by apply std_sort_permutation.
  rewrite build_row_info_pairs, <- Hrows in Hold, Hnew.
  assert (Forall (fun r => 0 <= tv_index r < npos) rows) as Hrt.
  { apply Forall_forall. intros r Hr. assert (by_index r ∈ enum 0 next) as He%elem_of_enum%nth_lt.
    { rewrite Hnew, elem_of_app. right. by apply list_elem_of_fmap_2. } lia. }
  destruct (add_modifications_spec f rows [] Hrt empty_ok) as (m & -> & Hm & Hmm). cbn [mbind result_bind].
  exists d, i, m, rows, deleted, inserted. split; [|done]. split; try done.
  - split; [apply Hd|]. intros x. rewrite (proj2 Hd), has_nil. tauto.
  - split; [apply Hi|]. intros x. rewrite (proj2 Hi), has_nil. tauto.
  - split; [done|]. intros x. rewrite Hmm, has_nil. tauto.
  - apply StronglySorted_fmap.
    eapply (StronglySorted_strict _ _ tv_index); [| |apply std_sort_sorted, (weak_order_on tv_index)].
    + intros x y ?%Z.ltb_ge ?. unfold index_lt. simpl. lia.
    + fold rows. pose proof (enum_distinct 0 next) as Hdi. rewrite Hnew, fmap_app in Hdi.
      apply NoDup_app in Hdi as (_ & _ & Hdi). by rewrite <- list_fmap_compose in Hdi.
  - apply Ha; apply build_row_info_sorted.
Qed.

(** ** The rows left in place *)

Section calculation.
Context {prev next : list Z} {f : Z -> bool} {d i m : IndexSet} {rows : list RowInfo}
  {deleted inserted : list (Z * Z)}.
Hypothesis calculated : calculation prev next f d i m rows deleted inserted.
Hypothesis prev_size : Z.of_nat (length prev) < npos.
Hypothesis next_size : Z.of_nat (length next) < npos.

Lemma prev_row r : r ∈ rows -> nth_Z prev (prev_tv_index r) = Some (key r).
Proof.
  intros Hr. rewrite <- (Z.sub_0_r (prev_tv_index r)). apply elem_of_enum.
  rewrite (ca_prev calculated), elem_of_app. right. by apply (list_elem_of_fmap_2 by_prev_index).
Qed.

Lemma next_row r : r ∈ rows -> nth_Z next (tv_index r) = Some (key r).
Proof.
  intros Hr. rewrite <- (Z.sub_0_r (tv_index r)). apply elem_of_enum.
  rewrite (ca_next calculated), elem_of_app. right. by apply (list_elem_of_fmap_2 by_index).
Qed.

Lemma prev_indexes_distinct : NoDup (by_prev_index <$> rows).*2.
Proof.
  pose proof (enum_distinct 0 prev) as Hn. rewrite (ca_prev calculated), fmap_app in Hn.
  by apply NoDup_app in Hn as (_ & _ & ?).
Qed.

(** The rows in both lists, in the old order and in the new one. *)
Lemma kept_prev : keep (ranges d) 0 prev = r_key <$> rows_by_index rows.
Proof.
  rewrite (keep_of_permutation (ranges d) prev deleted (row_pair <$> rows_by_index rows)).
  - by rewrite <- list_fmap_compose.
  - by rewrite rows_by_index_pairs, <- (ca_prev calculated).
  - apply (ca_deletions calculated).
  - apply rows_by_index_sorted, prev_indexes_distinct.
Qed.

Lemma kept_next : keep (ranges i) 0 next = key <$> rows.
Proof.
  rewrite (keep_of_permutation (ranges i) next inserted (by_index <$> rows)).
  - by rewrite <- list_fmap_compose.
  - apply (ca_next calculated).
  - apply (ca_insertions calculated).
  - apply (ca_rows calculated).
Qed.

Lemma calculated_moves :
  exists d' i', calculate_moves_sorted rows d i m = Ok (d', i') /\ aligned (rows_by_index rows) rows d i d' i'.
Proof.
  apply calculate_moves_spec; try apply calculated.
  - apply Forall_forall. intros r Hr%prev_row%nth_lt. lia.
  - apply Forall_forall. intros r Hr%next_row%nth_lt. lia.
  - pose proof (ca_next calculated) as Hp. apply Permutation_length in Hp.
    rewrite length_app, length_fmap in Hp. unfold enum in Hp. rewrite length_zip, length_seqZ in Hp. lia.
Qed.

Lemma aligned_kept d' i' :
  aligned (rows_by_index rows) rows d i d' i' -> keep (ranges d') 0 prev = keep (ranges i') 0 next.
Proof.
  intros [_ (ta & la & t & l & [Hpa Hsa] & [Hpr Hsr] & Hk & Hd & Hi)].
  rewrite (keep_of_permutation (ranges d') prev (deleted ++ (row_pair <$> ta)) (row_pair <$> la)).
  - rewrite (keep_of_permutation (ranges i') next (inserted ++ (by_index <$> t)) (by_index <$> l)).
    + rewrite <- !list_fmap_compose. exact Hk.
    + by rewrite (ca_next calculated), <- app_assoc, <- fmap_app, <- Hpr.
    + intros x. rewrite Hi, fmap_app, elem_of_app, <- list_fmap_compose.
      by rewrite (proj2 (ca_insertions calculated)).
    + eapply StronglySorted_sublist; [by apply sublist_map|]. apply (ca_rows calculated).
  - by rewrite (ca_prev calculated), <- rows_by_index_pairs, <- app_assoc, <- fmap_app, <- Hpa.
  - intros x. rewrite Hd, fmap_app, elem_of_app, <- list_fmap_compose.
    by rewrite (proj2 (ca_deletions calculated)).
  - eapply StronglySorted_sublist; [by apply sublist_map|]. apply rows_by_index_sorted, prev_indexes_distinct.
Qed.

Lemma aligned_bounds d' i' :
  aligned (rows_by_index rows) rows d i d' i' ->
  below (Z.of_nat (length prev)) (ranges d') /\ below (Z.of_nat (length next)) (ranges i').
Proof.
  intros [[Hokd Hoki] (ta & la & t & l & [Hpa _] & [Hpr _] & _ & Hd & Hi)].
  assert (forall (l : list Z) (taken left : list (Z * Z)) x, enum 0 l ≡ₚ taken ++ left -> x ∈ taken.*2 ->
    x < Z.of_nat (length l)) as Hlt.
  { intros l0 taken left x Hp ([k y] & -> & Hx)%list_elem_of_fmap. simpl.
    assert ((k, y) ∈ enum 0 l0) as He%elem_of_enum%nth_lt; [|lia]. rewrite Hp, elem_of_app. by left. }
  split; (apply below_of_has; [apply sorted_ok; by apply is_sorted|]); intros x.
  - intros [Hx|Hx]%Hd.
    + apply (ca_deletions calculated) in Hx. eapply Hlt; [apply calculated|done].
    + apply list_elem_of_fmap in Hx as (r & -> & Hr).
      assert (r ∈ rows_by_index rows) as (row & Hin & _ & ->)%rows_by_index_elem
        by (rewrite Hpa, elem_of_app; by left).
      apply prev_row, nth_lt in Hin. lia.
  - intros [Hx|Hx]%Hi.
    + apply (ca_insertions calculated) in Hx. eapply Hlt; [apply calculated|done].
    + apply list_elem_of_fmap in Hx as (r & -> & Hr).
      assert (r ∈ rows) as Hin%next_row%nth_lt by (rewrite Hpr, elem_of_app; by left). lia.
Qed.

Lemma aligned_refl : r_key <$> rows_by_index rows = key <$> rows -> aligned (rows_by_index rows) rows d i d i.
Proof.
  intros Hk. split; [split; apply calculated|]. exists [], (rows_by_index rows), [], rows.
  split_and!; try done; intros x; cbn; rewrite elem_of_nil; tauto.
Qed.

(** When the rows in both lists are in the same order, there are no moves. *)
Lemma no_moves :
  r_key <$> rows_by_index rows = key <$> rows -> calculate_moves_sorted rows d i m = Ok (d, i).
Proof.
  unfold calculate_moves_sorted. generalize (rows_by_index rows). intros a Hk.
  assert (forall n, first_difference n a rows = Ok None) as ->; [|done].
  clear calculated. revert rows Hk. induction a as [|r a IH]; intros [|row rows'] Hk n; try done.
  rewrite !fmap_cons in Hk. injection Hk as Hk Ha. cbn [first_difference].
  rewrite Hk, Z.eqb_refl. cbn [negb]. by apply IH.
Qed.
End calculation.
End start.
Arguments ca_deletions {_ _ _ _ _ _ _ _ _ _} _.
Arguments ca_insertions {_ _ _ _ _ _ _ _ _ _} _.
Arguments ca_modifications {_ _ _ _ _ _ _ _ _ _} _.
Arguments ca_prev {_ _ _ _ _ _ _ _ _ _} _.
Arguments ca_next {_ _ _ _ _ _ _ _ _ _} _.
Arguments ca_rows {_ _ _ _ _ _ _ _ _ _} _.
Arguments ca_apart {_ _ _ _ _ _ _ _ _ _} _.

(** ** Lists in table order, and lists of the same rows *)

Lemma keep_sublist {A} r i (l : list A) : keep r i l `sublist_of` l.
Proof.
  revert i. induction l as [|a l IH]; intros i; [constructor|]. cbn [keep].
  case_decide; constructor; apply IH.
Qed.

Lemma disjoint_permutation {A} (l1 l2 : list A) : l1 ≡ₚ l2 -> (forall a, a ∈ l1 -> a ∉ l2) -> l1 = [].
Proof. intros Hp Hd. destruct l1 as [|a l1]; [done|]. exfalso. apply (Hd a); [|rewrite <- Hp]; by left. Qed.

#[local] Instance Z_lt_antisymm : AntiSymm (=) Z.lt.
Proof. intros x y ? ?. lia. Qed.

(** With one row for each key, the rows in one list only are those absent from the other. *)
Lemma taken_absent (l l' : list Z) (taken taken' left left' : list (Z * Z)) x :
  enum 0 l ≡ₚ taken ++ left -> enum 0 l' ≡ₚ taken' ++ left' -> left.*1 = left'.*1 ->
  NoDup l -> (forall k, k ∈ taken.*1 -> k ∉ taken'.*1) ->
  x ∈ taken.*2 <-> exists k, nth_Z l x = Some k /\ k ∉ l'.
Proof.
  intros Hp Hp' Hl Hn Ha. assert (forall k, nth_Z l x = Some k <-> (k, x) ∈ taken ++ left) as Hx
    by (intros k; by rewrite <- Hp, elem_of_enum, Z.sub_0_r).
  assert (forall k, k ∈ l' <-> k ∈ taken'.*1 \/ k ∈ left'.*1) as Hk
    by (intros k; by rewrite <- elem_of_app, <- fmap_app, <- Hp', enum_fst).
  rewrite <- (enum_fst 0 l), Hp, fmap_app in Hn. apply NoDup_app in Hn as (_ & Hn & _). split.
  - intros ([k y] & -> & Hin)%list_elem_of_fmap. exists k. simpl in *.
    split; [apply Hx, elem_of_app; by left|]. apply (list_elem_of_fmap_2 fst) in Hin. simpl in Hin.
    intros [Hin'|Hin']%Hk; [by apply (Ha k)|]. apply (Hn k Hin). by rewrite Hl.
  - intros (k & [Hin|Hin]%Hx%elem_of_app & Hnk); [by apply (list_elem_of_fmap_2 snd) in Hin|].
    exfalso. apply Hnk, Hk. right. rewrite <- Hl. by apply (list_elem_of_fmap_2 fst) in Hin.
Qed.

Section orders.
Context `{MaxSize, StdSort} {prev next : list Z} {f : Z -> bool} {d i m : IndexSet} {rows : list RowInfo}
  {deleted inserted : list (Z * Z)}.
Abbreviation mem v x := (has (ranges v) x).
Hypothesis calculated : calculation prev next f d i m rows deleted inserted.

Lemma ascending_same_order :
  StronglySorted Z.lt prev -> StronglySorted Z.lt next -> r_key <$> rows_by_index rows = key <$> rows.
Proof.
  intros Hp Hn. apply (StronglySorted_unique Z.lt).
  - rewrite <- (kept_prev calculated). eapply StronglySorted_sublist; [apply keep_sublist|done].
  - rewrite <- (kept_next calculated). eapply StronglySorted_sublist; [apply keep_sublist|done].
  - pose proof (fmap_Permutation fst _ _ (rows_by_index_pairs rows)) as Hr.
    by rewrite <- !list_fmap_compose in Hr.
Qed.

Lemma modified_rows x :
  mem m x <-> exists row, row ∈ rows /\ f (key row) = true /\ x = tv_index row.
Proof. apply (ca_modifications calculated). Qed.

Lemma new_row x k : nth_Z next x = Some k -> mem i x \/ exists row, row ∈ rows /\ key row = k /\ tv_index row = x.
Proof.
  intros Hx. rewrite (proj2 (ca_insertions calculated)).
  assert ((k, x) ∈ enum 0 next) as Hin by (apply elem_of_enum; by rewrite Z.sub_0_r).
  rewrite (ca_next calculated) in Hin. apply elem_of_app in Hin as [Hin|Hin].
  - left. by apply (list_elem_of_fmap_2 snd) in Hin.
  - right. apply list_elem_of_fmap in Hin as (row & [= -> ->] & Hin). by exists row.
Qed.

Lemma deleted_absent x : NoDup prev -> mem d x <-> exists k, nth_Z prev x = Some k /\ k ∉ next.
Proof.
  intros Hn. rewrite (proj2 (ca_deletions calculated)).
  apply (taken_absent prev next deleted inserted _ _ x (ca_prev calculated) (ca_next calculated)); [|done|].
  - by rewrite <- !list_fmap_compose.
  - apply (ca_apart calculated).
Qed.

Lemma inserted_absent x : NoDup next -> mem i x <-> exists k, nth_Z next x = Some k /\ k ∉ prev.
Proof.
  intros Hn. rewrite (proj2 (ca_insertions calculated)).
  apply (taken_absent next prev inserted deleted _ _ x (ca_next calculated) (ca_prev calculated)); [|done|].
  - by rewrite <- !list_fmap_compose.
  - intros k Hi Hd. by apply (ca_apart calculated k).
Qed.

Lemma in_both_lists row : row ∈ rows -> key row ∈ prev.
Proof.
  intros Hr%(prev_row calculated). destruct (split_at_Z _ _ _ Hr) as (l1 & l2 & -> & _).
  apply elem_of_app. right. by left.
Qed.

Lemma same_rows : prev ≡ₚ next -> deleted = [] /\ inserted = [].
Proof.
  intros Hp. assert (deleted.*1 ≡ₚ inserted.*1) as Hdi.
  { apply (Permutation_app_inv_r (key <$> rows)).
    transitivity prev; [|transitivity next; [done|]]; symmetry.
    - pose proof (fmap_Permutation fst _ _ (ca_prev calculated)) as E.
      by rewrite enum_fst, fmap_app, <- list_fmap_compose in E.
    - pose proof (fmap_Permutation fst _ _ (ca_next calculated)) as E.
      rewrite enum_fst, fmap_app, <- list_fmap_compose in E. by symmetry. }
  pose proof (disjoint_permutation _ _ Hdi (ca_apart calculated)) as Hd. rewrite Hd in Hdi.
  symmetry in Hdi. apply Permutation_nil_r in Hdi. by apply fmap_nil_inv in Hd, Hdi.
Qed.

(** Of the rows with a key, as many are in both lists as either list allows. *)
Definition occurrences (k : Z) (l : list Z) : nat := length (filter (fun k' => k' = k) l).

Lemma occurrences_app k l l' : occurrences k (l ++ l') = (occurrences k l + occurrences k l')%nat.
Proof. unfold occurrences. by rewrite filter_app, length_app. Qed.

Lemma occurrences_none k l : k ∉ l -> occurrences k l = 0%nat.
Proof.
  intros Hk. unfold occurrences. rewrite filter_none; [done|]. apply Forall_forall. intros k' Hk' ->. by apply Hk.
Qed.

Lemma occurrences_perm k l l' : l ≡ₚ l' -> occurrences k l = occurrences k l'.
Proof. intros Hp. unfold occurrences. by rewrite Hp. Qed.

Lemma rows_in_both k : occurrences k (key <$> rows) = Nat.min (occurrences k prev) (occurrences k next).
Proof.
  assert (occurrences k prev = occurrences k deleted.*1 + occurrences k (key <$> rows))%nat as ->.
  { rewrite <- occurrences_app. apply occurrences_perm. pose proof (fmap_Permutation fst _ _ (ca_prev calculated)) as E.
    by rewrite enum_fst, fmap_app, <- list_fmap_compose in E. }
  assert (occurrences k next = occurrences k inserted.*1 + occurrences k (key <$> rows))%nat as ->.
  { rewrite <- occurrences_app. apply occurrences_perm. pose proof (fmap_Permutation fst _ _ (ca_next calculated)) as E.
    by rewrite enum_fst, fmap_app, <- list_fmap_compose in E. }
  destruct (decide (k ∈ deleted.*1)) as [Hd|Hd].
  - rewrite (occurrences_none k inserted.*1); [lia|]. by apply (ca_apart calculated).
  - rewrite (occurrences_none k deleted.*1); [lia|done].
Qed.

Lemma occurrences_rows k : occurrences k (key <$> rows) = length (filter (fun row => key row = k) rows).
Proof.
  unfold occurrences. clear calculated. induction rows as [|row l IH]; [done|]. rewrite fmap_cons, !filter_cons. case_decide; cbn; by rewrite IH.
Qed.

Lemma modified_occurrences k : f k = true ->
  length (filter (fun x => nth_Z next x = Some k) (indexes (ranges m))) = occurrences k (key <$> rows).
Proof.
  intros Hf. rewrite occurrences_rows. transitivity (length (tv_index <$> filter (fun row => key row = k) rows)); [|by rewrite length_fmap].
  apply Permutation_length, NoDup_Permutation.
  - apply NoDup_filter. eapply ascending_NoDup, ascending_members. apply (ca_modifications calculated).
  - pose proof (enum_distinct 0 next) as Hn. rewrite (ca_next calculated), fmap_app in Hn. apply NoDup_app in Hn as (_ & _ & Hn).
    rewrite <- list_fmap_compose in Hn. eapply sublist_NoDup; [exact Hn|]. apply sublist_map, sublist_filter.
  - intros x. rewrite list_elem_of_filter, elem_of_indexes, list_elem_of_fmap. setoid_rewrite list_elem_of_filter. split.
    + intros [Hx (row & Hr & _ & ->)%modified_rows]. rewrite (next_row calculated row Hr) in Hx. injection Hx as Hk. by exists row.
    + intros (row & -> & Hk & Hr). split; [by rewrite (next_row calculated row Hr), Hk|]. apply modified_rows. exists row. by rewrite Hk.
Qed.

Lemma no_members v : index_set_ok v -> (forall x, ~ mem v x) -> v = [].
Proof.
  intros Hv Hn. apply indexes_empty; [done|]. apply elem_of_nil_inv. intros x Hx%elem_of_indexes. by eapply Hn.
Qed.
End orders.
