(* ===== verification/CalculateProps.v ===== *)
(** What [calculate] returns: deletions and insertions that turn the old rows into the new ones,
    none when nothing changed, the absent and the new rows alone when both lists are in table
    order; and the rows among which [find_longest_match] chooses. *)

From S2P Require Import Prelude ChunkedRangeVector RangeList IndexSet IndexSetCount IndexSetMerge.
From S2P Require Import IndexSetProps ChangeBuilder KeptElements Collection ChangeReport.
From S2P Require Import RowDiff LongestMatch RowAlignment Calculation.

(** ** What [calculate] promises *)

Section properties.
Context `{MaxSize, StdSort}.
Abbreviation mem v x := (has (ranges v) x).

(** Wherever the rows left in place come from. *)
Lemma calculation_verified prev next f d i m rows deleted inserted d' i' :
  calculation prev next f d i m rows deleted inserted -> aligned (rows_by_index rows) rows d i d' i' ->
  verify_changeset prev next d' i' = Ok true /\
  (forall x k, nth_Z next x = Some k -> f k = true -> mem i' x \/ mem m x).
Proof.
  intros Hc Ha. destruct (aligned_bounds Hc d' i' Ha) as [Hbd Hbi]. pose proof (al_ok _ _ _ _ _ _ Ha) as [Hd Hi].
  split.
  - unfold verify_changeset. rewrite replay_next; [|done..|by apply (aligned_kept Hc)].
    cbn [mbind result_bind]. by rewrite bool_decide_true.
  - intros x k Hx Hf. destruct (new_row Hc x k Hx) as [Hin|(row & Hin & <- & <-)].
    + left. destruct (al_rows _ _ _ _ _ _ Ha) as (ta & la & t & l & _ & _ & _ & _ & Hmi).
      apply Hmi. by left.
    + right. apply (modified_rows Hc). by exists row.
Qed.

(** C34: whatever the old and the new rows, duplicates included, the deletions and insertions of
    [calculate] turn the old rows into the new ones, as [verify_changeset] demands; [verify()]
    of the builder and of each set holds, and there are no moves.  The rows marked modified are
    rows of the new list that did change, moved ones included: of the rows with the same key, which
    [std::sort] leaves in any order, as many as both lists have, none if the old list has none.  The
    rest of the changed rows are insertions.  The lists are shorter than [npos]; the calculation of
    moves may only be skipped for lists in table order, that is strictly ascending ones. *)
Theorem calculate_verified prev next f in_table_order :
  Z.of_nat (length prev) < npos -> Z.of_nat (length next) < npos ->
  (in_table_order = true -> StronglySorted Z.lt prev /\ StronglySorted Z.lt next) ->
  exists c, calculate prev next f in_table_order = Ok c /\
    verify_changeset prev next (deletions c) (insertions c) = Ok true /\
    ChangeBuilder.verify c = Ok true /\ moves c = [] /\
    ChunkedRangeVector.verify (deletions c) = true /\ ChunkedRangeVector.verify (insertions c) = true /\
    ChunkedRangeVector.verify (modifications c) = true /\
    (forall x, mem (modifications c) x -> exists k, nth_Z next x = Some k /\ f k = true /\ k ∈ prev) /\
    (forall k, f k = true -> length (filter (fun x => nth_Z next x = Some k) (indexes (ranges (modifications c)))) =
       Nat.min (occurrences k prev) (occurrences k next)) /\
    (forall x k, nth_Z next x = Some k -> f k = true -> mem (insertions c) x \/ mem (modifications c) x).
Proof.
  intros Hp Hn Ho. destruct (calculate_start prev next f Hp Hn) as
    (d & i & m & rows & deleted & inserted & Hc & ->).
  assert (exists d' i', (if in_table_order then Ok (d, i) else calculate_moves_sorted rows d i m) = Ok (d', i') /\
    aligned (rows_by_index rows) rows d i d' i') as (d' & i' & -> & Ha).
  { destruct in_table_order; [|by apply (calculated_moves Hc)]. destruct (Ho eq_refl) as [Hsp Hsn].
    exists d, i. split; [done|]. apply (aligned_refl Hc). by apply (ascending_same_order Hc). }
  cbn [mbind result_bind]. eexists. split; [done|]. cbn [deletions insertions modifications moves].
  destruct (calculation_verified _ _ _ _ _ _ _ _ _ _ _ Hc Ha) as [Hv Hm].
  pose proof (al_ok _ _ _ _ _ _ Ha) as [Hd Hi].
  split_and!; [done|done|done|by apply verify_ok..|apply verify_ok, (ca_modifications Hc)| | |done].
  2: { intros k Hf. by rewrite (modified_occurrences Hc), (rows_in_both Hc). }
  intros x (row & Hr & Hf & ->)%(modified_rows Hc). exists (key row).
  split_and!; [by apply (next_row Hc)|done|by apply (in_both_lists Hc)].
Qed.

(** For lists in table order, that is ascending, the shortcut that skips the calculation of
    moves gives the change set that the calculation of moves gives; the deletions are exactly the
    old rows absent from the new list, the insertions the new rows absent from the old one, and
    the modifications the changed rows of both. *)
Theorem calculate_in_table_order prev next f :
  Z.of_nat (length prev) < npos -> Z.of_nat (length next) < npos ->
  StronglySorted Z.lt prev -> StronglySorted Z.lt next ->
  exists c, calculate prev next f true = Ok c /\ calculate prev next f false = Ok c /\
    (forall x, mem (deletions c) x <-> exists k, nth_Z prev x = Some k /\ k ∉ next) /\
    (forall x, mem (insertions c) x <-> exists k, nth_Z next x = Some k /\ k ∉ prev) /\
    (forall x, mem (modifications c) x <-> exists k, nth_Z next x = Some k /\ k ∈ prev /\ f k = true).
Proof.
  intros Hp Hn Hsp Hsn. destruct (calculate_start prev next f Hp Hn) as
    (d & i & m & rows & deleted & inserted & Hc & E).
  exists (Builder d i m [] [] ∅ true). rewrite !E, (no_moves (d := d) (i := i) (m := m)).
  2: { by apply (ascending_same_order Hc). }
  assert (forall l, StronglySorted Z.lt l -> NoDup l) as Hnd by apply increasing_NoDup.
  split_and!; [done|done| | |]; intros x; cbn [deletions insertions modifications].
  - apply (deleted_absent Hc), Hnd, Hsp.
  - apply (inserted_absent Hc), Hnd, Hsn.
  - rewrite (modified_rows Hc). split.
    + intros (row & Hr & Hf & ->). exists (key row).
      split_and!; [by apply (next_row Hc)|by apply (in_both_lists Hc)|done].
    + intros (k & Hx & Hk & Hf). destruct (new_row Hc x k Hx) as [Hi|(row & Hr & <- & <-)]; [|by exists row].
      exfalso. apply (inserted_absent Hc x (Hnd _ Hsn)) in Hi as (k' & Hx' & Hk'). congruence.
Qed.

(** Nothing is deleted, inserted or moved when the rows have not changed, even with
    duplicates, and the modifications are the rows that changed. *)
Theorem calculate_unchanged rows f in_table_order :
  Z.of_nat (length rows) < npos ->
  exists c, calculate rows rows f in_table_order = Ok c /\
    deletions c = [] /\ insertions c = [] /\ moves c = [] /\
    (forall x, mem (modifications c) x <-> exists k, nth_Z rows x = Some k /\ f k = true).
Proof.
  intros Hn. destruct (calculate_start rows rows f Hn Hn) as
    (d & i & m & both & deleted & inserted & Hc & E).
  destruct (same_rows Hc) as [-> ->]; [done|].
  assert (d = []) as ->.
  { apply no_members; [apply (ca_deletions Hc)|]. intros x Hx%(ca_deletions Hc). by apply elem_of_nil in Hx. }
  assert (i = []) as ->.
  { apply no_members; [apply (ca_insertions Hc)|]. intros x Hx%(ca_insertions Hc). by apply elem_of_nil in Hx. }
  exists (Builder [] [] m [] [] ∅ true). rewrite E, (no_moves (d := []) (i := []) (m := m)).
  2: { rewrite <- (kept_prev Hc), <- (kept_next Hc). done. }
  split; [by destruct in_table_order|]. split_and!; [done..|]. intros x. cbn [modifications].
  rewrite (modified_rows Hc). split.
  - intros (row & Hr & Hf & ->). exists (key row). split; [by apply (next_row Hc)|done].
  - intros (k & Hx & Hf). destruct (new_row Hc x k Hx) as [Hi|(row & Hr & <- & <-)]; [|by exists row].
    by apply has_nil in Hi.
Qed.

(** Within any bounds [find_longest_match] returns a common block of the old and the new
    order, none of which is longer; the assertions on the best match and the search for a row
    in the rows sorted by key never fail. *)
Theorem find_longest_match_longest rows m begin1 end1 begin2 end2 :
  index_set_ok m -> Z.of_nat (length rows) < npos ->
  0 <= begin1 <= end1 -> end1 <= Z.of_nat (length rows) ->
  0 <= begin2 <= end2 -> end2 <= Z.of_nat (length rows) ->
  exists best, find_longest_match m (rows_by_index rows) (rows_by_key rows) begin1 end1 begin2 end2 = Ok best /\
    block (key <$> rows) (rows_by_index rows) begin1 end1 begin2 end2 (m_i best) (m_j best) (m_size best) /\
    forall i j n, block (key <$> rows) (rows_by_index rows) begin1 end1 begin2 end2 i j n -> n <= m_size best.
Proof.
  intros Hm Hn Hb1 He1 Hb2 He2.
  destruct (find_longest_match_spec m (key <$> rows) (rows_by_index rows) (rows_by_key rows) Hm
    (rows_by_key_index rows) (rows_by_index_keys rows)) with begin1 end1 begin2 end2
    as (best & E & [_ Hb] & Hl); rewrite ?length_rows_by_index, ?length_fmap; try lia.
  by exists best.
Qed.
End properties.

(** ** The properties at concrete lists *)

Lemma calculate_verified_witness :
  exists c, @calculate max_size_debug stable_sort [1; 2; 3; 3; 4; 5] [4; 5; 3; 1; 6; 3; 2; 3] (fun k => k =? 3) false = Ok c /\
    verify_changeset [1; 2; 3; 3; 4; 5] [4; 5; 3; 1; 6; 3; 2; 3] (deletions c) (insertions c) = Ok true /\
    length (filter (fun x => nth_Z [4; 5; 3; 1; 6; 3; 2; 3] x = Some 3) (indexes (ranges (modifications c)))) = 2%nat.
Proof.
  destruct (@calculate_verified max_size_debug stable_sort [1; 2; 3; 3; 4; 5] [4; 5; 3; 1; 6; 3; 2; 3] (fun k => k =? 3) false)
    as (c & E & V & _ & _ & _ & _ & _ & _ & M & _); [done|done|done|]. exists c. split; [exact E|]. split; [exact V|exact (M 3 eq_refl)].
Defined.

Lemma calculate_in_table_order_witness :
  exists c, @calculate max_size_debug stable_sort [1; 2; 4; 7] [2; 3; 7; 8] (fun k => k =? 7) true = Ok c /\
    has (ranges (deletions c)) 0 /\ has (ranges (insertions c)) 1 /\ has (ranges (modifications c)) 2.
Proof.
  destruct (@calculate_in_table_order max_size_debug stable_sort [1; 2; 4; 7] [2; 3; 7; 8] (fun k => k =? 7))
    as (c & E & _ & D & I & M); [done|done|repeat constructor..|].
  exists c. rewrite D, I, M. split_and!; [exact E|exists 1; by_evaluation|exists 3; by_evaluation|exists 7; by_evaluation].
Defined.

Lemma calculate_unchanged_witness :
  exists c, @calculate max_size_debug stable_sort [3; 1; 3; 2] [3; 1; 3; 2] (fun k => k =? 3) false = Ok c /\
    deletions c = [] /\ has (ranges (modifications c)) 2.
Proof.
  destruct (@calculate_unchanged max_size_debug stable_sort [3; 1; 3; 2] (fun k => k =? 3) false)
    as (c & E & D & _ & _ & M); [done|].
  exists c. rewrite M. split_and!; [exact E|exact D|exists 3; by_evaluation].
Defined.

(** The rows 1, 2, 3, 4 in their new order 3, 4, 1, 2. *)
Definition swapped_rows : list RowInfo :=
  [MkRowInfo 3 2 0; MkRowInfo 4 3 1; MkRowInfo 1 0 2; MkRowInfo 2 1 3].

Lemma find_longest_match_longest_witness :
  exists best, find_longest_match [] (rows_by_index swapped_rows) (rows_by_key swapped_rows) 0 4 0 4 = Ok best /\
    2 <= m_size best.
Proof.
  destruct (@find_longest_match_longest max_size_debug stable_sort swapped_rows [] 0 4 0 4) as (best & E & _ & L);
    [by_evaluation|done|done|done|done|done|].
  exists best. split; [exact E|]. apply (L 2 0). split_and!; [done..|].
  intros t Ht. assert (t = 0 \/ t = 1) as [-> | ->] by lia; by eexists; vm_compute.
Defined.

(** ** Where the code falls short *)

(** [find_longest_matches] compares the end of a match in the old order with the end of the
    search in the new order: the row 3 stays between 1 and 5 here, and three deletions are
    enough, but the search after the match of 1 is skipped and 3 is reported as moved. *)
Theorem calculate_skips_matches :
  let prev := [0; 1; 2; 3; 4; 5; 6] in
  let next := [1; 3; 5; 6; 0; 2; 4] in
  exists c d i, @calculate max_size_debug stable_sort prev next (fun _ => false) false = Ok c /\
    ranges (deletions c) = [(0, 1); (2, 5)] /\ width (ranges (deletions c)) = 4 /\
    @of_list max_size_debug [0; 2; 4] = Ok d /\ @of_list max_size_debug [4; 5; 6] = Ok i /\
    verify_changeset prev next d i = Ok true /\ width (ranges d) = 3.
Proof. eexists _, _, _. split_and!; [by vm_compute..]. Qed.

(** Of two equally long matches [find_longest_match] should prefer the one with fewer
    modified rows, but it counts the modifications of the best match so far around its start
    and not over its length: here it keeps the rows 1 and 2, of which 2 was modified, rather
    than 3 and 4, of which none was. *)
Theorem longest_match_keeps_modified :
  let a := rows_by_index swapped_rows in
  let b := rows_by_key swapped_rows in
  exists m best, @of_list max_size_debug [3] = Ok m /\
    find_longest_match m a b 0 4 0 4 = Ok best /\
    m_j best = 2 /\ m_size best = 2 /\ count m 2 4 = Ok 1 /\
    r_key <$> take 2 (drop 2 a) = take 2 (key <$> swapped_rows) /\ count m 0 2 = Ok 0.
Proof. eexists _, _. split_and!; [by vm_compute..]. Qed.
