(* ===== verification/Transport.v ===== *)
(** Two changes in a row: what an index set of the collection in the middle is in terms of the
    first and of the last collection. *)

From S2P Require Import Prelude ChunkedRangeVector RangeList IndexSet IndexSetCount IndexLists IndexSetMerge.
From S2P Require Import IndexSetProps ChangeBuilder KeptElements Collection Tracking TrackedChanges.
From S2P Require Import RowDiff LongestMatch RowAlignment.

Section transport.
Context `{MaxSize} {A : Type}.
Abbreviation mem v x := (has (ranges v) x).

(** The elements that are not in the set, by their ranks. *)
Lemma kept_lookup (r : list (Z * Z)) i (l : list A) t a x :
  sorted r -> 0 <= i -> filter (fun p => ~ has r (snd p)) (enum i l) !! t = Some (a, x) ->
  rank r x = rank r i + Z.of_nat t /\ ~ has r x /\ i <= x < i + Z.of_nat (length l).
Proof.
  intros Hs. revert i t. induction l as [|b l IH]; intros i t Hi; [done|].
  rewrite enum_cons, filter_cons. cbn [snd length]. pose proof (rank_next i r Hs Hi) as Hr.
  destruct (decide (has r i)) as [Hh|Hh]; [rewrite decide_False by tauto|rewrite decide_True by done].
  - intros (? & ? & ?)%IH; [|lia]. split_and!; [lia|done|lia|lia].
  - destruct t as [|t]; cbn [lookup list_lookup].
    + intros [= -> ->]. split_and!; [lia|done|lia|lia].
    + intros (? & ? & ?)%IH; [|lia]. split_and!; [lia|done|lia|lia].
Qed.

Lemma shift_rank v x :
  index_set_ok v -> 0 <= x <= npos -> ~ mem v x -> shift v (rank (ranges v) x) = x.
Proof.
  intros Hv Hx Hn. pose proof (is_sorted _ Hv) as Hs. unfold shift, rank.
  apply shift_loop_unshift; [done|by apply sorted_from_0, sorted_ok|unfold npos in *; lia|done].
Qed.

Lemma Forall2_filter {B C} (P : B -> Prop) (Q : C -> Prop) `{forall x, Decision (P x)} `{forall x, Decision (Q x)}
    (R : B -> C -> Prop) (l : list B) (k : list C) :
  Forall2 (fun x y => R x y /\ (P x <-> Q y)) l k -> Forall2 R (filter P l) (filter Q k).
Proof.
  induction 1 as [|x y l k [Hr Hpq] _ IH]; [constructor|]. rewrite !filter_cons.
  destruct (decide (P x)), (decide (Q y)); try tauto; by constructor.
Qed.

(** Two sets that leave the same elements. *)
Context (va vb : IndexSet) (la lb : list A).
Hypothesis va_ok : index_set_ok va.
Hypothesis vb_ok : index_set_ok vb.
Hypothesis va_below : below (Z.of_nat (length la)) (ranges va).
Hypothesis vb_below : below (Z.of_nat (length lb)) (ranges vb).
Hypothesis la_size : Z.of_nat (length la) <= npos.
Hypothesis lb_size : Z.of_nat (length lb) <= npos.
Hypothesis same : keep (ranges va) 0 la = keep (ranges vb) 0 lb.

Lemma rank_bound y : 0 <= y < Z.of_nat (length lb) -> ~ mem vb y ->
  0 <= rank (ranges vb) y < Z.of_nat (length (keep (ranges vb) 0 lb)).
Proof.
  intros Hy Hn. pose proof (is_sorted _ vb_ok) as Hs. split; [apply rank_nonneg; [done|lia]|].
  rewrite length_keep by done.
  pose proof (rank_mono (ranges vb) (y + 1) (Z.of_nat (length lb)) Hs ltac:(lia)) as Hmono.
  rewrite rank_next, decide_False in Hmono by (done || lia). lia.
Qed.

(** An element of the second list that its set leaves, in the first list. *)
Lemma transported y :
  0 <= y < Z.of_nat (length lb) -> ~ mem vb y ->
  let x := shift va (rank (ranges vb) y) in
  0 <= x < Z.of_nat (length la) /\ ~ mem va x /\ rank (ranges va) x = rank (ranges vb) y /\
  nth_Z la x = nth_Z lb y.
Proof.
  intros Hy Hn x. pose proof (rank_bound y Hy Hn) as Hu. rewrite <- same in Hu.
  destruct (old_index va la _ va_ok va_below la_size Hu) as (d & j & _ & _ & Ej & _ & Hnj & Hj & Hr & _).
  fold x in Ej. subst j. split_and!; try (done || lia).
  unfold nth_Z. rewrite !decide_True by lia.
  rewrite <- (keep_lookup (ranges va) la x) by (done || apply va_ok).
  rewrite Hr, same. apply keep_lookup; [apply vb_ok|lia|done].
Qed.

Lemma left_elements :
  Forall2 (fun p q => fst p = fst q /\ rank (ranges va) (snd p) = rank (ranges vb) (snd q) /\
      ~ mem va (snd p) /\ ~ mem vb (snd q) /\
      0 <= snd p < Z.of_nat (length la) /\ 0 <= snd q < Z.of_nat (length lb))
    (filter (fun p => ~ mem va (snd p)) (enum 0 la)) (filter (fun p => ~ mem vb (snd p)) (enum 0 lb)).
Proof.
  pose proof same as E. rewrite !keep_filter in E. apply Forall2_same_length_lookup. split.
  - apply (f_equal length) in E. by rewrite !length_fmap in E.
  - intros t [a x] [a' y] Hx Hy. apply (f_equal (lookup t)) in E.
    rewrite !list_lookup_fmap, Hx, Hy in E. injection E as <-.
    apply kept_lookup in Hx as (Hrx & Hnx & Hlx); [|apply va_ok|done].
    apply kept_lookup in Hy as (Hry & Hny & Hly); [|apply vb_ok|done].
    rewrite rank_0 in Hrx by apply va_ok. rewrite rank_0 in Hry by apply vb_ok. simpl.
    split_and!; try done; lia.
Qed.

(** More elements taken away from both lists. *)
Lemma keep_transport (r rc : list (Z * Z)) :
  (forall x, has r x <-> mem va x \/ exists i, has rc i /\ ~ mem vb i /\ x = shift va (rank (ranges vb) i)) ->
  (forall i, has rc i -> 0 <= i < Z.of_nat (length lb)) ->
  keep r 0 la = (filter (fun p => ~ has rc (snd p)) (filter (fun p => ~ mem vb (snd p)) (enum 0 lb))).*1.
Proof.
  intros Hr Hrc. rewrite keep_filter.
  assert (filter (fun p => ~ has r (snd p)) (enum 0 la) =
    filter (fun p => ~ has r (snd p)) (filter (fun p => ~ mem va (snd p)) (enum 0 la))) as ->.
  { symmetry. apply list_filter_filter_l. intros p Hp Hm. apply Hp, Hr. by left. }
  apply list_eq_Forall2, Forall2_fmap, Forall2_filter.
  eapply Forall2_impl; [apply left_elements|]. intros [a x] [a' y] (Ha & Hrk & Hnx & Hny & Hx & Hy).
  cbn [fst snd] in *. split; [done|]. rewrite Hr. apply not_iff_compat. split.
  - intros [?|(i & Hi & Hni & ->)]; [done|]. specialize (Hrc i Hi).
    destruct (transported i Hrc Hni) as (_ & _ & Hri & _). rewrite Hri in Hrk.
    rewrite <- (shift_rank vb y), <- Hrk, shift_rank by (done || lia). done.
  - intros Hy'. right. exists y. split_and!; [done|done|]. rewrite <- Hrk. symmetry. apply shift_rank; [done|lia|done].
Qed.
End transport.
