(* ===== verification/MergeMoves.v ===== *)
(** The moves in [merge]: old moves whose rows moved again or were deleted, new moves of rows
    the old change set inserted, and moves that became no-ops.  Before that, the sets of
    modifications: the two [for_each_col] over the columns of both change sets. *)

From S2P Require Import Prelude ChunkedRangeVector RangeList IndexSet IndexSetCount IndexLists IndexSetMerge IndexSetProps ChangeBuilder KeptElements Collection Tracking.
From S2P Require Import TrackedChanges RowDiff LongestMatch RowAlignment Transport.

Section marks.
Context `{MaxSize}.
Implicit Types b c : CollectionChangeBuilder.
Abbreviation mem v x := (has (ranges v) x).

Lemma mem_range v x : index_set_ok v -> mem v x -> 0 <= x < npos.
Proof. intros Hv Hx. apply (ascending_elem _ _ _ (ascending_members _ Hv)). by apply elem_of_indexes. Qed.

(** Columns outside of the keys have no modifications. *)
Definition covers (keys : list Z) b c : Prop :=
  NoDup keys /\ forall col, col ∉ keys -> column (columns b) col = [] /\ column (columns c) col = [].

Lemma col_keys_cover b c : m_track_columns b = true -> covers (col_keys b c) b c.
Proof.
  intros Ht. unfold col_keys. rewrite Ht. split; [apply NoDup_elements|]. intros col Hc.
  rewrite elem_of_elements, elem_of_union, !elem_of_dom in Hc. unfold column.
  destruct (columns b !! col) eqn:Eb; [exfalso; apply Hc; left; by eexists|].
  destruct (columns c !! col) eqn:Ec; [exfalso; apply Hc; right; by eexists|]. done.
Qed.

Lemma column_insert m k v col : column (<[k := v]> m) col = if decide (col = k) then v else column m col.
Proof.
  unfold column. destruct (decide (col = k)) as [->|]; [by rewrite lookup_insert_eq|by rewrite lookup_insert_ne].
Qed.

(** What changed of a change set: its modifications only. *)
Definition same_but_marks b b' : Prop := exists m cols, b' = with_modifications m cols b.

Lemma same_but_marks_refl b : same_but_marks b b.
Proof. exists (modifications b), (columns b). by destruct b. Qed.

Lemma same_but_marks_trans b1 b2 b3 : same_but_marks b1 b2 -> same_but_marks b2 b3 -> same_but_marks b1 b3.
Proof. intros (m & cols & ->) (m' & cols' & ->). by exists m', cols'. Qed.

Section pair.
Context (f : IndexSet -> IndexSet -> result (IndexSet * IndexSet)).
Context (P : IndexSet -> IndexSet -> Prop) (Q : IndexSet -> IndexSet -> IndexSet -> IndexSet -> Prop).
Hypothesis f_spec : forall v w, P v w -> exists v' w', f v w = Ok (v', w') /\ Q v w v' w'.
Hypothesis f_empty : Q [] [] [] [].

Lemma fold_columns_spec keys (m m' : gmap Z IndexSet) :
  NoDup keys -> (forall col, col ∈ keys -> P (column m col) (column m' col)) ->
  exists cols cols', fold_result (fun '(cols, cols') k =>
      '(x, x') ← f (column cols k) (column cols' k);
      Ok (<[k := x]> cols, <[k := x']> cols')) (m, m') keys = Ok (cols, cols') /\
    forall col, (col ∈ keys -> Q (column m col) (column m' col) (column cols col) (column cols' col)) /\
      (col ∉ keys -> column cols col = column m col /\ column cols' col = column m' col).
Proof.
  revert m m'. induction keys as [|k keys IH]; intros m m' Hn HP.
  { exists m, m'. split; [done|]. intros col. split; [by intros ?%elem_of_nil|done]. }
  apply NoDup_cons in Hn as [Hk Hn]. cbn [fold_result].
  destruct (f_spec (column m k) (column m' k)) as (x & x' & -> & Hx); [apply HP; by left|]. cbn [mbind result_bind].
  destruct (IH (<[k := x]> m) (<[k := x']> m') Hn) as (cols & cols' & E & Hc).
  { intros col Hc. rewrite !column_insert. rewrite !decide_False by (by intros ->). apply HP. by right. }
  exists cols, cols'. split; [exact E|]. intros col. destruct (Hc col) as [Hin Hout].
  rewrite !column_insert in Hin, Hout. rewrite not_elem_of_cons, elem_of_cons. split.
  - intros [->|Hcol].
    + destruct (Hout Hk) as [-> ->]. by rewrite !decide_True by done.
    + rewrite !decide_False in Hin by (by intros ->). by apply Hin.
  - intros [Hne Hcol]. destruct (Hout Hcol) as [-> ->]. by rewrite !decide_False by done.
Qed.

Lemma for_each_col_pair_spec keys b c :
  covers keys b c -> (forall k, P (marked b k) (marked c k)) ->
  exists b' c', for_each_col_pair f keys b c = Ok (b', c') /\ same_but_marks b b' /\ same_but_marks c c' /\
    covers keys b' c' /\ forall k, Q (marked b k) (marked c k) (marked b' k) (marked c' k).
Proof.
  intros [Hn Hcov] HP. unfold for_each_col_pair.
  destruct (f_spec (modifications b) (modifications c) (HP None)) as (m & m' & -> & Hm). cbn [mbind result_bind].
  destruct (fold_columns_spec keys (columns b) (columns c) Hn) as (cols & cols' & -> & Hc).
  { intros col _. apply (HP (Some col)). }
  cbn [mbind result_bind]. do 2 eexists. split; [done|].
  split; [by do 2 eexists|]. split; [by do 2 eexists|]. cbn [with_modifications]. split.
  - split; [done|]. intros col Hcol. cbn [columns with_modifications].
    destruct (Hc col) as [_ Hout]. destruct (Hout Hcol) as [-> ->]. by apply Hcov.
  - intros [col|]; [|exact Hm]. cbn [marked columns with_modifications].
    destruct (decide (col ∈ keys)) as [Hcol|Hcol]; [by apply Hc|]. destruct (Hc col) as [_ Hout].
    destruct (Hout Hcol) as [-> ->]. by destruct (Hcov col Hcol) as [-> ->].
Qed.
End pair.

(** [carry_modification]: the destination of a move of a modified row is a modification. *)
Definition carried (l : list Move) (v : IndexSet) (x : Z) : Prop :=
  exists m, m ∈ l /\ mem v (move_from m) /\ x = move_to m.

Lemma carried_app l1 l2 v x : carried (l1 ++ l2) v x <-> carried l1 v x \/ carried l2 v x.
Proof.
  unfold carried. setoid_rewrite elem_of_app. split.
  - intros (m & [?|?] & ? & ?); [left|right]; by exists m.
  - intros [(m & ? & ? & ?)|(m & ? & ? & ?)]; exists m; auto.
Qed.

Definition marks_carried (l : list Move) b c b' c' : Prop :=
  same_but_marks b b' /\ same_but_marks c c' /\
  (forall k, marked b' k = marked b k) /\
  (forall k, index_set_ok (marked c' k) /\
     forall x, mem (marked c' k) x <-> mem (marked c k) x \/ carried l (marked b k) x).

Lemma marks_carried_nil b c : (forall k, index_set_ok (marked c k)) -> marks_carried [] b c b c.
Proof.
  intros Hc. split_and!; try apply same_but_marks_refl; [done|]. intros k. split; [done|].
  intros x. split; [by left|]. by intros [?|(m & ?%elem_of_nil & _)].
Qed.

Lemma marks_carried_app l1 l2 b c b1 c1 b2 c2 :
  marks_carried l1 b c b1 c1 -> marks_carried l2 b1 c1 b2 c2 -> marks_carried (l1 ++ l2) b c b2 c2.
Proof.
  intros (Hb1 & Hc1 & Em1 & Hm1) (Hb2 & Hc2 & Em2 & Hm2). split_and!.
  - by eapply same_but_marks_trans.
  - by eapply same_but_marks_trans.
  - intros k. by rewrite Em2, Em1.
  - intros k. split; [apply Hm2|]. intros x. rewrite (proj2 (Hm2 k)), (proj2 (Hm1 k)), Em1, carried_app.
    tauto.
Qed.

Lemma carry_spec keys b c m :
  covers keys b c -> 0 <= move_to m < npos ->
  (forall k, index_set_ok (marked b k)) -> (forall k, index_set_ok (marked c k)) ->
  exists b' c', for_each_col_pair (carry_modification m) keys b c = Ok (b', c') /\
    covers keys b' c' /\ marks_carried [m] b c b' c'.
Proof.
  intros Hcov Hm Hb Hc.
  destruct (for_each_col_pair_spec (carry_modification m)
    (fun v w => index_set_ok v /\ index_set_ok w)
    (fun v w v' w' => v' = v /\ (index_set_ok w -> index_set_ok w' /\
       forall x, mem w' x <-> mem w x \/ carried [m] v x))) with keys b c
    as (b' & c' & E & Hb' & Hc' & Hcov' & HQ).
  - intros v w [Hv Hw]. unfold carry_modification.
    destruct (contains_spec v (move_from m) Hv) as (bt & -> & Hbt). cbn [mbind result_bind]. destruct bt.
    + destruct (add_spec w (move_to m) Hw Hm) as (w' & -> & Hw' & Hmw). cbn [mbind result_bind].
      exists v, w'. split_and!; [done|done|]. intros _. split; [done|]. intros x. rewrite Hmw. split.
      * intros [->|?]; [right|by left]. exists m. split_and!; [by left|by apply Hbt|done].
      * intros [?|(m' & ->%list_elem_of_singleton & _ & ->)]; [by right|by left].
    + exists v, w. split_and!; [done|done|]. intros _. split; [done|]. intros x. split; [by left|].
      intros [?|(m' & ->%list_elem_of_singleton & Hx%Hbt & _)]; done.
  - split; [done|]. intros Hw. split; [done|]. intros x. split; [by left|].
    intros [?|(m' & _ & Hx & _)]; [done|by apply has_nil in Hx].
  - done.
  - done.
  - exists b', c'. split_and!; [done|done|]. unfold marks_carried. split_and!; [done|done| |].
    + intros k. apply HQ.
    + intros k. by apply HQ.
Qed.

(** The loop over the moves of the new change set. *)
Lemma carry_all_spec keys l b c :
  covers keys b c -> Forall (fun m => 0 <= move_to m < npos) l ->
  (forall k, index_set_ok (marked b k)) -> (forall k, index_set_ok (marked c k)) ->
  exists b' c', fold_result (fun '(b, c) m => for_each_col_pair (carry_modification m) keys b c) (b, c) l =
      Ok (b', c') /\ covers keys b' c' /\ marks_carried l b c b' c'.
Proof.
  intros Hcov Hl. revert b c Hcov. induction Hl as [|m l Hm _ IH]; intros b c Hcov Hb Hc.
  { exists b, c. split_and!; [done|done|]. by apply marks_carried_nil. }
  cbn [fold_result]. destruct (carry_spec keys b c m) as (b1 & c1 & -> & Hcov1 & Hm1); try done.
  cbn [mbind result_bind]. destruct Hm1 as (? & ? & Em1 & Hc1) eqn:E1.
  destruct (IH b1 c1 Hcov1) as (b' & c' & E & Hcov' & Hm').
  - intros k. by rewrite Em1.
  - intros k. apply Hc1.
  - exists b', c'. split_and!; [done|done|]. eapply (marks_carried_app [m] l); [|exact Hm']. by split_and!.
Qed.
End marks.

(** ** Vectors of moves *)

Lemma find_move_Some f l n :
  find_move f l = Some n -> exists m, l !! n = Some m /\ move_from m = f.
Proof.
  revert n. induction l as [|m l IH]; intros n; cbn [find_move]; [done|].
  destruct (Z.eqb_spec f (move_from m)) as [->|]; [intros [= <-]; by exists m|].
  destruct (find_move f l) as [n'|]; [|done]. intros [= <-]. by apply IH.
Qed.

Lemma find_move_None f l m : find_move f l = None -> m ∈ l -> move_from m <> f.
Proof.
  induction l as [|m' l IH]; cbn [find_move]; [by intros _ ?%elem_of_nil|].
  destruct (Z.eqb_spec f (move_from m')) as [|Hne]; [done|]. destruct (find_move f l); [done|].
  intros _ [->|Hin]%elem_of_cons; [done|by apply IH].
Qed.

Lemma swap_pop_spec {A} (l : list A) n m : l !! n = Some m -> l ≡ₚ m :: swap_pop n l.
Proof.
  intros Hn. unfold swap_pop. destruct l as [|back l0 _] using rev_ind; [done|].
  rewrite last_snoc, length_app. cbn [length].
  replace (pred (length l0 + 1)) with (length l0) by lia.
  destruct (decide (n = length l0)) as [->|Hne].
  - rewrite list_lookup_middle in Hn by done. injection Hn as <-.
    rewrite insert_app_r_alt, Nat.sub_diag, take_app_length by lia. by rewrite Permutation_app_comm.
  - assert (n < length l0)%nat as Hlt.
    { apply lookup_lt_Some in Hn. rewrite length_app in Hn. simpl in Hn. lia. }
    rewrite lookup_app_l in Hn by done. rewrite insert_app_l by done.
    rewrite take_app_length' by (by rewrite length_insert).
    destruct (list_elem_of_split_length _ _ _ Hn) as (l1 & l2 & -> & ->).
    rewrite insert_app_r_alt, Nat.sub_diag by lia. change (<[0%nat:=back]> (m :: l2)) with (back :: l2).
    rewrite (Permutation_app_comm _ [back]). cbn [app].
    rewrite <- !Permutation_middle. apply perm_swap.
Qed.

Section moves.
Context `{MaxSize}.
Implicit Types b c : CollectionChangeBuilder.
Abbreviation mem v x := (has (ranges v) x).

(** ** Old moves *)

(** The destination of an element that stays, after the deletions [d] and the insertions [i]. *)
Definition later (d i : IndexSet) (y : Z) : Z := shift i (rank (ranges d) y).

(** What becomes of the old moves [l]: new moves [matched] take them on, the others stay. *)
Record updated (l mv : list Move) (d i : IndexSet) (l' matched rest : list Move) : Prop := {
  up_moves : mv ≡ₚ matched ++ rest;
  up_matched : forall m, m ∈ matched -> move_from m ∈ move_to <$> l;
  up_rest : forall m, m ∈ rest -> move_from m ∉ move_to <$> l;
  up_old : forall o', o' ∈ l' -> exists o, o ∈ l /\ move_from o' = move_from o /\
    ((exists m, m ∈ matched /\ move_from m = move_to o /\ move_to o' = move_to m) \/
     (~ mem d (move_to o) /\ move_to o' = later d i (move_to o)));
  up_sources : (move_from <$> l') `sublist_of` (move_from <$> l);
  up_destinations : NoDup (move_to <$> l')
}.

Lemma updated_nil mv d i : updated [] mv d i [] [] mv.
Proof.
  split; try done; [by intros m ?%elem_of_nil|by intros m _ ?%elem_of_nil|by intros m ?%elem_of_nil|apply NoDup_nil_2].
Qed.

Lemma updated_deleted o l mv d i l' matched rest :
  (forall m, m ∈ mv -> move_from m <> move_to o) ->
  updated l mv d i l' matched rest -> updated (o :: l) mv d i l' matched rest.
Proof.
  intros Ho [Hp Hm Hr Hold Hs Hd]. split; try done.
  - intros m Hin. right. by apply Hm.
  - intros m Hin. rewrite fmap_cons, not_elem_of_cons. split; [|by apply Hr].
    apply Ho. rewrite Hp. apply elem_of_app. by right.
  - intros o' Hin. destruct (Hold o' Hin) as (o2 & ? & ?). exists o2. split; [by right|done].
  - rewrite fmap_cons. by constructor.
Qed.

Lemma updated_kept o l mv d i l' matched rest :
  (forall m, m ∈ mv -> move_from m <> move_to o) -> (forall m, m ∈ mv -> mem i (move_to m)) ->
  ~ mem d (move_to o) ->
  (forall y, y ∈ move_to <$> o :: l -> ~ mem d y ->
     ~ mem i (later d i y) /\ (later d i y = later d i (move_to o) -> y = move_to o)) ->
  move_to o ∉ move_to <$> l ->
  updated l mv d i l' matched rest ->
  updated (o :: l) mv d i (MkMove (move_from o) (later d i (move_to o)) :: l') matched rest.
Proof.
  intros Ho Hi Hnd Hlater Hdist Hup. pose proof (updated_deleted o _ _ _ _ _ _ _ Ho Hup) as [Hp Hm Hr _ _ _].
  destruct Hup as [_ _ _ Hold Hs Hd]. split; try done.
  - intros o' [->|Hin]%elem_of_cons.
    + exists o. split_and!; [by left|done|]. right. done.
    + destruct (Hold o' Hin) as (o2 & ? & ?). exists o2. split; [by right|done].
  - rewrite !fmap_cons. by constructor.
  - rewrite fmap_cons. apply NoDup_cons. split; [|done]. cbn [move_to]. intros Hin.
    apply list_elem_of_fmap in Hin as (o' & E & Hin).
    destruct (Hold o' Hin) as (o2 & Ho2 & _ & [(m & Hmin & _ & Et)|[Hn2 Et]]); rewrite Et in E.
    + destruct (Hlater (move_to o)) as [Hni _]; [by left|done|]. apply Hni. rewrite E. apply Hi.
      rewrite Hp. apply elem_of_app. by left.
    + destruct (Hlater (move_to o2)) as [_ Hinj]; [right; by apply list_elem_of_fmap_2|done|].
      apply Hdist. rewrite <- Hinj by done. by apply list_elem_of_fmap_2.
Qed.

Lemma updated_matched o m l mv mv' d i l' matched rest :
  mv ≡ₚ m :: mv' -> move_from m = move_to o -> NoDup (move_from <$> mv) -> NoDup (move_to <$> mv) ->
  mem i (move_to m) ->
  (forall y, y ∈ move_to <$> l -> ~ mem d y -> ~ mem i (later d i y)) ->
  move_to o ∉ move_to <$> l ->
  updated l mv' d i l' matched rest ->
  updated (o :: l) mv d i (MkMove (move_from o) (move_to m) :: l') (m :: matched) rest.
Proof.
  intros Hmv Hf Hnf Hnt Hi Hlater Hdist [Hp Hm Hr Hold Hs Hd].
  rewrite Hmv, fmap_cons, NoDup_cons in Hnf, Hnt. destruct Hnf as [Hnf _], Hnt as [Hnt _].
  split.
  - by rewrite Hmv, Hp.
  - intros m' [->|Hin]%elem_of_cons; rewrite fmap_cons; [rewrite Hf; by left|right; by apply Hm].
  - intros m' Hin. rewrite fmap_cons, not_elem_of_cons. split; [|by apply Hr].
    rewrite <- Hf. intros E. apply Hnf. rewrite <- E. apply list_elem_of_fmap_2. rewrite Hp. apply elem_of_app. by right.
  - intros o' [->|Hin]%elem_of_cons.
    + exists o. split_and!; [by left|done|]. left. exists m. split; [by left|done].
    + destruct (Hold o' Hin) as (o2 & ? & ? & Ht). exists o2. split_and!; [by right|done|].
      destruct Ht as [(m' & ? & ?)|?]; [left; exists m'; split; [by right|done]|by right].
  - rewrite !fmap_cons. by constructor.
  - rewrite fmap_cons. apply NoDup_cons. split; [|done]. cbn [move_to]. intros Hin.
    apply list_elem_of_fmap in Hin as (o' & E & Hin).
    destruct (Hold o' Hin) as (o2 & Ho2 & _ & [(m' & Hmin & _ & Et)|[Hn2 Et]]); rewrite Et in E.
    + apply Hnt. rewrite E. apply list_elem_of_fmap_2. rewrite Hp. apply elem_of_app. by left.
    + apply (Hlater (move_to o2)); [by apply list_elem_of_fmap_2|done|]. by rewrite <- E.
Qed.

Lemma update_old_moves_spec keys l b c :
  covers keys b c -> (forall k, index_set_ok (marked b k)) -> (forall k, index_set_ok (marked c k)) ->
  index_set_ok (deletions c) -> index_set_ok (insertions c) ->
  Forall (fun m => mem (deletions c) (move_from m) /\ mem (insertions c) (move_to m)) (moves c) ->
  NoDup (move_from <$> moves c) -> NoDup (move_to <$> moves c) ->
  NoDup (move_to <$> l) -> Forall (fun o => 0 <= move_to o < npos) l ->
  (forall y, y ∈ move_to <$> l -> ~ mem (deletions c) y ->
     ~ mem (insertions c) (later (deletions c) (insertions c) y) /\
     rank (ranges (insertions c)) (later (deletions c) (insertions c) y) = rank (ranges (deletions c)) y) ->
  exists l' b' c' matched, update_old_moves keys l b c = Ok (l', b', c') /\
    covers keys b' c' /\ marks_carried matched b c b' (with_moves (moves c) c') /\
    updated l (moves c) (deletions c) (insertions c) l' matched (moves c').
Proof.
  revert b c. induction l as [|o l IH]; intros b c Hcov Hb Hc Hd Hi Hmv Hnf Hnt Hdist Hl Hlater.
  { exists [], b, c, []. split_and!; [done|done| |apply updated_nil].
    assert (with_moves (moves c) c = c) as -> by (by destruct c). by apply marks_carried_nil. }
  rewrite fmap_cons in Hdist. apply NoDup_cons in Hdist as [Ho Hdist]. apply Forall_cons in Hl as [Hto Hl].
  assert (forall y, y ∈ move_to <$> l -> ~ mem (deletions c) y ->
    ~ mem (insertions c) (later (deletions c) (insertions c) y) /\
    rank (ranges (insertions c)) (later (deletions c) (insertions c) y) = rank (ranges (deletions c)) y) as Hlater'
    by (intros y Hy; apply Hlater; by right).
  assert (forall m, m ∈ moves c -> mem (insertions c) (move_to m)) as Hmi
    by (intros m Hm; rewrite Forall_forall in Hmv; by apply Hmv).
  cbn [update_old_moves]. destruct (find_move (move_to o) (moves c)) as [n|] eqn:Ef.
  - apply find_move_Some in Ef as (m & Hn & Hf). rewrite Hn.
    assert (m ∈ moves c) as Hin by (by eapply list_elem_of_lookup_2).
    assert (0 <= move_to m < npos) as Hmt
      by (eapply mem_range; [exact Hi|by apply Hmi]).
    destruct (carry_spec keys b c m Hcov Hmt Hb Hc) as (b1 & c1 & -> & Hcov1 & Hm1). cbn [mbind result_bind].
    destruct Hm1 as (Hb1 & Hc1 & Em1 & Hm1).
    pose proof (swap_pop_spec _ _ _ Hn) as Hsp.
    assert (moves c1 = moves c /\ deletions c1 = deletions c /\ insertions c1 = insertions c) as (Ec1 & Ec2 & Ec3)
      by (by destruct Hc1 as (? & ? & ->)).
    destruct (IH b1 (with_moves (swap_pop n (moves c1)) c1)) as (l' & b' & c' & matched & E & Hcov' & Hm' & Hup);
      cbn [with_moves deletions insertions moves]; rewrite ?Ec1, ?Ec2, ?Ec3; try done.
    { intros k. by rewrite Em1. }
    { intros k. apply Hm1. }
    { rewrite Hsp in Hmv. by apply Forall_cons in Hmv as [_ ?]. }
    { rewrite Hsp, fmap_cons in Hnf. by apply NoDup_cons in Hnf as [_ ?]. }
    { rewrite Hsp, fmap_cons in Hnt. by apply NoDup_cons in Hnt as [_ ?]. }
    rewrite Ec1 in E. rewrite E. cbn [mbind result_bind]. exists (MkMove (move_from o) (move_to m) :: l'), b', c', (m :: matched).
    split_and!; [done|done| |].
    + apply (marks_carried_app [m] matched b c b1 c1); [done|].
      rewrite Ec1 in Hm'. cbn [with_moves moves] in Hm'. destruct Hm' as (Hb2 & (mm & cols & E2) & Em2 & Hm2).
      split_and!; [done| |done|exact Hm2]. exists mm, cols.
      rewrite <- Ec1. destruct c1, c'. unfold with_moves, with_modifications in *. cbn in *. by injection E2 as -> -> -> -> -> ->.
    + cbn [with_moves deletions insertions moves] in Hup. rewrite Ec1, Ec2, Ec3 in Hup.
      apply (updated_matched o m l (moves c) (swap_pop n (moves c))); try done; [by apply Hmi|].
      intros y Hy Hny. by apply Hlater'.
  - assert (forall m, m ∈ moves c -> move_from m <> move_to o) as Hno by (intros m; by apply find_move_None).
    destruct (contains_spec (deletions c) (move_to o) Hd) as (bt & -> & Hbt). cbn [mbind result_bind]. destruct bt.
    + destruct (IH b c) as (l' & b' & c' & matched & -> & Hcov' & Hm' & Hup); try done.
      exists l', b', c', matched. split_and!; try done. by apply updated_deleted.
    + rewrite unshift_spec by done. cbn [mbind result_bind].
      destruct (IH b c) as (l' & b' & c' & matched & -> & Hcov' & Hm' & Hup); try done.
      cbn [mbind result_bind]. eexists _, b', c', matched. split_and!; [done|done|done|].
      assert (~ mem (deletions c) (move_to o)) as Hnd by (by intros Hx%Hbt).
      fold (rank (ranges (deletions c)) (move_to o)). fold (later (deletions c) (insertions c) (move_to o)).
      apply updated_kept; try done.
      intros y Hy Hny. destruct (Hlater y Hy Hny) as [Hni Hr]. split; [done|]. intros E.
      destruct (Hlater (move_to o)) as [_ Hr']; [by left|done|]. rewrite E, Hr' in Hr.
      assert (forall z, z ∈ move_to <$> o :: l -> 0 <= z <= npos) as Hb0.
      { intros z Hz. apply list_elem_of_fmap in Hz as (o2 & -> & [->|Hin]%elem_of_cons); [lia|].
        rewrite Forall_forall in Hl. apply Hl in Hin. lia. }
      rewrite <- (shift_rank (deletions c) y), <- Hr, shift_rank; [done|done|lia|done|done|by apply Hb0|done].
Qed.

(** Nothing to do when the new change set has no moves, deletions and insertions. *)
Lemma later_empty y : later [] [] y = y.
Proof. unfold later, rank, shift. change (ranges []) with (@nil (Z * Z)). rewrite count_in_nil. cbn. lia. Qed.

Lemma updated_unchanged l : NoDup (move_to <$> l) -> updated l [] [] [] l [] [].
Proof.
  intros Hn. split; try done; try (by intros m ?%elem_of_nil).
  intros o Ho. exists o. split_and!; [done|done|]. right. rewrite later_empty. split; [by intros ?%has_nil|done].
Qed.

(** ** New moves *)

Lemma drop_moves_from_spec i l :
  index_set_ok i -> drop_moves_from i l = Ok (filter (fun m => ~ mem i (move_from m)) l).
Proof.
  intros Hi. induction l as [|m l IH]; [done|]. cbn [drop_moves_from].
  destruct (contains_spec i (move_from m) Hi) as (bt & -> & Hbt). cbn [mbind result_bind].
  rewrite IH. cbn [mbind result_bind]. rewrite filter_cons.
  destruct bt; case_decide as Hc; try done; exfalso; [by apply Hc, Hbt|].
  by apply Hbt in Hc.
Qed.

Definition earlier (b : CollectionChangeBuilder) (m : Move) : Move :=
  MkMove (later (insertions b) (deletions b) (move_from m)) (move_to m).

Lemma map_moves_spec b l :
  index_set_ok (insertions b) -> Forall (fun m => 0 <= move_from m < npos) l ->
  map_moves (source_before b) l = Ok (earlier b <$> l).
Proof.
  intros Hi. induction 1 as [|m l Hm _ IH]; [done|]. cbn [map_moves]. unfold source_before.
  rewrite unshift_spec by done. cbn [mbind result_bind]. unfold source_before in IH. rewrite IH. done.
Qed.

(** ** Moves that are no-ops *)

Section stale.
Context {A : Type}.

(** An element put back at its rank. *)
Lemma keep_less (r r' : list (Z * Z)) (l : list A) j a :
  sorted r -> nth_Z l j = Some a -> has r j -> (forall x, has r' x <-> has r x /\ x <> j) ->
  let n := Z.to_nat (rank r j) in
  keep r' 0 l = take n (keep r 0 l) ++ a :: drop n (keep r 0 l).
Proof.
  intros Hs Ha Hj Hr n. destruct (split_at_Z _ _ _ Ha) as (l1 & l2 & -> & Hl).
  rewrite !keep_app, Z.add_0_l, Hl. cbn [keep].
  rewrite (decide_True (P := has r j)) by done. rewrite decide_False by (rewrite Hr; tauto).
  assert (length (keep r 0 l1) = n) as <-.
  { pose proof (length_keep r l1 Hs) as E. rewrite Hl in E. unfold n. lia. }
  rewrite take_app_length, drop_app_length. f_equal; [|f_equal].
  - rewrite (keep_ext r' r 0 0); [done|]. intros x Hx. rewrite Z.add_0_r, Hr. split; [by intros [? _]|split; [done|lia]].
  - rewrite (keep_ext r' r (j + 1) 0), Z.add_0_r; [done|]. intros x Hx.
    rewrite Z.add_0_r, Hr. split; [by intros [? _]|split; [done|lia]].
Qed.

(** The moves [l] with their deletions [d] and insertions [i]. *)
Record moves_in (old cur : list A) (l : list Move) (d i : IndexSet) : Prop := {
  mi_deletions : index_set_ok d;
  mi_insertions : index_set_ok i;
  mi_kept : keep (ranges d) 0 old = keep (ranges i) 0 cur;
  mi_moves : Forall (fun m => mem d (move_from m) /\ mem i (move_to m) /\
    exists a, nth_Z old (move_from m) = Some a /\ nth_Z cur (move_to m) = Some a) l;
  mi_sources : NoDup (move_from <$> l);
  mi_destinations : NoDup (move_to <$> l)
}.

Lemma remove_stale old cur m l d i :
  Z.of_nat (length old) <= npos -> Z.of_nat (length cur) <= npos ->
  moves_in old cur (m :: l) d i -> rank (ranges d) (move_from m) = rank (ranges i) (move_to m) ->
  exists d' i', remove d (move_from m) 1 = Ok d' /\ remove i (move_to m) 1 = Ok i' /\
    (forall x, mem d' x -> mem d x) /\ (forall x, mem i' x -> mem i x) /\ moves_in old cur l d' i'.
Proof.
  intros Ho Hc [Hd Hi Hk Hmv Hs Ht] Hr. apply Forall_cons in Hmv as [(Hf & Hto & a & Ha & Hb) Hmv].
  rewrite fmap_cons in Hs, Ht. apply NoDup_cons in Hs as [Hsm Hs]. apply NoDup_cons in Ht as [Htm Ht].
  apply nth_lt in Ha as Hla. apply nth_lt in Hb as Hlb.
  destruct (remove_spec d (move_from m) 1 Hd) as (d' & E & Hd' & Hmd); [lia|lia|lia|].
  destruct (remove_spec i (move_to m) 1 Hi) as (i' & E' & Hi' & Hmi); [lia|lia|lia|].
  assert (forall x y, ~ (x <= y < x + 1) <-> y <> x) as Hne by (intros; lia).
  setoid_rewrite Hne in Hmd. setoid_rewrite Hne in Hmi.
  exists d', i'. split_and!; [done|done|by intros x [? _]%Hmd|by intros x [? _]%Hmi|]. split; try done.
  - rewrite (keep_less (ranges d) (ranges d') old (move_from m) a) by (done || apply Hd).
    rewrite (keep_less (ranges i) (ranges i') cur (move_to m) a) by (done || apply Hi). by rewrite Hr, Hk.
  - rewrite Forall_forall in Hmv |- *. intros m' Hm'. destruct (Hmv m' Hm') as (? & ? & ?). split_and!; [| |done].
    + apply Hmd. split; [done|]. intros E2. apply Hsm. rewrite <- E2. by apply list_elem_of_fmap_2.
    + apply Hmi. split; [done|]. intros E2. apply Htm. rewrite <- E2. by apply list_elem_of_fmap_2.
Qed.

Lemma stale_moves_spec old cur l d i :
  Z.of_nat (length old) <= npos -> Z.of_nat (length cur) <= npos -> moves_in old cur l d i ->
  exists l' d' i', stale_moves l d i = Ok (l', d', i') /\ l' `sublist_of` l /\
    (forall x, mem d' x -> mem d x) /\ (forall x, mem i' x -> mem i x) /\ moves_in old cur l' d' i'.
Proof.
  intros Ho Hc.
  (* the moves seen so far stay *)
  enough (forall kept, moves_in old cur (kept ++ l) d i ->
    exists l' d' i', stale_moves l d i = Ok (l', d', i') /\ l' `sublist_of` l /\
      (forall x, mem d' x -> mem d x) /\ (forall x, mem i' x -> mem i x) /\ moves_in old cur (kept ++ l') d' i')
    as Hk by apply (Hk []).
  revert d i. induction l as [|m l IH]; intros d i kept Hm; cbn [stale_moves].
  { exists [], d, i. split_and!; done. }
  assert (moves_in old cur (m :: kept ++ l) d i) as Hm'.
  { destruct Hm as [? ? ? Hf Hs Ht]. rewrite !fmap_app, !fmap_cons in *.
    split; [done|done|done|by rewrite <- Permutation_middle in Hf|..]; rewrite fmap_cons, fmap_app, Permutation_middle; done. }
  pose proof Hm' as [Hd Hi _ Hmv _ _]. apply Forall_cons in Hmv as [(Hf & Ht & _) _].
  pose proof (mem_range _ _ Hd Hf). pose proof (mem_range _ _ Hi Ht).
  rewrite !count_spec by (done || lia || (right; by apply sorted_from_0, sorted_ok, is_sorted)).
  cbn [mbind result_bind].
  fold (rank (ranges d) (move_from m)). fold (rank (ranges i) (move_to m)).
  pose proof (rank_nonneg (ranges d) (move_from m) (is_sorted _ Hd) ltac:(lia)).
  pose proof (rank_nonneg (ranges i) (move_to m) (is_sorted _ Hi) ltac:(lia)).
  pose proof (count_in_nonneg 0 (move_from m) (ranges d)). pose proof (count_in_nonneg 0 (move_to m) (ranges i)).
  rewrite !u64_small by (unfold rank, npos in *; lia).
  destruct (Z.eqb_spec (rank (ranges d) (move_from m)) (rank (ranges i) (move_to m))) as [Er|Er]; cbn [negb].
  - destruct (remove_stale old cur m (kept ++ l) d i Ho Hc Hm' Er) as (d1 & i1 & -> & -> & Hsd & Hsi & Hm1).
    cbn [mbind result_bind]. destruct (IH d1 i1 kept Hm1) as (l' & d' & i' & -> & Hsub & Hd' & Hi' & Hm2).
    exists l', d', i'. split_and!; [done|by constructor|auto|auto|done].
  - destruct (IH d i (kept ++ [m])) as (l' & d' & i' & -> & Hsub & Hd' & Hi' & Hm2); [by rewrite <- app_assoc|].
    cbn [mbind result_bind]. exists (m :: l'), d', i'. rewrite <- app_assoc in Hm2.
    split_and!; [done|by constructor|done|done|done].
Qed.
End stale.
End moves.
