(* ===== verification/MergeChanges.v ===== *)
(** [merge]: the change from a first collection to a second, composed with the change from the
    second to a third, is the change from the first to the third. *)

From S2P Require Import Prelude ChunkedRangeVector RangeList IndexSet IndexSetCount IndexLists IndexSetMerge.
From S2P Require Import IndexSetShifted IndexSetProps ChangeBuilder KeptElements Collection Tracking TrackedChanges.
From S2P Require Import RowDiff LongestMatch RowAlignment Transport MergeMoves.

Section merge.
Context `{MaxSize} {A : Type}.
Implicit Types b c : CollectionChangeBuilder.
Abbreviation mem v x := (has (ranges v) x).

(** ** What a builder says of two collections, whatever the marks of the elements *)

Record tracks b (old cur : list A) : Prop := {
  tr_moves : moves_in old cur (moves b) (deletions b) (insertions b);
  tr_old : below (Z.of_nat (length old)) (ranges (deletions b));
  tr_cur : below (Z.of_nat (length cur)) (ranges (insertions b));
  tr_marks_ok : forall k, index_set_ok (marked b k);
  tr_marks : forall k x, mem (marked b k) x -> x < Z.of_nat (length cur);
  tr_columns : forall k x, mem (marked b k) x -> mem (modifications b) x;
  tr_track : m_track_columns b = true
}.

(** A modification in a column is one of the row. *)
Definition rows_marked (cur : list (item A)) : Prop := forall k x, marked_at cur k x -> marked_at cur None x.

Lemma describes_tracks b old cur : describes b old cur -> rows_marked cur -> tracks b old (ids cur).
Proof.
  intros Hd Hr. pose proof (ds_marks _ _ _ Hd) as Hm. split.
  - split; try apply Hd. eapply Forall_impl; [apply Hd|]. by intros m [? ? ?].
  - by eapply deletions_below.
  - rewrite length_ids. by eapply insertions_below.
  - apply Hd.
  - intros k x Hx%Hm. rewrite length_ids. by apply marked_at_lt in Hx as [_ ?].
  - intros k x Hx%Hm. apply (Hm None). by eapply Hr.
  - apply Hd.
Qed.

Lemma rows_marked_fresh (l : list A) : rows_marked (fresh <$> l).
Proof.
  intros k x (it & Hit & Hk). unfold nth_Z in Hit. case_decide; [|done].
  rewrite list_lookup_fmap in Hit. destruct (l !! _); [|done]. injection Hit as <-. by apply elem_of_empty in Hk.
Qed.

(** ** Two changes in a row *)

Section composition.
Context (b c : CollectionChangeBuilder) (old mid cur : list A).
Hypothesis first : tracks b old mid.
Hypothesis second : tracks c mid cur.
Hypothesis sizes : Z.of_nat (length old) + Z.of_nat (length mid) + Z.of_nat (length cur) < npos.

Lemma ok_b : index_set_ok (deletions b) /\ index_set_ok (insertions b).
Proof. split; apply first. Qed.
Lemma ok_c : index_set_ok (deletions c) /\ index_set_ok (insertions c).
Proof. split; apply second. Qed.

(** An element of the second collection that was not inserted, in the first. *)
Lemma from_first y :
  0 <= y < Z.of_nat (length mid) -> ~ mem (insertions b) y ->
  let x := later (insertions b) (deletions b) y in
  0 <= x < Z.of_nat (length old) /\ ~ mem (deletions b) x /\
  rank (ranges (deletions b)) x = rank (ranges (insertions b)) y /\ nth_Z old x = nth_Z mid y.
Proof.
  destruct ok_b. apply (transported (deletions b) (insertions b) old mid); try done; try apply first; lia.
Qed.

(** An element of the second collection that was not deleted, in the third. *)
Lemma to_third y :
  0 <= y < Z.of_nat (length mid) -> ~ mem (deletions c) y ->
  let x := later (deletions c) (insertions c) y in
  0 <= x < Z.of_nat (length cur) /\ ~ mem (insertions c) x /\
  rank (ranges (insertions c)) x = rank (ranges (deletions c)) y /\ nth_Z cur x = nth_Z mid y.
Proof.
  destruct ok_c. apply (transported (insertions c) (deletions c) cur mid); try done; try apply second; try lia.
  symmetry. apply second.
Qed.

Lemma mid_index v y : index_set_ok v -> below (Z.of_nat (length mid)) (ranges v) -> mem v y ->
  0 <= y < Z.of_nat (length mid).
Proof.
  intros Hv Hb Hy. pose proof (mem_range _ _ Hv Hy). pose proof (has_below _ _ _ Hb Hy). lia.
Qed.

(** The deletions and the insertions of both. *)
Lemma merged_kept d i :
  (forall x, mem d x <-> mem (deletions b) x \/
     exists y, mem (deletions c) y /\ ~ mem (insertions b) y /\ x = later (insertions b) (deletions b) y) ->
  (forall x, mem i x <-> mem (insertions c) x \/
     exists y, mem (insertions b) y /\ ~ mem (deletions c) y /\ x = later (deletions c) (insertions c) y) ->
  keep (ranges d) 0 old = keep (ranges i) 0 cur.
Proof.
  intros Hd Hi. destruct ok_b, ok_c.
  rewrite (keep_transport (deletions b) (insertions b) old mid) with (rc := ranges (deletions c));
    try done; try apply first; try lia.
  2: { intros y Hy. eapply mid_index; [|apply second|done]. done. }
  rewrite (keep_transport (insertions c) (deletions c) cur mid) with (rc := ranges (insertions b));
    try done; try apply second; try lia.
  2: { symmetry. apply second. }
  2: { intros y Hy. eapply mid_index; [|apply first|done]. done. }
  f_equal. rewrite !list_filter_filter. apply list_filter_iff. intros p. tauto.
Qed.

Lemma merged_bounds d i :
  index_set_ok d -> index_set_ok i ->
  (forall x, mem d x -> mem (deletions b) x \/
     exists y, mem (deletions c) y /\ ~ mem (insertions b) y /\ x = later (insertions b) (deletions b) y) ->
  (forall x, mem i x -> mem (insertions c) x \/
     exists y, mem (insertions b) y /\ ~ mem (deletions c) y /\ x = later (deletions c) (insertions c) y) ->
  below (Z.of_nat (length old)) (ranges d) /\ below (Z.of_nat (length cur)) (ranges i).
Proof.
  intros Hokd Hoki Hd Hi. destruct ok_b as [_ Hb], ok_c as [Hc _].
  split; (apply below_of_has; [apply sorted_ok; by apply is_sorted|]); intros x.
  - intros [Hx|(y & Hy & Hn & ->)]%Hd; [by apply (has_below _ _ _ (tr_old _ _ _ first))|].
    apply from_first; [|done]. eapply mid_index; [exact Hc|apply second|done].
  - intros [Hx|(y & Hy & Hn & ->)]%Hi; [by apply (has_below _ _ _ (tr_cur _ _ _ second))|].
    apply to_third; [|done]. eapply mid_index; [exact Hb|apply first|done].
Qed.

(** The moves of both: [l'] are the old ones, [matched] the new ones that took old ones on. *)
Lemma merged_moves d i l' matched rest :
  index_set_ok d -> index_set_ok i ->
  (forall x, mem d x <-> mem (deletions b) x \/
     exists y, mem (deletions c) y /\ ~ mem (insertions b) y /\ x = later (insertions b) (deletions b) y) ->
  (forall x, mem i x <-> mem (insertions c) x \/
     exists y, mem (insertions b) y /\ ~ mem (deletions c) y /\ x = later (deletions c) (insertions c) y) ->
  updated (moves b) (moves c) (deletions c) (insertions c) l' matched rest ->
  moves_in old cur (l' ++ (earlier b <$> filter (fun m => ~ mem (insertions b) (move_from m)) rest)) d i.
Proof.
  intros Hokd Hoki Hd Hi Hup. pose proof (tr_moves _ _ _ first) as [_ _ _ Hmb Hsb Hdb].
  pose proof (tr_moves _ _ _ second) as [_ _ _ Hmc Hsc Hdc]. rewrite Forall_forall in Hmb, Hmc.
  destruct Hup as [Hp Hmt Hrt Hold Hsub Hdest].
  set (kept := filter _ rest).
  assert (forall m, m ∈ kept -> m ∈ moves c /\ ~ mem (insertions b) (move_from m)) as Hkept.
  { intros m [Hn Hm]%list_elem_of_filter. split; [|done]. rewrite Hp. apply elem_of_app. by right. }
  assert (forall m, m ∈ moves c -> 0 <= move_from m < Z.of_nat (length mid)) as Hfrom.
  { intros m (_ & _ & a & Ha & _)%Hmc. by eapply nth_lt. }
  assert (forall o, o ∈ moves b -> 0 <= move_to o < Z.of_nat (length mid)) as Hto.
  { intros o (_ & _ & a & _ & Ha)%Hmb. by eapply nth_lt. }
  rewrite Hp, !fmap_app in Hsc, Hdc. apply NoDup_app in Hdc as (_ & Hdc & Hdr). apply NoDup_app in Hsc as (_ & _ & Hsr).
  split; [done|done|by apply merged_kept| | |].
  - apply Forall_app. split; [|apply Forall_fmap]; apply Forall_forall.
    + intros o' Ho'. destruct (Hold o' Ho') as (o & Ho & -> & Ht).
      destruct (Hmb o Ho) as (Hfo & Hio & a & Ha & Ha'). split_and!; [apply Hd; by left| |exists a; split; [done|]].
      * apply Hi. destruct Ht as [(m & Hm & _ & ->)|[Hn ->]]; [left|right; by exists (move_to o)].
        apply Hmc. rewrite Hp. apply elem_of_app. by left.
      * destruct Ht as [(m & Hm & Hf & ->)|[Hn ->]].
        -- destruct (Hmc m) as (_ & _ & a' & E1 & E2); [rewrite Hp; apply elem_of_app; by left|].
           rewrite Hf in E1. congruence.
        -- destruct (to_third (move_to o) (Hto o Ho) Hn) as (_ & _ & _ & ->). done.
    + intros m Hm. destruct (Hkept m Hm) as [Hin Hn]. destruct (Hmc m Hin) as (Hf & Hit & a & E1 & E2).
      cbn [compose earlier move_from move_to]. split_and!.
      * apply Hd. right. by exists (move_from m).
      * apply Hi. by left.
      * exists a. split; [|done]. destruct (from_first (move_from m) (Hfrom m Hin) Hn) as (_ & _ & _ & ->). done.
  - rewrite fmap_app, <- list_fmap_compose. apply NoDup_app. split_and!.
    + apply (sublist_NoDup _ _ Hsb Hsub).
    + intros x Hx Hx'. apply list_elem_of_fmap in Hx as (o' & -> & Ho').
      destruct (Hold o' Ho') as (o & Ho & E & _). destruct (Hmb o Ho) as (Hfo & _).
      apply list_elem_of_fmap in Hx' as (m & E' & Hm). destruct (Hkept m Hm) as [Hin Hn].
      destruct (from_first (move_from m) (Hfrom m Hin) Hn) as (_ & Hnd & _). apply Hnd. cbn in E'. congruence.
    + apply NoDup_fmap_2_strong; [|by eapply NoDup_filter, NoDup_fmap_1].
      intros m1 m2 Hm1 Hm2 E. cbn in E. destruct (Hkept m1 Hm1) as [Hin1 Hn1], (Hkept m2 Hm2) as [Hin2 Hn2].
      destruct (from_first _ (Hfrom m1 Hin1) Hn1) as (_ & _ & R1 & _).
      destruct (from_first _ (Hfrom m2 Hin2) Hn2) as (_ & _ & R2 & _). rewrite E, R2 in R1.
      assert (move_from m1 = move_from m2) as Ef.
      { pose proof (Hfrom m1 Hin1). pose proof (Hfrom m2 Hin2).
        rewrite <- (shift_rank (insertions b) (move_from m1)), <- R1, shift_rank; try done; try apply ok_b; lia. }
      apply list_elem_of_filter in Hm1 as [_ Hm1], Hm2 as [_ Hm2].
      apply list_elem_of_lookup in Hm1 as [i1 Hl1], Hm2 as [i2 Hl2].
      assert (i1 = i2) as <-; [|congruence].
      eapply (NoDup_lookup _ _ _ (move_from m1) Hsr); rewrite list_lookup_fmap, ?Hl1, ?Hl2; cbn; congruence.
  - rewrite fmap_app, <- list_fmap_compose. apply NoDup_app. split_and!; [done| |].
    + intros x Hx Hx'. apply list_elem_of_fmap in Hx as (o' & -> & Ho').
      apply list_elem_of_fmap in Hx' as (m & E' & Hm). cbn in E'.
      destruct (Hold o' Ho') as (o & Ho & _ & [(m' & Hm' & _ & E)|[Hn E]]).
      * apply (Hdc (move_to m')); [by apply list_elem_of_fmap_2|]. rewrite <- E, E'.
        apply list_elem_of_fmap_2. by apply list_elem_of_filter in Hm as [_ ?].
      * destruct (to_third (move_to o) (Hto o Ho) Hn) as (_ & Hnd & _). apply Hnd. rewrite <- E, E'.
        apply Hmc. by apply Hkept.
    + rewrite (list_fmap_ext _ move_to) by done. eapply sublist_NoDup; [exact Hdr|]. apply sublist_map, sublist_filter.
Qed.
End composition.

(** ** The steps of [merge] *)

(** How far [merge] has come: the moves of both change sets and the moves that have carried
    modifications over to the new change set. *)
Record progress (keys : list Z) b c b1 c1 (l mv done : list Move) : Prop := {
  pg_old : same_but_marks (with_moves l b) b1;
  pg_new : same_but_marks (with_moves mv c) c1;
  pg_covers : covers keys b1 c1;
  pg_old_marks : forall k, marked b1 k = marked b k;
  pg_new_marks : forall k, index_set_ok (marked c1 k) /\
    forall x, mem (marked c1 k) x <-> mem (marked c k) x \/ carried done (marked b k) x
}.

Lemma progress_fields keys b c b1 c1 l mv l' :
  progress keys b c b1 c1 l mv l' ->
  moves b1 = l /\ deletions b1 = deletions b /\ insertions b1 = insertions b /\
  moves c1 = mv /\ deletions c1 = deletions c /\ insertions c1 = insertions c /\
  m_track_columns b1 = m_track_columns b.
Proof. by intros [(m & cols & ->) (m' & cols' & ->) _ _ _]. Qed.

Lemma progress_moves keys b c b1 c1 l mv mv' l' :
  progress keys b c b1 c1 l mv l' -> progress keys b c b1 (with_moves mv' c1) l mv' l'.
Proof.
  intros [Hb (m & cols & ->) Hc Hm Hm']. split; try done. by exists m, cols.
Qed.

Section steps.
Context (b c : CollectionChangeBuilder) (old mid cur : list A).
Hypothesis first : tracks b old mid.
Hypothesis second : tracks c mid cur.
Hypothesis sizes : Z.of_nat (length old) + Z.of_nat (length mid) + Z.of_nat (length cur) < npos.
Notation keys := (col_keys b c).

Lemma move_bounds m : m ∈ moves c -> 0 <= move_from m < npos /\ 0 <= move_to m < npos.
Proof.
  pose proof (tr_moves _ _ _ second) as [_ _ _ Hm _ _]. rewrite Forall_forall in Hm.
  intros (_ & _ & a & E1%nth_lt & E2%nth_lt)%Hm. lia.
Qed.

Lemma merge_old_moves_spec :
  exists b1 c1 l matched rest, merge_old_moves keys b c = Ok (b1, c1) /\
    progress keys b c b1 c1 l rest matched /\
    updated (moves b) (moves c) (deletions c) (insertions c) l matched rest.
Proof.
  pose proof (tr_moves _ _ _ first) as [_ _ _ Hmb Hsb Hdb].
  pose proof (tr_moves _ _ _ second) as [Hd Hi _ Hmc Hsc Hdc].
  assert (covers keys b c) as Hcov by (apply col_keys_cover, first).
  assert (Forall (fun o => 0 <= move_to o < Z.of_nat (length mid)) (moves b)) as Hto.
  { eapply Forall_impl; [exact Hmb|]. intros o (_ & _ & a & _ & Ha%nth_lt). done. }
  unfold merge_old_moves. destruct (has_moves c || nonempty (deletions c) || nonempty (insertions c)) eqn:E.
  - destruct (update_old_moves_spec keys (moves b) b c) as (l & b1 & c1 & matched & -> & Hcov1 & Hm & Hup); try done.
    + apply first.
    + apply second.
    + eapply Forall_impl; [exact Hmc|]. intros m (? & ? & _). done.
    + eapply Forall_impl; [exact Hto|]. simpl. lia.
    + intros y Hy Hn. apply list_elem_of_fmap in Hy as (o & -> & Ho). rewrite Forall_forall in Hto.
      destruct (to_third c old mid cur second sizes (move_to o) (Hto o Ho) Hn) as (_ & ? & ? & _). done.
    + cbn [mbind result_bind]. destruct Hm as ((mb & colsb & ->) & (mc & colsc & Ec) & Hmb' & Hmc').
      exists (with_moves l (with_modifications mb colsb b)), c1, l, matched, (moves c1). split; [done|]. split; [|done].
      split; [by exists mb, colsb| |by destruct Hcov1|exact Hmb'|exact Hmc'].
      exists mc, colsc. destruct c1, c. unfold with_moves, with_modifications in *. cbn in *.
      by injection Ec as -> -> -> -> -> ->.
  - apply orb_false_iff in E as [[Em Ed]%orb_false_iff Ei]. unfold has_moves in Em.
    destruct (moves c) eqn:Emv; [|done]. destruct (deletions c); [|done]. destruct (insertions c); [|done].
    exists b, c, (moves b), [], []. split_and!; [done| |by apply updated_unchanged].
    split; [|rewrite <- Emv|done|done|].
    + assert (with_moves (moves b) b = b) as -> by (by destruct b). apply same_but_marks_refl.
    + assert (with_moves (moves c) c = c) as -> by (by destruct c). apply same_but_marks_refl.
    + intros k. split; [apply second|]. intros x. split; [by left|]. by intros [?|(m & ?%elem_of_nil & _)].
Qed.

Lemma drop_moves_of_inserted_spec b1 c1 l mv l' :
  progress keys b c b1 c1 l mv l' ->
  exists c2, drop_moves_of_inserted b1 c1 = Ok c2 /\
    progress keys b c b1 c2 l (filter (fun m => ~ mem (insertions b) (move_from m)) mv) l'.
Proof.
  intros Hp. destruct (progress_fields _ _ _ _ _ _ _ _ Hp) as (_ & _ & Ei & Em & _).
  unfold drop_moves_of_inserted, has_moves. rewrite Ei, Em.
  destruct (insertions b) as [|r i] eqn:Eb.
  { exists c1. split; [done|]. rewrite filter_all; [done|]. apply Forall_forall. by intros m _ ?%has_nil. }
  destruct mv as [|m mv]; [by exists c1|]. cbn [nonempty andb].
  rewrite drop_moves_from_spec by (rewrite <- Eb; apply first). cbn [mbind result_bind].
  eexists. split; [done|]. by apply (progress_moves _ _ _ _ _ _ (m :: mv)).
Qed.

Lemma carry_modifications_spec b1 c1 l mv l' :
  progress keys b c b1 c1 l mv l' -> Forall (fun m => 0 <= move_to m < npos) mv ->
  exists b2 c2, carry_modifications keys b1 c1 = Ok (b2, c2) /\ progress keys b c b2 c2 l mv (l' ++ mv).
Proof.
  intros Hp Hmv. destruct (progress_fields _ _ _ _ _ _ _ _ Hp) as (_ & _ & _ & Em & _).
  unfold carry_modifications, has_moves. rewrite Em.
  assert (forall k x, carried (l' ++ mv) (marked b k) x <-> carried l' (marked b k) x \/ carried mv (marked b1 k) x) as Hcar.
  { intros k x. by rewrite carried_app, (pg_old_marks _ _ _ _ _ _ _ _ Hp). }
  destruct (nonempty (modifications b1) && match mv with [] => false | _ => true end) eqn:E.
  - destruct (carry_all_spec keys mv b1 c1) as (b2 & c2 & -> & Hcov & Hb2 & Hc2 & Hm & Hm').
    + apply Hp.
    + done.
    + intros k. rewrite (pg_old_marks _ _ _ _ _ _ _ _ Hp). apply first.
    + intros k. apply (pg_new_marks _ _ _ _ _ _ _ _ Hp k).
    + exists b2, c2. split; [done|]. split; [by eapply same_but_marks_trans; [apply Hp|]|by eapply same_but_marks_trans; [apply Hp|]|done| |].
      * intros k. by rewrite Hm, (pg_old_marks _ _ _ _ _ _ _ _ Hp).
      * intros k. split; [apply Hm'|]. intros x.
        rewrite (proj2 (Hm' k)), (proj2 (pg_new_marks _ _ _ _ _ _ _ _ Hp k)), Hcar. tauto.
  - exists b1, c1. split; [done|]. destruct Hp as [Hb Hc Hcov Hm Hm']. split; try done.
    intros k. split; [apply Hm'|]. intros x. rewrite (proj2 (Hm' k)), Hcar.
    assert (~ carried mv (marked b1 k) x); [|tauto]. intros (m & Hin & Hx & _).
    destruct mv as [|m0 mv]; [by apply elem_of_nil in Hin|]. rewrite andb_true_r in E.
    rewrite Hm in Hx. apply (tr_columns _ _ _ first) in Hx.
    pose proof (Hm None) as E0. cbn [marked] in E0. rewrite E0 in E.
    destruct (modifications b); [by apply has_nil in Hx|done].
Qed.

Lemma update_sources_spec b1 c1 l mv l' :
  progress keys b c b1 c1 l mv l' -> Forall (fun m => 0 <= move_from m < npos) mv ->
  exists c2, update_sources b1 c1 = Ok c2 /\ progress keys b c b1 c2 l (earlier b <$> mv) l'.
Proof.
  intros Hp Hmv. destruct (progress_fields _ _ _ _ _ _ _ _ Hp) as (_ & Ed & Ei & Em & _).
  unfold update_sources. rewrite Ed, Ei, Em.
  assert (earlier b1 = earlier b) as Ee by (unfold earlier; by rewrite Ed, Ei).
  destruct (nonempty (deletions b) || nonempty (insertions b)) eqn:E.
  - rewrite map_moves_spec; [|rewrite Ei; apply first|done]. cbn [mbind result_bind]. rewrite Ee.
    eexists. split; [done|]. by eapply progress_moves.
  - apply orb_false_iff in E as [E1 E2]. exists c1. split; [done|].
    assert (earlier b <$> mv = mv) as ->; [|done].
    rewrite <- (list_fmap_id mv) at 2. apply list_fmap_ext. intros _ m _. unfold earlier.
    destruct (deletions b); [|done]. destruct (insertions b); [|done]. rewrite later_empty. by destruct m.
Qed.
(** The chunks allocated for the deletions are enough. *)
Definition deletions_fit : Prop :=
  forall d, add_shifted_by (deletions b) (insertions b) (deletions c) = Ok d ->
    (length (ranges d) <= (length (ranges (deletions b)) / max_size + 1) * max_size)%nat.

Lemma width_below (v : IndexSet) n : index_set_ok v -> 0 <= n -> below n (ranges v) -> 0 <= width (ranges v) <= n.
Proof.
  intros Hv Hn Hb. pose proof (sorted_ok _ (is_sorted _ Hv)) as Ho. split; [by apply width_nonneg|].
  rewrite <- (count_in_all 0 n (ranges v)) by (done || by apply sorted_from_0).
  pose proof (count_in_le 0 n (ranges v) (is_sorted _ Hv) (sorted_from_0 _ Ho) Hn). lia.
Qed.

Lemma merge_sets_spec b1 c1 l matched rest l' :
  progress keys b c b1 c1 l (earlier b <$> filter (fun m => ~ mem (insertions b) (move_from m)) rest) l' ->
  updated (moves b) (moves c) (deletions c) (insertions c) l matched rest -> deletions_fit ->
  exists mv d i, merge_sets b1 c1 = Ok (with_moves mv (with_deletions d (with_insertions i b1))) /\
    moves_in old cur mv d i /\
    below (Z.of_nat (length old)) (ranges d) /\ below (Z.of_nat (length cur)) (ranges i).
Proof.
  intros Hp Hup Hfit. destruct (progress_fields _ _ _ _ _ _ _ _ Hp) as (Em & Ed & Ei & Em' & Ed' & Ei' & _).
  destruct (ok_b b old mid first) as [Hdb Hib], (ok_c c mid cur second) as [Hdc Hic].
  unfold merge_sets. cbn [with_moves deletions insertions]. rewrite Em, Ed, Ei, Em', Ed', Ei'.
  pose proof (width_below _ _ Hdb (Nat2Z.is_nonneg _) (tr_old _ _ _ first)).
  pose proof (width_below _ _ Hic (Nat2Z.is_nonneg _) (tr_cur _ _ _ second)).
  destruct (add_shifted_by_spec (deletions b) (insertions b) (deletions c) Hdb Hib Hdc) as
    (d & Ea & _ & _ & Hcap & Hmd).
  { eapply below_weaken; [apply (tr_old _ _ _ second)|lia]. }
  rewrite Ea. cbn [mbind result_bind]. specialize (Hcap (Hfit d Ea)).
  destruct (erase_at_set_spec (insertions b) (deletions c) Hib Hdc) as (i1 & -> & Hok1 & Hm1). cbn [mbind result_bind].
  destruct (insert_at_set_spec i1 (insertions c) Hok1 Hic) as (i & -> & Hoki & Hmi).
  { apply below_of_has; [apply sorted_ok; by apply is_sorted|]. intros x (y & Hy & _ & ->)%Hm1.
    apply (has_below _ _ _ (tr_cur _ _ _ first)) in Hy. pose proof (count_in_nonneg 0 y (ranges (deletions c))). lia. }
  cbn [mbind result_bind].
  assert (forall x, mem i x <-> mem (insertions c) x \/
    exists y, mem (insertions b) y /\ ~ mem (deletions c) y /\ x = later (deletions c) (insertions c) y) as Hmi'.
  { intros x. rewrite Hmi. apply or_iff_compat_l. split.
    - intros (z & (y & Hy & Hn & ->)%Hm1 & ->). by exists y.
    - intros (y & Hy & Hn & ->). eexists. split; [apply Hm1; by exists y|done]. }
  destruct (merged_bounds b c old mid cur first second sizes d i Hcap Hoki) as [Hbd Hbi].
  { intros x Hx. by apply Hmd. }
  { intros x Hx. by apply Hmi'. }
  pose proof (merged_moves b c old mid cur first second sizes d i l matched rest Hcap Hoki Hmd Hmi' Hup) as Hmv.
  unfold clean_up_stale_moves. cbn [with_moves with_deletions with_insertions moves deletions insertions].
  destruct (stale_moves_spec old cur _ d i ltac:(lia) ltac:(lia) Hmv) as (mv & d' & i' & -> & _ & Hsd & Hsi & Hmv').
  cbn [mbind result_bind]. exists mv, d', i'. split_and!; [done|done| |].
  - apply below_of_has; [apply sorted_ok, is_sorted, Hmv'|]. intros x Hx%Hsd. by apply (has_below _ _ _ Hbd).
  - apply below_of_has; [apply sorted_ok, is_sorted, Hmv'|]. intros x Hx%Hsi. by apply (has_below _ _ _ Hbi).
Qed.

(** The modifications of both, those of the old change set at their new indices. *)
Lemma merge_column_spec v w :
  index_set_ok v -> index_set_ok w -> (forall x, mem v x -> x < Z.of_nat (length mid)) ->
  exists v', merge_column (deletions c) (insertions c) v w = Ok (v', w) /\ index_set_ok v' /\
    forall x, mem v' x <-> mem w x \/
      exists y, mem v y /\ ~ mem (deletions c) y /\ x = later (deletions c) (insertions c) y.
Proof.
  intros Hv Hw Hb. destruct (ok_c c mid cur second) as [Hdc Hic]. unfold merge_column.
  pose proof (width_below _ _ Hic (Nat2Z.is_nonneg _) (tr_cur _ _ _ second)).
  destruct (erase_at_set_spec v (deletions c) Hv Hdc) as (v1 & -> & Hok1 & Hm1). cbn [mbind result_bind].
  destruct (shift_for_insert_at_set_spec v1 (insertions c) Hok1 Hic) as (v2 & -> & Hok2 & Hm2).
  { apply below_of_has; [apply sorted_ok; by apply is_sorted|]. intros x (y & Hy%Hb & _ & ->)%Hm1.
    pose proof (count_in_nonneg 0 y (ranges (deletions c))). lia. }
  cbn [mbind result_bind]. destruct (add_set_spec v2 w Hok2 Hw) as (v3 & -> & Hok3 & Hm3). cbn [mbind result_bind].
  exists v3. split_and!; [done|done|]. intros x. rewrite Hm3, Hm2. split.
  - intros [(z & (y & Hy & Hn & ->)%Hm1 & ->)|?]; [right; by exists y|by left].
  - intros [?|(y & Hy & Hn & ->)]; [by right|left]. eexists. split; [apply Hm1; by exists y|done].
Qed.

(** The modifications of the composition. *)
Definition merged_mark (k : option Z) (x : Z) : Prop :=
  mem (marked c k) x \/
  (exists y, mem (marked b k) y /\ ~ mem (deletions c) y /\ x = later (deletions c) (insertions c) y) \/
  (exists m, m ∈ moves c /\ mem (marked b k) (move_from m) /\ x = move_to m /\
     (move_from m ∈ move_to <$> moves b \/ ~ mem (insertions b) (move_from m))).

Lemma carried_moves l matched rest k x :
  updated (moves b) (moves c) (deletions c) (insertions c) l matched rest ->
  carried (matched ++ filter (fun m => ~ mem (insertions b) (move_from m)) rest) (marked b k) x <->
  exists m, m ∈ moves c /\ mem (marked b k) (move_from m) /\ x = move_to m /\
    (move_from m ∈ move_to <$> moves b \/ ~ mem (insertions b) (move_from m)).
Proof.
  intros Hup. assert (forall m, m ∈ moves c <-> m ∈ matched \/ m ∈ rest) as Hin
    by (intros m; by rewrite (up_moves _ _ _ _ _ _ _ Hup), elem_of_app).
  unfold carried. setoid_rewrite elem_of_app. setoid_rewrite list_elem_of_filter. setoid_rewrite Hin. split.
  - intros (m & Hm & Hx & ->). exists m. split_and!; [tauto|done|done|].
    destruct Hm as [Hm|[Hn _]]; [left; by eapply up_matched|by right].
  - intros (m & Hm & Hx & -> & Hc). exists m. split_and!; [|done|done].
    destruct Hm as [Hm|Hm]; [by left|right]. split; [|done]. destruct Hc as [Hc|Hc]; [|done].
    exfalso. by apply (up_rest _ _ _ _ _ _ _ Hup m).
Qed.

Lemma merged_mark_bound k x : merged_mark k x -> x < Z.of_nat (length cur).
Proof.
  destruct (ok_b b old mid first) as [Hdb Hib], (ok_c c mid cur second) as [Hdc Hic].
  intros [Hx|[(y & Hy & Hn & ->)|(m & Hm & _ & -> & _)]].
  - by eapply (tr_marks _ _ _ second).
  - apply (to_third c old mid cur second sizes); [|done].
    split; [|by eapply (tr_marks _ _ _ first)]. apply (mem_range (marked b k)); [apply first|done].
  - pose proof (tr_moves _ _ _ second) as [_ _ _ Hmv _ _]. rewrite Forall_forall in Hmv.
    destruct (Hmv m Hm) as (_ & _ & a & _ & E%nth_lt). lia.
Qed.

(** When both change sets say something. *)
Lemma merge_nonempty :
  is_empty c = false -> is_empty b = false -> deletions_fit ->
  exists b', merge b c = Ok b' /\ tracks b' old cur /\ forall k x, mem (marked b' k) x <-> merged_mark k x.
Proof.
  intros Ec Eb Hfit. unfold merge. rewrite Ec, Eb.
  destruct merge_old_moves_spec as (b1 & c1 & l & matched & rest & -> & Hp1 & Hup). cbn [mbind result_bind].
  destruct (drop_moves_of_inserted_spec b1 c1 l rest matched Hp1) as (c2 & -> & Hp2). cbn [mbind result_bind].
  set (mv := filter (fun m => ~ mem (insertions b) (move_from m)) rest) in *.
  assert (Forall (fun m => (0 <= move_from m < npos) /\ (0 <= move_to m < npos)) mv) as Hmv.
  { apply Forall_forall. intros m [_ Hm]%list_elem_of_filter. apply move_bounds.
    rewrite (up_moves _ _ _ _ _ _ _ Hup). apply elem_of_app. by right. }
  destruct (carry_modifications_spec b1 c2 l mv matched Hp2) as (b3 & c3 & -> & Hp3).
  { eapply Forall_impl; [exact Hmv|]. by intros m [_ ?]. }
  cbn [mbind result_bind].
  destruct (update_sources_spec b3 c3 l mv (matched ++ mv) Hp3) as (c4 & -> & Hp4).
  { eapply Forall_impl; [exact Hmv|]. by intros m [? _]. }
  cbn [mbind result_bind].
  destruct (merge_sets_spec b3 c4 l matched rest _ Hp4 Hup Hfit) as (mvs & d & i & -> & Hin & Hbd & Hbi).
  cbn [mbind result_bind].
  destruct (progress_fields _ _ _ _ _ _ _ _ Hp4) as (_ & _ & _ & _ & -> & -> & Etr).
  set (b5 := with_moves mvs (with_deletions d (with_insertions i b3))).
  pose proof (pg_old_marks _ _ _ _ _ _ _ _ Hp4) as Hob. pose proof (pg_new_marks _ _ _ _ _ _ _ _ Hp4) as Hnc.
  assert (forall k, marked b5 k = marked b k) as Hb5 by (intros k; by rewrite <- Hob; destruct k).
  destruct (for_each_col_pair_spec (merge_column (deletions c) (insertions c))
    (fun v w => index_set_ok v /\ index_set_ok w /\ (forall x, mem v x -> x < Z.of_nat (length mid)))
    (fun v w v' w' => (index_set_ok v -> index_set_ok v') /\ forall x, mem v' x <-> mem w x \/
      exists y, mem v y /\ ~ mem (deletions c) y /\ x = later (deletions c) (insertions c) y)) with keys b5 c4
    as (b' & c' & -> & (m' & cols & Eb') & _ & _ & HQ).
  - intros v w (Hv & Hw & Hvb). destruct (merge_column_spec v w Hv Hw Hvb) as (v' & E & Hok & Hm). by exists v', w.
  - split; [done|]. intros x. rewrite has_nil. split; [done|]. by intros [?|(y & ?%has_nil & _)].
  - apply (pg_covers _ _ _ _ _ _ _ _ Hp4).
  - intros k. rewrite Hb5. split_and!; [apply first|apply Hnc|apply first].
  - cbn [mbind result_bind]. exists b'. split; [done|].
    assert (forall k x, mem (marked b' k) x <-> merged_mark k x) as Hmark.
    { intros k x. destruct (HQ k) as [_ ->]. rewrite (proj2 (Hnc k)), Hb5. unfold mv. rewrite (carried_moves l matched rest k x Hup).
      unfold merged_mark. tauto. }
    split; [|done]. assert (moves b' = mvs /\ deletions b' = d /\ insertions b' = i) as (Em' & Ed' & Ei') by (by rewrite Eb').
    split; rewrite ?Em', ?Ed', ?Ei'; try done.
    + intros k. destruct (HQ k) as [Hok _]. apply Hok. rewrite Hb5. apply first.
    + intros k x Hx%Hmark. by eapply merged_mark_bound.
    + intros k x Hx%Hmark. apply (Hmark None). destruct Hx as [Hx|[(y & Hy & ?)|(m & Hm & Hx)]].
      * left. by eapply (tr_columns _ _ _ second).
      * right. left. exists y. split; [|done]. by eapply (tr_columns _ _ _ first).
      * right. right. exists m. destruct Hx as (Hx & ? & ?).
        split_and!; try done. by eapply (tr_columns _ _ _ first).
    + rewrite Eb'. cbn. rewrite Etr. apply first.
Qed.

Lemma is_empty_fields d :
  is_empty d = true -> deletions d = [] /\ insertions d = [] /\ modifications d = [] /\ moves d = [].
Proof. unfold is_empty. by destruct (deletions d), (insertions d), (modifications d), (modifications_new d), (moves d). Qed.

Lemma merge_spec :
  deletions_fit ->
  exists b', merge b c = Ok b' /\ tracks b' old cur /\ forall k x, mem (marked b' k) x <-> merged_mark k x.
Proof.
  intros Hfit. destruct (is_empty c) eqn:Ec; [|destruct (is_empty b) eqn:Eb; [|by apply merge_nonempty]].
  - unfold merge. rewrite Ec. exists b. split; [done|].
    apply is_empty_fields in Ec as (Ed & Ei & Em & Emv).
    assert (mid = cur) as <-.
    { pose proof (mi_kept _ _ _ _ _ (tr_moves _ _ _ second)) as E. rewrite Ed, Ei, !keep_all in E; try done;
        by intros x _ ?%has_nil. }
    split; [done|]. intros k x. unfold merged_mark. rewrite Ed, Ei, Emv.
    assert (~ mem (marked c k) x) as Hn by (intros Hx%(tr_columns _ _ _ second); rewrite Em in Hx; by apply has_nil in Hx).
    split.
    + intros Hx. right. left. exists x. rewrite later_empty. split_and!; [done|by intros ?%has_nil|done].
    + intros [?|[(y & Hy & _ & ->)|(m & ?%elem_of_nil & _)]]; [done|by rewrite later_empty|done].
  - unfold merge. rewrite Ec, Eb. exists c. split; [done|].
    apply is_empty_fields in Eb as (Ed & Ei & Em & Emv).
    assert (old = mid) as ->.
    { pose proof (mi_kept _ _ _ _ _ (tr_moves _ _ _ first)) as E. rewrite Ed, Ei, !keep_all in E; try done;
        by intros x _ ?%has_nil. }
    split; [done|]. intros k x. unfold merged_mark. split; [by left|].
    assert (forall y, ~ mem (marked b k) y) as Hn
      by (intros y Hy%(tr_columns _ _ _ first); rewrite Em in Hy; by apply has_nil in Hy).
    intros [?|[(y & Hy & _)|(m & _ & Hy & _)]]; [done|by apply Hn in Hy|by apply Hn in Hy].
Qed.
End steps.
End merge.
