(* ===== verification/MergeProps.v ===== *)
(** What the observer is told of two changes in a row when the second change set is merged into
    the first. *)

From S2P Require Import Prelude ChunkedRangeVector RangeList IndexSet IndexSetCount IndexLists IndexSetMerge.
From S2P Require Import IndexSetProps ChangeBuilder KeptElements Collection Tracking TrackedChanges ChangeReport.
From S2P Require Import Transport MergeMoves MergeChanges.

(** ** Modified rows *)

Section marked_rows.
Context {A : Type}.
Implicit Types cur : list (item A).

Definition row_marked (it : item A) : Prop := forall k, k ∈ it_marks it -> None ∈ it_marks it.

Lemma rows_marked_Forall cur : Forall row_marked cur -> rows_marked cur.
Proof.
  intros Hf k x (it & Hit & Hk). exists it. split; [done|]. destruct (split_at_Z _ _ _ Hit) as (l1 & l2 & -> & _).
  apply Forall_app in Hf as [_ Hf]. apply Forall_cons in Hf as [Hi _]. by eapply Hi.
Qed.

Lemma fresh_marked (l : list A) : Forall row_marked (fresh <$> l).
Proof. apply Forall_fmap, Forall_forall. intros a _ k Hk. by apply elem_of_empty in Hk. Qed.

Lemma insert_items_Forall {B} (P : B -> Prop) index new l :
  Forall P new -> Forall P l -> Forall P (insert_items index new l).
Proof. intros Hn Hl. unfold insert_items. rewrite !Forall_app. split_and!; [by apply Forall_take|done|by apply Forall_drop]. Qed.

Lemma change_marked c cur : Forall row_marked cur -> Forall row_marked (apply_change c cur).
Proof.
  intros Hc. destruct c as [ndx col|index new|index| |from to]; cbn [apply_change].
  - apply Forall_alter; [done|]. intros it _ _ k _. cbn. apply elem_of_union. left.
    unfold marks_of. case_decide; set_solver.
  - apply insert_items_Forall; [apply fresh_marked|done].
  - by apply Forall_delete.
  - constructor.
  - destruct (nth_Z cur from) as [it|] eqn:E; [|done].
    apply insert_items_Forall; [|by apply Forall_delete].
    destruct (split_at_Z _ _ _ E) as (l1 & l2 & -> & _). apply Forall_app in Hc as [_ Hc].
    apply Forall_cons in Hc as [? _]. by apply Forall_singleton.
Qed.

Lemma changes_marked l cur : Forall row_marked cur -> Forall row_marked (apply_changes l cur).
Proof. revert cur. induction l as [|c l IH]; intros cur Hc; [done|]. by apply IH, change_marked. Qed.
End marked_rows.

Section properties.
Context `{MaxSize} {A : Type}.
Abbreviation mem v x := (has (ranges v) x).

(** ** The report of a change set *)

Lemma finalize_tracks b (old cur : list A) :
  tracks b old cur -> Z.of_nat (length old) <= npos -> Z.of_nat (length cur) <= npos ->
  exists cs, finalize b = Ok cs /\
    cs_deletions cs = deletions b /\ cs_insertions cs = insertions b /\ cs_moves cs = moves b /\
    replay old cur (deletions b) (insertions b) = Ok cur /\
    (forall x, mem (cs_modifications_new cs) x <-> mem (modifications b) x /\ ~ mem (insertions b) x) /\
    (forall x, mem (cs_modifications cs) x <-> exists y, mem (cs_modifications_new cs) y /\
       x = later (insertions b) (deletions b) y /\ nth_Z old x = nth_Z cur y).
Proof.
  intros Ht Ho Hc. pose proof (tr_moves _ _ _ Ht) as [Hd Hi Hk _ _ _].
  pose proof (tr_marks_ok _ _ _ Ht None) as Hm. cbn [marked] in Hm.
  assert (forall y, mem (modifications b) y -> ~ mem (insertions b) y ->
    0 <= rank (ranges (insertions b)) y < Z.of_nat (length old) - width (ranges (deletions b)) /\
    nth_Z old (later (insertions b) (deletions b) y) = nth_Z cur y) as Hel.
  { intros y Hy Hn. assert (0 <= y < Z.of_nat (length cur)) as Hyr.
    { split; [by apply (mem_range (modifications b))|by apply (tr_marks _ _ _ Ht None)]. }
    split; [|apply (transported (deletions b) (insertions b) old cur); try done; apply Ht].
    pose proof (rank_bound (insertions b) old cur Hi y Hyr Hn) as Hr. rewrite <- Hk, length_keep, (rank_total (ranges (deletions b))) in Hr;
      [done|apply Hd|apply Ht|apply Hd]. }
  unfold finalize.
  destruct (erase_at_set_spec (modifications b) (insertions b) Hm Hi) as (m1 & -> & Hok1 & Hm1). cbn [mbind result_bind].
  destruct (shift_for_insert_at_set_spec m1 (deletions b) Hok1 Hd) as (m2 & -> & _ & Hm2).
  { apply below_of_has; [apply sorted_ok, Hok1|]. intros x (y & Hy & Hn & ->)%Hm1.
    destruct (Hel y Hy Hn) as [? _]. unfold rank in *. lia. }
  cbn [mbind result_bind]. destruct (remove_set_spec (modifications b) (insertions b) Hm Hi) as (m3 & -> & _ & Hm3).
  cbn [mbind result_bind]. eexists. split; [done|]. cbn [cs_deletions cs_insertions cs_moves cs_modifications cs_modifications_new].
  split_and!; [done|done|done| |done|].
  - apply replay_next; try done; apply Ht.
  - intros x. rewrite Hm2. setoid_rewrite Hm3. split.
    + intros (u & (y & Hy & Hn & ->)%Hm1 & ->). exists y. split_and!; [done|done|done|]. by apply Hel.
    + intros (y & [Hy Hn] & -> & _). eexists; split; [|done]. apply Hm1. by exists y.
Qed.

Lemma tracks_verified b (old cur : list A) : tracks b old cur -> verify b = Ok true.
Proof.
  intros Ht. pose proof (tr_moves _ _ _ Ht) as [Hd Hi _ Hmv _ _]. unfold verify.
  induction Hmv as [|m l (Hf & Hto & _) _ IH]; [done|]. cbn [fold_result].
  destruct (contains_spec (deletions b) (move_from m) Hd) as (d & -> & Hb).
  destruct (contains_spec (insertions b) (move_to m) Hi) as (i & -> & Hb').
  cbn [mbind result_bind]. rewrite (proj2 Hb Hf), (proj2 Hb' Hto). exact IH.
Qed.

(** C13: when a collection has gone through the changes [l1], recorded in [b], and then the
    changes [l2], recorded in [c], the merged change set reports the change from the first
    collection to the last: replaying its deletions and insertions on the first gives the last,
    each move reported moved a row, [verify()] holds, and the modifications are the rows
    modified by [l2] and those modified by [l1] that [l2] did not delete or that it moved.  The
    merged deletions have to fit in the chunks that are allocated for them, as they do for up to two
    chunks of rows (512 in a release build), see [add_shifted_by_miscounts]; beyond that moves can
    be lost. *)
Theorem merge_reported (old : list A) (l1 l2 : list (change A)) b c :
  let mid := apply_changes l1 (fresh <$> old) in
  let cur := apply_changes l2 (fresh <$> ids mid) in
  Z.of_nat (length old) + Z.of_nat (length mid) + Z.of_nat (length cur) < npos ->
  valid_changes l1 (fresh <$> old) -> valid_changes l2 (fresh <$> ids mid) ->
  perform_changes l1 (fresh <$> old) empty_builder = Ok b ->
  perform_changes l2 (fresh <$> ids mid) empty_builder = Ok c ->
  deletions_fit b c ->
  exists b' cs, merge b c = Ok b' /\ verify b' = Ok true /\ finalize b' = Ok cs /\
    replay old (ids cur) (cs_deletions cs) (cs_insertions cs) = Ok (ids cur) /\
    (forall m, m ∈ cs_moves cs -> mem (cs_deletions cs) (move_from m) /\ mem (cs_insertions cs) (move_to m) /\
       exists a, nth_Z old (move_from m) = Some a /\ nth_Z (ids cur) (move_to m) = Some a) /\
    (forall x, mem (modifications b') x <-> marked_at cur None x \/
       (exists y, marked_at mid None y /\ ~ mem (deletions c) y /\ x = later (deletions c) (insertions c) y) \/
       (exists m, m ∈ moves c /\ marked_at mid None (move_from m) /\ x = move_to m /\
          (move_from m ∈ move_to <$> moves b \/ ~ mem (insertions b) (move_from m)))) /\
    (forall x, mem (cs_modifications_new cs) x <-> mem (modifications b') x /\ ~ mem (cs_insertions cs) x).
Proof.
  intros mid cur Hs Hv1 Hv2 Eb Ec Hfit.
  destruct (changes_steps l1 _ _ _ (describes_start old ltac:(lia)) Hv1) as (b0 & Eb0 & Hb).
  rewrite Eb in Eb0. injection Eb0 as <-. fold mid in Hb.
  assert (Z.of_nat (length (ids mid)) <= npos) as Hmid by (rewrite length_ids; lia).
  destruct (changes_steps l2 _ _ _ (describes_start (ids mid) Hmid) Hv2) as (c0 & Ec0 & Hc).
  rewrite Ec in Ec0. injection Ec0 as <-. fold cur in Hc.
  assert (tracks b old (ids mid)) as Htb by (apply describes_tracks; [done|apply rows_marked_Forall, changes_marked, fresh_marked]).
  assert (tracks c (ids mid) (ids cur)) as Htc by (apply describes_tracks; [done|apply rows_marked_Forall, changes_marked, fresh_marked]).
  destruct (merge_spec b c old (ids mid) (ids cur) Htb Htc) as (b' & E & Ht & Hm); [by rewrite !length_ids|done|].
  destruct (finalize_tracks b' old (ids cur) Ht) as (cs & F & Ed & Ei & Em & Hr & Hmn & _); [lia|rewrite length_ids; lia|].
  exists b', cs. rewrite Ed, Ei, Em. split_and!; [done|by eapply tracks_verified|done|done| | |done].
  - pose proof (tr_moves _ _ _ Ht) as [_ _ _ Hmv _ _]. by rewrite Forall_forall in Hmv.
  - intros x. rewrite (Hm None). unfold merged_mark.
    setoid_rewrite (ds_marks _ _ _ Hb None). setoid_rewrite (ds_marks _ _ _ Hc None). done.
Qed.
End properties.

(** ** Two changes of a collection *)

Definition first_changes : list (change Z) := [CMove 3 0; CErase 2; CInsert 1 [20]; CModify 2 npos].
Definition second_changes : list (change Z) := [CMove 0 3; CErase 1; CInsert 0 [30; 31]; CModify 3 npos].

Definition recorded (l : list (change Z)) (old : list Z) : CollectionChangeBuilder :=
  match @perform_changes max_size_debug Z l (fresh <$> old) empty_builder with
  | Ok b => b
  | Err _ => empty_builder
  end.

Lemma merge_reported_witness :
  let b := recorded first_changes [10; 11; 12; 13] in
  let c := recorded second_changes [13; 20; 10; 12] in
  exists b' cs, @merge max_size_debug b c = Ok b' /\ @finalize max_size_debug b' = Ok cs /\
    replay [10; 11; 12; 13] [30; 31; 20; 12; 13] (cs_deletions cs) (cs_insertions cs) = Ok [30; 31; 20; 12; 13].
Proof.
  intros b c.
  destruct (@merge_reported max_size_debug Z [10; 11; 12; 13] first_changes second_changes b c) as
    (b' & cs & E & _ & F & R & _); [by_evaluation|by_evaluation|by_evaluation|by vm_compute|by vm_compute| |].
  { intros d E. vm_compute in E. injection E as <-. vm_compute. lia. }
  exists b', cs. split_and!; [exact E|exact F|exact R].
Defined.
