(* ===== verification/ObjectChangeSet.v ===== *)
(** [ObjectChangeSet] of [object_changeset.hpp] and [.cpp]: the changes of the objects of a
    table, what an observer is told of them, and their composition with later changes. *)

From S2P Require Import Prelude.

(** ** The change set *)

(** Keys of objects and of columns are 64-bit integers; the sets are unordered. *)
Record ObjectChangeSet := ObjectChanges {
  m_deletions : gset Z;
  m_insertions : gset Z;
  m_modifications : gmap Z (gset Z);
  m_clear_did_occur : bool
}.

#[export] Instance ObjectChangeSet_eq_dec : EqDecision ObjectChangeSet.
Proof. solve_decision. Defined.

Definition no_object_changes : ObjectChangeSet := ObjectChanges ∅ ∅ ∅ false.

Implicit Types c other : ObjectChangeSet.

Definition with_object_deletions d c : ObjectChangeSet :=
  ObjectChanges d (m_insertions c) (m_modifications c) (m_clear_did_occur c).
Definition with_object_insertions i c : ObjectChangeSet :=
  ObjectChanges (m_deletions c) i (m_modifications c) (m_clear_did_occur c).
Definition with_object_modifications m c : ObjectChangeSet :=
  ObjectChanges (m_deletions c) (m_insertions c) m (m_clear_did_occur c).

Definition insertions_add (obj : Z) c : ObjectChangeSet :=
  with_object_insertions ({[obj]} ∪ m_insertions c) c.

(** [m_modifications[obj].insert(cols)], which makes an entry when there is none. *)
Definition modified_columns (obj : Z) (cols : gset Z) (m : gmap Z (gset Z)) : gmap Z (gset Z) :=
  <[obj := default ∅ (m !! obj) ∪ cols]> m.

Definition modifications_add (obj col : Z) c : ObjectChangeSet :=
  if bool_decide (obj ∈ m_insertions c) then c
  else with_object_modifications (modified_columns obj {[col]} (m_modifications c)) c.

Definition deletions_add (obj : Z) c : ObjectChangeSet :=
  let c := with_object_modifications (delete obj (m_modifications c)) c in
  if bool_decide (obj ∈ m_insertions c) then with_object_insertions (m_insertions c ∖ {[obj]}) c
  else with_object_deletions ({[obj]} ∪ m_deletions c) c.

(** The size of the table is not used. *)
Definition clear_objects (old_size : Z) c : ObjectChangeSet := ObjectChanges ∅ ∅ ∅ true.

(** The [_remove] operations say whether there was something to remove. *)
Definition insertions_remove (obj : Z) c : ObjectChangeSet * bool :=
  (with_object_insertions (m_insertions c ∖ {[obj]}) c, bool_decide (obj ∈ m_insertions c)).
Definition modifications_remove (obj : Z) c : ObjectChangeSet * bool :=
  (with_object_modifications (delete obj (m_modifications c)) c, bool_decide (is_Some (m_modifications c !! obj))).
Definition deletions_remove (obj : Z) c : ObjectChangeSet * bool :=
  (with_object_deletions (m_deletions c ∖ {[obj]}) c, bool_decide (obj ∈ m_deletions c)).

Definition deletions_contains c (obj : Z) : bool :=
  if m_clear_did_occur c then bool_decide (obj ∉ m_insertions c) else bool_decide (obj ∈ m_deletions c).
Definition insertions_contains c (obj : Z) : bool := bool_decide (obj ∈ m_insertions c).
Definition modifications_contains c (obj : Z) : bool := bool_decide (is_Some (m_modifications c !! obj)).
Definition get_columns_modified c (obj : Z) : option (gset Z) := m_modifications c !! obj.

Definition deletions_empty c : bool := bool_decide (m_deletions c = ∅).
Definition insertions_empty c : bool := bool_decide (m_insertions c = ∅).
Definition modifications_empty c : bool := bool_decide (m_modifications c = ∅).

Definition changes_empty c : bool :=
  deletions_empty c && insertions_empty c && modifications_empty c && negb (m_clear_did_occur c).

(** What [verify] asserts in debug builds. *)
Definition verify_objects c : bool := bool_decide (m_deletions c ## m_insertions c).

(** *** Merging *)

(** One iteration over [other.m_deletions].  When the object is a previous insertion, the code
    gives its iterator over [other.m_deletions] to [m_deletions.erase]: an iterator of another
    container, which the C++ standard leaves undefined. *)
Definition drop_deleted c (obj : Z) : result ObjectChangeSet :=
  let c := with_object_modifications (delete obj (m_modifications c)) c in
  if bool_decide (obj ∈ m_insertions c) then Err OutOfBounds else Ok c.

Definition merge_modifications (m : gmap Z (gset Z)) (l : list (Z * gset Z)) : gmap Z (gset Z) :=
  foldl (fun m '(obj, cols) => modified_columns obj cols m) m l.

Definition merge_objects c other : result ObjectChangeSet :=
  if changes_empty other then Ok c
  else if changes_empty c then Ok other
  else
    let c := ObjectChanges (m_deletions c) (m_insertions c) (m_modifications c)
               (m_clear_did_occur c || m_clear_did_occur other) in
    c ← fold_result drop_deleted c (elements (m_deletions other));
    Ok (ObjectChanges (m_deletions c ∪ m_deletions other) (m_insertions c ∪ m_insertions other)
          (merge_modifications (m_modifications c) (map_to_list (m_modifications other)))
          (m_clear_did_occur c)).

(** ** The table that changes *)

(** An object of the table: there since the start, with the columns modified since then, or
    created since then. *)
Inductive object_state :=
| Kept (cols : gset Z)
| Created.

#[export] Instance object_state_eq_dec : EqDecision object_state.
Proof. solve_decision. Defined.

Implicit Types old : gset Z.
Implicit Types cur mid : gmap Z object_state.

Definition unchanged_objects old : gmap Z object_state := gset_to_gmap (Kept ∅) old.

Definition modify_state (col : Z) (s : object_state) : object_state :=
  match s with Kept cols => Kept (cols ∪ {[col]}) | Created => Created end.

(** The change [c] describes how the objects [old] became [cur].  A merged change may have
    modifications of created objects too, which [new_unmodified] excludes. *)
Record objects_tracked c old cur : Prop := {
  ot_insertions : forall k, k ∈ m_insertions c <-> cur !! k = Some Created;
  ot_modifications : forall k, cur !! k <> Some Created -> forall cols,
    m_modifications c !! k = Some cols <-> cur !! k = Some (Kept cols) /\ cols <> ∅;
  ot_deletions : m_clear_did_occur c = false -> forall k,
    k ∈ m_deletions c <-> k ∈ old /\ forall cols, cur !! k <> Some (Kept cols);
  ot_cleared : m_clear_did_occur c = true ->
    m_deletions c = ∅ /\ forall k cols, cur !! k <> Some (Kept cols);
  ot_kept : forall k cols, cur !! k = Some (Kept cols) -> k ∈ old
}.

Definition new_unmodified c : Prop := forall k, k ∈ m_insertions c -> m_modifications c !! k = None.

Lemma tracked_start old : objects_tracked no_object_changes old (unchanged_objects old).
Proof.
  unfold unchanged_objects. split; simpl.
  - intros k. rewrite lookup_gset_to_gmap_Some. set_solver.
  - intros k _ cols. rewrite lookup_empty, lookup_gset_to_gmap_Some. naive_solver.
  - intros _ k. split; [set_solver|]. intros [Hk Hc]. destruct (Hc ∅). by rewrite lookup_gset_to_gmap_Some.
  - done.
  - intros k cols. rewrite lookup_gset_to_gmap_Some. naive_solver.
Qed.

(** ** The operations keep the description *)

(** What a handler does with an object that is removed. *)
Definition object_removed (obj : Z) c : ObjectChangeSet :=
  let '(c, inserted) := insertions_remove obj c in
  let c := if inserted then c else deletions_add obj c in
  fst (modifications_remove obj c).

Lemma object_removed_fields obj c :
  m_insertions (object_removed obj c) = m_insertions c ∖ {[obj]} /\
  m_modifications (object_removed obj c) = delete obj (m_modifications c) /\
  m_deletions (object_removed obj c) =
    (if decide (obj ∈ m_insertions c) then m_deletions c else {[obj]} ∪ m_deletions c) /\
  m_clear_did_occur (object_removed obj c) = m_clear_did_occur c.
Proof.
  unfold object_removed, insertions_remove, modifications_remove, deletions_add. simpl.
  repeat case_bool_decide; simpl in *; repeat case_decide; simpl; try done; try set_solver.
  by rewrite delete_delete_eq.
Qed.

Lemma created_tracked c old cur k :
  objects_tracked c old cur -> cur !! k = None ->
  objects_tracked (insertions_add k c) old (<[k := Created]> cur).
Proof.
  intros [Hi Hm Hd Hc Hk] Hn. unfold insertions_add.
  split; simpl; [intros x|intros x Hne cols|intros Hf x|intros Ht|intros x cols].
  - rewrite lookup_insert_Some. specialize (Hi x). set_solver.
  - destruct (decide (x = k)) as [->|Hx]; [by rewrite lookup_insert_eq in Hne|].
    rewrite lookup_insert_ne in Hne by done. rewrite lookup_insert_ne by done. by apply Hm.
  - rewrite (Hd Hf x). setoid_rewrite lookup_insert_Some. split; intros [? Hx]; split; try done; intros cols.
    + intros [[_ ?]|[_ E]]; [done|by eapply Hx].
    + intros E. apply (Hx cols). right. split; [|done]. intros ->. congruence.
  - destruct (Hc Ht) as [-> Hx]. split; [done|]. intros x cols. rewrite lookup_insert_Some. naive_solver.
  - rewrite lookup_insert_Some. naive_solver.
Qed.

Lemma modified_lookup obj cols (m : gmap Z (gset Z)) x :
  modified_columns obj cols m !! x = if decide (x = obj) then Some (default ∅ (m !! obj) ∪ cols) else m !! x.
Proof. unfold modified_columns. case_decide; [subst; apply lookup_insert_eq|by apply lookup_insert_ne]. Qed.

Lemma modified_tracked c old cur k col s :
  objects_tracked c old cur -> cur !! k = Some s ->
  objects_tracked (modifications_add k col c) old (<[k := modify_state col s]> cur).
Proof.
  intros [Hi Hm Hd Hc Hk] Hs. unfold modifications_add. case_bool_decide as Hin; rewrite Hi, Hs in Hin.
  { simplify_eq. simpl. rewrite insert_id by done. done. }
  destruct s as [cols0|]; [|done]. simpl.
  assert (default ∅ (m_modifications c !! k) = cols0) as E0.
  { destruct (m_modifications c !! k) as [cols|] eqn:E; simpl.
    - apply Hm in E as [E _]; congruence.
    - destruct (decide (cols0 = ∅)) as [->|Hne]; [done|].
      assert (m_modifications c !! k = Some cols0) by (apply Hm; [congruence|done]). congruence. }
  assert (forall x cols, (<[k:=Kept (cols0 ∪ {[col]})]> cur) !! x = Some (Kept cols) ->
    exists cols', cur !! x = Some (Kept cols')) as Hback.
  { intros x cols. rewrite lookup_insert_Some. naive_solver. }
  assert (forall x cols, cur !! x = Some (Kept cols) ->
    exists cols', (<[k:=Kept (cols0 ∪ {[col]})]> cur) !! x = Some (Kept cols')) as Hforth.
  { intros x cols E. destruct (decide (k = x)) as [->|].
    - rewrite lookup_insert_eq. eauto.
    - rewrite lookup_insert_ne by done. eauto. }
  split; simpl; [intros x|intros x Hx cols|intros Hf x|intros Ht|intros x cols].
  - rewrite Hi, lookup_insert_Some. split; [|naive_solver].
    intros E. right. split; [|done]. intros ->. congruence.
  - rewrite modified_lookup, E0. case_decide as Hxk; subst.
    + rewrite lookup_insert_eq. split; [intros; simplify_eq; split; [done|set_solver]|naive_solver].
    + rewrite lookup_insert_ne in Hx by done. rewrite lookup_insert_ne by done. by apply Hm.
  - rewrite (Hd Hf x). split; intros [? Hx]; split; try done; intros cols E.
    + apply Hback in E as [? E]. by eapply Hx.
    + apply Hforth in E as [? E]. by eapply Hx.
  - destruct (Hc Ht) as [-> Hx]. split; [done|]. intros x cols E. apply Hback in E as [? E]. by eapply Hx.
  - intros E. apply Hback in E as [? E]. by eapply Hk.
Qed.

Lemma removed_tracked c old cur k :
  objects_tracked c old cur -> is_Some (cur !! k) ->
  objects_tracked (object_removed k c) old (delete k cur).
Proof.
  intros [Hi Hm Hd Hc Hk] [s Hs]. pose proof (object_removed_fields k c) as (Ei & Em & Ed & Ec).
  split; rewrite ?Ei, ?Em, ?Ed, ?Ec;
    [intros x|intros x Hne cols|intros Hf x|intros Ht|intros x cols]; setoid_rewrite lookup_delete_Some.
  - specialize (Hi x). set_solver.
  - destruct (decide (k = x)) as [->|Hx]; [naive_solver|]. rewrite lookup_delete_ne in Hne by done.
    rewrite Hm by done. naive_solver.
  - specialize (Hd Hf x). case_decide as Hin.
    + rewrite Hd. apply Hi in Hin. split; intros [? Hx]; split; try done; intros cols.
      * intros [_ E]. by eapply Hx.
      * intros E. apply (Hx cols). split; [|done]. intros ->. congruence.
    + rewrite elem_of_union, elem_of_singleton, Hd. destruct s as [cols0|]; [|by rewrite Hi in Hin]. split.
      * intros [->|[? Hx]]; [split; [by eapply Hk|naive_solver]|]. split; [done|]. naive_solver.
      * intros [? Hx]. destruct (decide (x = k)) as [->|]; [by left|]. right. split; [done|].
        intros cols E. by apply (Hx cols).
  - destruct (Hc Ht) as [E Hx]. rewrite decide_True.
    + split; [done|]. intros x cols [_ ?]. by eapply Hx.
    + rewrite Hi. destruct s as [cols0|]; [|done]. by apply Hx in Hs.
  - intros [_ E]. by eapply Hk.
Qed.

Lemma cleared_tracked n c old : objects_tracked (clear_objects n c) old ∅.
Proof.
  split; simpl; [intros k|intros k _ cols|done|intros _; split; [done|intros k cols]|intros k cols];
    rewrite ?lookup_empty; set_solver.
Qed.

(** ** What is reported *)

Inductive object_change :=
| OCreate (obj : Z)
| OModify (col obj : Z)
| ORemove (obj : Z)
| OClear (old_size : Z).

(** The change of the table, when it has the object to change, or has not the object to create. *)
Definition apply_object_change (o : object_change) cur : option (gmap Z object_state) :=
  match o with
  | OCreate obj => if cur !! obj is Some _ then None else Some (<[obj := Created]> cur)
  | OModify col obj => s ← cur !! obj; Some (<[obj := modify_state col s]> cur)
  | ORemove obj => _ ← cur !! obj; Some (delete obj cur)
  | OClear _ => Some ∅
  end.

(** What the change set is told of it. *)
Definition record_object_change (o : object_change) c : ObjectChangeSet :=
  match o with
  | OCreate obj => insertions_add obj c
  | OModify col obj => modifications_add obj col c
  | ORemove obj => object_removed obj c
  | OClear old_size => clear_objects old_size c
  end.

Lemma object_change_tracked o c old cur cur' :
  objects_tracked c old cur -> apply_object_change o cur = Some cur' ->
  objects_tracked (record_object_change o c) old cur'.
Proof.
  destruct o as [k|col k|k|n]; simpl; intros Ht E.
  - destruct (cur !! k) eqn:Ek; simplify_eq. by apply created_tracked.
  - destruct (cur !! k) as [s|] eqn:Ek; simplify_eq/=. by apply modified_tracked.
  - destruct (cur !! k) as [s|] eqn:Ek; simplify_eq/=. by apply removed_tracked.
  - simplify_eq. apply cleared_tracked.
Qed.

Definition apply_object_changes (l : list object_change) cur : option (gmap Z object_state) :=
  foldl (fun t o => cur ← t; apply_object_change o cur) (Some cur) l.
Definition record_object_changes (l : list object_change) c : ObjectChangeSet :=
  foldl (fun c o => record_object_change o c) c l.

Lemma apply_none l : foldl (fun t o => cur ← t; apply_object_change o cur) None l = None.
Proof. by induction l. Qed.

(** The operations themselves do not report modifications of new objects. *)
Lemma object_change_unmodified o c old cur cur' :
  objects_tracked c old cur -> apply_object_change o cur = Some cur' ->
  new_unmodified c -> new_unmodified (record_object_change o c).
Proof.
  unfold new_unmodified. destruct o as [k|col k|k|n]; cbn [apply_object_change record_object_change]; intros Ht E Hn x.
  - destruct (cur !! k) eqn:Ek; simplify_eq. simpl. intros [->%elem_of_singleton|Hx]%elem_of_union; [|by apply Hn].
    destruct (m_modifications c !! k) as [cols|] eqn:Em; [|done].
    apply (ot_modifications _ _ _ Ht) in Em as [Em _]; congruence.
  - unfold modifications_add. case_bool_decide as Hk; [by apply Hn|]. simpl. intros Hx. rewrite modified_lookup.
    rewrite decide_False; [by apply Hn|]. by intros ->.
  - destruct (object_removed_fields k c) as (-> & -> & _). rewrite elem_of_difference, not_elem_of_singleton, lookup_delete_None.
    intros [Hx _]. right. by apply Hn.
  - by intros ?%elem_of_empty.
Qed.

Lemma object_changes_tracked l c old cur cur' :
  objects_tracked c old cur -> new_unmodified c -> apply_object_changes l cur = Some cur' ->
  objects_tracked (record_object_changes l c) old cur' /\ new_unmodified (record_object_changes l c).
Proof.
  unfold apply_object_changes, record_object_changes. revert c cur.
  induction l as [|o l IH]; simpl; intros c cur Ht Hn E; [by simplify_eq|].
  destruct (apply_object_change o cur) as [cur1|] eqn:E1; simpl in E; [|by rewrite apply_none in E].
  apply (IH _ cur1); [by eapply object_change_tracked|by eapply object_change_unmodified|done].
Qed.

(** The answers of the queries about the object [k] of a table that had the objects [old]. *)
Record objects_reported c old cur : Prop := {
  or_insertions : forall k, insertions_contains c k = true <-> cur !! k = Some Created;
  or_modifications : forall k, cur !! k <> Some Created ->
    modifications_contains c k = true <-> exists cols, cur !! k = Some (Kept cols) /\ cols <> ∅;
  or_columns : forall k, cur !! k <> Some Created -> forall cols,
    get_columns_modified c k = Some cols <-> cur !! k = Some (Kept cols) /\ cols <> ∅;
  or_gone : forall k, k ∈ old -> cur !! k = None -> deletions_contains c k = true;
  or_kept : forall k cols, cur !! k = Some (Kept cols) -> deletions_contains c k = false;
  or_again : forall k, k ∈ old -> cur !! k = Some Created ->
    deletions_contains c k = negb (m_clear_did_occur c);
  or_empty : changes_empty c = true -> cur = unchanged_objects old
}.

Lemma changes_empty_true c :
  changes_empty c = true <->
  m_deletions c = ∅ /\ m_insertions c = ∅ /\ m_modifications c = ∅ /\ m_clear_did_occur c = false.
Proof.
  unfold changes_empty, deletions_empty, insertions_empty, modifications_empty.
  rewrite !andb_true_iff, !bool_decide_eq_true, negb_true_iff. tauto.
Qed.

Lemma no_changes_kept c old cur :
  objects_tracked c old cur -> changes_empty c = true -> cur = unchanged_objects old.
Proof.
  intros [Hi Hm Hd Hc Hk] (Ed & Ei & Em & Ec)%changes_empty_true.
  rewrite Ei in Hi. rewrite Em in Hm. specialize (Hd Ec). rewrite Ed in Hd. setoid_rewrite lookup_empty in Hm.
  apply map_eq. intros k. unfold unchanged_objects. destruct (cur !! k) as [[cols|]|] eqn:E.
  - symmetry. apply lookup_gset_to_gmap_Some. split; [by eapply Hk|].
    f_equal. destruct (decide (cols = ∅)) as [->|Hne]; [done|]. pose proof (proj2 (Hm k ltac:(congruence) cols) (conj E Hne)). done.
  - apply Hi in E. set_solver.
  - symmetry. apply lookup_gset_to_gmap_None. intros Ho.
    assert (k ∈ (∅ : gset Z)); [|set_solver]. apply Hd. split; [done|]. intros cols. by rewrite E.
Qed.

Lemma tracked_reported c old cur : objects_tracked c old cur -> objects_reported c old cur.
Proof.
  intros Ht. pose proof Ht as [Hi Hm Hd Hc Hk].
  split; unfold insertions_contains, modifications_contains, get_columns_modified, deletions_contains;
    [intros k|intros k Hne|done|intros k Ho E|intros k cols E|intros k Ho E|by apply no_changes_kept].
  - by rewrite bool_decide_eq_true.
  - rewrite bool_decide_eq_true. specialize (Hm k Hne). split.
    + intros [cols E%Hm]. by exists cols.
    + intros (cols & E%Hm). by exists cols.
  - destruct (m_clear_did_occur c); apply bool_decide_eq_true.
    + by rewrite Hi, E.
    + apply Hd; [done|]. split; [done|]. intros cols. by rewrite E.
  - destruct (m_clear_did_occur c); [destruct (Hc eq_refl) as [_ Hx]; by destruct (Hx k cols)|].
    apply bool_decide_eq_false. rewrite Hd by done. naive_solver.
  - destruct (m_clear_did_occur c); simpl; [apply bool_decide_eq_false|apply bool_decide_eq_true].
    + rewrite Hi. naive_solver.
    + apply Hd; [done|]. split; [done|]. intros cols. by rewrite E.
Qed.

Lemma tracked_unmodified c old cur k :
  objects_tracked c old cur -> new_unmodified c -> cur !! k = Some Created -> modifications_contains c k = false.
Proof.
  intros Ht Hn Hk. apply bool_decide_eq_false. rewrite Hn; [by intros []|]. by apply (ot_insertions _ _ _ Ht).
Qed.

(** ** Merging *)

Lemma drop_deleted_cases c k :
  drop_deleted c k = if decide (k ∈ m_insertions c) then Err OutOfBounds
    else Ok (with_object_modifications (delete k (m_modifications c)) c).
Proof. unfold drop_deleted. simpl. by case_bool_decide; case_decide. Qed.

Lemma drop_deleted_spec (l : list Z) c :
  (forall k, k ∈ l -> k ∉ m_insertions c) ->
  exists c', fold_result drop_deleted c l = Ok c' /\
    m_deletions c' = m_deletions c /\ m_insertions c' = m_insertions c /\
    m_clear_did_occur c' = m_clear_did_occur c /\
    forall k, m_modifications c' !! k = if decide (k ∈ l) then None else m_modifications c !! k.
Proof.
  revert c. induction l as [|a l IH]; intros c Hl.
  - by exists c.
  - cbn [fold_result].
    rewrite drop_deleted_cases, decide_False by (apply Hl; by left).
    cbn [mbind result_bind].
    destruct (IH (with_object_modifications (delete a (m_modifications c)) c)) as (c' & E & Ed & Ei & Ec & Em).
    { intros k Hk. apply Hl. by right. }
    exists c'. split_and!; try done. intros k. rewrite Em. simpl.
    destruct (decide (k ∈ l)) as [Hk|Hk]; [by rewrite decide_True by set_solver|].
    destruct (decide (k = a)) as [->|Hne]; [by rewrite lookup_delete_eq, decide_True by set_solver|].
    by rewrite lookup_delete_ne, decide_False by set_solver.
Qed.

Lemma merge_modifications_list (l : list (Z * gset Z)) m k :
  NoDup l.*1 ->
  merge_modifications m l !! k =
    match (list_to_map l : gmap Z (gset Z)) !! k with
    | Some cols => Some (default ∅ (m !! k) ∪ cols)
    | None => m !! k
    end.
Proof.
  unfold merge_modifications. revert m. induction l as [|[a cols] l IH]; simpl; intros m Hn; [done|].
  apply NoDup_cons in Hn as [Ha Hn]. rewrite IH by done. rewrite !modified_lookup.
  destruct (decide (k = a)) as [->|Hne].
  - by rewrite lookup_insert_eq, not_elem_of_list_to_map_1 by done.
  - by rewrite lookup_insert_ne by done.
Qed.

Lemma merge_modifications_spec (m other : gmap Z (gset Z)) k :
  merge_modifications m (map_to_list other) !! k =
    match other !! k with
    | Some cols => Some (default ∅ (m !! k) ∪ cols)
    | None => m !! k
    end.
Proof.
  rewrite merge_modifications_list by apply NoDup_fst_map_to_list. by rewrite list_to_map_to_list.
Qed.

(** An object through two changes. *)
Definition compose_state (s : option object_state) (t : object_state) : object_state :=
  match s, t with
  | Some (Kept cols), Kept cols' => Kept (cols ∪ cols')
  | _, _ => Created
  end.

Definition compose_states mid cur : gmap Z object_state := map_imap (fun k t => Some (compose_state (mid !! k) t)) cur.

Lemma compose_lookup mid cur k : compose_states mid cur !! k = compose_state (mid !! k) <$> cur !! k.
Proof. unfold compose_states. rewrite map_lookup_imap. by destruct (cur !! k). Qed.

Lemma compose_kept mid cur k cols :
  compose_states mid cur !! k = Some (Kept cols) <->
  exists cols1 cols2, mid !! k = Some (Kept cols1) /\ cur !! k = Some (Kept cols2) /\ cols = cols1 ∪ cols2.
Proof.
  rewrite compose_lookup. destruct (mid !! k) as [[]|], (cur !! k) as [[]|]; simpl; naive_solver.
Qed.

Section merge_spec.
Context (c other : ObjectChangeSet) (old : gset Z) (mid cur : gmap Z object_state).
Hypothesis (first : objects_tracked c old mid) (second : objects_tracked other (dom mid) cur).
Hypothesis (no_clear : m_clear_did_occur other = false).
Hypothesis (apart : m_deletions other ## m_insertions c).

Lemma second_deletions k : k ∈ m_deletions other ->
  (exists cols, mid !! k = Some (Kept cols)) /\ forall cols, cur !! k <> Some (Kept cols).
Proof using first second no_clear apart.
  intros Hk. pose proof Hk as [Hm Hc]%(ot_deletions _ _ _ second no_clear).
  split; [|done]. apply elem_of_dom in Hm as [[cols|] E]; [by exists cols|].
  apply (ot_insertions _ _ _ first) in E. set_solver.
Qed.

Lemma merged_insertions k :
  k ∈ m_insertions c ∪ m_insertions other <-> compose_states mid cur !! k = Some Created.
Proof using first second no_clear apart.
  rewrite compose_lookup, elem_of_union, (ot_insertions _ _ _ first), (ot_insertions _ _ _ second).
  destruct (cur !! k) as [[c2|]|] eqn:E; simpl.
  - apply (ot_kept _ _ _ second), elem_of_dom in E as [[c1|] ->]; simpl; naive_solver.
  - destruct (mid !! k) as [[]|]; simpl; naive_solver.
  - split; [|done]. intros [Em|?]; [|done].
    assert (k ∈ m_deletions other); [|apply (ot_insertions _ _ _ first) in Em; set_solver].
    apply (ot_deletions _ _ _ second no_clear). split; [by eapply elem_of_dom_2|naive_solver].
Qed.

Lemma merged_deletions k :
  m_clear_did_occur c = false ->
  k ∈ m_deletions c ∪ m_deletions other <->
    k ∈ old /\ forall cols, compose_states mid cur !! k <> Some (Kept cols).
Proof using first second no_clear apart.
  intros Hc. rewrite elem_of_union. setoid_rewrite compose_kept. split.
  - intros [[Ho Hk]%(ot_deletions _ _ _ first Hc)|[[c1 E] Hk]%second_deletions].
    + naive_solver.
    + split; [by eapply ot_kept|naive_solver].
  - intros [Ho Hk]. destruct (mid !! k) as [[c1|]|] eqn:E.
    + right. apply (ot_deletions _ _ _ second no_clear). split; [by eapply elem_of_dom_2|naive_solver].
    + left. apply (ot_deletions _ _ _ first Hc). naive_solver.
    + left. apply (ot_deletions _ _ _ first Hc). naive_solver.
Qed.

(** The modified columns that [objects_tracked] asks for. *)
Lemma columns_value (m : option (gset Z)) (s : option object_state) :
  s <> Some Created -> (forall x, m = Some x <-> s = Some (Kept x) /\ x <> ∅) ->
  m = match s with Some (Kept x) => if decide (x = ∅) then None else Some x | _ => None end.
Proof.
  intros Hc Hs. destruct s as [[x|]|]; [case_decide as Hx|done|];
    try (by apply Hs); (destruct m as [y|]; [|done]); (destruct (proj1 (Hs y) eq_refl); naive_solver).
Qed.

Lemma merged_modified k cols (m1 m2 : option (gset Z)) :
  compose_states mid cur !! k <> Some Created ->
  m1 = (if decide (k ∈ m_deletions other) then None else m_modifications c !! k) ->
  m2 = m_modifications other !! k ->
  match m2 with Some c2 => Some (default ∅ m1 ∪ c2) | None => m1 end = Some cols <->
  compose_states mid cur !! k = Some (Kept cols) /\ cols <> ∅.
Proof using first second no_clear apart.
  intros Hne -> ->. rewrite compose_lookup in Hne |- *.
  pose proof (ot_insertions _ _ _ first k) as Hi.
  pose proof (ot_deletions _ _ _ second no_clear k) as Hd. rewrite elem_of_dom in Hd.
  pose proof (ot_kept _ _ _ second k) as Hk. setoid_rewrite elem_of_dom in Hk.
  pose proof (fun H => columns_value _ _ H (ot_modifications _ _ _ first k H)) as Hm1.
  pose proof (fun H => columns_value _ _ H (ot_modifications _ _ _ second k H)) as Hm2.
  destruct (mid !! k) as [[c1|]|] eqn:E1, (cur !! k) as [[c2|]|] eqn:E2; try done; simpl.
  - rewrite Hm1, Hm2 by done.
    rewrite (decide_False (P := k ∈ m_deletions other)) by (intros [_ H]%Hd; by apply (H c2)).
    pose proof (empty_union_L c1 c2) as Hu. clear -Hu.
    destruct (decide (c1 = ∅)) as [->|], (decide (c2 = ∅)) as [->|]; simpl; rewrite ?(left_id_L ∅ (∪)), ?(right_id_L ∅ (∪)) in *;
      split; try (by intros [? ?]; simplify_eq); intros; simplify_eq; split; tauto.
  - rewrite Hm2 by done.
    rewrite (decide_True (P := k ∈ m_deletions other)) by (by apply Hd; split; [eexists|]). by split; [|intros []].
  - assert (k ∈ m_deletions other) by (by apply Hd; split; [eexists|]). assert (k ∈ m_insertions c) by (by apply Hi). set_solver.
  - rewrite Hm1, Hm2 by done. by case_decide; split; [|intros []| |intros []].
Qed.

Lemma kept_when_merged k cols : compose_states mid cur !! k = Some (Kept cols) -> k ∈ old.
Proof using first. intros (c1 & c2 & E & _)%compose_kept. by eapply ot_kept. Qed.

Lemma merged_cleared :
  m_clear_did_occur c = true ->
  m_deletions c ∪ m_deletions other = ∅ /\ forall k cols, compose_states mid cur !! k <> Some (Kept cols).
Proof using first second no_clear apart.
  intros Hc. destruct (ot_cleared _ _ _ first Hc) as [-> Hx]. split; [|intros k cols; rewrite compose_kept; naive_solver].
  apply set_eq. intros k. split; [|set_solver].
  intros [?|[[cols E] _]%second_deletions]%elem_of_union; [done|by apply Hx in E].
Qed.

(** The cases in which one of the changes is empty. *)
Lemma merge_with_none : changes_empty other = true -> objects_tracked c old (compose_states mid cur).
Proof using first second no_clear apart.
  intros (Ed & Ei & Em & _)%changes_empty_true. split.
  - intros k. rewrite <- merged_insertions, Ei. set_solver.
  - intros k Hk cols. apply (merged_modified k cols (m_modifications c !! k) None); [done| |by rewrite Em].
    rewrite decide_False; [done|]. rewrite Ed. set_solver.
  - intros Hc k. rewrite <- merged_deletions by done. rewrite Ed. set_solver.
  - intros Hc. destruct (merged_cleared Hc) as [Hx ?]. split; [set_solver|done].
  - apply kept_when_merged.
Qed.

Lemma merge_into_none : changes_empty c = true -> objects_tracked other old (compose_states mid cur).
Proof using first second no_clear apart.
  intros (Ed & Ei & Em & Ec)%changes_empty_true. split.
  - intros k. rewrite <- merged_insertions, Ei. set_solver.
  - intros k Hk cols. rewrite <- (merged_modified k cols None (m_modifications other !! k)); [|done| |done].
    + destruct (m_modifications other !! k); simpl; [by rewrite (left_id_L ∅ (∪))|done].
    + rewrite Em, lookup_empty. by case_decide.
  - intros _ k. rewrite <- merged_deletions by done. rewrite Ed. set_solver.
  - by rewrite no_clear.
  - apply kept_when_merged.
Qed.
End merge_spec.

(** *** Theorems *)

(** C15: after any sequence of creations, modifications, removals and clears that the table
    allows, the change set says of every object what became of it since the start: it was
    created, it is still there and which columns were modified, or it is gone.  An object that
    was removed and created again is reported as deleted and inserted, except after a clear.  No
    modification of a new object is reported. *)
Theorem object_changes_reported old (l : list object_change) cur :
  apply_object_changes l (unchanged_objects old) = Some cur ->
  objects_reported (record_object_changes l no_object_changes) old cur /\
  forall k, cur !! k = Some Created -> modifications_contains (record_object_changes l no_object_changes) k = false.
Proof.
  intros E. destruct (object_changes_tracked l no_object_changes old _ cur (tracked_start old)) as [Ht Hn]; [|done|].
  - by intros k ?%elem_of_empty.
  - split; [by apply tracked_reported|]. intros k Hk. by apply tracked_unmodified with old cur.
Qed.

Definition sample_objects : gset Z := {[1; 2; 3]}.
Definition sample_object_changes : list object_change :=
  [OModify 9 1; OModify 8 1; ORemove 2; OCreate 2; OCreate 4; ORemove 4; OModify 9 2].

Lemma object_changes_reported_witness :
  exists cur, apply_object_changes sample_object_changes (unchanged_objects sample_objects) = Some cur /\
    objects_reported (record_object_changes sample_object_changes no_object_changes) sample_objects cur.
Proof.
  eexists. split; [vm_compute; reflexivity|].
  refine (proj1 (object_changes_reported sample_objects sample_object_changes _ _)). vm_compute. reflexivity.
Defined.

(** A change followed by a later one that neither clears the table nor deletes an object
    that the first one created is merged into the change from the first state to the last. *)
Theorem merge_objects_tracked c other old mid cur :
  objects_tracked c old mid -> objects_tracked other (dom mid) cur ->
  m_clear_did_occur other = false -> m_deletions other ## m_insertions c ->
  exists m, merge_objects c other = Ok m /\ objects_tracked m old (compose_states mid cur).
Proof.
  intros H1 H2 Hn Ha. unfold merge_objects.
  destruct (changes_empty other) eqn:Eo; [|destruct (changes_empty c) eqn:Ec].
  - eexists. split; [done|]. by apply (merge_with_none c other).
  - eexists. split; [done|]. by apply (merge_into_none c other).
  - destruct (drop_deleted_spec (elements (m_deletions other))
      (ObjectChanges (m_deletions c) (m_insertions c) (m_modifications c) (m_clear_did_occur c || m_clear_did_occur other)))
      as (c' & -> & Ed & Ei & Ecl & Em); [intros k Hk%elem_of_elements; simpl; set_solver|].
    eexists. split; [done|]. simpl in *. rewrite Hn, orb_false_r in Ecl. split; simpl; rewrite ?Ed, ?Ei, ?Ecl.
    + intros k. by apply (merged_insertions c other old mid cur).
    + intros k Hk cols. rewrite merge_modifications_spec.
      apply (merged_modified c other old mid cur); try done. rewrite Em. repeat case_decide; set_solver.
    + intros Hc k. by apply (merged_deletions c other old mid cur).
    + by apply (merged_cleared c other old mid cur).
    + by apply (kept_when_merged c old mid cur).
Qed.

Definition first_object_changes : list object_change := [OModify 9 1; OCreate 4; ORemove 2].
Definition second_object_changes : list object_change := [OModify 8 1; OModify 8 4; ORemove 3; OCreate 5].

Lemma merge_objects_tracked_witness :
  let c := record_object_changes first_object_changes no_object_changes in
  let other := record_object_changes second_object_changes no_object_changes in
  exists mid cur m, apply_object_changes first_object_changes (unchanged_objects sample_objects) = Some mid /\
    apply_object_changes second_object_changes (unchanged_objects (dom mid)) = Some cur /\
    merge_objects c other = Ok m /\ objects_tracked m sample_objects (compose_states mid cur).
Proof.
  eexists. eexists.
  destruct (merge_objects_tracked (record_object_changes first_object_changes no_object_changes)
    (record_object_changes second_object_changes no_object_changes) sample_objects
    (default ∅ (apply_object_changes first_object_changes (unchanged_objects sample_objects)))
    (default ∅ (apply_object_changes second_object_changes (unchanged_objects
      (dom (default ∅ (apply_object_changes first_object_changes (unchanged_objects sample_objects))))))))
    as (m & E & Hm).
  - eapply object_changes_tracked; [apply tracked_start|by intros k ?%elem_of_empty|vm_compute; reflexivity].
  - eapply object_changes_tracked; [apply tracked_start|by intros k ?%elem_of_empty|vm_compute; reflexivity].
  - vm_compute. reflexivity.
  - apply (bool_decide_unpack _). vm_compute. exact I.
  - exists m. split; [|split; [|split; [exact E|exact Hm]]]; vm_compute; reflexivity.
Defined.

(** Merging the deletion of an object that an earlier change inserted is not defined: the
    loop hands an iterator of the other change set to the erasure. *)
Theorem merge_created_then_deleted c other k :
  k ∈ m_insertions c -> k ∈ m_deletions other -> merge_objects c other = Err OutOfBounds.
Proof.
  intros Hi Hd. unfold merge_objects.
  destruct (changes_empty other) eqn:Eo; [apply changes_empty_true in Eo as (? & _); set_solver|].
  destruct (changes_empty c) eqn:Ec; [apply changes_empty_true in Ec as (_ & ? & _); set_solver|].
  set (c0 := ObjectChanges _ _ _ _). apply elem_of_elements in Hd.
  assert (k ∈ m_insertions c0) as H0 by done. clearbody c0. clear -H0 Hd. revert c0 H0 Hd.
  generalize (elements (m_deletions other)). intros l. induction l as [|a l IH]; intros c0 H0 Hd; [by apply elem_of_nil in Hd|].
  cbn [fold_result]. rewrite drop_deleted_cases. case_decide as Ha; [done|].
  cbn [mbind result_bind]. apply elem_of_cons in Hd as [->|Hd]; [done|]. by apply IH.
Qed.

Lemma merge_created_then_deleted_witness :
  merge_objects (record_object_changes [OCreate 4] no_object_changes) (record_object_changes [ORemove 4] no_object_changes)
    = Err OutOfBounds.
Proof. apply (merge_created_then_deleted _ _ 4); apply (bool_decide_unpack _); vm_compute; exact I. Defined.

(** Merging a clear keeps the earlier insertions: an object that was created and then cleared
    away is reported as inserted. *)
Theorem merge_keeps_cleared_insertions :
  exists m, merge_objects (record_object_changes [OCreate 4] no_object_changes)
      (record_object_changes [OClear 1] no_object_changes) = Ok m /\
    insertions_contains m 4 = true /\
    apply_object_changes [OCreate 4; OClear 1] (unchanged_objects ∅) = Some ∅.
Proof. eexists. split; [|split]; vm_compute; reflexivity. Qed.
