(* ===== verification/TransactLogHandler.v ===== *)
(** [transact_log_handler.cpp], with the change info of [collection_notifier.hpp]: the log
    handlers of the object store.  The validator rejects the schema changes that an open Realm
    does not support; the observer translates the log into changes of lists and of objects.

    A [CollectionChangeBuilder*] is an address in a store of builders, since the list infos, the
    notifiers that own the builders and the observer's active list share them.  The pointer to
    the active table is the key of the entry it points to, which stays in place while the
    observer runs. *)

From S2P Require Import Prelude Keys TransactLog ChunkedRangeVector IndexSetMerge ChangeBuilder ObjectChangeSet.

(** ** Change infos *)

Record ListChangeInfo := ListChange {
  table_key : TableKey;
  row_key : ObjKey;
  col_key : ColKey;
  changes : Z
}.

#[export] Instance ListChangeInfo_eq_dec : EqDecision ListChangeInfo.
Proof. solve_decision. Defined.

Record TransactionChangeInfo := ChangeInfo {
  lists : list ListChangeInfo;
  tables : gmap Z ObjectChangeSet;
  track_all : bool;
  schema_changed : bool
}.

Definition with_lists l (i : TransactionChangeInfo) : TransactionChangeInfo :=
  ChangeInfo l (tables i) (track_all i) (schema_changed i).
Definition with_tables t (i : TransactionChangeInfo) : TransactionChangeInfo :=
  ChangeInfo (lists i) t (track_all i) (schema_changed i).
Definition with_schema_changed (i : TransactionChangeInfo) : TransactionChangeInfo :=
  ChangeInfo (lists i) (tables i) (track_all i) true.

(** ** The validator *)

(** The schema changes that are never supported while a Realm is open. *)
Definition unsupported (i : log_instr) : bool :=
  match i with
  | EraseGroupLevelTable _ | RenameGroupLevelTable _ | EraseColumn _ | RenameColumn _ => true
  | _ => false
  end.

(** [TransactLogValidationMixin] on its [m_current_table]; the methods that the validator adds
    do nothing either. *)
Definition validate (i : log_instr) (m_current_table : TableKey) : result TableKey :=
  if unsupported i then Err UnsupportedSchemaChange
  else match i with SelectTable key => Ok key | _ => Ok m_current_table end.

Record TransactLogValidator := Validator { validated_table : TableKey }.

#[export] Instance validator_handler : InstructionHandler TransactLogValidator :=
  fun i v => t ← validate i (validated_table v); Ok (Validator t, true).

(** ** The observer *)

Record TransactLogObserver := Observer {
  m_info : TransactionChangeInfo;
  builders : gmap Z CollectionChangeBuilder;
  current_table : TableKey;
  m_active_list : option Z;
  m_active_table : option TableKey
}.

Implicit Types o : TransactLogObserver.

Definition make_observer (info : TransactionChangeInfo) (store : gmap Z CollectionChangeBuilder)
  : TransactLogObserver := Observer info store null_table_key None None.

Definition with_info i o : TransactLogObserver :=
  Observer i (builders o) (current_table o) (m_active_list o) (m_active_table o).
Definition with_builders s o : TransactLogObserver :=
  Observer (m_info o) s (current_table o) (m_active_list o) (m_active_table o).

Definition is_list (table : TableKey) (obj : ObjKey) (col : ColKey) (e : ListChangeInfo) : bool :=
  (table_key e =? table) && (row_key e =? obj) && (col_key e =? col).

(** The last one, by a reverse iteration. *)
Definition find_list (obj : ObjKey) (col : ColKey) o : option Z :=
  changes <$> List.find (is_list (current_table o) obj col) (reverse (lists (m_info o))).

(** A change of the active table, when there is one. *)
Definition on_active_table (f : ObjectChangeSet -> ObjectChangeSet) o : TransactLogObserver :=
  match m_active_table o with
  | Some t =>
      let info := m_info o in
      with_info (with_tables (<[t := f (default no_object_changes (tables info !! t))]> (tables info)) info) o
  | None => o
  end.

(** A change of the active list, when there is one. *)
Definition on_active_list (f : CollectionChangeBuilder -> result CollectionChangeBuilder) o
  : result TransactLogObserver :=
  match m_active_list o with
  | Some p =>
      match builders o !! p with
      | Some b => b ← f b; Ok (with_builders (<[p := b]> (builders o)) o)
      | None => Err OutOfBounds
      end
  | None => Ok o
  end.

Definition modify_object (col : ColKey) (key : ObjKey) o : TransactLogObserver :=
  on_active_table (modifications_add key col) o.

(** The selection of a table makes an entry for it when everything is tracked. *)
Definition select_table (key : TableKey) o : TransactLogObserver :=
  let info := m_info o in
  if track_all info then
    Observer (with_tables (<[key := default no_object_changes (tables info !! key)]> (tables info)) info)
      (builders o) key (m_active_list o) (Some key)
  else
    Observer info (builders o) key (m_active_list o)
      (if tables info !! key is Some _ then Some key else None).

Definition select_list (col : ColKey) (obj : ObjKey) o : TransactLogObserver :=
  let o := modify_object col obj o in
  Observer (m_info o) (builders o) (current_table o) (find_list obj col o) (m_active_table o).

(** The loop of [remove_object] over [m_info.lists], from index [i]. *)
Fixpoint remove_lists (fuel : nat) (table : TableKey) (key : ObjKey) (i : nat) (l : list ListChangeInfo)
  : result (list ListChangeInfo) :=
  match l !! i with
  | None => Ok l
  | Some e =>
      match fuel with
      | O => Err OutOfFuel
      | S fuel =>
          remove_lists fuel table key (S i)
            (if negb (table_key e =? table) then l else if row_key e =? key then swap_pop i l else l)
      end
  end.

Definition remove_object (key : ObjKey) o : result TransactLogObserver :=
  match m_active_table o with
  | None => Ok o
  | Some _ =>
      let o := on_active_table (object_removed key) o in
      l ← remove_lists (length (lists (m_info o))) (current_table o) key 0 (lists (m_info o));
      Ok (with_info (with_lists l (m_info o)) o)
  end.

Definition clear_table (old_size : Z) o : TransactLogObserver :=
  let o := on_active_table (clear_objects old_size) o in
  with_info (with_lists (filter (fun e => table_key e <> current_table o) (lists (m_info o))) (m_info o)) o.

Section observer.
Context `{MaxSize}.

(** KVO and list notifications have no swaps: one move, or two. *)
Definition list_swap (index1 index2 : Z) o : result TransactLogObserver :=
  let '(index1, index2) := if index2 <? index1 then (index2, index1) else (index1, index2) in
  on_active_list (fun b =>
    b ← move index1 index2 b;
    if negb (u64 (index1 + 1) =? index2) then move (u64 (index2 - 1)) index1 b else Ok b) o.

#[export] Instance observer_handler : InstructionHandler TransactLogObserver := fun i o =>
  o ← match i with
      | SelectTable key => Ok (select_table key o)
      | SelectList col obj => Ok (select_list col obj o)
      | ListSet index => on_active_list (modify index npos) o
      | ListInsert index => on_active_list (insert index 1 true) o
      | ListErase index => on_active_list (erase index) o
      | ListSwap index1 index2 => list_swap index1 index2 o
      | ListClear old_size => on_active_list (clear old_size) o
      | ListMove from to => on_active_list (move from to) o
      | CreateObject key => Ok (on_active_table (insertions_add key) o)
      | RemoveObject key => remove_object key o
      | ModifyObject col key => Ok (modify_object col key o)
      | ClearTable old_size => Ok (clear_table old_size o)
      | InsertColumn _ | InsertGroupLevelTable _ => Ok (with_info (with_schema_changed (m_info o)) o)
      | SetLinkType _ => Ok o
      | EraseGroupLevelTable _ | RenameGroupLevelTable _ | EraseColumn _ | RenameColumn _ =>
          Err UnsupportedSchemaChange
      end;
  Ok (o, true).

Definition clean_up_list o (e : ListChangeInfo) : result TransactLogObserver :=
  match builders o !! changes e with
  | Some b => b ← clean_up_stale_moves b; Ok (with_builders (<[changes e := b]> (builders o)) o)
  | None => Err OutOfBounds
  end.

Definition parse_complete o : result TransactLogObserver :=
  o ← fold_result clean_up_list o (lists (m_info o));
  Ok (with_info (with_tables (filter (fun p => changes_empty (snd p) = false) (tables (m_info o))) (m_info o)) o).
End observer.
