(* ===== verification/LogTracking.v ===== *)
(** What a transaction log does to the objects and lists of a database, and the simulation by
    the log observer: whatever operations the log contains, the observer's change sets and
    builders describe the change of the tables and of the lists it observes. *)

From S2P Require Import Prelude Keys Varint TransactLog ChunkedRangeVector IndexSetMerge RowDiff.
From S2P Require Import ChangeBuilder Collection Tracking TrackedChanges ChangeReport.
From S2P Require Import MergeMoves ObjectChangeSet TransactLogHandler.

(** ** The database *)

(** A list is a property, given by its column, of an object of a table. *)
Abbreviation list_id := (TableKey * ObjKey * ColKey)%type.

Section database.
Context {A : Type}.

(** The selections of the log, the objects of each table, and the observed lists. *)
Record database := Database {
  db_table : option TableKey;
  db_list : option list_id;
  db_objects : gmap Z (gmap Z object_state);
  db_lists : gmap list_id (list (item A))
}.

Definition objects_of (db : database) (t : TableKey) : gmap Z object_state := default ∅ (db_objects db !! t).

Definition with_db_lists l (db : database) : database := Database (db_table db) (db_list db) (db_objects db) l.

(** A change of the selected table. *)
Definition change_objects (c : object_change) (db : database) : option database :=
  t ← db_table db;
  objs ← apply_object_change c (objects_of db t);
  Some (Database (db_table db) (db_list db) (<[t := objs]> (db_objects db)) (db_lists db)).

(** The observed lists of an object, and of a table, go with it. *)
Definition drop_lists (P : TableKey -> ObjKey -> bool) (db : database) : database :=
  with_db_lists (filter (fun p => P (fst (fst (fst p))) (snd (fst (fst p))) = false) (db_lists db)) db.

Definition swap_items (i j : Z) (cur : list (item A)) : option (list (item A)) :=
  a ← nth_Z cur i; b ← nth_Z cur j;
  Some (<[Z.to_nat i := b]> (<[Z.to_nat j := a]> cur)).

Definition checked_change (c : change A) (cur : list (item A)) : option (list (item A)) :=
  if decide (valid_change c (Z.of_nat (length cur))) then Some (apply_change c cur) else None.

Section log.
Context (observed : gset list_id).

(** A change of the selected list, when it is one of the observed ones. *)
Definition change_list (f : list (item A) -> option (list (item A))) (db : database) : option database :=
  id ← db_list db;
  if decide (id ∈ observed) then
    cur ← db_lists db !! id; cur' ← f cur; Some (with_db_lists (<[id := cur']> (db_lists db)) db)
  else Some db.

(** An instruction of the log, when it is one that the database allows; an element that it
    inserts is [new].  An object that had an observed list is not created again. *)
Definition apply_instr (new : A) (i : log_instr) (db : database) : option database :=
  match i with
  | SelectTable key => Some (Database (Some key) (db_list db) (db_objects db) (db_lists db))
  | SelectList col obj =>
      db ← change_objects (OModify col obj) db;
      t ← db_table db;
      Some (Database (db_table db) (Some (t, obj, col)) (db_objects db) (db_lists db))
  | CreateObject key =>
      t ← db_table db;
      if decide (Exists (fun id => fst (fst id) = t /\ snd (fst id) = key) (elements observed)) then None
      else change_objects (OCreate key) db
  | ModifyObject col key => change_objects (OModify col key) db
  | RemoveObject key =>
      t ← db_table db;
      drop_lists (fun t' k => (t' =? t) && (k =? key)) <$> change_objects (ORemove key) db
  | ClearTable old_size =>
      t ← db_table db; drop_lists (fun t' k => t' =? t) <$> change_objects (OClear old_size) db
  | ListSet index => change_list (checked_change (CModify index npos)) db
  | ListInsert index => change_list (checked_change (CInsert index [new])) db
  | ListErase index => change_list (checked_change (CErase index)) db
  | ListMove from to => change_list (checked_change (CMove from to)) db
  | ListSwap i j => if decide (i = j) then None else change_list (swap_items i j) db
  | ListClear old_size =>
      change_list (fun cur => if decide (old_size = Z.of_nat (length cur)) then Some [] else None) db
  | InsertColumn _ | InsertGroupLevelTable _ | SetLinkType _ => Some db
  | EraseGroupLevelTable _ | RenameGroupLevelTable _ | EraseColumn _ | RenameColumn _ => None
  end.

Fixpoint apply_log (log : list (log_instr * A)) (db : database) : option database :=
  match log with
  | [] => Some db
  | (i, new) :: log => db ← apply_instr new i db; apply_log log db
  end.
End log.

(** ** Swapping is moving twice *)

Lemma moved_split (l1 l2 : list (item A)) a from to :
  Z.of_nat (length l1) = from -> 0 <= to <= Z.of_nat (length (l1 ++ l2)) ->
  apply_change (CMove from to) (l1 ++ a :: l2) = insert_items to [a] (l1 ++ l2).
Proof. intros Hl Hto. cbn [apply_change]. by rewrite nth_split, delete_split. Qed.

Lemma swap_moves (cur cur' : list (item A)) i j :
  i < j -> swap_items i j cur = Some cur' ->
  (let cur1 := apply_change (CMove i j) cur in
   if decide (i + 1 = j) then cur1 else apply_change (CMove (j - 1) i) cur1) = cur' /\
  0 <= i /\ j < Z.of_nat (length cur) /\ length cur' = length cur.
Proof.
  intros Hij E. unfold swap_items in E.
  destruct (nth_Z cur i) as [a|] eqn:Ea; [|done]. destruct (nth_Z cur j) as [b|] eqn:Eb; [|done]. cbn [mbind option_bind] in E. injection E as <-.
  destruct (split_at_Z _ _ _ Ea) as (l1 & l & -> & H1).
  rewrite (nth_app_r l1), nth_cons, decide_False in Eb by lia.
  destruct (split_at_Z _ _ _ Eb) as (l2 & l3 & -> & H2).
  assert (Z.to_nat i = length l1) as Ei by lia.
  assert (Z.to_nat j = length (l1 ++ a :: l2)) as Ej by (rewrite length_app; simpl; lia).
  assert (<[Z.to_nat i:=b]> (<[Z.to_nat j:=a]> (l1 ++ a :: l2 ++ b :: l3)) = l1 ++ b :: l2 ++ a :: l3) as ->.
  { rewrite Ej, app_comm_cons, app_assoc, insert_app_r_alt, Nat.sub_diag by lia. cbn [insert list_insert].
    by rewrite <- app_assoc, Ei, insert_app_r_alt, Nat.sub_diag by lia. }
  split; [|rewrite !length_app; simpl; rewrite !length_app; simpl; lia].
  cbv zeta. rewrite moved_split by (done || rewrite !length_app; simpl; lia).
  replace (l1 ++ l2 ++ b :: l3) with ((l1 ++ l2 ++ [b]) ++ l3) by (by rewrite <- !app_assoc).
  rewrite insert_items_split by (rewrite !length_app; simpl; lia). cbn [app].
  case_decide as Hd.
  - assert (l2 = []) as -> by (destruct l2; [done|simpl in *; lia]). simpl. by rewrite <- app_assoc.
  - rewrite <- !app_assoc. cbn [app]. rewrite (app_assoc l1 l2).
    rewrite moved_split by (rewrite ?length_app; simpl; lia). by rewrite <- app_assoc, insert_items_split.
Qed.
End database.
Arguments database A : clear implicits.

(** ** The loop of [remove_object] *)

Lemma remove_lists_spec fuel t k i l :
  (length l <= i + fuel)%nat ->
  exists l', remove_lists fuel t k i l = Ok l' /\
    (forall e, e ∈ l' -> e ∈ l) /\
    (forall e, e ∈ l -> ~ (table_key e = t /\ row_key e = k) -> e ∈ l').
Proof.
  revert i l. induction fuel as [|fuel IH]; intros i l Hn; cbn [remove_lists].
  - rewrite lookup_ge_None_2 by lia. by exists l.
  - destruct (l !! i) as [e|] eqn:Ee; [|by exists l].
    assert (forall l0, (length l0 <= length l)%nat -> (forall x, x ∈ l0 -> x ∈ l) ->
      (forall x, x ∈ l -> ~ (table_key x = t /\ row_key x = k) -> x ∈ l0) ->
      exists l', remove_lists fuel t k (S i) l0 = Ok l' /\ (forall x, x ∈ l' -> x ∈ l) /\
        (forall x, x ∈ l -> ~ (table_key x = t /\ row_key x = k) -> x ∈ l')) as Hrec.
    { intros l0 Hl Hin Hout. destruct (IH (S i) l0) as (l' & E & H1 & H2); [lia|]. exists l'. naive_solver. }
    destruct (Z.eqb_spec (table_key e) t) as [Et|]; simpl; [|by apply Hrec].
    destruct (Z.eqb_spec (row_key e) k) as [Ek|]; [|by apply Hrec].
    pose proof (swap_pop_spec _ _ _ Ee) as Hp. apply Hrec.
    + apply Permutation_length in Hp. simpl in Hp. lia.
    + intros x Hx. rewrite Hp. by right.
    + intros x Hx Hne. rewrite Hp in Hx. apply elem_of_cons in Hx as [->|]; [|done]. by destruct Hne.
Qed.

(** ** The simulation *)

Definition list_of (e : ListChangeInfo) : list_id := (table_key e, row_key e, col_key e).

Section simulation.
Context `{MaxSize} {A : Type}.
Context (info : TransactionChangeInfo) (old_objects : gmap Z (gset Z)) (old_lists : gmap list_id (list A)).
Implicit Types db : database A.
Implicit Types e : ListChangeInfo.

(** What is observed at the start: lists of the database, each with a builder of its own, which
    is empty, and tables without changes. *)
Record observable (store : gmap Z CollectionChangeBuilder) : Prop := {
  os_lists : forall e, e ∈ lists info -> is_Some (old_lists !! list_of e);
  os_builders : forall e, e ∈ lists info -> store !! changes e = Some empty_builder;
  os_same_list : forall e e', e ∈ lists info -> e' ∈ lists info -> list_of e = list_of e' -> e = e';
  os_same_builder : forall e e', e ∈ lists info -> e' ∈ lists info -> changes e = changes e' -> e = e';
  os_tables : forall t c, tables info !! t = Some c -> c = no_object_changes;
  os_sizes : forall id l, old_lists !! id = Some l -> Z.of_nat (length l) <= npos
}.

Definition start_database : database A :=
  Database None None (fmap (M := gmap Z) unchanged_objects old_objects)
    (fmap (M := gmap list_id) (fun l : list A => fresh <$> l) old_lists).

Definition old_objects_of (t : TableKey) : gset Z := default ∅ (old_objects !! t).

Definition tracked_table (o : TransactLogObserver) (t : TableKey) : Prop := is_Some (tables (m_info o) !! t).

Record simulates (o : TransactLogObserver) (db : database A) : Prop := {
  sim_table : current_table o = default null_table_key (db_table db);
  sim_active_table : forall t, db_table db = Some t ->
    m_active_table o = (if tables (m_info o) !! t is Some _ then Some t else None) /\
    (track_all info = true -> tracked_table o t);
  sim_no_table : db_table db = None -> m_active_table o = None;
  sim_all : track_all (m_info o) = track_all info;
  sim_objects : forall t c, tables (m_info o) !! t = Some c ->
    objects_tracked c (old_objects_of t) (objects_of db t) /\ new_unmodified c;
  sim_others : track_all info = true -> forall t, tables (m_info o) !! t = None ->
    objects_of db t = unchanged_objects (old_objects_of t);
  sim_tables : forall t, is_Some (tables info !! t) -> tracked_table o t;
  sim_entries : forall e, e ∈ lists (m_info o) -> e ∈ lists info;
  sim_alive : forall e, e ∈ lists info -> is_Some (db_lists db !! list_of e) -> e ∈ lists (m_info o);
  sim_builders : forall e, e ∈ lists info -> exists b old cur,
    builders o !! changes e = Some b /\ old_lists !! list_of e = Some old /\ describes b old cur /\
    forall cur', db_lists db !! list_of e = Some cur' -> cur' = cur;
  sim_lists : forall id, is_Some (db_lists db !! id) -> is_Some (old_lists !! id);
  sim_active_list : forall id, db_list db = Some id ->
    (is_Some (db_lists db !! id) \/ old_lists !! id = None) ->
    match m_active_list o with
    | Some p => exists e, e ∈ lists info /\ list_of e = id /\ changes e = p
    | None => forall e, e ∈ lists info -> list_of e <> id
    end
}.

Lemma simulates_start store :
  observable store -> simulates (make_observer info store) start_database.
Proof.
  intros [Hl Hb _ _ Ht Hs]. split; simpl; try done.
  - intros t c E. rewrite (Ht t c E). unfold objects_of, old_objects_of. simpl. rewrite lookup_fmap.
    split; [|by intros k ?%elem_of_empty]. destruct (old_objects !! t); simpl; [apply tracked_start|].
    rewrite <- (gset_to_gmap_empty (Kept ∅)). apply tracked_start.
  - intros _ t _. unfold objects_of, old_objects_of. simpl. rewrite lookup_fmap.
    destruct (old_objects !! t); simpl; [done|]. symmetry. apply gset_to_gmap_empty.
  - intros e He. destruct (Hl e He) as [old Eo]. exists empty_builder, old, (fresh <$> old).
    split_and!; [by apply Hb|done|apply describes_start; by eapply Hs|].
    intros cur'. rewrite lookup_fmap, Eo. by intros [= <-].
  - intros id. by rewrite lookup_fmap, fmap_is_Some.
Qed.

(** Changing the selected table. *)
Lemma objects_step c o db db' :
  simulates o db -> change_objects c db = Some db' ->
  let o' := on_active_table (record_object_change c) o in
  simulates o' db' /\ db_table db' = db_table db /\ db_list db' = db_list db /\ db_lists db' = db_lists db /\
  lists (m_info o') = lists (m_info o) /\ current_table o' = current_table o /\
  builders o' = builders o /\ m_active_list o' = m_active_list o /\ m_active_table o' = m_active_table o.
Proof.
  intros [Htb Hat Hnt Hall Ho Hot Htabs Hin Hal Hb Hls Hli] E. unfold change_objects in E.
  destruct (db_table db) as [t|] eqn:Et; [|done]. cbn [mbind option_bind] in E.
  destruct (apply_object_change c (objects_of db t)) as [objs|] eqn:Eo; [|done]. injection E as <-.
  assert (forall t', objects_of (Database (Some t) (db_list db) (<[t:=objs]> (db_objects db)) (db_lists db)) t' =
    if decide (t' = t) then objs else objects_of db t') as Eobj.
  { intros t'. unfold objects_of. simpl. case_decide; [subst; by rewrite lookup_insert_eq|by rewrite lookup_insert_ne]. }
  destruct (Hat t eq_refl) as [Ha Ht]. unfold on_active_table. rewrite Ha.
  destruct (tables (m_info o) !! t) as [c0|] eqn:Ec; cbv zeta; rewrite ?Ec in Ha; (split; [|by split_and!]).
  - split; unfold tracked_table in *; simpl; try done.
    + intros t' [= <-]. rewrite lookup_insert_eq. split; [done|by eexists].
    + intros t' c'. rewrite Eobj, lookup_insert_Some.
      intros [[<- <-]|[Hne E]]; [rewrite decide_True by done|rewrite decide_False by done; by apply Ho].
      rewrite Ec. destruct (Ho t c0 Ec) as [Ht0 Hn0].
      split; [by apply (object_change_tracked _ _ _ (objects_of db t))|by eapply object_change_unmodified].
    + intros Hk t'. rewrite Eobj, lookup_insert_None. intros [E Hne]. rewrite decide_False by done. by apply Hot.
    + intros t' E. destruct (decide (t = t')) as [->|]; [rewrite lookup_insert_eq; by eexists|].
      rewrite lookup_insert_ne by done. by apply Htabs.
  - split; simpl; try done.
    + intros t' c' E. rewrite Eobj, decide_False by congruence. by apply Ho.
    + intros Hk. destruct (Ht Hk) as [? ?]. congruence.
Qed.

(** A change of the active list follows the change of the selected one. *)
Lemma list_step g f o db db' :
  (forall b old cur cur', describes b old cur -> f cur = Some cur' ->
    exists b', g b = Ok b' /\ describes b' old cur') ->
  (forall e e', e ∈ lists info -> e' ∈ lists info -> list_of e = list_of e' -> e = e') ->
  (forall e e', e ∈ lists info -> e' ∈ lists info -> changes e = changes e' -> e = e') ->
  simulates o db -> change_list (dom old_lists) f db = Some db' ->
  exists o', on_active_list g o = Ok o' /\ simulates o' db'.
Proof.
  intros Hg Hlist Hptr [Htb Hat Hnt Hall Ho Hot Htabs Hin Hal Hb Hls Hli] E. unfold change_list in E.
  destruct (db_list db) as [id|] eqn:Eid; [|done]. cbn [mbind option_bind] in E.
  unfold on_active_list. specialize (Hli id eq_refl). case_decide as Hid.
  - destruct (db_lists db !! id) as [cur|] eqn:Ecur; [|done]. cbn [mbind option_bind] in E.
    destruct (f cur) as [cur'|] eqn:Ef; [|done]. injection E as <-. specialize (Hli ltac:(left; by eexists)).
    assert (forall id', is_Some ((<[id:=cur']> (db_lists db)) !! id') <-> is_Some (db_lists db !! id')) as Hsome.
    { intros id'. rewrite lookup_insert_is_Some. destruct (decide (id = id')) as [->|]; [|tauto].
      rewrite Ecur. split; [by eexists|by left]. }
    destruct (m_active_list o) as [p|] eqn:Ep.
    + destruct Hli as (e & He & Hide & <-). destruct (Hb e He) as (b & old & cur0 & Eb & Eold & Hd & Hcur).
      rewrite Eb. rewrite Hide in *. specialize (Hcur _ Ecur) as ->.
      destruct (Hg b old cur0 cur' Hd Ef) as (b' & -> & Hd'). cbn [mbind result_bind].
      eexists. split; [done|]. split; simpl; try done.
      * intros e'. rewrite Hsome. apply Hal.
      * intros e' He'. destruct (decide (changes e = changes e')) as [Ec|Hne].
        { specialize (Hptr _ _ He He' Ec) as <-. rewrite lookup_insert_eq, Hide.
          exists b', old, cur'. split_and!; try done. intros cur1. rewrite lookup_insert_eq. by intros [= <-]. }
        destruct (Hb e' He') as (b1 & old1 & cur1 & E1 & Eo1 & Hd1 & Hc1).
        exists b1, old1, cur1. rewrite lookup_insert_ne by done. split_and!; try done.
        intros cur2. rewrite lookup_insert_ne; [apply Hc1|]. intros Eq. apply Hne. f_equal.
        apply Hlist; [done..|]. by rewrite Hide.
      * intros id'. rewrite Hsome. apply Hls.
      * intros id' E' _. assert (id' = id) as -> by congruence. rewrite Ep. by exists e.
    + eexists. split; [done|]. split; simpl; try done.
      * intros e'. rewrite Hsome. apply Hal.
      * intros e' He'. destruct (Hb e' He') as (b1 & old1 & cur1 & E1 & Eo1 & Hd1 & Hc1).
        exists b1, old1, cur1. split_and!; try done. intros cur2.
        rewrite lookup_insert_ne; [apply Hc1|]. intros Eq. by apply (Hli e').
      * intros id'. rewrite Hsome. apply Hls.
      * intros id' E' _. assert (id' = id) as -> by congruence. by rewrite Ep.
  - injection E as <-. apply not_elem_of_dom in Hid. specialize (Hli ltac:(by right)).
    destruct (m_active_list o) as [p|] eqn:Ep.
    + destruct Hli as (e & He & <- & _). destruct (Hb e He) as (b & old & cur & _ & Eold & _). congruence.
    + exists o. split; [done|]. split; try done. intros id' E' _. assert (id' = id) as -> by congruence. by rewrite Ep.
Qed.

(** The list found is an observed one with the identity asked for. *)
Lemma find_list_spec obj col o :
  match find_list obj col o with
  | Some p => exists e, e ∈ lists (m_info o) /\ list_of e = (current_table o, obj, col) /\ changes e = p
  | None => forall e, e ∈ lists (m_info o) -> list_of e <> (current_table o, obj, col)
  end.
Proof.
  unfold find_list, list_of.
  destruct (List.find _ _) as [e|] eqn:E; simpl.
  - apply List.find_some in E as [Hin He]. unfold is_list in He. rewrite !andb_true_iff, !Z.eqb_eq in He.
    exists e. split; [by apply elem_of_reverse, list_elem_of_In|]. destruct He as [[-> ->] ->]. done.
  - intros e He Eq. assert (is_list (current_table o) obj col e = false) as Hf.
    { apply (List.find_none _ _ E). by apply list_elem_of_In, elem_of_reverse. }
    unfold is_list in Hf. injection Eq as E1 E2 E3. by rewrite E1, E2, E3, !Z.eqb_refl in Hf.
Qed.

(** Dropping the lists of removed objects, when their infos may go too. *)
Lemma drop_step P l o db :
  simulates o db -> (forall e, e ∈ l -> e ∈ lists (m_info o)) ->
  (forall e, e ∈ lists (m_info o) -> P (table_key e) (row_key e) = false -> e ∈ l) ->
  simulates (with_info (with_lists l (m_info o)) o) (drop_lists P db).
Proof.
  intros [Htb Hat Hnt Hall Ho Hot Htabs Hin Hal Hb Hls Hli] Hsub Hkeep.
  assert (forall id cur, db_lists (drop_lists P db) !! id = Some cur <->
    db_lists db !! id = Some cur /\ P (fst (fst id)) (snd (fst id)) = false) as Hd.
  { intros id cur. unfold drop_lists. simpl. by rewrite map_lookup_filter_Some. }
  split; simpl; try done.
  - auto.
  - intros e He [cur [Ec HP]%Hd]. apply Hkeep; [|done]. apply Hal; [done|by eexists].
  - intros e He. destruct (Hb e He) as (b & old & cur & E1 & E2 & E3 & E4). exists b, old, cur.
    split_and!; try done. intros cur' [E _]%Hd. by apply E4.
  - intros id [cur [Ec _]%Hd]. apply Hls. by eexists.
  - intros id Eid [[cur [Ec _]%Hd]|En]; apply Hli; try done; [left; by eexists|by right].
Qed.

Lemma remove_object_step key o db db' :
  simulates o db -> change_objects (ORemove key) db = Some db' ->
  exists o', remove_object key o = Ok o' /\
    simulates o' (drop_lists (fun t' k => (t' =? default null_table_key (db_table db)) && (k =? key)) db').
Proof.
  intros Hs E. pose proof (sim_table _ _ Hs) as Ht.
  destruct (objects_step _ _ _ _ Hs E) as (Hs' & Etb & _ & Els & Eli & Ect & _ & _ & Eat).
  unfold remove_object. destruct (m_active_table o) as [t|] eqn:Ea.
  - destruct (remove_lists_spec (length (lists (m_info o))) (current_table o) key 0 (lists (m_info o)))
      as (l & El & Hsub & Hkeep); [lia|].
    change (record_object_change (ORemove key)) with (object_removed key) in *. rewrite Eli, Ect, El. cbn [mbind result_bind].
    eexists. split; [done|]. apply drop_step; [done| |]; rewrite Eli; [done|].
    intros e He HP. apply Hkeep; [done|]. intros [Et Ek]. rewrite <- Ht, Et, Ek, !Z.eqb_refl in HP. done.
  - exists o. split; [done|]. assert (on_active_table (record_object_change (ORemove key)) o = o) as Eo.
    { unfold on_active_table. by rewrite Ea. }
    rewrite Eo in Hs'. pose proof (drop_step (fun t' k => (t' =? default null_table_key (db_table db)) && (k =? key))
      (lists (m_info o)) o db' Hs') as Hd.
    assert (with_info (with_lists (lists (m_info o)) (m_info o)) o = o) as Eid by (destruct o as [[]]; done).
    rewrite Eid in Hd. apply Hd; auto.
Qed.

Lemma clear_table_step n o db db' :
  simulates o db -> change_objects (OClear n) db = Some db' ->
  simulates (clear_table n o) (drop_lists (fun t' k => t' =? default null_table_key (db_table db)) db').
Proof.
  intros Hs E. pose proof (sim_table _ _ Hs) as Ht.
  destruct (objects_step _ _ _ _ Hs E) as (Hs' & _ & _ & _ & Eli & Ect & _).
  unfold clear_table. change (clear_objects n) with (record_object_change (OClear n)).
  apply drop_step; [done| |]; rewrite Eli, Ect.
  - by intros e [_ ?]%list_elem_of_filter.
  - intros e He HP. apply list_elem_of_filter. split; [|done]. rewrite Ht. by apply Z.eqb_neq.
Qed.

Lemma select_table_step t o db :
  simulates o db ->
  simulates (select_table t o) (Database (Some t) (db_list db) (db_objects db) (db_lists db)).
Proof.
  intros [Htb Hat Hnt Hall Ho Hot Htabs Hin Hal Hb Hls Hli]. unfold select_table. rewrite Hall.
  destruct (track_all info) eqn:Etr; split; unfold tracked_table in *; simpl; try done; try congruence.
  - intros t' [= <-]. rewrite lookup_insert_eq. split; [done|by eexists].
  - intros t' c [[<- <-]|[Hne E]]%lookup_insert_Some; [|by apply Ho].
    destruct (tables (m_info o) !! t) as [c0|] eqn:Ec; simpl; [by apply Ho|].
    change (objects_of _ t) with (objects_of db t). rewrite Hot by done.
    split; [apply tracked_start|by intros k ?%elem_of_empty].
  - intros _ t' [E _]%lookup_insert_None. by apply Hot.
  - intros t' E. destruct (decide (t = t')) as [->|]; [rewrite lookup_insert_eq; by eexists|].
    rewrite lookup_insert_ne by done. by apply Htabs.
  - intros t' [= <-]. split; [done|congruence].
Qed.

Lemma select_list_step col obj o db db' t :
  simulates o db -> change_objects (OModify col obj) db = Some db' -> db_table db' = Some t ->
  simulates (select_list col obj o) (Database (db_table db') (Some (t, obj, col)) (db_objects db') (db_lists db')).
Proof.
  intros Hs E Et. destruct (objects_step _ _ _ _ Hs E) as (Hs' & _).
  unfold select_list, modify_object. change (modifications_add obj col) with (record_object_change (OModify col obj)).
  set (o' := on_active_table _ o) in *. clearbody o'. destruct Hs' as [Htb Hat Hnt Hall Ho Hot Htabs Hin Hal Hb Hls Hli].
  pose proof (find_list_spec obj col o') as Hf. rewrite Htb, Et in Hf. simpl in Hf.
  split; simpl; try done. intros id [= <-] Hid. destruct (find_list obj col o') as [p|].
  - destruct Hf as (e & He & Eid & Ep). exists e. auto.
  - intros e He Eid. apply (Hf e); [|done]. apply Hal; [done|]. rewrite Eid.
    destruct Hid as [?|Hn]; [done|]. destruct (Hb e He) as (b & old & cur & _ & Eo & _). congruence.
Qed.

(** ** The instructions *)

Lemma swap_step i j b (old : list A) (cur cur' : list (item A)) :
  i <> j -> describes b old cur -> swap_items i j cur = Some cur' ->
  exists b', (let '(i1, i2) := if j <? i then (j, i) else (i, j) in
      b ← move i1 i2 b; if negb (u64 (i1 + 1) =? i2) then move (u64 (i2 - 1)) i1 b else Ok b) = Ok b' /\
    describes b' old cur'.
Proof.
  intros Hij Hd E.
  enough (forall i j, i < j -> swap_items i j cur = Some cur' ->
    exists b', (b ← move i j b; if negb (u64 (i + 1) =? j) then move (u64 (j - 1)) i b else Ok b) = Ok b' /\
      describes b' old cur') as Hlt.
  { destruct (Z.ltb_spec j i); apply Hlt; try lia; try done. unfold swap_items in *.
    destruct (nth_Z cur i) as [a|] eqn:Ea; [|done]. destruct (nth_Z cur j) as [c|] eqn:Ec; [|done].
    simpl in *. injection E as <-. f_equal. apply nth_lt in Ea, Ec. apply list_insert_insert_ne. lia. }
  clear i j Hij E. intros i j Hlt E. destruct (swap_moves _ _ _ _ Hlt E) as (Hs & Hi & Hj & Hl).
  pose proof (ds_cur_size _ _ _ Hd) as Hsz. unfold npos, word_size in Hsz.
  rewrite !u64_small by (unfold word_size; lia). cbv zeta in Hs.
  destruct (move_step b old cur i j Hd) as (b1 & -> & Hd1); [simpl; lia|]. cbn [mbind result_bind].
  destruct (Z.eqb_spec (i + 1) j) as [Ej|Ej]; cbn [negb]; [|].
  - rewrite decide_True in Hs by done. subst cur'. by exists b1.
  - rewrite decide_False in Hs by done. subst cur'. apply move_step; [done|].
    assert (length (apply_change (CMove i j) cur) = length cur) as El.
    { cbn [apply_change]. destruct (nth_Z cur i) as [a|] eqn:Ea; [|done].
      rewrite length_insert_items. apply nth_lt in Ea. rewrite length_delete; [simpl; lia|]. apply lookup_lt_is_Some_2. lia. }
    rewrite El. simpl. lia.
Qed.

Lemma checked_step (c : change A) b (old : list A) (cur cur' : list (item A)) g :
  (forall b, g b = perform_change c (Z.of_nat (length cur)) b) ->
  describes b old cur -> checked_change c cur = Some cur' -> exists b', g b = Ok b' /\ describes b' old cur'.
Proof.
  intros Hg Hd E. unfold checked_change in E. case_decide as Hv; [|done]. injection E as <-.
  rewrite Hg. by apply change_step.
Qed.

Lemma schema_step o db : simulates o db -> simulates (with_info (with_schema_changed (m_info o)) o) db.
Proof. intros [? ? ? ? ? ? ? ? ? ? ? ?]. by split. Qed.

Lemma dispatch_Ok o o' i (r : result TransactLogObserver) :
  (handle i o = (o ← r; Ok (o, true))) -> r = Ok o' -> dispatch o i = Ok o'.
Proof. intros Hh ->. unfold dispatch. by rewrite Hh. Qed.

Lemma instr_step store o db db' new i :
  observable store -> simulates o db -> apply_instr (dom old_lists) new i db = Some db' ->
  exists o', dispatch o i = Ok o' /\ simulates o' db'.
Proof.
  intros [_ _ Hlist Hptr _ _] Hs E.
  enough (exists r o', handle i o = (o ← r; Ok (o, true)) /\ r = Ok o' /\ simulates o' db') as (r & o' & Eh & Er & ?).
  { exists o'. split; [|done]. by eapply dispatch_Ok. }
  assert (forall g f, (forall b old cur cur', describes b old cur -> f cur = Some cur' ->
      exists b', g b = Ok b' /\ describes b' old cur') -> change_list (dom old_lists) f db = Some db' ->
      exists o', on_active_list g o = Ok o' /\ simulates o' db') as Hl by (intros; by eapply list_step).
  assert (forall c g, (forall n b, g b = perform_change c n b) -> change_list (dom old_lists) (checked_change c) db = Some db' ->
    exists o', on_active_list g o = Ok o' /\ simulates o' db') as Hc.
  { intros c g Hg E'. apply (Hl g (checked_change c)); [|done].
    intros b old cur cur' Hd Ec. by apply (checked_step c b old cur cur'). }
  destruct i as [t|t|t|t|k|k|col k|n|col|col|col|col|col k|ndx|ndx|f t|i j|ndx|n]; cbn [apply_instr] in E; try done;
    eexists; cbn [handle observer_handler].
  - injection E as <-. eexists. split_and!; [done|done|]. by apply select_table_step.
  - injection E as <-. eexists. split_and!; [done|done|]. by apply schema_step.
  - destruct (db_table db) as [t|]; [|done]. cbn [mbind option_bind] in E. case_decide; [done|].
    eexists. split_and!; [done|done|]. by apply (objects_step (OCreate k) o db db' Hs).
  - destruct (db_table db) as [t|] eqn:Et; [|done]. cbn [mbind option_bind] in E.
    destruct (change_objects (ORemove k) db) as [db1|] eqn:E1; [|done]. injection E as <-.
    destruct (remove_object_step k o db db1 Hs E1) as (o' & Eo & Hs'). rewrite Et in Hs'. exists o'. by split_and!.
  - eexists. split_and!; [done|done|]. by apply (objects_step (OModify col k) o db db' Hs).
  - destruct (db_table db) as [t|] eqn:Et; [|done]. cbn [mbind option_bind] in E.
    destruct (change_objects (OClear n) db) as [db1|] eqn:E1; [|done]. injection E as <-.
    pose proof (clear_table_step n o db db1 Hs E1) as Hs'. rewrite Et in Hs'. eexists. by split_and!.
  - injection E as <-. eexists. split_and!; [done|done|]. by apply schema_step.
  - injection E as <-. eexists. by split_and!.
  - destruct (change_objects (OModify col k) db) as [db1|] eqn:E1; [|done]. cbn [mbind option_bind] in E.
    destruct (db_table db1) as [t|] eqn:Et; [|done]. injection E as <-. eexists. split_and!; [done|done|].
    pose proof (select_list_step col k o db db1 t Hs E1 Et) as Hs'. by rewrite Et in Hs'.
  - destruct (Hc (CModify ndx npos) (modify ndx npos) (fun _ _ => eq_refl) E) as (o' & Eo & Hs'). exists o'. by split_and!.
  - destruct (Hc (CInsert ndx [new]) (insert ndx 1 true) (fun _ _ => eq_refl) E) as (o' & Eo & Hs'). exists o'. by split_and!.
  - destruct (Hc (CMove f t) (move f t) (fun _ _ => eq_refl) E) as (o' & Eo & Hs'). exists o'. by split_and!.
  - case_decide; [done|].
    destruct (Hl (fun b => let '(i1, i2) := if j <? i then (j, i) else (i, j) in
      b ← move i1 i2 b; if negb (u64 (i1 + 1) =? i2) then move (u64 (i2 - 1)) i1 b else Ok b) (swap_items i j))
      as (o' & Eo & Hs'); [intros; by apply swap_step with cur|done|].
    exists o'. split_and!; [done| |done]. unfold list_swap. by destruct (j <? i).
  - destruct (Hc (CErase ndx) (erase ndx) (fun _ _ => eq_refl) E) as (o' & Eo & Hs'). exists o'. by split_and!.
  - destruct (Hl (clear n) (fun cur => if decide (n = Z.of_nat (length cur)) then Some [] else None)) as (o' & Eo & Hs');
      [|done|exists o'; by split_and!].
    intros b old cur cur' Hd Ec. case_decide; [|done]. injection Ec as <-. subst n. by apply clear_step.
Qed.

Lemma log_steps store log o db db' :
  observable store -> simulates o db -> apply_log (dom old_lists) log db = Some db' ->
  exists o', fold_result dispatch o log.*1 = Ok o' /\ simulates o' db'.
Proof.
  intros Hos. revert o db. induction log as [|[i new] log IH]; intros o db Hs E; cbn [apply_log] in E.
  - injection E as <-. by exists o.
  - destruct (apply_instr _ new i db) as [db1|] eqn:E1; [|done]. cbn [mbind option_bind] in E.
    destruct (instr_step store o db db1 new i Hos Hs E1) as (o1 & Eo & Hs1).
    destruct (IH o1 db1 Hs1 E) as (o' & Ef & Hs'). exists o'. split; [|done].
    rewrite fmap_cons. cbn [fst fold_result]. by rewrite Eo.
Qed.

(** ** Completion *)

Lemma clean_up_describes b (old : list A) cur :
  describes b old cur -> exists b', clean_up_stale_moves b = Ok b' /\ describes b' old cur.
Proof.
  intros [Hd Hi Hmk Ho Hc Hos Hcs Hk Hm Hmv Hdist Hsrc Htr]. unfold clean_up_stale_moves.
  destruct (stale_moves_spec old (ids cur) (moves b) (deletions b) (insertions b)) as
    (l & d & i & -> & Hsub & Hsd & Hsi & [Hd' Hi' Hk' Hmv' Hs' Ht']); [done|by rewrite length_ids| |].
  { split; try done. eapply Forall_impl; [exact Hmv|]. by intros m [? ? ?]. }
  cbn [mbind result_bind]. eexists. split; [done|]. split; simpl; try done.
  - intros x Hx%Hsd. by apply Ho.
  - intros x Hx%Hsi. by apply Hc.
  - eapply Forall_impl; [exact Hmv'|]. by intros m (? & ? & ?).
Qed.

Lemma clean_up_step e o db :
  (forall e e', e ∈ lists info -> e' ∈ lists info -> changes e = changes e' -> e = e') ->
  simulates o db -> e ∈ lists info -> exists o', clean_up_list o e = Ok o' /\ simulates o' db /\ m_info o' = m_info o.
Proof.
  intros Hptr [Htb Hat Hnt Hall Ho Hot Htabs Hin Hal Hb Hls Hli] He. unfold clean_up_list.
  destruct (Hb e He) as (b & old & cur & -> & Eold & Hd & Hcur).
  destruct (clean_up_describes b old cur Hd) as (b' & -> & Hd'). cbn [mbind result_bind].
  eexists. split; [done|]. split; [|done]. split; simpl; try done.
  intros e' He'. destruct (decide (changes e = changes e')) as [Ec|Hne].
  - specialize (Hptr _ _ He He' Ec) as <-. rewrite lookup_insert_eq. by exists b', old, cur.
  - rewrite lookup_insert_ne by done. by apply Hb.
Qed.

Lemma clean_up_steps l o db :
  (forall e e', e ∈ lists info -> e' ∈ lists info -> changes e = changes e' -> e = e') ->
  simulates o db -> (forall e, e ∈ l -> e ∈ lists info) ->
  exists o', fold_result clean_up_list o l = Ok o' /\ simulates o' db /\ m_info o' = m_info o.
Proof.
  intros Hptr. revert o. induction l as [|e l IH]; intros o Hs Hl; [by exists o|].
  destruct (clean_up_step e o db Hptr Hs) as (o1 & E1 & Hs1 & Ei1); [apply Hl; by left|].
  destruct (IH o1 Hs1) as (o' & E & Hs' & Ei); [intros; apply Hl; by right|].
  exists o'. cbn [fold_result]. rewrite E1. cbn [mbind result_bind]. split_and!; [done|done|congruence].
Qed.

(** What the observers read of the completed observation [o]: for each observed list that is
    still there, the report of its builder, and for each observed table the report of its change
    set, or nothing when the table did not change. *)
Record observation (o : TransactLogObserver) (db : database A) : Prop := {
  obs_lists : forall e cur, e ∈ lists info -> db_lists db !! list_of e = Some cur ->
    exists b cs old, builders o !! changes e = Some b /\ finalize b = Ok cs /\
      old_lists !! list_of e = Some old /\ reports cs old cur;
  obs_tables : forall t c, tables (m_info o) !! t = Some c ->
    changes_empty c = false /\ objects_reported c (old_objects_of t) (objects_of db t) /\
    forall k, objects_of db t !! k = Some Created -> modifications_contains c k = false;
  obs_unchanged : forall t, tables (m_info o) !! t = None -> track_all info = true \/ is_Some (tables info !! t) ->
    objects_of db t = unchanged_objects (old_objects_of t)
}.

Lemma complete_observation store o db :
  observable store -> simulates o db ->
  exists o', parse_complete o = Ok o' /\ observation o' db.
Proof.
  intros Hos Hs. unfold parse_complete.
  destruct (clean_up_steps (lists (m_info o)) o db (os_same_builder _ Hos) Hs (sim_entries _ _ Hs)) as (o1 & -> & Hs1 & Ei).
  cbn [mbind result_bind]. eexists. split; [done|].
  split; simpl; [intros e cur He Ecur|intros t c E|intros t En Ht].
  - destruct (sim_builders _ _ Hs1 e He) as (b & old & cur0 & Eb & Eo & Hd & Hcur). rewrite <- (Hcur _ Ecur) in Hd.
    destruct (finalize_reports b old cur Hd) as (cs & Ef & Hr). by exists b, cs, old.
  - apply map_lookup_filter_Some in E as [Ec He]. split; [done|].
    destruct (sim_objects _ _ Hs1 t c Ec) as [Ht Hn]. split; [by apply tracked_reported|].
    intros k. by apply tracked_unmodified with (old_objects_of t).
  - destruct (tables (m_info o1) !! t) as [c|] eqn:Ec.
    + apply map_lookup_filter_None in En as [En|Hne]; [congruence|]. specialize (Hne c Ec). simpl in Hne.
      eapply no_changes_kept; [apply (sim_objects _ _ Hs1 t c Ec)|by destruct (changes_empty c)].
    + destruct Ht as [Ht|Ht]; [by apply (sim_others _ _ Hs1)|].
      destruct (sim_tables _ _ Hs1 t Ht) as [c Ec']. congruence.
Qed.

(** ** The log, from its bytes to the reports *)

End simulation.

(** A list of object 1 of table 7 and a list of object 2 of table 8, both tables, and a log. *)
Definition sample_info : TransactionChangeInfo :=
  ChangeInfo [ListChange 7 1 3 100; ListChange 8 2 4 200]
    {[7 := no_object_changes; 8 := no_object_changes]} false false.
Definition sample_store : gmap Z CollectionChangeBuilder := {[100 := empty_builder; 200 := empty_builder]}.
Definition sample_old_objects : gmap Z (gset Z) := {[7 := {[1; 5]}; 8 := {[2]}; 9 := {[3]}]}.
Definition sample_old_lists : gmap list_id (list Z) := {[(7, 1, 3) := [10; 11; 12; 13]; (8, 2, 4) := [20]]}.
Definition sample_transaction : list (log_instr * Z) :=
  [(SelectTable 7, 0); (SelectList 3 1, 0); (ListInsert 1, 40); (ListSwap 4 0, 0); (ListSwap 1 2, 0); (ListErase 3, 0);
   (ListSet 1, 0); (CreateObject 6, 0); (RemoveObject 5, 0); (InsertColumn 9, 0); (ModifyObject 9 6, 0);
   (SelectTable 8, 0); (SelectList 4 2, 0)].

Lemma sample_observable : observable sample_info sample_old_lists sample_store.
Proof.
  split.
  - intros e He. repeat (apply elem_of_cons in He as [->|He]; [by eexists|]). by apply elem_of_nil in He.
  - intros e He. repeat (apply elem_of_cons in He as [->|He]; [done|]). by apply elem_of_nil in He.
  - intros e e' He He'.
    repeat (apply elem_of_cons in He as [->|He]; [|]); try (by apply elem_of_nil in He);
      repeat (apply elem_of_cons in He' as [->|He']; [done|]); by apply elem_of_nil in He'.
  - intros e e' He He'.
    repeat (apply elem_of_cons in He as [->|He]; [|]); try (by apply elem_of_nil in He);
      repeat (apply elem_of_cons in He' as [->|He']; [done|]); by apply elem_of_nil in He'.
  - unfold sample_info. cbn [tables]. intros t c. rewrite lookup_insert_Some, lookup_singleton_Some.
    by intros [[_ <-]|[_ [_ <-]]].
  - unfold sample_old_lists. intros id l. rewrite lookup_insert_Some, lookup_singleton_Some.
    intros [[_ <-]|[_ [_ <-]]]; vm_compute; discriminate.
Qed.



Import SampleSelect.


(** ** Behaviours *)

(** The validator, which a Realm without observers reads the log with, throws exactly when
    the log removes or renames a table or a column; otherwise the last selected table is all it
    keeps. *)
Theorem validator_rejects (log : list log_instr) (v : TransactLogValidator) :
  fold_result dispatch v log =
    if existsb unsupported log then Err UnsupportedSchemaChange
    else Ok (Validator (foldl (fun t i => if i is SelectTable key then key else t) (validated_table v) log)).
Proof.
  revert v. induction log as [|i log IH]; intros [t]; [done|]. cbn [fold_result existsb foldl].
  destruct i; try done; cbn [dispatch handle validator_handler validate unsupported orb mbind result_bind]; apply IH.
Qed.

(** The loop passes over the infos of other objects. *)
Lemma remove_lists_skip t k l1 l2 l3 fuel :
  Forall (fun e => ~ (table_key e = t /\ row_key e = k)) l2 ->
  remove_lists (length l2 + fuel) t k (length l1) (l1 ++ l2 ++ l3) =
    remove_lists fuel t k (length (l1 ++ l2)) (l1 ++ l2 ++ l3).
Proof.
  intros Hf. revert l1. induction Hf as [|e l2 He _ IH]; intros l1; [by rewrite app_nil_r|].
  cbn [length Nat.add remove_lists app]. rewrite list_lookup_middle by done.
  specialize (IH (l1 ++ [e])). rewrite length_app, Nat.add_1_r in IH. rewrite <- !app_assoc in IH. cbn [app] in IH.
  destruct (Z.eqb_spec (table_key e) t); cbn [negb]; [destruct (Z.eqb_spec (row_key e) k); [tauto|]|]; exact IH.
Qed.

Lemma swap_pop_last {B} (l : list B) a b : swap_pop (length l) (l ++ [a; b]) = l ++ [b].
Proof.
  unfold swap_pop. assert (last (l ++ [a; b]) = Some b) as ->.
  { change [a; b] with ([a] ++ [b]). by rewrite app_assoc, last_snoc. }
  rewrite insert_app_r_alt, Nat.sub_diag by lia. change (<[0%nat:=b]> [a; b]) with ([b] ++ [b]).
  replace (pred (length (l ++ [a; b]))) with (length (l ++ [b])) by (rewrite !length_app; simpl; lia).
  by rewrite app_assoc, take_app_length.
Qed.

(** When the last two list infos are of the object that is removed, the loop of
    [remove_object] moves the last into the place of the other and goes on behind it: the last
    info stays. *)
Theorem remove_object_keeps_list k o t (l : list ListChangeInfo) e1 e2 :
  m_active_table o = Some t -> lists (m_info o) = l ++ [e1; e2] ->
  Forall (fun e => ~ (table_key e = current_table o /\ row_key e = k)) l ->
  table_key e1 = current_table o -> row_key e1 = k ->
  exists o', remove_object k o = Ok o' /\ lists (m_info o') = l ++ [e2].
Proof.
  intros Ha Hl Hf E1 E2. unfold remove_object. rewrite Ha.
  assert (lists (m_info (on_active_table (object_removed k) o)) = l ++ [e1; e2] /\
    current_table (on_active_table (object_removed k) o) = current_table o) as [-> ->].
  { unfold on_active_table. by rewrite Ha. }
  assert (remove_lists (length (l ++ [e1; e2])) (current_table o) k 0 (l ++ [e1; e2]) = Ok (l ++ [e2])) as ->.
  { rewrite length_app. rewrite (remove_lists_skip (current_table o) k [] l [e1; e2]) by done. cbn [app length remove_lists].
    rewrite list_lookup_middle, E1, E2, !Z.eqb_refl by done. cbn [negb]. rewrite swap_pop_last.
    by rewrite lookup_ge_None_2 by (rewrite length_app; simpl; lia). }
  eexists. split; done.
Qed.

(** An observer of two list properties, 3 and 4, of object 1. *)
Definition two_lists_observer : TransactLogObserver :=
  Observer (ChangeInfo [ListChange 7 5 3 50; ListChange 7 1 3 100; ListChange 7 1 4 200] {[7 := no_object_changes]} false false)
    ∅ 7 None (Some 7).

Lemma remove_object_keeps_list_witness :
  exists o', remove_object 1 two_lists_observer = Ok o' /\
    lists (m_info o') = [ListChange 7 5 3 50; ListChange 7 1 4 200].
Proof.
  apply (remove_object_keeps_list 1 two_lists_observer 7 [ListChange 7 5 3 50] (ListChange 7 1 3 100) (ListChange 7 1 4 200));
    try reflexivity. constructor; [|constructor]. intros [_ H]. discriminate H.
Defined.

(** Two infos for one list, of which the last must be used, change places when the object of an
    info before them is removed: from then on the first one is used. *)
Theorem remove_object_reorders_lists :
  let o := Observer (ChangeInfo [ListChange 7 5 3 50; ListChange 7 1 3 100; ListChange 7 1 3 200]
    {[7 := no_object_changes]} false false) ∅ 7 None (Some 7) in
  find_list 1 3 o = Some 200 /\ exists o', remove_object 5 o = Ok o' /\ find_list 1 3 o' = Some 100.
Proof. split; [reflexivity|]. eexists. split; reflexivity. Qed.
