(* ===== verification/DeepChangeChecker.v ===== *)
(** [DeepChangeChecker] of [collection_notifier.cpp]: whether an object was modified, or an
    object that it links to over at most three links; and the tables that this may concern.

    [Table] and [Obj] are classes of the compiled core; what is read of them is the interface
    [Tables].  [m_not_modified] is a map of sets of objects by table, here the set of the pairs. *)

From S2P Require Import Prelude Keys ObjectChangeSet TransactLogHandler.

(** ** The database *)

Inductive column_type := type_Link | type_LinkList | type_Other.

#[export] Instance column_type_eq_dec : EqDecision column_type.
Proof. solve_decision. Defined.

(** An object of a table. *)
Abbreviation row := (TableKey * ObjKey)%type.

Class Tables := {
  get_column_keys : TableKey -> list ColKey;
  get_column_type : TableKey -> ColKey -> column_type;
  get_link_target : TableKey -> ColKey -> TableKey;
  has_object : TableKey -> ObjKey -> bool;
  get_link : TableKey -> ObjKey -> ColKey -> option ObjKey;      (** none when the link is null *)
  get_linklist : TableKey -> ObjKey -> ColKey -> list ObjKey
}.

(** ** Related tables *)

Record OutgoingLink := Link { link_col : ColKey; is_list : bool }.
Record RelatedTable := Related { related_key : TableKey; links : list OutgoingLink }.

#[export] Instance OutgoingLink_eq_dec : EqDecision OutgoingLink.
Proof. solve_decision. Defined.
#[export] Instance RelatedTable_eq_dec : EqDecision RelatedTable.
Proof. solve_decision. Defined.

Section checker.
Context `{Tables}.

Definition push_link (l : OutgoingLink) (r : RelatedTable) : RelatedTable := Related (related_key r) (links r ++ [l]).

(** The link of a column, when it is one. *)
Definition outgoing_link (t : TableKey) (col : ColKey) : option OutgoingLink :=
  match get_column_type t col with
  | type_Link => Some (Link col false)
  | type_LinkList => Some (Link col true)
  | type_Other => None
  end.

(** The recursion adds a table to [out] that was not there: the number of tables is enough fuel. *)
Fixpoint find_related_tables (fuel : nat) (out : list RelatedTable) (t : TableKey) : result (list RelatedTable) :=
  if existsb (fun r => related_key r =? t) out then Ok out
  else
    match fuel with
    | O => Err OutOfFuel
    | S fuel =>
        let out_index := length out in
        fold_result (fun out col =>
            match outgoing_link t col with
            | Some l => find_related_tables fuel (alter (push_link l) out_index out) (get_link_target t col)
            | None => Ok out
            end) (out ++ [Related t []]) (get_column_keys t)
    end.

(** ** The search *)

Record Path := MkPath { p_obj_key : ObjKey; p_col_key : ColKey; depth_exceeded : bool }.

Definition exceed (p : Path) : Path := MkPath (p_obj_key p) (p_col_key p) true.

(** [m_current_path] is an array of four. *)
Record DeepChangeChecker := Checker { m_not_modified : gset row; m_current_path : list Path }.

Definition max_depth : nat := 4.

(** The array starts out with no particular contents. *)
Definition make_checker : DeepChangeChecker := Checker ∅ (replicate max_depth (MkPath 0 0 false)).

Context (info : TransactionChangeInfo) (m_related_tables : list RelatedTable).

Definition is_modified (t : TableKey) (key : ObjKey) : bool :=
  match tables info !! t with Some c => modifications_contains c key | None => false end.

Definition with_path p (s : DeepChangeChecker) : DeepChangeChecker := Checker (m_not_modified s) p.

Definition find_related (t : TableKey) : option RelatedTable :=
  List.find (fun r => related_key r =? t) m_related_tables.

(** [std::any_of] with a predicate that changes the state. *)
Fixpoint any_of {B S} (f : B -> S -> result (bool * S)) (l : list B) (s : S) : result (bool * S) :=
  match l with
  | [] => Ok (false, s)
  | b :: l => '(found, s) ← f b s; if (found : bool) then Ok (true, s) else any_of f l s
  end.

(** The first entry of the current path, below [depth], for the link [col] of the object. *)
Definition find_current (obj_key : ObjKey) (col : ColKey) (depth : nat) (path : list Path) : option nat :=
  fst <$> list_find (fun p => p_obj_key p = obj_key /\ p_col_key p = col) (take depth path).

(** The entries from [first] up to [last], which is not marked. *)
Definition mark_exceeded (first last : nat) (path : list Path) : list Path :=
  imap (fun i p => if bool_decide (first <= i < last)%nat then exceed p else p) path.

Definition already_checking (obj_key : ObjKey) (depth : nat) (col : ColKey) (s : DeepChangeChecker)
  : bool * DeepChangeChecker :=
  match find_current obj_key col depth (m_current_path s) with
  | Some i => (true, with_path (mark_exceeded i depth (m_current_path s)) s)
  | None => (false, with_path (<[depth := MkPath obj_key col false]> (m_current_path s)) s)
  end.

Section outgoing.
Context (check_row : TableKey -> ObjKey -> nat -> DeepChangeChecker -> result (bool * DeepChangeChecker)).

Definition linked_object_changed (t : TableKey) (obj_key : ObjKey) (depth : nat) (l : OutgoingLink)
    (s : DeepChangeChecker) : result (bool * DeepChangeChecker) :=
  let '(checking, s) := already_checking obj_key depth (link_col l) s in
  if checking then Ok (false, s)
  else if negb (is_list l) then
    match get_link t obj_key (link_col l) with
    | None => Ok (false, s)
    | Some dst => check_row (get_link_target t (link_col l)) dst (S depth) s
    end
  else
    any_of (fun key => check_row (get_link_target t (link_col l)) key (S depth))
      (get_linklist t obj_key (link_col l)) s.

Definition check_outgoing_links (t : TableKey) (obj_key : ObjKey) (depth : nat) (s : DeepChangeChecker)
  : result (bool * DeepChangeChecker) :=
  match find_related t with
  | None => Ok (false, s)
  | Some r =>
      match links r with
      | [] => Ok (false, s)
      | _ => if has_object t obj_key then any_of (linked_object_changed t obj_key depth) (links r) s else Err InvalidKey
      end
  end.
End outgoing.

Definition exceeded_at (i : nat) (s : DeepChangeChecker) : bool :=
  match m_current_path s !! i with Some p => depth_exceeded p | None => false end.

Fixpoint check_row (fuel : nat) (t : TableKey) (key : ObjKey) (depth : nat) (s : DeepChangeChecker)
  : result (bool * DeepChangeChecker) :=
  if (max_depth <=? depth)%nat then Ok (false, with_path (exceed <$> m_current_path s) s)
  else if (0 <? depth)%nat && is_modified t key then Ok (true, s)
  else if decide ((t, key) ∈ m_not_modified s) then Ok (false, s)
  else
    match fuel with
    | O => Err OutOfFuel
    | S fuel =>
        '(ret, s) ← check_outgoing_links (check_row fuel) t key depth s;
        if negb ret && ((depth =? 0)%nat || negb (exceeded_at (pred depth) s))
        then Ok (ret, Checker ({[(t, key)]} ∪ m_not_modified s) (m_current_path s))
        else Ok (ret, s)
    end.

(** [operator()], on an object of the table [root]: every call goes one deeper, and none deeper
    than the array. *)
Definition check_object (root : TableKey) (key : ObjKey) (s : DeepChangeChecker) : result (bool * DeepChangeChecker) :=
  if is_modified root key then Ok (true, s) else check_row max_depth root key 0 s.
End checker.

(** ** [CollectionNotifier] *)

Section notifier.
Context `{Tables}.

Definition set_table (fuel : nat) (t : TableKey) : result (list RelatedTable) := find_related_tables fuel [] t.

(** The function that [get_modification_checker] returns: constant, the lookup in the change set
    of one table, or the deep check. *)
Inductive modification_checker := NothingModified | OneTable (c : ObjectChangeSet) | DeepCheck.

Definition table_modified (info : TransactionChangeInfo) (r : RelatedTable) : bool :=
  match tables info !! related_key r with Some c => negb (modifications_empty c) | None => false end.

(** The related tables, updated when the schema changed, and the function. *)
Definition get_modification_checker (fuel : nat) (info : TransactionChangeInfo) (m_related_tables : list RelatedTable)
    (root : TableKey) : result (list RelatedTable * modification_checker) :=
  related ← (if schema_changed info then set_table fuel root else Ok m_related_tables);
  if negb (existsb (table_modified info) related) then Ok (related, NothingModified)
  else
    match related with
    | [r] =>
        match tables info !! related_key r with
        | Some c => Ok (related, OneTable c)
        | None => Err OutOfBounds
        end
    | _ => Ok (related, DeepCheck)
    end.

Definition object_did_change (info : TransactionChangeInfo) (root : TableKey)
    (checker : list RelatedTable * modification_checker) (key : ObjKey) (s : DeepChangeChecker)
  : result (bool * DeepChangeChecker) :=
  match snd checker with
  | NothingModified => Ok (false, s)
  | OneTable c => Ok (modifications_contains c key, s)
  | DeepCheck => check_object info (fst checker) root key s
  end.
End notifier.
