(* ===== verification/RelatedTables.v ===== *)
(** The related tables: the recursion of [find_related_tables] ends, and collects exactly the
    tables that the links of the schema lead to, each once and with all its links. *)

From S2P Require Import Prelude Keys ObjectChangeSet TransactLogHandler DeepChangeChecker.

Section related.
Context `{Tables}.
Implicit Types (t : TableKey) (out new : list RelatedTable).

Definition table_links t : list OutgoingLink := omap (outgoing_link t) (get_column_keys t).

(** A link column of [t] has its objects in [t']. *)
Definition links_to t t' : Prop := exists l, l ∈ table_links t /\ get_link_target t (link_col l) = t'.

Definition keys_of out : list TableKey := related_key <$> out.

(** The tables of the group, and how many are not yet collected. *)
Context (all : gset Z).
Hypothesis all_closed : forall t t', t ∈ all -> links_to t t' -> t' ∈ all.

Definition missing out : nat := size (all ∖ list_to_set (keys_of out)).

Lemma missing_app out new : (missing (out ++ new) <= missing out)%nat.
Proof. unfold missing, keys_of. apply subseteq_size. rewrite fmap_app, list_to_set_app. set_solver. Qed.

Lemma missing_table out t ls : t ∈ all -> t ∉ keys_of out -> (missing (out ++ [Related t ls]) < missing out)%nat.
Proof.
  intros Ha Hn. unfold missing, keys_of. rewrite fmap_app, list_to_set_app. simpl. apply subset_size.
  split; [set_solver|]. intros Hsub. assert (t ∈ all ∖ (list_to_set (related_key <$> out) ∪ ({[t]} ∪ ∅) : gset Z)); [|set_solver].
  apply Hsub. apply elem_of_difference. split; [done|]. by rewrite elem_of_list_to_set.
Qed.

Lemma existsb_key out t : existsb (fun r => related_key r =? t) out = true <-> t ∈ keys_of out.
Proof.
  rewrite existsb_exists. unfold keys_of. rewrite list_elem_of_fmap. split.
  - intros (r & Hr%list_elem_of_In & <-%Z.eqb_eq). by exists r.
  - intros (r & -> & Hr%list_elem_of_In). exists r. by rewrite Z.eqb_refl.
Qed.

(** The entries [new] are added to [out], complete but for the links of the tables in [out]. *)
Record collects (root : TableKey) out new : Prop := {
  co_once : NoDup (keys_of (out ++ new));
  co_all : forall r, r ∈ new -> related_key r ∈ all;
  co_links : forall r, r ∈ new -> links r = table_links (related_key r);
  co_closed : forall r t, r ∈ new -> links_to (related_key r) t -> t ∈ keys_of (out ++ new);
  co_reached : forall r, r ∈ new -> rtc links_to root (related_key r)
}.

Lemma collects_app root t out new new' :
  collects root out new -> collects t (out ++ new) new' -> rtc links_to root t -> collects root out (new ++ new').
Proof.
  intros [H1 H2 H3 H4 H5] [G1 G2 G3 G4 G5] Hr. rewrite <- app_assoc in *.
  split; [done|intros r [?|?]%elem_of_app|intros r [?|?]%elem_of_app|intros r t' [Hin|Hin]%elem_of_app Hl|intros r [?|?]%elem_of_app];
    auto.
  - specialize (H4 r t' Hin Hl). unfold keys_of in *. rewrite !fmap_app in *. rewrite app_assoc, elem_of_app. by left.
  - by apply (G4 r).
  - etrans; [done|]. auto.
Qed.

Section table.
Context (fuel : nat) (t : TableKey) (out : list RelatedTable).
Hypothesis rec_spec : forall out' t', NoDup (keys_of out') -> t' ∈ all -> (missing out' <= fuel)%nat ->
  exists new, find_related_tables fuel out' t' = Ok (out' ++ new) /\ collects t' out' new /\ t' ∈ keys_of (out' ++ new).
Hypothesis (in_all : t ∈ all) (fresh_table : t ∉ keys_of out) (enough : (missing out <= S fuel)%nat).

Lemma columns_spec cols ls new :
  (forall l, l ∈ omap (outgoing_link t) cols -> links_to t (get_link_target t (link_col l))) ->
  collects t (out ++ [Related t ls]) new ->
  exists new', fold_result (fun out' col =>
      match outgoing_link t col with
      | Some l => find_related_tables fuel (alter (push_link l) (length out) out') (get_link_target t col)
      | None => Ok out'
      end) (out ++ Related t ls :: new) cols = Ok (out ++ Related t (ls ++ omap (outgoing_link t) cols) :: new ++ new') /\
    collects t (out ++ [Related t (ls ++ omap (outgoing_link t) cols)]) (new ++ new') /\
    forall l, l ∈ omap (outgoing_link t) cols ->
      get_link_target t (link_col l) ∈ keys_of (out ++ [Related t ls] ++ new ++ new').
Proof.
  revert ls new. induction cols as [|col cols IH]; intros ls new Hcols Hco.
  { exists []. cbn. rewrite !app_nil_r. split_and!; [done|done|]. by intros l ?%elem_of_nil. }
  cbn [fold_result omap list_omap] in *. destruct (outgoing_link t col) as [l|] eqn:El; [|by apply IH].
  assert (link_col l = col) as Ecol by (unfold outgoing_link in El; destruct (get_column_type t col); by simplify_eq/=).
  assert (alter (push_link l) (length out) (out ++ Related t ls :: new) = out ++ Related t (ls ++ [l]) :: new) as ->.
  { rewrite alter_app_r_alt, Nat.sub_diag by lia. done. }
  set (out1 := out ++ [Related t (ls ++ [l])]).
  assert (forall ls', keys_of (out ++ [Related t ls']) = keys_of out ++ [t]) as Ekeys.
  { intros ls'. unfold keys_of. by rewrite fmap_app. }
  assert (forall ls' n, keys_of ((out ++ [Related t ls']) ++ n) = keys_of out ++ [t] ++ keys_of n) as Ekeys2.
  { intros ls' n. unfold keys_of. by rewrite <- app_assoc, !fmap_app. }
  assert (collects t out1 new) as Hco1.
  { destruct Hco as [H1 H2 H3 H4 H5]. unfold out1. split; try done; by setoid_rewrite Ekeys2; setoid_rewrite Ekeys2 in H1; setoid_rewrite Ekeys2 in H4. }
  assert (links_to t (get_link_target t col)) as Hlt.
  { rewrite <- Ecol at 1. apply Hcols. by left. }
  destruct (rec_spec (out ++ Related t (ls ++ [l]) :: new) (get_link_target t col)) as (new1 & -> & Hco2 & Hin).
  { change (Related t (ls ++ [l]) :: new) with ([Related t (ls ++ [l])] ++ new). rewrite app_assoc. apply Hco1. }
  { by eapply all_closed. }
  { change (Related t (ls ++ [l]) :: new) with ([Related t (ls ++ [l])] ++ new). rewrite app_assoc.
    etrans; [apply missing_app|]. pose proof (missing_table out t (ls ++ [l]) in_all fresh_table). lia. }
  cbn [mbind result_bind].
  assert (collects t out1 (new ++ new1)) as Hco3.
  { eapply collects_app; [done| |by eapply rtc_once]. unfold out1. by rewrite <- app_assoc. }
  destruct (IH (ls ++ [l]) (new ++ new1)) as (new2 & E & Hco4 & Hin2); [by intros l' Hl'; apply Hcols; right|done|].
  exists (new1 ++ new2). rewrite <- !app_assoc in *. cbn [app] in *. rewrite E. split; [done|]. split; [done|].
  intros l' [->|Hl']%elem_of_cons.
  - rewrite Ecol. revert Hin. unfold keys_of. rewrite !fmap_app, !fmap_cons, !fmap_app, !elem_of_app, !elem_of_cons, !elem_of_app. cbn [related_key]. tauto.
  - specialize (Hin2 l' Hl'). revert Hin2. unfold keys_of. by rewrite !fmap_app, !fmap_cons.
Qed.
End table.

Lemma find_related_spec fuel out t :
  NoDup (keys_of out) -> t ∈ all -> (missing out <= fuel)%nat ->
  exists new, find_related_tables fuel out t = Ok (out ++ new) /\ collects t out new /\ t ∈ keys_of (out ++ new).
Proof.
  revert out t. induction fuel as [|fuel IH]; intros out t Hn Ha Hm; cbn [find_related_tables];
    destruct (existsb _ out) eqn:E;
    try (apply existsb_key in E; exists []; rewrite app_nil_r; split; [done|]; split; [|done];
      split; try (by intros r ?%elem_of_nil); [by rewrite app_nil_r|by intros r t' ?%elem_of_nil]).
  all: assert (t ∉ keys_of out) as Hf by (rewrite <- existsb_key, E; done).
  { pose proof (missing_table out t [] Ha Hf). lia. }
  assert (collects t (out ++ [Related t []]) []) as Hstart.
  { split; try (by intros r ?%elem_of_nil); [|by intros r t' ?%elem_of_nil].
    rewrite app_nil_r. unfold keys_of. rewrite fmap_app. apply NoDup_app. split; [done|]. split; [|apply NoDup_singleton].
    intros x Hx ->%list_elem_of_singleton. done. }
  destruct (columns_spec fuel t out IH Ha Hf Hm (get_column_keys t) [] []) as (new & -> & Hco & Hin); [|done|].
  { intros l Hl. exists l. done. }
  cbn [app] in *. exists (Related t (table_links t) :: new). split; [done|].
  assert (forall n, keys_of (out ++ Related t [] :: n) = keys_of (out ++ Related t (table_links t) :: n)) as Ek.
  { intros n. unfold keys_of. by rewrite !fmap_app, !fmap_cons. }
  destruct Hco as [H1 H2 H3 H4 H5]. fold (table_links t) in *.
  assert (forall n, (out ++ [Related t (table_links t)]) ++ n = out ++ Related t (table_links t) :: n) as Eapp by (intros; by rewrite <- app_assoc).
  rewrite Eapp in H1. setoid_rewrite Eapp in H4. split.
  - split; [done|intros r [->|?]%elem_of_cons|intros r [->|?]%elem_of_cons|intros r t' [->|?]%elem_of_cons Hl|intros r [->|?]%elem_of_cons];
      auto; simpl in *.
    + destruct Hl as (l & Hl & <-). rewrite <- Ek. by apply Hin.
    + by apply (H4 r).
    + constructor.
  - unfold keys_of. rewrite fmap_app, fmap_cons, elem_of_app, elem_of_cons. auto.
Qed.

Lemma collects_reached root new t :
  collects root [] new -> root ∈ keys_of new -> t ∈ keys_of new <-> rtc links_to root t.
Proof.
  intros [_ _ _ H4 H5] Hin. split; [intros (r & -> & Hr)%list_elem_of_fmap; by apply H5|].
  intros Hr. clear -H4 Hin Hr. revert Hin. induction Hr as [|a b c Hab _ IH]; [done|].
  intros (r & -> & Hr)%list_elem_of_fmap. apply IH. by apply (H4 r).
Qed.
End related.

(** C22: in a group whose tables [all] link only to tables of the group, collecting the related
    tables of a table ends within as many calls as there are tables, and gives exactly the tables
    that links lead to from it, itself included, each once, with all link columns of the table in
    order. *)
Theorem related_tables_exact `{Tables} (all : gset Z) t :
  (forall t1 t2, t1 ∈ all -> links_to t1 t2 -> t2 ∈ all) -> t ∈ all ->
  exists out, set_table (size all) t = Ok out /\ NoDup (keys_of out) /\
    (forall t', t' ∈ keys_of out <-> rtc links_to t t') /\
    (forall r, r ∈ out -> links r = table_links (related_key r)).
Proof.
  intros Hc Ht. destruct (find_related_spec all Hc (size all) [] t) as (out & E & Hco & Hin);
    [constructor|done|unfold missing; apply subseteq_size; set_solver|].
  cbn [app] in *. exists out. split_and!; [done|apply Hco| |apply Hco]. intros t'. by apply (collects_reached all).
Qed.

(** Persons (table 1) with a link to a dog and a list of friends, dogs (2) with an owner, and a
    table of settings (3) that nothing links to. *)
Module SampleTables.
#[export] Instance sample_tables : Tables := {|
  get_column_keys t := if t =? 1 then [10; 11; 12] else if t =? 2 then [20; 21] else if t =? 3 then [30] else [];
  get_column_type t col := if (col =? 11) || (col =? 21) then type_Link else if col =? 12 then type_LinkList else type_Other;
  get_link_target t col := if col =? 11 then 2 else 1;
  has_object t key := (1 <=? key) && (key <=? 6);
  get_link t key col := if t =? 1 then (if key =? 1 then Some 1 else None) else if key =? 1 then Some 2 else None;
  get_linklist t key col := if (1 <=? key) && (key <? 6) then [key + 1; 1] else []
|}.
End SampleTables.

Import SampleTables.

Lemma related_tables_exact_witness :
  exists out, set_table 3 1 = Ok out /\ out = [Related 1 [Link 11 false; Link 12 true]; Related 2 [Link 21 false]] /\
    (forall t', t' ∈ keys_of out <-> rtc links_to 1 t').
Proof.
  destruct (related_tables_exact ({[1; 2; 3]} : gset Z) 1) as (out & E & _ & Hr & _).
  - intros t1 t2 _ (l & _ & <-). cbn [get_link_target sample_tables]. destruct (link_col l =? 11); set_solver.
  - set_solver.
  - exists out. split; [exact E|]. split; [|exact Hr].
    assert (set_table 3 1 = Ok [Related 1 [Link 11 false; Link 12 true]; Related 2 [Link 21 false]]) as Hx by reflexivity.
    change (set_table 3 1 = Ok out) in E. congruence.
Defined.
