(* ===== verification/DeepCheckProps.v ===== *)
(** The deep change checker is exact: it answers whether a modified object is reached over at
    most three links, however the paths through the objects meet and whatever it remembers of
    earlier checks; and the related tables are those that the links lead to. *)

From S2P Require Import Prelude Keys ObjectChangeSet TransactLogHandler DeepChangeChecker RelatedTables.

(** ** Walks over links *)

Section deep.
Context `{Tables} (info : TransactionChangeInfo) (related : list RelatedTable).

Implicit Types (r x : row) (s : DeepChangeChecker) (st : list (row * ColKey)).

Definition modified_row r : Prop := is_modified info (fst r) (snd r) = true.

(** The objects that the link [l] of [r] leads to. *)
Definition children r (l : OutgoingLink) : list row :=
  (fun key => (get_link_target (fst r) (link_col l), key)) <$>
    (if is_list l then get_linklist (fst r) (snd r) (link_col l)
     else match get_link (fst r) (snd r) (link_col l) with Some key => [key] | None => [] end).

Definition row_links r : list OutgoingLink :=
  match find_related related (fst r) with Some t => links t | None => [] end.

(** A walk from an object to another, with the objects and columns it goes through. *)
Inductive walk : row -> list (row * ColKey) -> row -> Prop :=
| walk_nil r : walk r [] r
| walk_cons r l x ls r' :
    l ∈ row_links r -> x ∈ children r l -> walk x ls r' -> walk r ((r, link_col l) :: ls) r'.

(** An object is modified, or leads to one that is over at most [n] links. *)
Definition reaches_modified (n : nat) r : Prop := exists ls r', walk r ls r' /\ (length ls <= n)%nat /\ modified_row r'.

(** What the search relies on: links lead to objects, and a column key tells its link. *)
Class SearchableLinks : Prop := {
  links_exist : forall r l x, l ∈ row_links r -> x ∈ children r l -> has_object (fst x) (snd x) = true;
  columns_differ : forall t1 t2 l1 l2, l1 ∈ row_links (t1, 0) -> l2 ∈ row_links (t2, 0) ->
    link_col l1 = link_col l2 -> t1 = t2 /\ l1 = l2
}.

Lemma row_links_table r k : row_links r = row_links (fst r, k).
Proof. done. Qed.

Lemma walk_suffix r ls r' y : walk r ls r' -> y ∈ ls -> exists ls', walk (fst y) ls' r' /\
  (length ls' <= length ls)%nat /\ forall z, z ∈ ls' -> z ∈ ls.
Proof.
  induction 1 as [|r l x ls r' Hl Hx Hw IH]; [by intros ?%elem_of_nil|]. intros [->|Hy]%elem_of_cons.
  - exists ((r, link_col l) :: ls). split; [by econstructor|]. auto.
  - destruct (IH Hy) as (ls' & Hw' & Hlen & Hin). exists ls'. split; [done|]. simpl. split; [lia|].
    intros z Hz. right. auto.
Qed.

(** ** The state of the search *)

Context `{!SearchableLinks}.

(** The stack [st] of links being followed is the first part of the current path. *)
Definition on_path st s : Prop :=
  length (m_current_path s) = max_depth /\ (length st <= max_depth)%nat /\
  forall i y, st !! i = Some y -> snd y ∈ link_col <$> row_links (fst y) /\
    exists p, m_current_path s !! i = Some p /\ p_obj_key p = snd (fst y) /\ p_col_key p = snd y.

(** Flags below [d] are only raised. *)
Definition flags_raised (d : nat) s s' : Prop :=
  forall i, (i < d)%nat -> exceeded_at i s = true -> exceeded_at i s' = true.

Definition remembered s : Prop := forall r, r ∈ m_not_modified s -> ~ reaches_modified 3 r.

(** How far a walk from an object at depth [d] is searched, when it may only be cut at the links
    of the stack from [i] on. *)
Definition searched (d i : nat) s (n : nat) : Prop :=
  (i = 0 /\ d + n <= 3)%nat \/ ((1 <= i <= d)%nat /\ exceeded_at (pred i) s = false /\ (n <= 3)%nat).

Definition cut_at (i : nat) st (ls : list (row * ColKey)) : Prop :=
  exists y j, y ∈ ls /\ (i <= j)%nat /\ st !! j = Some y.

(** What a call at the stack [st] promises about the object [r]. *)
Definition not_found st s r : Prop := forall i ls r',
  walk r ls r' -> searched (length st) i s (length ls) -> modified_row r' -> cut_at i st ls.

Record answers st s (b : bool) s' (P : Prop) (found : Prop) : Prop := {
  an_path : on_path st s';
  an_flags : flags_raised (length st) s s';
  an_remembered : remembered s';
  an_found : b = true -> found;
  an_not_found : b = false -> P
}.

Lemma flags_refl d s : flags_raised d s s.
Proof. by intros i _. Qed.

Lemma flags_trans d s1 s2 s3 : flags_raised d s1 s2 -> flags_raised d s2 s3 -> flags_raised d s1 s3.
Proof. unfold flags_raised. eauto. Qed.

Lemma flags_weaken d d' s1 s2 : (d' <= d)%nat -> flags_raised d s1 s2 -> flags_raised d' s1 s2.
Proof. intros Hd Hf i Hi. apply Hf. lia. Qed.

Lemma searched_before d i s s' n : flags_raised d s s' -> searched d i s' n -> searched d i s n.
Proof.
  intros Hf [?|(Hi & He & Hn)]; [by left|]. right. split; [done|]. split; [|done].
  destruct (exceeded_at (pred i) s) eqn:E; [|done]. rewrite (Hf (pred i)) in He; [done|lia|done].
Qed.

Lemma searched_step d i s n : searched d i s (S n) -> searched (S d) i s n.
Proof. unfold searched. intros [?|(? & ? & ?)]; [left; lia|right; split_and!; (done || lia)]. Qed.

Lemma searched_less d i s n n' : (n' <= n)%nat -> searched d i s n -> searched d i s n'.
Proof. unfold searched. intros Hn [?|(? & ? & ?)]; [left; lia|right; split_and!; (done || lia)]. Qed.

Lemma not_found_before st s s' r : flags_raised (length st) s s' -> not_found st s r -> not_found st s' r.
Proof. intros Hf Hn i ls r' Hw Hs Hm. eapply Hn; [done| |done]. by eapply searched_before. Qed.

(** ** The steps *)

Lemma same_link y l r : snd y ∈ link_col <$> row_links (fst y) -> l ∈ row_links r ->
  snd (fst y) = snd r -> snd y = link_col l -> y = (r, link_col l).
Proof.
  destruct y as [[t k] col], r as [t' k']. simpl. intros (l' & -> & Hl')%list_elem_of_fmap Hl -> Hc.
  destruct (columns_differ t t' l' l Hl' Hl Hc) as [-> ->]. done.
Qed.

Lemma lookup_mark first last path i :
  mark_exceeded first last path !! i =
    (fun p => if bool_decide (first <= i < last)%nat then exceed p else p) <$> path !! i.
Proof. unfold mark_exceeded. by rewrite list_lookup_imap. Qed.

Lemma on_path_mark st s (f : nat -> Path -> Path) :
  (forall i p, p_obj_key (f i p) = p_obj_key p /\ p_col_key (f i p) = p_col_key p) ->
  on_path st s -> on_path st (with_path (imap f (m_current_path s)) s).
Proof.
  intros Hf (Hl & Hs & Hp). split; [|split; [done|]]; simpl; [by rewrite length_imap|].
  intros i y Hy. destruct (Hp i y Hy) as (Hc & p & Ep & Ho & Ek). split; [done|].
  exists (f i p). rewrite list_lookup_imap, Ep. destruct (Hf i p) as [-> ->]. done.
Qed.

Lemma already_checking_spec st s r l :
  on_path st s -> (length st < max_depth)%nat -> l ∈ row_links r ->
  let '(checking, s') := already_checking (snd r) (length st) (link_col l) s in
  m_not_modified s' = m_not_modified s /\ flags_raised (length st) s s' /\
  if checking : bool then
    on_path st s' /\ exists m, st !! m = Some (r, link_col l) /\
      forall i, (m <= i < length st)%nat -> exceeded_at i s' = true
  else on_path (st ++ [(r, link_col l)]) s'.
Proof.
  intros Hst Hd Hl. pose proof Hst as (Hlen & _ & Hp). unfold already_checking, find_current.
  destruct (list_find _ _) as [[m p]|] eqn:E; simpl.
  - apply list_find_Some in E as (Em & [Ho Hc] & _). apply lookup_take_Some in Em as [Em Hm].
    destruct (lookup_lt_is_Some_2 st m Hm) as [y Ey]. destruct (Hp m y Ey) as (Hy & p' & Ep & Ho' & Hc').
    rewrite Em in Ep. injection Ep as <-.
    split; [done|]. split; [|split].
    + intros i Hi. unfold exceeded_at. simpl. rewrite lookup_mark. destruct (m_current_path s !! i); [|done].
      simpl. by case_bool_decide.
    + apply on_path_mark; [|done]. intros i q. by case_bool_decide.
    + exists m. split; [rewrite Ey; f_equal; apply same_link; congruence|].
      intros i Hi. unfold exceeded_at. simpl. rewrite lookup_mark.
      destruct (lookup_lt_is_Some_2 (m_current_path s) i) as [q Eq]; [lia|]. rewrite Eq. simpl.
      by rewrite bool_decide_true by lia.
  - split; [done|]. split.
    + intros i Hi. unfold exceeded_at. simpl. by rewrite list_lookup_insert_ne by lia.
    + split; [|split]; simpl; [by rewrite length_insert|rewrite length_app; simpl; lia|].
      intros i y Hy. apply lookup_app_Some in Hy as [Hy|[Hi Hy]].
      * destruct (Hp i y Hy) as (Hc & p & Ep & Ho & Ek). split; [done|]. exists p.
        rewrite list_lookup_insert_ne; [done|]. apply lookup_lt_Some in Hy. lia.
      * apply list_lookup_singleton_Some in Hy as [Hi0 <-]. simpl. split; [apply list_elem_of_fmap; by exists l|].
        exists (MkPath (snd r) (link_col l) false). split; [|done].
        replace i with (length st) by lia. apply list_lookup_insert_eq. lia.
Qed.

Lemma exceed_all st s :
  on_path st s -> on_path st (with_path (exceed <$> m_current_path s) s) /\
  (forall d, flags_raised d s (with_path (exceed <$> m_current_path s) s)) /\
  forall i, (i < max_depth)%nat -> exceeded_at i (with_path (exceed <$> m_current_path s) s) = true.
Proof.
  intros (Hl & Hs & Hp). assert (forall i, exceeded_at i (with_path (exceed <$> m_current_path s) s) =
    bool_decide (is_Some (m_current_path s !! i))) as He.
  { intros i. unfold exceeded_at. simpl. rewrite list_lookup_fmap. by destruct (m_current_path s !! i). }
  split; [|split].
  - split; [simpl; by rewrite length_fmap|]. split; [done|]. intros i y Hy. destruct (Hp i y Hy) as (Hc & p & Ep & ? & ?).
    split; [done|]. exists (exceed p). simpl. by rewrite list_lookup_fmap, Ep.
  - intros d i _. rewrite He. unfold exceeded_at. destruct (m_current_path s !! i); [|done]. intros _. apply bool_decide_eq_true. by eexists.
  - intros i Hi. rewrite He. apply bool_decide_eq_true, lookup_lt_is_Some_2. lia.
Qed.

(** Searching the children with one more link on the stack. *)
Lemma on_path_pop st y s : on_path (st ++ [y]) s -> on_path st s.
Proof.
  intros (Hl & Hs & Hp). rewrite length_app in Hs. simpl in Hs. split; [done|]. split; [lia|].
  intros i z Hz. apply Hp. by apply lookup_app_l_Some.
Qed.

Lemma any_of_answers {B} st (f : B -> DeepChangeChecker -> result (bool * DeepChangeChecker))
    (P : DeepChangeChecker -> B -> Prop) (Q : B -> Prop) (l : list B) s :
  (forall b s1 s2, flags_raised (length st) s1 s2 -> P s1 b -> P s2 b) ->
  (forall b s, b ∈ l -> on_path st s -> remembered s ->
    exists found s', f b s = Ok (found, s') /\ answers st s found s' (P s' b) (Q b)) ->
  on_path st s -> remembered s ->
  exists found s', any_of f l s = Ok (found, s') /\
    answers st s found s' (forall b, b ∈ l -> P s' b) (exists b, b ∈ l /\ Q b).
Proof.
  intros HP. revert s. induction l as [|b l IH]; intros s Hf Hs Hr; cbn [any_of].
  { exists false, s. split; [done|]. split; try done; [apply flags_refl|]. by intros _ b ?%elem_of_nil. }
  destruct (Hf b s) as (found & s1 & -> & [Hs1 Hfl Hr1 Ht Hn]); [by left|done|done|]. cbn [mbind result_bind].
  destruct found.
  - exists true, s1. split; [done|]. split; try done. intros _. exists b. split; [by left|auto].
  - destruct (IH s1) as (found & s2 & E & [Hs2 Hfl2 Hr2 Ht2 Hn2]); [intros; apply Hf; [by right|done..]|done|done|].
    exists found, s2. split; [done|]. split; try done.
    + by eapply flags_trans.
    + intros Hf2. destruct (Ht2 Hf2) as (b' & ? & ?). exists b'. split; [by right|done].
    + intros Hf2 b' [->|Hb]%elem_of_cons; [eapply HP; [exact Hfl2|by apply Hn]|by apply Hn2].
Qed.

Definition found_from st r : Prop := exists ls r', walk r ls r' /\ (length st + length ls <= 3)%nat /\ modified_row r'.

(** What is promised when a link of [r] led to nothing. *)
Definition link_not_found st r s (l : OutgoingLink) : Prop := forall i ls r' x,
  x ∈ children r l -> walk x ls r' -> searched (length st) i s (S (length ls)) -> modified_row r' ->
  cut_at i (st ++ [(r, link_col l)]) ls \/ exists m, (i <= m)%nat /\ st !! m = Some (r, link_col l).

Section links.
Context (rec : TableKey -> ObjKey -> nat -> DeepChangeChecker -> result (bool * DeepChangeChecker)).
Context (st : list (row * ColKey)) (r : row).
Hypothesis room : (length st < max_depth)%nat.
Hypothesis rec_spec : forall y x s, on_path (st ++ [y]) s -> remembered s -> has_object (fst x) (snd x) = true ->
  exists b s', rec (fst x) (snd x) (S (length st)) s = Ok (b, s') /\
    answers (st ++ [y]) s b s' (not_found (st ++ [y]) s' x) (found_from (st ++ [y]) x).

Lemma linked_object_spec l s :
  l ∈ row_links r -> on_path st s -> remembered s ->
  exists b s', linked_object_changed rec (fst r) (snd r) (length st) l s = Ok (b, s') /\
    answers st s b s' (link_not_found st r s' l) (exists x, x ∈ children r l /\ found_from (st ++ [(r, link_col l)]) x).
Proof.
  intros Hl Hs Hr. unfold linked_object_changed. pose proof (already_checking_spec st s r l Hs room Hl) as Ha.
  destruct (already_checking (snd r) (length st) (link_col l) s) as [checking s1]. destruct Ha as (Hc & Hfl & Ha).
  assert (remembered s1) as Hr1 by (unfold remembered; by rewrite Hc). destruct checking.
  - destruct Ha as (Hs1 & m & Em & Hm). exists false, s1. split; [done|]. split; try done.
    intros _ i ls r' x _ _ Hse _. right. exists m. split; [|done].
    destruct Hse as [[-> _]|(Hi & He & _)]; [lia|]. destruct (decide (i <= m)%nat); [done|]. rewrite Hm in He; [done|lia].
  - set (y := (r, link_col l)) in *.
    assert (forall keys, (forall key, key ∈ keys -> (get_link_target (fst r) (link_col l), key) ∈ children r l) ->
      exists b s', any_of (fun key => rec (get_link_target (fst r) (link_col l)) key (S (length st))) keys s1 = Ok (b, s') /\
        answers (st ++ [y]) s1 b s'
          (forall key, key ∈ keys -> not_found (st ++ [y]) s' (get_link_target (fst r) (link_col l), key))
          (exists key, key ∈ keys /\ found_from (st ++ [y]) (get_link_target (fst r) (link_col l), key))) as Hany.
    { intros keys Hk. apply any_of_answers; [intros key s2 s3; apply not_found_before| |done|done].
      intros key s2 Hin Hs2 Hr2. apply (rec_spec y (get_link_target (fst r) (link_col l), key)); [done|done|].
      by apply (links_exist r l), Hk. }
    assert (exists b s' keys, children r l = (fun key => (get_link_target (fst r) (link_col l), key)) <$> keys /\
      (if negb (is_list l) then match get_link (fst r) (snd r) (link_col l) with
         | None => Ok (false, s1) | Some dst => rec (get_link_target (fst r) (link_col l)) dst (S (length st)) s1 end
       else any_of (fun key => rec (get_link_target (fst r) (link_col l)) key (S (length st)))
         (get_linklist (fst r) (snd r) (link_col l)) s1) = Ok (b, s') /\
      answers (st ++ [y]) s1 b s'
          (forall key, key ∈ keys -> not_found (st ++ [y]) s' (get_link_target (fst r) (link_col l), key))
          (exists key, key ∈ keys /\ found_from (st ++ [y]) (get_link_target (fst r) (link_col l), key)))
      as (b & s2 & keys & Ek & -> & [Hs2 Hfl2 Hr2 Ht Hn]).
    { assert (exists keys, children r l = (fun key => (get_link_target (fst r) (link_col l), key)) <$> keys /\
        keys = (if is_list l then get_linklist (fst r) (snd r) (link_col l)
          else match get_link (fst r) (snd r) (link_col l) with Some key => [key] | None => [] end)) as (keys & Ek & E)
        by (by eexists).
      destruct (Hany keys) as (b & s' & Eany & Hans); [intros key Hin; rewrite Ek; by apply list_elem_of_fmap_2|].
      exists b, s', keys. split; [done|]. split; [|done]. rewrite <- Eany, E.
      destruct (is_list l); [done|]. simpl. destruct (get_link _ _ _) as [dst|]; [|done]. cbn [any_of].
      destruct (rec _ dst _ s1) as [[[] s3]|e]; done. }
    rewrite length_app in Hfl2. simpl in Hfl2.
    exists b, s2. split; [done|]. split; [by apply on_path_pop with y| |done| |].
    + eapply flags_trans; [done|]. eapply flags_weaken; [|done]. lia.
    + intros Hb. destruct (Ht Hb) as (key & Hin & Hfound). eexists. split; [|done]. rewrite Ek. by apply list_elem_of_fmap_2.
    + intros Hb i ls r' x Hx Hw Hse Hm. left. rewrite Ek in Hx. apply list_elem_of_fmap in Hx as (key & -> & Hkey).
      apply (Hn Hb key Hkey i ls r' Hw); [|done]. rewrite length_app, Nat.add_1_r. by apply searched_step.
Qed.

(** When all links of an unmodified object led to nothing, walks from it are cut. *)
Lemma links_not_found s :
  (forall l, l ∈ row_links r -> link_not_found st r s l) -> ~ modified_row r -> not_found st s r.
Proof.
  intros Hl Hr i ls. remember (length ls) as n eqn:En. revert ls En.
  induction (lt_wf n) as [n _ IH]. intros ls -> r' Hw Hse Hm. inversion Hw as [|r0 l x ls' r1 Hin Hx Hw']; subst; [done|].
  cbn [length] in Hse. destruct (Hl l Hin i ls' r' x Hx Hw' Hse Hm) as [(y & j & Hy & Hj & Ey)|(m & Hi & Em)].
  2: { exists (r, link_col l), m. split; [by left|done]. }
  apply lookup_app_Some in Ey as [Ey|[Hj' Ey]].
  - exists y, j. split; [by right|done].
  - apply list_lookup_singleton_Some in Ey as [_ <-].
    destruct (walk_suffix _ _ _ _ Hw' Hy) as (ls'' & Hw'' & Hlen & Hsub). simpl in Hw''.
    destruct (IH (length ls'')) with ls'' r' as (z & k & Hz & Hk & Ez); [simpl; lia|done|done| |done|].
    + eapply searched_less; [|exact Hse]. lia.
    + exists z, k. split; [right; auto|done].
Qed.

Lemma found_through l x : l ∈ row_links r -> x ∈ children r l -> found_from (st ++ [(r, link_col l)]) x -> found_from st r.
Proof.
  intros Hl Hx (ls & r' & Hw & Hlen & Hm). rewrite length_app in Hlen. simpl in Hlen.
  exists ((r, link_col l) :: ls), r'. split; [by econstructor|]. simpl. split; [lia|done].
Qed.

Lemma outgoing_spec s :
  on_path st s -> remembered s -> has_object (fst r) (snd r) = true -> ~ modified_row r ->
  exists b s', check_outgoing_links related rec (fst r) (snd r) (length st) s = Ok (b, s') /\
    answers st s b s' (not_found st s' r) (found_from st r).
Proof.
  intros Hs Hr Ho Hm. unfold check_outgoing_links. pose proof (links_not_found s) as Hnone.
  unfold row_links in Hnone. destruct (find_related related (fst r)) as [t|] eqn:Et.
  2: { exists false, s. split; [done|]. split; try done; [apply flags_refl|]. intros _. apply Hnone; [|done]. by intros l ?%elem_of_nil. }
  destruct (links t) as [|l0 ls0] eqn:El.
  { exists false, s. split; [done|]. split; try done; [apply flags_refl|]. intros _. apply Hnone; [|done]. by intros l ?%elem_of_nil. }
  rewrite Ho, <- El.
  assert (row_links r = links t) as Erow by (unfold row_links; by rewrite Et). rewrite <- Erow.
  destruct (any_of_answers st (linked_object_changed rec (fst r) (snd r) (length st)) (link_not_found st r)
    (fun l => exists x, x ∈ children r l /\ found_from (st ++ [(r, link_col l)]) x) (row_links r) s)
    as (b & s' & -> & [Hs' Hfl Hr' Ht Hn]); [|by intros; apply linked_object_spec|done|done|].
  - intros l s1 s2 Hfl Hl i ls r' x Hx Hw Hse Hm'. eapply Hl; [done..| |done]. by eapply searched_before.
  - exists b, s'. split; [done|]. split; try done.
    + intros Hb. destruct (Ht Hb) as (l & Hl & x & Hx & Hf). by eapply found_through.
    + intros Hb. apply links_not_found; [by apply Hn|done].
Qed.
End links.

Lemma searched_3 d i s n : searched d i s n -> (n <= 3)%nat.
Proof. intros [[_ ?]|(_ & _ & ?)]; lia. Qed.

Lemma search_row_spec fuel st r s :
  (max_depth <= fuel + length st)%nat ->
  on_path st s -> remembered s -> has_object (fst r) (snd r) = true -> (length st = 0%nat -> ~ modified_row r) ->
  exists b s', check_row info related fuel (fst r) (snd r) (length st) s = Ok (b, s') /\
    answers st s b s' (not_found st s' r) (found_from st r).
Proof.
  revert st r s. induction fuel as [|fuel IH]; intros st r s Hfuel Hs Hr Ho Hroot; cbn [check_row].
  all: destruct (Nat.leb_spec max_depth (length st)) as [Hdeep|Hroom]; [|try lia].
  1, 2: destruct (exceed_all st s Hs) as (Hs' & Hfl & Hall); eexists _, _; split; [done|]; split; try done;
    intros _ i ls r' _ [[-> ?]|(Hi & He & _)] _; [unfold max_depth in *; lia|];
    destruct Hs as (_ & Hle & _); rewrite Hall in He by lia; done.
  assert (modified_row r \/ ~ modified_row r) as [Hm|Hm] by (unfold modified_row; destruct (is_modified _ _ _); auto).
  { assert (length st <> 0%nat) as Hne by (intros E; by apply Hroot).
    assert ((0 <? length st)%nat && is_modified info (fst r) (snd r) = true) as ->.
    { rewrite Hm, andb_true_r. apply Nat.ltb_lt. lia. }
    exists true, s. split; [done|]. split; try done; [apply flags_refl|]. intros _. exists [], r.
    split; [constructor|]. simpl. unfold max_depth in *. split; [lia|done]. }
  assert ((0 <? length st)%nat && is_modified info (fst r) (snd r) = false) as ->.
  { unfold modified_row in Hm. destruct (is_modified info (fst r) (snd r)); [done|by rewrite andb_false_r]. }
  rewrite <- (surjective_pairing r). case_decide as Hin.
  { exists false, s. split; [done|]. split; try done; [apply flags_refl|].
    intros _ i ls r' Hw Hse Hm'. destruct (Hr r Hin). exists ls, r'. split_and!; [done|by eapply searched_3|done]. }
  destruct (outgoing_spec (check_row info related fuel) st r Hroom) with s as (b & s' & -> & [Hs' Hfl Hr' Ht Hn]); try done.
  { intros y x s0 Hs0 Hr0 Hx.
    destruct (IH (st ++ [y]) x s0) as (b & s' & E & Ha); try done; [rewrite length_app; simpl; lia|rewrite length_app; simpl; lia|].
    rewrite length_app, Nat.add_1_r in E. by exists b, s'. }
  cbn [mbind result_bind]. destruct b; cbn [negb andb]; [exists true, s'; by split|]. specialize (Hn eq_refl).
  destruct ((length st =? 0)%nat || negb (exceeded_at (pred (length st)) s')) eqn:Ec; [|exists false, s'; by split].
  eexists _, _. split; [done|]. split; try done. intros x [->%elem_of_singleton|Hx]%elem_of_union; [|by apply Hr'].
  intros (ls & r' & Hw & Hlen & Hm'). destruct (Hn (length st) ls r' Hw) as (y & j & _ & Hj & Ey); [|done|].
  - destruct (Nat.eqb_spec (length st) 0) as [E0|E0]; [left; lia|]. right. split; [lia|]. split; [|done].
    simpl in Ec. by apply negb_true_iff.
  - apply lookup_lt_Some in Ey. lia.
Qed.

(** ** Sequences of checks *)

Lemma checker_start : on_path [] make_checker /\ remembered make_checker.
Proof. split; [split; [done|split; [simpl; lia|by intros]]|by intros r ?%elem_of_empty]. Qed.

Lemma check_object_spec root key s :
  on_path [] s -> remembered s -> has_object root key = true ->
  exists b s', check_object info related root key s = Ok (b, s') /\ on_path [] s' /\ remembered s' /\
    (b = true <-> reaches_modified 3 (root, key)).
Proof.
  intros Hs Hr Ho. unfold check_object. destruct (is_modified info root key) eqn:Em.
  - exists true, s. split_and!; try done. split; [|done]. intros _. exists [], (root, key).
    split; [constructor|]. split; [simpl; lia|done].
  - destruct (search_row_spec max_depth [] (root, key) s) as (b & s' & E & [Hs' _ Hr' Ht Hn]); try done.
    { by intros _ ?%(eq_trans (eq_sym Em)). }
    exists b, s'. split_and!; try done. destruct b.
    + split; [|done]. intros _. destruct (Ht eq_refl) as (ls & r' & ? & ? & ?). by exists ls, r'.
    + split; [done|]. intros (ls & r' & Hw & Hlen & Hm).
      destruct (Hn eq_refl 0%nat ls r' Hw) as (y & j & _ & _ & Ey); [left; simpl; lia|done|]. done.
Qed.
End deep.

(** ** The search in the tables of a group *)

(** What is known of the tables: links lead to objects. *)
Class LinkedTables `{Tables} : Prop := {
  targets_exist : forall r l x, l ∈ table_links (fst r) -> x ∈ children r l -> has_object (fst x) (snd x) = true
}.

(** No two tables share a column key.  A [ColKey] has a tag to tell columns apart, but nothing says
    that those of different tables differ; the checker takes an object and a column for the one it
    came through without looking at the table (see [shared_column_keys_cut]). *)
Class ColumnsApart `{Tables} : Prop :=
  columns_of_one_table : forall t1 t2 col, col ∈ get_column_keys t1 -> col ∈ get_column_keys t2 -> t1 = t2.

(** An object was modified, or links to one that reaches a modified one over fewer links. *)
Fixpoint reaches `{Tables} (info : TransactionChangeInfo) (n : nat) (r : row) : Prop :=
  modified_row info r \/
  match n with
  | O => False
  | S n => exists l x, l ∈ table_links (fst r) /\ x ∈ children r l /\ reaches info n x
  end.

Section group.
Context `{LinkedTables} (info : TransactionChangeInfo).

(** Related tables that have the links of the tables, as far as they go. *)
Definition related_ok (root : TableKey) related : Prop :=
  (forall t, rtc links_to root t -> find_related related t = Some (Related t (table_links t))) /\
  forall t r, find_related related t = Some r -> links r = table_links t.

Lemma table_link_col t l : l ∈ table_links t -> link_col l ∈ get_column_keys t /\ outgoing_link t (link_col l) = Some l.
Proof.
  unfold table_links. rewrite list_elem_of_omap. intros (col & Hc & Ho).
  assert (link_col l = col) as ->; [|done]. unfold outgoing_link in Ho. by destruct (get_column_type t col); simplify_eq/=.
Qed.

(** Whatever the column keys, what is found is there. *)
Lemma any_of_sound {B S} (f : B -> S -> result (bool * S)) (P : B -> Prop) l s :
  (forall x s, x ∈ l -> exists b s', f x s = Ok (b, s') /\ (b = true -> P x)) ->
  exists b s', any_of f l s = Ok (b, s') /\ (b = true -> exists x, x ∈ l /\ P x).
Proof.
  revert s. induction l as [|x l IH]; intros s Hf; cbn [any_of]; [by exists false, s|].
  destruct (Hf x s ltac:(left)) as (b & s1 & -> & Hb). cbn [mbind result_bind]. destruct b.
  - exists true, s1. split; [done|]. intros _. exists x. split; [left|by apply Hb].
  - destruct (IH s1) as (b & s' & -> & Hb'); [intros; apply Hf; by right|]. exists b, s'. split; [done|].
    intros (y & Hy & HP)%Hb'. exists y. split; [by right|done].
Qed.

Lemma check_row_sound root related fuel r depth s :
  related_ok root related -> has_object (fst r) (snd r) = true -> (max_depth <= fuel + depth)%nat ->
  exists b s', check_row info related fuel (fst r) (snd r) depth s = Ok (b, s') /\
    (b = true -> (depth <= 3)%nat /\ reaches info (3 - depth) r).
Proof.
  intros [_ Hrel]. revert r depth s. induction fuel as [|fuel IH]; intros r depth s Ho Hfuel; cbn [check_row].
  all: destruct (Nat.leb_spec max_depth depth) as [Hdeep|Hroom]; [by eexists _, _; split|unfold max_depth in *; try lia].
  destruct ((0 <? depth)%nat && is_modified info (fst r) (snd r)) eqn:Em.
  { apply andb_true_iff in Em as [_ Em]. exists true, s. split; [done|]. intros _. split; [lia|]. destruct (3 - depth)%nat; by left. }
  case_decide; [by exists false, s|]. assert (exists b s', check_outgoing_links related (check_row info related fuel) (fst r) (snd r) depth s = Ok (b, s') /\
    (b = true -> (depth <= 3)%nat /\ reaches info (3 - depth) r)) as (b & s1 & -> & Hb).
  2: { cbn [mbind result_bind]. destruct (negb b && _); eexists b, _; (split; [done|exact Hb]). }
  unfold check_outgoing_links. destruct (find_related related (fst r)) as [t|] eqn:Et; [|by exists false, s].
  pose proof (Hrel _ _ Et) as El. destruct (links t) as [|l0 ls0] eqn:Els; [by exists false, s|]. rewrite Ho, <- Els, (Hrel _ _ Et).
  assert (forall l x, l ∈ table_links (fst r) -> x ∈ children r l -> forall s,
    exists b s', check_row info related fuel (fst x) (snd x) (S depth) s = Ok (b, s') /\ (b = true -> (depth <= 3)%nat /\ reaches info (3 - depth) r)) as Hchild.
  { intros l x Hl Hx s2. destruct (IH x (S depth) s2) as (b & s' & E & Hb); [by eapply targets_exist|lia|]. exists b, s'. split; [done|].
    intros [Hd Hre]%Hb. split; [lia|]. replace (3 - depth)%nat with (S (3 - S depth)) by lia. right. by exists l, x. }
  destruct (any_of_sound (linked_object_changed (check_row info related fuel) (fst r) (snd r) depth)
    (fun _ => (depth <= 3)%nat /\ reaches info (3 - depth) r) (table_links (fst r)) s) as (b & s' & -> & Hb).
  2: { exists b, s'. split; [done|]. by intros (? & _ & ?)%Hb. }
  intros l s2 Hl. unfold linked_object_changed. destruct (already_checking _ _ _ _) as [[] s3]; [by exists false, s3|].
  pose proof (fun x => Hchild l x Hl) as Hc. unfold children in Hc. destruct (is_list l); cbn [negb].
  - destruct (any_of_sound (fun key => check_row info related fuel (get_link_target (fst r) (link_col l)) key (S depth))
      (fun _ => (depth <= 3)%nat /\ reaches info (3 - depth) r) (get_linklist (fst r) (snd r) (link_col l)) s3) as (b & s' & -> & Hb).
    { intros key s4 Hk. apply (Hc (get_link_target (fst r) (link_col l), key)). by apply list_elem_of_fmap_2. }
    exists b, s'. split; [done|]. by intros (? & _ & ?)%Hb.
  - destruct (get_link _ _ _) as [dst|]; [|by exists false, s3].
    apply (Hc (get_link_target (fst r) (link_col l), dst)). by left.
Qed.

Lemma check_object_sound root related key s :
  related_ok root related -> has_object root key = true ->
  exists b s', check_object info related root key s = Ok (b, s') /\ True /\ (b = true -> reaches info 3 (root, key)).
Proof.
  intros Hok Ho. unfold check_object. destruct (is_modified info root key) eqn:Em; [exists true, s; split_and!; [done|done|by left]|].
  destruct (check_row_sound root related max_depth (root, key) 0 s Hok Ho) as (b & s' & E & Hb); [lia|].
  exists b, s'. split_and!; [done|done|]. by intros [_ ?]%Hb.
Qed.

Lemma reaches_walk root related n r :
  related_ok root related -> rtc links_to root (fst r) ->
  reaches_modified info related n r <-> reaches info n r.
Proof.
  intros [Hl _]. unfold reaches_modified. revert r. induction n as [|n IH]; intros r Hr; cbn [reaches].
  - split.
    + intros (ls & r' & Hw & Hlen & Hm). destruct ls; [|simpl in Hlen; lia]. inversion Hw; subst. by left.
    + intros [Hm|[]]. exists [], r. split; [constructor|]. by split.
  - assert (row_links related r = table_links (fst r)) as El by (unfold row_links; by rewrite Hl). split.
    + intros (ls & r' & Hw & Hlen & Hm). inversion Hw as [|r0 l x ls' r1 Hin Hx Hw']; subst; [by left|].
      right. exists l, x. rewrite <- El. split_and!; [done|done|]. apply IH.
      * eapply rtc_r; [done|]. exists l. rewrite <- El. split; [done|]. by apply list_elem_of_fmap in Hx as (? & -> & _).
      * exists ls', r'. simpl in Hlen. split_and!; [done|lia|done].
    + intros [Hm|(l & x & Hin & Hx & Hn)]; [exists [], r; split; [constructor|split; [simpl; lia|done]]|].
      apply IH in Hn as (ls & r' & Hw & Hlen & Hm).
      * exists ((r, link_col l) :: ls), r'. split; [econstructor; [by rewrite El|done..]|]. simpl. split; [lia|done].
      * eapply rtc_r; [done|]. exists l. split; [done|]. by apply list_elem_of_fmap in Hx as (? & -> & _).
Qed.

Lemma find_related_In related t r : NoDup (keys_of related) -> r ∈ related -> related_key r = t -> find_related related t = Some r.
Proof.
  unfold find_related. induction related as [|a related IH]; [by intros _ ?%elem_of_nil|].
  intros [Ha Hn]%NoDup_cons [->|Hr]%elem_of_cons Et; cbn [List.find].
  - by rewrite Et, Z.eqb_refl.
  - destruct (Z.eqb_spec (related_key a) t) as [Ea|]; [|by apply IH].
    destruct Ha. fold (keys_of related). rewrite Ea, <- Et. by apply list_elem_of_fmap_2.
Qed.

Lemma set_table_ok (all : gset Z) root :
  (forall t1 t2, t1 ∈ all -> links_to t1 t2 -> t2 ∈ all) -> root ∈ all ->
  exists related, set_table (size all) root = Ok related /\ related_ok root related /\
    forall t, t ∈ keys_of related <-> rtc links_to root t.
Proof.
  intros Hc Hr. destruct (find_related_spec all Hc (size all) [] root) as (related & E & Hco & Hin);
    [constructor|done|unfold missing; apply subseteq_size; set_solver|].
  cbn [app] in *. exists related. pose proof (fun t => collects_reached all root related t Hco Hin) as Hall.
  destruct Hco as [H1 _ H3 _ _]. split; [done|]. split; [split|done].
  - intros t (r & -> & Hr')%Hall%list_elem_of_fmap. rewrite (find_related_In related _ _ H1 Hr' eq_refl).
    f_equal. rewrite <- H3 by done. by destruct r.
  - intros t r Ef. unfold find_related in Ef. apply List.find_some in Ef as [Hr' <-%Z.eqb_eq].
    apply H3. by apply list_elem_of_In.
Qed.

Context {apart : ColumnsApart}.

Lemma related_searchable root related : related_ok root related -> SearchableLinks related.
Proof.
  intros [_ Hl]. assert (forall r l, l ∈ row_links related r -> l ∈ table_links (fst r)) as Hrow.
  { intros r l. unfold row_links. destruct (find_related related (fst r)) as [t|] eqn:E; [by rewrite (Hl _ _ E)|by intros ?%elem_of_nil]. }
  split.
  - intros r l x Hin. by apply targets_exist, Hrow.
  - intros t1 t2 l1 l2 H1%Hrow H2%Hrow Ec. simpl in *. apply table_link_col in H1 as [H1 O1]. apply table_link_col in H2 as [H2 O2].
    rewrite Ec in H1, O1. assert (t1 = t2) as <- by (by eapply columns_of_one_table). split; [done|]. congruence.
Qed.

(** The deep check from the states it can be in. *)
Definition searching related s : Prop := on_path related [] s /\ remembered info related s.

Lemma searching_start related : searching related make_checker.
Proof. apply checker_start. Qed.

Lemma deep_oracle root related :
  related_ok root related ->
  ExactOracle (check_object info related root) (searching related) (fun key => has_object root key = true)
    (fun key => reaches info 3 (root, key)).
Proof.
  intros Hok key s [Hs Hr] Ho. pose proof (related_searchable root related Hok) as Hse.
  destruct (check_object_spec info related root key s Hs Hr Ho) as (b & s' & E & Hs' & Hr' & Hb).
  exists b, s'. split_and!; [done|done|]. rewrite Hb. by apply (reaches_walk root).
Qed.
End group.

(** ** Theorems *)

(** C18: one checker, asked about any sequence of objects of its root table, gives an answer for
    each, and only says of an object that it changed if it was modified or links, over at most three
    links, to an object that was.  When no two tables share a column key, it says so of every such
    object: then the limited depth, the cycles it cuts and what it remembers between the checks
    never change an answer.  The objects exist, and links lead to objects.  The number of tables of
    the group is enough for the related tables, the depth of the current path for the search. *)
Theorem deep_check_exact `{LinkedTables} info (all : gset Z) root keys :
  (forall t1 t2, t1 ∈ all -> links_to t1 t2 -> t2 ∈ all) -> root ∈ all ->
  Forall (fun key => has_object root key = true) keys ->
  exists related bs, set_table (size all) root = Ok related /\
    ask_all (check_object info related root) keys make_checker = Ok bs /\
    Forall2 (fun key b => b = true -> reaches info 3 (root, key)) keys bs /\
    (ColumnsApart -> Forall2 (fun key b => b = true <-> reaches info 3 (root, key)) keys bs).
Proof.
  intros Hc Hr Hk. destruct (set_table_ok all root Hc Hr) as (related & E & Hok & _).
  destruct (ask_all_answers (check_object info related root) (fun _ => True) (fun key => has_object root key = true)
    (fun key b => b = true -> reaches info 3 (root, key)) keys make_checker) as (bs & Eb & Hbs); [|done|done|].
  { intros key s _ Ho. by apply check_object_sound. }
  exists related, bs. split_and!; [done..|]. intros Ha. pose proof (deep_oracle info root related Hok) as Ho.
  destruct (ask_all_exact _ _ _ _ keys make_checker (searching_start info related) Hk) as (bs' & Eb' & Hbs').
  rewrite Eb in Eb'. injection Eb' as ->. exact Hbs'.
Qed.

(** Person 6 was modified. *)
Definition sample_changes : TransactionChangeInfo :=
  ChangeInfo [] {[1 := modifications_add 6 10 no_object_changes]} false false.

Import SampleTables.

#[export] Instance sample_linked : LinkedTables.
Proof.
  split. intros [t k] l x _ (key & -> & Hk)%list_elem_of_fmap. cbn in *.
  assert (1 <= key <= 6) as Hb; [|by rewrite andb_true_iff, !Z.leb_le].
  destruct (is_list l).
    + destruct ((1 <=? k) && (k <? 6)) eqn:E; [|by apply elem_of_nil in Hk].
      apply andb_true_iff in E as [E1 E2]; apply Z.leb_le in E1; apply Z.ltb_lt in E2. apply elem_of_cons in Hk as [Hk|Hk%list_elem_of_singleton]; subst key; lia.
    + destruct (t =? 1), (k =? 1); try (by apply elem_of_nil in Hk); apply list_elem_of_singleton in Hk; lia.
Qed.

#[export] Instance sample_apart : ColumnsApart.
Proof.
  intros t1 t2 col. cbn. destruct (Z.eqb_spec t1 1), (Z.eqb_spec t2 1), (Z.eqb_spec t1 2), (Z.eqb_spec t2 2),
    (Z.eqb_spec t1 3), (Z.eqb_spec t2 3); rewrite ?elem_of_cons, ?elem_of_nil; lia.
Qed.

Lemma deep_check_exact_witness :
  exists related, set_table (size ({[1; 2; 3]} : gset Z)) 1 = Ok related /\
    ask_all (check_object sample_changes related 1) [2; 3; 4; 5; 1; 6] make_checker = Ok [false; true; true; true; false; true] /\
    Forall2 (fun key b => b = true <-> reaches sample_changes 3 (1, key)) [2; 3; 4; 5; 1; 6] [false; true; true; true; false; true].
Proof.
  destruct (deep_check_exact sample_changes ({[1; 2; 3]} : gset Z) 1 [2; 3; 4; 5; 1; 6]) as (related & bs & E & Eb & _ & Hf).
  - intros t1 t2 _ (l & _ & <-). cbn [get_link_target sample_tables]. destruct (link_col l =? 11); set_solver.
  - set_solver.
  - repeat constructor.
  - assert ((related ← set_table (size ({[1; 2; 3]} : gset Z)) 1;
      ask_all (check_object sample_changes related 1) [2; 3; 4; 5; 1; 6] make_checker) = Ok [false; true; true; true; false; true]) as Hx
      by (vm_compute; reflexivity).
    rewrite E in Hx. cbn [mbind result_bind] in Hx. rewrite Eb in Hx. injection Hx as ->. exists related.
    split; [exact E|]. split; [exact Eb|exact (Hf sample_apart)].
Defined.

(** *** The modification checker *)

Section modification.
Context `{LinkedTables} {apart : ColumnsApart} (info : TransactionChangeInfo).

Lemma modified_in_table r : modified_row info r -> exists c, tables info !! fst r = Some c /\ modifications_empty c = false.
Proof.
  unfold modified_row, is_modified. destruct (tables info !! fst r) as [c|]; [|done]. intros Hm. exists c. split; [done|].
  apply bool_decide_eq_false. unfold modifications_contains in Hm. apply bool_decide_eq_true in Hm as [cols Hc].
  intros E. by rewrite E in Hc.
Qed.

(** What is reached is in a related table. *)
Lemma reaches_table root n r :
  rtc links_to root (fst r) -> reaches info n r -> exists t c, rtc links_to root t /\ tables info !! t = Some c /\
    modifications_empty c = false.
Proof.
  revert r. induction n as [|n IH]; intros r Hr; cbn [reaches]; intros [(c & Ec & He)%modified_in_table|Hn];
    try (by exists (fst r), c); [done|]. destruct Hn as (l & x & Hl & Hx & Hn). apply IH in Hn; [done|].
  eapply rtc_r; [done|]. exists l. split; [done|]. by apply list_elem_of_fmap in Hx as (? & -> & _).
Qed.

Lemma reaches_no_links n r : table_links (fst r) = [] -> reaches info n r <-> modified_row info r.
Proof.
  intros Hl. destruct n as [|n]; cbn [reaches]; [tauto|]. split; [|by left].
  intros [?|(l & x & Hin & _)]; [done|]. rewrite Hl in Hin. by apply elem_of_nil in Hin.
Qed.

Lemma any_table_modified related :
  existsb (table_modified info) related = true <->
  exists t c, t ∈ keys_of related /\ tables info !! t = Some c /\ modifications_empty c = false.
Proof.
  rewrite existsb_exists. unfold table_modified. split.
  - intros (r & Hr%list_elem_of_In & Hm). destruct (tables info !! related_key r) as [c|] eqn:E; [|done].
    exists (related_key r), c. apply negb_true_iff in Hm. split; [|done]. by apply list_elem_of_fmap_2.
  - intros (t & c & (r & -> & Hr)%list_elem_of_fmap & E & He). exists r. rewrite E, He. split; [|done]. by apply list_elem_of_In.
Qed.

(** Whichever function is chosen, it answers as the deep check does. *)
Lemma checker_oracle (all : gset Z) root related :
  (forall t1 t2, t1 ∈ all -> links_to t1 t2 -> t2 ∈ all) -> root ∈ all ->
  schema_changed info = true \/ set_table (size all) root = Ok related -> ~ links_to root root ->
  exists checker ok, get_modification_checker (size all) info related root = Ok checker /\
    set_table (size all) root = Ok (fst checker) /\ ok make_checker /\
    ExactOracle (object_did_change info root checker) ok (fun key => has_object root key = true)
      (fun key => reaches info 3 (root, key)).
Proof.
  intros Hc Hr Hrel Hself. destruct (set_table_ok all root Hc Hr) as (related' & E & Hok & Hreach).
  unfold get_modification_checker.
  assert ((if schema_changed info then set_table (size all) root else Ok related) = Ok related') as ->.
  { destruct (schema_changed info); [done|]. destruct Hrel as [?|Hrel]; congruence. }
  cbn [mbind result_bind]. destruct (existsb _ related') eqn:Ee; cbn [negb].
  - apply any_table_modified in Ee as (t & c & Ht & Ec & Hm).
    assert (exists m, match related' with
      | [r] => match tables info !! related_key r with Some c => Ok (related', OneTable c) | None => Err OutOfBounds end
      | _ => Ok (related', DeepCheck) end = Ok (related', m) /\
      (m = DeepCheck \/ m = OneTable c /\ t = root /\ table_links root = [])) as (m & -> & Hmc).
    { destruct related' as [|r [|r2 l]]; try (eexists; by split; [|left]).
      unfold keys_of in Ht. apply list_elem_of_singleton in Ht as ->. rewrite Ec. exists (OneTable c). split; [done|]. right.
      assert (related_key r = root) as Ekey.
      { assert (root ∈ keys_of [r]) as Hroot by (apply Hreach; constructor). by apply list_elem_of_singleton in Hroot. }
      split; [done|]. split; [done|]. destruct (table_links root) as [|l ls] eqn:El; [done|]. destruct Hself.
      assert (links_to root (get_link_target root (link_col l))) as Hlt by (exists l; rewrite El; split; [by left|done]).
      assert (get_link_target root (link_col l) ∈ keys_of [r]) as Hin by (apply Hreach; by eapply rtc_once).
      apply list_elem_of_singleton in Hin. rewrite Hin in Hlt. by rewrite Ekey in Hlt. }
    destruct Hmc as [->|(-> & -> & Hno)].
    + exists (related', DeepCheck), (searching info related'). split_and!; [done|done|by apply searching_start|].
      by apply deep_oracle.
    + exists (related', OneTable c), (fun _ => True). split_and!; [done|done|done|]. intros key s _ _.
      exists (modifications_contains c key), s. split_and!; [done|done|]. rewrite reaches_no_links by done.
      unfold modified_row, is_modified. simpl. by rewrite Ec.
  - exists (related', NothingModified), (fun _ => True). split_and!; [done|done|done|]. intros key s _ _.
    exists false, s. split_and!; [done|done|].
    split; [done|]. intros (t & c & Ht & Ec & Hm)%(reaches_table root); [|constructor].
    apply not_true_iff_false in Ee. destruct Ee. apply any_table_modified. exists t, c. by rewrite Hreach.
Qed.
End modification.

(** The function that a notifier uses to tell which objects changed is the deep check in all
    of its three forms, when the related tables are up to date or the schema changed, and the
    table of the objects does not link to itself. *)
Theorem modification_checker_exact `{LinkedTables, !ColumnsApart} info (all : gset Z) root related keys :
  (forall t1 t2, t1 ∈ all -> links_to t1 t2 -> t2 ∈ all) -> root ∈ all ->
  Forall (fun key => has_object root key = true) keys ->
  schema_changed info = true \/ set_table (size all) root = Ok related -> ~ links_to root root ->
  exists checker bs, get_modification_checker (size all) info related root = Ok checker /\
    ask_all (object_did_change info root checker) keys make_checker = Ok bs /\
    Forall2 (fun key b => b = true <-> reaches info 3 (root, key)) keys bs.
Proof.
  intros Hc Hr Hk Hrel Hself. destruct (checker_oracle info all root related Hc Hr Hrel Hself) as (checker & ok & E & _ & Hok & Ho).
  destruct (ask_all_exact _ _ _ _ keys make_checker Hok Hk) as (bs & Eb & Hbs). by exists checker, bs.
Qed.

Definition sample_update : TransactionChangeInfo := ChangeInfo [] (tables sample_changes) false true.

Lemma modification_checker_exact_witness :
  exists checker bs, get_modification_checker (size ({[1; 2; 3]} : gset Z)) sample_update [] 2 = Ok checker /\
    ask_all (object_did_change sample_update 2 checker) [1; 2] make_checker = Ok bs /\ bs = [false; false] /\
    Forall2 (fun key b => b = true <-> reaches sample_update 3 (2, key)) [1; 2] bs.
Proof.
  destruct (modification_checker_exact sample_update ({[1; 2; 3]} : gset Z) 2 [] [1; 2]) as (checker & bs & E & Eb & Hf).
  - intros t1 t2 _ (l & _ & <-). cbn [get_link_target sample_tables]. destruct (link_col l =? 11); set_solver.
  - set_solver.
  - repeat constructor.
  - by left.
  - intros (l & Hl & Ht). vm_compute in Hl. apply list_elem_of_singleton in Hl. subst l. vm_compute in Ht. discriminate.
  - assert ((checker ← get_modification_checker (size ({[1; 2; 3]} : gset Z)) sample_update [] 2;
      ask_all (object_did_change sample_update 2 checker) [1; 2] make_checker) = Ok [false; false]) as Hx by (vm_compute; reflexivity).
    rewrite E in Hx. cbn [mbind result_bind] in Hx. exists checker, bs. split; [exact E|]. split; [exact Eb|].
    split; [congruence|exact Hf].
Defined.

(** Persons (table 5) that know each other: 1 knows 2, who was modified. *)
Module SelfLinked.
#[export] Instance self_linked_tables : Tables := {|
  get_column_keys t := if t =? 5 then [50] else [];
  get_column_type t col := type_LinkList;
  get_link_target t col := 5;
  has_object t key := true;
  get_link t key col := None;
  get_linklist t key col := if key =? 1 then [2] else []
|}.

Definition changes_of_2 : TransactionChangeInfo :=
  ChangeInfo [] {[5 := modifications_add 2 51 no_object_changes]} false false.
End SelfLinked.

Import SelfLinked.

(** A table that links only to itself is its only related table, and then only the objects'
    own modifications are looked up: person 1, who knows the modified person 2, is not reported,
    though the deep check finds it. *)
Theorem self_links_not_followed :
  exists related c s, @set_table self_linked_tables 1 5 = Ok related /\
    @get_modification_checker self_linked_tables 1 changes_of_2 related 5 = Ok (related, OneTable c) /\
    @object_did_change self_linked_tables changes_of_2 5 (related, OneTable c) 1 make_checker = Ok (false, make_checker) /\
    @check_object self_linked_tables changes_of_2 related 5 1 make_checker = Ok (true, s) /\
    @reaches self_linked_tables changes_of_2 1 (5, 1).
Proof.
  eexists _, _, _. split; [vm_compute; reflexivity|]. split; [vm_compute; reflexivity|].
  split; [vm_compute; reflexivity|]. split; [vm_compute; reflexivity|].
  right. exists (Link 50 true), (5, 2). split; [vm_compute; left|]. split; [vm_compute; left|]. left. vm_compute. reflexivity.
Qed.

(** Two tables with the same column key 7: the object 5 of table 1 links to the object 5 of table 2,
    and that to the object 6 of table 3, which was modified. *)
Module SharedColumn.
#[export] Instance shared_column_tables : Tables := {|
  get_column_keys t := if (t =? 1) || (t =? 2) then [7] else [];
  get_column_type t col := type_Link;
  get_link_target t col := t + 1;
  has_object t key := true;
  get_link t key col := if t =? 1 then Some 5 else Some 6;
  get_linklist t key col := []
|}.

Definition changes_of_6 : TransactionChangeInfo :=
  ChangeInfo [] {[3 := modifications_add 6 70 no_object_changes]} false false.
End SharedColumn.

Import SharedColumn.

(** The path through the object 5 and the column 7 of table 1 is taken for one through those of
    table 2: the search is cut, and the modified object is not found. *)
Theorem shared_column_keys_cut :
  exists related s, @set_table shared_column_tables 3 1 = Ok related /\
    @check_object shared_column_tables changes_of_6 related 1 5 make_checker = Ok (false, s) /\
    @reaches shared_column_tables changes_of_6 2 (1, 5).
Proof.
  eexists _, _. split; [vm_compute; reflexivity|]. split; [vm_compute; reflexivity|].
  right. exists (Link 7 false), (2, 5). split; [vm_compute; left|]. split; [vm_compute; left|].
  right. exists (Link 7 false), (3, 6). split; [vm_compute; left|]. split; [vm_compute; left|]. left. vm_compute. reflexivity.
Qed.
