(* ===== verification/CollectionNotifier.v ===== *)
(** The callbacks of [CollectionNotifier], in [collection_notifier.cpp]: their registration, the
    changes accumulated for each, and the delivery, during which a callback may add and remove
    callbacks.

    The mutex is always held around the state; [for_each_callback] releases it only for the call
    itself, so the calls that a callback makes on the same thread are the interleaving modelled.
    A moved-from vector or map is empty. *)

From S2P Require Import Prelude ChunkedRangeVector IndexSetMerge ChangeBuilder.

(** ** State *)

Record Callback := MkCallback {
  token : Z;
  accumulated_changes : CollectionChangeBuilder;
  changes_to_deliver : CollectionChangeSet;
  initial_delivered : bool;
  skip_next : bool
}.

(** [m_callback_index] and [m_callback_count] are of type [size_t], and -1 at first. *)
Record CollectionNotifier := Notifier {
  m_change : CollectionChangeBuilder;
  m_has_run : bool;
  m_error : bool;
  m_callbacks : list Callback;
  m_have_callbacks : bool;
  m_callback_index : Z;
  m_callback_count : Z;
  m_next_token : Z
}.

Definition new_notifier : CollectionNotifier := Notifier empty_builder false false [] false npos npos 0.

Implicit Types (n : CollectionNotifier) (cb : Callback).

Definition with_callbacks l n : CollectionNotifier :=
  Notifier (m_change n) (m_has_run n) (m_error n) l (m_have_callbacks n) (m_callback_index n) (m_callback_count n) (m_next_token n).
Definition with_have_callbacks b n : CollectionNotifier :=
  Notifier (m_change n) (m_has_run n) (m_error n) (m_callbacks n) b (m_callback_index n) (m_callback_count n) (m_next_token n).
Definition with_index i n : CollectionNotifier :=
  Notifier (m_change n) (m_has_run n) (m_error n) (m_callbacks n) (m_have_callbacks n) i (m_callback_count n) (m_next_token n).
Definition with_count c n : CollectionNotifier :=
  Notifier (m_change n) (m_has_run n) (m_error n) (m_callbacks n) (m_have_callbacks n) (m_callback_index n) c (m_next_token n).
Definition with_next_token t n : CollectionNotifier :=
  Notifier (m_change n) (m_has_run n) (m_error n) (m_callbacks n) (m_have_callbacks n) (m_callback_index n) (m_callback_count n) t.
Definition with_error n : CollectionNotifier :=
  Notifier (m_change n) (m_has_run n) true (m_callbacks n) (m_have_callbacks n) (m_callback_index n) (m_callback_count n) (m_next_token n).
Definition with_change c r n : CollectionNotifier :=
  Notifier c r (m_error n) (m_callbacks n) (m_have_callbacks n) (m_callback_index n) (m_callback_count n) (m_next_token n).

Definition empty_changes : CollectionChangeSet := ChangeSet [] [] [] [] [] ∅.

(** [CollectionChangeSet::empty]. *)
Definition changeset_empty (c : CollectionChangeSet) : bool :=
  match cs_deletions c, cs_insertions c, cs_modifications c, cs_modifications_new c, cs_moves c with
  | [], [], [], [], [] => true
  | _, _, _, _, _ => false
  end.

(** ** Registration *)

(** [add_callback], which returns the token. *)
Definition add_callback n : CollectionNotifier * Z :=
  let t := m_next_token n in
  let n := with_callbacks (m_callbacks n ++ [MkCallback t empty_builder empty_changes false false])
             (with_next_token (u64 (t + 1)) n) in
  (if m_callback_index n =? npos then with_have_callbacks true n else n, t).

Definition find_callback (t : Z) n : result (option nat) :=
  _ ← realm_assert (m_error n || (0 <? length (m_callbacks n))%nat);
  let found := fst <$> list_find (fun cb => token cb = t) (m_callbacks n) in
  _ ← realm_assert (m_error n || bool_decide (is_Some found));
  Ok found.

Definition remove_callback (t : Z) n : result CollectionNotifier :=
  found ← find_callback t n;
  match found with
  | None => Ok n
  | Some idx =>
      let n := if negb (m_callback_index n =? npos) && (Z.of_nat idx <=? m_callback_index n)
               then with_index (u64 (m_callback_index n - 1)) n else n in
      let n := with_count (u64 (m_callback_count n - 1)) n in
      let n := with_callbacks (delete idx (m_callbacks n)) n in
      Ok (with_have_callbacks (0 <? length (m_callbacks n))%nat n)
  end.

Definition set_skip_next (b : bool) cb : Callback :=
  MkCallback (token cb) (accumulated_changes cb) (changes_to_deliver cb) (initial_delivered cb) b.

Definition suppress_next_notification (t : Z) n : result CollectionNotifier :=
  found ← find_callback t n;
  Ok (match found with Some idx => with_callbacks (alter (set_skip_next true) idx (m_callbacks n)) n | None => n end).

(** ** Changes *)

Section changes.
Context `{MaxSize}.

(** A change for one callback: dropped when it is the one to skip. *)
Definition add_change (change : CollectionChangeBuilder) cb : result Callback :=
  if skip_next cb then Ok (set_skip_next false cb)
  else
    c ← merge (accumulated_changes cb) change;
    Ok (MkCallback (token cb) c (changes_to_deliver cb) (initial_delivered cb) (skip_next cb)).

Fixpoint map_callbacks (f : Callback -> result Callback) (l : list Callback) : result (list Callback) :=
  match l with
  | [] => Ok []
  | cb :: l => cb ← f cb; l ← map_callbacks f l; Ok (cb :: l)
  end.

Definition add_changes (change : CollectionChangeBuilder) n : result CollectionNotifier :=
  l ← map_callbacks (add_change change) (m_callbacks n); Ok (with_callbacks l n).

(** [prepare_handover], after which the change has been moved away. *)
Definition prepare_handover n : result CollectionNotifier :=
  n' ← add_changes (m_change n) n;
  Ok (with_change (Builder [] [] [] [] [] ∅ (m_track_columns (m_change n))) true n').

Definition package_callback cb : result Callback :=
  cs ← finalize (accumulated_changes cb);
  Ok (MkCallback (token cb) (Builder [] [] [] [] [] ∅ (m_track_columns (accumulated_changes cb))) cs
        (initial_delivered cb) (skip_next cb)).

(** [package_for_delivery]; [prepare_to_deliver] is what the notifier at hand says. *)
Definition package_for_delivery (prepare_to_deliver : bool) n : result (CollectionNotifier * bool) :=
  if negb prepare_to_deliver then Ok (n, false)
  else
    l ← map_callbacks package_callback (m_callbacks n);
    Ok (with_count (Z.of_nat (length l)) (with_callbacks l n), true).
End changes.

(** ** Delivery *)

(** A call of the user's functions, and what they do to the notifier in it. *)
Inductive call :=
| CallBefore (token : Z) (changes : CollectionChangeSet)
| CallAfter (token : Z) (changes : CollectionChangeSet)
| CallError (token : Z).

Inductive action := AddCallback | RemoveCallback (token : Z).

Definition run_action n (a : action) : result CollectionNotifier :=
  match a with
  | AddCallback => Ok (fst (add_callback n))
  | RemoveCallback t => remove_callback t n
  end.

(** The [fn] of each delivery: the callback updated and the call to make, or none. *)
Definition visit_before cb : option (Callback * call) :=
  if changeset_empty (changes_to_deliver cb) then None
  else Some (cb, CallBefore (token cb) (changes_to_deliver cb)).

Definition visit_after cb : option (Callback * call) :=
  if initial_delivered cb && changeset_empty (changes_to_deliver cb) then None
  else Some (MkCallback (token cb) (accumulated_changes cb) empty_changes true (skip_next cb),
             CallAfter (token cb) (changes_to_deliver cb)).

Definition visit_error cb : option (Callback * call) := Some (cb, CallError (token cb)).

Section delivery.
(** The user's code: what it does in the last of the calls made so far. *)
Context (react : list call -> list action).

(** The loop of [for_each_callback]; [removes] for [deliver_error], which removes each callback
    after its call. *)
Fixpoint for_each_loop (fuel : nat) (visit : Callback -> option (Callback * call)) (removes : bool)
    n (log : list call) : result (CollectionNotifier * list call) :=
  let n := with_index (u64 (m_callback_index n + 1)) n in
  if m_callback_index n <? m_callback_count n then
    match fuel with
    | O => Err OutOfFuel
    | S fuel =>
        match m_callbacks n !! Z.to_nat (m_callback_index n) with
        | None => Err OutOfBounds
        | Some cb =>
            match visit cb with
            | None => for_each_loop fuel visit removes n log
            | Some (cb', c) =>
                let n := with_callbacks (<[Z.to_nat (m_callback_index n) := cb']> (m_callbacks n)) n in
                let log := log ++ [c] in
                n ← fold_result run_action n (react log);
                n ← (if removes then remove_callback (token cb) n else Ok n);
                for_each_loop fuel visit removes n log
            end
        end
    end
  else Ok (with_index npos n, log).

(** Every callback that is there at the start is visited at most once: their number is enough. *)
Definition for_each_callback visit removes n : result (CollectionNotifier * list call) :=
  for_each_loop (length (m_callbacks n)) visit removes n [].

Definition before_advance n := for_each_callback visit_before false n.
Definition after_advance n := for_each_callback visit_after false n.
Definition deliver_error n :=
  let n := with_error n in
  for_each_callback visit_error true (with_count (Z.of_nat (length (m_callbacks n))) n).
End delivery.
