(* ===== verification/CallbackDelivery.v ===== *)
(** The delivery of changes to callbacks that add and remove callbacks while it runs: each of the
    callbacks that were packaged, and are still registered when their turn comes, is called
    once, in the order of registration, and none that was added meanwhile. *)

From S2P Require Import Prelude ChunkedRangeVector IndexSetMerge ChangeBuilder CollectionNotifier.

(** ** What the user's code may do *)

Section polite.
Context (react : list call -> list action) (visit : Callback -> option (Callback * call)) (removes : bool).

(** Actions on the tokens [alive] of the packaged callbacks that are still registered: a callback
    is removed that is one of them, and added while there are tokens. *)
Fixpoint run_actions (acts : list action) (alive : list Z) (next : Z) : option (list Z * Z) :=
  match acts with
  | [] => Some (alive, next)
  | AddCallback :: acts => if next <? npos then run_actions acts alive (next + 1) else None
  | RemoveCallback t :: acts =>
      if decide (t ∈ alive) then run_actions acts (filter (fun t' => t' <> t) alive) next else None
  end.

(** The delivery to the callbacks [pending], of which those that are not alive are passed over. *)
Fixpoint delivers (pending : list Callback) (alive : list Z) (next : Z) (log : list call)
  : option (list Z * Z * list call) :=
  match pending with
  | [] => Some (alive, next, log)
  | cb :: pending =>
      if decide (token cb ∈ alive) then
        match visit cb with
        | None => delivers pending alive next log
        | Some (_, c) =>
            '(alive, next) ← run_actions (react (log ++ [c])) alive next;
            delivers pending (if removes then filter (fun t => t <> token cb) alive else alive) next (log ++ [c])
        end
      else delivers pending alive next log
  end.

Lemma run_actions_alive acts alive next alive' next' :
  run_actions acts alive next = Some (alive', next') -> forall t, t ∈ alive' -> t ∈ alive.
Proof.
  revert alive next. induction acts as [|[|t] acts IH]; intros alive next; cbn [run_actions]; [by intros [= <- _]| |].
  - destruct (next <? npos); [apply IH|done].
  - case_decide; [|done]. intros E x Hx. specialize (IH _ _ E x Hx). by apply list_elem_of_filter in IH as [_ ?].
Qed.

(** The calls made are those of the callbacks still alive at the end, and some of the others. *)
Lemma delivers_calls pending alive next log alive' next' log' :
  delivers pending alive next log = Some (alive', next', log') ->
  exists calls, log' = log ++ calls /\ calls `sublist_of` omap (fun cb => snd <$> visit cb) pending /\
    (forall t, t ∈ alive' -> t ∈ alive) /\
    (removes = false -> forall cb c, cb ∈ pending -> token cb ∈ alive' -> snd <$> visit cb = Some c -> c ∈ calls).
Proof.
  revert alive next log. induction pending as [|cb pending IH]; intros alive next log; cbn [delivers].
  { intros [= <- _ <-]. exists []. rewrite app_nil_r. split_and!; [done|constructor|done|]. by intros _ cb c ?%elem_of_nil. }
  cbn [omap list_omap]. case_decide as Hal; [destruct (visit cb) as [[cb' c]|] eqn:Ev|]; cbn [fmap option_fmap option_map snd].
  - destruct (run_actions _ alive next) as [[alive1 next1]|] eqn:Ea; [|done]. cbn [mbind option_bind]. intros E.
    destruct (IH _ _ _ E) as (calls & -> & Hsub & Hin & Hall). exists (c :: calls). rewrite <- app_assoc.
    split_and!; [done|by constructor| |].
    + intros t Ht. eapply run_actions_alive; [exact Ea|]. specialize (Hin t Ht). destruct removes; [|done].
      by apply list_elem_of_filter in Hin as [_ ?].
    + intros Hr cb1 c1 [->|Hcb]%elem_of_cons Ht E1; [|right; by eapply Hall].
      rewrite Ev in E1. injection E1 as <-. by left.
  - intros E. destruct (IH _ _ _ E) as (calls & -> & Hsub & Hin & Hall). exists calls.
    split_and!; [done|done|done|]. intros Hr cb1 c1 [->|Hcb]%elem_of_cons Ht E1; [by rewrite Ev in E1|by eapply Hall].
  - intros E. destruct (IH _ _ _ E) as (calls & -> & Hsub & Hin & Hall). exists calls. split_and!; [done| |done|].
    + destruct (visit cb) as [[cb' c]|]; [by constructor|done].
    + intros Hr cb1 c1 [->|Hcb]%elem_of_cons Ht E1; [by destruct (Hal (Hin _ Ht))|by eapply Hall].
Qed.
End polite.

(** ** The loop *)

Definition tokens (l : list Callback) : list Z := token <$> l.

(** Callbacks visited, to visit, and added during the delivery, from the token [start] on. *)
Record delivering (start : Z) (n : CollectionNotifier) (pending : list Callback) (alive : list Z) (next : Z)
    (done_ added : list Callback) : Prop := {
  de_callbacks : m_callbacks n = done_ ++ filter (fun cb => token cb ∈ alive) pending ++ added;
  de_alive : tokens (done_ ++ filter (fun cb => token cb ∈ alive) pending) = alive;
  de_index : m_callback_index n = u64 (Z.of_nat (length done_) - 1);
  de_count : m_callback_count n = Z.of_nat (length alive);
  de_tokens : NoDup (tokens (m_callbacks n));
  de_bounds : Forall (fun t => 0 <= t < next) (tokens (m_callbacks n));
  de_next : m_next_token n = next /\ (0 <= start <= next /\ next <= npos);
  de_fresh : Forall (fun t => t < start) alive /\ Forall (fun t => start <= t) (tokens added)
}.

Lemma distinct_bound (l : list Z) next : NoDup l -> Forall (fun t => 0 <= t < next) l -> Z.of_nat (length l) <= Z.max 0 next.
Proof.
  intros Hn Hb. assert (l ⊆+ seqZ 0 next) as Hs.
  { apply NoDup_submseteq; [done|]. intros t Ht. rewrite Forall_forall in Hb. specialize (Hb t Ht). apply elem_of_seqZ. lia. }
  apply submseteq_length in Hs. rewrite length_seqZ in Hs. lia.
Qed.

Lemma delivering_length start n pending alive next d a :
  delivering start n pending alive next d a -> Z.of_nat (length (m_callbacks n)) <= npos.
Proof.
  intros [_ _ _ _ Hn Hb [_ Hx] _]. pose proof (distinct_bound _ _ Hn Hb) as Hl.
  unfold tokens in Hl. rewrite length_fmap in Hl. unfold npos, word_size in *. lia.
Qed.

Lemma find_callback_token t n l1 cb l2 :
  m_callbacks n = l1 ++ cb :: l2 -> token cb = t -> t ∉ tokens l1 -> find_callback t n = Ok (Some (length l1)).
Proof.
  intros El <- Hn. unfold find_callback. rewrite El.
  assert (list_find (fun c => token c = token cb) (l1 ++ cb :: l2) = Some (length l1, cb)) as ->.
  { apply list_find_Some. split; [by apply list_lookup_middle|]. split; [done|]. intros j y Hj Hlt E.
    rewrite lookup_app_l in Hj by done. apply Hn. rewrite <- E. by apply list_elem_of_fmap_2, list_elem_of_lookup_2 with j. }
  rewrite length_app. simpl. destruct (Nat.ltb_spec 0 (length l1 + S (length l2))); [|lia]. rewrite !orb_true_r. done.
Qed.

Lemma add_callback_fields n :
  let n' := fst (add_callback n) in
  m_callbacks n' = m_callbacks n ++ [MkCallback (m_next_token n) empty_builder empty_changes false false] /\
  m_callback_index n' = m_callback_index n /\ m_callback_count n' = m_callback_count n /\
  m_next_token n' = u64 (m_next_token n + 1).
Proof. unfold add_callback. simpl. by destruct (m_callback_index n =? npos). Qed.

Lemma add_step start n pending alive next d a :
  delivering start n pending alive next d a -> next < npos ->
  exists a', delivering start (fst (add_callback n)) pending alive (next + 1) d a'.
Proof.
  intros [Hc Ha Hi Hco Hn Hb [Hx Hle] [Hf1 Hf2]] Hlt. destruct (add_callback_fields n) as (Ec & Ei & Eco & Ex).
  exists (a ++ [MkCallback (m_next_token n) empty_builder empty_changes false false]).
  split; rewrite ?Ec, ?Ei, ?Eco, ?Ex; try done.
  - rewrite Hc. by rewrite <- !app_assoc.
  - unfold tokens. rewrite fmap_app. apply NoDup_app. split; [done|]. split; [|apply NoDup_singleton].
    intros t Ht ->%list_elem_of_singleton. rewrite Forall_forall in Hb. specialize (Hb _ Ht). simpl in Hb. lia.
  - unfold tokens. rewrite fmap_app. apply Forall_app. split; [|repeat constructor; simpl; lia].
    eapply Forall_impl; [exact Hb|]. simpl. lia.
  - rewrite Hx, u64_small; [lia|]. unfold npos, word_size in *. lia.
  - split; [done|]. unfold tokens. rewrite fmap_app. apply Forall_app. split; [done|]. repeat constructor. simpl. lia.
Qed.

Lemma filter_alive (t : Z) (alive : list Z) (pending : list Callback) :
  filter (fun cb => token cb ∈ (filter (fun t' : Z => t' <> t) alive : list Z)) pending =
  filter (fun cb => token cb <> t) (filter (fun cb => token cb ∈ alive) pending).
Proof.
  rewrite list_filter_filter. apply list_filter_iff. intros cb. rewrite list_elem_of_filter. tauto.
Qed.

Lemma filter_out t (l1 : list Callback) cb l2 :
  NoDup (tokens (l1 ++ cb :: l2)) -> token cb = t ->
  filter (fun c => token c <> t) (l1 ++ cb :: l2) = l1 ++ l2 /\ t ∉ tokens l1.
Proof.
  intros Hn <-. unfold tokens in *. rewrite fmap_app, fmap_cons in Hn. apply NoDup_app in Hn as (Hn1 & Hd & Hn2).
  apply NoDup_cons in Hn2 as [Hcb Hn2].
  assert (token cb ∉ token <$> l1) as H1 by (intros Hin; apply (Hd _ Hin); by left).
  assert (forall l : list Callback, token cb ∉ token <$> l -> filter (fun c => token c <> token cb) l = l) as Hid.
  { intros l Hl. apply filter_all, Forall_forall. intros c Hc E. apply Hl. rewrite <- E. by apply list_elem_of_fmap_2. }
  split; [|done]. rewrite filter_app, filter_cons, decide_False by (intros []; done). by rewrite !Hid.
Qed.

Lemma filter_out_tokens t (l : list Callback) :
  tokens (filter (fun cb => token cb <> t) l) = filter (fun t' => t' <> t) (tokens l).
Proof. induction l as [|cb l IH]; [done|]. unfold tokens in *. rewrite fmap_cons, !filter_cons. case_decide; rewrite ?fmap_cons; by rewrite IH. Qed.

Lemma length_filter_token t (d p l1 l2 : list Callback) cb :
  d ++ p = l1 ++ cb :: l2 -> token cb = t -> NoDup (tokens (d ++ p)) ->
  length (filter (fun c => token c <> t) d) = (if decide (length l1 < length d) then pred (length d) else length d)%nat.
Proof.
  intros E Et Hn. rewrite E in Hn. destruct (filter_out t l1 cb l2 Hn Et) as [_ H1]. case_decide as Hlt.
  - assert (d !! length l1 = Some cb) as Hd.
    { rewrite <- (lookup_app_l d p) by done. rewrite E. by apply list_lookup_middle. }
    destruct (list_elem_of_split_length _ _ _ Hd) as (d1 & d2 & -> & El).
    rewrite <- E in Hn. unfold tokens in Hn. rewrite fmap_app in Hn. apply NoDup_app in Hn as [Hn _].
    destruct (filter_out t d1 cb d2 Hn Et) as [-> _]. rewrite !length_app. simpl. lia.
  - rewrite filter_all; [done|]. apply Forall_forall. intros c Hc Ect. apply H1.
    apply app_eq_inv in E as [(k & -> & Ek)|(k & -> & _)]; [destruct k as [|x k]|].
    + rewrite app_nil_r in *. rewrite <- Ect. by apply list_elem_of_fmap_2.
    + rewrite length_app in Hlt. simpl in Hlt. lia.
    + rewrite <- Ect. apply list_elem_of_fmap_2, elem_of_app. by left.
Qed.

Lemma remove_step start t n pending alive next d a :
  delivering start n pending alive next d a -> t ∈ alive ->
  exists n' d', remove_callback t n = Ok n' /\
    delivering start n' pending (filter (fun t' => t' <> t) alive) next d' a /\ m_error n' = m_error n /\
    d' = filter (fun cb => token cb <> t) d.
Proof.
  intros Hd Ht. pose proof (delivering_length _ _ _ _ _ _ _ Hd) as Hlen. destruct Hd as [Hc Ha Hi Hco Hn Hb Hx [Hf1 Hf2]].
  set (p := filter (fun cb => token cb ∈ alive) pending) in *.
  assert (exists l1 cb l2, d ++ p = l1 ++ cb :: l2 /\ token cb = t) as (l1 & cb & l2 & E & Et).
  { rewrite <- Ha in Ht. apply list_elem_of_fmap in Ht as (cb & -> & (l1 & l2 & E)%list_elem_of_split). by exists l1, cb, l2. }
  rewrite app_assoc, E, <- app_assoc in Hc. cbn [app] in Hc. rewrite Hc in Hn.
  destruct (filter_out t l1 cb (l2 ++ a) Hn Et) as [_ H1].
  assert (NoDup (tokens (l1 ++ cb :: l2))) as Hn'.
  { unfold tokens in *. rewrite app_comm_cons, app_assoc, fmap_app in Hn. by apply NoDup_app in Hn as [? _]. }
  destruct (filter_out t l1 cb l2 Hn' Et) as [Hf _].
  assert (filter (fun c => token c <> t) d ++ filter (fun c => token c <> t) p = l1 ++ l2) as Efil by (by rewrite <- filter_app, E).
  assert (length (filter (fun t' => t' <> t) alive) = length (l1 ++ l2)) as El.
  { rewrite <- Ha, <- filter_out_tokens, E, Hf. unfold tokens. by rewrite length_fmap. }
  assert (length alive = S (length (l1 ++ l2))) as Eal.
  { rewrite <- Ha, E. unfold tokens. rewrite length_fmap, !length_app. simpl. lia. }
  unfold remove_callback. rewrite (find_callback_token t n l1 cb (l2 ++ a)) by done. cbn [mbind result_bind].
  eexists _, (filter (fun c => token c <> t) d). split; [done|]. split; [|split; [|done]].
  2: { by destruct (negb _ && _). }
  rewrite Hc in Hlen. rewrite !length_app in Hlen. simpl in Hlen. rewrite length_app in Hlen.
  assert (m_callbacks (if negb (m_callback_index n =? npos) && (Z.of_nat (length l1) <=? m_callback_index n)
    then with_index (u64 (m_callback_index n - 1)) n else n) = l1 ++ cb :: l2 ++ a) as Hci by (by destruct (negb _ && _)).
  split; rewrite ?filter_alive; fold p.
  - simpl. rewrite Hci, delete_middle. by rewrite (app_assoc (filter _ d)), Efil, <- app_assoc.
  - rewrite <- Ha, <- filter_out_tokens. by rewrite E, Efil, Hf.
  - rewrite (length_filter_token t d p l1 l2 cb E Et) by (by rewrite E).
    assert (length d <= length (l1 ++ cb :: l2))%nat as Hdl by (rewrite <- E, length_app; lia). rewrite length_app in Hdl. simpl in Hdl.
    simpl. rewrite Hi. destruct (decide (length d = 0)%nat) as [Ed|Ed].
    + rewrite Ed. change (u64 (Z.of_nat 0 - 1)) with npos. rewrite Z.eqb_refl. cbn [negb andb]. rewrite decide_False by lia.
      simpl. by rewrite Hi, Ed.
    + rewrite u64_small by (unfold npos, word_size in *; lia).
      destruct (Z.eqb_spec (Z.of_nat (length d) - 1) npos); [unfold npos, word_size in *; lia|]. cbn [negb andb].
      case_decide as Hlt; destruct (Z.leb_spec (Z.of_nat (length l1)) (Z.of_nat (length d) - 1)); try lia; simpl.
      f_equal. lia.
  - simpl. assert (m_callback_count (if negb (m_callback_index n =? npos) && (Z.of_nat (length l1) <=? m_callback_index n)
      then with_index (u64 (m_callback_index n - 1)) n else n) = m_callback_count n) as -> by (by destruct (negb _ && _)).
    rewrite Hco, Eal, El, u64_small; [lia|]. rewrite length_app. unfold npos, word_size in *. lia.
  - simpl. rewrite Hci, delete_middle. unfold tokens in *. rewrite !fmap_app, fmap_cons in Hn. rewrite fmap_app.
    apply NoDup_app in Hn as (Hn1 & Hn2 & Hn3). apply NoDup_cons in Hn3 as [_ Hn3].
    apply NoDup_app. split; [done|]. split; [|done]. intros x Hx1 Hx2. apply (Hn2 x Hx1). by right.
  - simpl. rewrite Hci, delete_middle. rewrite Hc in Hb. unfold tokens in *. rewrite fmap_app, fmap_cons in Hb. rewrite fmap_app.
    apply Forall_app in Hb as [Hb1 Hb2]. apply Forall_cons in Hb2 as [_ Hb2]. by apply Forall_app.
  - by destruct (negb _ && _).
  - split; [|done]. rewrite Forall_forall in *. intros x [_ Hx']%list_elem_of_filter. by apply Hf1.
Qed.

Lemma actions_step start acts n pending alive next d a alive' next' :
  delivering start n pending alive next d a -> run_actions acts alive next = Some (alive', next') ->
  exists n' d' a', fold_result run_action n acts = Ok n' /\ delivering start n' pending alive' next' d' a' /\
    m_error n' = m_error n.
Proof.
  revert n alive next d a. induction acts as [|[|t] acts IH]; intros n alive next d a Hd; cbn [run_actions fold_result].
  - intros [= <- <-]. by exists n, d, a.
  - destruct (Z.ltb_spec next npos) as [Hlt|]; [|done]. destruct (add_step _ _ _ _ _ _ _ Hd Hlt) as (a1 & Hd1). intros E.
    destruct (IH _ _ _ _ _ Hd1 E) as (n' & d' & a' & E' & Hd' & Ee). exists n', d', a'. split; [exact E'|].
    split; [done|]. rewrite Ee. unfold add_callback. simpl. by destruct (_ =? npos).
  - case_decide as Ht; [|done]. destruct (remove_step _ _ _ _ _ _ _ _ Hd Ht) as (n1 & d1 & E1 & Hd1 & Ee1 & _). intros E.
    destruct (IH _ _ _ _ _ Hd1 E) as (n' & d' & a' & E' & Hd' & Ee). exists n', d', a'.
    cbn [run_action]. rewrite E1. cbn [mbind result_bind]. split_and!; [done|done|congruence].
Qed.

Lemma remove_gone start t n pending alive next d a :
  delivering start n pending alive next d a -> t ∉ alive -> t < start -> m_error n = true -> remove_callback t n = Ok n.
Proof.
  intros [Hc Ha Hi Hco Hn Hb Hx [Hf1 Hf2]] Ht Hs He. unfold remove_callback, find_callback. rewrite He. cbn [orb realm_assert mbind result_bind].
  assert (list_find (fun cb => token cb = t) (m_callbacks n) = None) as ->; [|done].
  apply list_find_None. rewrite Hc, app_assoc. apply Forall_app. split; apply Forall_forall; intros cb Hcb E.
  - apply Ht. rewrite <- Ha, <- E. by apply list_elem_of_fmap_2.
  - rewrite Forall_forall in Hf2. specialize (Hf2 (token cb)). rewrite E in Hf2.
    assert (start <= t); [|lia]. apply Hf2. rewrite <- E. by apply list_elem_of_fmap_2.
Qed.

Section loop.
Context (react : list call -> list action) (visit : Callback -> option (Callback * call)) (removes : bool).
Hypothesis visit_token : forall cb cb' c, visit cb = Some (cb', c) -> token cb' = token cb.

(** The next callback becomes a visited one. *)
Lemma visit_step start n cb cb' pending alive next d a :
  delivering start n (cb :: pending) alive next d a -> token cb ∈ alive -> token cb' = token cb ->
  let n1 := with_index (u64 (m_callback_index n + 1)) n in
  m_callback_index n1 = Z.of_nat (length d) /\ m_callback_index n1 < m_callback_count n1 /\
  m_callbacks n1 !! length d = Some cb /\
  delivering start (with_callbacks (<[length d := cb']> (m_callbacks n1)) n1) pending alive next (d ++ [cb']) a.
Proof.
  intros Hd Hal Et. pose proof (delivering_length _ _ _ _ _ _ _ Hd) as Hlen. destruct Hd as [Hc Ha Hi Hco Hn Hb Hx Hf].
  rewrite filter_cons_True in Hc, Ha by done. simpl.
  assert (length d < length alive)%nat as Hlt.
  { rewrite <- Ha. unfold tokens. rewrite length_fmap, length_app. simpl. lia. }
  assert (Z.of_nat (length d) < npos) as Hsz.
  { rewrite Hc, length_app in Hlen. simpl in Hlen. lia. }
  assert (u64 (m_callback_index n + 1) = Z.of_nat (length d)) as Ei.
  { rewrite Hi, u64_add_l. replace (Z.of_nat (length d) - 1 + 1) with (Z.of_nat (length d)) by lia.
    apply u64_small. unfold npos in *. lia. }
  assert (<[length d:=cb']> (m_callbacks n) = (d ++ [cb']) ++ filter (fun cb => token cb ∈ alive) pending ++ a) as Ecb.
  { rewrite Hc, insert_app_r_alt, Nat.sub_diag by lia. by rewrite <- app_assoc. }
  assert (tokens (<[length d:=cb']> (m_callbacks n)) = tokens (m_callbacks n)) as Etok.
  { rewrite Ecb, Hc. unfold tokens. rewrite <- app_assoc. cbn [app]. by rewrite !fmap_app, !fmap_cons, Et. }
  split_and!; [done|rewrite Hco; lia|rewrite Hc; by apply list_lookup_middle|].
  split; simpl; rewrite ?Etok; try done.
  - etrans; [|exact Ha]. rewrite <- app_assoc. cbn [app]. unfold tokens. by rewrite !fmap_app, !fmap_cons, Et.
  - rewrite Ei, length_app. simpl. rewrite u64_small; unfold npos in *; lia.
Qed.

Lemma for_each_loop_spec start fuel n pending alive next d a log alive' next' log' :
  delivering start n pending alive next d a -> (length pending <= fuel)%nat -> (removes = true -> m_error n = true) ->
  delivers react visit removes pending alive next log = Some (alive', next', log') ->
  exists n' added, for_each_loop react fuel visit removes n log = Ok (n', log') /\
    tokens (m_callbacks n') = alive' ++ added /\ Forall (fun t => start <= t) added /\
    m_callback_index n' = npos /\ m_callback_count n' = Z.of_nat (length alive').
Proof.
  revert fuel n alive next d a log. induction pending as [|cb pending IH]; intros fuel n alive next d a log Hd Hfu He;
    cbn [delivers].
  - intros [= -> -> ->]. pose proof (delivering_length _ _ _ _ _ _ _ Hd) as Hlen. destruct Hd as [Hc Ha Hi Hco Hn Hb Hx Hf].
    rewrite app_nil_r in Ha. assert (length d = length alive') as El by (rewrite <- Ha; unfold tokens; by rewrite length_fmap).
    assert (u64 (m_callback_index n + 1) = Z.of_nat (length d)) as Ei.
    { rewrite Hi, u64_add_l. replace (Z.of_nat (length d) - 1 + 1) with (Z.of_nat (length d)) by lia.
      apply u64_small. rewrite Hc, length_app in Hlen. unfold npos, word_size in *. lia. }
    exists (with_index npos (with_index (u64 (m_callback_index n + 1)) n)), (tokens a).
    split; [|split_and!; [|apply Hf|done|done]].
    + destruct fuel; cbn [for_each_loop]; cbn [m_callback_index with_index m_callback_count]; rewrite Ei, Hco, El, Z.ltb_irrefl; done.
    + simpl. rewrite Hc, <- Ha. unfold tokens. cbn. by rewrite fmap_app.
  - case_decide as Hal.
    2: { intros E. apply (IH fuel n alive next d a log); try done; [|simpl in Hfu; lia].
         destruct Hd as [Hc Ha Hi Hco Hn Hb Hx Hf]. rewrite filter_cons_False in Hc, Ha by done. by split. }
    destruct fuel as [|fuel]; [simpl in Hfu; lia|]. cbn [for_each_loop].
    destruct (visit cb) as [[cb' c]|] eqn:Ev.
    + destruct (run_actions _ alive next) as [[alive1 next1]|] eqn:Ea; [|done]. cbn [mbind option_bind]. intros E.
      destruct (visit_step _ _ _ cb' _ _ _ _ _ Hd Hal (visit_token _ _ _ Ev)) as (Ei & Hlt & El & Hd1).
      set (n1 := with_index (u64 (m_callback_index n + 1)) n) in *.
      destruct (Z.ltb_spec (m_callback_index n1) (m_callback_count n1)); [|lia].
      rewrite Ei, Nat2Z.id, El, Ev.
      destruct (actions_step _ _ _ _ _ _ _ _ _ _ Hd1 Ea) as (n2 & d2 & a2 & -> & Hd2 & Ee2). cbn [mbind result_bind].
      assert (exists n3 d3, (if removes then remove_callback (token cb) n2 else Ok n2) = Ok n3 /\
        delivering start n3 pending (if removes then filter (fun t => t <> token cb) alive1 else alive1) next1 d3 a2 /\
        m_error n3 = m_error n) as (n3 & d3 & -> & Hd3 & Ee3).
      { destruct removes; [|by exists n2, d2]. destruct (decide (token cb ∈ alive1)) as [Hin|Hin].
        - destruct (remove_step _ _ _ _ _ _ _ _ Hd2 Hin) as (n3 & d3 & E3 & Hd3 & Ee3 & _). exists n3, d3.
          split_and!; [done|done|by rewrite Ee3, Ee2].
        - exists n2, d2. split; [|split; [|done]].
          + eapply remove_gone; [done|done| |rewrite Ee2; by apply He].
            destruct (de_fresh _ _ _ _ _ _ _ Hd) as [Hf _]. rewrite Forall_forall in Hf. by apply Hf.
          + rewrite filter_all; [done|]. apply Forall_forall. by intros t Ht ->. }
      cbn [mbind result_bind]. eapply (IH fuel n3 _ next1 d3 a2); [exact Hd3|simpl in Hfu; lia|by rewrite Ee3|exact E].
    + intros E. destruct (visit_step _ _ _ cb _ _ _ _ _ Hd Hal eq_refl) as (Ei & Hlt & El & Hd1).
      set (n1 := with_index (u64 (m_callback_index n + 1)) n) in *.
      destruct (Z.ltb_spec (m_callback_index n1) (m_callback_count n1)); [|lia].
      rewrite Ei, Nat2Z.id, El, Ev. rewrite list_insert_id in Hd1 by done.
      assert (with_callbacks (m_callbacks n1) n1 = n1) as En by done. rewrite En in Hd1.
      apply (IH fuel n1 alive next (d ++ [cb]) a); try done. simpl in Hfu. lia.
Qed.
End loop.

(** ** Theorems *)

(** A notifier that was packaged for delivery and has not started to deliver. *)
Record packaged n : Prop := {
  pk_tokens : NoDup (tokens (m_callbacks n));
  pk_bounds : Forall (fun t => 0 <= t < m_next_token n) (tokens (m_callbacks n));
  pk_next : 0 <= m_next_token n <= npos;
  pk_index : m_callback_index n = npos;
  pk_count : m_callback_count n = Z.of_nat (length (m_callbacks n))
}.

Lemma filter_all_tokens (l : list Callback) : filter (fun cb => token cb ∈ tokens l) l = l.
Proof. apply filter_all, Forall_forall. intros cb Hcb. by apply list_elem_of_fmap_2. Qed.

Lemma packaged_delivering n :
  packaged n -> delivering (m_next_token n) n (m_callbacks n) (tokens (m_callbacks n)) (m_next_token n) [] [].
Proof.
  intros [Ht Hb Hx Hi Hc]. split; cbn [app]; rewrite ?filter_all_tokens, ?app_nil_r; try done.
  - unfold tokens. by rewrite length_fmap.
  - split; [done|lia].
  - split; [|constructor]. eapply Forall_impl; [exact Hb|]. simpl. lia.
Qed.

Lemma visits_keep_token visit cb cb' c :
  visit = visit_before \/ visit = visit_after \/ visit = visit_error -> visit cb = Some (cb', c) -> token cb' = token cb.
Proof.
  intros [->|[->| ->]]; unfold visit_before, visit_after, visit_error;
    [destruct (changeset_empty _)|destruct (_ && _)|]; intros E; by simplify_eq/=.
Qed.

(** C23: while a packaged notifier delivers, before or after the Realm advances, its callbacks may
    remove themselves and each other, the packaged ones that is, and add callbacks, which are not
    removed again before the delivery ends (see [added_callback_removed]).  The delivery ends, calls
    the packaged callbacks that have something to be told in the order of registration and each at
    most once, every one that stays registered is called, and those added meanwhile are not; it
    leaves the callbacks that remain and the added ones. *)
Theorem callbacks_delivered react visit n alive next log :
  packaged n -> visit = visit_before \/ visit = visit_after ->
  delivers react visit false (m_callbacks n) (tokens (m_callbacks n)) (m_next_token n) [] = Some (alive, next, log) ->
  exists n' added, for_each_callback react visit false n = Ok (n', log) /\
    tokens (m_callbacks n') = alive ++ added /\ Forall (fun t => m_next_token n <= t) added /\
    m_callback_index n' = npos /\
    log `sublist_of` omap (fun cb => snd <$> visit cb) (m_callbacks n) /\
    (forall cb c, cb ∈ m_callbacks n -> token cb ∈ alive -> snd <$> visit cb = Some c -> c ∈ log).
Proof.
  intros Hp Hv E. pose proof (packaged_delivering n Hp) as Hd. unfold for_each_callback.
  destruct (for_each_loop_spec react visit false) with (m_next_token n) (length (m_callbacks n)) n (m_callbacks n)
    (tokens (m_callbacks n)) (m_next_token n) ([] : list Callback) ([] : list Callback) ([] : list call) alive next log
    as (n' & added & El & Et & Hf & Hi & _); try done.
  { intros cb cb' c. apply visits_keep_token. tauto. }
  destruct (delivers_calls _ _ _ _ _ _ _ _ _ _ E) as (calls & -> & Hsub & _ & Hall).
  exists n', added. split_and!; try done. by apply Hall.
Qed.

Lemma delivers_removed react visit pending alive next log alive' next' log' :
  (forall cb, is_Some (visit cb)) -> delivers react visit true pending alive next log = Some (alive', next', log') ->
  forall cb, cb ∈ pending -> token cb ∉ alive'.
Proof.
  intros Hv. revert alive next log. induction pending as [|cb pending IH]; intros alive next log; cbn [delivers].
  { by intros _ cb ?%elem_of_nil. }
  case_decide as Hal; [destruct (Hv cb) as [[cb' c] Ev]; rewrite Ev|].
  - destruct (run_actions _ alive next) as [[alive1 next1]|] eqn:Ea; [|done]. cbn [mbind option_bind]. intros E x.
    destruct (delivers_calls _ _ _ _ _ _ _ _ _ _ E) as (_ & _ & _ & Hin & _).
    intros [->|Hx]%elem_of_cons; [|by apply (IH _ _ _ E)]. intros Hx%Hin%list_elem_of_filter. by destruct Hx.
  - intros E x. destruct (delivers_calls _ _ _ _ _ _ _ _ _ _ E) as (_ & _ & _ & Hin & _).
    intros [->|Hx]%elem_of_cons; [|by apply (IH _ _ _ E)]. by intros Hx%Hin.
Qed.

(** When an error is delivered every callback is told of it once and removed, whatever
    callbacks the user's code adds and removes on the way: only the added ones remain. *)
Theorem errors_delivered react n alive next log :
  packaged n ->
  delivers react visit_error true (m_callbacks n) (tokens (m_callbacks n)) (m_next_token n) [] = Some (alive, next, log) ->
  exists n', deliver_error react n = Ok (n', log) /\ m_callback_index n' = npos /\
    Forall (fun t => m_next_token n <= t) (tokens (m_callbacks n')) /\
    log `sublist_of` (CallError <$> tokens (m_callbacks n)).
Proof.
  intros Hp E. pose proof (packaged_delivering n Hp) as Hd. unfold deliver_error.
  assert (with_count (Z.of_nat (length (m_callbacks (with_error n)))) (with_error n) = with_error n) as En.
  { unfold with_count, with_error. simpl. by rewrite <- (pk_count _ Hp). }
  cbv zeta. rewrite En.
  destruct (for_each_loop_spec react visit_error true) with (m_next_token n) (length (m_callbacks n)) (with_error n) (m_callbacks n)
    (tokens (m_callbacks n)) (m_next_token n) ([] : list Callback) ([] : list Callback) ([] : list call) alive next log
    as (n' & added & El & Et & Hf & Hi & _); try done.
  { intros cb cb' c. apply visits_keep_token. tauto. }
  { destruct Hd. by split. }
  destruct (delivers_calls _ _ _ _ _ _ _ _ _ _ E) as (calls & -> & Hsub & Hin & _).
  exists n'. split; [exact El|]. split; [done|]. split.
  - rewrite Et. apply Forall_app. split; [|done]. apply Forall_forall. intros t Ht.
    pose proof (Hin t Ht) as (cb & -> & Hcb)%list_elem_of_fmap.
    by destruct (delivers_removed react visit_error _ _ _ _ _ _ _ (fun cb => ex_intro _ _ eq_refl) E cb Hcb).
  - assert (forall l, omap (fun cb => snd <$> visit_error cb) l = CallError <$> tokens l) as <-; [|done].
    clear. induction l as [|cb l IH]; [done|]. change (CallError (token cb) :: omap (fun cb => snd <$> visit_error cb) l =
      CallError (token cb) :: (CallError <$> tokens l)). by rewrite IH.
Qed.

(** Three callbacks; the first removes itself and the third one, and adds a callback. *)
Definition three_callbacks : CollectionNotifier :=
  let n := fst (add_callback (fst (add_callback (fst (add_callback new_notifier))))) in with_count 3 n.
Definition sample_react (log : list call) : list action :=
  if (length log =? 1)%nat then [RemoveCallback 0; AddCallback; RemoveCallback 2] else [].

Lemma three_packaged : packaged three_callbacks.
Proof.
  split; [apply (bool_decide_unpack _); vm_compute; exact I| |by vm_compute|done|done].
  apply (bool_decide_unpack _); vm_compute; exact I.
Qed.

Lemma callbacks_delivered_witness :
  exists n' added, for_each_callback sample_react visit_after false three_callbacks =
      Ok (n', [CallAfter 0 empty_changes; CallAfter 1 empty_changes]) /\
    tokens (m_callbacks n') = [1] ++ added /\ Forall (fun t => m_next_token three_callbacks <= t) added.
Proof.
  destruct (callbacks_delivered sample_react visit_after three_callbacks [1] 4
    [CallAfter 0 empty_changes; CallAfter 1 empty_changes]) as (n' & added & E & Et & Hf & _).
  - exact three_packaged.
  - right. reflexivity.
  - vm_compute. reflexivity.
  - exists n', added. split; [exact E|]. split; [exact Et|exact Hf].
Defined.

Lemma errors_delivered_witness :
  exists n', deliver_error sample_react three_callbacks = Ok (n', [CallError 0; CallError 1]) /\
    Forall (fun t => m_next_token three_callbacks <= t) (tokens (m_callbacks n')).
Proof.
  destruct (errors_delivered sample_react three_callbacks [] 4 [CallError 0; CallError 1]) as (n' & E & _ & Hf & _).
  - exact three_packaged.
  - vm_compute. reflexivity.
  - exists n'. split; [exact E|exact Hf].
Defined.

(** Removing a callback that was added during the delivery lowers the number of packaged
    callbacks too: the last of them is not called, though it is still registered. *)
Theorem added_callback_removed :
  let react := fun log : list call => if (length log =? 1)%nat then [AddCallback; RemoveCallback 3] else [] in
  exists n', after_advance react three_callbacks = Ok (n', [CallAfter 0 empty_changes; CallAfter 1 empty_changes]) /\
    tokens (m_callbacks n') = [0; 1; 2].
Proof. eexists. split; vm_compute; reflexivity. Qed.
