(* ===== verification/Notifiers.v ===== *)
(** The notifiers of [object_notifier.cpp], [list_notifier.cpp] and [results_notifier.cpp]: what
    each run of one makes of the transaction it has seen, before the change is handed over to the
    callbacks.

    Lists, queries and views are classes of the compiled core: what a run reads of them is an
    argument.  A notifier whose [m_info] is null does not run, so the change info is an argument
    too.  The function that says whether an object changed keeps a state, the deep checker's. *)

From S2P Require Import Prelude Keys ChunkedRangeVector IndexSet IndexSetMerge ChangeBuilder ObjectChangeSet.
From S2P Require Import TransactLogHandler DeepChangeChecker CollectionNotifier RowDiff.

(** ** The change infos that the notifiers ask for *)

(** [info.tables[key]]. *)
Definition watch_table (info : TransactionChangeInfo) (key : TableKey) : TransactionChangeInfo :=
  match tables info !! key with
  | Some _ => info
  | None => with_tables (<[key := no_object_changes]> (tables info)) info
  end.

(** [add_required_change_info], when the notifier at hand has added what it requires itself and
    said whether it wants its related tables. *)
Definition add_required_change_info (required : TransactionChangeInfo * bool) (m_related_tables : list RelatedTable)
  : TransactionChangeInfo :=
  let '(info, wanted) := required in
  if wanted then foldl watch_table info (related_key <$> m_related_tables) else info.

Definition watch_list (t : TableKey) (obj : ObjKey) (col : ColKey) (change : Z) (info : TransactionChangeInfo)
  : TransactionChangeInfo := with_lists (lists info ++ [ListChange t obj col change]) info.

(** A table and the number of its version. *)
Abbreviation TableVersions := (list (TableKey * Z)) (only parsing).

Definition all_related_tables_covered (m_related_tables : list RelatedTable) (versions : TableVersions) : bool :=
  (length m_related_tables <=? length versions)%nat &&
  forallb (fun r => existsb (fun v => fst v =? related_key r) versions) m_related_tables.

Implicit Types base : CollectionNotifier.

Definition with_m_change c base : CollectionNotifier := with_change c (m_has_run base) base.

(** ** One object *)

Record ObjectNotifier := MkObjectNotifier { on_base : CollectionNotifier; on_table : TableKey; on_obj : ObjKey }.

Definition object_add_required (n : ObjectNotifier) (info : TransactionChangeInfo) : TransactionChangeInfo * bool :=
  (watch_table info (on_table n), false).

Section object.
Context `{MaxSize}.

Definition add_to_column (cols : gmap Z IndexSet) (col : ColKey) : result (gmap Z IndexSet) :=
  v ← add (column cols col) 0; Ok (<[col := v]> cols).

Definition object_run (info : TransactionChangeInfo) (n : ObjectNotifier) : result ObjectNotifier :=
  if negb (table_key_bool (on_table n)) then Ok n
  else
    match tables info !! on_table n with
    | None => Ok n
    | Some change =>
        let c := m_change (on_base n) in
        if deletions_contains change (on_obj n) then
          d ← add (deletions c) 0;
          Ok (MkObjectNotifier (with_m_change (with_deletions d c) (on_base n)) null_table_key null_key)
        else
          match get_columns_modified change (on_obj n) with
          | None => Ok n
          | Some modified =>
              m ← add (modifications c) 0;
              cols ← fold_result add_to_column (columns c) (elements modified);
              Ok (MkObjectNotifier (with_m_change (with_modifications m cols c) (on_base n)) (on_table n) (on_obj n))
          end
    end.
End object.

(** ** Modified rows *)

Section changed.
Context `{MaxSize} {S : Type} (did_change : Z -> S -> result (bool * S)).

(** The body of the loops of [ListNotifier::run]. *)
Definition add_if_changed (keys : list ObjKey) (st : IndexSet * S) (i : Z) : result (IndexSet * S) :=
  let '(m, s) := st in
  b ← contains m i;
  if (b : bool) then Ok (m, s)
  else
    match keys !! Z.to_nat i with
    | None => Err OutOfBounds
    | Some key => '(b, s) ← did_change key s; if (b : bool) then m ← add m i; Ok (m, s) else Ok (m, s)
    end.

Definition add_changed_rows (keys : list ObjKey) (l : list Move) (m : IndexSet) (s : S) : result (IndexSet * S) :=
  st ← fold_result (add_if_changed keys) (m, s) (seqZ 0 (Z.of_nat (length keys)));
  fold_result (add_if_changed keys) st (move_to <$> l).

(** [CollectionChangeBuilder::calculate] with a function that keeps a state. *)
Definition add_modifications_with (rows : list RowInfo) (v : IndexSet) (s : S) : result (IndexSet * S) :=
  fold_result (fun '(v, s) row =>
    '(b, s) ← did_change (key row) s;
    if (b : bool) then v ← add v (tv_index row); Ok (v, s) else Ok (v, s)) (v, s) rows.

Context `{StdSort}.

Definition calculate_rows_with (old_rows new_rows : list RowInfo) (in_table_order : bool) (s : S)
  : result (CollectionChangeBuilder * S) :=
  '(d, i, new_rows) ← match_rows old_rows new_rows [] [];
  let new_rows := filter (fun row => prev_tv_index row <> npos) new_rows in
  let new_rows := std_sort (fun l r => tv_index l <? tv_index r) new_rows in
  '(m, s) ← add_modifications_with new_rows [] s;
  '(d, i) ← (if in_table_order then Ok (d, i) else calculate_moves_sorted new_rows d i m);
  Ok (Builder d i m [] [] ∅ true, s).

Definition calculate_with (prev_rows next_rows : list Z) (in_table_order : bool) (s : S)
  : result (CollectionChangeBuilder * S) :=
  calculate_rows_with (build_row_info prev_rows) (build_row_info next_rows) in_table_order s.

Definition calculate_indexes_with (prev_rows next_rows : list Z) (s : S) : result (CollectionChangeBuilder * S) :=
  calculate_rows_with (build_row_info (as_int64 <$> prev_rows)) (build_row_info (as_int64 <$> next_rows)) false s.
End changed.

(** ** A list *)

(** [ln_links] for a list of links, [m_type == PropertyType::Object], to objects of [ln_target]. *)
Record ListNotifier := MkListNotifier {
  ln_base : CollectionNotifier;
  ln_related_tables : list RelatedTable;
  ln_links : bool;
  ln_target : TableKey;
  ln_prev_size : Z
}.

(** The list has the column [col] of the object [obj] of the table [t]; [attached] unless that
    object is gone.  [change] is the address of [m_change]. *)
Definition list_add_required (attached : bool) (t : TableKey) (obj : ObjKey) (col : ColKey) (change : Z)
    (info : TransactionChangeInfo) : TransactionChangeInfo * bool :=
  if attached then (watch_list t obj col change info, true) else (info, false).

Section list.
Context `{MaxSize, Tables}.

(** [set_table] of the constructor, for a list of links. *)
Definition make_list_notifier (fuel : nat) base (links : bool) (target : TableKey) (size : Z) : result ListNotifier :=
  related ← (if links then set_table fuel target else Ok []);
  Ok (MkListNotifier base related links target size).

(** [lst] is the list, when it is attached: the keys linked to, or the elements. *)
Definition list_run (fuel : nat) (info : TransactionChangeInfo) (lst : option (list ObjKey)) (n : ListNotifier)
  : result ListNotifier :=
  let c := m_change (ln_base n) in
  match lst with
  | None =>
      if negb (ln_prev_size n =? 0) then
        d ← set (deletions c) (ln_prev_size n);
        Ok (MkListNotifier (with_m_change (with_deletions d c) (ln_base n)) (ln_related_tables n) (ln_links n) (ln_target n) 0)
      else
        Ok (MkListNotifier (with_m_change empty_builder (ln_base n)) (ln_related_tables n) (ln_links n) (ln_target n) 0)
  | Some keys =>
      let size := Z.of_nat (length keys) in
      if ln_links n then
        checker ← get_modification_checker fuel info (ln_related_tables n) (ln_target n);
        '(m, _) ← add_changed_rows (object_did_change info (ln_target n) checker) keys (moves c)
                    (modifications c) make_checker;
        Ok (MkListNotifier (with_m_change (with_modifications m (columns c) c) (ln_base n)) (fst checker) true (ln_target n) size)
      else Ok (MkListNotifier (ln_base n) (ln_related_tables n) false (ln_target n) size)
  end.
End list.

(** ** The results of a query *)

(** What is seen of the query in a run: its table, when there still is one, the versions of the
    tables that it depends on, as [sync_view_if_needed] and then the new view say, and the keys
    of the view in the order asked for. *)
Record QueryState := Query {
  q_table : option TableKey;
  q_versions : TableVersions;
  q_view_versions : TableVersions;
  q_rows : list ObjKey
}.

Record ResultsNotifier := MkResultsNotifier {
  rn_base : CollectionNotifier;
  rn_related_tables : list RelatedTable;
  m_target_is_in_table_order : bool;
  m_last_seen_version : TableVersions;
  m_previous_rows : list Z;
  m_results_were_used : bool
}.

Definition results_add_required (q : QueryState) (n : ResultsNotifier) (info : TransactionChangeInfo)
  : TransactionChangeInfo * bool :=
  (info, bool_decide (is_Some (q_table q)) && m_has_run (rn_base n) && m_have_callbacks (rn_base n)).

(** [open] unless the target Realm has gone away. *)
Definition need_to_run (open : bool) (q : QueryState) (n : ResultsNotifier) : bool :=
  if negb open || (negb (m_have_callbacks (rn_base n)) && negb (m_results_were_used n)) then false
  else if m_has_run (rn_base n) && bool_decide (q_versions q = m_last_seen_version n) &&
          all_related_tables_covered (rn_related_tables n) (m_last_seen_version n) then false
  else true.

Section results.
Context `{MaxSize, StdSort, Tables}.

(** [calculate_changes]: the related tables, the change and the previous rows. *)
Definition calculate_changes (fuel : nat) (info : TransactionChangeInfo) (table : TableKey) (rows : list ObjKey)
    (n : ResultsNotifier) : result ResultsNotifier :=
  let base := rn_base n in
  if m_has_run base && m_have_callbacks base then
    checker ← get_modification_checker fuel info (rn_related_tables n) table;
    '(c, _) ← calculate_with (object_did_change info table checker) (m_previous_rows n) rows
                (m_target_is_in_table_order n) make_checker;
    Ok (MkResultsNotifier (with_m_change c base) (fst checker) (m_target_is_in_table_order n)
          (m_last_seen_version n) rows (m_results_were_used n))
  else
    Ok (MkResultsNotifier base (rn_related_tables n) (m_target_is_in_table_order n)
          (m_last_seen_version n) rows (m_results_were_used n)).

Definition results_run (fuel : nat) (info : TransactionChangeInfo) (open : bool) (q : QueryState) (n : ResultsNotifier)
  : result ResultsNotifier :=
  match q_table q with
  | None =>
      d ← set [] (Z.of_nat (length (m_previous_rows n)));
      Ok (MkResultsNotifier (with_m_change (with_deletions d empty_builder) (rn_base n)) (rn_related_tables n)
            (m_target_is_in_table_order n) (m_last_seen_version n) [] (m_results_were_used n))
  | Some table =>
      if negb (need_to_run open q n) then Ok n
      else
        calculate_changes fuel info table (q_rows q)
          (MkResultsNotifier (rn_base n) (rn_related_tables n) (m_target_is_in_table_order n) (q_view_versions q)
             (m_previous_rows n) (m_results_were_used n))
  end.
End results.

(** ** A sorted or distinct list *)

(** What is seen of the list in a run: its size, whether its content changed since the last
    time, and the indices that [sort] and [distinct] give. *)
Record ListState := Lst {
  l_size : Z;
  l_has_changed : bool;
  l_sort : bool -> list Z;
  l_distinct : option bool -> list Z
}.

Record ListResultsNotifier := MkListResultsNotifier {
  lr_base : CollectionNotifier;
  m_sort_order : option bool;
  m_distinct : bool;
  m_run_indices : option (list Z);
  m_previous_indices : list Z;
  lr_results_were_used : bool
}.

Definition list_need_to_run (open : bool) (l : ListState) (n : ListResultsNotifier) : bool :=
  if negb open || (negb (m_have_callbacks (lr_base n)) && negb (lr_results_were_used n)) then false
  else negb (m_has_run (lr_base n)) || l_has_changed l.

(** The new indices of the result, into the list. *)
Definition run_indices (l : ListState) (n : ListResultsNotifier) : list Z :=
  if m_distinct n then l_distinct l (m_sort_order n)
  else match m_sort_order n with Some ascending => l_sort l ascending | None => seqZ 0 (l_size l) end.


Section list_results.
Context `{MaxSize, StdSort}.

(** A previous index, in the new list: none, for an element that was deleted. *)
Definition new_index (c : CollectionChangeBuilder) (row : Z) : result Z :=
  gone ← contains (deletions c) row;
  if (gone : bool) then Ok npos else u ← unshift (deletions c) row; Ok (shift (insertions c) u).

Fixpoint new_indices (c : CollectionChangeBuilder) (rows : list Z) : result (list Z) :=
  match rows with
  | [] => Ok []
  | row :: rows => r ← new_index c row; rows ← new_indices c rows; Ok (r :: rows)
  end.

(** [key_did_change] of [ListResultsNotifier::calculate_changes], which has no state. *)
Definition row_did_change (c : CollectionChangeBuilder) (key : Z) (s : unit) : result (bool * unit) :=
  b ← contains (modifications_new c) (u64 key); Ok (b, s).

Definition list_calculate_changes (indices : list Z) (n : ListResultsNotifier) : result ListResultsNotifier :=
  let base := lr_base n in
  let c := m_change base in
  if m_has_run base && m_have_callbacks base && (bool_decide (is_Some (m_sort_order n)) || m_distinct n) then
    prev ← (if nonempty (insertions c) || nonempty (deletions c) then new_indices c (m_previous_indices n)
            else Ok (m_previous_indices n));
    '(c, _) ← calculate_indexes_with (row_did_change c) prev indices tt;
    Ok (MkListResultsNotifier (with_m_change c base) (m_sort_order n) (m_distinct n) (Some indices) indices
          (lr_results_were_used n))
  else
    Ok (MkListResultsNotifier base (m_sort_order n) (m_distinct n) (Some indices) indices (lr_results_were_used n)).

(** [lst] is the list, when it is attached. *)
Definition list_results_run (open : bool) (lst : option ListState) (n : ListResultsNotifier) : result ListResultsNotifier :=
  match lst with
  | None =>
      d ← set [] (Z.of_nat (length (m_previous_indices n)));
      Ok (MkListResultsNotifier (with_m_change (with_deletions d empty_builder) (lr_base n)) (m_sort_order n)
            (m_distinct n) (m_run_indices n) [] (lr_results_were_used n))
  | Some l =>
      if negb (list_need_to_run open l n) then Ok n else list_calculate_changes (run_indices l n) n
  end.
End list_results.
