(* ===== verification/NotifierRuns.v ===== *)
(** What the runs of the notifiers leave in [m_change]: the change from the rows of the previous
    run to those of this one, with the rows whose objects changed. *)

From S2P Require Import Prelude Keys ChunkedRangeVector RangeList IndexSet IndexSetCount IndexSetMerge IndexSetProps.
From S2P Require Import ChangeBuilder KeptElements Collection Tracking TrackedChanges ChangeReport MergeProps RowDiff LongestMatch RowAlignment Calculation CalculateProps.
From S2P Require Import IndexSetShifted Transport MergeMoves MergeChanges ObjectChangeSet TransactLogHandler.
From S2P Require Import DeepChangeChecker RelatedTables DeepCheckProps CollectionNotifier Notifiers.

(** ** Calculating with a predicate that keeps a state *)

Section oracle.
Context `{MaxSize, StdSort} {S : Type} (f : Z -> S -> result (bool * S)) (ok : S -> Prop) (asked P : Z -> Prop).
Context `{!ExactOracle f ok asked P}.
Abbreviation mem v x := (has (ranges v) x).

Lemma add_modifications_ext (g g' : Z -> bool) rows v :
  (forall r, r ∈ rows -> g (key r) = g' (key r)) -> add_modifications g rows v = add_modifications g' rows v.
Proof.
  unfold add_modifications. revert v. induction rows as [|r rows IH]; intros v Hg; [done|]. cbn [fold_result].
  rewrite (Hg r) by (by left). destruct (if g' (key r) then add v (tv_index r) else Ok v); [|done].
  apply IH. intros r' Hr'. apply Hg. by right.
Qed.

(** The answers are those of a function, on the rows asked about. *)
Lemma add_modifications_with_spec rows s :
  ok s -> Forall (fun r => asked (key r)) rows ->
  exists (g : Z -> bool) s', ok s' /\ (forall r, r ∈ rows -> g (key r) = true <-> P (key r)) /\
    forall v, add_modifications_with f rows v s = (m ← add_modifications g rows v; Ok (m, s')).
Proof.
  intros Hs Hr. revert s Hs. induction Hr as [|r rows Hr _ IH]; intros s Hs.
  { exists (fun _ => true), s. split_and!; [done| |done]. by intros r ?%elem_of_nil. }
  destruct (oracle_answer (key r) s Hs Hr) as (b & s1 & E & Hs1 & Hb). destruct (IH s1 Hs1) as (g & s' & Hs' & Hg & Hadd).
  set (g' := fun k => if decide (k = key r) then b else g k). exists g', s'.
  assert (forall r', r' ∈ rows -> g' (key r') = g (key r')) as Hext.
  { intros r' Hr'. unfold g'. case_decide as Ek; [|done]. apply eq_true_iff_eq. by rewrite Hb, Hg, Ek. }
  assert (g' (key r) = b) as Eg by (unfold g'; by rewrite decide_True).
  split_and!; [done| |].
  - intros r' [->|Hr']%elem_of_cons; [by rewrite Eg|]. by rewrite Hext, Hg.
  - intros v. unfold add_modifications_with, add_modifications in *. cbn [fold_result]. rewrite E, Eg. cbn [mbind result_bind].
    destruct b; [destruct (add v (tv_index r)) as [v1|e]|]; cbn [mbind result_bind]; [|done|];
      rewrite Hadd; f_equal; symmetry; by apply (add_modifications_ext g' g).
Qed.

Lemma calculate_with_spec prev next in_table_order s :
  Z.of_nat (length prev) < npos -> Z.of_nat (length next) < npos -> ok s -> Forall asked next ->
  exists (g : Z -> bool) s', (forall k, k ∈ next -> k ∈ prev -> g k = true <-> P k) /\
    calculate_with f prev next in_table_order s = (c ← calculate prev next g in_table_order; Ok (c, s')).
Proof.
  intros Hp Hn Hs Ha. unfold calculate_with, calculate_rows_with, calculate, calculate_rows.
  destruct (match_rows_spec (build_row_info prev) (build_row_info next) [] []) as
    (d & i & l & deleted & inserted & -> & [Hd Hi Hold Hnew Hap]); [..|apply empty_ok|apply empty_ok|].
  { apply Forall_forall. intros r Hr. apply build_row_info_elem in Hr as [? _]. lia. }
  { apply Forall_forall. intros r Hr. apply build_row_info_elem in Hr as [? ?]. split; [lia|done]. }
  cbn [mbind result_bind].
  set (rows := std_sort (fun l r => tv_index l <? tv_index r) (filter (fun row => prev_tv_index row <> npos) l)).
  assert (rows ≡ₚ filter in_both l) as Hrows by apply std_sort_permutation.
  rewrite build_row_info_pairs, <- Hrows in Hold, Hnew.
  destruct (add_modifications_with_spec rows s Hs) as (g & s' & _ & Hg & E).
  { apply Forall_forall. intros r Hr. rewrite Forall_forall in Ha. apply Ha.
    rewrite <- (enum_fst 0 next), Hnew, fmap_app, <- list_fmap_compose, elem_of_app. right. by apply list_elem_of_fmap_2 with (f := key). }
  exists g, s'. split.
  - intros k Hk Hk'. rewrite <- (enum_fst 0 next), Hnew, fmap_app, <- list_fmap_compose, elem_of_app in Hk.
    destruct Hk as [Hk|(r & -> & Hr)%list_elem_of_fmap]; [|by apply Hg].
    rewrite <- (enum_fst 0 prev), Hold, fmap_app, <- list_fmap_compose, elem_of_app in Hk'.
    destruct Hk' as [Hk'|(r & -> & Hr)%list_elem_of_fmap]; [|by apply Hg].
    by destruct (Hap (build_row_info_sorted _) (build_row_info_sorted _) k Hk').
  - rewrite E. destruct (add_modifications g rows []) as [m|e]; [|done]. cbn [mbind result_bind].
    by destruct (if in_table_order then Ok (d, i) else calculate_moves_sorted rows d i m) as [[d' i']|e].
Qed.
End oracle.

(** ** What [calculate] says of the two lists *)

Section calculated.
Context `{MaxSize, StdSort}.
Abbreviation mem v x := (has (ranges v) x).

Lemma no_moves_in {A} (old cur : list A) d i :
  index_set_ok d -> index_set_ok i -> keep (ranges d) 0 old = keep (ranges i) 0 cur -> moves_in old cur [] d i.
Proof. intros Hd Hi Hk. split; [done|done|done|apply Forall_nil_2|apply NoDup_nil_2|apply NoDup_nil_2]. Qed.

Lemma calculate_tracks prev next f in_table_order :
  Z.of_nat (length prev) < npos -> Z.of_nat (length next) < npos ->
  (in_table_order = true -> StronglySorted Z.lt prev /\ StronglySorted Z.lt next) ->
  exists c, calculate prev next f in_table_order = Ok c /\ tracks c prev next /\ moves c = [] /\
    (forall x, mem (modifications c) x -> exists k, nth_Z next x = Some k /\ f k = true /\ k ∈ prev) /\
    (forall x k, nth_Z next x = Some k -> f k = true -> mem (insertions c) x \/ mem (modifications c) x).
Proof.
  intros Hp Hn Ho. destruct (calculate_start prev next f Hp Hn) as (d & i & m & rows & deleted & inserted & Hc & ->).
  assert (exists d' i', (if in_table_order then Ok (d, i) else calculate_moves_sorted rows d i m) = Ok (d', i') /\
    aligned (rows_by_index rows) rows d i d' i') as (d' & i' & -> & Ha).
  { destruct in_table_order; [|by apply (calculated_moves Hc)]. destruct (Ho eq_refl) as [Hsp Hsn].
    exists d, i. split; [done|]. apply (aligned_refl Hc). by apply (ascending_same_order Hc). }
  cbn [mbind result_bind]. eexists. split; [done|].
  destruct (aligned_bounds Hc d' i' Ha) as [Hbd Hbi]. pose proof (al_ok _ _ _ _ _ _ Ha) as [Hd Hi].
  destruct (calculation_verified _ _ _ _ _ _ _ _ _ _ _ Hc Ha) as [_ Hm].
  assert (forall x, mem m x -> exists k, nth_Z next x = Some k /\ f k = true /\ k ∈ prev) as Hmod.
  { intros x (row & Hr & Hf & ->)%(modified_rows Hc). exists (key row).
    split_and!; [by apply (next_row Hc)|done|by apply (in_both_lists Hc)]. }
  assert (forall k x, mem (marked (Builder d' i' m [] [] ∅ true) k) x -> mem m x) as Hcol.
  { intros [col|] x; [|done]. cbn [marked columns]. rewrite column_empty. by intros ?%has_nil. }
  split; [|done]. split; cbn [deletions insertions moves m_track_columns]; try done.
  - apply no_moves_in; [done|done|by apply (aligned_kept Hc)].
  - intros [col|]; [|apply (ca_modifications Hc)]. cbn [marked columns]. rewrite column_empty. apply empty_ok.
  - intros k x (k' & Hx%nth_lt & _)%Hcol%Hmod. lia.
Qed.

(** All rows of a list deleted. *)
Lemma deletions_tracks {A} (prev : list A) d :
  index_set_ok d -> (forall x, mem d x <-> 0 <= x < Z.of_nat (length prev)) ->
  tracks (with_deletions d empty_builder) prev [].
Proof.
  intros Hd Hm. split; cbn; try done.
  - apply no_moves_in; [done|apply empty_ok|by rewrite keep_none by (intros x Hx; apply Hm; lia)].
  - apply below_of_has; [apply sorted_ok, Hd|]. intros x ?%Hm. lia.
  - by apply Forall_nil_2.
  - intros [col|]; cbn; [rewrite column_empty|]; apply empty_ok.
  - intros [col|] x; cbn; [rewrite column_empty|]; by intros ?%has_nil.
  - intros [col|] x; cbn; [rewrite column_empty|]; by intros ?%has_nil.
Qed.

Lemma empty_tracks {A} (rows : list A) t : t = true -> tracks (Builder [] [] [] [] [] ∅ t) rows rows.
Proof.
  intros ->. split; cbn; try done.
  - by apply no_moves_in; [apply empty_ok..|].
  - by apply Forall_nil_2.
  - by apply Forall_nil_2.
  - intros [col|]; cbn; [rewrite column_empty|]; apply empty_ok.
  - intros [col|] x; cbn; [rewrite column_empty|]; by intros ?%has_nil.
  - intros [col|] x; cbn; [rewrite column_empty|]; by intros ?%has_nil.
Qed.

(** Ranges below [n] that are apart from each other are at most half as many. *)
Lemma sorted_length lo n (r : list (Z * Z)) : sorted r -> from lo r -> below n r -> lo <= n + 1 -> 2 * Z.of_nat (length r) <= n + 1 - lo.
Proof.
  revert lo. induction r as [|p r IH]; intros lo; [simpl; lia|].
  intros (Hp & Ha & Hs)%sorted_cons [Hlo _]%from_cons [Hn Hb]%below_cons _.
  apply apart_from in Ha. specialize (IH (snd p + 1) Hs Ha Hb ltac:(lia)). destruct Hp as [? ?]. simpl length. lia.
Qed.

Lemma small_deletions_fit {A} b c (old mid cur : list A) :
  tracks b old mid -> tracks c mid cur ->
  Z.of_nat (length old) + Z.of_nat (length mid) + Z.of_nat (length cur) < npos ->
  (length old <= 2 * max_size)%nat -> deletions_fit b c.
Proof.
  intros Hb Hc Hs Hmax d E.
  destruct (add_shifted_by_spec (deletions b) (insertions b) (deletions c)) as (d' & E' & Hsd & _ & _ & Hm).
  - apply Hb.
  - apply Hb.
  - apply Hc.
  - eapply below_weaken; [apply (tr_old _ _ _ Hc)|].
    pose proof (width_below old mid cur _ _ (mi_deletions _ _ _ _ _ (tr_moves _ _ _ Hb)) (Nat2Z.is_nonneg _) (tr_old _ _ _ Hb)). lia.
  - rewrite E in E'. injection E' as <-.
    assert (below (Z.of_nat (length old)) (ranges d)) as Hbd.
    { apply below_of_has; [by apply sorted_ok|]. intros x [Hx|(i & Hi & Hn & ->)]%Hm.
      - by apply (has_below _ _ _ (tr_old _ _ _ Hb)).
      - apply (from_first b old mid cur Hb Hs); [|done].
        apply (mid_index old mid cur (deletions c)); [apply (mi_deletions _ _ _ _ _ (tr_moves _ _ _ Hc))|apply (tr_old _ _ _ Hc)|done]. }
    pose proof (sorted_length 0 _ _ Hsd (sorted_from_0 _ (sorted_ok _ Hsd)) Hbd ltac:(lia)).
    assert (1 * max_size <= (length (ranges (deletions b)) / max_size + 1) * max_size)%nat
      by (apply Nat.mul_le_mono_r; lia). lia.
Qed.
End calculated.

(** ** The run of a results notifier *)

(** The tables of a group, and the objects of its table [root] that a notifier asks about. *)
Class NotifierTables `{LinkedTables} (all : gset Z) (root : TableKey) : Prop := {
  group_columns : ColumnsApart;
  group_closed : forall t1 t2, t1 ∈ all -> links_to t1 t2 -> t2 ∈ all;
  group_root : root ∈ all;
  group_no_self_link : ~ links_to root root
}.

(** The related tables are up to date, or the schema changed and they are collected again. *)
Definition related_current `{Tables} (all : gset Z) (root : TableKey) (info : TransactionChangeInfo) related : Prop :=
  schema_changed info = true \/ set_table (size all) root = Ok related.

Section results_run.
Context `{MaxSize, StdSort, LinkedTables} (all : gset Z) (root : TableKey) `{!NotifierTables all root}.
Abbreviation mem v x := (has (ranges v) x).
Implicit Types n : ResultsNotifier.

(** The rows modified are those whose objects changed, or link to an object that did. *)
Definition modified_objects (info : TransactionChangeInfo) (c : CollectionChangeBuilder) (prev next : list Z) : Prop :=
  (forall x, mem (modifications c) x -> exists k, nth_Z next x = Some k /\ k ∈ prev /\ reaches info 3 (root, k)) /\
  (forall x k, nth_Z next x = Some k -> k ∈ prev -> reaches info 3 (root, k) ->
     mem (insertions c) x \/ mem (modifications c) x).

Lemma calculate_changes_spec info rows n :
  related_current all root info (rn_related_tables n) ->
  Forall (fun key => has_object root key = true) rows ->
  m_has_run (rn_base n) = true -> m_have_callbacks (rn_base n) = true ->
  Z.of_nat (length (m_previous_rows n)) < npos -> Z.of_nat (length rows) < npos ->
  (m_target_is_in_table_order n = true -> StronglySorted Z.lt (m_previous_rows n) /\ StronglySorted Z.lt rows) ->
  exists c related, calculate_changes (size all) info root rows n =
      Ok (MkResultsNotifier (with_m_change c (rn_base n)) related (m_target_is_in_table_order n)
            (m_last_seen_version n) rows (m_results_were_used n)) /\
    set_table (size all) root = Ok related /\
    tracks c (m_previous_rows n) rows /\ moves c = [] /\ modified_objects info c (m_previous_rows n) rows.
Proof.
  intros Hrel Hobj Hrun Hcb Hp Hn Ho. unfold calculate_changes. rewrite Hrun, Hcb. cbn [andb].
  destruct (checker_oracle (apart := group_columns) info all root (rn_related_tables n)) as (checker & ok & -> & Er & Hok & Horc);
    [apply group_closed|apply group_root|done|apply group_no_self_link|].
  cbn [mbind result_bind].
  destruct (calculate_with_spec _ _ _ _ (m_previous_rows n) rows (m_target_is_in_table_order n) make_checker Hp Hn Hok Hobj)
    as (g & s' & Hg & ->).
  destruct (calculate_tracks (m_previous_rows n) rows g _ Hp Hn Ho) as (c & -> & Ht & Hm & Hm1 & Hm2).
  cbn [mbind result_bind]. exists c, (fst checker). split_and!; [done|done|done|done|]. split.
  - intros x (k & Hx & Hgk & Hk)%Hm1. exists k. split_and!; [done|done|]. apply Hg; [|done|done].
    destruct (split_at_Z _ _ _ Hx) as (l1 & l2 & -> & _). apply elem_of_app. right. by left.
  - intros x k Hx Hk Hr. apply (Hm2 x k Hx). apply Hg; [|done|done].
    destruct (split_at_Z _ _ _ Hx) as (l1 & l2 & -> & _). apply elem_of_app. right. by left.
Qed.

(** What a run may be faced with. *)
Record run_ok (info : TransactionChangeInfo) (q : QueryState) n : Prop := {
  ro_table : q_table q = None \/ q_table q = Some root;
  ro_related : related_current all root info (rn_related_tables n);
  ro_objects : Forall (fun key => has_object root key = true) (q_rows q);
  ro_run : m_has_run (rn_base n) = true;
  ro_callbacks : m_have_callbacks (rn_base n) = true;
  ro_size : Z.of_nat (length (q_rows q)) < npos;
  ro_order : m_target_is_in_table_order n = true -> StronglySorted Z.lt (m_previous_rows n) /\ StronglySorted Z.lt (q_rows q)
}.

(** The rows after the run: none when the table is gone, those of the view when the query had to
    be run again. *)
Definition rows_after (open : bool) (q : QueryState) n : list Z :=
  match q_table q with
  | None => []
  | Some _ => if need_to_run open q n then q_rows q else m_previous_rows n
  end.

Lemma results_run_spec info open q n :
  run_ok info q n -> Z.of_nat (length (m_previous_rows n)) < npos ->
  tracks (m_change (rn_base n)) (m_previous_rows n) (m_previous_rows n) ->
  exists n' c, results_run (size all) info open q n = Ok n' /\ rn_base n' = with_m_change c (rn_base n) /\
    m_previous_rows n' = rows_after open q n /\ m_target_is_in_table_order n' = m_target_is_in_table_order n /\
    (rn_related_tables n' = rn_related_tables n \/ set_table (size all) root = Ok (rn_related_tables n')) /\
    tracks c (m_previous_rows n) (m_previous_rows n') /\
    (q_table q = Some root -> need_to_run open q n = true -> moves c = [] /\ modified_objects info c (m_previous_rows n) (q_rows q)).
Proof.
  intros Hro Hp He. destruct (ro_table _ _ _ Hro) as [Et|Et]; unfold results_run, rows_after; rewrite Et.
  - destruct (set_spec [] (Z.of_nat (length (m_previous_rows n))) ltac:(lia)) as (d & -> & Hd & Hm).
    cbn [mbind result_bind]. eexists _, _. split_and!; [done|done|done|done|by left| |done].
    by apply deletions_tracks.
  - destruct (need_to_run open q n); cbn [negb].
    + set (n0 := MkResultsNotifier _ _ _ _ _ _).
      destruct (calculate_changes_spec info (q_rows q) n0) as (c & related & -> & Er & Ht & Hm & Hmo); try apply Hro; [done|].
      eexists _, c. split_and!; [done|done|done|done|by right|done|done].
    + exists n, (m_change (rn_base n)). split_and!; [done|by destruct (rn_base n)|done|done|by left|done|done].
Qed.
End results_run.

(** ** The run of a list notifier *)

Section list_run.
Context `{MaxSize}.
Abbreviation mem v x := (has (ranges v) x).

Section changed.
Context {S : Type} (f : Z -> S -> result (bool * S)) (ok : S -> Prop) (asked P : Z -> Prop).
Context `{!ExactOracle f ok asked P}.

(** The row [x] is one of [keys] for which [P] holds. *)
Definition changed_row (keys : list ObjKey) (x : Z) : Prop := exists k, nth_Z keys x = Some k /\ P k.

Lemma add_if_changed_spec keys m s i :
  index_set_ok m -> ok s -> Forall asked keys -> Z.of_nat (length keys) < npos -> 0 <= i < Z.of_nat (length keys) ->
  exists m' s', add_if_changed f keys (m, s) i = Ok (m', s') /\ index_set_ok m' /\ ok s' /\
    forall x, mem m' x <-> mem m x \/ x = i /\ changed_row keys x.
Proof.
  intros Hm Hs Hk Hn Hi. unfold add_if_changed.
  destruct (contains_spec m i Hm) as (b & -> & Hb). cbn [mbind result_bind]. destruct b.
  { exists m, s. split_and!; [done|done|done|]. intros x. split; [by left|]. intros [?|[-> _]]; [done|by apply Hb]. }
  destruct (nth_is_Some keys i Hi) as [k Ek]. pose proof Ek as Ek'. unfold nth_Z in Ek. case_decide; [|done]. rewrite Ek.
  rewrite Forall_lookup in Hk. destruct (oracle_answer k s Hs (Hk _ _ Ek)) as (b & s' & -> & Hs' & Hp). cbn [mbind result_bind].
  assert (changed_row keys i <-> P k) as Hc.
  { unfold changed_row. rewrite Ek'. split; [by intros (? & [= <-] & ?)|]. by exists k. }
  destruct b.
  - destruct (add_spec m i Hm) as (m' & -> & Hm' & Hmm); [lia|]. cbn [mbind result_bind].
    exists m', s'. split_and!; [done|done|done|]. intros x. rewrite Hmm. destruct (decide (x = i)) as [->|]; [|tauto].
    rewrite Hc, <- Hp. tauto.
  - exists m, s'. split_and!; [done|done|done|]. intros x. split; [by left|]. intros [?|[-> Hx]]; [done|].
    by apply Hc, Hp in Hx.
Qed.

Lemma add_if_changed_all keys l m s :
  index_set_ok m -> ok s -> Forall asked keys -> Z.of_nat (length keys) < npos ->
  Forall (fun i => 0 <= i < Z.of_nat (length keys)) l ->
  exists m' s', fold_result (add_if_changed f keys) (m, s) l = Ok (m', s') /\ index_set_ok m' /\ ok s' /\
    forall x, mem m' x <-> mem m x \/ x ∈ l /\ changed_row keys x.
Proof.
  intros Hm Hs Hk Hn Hl. revert m s Hm Hs. induction Hl as [|i l Hi _ IH]; intros m s Hm Hs.
  { exists m, s. split_and!; [done|done|done|]. intros x. rewrite elem_of_nil. tauto. }
  destruct (add_if_changed_spec keys m s i Hm Hs Hk Hn Hi) as (m1 & s1 & E1 & Hm1 & Hs1 & Hx1).
  destruct (IH m1 s1 Hm1 Hs1) as (m' & s' & E & Hm' & Hs' & Hx). exists m', s'. cbn [fold_result]. rewrite E1.
  cbn [mbind result_bind]. split_and!; [done|done|done|]. intros x. rewrite Hx, Hx1, elem_of_cons. tauto.
Qed.

(** Both loops: the second finds no row that the first has not seen. *)
Lemma add_changed_rows_spec keys (l : list Move) m s :
  index_set_ok m -> ok s -> Forall asked keys -> Z.of_nat (length keys) < npos ->
  Forall (fun mv => 0 <= move_to mv < Z.of_nat (length keys)) l ->
  exists m' s', add_changed_rows f keys l m s = Ok (m', s') /\ index_set_ok m' /\
    forall x, mem m' x <-> mem m x \/ changed_row keys x.
Proof.
  intros Hm Hs Hk Hn Hl. unfold add_changed_rows.
  destruct (add_if_changed_all keys (seqZ 0 (Z.of_nat (length keys))) m s) as (m1 & s1 & -> & Hm1 & Hs1 & Hx1); try done.
  { apply Forall_forall. intros i Hi%elem_of_seqZ. lia. }
  cbn [mbind result_bind].
  destruct (add_if_changed_all keys (move_to <$> l) m1 s1) as (m' & s' & -> & Hm' & _ & Hx); try done.
  { by apply Forall_fmap. }
  exists m', s'. split_and!; [done|done|]. intros x. rewrite Hx, Hx1, elem_of_seqZ. split; [tauto|].
  intros [?|Hc]; [tauto|]. left. right. split; [|done]. destruct Hc as (k & Hk'%nth_lt & _). lia.
Qed.
End changed.

(** More rows marked as modified. *)
Lemma more_modified {A} b (old cur : list A) m :
  tracks b old cur -> index_set_ok m -> (forall x, mem (modifications b) x -> mem m x) ->
  (forall x, mem m x -> x < Z.of_nat (length cur)) -> tracks (with_modifications m (columns b) b) old cur.
Proof.
  intros [Hmv Ho Hc Hok Hm Hcol Ht] Hokm Hle Hlt. split; try done.
  - intros [col|]; [apply (Hok (Some col))|done].
  - intros [col|] x; [apply (Hm (Some col))|apply Hlt].
  - intros [col|] x; [|done]. intros Hx. apply Hle. by apply (Hcol (Some col)).
Qed.

Context `{LinkedTables} (all : gset Z) (target : TableKey) `{!NotifierTables all target}.

(** When the change that the observer recorded for a list of links leads from the old list
    to the current one, the run of its notifier succeeds and keeps the deletions, insertions,
    moves and columns; the modified rows are now those that were set and those whose objects
    were modified, or link to a modified object over at most three links, new rows included.
    The change still leads from the old list to the new one, whose size is remembered. *)
Theorem list_run_reported info (old keys : list ObjKey) n :
  related_current all target info (ln_related_tables n) -> Forall (fun key => has_object target key = true) keys ->
  ln_links n = true -> ln_target n = target -> Z.of_nat (length keys) < npos ->
  tracks (m_change (ln_base n)) old keys ->
  exists n' m, list_run (size all) info (Some keys) n = Ok n' /\
    m_change (ln_base n') = with_modifications m (columns (m_change (ln_base n))) (m_change (ln_base n)) /\
    tracks (m_change (ln_base n')) old keys /\ ln_prev_size n' = Z.of_nat (length keys) /\
    forall x, mem m x <-> mem (modifications (m_change (ln_base n))) x \/
      changed_row (fun key => reaches info 3 (target, key)) keys x.
Proof.
  intros Hrel Hobj Hl Et Hn Ht. unfold list_run. rewrite Hl, Et.
  destruct (checker_oracle (apart := group_columns) info all target (ln_related_tables n)) as (checker & ok & -> & _ & Hok & Horc);
    [apply group_closed|apply group_root|done|apply group_no_self_link|].
  cbn [mbind result_bind]. pose proof (tr_moves _ _ _ Ht) as [_ _ _ Hmv _ _].
  destruct (add_changed_rows_spec _ _ _ _ keys (moves (m_change (ln_base n))) (modifications (m_change (ln_base n))) make_checker)
    as (m & s & -> & Hm & Hx); [apply (tr_marks_ok _ _ _ Ht None)|done|done|done| |].
  { eapply Forall_impl; [exact Hmv|]. intros mv (_ & _ & a & _ & Ha%nth_lt). lia. }
  cbn [mbind result_bind]. eexists _, m. split_and!; [done|done| |done|done].
  apply more_modified; [done|done|intros x ?; apply Hx; by left|]. intros x [Hx'|(k & Hk%nth_lt & _)]%Hx; [|lia].
  by apply (tr_marks _ _ _ Ht None).
Qed.
End list_run.

(** ** A list of dogs *)

Import SampleTables.

#[export] Instance sample_notifier_tables : NotifierTables ({[1; 2; 3]} : gset Z) 2.
Proof.
  split.
  - exact sample_apart.
  - intros t1 t2 _ (l & _ & <-). cbn [get_link_target sample_tables]. destruct (link_col l =? 11); set_solver.
  - set_solver.
  - intros (l & Hl & Ht). vm_compute in Hl. apply list_elem_of_singleton in Hl. subst l. vm_compute in Ht. discriminate.
Qed.

(** The list was [2; 1; 5] and is [2; 6; 1; 5], with 6 inserted; the owner of dog 1 was modified. *)
Definition owner_modified : TransactionChangeInfo := ChangeInfo [] {[1 := modifications_add 2 10 no_object_changes]} false false.

Definition dogs_inserted : CollectionChangeBuilder :=
  match @perform_changes max_size_debug Z [CInsert 1 [6]] (fresh <$> [2; 1; 5]) empty_builder with
  | Ok b => b
  | Err _ => empty_builder
  end.

Definition dogs_list : ListNotifier :=
  MkListNotifier (with_change dogs_inserted true new_notifier) [Related 2 [Link 21 false]; Related 1 [Link 11 false; Link 12 true]]
    true 2 3.

Lemma dogs_inserted_tracks : @tracks max_size_debug Z dogs_inserted [2; 1; 5] [2; 6; 1; 5].
Proof.
  destruct (@changes_steps max_size_debug Z [CInsert 1 [6]] empty_builder [2; 1; 5] (fresh <$> [2; 1; 5])) as (b & E & Hd);
    [by apply describes_start|by_evaluation|].
  assert (dogs_inserted = b) as -> by (unfold dogs_inserted; by rewrite E).
  change [2; 6; 1; 5] with (ids (apply_changes [CInsert 1 [6]] (fresh <$> [2; 1; 5]))).
  apply describes_tracks; [exact Hd|apply rows_marked_Forall, changes_marked, fresh_marked].
Qed.

Lemma list_run_reported_witness :
  exists n' m, @list_run max_size_debug sample_tables 3 owner_modified (Some [2; 6; 1; 5]) dogs_list = Ok n' /\
    @tracks max_size_debug Z (m_change (ln_base n')) [2; 1; 5] [2; 6; 1; 5] /\ ln_prev_size n' = 4 /\
    m_change (ln_base n') = with_modifications m ∅ dogs_inserted /\ indexes (ranges m) = [2].
Proof.
  destruct (@list_run_reported max_size_debug sample_tables sample_linked {[1; 2; 3]} 2 sample_notifier_tables owner_modified
    [2; 1; 5] [2; 6; 1; 5] dogs_list) as (n' & m & E & Em & T & S & _).
  - right. vm_compute. reflexivity.
  - by_evaluation.
  - reflexivity.
  - reflexivity.
  - vm_compute. reflexivity.
  - exact dogs_inserted_tracks.
  - exists n', m. split; [exact E|]. split; [exact T|]. split; [exact S|]. split; [exact Em|].
    vm_compute in E. injection E as <-. vm_compute in Em. injection Em as <-. reflexivity.
Defined.

(** When the object of a list is removed after the list was changed in the same transaction, the
    observer forgets the list and leaves its change as it is: the run reports all old rows as
    deleted, and still the insertion into a list that is gone. *)
Theorem removed_list_keeps_insertions :
  exists n', @list_run max_size_debug sample_tables 3 owner_modified None dogs_list = Ok n' /\
    indexes (ranges (deletions (m_change (ln_base n')))) = [0; 1; 2] /\
    indexes (ranges (insertions (m_change (ln_base n')))) = [1].
Proof. eexists. split; [vm_compute; reflexivity|]. split; reflexivity. Qed.
