(* ===== verification/NotifierPipeline.v ===== *)
(** From the runs of a results notifier to what its callbacks are told: the changes of the runs
    since the last delivery, accumulated for each callback, are the change from the rows of the
    last delivery to the rows of the last run. *)

From S2P Require Import Prelude Keys ChunkedRangeVector RangeList IndexSet IndexSetMerge IndexSetProps.
From S2P Require Import ChangeBuilder KeptElements Collection ChangeReport RowDiff Transport MergeMoves MergeChanges MergeProps.
From S2P Require Import ObjectChangeSet TransactLogHandler DeepChangeChecker RelatedTables DeepCheckProps.
From S2P Require Import CollectionNotifier Notifiers NotifierRuns.

(** ** Accumulated changes *)

Section handover.
Context `{MaxSize}.
Implicit Types base : CollectionNotifier.

(** Sizes at which nothing overflows. *)
Definition modest {A} (l : list A) : Prop := Z.of_nat (length l) <= 2 ^ 62.

#[export] Instance modest_dec {A} (l : list A) : Decision (modest l).
Proof. unfold modest. apply _. Defined.

(** The callback has accumulated the change from [old] to [cur]. *)
Record accumulates {A} (old cur : list A) cb : Prop := {
  ac_tracks : tracks (accumulated_changes cb) old cur;
  ac_skip : skip_next cb = false
}.

Lemma map_callbacks_spec (f : Callback -> result Callback) (P Q : Callback -> Prop) l :
  (forall cb, P cb -> exists cb', f cb = Ok cb' /\ Q cb' /\ token cb' = token cb) -> Forall P l ->
  exists l', map_callbacks f l = Ok l' /\ Forall Q l' /\ token <$> l' = token <$> l.
Proof.
  intros Hf. induction 1 as [|cb l Hcb _ (l' & E & Hl & Ht)]; [by exists []|].
  destruct (Hf cb Hcb) as (cb' & Ecb & Hq & Etok). exists (cb' :: l'). cbn [map_callbacks].
  rewrite Ecb, E. cbn [mbind result_bind]. split_and!; [done|by constructor|by rewrite !fmap_cons, Etok, Ht].
Qed.

Lemma add_changes_spec {A} (old mid cur : list A) change base :
  modest old -> modest mid -> modest cur -> (length old <= 2 * max_size)%nat ->
  Forall (accumulates old mid) (m_callbacks base) -> tracks change mid cur ->
  exists l, add_changes change base = Ok (with_callbacks l base) /\ Forall (accumulates old cur) l /\
    token <$> l = token <$> m_callbacks base.
Proof.
  unfold modest. intros Ho Hm Hc Hmax Hcbs Hch. unfold add_changes.
  destruct (map_callbacks_spec (add_change change) (accumulates old mid) (accumulates old cur) (m_callbacks base))
    as (l & -> & Hl & Ht); [|done|].
  - intros cb [Htr Hsk]. unfold add_change. rewrite Hsk.
    assert (Z.of_nat (length old) + Z.of_nat (length mid) + Z.of_nat (length cur) < npos) as Hs
      by (unfold npos, word_size; lia).
    destruct (merge_spec (accumulated_changes cb) change old mid cur Htr Hch Hs) as (b' & -> & Hb & _);
      [by apply (small_deletions_fit _ _ old mid cur)|].
    cbn [mbind result_bind]. eexists. split; [done|]. split; [split; [exact Hb|done]|done].
  - cbn [mbind result_bind]. by exists l.
Qed.

Lemma prepare_handover_spec {A} (old mid cur : list A) base :
  modest old -> modest mid -> modest cur -> (length old <= 2 * max_size)%nat ->
  Forall (accumulates old mid) (m_callbacks base) -> tracks (m_change base) mid cur ->
  exists base', prepare_handover base = Ok base' /\ Forall (accumulates old cur) (m_callbacks base') /\
    token <$> m_callbacks base' = token <$> m_callbacks base /\ tracks (m_change base') cur cur /\
    m_has_run base' = true /\ m_have_callbacks base' = m_have_callbacks base.
Proof.
  intros Ho Hm Hc Hmax Hcbs Hch. unfold prepare_handover.
  destruct (add_changes_spec old mid cur (m_change base) base Ho Hm Hc Hmax Hcbs Hch) as (l & -> & Hl & Ht).
  cbn [mbind result_bind]. eexists. split; [done|]. split_and!; try done. apply empty_tracks, Hch.
Qed.

(** What a callback is told of the change from [old] to [cur]. *)
Record told {A} (old cur : list A) (cs : CollectionChangeSet) : Prop := {
  td_replay : replay old cur (cs_deletions cs) (cs_insertions cs) = Ok cur;
  td_moves : Forall (fun m => has (ranges (cs_deletions cs)) (move_from m) /\ has (ranges (cs_insertions cs)) (move_to m) /\
    exists a, nth_Z old (move_from m) = Some a /\ nth_Z cur (move_to m) = Some a) (cs_moves cs);
  td_modifications : forall x, has (ranges (cs_modifications cs)) x <->
    exists y, has (ranges (cs_modifications_new cs)) y /\ x = later (cs_insertions cs) (cs_deletions cs) y /\
      nth_Z old x = nth_Z cur y;
  td_new : forall y, has (ranges (cs_modifications_new cs)) y -> ~ has (ranges (cs_insertions cs)) y
}.

Lemma finalize_told {A} (old cur : list A) b :
  modest old -> modest cur -> tracks b old cur ->
  exists cs, finalize b = Ok cs /\ told old cur cs /\ cs_moves cs = moves b.
Proof.
  unfold modest. intros Ho Hc Ht.
  destruct (finalize_tracks _ _ _ Ht) as (cs & -> & Ed & Ei & Em & Hr & Hn & Hold); [unfold npos, word_size; lia..|].
  exists cs. split_and!; [done| |done]. split; rewrite ?Ed, ?Ei, ?Em; [done|apply Ht|done|]. by intros y [_ ?]%Hn.
Qed.

Lemma package_spec {A} (old cur : list A) base :
  modest old -> modest cur -> Forall (accumulates old cur) (m_callbacks base) ->
  exists base', package_for_delivery true base = Ok (base', true) /\
    Forall (fun cb => told old cur (changes_to_deliver cb) /\ accumulates cur cur cb) (m_callbacks base') /\
    token <$> m_callbacks base' = token <$> m_callbacks base /\
    m_callback_count base' = Z.of_nat (length (m_callbacks base)) /\ m_change base' = m_change base.
Proof.
  intros Ho Hc Hcbs. unfold package_for_delivery. cbn [negb].
  destruct (map_callbacks_spec package_callback (accumulates old cur)
    (fun cb => told old cur (changes_to_deliver cb) /\ accumulates cur cur cb) (m_callbacks base)) as (l & -> & Hl & Ht); [|done|].
  - intros cb [Htr Hsk]. unfold package_callback.
    destruct (finalize_told old cur _ Ho Hc Htr) as (cs & -> & Htold & _).
    cbn [mbind result_bind]. eexists. split; [done|]. split_and!; [done|split; [apply empty_tracks, Htr|done]|done].
  - cbn [mbind result_bind]. eexists. split; [done|]. cbn. split_and!; [done|done| |done].
    f_equal. apply (f_equal length) in Ht. by rewrite !length_fmap in Ht.
Qed.
End handover.

(** ** Runs of a results notifier *)

(** A run with the database, the changes and the query that it sees; [r_tables] is a group that
    the table of the query belongs to. *)
Record run := MkRun {
  r_database : Tables;
  r_tables : gset Z;
  r_root : TableKey;
  r_info : TransactionChangeInfo;
  r_open : bool;
  r_query : QueryState
}.

Section pipeline.
Context `{MaxSize, StdSort}.
Implicit Types n : ResultsNotifier.

Definition with_base base n : ResultsNotifier :=
  MkResultsNotifier base (rn_related_tables n) (m_target_is_in_table_order n) (m_last_seen_version n)
    (m_previous_rows n) (m_results_were_used n).

(** The run and the handover after it. *)
Definition run_and_hand_over (r : run) n : result ResultsNotifier :=
  n ← @results_run _ _ (r_database r) (size (r_tables r)) (r_info r) (r_open r) (r_query r) n;
  base ← prepare_handover (rn_base n); Ok (with_base base n).

Definition run_all (l : list run) n : result ResultsNotifier := fold_result (fun n r => run_and_hand_over r n) n l.

(** What each of the runs may be faced with: links lead to objects, no two tables share a column
    key, the group contains what its tables link to, and the table of the query does not link to
    itself. *)
Definition run_valid (r : run) n : Prop :=
  @LinkedTables (r_database r) /\ @ColumnsApart (r_database r) /\
  (forall t1 t2, t1 ∈ r_tables r -> @links_to (r_database r) t1 t2 -> t2 ∈ r_tables r) /\
  r_root r ∈ r_tables r /\ ~ @links_to (r_database r) (r_root r) (r_root r) /\
  @run_ok (r_database r) (r_tables r) (r_root r) (r_info r) (r_query r) n /\ modest (q_rows (r_query r)).

Fixpoint runs_valid (l : list run) n : Prop :=
  match l with
  | [] => True
  | r :: l => run_valid r n /\ forall n', run_and_hand_over r n = Ok n' -> runs_valid l n'
  end.

(** The notifier has run, and its callbacks have accumulated the changes since [old]. *)
Record following (old : list Z) n : Prop := {
  fo_callbacks : Forall (accumulates old (m_previous_rows n)) (m_callbacks (rn_base n));
  fo_change : tracks (m_change (rn_base n)) (m_previous_rows n) (m_previous_rows n);
  fo_size : modest (m_previous_rows n)
}.

Lemma run_and_hand_over_spec old r n :
  modest old -> (length old <= 2 * max_size)%nat -> following old n -> run_valid r n ->
  exists n', run_and_hand_over r n = Ok n' /\ following old n' /\
    token <$> m_callbacks (rn_base n') = token <$> m_callbacks (rn_base n) /\
    m_previous_rows n' = rows_after (r_open r) (r_query r) n.
Proof.
  intros Ho Hmax [Hcbs Hch Hsz] (Hl & Hcols & Hcl & Hr & Hself & Hro & Hq). unfold run_and_hand_over.
  pose proof (Build_NotifierTables (r_database r) Hl (r_tables r) (r_root r) Hcols Hcl Hr Hself) as Hnt.
  destruct (@results_run_spec _ _ (r_database r) Hl (r_tables r) (r_root r) Hnt (r_info r) (r_open r) (r_query r) n Hro)
    as (n1 & c & -> & Eb & Ep & _ & _ & Ht & _); [unfold modest, npos, word_size in *; lia|done|].
  cbn [mbind result_bind].
  assert (modest (m_previous_rows n1)) as Hsz1.
  { rewrite Ep. unfold rows_after. destruct (q_table _); [|unfold modest; simpl; lia]. by destruct (need_to_run _ _ _). }
  destruct (prepare_handover_spec old (m_previous_rows n) (m_previous_rows n1) (rn_base n1))
    as (base' & -> & Hcbs' & Htok & Hch' & _); [done|done|done|done|by rewrite Eb|by rewrite Eb|].
  cbn [mbind result_bind]. eexists. split; [done|]. split_and!; [by split|cbn; by rewrite Htok, Eb|done].
Qed.

Lemma run_all_spec old l n :
  modest old -> (length old <= 2 * max_size)%nat -> following old n -> runs_valid l n ->
  exists n', run_all l n = Ok n' /\ following old n' /\ token <$> m_callbacks (rn_base n') = token <$> m_callbacks (rn_base n).
Proof.
  intros Ho Hmax. revert n. induction l as [|r l IH]; intros n Hf Hv; [by exists n|]. destruct Hv as [Hr Hv].
  destruct (run_and_hand_over_spec old r n Ho Hmax Hf Hr) as (n1 & E & Hf1 & Ht1 & _).
  destruct (IH n1 Hf1 (Hv n1 E)) as (n' & En & Hf' & Ht'). exists n'. unfold run_all in *. cbn [fold_result].
  rewrite E. cbn [mbind result_bind]. split_and!; [done|done|by rewrite Ht'].
Qed.
(** ** Theorems *)

(** C14: a results notifier whose callbacks have been told of the rows [old] runs any number of
    times, on newer and newer databases, and hands its changes over after each run.  All of it
    succeeds, and then every callback is told of the change from [old] to the rows of the last
    run: erasing the deletions from [old] and inserting the insertions gives the new rows, each
    move reported moved a row, and the modifications are the same rows before and after.  After
    that the callbacks follow the new rows.  The rows of [old] are at most [2 * max_size], 512 in a
    release build: for these the chunks allocated for the deletions suffice.  In every database
    that a run sees ([run_valid]) rows and links lead to objects, no two tables share a column key,
    and the table of the query does not link to itself; the related tables are up to date unless
    the schema changed, and rows that are taken to be in table order are strictly ascending. *)
Theorem results_told old l n :
  modest old -> (length old <= 2 * max_size)%nat -> following old n -> runs_valid l n ->
  exists n' base, run_all l n = Ok n' /\ package_for_delivery true (rn_base n') = Ok (base, true) /\
    token <$> m_callbacks base = token <$> m_callbacks (rn_base n) /\
    Forall (fun cb => told old (m_previous_rows n') (changes_to_deliver cb)) (m_callbacks base) /\
    following (m_previous_rows n') (with_base base n').
Proof.
  intros Ho Hmax Hf Hv. destruct (run_all_spec old l n Ho Hmax Hf Hv) as (n' & E & [Hcbs Hch Hsz] & Ht).
  destruct (package_spec old (m_previous_rows n') (rn_base n') Ho Hsz Hcbs) as (base & Ep & Hl & Ht' & _ & Ec).
  exists n', base. split_and!; [done|done|by rewrite Ht'| |].
  - eapply Forall_impl; [exact Hl|]. by intros cb [? _].
  - split; [|by cbn; rewrite Ec|done]. eapply Forall_impl; [exact Hl|]. by intros cb [_ ?].
Qed.

(** A run that has to run its query leaves in [m_change] the change from the previous rows
    to the rows of the view, without moves, and marks as modified the rows of both whose objects
    were modified, or link to a modified object over at most three links, and that are not
    reported as insertions. *)
Theorem results_run_reported `{LinkedTables} (all : gset Z) root `{!NotifierTables all root} info open q n :
  run_ok all root info q n -> q_table q = Some root -> need_to_run open q n = true ->
  modest (m_previous_rows n) -> modest (q_rows q) ->
  exists n' cs, results_run (size all) info open q n = Ok n' /\ m_previous_rows n' = q_rows q /\
    finalize (m_change (rn_base n')) = Ok cs /\ told (m_previous_rows n) (q_rows q) cs /\ cs_moves cs = [] /\
    modified_objects root info (m_change (rn_base n')) (m_previous_rows n) (q_rows q).
Proof.
  intros Hro Et Hn Hp Hq. unfold results_run. rewrite Et, Hn. cbn [negb].
  set (n0 := MkResultsNotifier _ _ _ _ _ _). pose proof (ro_size _ _ _ _ _ Hro) as Hq'.
  assert (Z.of_nat (length (m_previous_rows n)) < npos) as Hp' by (unfold modest, npos, word_size in *; lia).
  destruct (calculate_changes_spec all root info (q_rows q) n0) as (c & related & -> & _ & Htr & Hm & Hmo); try apply Hro; [done|].
  destruct (finalize_told _ _ c Hp Hq Htr) as (cs & Ef & Ht & Em).
  eexists _, cs. split_and!; [done|done|done|done|by rewrite Em|done].
Qed.
End pipeline.

(** ** Two runs of a notifier for dogs *)

Import SampleTables.

(** Two callbacks, and the dogs 2, 1 and 5; then 2 and 1, with the owner of 1 modified, then 4, 2 and 1. *)
Definition dogs_notifier : ResultsNotifier :=
  MkResultsNotifier
    (with_change empty_builder true (with_have_callbacks true (with_callbacks
       [MkCallback 0 empty_builder empty_changes true false; MkCallback 3 empty_builder empty_changes true false] new_notifier)))
    [Related 2 [Link 21 false]; Related 1 [Link 11 false; Link 12 true]] false [] [2; 1; 5] true.

Definition nothing_modified : TransactionChangeInfo := ChangeInfo [] ∅ false false.

Definition dogs_run (info : TransactionChangeInfo) (version : Z) (rows : list Z) : run :=
  MkRun sample_tables {[1; 2; 3]} 2 info true (Query (Some 2) [(2, version)] [(2, version)] rows).

Definition dogs_runs : list run := [dogs_run owner_modified 7 [2; 1]; dogs_run nothing_modified 8 [4; 2; 1]].

Lemma dogs_run_ok info version rows n :
  m_has_run (rn_base n) = true -> m_have_callbacks (rn_base n) = true -> m_target_is_in_table_order n = false ->
  set_table 3 2 = Ok (rn_related_tables n) -> Forall (fun key => has_object 2 key = true) rows -> modest rows ->
  run_ok ({[1; 2; 3]} : gset Z) 2 info (Query (Some 2) [(2, version)] [(2, version)] rows) n.
Proof.
  intros Hr Hc Ho Hs Hk Hm. split; try done; [by right|by right| |by rewrite Ho].
  cbn [q_rows]. unfold modest, npos, word_size in *. lia.
Qed.

Lemma dogs_run_valid info version rows n :
  m_has_run (rn_base n) = true -> m_have_callbacks (rn_base n) = true -> m_target_is_in_table_order n = false ->
  set_table 3 2 = Ok (rn_related_tables n) -> Forall (fun key => has_object 2 key = true) rows -> modest rows ->
  run_valid (dogs_run info version rows) n.
Proof.
  intros Hr Hc Ho Hs Hk Hm. split; [exact sample_linked|]. split; [exact sample_apart|]. split; [apply sample_notifier_tables|].
  split; [apply sample_notifier_tables|]. split; [apply sample_notifier_tables|]. split; [by apply dogs_run_ok|done].
Qed.

Lemma results_told_witness :
  exists n' base, @run_all max_size_debug stable_sort dogs_runs dogs_notifier = Ok n' /\
    @package_for_delivery max_size_debug true (rn_base n') = Ok (base, true) /\ m_previous_rows n' = [4; 2; 1] /\
    Forall (fun cb => told [2; 1; 5] [4; 2; 1] (changes_to_deliver cb)) (m_callbacks base) /\
    (cb ← m_callbacks base !! 1%nat; Some (indexes (ranges (cs_deletions (changes_to_deliver cb))),
       indexes (ranges (cs_insertions (changes_to_deliver cb))),
       indexes (ranges (cs_modifications (changes_to_deliver cb))))) = Some ([2], [0], [1]).
Proof.
  destruct (@results_told max_size_debug stable_sort [2; 1; 5] dogs_runs dogs_notifier) as (n' & base & E & P & _ & T & _).
  - unfold modest. simpl. lia.
  - vm_compute. lia.
  - split; [|apply (@empty_tracks max_size_debug Z [2; 1; 5] true); reflexivity|unfold modest; simpl; lia].
    assert (forall t, @accumulates max_size_debug Z [2; 1; 5] [2; 1; 5] (MkCallback t empty_builder empty_changes true false)) as Ha.
    { intros t. split; [apply (@empty_tracks max_size_debug Z [2; 1; 5] true); reflexivity|reflexivity]. }
    constructor; [apply Ha|]. constructor; [apply Ha|constructor].
  - split; [apply dogs_run_valid; [reflexivity|reflexivity|reflexivity|vm_compute; reflexivity|by_evaluation|by_evaluation]|]. intros n1 E. vm_compute in E. injection E as <-.
    split; [apply dogs_run_valid; [reflexivity|reflexivity|reflexivity|vm_compute; reflexivity|by_evaluation|by_evaluation]|]. intros n2 _. exact I.
  - exists n', base. split; [exact E|]. split; [exact P|]. vm_compute in E. injection E as <-. vm_compute in P. injection P as <-.
    split; [reflexivity|]. split; [exact T|]. reflexivity.
Defined.

Lemma results_run_reported_witness :
  exists n' cs, @results_run max_size_debug stable_sort sample_tables 3 owner_modified true
      (Query (Some 2) [(2, 7)] [(2, 7)] [2; 1]) dogs_notifier = Ok n' /\
    @finalize max_size_debug (m_change (rn_base n')) = Ok cs /\ told [2; 1; 5] [2; 1] cs /\
    indexes (ranges (modifications (m_change (rn_base n')))) = [1].
Proof.
  destruct (@results_run_reported max_size_debug stable_sort sample_tables sample_linked {[1; 2; 3]} 2 sample_notifier_tables
    owner_modified true (Query (Some 2) [(2, 7)] [(2, 7)] [2; 1]) dogs_notifier) as (n' & cs & E & _ & F & T & _).
  - apply dogs_run_ok; [reflexivity|reflexivity|reflexivity|vm_compute; reflexivity|by_evaluation|by_evaluation].
  - reflexivity.
  - vm_compute. reflexivity.
  - unfold modest. simpl. lia.
  - unfold modest. simpl. lia.
  - exists n', cs. split; [exact E|]. split; [exact F|]. split; [exact T|]. vm_compute in E. injection E as <-. reflexivity.
Defined.
