(* ===== verification/NotifierLists.v ===== *)
(** The notifier of a sorted or distinct list, whose rows are indices into the list, and the
    notifier of one object. *)

From S2P Require Import Prelude Keys ChunkedRangeVector RangeList IndexSet IndexSetCount IndexSetMerge IndexSetProps.
From S2P Require Import ChangeBuilder KeptElements Collection Tracking TrackedChanges ChangeReport MergeProps.
From S2P Require Import RowDiff LongestMatch RowAlignment Calculation Transport MergeMoves MergeChanges.
From S2P Require Import ObjectChangeSet TransactLogHandler DeepChangeChecker CollectionNotifier Notifiers NotifierRuns.

(** ** Rows of related lists *)

Section related.
Context {B C : Type} (R : B -> C -> Prop).

Lemma keep_related r i (l1 : list B) (l2 : list C) : Forall2 R l1 l2 -> Forall2 R (keep r i l1) (keep r i l2).
Proof. intros Hl. revert i. induction Hl as [|a b l1 l2 Hab _ IH]; intros i; [constructor|]. cbn [keep]. case_decide; auto. Qed.
End related.

(** ** Sorted lists *)

Section sorted.
Context `{MaxSize, StdSort} {A : Type}.
Abbreviation mem v x := (has (ranges v) x).
Implicit Types n : ListResultsNotifier.

(** The elements that the indices of a result stand for. *)
Definition elements_at (l : list A) (indices : list Z) : list A := omap (nth_Z l) indices.

Definition at_index (l : list A) (x : Z) (a : A) : Prop := nth_Z l x = Some a.

Lemma elements_related (l : list A) indices :
  Forall (fun x => 0 <= x < Z.of_nat (length l)) indices -> Forall2 (at_index l) indices (elements_at l indices).
Proof.
  unfold elements_at. induction 1 as [|x indices Hx _ IH]; [constructor|]. cbn [omap list_omap].
  destruct (nth_is_Some l x Hx) as [a Ea]. rewrite Ea. by constructor.
Qed.

Lemma as_int64_small x : 0 <= x <= 2 ^ 62 -> as_int64 x = x.
Proof. intros Hx. unfold as_int64. by case_Z_compare; [|lia]. Qed.

Lemma as_int64_all (size : Z) (rows : list Z) : size <= 2 ^ 62 -> Forall (fun x => 0 <= x < size) rows -> as_int64 <$> rows = rows.
Proof. intros Hn. induction 1 as [|x rows Hx _ IH]; [done|]. rewrite fmap_cons, IH, as_int64_small by lia. done. Qed.

(** A previous index, converted for [calculate]: the element's new index, or -1 when it is gone. *)
Definition moved_to (cur : list A) (x : Z) (a : A) : Prop := x = -1 \/ at_index cur x a.

Lemma new_index_spec c (old cur : list A) x a :
  tracks c old cur -> Z.of_nat (length old) + Z.of_nat (length cur) < npos -> Z.of_nat (length cur) <= 2 ^ 62 ->
  nth_Z old x = Some a -> exists y, new_index c x = Ok y /\ moved_to cur (as_int64 y) a.
Proof.
  intros Ht Hs Hc Ha. pose proof (nth_lt _ _ _ Ha) as Hx. pose proof (tr_moves _ _ _ Ht) as [Hd Hi _ _ _ _].
  unfold new_index. destruct (contains_spec (deletions c) x Hd) as (b & -> & Hb). cbn [mbind result_bind]. destruct b.
  { exists npos. split; [done|by left]. }
  rewrite unshift_spec by (done || lia). cbn [mbind result_bind]. eexists. split; [done|]. right.
  destruct (to_third c [] old cur Ht ltac:(simpl; lia) x Hx) as (Hr & _ & _ & E); [by intros ?%Hb|].
  change (shift (insertions c) (x - count_in 0 x (ranges (deletions c)))) with (later (deletions c) (insertions c) x).
  unfold at_index. rewrite as_int64_small by lia. by rewrite E.
Qed.

Lemma new_indices_spec c (old cur : list A) rows :
  tracks c old cur -> Z.of_nat (length old) + Z.of_nat (length cur) < npos -> Z.of_nat (length cur) <= 2 ^ 62 ->
  Forall (fun x => 0 <= x < Z.of_nat (length old)) rows ->
  exists rows', (if nonempty (insertions c) || nonempty (deletions c) then new_indices c rows else Ok rows) = Ok rows' /\
    Forall2 (moved_to cur) (as_int64 <$> rows') (elements_at old rows).
Proof.
  intros Ht Hs Hc Hr. destruct (nonempty (insertions c) || nonempty (deletions c)) eqn:E.
  - unfold elements_at. induction Hr as [|x rows Hx _ (rows' & Er & IH)]; [by exists []|].
    destruct (nth_is_Some old x Hx) as [a Ea]. destruct (new_index_spec c old cur x a Ht Hs Hc Ea) as (y & Ey & Hy).
    cbn [new_indices omap list_omap]. rewrite Ey, Ea, Er. cbn [mbind result_bind]. exists (y :: rows').
    split; [done|]. rewrite fmap_cons. by constructor.
  - apply orb_false_iff in E as [Ei Ed]. exists rows. split; [done|].
    assert (old = cur) as ->.
    { pose proof (mi_kept _ _ _ _ _ (tr_moves _ _ _ Ht)) as Hk. destruct (insertions c), (deletions c); try done.
      rewrite !keep_all in Hk by (by intros x _ ?%has_nil). done. }
    rewrite (as_int64_all (Z.of_nat (length cur))) by done.
    eapply Forall2_impl; [by apply elements_related|]. by right.
Qed.

(** The rows that deletions and insertions leave are the same elements. *)
Lemma kept_elements (cur : list A) (prev next : list Z) (before after : list A) rd ri :
  Forall2 (moved_to cur) prev before -> Forall2 (at_index cur) next after ->
  keep rd 0 prev = keep ri 0 next -> keep rd 0 before = keep ri 0 after.
Proof.
  intros H1%(keep_related _ rd 0) H2%(keep_related _ ri 0) Hk. rewrite Hk in H1. revert H1 H2.
  generalize (keep ri 0 next) (keep rd 0 before) (keep ri 0 after). clear. intros l l1 l2 H1. revert l2.
  induction H1 as [|x a l l1 Hx _ IH]; intros l2 H2; [by inversion H2|].
  inversion H2 as [|? b ? l2' Hb Hl2]; subst. f_equal; [|by apply IH].
  destruct Hx as [->|Hx]; [by apply nth_lt in Hb as []|]. unfold at_index in *. congruence.
Qed.

(** Builders have no [modifications_new]. *)
Lemma no_modifications_new {B} (l : list (change B)) cur b b' :
  perform_changes l cur b = Ok b' -> modifications_new b' = modifications_new b.
Proof.
  revert cur b. induction l as [|c l IH]; intros cur b; cbn [perform_changes]; [by intros [= ->]|].
  intros (b1 & E & ->%IH)%bind_Ok. clear IH.
  destruct c; cbn [perform_change] in E; revert E;
    unfold modify, insert, erase, ChangeBuilder.clear, move, for_each_col; intros E; cbv zeta in E; invert_steps;
    subst; done.
Qed.

(** The change that the observer recorded for a list leads from the old elements to the
    current ones.  When the notifier of its sorted or distinct results runs, with indices into
    the old list from its previous run and new indices into the current one, it finds for each
    old index the element's new place; the change it leaves, without moves, turns the old
    sequence of elements into the new one.  No row is reported as modified when the recorded
    change has no [modifications_new], which by [no_modifications_new] is always so. *)
Theorem sorted_list_reported opn l (old cur : list A) n :
  tracks (m_change (lr_base n)) old cur ->
  Z.of_nat (length old) + Z.of_nat (length cur) < npos -> Z.of_nat (length cur) <= 2 ^ 62 ->
  Forall (fun x => 0 <= x < Z.of_nat (length old)) (m_previous_indices n) ->
  Forall (fun x => 0 <= x < Z.of_nat (length cur)) (run_indices l n) ->
  Z.of_nat (length (m_previous_indices n)) < npos -> Z.of_nat (length (run_indices l n)) < npos ->
  m_has_run (lr_base n) = true -> m_have_callbacks (lr_base n) = true ->
  is_Some (m_sort_order n) \/ m_distinct n = true ->
  modifications_new (m_change (lr_base n)) = [] ->
  list_need_to_run opn l n = true ->
  exists n', list_results_run opn (Some l) n = Ok n' /\ m_previous_indices n' = run_indices l n /\
    m_run_indices n' = Some (run_indices l n) /\
    replay (elements_at old (m_previous_indices n)) (elements_at cur (run_indices l n))
      (deletions (m_change (lr_base n'))) (insertions (m_change (lr_base n'))) = Ok (elements_at cur (run_indices l n)) /\
    moves (m_change (lr_base n')) = [] /\ forall x, ~ mem (modifications (m_change (lr_base n'))) x.
Proof.
  intros Ht Hs Hc Hp Hr Hlp Hlr Hrun Hcb Hsort Hmn Hneed. unfold list_results_run. rewrite Hneed. cbn [negb].
  unfold list_calculate_changes. rewrite Hrun, Hcb. cbn [andb].
  assert (bool_decide (is_Some (m_sort_order n)) || m_distinct n = true) as ->.
  { destruct Hsort as [Hsort| ->]; [by rewrite bool_decide_true|by rewrite orb_true_r]. }
  destruct (new_indices_spec _ old cur _ Ht Hs Hc Hp) as (prev & -> & Hprev). cbn [mbind result_bind].
  set (idx := run_indices l n) in *. set (c := m_change (lr_base n)) in *.
  assert (as_int64 <$> idx = idx) as Hidx by (by apply (as_int64_all (Z.of_nat (length cur)))).
  assert (ExactOracle (row_did_change c) (fun _ => True) (fun _ => True) (fun _ => False)) as Ho.
  { intros k s _ _. unfold row_did_change. rewrite Hmn.
    destruct (contains_spec [] (u64 k) empty_ok) as (b & -> & Hb). cbn [mbind result_bind]. exists b, s.
    split_and!; [done|done|]. rewrite Hb, has_nil. done. }
  assert (length (as_int64 <$> prev) = length (m_previous_indices n)) as Hlen.
  { apply Forall2_length in Hprev. rewrite Hprev. symmetry. by eapply Forall2_length, elements_related. }
  change (calculate_indexes_with (row_did_change c) prev idx tt)
    with (calculate_with (row_did_change c) (as_int64 <$> prev) (as_int64 <$> idx) false tt). rewrite Hidx.
  destruct (calculate_with_spec _ _ _ _ (as_int64 <$> prev) idx false tt) as (g & s' & Hg & ->);
    [by rewrite Hlen|done|done|by apply Forall_forall|].
  destruct (calculate_tracks (as_int64 <$> prev) idx g false) as (c' & -> & Ht' & Hm & Hmod & _); [by rewrite Hlen|done|done|].
  cbn [mbind result_bind]. eexists. split; [done|]. cbn [m_previous_indices m_run_indices lr_base with_m_change with_change m_change].
  pose proof (elements_related cur idx Hr) as Hnext.
  split_and!; [done|done| |done|].
  - pose proof (tr_moves _ _ _ Ht') as [Hd' Hi' Hk _ _ _]. apply replay_next; [done|done| | |by eapply kept_elements].
    + rewrite <- (Forall2_length _ _ _ Hprev). apply (tr_old _ _ _ Ht').
    + rewrite <- (Forall2_length _ _ _ Hnext). apply (tr_cur _ _ _ Ht').
  - intros x (k & Hx & Hk & Hkp)%Hmod. apply Hg in Hk; [done| |done].
    destruct (split_at_Z _ _ _ Hx) as (l1 & l2 & -> & _). apply elem_of_app. right. by left.
Qed.
End sorted.

(** The list [30; 10; 20], sorted as [10; 20; 30]; 20 is erased and 15 inserted in front. *)
Definition numbers_changed : CollectionChangeBuilder :=
  match @perform_changes max_size_debug Z [CErase 2; CInsert 0 [15]] (fresh <$> [30; 10; 20]) empty_builder with
  | Ok b => b
  | Err _ => empty_builder
  end.

Definition sorted_numbers (change : CollectionChangeBuilder) (previous : list Z) : ListResultsNotifier :=
  MkListResultsNotifier (with_change change true (with_have_callbacks true new_notifier)) (Some true) false None previous true.

(** The list sorts as the indices [sorted]. *)
Definition sorts_as (size : Z) (sorted : list Z) : ListState := Lst size true (fun _ => sorted) (fun _ => sorted).

Lemma sorted_list_reported_witness :
  exists n', @list_results_run max_size_debug stable_sort true (Some (sorts_as 3 [2; 0; 1])) (sorted_numbers numbers_changed [1; 2; 0]) = Ok n' /\
    replay [10; 20; 30] [10; 15; 30] (deletions (m_change (lr_base n'))) (insertions (m_change (lr_base n'))) = Ok [10; 15; 30] /\
    indexes (ranges (deletions (m_change (lr_base n')))) = [1] /\ indexes (ranges (insertions (m_change (lr_base n')))) = [1].
Proof.
  destruct (@sorted_list_reported max_size_debug stable_sort Z true (sorts_as 3 [2; 0; 1]) [30; 10; 20] [15; 30; 10]
    (sorted_numbers numbers_changed [1; 2; 0])) as (n' & E & _ & _ & R & _).
  - destruct (@changes_steps max_size_debug Z [CErase 2; CInsert 0 [15]] empty_builder [30; 10; 20] (fresh <$> [30; 10; 20])) as (b & E & Hd);
      [by apply describes_start|by_evaluation|].
    cbn [lr_base sorted_numbers with_change m_change]. assert (numbers_changed = b) as -> by (unfold numbers_changed; by rewrite E).
    change [15; 30; 10] with (ids (apply_changes [CErase 2; CInsert 0 [15]] (fresh <$> [30; 10; 20]))).
    apply describes_tracks; [exact Hd|apply rows_marked_Forall, changes_marked, fresh_marked].
  - by_evaluation.
  - by_evaluation.
  - by_evaluation.
  - by_evaluation.
  - by_evaluation.
  - by_evaluation.
  - reflexivity.
  - reflexivity.
  - left. by eexists.
  - reflexivity.
  - reflexivity.
  - exists n'. split; [exact E|]. split; [exact R|]. vm_compute in E. injection E as <-. split; reflexivity.
Defined.

(** The element 20 of the list [10; 20; 30] is set to 25, which sorts at the same place.  The
    recorded change marks the row as modified, but the notifier of the sorted list looks it up
    in [modifications_new], which is only computed by [finalize]: the callbacks are not told. *)
Theorem sorted_list_misses_modification :
  exists b n' cs, @perform_changes max_size_debug Z [CModify 1 npos] (fresh <$> [10; 20; 30]) empty_builder = Ok b /\
    indexes (ranges (modifications b)) = [1] /\
    @list_results_run max_size_debug stable_sort true (Some (sorts_as 3 [0; 1; 2])) (sorted_numbers b [0; 1; 2]) = Ok n' /\
    @finalize max_size_debug (m_change (lr_base n')) = Ok cs /\ changeset_empty cs = true.
Proof.
  eexists _, _, _. split; [vm_compute; reflexivity|]. split; [reflexivity|]. split; [vm_compute; reflexivity|].
  split; [vm_compute; reflexivity|reflexivity].
Qed.

(** ** One object *)

Section object.
Context `{MaxSize}.
Abbreviation mem v x := (has (ranges v) x).

Lemma add_to_columns_spec (l : list ColKey) cols :
  (forall col, index_set_ok (column cols col)) ->
  exists cols', fold_result add_to_column cols l = Ok cols' /\
    forall col x, mem (column cols' col) x <-> mem (column cols col) x \/ x = 0 /\ col ∈ l.
Proof.
  revert cols. induction l as [|a l IH]; intros cols Hok.
  { exists cols. split; [done|]. intros col x. rewrite elem_of_nil. tauto. }
  destruct (add_spec (column cols a) 0 (Hok a)) as (v & Ev & Hv & Hm); [unfold npos, word_size; lia|].
  assert (forall col, column (<[a := v]> cols) col = if decide (col = a) then v else column cols col) as Hcol.
  { intros col. unfold column. case_decide; [subst; by rewrite lookup_insert_eq|by rewrite lookup_insert_ne]. }
  destruct (IH (<[a := v]> cols)) as (cols' & E & Hx).
  { intros col. rewrite Hcol. by case_decide. }
  exists cols'. cbn [fold_result]. assert (add_to_column cols a = Ok (<[a := v]> cols)) as -> by (unfold add_to_column; by rewrite Ev). cbn [mbind result_bind]. split; [done|].
  intros col x. rewrite Hx, Hcol, elem_of_cons. case_decide; [subst; rewrite Hm|]; tauto.
Qed.

(** The notifier of an object that was there before the transaction, told of the changes of
    its table, reports the object as deleted exactly when it is gone, after which the notifier
    has no object, and else as modified exactly when columns of it were, and those columns.  It
    reports nothing when its table did not change, or when it has no object. *)
Theorem object_run_reported info old cur n :
  m_change (on_base n) = empty_builder -> on_obj n ∈ old -> cur !! on_obj n <> Some Created ->
  match tables info !! on_table n with
  | Some change => objects_reported change old cur
  | None => cur = unchanged_objects old
  end ->
  exists n', object_run info n = Ok n' /\
    let c := m_change (on_base n') in
    insertions c = [] /\ moves c = [] /\
    if table_key_bool (on_table n) then
      (forall x, mem (deletions c) x <-> x = 0 /\ cur !! on_obj n = None) /\
      (forall x, mem (modifications c) x <-> x = 0 /\ exists cols, cur !! on_obj n = Some (Kept cols) /\ cols <> ∅) /\
      (forall col x, mem (column (columns c) col) x <-> x = 0 /\ exists cols, cur !! on_obj n = Some (Kept cols) /\ col ∈ cols) /\
      (table_key_bool (on_table n') = true <-> cur !! on_obj n <> None)
    else n' = n.
Proof.
  intros Ec Ho Hne Hch. unfold object_run.
  destruct (table_key_bool (on_table n)) eqn:Et; cbn [negb]; [|exists n; rewrite Ec; done].
  assert (index_set_ok []) as Hok by apply empty_ok.
  assert (forall m : gmap Z IndexSet, m = ∅ -> forall col x, ~ mem (column m col) x) as Hcol
    by (intros m -> col x; rewrite column_empty; by intros ?%has_nil).
  destruct (tables info !! on_table n) as [change|].
  - destruct Hch as [_ Hm Hcols Hgone Hkept _ _]. destruct (cur !! on_obj n) as [[cols|]|] eqn:E; [|done|].
    + rewrite (Hkept _ _ E), Ec. destruct (get_columns_modified change (on_obj n)) as [cols'|] eqn:Eg.
      * apply Hcols in Eg as [Eg Hc0]; [|by rewrite E]. rewrite E in Eg. injection Eg as <-.
        cbn [modifications columns empty_builder].
        destruct (add_spec [] 0 Hok) as (m & -> & _ & Hmm); [unfold npos, word_size; lia|]. cbn [mbind result_bind].
        destruct (add_to_columns_spec (elements cols) ∅) as (cs & -> & Hcs); [intros col; by rewrite column_empty|].
        cbn [mbind result_bind]. eexists. split; [done|]. cbn. split_and!; [done|done| | | |by rewrite Et].
        -- intros x. rewrite has_nil. split; [done|]. by intros [_ ?].
        -- intros x. rewrite Hmm, has_nil. split; [|tauto]. intros [->|[]]. split; [done|]. by exists cols.
        -- intros col x. rewrite Hcs, elem_of_elements. split.
           ++ intros [?%Hcol|[-> ?]]; [done|done|]. split; [done|]. by exists cols.
           ++ intros (-> & cols1 & [= <-] & ?). by right.
      * assert (cols = ∅) as ->.
        { destruct (decide (cols = ∅)) as [|Hc0]; [done|]. rewrite (proj2 (Hcols (on_obj n) ltac:(by rewrite E) cols)) in Eg; done. }
        exists n. rewrite Ec. cbn. split_and!; [done|done|done| | | |by rewrite Et].
        -- intros x. rewrite has_nil. split; [done|]. by intros [_ ?].
        -- intros x. rewrite has_nil. split; [done|]. by intros (_ & cols & [= <-] & ?).
        -- intros col x. split; [by intros ?%Hcol|]. by intros (_ & cols & [= <-] & ?%elem_of_empty).
    + rewrite (Hgone _ Ho E), Ec. cbn [deletions empty_builder].
      destruct (add_spec [] 0 Hok) as (d & -> & _ & Hd); [unfold npos, word_size; lia|]. cbn [mbind result_bind].
      eexists. split; [done|]. cbn. split_and!; [done|done| | | |done].
      * intros x. rewrite Hd, has_nil. tauto.
      * intros x. rewrite has_nil. split; [done|]. by intros (_ & ? & ? & _).
      * intros col x. split; [by intros ?%Hcol|]. by intros (_ & ? & ? & _).
  - assert (cur !! on_obj n = Some (Kept ∅)) as E by (subst cur; by apply lookup_gset_to_gmap_Some).
    exists n. rewrite Ec, E. cbn. split_and!; [done|done|done| | | |by rewrite Et].
    + intros x. rewrite has_nil. split; [done|]. by intros [_ ?].
    + intros x. rewrite has_nil. split; [done|]. by intros (_ & cols & [= <-] & ?).
    + intros col x. split; [by intros ?%Hcol|]. by intros (_ & cols & [= <-] & ?%elem_of_empty).
Qed.
End object.

(** Object 2 of table 7: its column 9 was modified and object 3 removed. *)
Lemma object_run_reported_witness :
  let changes := record_object_changes [OModify 9 2; ORemove 3] no_object_changes in
  exists n', @object_run max_size_debug (ChangeInfo [] {[7 := changes]} false false) (MkObjectNotifier new_notifier 7 2) = Ok n' /\
    indexes (ranges (modifications (m_change (on_base n')))) = [0] /\
    indexes (ranges (column (columns (m_change (on_base n'))) 9)) = [0].
Proof.
  destruct (@object_run_reported max_size_debug
    (ChangeInfo [] {[7 := record_object_changes [OModify 9 2; ORemove 3] no_object_changes]} false false)
    {[2; 3]} {[2 := Kept {[9]}]} (MkObjectNotifier new_notifier 7 2)) as (n' & E & _).
  - reflexivity.
  - by_evaluation.
  - by_evaluation.
  - apply tracked_reported.
    destruct (object_changes_tracked [OModify 9 2; ORemove 3] no_object_changes {[2; 3]} (unchanged_objects {[2; 3]}) {[2 := Kept {[9]}]})
      as [Ht _]; [apply tracked_start|by intros k ?%elem_of_empty|by_evaluation|exact Ht].
  - exists n'. split; [exact E|]. vm_compute in E. injection E as <-. split; reflexivity.
Defined.
