(* ===== verification/ViewHandover.v ===== *)
(** How the result of a run reaches the collection that asked for it, in [results_notifier.cpp]:
    from the worker thread, over the handover, to the target thread, for the views of
    [ResultsNotifier] and the indices of [ListResultsNotifier].

    The payload is what the run produced, a [TableView] of the compiled core or a vector of
    indices.  A [Transaction] is here the version that it reads, which the code moves along with
    [advance_read]; [duplicate] makes one of the same version, and [clone_for_handover] and
    [import_copy_of] copy the payload. *)

From S2P Require Import Prelude.

(** ** The notifier of a query's results *)

Module ResultsHandover.
Section handover.
Context {View : Type}.

(** The view of the last run, when it is attached; the views and transactions on their way. *)
Record state := State {
  m_run_tv : option View;
  m_handover_transaction : option Z;
  m_handover_tv : option View;
  m_delivered_transaction : option Z;
  m_delivered_tv : option View;
  m_results_were_used : bool
}.

Definition start : state := State None None None None None true.

Definition run_produced (v : View) (s : state) : state :=
  State (Some v) (m_handover_transaction s) (m_handover_tv s) (m_delivered_transaction s) (m_delivered_tv s) (m_results_were_used s).

(** [do_prepare_handover], with the version of the transaction of the worker thread. *)
Definition do_prepare_handover (sg : Z) (s : state) : state :=
  let transaction := match m_handover_transaction s with Some _ => Some sg | None => None end in
  match m_run_tv s with
  | Some v =>
      let transaction := match transaction with Some t => Some t | None => Some sg end in
      State None transaction (Some v) (m_delivered_transaction s) (m_delivered_tv s) (m_results_were_used s)
  | None => State None transaction None (m_delivered_transaction s) (m_delivered_tv s) (m_results_were_used s)
  end.

(** [prepare_to_deliver], which says whether there is a Realm to deliver to. *)
Definition prepare_to_deliver (open : bool) (s : state) : result (state * bool) :=
  if negb open then
    Ok (State (m_run_tv s) (m_handover_transaction s) None (m_delivered_transaction s) None (m_results_were_used s), false)
  else
    match m_handover_tv s with
    | None => Ok (s, true)
    | Some v =>
        match m_handover_transaction s with
        | None => Err OutOfBounds
        | Some t =>
            Ok (State (m_run_tv s) (Some t) None (Some t) (Some v) (bool_decide (m_delivered_tv s = None)), true)
        end
    end.

(** [get_tableview], for a target Realm that reads the version [current]. *)
Definition get_tableview (current : Z) (s : state) : result (state * option View) :=
  match m_delivered_tv s with
  | None => Ok (s, None)
  | Some v =>
      match m_delivered_transaction s with
      | None => Err OutOfBounds
      | Some t =>
          if negb (t =? current) then Ok (s, None)
          else
            Ok (State (m_run_tv s) (m_handover_transaction s) (m_handover_tv s) (m_delivered_transaction s) None
                  (m_results_were_used s), Some v)
      end
  end.
End handover.
Arguments state : clear implicits.
End ResultsHandover.

(** ** The notifier of a sorted list *)

Module ListHandover.
Section handover.
Context {Indices : Type}.

Record state := State {
  m_run_indices : option Indices;
  m_handover_transaction_version : Z;
  m_handover_indices : option Indices;
  m_delivered_transaction_version : Z;
  m_delivered_indices : option Indices;
  m_results_were_used : bool
}.

(** The versions have no particular value at first. *)
Definition start (v1 v2 : Z) : state := State None v1 None v2 None true.

Definition run_produced (i : Indices) (s : state) : state :=
  State (Some i) (m_handover_transaction_version s) (m_handover_indices s) (m_delivered_transaction_version s)
    (m_delivered_indices s) (m_results_were_used s).

Definition do_prepare_handover (sg : Z) (s : state) : state :=
  State None sg (m_run_indices s) (m_delivered_transaction_version s) (m_delivered_indices s) (m_results_were_used s).

Definition prepare_to_deliver (open : bool) (s : state) : state * bool :=
  if negb open then (s, false)
  else
    match m_handover_indices s with
    | None => (s, true)
    | Some i =>
        (State (m_run_indices s) (m_handover_transaction_version s) None (m_handover_transaction_version s) (Some i)
           (bool_decide (m_delivered_indices s = None)), true)
    end.

Definition get_list_indices (current : Z) (s : state) : state * option Indices :=
  match m_delivered_indices s with
  | None => (s, None)
  | Some i =>
      if negb (m_delivered_transaction_version s =? current) then (s, None)
      else
        (State (m_run_indices s) (m_handover_transaction_version s) (m_handover_indices s)
           (m_delivered_transaction_version s) None (m_results_were_used s), Some i)
  end.
End handover.
Arguments state : clear implicits.
End ListHandover.

(** ** What both promise *)

(** A payload and the version it belongs to, handed over or delivered. *)
Record channel (V : Type) := Channel { handed : option (Z * V); delivered : option (Z * V) }.
Arguments Channel {V} _ _.
Arguments handed {V} _.
Arguments delivered {V} _.

Implicit Types V St : Type.

(** The operations of a handover: a run of the worker thread at a version, which may produce a
    payload, and the handover after it; the delivery; and the request of the payload. *)
Class HandoverOps V St := {
  ho_start : St;
  ho_work : Z -> option V -> St -> St;
  ho_deliver : bool -> St -> result St;
  ho_get : Z -> St -> result (St * option V)
}.

(** [c'] has of [c] what it has. *)
Definition forgets {V} (c c' : channel V) : Prop :=
  (handed c' = handed c \/ handed c' = None) /\ (delivered c' = delivered c \/ delivered c' = None).

(** They implement a channel. *)
Class HandoverLaws `{HandoverOps V St} := {
  ho_ok : St -> Prop;
  ho_channel : St -> channel V;
  ho_start_law : ho_ok ho_start /\ ho_channel ho_start = Channel None None;
  ho_work_law : forall w v s, ho_ok s ->
    ho_ok (ho_work w v s) /\ ho_channel (ho_work w v s) = Channel (pair w <$> v) (delivered (ho_channel s));
  ho_deliver_law : forall s, ho_ok s -> exists s', ho_deliver true s = Ok s' /\ ho_ok s' /\
    ho_channel s' = match handed (ho_channel s) with Some p => Channel None (Some p) | None => ho_channel s end;
  ho_closed_law : forall s, ho_ok s -> exists s', ho_deliver false s = Ok s' /\ ho_ok s' /\ forgets (ho_channel s) (ho_channel s');
  ho_get_law : forall current s, ho_ok s -> exists s' v, ho_get current s = Ok (s', v) /\ ho_ok s' /\
    match delivered (ho_channel s) with
    | Some (t, p) => if t =? current then v = Some p /\ ho_channel s' = Channel (handed (ho_channel s)) None
                     else v = None /\ s' = s
    | None => v = None /\ s' = s
    end
}.

#[export] Instance results_ops {V} : HandoverOps V (ResultsHandover.state V) := {|
  ho_start := ResultsHandover.start;
  ho_work w v s :=
    ResultsHandover.do_prepare_handover w (match v with Some v => ResultsHandover.run_produced v s | None => s end);
  ho_deliver opn s := '(s, _) ← ResultsHandover.prepare_to_deliver opn s; Ok s;
  ho_get := ResultsHandover.get_tableview
|}.

#[export] Instance list_ops {V} : HandoverOps V (ListHandover.state V) := {|
  ho_start := ListHandover.start 0 0;
  ho_work w v s := ListHandover.do_prepare_handover w (match v with Some v => ListHandover.run_produced v s | None => s end);
  ho_deliver opn s := Ok (fst (ListHandover.prepare_to_deliver opn s));
  ho_get current s := Ok (ListHandover.get_list_indices current s)
|}.

(** The payloads with the versions of their transactions. *)
Definition both {V} (t : option Z) (v : option V) : option (Z * V) := t ← t; pair t <$> v.

Definition results_channel {V} (s : ResultsHandover.state V) : channel V :=
  Channel (both (ResultsHandover.m_handover_transaction s) (ResultsHandover.m_handover_tv s))
    (both (ResultsHandover.m_delivered_transaction s) (ResultsHandover.m_delivered_tv s)).

(** Between the steps no run is waiting, and every view has a transaction. *)
Record results_ok {V} (s : ResultsHandover.state V) : Prop := {
  ro_idle : ResultsHandover.m_run_tv s = None;
  ro_handover : is_Some (ResultsHandover.m_handover_tv s) -> is_Some (ResultsHandover.m_handover_transaction s);
  ro_delivered : is_Some (ResultsHandover.m_delivered_tv s) -> is_Some (ResultsHandover.m_delivered_transaction s)
}.

#[export] Instance results_laws {V} : HandoverLaws (V := V) (St := ResultsHandover.state V).
Proof.
  refine {| ho_ok := results_ok; ho_channel := results_channel |}.
  - split; [|done]. split; [done|by intros []..].
  - intros w v [r ht hv dt dv u] [Hi Hh Hd]. simpl in *. subst r.
    destruct v as [v|]; cbn; unfold ResultsHandover.do_prepare_handover, results_channel; cbn;
      (split; [split; cbn; try done|]); destruct ht; try done; by intros [].
  - intros [r ht hv dt dv u] [Hi Hh Hd]. simpl in *. unfold ResultsHandover.prepare_to_deliver, results_channel. cbn.
    destruct hv as [v|].
    + destruct (Hh (ex_intro _ v eq_refl)) as [t ->]. eexists. split; [done|]. split; [|done]. by split.
    + eexists. split; [done|]. split; [by split|]. by destruct ht.
  - intros [r ht hv dt dv u] [Hi Hh Hd]. simpl in *. eexists. split; [done|]. unfold results_channel. cbn.
    split; [split; try done; by intros []|]. split; right; [by destruct ht|by destruct dt].
  - intros current [r ht hv dt dv u] [Hi Hh Hd]. simpl in *. unfold ResultsHandover.get_tableview, results_channel. cbn.
    destruct dv as [v|].
    + destruct (Hd (ex_intro _ v eq_refl)) as [t ->]. cbn. destruct (t =? current) eqn:E; cbn; eexists _, _;
        (split; [done|]); (split; [|done]); split; try done; by intros [].
    + eexists _, _. split; [done|]. split; [by split|]. by destruct dt.
Defined.

Definition list_channel {V} (s : ListHandover.state V) : channel V :=
  Channel (both (Some (ListHandover.m_handover_transaction_version s)) (ListHandover.m_handover_indices s))
    (both (Some (ListHandover.m_delivered_transaction_version s)) (ListHandover.m_delivered_indices s)).

#[export] Instance list_laws {V} : HandoverLaws (V := V) (St := ListHandover.state V).
Proof.
  refine {| ho_ok s := ListHandover.m_run_indices s = None; ho_channel := list_channel |}.
  - done.
  - intros w v [r ht hv dt dv u] Hi. simpl in *. subst r. by destruct v.
  - intros [r ht hv dt dv u] Hi. simpl in *. eexists. split; [done|].
    unfold ListHandover.prepare_to_deliver, list_channel. cbn. by destruct hv.
  - intros s Hi. exists s. split; [done|]. split; [done|]. split; by left.
  - intros current [r ht hv dt dv u] Hi. simpl in *. unfold ListHandover.get_list_indices, list_channel. cbn.
    destruct dv as [v|]; cbn; [destruct (dt =? current) eqn:E; cbn|]; eexists _, _; by split_and!.
Defined.

(** ** Any sequence of steps *)

Inductive event V :=
| Work (version : Z) (v : option V)
| Deliver (open : bool)
| Get (current : Z).
Arguments Work {V} _ _.
Arguments Deliver {V} _.
Arguments Get {V} _.

Section events.
Context `{HandoverLaws V St}.
Implicit Types (evs : list (event V)) (out : list (Z * V)).

(** A step, and the payloads handed out so far with the versions that they were requested for. *)
Definition handle_event (st : St * list (Z * V)) (e : event V) : result (St * list (Z * V)) :=
  let '(s, out) := st in
  match e with
  | Work w v => Ok (ho_work w v s, out)
  | Deliver opn => s ← ho_deliver opn s; Ok (s, out)
  | Get current => '(s, v) ← ho_get current s; Ok (s, out ++ match v with Some v => [(current, v)] | None => [] end)
  end.

Definition run_events evs : result (St * list (Z * V)) := fold_result handle_event (ho_start, []) evs.

(** The payloads produced, with the versions that they were produced at. *)
Definition produced evs : list (Z * V) := omap (fun e => match e with Work w v => pair w <$> v | _ => None end) evs.

Definition pending (c : channel V) : list (Z * V) := option_list (delivered c) ++ option_list (handed c).

Lemma forgets_pending c c' : forgets c c' -> pending c' `sublist_of` pending c.
Proof.
  intros [Hh Hd]. unfold pending. apply sublist_app; [destruct Hd as [-> | ->]|destruct Hh as [-> | ->]]; try done; apply sublist_nil_l.
Qed.

Lemma handle_event_spec s out past e :
  ho_ok s -> out ++ pending (ho_channel s) `sublist_of` past ->
  exists s' out', handle_event (s, out) e = Ok (s', out') /\ ho_ok s' /\
    out' ++ pending (ho_channel s') `sublist_of` past ++ produced [e].
Proof.
  intros Hok Hs. destruct e as [w v|[]|current]; cbn [handle_event produced omap list_omap].
  - destruct (ho_work_law w v s Hok) as [Hok' Hc]. eexists _, _. split; [done|]. split; [done|]. rewrite Hc.
    unfold pending in *. cbn [handed delivered]. rewrite app_assoc. rewrite app_assoc in Hs. apply sublist_app.
    + etransitivity; [|exact Hs]. by apply sublist_inserts_r.
    + by destruct v.
  - destruct (ho_deliver_law s Hok) as (s' & -> & Hok' & Hc). cbn [mbind result_bind]. eexists _, _.
    split; [done|]. split; [done|]. rewrite app_nil_r, Hc. etransitivity; [|exact Hs]. apply sublist_app; [done|].
    unfold pending. destruct (handed (ho_channel s)) as [p|] eqn:E; cbn [handed delivered option_list].
    + rewrite app_nil_r. by apply sublist_inserts_l.
    + by rewrite E.
  - destruct (ho_closed_law s Hok) as (s' & -> & Hok' & Hc). cbn [mbind result_bind]. eexists _, _.
    split; [done|]. split; [done|]. rewrite app_nil_r. etransitivity; [|exact Hs]. apply sublist_app; [done|].
    by apply forgets_pending.
  - destruct (ho_get_law current s Hok) as (s' & v & -> & Hok' & Hc). cbn [mbind result_bind]. eexists _, _.
    split; [done|]. split; [done|]. rewrite app_nil_r. destruct (delivered (ho_channel s)) as [[t p]|] eqn:E.
    + destruct (Z.eqb_spec t current) as [->|].
      * destruct Hc as [-> ->]. rewrite <- app_assoc. etransitivity; [|exact Hs]. apply sublist_app; [done|].
        unfold pending. by rewrite E.
      * destruct Hc as [-> ->]. by rewrite app_nil_r.
    + destruct Hc as [-> ->]. by rewrite app_nil_r.
Qed.

Lemma run_events_spec evs :
  exists s out, run_events evs = Ok (s, out) /\ ho_ok s /\ out ++ pending (ho_channel s) `sublist_of` produced evs.
Proof.
  unfold run_events. induction evs as [|e evs IH] using rev_ind.
  - destruct ho_start_law as [Hok Hc]. exists ho_start, []. split; [done|]. split; [done|]. rewrite Hc. constructor.
  - destruct IH as (s & out & E & Hok & Hs). rewrite fold_result_app, E. cbn [mbind result_bind fold_result].
    destruct (handle_event_spec s out _ e Hok Hs) as (s' & out' & -> & Hok' & Hs'). cbn [mbind result_bind].
    exists s', out'. split_and!; [done|done|]. unfold produced. by rewrite omap_app.
Qed.
End events.

(** C33: whatever the sequence of runs, deliveries, also to a Realm that has been closed, and
    requests, the handover never fails, and the results handed out, each with the version it was
    requested for, are among those that were produced, with the versions they were produced at,
    in the same order: none is handed out twice, late, or to a Realm at another version.  This
    holds for the views of a query and for the indices of a list. *)
Theorem views_delivered {V} (evs : list (event V)) :
  (exists s out, run_events (St := ResultsHandover.state V) evs = Ok (s, out) /\ out `sublist_of` produced evs) /\
  (exists s out, run_events (St := ListHandover.state V) evs = Ok (s, out) /\ out `sublist_of` produced evs).
Proof.
  split; [destruct (run_events_spec (St := ResultsHandover.state V) evs) as (s & out & E & _ & Hs)
    |destruct (run_events_spec (St := ListHandover.state V) evs) as (s & out & E & _ & Hs)];
    exists s, out; (split; [done|]); etransitivity; [|exact Hs| |exact Hs]; by apply sublist_inserts_r.
Qed.

(** A view is requested too early, at the wrong version, and twice. *)
Example views_of_three_runs :
  let evs := [Get 5; Work 5 (Some 1%nat); Deliver true; Get 6; Get 5; Get 5; Work 7 None; Work 8 (Some 2%nat); Deliver true; Get 8] in
  snd <$> (match run_events (St := ResultsHandover.state nat) evs with Ok p => Some p | Err _ => None end) =
    Some [(5, 1%nat); (8, 2%nat)].
Proof. reflexivity. Qed.
