(* ===== verification/IncrementalChangeInfo.v ===== *)
(** [IncrementalChangeInfo] of [realm_coordinator.cpp]: notifiers that start at different versions
    are brought to the same version in one pass over the log, with a change info for each
    version, and [advance_to_final] combines the infos, so that each notifier sees the changes
    from its own version on.

    An info covers the changes from one version to the next.  The list infos are carried over
    from each info to the next, so the last info has them all, in the order of the versions; the
    observer reports the changes of a list to the last of its infos.

    What is left in the change infos is this: each tells of the changes of its tables from its own
    version to the last, and each list info of the changes of its list. *)

From S2P Require Import Prelude Keys ChunkedRangeVector RangeList IndexSet IndexSetMerge IndexSetProps ChangeBuilder Collection Tracking TrackedChanges ChangeReport.
From S2P Require Import MergeChanges MergeProps ObjectChangeSet TransactLogHandler CollectionNotifier Notifiers NotifierRuns NotifierPipeline.

(** ** The steps *)

(** [advance_incremental], after the transaction was advanced: the lists move on to a new info
    for the same tables. *)
Definition next_info (current : TransactionChangeInfo) : TransactionChangeInfo :=
  foldl watch_table (ChangeInfo (lists current) ∅ false false) (map_to_list (tables current)).*1.

(** One table of an info, merged into the same table of the one before. *)
Definition merge_table (tbls : gmap Z ObjectChangeSet) (ct : Z * ObjectChangeSet) : result (gmap Z ObjectChangeSet) :=
  let pt := default no_object_changes (tbls !! fst ct) in
  if changes_empty pt then Ok (<[fst ct := snd ct]> tbls)
  else m ← merge_objects pt (snd ct); Ok (<[fst ct := m]> tbls).

Definition merge_tables (prev cur : gmap Z ObjectChangeSet) : result (gmap Z ObjectChangeSet) :=
  if bool_decide (cur = ∅) then Ok prev
  else if bool_decide (prev = ∅) then Ok cur
  else fold_result merge_table prev (map_to_list cur).

(** The loop over the infos, from the last to the first. *)
Fixpoint merge_infos (m_info : list TransactionChangeInfo) : result (list TransactionChangeInfo) :=
  match m_info with
  | [] => Ok []
  | prev :: m_info =>
      merged ← merge_infos m_info;
      match merged with
      | [] => Ok [prev]
      | cur :: _ => t ← merge_tables (tables prev) (tables cur); Ok (with_tables t prev :: merged)
      end
  end.

Definition same_list (a b : ListChangeInfo) : bool :=
  (table_key a =? table_key b) && (col_key a =? col_key b) && (row_key a =? row_key b).

Section lists.
Context `{MaxSize}.

(** The body of the loops over the list infos: the changes of [i] are merged into those of the
    earlier info [j] of the same list. *)
Definition merge_list (l : list ListChangeInfo) (i : nat) (store : gmap Z CollectionChangeBuilder) (j : nat)
  : result (gmap Z CollectionChangeBuilder) :=
  match l !! i, l !! j with
  | Some li, Some lj =>
      if same_list li lj then
        match store !! changes lj, store !! changes li with
        | Some b, Some c => m ← merge b c; Ok (<[changes lj := m]> store)
        | _, _ => Err OutOfBounds
        end
      else Ok store
  | _, _ => Err OutOfBounds
  end.

Definition merge_earlier (l : list ListChangeInfo) (store : gmap Z CollectionChangeBuilder) (i : nat)
  : result (gmap Z CollectionChangeBuilder) := fold_result (merge_list l i) store (reverse (seq 0 i)).

Definition merge_lists (l : list ListChangeInfo) (store : gmap Z CollectionChangeBuilder)
  : result (gmap Z CollectionChangeBuilder) := fold_result (merge_earlier l) store (seq 1 (length l - 1)).

(** [advance_to_final], after the transaction was advanced: the infos and the changes of the lists. *)
Definition combine_infos (m_info : list TransactionChangeInfo) (store : gmap Z CollectionChangeBuilder)
  : result (list TransactionChangeInfo * gmap Z CollectionChangeBuilder) :=
  infos ← merge_infos m_info;
  store ← match last m_info with Some current => merge_lists (lists current) store | None => Err OutOfBounds end;
  Ok (infos, store).
End lists.

(** ** Merging the tables of two infos *)

(** What the entry [c] of a table makes of the entry [p] of the earlier info. *)
Definition merged_entry (p c m : option ObjectChangeSet) : Prop :=
  match c with
  | None => m = p
  | Some ct =>
      let pt := default no_object_changes p in
      if changes_empty pt then m = Some ct else exists r, merge_objects pt ct = Ok r /\ m = Some r
  end.

Definition mergeable (p c : option ObjectChangeSet) : Prop := exists m, merged_entry p c m.

Lemma fold_merge_table l (prev : gmap Z ObjectChangeSet) :
  NoDup l.*1 -> (forall t ct, (t, ct) ∈ l -> mergeable (prev !! t) (Some ct)) ->
  exists r, fold_result merge_table prev l = Ok r /\
    forall t, (forall ct, (t, ct) ∈ l -> merged_entry (prev !! t) (Some ct) (r !! t)) /\
              ((forall ct, (t, ct) ∉ l) -> r !! t = prev !! t).
Proof.
  revert prev. induction l as [|[t0 c0] l IH]; intros prev Hn Hm.
  { exists prev. split; [done|]. intros t. split; [by intros ct ?%elem_of_nil|done]. }
  rewrite fmap_cons in Hn. apply NoDup_cons in Hn as [Ht0 Hn].
  assert (forall ct, (t0, ct) ∉ l) as Hno by (intros ct Hc; apply Ht0; by apply (list_elem_of_fmap_2 fst) in Hc).
  assert (exists m, merge_table prev (t0, c0) = Ok (<[t0 := m]> prev) /\ merged_entry (prev !! t0) (Some c0) (Some m))
    as (m & E0 & Hm0).
  { destruct (Hm t0 c0) as [m Hme]; [by left|]. unfold merge_table, merged_entry in *. cbn [fst snd] in *.
    destruct (changes_empty (default no_object_changes (prev !! t0))); [by exists c0|].
    destruct Hme as (r & -> & _). cbn [mbind result_bind]. exists r. split; [done|]. by exists r. }
  destruct (IH (<[t0 := m]> prev) Hn) as (r & E & Hr).
  { intros t ct Hc. rewrite lookup_insert_ne by (intros ->; by apply Hno in Hc). apply Hm. by right. }
  exists r. cbn [fold_result]. rewrite E0. cbn [mbind result_bind]. split; [done|]. intros t. destruct (Hr t) as [H1 H2]. split.
  - intros ct [[= -> ->]|Hc]%elem_of_cons.
    + rewrite H2 by done. by rewrite lookup_insert_eq.
    + rewrite lookup_insert_ne in H1 by (intros ->; by apply Hno in Hc). by apply H1.
  - intros Hc. rewrite H2 by (intros ct Hin; apply (Hc ct); by right).
    apply lookup_insert_ne. intros ->. apply (Hc c0). by left.
Qed.

Lemma merge_tables_spec prev cur :
  (forall t, mergeable (prev !! t) (cur !! t)) ->
  exists r, merge_tables prev cur = Ok r /\ forall t, merged_entry (prev !! t) (cur !! t) (r !! t).
Proof.
  intros Hm. unfold merge_tables. case_bool_decide as Hc; [|case_bool_decide as Hp].
  - subst cur. exists prev. split; [done|]. intros t. by rewrite lookup_empty.
  - subst prev. exists cur. split; [done|]. intros t. rewrite lookup_empty. by destruct (cur !! t).
  - destruct (fold_merge_table (map_to_list cur) prev) as (r & E & Hr).
    + apply NoDup_fst_map_to_list.
    + intros t ct Hct%elem_of_map_to_list. rewrite <- Hct. apply Hm.
    + exists r. split; [done|]. intros t. destruct (Hr t) as [H1 H2]. destruct (cur !! t) as [ct|] eqn:E'.
      * apply H1. by apply elem_of_map_to_list.
      * apply H2. intros ct Hct%elem_of_map_to_list. congruence.
Qed.

(** ** What an entry tells *)

(** The entry of a table that went from the objects [old] to [cur]; none when it did not change. *)
Definition entry_tracks (e : option ObjectChangeSet) (old : gset Z) (cur : gmap Z object_state) : Prop :=
  match e with Some c => objects_tracked c old cur | None => cur = unchanged_objects old end.

Definition not_cleared (e : option ObjectChangeSet) : Prop := forall c, e = Some c -> m_clear_did_occur c = false.

Lemma unchanged_lookup (old : gset Z) k : unchanged_objects old !! k = if decide (k ∈ old) then Some (Kept ∅) else None.
Proof.
  unfold unchanged_objects. case_decide; [by apply lookup_gset_to_gmap_Some|by apply lookup_gset_to_gmap_None].
Qed.

Lemma unchanged_dom old : dom (unchanged_objects old) = old.
Proof. apply dom_gset_to_gmap. Qed.

Lemma entry_kept e old cur k cols : entry_tracks e old cur -> cur !! k = Some (Kept cols) -> k ∈ old.
Proof.
  destruct e as [c|]; cbn; [intros Ht; by apply (ot_kept _ _ _ Ht)|]. intros -> Hk. rewrite unchanged_lookup in Hk. by case_decide.
Qed.

Lemma compose_unchanged_l (old : gset Z) (cur : gmap Z object_state) :
  (forall k cols, cur !! k = Some (Kept cols) -> k ∈ old) -> compose_states (unchanged_objects old) cur = cur.
Proof.
  intros Hk. apply map_eq. intros k. rewrite compose_lookup, unchanged_lookup.
  destruct (cur !! k) as [[cols|]|] eqn:E; [|by case_decide|done]. rewrite decide_True by (by eapply Hk).
  simpl. by rewrite (left_id_L ∅ (∪)).
Qed.

Lemma compose_unchanged_r (mid : gmap Z object_state) : compose_states mid (unchanged_objects (dom mid)) = mid.
Proof.
  apply map_eq. intros k. rewrite compose_lookup, unchanged_lookup. destruct (mid !! k) as [s|] eqn:E.
  - rewrite decide_True by (by eapply elem_of_dom_2). destruct s; simpl; [by rewrite (right_id_L ∅ (∪))|done].
  - by rewrite decide_False by (by apply not_elem_of_dom).
Qed.

(** Objects created in the first change are still there after the second. *)
Definition created_stay (mid cur : gmap Z object_state) : Prop :=
  forall k, mid !! k = Some Created -> exists cols, cur !! k = Some (Kept cols).

Lemma entries_merge p c old mid cur :
  entry_tracks p old mid -> entry_tracks c (dom mid) cur -> not_cleared c -> created_stay mid cur ->
  mergeable p c /\ forall m, merged_entry p c m -> entry_tracks m old (compose_states mid cur) /\ (not_cleared p -> not_cleared m).
Proof.
  intros Hp Hc Hn Hs. unfold mergeable, merged_entry. destruct c as [ct|].
  2: { cbn in Hc. subst cur. split; [by exists p|]. intros m ->. by rewrite compose_unchanged_r. }
  specialize (Hn ct eq_refl). destruct p as [pt|]; cbn [default from_option id].
  2: { cbn in Hp. subst mid. rewrite unchanged_dom in Hc.
       assert (changes_empty no_object_changes = true) as -> by done. split; [by eexists|]. intros m ->. cbn.
       rewrite compose_unchanged_l by (intros k cols; by apply (ot_kept _ _ _ Hc)). split; [done|]. by intros _ c [= <-]. }
  assert (m_deletions ct ## m_insertions pt) as Ha.
  { intros k [_ Hk]%(ot_deletions _ _ _ Hc Hn) Hi%(ot_insertions _ _ _ Hp). destruct (Hs k Hi) as [cols E]. by eapply Hk. }
  destruct (changes_empty pt) eqn:Ee.
  - split; [by eexists|]. intros m ->. cbn. split; [by apply (merge_into_none pt ct)|]. by intros _ c [= <-].
  - destruct (merge_objects_tracked pt ct old mid cur Hp Hc Hn Ha) as (r & E & Hr). split; [by exists (Some r), r|].
    intros m (r' & E' & ->). rewrite E in E'. injection E' as <-. split; [done|]. intros Hcl c [= <-]. specialize (Hcl pt eq_refl).
    unfold merge_objects in E. rewrite Ee in E. destruct (changes_empty ct); [by injection E as <-|].
    destruct (fold_result drop_deleted _ _) as [c'|e] eqn:Ef; [|done]. injection E as <-. cbn.
    destruct (drop_deleted_spec (elements (m_deletions ct)) (ObjectChanges (m_deletions pt) (m_insertions pt) (m_modifications pt)
      (m_clear_did_occur pt || m_clear_did_occur ct))) as (c2 & E2 & _ & _ & Ecl & _); [intros k Hk%elem_of_elements; simpl; set_solver|].
    rewrite Ef in E2. injection E2 as <-. rewrite Ecl. cbn. by rewrite Hcl, Hn.
Qed.

Lemma mergeable_none c : mergeable None c.
Proof. destruct c as [ct|]; [by exists (Some ct)|by exists None]. Qed.

(** ** All infos *)

(** An info, the tables that its notifiers watch, and what became of the objects of each table
    until the next version. *)
Record step := MkStep { st_info : TransactionChangeInfo; st_watched : gset Z; st_state : Z -> gmap Z object_state }.

Definition objects_after (s : step) (t : Z) : gset Z := dom (st_state s t).

(** What became of the objects of a table until the last version. *)
Fixpoint final (old : Z -> gset Z) (l : list step) (t : Z) : gmap Z object_state :=
  match l with
  | [] => unchanged_objects (old t)
  | s :: l => compose_states (st_state s t) (final (objects_after s) l t)
  end.

(** Infos that tell of the changes of the tables that they watch, one after the other.  The
    tables that are watched stay watched.  [merge_objects] does not handle a later clearing of a
    table, nor a later removal of an object created before. *)
Fixpoint chain (old : Z -> gset Z) (l : list step) : Prop :=
  match l with
  | [] => True
  | s :: l =>
      (forall t, t ∈ st_watched s -> entry_tracks (tables (st_info s) !! t) (old t) (st_state s t)) /\
      (forall t, t ∉ st_watched s -> tables (st_info s) !! t = None) /\
      Forall (fun s' => st_watched s ⊆ st_watched s' /\ forall t, not_cleared (tables (st_info s') !! t)) l /\
      (forall t, t ∈ st_watched s -> created_stay (st_state s t) (final (objects_after s) l t)) /\
      chain (objects_after s) l
  end.

(** The infos after the merging, each with the changes of its tables until the last version. *)
Fixpoint combined (old : Z -> gset Z) (l : list step) (infos : list TransactionChangeInfo) : Prop :=
  match l, infos with
  | [], [] => True
  | s :: l', i :: infos =>
      lists i = lists (st_info s) /\ schema_changed i = schema_changed (st_info s) /\
      (forall t, t ∈ st_watched s -> entry_tracks (tables i !! t) (old t) (final old l t)) /\
      combined (objects_after s) l' infos
  | _, _ => False
  end.

Lemma merge_infos_spec old l :
  chain old l -> exists infos, merge_infos (st_info <$> l) = Ok infos /\ combined old l infos /\
    (Forall (fun s => forall t, not_cleared (tables (st_info s) !! t)) l ->
     match l, infos with s :: _, i :: _ => forall t, t ∈ st_watched s -> not_cleared (tables i !! t) | _, _ => True end).
Proof.
  revert old. induction l as [|s l IH]; intros old; [by exists []|].
  intros (Ht & Hu & Hl & Hc & Hch). destruct (IH (objects_after s) Hch) as (infos & E & Hco & Hcl). rewrite fmap_cons. cbn [merge_infos].
  rewrite E. cbn [mbind result_bind]. destruct l as [|s' l'], infos as [|i infos]; cbn [combined] in Hco; try done.
  { exists [st_info s]. split; [done|]. split; [|by intros [Hs _]%Forall_cons t _].
    cbn. split_and!; try done. intros t Hw. unfold objects_after. rewrite compose_unchanged_r. by apply Ht. }
  apply Forall_cons in Hl as [[Hw Hn] Hl]. cbn beta in *.
  assert (forall t, t ∈ st_watched s' -> not_cleared (tables i !! t)) as Hni.
  { apply Hcl. constructor; [done|]. eapply Forall_impl; [exact Hl|]. by intros s2 [_ ?]. }
  assert (forall t, t ∈ st_watched s ->
    mergeable (tables (st_info s) !! t) (tables i !! t) /\ forall m, merged_entry (tables (st_info s) !! t) (tables i !! t) m ->
      entry_tracks m (old t) (final old (s :: s' :: l') t) /\ (not_cleared (tables (st_info s) !! t) -> not_cleared m)) as Hm.
  { intros t Hts. apply entries_merge; [by apply Ht|apply Hco; by apply Hw|apply Hni; by apply Hw|by apply Hc]. }
  destruct (merge_tables_spec (tables (st_info s)) (tables i)) as (r & Er & Hr).
  { intros t. destruct (decide (t ∈ st_watched s)) as [Hts|Hts]; [by apply Hm|]. rewrite (Hu t Hts). apply mergeable_none. }
  rewrite Er. cbn [mbind result_bind]. eexists. split; [done|]. split.
  - split_and!; [done|done| |done]. intros t Hts. by apply (Hm t Hts).
  - intros [Hs _]%Forall_cons t Hts. cbn. apply (Hm t Hts); [by apply Hr|]. apply Hs.
Qed.

(** ** The changes of the lists *)

Section lists.
Context `{MaxSize} {A : Type} (l : list ListChangeInfo).

Definition id_of (e : ListChangeInfo) : Z * Z * Z := (table_key e, col_key e, row_key e).

Lemma same_list_id a b : same_list a b = true <-> id_of a = id_of b.
Proof.
  unfold same_list, id_of. rewrite !andb_true_iff, !Z.eqb_eq. split; [intros [[-> ->] ->]; done|by intros [= -> -> ->]].
Qed.

(** The first info of a list from [p] on, or the end. *)
Definition next_of (id : Z * Z * Z) (p : nat) : nat :=
  match list_find (fun e => id_of e = id) (drop p l) with Some (k, _) => p + k | None => length l end.

Lemma next_of_here id p e : l !! p = Some e -> next_of id p = if decide (id_of e = id) then p else next_of id (S p).
Proof.
  intros He. unfold next_of. rewrite (drop_S l e p He). cbn [list_find]. case_decide; [by rewrite Nat.add_0_r|].
  destruct (list_find _ (drop (S p) l)) as [[k e']|]; cbn [fmap option_fmap option_map]; [cbn; lia|done].
Qed.

Lemma next_of_end id : next_of id (length l) = length l.
Proof. unfold next_of. by rewrite drop_all. Qed.

(** The elements of a list at the versions of the infos, and at the end. *)
Context (content : Z * Z * Z -> nat -> list A).
Hypothesis sizes : forall id k, modest (content id k) /\ (length (content id k) <= 2 * max_size)%nat.
Hypothesis pointers : forall j j' e e', l !! j = Some e -> l !! j' = Some e' -> changes e = changes e' -> j = j'.

(** The builder of each info has the changes of its list up to the next info of the list that is
    not before [upto]. *)
Definition covered (upto : nat -> nat) (store : gmap Z CollectionChangeBuilder) : Prop :=
  forall j e, l !! j = Some e -> exists b, store !! changes e = Some b /\
    tracks b (content (id_of e) j) (content (id_of e) (next_of (id_of e) (Nat.max (upto j) (S j)))).

Lemma merge_list_spec upto i j store :
  (j < i < length l)%nat -> upto j = i -> upto i = i -> covered upto store ->
  exists store', merge_list l i store j = Ok store' /\ covered (fun k => if decide (k = j) then S i else upto k) store'.
Proof.
  intros Hji Hj Hi Hc. destruct (lookup_lt_is_Some_2 l i) as [ei Ei]; [lia|]. destruct (lookup_lt_is_Some_2 l j) as [ej Ej]; [lia|].
  unfold merge_list. rewrite Ei, Ej. pose proof (next_of_here (id_of ej) i ei Ei) as Hnext.
  destruct (same_list ei ej) eqn:Es.
  - apply same_list_id in Es. rewrite decide_True in Hnext by done.
    destruct (Hc j ej Ej) as (b & -> & Hb). destruct (Hc i ei Ei) as (c & -> & Htc).
    rewrite Hj, Nat.max_l in Hb by lia. rewrite Hi, Nat.max_r in Htc by lia. rewrite Hnext in Hb. rewrite Es in Htc.
    set (old := content (id_of ej) j) in *. set (mid := content (id_of ej) i) in *.
    set (cur := content (id_of ej) (next_of (id_of ej) (S i))) in *.
    assert (Z.of_nat (length old) + Z.of_nat (length mid) + Z.of_nat (length cur) < npos) as Hs.
    { destruct (sizes (id_of ej) j) as [? _], (sizes (id_of ej) i) as [? _], (sizes (id_of ej) (next_of (id_of ej) (S i))) as [? _].
      unfold modest, npos, word_size in *. subst old mid cur. lia. }
    destruct (merge_spec b c old mid cur Hb Htc Hs) as (m & -> & Hm & _).
    { apply (small_deletions_fit b c old mid cur Hb Htc Hs). apply sizes. }
    cbn [mbind result_bind]. eexists. split; [done|]. intros k e Ek. case_decide as Hk.
    + subst k. assert (e = ej) as -> by congruence. exists m. rewrite lookup_insert_eq, Nat.max_l by lia. done.
    + destruct (Hc k e Ek) as (bk & Ebk & Hbk). exists bk. rewrite lookup_insert_ne; [done|].
      intros Ech. apply Hk. symmetry. by eapply pointers.
  - exists store. split; [done|]. intros k e Ek. destruct (decide (k = j)) as [->|Hk]; [|by apply Hc].
    assert (e = ej) as -> by congruence. destruct (Hc j ej Ej) as (b & Eb & Hb). exists b. split; [done|].
    rewrite decide_False in Hnext by (intros Ei'; by rewrite (proj2 (same_list_id ei ej) Ei') in Es).
    rewrite Hj, !Nat.max_l, Hnext in Hb by lia. by rewrite Nat.max_l by lia.
Qed.

Lemma covered_ext upto upto' store :
  (forall j, (j < length l)%nat -> Nat.max (upto j) (S j) = Nat.max (upto' j) (S j)) -> covered upto store -> covered upto' store.
Proof. intros Hu Hc j e Ej. rewrite <- Hu by (by eapply lookup_lt_Some). by apply Hc. Qed.

Lemma merge_earlier_spec i store :
  (i < length l)%nat -> covered (fun _ => i) store -> exists store', merge_earlier l store i = Ok store' /\ covered (fun _ => S i) store'.
Proof.
  intros Hi Hc. unfold merge_earlier.
  enough (forall js upto store, NoDup js -> Forall (fun j => (j < i)%nat /\ upto j = i) js -> upto i = i -> covered upto store ->
    exists store', fold_result (merge_list l i) store js = Ok store' /\
      covered (fun k => if decide (k ∈ js) then S i else upto k) store') as Hfold.
  { destruct (Hfold (reverse (seq 0 i)) (fun _ => i) store) as (store' & E & Hc').
    - rewrite reverse_Permutation. apply NoDup_seq.
    - apply Forall_forall. intros j Hj%elem_of_reverse%elem_of_seq. split; [lia|done].
    - done.
    - done.
    - exists store'. split; [done|]. eapply covered_ext; [|exact Hc']. intros j Hj. cbn beta. case_decide as Hin; [done|].
      rewrite elem_of_reverse, elem_of_seq in Hin. lia. }
  intros js. induction js as [|j js IH]; intros upto s Hn Hjs Hui Hs.
  { exists s. split; [done|]. eapply covered_ext; [|exact Hs]. intros k _. by rewrite decide_False by (by intros ?%elem_of_nil). }
  apply NoDup_cons in Hn as [Hj Hn]. apply Forall_cons in Hjs as [[Hji Huj] Hjs].
  destruct (merge_list_spec upto i j s ltac:(lia) Huj Hui Hs) as (s1 & E1 & Hs1).
  destruct (IH (fun k => if decide (k = j) then S i else upto k) s1 Hn) as (s' & E & Hs').
  - apply Forall_forall. intros k Hk. rewrite Forall_forall in Hjs. rewrite decide_False by (by intros ->). by apply Hjs.
  - by rewrite decide_False by lia.
  - done.
  - exists s'. cbn [fold_result]. rewrite E1. cbn [mbind result_bind]. split; [done|]. eapply covered_ext; [|exact Hs'].
    intros k _. cbn beta. destruct (decide (k ∈ js)) as [Hin|Hin]; [by rewrite decide_True by (by right)|].
    destruct (decide (k = j)) as [->|Hne]; [by rewrite decide_True by (by left)|].
    by rewrite decide_False by (by intros [?|?]%elem_of_cons).
Qed.

Lemma merge_lists_spec store :
  covered (fun _ => 0%nat) store -> exists store', merge_lists l store = Ok store' /\ covered (fun _ => length l) store'.
Proof.
  intros Hc. unfold merge_lists. destruct (decide (length l = 0%nat)) as [E0|Hne].
  { rewrite E0. exists store. split; [done|exact Hc]. }
  assert (forall n p store, (p + n <= length l)%nat -> covered (fun _ => p) store ->
    exists store', fold_result (merge_earlier l) store (seq p n) = Ok store' /\ covered (fun _ => p + n)%nat store') as Hfold.
  { induction n as [|n IH]; intros p s Hp Hs; [exists s; by rewrite Nat.add_0_r|]. cbn [seq fold_result].
    destruct (merge_earlier_spec p s ltac:(lia) Hs) as (s1 & -> & Hs1). cbn [mbind result_bind].
    destruct (IH (S p) s1 ltac:(lia) Hs1) as (s' & E & Hs'). exists s'. split; [done|]. by rewrite Nat.add_succ_comm in Hs'. }
  destruct (Hfold (length l - 1)%nat 1%nat store) as (store' & E & Hs'); [lia| |].
  { eapply covered_ext; [|exact Hc]. intros j _. cbn. lia. }
  exists store'. split; [done|]. by replace (1 + (length l - 1))%nat with (length l) in Hs' by lia.
Qed.
End lists.

(** ** All together *)

(** C17: the notifiers start at several versions, those of each version with a change info of
    their own, whose list infos come in the order of the versions.  When each info tells of the
    changes of its tables up to the next version, and the builder of each list info of the
    changes up to the next info of the same list, combining the infos succeeds; then each info
    tells of the changes of its tables up to the last version, and so does each builder of its
    list.  A table is not cleared after the first version, nor is an object removed that was
    created at an earlier version, which [merge_objects] does not handle
    ([merge_keeps_cleared_insertions], [merge_created_then_deleted]); a table that is watched stays
    watched; and the lists have at most two chunks of rows, 512 in a release build, so that the
    chunks allocated for their deletions suffice. *)
Theorem infos_combined `{MaxSize} {A} old (steps : list step) (current : step) (content : Z * Z * Z -> nat -> list A) store :
  let l := lists (st_info current) in
  chain old steps -> last steps = Some current ->
  (forall id k, modest (content id k) /\ (length (content id k) <= 2 * max_size)%nat) ->
  (forall j j' e e', l !! j = Some e -> l !! j' = Some e' -> changes e = changes e' -> j = j') ->
  (forall j e, l !! j = Some e -> exists b, store !! changes e = Some b /\
     tracks b (content (id_of e) j) (content (id_of e) (next_of l (id_of e) (S j)))) ->
  exists infos store', combine_infos (st_info <$> steps) store = Ok (infos, store') /\ combined old steps infos /\
    forall j e, l !! j = Some e -> exists b cs, store' !! changes e = Some b /\ finalize b = Ok cs /\
      told (content (id_of e) j) (content (id_of e) (length l)) cs.
Proof.
  intros l Hch Hlast Hsz Hp Hb. unfold combine_infos.
  destruct (merge_infos_spec old steps Hch) as (infos & -> & Hco & _). cbn [mbind result_bind].
  rewrite fmap_last, Hlast. cbn [fmap option_fmap option_map].
  destruct (merge_lists_spec l content Hsz Hp store) as (store' & E & Hc); [exact Hb|].
  fold l. rewrite E. cbn [mbind result_bind]. exists infos, store'. split_and!; [done|done|].
  intros j e Ej. destruct (Hc j e Ej) as (b & Eb & Ht). pose proof (lookup_lt_Some _ _ _ Ej) as Hj.
  rewrite Nat.max_l, next_of_end in Ht by lia.
  destruct (finalize_told _ _ b (proj1 (Hsz _ _)) (proj1 (Hsz _ _)) Ht) as (cs & Ef & Htold & _). by exists b, cs.
Qed.

(** A notifier of table 7 and of a list of two elements; then one of tables 7 and 8 and of the
    same list, after an insertion, and the removal of the first element. *)
Definition first_changes : list object_change := [OModify 9 1; OCreate 4].
Definition later_changes : list object_change := [OModify 8 4; ORemove 2].

Definition object_states (old : gset Z) (l : list object_change) : gmap Z object_state :=
  default ∅ (apply_object_changes l (unchanged_objects old)).

Definition first_step : step :=
  MkStep (ChangeInfo [ListChange 7 1 3 100] {[7 := record_object_changes first_changes no_object_changes]} false false) {[7]}
    (fun t => if t =? 7 then object_states {[1; 2]} first_changes else ∅).

Definition later_step : step :=
  MkStep (ChangeInfo [ListChange 7 1 3 100; ListChange 7 1 3 200]
      {[7 := record_object_changes later_changes no_object_changes]} false false) {[7; 8]}
    (fun t => if t =? 7 then object_states {[1; 2; 4]} later_changes else ∅).

Definition list_at_version (id : Z * Z * Z) (k : nat) : list Z :=
  match k with 0%nat => [10; 11] | 1%nat => [10; 20; 11] | _ => [20; 11] end.

Definition builder_after (l : list (change Z)) (old : list Z) : CollectionChangeBuilder :=
  match @perform_changes max_size_debug Z l (fresh <$> old) empty_builder with Ok b => b | Err _ => empty_builder end.

Definition version_store : gmap Z CollectionChangeBuilder :=
  {[100 := builder_after [CInsert 1 [20]] [10; 11]; 200 := builder_after [CErase 0] [10; 20; 11]]}.

Lemma builder_after_tracks l old cur :
  Z.of_nat (length old) <= npos -> valid_changes l (fresh <$> old) -> ids (apply_changes l (fresh <$> old)) = cur ->
  @tracks max_size_debug Z (builder_after l old) old cur.
Proof.
  intros Hn Hv <-. destruct (@changes_steps max_size_debug Z l empty_builder old (fresh <$> old)) as (b & E & Hd);
    [by apply describes_start|done|].
  unfold builder_after. rewrite E. apply describes_tracks; [exact Hd|apply rows_marked_Forall, changes_marked, fresh_marked].
Qed.

Lemma recorded_tracks old l :
  is_Some (apply_object_changes l (unchanged_objects old)) ->
  objects_tracked (record_object_changes l no_object_changes) old (object_states old l).
Proof.
  intros [cur E]. unfold object_states. rewrite E.
  apply (object_changes_tracked l no_object_changes old (unchanged_objects old)); [apply tracked_start|by intros k ?%elem_of_empty|done].
Qed.

Lemma infos_combined_witness :
  exists i1 i2 store' b cs, @combine_infos max_size_debug (st_info <$> [first_step; later_step]) version_store = Ok ([i1; i2], store') /\
    entry_tracks (tables i1 !! 7) {[1; 2]} (final (fun _ => {[1; 2]}) [first_step; later_step] 7) /\
    (final (fun _ => {[1; 2]}) [first_step; later_step] 7) = {[1 := Kept {[9]}; 4 := Created]} /\
    store' !! 100 = Some b /\ @finalize max_size_debug b = Ok cs /\ told [10; 11] [20; 11] cs.
Proof.
  destruct (@infos_combined max_size_debug Z (fun t => if t =? 7 then {[1; 2]} else ∅) [first_step; later_step] later_step
    list_at_version version_store) as (infos & store' & E & Hco & Hl).
  - split_and!.
    + intros t Ht. assert (t = 7) as -> by (cbn in Ht; set_solver). apply (recorded_tracks {[1; 2]} first_changes). by_evaluation.
    + intros t Ht. cbn. apply lookup_singleton_None. set_solver.
    + constructor; [|constructor]. split; [cbn; set_solver|]. intros t c. cbn. intros [_ <-]%lookup_singleton_Some. reflexivity.
    + intros t Ht k Hk. assert (t = 7) as -> by (cbn in Ht; set_solver).
      assert (st_state first_step 7 = {[1 := Kept {[9]}; 2 := Kept ∅; 4 := Created]}) as E by by_evaluation.
      rewrite E, !lookup_insert_Some, lookup_singleton_Some in Hk. assert (k = 4) as -> by naive_solver.
      exists {[8]}. by_evaluation.
    + split; [|split; [|split; [|split]]].
      * intros t Ht. assert (t = 7 \/ t = 8) as [-> | ->] by (cbn in Ht; set_solver).
        -- assert (objects_after first_step 7 = {[1; 2; 4]}) as -> by by_evaluation.
           apply (recorded_tracks {[1; 2; 4]} later_changes). by_evaluation.
        -- assert (tables (st_info later_step) !! 8 = None) as -> by by_evaluation. unfold entry_tracks. by_evaluation.
      * intros t Ht. cbn. apply lookup_singleton_None. set_solver.
      * constructor.
      * intros t Ht k Hk. cbn. destruct (decide (t = 7)) as [->|Hne].
        -- assert (st_state later_step 7 = {[1 := Kept ∅; 4 := Kept {[8]}]}) as E by by_evaluation.
           rewrite E, lookup_insert_Some, lookup_singleton_Some in Hk. naive_solver.
        -- unfold later_step in Hk. cbn in Hk. by rewrite (proj2 (Z.eqb_neq t 7) Hne) in Hk.
      * exact I.
  - reflexivity.
  - intros id k. destruct k as [|[|k]]; vm_compute; split; try done; lia.
  - intros j j' e e' Hj Hj'. cbn in Hj, Hj'. destruct j as [|[|j]], j' as [|[|j']]; by simplify_eq/=.
  - intros j e Hj. cbn in Hj. destruct j as [|[|j]]; simplify_eq/=; eexists; (split; [reflexivity|]);
      apply builder_after_tracks; by_evaluation.
  - destruct infos as [|i1 [|i2 [|i3 infos]]];
      [by destruct Hco|by destruct Hco as (_ & _ & _ & [])| |by destruct Hco as (_ & _ & _ & _ & _ & _ & [])].
    destruct (Hl 0%nat (ListChange 7 1 3 100) eq_refl) as (b & cs & Eb & Ef & Ht).
    exists i1, i2, store', b, cs. split; [exact E|]. split; [|split; [by_evaluation|]].
    + destruct Hco as (_ & _ & Hi1 & _). exact (Hi1 7 (elem_of_singleton_2 _ _ eq_refl)).
    + split; [exact Eb|]. split; [exact Ef|exact Ht].
Defined.
