(* ===== verification/SyncSession.v ===== *)
(** The sync session of [sync_session.cpp]: the states of a [SyncSession], its public methods,
    the handlers it gives to the sync client, and the system of threads that run them.

    A [std::unique_lock] that a method gives up before it returns makes what is left of the
    method a task of its own: every task below runs under the lock, or without need of it, and
    the tasks of several threads may interleave.  The [sync::Session] is not part of the
    repository: what is asked of it is an event, and so are the calls of the binding. *)

From stdpp Require Import strings.
From S2P Require Import Prelude.

(** ** Errors, [protocol.hpp], [client.hpp] and [sync_config.hpp] *)

Module ProtocolError.
Inductive t :=
| connection_closed | other_error | unknown_message | bad_syntax | limits_exceeded | wrong_protocol_version
| bad_session_ident | reuse_of_session_ident | bound_in_other_session | bad_message_order | bad_decompression
| bad_changeset_header_syntax | bad_changeset_size | bad_changesets | session_closed | other_session_error
| token_expired | bad_authentication | illegal_realm_path | no_such_realm | permission_denied
| bad_server_file_ident | bad_client_file_ident | bad_server_version | bad_client_version | diverging_histories
| bad_changeset | disabled_session | partial_sync_disabled | unsupported_session_feature | bad_origin_file_ident
| bad_client_file | server_file_deleted | client_file_blacklisted | user_blacklisted | transact_before_upload
| client_file_expired.
#[export] Instance t_eq_dec : EqDecision t.
Proof. solve_decision. Defined.
End ProtocolError.
Export (hints) ProtocolError.

Module ClientError.
Inductive t :=
| connection_closed | unknown_message | bad_syntax | limits_exceeded | bad_session_ident | bad_message_order
| bad_client_file_ident | bad_progress | bad_changeset_header_syntax | bad_changeset_size | bad_origin_file_ident
| bad_server_version | bad_changeset | bad_request_ident | bad_error_code | bad_compression | bad_client_version
| ssl_server_cert_rejected | pong_timeout | bad_client_file_ident_salt | bad_file_ident | connect_timeout
| bad_timestamp | bad_protocol_from_server | client_too_old_for_server | client_too_new_for_server
| protocol_mismatch | bad_state_message | missing_protocol_feature | bad_serial_transact_status
| bad_object_id_substitutions | http_tunnel_failed.
#[export] Instance t_eq_dec : EqDecision t.
Proof. solve_decision. Defined.
End ClientError.
Export (hints) ClientError.

(** A [std::error_code]: its category and its value. *)
Inductive ErrorCode :=
| no_error
| operation_aborted
| protocol_error (e : ProtocolError.t)
| client_error (e : ClientError.t)
| foreign_error (category value : Z).

#[export] Instance ErrorCode_eq_dec : EqDecision ErrorCode.
Proof. solve_decision. Defined.

Record SyncError := MkSyncError { error_code : ErrorCode; is_fatal : bool; is_unrecognized_by_client : bool }.

#[export] Instance SyncError_eq_dec : EqDecision SyncError.
Proof. solve_decision. Defined.

Definition is_client_reset_requested (e : SyncError) : bool :=
  match error_code e with
  | protocol_error ProtocolError.bad_server_file_ident
  | protocol_error ProtocolError.bad_client_file_ident
  | protocol_error ProtocolError.bad_server_version
  | protocol_error ProtocolError.diverging_histories
  | protocol_error ProtocolError.client_file_expired => true
  | _ => false
  end.

(** ** Configuration *)

Inductive StopPolicy := Immediately | LiveIndefinitely | AfterChangesUploaded.
Inductive ClientResyncMode := Recover | DiscardLocal | Manual.

#[export] Instance StopPolicy_eq_dec : EqDecision StopPolicy.
Proof. solve_decision. Defined.
#[export] Instance ClientResyncMode_eq_dec : EqDecision ClientResyncMode.
Proof. solve_decision. Defined.

Record SyncConfig := MkSyncConfig {
  user : Z;
  reference_realm_url : string;
  is_partial : bool;
  stop_policy : StopPolicy;
  has_error_handler : bool;
  cancel_waits_on_nonfatal_error : bool;
  client_resync_mode : ClientResyncMode
}.

#[export] Instance SyncConfig_eq_dec : EqDecision SyncConfig.
Proof. solve_decision. Defined.

(** ** The session *)

Inductive PublicState := WaitingForAccessToken | Active | Dying | Inactive.
Inductive ConnectionState := Disconnected | Connecting | Connected.
Inductive NotifierType := upload | download.

#[export] Instance PublicState_eq_dec : EqDecision PublicState.
Proof. solve_decision. Defined.
#[export] Instance ConnectionState_eq_dec : EqDecision ConnectionState.
Proof. solve_decision. Defined.
#[export] Instance NotifierType_eq_dec : EqDecision NotifierType.
Proof. solve_decision. Defined.

(** A completion callback is named by an integer.  The [sync::Session] objects are numbered in
    the order in which they are made; [m_external_reference] is the number of holders of the
    [ExternalReference], which has expired when there is none. *)
Record Session := MkSession {
  m_state : PublicState;
  m_connection_state : ConnectionState;
  m_death_count : Z;
  m_config : SyncConfig;
  m_force_client_resync : bool;
  m_download_completion_callbacks : list Z;
  m_upload_completion_callbacks : list Z;
  m_client_resync_counter : Z;
  m_server_override : option (string * Z);
  m_session : option Z;
  sessions_made : Z;
  m_session_has_been_bound : bool;
  m_deferred_commit_notification : option Z;
  m_deferred_close : bool;
  m_server_url : option string;
  m_external_reference : nat
}.

Definition set_state x '(MkSession _ b c d e f g h i j k l m n o p) := MkSession x b c d e f g h i j k l m n o p.
Definition set_connection x '(MkSession a _ c d e f g h i j k l m n o p) := MkSession a x c d e f g h i j k l m n o p.
Definition set_death_count x '(MkSession a b _ d e f g h i j k l m n o p) := MkSession a b x d e f g h i j k l m n o p.
Definition set_config x '(MkSession a b c _ e f g h i j k l m n o p) := MkSession a b c x e f g h i j k l m n o p.
Definition set_force x '(MkSession a b c d _ f g h i j k l m n o p) := MkSession a b c d x f g h i j k l m n o p.
Definition set_downloads x '(MkSession a b c d e _ g h i j k l m n o p) := MkSession a b c d e x g h i j k l m n o p.
Definition set_uploads x '(MkSession a b c d e f _ h i j k l m n o p) := MkSession a b c d e f x h i j k l m n o p.
Definition set_counter x '(MkSession a b c d e f g _ i j k l m n o p) := MkSession a b c d e f g x i j k l m n o p.
Definition set_override x '(MkSession a b c d e f g h _ j k l m n o p) := MkSession a b c d e f g h x j k l m n o p.
Definition set_session x '(MkSession a b c d e f g h i _ k l m n o p) := MkSession a b c d e f g h i x k l m n o p.
Definition set_made x '(MkSession a b c d e f g h i j _ l m n o p) := MkSession a b c d e f g h i j x l m n o p.
Definition set_bound x '(MkSession a b c d e f g h i j k _ m n o p) := MkSession a b c d e f g h i j k x m n o p.
Definition set_deferred x '(MkSession a b c d e f g h i j k l _ n o p) := MkSession a b c d e f g h i j k l x n o p.
Definition set_deferred_close x '(MkSession a b c d e f g h i j k l m _ o p) := MkSession a b c d e f g h i j k l m x o p.
Definition set_url x '(MkSession a b c d e f g h i j k l m n _ p) := MkSession a b c d e f g h i j k l m n x p.
Definition set_external x '(MkSession a b c d e f g h i j k l m n o _) := MkSession a b c d e f g h i j k l m n o x.

(** The constructor. *)
Definition make_session (config : SyncConfig) (force_client_resync : bool) : Session :=
  MkSession Inactive Disconnected 0 config force_client_resync [] [] 0 None None 0 false None false None 0.

(** ** Events *)

(** What a session asks of its [sync::Session], which is named by its number, of the sync
    manager and of the binding. *)
Inductive Event :=
| Made (s : Z) (client_reset : option bool)     (** [make_session], with [recover_local_changes] *)
| Bind (s : Z) (url token : string)
| Refresh (s : Z) (token : string)
| CancelReconnectDelay (s : Z)
| OverrideServer (s : Z) (address : string) (port : Z)
| TransactNotify (s : Z) (version : Z)
| AsyncWait (s : Z) (direction : NotifierType) (resync_counter : Z)
| AsyncWaitDeath (s : Z) (death_count : Z)
| Destroyed (s : Z)
| Entered (st : PublicState)                    (** [advance_state] *)
| Unregistered                                  (** [SyncManager::unregister_session] *)
| AskedForToken                                 (** [bind_session_handler] *)
| ConnectionChanged (old new : ConnectionState) (** [m_connection_change_notifier] *)
| Registered (callback : Z)
| Completed (callback : Z) (ec : ErrorCode)
| UserInvalidated
| FileMarked (backup : bool)                    (** [update_error_and_mark_file_for_deletion] *)
| Reported (e : SyncError).                     (** [error_handler] *)

#[export] Instance Event_eq_dec : EqDecision Event.
Proof. solve_decision. Defined.

(** ** Tasks *)

(** The methods, with the handlers that are given to the [sync::Session]. *)
Inductive Call :=
| RefreshAccessToken (token : string) (url : option string)
| NonsyncTransactNotify (version : Z)
| ReviveIfNeeded
| HandleReconnect
| LogOut
| Close
| WaitForCompletion (direction : NotifierType) (callback : Z)
| SetOverrideServer (address : string) (port : Z)
| UpdateConfiguration (config : SyncConfig)
| TakeExternalReference
| DidDropExternalReference
| ConnectionStateListener (st : ConnectionState) (e : option SyncError)
| CompletionHandler (resync_counter : Z) (direction : NotifierType) (ec : ErrorCode)
| UploadCompletionHandler (death_count : Z).

Inductive NextStateAfterError := next_none | next_inactive | next_error.

Inductive Task :=
| Run (c : Call)
| Unregister
| InvokeConnectionCallbacks (old : ConnectionState)
| NotifyConnectionChange (old new : ConnectionState)
| Complete (callback : Z) (ec : ErrorCode)
| HandleError (e : SyncError)
| HandleUnclaimedError (e : SyncError)
| StartClientResync
| AccessTokenExpired
| SettleError (e : SyncError) (next : NextStateAfterError)
| RestoreHandlers (downloads uploads : list Z)
| CallBindSessionHandler
| CancelPendingWaits (ec : ErrorCode)
| InvalidateUser
| MarkFile (backup : bool)
| MakeInactive
| ReportError (e : SyncError).

#[export] Instance NextStateAfterError_eq_dec : EqDecision NextStateAfterError.
Proof. solve_decision. Defined.
#[export] Instance Call_eq_dec : EqDecision Call.
Proof. solve_decision. Defined.
#[export] Instance Task_eq_dec : EqDecision Task.
Proof. solve_decision. Defined.

(** ** The monad of a task

    A task reads and writes the session, emits events, leaves tasks for after the lock is
    given up, and fails when it dereferences a null [m_session] or an assertion does not hold. *)

Definition M (A : Type) : Type := Session -> result (A * Session * (list Event * list Task)).

#[export] Instance M_ret : MRet M := fun A a s => Ok (a, s, ([], [])).
#[export] Instance M_bind : MBind M := fun A B k m s =>
  '(a, s, (es, ts)) ← m s;
  '(b, s, (es', ts')) ← k a s;
  Ok (b, s, (es ++ es', ts ++ ts')).

Definition gets {A} (f : Session -> A) : M A := fun s => Ok (f s, s, ([], [])).
Definition modify (f : Session -> Session) : M unit := fun s => Ok (tt, f s, ([], [])).
Definition emit (e : Event) : M unit := fun s => Ok (tt, s, ([e], [])).
Definition later (ts : list Task) : M unit := fun s => Ok (tt, s, ([], ts)).
Definition assert (b : bool) : M unit := fun s => if b then Ok (tt, s, ([], [])) else Err AssertionFailed.
Definition skip : M unit := mret tt.

(** [*session.m_session]. *)
Definition the_session : M Z :=
  fun s => match m_session s with Some i => Ok (i, s, ([], [])) | None => Err NullDereference end.

(** ** States *)

Definition add_completion_callback (direction : NotifierType) : M unit :=
  counter ← gets m_client_resync_counter;
  i ← the_session;
  emit (AsyncWait i direction counter).

Definition enter_active : M unit :=
  uploads ← gets m_upload_completion_callbacks;
  downloads ← gets m_download_completion_callbacks;
  _ ← (if bool_decide (uploads = []) then skip else add_completion_callback upload);
  if bool_decide (downloads = []) then skip else add_completion_callback download.

Definition enter_inactive : M unit :=
  old ← gets m_connection_state;
  downloads ← gets m_download_completion_callbacks;
  uploads ← gets m_upload_completion_callbacks;
  session ← gets m_session;
  _ ← modify (fun s => set_session None (set_uploads [] (set_downloads [] (set_connection Disconnected s))));
  _ ← (match session with Some i => emit (Destroyed i) | None => skip end);
  later ([Unregister]
         ++ (if bool_decide (old = Disconnected) then [] else [InvokeConnectionCallbacks old])
         ++ ((fun cb => Complete cb operation_aborted) <$> downloads ++ uploads)).

(** [advance_state] with [enter_state] of the states that enter no other. *)
Definition advance (st : PublicState) (enter : M unit) : M unit :=
  old ← gets m_state;
  _ ← assert (bool_decide (old <> st));
  _ ← modify (set_state st);
  _ ← emit (Entered st);
  enter.

Definition advance_to_inactive : M unit := advance Inactive enter_inactive.

Definition enter_dying : M unit :=
  session ← gets m_session;
  match session with
  | None => advance_to_inactive
  | Some i =>
      _ ← modify (fun s => set_death_count (m_death_count s + 1) s);
      count ← gets m_death_count;
      emit (AsyncWaitDeath i count)
  end.

Definition enter_waiting : M unit := modify (set_deferred_close false).

Definition advance_state (st : PublicState) : M unit :=
  advance st (match st with
              | WaitingForAccessToken => enter_waiting
              | Active => enter_active
              | Dying => enter_dying
              | Inactive => enter_inactive
              end).

Definition create_sync_session : M unit :=
  session ← gets m_session;
  match session with
  | Some _ => skip
  | None =>
      i ← gets sessions_made;
      force ← gets m_force_client_resync;
      config ← gets m_config;
      _ ← modify (fun s => set_session (Some i) (set_made (i + 1) (set_bound false s)));
      emit (Made i (if force : bool then Some (match client_resync_mode config with Recover => true | _ => false end)
                    else None))
  end.

Definition waiting_close : M unit :=
  config ← gets m_config;
  match stop_policy config with
  | Immediately => advance_state Inactive
  | LiveIndefinitely | AfterChangesUploaded => modify (set_deferred_close true)
  end.

Definition active_close : M unit :=
  config ← gets m_config;
  match stop_policy config with
  | Immediately => advance_state Inactive
  | LiveIndefinitely => skip
  | AfterChangesUploaded => advance_state Dying
  end.

Definition inactive_close : M unit := later [Unregister].

(** [m_state->close]. *)
Definition close : M unit :=
  st ← gets m_state;
  match st with
  | WaitingForAccessToken => waiting_close
  | Active => active_close
  | Dying => skip
  | Inactive => inactive_close
  end.

(** [WaitingForAccessToken::refresh_access_token]. *)
Definition refresh_when_waiting (token : string) (server_url : option string) : M unit :=
  _ ← create_sync_session;
  url ← gets m_server_url;
  _ ← (match url with None => modify (set_url server_url) | Some _ => skip end);
  bound ← gets m_session_has_been_bound;
  i ← the_session;
  _ ← (if bound : bool then _ ← emit (Refresh i token); emit (CancelReconnectDelay i)
       else
         url ← gets m_server_url;
         match url with
         | Some url => _ ← emit (Bind i url token); modify (set_bound true)
         | None => fun _ => Err NullDereference
         end);
  override ← gets m_server_override;
  _ ← (match override with Some (address, port) => emit (OverrideServer i address port) | None => skip end);
  deferred ← gets m_deferred_commit_notification;
  _ ← (match deferred with
       | Some version => _ ← emit (TransactNotify i version); modify (set_deferred None)
       | None => skip
       end);
  _ ← advance_state Active;
  deferred_close ← gets m_deferred_close;
  if deferred_close : bool then close else skip.

Definition active_refresh_access_token (token : string) : M unit :=
  i ← the_session;
  _ ← emit (Refresh i token);
  emit (CancelReconnectDelay i).

Definition state_refresh_access_token (token : string) (url : option string) : M unit :=
  st ← gets m_state;
  match st with
  | WaitingForAccessToken => refresh_when_waiting token url
  | Active => active_refresh_access_token token
  | Dying | Inactive => skip
  end.

Definition active_access_token_expired : M unit :=
  _ ← advance_state WaitingForAccessToken;
  later [CallBindSessionHandler].

Definition state_access_token_expired : M unit :=
  st ← gets m_state;
  match st with
  | Active => active_access_token_expired
  | WaitingForAccessToken | Dying | Inactive => skip
  end.

Definition waiting_nonsync_transact_notify (version : Z) : M unit := modify (set_deferred (Some version)).

Definition active_nonsync_transact_notify (version : Z) : M unit :=
  i ← the_session;
  emit (TransactNotify i version).

Definition state_nonsync_transact_notify (version : Z) : M unit :=
  st ← gets m_state;
  match st with
  | WaitingForAccessToken => waiting_nonsync_transact_notify version
  | Active => active_nonsync_transact_notify version
  | Dying | Inactive => skip
  end.

(** [revive_if_needed]; the [bool] is whether the binding is to be asked for a token. *)
Definition waiting_revive_if_needed : M bool := _ ← modify (set_deferred_close false); mret false.
Definition dying_revive_if_needed : M bool := _ ← advance_state Active; mret false.
Definition inactive_revive_if_needed : M bool := _ ← advance_state WaitingForAccessToken; mret true.

Definition state_revive_if_needed : M bool :=
  st ← gets m_state;
  match st with
  | WaitingForAccessToken => waiting_revive_if_needed
  | Active => mret false
  | Dying => dying_revive_if_needed
  | Inactive => inactive_revive_if_needed
  end.

Definition waiting_handle_reconnect : M unit := later [CallBindSessionHandler].
Definition active_handle_reconnect : M unit := i ← the_session; emit (CancelReconnectDelay i).

Definition state_handle_reconnect : M unit :=
  st ← gets m_state;
  match st with
  | WaitingForAccessToken => waiting_handle_reconnect
  | Active => active_handle_reconnect
  | Dying | Inactive => skip
  end.

Definition waiting_log_out : M unit := advance_state Inactive.
Definition active_log_out : M unit := advance_state Inactive.
Definition dying_log_out : M unit := advance_state Inactive.

Definition state_log_out : M unit :=
  st ← gets m_state;
  match st with
  | WaitingForAccessToken => waiting_log_out
  | Active => active_log_out
  | Dying => dying_log_out
  | Inactive => skip
  end.

(** [handle_error]; the [bool] is whether the error has been handled. *)
Definition dying_handle_error (e : SyncError) : M bool :=
  _ ← (if is_fatal e then advance_state Inactive else skip);
  mret true.

Definition state_handle_error (e : SyncError) : M bool :=
  st ← gets m_state;
  match st with Dying => dying_handle_error e | _ => mret false end.

Definition active_wait_for_completion (direction : NotifierType) : M unit :=
  session ← gets m_session;
  _ ← assert (bool_decide (session <> None));
  add_completion_callback direction.

Definition dying_wait_for_completion (direction : NotifierType) : M unit :=
  session ← gets m_session;
  _ ← assert (bool_decide (session <> None));
  add_completion_callback direction.

Definition state_wait_for_completion (direction : NotifierType) : M unit :=
  st ← gets m_state;
  match st with
  | Active => active_wait_for_completion direction
  | Dying => dying_wait_for_completion direction
  | WaitingForAccessToken | Inactive => skip
  end.

Definition waiting_override_server (address : string) (port : Z) : M unit := modify (set_override (Some (address, port))).
Definition inactive_override_server (address : string) (port : Z) : M unit := modify (set_override (Some (address, port))).

Definition active_override_server (address : string) (port : Z) : M unit :=
  _ ← modify (set_override (Some (address, port)));
  i ← the_session;
  emit (OverrideServer i address port).

Definition dying_override_server (address : string) (port : Z) : M unit :=
  _ ← modify (set_override (Some (address, port)));
  i ← the_session;
  emit (OverrideServer i address port).

Definition state_override_server (address : string) (port : Z) : M unit :=
  st ← gets m_state;
  match st with
  | WaitingForAccessToken => waiting_override_server address port
  | Active => active_override_server address port
  | Dying => dying_override_server address port
  | Inactive => inactive_override_server address port
  end.

(** ** Errors *)

(** What an error calls for once the state has not claimed it and no client resync is started:
    to ignore it, to ask for a token again, to invalidate the user, or to go on with a state. *)
Inductive Reaction :=
| Ignore
| TokenExpired
| BadAuthentication
| GoOn (next : NextStateAfterError) (mark_file : option bool) (unrecognized : bool).

Definition reaction (e : SyncError) : Reaction :=
  let next := if is_fatal e then next_error else next_none in
  match error_code e with
  | protocol_error p =>
      match p with
      | ProtocolError.connection_closed | ProtocolError.other_error => Ignore
      | ProtocolError.session_closed | ProtocolError.other_session_error | ProtocolError.disabled_session => Ignore
      | ProtocolError.token_expired => TokenExpired
      | ProtocolError.bad_authentication => BadAuthentication
      | ProtocolError.permission_denied => GoOn next_inactive (Some false) false
      | ProtocolError.bad_client_file | ProtocolError.bad_client_file_ident | ProtocolError.bad_origin_file_ident
      | ProtocolError.bad_server_file_ident | ProtocolError.bad_server_version | ProtocolError.client_file_blacklisted
      | ProtocolError.diverging_histories | ProtocolError.server_file_deleted | ProtocolError.user_blacklisted
      | ProtocolError.client_file_expired => GoOn next_inactive (Some true) false
      | _ => GoOn next None false
      end
  | client_error c =>
      match c with
      | ClientError.connection_closed | ClientError.pong_timeout => Ignore
      | _ => GoOn next None false
      end
  | no_error | operation_aborted | foreign_error _ _ => GoOn next None true
  end.

(** The last part of [handle_error]. *)
Definition settle_error (e : SyncError) (next : NextStateAfterError) : M unit :=
  config ← gets m_config;
  later ((match next with
          | next_none => if cancel_waits_on_nonfatal_error config then [CancelPendingWaits (error_code e)] else []
          | next_inactive => (if is_client_reset_requested e then [CancelPendingWaits (error_code e)] else []) ++ [MakeInactive]
          | next_error => [CancelPendingWaits (error_code e)]
          end) ++ [ReportError e]).

Definition report_error (e : SyncError) : M unit :=
  config ← gets m_config;
  if has_error_handler config then emit (Reported e) else skip.

Definition unrecognized_error (e : SyncError) : SyncError := MkSyncError (error_code e) (is_fatal e) true.

(** The first part of [handle_error], under the lock. *)
Definition handle_error (e : SyncError) : M unit :=
  handled ← state_handle_error e;
  if handled : bool then skip else later [HandleUnclaimedError e].

(** A client resync: the handlers are moved aside while the session is torn down, and put back
    by a task that runs when [enter_inactive] has given up the lock. *)
Definition start_client_resync : M unit :=
  _ ← modify (set_force true);
  _ ← modify (fun s => set_counter (m_client_resync_counter s + 1) s);
  downloads ← gets m_download_completion_callbacks;
  uploads ← gets m_upload_completion_callbacks;
  _ ← modify (fun s => set_uploads [] (set_downloads [] s));
  _ ← advance_state Inactive;
  later [RestoreHandlers downloads uploads; Run ReviveIfNeeded].

(** The rest of [handle_error]. *)
Definition handle_unclaimed_error (e : SyncError) : M unit :=
  config ← gets m_config;
  if is_client_reset_requested e
     && (match client_resync_mode config with Manual => false | DiscardLocal | Recover => true end)
  then later [StartClientResync]
  else
    match reaction e with
    | Ignore => skip
    | TokenExpired => later [AccessTokenExpired]
    | BadAuthentication => later [CancelPendingWaits (error_code e); InvalidateUser; SettleError e next_none]
    | GoOn next mark unrecognized =>
        later ((match mark with Some backup => [MarkFile backup] | None => [] end)
               ++ [SettleError (if (unrecognized : bool) then unrecognized_error e else e) next])
    end.

Definition cancel_pending_waits (ec : ErrorCode) : M unit :=
  downloads ← gets m_download_completion_callbacks;
  uploads ← gets m_upload_completion_callbacks;
  _ ← modify (fun s => set_uploads [] (set_downloads [] s));
  later ((fun cb => Complete cb ec) <$> downloads ++ uploads).

(** ** Methods *)

Definition callbacks (direction : NotifierType) (s : Session) : list Z :=
  match direction with download => m_download_completion_callbacks s | upload => m_upload_completion_callbacks s end.

Definition set_callbacks (direction : NotifierType) (l : list Z) : Session -> Session :=
  match direction with download => set_downloads l | upload => set_uploads l end.

(** [wait_for_upload_completion] and [wait_for_download_completion]. *)
Definition wait_for_completion (direction : NotifierType) (callback : Z) : M unit :=
  l ← gets (callbacks direction);
  _ ← (if bool_decide (l = []) then state_wait_for_completion direction else skip);
  _ ← modify (set_callbacks direction (l ++ [callback]));
  emit (Registered callback).

Definition refresh_access_token (token : string) (url : option string) : M unit :=
  known ← gets m_server_url;
  match known, url with
  | None, None => skip
  | _, _ => state_refresh_access_token token url
  end.

Definition same_realm (c c' : SyncConfig) : bool :=
  (user c =? user c') && bool_decide (reference_realm_url c = reference_realm_url c')
  && Bool.eqb (is_partial c) (is_partial c').

(** One turn of the loop of [update_configuration]. *)
Definition update_configuration (new_config : SyncConfig) : M unit :=
  st ← gets m_state;
  if bool_decide (st <> Inactive) then
    _ ← advance_state Inactive;
    later [Run (UpdateConfiguration new_config)]
  else
    session ← gets m_session;
    config ← gets m_config;
    _ ← assert (bool_decide (session = None));
    _ ← assert (same_realm config new_config);
    _ ← modify (set_config new_config);
    later [Run ReviveIfNeeded].

Definition did_drop_external_reference : M unit :=
  holders ← gets m_external_reference;
  match holders with O => close | S _ => skip end.

(** The connection listener of [create_sync_session]. *)
Definition connection_state_listener (st : ConnectionState) (e : option SyncError) : M unit :=
  old ← gets m_connection_state;
  _ ← modify (set_connection st);
  later (NotifyConnectionChange old st :: match e with Some e => [HandleError e] | None => [] end).

(** The handler of [add_completion_callback]. *)
Definition completion_handler (resync_counter : Z) (direction : NotifierType) (ec : ErrorCode) : M unit :=
  counter ← gets m_client_resync_counter;
  if negb (resync_counter =? counter) then skip
  else
    l ← gets (callbacks direction);
    _ ← modify (set_callbacks direction []);
    later ((fun cb => Complete cb ec) <$> l).

(** The handler of [Dying::enter_state]. *)
Definition upload_completion_handler (current_death_count : Z) : M unit :=
  st ← gets m_state;
  count ← gets m_death_count;
  if bool_decide (st = Dying) && (count =? current_death_count) then advance_state Inactive else skip.

Definition call (c : Call) : M unit :=
  match c with
  | RefreshAccessToken token url => refresh_access_token token url
  | NonsyncTransactNotify version => state_nonsync_transact_notify version
  | ReviveIfNeeded => ask ← state_revive_if_needed; if ask : bool then later [CallBindSessionHandler] else skip
  | HandleReconnect => state_handle_reconnect
  | LogOut => state_log_out
  | Close => close
  | WaitForCompletion direction callback => wait_for_completion direction callback
  | SetOverrideServer address port => state_override_server address port
  | UpdateConfiguration config => update_configuration config
  | TakeExternalReference => modify (fun s => set_external (m_external_reference s + 1)%nat s)
  | DidDropExternalReference => did_drop_external_reference
  | ConnectionStateListener st e => connection_state_listener st e
  | CompletionHandler counter direction ec => completion_handler counter direction ec
  | UploadCompletionHandler count => upload_completion_handler count
  end.

Definition run_task (t : Task) : M unit :=
  match t with
  | Run c => call c
  | Unregister => emit Unregistered
  | InvokeConnectionCallbacks old => new ← gets m_connection_state; emit (ConnectionChanged old new)
  | NotifyConnectionChange old new => emit (ConnectionChanged old new)
  | Complete cb ec => emit (Completed cb ec)
  | HandleError e => handle_error e
  | HandleUnclaimedError e => handle_unclaimed_error e
  | StartClientResync => start_client_resync
  | AccessTokenExpired => state_access_token_expired
  | SettleError e next => settle_error e next
  | RestoreHandlers downloads uploads => modify (fun s => set_uploads uploads (set_downloads downloads s))
  | CallBindSessionHandler => emit AskedForToken
  | CancelPendingWaits ec => cancel_pending_waits ec
  | InvalidateUser => emit UserInvalidated
  | MarkFile backup => emit (FileMarked backup)
  | MakeInactive => advance_state Inactive
  | ReportError e => report_error e
  end.

(** ** Threads *)

(** The handlers that the sync client has been given, and has still to call. *)
Inductive Handler :=
| OnCompletion (resync_counter : Z) (direction : NotifierType)
| OnDeath (death_count : Z).

Record System := MkSystem {
  session : Session;
  threads : list (list Task);
  handlers : list Handler;
  trace : list Event
}.

Definition handler_of (e : Event) : option Handler :=
  match e with
  | AsyncWait _ direction counter => Some (OnCompletion counter direction)
  | AsyncWaitDeath _ count => Some (OnDeath count)
  | _ => None
  end.

Definition handler_call (h : Handler) (ec : ErrorCode) : Call :=
  match h with
  | OnCompletion counter direction => CompletionHandler counter direction ec
  | OnDeath count => UploadCompletionHandler count
  end.

(** What may happen: a thread calls a method, a holder of the external reference lets it go,
    the sync client calls a handler, or a thread runs its next task. *)
Inductive Action :=
| CallMethod (c : Call)
| DropExternalReference
| CallHandler (i : nat) (ec : ErrorCode)
| RunThread (i : nat).

(** The handlers are called by the sync client alone. *)
Definition public_method (c : Call) : bool :=
  match c with
  | DidDropExternalReference | CompletionHandler _ _ _ | UploadCompletionHandler _ => false
  | _ => true
  end.

Definition start_thread (c : Call) (σ : System) : System :=
  MkSystem (session σ) (threads σ ++ [[Run c]]) (handlers σ) (trace σ).

Definition act (σ : System) (a : Action) : result System :=
  match a with
  | CallMethod c => if public_method c then Ok (start_thread c σ) else Err OutOfBounds
  | DropExternalReference =>
      match m_external_reference (session σ) with
      | O => Err OutOfBounds
      | S n =>
          let σ := MkSystem (set_external n (session σ)) (threads σ) (handlers σ) (trace σ) in
          Ok (match n with O => start_thread DidDropExternalReference σ | S _ => σ end)
      end
  | CallHandler i ec =>
      match handlers σ !! i with
      | None => Err OutOfBounds
      | Some h =>
          Ok (start_thread (handler_call h ec)
                (MkSystem (session σ) (threads σ) (delete i (handlers σ)) (trace σ)))
      end
  | RunThread i =>
      match threads σ !! i with
      | Some (t :: rest) =>
          '(_, s, (es, ts)) ← run_task t (session σ);
          Ok (MkSystem s (<[i := ts ++ rest]> (threads σ)) (handlers σ ++ omap handler_of es) (trace σ ++ es))
      | _ => Err OutOfBounds
      end
  end.

Definition start (config : SyncConfig) (force_client_resync : bool) : System :=
  MkSystem (make_session config force_client_resync) [] [] [].

(** The systems that a session gets to, by actions that [allowed] allows. *)
Inductive reachable (allowed : System -> Action -> Prop) : System -> Prop :=
| reachable_start config force : reachable allowed (start config force)
| reachable_act σ a σ' : reachable allowed σ -> allowed σ a -> act σ a = Ok σ' -> reachable allowed σ'.

Definition anything (σ : System) (a : Action) : Prop := True.

Definition is_restore (t : Task) : bool := match t with RestoreHandlers _ _ => true | _ => false end.

(** No other thread runs while one is between the two halves of a client resync. *)
Definition undisturbed (σ : System) (a : Action) : Prop :=
  match a with
  | RunThread i => forall j ts, threads σ !! j = Some ts -> existsb is_restore ts = true -> i = j
  | _ => True
  end.
