(* ===== verification/SyncTasks.v ===== *)
(** What a task of a sync session does: a weakest precondition for the monad of tasks, the
    protocol of the sync client that a task keeps to, and what it does to the completion
    callbacks, the states and the handlers. *)

From stdpp Require Import strings.
From S2P Require Import Prelude SyncSession.

(** ** Weakest preconditions of tasks *)

Definition wp {A} (m : M A) (Q : A -> Session -> list Event -> list Task -> Prop) (E : error -> Prop) (s : Session) : Prop :=
  match m s with
  | Ok (a, s', (es, ts)) => Q a s' es ts
  | Err e => E e
  end.

Section wp.
Context {A B : Type} (E : error -> Prop).
Implicit Types (Q : B -> Session -> list Event -> list Task -> Prop) (k : A -> M B).

Lemma wp_bind m k Q s :
  wp m (fun a s es ts => wp (k a) (fun b s es' ts' => Q b s (es ++ es') (ts ++ ts')) E s) E s ->
  wp (mbind k m) Q E s.
Proof.
  unfold wp at 1 3, mbind, M_bind. destruct (m s) as [[[a s1] [es ts]]|e]; [|done]. cbn. unfold wp.
  by destruct (k a s1) as [[[b s2] [es' ts']]|e].
Qed.

Lemma wp_ret (b : B) Q s : Q b s [] [] -> wp (mret b) Q E s.
Proof. done. Qed.

Lemma wp_gets (f : Session -> A) k Q s : wp (k (f s)) Q E s -> wp (mbind k (gets f)) Q E s.
Proof. intros H. apply wp_bind. exact H. Qed.

Lemma wp_case (b : bool) (m1 m2 : M B) Q s :
  (b = true -> wp m1 Q E s) -> (b = false -> wp m2 Q E s) -> wp (if b then m1 else m2) Q E s.
Proof. destruct b; auto. Qed.

Lemma wp_mono (m : M A) (Q Q' : A -> Session -> list Event -> list Task -> Prop) (E' : error -> Prop) s :
  wp m Q E s -> (forall a s es ts, Q a s es ts -> Q' a s es ts) -> (forall e, E e -> E' e) -> wp m Q' E' s.
Proof. unfold wp. destruct (m s) as [[[? ?] [? ?]]|?]; auto. Qed.
End wp.

Section wp_unit.
Context {B : Type} (E : error -> Prop).
Implicit Types (Q : B -> Session -> list Event -> list Task -> Prop) (k : unit -> M B).

Lemma wp_modify f k Q s : wp (k tt) Q E (f s) -> wp (mbind k (modify f)) Q E s.
Proof. intros H. apply wp_bind. exact H. Qed.

Lemma wp_skip k Q s : wp (k tt) Q E s -> wp (mbind k skip) Q E s.
Proof. intros H. apply wp_bind. exact H. Qed.

Lemma wp_emit e k Q s : wp (k tt) (fun b s es ts => Q b s (e :: es) ts) E s -> wp (mbind k (emit e)) Q E s.
Proof. intros H. apply wp_bind. exact H. Qed.

Lemma wp_later l k Q s : wp (k tt) (fun b s es ts => Q b s es (l ++ ts)) E s -> wp (mbind k (later l)) Q E s.
Proof. intros H. apply wp_bind. exact H. Qed.

Lemma wp_assert b k Q s :
  (b = true -> wp (k tt) Q E s) -> (b = false -> E AssertionFailed) -> wp (mbind k (assert b)) Q E s.
Proof. intros H1 H2. apply wp_bind. unfold wp, assert. destruct b; [by apply H1|by apply H2]. Qed.

Lemma wp_the_session (k : Z -> M B) Q s :
  (forall i, m_session s = Some i -> wp (k i) Q E s) -> (m_session s = None -> E NullDereference) ->
  wp (mbind k the_session) Q E s.
Proof. intros H1 H2. apply wp_bind. unfold wp, the_session. destruct (m_session s); [by apply H1|by apply H2]. Qed.
End wp_unit.

Lemma wp_last_modify f Q E s : Q tt (f s) [] [] -> wp (modify f) Q E s.
Proof. done. Qed.
Lemma wp_last_emit e Q E s : Q tt s [e] [] -> wp (emit e) Q E s.
Proof. done. Qed.
Lemma wp_last_later l Q E s : Q tt s [] l -> wp (later l) Q E s.
Proof. done. Qed.
Lemma wp_last_skip Q E s : Q tt s [] [] -> wp skip Q E s.
Proof. done. Qed.

Ltac session_simpl_goal :=
  cbn [set_state set_connection set_death_count set_config set_force set_downloads set_uploads set_counter set_override
       set_session set_made set_bound set_deferred set_deferred_close set_url set_external
       m_state m_connection_state m_death_count m_config m_force_client_resync m_download_completion_callbacks
       m_upload_completion_callbacks m_client_resync_counter m_server_override m_session sessions_made
       m_session_has_been_bound m_deferred_commit_notification m_deferred_close m_server_url m_external_reference].
Ltac session_simpl :=
  cbn [set_state set_connection set_death_count set_config set_force set_downloads set_uploads set_counter set_override
       set_session set_made set_bound set_deferred set_deferred_close set_url set_external
       m_state m_connection_state m_death_count m_config m_force_client_resync m_download_completion_callbacks
       m_upload_completion_callbacks m_client_resync_counter m_server_override m_session sessions_made
       m_session_has_been_bound m_deferred_commit_notification m_deferred_close m_server_url m_external_reference] in *.

Ltac head_of t := match t with ?f _ => head_of f | _ => t end.

Ltac wp_step :=
  match goal with
  | |- wp (mbind _ (gets _)) _ _ _ => apply wp_gets; session_simpl_goal
  | |- wp (mbind _ (modify _)) _ _ _ => apply wp_modify; session_simpl_goal
  | |- wp (mbind _ (emit _)) _ _ _ => apply wp_emit
  | |- wp (mbind _ (later _)) _ _ _ => apply wp_later
  | |- wp (mbind _ skip) _ _ _ => apply wp_skip
  | |- wp (mbind _ (assert _)) _ _ _ => apply wp_assert; session_simpl_goal;
      [let Hb := fresh "Hb" in intros Hb; try (exfalso; apply bool_decide_eq_true_1 in Hb; by apply Hb); clear Hb|intros ?]
  | |- wp (mbind _ the_session) _ _ _ => apply wp_the_session; session_simpl_goal; [intros ? ?|intros ?]; simplify_eq
  | |- wp (mbind _ _) _ _ _ => apply wp_bind
  | |- wp (modify _) _ _ _ => apply wp_last_modify
  | |- wp (emit _) _ _ _ => apply wp_last_emit
  | |- wp (later _) _ _ _ => apply wp_last_later
  | |- wp skip _ _ _ => apply wp_last_skip
  | |- wp (mret _) _ _ _ => apply wp_ret
  | |- wp (advance_state ?st) _ _ _ => unfold advance_state, advance; cbv iota beta
  | |- wp advance_to_inactive _ _ _ => unfold advance_to_inactive, advance
  | |- wp (match ?x with _ => _ end) _ _ _ => let E := fresh "E" in destruct x eqn:E
  | |- wp (let '(_, _) := ?x in _) _ _ _ => destruct x
  | |- wp (?f) _ _ _ => let h := head_of f in unfold h
  | |- _ => progress session_simpl
  end.

(** ** The protocol of the sync client

    What [client.hpp] asks of the user of a [sync::Session]: a session is bound once, the other
    functions are called on a bound session alone, and there is one session at a time.  The
    state is the number of the next session, with the one that there is and whether it is bound. *)

Definition ClientState : Type := Z * option (Z * bool).

Definition bound_to (c : ClientState) (i : Z) : bool :=
  match c.2 with Some (j, true) => i =? j | _ => false end.

Definition client_step (c : ClientState) (e : Event) : option ClientState :=
  match e with
  | Made i _ => match c.2 with None => if i =? c.1 then Some (i + 1, Some (i, false)) else None | Some _ => None end
  | Bind i _ _ => match c.2 with Some (j, false) => if i =? j then Some (c.1, Some (j, true)) else None | _ => None end
  | Refresh i _ | CancelReconnectDelay i | OverrideServer i _ _ | TransactNotify i _
  | AsyncWait i _ _ | AsyncWaitDeath i _ => if bound_to c i then Some c else None
  | Destroyed i => if bound_to c i then Some (c.1, None) else None
  | _ => Some c
  end.

Fixpoint client_run (c : ClientState) (es : list Event) : option ClientState :=
  match es with
  | [] => Some c
  | e :: es => c ← client_step c e; client_run c es
  end.

Lemma client_run_app c es es' : client_run c (es ++ es') = c ← client_run c es; client_run c es'.
Proof. revert c. induction es as [|e es IH]; intros c; [done|]. cbn. destruct (client_step c e); [apply IH|done]. Qed.

(** What the client has seen of a session. *)
Definition client_view (s : Session) : ClientState :=
  (sessions_made s, (fun i => (i, m_session_has_been_bound s)) <$> m_session s).

(** ** The invariant of a session *)

Definition session_ok (s : Session) : Prop :=
  match m_state s with
  | Inactive => m_session s = None
  | Active | Dying => m_session s <> None /\ m_session_has_been_bound s = true
  | WaitingForAccessToken => m_session s <> None -> m_session_has_been_bound s = true
  end.

(** ** A refresh of the access token *)

(** Events that are calls of the client that no property counts. *)
Definition quiet (e : Event) : bool :=
  match e with
  | Made _ _ | Bind _ _ _ | Refresh _ _ | CancelReconnectDelay _ | OverrideServer _ _ _ | TransactNotify _ _ => true
  | _ => false
  end.

(** The waits that [Active::enter_state] starts. *)
Definition waits (i : Z) (s : Session) : list Event :=
  (if bool_decide (m_upload_completion_callbacks s = []) then [] else [AsyncWait i upload (m_client_resync_counter s)])
  ++ (if bool_decide (m_download_completion_callbacks s = []) then [] else [AsyncWait i download (m_client_resync_counter s)]).

(** The session once it is active, and the calls that made it so. *)
Record refreshed (s s' : Session) (i : Z) (calls : list Event) : Prop := {
  refreshed_state : m_state s' = Active;
  refreshed_session : m_session s' = Some i;
  refreshed_bound : m_session_has_been_bound s' = true;
  refreshed_downloads : m_download_completion_callbacks s' = m_download_completion_callbacks s;
  refreshed_uploads : m_upload_completion_callbacks s' = m_upload_completion_callbacks s;
  refreshed_counter : m_client_resync_counter s' = m_client_resync_counter s;
  refreshed_death : m_death_count s' = m_death_count s;
  refreshed_config : m_config s' = m_config s;
  refreshed_close : m_deferred_close s' = m_deferred_close s;
  refreshed_deferred : m_deferred_commit_notification s' = None;
  refreshed_quiet : forallb quiet calls = true;
  refreshed_calls : client_run (client_view s) calls = Some (client_view s')
}.

(** ** Changes of state *)

Definition destroyed (s : Session) : list Event :=
  match m_session s with Some i => [Destroyed i] | None => [] end.

Definition torn_down (s : Session) : Session :=
  set_session None (set_uploads [] (set_downloads [] (set_connection Disconnected (set_state Inactive s)))).

Definition aborted (l : list Z) : list Task := (fun cb => Complete cb operation_aborted) <$> l.

Definition teardown (s : Session) : list Task :=
  [Unregister]
  ++ (if bool_decide (m_connection_state s = Disconnected) then [] else [InvokeConnectionCallbacks (m_connection_state s)])
  ++ aborted (m_download_completion_callbacks s ++ m_upload_completion_callbacks s).

Lemma advance_eq st enter s :
  m_state s <> st ->
  advance st enter s = ('(a, s', (es, ts)) ← enter (set_state st s); Ok (a, s', (Entered st :: es, ts))).
Proof.
  intros H. unfold advance, mbind, M_bind, gets, assert. cbn. rewrite (bool_decide_eq_true_2 _ H). cbn.
  by destruct (enter (set_state st s)) as [[[[] ?] [? ?]]|].
Qed.

Lemma enter_active_eq s i : m_session s = Some i -> enter_active s = Ok (tt, s, (waits i s, [])).
Proof.
  intros H. destruct s as [????? downloads uploads]. session_simpl. subst.
  destruct downloads, uploads; reflexivity.
Qed.

Lemma advance_inactive_eq s :
  m_state s <> Inactive ->
  advance_state Inactive s = Ok (tt, torn_down s, (Entered Inactive :: destroyed s, teardown s)).
Proof. intros H. unfold advance_state. rewrite advance_eq by done. destruct s, m_session; reflexivity. Qed.

Lemma advance_active_eq s i :
  m_state s <> Active -> m_session s = Some i ->
  advance_state Active s = Ok (tt, set_state Active s, (Entered Active :: waits i s, [])).
Proof.
  intros H Hi. unfold advance_state. rewrite advance_eq, (enter_active_eq _ i) by (done || by destruct s).
  by destruct s.
Qed.

Lemma advance_waiting_eq s :
  m_state s <> WaitingForAccessToken ->
  advance_state WaitingForAccessToken s
  = Ok (tt, set_deferred_close false (set_state WaitingForAccessToken s), ([Entered WaitingForAccessToken], [])).
Proof. intros H. unfold advance_state. by rewrite advance_eq. Qed.

Lemma advance_dying_eq s i :
  m_state s <> Dying -> m_session s = Some i ->
  advance_state Dying s
  = Ok (tt, set_death_count (m_death_count s + 1) (set_state Dying s),
        ([Entered Dying; AsyncWaitDeath i (m_death_count s + 1)], [])).
Proof. intros H Hi. unfold advance_state. rewrite advance_eq by done. destruct s. session_simpl. by subst. Qed.

Lemma wp_eq {A B} (m : M A) (k : A -> M B) Q E s a s' es ts :
  m s = Ok (a, s', (es, ts)) ->
  wp (k a) (fun b s2 es' ts' => Q b s2 (es ++ es') (ts ++ ts')) E s' ->
  wp (mbind k m) Q E s.
Proof. intros Hm H. apply wp_bind. unfold wp at 1. by rewrite Hm. Qed.

Lemma wp_eq_last {A} (m : M A) Q E s a s' es ts : m s = Ok (a, s', (es, ts)) -> Q a s' es ts -> wp m Q E s.
Proof. intros Hm H. unfold wp. by rewrite Hm. Qed.

Definition refresh_calls (i : Z) (token : string) (url : option string) (s : Session) : list Event :=
  (match m_session s with
   | Some _ => []
   | None => [Made i (if m_force_client_resync s then
                        Some (match client_resync_mode (m_config s) with Recover => true | _ => false end) else None)]
   end)
  ++ (match m_session s with
      | Some _ => [Refresh i token; CancelReconnectDelay i]
      | None => match (match m_server_url s with Some u => Some u | None => url end) with
                | Some u => [Bind i u token] | None => [] end
      end)
  ++ (match m_server_override s with Some (address, port) => [OverrideServer i address port] | None => [] end)
  ++ (match m_deferred_commit_notification s with Some version => [TransactNotify i version] | None => [] end).

Lemma wp_refresh Q E token url s :
  m_state s = WaitingForAccessToken -> session_ok s -> (m_server_url s = None -> url <> None) ->
  (forall i s' calls, refreshed s s' i calls ->
    wp (deferred ← gets m_deferred_close; if deferred : bool then close else skip)
       (fun _ s2 es ts => Q tt s2 (calls ++ Entered Active :: waits i s' ++ es) ts) E s') ->
  wp (refresh_when_waiting token url) Q E s.
Proof.
  intros Hst Hok Hurl H.
  destruct s as [st conn deaths config force downs ups counter override session made bound deferred closing known ext].
  unfold session_ok in Hok. session_simpl. subst st.
  set (i := match session with Some i => i | None => made end).
  set (known' := match known with Some u => Some u | None => url end).
  specialize (H i (MkSession Active conn deaths config force downs ups counter override (Some i)
                     (match session with Some _ => made | None => made + 1 end) true None closing known' ext)
                (refresh_calls i token url (MkSession WaitingForAccessToken conn deaths config force downs ups counter
                   override session made bound deferred closing known ext))).
  assert (known' <> None) as Hknown by (subst known'; destruct known; naive_solver).
  unfold refresh_when_waiting, create_sync_session, refresh_calls in *. session_simpl.
  destruct session as [j|]; [rewrite Hok in * by done|]; destruct known as [u|];
    try (destruct url as [u|]; [|by destruct Hurl]); destruct override as [[addr port]|], deferred as [version|];
    subst i known'; cbn [app] in *.
  all: repeat (lazymatch goal with
       | |- wp (mbind _ (advance_state Active)) _ _ _ => eapply wp_eq; [by apply advance_active_eq|]
       | |- wp (mbind _ (gets m_deferred_close)) _ _ _ => fail
       | _ => wp_step end).
  all: eapply wp_mono; [apply H| |done].
  all: try (by intros [] ? ? ?; cbn).
  all: constructor; try done; cbn; repeat (rewrite Z.eqb_refl; cbn); done.
Qed.

(** What a refresh leaves: an active session, or one that the deferred [close] has moved on. *)
Lemma wp_refresh_access_token (Q : unit -> Session -> list Event -> list Task -> Prop) E token url s :
  m_state s = WaitingForAccessToken -> session_ok s -> Q tt s [] [] ->
  (forall i s' calls, refreshed s s' i calls ->
    let es := calls ++ Entered Active :: waits i s' in
    Q tt s' es []
    /\ Q tt (torn_down s') (es ++ [Entered Inactive; Destroyed i]) (teardown s')
    /\ Q tt (set_death_count (m_death_count s' + 1) (set_state Dying s'))
         (es ++ [Entered Dying; AsyncWaitDeath i (m_death_count s' + 1)]) []) ->
  wp (refresh_access_token token url) Q E s.
Proof.
  intros Hst Hok H0 H. unfold refresh_access_token. apply wp_gets.
  assert ((m_server_url s = None -> url <> None) -> wp (state_refresh_access_token token url) Q E s) as Hgo.
  { intros Hurl. unfold state_refresh_access_token. apply wp_gets. rewrite Hst. apply wp_refresh; [done..|].
    intros i s' calls Hr. destruct (H i s' calls Hr) as (H1 & H2 & H3). cbv zeta in *. destruct Hr as [Ha Hs _ _ _ _ _ _ _ _ _].
    rewrite <- !app_assoc in H2, H3. cbn [app] in H2, H3. apply wp_gets. destruct (m_deferred_close s').
    - unfold close. apply wp_gets. rewrite Ha. apply wp_gets. destruct (stop_policy (m_config s')).
      + eapply wp_eq_last; [apply advance_inactive_eq; by rewrite Ha|]. unfold destroyed. by rewrite Hs.
      + apply wp_last_skip. by rewrite app_nil_r.
      + eapply wp_eq_last; [apply advance_dying_eq; [by rewrite Ha|done]|]. done.
    - apply wp_last_skip. by rewrite app_nil_r. }
  destruct (m_server_url s), url; (apply Hgo; congruence) || exact H0.
Qed.

(** ** What every task keeps *)

Ltac task_step :=
  match goal with
  | |- wp (mbind _ (advance_state Inactive)) _ _ _ => eapply wp_eq; [by apply advance_inactive_eq|]
  | |- wp (advance_state Inactive) _ _ _ => eapply wp_eq_last; [by apply advance_inactive_eq|]
  | |- wp (mbind _ (advance_state Active)) _ _ _ => eapply wp_eq; [by apply advance_active_eq|]
  | |- wp (mbind _ (advance_state WaitingForAccessToken)) _ _ _ => eapply wp_eq; [by apply advance_waiting_eq|]
  | |- wp (advance_state Dying) _ _ _ => eapply wp_eq_last; [by apply advance_dying_eq|]
  | _ => wp_step
  end.

(** Run a task from a session that is well-formed by [H], in each state. *)
Ltac run_task s t H :=
  destruct s as [st conn deaths config force downs ups counter override [i|] made bound deferred closing known ext];
  destruct t as [[token url|version| | | | |[] callback|address port|config'| | |conn' [error|]|counter' [] ec|deaths']
                | |old|old new|callback ec|error|error| | |error []|downs' ups'| |ec| |backup| |error];
  destruct st; cbn [session_ok m_state m_session m_session_has_been_bound] in H;
  try discriminate H; try (destruct H as [H ?]; try (by destruct H); subst bound);
  try (specialize (H ltac:(done)); subst bound);
  cbn [run_task call];
  try match goal with |- wp (refresh_access_token _ _) _ _ (MkSession WaitingForAccessToken _ _ _ _ _ _ _ _ _ _ _ _ _ _ _) => idtac
      | _ => repeat task_step end.

(** [MakeInactive] and [StartClientResync] assert that the session is not inactive already, and
    [update_configuration] that the new configuration is of the same realm. *)
Definition may_fail (t : Task) (s : Session) : Prop :=
  match t with
  | MakeInactive | StartClientResync => m_state s = Inactive
  | Run (UpdateConfiguration config) => m_state s = Inactive /\ same_realm (m_config s) config = false
  | _ => False
  end.

Lemma client_run_waits c i s : bound_to c i = true -> client_run c (waits i s) = Some c.
Proof. intros H. unfold waits. repeat case_bool_decide; cbn; by repeat (rewrite H; cbn). Qed.

Ltac follow_client :=
  split; [by first [reflexivity|split]|]; cbn -[waits];
  repeat first [rewrite Z.eqb_refl|rewrite client_run_waits by (cbn; by rewrite ?Z.eqb_refl)|progress cbn -[waits]|rewrite app_nil_r];
  done.

Lemma run_task_ok t s :
  session_ok s ->
  wp (run_task t)
     (fun _ s' es _ => session_ok s' /\ client_run (client_view s) es = Some (client_view s'))
     (fun e => e = AssertionFailed /\ may_fail t s) s.
Proof.
  assert (forall token url s, m_state s = WaitingForAccessToken -> session_ok s ->
    wp (refresh_access_token token url)
      (fun _ s' es _ => session_ok s' /\ client_run (client_view s) es = Some (client_view s')) (fun _ => False) s) as Hr.
  { intros token url s0 Hst Hok. apply wp_refresh_access_token; [done|done|by split|].
    intros i s' calls [Ha Hs Hb _ _ _ _ _ _ _ _ Hc]. cbv zeta. rewrite !client_run_app, Hc.
    unfold client_view, session_ok. destruct s'. session_simpl. subst. cbn -[waits].
    rewrite client_run_waits by (cbn; by rewrite Z.eqb_refl). cbn. by rewrite Z.eqb_refl. }
  intros H. run_task s t H;
    try (eapply wp_mono; [by apply Hr|done|done]);
    unfold client_view; cbn -[waits client_run]; try done; follow_client.
Qed.

(** ** Completion callbacks *)

Definition pending (s : Session) : list Z := m_download_completion_callbacks s ++ m_upload_completion_callbacks s.

(** The callbacks that a task has taken over. *)
Definition taken (t : Task) : list Z :=
  match t with
  | Complete cb _ => [cb]
  | RestoreHandlers downloads uploads => downloads ++ uploads
  | _ => []
  end.

Definition taken_all (ts : list Task) : list Z := ts ≫= taken.

Definition completed (es : list Event) : list Z := omap (fun e => match e with Completed cb _ => Some cb | _ => None end) es.
Definition registered (es : list Event) : list Z := omap (fun e => match e with Registered cb => Some cb | _ => None end) es.

Notation tally c l := (count_occ Z.eq_dec l c).

Lemma taken_all_app ts ts' : taken_all (ts ++ ts') = taken_all ts ++ taken_all ts'.
Proof. apply bind_app. Qed.

Lemma taken_all_complete ec l : taken_all ((fun cb => Complete cb ec) <$> l) = l.
Proof. induction l as [|cb l IH]; [done|]. cbn. by f_equal. Qed.

Lemma quiet_events es : forallb quiet es = true -> completed es = [] /\ registered es = [].
Proof.
  induction es as [|e es IH]; [done|]. cbn. intros [He H]%andb_prop. destruct (IH H) as [IH1 IH2].
  unfold completed, registered in *. by destruct e; cbn; rewrite ?IH1, ?IH2.
Qed.

Lemma waits_events i s : completed (waits i s) = [] /\ registered (waits i s) = [].
Proof. unfold waits. by repeat case_bool_decide. Qed.

Lemma completed_app es es' : completed (es ++ es') = completed es ++ completed es'.
Proof. apply omap_app. Qed.
Lemma registered_app es es' : registered (es ++ es') = registered es ++ registered es'.
Proof. apply omap_app. Qed.

Lemma completed_cons e es : completed (e :: es) = match e with Completed cb _ => [cb] | _ => [] end ++ completed es.
Proof. by destruct e. Qed.
Lemma registered_cons e es : registered (e :: es) = match e with Registered cb => [cb] | _ => [] end ++ registered es.
Proof. by destruct e. Qed.

(** What becomes of a callback in a task: it is pending, taken or completed afterwards, if it
    was pending, taken or is registered. *)
Definition accounted (c : Z) (t : Task) (s s' : Session) (es : list Event) (ts : list Task) : Prop :=
  let before := (tally c (pending s) + tally c (taken t) + tally c (registered es))%nat in
  let after := (tally c (pending s') + tally c (taken_all ts) + tally c (completed es))%nat in
  (after <= before)%nat /\ (is_restore t = false \/ pending s = [] -> after = before).

Lemma pending_torn_down s : pending (torn_down s) = [].
Proof. by destruct s. Qed.

Lemma taken_teardown s : taken_all (teardown s) = pending s.
Proof.
  unfold teardown, aborted, pending. rewrite !taken_all_app, taken_all_complete. by case_bool_decide.
Qed.

Lemma destroyed_events s : completed (destroyed s) = [] /\ registered (destroyed s) = [].
Proof. unfold destroyed. by destruct (m_session s). Qed.

Ltac split_options :=
  repeat match goal with |- context [match ?x with Some _ => _ | None => _ end] => is_var x; destruct x
    | |- context [if ?b then _ else _] => match type of b with bool => destruct b end end.

Ltac count_callbacks :=
  split_options;
  repeat first
    [ rewrite pending_torn_down | rewrite taken_teardown | rewrite completed_app | rewrite registered_app
    | rewrite completed_cons | rewrite registered_cons
    | rewrite taken_all_app | rewrite taken_all_complete | rewrite count_occ_app
    | match goal with |- context [waits ?i ?s] =>
        rewrite ?(proj1 (waits_events i s)), ?(proj2 (waits_events i s)) end
    | match goal with |- context [destroyed ?s] =>
        rewrite ?(proj1 (destroyed_events s)), ?(proj2 (destroyed_events s)) end
    | progress cbn -[waits destroyed torn_down teardown pending taken_all completed registered] ];
  unfold pending; session_simpl_goal; cbn; rewrite ?count_occ_app; cbn; repeat case_match; lia.

Lemma run_task_accounted c t s :
  session_ok s -> wp (run_task t) (fun _ s' es ts => accounted c t s s' es ts) (fun _ => True) s.
Proof.
  assert (forall token url s, m_state s = WaitingForAccessToken -> session_ok s ->
    wp (refresh_access_token token url)
      (fun _ s' es ts => (tally c (pending s') + tally c (taken_all ts) + tally c (completed es)
                          = tally c (pending s) + tally c (registered es))%nat) (fun _ => False) s) as Hr.
  { intros token url s0 Hst Hok. apply wp_refresh_access_token; [done|done|cbn; lia|].
    intros i s' calls [_ _ _ Hd Hu _ _ _ _ _ Hq _]. cbv zeta. destruct (quiet_events calls Hq) as [E1 E2].
    repeat split; rewrite !completed_app, !registered_app, E1, E2; destruct s', s0; session_simpl; subst; count_callbacks. }
  intros H. unfold accounted. run_task s t H.
  all: try (eapply wp_mono; [by apply Hr| |done]; intros [] s' es ts Hs; cbn [taken]; rewrite count_occ_nil; lia).
  all: try done; try count_callbacks.
  all: split; [count_callbacks|intros [Hno|Hp]; [done|]; unfold pending in Hp; session_simpl; apply app_nil in Hp as [-> ->]; count_callbacks].
Qed.

(** ** The documented states

    The comment on [SyncSession::State] lists twice how the states follow each other: for each
    state where it may lead [To], and [From] where it is entered.  The lists differ: that a token
    expired leads from [Active] to [WaitingForAccessToken] is listed under [To] of the one and not
    under [From] of the other. *)

Definition listed_to (st st' : PublicState) : bool :=
  match st, st' with
  | WaitingForAccessToken, (Active | Inactive) => true
  | Active, (WaitingForAccessToken | Inactive | Dying) => true
  | Dying, (Inactive | Active) => true
  | Inactive, WaitingForAccessToken => true
  | _, _ => false
  end.

Definition listed_from (st' st : PublicState) : bool :=
  match st', st with
  | WaitingForAccessToken, Inactive => true
  | Active, (WaitingForAccessToken | Dying) => true
  | Dying, Active => true
  | Inactive, (WaitingForAccessToken | Active | Dying) => true
  | _, _ => false
  end.

Definition token_expires (st st' : PublicState) : bool :=
  match st, st' with Active, WaitingForAccessToken => true | _, _ => false end.

Definition edge (st st' : PublicState) : bool := listed_to st st' && (listed_from st' st || token_expires st st').

Fixpoint walk (st : PublicState) (es : list Event) : option PublicState :=
  match es with
  | [] => Some st
  | Entered st' :: es => if edge st st' then walk st' es else None
  | _ :: es => walk st es
  end.

Lemma walk_app st es es' : walk st (es ++ es') = st' ← walk st es; walk st' es'.
Proof.
  revert st. induction es as [|e es IH]; intros st; [done|]. destruct e; cbn; try apply IH.
  by destruct (edge st st0).
Qed.

Lemma walk_quiet st es : forallb quiet es = true -> walk st es = Some st.
Proof. induction es as [|e es IH]; [done|]. cbn. intros [He H]%andb_prop. by destruct e; cbn; auto. Qed.

Lemma walk_waits st i s : walk st (waits i s) = Some st.
Proof. unfold waits. by repeat case_bool_decide. Qed.

Lemma run_task_walks t s :
  session_ok s -> wp (run_task t) (fun _ s' es _ => walk (m_state s) es = Some (m_state s')) (fun _ => True) s.
Proof.
  assert (forall token url s, m_state s = WaitingForAccessToken -> session_ok s ->
    wp (refresh_access_token token url) (fun _ s' es _ => walk (m_state s) es = Some (m_state s')) (fun _ => True) s) as Hr.
  { intros token url s0 Hst Hok. apply wp_refresh_access_token; [done|done|done|].
    intros i s' calls [Ha _ _ _ _ _ _ _ _ _ Hq _]. cbv zeta.
    rewrite Hst, !walk_app, (walk_quiet _ calls Hq). cbn -[waits]. rewrite walk_waits. destruct s'. session_simpl. by subst. }
  intros H. run_task s t H; try (by apply Hr); try done; cbn -[waits]; rewrite ?app_nil_r, ?walk_waits; done.
Qed.

(** ** Handlers of the sync client *)

(** Every callback that waits on a session that is there has a handler that will call it, and a
    session that is dying one that will make it inactive: it has been asked for by the task, or
    was there before and is not the one that the task has run. *)
Definition live (s : Session) : Prop := m_state s = Active \/ m_state s = Dying.

Definition completion_asked (direction : NotifierType) (t : Task) (s s' : Session) (es : list Event) : Prop :=
  live s' -> callbacks direction s' <> [] ->
  (exists i, AsyncWait i direction (m_client_resync_counter s') ∈ es)
  \/ (live s /\ callbacks direction s <> [] /\ m_client_resync_counter s' = m_client_resync_counter s
      /\ forall ec, t <> Run (CompletionHandler (m_client_resync_counter s) direction ec))
  \/ is_restore t = true.

Definition death_asked (t : Task) (s s' : Session) (es : list Event) : Prop :=
  m_state s' = Dying ->
  (exists i, AsyncWaitDeath i (m_death_count s') ∈ es)
  \/ (m_state s = Dying /\ m_death_count s' = m_death_count s
      /\ t <> Run (UploadCompletionHandler (m_death_count s))).

Lemma run_task_death_asked t s :
  session_ok s -> wp (run_task t) (fun _ s' es _ => death_asked t s s' es) (fun _ => True) s.
Proof.
  assert (forall token url s, m_state s = WaitingForAccessToken -> session_ok s ->
    wp (refresh_access_token token url) (fun _ s' es _ => death_asked (Run (RefreshAccessToken token url)) s s' es)
      (fun _ => True) s) as Hr.
  { intros token url s0 Hst Hok. unfold death_asked. apply wp_refresh_access_token; [done|done|by rewrite Hst|].
    intros i s' calls Hs. cbv zeta. destruct Hs. destruct s'. session_simpl. subst. repeat split; try done.
    intros _. left. exists i. set_solver. }
  intros H. run_task s t H; try (by apply Hr); try done; unfold death_asked; session_simpl_goal; intros Hd; try done;
    try (right; split_and!; done || (intros [= ->]; rewrite Z.eqb_refl in *; done)); try (left; exists i; set_solver).
Qed.
