(* ===== verification/SyncRuns.v ===== *)
(** The threads of a sync session: the handlers that a task asks the sync client for and the work
    that it leaves, and what holds in every interleaving of the session's methods. *)

From stdpp Require Import strings.
From S2P Require Import Prelude SyncSession SyncTasks.

(** ** Handlers *)

Lemma callbacks_waits direction i s :
  callbacks direction s <> [] -> AsyncWait i direction (m_client_resync_counter s) ∈ waits i s.
Proof. unfold waits, callbacks. intros H. destruct direction; repeat case_bool_decide; try done; set_solver. Qed.

Lemma run_task_completion_asked direction t s :
  session_ok s -> wp (run_task t) (fun _ s' es _ => completion_asked direction t s s' es) (fun _ => True) s.
Proof.
  assert (forall token url s, m_state s = WaitingForAccessToken -> session_ok s ->
    wp (refresh_access_token token url)
      (fun _ s' es _ => completion_asked direction (Run (RefreshAccessToken token url)) s s' es)
      (fun _ => True) s) as Hr.
  { intros token url s0 Hst Hok. unfold completion_asked, live.
    apply wp_refresh_access_token; [done|done|rewrite Hst; naive_solver|].
    intros i s' calls Hs. cbv zeta. pose proof (callbacks_waits direction i s') as Hw.
    destruct Hs. destruct s'. session_simpl. subst. cbn [torn_down callbacks] in *. repeat split.
    - intros _ Hc. left. exists i. set_solver.
    - naive_solver.
    - intros _ Hc. left. exists i. set_solver. }
  intros H. unfold completion_asked, live. run_task s t H; try (by apply Hr); try done.
  all: destruct direction; cbn [callbacks set_callbacks]; session_simpl_goal; intros Hl Hc; try (by destruct Hl).
  all: first
    [ by right; right
    | right; left; split_and!; [by auto|first [by auto|match goal with E : bool_decide _ = false |- _ => by apply bool_decide_eq_false_1 in E end]|done|]; intros ? [=]; subst; cbn in *; rewrite ?Z.eqb_refl in *; done
    | left; eexists; rewrite ?app_nil_r;
      first [by left | right; by apply (callbacks_waits upload) | right; by apply (callbacks_waits download)] ].
Qed.

(** ** The work that is left

    A task leaves less work than it is: it takes over callbacks that were pending, and a turn
    of the loop of [update_configuration] that is not the last makes the session inactive,
    which only [revive_if_needed] undoes.  [n] is the number of such loops. *)

Definition is_update (t : Task) : nat := match t with Run (UpdateConfiguration _) => 1 | _ => 0 end.
Definition updates (ts : list Task) : nat := sum_list_with is_update ts.

Lemma updates_app ts ts' : updates (ts ++ ts') = (updates ts + updates ts')%nat.
Proof. apply sum_list_with_app. Qed.

Lemma updates_complete ec l : updates ((fun cb => Complete cb ec) <$> l) = 0%nat.
Proof. by induction l. Qed.

Lemma updates_teardown s : updates (teardown s) = 0%nat.
Proof. unfold teardown, aborted. rewrite !updates_app, updates_complete. by case_bool_decide. Qed.

Section weight.
Context (n : nat).
Local Open Scope nat_scope.

Definition weight_revive : nat := 3 + 3 * n.
Definition weight_unclaimed : nat := 15 + weight_revive.

Definition weight (t : Task) : nat :=
  match t with
  | Run ReviveIfNeeded => weight_revive
  | Run (UpdateConfiguration _) => 1 + weight_revive
  | Run (RefreshAccessToken _ _) | Run LogOut | Run Close | Run DidDropExternalReference
  | Run (UploadCompletionHandler _) | MakeInactive => 3
  | Run HandleReconnect | Run (WaitForCompletion _ _) | AccessTokenExpired => 2
  | Run (ConnectionStateListener _ (Some _)) => 3 + weight_unclaimed
  | Run (ConnectionStateListener _ None) => 2
  | HandleError _ => 1 + weight_unclaimed
  | HandleUnclaimedError _ => weight_unclaimed
  | StartClientResync => 5 + weight_revive
  | SettleError _ _ => 6
  | RestoreHandlers downloads uploads => 1 + length downloads + length uploads
  | _ => 1
  end.

Definition weights (ts : list Task) : nat := sum_list_with weight ts.

Definition work (s : Session) (ts : list Task) : nat :=
  weights ts + length (pending s) + (match m_state s with Inactive => 0 | _ => 3 * updates ts end).

Lemma weights_app ts ts' : weights (ts ++ ts') = weights ts + weights ts'.
Proof. apply sum_list_with_app. Qed.

Lemma weights_complete ec l : weights ((fun cb => Complete cb ec) <$> l) = length l.
Proof. induction l as [|cb l IH]; [done|]. cbn. by f_equal. Qed.

Lemma weights_teardown s : weights (teardown s) <= 2 + length (pending s).
Proof.
  unfold teardown, aborted, pending. rewrite !weights_app, weights_complete. case_bool_decide; cbn; lia.
Qed.

(** [k] is the number of loops of the other tasks. *)
Lemma run_task_works k t s :
  session_ok s -> k + is_update t <= n ->
  wp (run_task t)
     (fun _ s' _ ts =>
        updates ts <= is_update t
        /\ weights ts + length (pending s') + (match m_state s' with Inactive => 0 | _ => 3 * (updates ts + k) end)
           < weight t + length (pending s) + (match m_state s with Inactive => 0 | _ => 3 * (is_update t + k) end))
     (fun _ => True) s.
Proof.
  assert (forall token url s, m_state s = WaitingForAccessToken -> session_ok s ->
    wp (refresh_access_token token url)
      (fun _ s' _ ts => updates ts = 0 /\ weights ts + length (pending s') < 3 + length (pending s)) (fun _ => True) s) as Hr.
  { intros token url s0 Hst Hok. apply wp_refresh_access_token; [done|done|cbn; lia|].
    intros i s' calls [_ _ _ Hd Hu _ _ _ _ _ _ _]. cbv zeta. pose proof (weights_teardown s'). pose proof (updates_teardown s').
    rewrite pending_torn_down. generalize dependent (teardown s'). intros ts Hw Hu'. destruct s', s0. unfold pending in *. session_simpl. subst. cbn. repeat split; lia. }
  intros H Hk. run_task s t H.
  all: try (eapply wp_mono; [by apply Hr| |done]; cbn [is_update weight m_state]; intros [] s' es ts [Hu Hw]; rewrite Hu; cbn [is_update]; split; [lia|]; destruct (m_state s'); lia).
  all: try done.
  all: split_options; rewrite ?updates_app, ?weights_app, ?updates_teardown, ?updates_complete, ?weights_complete, ?pending_torn_down.
  all: repeat match goal with |- context [teardown ?s] => pose proof (weights_teardown s); generalize dependent (teardown s) end.
  all: cbn in *; rewrite ?length_app in *; cbn in *; try lia.
Qed.
End weight.

(** ** Client resync *)

Definition restores (ts : list Task) : bool := existsb is_restore ts.

Lemma restores_app ts ts' : restores (ts ++ ts') = restores ts || restores ts'.
Proof. apply existsb_app. Qed.

Lemma restores_complete ec l : restores ((fun cb => Complete cb ec) <$> l) = false.
Proof. by induction l. Qed.

Lemma restores_teardown s : restores (teardown s) = false.
Proof. unfold teardown, aborted. rewrite !restores_app, restores_complete. by case_bool_decide. Qed.

Lemma run_task_restores t s :
  session_ok s -> t <> StartClientResync -> wp (run_task t) (fun _ _ _ ts => restores ts = false) (fun _ => True) s.
Proof.
  assert (forall token url s, m_state s = WaitingForAccessToken -> session_ok s ->
    wp (refresh_access_token token url) (fun _ _ _ ts => restores ts = false) (fun _ => True) s) as Hr.
  { intros token url s0 Hst Hok. apply wp_refresh_access_token; [done|done|done|].
    intros. repeat split. apply restores_teardown. }
  intros H Ht. run_task s t H; try (by apply Hr); try done; split_options;
    by rewrite ?app_nil_r, ?restores_app, ?restores_teardown, ?restores_complete.
Qed.

(** The tasks that need no lock and leave the session as it is. *)
Definition unlocked (t : Task) : bool :=
  match t with Unregister | InvokeConnectionCallbacks _ => true | _ => false end.

Lemma start_client_resync_eq s :
  m_state s <> Inactive -> exists s' es pre,
  start_client_resync s
  = Ok (tt, s', (es, pre ++ [RestoreHandlers (m_download_completion_callbacks s) (m_upload_completion_callbacks s);
                             Run ReviveIfNeeded]))
  /\ m_state s' = Inactive /\ pending s' = [] /\ forallb unlocked pre = true.
Proof.
  intros H. destruct s as [st conn deaths config force downs ups counter override session made bound deferred closing known ext].
  eexists _, _, ([Unregister] ++ if bool_decide (conn = Disconnected) then [] else [InvokeConnectionCallbacks conn]).
  unfold start_client_resync, mbind, M_bind, modify, gets. session_simpl. cbn -[advance_state].
  rewrite advance_inactive_eq by done. unfold teardown. cbn.
  split; [case_bool_decide; reflexivity|]. split_and!; [done|done|by case_bool_decide].
Qed.

(** ** Steps *)

Definition drop_reference (n : nat) (σ : System) : System :=
  MkSystem (set_external n (session σ)) (threads σ) (handlers σ) (trace σ).

Definition take_handler (i : nat) (σ : System) : System :=
  MkSystem (session σ) (threads σ) (delete i (handlers σ)) (trace σ).

Inductive steps (σ : System) : Action -> System -> Prop :=
| steps_call c : public_method c = true -> steps σ (CallMethod c) (start_thread c σ)
| steps_drop n : m_external_reference (session σ) = S (S n) -> steps σ DropExternalReference (drop_reference (S n) σ)
| steps_drop_last : m_external_reference (session σ) = S O ->
    steps σ DropExternalReference (start_thread DidDropExternalReference (drop_reference O σ))
| steps_handler i ec h : handlers σ !! i = Some h ->
    steps σ (CallHandler i ec) (start_thread (handler_call h ec) (take_handler i σ))
| steps_run i t rest s es ts :
    threads σ !! i = Some (t :: rest) -> run_task t (session σ) = Ok (tt, s, (es, ts)) ->
    steps σ (RunThread i)
      (MkSystem s (<[i := ts ++ rest]> (threads σ)) (handlers σ ++ omap handler_of es) (trace σ ++ es)).

Lemma act_steps σ a σ' : act σ a = Ok σ' -> steps σ a σ'.
Proof.
  destruct a as [c| |i ec|i]; cbn [act].
  - destruct (public_method c) eqn:E; [|done]. intros [= <-]. by constructor.
  - destruct (m_external_reference (session σ)) as [|[|n]] eqn:E; [done|intros [= <-]..]; by constructor.
  - destruct (handlers σ !! i) as [h|] eqn:E; [|done]. intros [= <-]. by constructor.
  - destruct (threads σ !! i) as [[|t rest]|] eqn:E; try done.
    destruct (run_task t (session σ)) as [[[[] s] [es ts]]|e] eqn:Er; [|done]. intros [= <-]. by eapply steps_run.
Qed.

(** The tasks of all threads, in the order of the threads. *)
Definition tasks (σ : System) : list Task := concat (threads σ).

Lemma tasks_start c σ : tasks (start_thread c σ) = tasks σ ++ [Run c].
Proof. unfold tasks, start_thread. cbn. rewrite concat_app. cbn. done. Qed.

Lemma concat_insert {A} (l : list (list A)) i x :
  l !! i = Some x -> exists before after, concat l = before ++ x ++ after
    /\ forall y, concat (<[i := y]> l) = before ++ y ++ after.
Proof.
  intros H. exists (concat (take i l)), (concat (drop (S i) l)). split.
  - rewrite <- (take_drop_middle l i x H) at 1. by rewrite concat_app.
  - intros y. rewrite insert_take_drop by by eapply lookup_lt_Some. by rewrite concat_app.
Qed.

Lemma wp_run {A} (m : M A) Q E s a s' es ts : wp m Q E s -> m s = Ok (a, s', (es, ts)) -> Q a s' es ts.
Proof. unfold wp. intros H Hm. by rewrite Hm in H. Qed.

(** ** What holds in every interleaving *)

Record sound (σ : System) : Prop := {
  sound_session : session_ok (session σ);
  sound_client : client_run (0, None) (trace σ) = Some (client_view (session σ));
  sound_walk : walk Inactive (trace σ) = Some (m_state (session σ));
  sound_accounted c : (tally c (completed (trace σ)) + tally c (pending (session σ)) + tally c (taken_all (tasks σ))
                       <= tally c (registered (trace σ)))%nat
}.

Lemma session_ok_external n s : session_ok (set_external n s) <-> session_ok s.
Proof. by destruct s. Qed.

Lemma sound_start_thread c σ : sound σ -> sound (start_thread c σ).
Proof.
  intros [H1 H2 H3 H4]. split; [done..|]. intros cb. rewrite tasks_start, taken_all_app, app_nil_r. apply H4.
Qed.

Lemma sound_drop n σ : sound σ -> sound (drop_reference n σ).
Proof.
  intros [H1 H2 H3 H4]. destruct σ as [s th hs tr]. destruct s. by split.
Qed.

Lemma sound_run σ i t rest s es ts :
  sound σ -> threads σ !! i = Some (t :: rest) -> run_task t (session σ) = Ok (tt, s, (es, ts)) ->
  sound (MkSystem s (<[i := ts ++ rest]> (threads σ)) (handlers σ ++ omap handler_of es) (trace σ ++ es)).
Proof.
  intros [H1 H2 H3 H4] Hi Hr.
  destruct (wp_run _ _ _ _ _ _ _ _ (run_task_ok t _ H1) Hr) as [Hok Hc].
  split; cbn.
  - done.
  - by rewrite client_run_app, H2.
  - rewrite walk_app, H3. exact (wp_run _ _ _ _ _ _ _ _ (run_task_walks t _ H1) Hr).
  - intros cb. specialize (H4 cb). destruct (wp_run _ _ _ _ _ _ _ _ (run_task_accounted cb t _ H1) Hr) as [Ha _].
    cbv zeta in Ha. unfold tasks in *. cbn. destruct (concat_insert _ _ _ Hi) as (l1 & l2 & E & E'). rewrite E', E in *.
    rewrite completed_app, registered_app, !taken_all_app, !count_occ_app in *.
    change (t :: rest) with ([t] ++ rest) in H4. rewrite taken_all_app, count_occ_app in H4.
    unfold taken_all at 2 in H4. rewrite bind_singleton in H4. lia.
Qed.

Lemma reachable_sound allowed σ : reachable allowed σ -> sound σ.
Proof.
  induction 1 as [config force|σ a σ' _ IH _ Ha]; [by split|].
  apply act_steps in Ha as [c _|n _|_|i ec h _|i t rest s es ts Hi Hr].
  - by apply sound_start_thread.
  - by apply sound_drop.
  - by apply sound_start_thread, sound_drop.
  - apply sound_start_thread. by destruct IH.
  - by eapply sound_run.
Qed.

(** ** Sessions that die *)

(** A session that is dying waits for a handler that will make it inactive. *)
Definition death_awaited (σ : System) : Prop :=
  m_state (session σ) = Dying ->
  OnDeath (m_death_count (session σ)) ∈ handlers σ
  \/ Run (UploadCompletionHandler (m_death_count (session σ))) ∈ tasks σ.

Lemma handlers_delete (hs : list Handler) i h h' : hs !! i = Some h -> h' ∈ hs -> h' = h \/ h' ∈ delete i hs.
Proof.
  intros Hi Hh. apply list_elem_of_lookup in Hh as [j Hj]. destruct (decide (i = j)) as [->|Hne]; [left; congruence|].
  right. apply list_elem_of_lookup. destruct (decide (j < i)%nat).
  - exists j. by rewrite list_lookup_delete_lt.
  - exists (pred j). rewrite list_lookup_delete_ge by lia. by replace (S (pred j)) with j by lia.
Qed.

Lemma handler_start (hs : list Handler) i h h' ec (l : list Task) :
  hs !! i = Some h -> h' ∈ hs -> h' ∈ delete i hs \/ Run (handler_call h' ec) ∈ l ++ [Run (handler_call h ec)].
Proof.
  intros Hi Hh. destruct (handlers_delete hs i h h' Hi Hh) as [->|]; [right|by left].
  apply elem_of_app. right. by left.
Qed.

(** The tasks that are left when thread [i] has run [t]. *)
Lemma tasks_run σ i t rest ts s hs es :
  threads σ !! i = Some (t :: rest) ->
  forall t', t' ∈ tasks σ -> t' = t \/ t' ∈ tasks (MkSystem s (<[i := ts ++ rest]> (threads σ)) hs es).
Proof.
  intros Hi t'. unfold tasks. cbn. destruct (concat_insert _ _ _ Hi) as (l1 & l2 & E & E'). rewrite E', E. set_solver.
Qed.

Lemma death_awaited_reachable allowed σ : reachable allowed σ -> death_awaited σ.
Proof.
  induction 1 as [config force|σ a σ' Hreach IH _ Ha]; [done|]. pose proof (reachable_sound _ _ Hreach) as Hs.
  unfold death_awaited in *.
  assert (forall n, m_state (set_external n (session σ)) = m_state (session σ)
    /\ m_death_count (set_external n (session σ)) = m_death_count (session σ)) as Hext by (intros n; by destruct (session σ)).
  apply act_steps in Ha as [c _|n _|_|i ec h Hi|i t rest s es ts Hi Hr]; rewrite ?tasks_start; cbn.
  - intros H. destruct (IH H); [by left|set_solver].
  - destruct (Hext (S n)) as [-> ->]. exact IH.
  - destruct (Hext O) as [-> ->]. intros H. destruct (IH H); [by left|right].
    apply elem_of_app. by left.
  - intros H. destruct (IH H) as [Hh|Ht]; [|set_solver].
    exact (handler_start _ _ _ _ ec (tasks (take_handler i σ)) Hi Hh).
  - intros H. destruct (wp_run _ _ _ _ _ _ _ _ (run_task_death_asked t _ (sound_session _ Hs)) Hr H) as [[j Hj]|(H1 & H2 & H3)].
    + left. apply elem_of_app. right. apply list_elem_of_omap. by eexists.
    + rewrite H2. destruct (IH H1) as [Hh|Ht]; [left; set_solver|right].
      by destruct (tasks_run σ i t rest ts s (handlers σ ++ omap handler_of es) (trace σ ++ es) Hi _ Ht) as [<-|].
Qed.

(** ** Undisturbed client resyncs *)

(** What a thread does that is between the two halves of a client resync. *)
Definition restoring (ts : list Task) : Prop :=
  exists pre downloads uploads rest, ts = pre ++ RestoreHandlers downloads uploads :: rest
    /\ forallb unlocked pre = true /\ restores rest = false.

Record calm (σ : System) : Prop := {
  calm_restoring i ts : threads σ !! i = Some ts -> restores ts = true ->
    restoring ts /\ m_state (session σ) = Inactive /\ pending (session σ) = [];
  calm_one i j ts ts' : threads σ !! i = Some ts -> threads σ !! j = Some ts' ->
    restores ts = true -> restores ts' = true -> i = j;
  calm_accounted c : (tally c (completed (trace σ)) + tally c (pending (session σ)) + tally c (taken_all (tasks σ)))%nat
                     = tally c (registered (trace σ));
  calm_awaited direction : live (session σ) -> callbacks direction (session σ) <> [] ->
    OnCompletion (m_client_resync_counter (session σ)) direction ∈ handlers σ
    \/ exists ec, Run (CompletionHandler (m_client_resync_counter (session σ)) direction ec) ∈ tasks σ
}.

Lemma run_unlocked t s : unlocked t = true -> exists es, run_task t s = Ok (tt, s, (es, [])).
Proof. destruct t; try done; intros _; by eexists. Qed.

Lemma lookup_start (c : Call) (l : list (list Task)) i ts :
  (l ++ [[Run c]]) !! i = Some ts -> restores ts = true -> l !! i = Some ts.
Proof. intros [H|[_ H]]%lookup_app_Some Hr; [done|]. apply list_lookup_singleton_Some in H as [_ <-]. done. Qed.

Lemma calm_start_thread c σ : calm σ -> calm (start_thread c σ).
Proof.
  intros [H1 H2 H3 H4]. split; rewrite ?tasks_start; cbn.
  - intros i ts Hi Hr. apply lookup_start in Hi; [|done]. by apply (H1 i).
  - intros i j ts ts' Hi Hj Hr Hr'. apply lookup_start in Hi, Hj; [|done..]. by apply (H2 i j ts ts').
  - intros cb. rewrite taken_all_app, app_nil_r. apply H3.
  - intros d Hl Hc. destruct (H4 d Hl Hc) as [Hh|[ec Ht]]; [by left|right; exists ec; set_solver].
Qed.

Lemma calm_drop n σ : calm σ -> calm (drop_reference n σ).
Proof. intros [H1 H2 H3 H4]. destruct σ as [s th hs tr]. destruct s. by split. Qed.

Lemma calm_handler i ec h σ :
  handlers σ !! i = Some h -> calm σ -> calm (start_thread (handler_call h ec) (take_handler i σ)).
Proof.
  intros Hi [H1 H2 H3 H4]. split; rewrite ?tasks_start; cbn.
  - intros j ts Hj Hr. apply lookup_start in Hj; [|done]. by apply (H1 j).
  - intros j k ts ts' Hj Hk Hr Hr'. apply lookup_start in Hj, Hk; [|done..]. by apply (H2 j k ts ts').
  - intros cb. rewrite taken_all_app, app_nil_r. apply H3.
  - intros d Hl Hc. destruct (H4 d Hl Hc) as [Hh|[ec' Ht]]; [|right; exists ec'; set_solver].
    destruct (handler_start _ _ _ _ ec (tasks (take_handler i σ)) Hi Hh); [by left|right]. by exists ec.
Qed.

(** Thread [i] runs its next task. *)
Definition ran (σ : System) (i : nat) (rest : list Task) (s : Session) (es : list Event) (ts : list Task) : System :=
  MkSystem s (<[i := ts ++ rest]> (threads σ)) (handlers σ ++ omap handler_of es) (trace σ ++ es).

Lemma calm_accounted_run σ i t rest s es ts c :
  sound σ -> calm σ -> threads σ !! i = Some (t :: rest) -> run_task t (session σ) = Ok (tt, s, (es, ts)) ->
  (is_restore t = false \/ pending (session σ) = []) ->
  let σ' := ran σ i rest s es ts in
  (tally c (completed (trace σ')) + tally c (pending (session σ')) + tally c (taken_all (tasks σ')))%nat
  = tally c (registered (trace σ')).
Proof.
  intros Hs Hc Hi Hr Ht. pose proof (calm_accounted _ Hc c) as H4.
  destruct (wp_run _ _ _ _ _ _ _ _ (run_task_accounted c t _ (sound_session _ Hs)) Hr) as [_ Ha]. specialize (Ha Ht).
  cbv zeta in *. unfold tasks in *. cbn. destruct (concat_insert _ _ _ Hi) as (l1 & l2 & E & E'). rewrite E', E in *.
  rewrite completed_app, registered_app, !taken_all_app, !count_occ_app in *.
  change (t :: rest) with ([t] ++ rest) in H4. rewrite taken_all_app, count_occ_app in H4.
  unfold taken_all at 2 in H4. rewrite bind_singleton in H4. lia.
Qed.

Lemma calm_awaited_run σ i t rest s es ts d :
  sound σ -> calm σ -> threads σ !! i = Some (t :: rest) -> run_task t (session σ) = Ok (tt, s, (es, ts)) ->
  (is_restore t = true -> ~ live s) ->
  let σ' := ran σ i rest s es ts in
  live (session σ') -> callbacks d (session σ') <> [] ->
  OnCompletion (m_client_resync_counter (session σ')) d ∈ handlers σ'
  \/ exists ec, Run (CompletionHandler (m_client_resync_counter (session σ')) d ec) ∈ tasks σ'.
Proof.
  intros Hs Hc Hi Hr Ht. cbv zeta. cbn. intros Hl Hd.
  destruct (wp_run _ _ _ _ _ _ _ _ (run_task_completion_asked d t _ (sound_session _ Hs)) Hr Hl Hd)
    as [[j Hj]|[(H1 & H2 & H3 & H4)|Hre]]; [|rewrite H3|by destruct (Ht Hre)].
  - left. apply elem_of_app. right. apply list_elem_of_omap. by eexists.
  - destruct (calm_awaited _ Hc d H1 H2) as [Hh|[ec Hin]]; [left; set_solver|right; exists ec].
    destruct (tasks_run σ i t rest ts s (handlers σ ++ omap handler_of es) (trace σ ++ es) Hi _ Hin) as [<-|]; [|done].
    by destruct (H4 ec).
Qed.

Lemma lookup_ran σ i rest s es ts j ts' :
  (i < length (threads σ))%nat ->
  threads (ran σ i rest s es ts) !! j = Some ts' -> (j = i /\ ts' = ts ++ rest) \/ (j <> i /\ threads σ !! j = Some ts').
Proof.
  intros Hi. cbn. intros [(-> & <- & _)|[Hne H]]%list_lookup_insert_Some; [by left|by right].
Qed.

(** A thread that is between the two halves runs on. *)
Lemma calm_run_restoring σ i t rest s es ts :
  sound σ -> calm σ -> threads σ !! i = Some (t :: rest) -> run_task t (session σ) = Ok (tt, s, (es, ts)) ->
  restores (t :: rest) = true -> calm (ran σ i rest s es ts).
Proof.
  intros Hs Hc Hi Hr Hre. pose proof (lookup_lt_Some _ _ _ Hi) as Hlt.
  destruct (calm_restoring _ Hc _ _ Hi Hre) as ((pre & d & u & rest' & E & Hpre & Hno) & Hst & Hp).
  assert (m_state s = Inactive /\ ts = [] /\ (is_restore t = true -> pre = []) /\ (pre <> [] -> s = session σ)) as (Hst' & -> & Hpre1 & Hpre2).
  { destruct pre as [|p pre]; cbn in E; injection E as -> ->.
    - cbn in Hr. injection Hr as <- <- <-. split; [by destruct (session σ)|done].
    - cbn in Hpre. apply andb_prop in Hpre as [Hp1 _]. destruct (run_unlocked p (session σ) Hp1) as [es' E].
      rewrite E in Hr. injection Hr as <- <- <-. split_and!; [done|done| |done]. intros H. by destruct p. }
  split.
  - intros j ts' Hj Hrj. destruct (lookup_ran _ _ _ _ _ _ _ _ Hlt Hj) as [[-> ->]|[Hne Hj']].
    + destruct pre as [|p pre]; cbn in E; injection E as -> ->; [by rewrite app_nil_l, Hno in Hrj|].
      rewrite Hpre2 by done. split; [|done]. exists pre, d, u, rest'. cbn in *. by apply andb_prop in Hpre as [_ ->].
    + by destruct Hne; apply (calm_one _ Hc j i _ _ Hj' Hi).
  - intros j k ts1 ts2 Hj Hk Hrj Hrk.
    destruct (lookup_ran _ _ _ _ _ _ _ _ Hlt Hj) as [[-> ->]|[Hnj Hj']], (lookup_ran _ _ _ _ _ _ _ _ Hlt Hk) as [[-> ->]|[Hnk Hk']];
      [done|by destruct Hnk; apply (calm_one _ Hc k i _ _ Hk' Hi)|by destruct Hnj; apply (calm_one _ Hc j i _ _ Hj' Hi)|].
    by apply (calm_one _ Hc j k _ _ Hj' Hk').
  - intros c. apply (calm_accounted_run _ _ t); auto.
  - intros dir. apply (calm_awaited_run _ _ t); auto. intros _ [Hl|Hl]; congruence.
Qed.

(** No thread is between the two halves. *)
Lemma calm_run_plain σ i t rest s es ts :
  sound σ -> calm σ -> threads σ !! i = Some (t :: rest) -> run_task t (session σ) = Ok (tt, s, (es, ts)) ->
  (forall j ts, threads σ !! j = Some ts -> restores ts = false) -> calm (ran σ i rest s es ts).
Proof.
  intros Hs Hc Hi Hr Hno. pose proof (lookup_lt_Some _ _ _ Hi) as Hlt.
  pose proof (Hno _ _ Hi) as Hti. cbn in Hti. apply orb_false_iff in Hti as [Ht Hrest]. fold (restores rest) in Hrest.
  assert (restores (ts ++ rest) = false
    \/ restoring (ts ++ rest) /\ m_state s = Inactive /\ pending s = []) as Hts.
  { destruct (decide (t = StartClientResync)) as [->|Hne].
    - right. cbn [run_task] in Hr. destruct (decide (m_state (session σ) = Inactive)) as [E|E].
      { exfalso. destruct (session σ). session_simpl. subst. done. }
      destruct (start_client_resync_eq _ E) as (s' & es' & pre & Eq & H1 & H2 & H3). rewrite Eq in Hr. injection Hr as <- <- <-.
      split; [|done]. eexists pre, _, _, (Run ReviveIfNeeded :: rest). by rewrite <- app_assoc.
    - left. rewrite restores_app, Hrest, orb_false_r.
      exact (wp_run _ _ _ _ _ _ _ _ (run_task_restores t _ (sound_session _ Hs) Hne) Hr). }
  split.
  - intros j ts' Hj Hrj. destruct (lookup_ran _ _ _ _ _ _ _ _ Hlt Hj) as [[-> ->]|[Hne Hj']].
    + by destruct Hts as [Hts|Hts]; [congruence|].
    + specialize (Hno _ _ Hj'). congruence.
  - intros j k ts1 ts2 Hj Hk Hrj Hrk.
    destruct (lookup_ran _ _ _ _ _ _ _ _ Hlt Hj) as [[-> ->]|[Hnj Hj']]; [|specialize (Hno _ _ Hj'); congruence].
    by destruct (lookup_ran _ _ _ _ _ _ _ _ Hlt Hk) as [[-> ->]|[Hnk Hk']]; [|specialize (Hno _ _ Hk'); congruence].
  - intros c. apply (calm_accounted_run _ _ t); auto.
  - intros dir. apply (calm_awaited_run _ _ t); auto. congruence.
Qed.

Lemma calm_run σ i t rest s es ts :
  sound σ -> calm σ -> undisturbed σ (RunThread i) ->
  threads σ !! i = Some (t :: rest) -> run_task t (session σ) = Ok (tt, s, (es, ts)) -> calm (ran σ i rest s es ts).
Proof.
  intros Hs Hc Hu Hi Hr. destruct (restores (t :: rest)) eqn:E; [by apply (calm_run_restoring _ _ t)|].
  apply (calm_run_plain _ _ t); try done. intros j ts' Hj. destruct (restores ts') eqn:E'; [|done].
  rewrite (Hu j ts' Hj E') in Hi. congruence.
Qed.

Lemma reachable_calm σ : reachable undisturbed σ -> calm σ.
Proof.
  induction 1 as [config force|σ a σ' Hreach IH Hu Ha].
  { split; [by intros i ts Hi; destruct i|by intros i j ts ts' Hi; destruct i|done|by intros []]. }
  pose proof (reachable_sound _ _ Hreach) as Hs.
  revert Hu. apply act_steps in Ha as [c _|n _|_|i ec h Hi|i t rest s es ts Hi Hr]; intros Hu.
  - by apply calm_start_thread.
  - by apply calm_drop.
  - by apply calm_start_thread, calm_drop.
  - by apply calm_handler.
  - exact (calm_run σ i t rest s es ts Hs IH Hu Hi Hr).
Qed.
