(* ===== verification/SyncProps.v ===== *)
(** What a sync session promises: to the sync client, to those who wait for completion, and of
    its states. *)

From stdpp Require Import strings.
From S2P Require Import Prelude SyncSession SyncTasks SyncRuns.

(** ** In every interleaving *)

(** C24: Whatever the threads do, the underlying sessions are used as [client.hpp] asks: each is
    made when there is none, bound once before anything else is asked of it, and not used once
    it has been destroyed; and what the session believes of it is so. *)
Theorem client_used_correctly allowed σ :
  reachable allowed σ -> client_run (0, None) (trace σ) = Some (client_view (session σ)).
Proof. intros H. apply (reachable_sound _ _ H). Qed.

(** C28: The states follow the comment on [SyncSession::State]: whatever the interleaving, the
    states that have been entered are a walk, from [Inactive] to the state of the session, of which
    each step is in the To list of the state it leaves and in the From list of the state it enters;
    but for the step from [Active] to [WaitingForAccessToken] when the token expires, which only
    the To list has. *)
Theorem states_follow_diagram allowed σ :
  reachable allowed σ -> walk Inactive (trace σ) = Some (m_state (session σ)).
Proof. intros H. apply (reachable_sound _ _ H). Qed.

(** C29: A session stays well-formed in every interleaving: it has an underlying session, which is
    bound, while it is active or dying, and none while it is inactive. *)
Theorem session_well_formed allowed σ : reachable allowed σ -> session_ok (session σ).
Proof. intros H. apply (reachable_sound _ _ H). Qed.

(** C30: No method uses an underlying session that is not there.  The assertions that can fail are
    that a session is not inactive already when an error makes it so or starts a client resync,
    and that a new configuration is of the same Realm. *)
Theorem failures_are_known allowed σ a e :
  reachable allowed σ -> act σ a = Err e ->
  e = OutOfBounds
  \/ e = AssertionFailed /\ exists i t rest, a = RunThread i /\ threads σ !! i = Some (t :: rest) /\ may_fail t (session σ).
Proof.
  intros H Ha. pose proof (sound_session _ (reachable_sound _ _ H)) as Hok. destruct a as [c| |i ec|i]; cbn [act] in Ha.
  - destruct (public_method c); naive_solver.
  - destruct (m_external_reference (session σ)); naive_solver.
  - destruct (handlers σ !! i); naive_solver.
  - destruct (threads σ !! i) as [[|t rest]|] eqn:E; [naive_solver| |naive_solver].
    pose proof (run_task_ok t _ Hok) as Hr. unfold wp in Hr.
    destruct (run_task t (session σ)) as [[[[] s] [es ts]]|e'] eqn:Er; [done|]. injection Ha as <-. naive_solver.
Qed.

Lemma count_occ_In (l : list Z) x : x ∈ l <-> (0 < tally x l)%nat.
Proof. rewrite list_elem_of_In. rewrite (List.count_occ_In Z.eq_dec). lia. Qed.

(** C25: A completion callback is called at most once, and none is called that was not registered,
    in every interleaving of the methods and of the handlers of the sync client. *)
Theorem completed_at_most_once allowed σ :
  reachable allowed σ -> NoDup (registered (trace σ)) ->
  NoDup (completed (trace σ)) /\ forall c, c ∈ completed (trace σ) -> c ∈ registered (trace σ).
Proof.
  intros H Hd. pose proof (sound_accounted _ (reachable_sound _ _ H)) as Ha. split.
  - apply NoDup_ListNoDup, (NoDup_count_occ Z.eq_dec). intros c. specialize (Ha c).
    apply NoDup_ListNoDup, (NoDup_count_occ Z.eq_dec) with (x := c) in Hd. lia.
  - intros c. specialize (Ha c). rewrite !count_occ_In. lia.
Qed.

(** ** The methods that have been called end *)

Definition loops (σ : System) : nat := updates (tasks σ).

Definition work_left (n : nat) (σ : System) : nat :=
  (weights n (tasks σ) + length (pending (session σ))
   + match m_state (session σ) with Inactive => 0 | _ => 3 * loops σ end)%nat.

Lemma run_thread_works n σ i σ' :
  sound σ -> (loops σ <= n)%nat -> act σ (RunThread i) = Ok σ' ->
  (loops σ' <= loops σ)%nat /\ (work_left n σ' < work_left n σ)%nat.
Proof.
  intros Hs Hn Ha. apply act_steps in Ha. inversion_clear Ha as [| | | |? t rest s es ts Hi Hr].
  destruct (concat_insert _ _ _ Hi) as (l1 & l2 & E & E'). unfold work_left, loops, tasks in *. cbn [threads session].
  rewrite E', E in *. change (t :: rest) with ([t] ++ rest) in *.
  rewrite !updates_app, !weights_app in *. cbn [updates weights sum_list_with] in *.
  pose proof (run_task_works n (updates l1 + updates rest + updates l2) t _ (sound_session _ Hs)) as Hw.
  destruct (wp_run _ _ _ _ _ _ _ _ (Hw ltac:(lia)) Hr) as [Hu Hl].
  split; [lia|]. destruct (m_state s), (m_state (session σ)); lia.
Qed.

(** C31: The threads that have been started end: however they are scheduled, they run no more
    tasks than the work that there is. *)
Theorem threads_end allowed σ l σ' :
  reachable allowed σ -> fold_result act σ (RunThread <$> l) = Ok σ' -> (length l <= work_left (loops σ) σ)%nat.
Proof.
  intros H. pose proof (reachable_sound _ _ H) as Hs. clear H.
  enough (forall n, (loops σ <= n)%nat -> fold_result act σ (RunThread <$> l) = Ok σ' -> (length l <= work_left n σ)%nat) as Hn.
  { apply Hn. lia. }
  intros n. revert σ Hs. induction l as [|i l IH]; intros σ Hs Hn Hl; [cbn; lia|].
  cbn [fmap list_fmap fold_result] in Hl. apply bind_Ok in Hl as (σ1 & H1 & Hl).
  destruct (run_thread_works n σ i σ1 Hs Hn H1) as [Hu Hw].
  assert (sound σ1) as Hs1.
  { apply act_steps in H1. inversion_clear H1. by eapply sound_run. }
  specialize (IH σ1 Hs1 ltac:(lia) Hl). cbn [length]. lia.
Qed.

(** ** Everyone who waits is told *)

(** The tasks that leave the session as it is, and the event of each. *)
Definition plain (t : Task) : bool :=
  match t with Unregister | InvokeConnectionCallbacks _ | Complete _ _ => true | _ => false end.

Definition told_by (s : Session) (t : Task) : list Event :=
  match t with
  | Unregister => [Unregistered]
  | InvokeConnectionCallbacks old => [ConnectionChanged old (m_connection_state s)]
  | Complete cb ec => [Completed cb ec]
  | _ => []
  end.

Lemma drain i ts σ :
  threads σ !! i = Some ts -> forallb plain ts = true ->
  fold_result act σ (replicate (length ts) (RunThread i))
  = Ok (MkSystem (session σ) (<[i := []]> (threads σ)) (handlers σ) (trace σ ++ (ts ≫= told_by (session σ)))).
Proof.
  revert σ. induction ts as [|t ts IH]; intros σ Hi Hp.
  - cbn. rewrite app_nil_r, list_insert_id by done. by destruct σ.
  - cbn in Hp. apply andb_prop in Hp as [Ht Hp]. cbn [length replicate fold_result act].
    assert (run_task t (session σ) = Ok (tt, session σ, (told_by (session σ) t, []))) as E by (by destruct t).
    rewrite Hi, E. cbn [mbind result_bind app]. rewrite IH; [|by apply list_lookup_insert_eq; eapply lookup_lt_Some|done].
    cbn [session threads handlers trace]. rewrite list_insert_insert_eq, bind_cons, app_assoc.
    assert (omap handler_of (told_by (session σ) t) = []) as -> by (by destruct t). by rewrite app_nil_r.
Qed.

Lemma plain_complete ec l : forallb plain ((fun cb => Complete cb ec) <$> l) = true.
Proof. by induction l. Qed.

Lemma told_complete s ec l : ((fun cb => Complete cb ec) <$> l) ≫= told_by s = (fun cb => Completed cb ec) <$> l.
Proof. induction l as [|cb l IH]; [done|]. cbn. by f_equal. Qed.

Lemma plain_teardown s : forallb plain (teardown s) = true.
Proof. unfold teardown, aborted. rewrite !forallb_app, plain_complete. by case_bool_decide. Qed.

Lemma lookup_started c σ : threads (start_thread c σ) !! length (threads σ) = Some [Run c].
Proof. cbn. rewrite lookup_app_r by lia. by rewrite Nat.sub_diag. Qed.

Lemma act_run σ i t s es ts :
  threads σ !! i = Some [t] -> run_task t (session σ) = Ok (tt, s, (es, ts)) ->
  act σ (RunThread i) = Ok (MkSystem s (<[i := ts]> (threads σ)) (handlers σ ++ omap handler_of es) (trace σ ++ es)).
Proof. intros Hi Hr. cbn. rewrite Hi, Hr. cbn. by rewrite app_nil_r. Qed.

(** C26: As long as no other thread runs between the two halves of a client resync: when nothing is
    left to run, a callback that waits for an active or a dying session has a handler that the sync
    client has still to call, and as soon as that is called, with whatever outcome, every callback
    that waits in its direction is called with that outcome, in order. *)
Theorem waits_are_answered σ direction ec :
  reachable undisturbed σ -> tasks σ = [] -> live (session σ) -> callbacks direction (session σ) <> [] ->
  let waiting := callbacks direction (session σ) in
  exists i σ',
    handlers σ !! i = Some (OnCompletion (m_client_resync_counter (session σ)) direction)
    /\ fold_result act σ (CallHandler i ec :: replicate (S (length waiting)) (RunThread (length (threads σ)))) = Ok σ'
    /\ trace σ' = trace σ ++ ((fun cb => Completed cb ec) <$> waiting)
    /\ callbacks direction (session σ') = [].
Proof.
  intros Hreach Ht Hl Hc. destruct (calm_awaited _ (reachable_calm _ Hreach) direction Hl Hc) as [Hh|[ec' Hin]];
    [|rewrite Ht in Hin; by apply not_elem_of_nil in Hin].
  apply list_elem_of_lookup in Hh as [i Hi]. cbv zeta. eexists i, _. split; [done|].
  set (c := CompletionHandler (m_client_resync_counter (session σ)) direction ec).
  assert (run_task (Run c) (session σ)
    = Ok (tt, set_callbacks direction [] (session σ), ([], (fun cb => Complete cb ec) <$> callbacks direction (session σ)))) as Er.
  { cbn. unfold completion_handler, mbind, M_bind, gets. cbn. rewrite Z.eqb_refl. cbn. by rewrite ?app_nil_r. }
  assert (act σ (CallHandler i ec) = Ok (start_thread c (take_handler i σ))) as Ea by (cbn; by rewrite Hi).
  cbn [fold_result replicate]. rewrite Ea. cbn [mbind result_bind].
  pose proof (lookup_started c (take_handler i σ)) as Hk. cbn [take_handler threads] in Hk.
  rewrite (act_run _ _ _ _ _ _ Hk Er). cbn [mbind result_bind].
  split; [|split].
  - rewrite <- (length_fmap (fun cb => Complete cb ec)). apply drain; [|apply plain_complete].
    cbn. apply list_lookup_insert_eq. rewrite length_app. cbn. lia.
  - cbn. rewrite told_complete. by rewrite app_nil_r.
  - cbn. by destruct direction, (session σ).
Qed.

Lemma mbind_gets {A B} (f : Session -> A) (k : A -> M B) s : mbind k (gets f) s = k (f s) s.
Proof. unfold mbind, M_bind, gets. cbn. by destruct (k (f s) s) as [[[? ?] [? ?]]|?]. Qed.

(** The schedule of a call that tears the session down: the call, and what it leaves. *)
Definition torn_down_run (k : nat) (a : Action) (s : Session) : list Action :=
  a :: replicate (S (length (teardown s))) (RunThread k).

(** A call that tears the session down, run to the end by its thread. *)
Lemma teardown_run σ σ1 a c :
  act σ a = Ok (start_thread c σ1) -> session σ1 = session σ -> threads σ1 = threads σ -> trace σ1 = trace σ ->
  m_state (session σ) <> Inactive ->
  run_task (Run c) (session σ) = advance_state Inactive (session σ) ->
  exists σ', fold_result act σ (torn_down_run (length (threads σ)) a (session σ)) = Ok σ'
    /\ session σ' = torn_down (session σ)
    /\ trace σ' = trace σ ++ (Entered Inactive :: destroyed (session σ))
                         ++ (teardown (session σ) ≫= told_by (torn_down (session σ))).
Proof.
  intros Ha Es Et Etr Hst Er. rewrite advance_inactive_eq in Er by done. eexists. unfold torn_down_run.
  cbn [fold_result replicate]. rewrite Ha. cbn [mbind result_bind].
  pose proof (lookup_started c σ1) as Hk. rewrite <- Es in Er. rewrite Et in Hk.
  rewrite (act_run _ _ _ _ _ _ Hk Er). cbn [mbind result_bind]. rewrite Es in *.
  rewrite (drain (length (threads σ)) (teardown (session σ))); [| |apply plain_teardown].
  - split_and!; [done..|]. cbn. by rewrite Etr, <- app_assoc.
  - cbn. apply list_lookup_insert_eq. rewrite length_app, Et. cbn. lia.
Qed.

Lemma completed_teardown s : completed (teardown s ≫= told_by (torn_down s)) = pending s.
Proof.
  unfold teardown, aborted, pending. rewrite !bind_app, told_complete, !completed_app.
  assert (completed ((if bool_decide (m_connection_state s = Disconnected) then []
                      else [InvokeConnectionCallbacks (m_connection_state s)]) ≫= told_by (torn_down s)) = []) as ->
    by (by case_bool_decide).
  cbn. induction (_ ++ _) as [|cb l IH]; [done|]. cbn. by f_equal.
Qed.

Lemma registered_teardown s s' : registered (teardown s ≫= told_by s') = [].
Proof.
  unfold teardown, aborted. rewrite !bind_app, told_complete, !registered_app.
  assert (registered ((if bool_decide (m_connection_state s = Disconnected) then []
                       else [InvokeConnectionCallbacks (m_connection_state s)]) ≫= told_by s') = []) as ->
    by (by case_bool_decide).
  cbn. induction (_ ++ _) as [|cb l IH]; [done|]. cbn. done.
Qed.

(** When nothing is left to run, tearing the session down completes all callbacks. *)
Lemma teardown_completes σ σ' :
  reachable undisturbed σ -> tasks σ = [] ->
  trace σ' = trace σ ++ (Entered Inactive :: destroyed (session σ)) ++ (teardown (session σ) ≫= told_by (torn_down (session σ))) ->
  completed (trace σ') ≡ₚ registered (trace σ').
Proof.
  intros Hreach Ht ->. apply (Permutation_count_occ Z.eq_dec). intros cb.
  pose proof (calm_accounted _ (reachable_calm _ Hreach) cb) as Ha. rewrite Ht in Ha. cbn in Ha.
  rewrite !completed_app, !registered_app, completed_teardown, registered_teardown.
  rewrite completed_cons, registered_cons, (proj1 (destroyed_events _)), (proj2 (destroyed_events _)).
  rewrite !count_occ_app. cbn. lia.
Qed.

(** Logging out tells everyone who waits: when nothing is left to run and the session is not
    inactive, a call of [log_out] runs to its end and leaves the session inactive, and then every
    callback that was ever registered has been called, exactly as often as it was registered. *)
Theorem log_out_tells_everyone σ :
  reachable undisturbed σ -> tasks σ = [] -> m_state (session σ) <> Inactive ->
  exists σ', fold_result act σ (torn_down_run (length (threads σ)) (CallMethod LogOut) (session σ)) = Ok σ'
    /\ m_state (session σ') = Inactive
    /\ completed (trace σ') ≡ₚ registered (trace σ').
Proof.
  intros Hreach Ht Hst.
  destruct (teardown_run σ σ (CallMethod LogOut) LogOut) as (σ' & Hf & Hs & Htr); try done.
  { cbn [run_task call]. unfold state_log_out. rewrite mbind_gets. by destruct (m_state (session σ)). }
  exists σ'. split; [done|]. split; [rewrite Hs; by destruct (session σ)|]. by eapply teardown_completes.
Qed.

(** A session that is dying dies: when nothing is left to run, the sync client has still to
    call a handler that makes it inactive, which completes all that wait. *)
Theorem dying_sessions_die σ ec :
  reachable undisturbed σ -> tasks σ = [] -> m_state (session σ) = Dying ->
  exists i σ', handlers σ !! i = Some (OnDeath (m_death_count (session σ)))
    /\ fold_result act σ (torn_down_run (length (threads σ)) (CallHandler i ec) (session σ)) = Ok σ'
    /\ m_state (session σ') = Inactive
    /\ completed (trace σ') ≡ₚ registered (trace σ').
Proof.
  intros Hreach Ht Hst. destruct (death_awaited_reachable _ _ Hreach Hst) as [Hh|Hin];
    [|rewrite Ht in Hin; by apply not_elem_of_nil in Hin].
  apply list_elem_of_lookup in Hh as [i Hi]. exists i.
  destruct (teardown_run σ (take_handler i σ) (CallHandler i ec) (UploadCompletionHandler (m_death_count (session σ))))
    as (σ' & Hf & Hs & Htr); try done.
  { cbn. by rewrite Hi. }
  { by rewrite Hst. }
  { cbn [run_task call]. unfold upload_completion_handler. rewrite !mbind_gets, Hst. by rewrite Z.eqb_refl. }
  exists σ'. split_and!; [done|done|rewrite Hs; by destruct (session σ)|by eapply teardown_completes].
Qed.

(** C27: No callback is lost as long as no other thread runs between the two halves of a client
    resync: those that have been called, those that wait, and those that a thread is about to
    call or to put back are exactly those that were registered. *)
Theorem no_callback_is_lost σ :
  reachable undisturbed σ ->
  completed (trace σ) ++ pending (session σ) ++ taken_all (tasks σ) ≡ₚ registered (trace σ).
Proof.
  intros Hreach. apply (Permutation_count_occ Z.eq_dec). intros cb.
  pose proof (calm_accounted _ (reachable_calm _ Hreach) cb) as Ha. rewrite !count_occ_app. lia.
Qed.

(** Closing a session that waits for a token is put off until there is one, and is then done
    in accordance with the stop policy; a session that is revived in between is not closed. *)
Theorem deferred_close_is_done s token url :
  m_state s = WaitingForAccessToken -> session_ok s -> (m_server_url s = None -> url <> None) ->
  stop_policy (m_config s) <> Immediately ->
  wp (_ ← close; refresh_access_token token url)
     (fun _ s' _ _ => m_state s' = match stop_policy (m_config s) with AfterChangesUploaded => Dying | _ => Active end)
     (fun _ => False) s
  /\ wp (_ ← close; _ ← state_revive_if_needed; refresh_access_token token url)
       (fun _ s' _ _ => m_state s' = Active) (fun _ => False) s.
Proof.
  intros Hst Hok Hurl Hp. pose (closing b := set_deferred_close b s).
  assert (forall b : bool, wp (refresh_access_token token url)
      (fun _ s' _ _ => m_state s' = if b then match stop_policy (m_config s) with AfterChangesUploaded => Dying | _ => Active end
                                    else Active) (fun _ => False) (closing b)) as Hr.
  { intros b. unfold refresh_access_token. apply wp_gets.
    assert (wp (state_refresh_access_token token url)
      (fun _ s' _ _ => m_state s' = if b then match stop_policy (m_config s) with AfterChangesUploaded => Dying | _ => Active end
                                    else Active) (fun _ => False) (closing b)) as Hgo.
    { unfold state_refresh_access_token. apply wp_gets.
      assert (m_state (closing b) = WaitingForAccessToken /\ session_ok (closing b)
        /\ m_server_url (closing b) = m_server_url s /\ m_config (closing b) = m_config s /\ m_deferred_close (closing b) = b)
        as (E1 & E2 & E3 & E4 & E5) by (unfold closing, session_ok in *; by destruct s).
      rewrite E1. apply wp_refresh; [done|done|by rewrite E3|]. intros i s' calls [H1 H2 _ _ _ _ _ H3 H4 _ _ _].
      apply wp_gets. rewrite H4, E5. destruct b; [|by apply wp_last_skip].
      unfold SyncSession.close. apply wp_gets. rewrite H1. apply wp_gets. rewrite H3, E4. destruct (stop_policy (m_config s)); [done|by apply wp_last_skip|].
      eapply wp_eq_last; [apply advance_dying_eq; [by rewrite H1|done]|]. by destruct s'. }
    destruct (m_server_url (closing b)) eqn:E; [exact Hgo|]. destruct url; [exact Hgo|]. exfalso. apply Hurl; [|done].
    by destruct s. }
  assert (forall (k : M unit) (Q : unit -> Session -> list Event -> list Task -> Prop),
    wp k Q (fun _ => False) (closing true) -> wp (_ ← close; k) Q (fun _ => False) s) as Hclose.
  { intros k Q Hk. apply wp_bind. unfold close. apply wp_gets. rewrite Hst. apply wp_gets.
    destruct (stop_policy (m_config s)); [done|by apply wp_last_modify..]. }
  split; apply Hclose; [exact (Hr true)|].
  apply wp_bind. unfold state_revive_if_needed. apply wp_gets.
  assert (m_state (closing true) = WaitingForAccessToken) as -> by (by destruct s).
  apply wp_modify, wp_ret. cbv iota. assert (set_deferred_close false (closing true) = closing false) as -> by (by destruct s).
  exact (Hr false).
Qed.
