(* ===== verification/SyncSamples.v ===== *)
(** Runs of a sync session: what the methods promise cannot be had without the conditions that
    the theorems put, and concrete sessions that the theorems apply to. *)

From stdpp Require Import strings.
From S2P Require Import Prelude SyncSession SyncTasks SyncRuns SyncProps.

Definition sample_config : SyncConfig := MkSyncConfig 7 "realms://host/dogs" false AfterChangesUploaded true false Recover.

(** Call a method from a new thread, the [n]th, and run it to its end, of [k] tasks. *)
Definition run_call (n k : nat) (c : Call) : list Action := CallMethod c :: replicate k (RunThread n).

Definition run_handler (n k i : nat) (ec : ErrorCode) : list Action := CallHandler i ec :: replicate k (RunThread n).

Lemma run_reachable l σ σ' : reachable anything σ -> fold_result act σ l = Ok σ' -> reachable anything σ'.
Proof.
  revert σ. induction l as [|a l IH]; intros σ Hr Hf; [by injection Hf as <-|].
  apply bind_Ok in Hf as (σ1 & H1 & Hf). by eapply IH; [eapply reachable_act|].
Qed.

(** [undisturbed], decided. *)
Definition is_undisturbed (σ : System) (a : Action) : bool :=
  match a with
  | RunThread i => forallb id (imap (fun j ts => negb (restores ts) || Nat.eqb i j) (threads σ))
  | _ => true
  end.

Lemma is_undisturbed_spec σ a : is_undisturbed σ a = true -> undisturbed σ a.
Proof.
  destruct a as [| | |i]; try done. cbn. rewrite forallb_forall. intros H j ts Hj Hr.
  specialize (H (negb (restores ts) || Nat.eqb i j)). unfold restores in H. rewrite Hr in H. apply Nat.eqb_eq, H.
  apply list_elem_of_In, elem_of_lookup_imap. exists j, ts. split; [|done]. by rewrite Hr.
Qed.

Definition act_undisturbed (σ : System) (a : Action) : result System :=
  if is_undisturbed σ a then act σ a else Err OutOfBounds.

Lemma run_undisturbed l σ σ' : reachable undisturbed σ -> fold_result act_undisturbed σ l = Ok σ' -> reachable undisturbed σ'.
Proof.
  revert σ. induction l as [|a l IH]; intros σ Hr Hf; [by injection Hf as <-|].
  apply bind_Ok in Hf as (σ1 & H1 & Hf). unfold act_undisturbed in H1. destruct (is_undisturbed σ a) eqn:E; [|done].
  eapply IH; [|done]. eapply reachable_act; [done| |done]. by apply is_undisturbed_spec.
Qed.

(** ** A session that becomes active, with a callback that waits *)

Definition to_active : list Action :=
  run_call 0 2 ReviveIfNeeded
  ++ run_call 1 1 (RefreshAccessToken "token" (Some "realms://host/dogs"%string))
  ++ run_call 2 1 (WaitForCompletion upload 1).

Definition sample : result System := fold_result act_undisturbed (start sample_config false) to_active.

Definition from_result {A} (d : A) (r : result A) : A := match r with Ok a => a | Err _ => d end.

Definition active_system : System := from_result (start sample_config false) sample.

Lemma active_reachable : reachable undisturbed active_system.
Proof. apply (run_undisturbed to_active (start sample_config false)); [constructor|reflexivity]. Defined.

Lemma reachable_weaken σ : reachable undisturbed σ -> reachable anything σ.
Proof. induction 1; [constructor|by eapply reachable_act]. Qed.

Lemma client_used_correctly_witness :
  reachable undisturbed active_system /\ client_run (0, None) (trace active_system) = Some (1, Some (0, true)).
Proof. split; [apply active_reachable|exact (client_used_correctly _ _ active_reachable)]. Defined.

Lemma states_follow_diagram_witness :
  reachable undisturbed active_system /\ walk Inactive (trace active_system) = Some Active.
Proof. split; [apply active_reachable|exact (states_follow_diagram _ _ active_reachable)]. Defined.

Lemma session_well_formed_witness : reachable undisturbed active_system /\ session_ok (session active_system).
Proof. split; [apply active_reachable|exact (session_well_formed _ _ active_reachable)]. Defined.

Lemma no_callback_is_lost_witness : reachable undisturbed active_system /\ [] ++ [1] ++ [] ≡ₚ [1].
Proof. split; [apply active_reachable|exact (no_callback_is_lost _ active_reachable)]. Defined.

Lemma waits_are_answered_witness :
  exists i σ', handlers active_system !! i = Some (OnCompletion 0 upload)
    /\ fold_result act active_system (run_handler 3 2 i no_error) = Ok σ'
    /\ trace σ' = trace active_system ++ [Completed 1 no_error] /\ callbacks upload (session σ') = [].
Proof. apply (waits_are_answered active_system upload no_error); [apply active_reachable|reflexivity|by left|done]. Defined.

Lemma log_out_tells_everyone_witness :
  exists σ', fold_result act active_system (run_call 3 3 LogOut) = Ok σ'
    /\ m_state (session σ') = Inactive /\ completed (trace σ') ≡ₚ registered (trace σ').
Proof. apply (log_out_tells_everyone active_system); [apply active_reachable|reflexivity|done]. Defined.

Definition dying_system : System := from_result active_system (fold_result act_undisturbed active_system (run_call 3 1 Close)).

Lemma dying_reachable : reachable undisturbed dying_system.
Proof. apply (run_undisturbed (run_call 3 1 Close) active_system); [apply active_reachable|reflexivity]. Defined.

Lemma dying_sessions_die_witness :
  exists i σ', handlers dying_system !! i = Some (OnDeath 1)
    /\ fold_result act dying_system (run_handler 4 3 i no_error) = Ok σ'
    /\ m_state (session σ') = Inactive /\ completed (trace σ') ≡ₚ registered (trace σ').
Proof. apply (dying_sessions_die dying_system no_error); [apply dying_reachable|reflexivity|reflexivity]. Defined.

Lemma completed_at_most_once_witness :
  reachable undisturbed dying_system /\ NoDup (registered (trace dying_system)) /\ NoDup (completed (trace dying_system)).
Proof.
  split; [apply dying_reachable|]. split; [apply NoDup_singleton|].
  apply (completed_at_most_once undisturbed dying_system); [apply dying_reachable|apply NoDup_singleton].
Defined.

Definition logging_out : System := from_result active_system (act active_system (CallMethod LogOut)).

Lemma threads_end_witness :
  exists σ', fold_result act logging_out (RunThread <$> [3%nat; 3%nat; 3%nat]) = Ok σ'
    /\ (3 <= work_left 0 logging_out)%nat.
Proof.
  eexists. split; [reflexivity|].
  assert (reachable undisturbed logging_out) as Hr.
  { apply (run_undisturbed [CallMethod LogOut] active_system); [apply active_reachable|reflexivity]. }
  exact (threads_end undisturbed logging_out [3%nat; 3%nat; 3%nat] _ Hr eq_refl).
Defined.

Definition waiting_session : Session := set_state WaitingForAccessToken (make_session sample_config false).

Lemma deferred_close_is_done_witness :
  wp (_ ← close; refresh_access_token "token" (Some "realms://host/dogs"%string))
     (fun _ s' _ _ => m_state s' = Dying) (fun _ => False) waiting_session.
Proof.
  refine (proj1 (deferred_close_is_done waiting_session "token" (Some "realms://host/dogs"%string) eq_refl _ _ _)).
  - by intros [].
  - done.
  - done.
Defined.

(** ** Errors that race with other methods *)

Definition permission_denied : SyncError := MkSyncError (protocol_error ProtocolError.permission_denied) true false.
Definition client_reset : SyncError := MkSyncError (protocol_error ProtocolError.bad_client_file_ident) true false.

(** The session is logged out while an error is handled that makes it inactive. *)
Definition error_and_log_out : list Action :=
  run_call 3 6 (ConnectionStateListener Disconnected (Some permission_denied)) ++ run_call 4 3 LogOut.

Definition denied_after_log_out : System := from_result active_system (fold_result act active_system error_and_log_out).

Lemma denied_reachable : reachable anything denied_after_log_out.
Proof. apply (run_reachable error_and_log_out active_system); [apply reachable_weaken, active_reachable|reflexivity]. Defined.

Lemma failures_are_known_witness :
  act denied_after_log_out (RunThread 3) = Err AssertionFailed
  /\ exists i t rest, RunThread 3 = RunThread i /\ threads denied_after_log_out !! i = Some (t :: rest)
       /\ may_fail t (session denied_after_log_out).
Proof.
  split; [reflexivity|].
  destruct (failures_are_known anything denied_after_log_out (RunThread 3) AssertionFailed denied_reachable eq_refl) as [H|[_ H]]; [discriminate H|exact H].
Defined.

(** [handle_error] decides to make the session inactive, gives up the lock, and asserts when it
    has it again that the session is not inactive, which it is when it has been logged out. *)
Theorem error_after_log_out_asserts :
  reachable anything denied_after_log_out
  /\ m_state (session denied_after_log_out) = Inactive
  /\ act denied_after_log_out (RunThread 3) = Err AssertionFailed.
Proof.
  split_and!; [apply denied_reachable|reflexivity|reflexivity].
Qed.

(** Between the two halves of a client resync another thread waits for an upload. *)
Definition resync_while_waiting : list Action :=
  run_call 3 6 (ConnectionStateListener Disconnected (Some client_reset))
  ++ run_call 4 1 (WaitForCompletion upload 2) ++ replicate 3 (RunThread 3).

Definition lost_system : System := from_result active_system (fold_result act active_system resync_while_waiting).

(** The handlers that are put back overwrite it: it is registered, and is neither called nor
    waiting when everything has been run. *)
Theorem resync_loses_callbacks :
  reachable anything lost_system /\ tasks lost_system = [] /\ registered (trace lost_system) = [1; 2]
  /\ pending (session lost_system) = [1] /\ completed (trace lost_system) = [].
Proof.
  split; [|by vm_compute].
  apply (run_reachable resync_while_waiting active_system);
    [apply reachable_weaken, active_reachable|vm_compute; reflexivity].
Qed.

(** A session is logged out and in again, and waits for the upload of its new underlying session,
    1, before the sync client has cancelled the wait on the old one, 0. *)
Definition stale_completion : list Action :=
  run_call 3 3 LogOut ++ run_call 4 2 ReviveIfNeeded ++ run_call 5 1 (RefreshAccessToken "token" None)
  ++ run_call 6 1 (WaitForCompletion upload 2) ++ run_handler 7 2 0 operation_aborted.

Definition stale_system : System := from_result active_system (fold_result act_undisturbed active_system stale_completion).

Definition is_completion (e : Event) : bool :=
  match e with AsyncWait _ _ _ | Destroyed _ | Completed _ _ => true | _ => false end.

(** The handler of the destroyed session completes what waits for the new one, which is active
    and has a handler of its own: the counter that tells them apart counts client resyncs alone. *)
Theorem stale_handlers_complete :
  reachable undisturbed stale_system
  /\ m_state (session stale_system) = Active /\ handlers stale_system = [OnCompletion 0 upload]
  /\ List.filter is_completion (trace stale_system)
     = [AsyncWait 0 upload 0; Destroyed 0; Completed 1 operation_aborted; AsyncWait 1 upload 0; Completed 2 operation_aborted].
Proof.
  split; [|by vm_compute].
  apply (run_undisturbed stale_completion active_system); [apply active_reachable|vm_compute; reflexivity].
Qed.
