(* ===== verification/SyncNotifiers.v ===== *)
(** The notifiers of a sync session: [SyncProgressNotifier] and [ConnectionChangeNotifier] of
    [sync_session.cpp], and what they report. *)

From S2P Require Import Prelude.

(** ** Progress *)

Record Progress := MkProgress { uploadable : Z; downloadable : Z; uploaded : Z; downloaded : Z; snapshot : Z }.

(** The notifier is named by an integer. *)
Record NotifierPackage := MkNotifierPackage {
  notifier : Z;
  captured_transferrable : option Z;
  snapshot_version : Z;
  is_streaming : bool;
  is_download : bool
}.

Definition with_captured c (p : NotifierPackage) : NotifierPackage :=
  MkNotifierPackage (notifier p) c (snapshot_version p) (is_streaming p) (is_download p).

(** A call of a notifier: [transferred] and [transferrable]. *)
Definition Invocation : Type := Z * Z * Z.

(** [create_invocation]: the package that it leaves, the call, unless it does nothing, and
    whether the package is expired. *)
Definition create_invocation (current : Progress) (p : NotifierPackage) : NotifierPackage * option Invocation * bool :=
  let go (p : NotifierPackage) (transferrable : Z) :=
    let transferred := if is_download p then downloaded current else uploaded current in
    (p, Some (notifier p, transferred, transferrable), negb (is_streaming p) && (transferrable <=? transferred)) in
  if is_streaming p then go p (if is_download p then downloadable current else uploadable current)
  else
    match captured_transferrable p with
    | Some c => go p c
    | None =>
        if is_download p then go (with_captured (Some (downloadable current)) p) (downloadable current)
        else if snapshot current <? snapshot_version p then (p, None, false)
        else go (with_captured (Some (uploadable current)) p) (uploadable current)
    end.

Record SyncProgressNotifier := MkProgressNotifier {
  m_progress_notifier_token : Z;
  m_local_transaction_version : Z;
  m_current_progress : option Progress;
  m_packages : gmap Z NotifierPackage
}.

Definition no_notifiers : SyncProgressNotifier := MkProgressNotifier 1 0 None ∅.

(** [register_callback]: the token, and the call that is made before it returns. *)
Definition register_callback (notifier : Z) (download streaming : bool) (n : SyncProgressNotifier)
  : SyncProgressNotifier * Z * option Invocation :=
  let token := m_progress_notifier_token n in
  let package := MkNotifierPackage notifier None (m_local_transaction_version n) streaming download in
  match m_current_progress n with
  | None =>
      (MkProgressNotifier (u64 (token + 1)) (m_local_transaction_version n) None (<[token := package]> (m_packages n)), token, None)
  | Some current =>
      let '(package, invocation, skip_registration) := create_invocation current package in
      (MkProgressNotifier (u64 (token + 1)) (m_local_transaction_version n) (Some current)
         (if (skip_registration : bool) then m_packages n else <[token := package]> (m_packages n)),
       if (skip_registration : bool) then 0 else token, invocation)
  end.

Definition unregister_callback (token : Z) (n : SyncProgressNotifier) : SyncProgressNotifier :=
  MkProgressNotifier (m_progress_notifier_token n) (m_local_transaction_version n) (m_current_progress n)
    (delete token (m_packages n)).

Definition set_local_version (version : Z) (n : SyncProgressNotifier) : SyncProgressNotifier :=
  MkProgressNotifier (m_progress_notifier_token n) version (m_current_progress n) (m_packages n).

(** What the loop of [update] leaves of a package, and the call that it makes. *)
Definition package_left (current : Progress) (p : NotifierPackage) : option NotifierPackage :=
  let '(p, _, expired) := create_invocation current p in if (expired : bool) then None else Some p.

Definition package_call (current : Progress) (p : NotifierPackage) : option Invocation :=
  (create_invocation current p).1.2.

(** [update]; the calls are those of the packages, in no order that is known. *)
Definition update (downloaded downloadable uploaded uploadable download_version snapshot_version : Z)
  (n : SyncProgressNotifier) : SyncProgressNotifier * gmap Z Invocation :=
  if download_version =? 0 then (n, ∅)
  else
    let current := MkProgress uploadable downloadable uploaded downloaded snapshot_version in
    (MkProgressNotifier (m_progress_notifier_token n) (m_local_transaction_version n) (Some current)
       (omap (package_left current) (m_packages n)),
     omap (package_call current) (m_packages n)).

(** ** Connection changes *)

Record ConnectionChangeNotifier := MkConnectionNotifier {
  m_callbacks : list Z;
  m_callback_index : Z;
  m_callback_count : Z;
  m_next_token : Z
}.

Definition no_callbacks : ConnectionChangeNotifier := MkConnectionNotifier [] npos npos 0.

Definition add_callback (n : ConnectionChangeNotifier) : ConnectionChangeNotifier * Z :=
  (MkConnectionNotifier (m_callbacks n ++ [m_next_token n]) (m_callback_index n) (m_callback_count n)
     (u64 (m_next_token n + 1)), m_next_token n).

Definition remove_callback (token : Z) (n : ConnectionChangeNotifier) : ConnectionChangeNotifier :=
  match list_find (fun t => t = token) (m_callbacks n) with
  | None => n
  | Some (idx, _) =>
      let index := if negb (m_callback_index n =? npos) && (Z.of_nat idx <=? m_callback_index n)
                   then u64 (m_callback_index n - 1) else m_callback_index n in
      MkConnectionNotifier (delete idx (m_callbacks n)) index (u64 (m_callback_count n - 1)) (m_next_token n)
  end.

(** What a callback does with the notifier that calls it. *)
Inductive CallbackAction := AddCallback | RemoveCallback (token : Z).

Definition callback_action (n : ConnectionChangeNotifier) (a : CallbackAction) : ConnectionChangeNotifier :=
  match a with AddCallback => (add_callback n).1 | RemoveCallback token => remove_callback token n end.

Section invoke.
(** What the callback of each token does when it is called. *)
Context (script : Z -> list CallbackAction).

(** The loop of [invoke_callbacks], with the tokens of the callbacks that it calls. *)
Fixpoint invoke_loop (fuel : nat) (n : ConnectionChangeNotifier) : result (ConnectionChangeNotifier * list Z) :=
  match fuel with
  | O => Err OutOfFuel
  | S fuel =>
      let index := u64 (m_callback_index n + 1) in
      let n := MkConnectionNotifier (m_callbacks n) index (m_callback_count n) (m_next_token n) in
      if index <? m_callback_count n then
        match m_callbacks n !! Z.to_nat index with
        | None => Err OutOfBounds
        | Some token =>
            '(n, called) ← invoke_loop fuel (foldl callback_action n (script token));
            Ok (n, token :: called)
        end
      else Ok (MkConnectionNotifier (m_callbacks n) npos (m_callback_count n) (m_next_token n), [])
  end.

Definition invoke_callbacks (n : ConnectionChangeNotifier) : result (ConnectionChangeNotifier * list Z) :=
  invoke_loop (S (length (m_callbacks n)))
    (MkConnectionNotifier (m_callbacks n) (m_callback_index n) (Z.of_nat (length (m_callbacks n))) (m_next_token n)).
End invoke.

(** ** Progress *)

Definition update_with (c : Progress) (n : SyncProgressNotifier) : SyncProgressNotifier * gmap Z Invocation :=
  update (downloaded c) (downloadable c) (uploaded c) (uploadable c) 1 (snapshot c) n.

(** The calls of the notifier of [token] in a sequence of updates. *)
Fixpoint collected (token : Z) (ps : list Progress) (n : SyncProgressNotifier) : list Invocation :=
  match ps with
  | [] => []
  | c :: ps => option_list ((update_with c n).2 !! token) ++ collected token ps (update_with c n).1
  end.

(** The calls of one package. *)
Fixpoint calls (p : NotifierPackage) (ps : list Progress) : list Invocation :=
  match ps with
  | [] => []
  | c :: ps => option_list (package_call c p) ++ match package_left c p with Some p => calls p ps | None => [] end
  end.

Definition transferred (p : NotifierPackage) (c : Progress) : Z := if is_download p then downloaded c else uploaded c.
Definition transferrable (p : NotifierPackage) (c : Progress) : Z := if is_download p then downloadable c else uploadable c.

(** An upload is reported from when the sync client has seen the local changes on. *)
Definition ready (p : NotifierPackage) (c : Progress) : bool := is_download p || (snapshot_version p <=? snapshot c).

Fixpoint from_first {A} (f : A -> bool) (l : list A) : list A :=
  match l with [] => [] | x :: l' => if f x then l else from_first f l' end.

Fixpoint up_to_first {A} (f : A -> bool) (l : list A) : list A :=
  match l with [] => [] | x :: l => x :: if f x then [] else up_to_first f l end.

(** What is promised: a streaming notifier is told of every update; one that is not is told how
    far the transfer is of what there was to transfer when it was first ready, until that has
    been transferred. *)
Definition reported (p : NotifierPackage) (ps : list Progress) : list Invocation :=
  if is_streaming p then (fun c => (notifier p, transferred p c, transferrable p c)) <$> ps
  else
    match from_first (ready p) ps with
    | [] => []
    | (c :: _) as ps =>
        (fun c' => (notifier p, transferred p c', transferrable p c))
          <$> up_to_first (fun c' => transferrable p c <=? transferred p c') ps
    end.

Lemma collected_none token ps n : m_packages n !! token = None -> collected token ps n = [].
Proof.
  revert n. induction ps as [|c ps IH]; intros n H; [done|]. cbn. rewrite lookup_omap, H. cbn.
  apply IH. cbn. by rewrite lookup_omap, H.
Qed.

Lemma collected_calls token ps n p : m_packages n !! token = Some p -> collected token ps n = calls p ps.
Proof.
  revert n p. induction ps as [|c ps IH]; intros n p H; [done|]. cbn [collected calls update_with update Z.eqb fst snd].
  rewrite lookup_omap, H. cbn [option_bind mbind]. f_equal. destruct (package_left _ p) as [p'|] eqn:E.
  - apply IH. cbn. rewrite lookup_omap, H. by destruct c.
  - apply collected_none. cbn. rewrite lookup_omap, H. by destruct c.
Qed.

Lemma calls_captured p target ps :
  is_streaming p = false -> captured_transferrable p = Some target ->
  calls p ps = (fun c => (notifier p, transferred p c, target)) <$> up_to_first (fun c => target <=? transferred p c) ps.
Proof.
  intros Hs Hc. induction ps as [|c ps IH]; [done|]. cbn. unfold package_call, package_left, create_invocation.
  rewrite Hs, Hc. cbn. fold (transferred p c). destruct (target <=? transferred p c); cbn; [done|]. by rewrite IH.
Qed.

Lemma calls_streaming p ps :
  is_streaming p = true -> calls p ps = (fun c => (notifier p, transferred p c, transferrable p c)) <$> ps.
Proof.
  intros Hs. induction ps as [|c ps IH]; [done|]. cbn. unfold package_call, package_left, create_invocation.
  rewrite Hs. cbn. by rewrite IH.
Qed.

Lemma calls_reported p ps : captured_transferrable p = None -> calls p ps = reported p ps.
Proof.
  intros Hc. unfold reported. destruct (is_streaming p) eqn:Hs; [by apply calls_streaming|].
  induction ps as [|c ps IH]; [done|]. cbn. unfold package_call, package_left, create_invocation.
  rewrite Hs, Hc. destruct p as [f captured version streaming download]. cbn in *. subst.
  unfold ready, transferrable, transferred in *. destruct download; cbn in *.
  - destruct (downloadable c <=? downloaded c); cbn; [done|]. by rewrite (calls_captured _ (downloadable c)).
  - rewrite Z.ltb_antisym. destruct (version <=? snapshot c); cbn; [|exact IH].
    destruct (uploadable c <=? uploaded c); cbn; [done|]. by rewrite (calls_captured _ (uploadable c)).
Qed.

(** A progress notifier is told what is promised, whatever the progress was when it was
    registered and is afterwards: a streaming one of every update; one that is not, how far the
    transfer is of what there was to transfer when it was first ready, until that is done. *)
Theorem progress_is_reported f download streaming n ps :
  let token := m_progress_notifier_token n in
  let '(n', _, call) := register_callback f download streaming n in
  m_packages n !! token = None ->
  option_list call ++ collected token ps n'
  = reported (MkNotifierPackage f None (m_local_transaction_version n) streaming download)
      (option_list (m_current_progress n) ++ ps).
Proof.
  cbv zeta. unfold register_callback. set (p := MkNotifierPackage f None (m_local_transaction_version n) streaming download).
  rewrite <- (calls_reported p) by done. destruct (m_current_progress n) as [c|].
  - assert (calls p (c :: ps) = option_list (create_invocation c p).1.2
      ++ (if (create_invocation c p).2 then [] else calls (create_invocation c p).1.1 ps)) as E.
    { cbn. unfold package_call, package_left. by destruct (create_invocation c p) as [[p' call] []]. }
    change (option_list (Some c) ++ ps) with (c :: ps). rewrite E. destruct (create_invocation c p) as [[p' call] expired]. cbn.
    intros Hn. f_equal. destruct expired.
    + by apply collected_none.
    + apply collected_calls. cbn. apply lookup_insert_eq.
  - intros Hn. cbn. apply collected_calls. cbn. apply lookup_insert_eq.
Qed.

Lemma progress_is_reported_witness :
  let c := MkProgress 30 10 0 0 0 in
  let '(n', _, call) := register_callback 5 true false (update_with c no_notifiers).1 in
  option_list call ++ collected 1 [MkProgress 30 99 0 4 0; MkProgress 30 99 0 12 0; MkProgress 30 99 0 50 0] n'
  = [(5, 0, 10); (5, 4, 10); (5, 12, 10)].
Proof. exact (progress_is_reported 5 true false (update_with (MkProgress 30 10 0 0 0) no_notifiers).1 _ eq_refl). Defined.

(** ** Connection changes *)

(** The callbacks that are called of those that are to be called, in order, when each may remove
    others. *)
Definition removals (l : list CallbackAction) : list Z :=
  omap (fun a => match a with RemoveCallback t => Some t | AddCallback => None end) l.

Fixpoint delivered (script : Z -> list CallbackAction) (removed todo : list Z) : list Z :=
  match todo with
  | [] => []
  | t :: todo =>
      if decide (t ∈ removed) then delivered script removed todo
      else t :: delivered script (removals (script t) ++ removed) todo
  end.

(** The notifier while it calls its callbacks: those that it has been through, those that are to
    be called, and those that have been added meanwhile. *)
Record invoking (n : ConnectionChangeNotifier) (done todo added : list Z) (first : Z) : Prop := {
  invoking_callbacks : m_callbacks n = done ++ todo ++ added;
  invoking_index : m_callback_index n = u64 (Z.of_nat (length done) - 1);
  invoking_count : m_callback_count n = Z.of_nat (length done + length todo);
  invoking_old : Forall (fun t => t < first) (done ++ todo);
  invoking_added : Forall (fun t => first <= t) added;
  invoking_distinct : NoDup (done ++ todo);
  invoking_first : 0 <= first <= m_next_token n;
  invoking_small : Z.of_nat (length done + length todo) < npos
}.

Definition without (t : Z) (l : list Z) : list Z := filter (fun t' => t' <> t) l.

Lemma without_not_in t l : t ∉ l -> without t l = l.
Proof. intros H. apply filter_all. rewrite Forall_forall. by intros x Hx ->. Qed.

Lemma delete_without t l i : NoDup l -> l !! i = Some t -> delete i l = without t l.
Proof.
  revert i. induction l as [|x l IH]; intros i Hd Hi; [done|]. apply NoDup_cons in Hd as [Hx Hd]. destruct i as [|i]; cbn in Hi.
  - injection Hi as ->. unfold without. rewrite filter_cons_False by (intros H; by apply H). cbn. symmetry. by apply without_not_in.
  - unfold without. rewrite filter_cons_True.
    + cbn. f_equal. by apply IH.
    + intros ->. apply Hx. by eapply list_elem_of_lookup_2.
Qed.

Lemma length_without t l i : NoDup l -> l !! i = Some t -> length l = S (length (without t l)).
Proof.
  intros Hd Hi. rewrite <- (delete_without t l i Hd Hi). rewrite length_delete by (by eexists).
  apply lookup_lt_Some in Hi. lia.
Qed.

Lemma find_token t (l : list Z) : t ∈ l -> exists i, list_find (fun t' => t' = t) l = Some (i, t) /\ l !! i = Some t.
Proof.
  intros Ht. destruct (list_find_elem_of (fun t' => t' = t) l t Ht eq_refl) as [[i x] E]. exists i.
  pose proof E as E'. apply list_find_Some in E' as (Hi & -> & _). by split.
Qed.

Lemma find_no_token t (l : list Z) : t ∉ l -> list_find (fun t' => t' = t) l = None.
Proof. intros Ht. apply list_find_None. rewrite Forall_forall. by intros x Hx ->. Qed.

Lemma Forall_without (P : Z -> Prop) t l : Forall P l -> Forall P (without t l).
Proof. rewrite !Forall_forall. intros H x [_ Hx]%list_elem_of_filter. by apply H. Qed.

Lemma delete_app_l {A} (l l' : list A) i : (i < length l)%nat -> delete i (l ++ l') = delete i l ++ l'.
Proof.
  intros H. rewrite !delete_take_drop, take_app_le, drop_app_le by lia. by rewrite app_assoc.
Qed.

Lemma delete_app_r {A} (l l' : list A) i : delete (length l + i)%nat (l ++ l') = l ++ delete i l'.
Proof. induction l as [|x l IH]; [done|]. cbn. by f_equal. Qed.

Lemma invoking_add n done todo added first :
  invoking n done todo added first -> m_next_token n + 1 < word_size ->
  invoking (add_callback n).1 done todo (added ++ [m_next_token n]) first
  /\ m_next_token (add_callback n).1 = m_next_token n + 1.
Proof.
  intros [H1 H2 H3 H4 H5 H6 H7 H8] Hn. cbn. rewrite u64_small by lia. split; [|done].
  split; cbn; try done; try lia.
  - by rewrite H1, <- !app_assoc.
  - apply Forall_app. split; [done|]. constructor; [lia|done].
Qed.

Lemma invoking_remove n done todo added first t :
  invoking n done todo added first -> t < first ->
  exists done', invoking (remove_callback t n) done' (without t todo) added first
    /\ m_next_token (remove_callback t n) = m_next_token n.
Proof.
  intros [H1 H2 H3 H4 H5 H6 H7 H8] Ht. unfold remove_callback. rewrite H1.
  assert (t ∉ added) as Hadd by (rewrite Forall_forall in H5; intros Hin; specialize (H5 t Hin); lia).
  apply NoDup_app in H6 as (Hd1 & Hd2 & Hd3). apply Forall_app in H4 as [Ho1 Ho2].
  destruct (decide (t ∈ done)) as [Hin|Hnin].
  - destruct (find_token t done Hin) as (i & Ef & Ei). erewrite list_find_app_l by exact Ef.
    pose proof (length_without t done i Hd1 Ei) as Hl. pose proof (lookup_lt_Some _ _ _ Ei) as Hlt.
    exists (without t done). rewrite (without_not_in t todo) by (by apply Hd2). split; [|done].
    assert (u64 (Z.of_nat (length done) - 1) = Z.of_nat (length done) - 1) as Eu by (apply u64_small; unfold npos in *; lia).
    split; cbn; try done.
    + by rewrite delete_app_l, (delete_without t).
    + rewrite H2, Eu. rewrite (proj2 (Z.eqb_neq _ _)) by lia. rewrite (proj2 (Z.leb_le _ _)) by lia. cbn. f_equal. lia.
    + rewrite H3, u64_small by (unfold npos in *; lia). lia.
    + apply Forall_app. split; [|done]. by apply Forall_without.
    + apply NoDup_app. split_and!; [by apply NoDup_filter| |done]. intros x Hx. apply Hd2. by apply list_elem_of_filter in Hx as [_ Hx].
    + lia.
  - exists done. pose proof (find_no_token t done Hnin) as Ef. rewrite (list_find_app_r _ _ _ Ef).
    destruct (decide (t ∈ todo)) as [Hin|Hnin'].
    + destruct (find_token t todo Hin) as (i & Ef' & Ei). erewrite list_find_app_l by exact Ef'. cbn.
      pose proof (length_without t todo i Hd3 Ei) as Hl. pose proof (lookup_lt_Some _ _ _ Ei) as Hlt.
      split; [|done]. split; cbn; try done.
      * rewrite (Nat.add_comm i), delete_app_r. f_equal. by rewrite delete_app_l, (delete_without t).
      * rewrite H2. destruct done as [|x done]; [done|].
        rewrite u64_small by (cbn [length] in *; unfold npos in *; lia). rewrite (proj2 (Z.leb_gt _ _)) by (cbn [length]; lia).
        by rewrite andb_false_r.
      * rewrite H3, u64_small by (unfold npos in *; lia). lia.
      * apply Forall_app. split; [done|]. by apply Forall_without.
      * apply NoDup_app. split_and!; [done| |by apply NoDup_filter]. intros x Hx Hx'. apply (Hd2 x Hx). by apply list_elem_of_filter in Hx' as [_ Hx'].
      * lia.
    + rewrite (list_find_app_r _ _ _ (find_no_token t todo Hnin')), (find_no_token t added Hadd). cbn.
      split; [|done]. rewrite without_not_in by done. split; try done.
      * apply Forall_app. by split.
      * apply NoDup_app. by split_and!.
Qed.

Fixpoint additions (l : list CallbackAction) : Z :=
  match l with [] => 0 | AddCallback :: l => 1 + additions l | RemoveCallback _ :: l => additions l end.

Lemma additions_nonneg l : 0 <= additions l.
Proof. induction l as [|[|t] l IH]; cbn; lia. Qed.

Definition removes_only (first : Z) (l : list CallbackAction) : Prop :=
  forall t, RemoveCallback t ∈ l -> t < first.

Definition without_all (ts l : list Z) : list Z := filter (fun t => t ∉ ts) l.

Lemma without_all_cons t ts l : without_all (t :: ts) l = without_all ts (without t l).
Proof.
  unfold without_all, without. rewrite list_filter_filter. apply list_filter_iff. intros x. set_solver.
Qed.

Lemma without_all_nil l : without_all [] l = l.
Proof. apply filter_all. rewrite Forall_forall. intros x _. apply not_elem_of_nil. Qed.

Lemma invoking_actions l n done todo added first :
  invoking n done todo added first -> removes_only first l -> m_next_token n + additions l < word_size ->
  exists done' added', invoking (foldl callback_action n l) done' (without_all (removals l) todo) added' first
    /\ m_next_token (foldl callback_action n l) = m_next_token n + additions l.
Proof.
  revert n done todo added. induction l as [|a l IH]; intros n done todo added Hn Hl Hb.
  { exists done, added. rewrite without_all_nil. split; [done|]. cbn. lia. }
  assert (removes_only first l) as Hl' by (intros t Ht; apply Hl; by right). pose proof (additions_nonneg l).
  destruct a as [|t]; cbn [foldl callback_action additions] in *.
  - destruct (invoking_add n done todo added first Hn) as [Ha En]; [lia|].
    destruct (IH _ _ _ _ Ha Hl') as (done' & added' & H' & E); [lia|].
    exists done', added'. split; [done|lia].
  - destruct (invoking_remove n done todo added first t Hn) as (done1 & Ha & En); [apply Hl; by left|].
    destruct (IH _ _ _ _ Ha Hl') as (done' & added' & H' & E); [lia|].
    exists done', added'. cbn [removals omap list_omap]. fold (removals l). rewrite without_all_cons. split; [done|lia].
Qed.

Section invoke.
Context (script : Z -> list CallbackAction).

(** What the callbacks of a list may add. *)
Fixpoint all_additions (todo : list Z) : Z :=
  match todo with [] => 0 | t :: todo => additions (script t) + all_additions todo end.

Lemma all_additions_without ts l : all_additions (without_all ts l) <= all_additions l.
Proof.
  unfold without_all. induction l as [|t l IH]; [done|]. rewrite filter_cons. pose proof (additions_nonneg (script t)).
  case_decide; cbn; lia.
Qed.

Lemma delivered_ext r r' l : (forall x, x ∈ r <-> x ∈ r') -> delivered script r l = delivered script r' l.
Proof.
  revert r r'. induction l as [|t l IH]; intros r r' H; [done|]. cbn. rewrite (decide_ext (t ∈ r) (t ∈ r')) by done.
  case_decide; [by apply IH|]. f_equal. apply IH. set_solver.
Qed.

Lemma delivered_without ts ts' l : delivered script (ts ++ ts') l = delivered script ts' (without_all ts l).
Proof.
  revert ts ts'. induction l as [|t l IH]; intros ts ts'; [done|]. unfold without_all. rewrite filter_cons. cbn [delivered].
  destruct (decide (t ∈ ts)) as [Hin|Hnin].
  - rewrite decide_True by set_solver. rewrite decide_False by auto. apply IH.
  - rewrite (decide_True (P := t ∉ ts)) by done. cbn [delivered]. destruct (decide (t ∈ ts')).
    + rewrite decide_True by set_solver. apply IH.
    + rewrite decide_False by set_solver. f_equal. fold (without_all ts l). rewrite <- IH. apply delivered_ext. set_solver.
Qed.

Lemma invoke_loop_delivers fuel n done todo added first :
  invoking n done todo added first -> (length todo < fuel)%nat ->
  Forall (fun t => removes_only first (script t)) todo -> m_next_token n + all_additions todo < word_size ->
  exists n', invoke_loop script fuel n = Ok (n', delivered script [] todo) /\ m_callback_index n' = npos.
Proof.
  revert n done todo added. induction fuel as [|fuel IH]; intros n done todo added Hn Hf Hs Hb; [lia|].
  cbn [invoke_loop m_callbacks m_callback_count m_callback_index]. pose proof Hn as [H1 H2 H3 H4 H5 H6 H7 H8].
  assert (u64 (m_callback_index n + 1) = Z.of_nat (length done)) as Eu.
  { rewrite H2, u64_add_l. rewrite u64_small by (unfold npos in *; lia). lia. }
  rewrite Eu, H3. destruct todo as [|t todo].
  { rewrite (proj2 (Z.ltb_ge _ _)) by (cbn; lia). by eexists. }
  rewrite (proj2 (Z.ltb_lt _ _)) by (cbn; lia). rewrite Nat2Z.id. 
  assert (m_callbacks n !! length done = Some t) as -> by (rewrite H1, lookup_app_r by lia; by rewrite Nat.sub_diag).
  apply Forall_cons in Hs as [Hst Hs]. cbn [all_additions] in Hb.
  match goal with |- context [foldl _ ?m _] => set (n1 := m) end.
  assert (invoking n1 (done ++ [t]) todo added first) as Hn1.
  { split; cbn; rewrite ?length_app, <- ?app_assoc; cbn; try done; try lia.
    - rewrite u64_small by (cbn [length] in H8; unfold npos in *; lia). lia.
    - cbn in H8. lia. }
  pose proof (additions_nonneg (script t)).
  assert (0 <= all_additions todo) by (clear; induction todo as [|x l IH]; [done|]; cbn; pose proof (additions_nonneg (script x)); lia).
  destruct (invoking_actions (script t) n1 (done ++ [t]) todo added first Hn1 Hst) as (done' & added' & Hi & En); [cbn; lia|].
  pose proof (all_additions_without (removals (script t)) todo) as Hw.
  destruct (IH _ _ _ _ Hi) as (n' & E & En'); [| |rewrite En; cbn; lia|].
  - unfold without_all. pose proof (length_filter (fun x => x ∉ removals (script t)) todo). cbn in Hf. lia.
  - rewrite Forall_forall in *. intros x [_ Hx]%list_elem_of_filter. by apply Hs.
  - exists n'. rewrite E. cbn [mbind result_bind]. split; [|done].
    cbn [delivered]. rewrite decide_False by apply not_elem_of_nil. by rewrite delivered_without.
Qed.
End invoke.

(** Callbacks that have tokens of their own, when none are being called. *)
Record quiescent (n : ConnectionChangeNotifier) : Prop := {
  quiescent_index : m_callback_index n = npos;
  quiescent_old : Forall (fun t => t < m_next_token n) (m_callbacks n);
  quiescent_distinct : NoDup (m_callbacks n);
  quiescent_next : 0 <= m_next_token n;
  quiescent_small : Z.of_nat (length (m_callbacks n)) < npos
}.

(** C32: A change of the connection is told to every callback that is registered when it happens,
    once and in order, except to those that an earlier one removes; callbacks may be removed and
    added meanwhile, as long as none is removed that was added meanwhile. *)
Theorem connection_changes_are_told script n :
  quiescent n -> Forall (fun t => removes_only (m_next_token n) (script t)) (m_callbacks n) ->
  m_next_token n + all_additions script (m_callbacks n) < word_size ->
  exists n', invoke_callbacks script n = Ok (n', delivered script [] (m_callbacks n)) /\ m_callback_index n' = npos.
Proof.
  intros [H1 H2 H3 H4 H5] Hs Hb. apply (invoke_loop_delivers script _ _ [] (m_callbacks n) [] (m_next_token n)); cbn; try done; try lia.
  split; cbn; rewrite ?app_nil_r; done.
Qed.

Definition three_callbacks : ConnectionChangeNotifier := (add_callback (add_callback (add_callback no_callbacks).1).1).1.

(** The first removes itself and the third, and adds one. *)
Definition removing_script (t : Z) : list CallbackAction :=
  if t =? 0 then [RemoveCallback 0; RemoveCallback 2; AddCallback] else [].

Lemma connection_changes_are_told_witness :
  exists n', invoke_callbacks removing_script three_callbacks = Ok (n', [0; 1]) /\ m_callback_index n' = npos.
Proof.
  apply (connection_changes_are_told removing_script three_callbacks).
  - split; [done|by repeat constructor|apply (bool_decide_unpack _); by vm_compute|done|done].
  - repeat constructor; intros t Ht; cbn in Ht; set_solver by lia.
  - done.
Defined.

(** The first adds a callback and removes it again. *)
Definition fickle_script (t : Z) : list CallbackAction := if t =? 0 then [AddCallback; RemoveCallback 3] else [].

(** [remove_callback] counts down whether the callback is one of those that are being called or
    not: the third is registered throughout and is not told. *)
Theorem fickle_callback_hides_another :
  exists n', invoke_callbacks fickle_script three_callbacks = Ok (n', [0; 1]) /\ m_callbacks n' = [0; 1; 2].
Proof. by eexists. Qed.
