(* ===== verification/KVOAdapter.v ===== *)
(** [KVOAdapter] of [transact_log_handler.cpp]: the changes of observed objects in the terms of
    key-value observation, which has no moves and one kind of change for each column.

    A [ListInfo*] and an [ObserverState*] are indices into the vectors that own them, a
    [CollectionChangeBuilder*] is an address in a store of builders, as in the observer.  What the
    observers are told of a list is set against the change of the list that the builder describes. *)

From S2P Require Import Prelude Keys ChunkedRangeVector RangeList IndexSet IndexSetCount IndexLists IndexSetMerge IndexSetProps ChangeBuilder KeptElements Collection.
From S2P Require Import Tracking TrackedChanges ChangeReport MergeProps ObjectChangeSet TransactLogHandler DeepChangeChecker CollectionNotifier.

(** ** Column changes, [binding_context.hpp] *)

Inductive Kind := KNone | KSet | KInsert | KRemove | KSetAll.

#[export] Instance Kind_eq_dec : EqDecision Kind.
Proof. solve_decision. Defined.

Record ColumnInfo := Column { kind : Kind; indices : IndexSet }.

Definition no_column_change : ColumnInfo := Column KNone [].

Record ObserverState := Observed { o_table_key : TableKey; o_obj_key : ObjKey; o_info : Z; o_changes : gmap Z ColumnInfo }.

Definition with_changes c (o : ObserverState) : ObserverState := Observed (o_table_key o) (o_obj_key o) (o_info o) c.

(** ** Lists *)

Section column.
Context `{MaxSize}.

(** [in_range]: the ranges from the iterator on, and whether [i] is in the first of them. *)
Definition in_range (it : list (Z * Z)) (i : Z) : list (Z * Z) * bool :=
  let it := match it with p :: rest => if snd p <=? i then rest else it | [] => [] end in
  (it, match it with p :: _ => (fst p <=? i) && (i <? snd p) | [] => false end).

(** The loop over the rows that the moves may have shifted. *)
Fixpoint add_shifted_rows (n : nat) (i : Z) (del_it ins_it : list (Z * Z)) (shift : Z) (v : IndexSet) : result IndexSet :=
  match n with
  | O => Ok v
  | S n =>
      let '(del_it, deleted) := in_range del_it i in
      let '(ins_it, shift) :=
        if (deleted : bool) then (ins_it, shift - 1)
        else let '(ins_it, inserted) := in_range ins_it (u64 (i + shift)) in
             (ins_it, if (inserted : bool) then shift + 1 else shift) in
      v ← (if negb (shift =? 0) then add v i else Ok v);
      add_shifted_rows n (i + 1) del_it ins_it shift v
  end.

Definition moved_rows (d i v : IndexSet) : result IndexSet :=
  match ranges i, last (ranges i), ranges d, last (ranges d) with
  | ins_it :: _, Some ins_end, del_it :: _, Some del_end =>
      let start := Z.min (fst ins_it) (fst del_it) in
      let end_ := Z.max (snd ins_end) (snd del_end) in
      add_shifted_rows (Z.to_nat (end_ - start)) start (ranges d) (ranges i) 0 v
  | _, _, _, _ => Err OutOfBounds
  end.

Definition empty_count (v : IndexSet) : Z := if nonempty v then 0 else 1.

(** The change of a list column whose builder is not empty. *)
Definition column_change (b : CollectionChangeBuilder) (changes : ColumnInfo) : result ColumnInfo :=
  m ← remove_set (modifications b) (insertions b);
  ins ← count (insertions b) 0 npos;
  del ← count (deletions b) 0 npos;
  let n := Z.of_nat (length (moves b)) in
  if negb (n =? 0) && (ins =? n) && (del =? n) then
    v ← add_set m (deletions b);
    v ← moved_rows (deletions b) (insertions b) v;
    Ok (Column KSet v)
  else if empty_count (insertions b) + empty_count m + empty_count (deletions b) <? 2 then Ok (Column KSetAll (indices changes))
  else if nonempty (insertions b) then Ok (Column KInsert (insertions b))
  else if nonempty m then Ok (Column KSet m)
  else _ ← realm_assert (nonempty (deletions b)); Ok (Column KRemove (deletions b)).
End column.

(** ** The adapter *)

Record ListInfo := MkListInfo { li_observer : nat; li_builder : Z; li_col : ColKey }.

Record KVOAdapter := Adapter {
  a_info : TransactionChangeInfo;
  m_lists : list ListInfo;
  m_observers : list ObserverState;
  m_invalidated : list Z;
  m_version : option Z
}.

Section adapter.
Context `{MaxSize} `{Tables}.
(** [col_attr_List] of a column. *)
Context (is_list_column : TableKey -> ColKey -> bool).

Definition observed_lists (observers : list ObserverState) : list (nat * ColKey) :=
  concat (imap (fun i o => pair i <$> filter (fun col => is_list_column (o_table_key o) col) (get_column_keys (o_table_key o)))
            observers).

(** The constructor; the builder of the list at index [i] of [m_lists] gets the address [i]. *)
Definition make_adapter (observers : list ObserverState) : KVOAdapter :=
  let m_lists := imap (fun i '(o, col) => MkListInfo o (Z.of_nat i) col) (observed_lists observers) in
  let tables := foldl (fun t o => <[o_table_key o := no_object_changes]> t) ∅ observers in
  let lists := omap (fun li => o ← observers !! li_observer li;
                 Some (ListChange (o_table_key o) (o_obj_key o) (li_col li) (li_builder li))) m_lists in
  Adapter (ChangeInfo lists tables false false) m_lists observers [] None.

(** [observer.changes[col].kind = Set] for each of the columns. *)
Definition mark_set (cols : list ColKey) (c : gmap Z ColumnInfo) : gmap Z ColumnInfo :=
  foldl (fun c col => <[col := Column KSet (indices (default no_column_change (c !! col)))]> c) c cols.

(** The loop over the observers: the observers and those that are invalidated. *)
Definition mark_observer (tables : gmap Z ObjectChangeSet) (o : ObserverState) : ObserverState * option Z :=
  match tables !! o_table_key o with
  | None => (o, None)
  | Some table =>
      if deletions_contains table (o_obj_key o) then (o, Some (o_info o))
      else
        match get_columns_modified table (o_obj_key o) with
        | Some cols => (with_changes (mark_set (elements cols) (o_changes o)) o, None)
        | None => (o, None)
        end
  end.

(** The body of the loop over the lists. *)
Definition adapt_list (store : gmap Z CollectionChangeBuilder) (observers : list ObserverState) (l : ListInfo)
  : result (list ObserverState) :=
  match observers !! li_observer l, store !! li_builder l with
  | Some o, Some b =>
      if is_empty b then Ok (<[li_observer l := with_changes (delete (li_col l) (o_changes o)) o]> observers)
      else if bool_decide (o_changes o = ∅) then Ok observers
      else
        match o_changes o !! li_col l with
        | None => Err AssertionFailed
        | Some c =>
            c ← column_change b c;
            Ok (<[li_observer l := with_changes (<[li_col l := c]> (o_changes o)) o]> observers)
        end
  | _, _ => Err OutOfBounds
  end.

(** [before], with the version before the advance and the builders that the log was parsed
    into; whether [will_change] is called, with the observers and the invalidated ones. *)
Definition before (context : bool) (version : Z) (store : gmap Z CollectionChangeBuilder) (a : KVOAdapter)
  : result (KVOAdapter * bool) :=
  if negb context then Ok (a, false)
  else if bool_decide (tables (a_info a) = ∅) then
    Ok (Adapter (a_info a) (m_lists a) (m_observers a) (m_invalidated a) (Some version), false)
  else
    let marked := mark_observer (tables (a_info a)) <$> m_observers a in
    observers ← fold_result (adapt_list store) marked.*1 (m_lists a);
    Ok (Adapter (a_info a) (m_lists a) observers (m_invalidated a ++ omap id marked.*2) (Some version), true).

(** [after]: what [did_change] is told of whether the version changed. *)
Definition after (context : bool) (version : Z) (a : KVOAdapter) : option bool :=
  if negb context then None
  else Some (match m_version a with Some v => negb (v =? version) | None => false end).
End adapter.

Section column.
Context `{MaxSize} {A : Type}.
Implicit Types (b : CollectionChangeBuilder) (old : list A) (cur : list (item A)).
Local Abbreviation mem v x := (has (ranges v) x).

(** What a change promises of the old list and of the new one: a [KInsert] that taking its
    indices out of the new list gives the old one, a [KRemove] that taking them out of the old
    list gives the new one, a [KSet] that the lists are as long and the elements at the other
    indices as they were; the elements that were modified are among the indices. *)
Definition column_told (c : ColumnInfo) old cur : Prop :=
  match kind c with
  | KNone => False
  | KInsert => keep (ranges (indices c)) 0 (ids cur) = old /\ (forall x, marked_at cur None x -> mem (indices c) x)
  | KRemove => keep (ranges (indices c)) 0 old = ids cur /\ (forall x, ~ marked_at cur None x)
  | KSet => length old = length cur /\ (forall x, ~ mem (indices c) x -> nth_Z (ids cur) x = nth_Z old x)
            /\ (forall x, marked_at cur None x -> mem (indices c) x)
  | KSetAll => True
  end.

Lemma nonempty_false (v : IndexSet) : nonempty v = false -> v = [].
Proof. by destruct v. Qed.

Lemma members_nonempty v : index_set_ok v -> nonempty v = true -> exists x, mem v x.
Proof.
  intros [Hw Hs] Hn. destruct (ranges v) as [|[f s] l] eqn:E.
  - apply ranges_nil in E; [|done]. by subst.
  - exists f. apply has_cons. left. apply sorted_cons in Hs as ([? ?] & _). unfold in_range_of. cbn in *. lia.
Qed.

Lemma count_width v : index_set_ok v -> below npos (ranges v) -> count v 0 npos = Ok (width (ranges v)).
Proof.
  intros Hok Hb. pose proof Hok as [_ Hs]. rewrite count_spec; [|done|by split|right; by apply sorted_from_0, sorted_ok].
  f_equal. apply count_in_all; [by apply sorted_ok|by apply sorted_from_0, sorted_ok|done].
Qed.

Lemma keep_nothing old : keep [] 0 old = old.
Proof. apply keep_all. intros x _ []%has_nil. Qed.

(** ** The rows that one move shifts *)

Lemma width_one (r : list (Z * Z)) x : sorted r -> width r = 1 -> has r x -> r = [(x, x + 1)].
Proof.
  destruct r as [|[f s] r]; intros Hs Hw Hx; [by apply has_nil in Hx|].
  apply sorted_cons in Hs as ([? Hf] & _ & Hs). rewrite width_cons in Hw. cbn [fst snd] in *.
  destruct r as [|[f' s'] r].
  - apply has_cons in Hx as [[? ?]|[]%has_nil]. cbn in *. do 2 f_equal; lia.
  - apply sorted_cons in Hs as ([? ?] & _ & Hs). rewrite width_cons in Hw. cbn [fst snd] in *.
    pose proof (width_nonneg _ (sorted_ok _ Hs)). lia.
Qed.

(** A list of at most one range, which is not in the rows from [lo] to [hi]. *)
Definition quiet (it : list (Z * Z)) (lo hi : Z) : Prop :=
  it = [] \/ exists p, it = [p] /\ fst p < snd p /\ (snd p <= lo \/ hi <= fst p).

Lemma in_range_quiet it lo hi k :
  quiet it lo hi -> lo <= k < hi -> exists it', in_range it k = (it', false) /\ quiet it' (k + 1) hi.
Proof.
  intros [->|([f s] & -> & Hp & Hq)] Hk; cbn [fst snd] in *; [by exists []; split; [|left]|].
  unfold in_range. cbn [fst snd]. destruct (Z.leb_spec s k).
  - exists []. split; [done|by left].
  - exists [(f, s)]. split; [cbn; by rewrite (proj2 (Z.leb_gt f k)) by lia|]. right. exists (f, s). cbn. split; [done|lia].
Qed.

Lemma add_shifted_rows_ok n i del_it ins_it shift v :
  index_set_ok v -> 0 <= i -> i + Z.of_nat n <= npos ->
  exists v', add_shifted_rows n i del_it ins_it shift v = Ok v' /\ index_set_ok v' /\ (forall x, mem v x -> mem v' x).
Proof.
  revert i del_it ins_it shift v. induction n as [|n IH]; intros i dels inss shift v Hok Hi Hn; [by exists v|].
  cbn [add_shifted_rows]. destruct (in_range dels i) as [dels' [|]]; [|destruct (in_range inss _) as [inss' b]];
    lazymatch goal with |- context [negb (?s =? 0)] => destruct (s =? 0) end; cbn [negb mbind result_bind];
    try (apply IH; [done|lia..]);
    destruct (add_spec v i Hok ltac:(lia)) as (v1 & -> & Hok1 & Hm1); cbn [mbind result_bind];
    lazymatch goal with |- context [add_shifted_rows n (i + 1) ?d ?j ?s v1] =>
      destruct (IH (i + 1) d j s v1 Hok1 ltac:(lia) ltac:(lia)) as (v' & E & Hok' & Hm') end;
    exists v'; (split_and!; [done..|]); intros x Hx; apply Hm', Hm1; by right.
Qed.

Lemma rows_shifted n i del_it ins_it shift v :
  index_set_ok v -> 0 <= i -> 0 <= i + shift -> shift <> 0 -> i + Z.of_nat n <= npos -> i + shift + Z.of_nat n <= npos ->
  quiet del_it i (i + Z.of_nat n) -> quiet ins_it (i + shift) (i + shift + Z.of_nat n) ->
  exists v', add_shifted_rows n i del_it ins_it shift v = Ok v' /\ index_set_ok v' /\
    (forall x, mem v' x <-> mem v x \/ i <= x < i + Z.of_nat n).
Proof.
  revert i del_it ins_it v. induction n as [|n IH]; intros i dels inss v Hok Hi His Hs Hn Hns Hd Hj.
  { exists v. split_and!; [done..|]. intros x. split; [by left|intros [?|?]; [done|lia]]. }
  cbn [add_shifted_rows]. destruct (in_range_quiet _ _ _ i Hd ltac:(lia)) as (dels' & -> & Hd').
  rewrite u64_small by (unfold npos in *; lia).
  destruct (in_range_quiet _ _ _ (i + shift) Hj ltac:(lia)) as (inss' & -> & Hj').
  rewrite (proj2 (Z.eqb_neq _ _) Hs). cbn [negb].
  destruct (add_spec v i Hok ltac:(lia)) as (v1 & -> & Hok1 & Hm1). cbn [mbind result_bind].
  replace (i + Z.of_nat (S n)) with (i + 1 + Z.of_nat n) in * by lia.
  replace (i + shift + Z.of_nat (S n)) with (i + 1 + shift + Z.of_nat n) in * by lia.
  replace (i + shift + 1) with (i + 1 + shift) in * by lia.
  destruct (IH (i + 1) dels' inss' v1) as (v' & E & Hok' & Hm'); [first [done|lia]..|].
  exists v'. split_and!; [done..|]. intros x. rewrite Hm', Hm1. split.
  - intros [[->|?]|?]; [right; lia|by left|right; lia].
  - intros [?|?]; [by left; right|]. destruct (decide (x = i)); [by left; left|right; lia].
Qed.

Lemma in_range_at p k : fst p <= k < snd p -> in_range [p] k = ([p], true).
Proof.
  intros Hk. unfold in_range. rewrite (proj2 (Z.leb_gt (snd p) k)) by lia.
  by rewrite (proj2 (Z.leb_le (fst p) k)), (proj2 (Z.ltb_lt k (snd p))) by lia.
Qed.

Lemma in_range_before p k : k < fst p < snd p -> in_range [p] k = ([p], false).
Proof.
  intros Hk. unfold in_range. rewrite (proj2 (Z.leb_gt (snd p) k)) by lia.
  by rewrite (proj2 (Z.leb_gt (fst p) k)) by lia.
Qed.

(** The rows up to the one that was deleted, after the one that was inserted. *)
Lemma rows_until_deleted n i ins_it v :
  index_set_ok v -> 0 <= i -> i + Z.of_nat n + 1 <= npos ->
  quiet ins_it (i + 1) (i + 1 + Z.of_nat n) ->
  let d := i + Z.of_nat n in
  exists v', add_shifted_rows (S n) i [(d, d + 1)] ins_it 1 v = Ok v' /\ index_set_ok v' /\
    (forall x, mem v' x <-> mem v x \/ i <= x < d).
Proof.
  revert i ins_it v. induction n as [|n IH]; intros i inss v Hok Hi Hn Hj d; subst d.
  - cbn [add_shifted_rows]. rewrite in_range_at by (cbn; lia). exists v.
    split_and!; [done..|]. intros x. split; [by left|intros [?|?]; [done|lia]].
  - remember (S n) as m eqn:Em. cbn [add_shifted_rows].
    rewrite in_range_before by (cbn; lia). rewrite u64_small by (unfold npos in *; lia).
    destruct (in_range_quiet _ _ _ (i + 1) Hj ltac:(lia)) as (inss' & -> & Hj'). cbn [negb Z.eqb].
    destruct (add_spec v i Hok ltac:(lia)) as (v1 & -> & Hok1 & Hm1). cbn [mbind result_bind]. subst m.
    replace (i + Z.of_nat (S n)) with (i + 1 + Z.of_nat n) in * by lia.
    replace (i + 1 + Z.of_nat (S n)) with (i + 1 + 1 + Z.of_nat n) in * by lia.
    destruct (IH (i + 1) inss' v1 Hok1 ltac:(lia) ltac:(lia) Hj') as (v' & E & Hok' & Hm').
    exists v'. split_and!; [done..|]. intros x. rewrite Hm', Hm1. split.
    + intros [[->|?]|?]; [right; lia|by left|right; lia].
    + intros [?|?]; [by left; right|]. destruct (decide (x = i)); [by left; left|right; lia].
Qed.


(** One move, from [d] to [t]: the rows between the two. *)
Lemma one_move_rows (dels inss v : IndexSet) d t :
  ranges dels = [(d, d + 1)] -> ranges inss = [(t, t + 1)] -> index_set_ok v ->
  0 <= d < npos -> 0 <= t < npos -> mem v d ->
  exists v', moved_rows dels inss v = Ok v' /\ index_set_ok v' /\
    (forall x, mem v' x <-> mem v x \/ Z.min d t <= x <= Z.max d t).
Proof.
  intros Ed Et Hok Hd Ht Hv. unfold moved_rows. rewrite Ed, Et. cbn [last fst snd].
  destruct (Z.le_gt_cases d t) as [Hl|Hl].
  - replace (Z.to_nat _) with (S (Z.to_nat (t - d))) by lia. rewrite Z.min_r by lia.
    cbn [add_shifted_rows]. rewrite in_range_at by (cbn; lia). cbn [negb Z.eqb Z.sub Z.add Z.opp].
    destruct (add_spec v d Hok Hd) as (v1 & -> & Hok1 & Hm1). cbn [mbind result_bind].
    destruct (rows_shifted (Z.to_nat (t - d)) (d + 1) [(d, d + 1)] [(t, t + 1)] (-1) v1) as (v' & E & Hok' & Hm');
      [first [done|lia|right; eexists; split; [done|cbn; lia]]..|].
    exists v'. split_and!; [done..|]. intros x. rewrite Hm', Hm1. split.
    + intros [[->|?]|?]; [by left|by left|right; lia].
    + intros [?|?]; [by left; right|]. destruct (decide (x = d)) as [->|]; [by left; left|right; lia].
  - replace (Z.to_nat _) with (S (S (Z.to_nat (d - t - 1)))) by lia. rewrite Z.min_l by lia.
    remember (S (Z.to_nat (d - t - 1))) as m eqn:Em. cbn [add_shifted_rows].
    rewrite in_range_before, Z.add_0_r, u64_small by (cbn; unfold npos in *; lia). rewrite in_range_at by (cbn; lia).
    cbn [negb Z.eqb Z.add]. destruct (add_spec v t Hok Ht) as (v1 & -> & Hok1 & Hm1). cbn [mbind result_bind].
    destruct (rows_until_deleted (Z.to_nat (d - t - 1)) (t + 1) [(t, t + 1)] v1) as (v' & E & Hok' & Hm');
      [first [done|lia|right; eexists; split; [done|cbn; lia]]..|].
    rewrite <- Em in E. replace (t + 1 + Z.of_nat (Z.to_nat (d - t - 1))) with d in * by lia.
    exists v'. split_and!; [done..|]. intros x. rewrite Hm', Hm1. split.
    + intros [[->|?]|?]; [right; lia|by left|right; lia].
    + intros [?|?]; [by left; right|]. destruct (decide (x = t)); [by left; left|].
      destruct (decide (x = d)) as [->|]; [by left; right|right; lia].
Qed.

(** ** What observers are told *)

(** Changes of more than one kind, which a column cannot express. *)
Definition several_kinds b (cur : list (item A)) : Prop :=
  let inserted := exists x, mem (insertions b) x in
  let deleted := exists x, mem (deletions b) x in
  let modified := exists x, marked_at cur None x /\ ~ mem (insertions b) x in
  (inserted /\ deleted) \/ (inserted /\ modified) \/ (deleted /\ modified).

Lemma mem_width (v : IndexSet) : index_set_ok v -> ranges v <> [] -> 0 < width (ranges v).
Proof.
  intros [_ Hs]. destruct (ranges v) as [|[f s] l]; [done|]. intros _.
  apply sorted_cons in Hs as ([? ?] & _ & Hs). rewrite width_cons. cbn in *.
  pose proof (width_nonneg _ (sorted_ok _ Hs)). lia.
Qed.

Lemma below_weak n m r : below n r -> n <= m -> below m r.
Proof. intros Hb Hn. eapply Forall_impl; [exact Hb|]. cbn. lia. Qed.

Lemma sorted_one d : 0 <= d < npos -> sorted [(d, d + 1)].
Proof. intros Hd. cbn. split_and!; [|apply Forall_nil_2|done]. unfold ok_range. cbn. lia. Qed.

Lemma rank_one d x : 0 <= d -> 0 <= x -> x <> d -> rank [(d, d + 1)] x = if decide (x < d) then x else x - 1.
Proof. intros. unfold rank. rewrite count_in_cons, count_in_nil. unfold overlap. cbn. case_decide; lia. Qed.

Lemma has_one d x : has [(d, d + 1)] x <-> x = d.
Proof. rewrite has_cons. unfold in_range_of. cbn [fst snd]. split; [intros [?|[]%has_nil]; lia|left; lia]. Qed.

(** One element that moves from [d] to [t]: those outside stay. *)
Lemma one_move_rest old (new : list A) d t :
  length old = length new -> 0 <= d < npos -> 0 <= t < npos ->
  keep [(d, d + 1)] 0 old = keep [(t, t + 1)] 0 new ->
  forall x, ~ Z.min d t <= x <= Z.max d t -> nth_Z new x = nth_Z old x.
Proof.
  intros Hlen Hd Ht Hk x Hx. unfold nth_Z. case_decide as H0; [|done].
  destruct (decide (x < Z.of_nat (length old))) as [Hl|Hl]; [|rewrite !lookup_ge_None_2 by lia; done].
  rewrite <- (keep_lookup [(d, d + 1)] old), <- (keep_lookup [(t, t + 1)] new), Hk;
    [|by apply sorted_one|lia|rewrite has_one; lia..| by apply sorted_one|lia|rewrite has_one; lia].
  rewrite !rank_one by lia. by do 2 case_decide; try lia.
Qed.

Lemma moves_move b old cur : describes b old cur -> moves b <> [] ->
  exists d t, mem (deletions b) d /\ mem (insertions b) t.
Proof.
  intros Hd Hm. pose proof (ds_moves _ _ _ Hd) as Hmv. destruct (moves b) as [|m l]; [done|].
  apply Forall_cons in Hmv as [Hmv _]. exists (move_from m), (move_to m). by split; [apply (mo_from _ _ _ _ Hmv)|apply (mo_to _ _ _ _ Hmv)].
Qed.

Lemma mem_bounds (v : IndexSet) x : index_set_ok v -> mem v x -> 0 <= x < npos.
Proof.
  intros [_ Hs] Hx. revert Hx. apply sorted_ok in Hs. induction Hs as [|p l [? ?] _ IH]; [by intros ?%has_nil|].
  intros [[? ?]|?]%has_cons; [cbn in *; lia|by apply IH].
Qed.

Lemma moved_rows_ok (dels inss v : IndexSet) d t :
  index_set_ok v -> index_set_ok dels -> index_set_ok inss -> mem dels d -> mem inss t ->
  exists v', moved_rows dels inss v = Ok v'.
Proof.
  intros Hok [_ Hd] [_ Hi] Md Mt. unfold moved_rows.
  destruct (ranges inss) as [|p l] eqn:Ei; [by apply has_nil in Mt|]. rewrite <- Ei in *.
  destruct (ranges dels) as [|q r] eqn:Eq; [by apply has_nil in Md|]. rewrite <- Eq in *.
  destruct (last (ranges inss)) as [pe|] eqn:El; [|rewrite Ei in El; by apply last_None in El].
  destruct (last (ranges dels)) as [qe|] eqn:Er; [|rewrite Eq in Er; by apply last_None in Er].
  assert (forall (w : list (Z * Z)) e, sorted w -> e ∈ w -> ok_range e) as Hr.
  { intros w e Hw. apply sorted_ok in Hw. rewrite Forall_forall in Hw. apply Hw. }
  pose proof (Hr _ p Hi ltac:(rewrite Ei; left)) as [? ?]. pose proof (Hr _ q Hd ltac:(rewrite Eq; left)) as [? ?].
  apply last_Some_elem_of in El, Er. pose proof (Hr _ _ Hi El) as [? ?]. pose proof (Hr _ _ Hd Er) as [? ?].
  edestruct add_shifted_rows_ok as (v' & E & _); [exact Hok| | |exists v'; exact E]; lia.
Qed.

Lemma nonempty_spec (v : IndexSet) :
  index_set_ok v ->
  (nonempty v = true /\ exists x, mem v x) \/ (nonempty v = false /\ forall x, ~ mem v x).
Proof.
  intros Hok. destruct (nonempty v) eqn:E; [left; split; [done|by apply members_nonempty]|right].
  apply nonempty_false in E as ->. split; [done|]. by intros x ?%has_nil.
Qed.

Lemma not_modified b cur m :
  (forall x, mem (modifications b) x <-> marked_at cur None x) ->
  (forall x, mem m x <-> mem (modifications b) x /\ ~ mem (insertions b) x) -> (forall x, ~ mem m x) ->
  forall x, marked_at cur None x -> mem (insertions b) x.
Proof.
  intros Hmarks Hm Hn x Hx. destruct (decide (mem (insertions b) x)); [done|].
  exfalso. apply (Hn x), Hm. by split; [apply Hmarks|].
Qed.

Lemma no_members_nil (v : IndexSet) : index_set_ok v -> (forall x, ~ mem v x) -> v = [].
Proof.
  intros Hok Hv. destruct (nonempty_spec v Hok) as [[_ (x & Hx)]|[Hn _]]; [by apply Hv in Hx|by apply nonempty_false].
Qed.

Lemma keep_no v old : (forall x, ~ mem v x) -> keep (ranges v) 0 old = old.
Proof. intros Hv. apply keep_all. intros x _. apply Hv. Qed.

(** A builder that is not empty, when there was no insertion and no modification of others. *)
Lemma only_deletions b old cur m :
  describes b old cur -> is_empty b = false -> modifications_new b = [] ->
  (forall x, mem m x <-> mem (modifications b) x /\ ~ mem (insertions b) x) ->
  (forall x, ~ mem (insertions b) x) -> (forall x, ~ mem m x) -> ~ forall x, ~ mem (deletions b) x.
Proof.
  intros Hd He Hn Hm Hi Hj Hk. pose proof (ds_marks_ok _ _ _ Hd None) as Hkok. cbn [marked] in Hkok.
  unfold is_empty in He. rewrite Hn, (no_members_nil _ (ds_deletions _ _ _ Hd) Hk), (no_members_nil _ (ds_insertions _ _ _ Hd) Hi) in He.
  rewrite (no_members_nil (modifications b)) in He; [|done|].
  - pose proof (moves_move _ _ _ Hd) as Hmv. destruct (moves b); [done|]. destruct (Hmv ltac:(done)) as (d & t & Hx & _).
    by apply Hk in Hx.
  - intros x Hx. apply (Hj x), Hm. by split.
Qed.

(** A change of one kind. *)
Lemma same_kind_told b old cur changes m :
  describes b old cur -> is_empty b = false -> modifications_new b = [] ->
  index_set_ok m -> (forall x, mem m x <-> mem (modifications b) x /\ ~ mem (insertions b) x) ->
  exists c,
    (if empty_count (insertions b) + empty_count m + empty_count (deletions b) <? 2
     then Ok (Column KSetAll (indices changes))
     else if nonempty (insertions b) then Ok (Column KInsert (insertions b))
     else if nonempty m then Ok (Column KSet m)
     else _ ← realm_assert (nonempty (deletions b)); Ok (Column KRemove (deletions b))) = Ok c /\
    column_told c old cur /\ (kind c = KSetAll -> several_kinds b cur).
Proof.
  intros Hd He Hn Hmok Hm. pose proof Hd as [Hdok Hiok Hkok Hold Hcur Hos Hcs Hkept Hmarks _ _ _ _].
  specialize (Hmarks None). cbn [marked] in Hmarks.
  pose proof (not_modified b cur m Hmarks Hm) as Hins. unfold empty_count, several_kinds.
  assert (forall x, mem m x <-> marked_at cur None x /\ ~ mem (insertions b) x) as Hm'.
  { intros x. by rewrite Hm, Hmarks. }
  destruct (nonempty_spec _ Hiok) as [[-> (i & Hi)]|[-> Hi]], (nonempty_spec _ Hmok) as [[-> (j & Hj)]|[-> Hj]],
    (nonempty_spec _ Hdok) as [[-> (k & Hk)]|[-> Hk]]; [..|by destruct (only_deletions b old cur m)];
    cbn; eexists; (split; [reflexivity|]); unfold column_told; cbn [kind indices]; (split; [|try done]);
    try (done || (intros _; naive_solver)).
  - rewrite <- Hkept, keep_no by done. by split; [|apply Hins].
  - rewrite !keep_no in Hkept by done. subst old. rewrite length_ids. by split_and!; [| |naive_solver].
  - rewrite Hkept, keep_no by done. split; [done|]. intros x Hx. by apply (Hi x), Hins.
Qed.

(** A move, as sets. *)
Lemma move_told b old cur m :
  describes b old cur -> index_set_ok m ->
  (forall x, mem m x <-> mem (modifications b) x /\ ~ mem (insertions b) x) ->
  moves b <> [] -> width (ranges (insertions b)) = Z.of_nat (length (moves b)) ->
  width (ranges (deletions b)) = Z.of_nat (length (moves b)) ->
  exists v, (v ← add_set m (deletions b); moved_rows (deletions b) (insertions b) v) = Ok v /\
    ((length (moves b) <= 1)%nat -> column_told (Column KSet v) old cur).
Proof.
  intros Hd Hmok Hm Hmv Hwi Hwd. pose proof Hd as [Hdok Hiok _ Hold Hcur Hos Hcs Hkept Hmarks _ _ _ _].
  specialize (Hmarks None). cbn [marked] in Hmarks.
  destruct (moves_move _ _ _ Hd Hmv) as (d & t & Md & Mt).
  destruct (add_set_spec m (deletions b) Hmok Hdok) as (v & -> & Hvok & Hv). cbn [mbind result_bind].
  destruct (decide (length (moves b) <= 1)%nat) as [Hl|Hl].
  2: { destruct (moved_rows_ok (deletions b) (insertions b) v d t) as [v' ->]; try done. exists v'. by split. }
  assert (length (moves b) = 1%nat) as E by (destruct (moves b); [done|cbn in *; lia]). rewrite E in Hwi, Hwd.
  pose proof (width_one _ _ (is_sorted _ Hiok) Hwi Mt) as Ei. pose proof (width_one _ _ (is_sorted _ Hdok) Hwd Md) as Ed.
  pose proof (mem_bounds _ _ Hiok Mt) as Bt. pose proof (mem_bounds _ _ Hdok Md) as Bd.
  destruct (one_move_rows (deletions b) (insertions b) v d t Ed Ei Hvok Bd Bt ltac:(apply Hv; by right)) as (v' & -> & _ & Hv').
  exists v'. split; [done|]. intros _. unfold column_told. cbn [kind indices].
  pose proof (describes_sizes _ _ _ Hd) as Hsz. assert (length old = length cur) as Hlen by lia.
  rewrite Ei, Ed in Hkept. split_and!; [done| |].
  - intros x Hx. apply (one_move_rest _ _ d t); [by rewrite length_ids|done..|]. intros ?. apply Hx, Hv'. by right.
  - intros x Hx. apply Hv'. destruct (decide (mem (insertions b) x)) as [Hi|Hi].
    + right. rewrite Ei, has_one in Hi. lia.
    + left. apply Hv. left. apply Hm. by split; [apply Hmarks|].
Qed.

(** C16: What observers are told of a list whose builder describes it: the column always gets a
    change, which, when at most one element moved, tells the truth about the list, and which is
    the change that says nothing only when the list was changed in several ways. *)
Theorem list_changes_are_told b old cur changes :
  describes b old cur -> is_empty b = false -> modifications_new b = [] ->
  exists c, column_change b changes = Ok c /\
    ((length (moves b) <= 1)%nat -> column_told c old cur) /\
    (kind c = KSetAll -> several_kinds b cur).
Proof.
  intros Hd He Hn. pose proof Hd as [Hdok Hiok Hkok Hold Hcur Hos Hcs Hkept Hmarks _ _ _ _].
  specialize (Hkok None). specialize (Hmarks None). cbn [marked] in Hkok, Hmarks.
  destruct (remove_set_spec (modifications b) (insertions b) Hkok Hiok) as (m & Em & Hmok & Hm).
  unfold column_change. rewrite Em. cbn [mbind result_bind].
  rewrite !count_width by (done || (eapply below_weak; [by eapply insertions_below || by eapply deletions_below|lia])).
  cbn [mbind result_bind].
  destruct (negb _ && _ && _) eqn:Emv.
  - apply andb_true_iff in Emv as [[Hn0 Hwi%Z.eqb_eq]%andb_true_iff Hwd%Z.eqb_eq].
    destruct (move_told b old cur m) as (v & Ev & Ht); try done; [by destruct (moves b)|].
    exists (Column KSet v). split; [|done]. revert Ev. destruct (add_set m (deletions b)); cbn; [|done].
    by intros ->.
  - destruct (same_kind_told b old cur changes m) as (c & Ec & Ht & Hk); [done..|]. by exists c.
Qed.
End column.

(** ** Samples *)

Definition five : list Z := [10; 11; 12; 13; 14].

Lemma list_changes_are_told_witness :
  let b := recorded [CMove 1 3; CModify 4 npos] five in
  exists c, @column_change max_size_debug b no_column_change = Ok c /\ as_indexes (indices c) = Ok [1; 2; 3; 4] /\
    column_told c five (apply_changes [CMove 1 3; CModify 4 npos] (fresh <$> five)).
Proof.
  intros b.
  destruct (@changes_steps max_size_debug Z [CMove 1 3; CModify 4 npos] empty_builder five (fresh <$> five))
    as (b' & E & Hd); [by apply describes_start|by_evaluation|].
  assert (b' = b) as -> by (vm_compute in E; injection E as <-; by vm_compute).
  destruct (@list_changes_are_told max_size_debug Z b five _ no_column_change Hd) as (c & Ec & Ht & _);
    [by vm_compute..|].
  exists c. split_and!; [done| |apply Ht; by_evaluation].
  vm_compute in Ec. injection Ec as <-. by vm_compute.
Defined.

(** Several moves: the loop that looks for the rows that were shifted leaves out rows that did
    not keep their element. *)
Theorem moved_rows_left_out :
  let b := recorded [CMove 4 0; CMove 2 0] five in
  let cur := apply_changes [CMove 4 0; CMove 2 0] (fresh <$> five) in
  (exists v, @column_change max_size_debug b no_column_change = Ok (Column KSet v) /\ as_indexes v = Ok [0; 1; 4]) /\
  nth_Z five 2 = Some 12 /\ nth_Z (ids cur) 2 = Some 10 /\ nth_Z five 3 = Some 13 /\ nth_Z (ids cur) 3 = Some 12.
Proof.
  cbn zeta. split; [|by vm_compute].
  destruct (@column_change _ _ _) as [[[] v]|] eqn:E; vm_compute in E; try done.
  injection E as <-. eexists. split; [reflexivity|by vm_compute].
Qed.
