(* ===== verification/NodeHeader.v ===== *)
(** The header of a node of the file format, [realm/node_header.hpp]: eight bytes that hold the
    capacity, the flags, the width and the size of the array that follows. *)

From S2P Require Import Prelude.

Definition max_array_size : Z := 0x00ffffff.
Definition max_array_payload_aligned : Z := 0x07ffffc0.

Inductive Type_ := type_Normal | type_InnerBptreeNode | type_HasRefs.
Inductive WidthType := wtype_Bits | wtype_Multiply | wtype_Ignore.

#[export] Instance Type_eq_dec : EqDecision Type_.
Proof. solve_decision. Defined.
#[export] Instance WidthType_eq_dec : EqDecision WidthType.
Proof. solve_decision. Defined.

Definition header_size : Z := 8.

(** The header: its bytes, between 0 and 255.  A [uchar] is what is left of an [int]. *)
Abbreviation Header := (list Z) (only parsing).
Definition uchar (x : Z) : Z := x mod 256.
Definition byte_at (h : Header) (i : nat) : Z := default 0 (h !! i).

Section getters.
Implicit Types h : Header.

Definition get_is_inner_bptree_node_from_header h : bool := negb (Z.land (byte_at h 4) 0x80 =? 0).
Definition get_hasrefs_from_header h : bool := negb (Z.land (byte_at h 4) 0x40 =? 0).
Definition get_context_flag_from_header h : bool := negb (Z.land (byte_at h 4) 0x20 =? 0).

(** [WidthType(n)]: 3 is not a value of the type, [None]. *)
Definition WidthType_of (n : Z) : option WidthType :=
  if n =? 0 then Some wtype_Bits else if n =? 1 then Some wtype_Multiply
  else if n =? 2 then Some wtype_Ignore else None.
Definition WidthType_value (t : WidthType) : Z :=
  match t with wtype_Bits => 0 | wtype_Multiply => 1 | wtype_Ignore => 2 end.

Definition get_wtype_from_header h : option WidthType := WidthType_of (Z.shiftr (Z.land (byte_at h 4) 0x18) 3).
Definition get_width_from_header h : Z := uchar (Z.shiftr (Z.shiftl 1 (Z.land (byte_at h 4) 0x07)) 1).
Definition get_size_from_header h : Z := Z.shiftl (byte_at h 5) 16 + Z.shiftl (byte_at h 6) 8 + byte_at h 7.
Definition get_capacity_from_header h : Z :=
  Z.shiftl (byte_at h 0) 19 + Z.shiftl (byte_at h 1) 11 + Z.shiftl (byte_at h 2) 3.

Definition get_type_from_header h : Type_ :=
  if get_is_inner_bptree_node_from_header h then type_InnerBptreeNode
  else if get_hasrefs_from_header h then type_HasRefs
  else type_Normal.

Definition set_is_inner_bptree_node_in_header (value : bool) h : Header :=
  <[4%nat := uchar (Z.lor (Z.land (byte_at h 4) (Z.lnot 0x80)) (Z.shiftl (Z.b2z value) 7))]> h.
Definition set_hasrefs_in_header (value : bool) h : Header :=
  <[4%nat := uchar (Z.lor (Z.land (byte_at h 4) (Z.lnot 0x40)) (Z.shiftl (Z.b2z value) 6))]> h.
Definition set_context_flag_in_header (value : bool) h : Header :=
  <[4%nat := uchar (Z.lor (Z.land (byte_at h 4) (Z.lnot 0x20)) (Z.shiftl (Z.b2z value) 5))]> h.
Definition set_wtype_in_header (value : WidthType) h : Header :=
  <[4%nat := uchar (Z.lor (Z.land (byte_at h 4) (Z.lnot 0x18)) (Z.shiftl (WidthType_value value) 3))]> h.

(** The loop that counts the bits of the width; an [int] has at most 31 of them. *)
Fixpoint width_bits (fuel : nat) (value w : Z) : Z :=
  match fuel with
  | O => w
  | S fuel => if value =? 0 then w else width_bits fuel (Z.shiftr value 1) (w + 1)
  end.

Definition set_width_in_header (value : Z) h : result Header :=
  let w := width_bits 32 value 0 in
  _ ← realm_assert (w <? 8);
  Ok (<[4%nat := uchar (Z.lor (Z.land (byte_at h 4) (Z.lnot 0x7)) w)]> h).

Definition set_size_in_header (value : Z) h : result Header :=
  _ ← realm_assert (value <=? max_array_size);
  Ok (<[7%nat := uchar (Z.land value 0xFF)]> (<[6%nat := uchar (Z.land (Z.shiftr value 8) 0xFF)]>
     (<[5%nat := uchar (Z.land (Z.shiftr value 16) 0xFF)]> h))).

Definition set_capacity_in_header (value : Z) h : result Header :=
  _ ← realm_assert (value <=? Z.shiftl 0xffffff 3);
  Ok (<[2%nat := uchar (Z.land (Z.shiftr value 3) 0xFF)]> (<[1%nat := uchar (Z.land (Z.shiftr value 11) 0xFF)]>
     (<[0%nat := uchar (Z.land (Z.shiftr value 19) 0xFF)]> h))).

Definition calc_byte_size (wtype : WidthType) (size width : Z) : result Z :=
  num_bytes ← match wtype with
              | wtype_Bits => _ ← realm_assert (size <? 0x1000000); Ok (Z.shiftr (u64 (u64 (size * width) + 7)) 3)
              | wtype_Multiply => Ok (u64 (size * width))
              | wtype_Ignore => Ok size
              end;
  Ok (u64 (Z.land (u64 (num_bytes + 7)) (Z.lnot 7) + header_size)).

(** [None] is a width type that is not one of the enumeration, for which no case is taken. *)
Definition get_byte_size_from_header h : result Z :=
  let size := get_size_from_header h in
  let width := get_width_from_header h in
  match get_wtype_from_header h with
  | Some wtype => calc_byte_size wtype size width
  | None => Ok (u64 (Z.land (u64 (0 + 7)) (Z.lnot 7) + header_size))
  end.
End getters.

(** ** What the bytes hold *)

Record Fields := {
  f_capacity : Z; f_inner : bool; f_hasrefs : bool; f_context : bool; f_wtype : option WidthType; f_width : Z; f_size : Z
}.

Definition fields (h : Header) : Fields := {|
  f_capacity := get_capacity_from_header h;
  f_inner := get_is_inner_bptree_node_from_header h;
  f_hasrefs := get_hasrefs_from_header h;
  f_context := get_context_flag_from_header h;
  f_wtype := get_wtype_from_header h;
  f_width := get_width_from_header h;
  f_size := get_size_from_header h
|}.

Definition is_byte (x : Z) : Prop := 0 <= x < 256.
Definition header_ok (h : Header) : Prop := length h = 8%nat /\ Forall is_byte h.

(** The widths of the format. *)
Definition widths : list Z := [0; 1; 2; 4; 8; 16; 32; 64].

Lemma byte_at_ok h i : header_ok h -> is_byte (byte_at h i).
Proof.
  intros [_ Hb]. unfold byte_at. destruct (h !! i) eqn:E; [|unfold is_byte; cbn; lia].
  rewrite Forall_lookup in Hb. by apply (Hb i).
Qed.

Lemma byte_at_insert h i x : (i < length h)%nat -> byte_at (<[i := x]> h) i = x.
Proof. intros Hi. unfold byte_at. by rewrite list_lookup_insert_eq. Qed.

Lemma byte_at_other h i j x : i <> j -> byte_at (<[i := x]> h) j = byte_at h j.
Proof. intros Hi. unfold byte_at. by rewrite list_lookup_insert_ne. Qed.

Lemma header_insert h i x : header_ok h -> is_byte x -> header_ok (<[i := x]> h).
Proof. intros [Hl Hb] Hx. split; [by rewrite length_insert|]. by apply Forall_insert. Qed.

Lemma uchar_byte x : is_byte (uchar x).
Proof. unfold is_byte, uchar. apply Z.mod_pos_bound. lia. Qed.

(** A property of all bytes, checked on each. *)
Definition all_bytes (P : Z -> bool) : bool := forallb P (seqZ 0 256).

Lemma all_bytes_spec P : all_bytes P = true -> forall x, is_byte x -> P x = true.
Proof. unfold all_bytes, is_byte. rewrite forallb_forall. intros HP x Hx. apply HP, list_elem_of_In, elem_of_seqZ. lia. Qed.

(** ** Changes of a header *)

Inductive edit :=
| SetCapacity (n : Z) | SetInner (b : bool) | SetHasRefs (b : bool) | SetContext (b : bool)
| SetWType (t : WidthType) | SetWidth (n : Z) | SetSize (n : Z).

Definition apply_edit (e : edit) (h : Header) : result Header :=
  match e with
  | SetCapacity n => set_capacity_in_header n h
  | SetInner b => Ok (set_is_inner_bptree_node_in_header b h)
  | SetHasRefs b => Ok (set_hasrefs_in_header b h)
  | SetContext b => Ok (set_context_flag_in_header b h)
  | SetWType t => Ok (set_wtype_in_header t h)
  | SetWidth n => set_width_in_header n h
  | SetSize n => set_size_in_header n h
  end.

(** What a header can hold: a capacity in units of eight bytes, a width of the format, a size of
    24 bits. *)
Definition valid_edit (e : edit) : Prop :=
  match e with
  | SetCapacity n => 0 <= n < 2 ^ 27 /\ n mod 8 = 0
  | SetWidth n => n ∈ widths
  | SetSize n => 0 <= n <= max_array_size
  | _ => True
  end.

#[export] Instance valid_edit_dec e : Decision (valid_edit e).
Proof. destruct e; cbn; apply _. Defined.

Definition edit_fields (e : edit) (f : Fields) : Fields :=
  match e with
  | SetCapacity n => {| f_capacity := n; f_inner := f_inner f; f_hasrefs := f_hasrefs f; f_context := f_context f;
                        f_wtype := f_wtype f; f_width := f_width f; f_size := f_size f |}
  | SetInner b => {| f_capacity := f_capacity f; f_inner := b; f_hasrefs := f_hasrefs f; f_context := f_context f;
                     f_wtype := f_wtype f; f_width := f_width f; f_size := f_size f |}
  | SetHasRefs b => {| f_capacity := f_capacity f; f_inner := f_inner f; f_hasrefs := b; f_context := f_context f;
                       f_wtype := f_wtype f; f_width := f_width f; f_size := f_size f |}
  | SetContext b => {| f_capacity := f_capacity f; f_inner := f_inner f; f_hasrefs := f_hasrefs f; f_context := b;
                       f_wtype := f_wtype f; f_width := f_width f; f_size := f_size f |}
  | SetWType t => {| f_capacity := f_capacity f; f_inner := f_inner f; f_hasrefs := f_hasrefs f; f_context := f_context f;
                     f_wtype := Some t; f_width := f_width f; f_size := f_size f |}
  | SetWidth n => {| f_capacity := f_capacity f; f_inner := f_inner f; f_hasrefs := f_hasrefs f; f_context := f_context f;
                     f_wtype := f_wtype f; f_width := n; f_size := f_size f |}
  | SetSize n => {| f_capacity := f_capacity f; f_inner := f_inner f; f_hasrefs := f_hasrefs f; f_context := f_context f;
                    f_wtype := f_wtype f; f_width := f_width f; f_size := n |}
  end.

(** The fields that byte 4 holds. *)
Definition flags_of (b : Z) : bool * bool * bool * option WidthType * Z :=
  let h := [0; 0; 0; 0; b; 0; 0; 0] in
  (get_is_inner_bptree_node_from_header h, get_hasrefs_from_header h, get_context_flag_from_header h,
   get_wtype_from_header h, get_width_from_header h).

Lemma fields_flags h : header_ok h ->
  (f_inner (fields h), f_hasrefs (fields h), f_context (fields h), f_wtype (fields h), f_width (fields h)) =
  flags_of (byte_at h 4).
Proof. done. Qed.

(** A change of byte 4 alone. *)
Lemma flags_change h b f' :
  header_ok h ->
  flags_of b = (f_inner f', f_hasrefs f', f_context f', f_wtype f', f_width f') ->
  f_capacity f' = f_capacity (fields h) -> f_size f' = f_size (fields h) ->
  fields (<[4%nat := b]> h) = f'.
Proof.
  intros Hok Hf Hc Hs. destruct Hok as [Hl _]. destruct f' as [c i r x t w s]. cbn in Hc, Hs, Hf. subst.
  unfold fields. rewrite <- (byte_at_insert h 4 b) in Hf by lia. injection Hf as <- <- <- <- <-.
  unfold get_capacity_from_header, get_size_from_header. by rewrite !byte_at_other by done.
Qed.

Definition edited_flags (e : edit) (b : Z) : Z :=
  match e with
  | SetInner v => uchar (Z.lor (Z.land b (Z.lnot 0x80)) (Z.shiftl (Z.b2z v) 7))
  | SetHasRefs v => uchar (Z.lor (Z.land b (Z.lnot 0x40)) (Z.shiftl (Z.b2z v) 6))
  | SetContext v => uchar (Z.lor (Z.land b (Z.lnot 0x20)) (Z.shiftl (Z.b2z v) 5))
  | SetWType t => uchar (Z.lor (Z.land b (Z.lnot 0x18)) (Z.shiftl (WidthType_value t) 3))
  | SetWidth n => uchar (Z.lor (Z.land b (Z.lnot 0x7)) (width_bits 32 n 0))
  | _ => b
  end.

Definition flag_edits : list edit :=
  (SetInner <$> [true; false]) ++ (SetHasRefs <$> [true; false]) ++ (SetContext <$> [true; false]) ++
  (SetWType <$> [wtype_Bits; wtype_Multiply; wtype_Ignore]) ++ (SetWidth <$> widths).

Definition edited_ok (e : edit) (b : Z) : bool :=
  let '(i, r, x, t, w) := flags_of b in
  let f := edit_fields e {| f_capacity := 0; f_inner := i; f_hasrefs := r; f_context := x; f_wtype := t; f_width := w; f_size := 0 |} in
  bool_decide (flags_of (edited_flags e b) = (f_inner f, f_hasrefs f, f_context f, f_wtype f, f_width f)).

Lemma flags_edited e b : e ∈ flag_edits -> is_byte b -> edited_ok e b = true.
Proof.
  intros He Hb. assert (forallb (fun e => all_bytes (edited_ok e)) flag_edits = true) as H by by vm_compute.
  rewrite forallb_forall in H. apply (all_bytes_spec (edited_ok e)); [|done]. by apply H, list_elem_of_In.
Qed.

Lemma edit_flags e h :
  header_ok h -> e ∈ flag_edits -> fields (<[4%nat := edited_flags e (byte_at h 4)]> h) = edit_fields e (fields h).
Proof.
  intros Hok He. pose proof (flags_edited e (byte_at h 4) He (byte_at_ok h 4 Hok)) as H. unfold edited_ok in H.
  rewrite <- fields_flags in H by done. apply bool_decide_eq_true in H.
  apply flags_change; [done| | |];
    unfold flag_edits in He; repeat (apply elem_of_app in He as [He|He] || apply list_elem_of_fmap in He as (? & -> & He)); done.
Qed.

(** Three bytes of a number of 24 bits. *)
Lemma three_bytes n :
  0 <= n < 2 ^ 24 ->
  uchar (Z.land (Z.shiftr n 16) 0xFF) * 2 ^ 16 + uchar (Z.land (Z.shiftr n 8) 0xFF) * 2 ^ 8 + uchar (Z.land n 0xFF) = n.
Proof.
  intros Hn. unfold uchar. change 0xFF with (2 ^ 8 - 1). rewrite !land_ones_mod, !Z.shiftr_div_pow2 by lia.
  change 256 with (2 ^ 8). rewrite !Zmod_mod. change (2 ^ 16) with (2 ^ 8 * 2 ^ 8). rewrite <- Z.div_div by lia.
  change (2 ^ 8) with 256 in *. change (2 ^ 24) with (256 * 256 * 256) in Hn.
  assert (n / 256 / 256 < 256) by (repeat apply Z.div_lt_upper_bound; lia).
  rewrite (Z.mod_small (n / 256 / 256)) by (split; [repeat apply Z.div_pos; lia|done]).
  pose proof (Z.div_mod n 256). pose proof (Z.div_mod (n / 256) 256). lia.
Qed.

(** The fields of a header of which bytes are written, as those of the header before. *)
Ltac written_fields :=
  unfold fields, edit_fields; cbn [f_capacity f_inner f_hasrefs f_context f_wtype f_width f_size];
  unfold get_capacity_from_header, get_is_inner_bptree_node_from_header, get_hasrefs_from_header,
    get_context_flag_from_header, get_wtype_from_header, get_width_from_header, get_size_from_header;
  repeat match goal with
  | |- context [byte_at (<[?i := ?x]> ?h) ?i] => rewrite (byte_at_insert h i x) by (rewrite ?length_insert; lia)
  | |- context [byte_at (<[?i := ?x]> ?h) ?j] => rewrite (byte_at_other h i j x) by done
  end.

Lemma edit_size h n : header_ok h -> 0 <= n <= max_array_size ->
  exists h', set_size_in_header n h = Ok h' /\ header_ok h' /\ fields h' = edit_fields (SetSize n) (fields h).
Proof.
  intros Hok Hn. unfold max_array_size in Hn. unfold set_size_in_header.
  rewrite (proj2 (Z.leb_le _ _)) by (unfold max_array_size; lia).
  eexists. split; [reflexivity|]. pose proof Hok as [Hl _]. split; [by repeat (apply header_insert; [|apply uchar_byte])|].
  written_fields. f_equal. rewrite !Z.shiftl_mul_pow2 by lia. apply three_bytes. lia.
Qed.

Lemma edit_capacity h n : header_ok h -> 0 <= n < 2 ^ 27 -> n mod 8 = 0 ->
  exists h', set_capacity_in_header n h = Ok h' /\ header_ok h' /\ fields h' = edit_fields (SetCapacity n) (fields h).
Proof.
  intros Hok Hn H8. unfold set_capacity_in_header.
  pose proof (Z.div_mod n 8 ltac:(lia)) as E. rewrite H8, Z.add_0_r in E. set (k := n / 8) in *.
  assert (0 <= k < 2 ^ 24) as Hk by (change (2 ^ 27) with (8 * 2 ^ 24) in Hn; lia).
  rewrite (proj2 (Z.leb_le _ _)) by (change (Z.shiftl 0xffffff 3) with (8 * (2 ^ 24 - 1)); lia).
  eexists. split; [reflexivity|]. pose proof Hok as [Hl _]. split; [by repeat (apply header_insert; [|apply uchar_byte])|].
  assert (Z.shiftr n 3 = k) as -> by by rewrite Z.shiftr_div_pow2.
  assert (forall i, 0 <= i -> Z.shiftr n (3 + i) = Z.shiftr k i) as Hs.
  { intros i Hi. rewrite <- Z.shiftr_shiftr by lia. f_equal. by rewrite Z.shiftr_div_pow2. }
  pose proof (Hs 16 ltac:(lia)) as H16. pose proof (Hs 8 ltac:(lia)) as H11.
  change (3 + 16) with 19 in H16. change (3 + 8) with 11 in H11. rewrite H16, H11. clear Hs H16 H11.
  written_fields. f_equal. rewrite !Z.shiftl_mul_pow2 by lia. pose proof (three_bytes k Hk). lia.
Qed.

(** C20: Every field of a node header reads back what was written to it, and writing one leaves
    the others as they were: capacity, flags, width type, width and size share eight bytes
    without overlapping. *)
Theorem header_edits_exact h e :
  header_ok h -> valid_edit e ->
  exists h', apply_edit e h = Ok h' /\ header_ok h' /\ fields h' = edit_fields e (fields h).
Proof.
  intros Hok Hv. destruct e as [n|b|b|b|t|n|n]; cbn [apply_edit valid_edit] in *.
  1: by destruct Hv; apply edit_capacity.
  6: by apply edit_size.
  5: unfold set_width_in_header; rewrite (proj2 (Z.ltb_lt _ _)) by
       (unfold widths in Hv; repeat (apply elem_of_cons in Hv as [->|Hv]; [done|]); by apply not_elem_of_nil in Hv).
  all: eexists; (split; [reflexivity|]); (split; [by apply header_insert, uchar_byte|]).
  - apply (edit_flags (SetInner b)); [done|destruct b; set_solver].
  - apply (edit_flags (SetHasRefs b)); [done|destruct b; set_solver].
  - apply (edit_flags (SetContext b)); [done|destruct b; set_solver].
  - apply (edit_flags (SetWType t)); [done|destruct t; set_solver].
  - apply (edit_flags (SetWidth n)); [done|]. unfold flag_edits. rewrite !elem_of_app. do 4 right. by apply list_elem_of_fmap_2.
Qed.

Lemma header_edits_exact_witness :
  exists h', apply_edit (SetWidth 16) [0; 0; 3; 0; 0x41; 0; 0; 5] = Ok h' /\ header_ok h' /\
    fields h' = {| f_capacity := 24; f_inner := false; f_hasrefs := true; f_context := false;
                   f_wtype := Some wtype_Bits; f_width := 16; f_size := 5 |}.
Proof. apply (header_edits_exact [0; 0; 3; 0; 0x41; 0; 0; 5] (SetWidth 16)); apply (bool_decide_unpack _); by vm_compute. Defined.

Lemma align_8 x : Z.land x (Z.lnot 7) = 8 * (x / 8).
Proof.
  rewrite <- Z.ldiff_land. change 7 with (Z.ones 3). rewrite Z.ldiff_ones_r by lia.
  rewrite Z.shiftl_mul_pow2, Z.shiftr_div_pow2 by lia. change (2 ^ 3) with 8. lia.
Qed.

(** The size in bytes of a node: the payload, rounded up to eight bytes, after the header. *)
Theorem byte_size_exact wtype size width :
  0 <= size <= max_array_size -> width ∈ widths ->
  exists n payload, calc_byte_size wtype size width = Ok n /\ n mod 8 = 0 /\ 0 <= n - header_size - payload < 8 /\
    match wtype with
    | wtype_Bits => size * width <= 8 * payload < size * width + 8
    | wtype_Multiply => payload = size * width
    | wtype_Ignore => payload = size
    end.
Proof.
  intros Hs Hw. unfold max_array_size in Hs.
  assert (0 <= width <= 64) as Hb.
  { unfold widths in Hw. repeat (apply elem_of_cons in Hw as [->|Hw]; [lia|]). by apply not_elem_of_nil in Hw. }
  assert (0 <= size * width <= 2 ^ 30) as Hp by nia. clear Hw.
  assert (forall p, 0 <= p <= 2 ^ 31 -> u64 (Z.land (u64 (p + 7)) (Z.lnot 7) + header_size) = 8 * ((p + 7) / 8) + 8) as Ha.
  { intros p Hp'. rewrite (u64_small (p + 7)) by (unfold word_size; lia). rewrite align_8.
    pose proof (Z.mul_div_le (p + 7) 8 ltac:(lia)). pose proof (Z.div_pos (p + 7) 8).
    apply u64_small. unfold header_size, word_size. lia. }
  assert (forall p, 0 <= 8 * ((p + 7) / 8) + 8 - header_size - p < 8) as Hr.
  { intros p. unfold header_size. pose proof (Z.div_mod (p + 7) 8 ltac:(lia)).
    pose proof (Z.mod_pos_bound (p + 7) 8 ltac:(lia)). lia. }
  assert (forall p, (8 * ((p + 7) / 8) + 8) mod 8 = 0) as Hm.
  { intros p. replace (8 * ((p + 7) / 8) + 8) with (((p + 7) / 8 + 1) * 8) by lia. by apply Z.mod_mul. }
  unfold calc_byte_size. destruct wtype; cbn [mbind result_bind].
  - rewrite (proj2 (Z.ltb_lt _ _)) by lia. cbn [realm_assert mbind result_bind].
    rewrite (u64_small (size * width)), (u64_small (size * width + 7)), Z.shiftr_div_pow2 by (unfold word_size; lia). change (2 ^ 3) with 8.
    pose proof (Z.div_mod (size * width + 7) 8 ltac:(lia)). pose proof (Z.mod_pos_bound (size * width + 7) 8 ltac:(lia)).
    rewrite Ha by lia. eexists _, ((size * width + 7) / 8). split_and!; [done|apply Hm|apply Hr|apply Hr|nia..].
  - rewrite (u64_small (size * width)), Ha by (unfold word_size; lia). eexists _, _. split_and!; try done; apply Hr.
  - rewrite Ha by lia. eexists _, size. split_and!; try done; apply Hr.
Qed.
