(* ===== verification/PackedArray.v ===== *)
(** Packed integers, [realm/array_direct.hpp] and [Array::get_universal] of [realm/array.hpp]:
    an array of integers of 0, 1, 2, 4, 8, 16, 32 or 64 bits, those of up to 4 bits unsigned and
    several to a byte, the others signed.

    Memory is a list of bytes, with an access out of it an error; integers of several bytes
    are read and written in little-endian order.  A [char] may be signed or not, as platforms
    differ.  The [REALM_ASSERT_DEBUG]s are not part of a release build and not of the model. *)

From S2P Require Import Prelude NodeHeader.

(** ** Bytes *)

Fixpoint le_value (data : list Z) : Z :=
  match data with
  | [] => 0
  | b :: data => b + 256 * le_value data
  end.

Fixpoint le_bytes (n : nat) (v : Z) : list Z :=
  match n with
  | O => []
  | S n => v mod 256 :: le_bytes n (v / 256)
  end.

(** The value of the low [w] bits as a signed integer. *)
Definition sext (w v : Z) : Z := let u := v mod 2 ^ w in if u <? 2 ^ (w - 1) then u else u - 2 ^ w.

(** The integer of [n] bytes at an offset. *)
Definition read_le (data : list Z) (off n : Z) : result Z :=
  if (0 <=? off) && (off + n <=? Z.of_nat (length data))
  then Ok (le_value (take (Z.to_nat n) (drop (Z.to_nat off) data)))
  else Err OutOfBounds.

Definition write_le (data : list Z) (off n v : Z) : result (list Z) :=
  if (0 <=? off) && (off + n <=? Z.of_nat (length data))
  then Ok (take (Z.to_nat off) data ++ le_bytes (Z.to_nat n) v ++ drop (Z.to_nat (off + n)) data)
  else Err OutOfBounds.

(** ** Access to elements *)

Section access.
Context (char_is_signed : bool).

Definition read_char (data : list Z) (off : Z) : result Z :=
  c ← read_le data off 1; Ok (if char_is_signed then sext 8 c else c).

(** [get_direct] and [Array::get_universal], which are the same. *)
Definition get_direct (w : Z) (data : list Z) (ndx : Z) : result Z :=
  if w =? 0 then Ok 0
  else if w =? 1 then c ← read_char data (Z.shiftr ndx 3); Ok (Z.land (Z.shiftr c (Z.land ndx 7)) 0x01)
  else if w =? 2 then c ← read_char data (Z.shiftr ndx 2); Ok (Z.land (Z.shiftr c (Z.shiftl (Z.land ndx 3) 1)) 0x03)
  else if w =? 4 then c ← read_char data (Z.shiftr ndx 1); Ok (Z.land (Z.shiftr c (Z.shiftl (Z.land ndx 1) 2)) 0x0F)
  else if w =? 8 then c ← read_le data ndx 1; Ok (sext 8 c)
  else if w =? 16 then c ← read_le data (ndx * 2) 2; Ok (sext 16 c)
  else if w =? 32 then c ← read_le data (ndx * 4) 4; Ok (sext 32 c)
  else if w =? 64 then c ← read_le data (ndx * 8) 8; Ok (sext 64 c)
  else Ok (-1).

(** The bits of a byte that an element occupies. *)
Definition set_bits (data : list Z) (byte_ndx bit_ndx mask value : Z) : result (list Z) :=
  p ← read_le data byte_ndx 1;
  write_le data byte_ndx 1
    (uchar (Z.lor (Z.land p (Z.lnot (Z.shiftl mask bit_ndx))) (Z.shiftl (Z.land value mask) bit_ndx))).

Definition set_direct (w : Z) (data : list Z) (ndx value : Z) : result (list Z) :=
  if w =? 0 then Ok data
  else if w =? 1 then set_bits data (ndx / 8) (ndx mod 8) 0x01 value
  else if w =? 2 then set_bits data (ndx / 4) (ndx mod 4 * 2) 0x03 value
  else if w =? 4 then set_bits data (ndx / 2) (ndx mod 2 * 4) 0x0F value
  else if w =? 8 then write_le data ndx 1 value
  else if w =? 16 then write_le data (ndx * 2) 2 value
  else if w =? 32 then write_le data (ndx * 4) 4 value
  else if w =? 64 then write_le data (ndx * 8) 8 value
  else Ok data.

(** The loop runs while [begin != end]: [n] is how often. *)
Fixpoint fill_loop (n : nat) (w : Z) (data : list Z) (i value : Z) : result (list Z) :=
  match n with
  | O => Ok data
  | S n => data ← set_direct w data i value; fill_loop n w data (i + 1) value
  end.
Definition fill_direct (w : Z) (data : list Z) (begin end_ value : Z) : result (list Z) :=
  fill_loop (Z.to_nat (end_ - begin)) w data begin value.

Definition get_two (w : Z) (data : list Z) (ndx : Z) : result (Z * Z) :=
  a ← get_direct w data ndx;
  b ← get_direct w data (ndx + 1);
  Ok (u64 a, u64 b).

Definition get_three (w : Z) (data : list Z) (ndx : Z) : result (Z * Z * Z) :=
  a ← get_direct w data ndx;
  b ← get_direct w data (ndx + 1);
  c ← get_direct w data (ndx + 2);
  Ok (u64 a, u64 b, u64 c).
End access.

(** ** The bits of memory *)

Definition bytes_ok (data : list Z) : Prop := Forall is_byte data.

Lemma byte_at_cons b data i : byte_at (b :: data) (S i) = byte_at data i.
Proof. done. Qed.

Lemma is_byte_bits b k : is_byte b -> 8 <= k -> Z.testbit b k = false.
Proof.
  intros Hb Hk. apply Z.bits_above_log2; [unfold is_byte in Hb; lia|].
  apply Z.lt_le_trans with 8; [|done]. destruct (decide (b = 0)) as [->|]; [done|].
  apply Z.log2_lt_pow2; unfold is_byte in Hb; lia.
Qed.

Lemma le_value_nonneg data : bytes_ok data -> 0 <= le_value data.
Proof. induction 1 as [|b data Hb _ IH]; [done|]. cbn [le_value]. unfold is_byte in Hb. lia. Qed.

Lemma le_value_cons_bits b data k :
  is_byte b -> 0 <= k ->
  Z.testbit (b + 256 * le_value data) k = if decide (k < 8) then Z.testbit b k else Z.testbit (le_value data) (k - 8).
Proof.
  intros Hb Hk. change 256 with (2 ^ 8). rewrite (Z.mul_comm (2 ^ 8)), <- lor_low_high, Z.lor_spec by (unfold is_byte in Hb; lia).
  case_decide as H8.
  - rewrite Z.mul_pow2_bits_low by lia. apply orb_false_r.
  - rewrite is_byte_bits, Z.mul_pow2_bits by (done || lia). done.
Qed.

Lemma le_value_bits data k :
  bytes_ok data -> 0 <= k -> Z.testbit (le_value data) k = Z.testbit (byte_at data (Z.to_nat (k / 8))) (k mod 8).
Proof.
  intros Hb. revert k. induction Hb as [|b data Hb _ IH]; intros k Hk; [by rewrite Z.bits_0; unfold byte_at; rewrite lookup_nil, Z.bits_0|].
  cbn [le_value]. rewrite le_value_cons_bits by done. case_decide as H8.
  - rewrite Z.div_small, Z.mod_small by lia. done.
  - rewrite IH by lia. pose proof (Z.div_mod k 8 ltac:(lia)). pose proof (Z.mod_pos_bound k 8 ltac:(lia)).
    replace ((k - 8) mod 8) with (k mod 8) by (replace k with (k - 8 + 1 * 8) at 1 by lia; by rewrite Z_mod_plus_full).
    replace ((k - 8) / 8) with (k / 8 - 1) by (replace (k / 8) with ((k - 8 + 1 * 8) / 8) by (f_equal; lia); rewrite Z_div_plus_full; lia).
    replace (Z.to_nat (k / 8)) with (S (Z.to_nat (k / 8 - 1))) by lia. done.
Qed.

Lemma le_value_app l1 l2 : le_value (l1 ++ l2) = le_value l1 + 2 ^ (8 * Z.of_nat (length l1)) * le_value l2.
Proof.
  induction l1 as [|b l1 IH]; [by cbn; destruct (le_value l2)|]. cbn [app le_value length].
  rewrite IH. replace (8 * Z.of_nat (S (length l1))) with (8 + 8 * Z.of_nat (length l1)) by lia.
  rewrite Z.pow_add_r by lia. change (2 ^ 8) with 256. ring.
Qed.

Lemma le_value_bound data : bytes_ok data -> 0 <= le_value data < 2 ^ (8 * Z.of_nat (length data)).
Proof.
  induction 1 as [|b data Hb _ IH]; [done|]. cbn [le_value length]. unfold is_byte in Hb.
  replace (8 * Z.of_nat (S (length data))) with (8 + 8 * Z.of_nat (length data)) by lia.
  rewrite Z.pow_add_r by lia. change (2 ^ 8) with 256. lia.
Qed.

Lemma read_le_spec data off n :
  bytes_ok data -> 0 <= off -> 0 <= n -> off + n <= Z.of_nat (length data) ->
  read_le data off n = Ok (Z.shiftr (le_value data) (8 * off) mod 2 ^ (8 * n)).
Proof.
  intros Hb Ho Hn Hl. unfold read_le. rewrite (proj2 (Z.leb_le _ _)), (proj2 (Z.leb_le _ _)) by lia. cbn [andb]. f_equal.
  rewrite <- (take_drop (Z.to_nat off) data) at 2.
  set (pre := take (Z.to_nat off) data). set (post := drop (Z.to_nat off) data).
  assert (bytes_ok pre) as Hpre by by apply Forall_take. assert (bytes_ok post) as Hpost by by apply Forall_drop.
  assert (Z.of_nat (length pre) = off) as Hlp by (unfold pre; rewrite length_take; lia).
  rewrite le_value_app, Hlp, Z.shiftr_div_pow2, Z.mul_comm, Z_div_plus by (try apply Z.lt_gt, pow2_pos; lia).
  pose proof (le_value_bound pre Hpre) as B. rewrite Hlp in B. rewrite (Z.div_small (le_value pre)), Z.add_0_l by done.
  rewrite <- (take_drop (Z.to_nat n) post) at 2.
  set (a := take (Z.to_nat n) post). set (b := drop (Z.to_nat n) post).
  assert (bytes_ok a) as Ha by by apply Forall_take.
  assert (Z.of_nat (length a) = n) as Hla by (unfold a, post; rewrite length_take, length_drop; lia).
  pose proof (le_value_bound a Ha) as Ba. rewrite Hla in Ba.
  rewrite le_value_app, Hla, Z.mul_comm, Z_mod_plus_full. by rewrite Z.mod_small.
Qed.

(** ** Elements

    The value of the [ndx]-th element of [w] bits of memory that holds the number [m]. *)

Definition field (w m ndx : Z) : Z := Z.shiftr m (w * ndx) mod 2 ^ w.
Definition element (w m ndx : Z) : Z := if w <=? 4 then field w m ndx else sext w (field w m ndx).

Lemma field_bits w m ndx j :
  0 <= w -> 0 <= ndx -> 0 <= j -> Z.testbit (field w m ndx) j = (j <? w) && Z.testbit m (w * ndx + j).
Proof.
  intros Hw Hn Hj. unfold field. rewrite Z.testbit_mod_pow2, Z.shiftr_spec by lia. do 2 f_equal. lia.
Qed.

Lemma field_bounds w m ndx : 0 <= w -> 0 <= field w m ndx < 2 ^ w.
Proof. intros Hw. apply Z.mod_pos_bound, pow2_pos. done. Qed.

Lemma sext_bits8 c j : is_byte c -> 0 <= j < 8 -> Z.testbit (sext 8 c) j = Z.testbit c j.
Proof.
  intros Hc Hj. unfold sext. change (2 ^ 8) with 256. rewrite Z.mod_small by done.
  destruct (c <? _); [done|]. change 256 with (2 ^ 8).
  rewrite <- (Z.mod_pow2_bits_low (c - 2 ^ 8) 8 j) by lia.
  replace (c - 2 ^ 8) with (c + (-1) * 2 ^ 8) by lia. rewrite Z_mod_plus_full. by rewrite Z.mod_pow2_bits_low by lia.
Qed.

(** The bits of a byte that hold an element. *)
Lemma read_char_field char_is_signed data ndx w k off s :
  bytes_ok data -> 0 < w -> 0 <= off -> 0 <= s -> s + w <= 8 -> w * ndx = 8 * off + s -> 0 <= ndx -> off < Z.of_nat (length data) ->
  k = 2 ^ w - 1 ->
  (c ← read_char char_is_signed data off; Ok (Z.land (Z.shiftr c s) k)) = Ok (field w (le_value data) ndx).
Proof.
  intros Hb Hw Ho Hs Hsw E Hn Hl ->. unfold read_char. rewrite read_le_spec by (done || lia). cbn [mbind result_bind]. f_equal.
  set (c := _ mod _). assert (is_byte c) as Hc by (unfold is_byte, c; change (2 ^ (8 * 1)) with 256; apply Z.mod_pos_bound; lia).
  apply Z.bits_inj'. intros j Hj. rewrite field_bits by lia. rewrite land_ones_mod, Z.testbit_mod_pow2, Z.shiftr_spec by lia.
  destruct (Z.ltb_spec j w); [|done]. cbn [andb].
  transitivity (Z.testbit c (j + s)).
  - destruct char_is_signed; [|done]. apply sext_bits8; [done|lia].
  - unfold c. rewrite Z.testbit_mod_pow2, Z.shiftr_spec by lia. rewrite (proj2 (Z.ltb_lt _ _)) by lia. cbn. f_equal. lia.
Qed.

Lemma read_le_field data ndx w n :
  bytes_ok data -> 0 < n -> 8 * n = w -> 0 <= ndx -> w * (ndx + 1) <= 8 * Z.of_nat (length data) ->
  (c ← read_le data (ndx * n) n; Ok (sext w c)) = Ok (sext w (field w (le_value data) ndx)).
Proof.
  intros Hb Hn Hw Hi Hl. rewrite read_le_spec by (done || nia). cbn [mbind result_bind]. unfold field. rewrite <- Hw. do 3 f_equal. f_equal. lia.
Qed.

Lemma get_direct_spec char_is_signed w data ndx :
  w ∈ widths -> bytes_ok data -> 0 <= ndx -> w * (ndx + 1) <= 8 * Z.of_nat (length data) ->
  get_direct char_is_signed w data ndx = Ok (element w (le_value data) ndx).
Proof.
  intros Hw Hb Hi Hl. unfold widths in Hw. unfold get_direct, element.
  pose proof (Z.div_mod ndx 8 ltac:(lia)). pose proof (Z.mod_pos_bound ndx 8 ltac:(lia)).
  pose proof (Z.div_mod ndx 4 ltac:(lia)). pose proof (Z.mod_pos_bound ndx 4 ltac:(lia)).
  pose proof (Z.div_mod ndx 2 ltac:(lia)). pose proof (Z.mod_pos_bound ndx 2 ltac:(lia)).
  repeat (apply elem_of_cons in Hw as [->|Hw]); [..|by apply not_elem_of_nil in Hw]; cbn [Z.eqb Pos.eqb Z.leb Z.compare Pos.compare Pos.compare_cont].
  1: unfold field; cbn; by rewrite Z.mod_1_r.
  all: try (rewrite <- (Z.mul_1_r ndx) at 1; by apply read_le_field); try by apply read_le_field.
  all: replace (Z.land ndx 7) with (ndx mod 8) by (symmetry; apply (land_ones_mod ndx 3); lia);
    replace (Z.land ndx 3) with (ndx mod 4) by (symmetry; apply (land_ones_mod ndx 2); lia);
    replace (Z.land ndx 1) with (ndx mod 2) by (symmetry; apply (land_ones_mod ndx 1); lia);
    apply read_char_field; rewrite ?Z.shiftr_div_pow2, ?Z.shiftl_mul_pow2 by lia; try done;
    change (2 ^ 3) with 8; change (2 ^ 2) with 4; change (2 ^ 1) with 2; lia.
Qed.

(** ** Writing *)

Lemma le_value_app_bits l1 l2 k :
  bytes_ok l1 -> 0 <= k ->
  Z.testbit (le_value (l1 ++ l2)) k =
  if decide (k < 8 * Z.of_nat (length l1)) then Z.testbit (le_value l1) k
  else Z.testbit (le_value l2) (k - 8 * Z.of_nat (length l1)).
Proof.
  intros H1 Hk. pose proof (le_value_bound l1 H1) as B. set (n := 8 * Z.of_nat (length l1)) in *.
  rewrite le_value_app. fold n. rewrite Z.mul_comm, <- lor_low_high, Z.lor_spec by lia.
  case_decide.
  - rewrite Z.mul_pow2_bits_low by lia. apply orb_false_r.
  - rewrite Z.mul_pow2_bits by lia. destruct (decide (le_value l1 = 0)) as [->|]; [by rewrite Z.bits_0|].
    rewrite Z.bits_above_log2; [done|lia|]. apply Z.lt_le_trans with n; [|lia]. apply Z.log2_lt_pow2; lia.
Qed.

Lemma le_bytes_ok n v : bytes_ok (le_bytes n v).
Proof. revert v. induction n as [|n IH]; intros v; constructor; [apply uchar_byte|apply IH]. Qed.

Lemma length_le_bytes n v : length (le_bytes n v) = n.
Proof. revert v. induction n as [|n IH]; intros v; cbn; by rewrite ?IH. Qed.

Lemma le_value_bytes n v : le_value (le_bytes n v) = v mod 2 ^ (8 * Z.of_nat n).
Proof.
  revert v. induction n as [|n IH]; intros v; [by rewrite Z.mod_1_r|]. cbn [le_bytes le_value]. rewrite IH.
  replace (8 * Z.of_nat (S n)) with (8 + 8 * Z.of_nat n) by lia. rewrite Z.pow_add_r by lia.
  rewrite Z.rem_mul_r by (try apply pow2_pos; lia). done.
Qed.

Lemma write_le_spec data off n v :
  bytes_ok data -> 0 <= off -> 0 <= n -> off + n <= Z.of_nat (length data) ->
  exists data', write_le data off n v = Ok data' /\ length data' = length data /\ bytes_ok data' /\
    forall k, 0 <= k -> Z.testbit (le_value data') k =
      if decide (8 * off <= k < 8 * (off + n)) then Z.testbit v (k - 8 * off) else Z.testbit (le_value data) k.
Proof.
  intros Hb Ho Hn Hl. unfold write_le. rewrite (proj2 (Z.leb_le _ _)), (proj2 (Z.leb_le _ _)) by lia. cbn [andb].
  eexists. split; [reflexivity|].
  set (pre := take (Z.to_nat off) data). set (post := drop (Z.to_nat (off + n)) data).
  set (mid := take (Z.to_nat n) (drop (Z.to_nat off) data)).
  assert (data = pre ++ mid ++ post) as E.
  { unfold pre, mid, post. rewrite <- (take_drop (Z.to_nat off) data) at 1. f_equal.
    rewrite <- (take_drop (Z.to_nat n) (drop (Z.to_nat off) data)) at 1. f_equal. rewrite drop_drop. f_equal. lia. }
  assert (Z.of_nat (length pre) = off) as Lp by (unfold pre; rewrite length_take; lia).
  assert (Z.of_nat (length mid) = n) as Lm by (unfold mid; rewrite length_take, length_drop; lia).
  assert (bytes_ok pre /\ bytes_ok mid /\ bytes_ok post) as (Bp & Bm & Bo).
  { unfold bytes_ok in Hb. rewrite E, !Forall_app in Hb. tauto. }
  pose proof (le_bytes_ok (Z.to_nat n) v) as Bv. split_and!.
  - rewrite (f_equal length E), !length_app, length_le_bytes. lia.
  - unfold bytes_ok. by rewrite !Forall_app.
  - intros k Hk. rewrite (f_equal le_value E). rewrite (le_value_app_bits pre), (le_value_app_bits pre), !Lp by done.
    destruct (decide (k < 8 * off)); [by rewrite decide_False by lia|].
    rewrite !le_value_app_bits by (done || lia). rewrite length_le_bytes, Lm, Z2Nat.id by lia.
    repeat case_decide; try lia; try done.
    rewrite le_value_bytes, Z2Nat.id, Z.testbit_mod_pow2, (proj2 (Z.ltb_lt _ _)) by lia. done.
Qed.

(** The number with the [ndx]-th element of [w] bits set to [v]. *)
Definition put (w m ndx v : Z) : Z :=
  Z.lor (Z.ldiff m (Z.shiftl (Z.ones w) (w * ndx))) (Z.shiftl (v mod 2 ^ w) (w * ndx)).

Lemma put_bits w m ndx v k :
  0 <= w -> 0 <= ndx -> 0 <= k ->
  Z.testbit (put w m ndx v) k = if decide (w * ndx <= k < w * (ndx + 1)) then Z.testbit v (k - w * ndx) else Z.testbit m k.
Proof.
  intros Hw Hn Hk. unfold put. rewrite Z.lor_spec, Z.ldiff_spec. case_decide as Hd.
  - rewrite !Z.shiftl_spec_high, Z.ones_spec_low, Z.testbit_mod_pow2, (proj2 (Z.ltb_lt _ _)) by lia.
    cbn. by rewrite andb_false_r.
  - destruct (decide (k < w * ndx)).
    + rewrite !Z.shiftl_spec_low by lia. by rewrite andb_true_r, orb_false_r.
    + rewrite !Z.shiftl_spec_high, Z.ones_spec_high, Z.testbit_mod_pow2, (proj2 (Z.ltb_ge _ _)) by lia.
      by rewrite andb_true_r, orb_false_r.
Qed.

Lemma field_put w m ndx v j :
  0 <= w -> 0 <= ndx -> 0 <= j -> field w (put w m ndx v) j = if decide (j = ndx) then v mod 2 ^ w else field w m j.
Proof.
  intros Hw Hn Hj. apply Z.bits_inj'. intros k Hk. rewrite field_bits by lia.
  destruct (Z.ltb_spec k w) as [Hkw|Hkw]; cbn [andb].
  - rewrite put_bits by nia. case_decide as Hd; case_decide as Hi; subst.
    + rewrite Z.testbit_mod_pow2, (proj2 (Z.ltb_lt _ _)) by lia. cbn. f_equal. lia.
    + exfalso. nia.
    + exfalso. nia.
    + rewrite field_bits by lia. rewrite (proj2 (Z.ltb_lt _ _)) by lia. done.
  - case_decide; [rewrite Z.testbit_mod_pow2 by lia|rewrite field_bits by lia]; by rewrite (proj2 (Z.ltb_ge _ _)) by lia.
Qed.

(** The values that [w] bits can hold. *)
Definition fits (w v : Z) : Prop := if decide (w <= 4) then 0 <= v < 2 ^ w else - 2 ^ (w - 1) <= v < 2 ^ (w - 1).

Lemma sext_fits w v : 0 < w -> - 2 ^ (w - 1) <= v < 2 ^ (w - 1) -> sext w (v mod 2 ^ w) = v.
Proof.
  intros Hw Hv. unfold sext. rewrite Zmod_mod. assert (2 ^ w = 2 * 2 ^ (w - 1)) as E by (rewrite <- pow2_double by lia; f_equal; lia).
  pose proof (pow2_pos (w - 1) ltac:(lia)). destruct (decide (0 <= v)).
  - rewrite Z.mod_small by lia. by rewrite (proj2 (Z.ltb_lt _ _)) by lia.
  - replace (v mod 2 ^ w) with (v + 2 ^ w); [rewrite (proj2 (Z.ltb_ge _ _)); lia|].
    symmetry. rewrite <- (Z.mod_small (v + 2 ^ w) (2 ^ w)) by lia. replace (v + 2 ^ w) with (v + 1 * 2 ^ w) by lia.
    by rewrite Z_mod_plus_full.
Qed.

Lemma element_put w m ndx v j :
  w ∈ widths -> 0 <= ndx -> 0 <= j -> fits w v ->
  element w (put w m ndx v) j = if decide (j = ndx) then v else element w m j.
Proof.
  intros Hw Hn Hj Hv. assert (0 <= w) as Hw0 by (unfold widths in Hw; set_solver by lia).
  unfold element, fits in *. rewrite field_put by done.
  destruct (Z.leb_spec w 4), (decide (j = ndx)) as [->|]; try done; case_decide; try lia.
  - by rewrite Z.mod_small.
  - by rewrite sext_fits by lia.
Qed.

Definition written (w : Z) (data : list Z) (ndx v : Z) (r : result (list Z)) : Prop :=
  exists data', r = Ok data' /\ length data' = length data /\ bytes_ok data' /\
    le_value data' = put w (le_value data) ndx v.

Lemma written_bits w data ndx v off n data' :
  0 <= w -> 0 <= ndx ->
  (forall k, 0 <= k -> Z.testbit (le_value data') k =
     if decide (w * ndx <= k < w * (ndx + 1)) then Z.testbit v (k - w * ndx) else Z.testbit (le_value data) k) ->
  length data' = length data -> bytes_ok data' -> write_le data off n v = Ok data' ->
  written w data ndx v (write_le data off n v).
Proof.
  intros Hw Hn Hk Hl Hb E. exists data'. split_and!; [done..|]. apply Z.bits_inj'. intros k ?. by rewrite Hk, put_bits.
Qed.

Lemma write_le_written w data ndx n v :
  bytes_ok data -> 0 < n -> 8 * n = w -> 0 <= ndx -> w * (ndx + 1) <= 8 * Z.of_nat (length data) ->
  written w data ndx v (write_le data (ndx * n) n v).
Proof.
  intros Hb Hn Hw Hi Hl. destruct (write_le_spec data (ndx * n) n v) as (data' & E & Hl' & Hb' & Hk); [done|nia..|].
  apply (written_bits _ _ _ _ _ _ data'); try done; [lia|]. intros k Hk0. rewrite Hk by done.
  replace (8 * (ndx * n)) with (w * ndx) by lia. replace (8 * (ndx * n + n)) with (w * (ndx + 1)) by lia. done.
Qed.

Lemma set_bits_written w data ndx v off s mask :
  bytes_ok data -> 0 < w -> 0 <= off -> 0 <= s -> s + w <= 8 -> w * ndx = 8 * off + s -> 0 <= ndx -> off < Z.of_nat (length data) ->
  mask = 2 ^ w - 1 ->
  written w data ndx v (set_bits data off s mask v).
Proof.
  intros Hb Hw Ho Hs Hsw E Hn Hl ->. unfold set_bits. rewrite read_le_spec by (done || lia). cbn [mbind result_bind].
  set (c := _ mod 2 ^ (8 * 1)). set (b := uchar _).
  assert (forall j, 0 <= j < 8 -> Z.testbit c j = Z.testbit (le_value data) (8 * off + j)) as Hc.
  { intros j Hj. unfold c. rewrite Z.testbit_mod_pow2, Z.shiftr_spec, (proj2 (Z.ltb_lt _ _)) by lia. cbn. f_equal. lia. }
  assert (forall j, 0 <= j < 8 -> Z.testbit b j = if decide (s <= j < s + w) then Z.testbit v (j - s) else Z.testbit c j) as Hbits.
  { intros j Hj. unfold b, uchar. change 256 with (2 ^ 8). rewrite Z.testbit_mod_pow2, (proj2 (Z.ltb_lt _ _)) by lia.
    rewrite andb_true_l, Z.lor_spec, Z.land_spec, Z.lnot_spec by lia. rewrite land_ones_mod by lia.
    replace (2 ^ w - 1) with (Z.ones w) by (rewrite Z.ones_equiv; lia). case_decide as Hd.
    - rewrite !Z.shiftl_spec_high, Z.ones_spec_low, Z.testbit_mod_pow2, (proj2 (Z.ltb_lt _ _)) by lia.
      cbn. by rewrite andb_false_r.
    - destruct (decide (j < s)).
      + rewrite !Z.shiftl_spec_low by lia. by rewrite andb_true_r, orb_false_r.
      + rewrite !Z.shiftl_spec_high, Z.ones_spec_high, Z.testbit_mod_pow2, (proj2 (Z.ltb_ge _ _)) by lia.
        by rewrite andb_true_r, orb_false_r. }
  destruct (write_le_spec data off 1 b) as (data' & Ew & Hl' & Hb' & Hk); [done|lia..|].
  exists data'. split_and!; [done..|]. apply Z.bits_inj'. intros k Hk0. rewrite Hk, put_bits by lia.
  destruct (decide (8 * off <= k < 8 * (off + 1))).
  - rewrite Hbits, Hc by lia. replace (8 * off + (k - 8 * off)) with k by lia.
    repeat case_decide; try lia; [f_equal; lia|done].
  - by rewrite decide_False by lia.
Qed.

Lemma set_direct_written w data ndx v :
  w ∈ widths -> w <> 0 -> bytes_ok data -> 0 <= ndx -> w * (ndx + 1) <= 8 * Z.of_nat (length data) ->
  written w data ndx v (set_direct w data ndx v).
Proof.
  intros Hw Hw0 Hb Hi Hl. unfold widths in Hw. unfold set_direct.
  pose proof (Z.div_mod ndx 8 ltac:(lia)). pose proof (Z.mod_pos_bound ndx 8 ltac:(lia)).
  pose proof (Z.div_mod ndx 4 ltac:(lia)). pose proof (Z.mod_pos_bound ndx 4 ltac:(lia)).
  pose proof (Z.div_mod ndx 2 ltac:(lia)). pose proof (Z.mod_pos_bound ndx 2 ltac:(lia)).
  repeat (apply elem_of_cons in Hw as [->|Hw]); [..|by apply not_elem_of_nil in Hw]; cbn [Z.eqb Pos.eqb]; [done|..].
  1-3: apply set_bits_written; try done; lia.
  1: rewrite <- (Z.mul_1_r ndx) at 2.
  all: by apply write_le_written.
Qed.

(** ** Properties *)

(** An element that was set is read back, and the others are as they were. *)
Theorem set_direct_get char_is_signed w data ndx v :
  w ∈ widths -> bytes_ok data -> 0 <= ndx -> w * (ndx + 1) <= 8 * Z.of_nat (length data) -> fits w v ->
  exists data', set_direct w data ndx v = Ok data' /\ bytes_ok data' /\ length data' = length data /\
    get_direct char_is_signed w data' ndx = Ok v /\
    forall j, 0 <= j -> j <> ndx -> w * (j + 1) <= 8 * Z.of_nat (length data) ->
      get_direct char_is_signed w data' j = get_direct char_is_signed w data j.
Proof.
  intros Hw Hb Hi Hl Hv. destruct (decide (w = 0)) as [->|Hw0].
  { exists data. split_and!; [done..| |done]. unfold fits in Hv. rewrite decide_True in Hv by lia. change (2 ^ 0) with 1 in Hv. replace v with 0 by lia. done. }
  destruct (set_direct_written w data ndx v Hw Hw0 Hb Hi Hl) as (data' & E & El & Hb' & Em).
  exists data'. split_and!; [done..| |].
  - rewrite get_direct_spec by (done || (rewrite ?El; done)). rewrite Em, element_put by done. by rewrite decide_True.
  - intros j Hj Hne Hjl. rewrite !get_direct_spec by (done || (rewrite ?El; done)). rewrite Em, element_put by done. by rewrite decide_False.
Qed.
