(* ===== verification/SortedSearch.v ===== *)
(** Binary search in a packed array, [lower_bound] and [upper_bound] of
    [realm/array_direct.hpp]: the loop that is unrolled three times and the one for the rest. *)

From S2P Require Import Prelude NodeHeader PackedArray.

Section search.
Context (char_is_signed : bool).

(** The body (A) of the loops, with [other_low] taken when the element at [probe] satisfies
    [test]. *)
Definition search_step (test : Z -> bool) (w : Z) (data : list Z) (s : Z * Z) : result (Z * Z) :=
  let '(size, low) := s in
  let half := size / 2 in
  let other_half := size - half in
  let probe := low + half in
  let other_low := low + other_half in
  v ← get_direct char_is_signed w data probe;
  Ok (half, if (test v : bool) then other_low else low).

(** [while (size >= 8)]: the steps (X), (Y) and (Z). *)
Fixpoint unrolled_loop (fuel : nat) (test : Z -> bool) (w : Z) (data : list Z) (s : Z * Z) : result (Z * Z) :=
  match fuel with
  | O => Err OutOfFuel
  | S fuel =>
      if 8 <=? s.1 then
        s ← search_step test w data s;
        s ← search_step test w data s;
        s ← search_step test w data s;
        unrolled_loop fuel test w data s
      else Ok s
  end.

(** [while (size > 0)]. *)
Fixpoint final_loop (fuel : nat) (test : Z -> bool) (w : Z) (data : list Z) (s : Z * Z) : result (Z * Z) :=
  match fuel with
  | O => Err OutOfFuel
  | S fuel =>
      if 0 <? s.1 then
        s ← search_step test w data s;
        final_loop fuel test w data s
      else Ok s
  end.

Definition binary_search (test : Z -> bool) (w : Z) (data : list Z) (size : Z) : result Z :=
  let fuel := S (Z.to_nat size) in
  s ← unrolled_loop fuel test w data (size, 0);
  s ← final_loop fuel test w data s;
  Ok s.2.

Definition lower_bound (w : Z) (data : list Z) (size value : Z) : result Z :=
  binary_search (fun v => v <? value) w data size.

Definition upper_bound (w : Z) (data : list Z) (size value : Z) : result Z :=
  binary_search (fun v => v <=? value) w data size.

(** ** What a search returns *)

Section loops.
Context (test : Z -> bool) (w : Z) (data : list Z) (total k : Z).
Context (Hw : w ∈ widths) (Hb : bytes_ok data) (Hl : w * total <= 8 * Z.of_nat (length data)).
(** The elements before [k] satisfy the test, the others do not. *)
Context (Htrue : forall i, 0 <= i < k -> test (element w (le_value data) i) = true).
Context (Hfalse : forall i, k <= i < total -> test (element w (le_value data) i) = false).

Definition narrowed (s : Z * Z) : Prop := 0 <= s.1 /\ 0 <= s.2 <= k /\ k <= s.2 + s.1 <= total.

Lemma search_step_spec s :
  narrowed s -> 0 < s.1 -> exists s', search_step test w data s = Ok s' /\ narrowed s' /\ s'.1 = s.1 / 2.
Proof.
  destruct s as [size low]. cbn [fst snd]. intros (Hs & Hlo & Hk) Hp. cbn [fst snd] in *. unfold search_step.
  pose proof (Z.div_mod size 2 ltac:(lia)). pose proof (Z.mod_pos_bound size 2 ltac:(lia)).
  assert (0 <= w) by (unfold widths in Hw; set_solver by lia).
  assert (w * (low + size / 2 + 1) <= w * total) by (apply Z.mul_le_mono_nonneg_l; lia).
  rewrite get_direct_spec by (done || lia). cbn [mbind result_bind]. eexists. split; [reflexivity|].
  cbn [fst snd]. split; [|done]. unfold narrowed. cbn [fst snd].
  destruct (decide (low + size / 2 < k)).
  - rewrite Htrue by lia. lia.
  - rewrite Hfalse by lia. lia.
Qed.

Lemma half_smaller n : 0 < n -> 0 <= n / 2 < n.
Proof. intros. pose proof (Z.div_mod n 2 ltac:(lia)). pose proof (Z.mod_pos_bound n 2 ltac:(lia)). lia. Qed.

Lemma unrolled_loop_spec fuel s :
  narrowed s -> s.1 < Z.of_nat fuel ->
  exists s', unrolled_loop fuel test w data s = Ok s' /\ narrowed s' /\ s'.1 <= s.1.
Proof.
  revert s. induction fuel as [|fuel IH]; intros s Hs Hf; [destruct Hs; lia|]. cbn [unrolled_loop].
  destruct (Z.leb_spec 8 s.1) as [H8|]; [|exists s; split_and!; [done..|lia]].
  assert (8 / 2 <= s.1 / 2) as E1 by (by apply Z.div_le_mono). change (8 / 2) with 4 in E1.
  assert (4 / 2 <= s.1 / 2 / 2) as E2 by (by apply Z.div_le_mono). change (4 / 2) with 2 in E2.
  destruct (search_step_spec s Hs ltac:(lia)) as (s1 & -> & H1 & F1).
  destruct (search_step_spec s1 H1 ltac:(lia)) as (s2 & E & H2 & F2).
  destruct (search_step_spec s2 H2 ltac:(rewrite F2, F1; lia)) as (s3 & E' & H3 & F3).
  cbn [mbind result_bind]. rewrite E. cbn [mbind result_bind]. rewrite E'. cbn [mbind result_bind].
  pose proof (half_smaller s.1 ltac:(lia)). pose proof (half_smaller s1.1 ltac:(lia)).
  pose proof (half_smaller s2.1 ltac:(rewrite F2, F1; lia)).
  destruct (IH s3 H3) as (s' & E'' & Hs' & Hle); [lia|]. exists s'. split_and!; [done..|lia].
Qed.

Lemma final_loop_spec fuel s :
  narrowed s -> s.1 < Z.of_nat fuel -> exists s', final_loop fuel test w data s = Ok s' /\ s'.2 = k.
Proof.
  revert s. induction fuel as [|fuel IH]; intros s Hs Hf; [destruct Hs; lia|]. cbn [final_loop].
  destruct (Z.ltb_spec 0 s.1) as [H0|H0].
  - destruct (search_step_spec s Hs H0) as (s1 & -> & H1 & F1). cbn [mbind result_bind].
    pose proof (half_smaller s.1 H0). apply IH; [done|lia].
  - exists s. split; [done|]. destruct Hs as (? & ? & ?). lia.
Qed.

Lemma binary_search_spec : 0 <= k <= total -> binary_search test w data total = Ok k.
Proof.
  intros Hk. unfold binary_search.
  destruct (unrolled_loop_spec (S (Z.to_nat total)) (total, 0)) as (s & -> & Hs & Hle);
    [unfold narrowed; cbn; lia|cbn; lia|].
  cbn [mbind result_bind fst] in *.
  destruct (final_loop_spec (S (Z.to_nat total)) s Hs ltac:(lia)) as (s' & -> & <-). done.
Qed.
End loops.

(** The position where a monotone test turns. *)
Fixpoint turn (f : Z -> bool) (n : nat) : Z :=
  match n with
  | O => 0
  | S n => if f (Z.of_nat n) then Z.of_nat (S n) else turn f n
  end.

Lemma turn_bounds f n : 0 <= turn f n <= Z.of_nat n.
Proof. induction n as [|n IH]; cbn [turn]; [done|]. destruct (f _); lia. Qed.

Lemma turn_after f n i : turn f n <= i < Z.of_nat n -> f i = false.
Proof.
  induction n as [|n IH]; cbn [turn]; [lia|]. destruct (f (Z.of_nat n)) eqn:E; [lia|].
  intros Hi. destruct (decide (i = Z.of_nat n)) as [->|]; [done|apply IH; lia].
Qed.

Lemma turn_before f n i :
  (forall i j, 0 <= i <= j -> j < Z.of_nat n -> f j = true -> f i = true) -> 0 <= i < turn f n -> f i = true.
Proof.
  induction n as [|n IH]; cbn [turn]; intros Hm Hi; [lia|]. destruct (f (Z.of_nat n)) eqn:E.
  - apply (Hm i (Z.of_nat n)); [lia..|done].
  - apply IH; [|done]. intros a b Ha Hb. apply Hm; lia.
Qed.

(** C21: In a sorted array [lower_bound] gives the position of the first element that is not less
    than the value and [upper_bound] that of the first that is greater, the size of the array
    when there is none; they read elements of the array only. *)
Theorem bounds_exact w data size value :
  w ∈ widths -> bytes_ok data -> 0 <= size -> w * size <= 8 * Z.of_nat (length data) ->
  (forall i j, 0 <= i <= j -> j < size -> element w (le_value data) i <= element w (le_value data) j) ->
  exists l u, lower_bound w data size value = Ok l /\ upper_bound w data size value = Ok u /\ 0 <= l <= u /\ u <= size /\
    (forall i, 0 <= i < l -> element w (le_value data) i < value) /\
    (forall i, l <= i < u -> element w (le_value data) i = value) /\
    (forall i, u <= i < size -> value < element w (le_value data) i).
Proof.
  intros Hw Hb Hs Hl Hsort. set (e := element w (le_value data)) in *.
  set (l := turn (fun i => e i <? value) (Z.to_nat size)). set (u := turn (fun i => e i <=? value) (Z.to_nat size)).
  assert (forall i, 0 <= i < l -> e i < value) as Hl1.
  { intros i Hi. apply Z.ltb_lt, (turn_before (fun i => e i <? value) (Z.to_nat size)); [|done].
    intros a b Hab Hbs Hlt%Z.ltb_lt. apply Z.ltb_lt. specialize (Hsort a b Hab ltac:(lia)). lia. }
  assert (forall i, l <= i < size -> value <= e i) as Hl2.
  { intros i Hi. apply Z.ltb_ge, (turn_after (fun i => e i <? value) (Z.to_nat size)). fold l. lia. }
  assert (forall i, 0 <= i < u -> e i <= value) as Hu1.
  { intros i Hi. apply Z.leb_le, (turn_before (fun i => e i <=? value) (Z.to_nat size)); [|done].
    intros a b Hab Hbs Hlt%Z.leb_le. apply Z.leb_le. specialize (Hsort a b Hab ltac:(lia)). lia. }
  assert (forall i, u <= i < size -> value < e i) as Hu2.
  { intros i Hi. apply Z.leb_gt, (turn_after (fun i => e i <=? value) (Z.to_nat size)). fold u. lia. }
  pose proof (turn_bounds (fun i => e i <? value) (Z.to_nat size)) as Bl. fold l in Bl.
  pose proof (turn_bounds (fun i => e i <=? value) (Z.to_nat size)) as Bu. fold u in Bu.
  exists l, u. split_and!; try done; try lia.
  - apply binary_search_spec; try done; [|intros i Hi; by apply Z.ltb_ge, Hl2|lia]. intros i Hi. by apply Z.ltb_lt, Hl1.
  - apply binary_search_spec; try done; [|intros i Hi; by apply Z.leb_gt, Hu2|lia]. intros i Hi. by apply Z.leb_le, Hu1.
  - destruct (decide (l <= u)); [done|]. specialize (Hl1 u ltac:(lia)). specialize (Hu2 u ltac:(lia)). lia.
  - intros i Hi. specialize (Hl2 i ltac:(lia)). specialize (Hu1 i ltac:(lia)). lia.
Qed.
End search.

(** Nine elements of 4 bits: 1 2 2 3 3 3 5 8 9. *)
Definition sorted_sample : list Z := [0x21; 0x32; 0x33; 0x85; 0x09].

Lemma bounds_exact_witness :
  exists l u, lower_bound true 4 sorted_sample 9 3 = Ok l /\ upper_bound true 4 sorted_sample 9 3 = Ok u /\ l = 3 /\ u = 6.
Proof.
  destruct (bounds_exact true 4 sorted_sample 9 3) as (l & u & El & Eu & _).
  - by apply (bool_decide_unpack _).
  - repeat constructor; done.
  - done.
  - done.
  - intros i j Hi Hj. assert (i ∈ seqZ 0 9) as Hi' by (apply elem_of_seqZ; lia). assert (j ∈ seqZ 0 9) as Hj' by (apply elem_of_seqZ; lia).
    assert (forallb (fun i => forallb (fun j => bool_decide (i <= j -> element 4 (le_value sorted_sample) i <= element 4 (le_value sorted_sample) j)) (seqZ 0 9)) (seqZ 0 9) = true) as H by by vm_compute.
    rewrite forallb_forall in H. specialize (H i (proj1 (list_elem_of_In _ _) Hi')).
    rewrite forallb_forall in H. specialize (H j (proj1 (list_elem_of_In _ _) Hj')). apply bool_decide_eq_true in H. lia.
  - exists l, u. split_and!; [done..| |]; [vm_compute in El; by injection El|vm_compute in Eu; by injection Eu].
Defined.
