(* ===== verification/ArrayFind.v ===== *)
(** The search of a packed array, the finding code of [realm/array.hpp] with the integer
    conditions of [realm/query_conditions.hpp]: the elements of an array that satisfy a condition
    are handed to an action one by one, or many at a time as a bit pattern.

    What is compiled elsewhere is an interface: the number of set bits and the first set bit of a
    word, [round_up], and the sum, maximum and minimum of a stretch of an array.  A shift of a
    64-bit word by 64 or more places, which the language leaves undefined, gives an arbitrary
    word.  The build is one without SSE.  The [REALM_ASSERT_DEBUG]s are not part of a release
    build and not of the model. *)

From S2P Require Import Prelude SafeInt NodeHeader PackedArray.

(** ** Conditions *)

Inductive cond := Equal | NotEqual | Greater | Less | None_ | NotNull.

#[export] Instance cond_eq_dec : EqDecision cond.
Proof. solve_decision. Defined.

(** [operator()]. *)
Definition holds_for (c : cond) (v1 v2 : Z) (v1null v2null : bool) : bool :=
  match c with
  | Equal => (v1null && v2null) || (negb v1null && negb v2null && (v1 =? v2))
  | NotEqual => if negb v1null && negb v2null then negb (v1 =? v2) else negb (v1null && v2null)
  | Greater => if v1null || v2null then false else v2 <? v1
  | Less => if v1null || v2null then false else v1 <? v2
  | None_ => true
  | NotNull => negb v1null
  end.

Definition can_match (c : cond) (v lbound ubound : Z) : bool :=
  match c with
  | Equal => (lbound <=? v) && (v <=? ubound)
  | NotEqual => negb ((v =? 0) && (ubound =? 0) && (lbound =? 0))
  | Greater => v <? ubound
  | Less => lbound <? v
  | None_ | NotNull => true
  end.

Definition will_match (c : cond) (v lbound ubound : Z) : bool :=
  match c with
  | Equal => (v =? 0) && (ubound =? 0) && (lbound =? 0)
  | NotEqual => (ubound <? v) || (v <? lbound)
  | Greater => v <? lbound
  | Less => ubound <? v
  | None_ | NotNull => true
  end.

(** ** Arrays and what is compiled elsewhere *)

Record Array := MkArray { m_data : list Z; m_width : Z; m_size : Z; m_lbound : Z; m_ubound : Z }.

Class Primitives := {
  char_is_signed : bool;
  fast_popcount64 : Z -> Z;
  first_set_bit64 : Z -> Z;
  round_up : Z -> Z -> Z;
  oversized_shift : Z -> Z -> Z;
  array_sum : Array -> Z -> Z -> Z;
  array_maximum : Array -> Z -> Z -> Z * Z;
  array_minimum : Array -> Z -> Z -> Z * Z
}.

Definition all_ones : Z := 2 ^ 64 - 1.
Definition no0 (v : Z) : Z := if v =? 0 then 1 else v.

(** [v >> n] and [v << n] of a 64-bit word. *)
Definition shr64 `{Primitives} (v n : Z) : Z := if n <? 64 then Z.shiftr v n else oversized_shift v n.

(** ** Actions *)

Inductive Action :=
| act_ReturnFirst | act_Sum | act_Max | act_Min | act_Count | act_FindAll | act_CallIdx | act_CallbackIdx | act_CallbackVal
| act_CallbackNone | act_CallbackBoth | act_Average.

#[export] Instance Action_eq_dec : EqDecision Action.
Proof. solve_decision. Defined.

(** [QueryState<int64_t>]; [m_column] is the column that [m_state] points to for [act_FindAll],
    [m_key_values] gives the keys by index when there are keys. *)
Record QueryState := MkQueryState {
  m_state : Z; m_match_count : Z; m_limit : Z; m_minmax_index : Z; m_key_offset : Z; m_key_values : option (Z -> Z);
  m_column : list Z
}.

Definition make_query_state (action : Action) (limit : Z) : QueryState :=
  let m_state := match action with
                 | act_Max => - 2 ^ 63
                 | act_Min => 2 ^ 63 - 1
                 | act_ReturnFirst => cast int64_t npos
                 | _ => 0
                 end in
  MkQueryState m_state 0 limit (-1) 0 None [].

Definition set_state v q := MkQueryState v (m_match_count q) (m_limit q) (m_minmax_index q) (m_key_offset q) (m_key_values q) (m_column q).
Definition set_match_count n q := MkQueryState (m_state q) n (m_limit q) (m_minmax_index q) (m_key_offset q) (m_key_values q) (m_column q).
Definition set_minmax_index i q := MkQueryState (m_state q) (m_match_count q) (m_limit q) i (m_key_offset q) (m_key_values q) (m_column q).
Definition set_column l q := MkQueryState (m_state q) (m_match_count q) (m_limit q) (m_minmax_index q) (m_key_offset q) (m_key_values q) l.

(** [m_key_values ? m_key_values->get(index) + m_key_offset : index]. *)
Definition key_of (q : QueryState) (index : Z) : Z :=
  cast int64_t (match m_key_values q with Some keys => keys index + m_key_offset q | None => index end).

Definition below_limit (q : QueryState) : bool := m_match_count q <? m_limit q.

(** [m_state++; m_match_count = size_t(m_state);]. *)
Definition count_one (q : QueryState) : QueryState :=
  let q := set_state (cast int64_t (m_state q + 1)) q in set_match_count (u64 (m_state q)) q.

(** [match<action, true>] and [match<action, false>] for an [int64_t]. *)
Definition match_pattern `{Primitives} (action : Action) (pattern : Z) (q : QueryState) : QueryState * bool :=
  match action with
  | act_Count =>
      if m_limit q <=? u64 (m_match_count q + 64) then (q, false)
      else
        let q := set_state (cast int64_t (m_state q + fast_popcount64 pattern)) q in
        (set_match_count (u64 (m_state q)) q, true)
  | _ => (q, false)
  end.

Definition match_value (action : Action) (index value : Z) (q : QueryState) : QueryState * bool :=
  let q := set_match_count (u64 (m_match_count q + 1)) q in
  match action with
  | act_ReturnFirst => (set_state (cast int64_t index) q, false)
  | _ =>
      let q := match action with
               | act_Max => if m_state q <? value then set_minmax_index (key_of q index) (set_state value q) else q
               | act_Min => if value <? m_state q then set_minmax_index (key_of q index) (set_state value q) else q
               | act_Sum => set_state (cast int64_t (m_state q + value)) q
               | act_Count => count_one q
               | act_FindAll => set_column (m_column q ++ [key_of q index]) q
               | _ => q
               end in
      (q, below_limit q)
  end.

(** [match<action, false>] for an [Optional<int64_t>]. *)
Definition match_optional (action : Action) (index : Z) (value : option Z) (q : QueryState) : QueryState * bool :=
  match value with
  | Some value => match_value action index value q
  | None =>
      match action with
      | act_ReturnFirst => (set_state (cast int64_t index) (set_match_count (u64 (m_match_count q + 1)) q), false)
      | act_Count => let q := count_one q in (q, below_limit q)
      | act_FindAll => let q := set_column (m_column q ++ [key_of q index]) q in (q, below_limit q)
      | _ => (q, below_limit q)
      end
  end.

(** ** Bits of a chunk of 64 bits *)

Section bits.
Context `{Primitives}.

Definition lower_bits (w : Z) : Z :=
  if w =? 1 then 0xFFFFFFFFFFFFFFFF
  else if w =? 2 then 0x5555555555555555
  else if w =? 4 then 0x1111111111111111
  else if w =? 8 then 0x0101010101010101
  else if w =? 16 then 0x0001000100010001
  else if w =? 32 then 0x0000000100000001
  else if w =? 64 then 0x0000000000000001
  else all_ones.

(** [lower_bits<width>() << (width - 1)]. *)
Definition upper_bits (w : Z) : Z := u64 (Z.shiftl (lower_bits w) (if w =? 0 then 0 else w - 1)).

Definition test_zero (w value : Z) : bool :=
  let lower := lower_bits w in
  let upper := upper_bits w in
  let hasZeroByte := Z.land (Z.land (u64 (value - lower)) (Z.lxor value all_ones)) upper in
  negb (hasZeroByte =? 0).

(** [(1ULL << width) - 1], all ones for 64. *)
Definition width_mask (w : Z) : Z := if w =? 64 then all_ones else Z.shiftl 1 w - 1.

Fixpoint find_zero_loop (fuel : nat) (eq : bool) (w v start : Z) : result Z :=
  match fuel with
  | O => Err OutOfFuel
  | S fuel =>
      if Bool.eqb eq (negb (Z.land (shr64 v (w * start)) (width_mask w) =? 0)) then
        _ ← realm_assert (start <=? 64);
        find_zero_loop fuel eq w v (start + 1)
      else Ok start
  end.

(** The index of the first zero (or non-zero) element.  The loop asserts that its counter is at
    most 64, so it ends within 66 iterations. *)
Definition find_zero (eq : bool) (w v : Z) : result Z :=
  let mask := width_mask w in
  if Bool.eqb eq (Z.land (shr64 v (w * 0)) mask =? 0) then Ok 0
  else
    let start :=
      if w <=? 8 then
        let hasZeroByte := test_zero w (Z.lor v 0xffffffff00000000) in
        if (if eq then negb hasZeroByte else Z.land v 0x00000000ffffffff =? 0) then
          let start := 64 / no0 w / 2 in
          if w <=? 4 then
            let hasZeroByte := test_zero w (Z.lor v 0xffff000000000000) in
            if (if eq then negb hasZeroByte else Z.land v 0x0000ffffffffffff =? 0) then start + 64 / no0 w / 4 else start
          else start
        else
          if w <=? 4 then
            let hasZeroByte := test_zero w (Z.lor v 0xffffffffffff0000) in
            if (if eq then negb hasZeroByte else Z.land v 0x000000000000ffff =? 0) then 64 / no0 w / 4 else 0
          else 0
      else 0 in
    find_zero_loop 67 eq w v start.

(** [a |= (a >> s) & c]. *)
Definition cascade_step (s c a : Z) : Z := Z.lor a (Z.land (Z.shiftr a s) c).

(** The least significant bit of each element that is zero (or non-zero). *)
Definition cascade (w : Z) (zero : bool) (a : Z) : Z :=
  let finish (m a : Z) := let a := Z.land a m in if zero then Z.lxor a m else a in
  if w =? 1 then (if zero then Z.lxor a all_ones else a)
  else if w =? 2 then
    let a := cascade_step 1 (all_ones / 0x3 * 0x1) a in
    finish 0x5555555555555555 a
  else if w =? 4 then
    let a := cascade_step 1 (all_ones / 0xF * 0x7) a in
    let a := cascade_step 2 (all_ones / 0xF * 0x3) a in
    finish (all_ones / 0xF * 0x1) a
  else if w =? 8 then
    let a := cascade_step 1 (all_ones / 0xFF * 0x7F) a in
    let a := cascade_step 2 (all_ones / 0xFF * 0x3F) a in
    let a := cascade_step 4 (all_ones / 0xFF * 0x0F) a in
    finish (all_ones / 0xFF * 0x1) a
  else if w =? 16 then
    let a := cascade_step 1 (all_ones / 0xFFFF * 0x7FFF) a in
    let a := cascade_step 2 (all_ones / 0xFFFF * 0x3FFF) a in
    let a := cascade_step 4 (all_ones / 0xFFFF * 0x0FFF) a in
    let a := cascade_step 8 (all_ones / 0xFFFF * 0x00FF) a in
    finish (all_ones / 0xFFFF * 0x1) a
  else if w =? 32 then
    let a := cascade_step 1 (all_ones / 0xFFFFFFFF * 0x7FFFFFFF) a in
    let a := cascade_step 2 (all_ones / 0xFFFFFFFF * 0x3FFFFFFF) a in
    let a := cascade_step 4 (all_ones / 0xFFFFFFFF * 0x0FFFFFFF) a in
    let a := cascade_step 8 (all_ones / 0xFFFFFFFF * 0x00FFFFFF) a in
    let a := cascade_step 16 (all_ones / 0xFFFFFFFF * 0x0000FFFF) a in
    finish (all_ones / 0xFFFFFFFF * 0x1) a
  else if w =? 64 then Z.b2z (Bool.eqb (a =? 0) zero)
  else all_ones.

(** The constant of the fast comparison. *)
Definition find_gtlt_magic (gt : bool) (w v : Z) : Z :=
  let mask1 := width_mask w in
  let mask2 := Z.shiftr mask1 1 in
  if gt then u64 (all_ones / no0 mask1 * u64 (mask2 - v)) else u64 (all_ones / no0 mask1 * u64 v).

(** The top bits of the elements of a chunk that are greater (or less), if no top bit of the
    chunk is set. *)
Definition gtlt_pattern (gt : bool) (w chunk magic : Z) : Z :=
  let mask1 := width_mask w in
  let mask2 := Z.shiftr mask1 1 in
  let tops := u64 (all_ones / no0 mask1 * (mask2 + 1)) in
  if gt then Z.land (Z.lor (u64 (chunk + magic)) chunk) tops
  else Z.land (Z.land (u64 (chunk - magic)) (Z.lxor chunk all_ones)) tops.
End bits.

(** ** The search *)

(** Nothing more to search when an action asks to stop: [if (!step) return false;]. *)
Definition and_then {S} (r : result (S * bool)) (k : S -> result (S * bool)) : result (S * bool) :=
  match r with Ok (s, true) => k s | _ => r end.
Notation "r &> k" := (and_then r k) (at level 50, left associativity).

Section search.
Context `{Primitives} {C : Type} (callback : Z -> C -> C * bool) (action : Action).

(** The state of the query and that of the callback. *)
Abbreviation Search := (QueryState * C)%type (only parsing).

Definition find_action (index : Z) (value : option Z) (s : Search) : Search * bool :=
  match action with
  | act_CallbackIdx => let '(c, go) := callback index s.2 in ((s.1, c), go)
  | _ => let '(q, go) := match_optional action index value s.1 in ((q, s.2), go)
  end.

Definition find_action_pattern (pattern : Z) (s : Search) : Search * bool :=
  match action with
  | act_CallbackIdx => (s, false)
  | _ => let '(q, consumed) := match_pattern action pattern s.1 in ((q, s.2), consumed)
  end.

Definition get (w : Z) (a : Array) (ndx : Z) : result Z := get_direct char_is_signed w (m_data a) ndx.

(** [if (test(get<w>(i)) && !find_action(i + baseindex, get<w>(i))) return false;]. *)
Definition test_one (w : Z) (a : Array) (test : Z -> bool) (baseindex i : Z) (s : Search) : result (Search * bool) :=
  v ← get w a i;
  if test v then Ok (find_action (u64 (i + baseindex)) (Some v) s) else Ok (s, true).

(** The loop over the elements from [i], one by one; [n] is their number. *)
Fixpoint scan (n : nat) (w : Z) (a : Array) (test : Z -> bool) (baseindex i : Z) (s : Search) : result (Search * bool) :=
  match n with
  | O => Ok (s, true)
  | S n => test_one w a test baseindex i s &> scan n w a test baseindex (i + 1)
  end.

(** The chunk at a byte offset: [*p]. *)
Definition read_chunk (a : Array) (p : Z) : result Z := read_le (m_data a) p 8.

(** The matches of a chunk, [compare_equality].  The loop leaves when the counter [n] reaches
    the number of elements of a chunk, which each iteration increases. *)
Fixpoint equal_matches (fuel : nat) (eq : bool) (w : Z) (a : Array) (start baseindex : Z) (v2 n : Z) (s : Search)
  : result (Search * bool) :=
  match fuel with
  | O => Err OutOfFuel
  | S fuel =>
      if (if eq then test_zero w v2 else negb (v2 =? 0)) then
        let '(s, consumed) := find_action_pattern (cascade w eq v2) s in
        if (consumed : bool) then Ok (s, true)
        else
          t ← find_zero eq w v2;
          let n := n + t in
          if 64 / no0 w <=? n then Ok (s, true)
          else
            v ← get w a (start + n);
            Ok (find_action (u64 (n + start + baseindex)) (Some v) s) &>
            equal_matches fuel eq w a start baseindex (shr64 v2 ((t + 1) * w)) (n + 1)
      else Ok (s, true)
  end.

(** The loop over the chunks, [n] of them from the byte offset [p]. *)
Fixpoint equal_chunks (n : nat) (eq : bool) (w : Z) (a : Array) (valuemask baseindex p : Z) (s : Search)
  : result (Search * bool) :=
  match n with
  | O => Ok (s, true)
  | S n =>
      chunk ← read_chunk a p;
      let v2 := Z.lxor chunk valuemask in
      let start := p / 8 * 8 * 8 / no0 w in
      equal_matches 66 eq w a start baseindex v2 0 s &> equal_chunks n eq w a valuemask baseindex (p + 8)
  end.

(** How often [while (p < e) { ...; ++p; }] runs. *)
Definition chunk_count (p e : Z) : nat := Z.to_nat ((e - p + 7) / 8).

Definition compare_equality (eq : bool) (w : Z) (a : Array) (value start end_ baseindex : Z) (s : Search)
  : result (Search * bool) :=
  let test v := if eq then v =? value else negb (v =? value) in
  let ee := round_up start (64 / no0 w) in
  let ee := if end_ <? ee then end_ else ee in
  scan (Z.to_nat (ee - start)) w a test baseindex start s &> fun s =>
  let start := Z.max start ee in
  if end_ <=? start then Ok (s, true)
  else if negb (w =? 32) && negb (w =? 64) then
    let p := start * w / 8 in
    let e := end_ * w / 8 - 8 in
    let mask := width_mask w in
    let valuemask := u64 (all_ones / no0 mask * Z.land (u64 value) mask) in
    let n := chunk_count p e in
    equal_chunks n eq w a valuemask baseindex p s &> fun s =>
    let start := (p + 8 * Z.of_nat n) / 8 * 8 * 8 / no0 w in
    scan (Z.to_nat (end_ - start)) w a test baseindex start s
  else scan (Z.to_nat (end_ - start)) w a test baseindex start s.

(** The matches that a pattern [m] of top bits tells, [find_gtlt_fast]; [p] counts elements. *)
Fixpoint gtlt_matches (fuel : nat) (w chunk baseindex : Z) (m p : Z) (s : Search) : result (Search * bool) :=
  match fuel with
  | O => Err OutOfFuel
  | S fuel =>
      if m =? 0 then Ok (s, true)
      else
        let '(s, consumed) := find_action_pattern (shr64 m (no0 w - 1)) s in
        if (consumed : bool) then Ok (s, true)
        else
          let t := first_set_bit64 m / no0 w in
          let p := p + t in
          Ok (find_action (u64 (p + baseindex)) (Some (Z.land (shr64 chunk (p * w)) (width_mask w))) s) &>
          gtlt_matches fuel w chunk baseindex (if (t + 1) * w =? 64 then 0 else shr64 m ((t + 1) * w)) (p + 1)
  end.

Definition find_gtlt_fast (gt : bool) (w chunk magic baseindex : Z) (s : Search) : result (Search * bool) :=
  gtlt_matches 65 w chunk baseindex (gtlt_pattern gt w chunk magic) 0 s.

(** The elements of a chunk one by one, [find_gtlt]; the code is unrolled for each width. *)
Definition chunk_element (w chunk t : Z) : Z :=
  if w <=? 4 then Z.land (Z.shiftr chunk (w * t)) (width_mask w) else sext w (Z.shiftr chunk (w * t)).

Fixpoint gtlt_each (n : nat) (gt : bool) (w v chunk baseindex t : Z) (s : Search) : result (Search * bool) :=
  match n with
  | O => Ok (s, true)
  | S n =>
      let x := chunk_element w chunk t in
      (if (if gt then v <? x else x <? v) then Ok (find_action (u64 (t + baseindex)) (Some x) s) else Ok (s, true)) &>
      gtlt_each n gt w v chunk baseindex (t + 1)
  end.

Definition find_gtlt (gt : bool) (w v chunk baseindex : Z) (s : Search) : result (Search * bool) :=
  gtlt_each (Z.to_nat (64 / no0 w)) gt w v chunk baseindex 0 s.

(** The loop over the chunks; [fast] is whether the fast comparison is right for the value. *)
Fixpoint gtlt_chunks (n : nat) (fast gt : bool) (w : Z) (a : Array) (value magic baseindex p : Z) (s : Search)
  : result (Search * bool) :=
  match n with
  | O => Ok (s, true)
  | S n =>
      v ← read_chunk a p;
      let base := u64 (p / 8 * 8 * 8 / no0 w + baseindex) in
      (if fast && (Z.land (upper_bits w) v =? 0) then find_gtlt_fast gt w v magic base s
       else find_gtlt gt w value v base s) &>
      gtlt_chunks n fast gt w a value magic baseindex (p + 8)
  end.

Definition use_fast (gt : bool) (w value : Z) : bool :=
  let mask := width_mask w in
  negb (value =? Z.land (find_gtlt_magic gt w value) mask) && (0 <=? value) && (2 <=? w) &&
  (value <=? Z.shiftr mask 1 - (if gt then 1 else 0)).

Definition compare_relation (gt : bool) (w : Z) (a : Array) (value start end_ baseindex : Z) (s : Search)
  : result (Search * bool) :=
  _ ← realm_assert ((start <=? m_size a) && ((end_ <=? m_size a) || (end_ =? npos)) && (start <=? end_));
  let test v := if gt then value <? v else v <? value in
  let ee := round_up start (64 / no0 w) in
  let ee := if end_ <? ee then end_ else ee in
  scan (Z.to_nat (ee - start)) w a test baseindex start s &> fun s =>
  let start := Z.max start ee in
  if end_ <=? start then Ok (s, true)
  else if bool_decide (w ∈ [1; 2; 4; 8; 16]) then
    let p := start * w / 8 in
    let e := end_ * w / 8 - 8 in
    let magic := find_gtlt_magic gt w value in
    let n := chunk_count p e in
    gtlt_chunks n (use_fast gt w value) gt w a value magic baseindex p s &> fun s =>
    let start := (p + 8 * Z.of_nat n) / 8 * 8 * 8 / no0 w in
    scan (Z.to_nat (end_ - start)) w a test baseindex start s
  else scan (Z.to_nat (end_ - start)) w a test baseindex start s.

(** For a condition that is none of the four a debug build asserts and a release build stops. *)
Definition compare (c : cond) (w : Z) (a : Array) (value start end_ baseindex : Z) (s : Search) : result (Search * bool) :=
  match c with
  | Equal => compare_equality true w a value start end_ baseindex s
  | NotEqual => compare_equality false w a value start end_ baseindex s
  | Greater => compare_relation true w a value start end_ baseindex s
  | Less => compare_relation false w a value start end_ baseindex s
  | _ => Ok (s, false)
  end.

(** One of the first elements: [if (m_size > start2 && c(get(start2), value) && start2 < end) ...; ++start2]. *)
Definition test_first (c : cond) (w : Z) (a : Array) (value end_ baseindex i : Z) (s : Search) : result (Search * bool) :=
  if i <? m_size a then
    v ← get w a i;
    if holds_for c v value false false && (i <? end_) then Ok (find_action (u64 (i + baseindex)) (Some v) s) else Ok (s, true)
  else Ok (s, true).

(** All elements match: [process] is how many more the limit allows. *)
Definition match_all (w : Z) (a : Array) (start end_ baseindex : Z) (s : Search) : result (Search * bool) :=
  let '(q, cb) := s in
  let process := u64 (m_limit q - m_match_count q) in
  let end2 := if decide (action = act_CallbackIdx) then end_
              else if process <? end_ - start then start + process else end_ in
  let aggregate '(res, res_ndx) :=
    let '((q, cb), _) := find_action (u64 (res_ndx + baseindex)) (Some res) s in
    Ok ((set_match_count (u64 (m_match_count q + u64 (end2 - start - 1))) q, cb), true) in
  match action with
  | act_Sum => aggregate (array_sum a start end2, 0)
  | act_Max => aggregate (array_maximum a start end2)
  | act_Min => aggregate (array_minimum a start end2)
  | act_Count => Ok ((set_state (cast int64_t (m_state q + (end2 - start))) q, cb), true)
  | _ => scan (Z.to_nat (end2 - start)) w a (fun _ => true) baseindex start s
  end.

(** The loop of a nullable array for a condition other than [Equal]; the null value is the first
    element. *)
Fixpoint nullable_loop (n : nat) (c : cond) (w : Z) (a : Array) (value null_value baseindex : Z) (find_null : bool) (i : Z)
    (s : Search) : result (Search * bool) :=
  match n with
  | O => Ok (s, true)
  | S n =>
      v ← get w a (i + 1);
      let value_is_null := v =? null_value in
      (if holds_for c v value value_is_null find_null
       then Ok (find_action (u64 (i + baseindex)) (if value_is_null then None else Some v) s)
       else Ok (s, true)) &>
      nullable_loop n c w a value null_value baseindex find_null (i + 1)
  end.

(** What follows when the nulls are dealt with. *)
Definition find_from (c : cond) (w : Z) (a : Array) (value start end_ baseindex : Z) (s : Search) : result (Search * bool) :=
  (if 0 <? start then
     test_first c w a value end_ baseindex start s &>
     test_first c w a value end_ baseindex (start + 1) &>
     test_first c w a value end_ baseindex (start + 2) &>
     test_first c w a value end_ baseindex (start + 3)
   else Ok (s, true)) &> fun s =>
  let start := if 0 <? start then start + 4 else start in
  if negb ((start <? m_size a) && (start <? end_)) then Ok (s, true)
  else
    let end_ := if end_ =? npos then m_size a else end_ in
    if negb (can_match c value (m_lbound a) (m_ubound a)) then Ok (s, true)
    else if will_match c value (m_lbound a) (m_ubound a) then match_all w a start end_ baseindex s
    else
      _ ← realm_assert (negb (m_width a =? 0));
      compare c w a value start end_ baseindex s.

Definition find_optimized (c : cond) (w : Z) (a : Array) (value start end_ baseindex : Z) (nullable_array find_null : bool)
    (s : Search) : result (Search * bool) :=
  _ ← realm_assert (negb (find_null && negb nullable_array));
  let end_ := if end_ =? npos then (if nullable_array then u64 (m_size a - 1) else m_size a) else end_ in
  if nullable_array then
    null_value ← get w a 0;
    if decide (c = Equal) then
      if negb find_null && (value =? null_value) then Ok (s, true)
      else find_from c w a (if find_null then null_value else value) (start + 1) (end_ + 1) (u64 (baseindex - 1)) s
    else nullable_loop (Z.to_nat (end_ - start)) c w a value null_value baseindex find_null start s
  else find_from c w a value start end_ baseindex s.
End search.

(** [find] for the width of the array. *)
Definition find `{Primitives} {C} (callback : Z -> C -> C * bool) (c : cond) (action : Action) (a : Array)
    (value start end_ baseindex : Z) (nullable_array find_null : bool) (s : QueryState * C) : result ((QueryState * C) * bool) :=
  find_optimized callback action c (m_width a) a value start end_ baseindex nullable_array find_null s.

(** [find_first<cond>]. *)
Definition find_first `{Primitives} (c : cond) (a : Array) (value start end_ : Z) : result Z :=
  _ ← realm_assert ((start <=? m_size a) && ((end_ <=? m_size a) || (end_ =? npos)) && (start <=? end_));
  '(s, _) ← find (fun _ (u : unit) => (u, true)) c act_ReturnFirst a value start end_ 0 false false
              (make_query_state act_ReturnFirst 1, tt);
  Ok (u64 (m_state s.1)).
