(* ===== verification/ChunkFields.v ===== *)
(** A chunk of 64 bits as the list of its elements, and the bit tricks of the search on it:
    [test_zero], [cascade], the pattern of [find_gtlt_fast] and [find_zero] do on the elements
    what they are meant to. *)

From S2P Require Import Prelude NodeHeader PackedArray ArrayFind.

(** ** Packing *)

Section pack.
Context (w : Z).

Fixpoint pack (l : list Z) : Z :=
  match l with
  | [] => 0
  | f :: l => f + 2 ^ w * pack l
  end.

Definition fields_ok (l : list Z) : Prop := Forall (fun f => 0 <= f < 2 ^ w) l.

Context (Hw : 0 < w).

Lemma pow_w_pos : 1 < 2 ^ w.
Proof. apply Z.pow_gt_1; lia. Qed.

Lemma pow_app n m : 2 ^ (w * (Z.of_nat n + Z.of_nat m)) = 2 ^ (w * Z.of_nat n) * 2 ^ (w * Z.of_nat m).
Proof. rewrite <- Z.pow_add_r by lia. f_equal. lia. Qed.

Lemma pow_S n : 2 ^ (w * Z.of_nat (S n)) = 2 ^ w * 2 ^ (w * Z.of_nat n).
Proof. rewrite <- Z.pow_add_r by lia. f_equal. lia. Qed.

Lemma pack_bounds l : fields_ok l -> 0 <= pack l < 2 ^ (w * Z.of_nat (length l)).
Proof.
  induction 1 as [|f l Hf _ IH]; [by rewrite Z.mul_0_r|]. cbn [pack length]. rewrite pow_S.
  pose proof pow_w_pos. nia.
Qed.

Lemma pack_app l1 l2 : pack (l1 ++ l2) = pack l1 + 2 ^ (w * Z.of_nat (length l1)) * pack l2.
Proof.
  induction l1 as [|f l1 IH]; [by rewrite Z.mul_0_r; cbn; destruct (pack l2)|]. cbn [app pack length]. rewrite IH, pow_S. ring.
Qed.

Lemma pack_cons_mod f l : 0 <= f < 2 ^ w -> pack (f :: l) mod 2 ^ w = f.
Proof. intros Hf. cbn [pack]. rewrite Z.mul_comm, Z_mod_plus_full. by apply Z.mod_small. Qed.

Lemma pack_cons_div f l : 0 <= f < 2 ^ w -> pack (f :: l) / 2 ^ w = pack l.
Proof. intros Hf. cbn [pack]. rewrite Z.mul_comm, Z_div_plus by lia. by rewrite Z.div_small. Qed.

Lemma pack_shift l k : fields_ok l -> (k <= length l)%nat -> Z.shiftr (pack l) (w * Z.of_nat k) = pack (drop k l).
Proof.
  intros Hl Hk. rewrite <- (take_drop k l) at 1. rewrite pack_app, length_take_le by done.
  rewrite Z.shiftr_div_pow2, Z.mul_comm, Z_div_plus by (try apply Z.lt_gt, pow2_pos; lia).
  rewrite Z.div_small; [done|]. pose proof (pack_bounds (take k l) ltac:(by apply Forall_take)) as B.
  by rewrite length_take_le in B.
Qed.

Lemma field_pack l k : fields_ok l -> field w (pack l) (Z.of_nat k) = default 0 (l !! k).
Proof.
  intros Hl. unfold field. destruct (decide (k < length l)%nat) as [Hk|Hk].
  - rewrite pack_shift by (done || lia). destruct (lookup_lt_is_Some_2 l k Hk) as [f Ef].
    rewrite (drop_S l f k Ef), Ef. apply pack_cons_mod. unfold fields_ok in Hl. rewrite Forall_lookup in Hl. by apply (Hl k).
  - rewrite lookup_ge_None_2 by lia. cbn. rewrite Z.shiftr_div_pow2, Z.div_small by
      (pose proof (pack_bounds l Hl); pose proof (pow2_le (w * Z.of_nat (length l)) (w * Z.of_nat k)); nia).
    apply Z.mod_0_l. pose proof pow_w_pos. lia.
Qed.

(** The elements of a chunk. *)
Definition unpack (n : nat) (v : Z) : list Z := (fun i => field w v (Z.of_nat i)) <$> seq 0 n.

Lemma unpack_ok n v : fields_ok (unpack n v).
Proof. apply Forall_fmap, Forall_forall. intros i _. cbn. apply field_bounds. lia. Qed.

Lemma length_unpack n v : length (unpack n v) = n.
Proof. unfold unpack. by rewrite length_fmap, length_seq. Qed.

Lemma unpack_S n v : unpack (S n) v = field w v 0 :: unpack n (Z.shiftr v w).
Proof.
  unfold unpack. cbn [seq]. rewrite fmap_cons. f_equal. rewrite <- fmap_S_seq, <- list_fmap_compose.
  apply list_fmap_ext. intros _ i _. cbn. unfold field. rewrite Z.shiftr_shiftr by lia. do 2 f_equal. lia.
Qed.

Lemma pack_unpack n v : 0 <= v < 2 ^ (w * Z.of_nat n) -> pack (unpack n v) = v.
Proof.
  revert v. induction n as [|n IH]; intros v Hv; [rewrite Z.mul_0_r in Hv; cbn in *; lia|].
  rewrite unpack_S. cbn [pack]. rewrite pow_S in Hv. pose proof pow_w_pos. rewrite IH.
  - unfold field. rewrite Z.mul_0_r, Z.shiftr_0_r, Z.shiftr_div_pow2 by lia. rewrite (Z.div_mod v (2 ^ w)) at 3 by lia. lia.
  - rewrite Z.shiftr_div_pow2 by lia. split; [apply Z.div_pos; lia|]. apply Z.div_lt_upper_bound; lia.
Qed.

(** ** Bitwise operations *)

(** The bits of [f + 2 ^ w * r]. *)
Lemma cons_bits f r j :
  0 <= f < 2 ^ w -> 0 <= j -> Z.testbit (f + 2 ^ w * r) j = if decide (j < w) then Z.testbit f j else Z.testbit r (j - w).
Proof.
  intros Hf Hj. rewrite Z.mul_comm, <- lor_low_high, Z.lor_spec by lia. case_decide.
  - rewrite Z.mul_pow2_bits_low by lia. apply orb_false_r.
  - rewrite Z.mul_pow2_bits by lia. destruct (decide (f = 0)) as [->|]; [by rewrite Z.bits_0|].
    rewrite Z.bits_above_log2; [done|lia|]. apply Z.lt_le_trans with w; [|lia]. apply Z.log2_lt_pow2; lia.
Qed.

Lemma cons_op (op : Z -> Z -> Z) (bop : bool -> bool -> bool) f g r s :
  (forall a b j, 0 <= j -> Z.testbit (op a b) j = bop (Z.testbit a j) (Z.testbit b j)) ->
  0 <= f < 2 ^ w -> 0 <= g < 2 ^ w -> 0 <= op f g < 2 ^ w ->
  op (f + 2 ^ w * r) (g + 2 ^ w * s) = op f g + 2 ^ w * op r s.
Proof.
  intros Hop Hf Hg Ho. apply Z.bits_inj'. intros j Hj. rewrite Hop, !cons_bits by done. case_decide.
  - by rewrite Hop by lia.
  - by rewrite Hop by lia.
Qed.

Lemma op_bounds (op : Z -> Z -> Z) (bop : bool -> bool -> bool) f g :
  (forall a b j, 0 <= j -> Z.testbit (op a b) j = bop (Z.testbit a j) (Z.testbit b j)) -> bop false false = false ->
  (forall a b, 0 <= a -> 0 <= b -> 0 <= op a b) ->
  0 <= f < 2 ^ w -> 0 <= g < 2 ^ w -> 0 <= op f g < 2 ^ w.
Proof.
  intros Hop Hff Hnn Hf Hg. assert (op f g = op f g mod 2 ^ w) as ->; [|apply Z.mod_pos_bound, pow2_pos; lia].
  apply Z.bits_inj'. intros j Hj. rewrite Z.testbit_mod_pow2 by lia. destruct (Z.ltb_spec j w) as [|Hjw]; [done|].
  rewrite Hop by done. cbn [andb].
  assert (forall x, 0 <= x < 2 ^ w -> Z.testbit x j = false) as Hx.
  { intros x Hx. rewrite <- (Z.mod_small x (2 ^ w)) by done. by rewrite Z.mod_pow2_bits_high by lia. }
  by rewrite (Hx f), (Hx g).
Qed.

Lemma land_bounds f g : 0 <= f < 2 ^ w -> 0 <= g < 2 ^ w -> 0 <= Z.land f g < 2 ^ w.
Proof. apply (op_bounds Z.land andb); [intros; apply Z.land_spec|done|]. intros. apply Z.land_nonneg. by left. Qed.
Lemma lor_bounds f g : 0 <= f < 2 ^ w -> 0 <= g < 2 ^ w -> 0 <= Z.lor f g < 2 ^ w.
Proof. apply (op_bounds Z.lor orb); [intros; apply Z.lor_spec|done|]. intros. by apply Z.lor_nonneg. Qed.
Lemma lxor_bounds f g : 0 <= f < 2 ^ w -> 0 <= g < 2 ^ w -> 0 <= Z.lxor f g < 2 ^ w.
Proof. apply (op_bounds Z.lxor xorb); [intros; apply Z.lxor_spec|done|]. intros. apply Z.lxor_nonneg. tauto. Qed.

Lemma pack_op (op : Z -> Z -> Z) (bop : bool -> bool -> bool) l1 l2 :
  (forall a b j, 0 <= j -> Z.testbit (op a b) j = bop (Z.testbit a j) (Z.testbit b j)) -> op 0 0 = 0 ->
  (forall f g, 0 <= f < 2 ^ w -> 0 <= g < 2 ^ w -> 0 <= op f g < 2 ^ w) ->
  fields_ok l1 -> fields_ok l2 -> length l1 = length l2 -> op (pack l1) (pack l2) = pack (zip_with op l1 l2).
Proof.
  intros Hop H0 Hb H1. revert l2. induction H1 as [|f l1 Hf _ IH]; intros l2 H2 Hl; destruct l2 as [|g l2]; try done.
  apply Forall_cons in H2 as [Hg H2]. cbn [pack zip_with]. injection Hl as Hl. rewrite <- IH by done.
  apply (cons_op op bop); auto.
Qed.

Lemma pack_land l1 l2 : fields_ok l1 -> fields_ok l2 -> length l1 = length l2 -> Z.land (pack l1) (pack l2) = pack (zip_with Z.land l1 l2).
Proof. apply (pack_op Z.land andb); [intros; apply Z.land_spec|done|exact land_bounds]. Qed.
Lemma pack_lor l1 l2 : fields_ok l1 -> fields_ok l2 -> length l1 = length l2 -> Z.lor (pack l1) (pack l2) = pack (zip_with Z.lor l1 l2).
Proof. apply (pack_op Z.lor orb); [intros; apply Z.lor_spec|done|exact lor_bounds]. Qed.
Lemma pack_lxor l1 l2 : fields_ok l1 -> fields_ok l2 -> length l1 = length l2 -> Z.lxor (pack l1) (pack l2) = pack (zip_with Z.lxor l1 l2).
Proof. apply (pack_op Z.lxor xorb); [intros; apply Z.lxor_spec|done|exact lxor_bounds]. Qed.

(** The same element in all places. *)
Definition rep (n : nat) (x : Z) : list Z := replicate n x.

Lemma rep_ok n x : 0 <= x < 2 ^ w -> fields_ok (rep n x).
Proof. intros. by apply Forall_replicate. Qed.

Lemma zip_rep (f : Z -> Z -> Z) l x : zip_with f l (rep (length l) x) = (fun a => f a x) <$> l.
Proof. induction l as [|a l IH]; [done|]. cbn. by f_equal. Qed.

Lemma pack_rep n x : pack (rep n x) = pack (rep n 1) * x.
Proof. induction n as [|n IH]; [done|]. cbn [rep replicate pack] in *. fold (rep n x) (rep n 1) in *. rewrite IH. ring. Qed.

Lemma pack_ones n : pack (rep n (2 ^ w - 1)) = 2 ^ (w * Z.of_nat n) - 1.
Proof.
  induction n as [|n IH]; [by rewrite Z.mul_0_r|]. cbn [rep replicate pack]. fold (rep n (2 ^ w - 1)). rewrite IH, pow_S. ring.
Qed.

(** The quotient that the code uses to repeat an element. *)
Lemma ones_div n : (2 ^ (w * Z.of_nat n) - 1) / (2 ^ w - 1) = pack (rep n 1).
Proof. pose proof pow_w_pos. rewrite <- pack_ones, pack_rep. apply Z.div_mul. lia. Qed.

Lemma pack_map_add l x : pack l + pack (rep (length l) x) = pack ((fun f => f + x) <$> l).
Proof. induction l as [|f l IH]; [done|]. cbn [length rep replicate pack fmap list_fmap] in *. fold (rep (length l) x). change (fmap ?g l) with (g <$> l) in *. rewrite <- IH. ring. Qed.
End pack.

(** ** [test_zero] *)

Section zero.
Context (w : Z) (Hw : 0 < w).
Local Abbreviation K := (2 ^ w).
Local Abbreviation top := (2 ^ (w - 1)).

Definition zero_test (l : list Z) : Z :=
  Z.land (Z.land ((pack w l - pack w (rep (length l) 1)) mod 2 ^ (w * Z.of_nat (length l)))
                 (pack w (rep (length l) (K - 1)) - pack w l))
         (pack w (rep (length l) top)).

Lemma pow_top : K = 2 * top.
Proof. rewrite <- pow2_double by lia. f_equal. lia. Qed.

Lemma top_bit f : 0 <= f < K -> Z.testbit f (w - 1) = (top <=? f).
Proof.
  intros Hf. pose proof pow_top. pose proof (pow2_pos (w - 1) ltac:(lia)).
  destruct (Z.leb_spec top f) as [Ht|Ht].
  - apply Z.testbit_true; [lia|]. replace (f / top) with 1; [done|]. apply Z.div_unique with (f - top); lia.
  - apply Z.testbit_false; [lia|]. by rewrite Z.div_small by lia.
Qed.

Lemma land_top f : 0 <= f < K -> Z.land f top = if top <=? f then top else 0.
Proof.
  intros Hf. apply Z.bits_inj'. intros j Hj. rewrite Z.land_spec, Z.pow2_bits_eqb by lia.
  destruct (Z.eqb_spec (w - 1) j) as [<-|Hne].
  - rewrite andb_true_r, top_bit by done. destruct (_ <=? _); [by rewrite Z.pow2_bits_true by lia|by rewrite Z.bits_0].
  - rewrite andb_false_r. destruct (_ <=? _); [by rewrite Z.pow2_bits_false|by rewrite Z.bits_0].
Qed.

Lemma top_ok n : fields_ok w (rep n top).
Proof. apply rep_ok; pose proof pow_top; pose proof (pow2_pos (w - 1) ltac:(lia)); lia. Qed.

(** The lowest element of the test and the rest. *)
Lemma land3_cons f r g s h t :
  0 <= f < K -> 0 <= g < K -> 0 <= h < K ->
  Z.land (Z.land (f + K * r) (g + K * s)) (h + K * t) = Z.land (Z.land f g) h + K * Z.land (Z.land r s) t.
Proof.
  intros Hf Hg Hh. rewrite !(cons_op w Hw Z.land andb); try done; try (intros; apply Z.land_spec);
    try (by apply land_bounds). apply land_bounds; [done|by apply land_bounds|done].
Qed.

Lemma zero_test_spec l : fields_ok w l -> 0 <= zero_test l /\ (zero_test l <> 0 <-> 0 ∈ l).
Proof.
  pose proof pow_top as Ht. pose proof (pow2_pos (w - 1) ltac:(lia)) as Htp.
  induction 1 as [|f l Hf Hl [Hnn IH]]; [split; [done|split; [done|by intros ?%not_elem_of_nil]]|].
  unfold zero_test. cbn [length rep replicate pack]. fold (rep (length l) 1) (rep (length l) (K - 1)) (rep (length l) top).
  rewrite pow_S by done. set (M := 2 ^ (w * Z.of_nat (length l))) in *.
  assert (0 < M) as HM by (apply pow2_pos; lia).
  set (L := pack w (rep (length l) 1)) in *. set (V := pack w l) in *.
  replace (f + K * V - (1 + K * L)) with ((f - 1) + (V - L) * K) by ring.
  rewrite Z.rem_mul_r, Z_mod_plus_full, Z_div_plus by lia.
  replace (K - 1 + K * pack w (rep (length l) (K - 1)) - (f + K * V)) with ((K - 1 - f) + K * (pack w (rep (length l) (K - 1)) - V)) by ring.
  destruct (decide (f = 0)) as [->|Hf0].
  - replace ((0 - 1) mod K) with (K - 1).
    2: { apply Z.mod_unique with (-1); lia. }
    rewrite land3_cons by lia. rewrite Z.sub_0_r, Z.land_diag, land_top by lia.
    rewrite (proj2 (Z.leb_le _ _)) by lia.
    assert (0 <= Z.land (Z.land (((0 - 1) / K + (V - L)) mod M) (pack w (rep (length l) (K - 1)) - V)) (pack w (rep (length l) top))).
    { apply Z.land_nonneg. right. apply pack_bounds; [done|]. apply top_ok. }
    split; [nia|]. split; [intros _; left|nia].
  - rewrite Z.mod_small, Z.div_small, Z.add_0_l by lia. rewrite land3_cons by lia.
    assert (Z.land (Z.land (f - 1) (K - 1 - f)) top = 0) as ->.
    { rewrite land_top by (apply land_bounds; lia). destruct (Z.leb_spec top (Z.land (f - 1) (K - 1 - f))) as [Hc|]; [|done].
      exfalso. assert (Z.testbit (Z.land (f - 1) (K - 1 - f)) (w - 1) = true) as Hb.
      { rewrite top_bit by (apply land_bounds; lia). by apply Z.leb_le. }
      rewrite Z.land_spec, !top_bit in Hb by lia. lia. }
    fold (zero_test l) in *. change (Z.land (Z.land ((V - L) mod M) (pack w (rep (length l) (K - 1)) - V)) (pack w (rep (length l) top))) with (zero_test l).
    rewrite Z.add_0_l. split; [nia|]. rewrite elem_of_cons, <- IH. split; [right; nia|]. intros [?|?]; [lia|nia].
Qed.
End zero.

(** The widths of the chunks and the number of elements of a chunk. *)
Definition chunk_widths : list Z := [1; 2; 4; 8; 16; 32; 64].
Definition per_chunk (w : Z) : nat := Z.to_nat (64 / w).

Ltac each_width Hw := unfold chunk_widths in Hw; repeat (apply elem_of_cons in Hw as [->|Hw]); [..|by apply not_elem_of_nil in Hw].

Lemma chunk_width_pos w : w ∈ chunk_widths -> 0 < w.
Proof. intros Hw. by each_width Hw. Qed.

Lemma per_chunk_bits w : w ∈ chunk_widths -> w * Z.of_nat (per_chunk w) = 64.
Proof. intros Hw. by each_width Hw. Qed.

Lemma chunk_size_no0 w : w ∈ chunk_widths -> 64 / no0 w = Z.of_nat (per_chunk w).
Proof. intros Hw. by each_width Hw. Qed.

Lemma chunk_width_le w : w ∈ chunk_widths -> w <= 64.
Proof. intros Hw. by each_width Hw. Qed.

Lemma per_chunk_range w : w ∈ chunk_widths -> 1 <= Z.of_nat (per_chunk w) <= 64.
Proof. intros Hw. by each_width Hw. Qed.

Lemma lower_bits_pack w : w ∈ chunk_widths -> lower_bits w = pack w (rep (per_chunk w) 1).
Proof. intros Hw. by each_width Hw; vm_compute. Qed.

Lemma upper_bits_pack w : w ∈ chunk_widths -> upper_bits w = pack w (rep (per_chunk w) (2 ^ (w - 1))).
Proof. intros Hw. by each_width Hw; vm_compute. Qed.

Lemma width_mask_ones w : w ∈ chunk_widths -> width_mask w = 2 ^ w - 1.
Proof. intros Hw. by each_width Hw; vm_compute. Qed.

Lemma half_chunk w : w ∈ chunk_widths -> w <= 8 ->
  64 / no0 w / 2 = Z.of_nat (Z.to_nat (32 / w)) /\ w * Z.of_nat (Z.to_nat (32 / w)) = 32 /\ (Z.to_nat (32 / w) <= per_chunk w)%nat.
Proof. intros Hw. each_width Hw; intros ?; try lia; repeat split; solve [by vm_compute|vm_compute; lia]. Qed.

Lemma quarter_chunk w : w ∈ chunk_widths -> w <= 4 ->
  64 / no0 w / 4 = Z.of_nat (Z.to_nat (16 / w)) /\ w * Z.of_nat (Z.to_nat (16 / w)) = 16 /\
  Z.of_nat (Z.to_nat (32 / w)) + Z.of_nat (Z.to_nat (16 / w)) = Z.of_nat (Z.to_nat (48 / w)) /\
  w * Z.of_nat (Z.to_nat (48 / w)) = 48 /\ (Z.to_nat (16 / w) <= per_chunk w)%nat /\ (Z.to_nat (48 / w) <= per_chunk w)%nat.
Proof. intros Hw. each_width Hw; intros ?; try lia; repeat split; solve [by vm_compute|vm_compute; lia]. Qed.

(** A list of the elements of a chunk. *)
Definition chunk_of (w : Z) (l : list Z) : Prop := length l = per_chunk w /\ fields_ok w l.

Lemma chunk_bounds w l : w ∈ chunk_widths -> chunk_of w l -> 0 <= pack w l < 2 ^ 64.
Proof.
  intros Hw [Hl Hf]. pose proof (pack_bounds w (chunk_width_pos w Hw) l Hf) as B. by rewrite Hl, per_chunk_bits in B.
Qed.

Lemma all_ones_pack w : w ∈ chunk_widths -> all_ones = pack w (rep (per_chunk w) (2 ^ w - 1)).
Proof. intros Hw. rewrite pack_ones, per_chunk_bits by (done || by apply chunk_width_pos). done. Qed.

Lemma lor_ones_all w x : 0 < w -> 0 <= x < 2 ^ w -> Z.lor x (2 ^ w - 1) = 2 ^ w - 1.
Proof.
  intros Hw Hx. replace (2 ^ w - 1) with (Z.ones w) by (rewrite Z.ones_equiv; lia).
  apply Z.lor_ones_low; [lia|]. destruct (decide (x = 0)) as [->|]; [done|]. apply Z.log2_lt_pow2; lia.
Qed.

(** The complement of a word. *)
Lemma complement v : 0 <= v < 2 ^ 64 -> Z.lxor v all_ones = all_ones - v.
Proof.
  intros Hv. unfold all_ones. replace (2 ^ 64 - 1) with (Z.ones 64) by done.
  apply Z.bits_inj'. intros j Hj. rewrite Z.lxor_spec.
  replace (Z.ones 64 - v) with (Z.land (Z.lnot v) (Z.ones 64)).
  - rewrite Z.land_spec, Z.lnot_spec by lia. destruct (decide (j < 64)).
    + rewrite Z.ones_spec_low by lia. by destruct (Z.testbit v j).
    + rewrite Z.ones_spec_high, andb_false_r by lia. rewrite <- (Z.mod_small v (2 ^ 64)), Z.mod_pow2_bits_high by lia. done.
  - rewrite Z.land_ones by lia. unfold Z.lnot. change (Z.ones 64) with (2 ^ 64 - 1).
    symmetry. apply Z.mod_unique with (-1); lia.
Qed.

Lemma test_zero_spec w l : w ∈ chunk_widths -> chunk_of w l -> test_zero w (pack w l) = bool_decide (0 ∈ l).
Proof.
  intros Hw Hc. pose proof Hc as [Hl Hf]. pose proof (chunk_bounds w l Hw Hc) as B.
  destruct (zero_test_spec w (chunk_width_pos w Hw) l Hf) as [Hnn Hz].
  assert (test_zero w (pack w l) = negb (zero_test w l =? 0)) as ->.
  { unfold test_zero, zero_test. rewrite complement, lower_bits_pack, upper_bits_pack, (all_ones_pack w), Hl, per_chunk_bits by done. done. }
  destruct (Z.eqb_spec (zero_test w l) 0); cbn [negb]; symmetry.
  - apply bool_decide_eq_false. intros ?%Hz. done.
  - apply bool_decide_eq_true. by apply Hz.
Qed.

(** ** [find_zero] *)

Section chunks.
Context `{Primitives} (w : Z) (Hw : w ∈ chunk_widths).
Local Abbreviation n := (per_chunk w).

(** The elements that are searched for: the zeros, or those that are not zero. *)
Definition zero_match (eq : bool) (f : Z) : bool := Bool.eqb eq (f =? 0).

Lemma shr64_field l k :
  chunk_of w l -> (k < n)%nat -> Z.land (shr64 (pack w l) (w * Z.of_nat k)) (width_mask w) = default 0 (l !! k).
Proof.
  intros [Hl Hf] Hk. pose proof (chunk_width_pos w Hw). pose proof (per_chunk_bits w Hw).
  unfold shr64. rewrite (proj2 (Z.ltb_lt _ _)) by nia. rewrite width_mask_ones, land_ones_mod by (done || lia).
  by apply field_pack.
Qed.

(** The position of the first match. *)
Definition first_match (eq : bool) (l : list Z) (i : Z) : Prop :=
  exists f, 0 <= i /\ l !! Z.to_nat i = Some f /\ zero_match eq f = true /\
    forall j g, 0 <= j < i -> l !! Z.to_nat j = Some g -> zero_match eq g = false.

Lemma find_zero_loop_spec eq l i start fuel :
  chunk_of w l -> first_match eq l i -> 0 <= start <= i -> i - start < Z.of_nat fuel ->
  find_zero_loop fuel eq w (pack w l) start = Ok i.
Proof.
  intros Hc (f & Hi & Ef & Hm & Hbefore). pose proof Hc as [Hl Hok].
  pose proof (lookup_lt_Some _ _ _ Ef) as Hlt. pose proof (per_chunk_bits w Hw). pose proof (chunk_width_pos w Hw).
  revert start. induction fuel as [|fuel IH]; intros start Hs Hf; [lia|]. cbn [find_zero_loop].
  destruct (lookup_lt_is_Some_2 l (Z.to_nat start)) as [g Eg]; [lia|].
  pose proof (shr64_field l (Z.to_nat start) Hc ltac:(lia)) as E. rewrite Z2Nat.id in E by lia. rewrite E, Eg. change (default 0 (Some g)) with g.
  replace (Bool.eqb eq (negb (g =? 0))) with (negb (zero_match eq g)) by (unfold zero_match; by destruct eq, (g =? 0)).
  destruct (decide (start = i)) as [->|].
  - rewrite Ef in Eg. injection Eg as <-. by rewrite Hm.
  - rewrite (Hbefore start g) by (done || lia). cbn [negb]. rewrite (proj2 (Z.leb_le _ _)) by nia.
    cbn [realm_assert mbind result_bind]. apply IH; lia.
Qed.

(** The words that the bisection tests: the elements from [k] on are all ones, or zero. *)
Lemma ones_from l k m :
  chunk_of w l -> (k <= n)%nat -> m = 2 ^ 64 - 2 ^ (w * Z.of_nat k) ->
  Z.lor (pack w l) m = pack w (take k l ++ rep (n - k) (2 ^ w - 1)).
Proof.
  intros [Hl Hf] Hk ->. pose proof (chunk_width_pos w Hw) as Hp.
  assert (2 ^ 64 - 2 ^ (w * Z.of_nat k) = pack w (rep k 0 ++ rep (n - k) (2 ^ w - 1))) as ->.
  { rewrite pack_app, pack_rep, pack_ones, Z.mul_0_r, Z.add_0_l by done. unfold rep. rewrite length_replicate.
    rewrite Z.mul_sub_distr_l, <- Z.pow_add_r, <- Z.mul_add_distr_l, Z.mul_1_r by nia. do 2 f_equal.
    rewrite <- Nat2Z.inj_add. replace (k + (n - k))%nat with n by lia. symmetry. by apply per_chunk_bits. }
  pose proof (pow_w_pos w Hp). rewrite pack_lor; [f_equal|done|done| |].
  - rewrite <- (take_drop k l) at 1. rewrite zip_with_app by (unfold rep; rewrite length_take, length_replicate; lia). f_equal.
    + assert (k = length (take k l)) as E by (rewrite length_take; lia). rewrite E at 2. rewrite zip_rep.
      rewrite (list_fmap_ext _ id); [apply list_fmap_id|]. intros _ x _. apply Z.lor_0_r.
    + assert (n - k = length (drop k l))%nat as E by (rewrite length_drop; lia). rewrite E, zip_rep.
      unfold rep. apply list_eq. intros i. rewrite list_lookup_fmap. destruct (drop k l !! i) as [x|] eqn:Ex; cbn.
      * rewrite lookup_replicate_2 by (by eapply lookup_lt_Some). f_equal.
        assert (0 <= x < 2 ^ w) as Hx by (assert (fields_ok w (drop k l)) as Hd by (by apply Forall_drop); unfold fields_ok in Hd; rewrite Forall_lookup in Hd; by apply (Hd i)).
        by apply lor_ones_all.
      * by rewrite lookup_ge_None_2 by (rewrite length_replicate; by apply lookup_ge_None_1).
  - apply Forall_app. split; apply rep_ok; lia.
  - unfold rep. rewrite length_app, !length_replicate. lia.
Qed.

Lemma low_part l k :
  chunk_of w l -> (k <= n)%nat -> Z.land (pack w l) (2 ^ (w * Z.of_nat k) - 1) = pack w (take k l).
Proof.
  intros [Hl Hf] Hk. pose proof (chunk_width_pos w Hw) as Hp. rewrite land_ones_mod by nia.
  rewrite <- (take_drop k l) at 1. rewrite pack_app, length_take_le, Z.mul_comm, Z_mod_plus_full by lia.
  apply Z.mod_small. pose proof (pack_bounds w Hp (take k l) ltac:(by apply Forall_take)) as B.
  by rewrite length_take_le in B by lia.
Qed.

Lemma pack_zero l : fields_ok w l -> (pack w l =? 0) = bool_decide (Forall (fun f => f = 0) l).
Proof.
  pose proof (chunk_width_pos w Hw) as Hp. pose proof (pow_w_pos w Hp).
  induction 1 as [|f l Hf Hl IH]; [done|]. cbn [pack]. pose proof (pack_bounds w Hp l Hl).
  destruct (Z.eqb_spec (f + 2 ^ w * pack w l) 0) as [E|E].
  - symmetry. apply bool_decide_eq_true. assert (f = 0 /\ pack w l = 0) as [-> E'] by nia.
    rewrite E', Z.eqb_refl in IH. symmetry in IH. apply bool_decide_eq_true in IH. by constructor.
  - symmetry. apply bool_decide_eq_false. intros [-> Hz]%Forall_cons.
    rewrite bool_decide_true in IH by done. apply Z.eqb_eq in IH. nia.
Qed.

(** Whether the first [k] elements have no match, by the tests of the bisection. *)
Lemma bisect_spec (eq : bool) l k m1 m2 :
  chunk_of w l -> (k <= n)%nat -> m1 = 2 ^ 64 - 2 ^ (w * Z.of_nat k) -> m2 = 2 ^ (w * Z.of_nat k) - 1 ->
  (if eq then negb (test_zero w (Z.lor (pack w l) m1)) else Z.land (pack w l) m2 =? 0) = true ->
  forall j g, 0 <= j < Z.of_nat k -> l !! Z.to_nat j = Some g -> zero_match eq g = false.
Proof.
  intros Hc Hk E1 E2 Ht j g Hj Eg. pose proof Hc as [Hl Hf]. pose proof (chunk_width_pos w Hw) as Hp.
  assert (g ∈ take k l) as Hin by (apply list_elem_of_lookup; exists (Z.to_nat j); rewrite lookup_take_lt by lia; done).
  destruct eq.
  - rewrite (ones_from l k m1) in Ht by done. rewrite test_zero_spec in Ht.
    + apply negb_true_iff, bool_decide_eq_false in Ht. unfold zero_match. destruct (Z.eqb_spec g 0) as [->|]; [|done].
      exfalso. apply Ht. rewrite elem_of_app. by left.
    + done.
    + pose proof (pow_w_pos w Hp). split; [unfold rep; rewrite length_app, length_take, length_replicate; lia|].
      apply Forall_app. split; [by apply Forall_take|apply rep_ok; lia].
  - rewrite E2, low_part, pack_zero in Ht by (done || by apply Forall_take). apply bool_decide_eq_true in Ht.
    rewrite Forall_forall in Ht. by rewrite (Ht g Hin).
Qed.

Lemma find_zero_spec eq l i : chunk_of w l -> first_match eq l i -> find_zero eq w (pack w l) = Ok i.
Proof.
  intros Hc Hfirst. pose proof Hfirst as (f & Hi & Ef & Hm & Hbefore). pose proof Hc as [Hl Hok].
  pose proof (lookup_lt_Some _ _ _ Ef) as Hlt. unfold find_zero.
  destruct (lookup_lt_is_Some_2 l 0%nat ltac:(lia)) as [g0 Eg0].
  pose proof (shr64_field l 0 Hc ltac:(lia)) as E0. change (Z.of_nat 0) with 0 in E0. rewrite E0, Eg0. change (default 0 (Some g0)) with g0.
  fold (zero_match eq g0). destruct (zero_match eq g0) eqn:Hg0.
  { f_equal. destruct (decide (i = 0)); [done|]. by rewrite (Hbefore 0 g0) in Hg0 by (done || lia). }
  assert (forall k m1 m2, (k <= n)%nat -> m1 = 2 ^ 64 - 2 ^ (w * Z.of_nat k) -> m2 = 2 ^ (w * Z.of_nat k) - 1 ->
    (if eq then negb (test_zero w (Z.lor (pack w l) m1)) else Z.land (pack w l) m2 =? 0) = true -> 0 <= Z.of_nat k <= i) as Hk.
  { intros k m1 m2 Hk E1 E2 Ht. split; [lia|]. destruct (decide (Z.of_nat k <= i)); [done|].
    by rewrite (bisect_spec eq l k m1 m2 Hc Hk E1 E2 Ht i f) in Hm by (done || lia). }
  pose proof (half_chunk w Hw) as Hh. pose proof (quarter_chunk w Hw) as Hq.
  match goal with |- find_zero_loop _ _ _ _ ?s = _ => assert (0 <= s <= i) as Hs end.
  - destruct (Z.leb_spec w 8) as [H8|]; [|lia]. destruct (Hh H8) as (-> & E32 & L32).
    destruct (if eq then negb (test_zero w (Z.lor (pack w l) 0xffffffff00000000)) else Z.land (pack w l) 0x00000000ffffffff =? 0) eqn:T1.
    + pose proof (Hk _ 0xffffffff00000000 0x00000000ffffffff L32 ltac:(rewrite E32; reflexivity) ltac:(rewrite E32; reflexivity) T1) as Hi1.
      destruct (Z.leb_spec w 4) as [H4|]; [|done]. destruct (Hq H4) as (-> & _ & Es & E48 & _ & L48).
      destruct (if eq then negb (test_zero w (Z.lor (pack w l) 0xffff000000000000)) else Z.land (pack w l) 0x0000ffffffffffff =? 0) eqn:T2; [|done].
      rewrite Es. exact (Hk _ 0xffff000000000000 0x0000ffffffffffff L48 ltac:(rewrite E48; reflexivity) ltac:(rewrite E48; reflexivity) T2).
    + destruct (Z.leb_spec w 4) as [H4|]; [|lia]. destruct (Hq H4) as (-> & E16 & _ & _ & L16 & _).
      destruct (if eq then negb (test_zero w (Z.lor (pack w l) 0xffffffffffff0000)) else Z.land (pack w l) 0x000000000000ffff =? 0) eqn:T2; [|lia].
      exact (Hk _ 0xffffffffffff0000 0x000000000000ffff L16 ltac:(rewrite E16; reflexivity) ltac:(rewrite E16; reflexivity) T2).
  - apply find_zero_loop_spec; try done. pose proof (per_chunk_bits w Hw). pose proof (chunk_width_pos w Hw). nia.
Qed.
End chunks.

(** ** [cascade] *)

Section smear.
Context (w : Z) (Hw : 0 < w).

Definition smear (s f : Z) : Z := Z.lor f (Z.shiftr f s).

Lemma shiftr_bounds f s : 0 <= s -> 0 <= f < 2 ^ w -> 0 <= Z.shiftr f s < 2 ^ w.
Proof.
  intros Hs Hf. rewrite Z.shiftr_div_pow2 by done. pose proof (pow2_pos s Hs).
  split; [apply Z.div_pos; lia|]. apply Z.div_lt_upper_bound; [done|]. nia.
Qed.

Lemma smear_bounds s f : 0 <= s -> 0 <= f < 2 ^ w -> 0 <= smear s f < 2 ^ w.
Proof. intros Hs Hf. apply lor_bounds; [done..|by apply shiftr_bounds]. Qed.

(** A shift of a chunk, with the bits from the next elements masked out. *)
Lemma shift_masked s l :
  0 < s < w -> fields_ok w l ->
  Z.land (Z.shiftr (pack w l) s) (pack w (rep (length l) (2 ^ (w - s) - 1))) = pack w ((fun f => Z.shiftr f s) <$> l).
Proof.
  intros Hs. induction 1 as [|f l Hf Hl IH]; [by rewrite Z.land_0_r|]. pose proof (pow_w_pos w Hw).
  assert (0 <= 2 ^ (w - s) - 1 < 2 ^ w) as Hm.
  { pose proof (pow2_pos (w - s) ltac:(lia)). pose proof (pow2_le (w - s) w ltac:(lia)). lia. }
  rewrite fmap_cons. cbn [pack length rep replicate]. fold (rep (length l) (2 ^ (w - s) - 1)). rewrite <- IH.
  apply Z.bits_inj'. intros j Hj.
  rewrite Z.land_spec, Z.shiftr_spec, !cons_bits by (done || lia || by apply shiftr_bounds; lia).
  replace (2 ^ (w - s) - 1) with (Z.ones (w - s)) by (rewrite Z.ones_equiv; lia). destruct (decide (j < w)) as [Hjw|Hjw].
  - rewrite Z.shiftr_spec by done. destruct (decide (j < w - s)).
    + rewrite Z.ones_spec_low, andb_true_r, decide_True by lia. done.
    + rewrite Z.ones_spec_high, andb_false_r by lia. symmetry.
      rewrite <- (Z.mod_small f (2 ^ w)), Z.mod_pow2_bits_high by lia. done.
  - rewrite decide_False by lia. rewrite Z.land_spec, Z.shiftr_spec by lia. do 2 f_equal. lia.
Qed.

Lemma cascade_step_pack s c l :
  0 < s < w -> fields_ok w l -> c = pack w (rep (length l) (2 ^ (w - s) - 1)) ->
  cascade_step s c (pack w l) = pack w (smear s <$> l).
Proof.
  intros Hs Hl ->. unfold cascade_step. rewrite shift_masked by done. rewrite pack_lor; [|done|done| |by rewrite length_fmap].
  - f_equal. clear Hl. induction l as [|f l IH]; [done|]. cbn. by f_equal.
  - apply Forall_fmap. eapply Forall_impl; [exact Hl|]. intros f Hf. cbn. apply shiftr_bounds; [lia|done].
Qed.

Lemma smear_ok s l : 0 <= s -> fields_ok w l -> fields_ok w (smear s <$> l).
Proof. intros Hs Hl. apply Forall_fmap. eapply Forall_impl; [exact Hl|]. intros f Hf. by apply smear_bounds. Qed.

(** A bit of [a] tells whether one of the [s] bits of [f] from there is set. *)
Definition gathers (s f a : Z) : Prop := forall j, 0 <= j -> Z.testbit a j = negb (Z.shiftr f j mod 2 ^ s =? 0).

Lemma gathers_1 f : gathers 1 f f.
Proof.
  intros j Hj. rewrite <- (Z.add_0_l j) at 1. rewrite <- Z.shiftr_spec by lia.
  rewrite Z.bit0_odd, Zmod_odd. by destruct (Z.odd _).
Qed.

Lemma gathers_smear s f a : 0 < s -> gathers s f a -> gathers (2 * s) f (smear s a).
Proof.
  intros Hs Hg j Hj. unfold smear. rewrite Z.lor_spec, Z.shiftr_spec, !Hg by lia.
  replace (2 * s) with (s + s) by lia. rewrite Z.pow_add_r, Z.rem_mul_r by (try apply pow2_pos; lia).
  rewrite <- (Z.shiftr_div_pow2 _ s), Z.shiftr_shiftr by lia. set (x := _ mod _). set (y := Z.shiftr f (j + s) mod _).
  assert (0 <= x < 2 ^ s /\ 0 <= y < 2 ^ s) as [Hx Hy] by (split; apply Z.mod_pos_bound, pow2_pos; lia).
  destruct (Z.eqb_spec x 0), (Z.eqb_spec y 0), (Z.eqb_spec (x + 2 ^ s * y) 0); cbn; try done; nia.
Qed.

Lemma gathers_low f a : 0 <= f < 2 ^ w -> gathers w f a -> Z.land a 1 = Z.b2z (negb (f =? 0)).
Proof.
  intros Hf Hg. change 1 with (2 ^ 1 - 1) at 1. rewrite land_ones_mod by lia. change (2 ^ 1) with 2. rewrite <- (Z.bit0_mod a), Hg by lia.
  by rewrite Z.shiftr_0_r, Z.mod_small.
Qed.
End smear.

(** The last steps of [cascade]. *)
Lemma cascade_finish w l m (zero : bool) (g : Z -> Z) :
  w ∈ chunk_widths -> chunk_of w l -> m = pack w (rep (per_chunk w) 1) -> fields_ok w (g <$> l) ->
  (forall f, 0 <= f < 2 ^ w -> Z.land (g f) 1 = Z.b2z (negb (f =? 0))) ->
  (if zero then Z.lxor (Z.land (pack w (g <$> l)) m) m else Z.land (pack w (g <$> l)) m) =
  pack w ((fun f => Z.b2z (zero_match zero f)) <$> l).
Proof.
  intros Hw [Hl Hf] -> Hg Hlow. pose proof (chunk_width_pos w Hw) as Hp. pose proof (pow_w_pos w Hp).
  assert (fields_ok w (rep (per_chunk w) 1)) as H1 by (apply rep_ok; lia).
  assert (Z.land (pack w (g <$> l)) (pack w (rep (per_chunk w) 1)) = pack w ((fun f => Z.b2z (negb (f =? 0))) <$> l)) as ->.
  { rewrite pack_land; [|done..|unfold rep; by rewrite length_fmap, length_replicate]. f_equal.
    rewrite <- Hl, <- (length_fmap g l), zip_rep, <- list_fmap_compose. apply list_fmap_ext.
    intros i f Ef. unfold fields_ok in Hf. rewrite Forall_lookup in Hf. by apply Hlow, (Hf i). }
  destruct zero; [|done].
  rewrite pack_lxor; [|done| |done|unfold rep; by rewrite length_fmap, length_replicate].
  - f_equal. rewrite <- Hl, <- (length_fmap (fun f => Z.b2z (negb (f =? 0))) l), zip_rep, <- list_fmap_compose. apply list_fmap_ext.
    intros _ f _. unfold zero_match. cbn. by destruct (f =? 0).
  - apply Forall_fmap, Forall_forall. intros f _. cbn. destruct (f =? 0); cbn; lia.
Qed.

(** One step of a cascade, with the constant of the code. *)
Ltac step_cascade w s :=
  rewrite (cascade_step_pack w ltac:(lia) s) by
    (lia || (repeat apply smear_ok; lia || done) || (rewrite ?length_fmap; match goal with H : length ?l = _ |- context [length ?l] => rewrite H end; reflexivity)).

Ltac finish_cascade w :=
  rewrite <- ?list_fmap_compose; apply (cascade_finish w); [done|done|reflexivity|rewrite ?list_fmap_compose; repeat apply smear_ok; lia || done|];
  intros f Hb; cbn [compose]; apply (gathers_low w); [done|];
  repeat match goal with |- gathers ?n _ _ => lazymatch n with 1 => apply gathers_1 | _ =>
    let m := eval vm_compute in (n / 2) in change n with (2 * m); apply gathers_smear; [lia|] end end.

Lemma cascade_spec w zero l :
  w ∈ chunk_widths -> chunk_of w l ->
  cascade w zero (pack w l) = pack w ((fun f => Z.b2z (zero_match zero f)) <$> l).
Proof.
  intros Hw Hc. pose proof Hc as [Hl Hf]. pose proof (chunk_bounds w l Hw Hc) as B. pose proof Hw as Hin. each_width Hw.
  all: unfold cascade; cbn [Z.eqb Pos.eqb].
  - destruct zero.
    + rewrite (all_ones_pack 1), pack_lxor by (done || (apply rep_ok; done) || (unfold rep; by rewrite length_replicate)).
      f_equal. rewrite <- Hl, zip_rep. apply list_fmap_ext. intros i f Ef.
      unfold fields_ok in Hf. rewrite Forall_lookup in Hf. specialize (Hf i f Ef). change (2 ^ 1) with 2 in Hf.
      assert (f = 0 \/ f = 1) as [->| ->] by lia; done.
    + f_equal. rewrite <- (list_fmap_id l) at 1. apply list_fmap_ext. intros i f Ef.
      unfold fields_ok in Hf. rewrite Forall_lookup in Hf. specialize (Hf i f Ef). change (2 ^ 1) with 2 in Hf.
      assert (f = 0 \/ f = 1) as [->| ->] by lia; done.
  - step_cascade 2 1. finish_cascade 2.
  - step_cascade 4 1. step_cascade 4 2. finish_cascade 4.
  - step_cascade 8 1. step_cascade 8 2. step_cascade 8 4. finish_cascade 8.
  - step_cascade 16 1. step_cascade 16 2. step_cascade 16 4. step_cascade 16 8. finish_cascade 16.
  - step_cascade 32 1. step_cascade 32 2. step_cascade 32 4. step_cascade 32 8. step_cascade 32 16. finish_cascade 32.
  - destruct l as [|f [|]]; try done. cbn [pack fmap list_fmap]. rewrite !Z.add_0_r. f_equal. unfold zero_match.
    by destruct zero, (f =? 0).
Qed.

(** ** The pattern of [find_gtlt_fast] *)

(** The number of set bits, and the first one, of a word. *)
Definition popcount (v : Z) : Z := foldr (fun i n => Z.b2z (Z.testbit v i) + n) 0 (seqZ 0 64).
Definition first_set (v i : Z) : Prop := 0 <= i < 64 /\ Z.testbit v i = true /\ forall j, 0 <= j < i -> Z.testbit v j = false.

Lemma rep_lookup n x i : (i < n)%nat -> rep n x !! i = Some x.
Proof. intros. by apply lookup_replicate_2. Qed.

Lemma magic_pack gt w v :
  w ∈ chunk_widths -> w <= 32 -> 0 <= v < 2 ^ (w - 1) ->
  find_gtlt_magic gt w v = pack w (rep (per_chunk w) (if gt then 2 ^ (w - 1) - 1 - v else v)).
Proof.
  intros Hw H32 Hv. pose proof (chunk_width_pos w Hw) as Hp. pose proof (pow_w_pos w Hp) as H1.
  pose proof (pow_top w Hp) as Ht. unfold find_gtlt_magic. rewrite width_mask_ones by done.
  assert (Z.shiftr (2 ^ w - 1) 1 = 2 ^ (w - 1) - 1) as ->.
  { rewrite Z.shiftr_div_pow2 by lia. change (2 ^ 1) with 2. symmetry. apply Z.div_unique with 1; lia. }
  assert (no0 (2 ^ w - 1) = 2 ^ w - 1) as -> by (unfold no0; by rewrite (proj2 (Z.eqb_neq _ _)) by lia).
  assert (all_ones / (2 ^ w - 1) = pack w (rep (per_chunk w) 1)) as ->.
  { rewrite <- (ones_div w Hp), per_chunk_bits by done. done. }
  pose proof (pow2_le w 32 H32).
  assert (forall x, 0 <= x < 2 ^ (w - 1) -> u64 (pack w (rep (per_chunk w) 1) * u64 x) = pack w (rep (per_chunk w) x)) as E.
  { intros x Hx. rewrite (u64_small x) by (change word_size with (2 ^ 64); change (2 ^ 64) with (2 ^ 32 * 2 ^ 32); nia).
    rewrite <- pack_rep. apply u64_small. change word_size with (2 ^ 64). apply (chunk_bounds w); [done|].
    split; [unfold rep; by rewrite length_replicate|]. apply rep_ok. lia. }
  destruct gt; apply E; lia.
Qed.

Lemma tops_pack w :
  w ∈ chunk_widths -> u64 (all_ones / no0 (width_mask w) * (Z.shiftr (width_mask w) 1 + 1)) = pack w (rep (per_chunk w) (2 ^ (w - 1))).
Proof. intros Hw. by each_width Hw; vm_compute. Qed.

Definition greater_top (w v f : Z) : Z := if v <? f then 2 ^ (w - 1) else 0.

Lemma gtlt_pattern_spec w v l :
  w ∈ chunk_widths -> w <= 32 -> 0 <= v < 2 ^ (w - 1) -> chunk_of w l -> Forall (fun f => f < 2 ^ (w - 1)) l ->
  gtlt_pattern true w (pack w l) (find_gtlt_magic true w v) = pack w (greater_top w v <$> l).
Proof.
  intros Hw H32 Hv Hc Hlow. pose proof Hc as [Hl Hf]. pose proof (chunk_width_pos w Hw) as Hp.
  pose proof (pow_top w Hp) as Ht. unfold gtlt_pattern. rewrite tops_pack, magic_pack by done.
  assert (Forall (fun f => 0 <= f < 2 ^ (w - 1)) l) as Hr.
  { apply Forall_forall. intros f Hin. unfold fields_ok in Hf. rewrite Forall_forall in Hlow, Hf.
    specialize (Hlow f Hin). specialize (Hf f Hin). cbn in *. lia. }
  set (d := 2 ^ (w - 1) - 1 - v) in *.
  assert (fields_ok w ((fun f => f + d) <$> l)) as Hs.
  { apply Forall_fmap. eapply Forall_impl; [exact Hr|]. cbn. intros f Hf'. lia. }
  rewrite <- Hl, pack_map_add, u64_small.
  2: { change word_size with (2 ^ 64). apply (chunk_bounds w); [done|]. by split; [rewrite length_fmap|]. }
  rewrite pack_lor; [|done..|by rewrite length_fmap].
  rewrite pack_land; [|done| |rewrite Hl; by apply top_ok|unfold rep; rewrite length_zip_with, length_fmap, length_replicate; lia].
  - f_equal. clear Hc Hl Hlow Hs Hf. induction Hr as [|f l Hf _ IH]; [done|].
    cbn [length rep replicate fmap list_fmap zip_with]. f_equal; [|exact IH].
    rewrite Z.land_lor_distr_l, !land_top by lia. unfold greater_top.
    rewrite (proj2 (Z.leb_gt (2 ^ (w - 1)) f)), Z.lor_0_r by lia.
    destruct (Z.ltb_spec v f), (Z.leb_spec (2 ^ (w - 1)) (f + d)); try done; lia.
  - clear -Hs Hf Hp. revert Hs. induction Hf as [|f l Hf _ IH]; intros Hs; [constructor|].
    rewrite fmap_cons in *. apply Forall_cons in Hs as [? Hs]. constructor; [by apply lor_bounds|by apply IH].
Qed.

(** The first element that was found: the first set bit. *)
Lemma pack_bit w l i k :
  0 < w -> fields_ok w l -> 0 <= k < w -> Z.testbit (pack w l) (w * Z.of_nat i + k) = Z.testbit (default 0 (l !! i)) k.
Proof.
  intros Hw Hf Hk. rewrite <- (field_pack w Hw) by done. rewrite field_bits by lia.
  by rewrite (proj2 (Z.ltb_lt _ _)) by lia.
Qed.

Lemma first_set_top w v l i b :
  0 < w -> first_set (pack w (greater_top w v <$> l)) b ->
  (forall j g, (j < i)%nat -> l !! j = Some g -> (v <? g) = false) ->
  (exists f, l !! i = Some f /\ (v <? f) = true) -> b / w = Z.of_nat i.
Proof.
  intros Hw (Hb & Hset & Hfirst) Hbefore (f & Ef & Hm).
  assert (fields_ok w (greater_top w v <$> l)) as Hok.
  { apply Forall_fmap, Forall_forall. intros g _. unfold greater_top. cbn.
    pose proof (pow2_pos (w - 1) ltac:(lia)). pose proof (pow2_double (w - 1) ltac:(lia)) as E.
    replace (w - 1 + 1) with w in E by lia. destruct (v <? g); lia. }
  assert (forall j k, 0 <= k < w -> Z.testbit (pack w (greater_top w v <$> l)) (w * Z.of_nat j + k) = true ->
            k = w - 1 /\ (i <= j)%nat) as Hbits.
  { intros j k Hk Ht. rewrite pack_bit, list_lookup_fmap in Ht by done.
    destruct (l !! j) as [g|] eqn:Eg; cbn in Ht; [|by rewrite Z.bits_0 in Ht]. unfold greater_top in Ht.
    destruct (v <? g) eqn:Hg; [|by rewrite Z.bits_0 in Ht]. split.
    - destruct (decide (k = w - 1)); [done|]. by rewrite Z.pow2_bits_false in Ht by lia.
    - destruct (decide (i <= j)%nat); [done|]. by rewrite (Hbefore j g) in Hg by (done || lia). }
  assert (Z.testbit (pack w (greater_top w v <$> l)) (w * Z.of_nat i + (w - 1)) = true) as Hi.
  { rewrite pack_bit, list_lookup_fmap, Ef by (done || lia). cbn. unfold greater_top. rewrite Hm. by apply Z.pow2_bits_true; lia. }
  pose proof (Z.div_mod b w ltac:(lia)) as Eb. pose proof (Z.mod_pos_bound b w Hw) as Mb.
  assert (0 <= b / w) by (apply Z.div_pos; lia).
  destruct (Hbits (Z.to_nat (b / w)) (b mod w) Mb) as [Ek Hij]; [rewrite Z2Nat.id by done; by rewrite <- Eb|].
  destruct (decide (b / w = Z.of_nat i)); [done|].
  rewrite (Hfirst (w * Z.of_nat i + (w - 1))) in Hi; [done|nia].
Qed.

(** ** The number of matches of a pattern *)

Fixpoint bit_sum (v : Z) (l : list Z) : Z :=
  match l with
  | [] => 0
  | i :: l => Z.b2z (Z.testbit v i) + bit_sum v l
  end.

Lemma popcount_bit_sum v : popcount v = bit_sum v (seqZ 0 64).
Proof. unfold popcount. generalize (seqZ 0 64). induction l as [|i l IH]; [done|]. cbn. by rewrite IH. Qed.

Lemma bit_sum_app v l1 l2 : bit_sum v (l1 ++ l2) = bit_sum v l1 + bit_sum v l2.
Proof. induction l1 as [|i l1 IH]; [done|]. cbn in *. rewrite IH. lia. Qed.

Lemma bit_sum_zero l : bit_sum 0 l = 0.
Proof. induction l as [|i l IH]; [done|]. cbn in *. by rewrite Z.bits_0, IH. Qed.

Lemma bit_sum_ext v v' l l' :
  length l = length l' -> (forall k i i', l !! k = Some i -> l' !! k = Some i' -> Z.testbit v i = Z.testbit v' i') ->
  bit_sum v l = bit_sum v' l'.
Proof.
  revert l'. induction l as [|i l IH]; intros [|i' l'] Hl H; try done. cbn in *. f_equal.
  - f_equal. by apply (H 0%nat).
  - apply IH; [lia|]. intros k. apply (H (S k)).
Qed.

Definition is_bit (f : Z) : Prop := f = 0 \/ f = 1.

Lemma bit_sum_low w f r : 0 < w -> is_bit f -> bit_sum (f + 2 ^ w * r) (seqZ 0 w) = f.
Proof.
  intros Hw Hf. assert (0 <= f < 2 ^ w) as Hb by (pose proof (pow_w_pos w Hw); destruct Hf; lia).
  rewrite seqZ_cons by done. cbn [bit_sum].
  rewrite (bit_sum_ext _ 0 _ (seqZ (Z.succ 0) (Z.pred w))) by (done || (intros k i i' Ei Ei'; rewrite Ei in Ei'; injection Ei' as <-;
    apply list_elem_of_lookup_2, elem_of_seqZ in Ei; rewrite cons_bits, decide_True, Z.bits_0 by lia;
    destruct Hf as [->| ->]; [apply Z.bits_0|]; by rewrite <- (Z.pow_0_r 2), Z.pow2_bits_false by lia)).
  rewrite bit_sum_zero, cons_bits, decide_True, Z.bit0_odd by lia. by destruct Hf as [->| ->].
Qed.

Lemma popcount_pack w n l :
  0 < w -> Forall is_bit l -> w * Z.of_nat (length l) <= n -> bit_sum (pack w l) (seqZ 0 n) = foldr Z.add 0 l.
Proof.
  intros Hw Hl. revert n. induction Hl as [|f l Hf _ IH]; intros n Hn; [apply bit_sum_zero|].
  cbn [length foldr pack] in *. rewrite Nat2Z.inj_succ, Z.mul_succ_r in Hn.
  assert (0 <= w * Z.of_nat (length l)) by (apply Z.mul_nonneg_nonneg; lia).
  replace n with (w + (n - w)) by lia. rewrite seqZ_app by lia.
  rewrite bit_sum_app, bit_sum_low by done. f_equal. rewrite <- (IH (n - w)) by lia.
  apply bit_sum_ext; [by rewrite !length_seqZ|]. intros k i i' Ei Ei'.
  apply lookup_seqZ in Ei as [-> ?]. apply lookup_seqZ in Ei' as [-> ?].
  assert (0 <= f < 2 ^ w) by (pose proof (pow_w_pos w Hw); destruct Hf; lia).
  rewrite cons_bits, decide_False by lia. f_equal. lia.
Qed.

(** The matches of a list of elements, in order, with their positions from [i] on. *)
Fixpoint matches (test : Z -> bool) (i : Z) (l : list Z) : list (Z * Z) :=
  match l with
  | [] => []
  | f :: l => if test f then (i, f) :: matches test (i + 1) l else matches test (i + 1) l
  end.

Lemma sum_matches test i l : foldr Z.add 0 ((fun f => Z.b2z (test f)) <$> l) = Z.of_nat (length (matches test i l)).
Proof.
  revert i. induction l as [|f l IH]; intros i; [done|]. rewrite fmap_cons. cbn [foldr matches].
  rewrite (IH (i + 1)). destruct (test f); cbn [length Z.b2z]; lia.
Qed.

Lemma bits_of_test test (l : list Z) : Forall is_bit ((fun f => Z.b2z (test f)) <$> l).
Proof. apply Forall_fmap, Forall_forall. intros f _. unfold is_bit. cbn. destruct (test f); [by right|by left]. Qed.

Lemma popcount_cascade w zero l i :
  w ∈ chunk_widths -> chunk_of w l ->
  popcount (cascade w zero (pack w l)) = Z.of_nat (length (matches (zero_match zero) i l)).
Proof.
  intros Hw Hc. pose proof Hc as [Hl _]. rewrite cascade_spec by done. rewrite popcount_bit_sum.
  rewrite popcount_pack; [by apply sum_matches|by apply chunk_width_pos|apply bits_of_test|].
  rewrite length_fmap, Hl, per_chunk_bits by done. done.
Qed.

Lemma top_shift w v l :
  0 < w -> Z.shiftr (pack w (greater_top w v <$> l)) (w - 1) = pack w ((fun f => Z.b2z (v <? f)) <$> l).
Proof.
  intros Hw. rewrite Z.shiftr_div_pow2 by lia.
  assert (pack w (greater_top w v <$> l) = pack w ((fun f => Z.b2z (v <? f)) <$> l) * 2 ^ (w - 1)) as ->.
  - induction l as [|f l IH]; [done|]. rewrite !fmap_cons. cbn [pack]. rewrite IH. unfold greater_top. destruct (v <? f); cbn [Z.b2z]; ring.
  - apply Z.div_mul. pose proof (pow2_pos (w - 1) ltac:(lia)). lia.
Qed.

Lemma popcount_greater w v l i :
  0 < w -> w * Z.of_nat (length l) <= 64 ->
  popcount (Z.shiftr (pack w (greater_top w v <$> l)) (w - 1)) = Z.of_nat (length (matches (fun f => v <? f) i l)).
Proof.
  intros Hw Hl. rewrite top_shift by done. rewrite popcount_bit_sum.
  rewrite popcount_pack; [by apply sum_matches|done|apply bits_of_test|]. by rewrite length_fmap.
Qed.
