(* ===== verification/ArraySearch.v ===== *)
(** The loops of the search of a packed array visit the elements that satisfy the condition, in
    order, until the action asks to stop: [compare_equality] and [compare_relation] against a
    plain definition. *)

From S2P Require Import Prelude SafeInt NodeHeader PackedArray ArrayFind ChunkFields.

(** ** What is promised of the code that is compiled elsewhere *)

(** The value of an element, and a stretch of the array. *)
Definition elem (a : Array) (i : Z) : Z := element (m_width a) (le_value (m_data a)) i.
Definition elems (a : Array) (i n : Z) : list Z := elem a <$> seqZ i n.

Definition sum_of (l : list Z) : Z := foldr Z.add 0 l.

(** The first of the greatest elements of [a], by the order [lt], from [s] to [e]. *)
Definition first_best (lt : Z -> Z -> bool) (a : Array) (s e : Z) (r : Z * Z) : Prop :=
  s <= r.2 < e /\ r.1 = elem a r.2 /\
  (forall i, s <= i < r.2 -> lt (elem a i) r.1 = true) /\ (forall i, r.2 <= i < e -> lt r.1 (elem a i) = false).

Definition lower_limit (w : Z) : Z := if w <=? 4 then 0 else - 2 ^ (w - 1).
Definition upper_limit (w : Z) : Z := if w <=? 4 then 2 ^ w - 1 else 2 ^ (w - 1) - 1.

Record array_ok (a : Array) : Prop := {
  ok_width : m_width a ∈ widths;
  ok_bytes : bytes_ok (m_data a);
  ok_size : 0 <= m_size a <= max_array_size;
  ok_data : m_width a * m_size a <= 8 * Z.of_nat (length (m_data a));
  ok_lbound : m_lbound a = lower_limit (m_width a);
  ok_ubound : m_ubound a = upper_limit (m_width a)
}.

Class PrimitivesSpec `{Primitives} : Prop := {
  fast_popcount64_spec v : 0 <= v < 2 ^ 64 -> fast_popcount64 v = popcount v;
  first_set_bit64_spec v : 0 < v < 2 ^ 64 -> first_set v (first_set_bit64 v);
  round_up_spec p align : 0 <= p -> 0 < align -> p <= round_up p align < p + align /\ round_up p align mod align = 0;
  oversized_shift_word v n : 0 <= oversized_shift v n < 2 ^ 64;
  array_sum_spec a s e : array_ok a -> 0 <= s <= e -> e <= m_size a -> array_sum a s e = cast int64_t (sum_of (elems a s (e - s)));
  array_maximum_spec a s e : array_ok a -> 0 <= s < e -> e <= m_size a -> first_best Z.ltb a s e (array_maximum a s e);
  array_minimum_spec a s e : array_ok a -> 0 <= s < e -> e <= m_size a -> first_best Z.gtb a s e (array_minimum a s e)
}.

(** ** Elements *)

Lemma widths_nonneg w : w ∈ widths -> 0 <= w.
Proof. intros Hw. unfold widths in Hw. repeat (apply elem_of_cons in Hw as [->|Hw]; [lia|]). by apply not_elem_of_nil in Hw. Qed.

Lemma nonzero_width w : w ∈ widths -> w <> 0 -> w ∈ chunk_widths.
Proof. intros Hw H0. unfold widths in Hw. apply elem_of_cons in Hw as [->|Hw]; [done|exact Hw]. Qed.

(** An element from the bits of a chunk. *)
Definition interp (w f : Z) : Z := if w <=? 4 then f else sext w f.

Lemma element_interp w m i : element w m i = interp w (field w m i).
Proof. done. Qed.

Lemma sext_bounds w f : 0 < w -> - 2 ^ (w - 1) <= sext w f < 2 ^ (w - 1).
Proof.
  intros Hw. unfold sext. pose proof (pow2_double (w - 1) ltac:(lia)) as E. replace (w - 1 + 1) with w in E by lia.
  pose proof (Z.mod_pos_bound f (2 ^ w) ltac:(apply pow2_pos; lia)). destruct (Z.ltb_spec (f mod 2 ^ w) (2 ^ (w - 1))); lia.
Qed.

Lemma elem_limits a i : array_ok a -> m_lbound a <= elem a i <= m_ubound a.
Proof.
  intros Hok. rewrite (ok_lbound _ Hok), (ok_ubound _ Hok). unfold elem. rewrite element_interp. unfold interp, lower_limit, upper_limit.
  pose proof (widths_nonneg _ (ok_width _ Hok)). pose proof (field_bounds (m_width a) (le_value (m_data a)) i ltac:(done)).
  destruct (Z.leb_spec (m_width a) 4); [lia|]. pose proof (sext_bounds (m_width a) (field (m_width a) (le_value (m_data a)) i)). lia.
Qed.

Section loops.
Context `{PrimitivesSpec} {C : Type} (callback : Z -> C -> C * bool) (action : Action).
Context (a : Array) (Hok : array_ok a).
Local Abbreviation w := (m_width a).
Local Abbreviation Search := (QueryState * C)%type.
Local Abbreviation do_action := (find_action callback action).
Local Abbreviation do_pattern := (find_action_pattern action).

Lemma get_elem i : 0 <= i < m_size a -> get w a i = Ok (elem a i).
Proof.
  intros Hi. pose proof (ok_data _ Hok). pose proof (widths_nonneg _ (ok_width _ Hok)). unfold get.
  assert (w * (i + 1) <= w * m_size a) by (apply Z.mul_le_mono_nonneg_l; lia).
  apply get_direct_spec; [apply (ok_width _ Hok)|apply (ok_bytes _ Hok)|lia|lia].
Qed.

(** ** Visiting elements *)

Fixpoint visit (baseindex : Z) (l : list (Z * Z)) (s : Search) : Search * bool :=
  match l with
  | [] => (s, true)
  | (i, v) :: l =>
      let '(s, go) := do_action (u64 (i + baseindex)) (Some v) s in
      if go then visit baseindex l s else (s, false)
  end.

Lemma visit_app b l1 l2 s : Ok (visit b (l1 ++ l2) s) = (Ok (visit b l1 s) &> fun s => Ok (visit b l2 s)).
Proof.
  revert s. induction l1 as [|[i v] l1 IH]; intros s; [done|]. cbn [app visit].
  destruct (do_action _ _ s) as [s' [|]]; [apply IH|done].
Qed.

Lemma and_then_assoc (r : result (Search * bool)) k1 k2 : (r &> k1) &> k2 = (r &> fun s => k1 s &> k2).
Proof. destruct r as [[s [|]]|]; done. Qed.

Lemma and_then_ext (r : result (Search * bool)) k1 k2 : (forall s, k1 s = k2 s) -> (r &> k1) = (r &> k2).
Proof. intros E. destruct r as [[s [|]]|]; [apply E|done..]. Qed.

Lemma matches_app test i l1 l2 :
  matches test i (l1 ++ l2) = matches test i l1 ++ matches test (i + Z.of_nat (length l1)) l2.
Proof.
  revert i. induction l1 as [|f l1 IH]; intros i; [by rewrite Z.add_0_r|]. cbn [app matches length]. rewrite IH.
  replace (i + 1 + Z.of_nat (length l1)) with (i + Z.of_nat (S (length l1))) by lia. by destruct (test f).
Qed.

Lemma matches_none test i l : (forall k f, l !! k = Some f -> test f = false) -> matches test i l = [].
Proof.
  revert i. induction l as [|f l IH]; intros i Hl; [done|]. cbn [matches]. rewrite (Hl 0%nat f) by done.
  apply IH. intros k. apply (Hl (S k)).
Qed.

Lemma length_matches test i l : (length (matches test i l) <= length l)%nat.
Proof. revert i. induction l as [|f l IH]; intros i; [done|]. cbn. specialize (IH (i + 1)). destruct (test f); cbn; lia. Qed.

Lemma matches_same_length test test' i i' l l' :
  length l = length l' -> (forall k f f', l !! k = Some f -> l' !! k = Some f' -> test f = test' f') ->
  length (matches test i l) = length (matches test' i' l').
Proof.
  revert i i' l'. induction l as [|f l IH]; intros i i' [|f' l'] Hl Ht; try done. cbn [matches].
  rewrite (Ht 0%nat f f') by done. specialize (IH (i + 1) (i' + 1) l' ltac:(cbn in Hl; lia) (fun k => Ht (S k))).
  destruct (test' f'); cbn [length]; lia.
Qed.

(** Up to the first match and from there on. *)
Lemma matches_first test i l k f :
  l !! k = Some f -> test f = true -> (forall j g, (j < k)%nat -> l !! j = Some g -> test g = false) ->
  matches test i l = (i + Z.of_nat k, f) :: matches test (i + Z.of_nat k + 1) (drop (S k) l).
Proof.
  revert i k. induction l as [|g l IH]; intros i k Hk Hf Hb; [done|]. destruct k as [|k]; cbn [matches].
  - injection Hk as ->. by rewrite Hf, Z.add_0_r.
  - rewrite (Hb 0%nat g) by (done || lia). rewrite (IH (i + 1) k) by (done || (intros j x ? ?; apply (Hb (S j)); [lia|done])).
    cbn [drop]. f_equal; [f_equal; lia|f_equal; lia].
Qed.

Lemma elems_app i n m : 0 <= n -> 0 <= m -> elems a i (n + m) = elems a i n ++ elems a (i + n) m.
Proof. intros. unfold elems. by rewrite seqZ_app, fmap_app by done. Qed.

Lemma length_elems i n : length (elems a i n) = Z.to_nat n.
Proof. unfold elems. by rewrite length_fmap, length_seqZ. Qed.

Lemma elems_cons i n : 0 <= n -> elems a i (n + 1) = elem a i :: elems a (i + 1) n.
Proof. intros. replace (n + 1) with (1 + n) by lia. rewrite elems_app by lia. done. Qed.

(** The elements that satisfy the test, with their indices. *)
Definition hits (test : Z -> bool) (i n : Z) : list (Z * Z) := matches test i (elems a i n).

Lemma hits_app test i n m : 0 <= n -> 0 <= m -> hits test i (n + m) = hits test i n ++ hits test (i + n) m.
Proof.
  intros Hn Hm. unfold hits. rewrite elems_app, matches_app by done. by rewrite length_elems, Z2Nat.id.
Qed.

Lemma scan_spec n test b i s :
  0 <= i -> i + Z.of_nat n <= m_size a ->
  scan callback action n w a test b i s = Ok (visit b (hits test i (Z.of_nat n)) s).
Proof.
  revert i s. induction n as [|n IH]; intros i s Hi Hn; [done|]. cbn [scan]. unfold test_one.
  rewrite get_elem by lia. cbn [mbind result_bind]. unfold hits.
  replace (Z.of_nat (S n)) with (Z.of_nat n + 1) by lia. rewrite elems_cons by lia. cbn [matches].
  destruct (test (elem a i)); cbn [and_then visit].
  - destruct (do_action _ _ s) as [s' [|]]; cbn [and_then]; [|done]. apply IH; lia.
  - apply IH; lia.
Qed.

(** ** Actions and patterns

    A pattern is either refused, and then until the search ends, or taken as so many matches.
    For this the counter of a count must be what was counted; [k] more can be counted. *)

Definition room (k : Z) (s : Search) : Prop :=
  action = act_Count -> m_match_count s.1 = m_state s.1 /\ 0 <= m_state s.1 /\ m_state s.1 + k <= 2 ^ 62.

Definition declines (s : Search) : Prop := forall pattern, do_pattern pattern s = (s, false).

Lemma room_weaken k k' s : room k s -> k' <= k -> room k' s.
Proof. intros Hr Hk Ha. destruct (Hr Ha) as (? & ? & ?). lia. Qed.

Lemma cast_int64_small x : 0 <= x < 2 ^ 63 -> cast int64_t x = x.
Proof. intros Hx. apply cast_in_range; [done|]. unfold in_range, lim_min, lim_max. change (digits int64_t) with 63. cbn [is_signed int64_t]. lia. Qed.

Definition counted (n : Z) (q : QueryState) : QueryState := set_match_count n (set_state n q).

Lemma find_action_count i v s :
  action = act_Count -> room 1 s ->
  do_action i (Some v) s = ((counted (m_state s.1 + 1) s.1, s.2), m_state s.1 + 1 <? m_limit s.1).
Proof.
  intros Ha Hr. destruct (Hr Ha) as (Hm & Hn & Hs). rewrite Ha. unfold find_action, match_optional, match_value, count_one, below_limit.
  cbn [m_state m_match_count m_limit set_state set_match_count].
  rewrite cast_int64_small by lia. rewrite u64_small by (change word_size with (2 ^ 64); lia). done.
Qed.

Lemma find_action_room k i v s s' :
  0 <= k -> room (k + 1) s -> do_action i (Some v) s = (s', true) -> room k s'.
Proof.
  intros Hk Hr E Ha. destruct (Hr Ha) as (Hm & Hn & Hs).
  rewrite find_action_count in E by (done || (eapply room_weaken; [exact Hr|lia])). injection E as <- _. cbn. lia.
Qed.

Lemma visit_room k b l s s' :
  0 <= k -> room (k + Z.of_nat (length l)) s -> visit b l s = (s', true) -> room k s'.
Proof.
  intros Hk. revert s. induction l as [|[i v] l IH]; intros s Hr E; cbn [visit length] in *.
  - injection E as <-. by rewrite Z.add_0_r in Hr.
  - destruct (do_action _ _ s) as [s1 [|]] eqn:E1; [|done]. apply (IH s1); [|done].
    eapply find_action_room; [| |exact E1]; [lia|]. eapply room_weaken; [exact Hr|lia].
Qed.

Lemma pattern_cases s : declines s \/ forall pattern, exists s', do_pattern pattern s = (s', true).
Proof.
  destruct s as [q c]. unfold declines, find_action_pattern. destruct action; try (left; done). unfold match_pattern. cbn [fst snd].
  destruct (m_limit q <=? u64 (m_match_count q + 64)); [by left|]. right. intros pattern. by eexists.
Qed.

Lemma declines_after i v s s' : room 1 s -> declines s -> do_action i (Some v) s = (s', true) -> declines s'.
Proof.
  intros Hr Hd E pattern. unfold declines, find_action_pattern in *. destruct (decide (action = act_Count)) as [Ha|Ha].
  - rewrite find_action_count in E by done. injection E as <- _.
    destruct (Hr Ha) as (Hm & Hn & Hs). specialize (Hd pattern). rewrite Ha in *. unfold match_pattern in *.
    destruct (Z.leb_spec (m_limit s.1) (u64 (m_match_count s.1 + 64))) as [Hle|]; [|done].
    rewrite u64_small in Hle by (change word_size with (2 ^ 64); lia). cbn [fst snd counted m_limit m_match_count set_match_count set_state].
    rewrite (proj2 (Z.leb_le _ _)); [done|]. rewrite u64_small by (change word_size with (2 ^ 64); lia). lia.
  - destruct s' as [q c]. by destruct action.
Qed.

(** Visiting elements that a count has room for and its limit allows. *)
Lemma visit_count b l q c :
  action = act_Count -> l <> [] -> room (Z.of_nat (length l)) (q, c) -> m_state q + Z.of_nat (length l) <= m_limit q ->
  visit b l (q, c) = ((counted (m_state q + Z.of_nat (length l)) q, c), m_state q + Z.of_nat (length l) <? m_limit q).
Proof.
  intros Ha. revert q. induction l as [|[i v] l IH]; intros q Hne Hr Hl; [done|]. cbn [visit length] in *.
  rewrite find_action_count by (done || (eapply room_weaken; [exact Hr|lia])). cbn [fst snd].
  destruct (decide (l = [])) as [->|Hn].
  { change (Z.of_nat (S (length []))) with 1. by destruct (m_state q + 1 <? m_limit q). }
  assert (length l <> 0%nat) by (by destruct l). rewrite (proj2 (Z.ltb_lt _ _)) by lia. rewrite IH; [|done| |cbn; lia].
  - unfold counted. cbn [m_state m_limit set_match_count set_state].
    by replace (m_state q + Z.of_nat (S (length l))) with (m_state q + 1 + Z.of_nat (length l)) by lia.
  - intros _. destruct (Hr Ha) as (Hm & Hs & Hb). cbn in *. lia.
Qed.

(** A pattern that is taken counts as many matches as it has set bits. *)
Lemma pattern_visits b l pattern s s' :
  0 <= pattern < 2 ^ 64 -> popcount pattern = Z.of_nat (length l) -> (0 < length l <= 64)%nat -> room 64 s ->
  do_pattern pattern s = (s', true) -> visit b l s = (s', true).
Proof.
  intros Hp Hc Hl Hr E. destruct s as [q c]. unfold find_action_pattern in E. destruct (decide (action = act_Count)) as [Ha|Ha].
  - destruct (Hr Ha) as (Hm & Hn & Hs). cbn [fst] in *. rewrite Ha in E. unfold match_pattern in E. cbn [fst snd] in E.
    destruct (Z.leb_spec (m_limit q) (u64 (m_match_count q + 64))) as [|Hle]; [done|]. injection E as <-.
    rewrite u64_small in Hle by (change word_size with (2 ^ 64); lia).
    rewrite visit_count; [|done|by destruct l; [cbn in Hl; lia|]|eapply room_weaken; [exact Hr|lia]|lia].
    rewrite (proj2 (Z.ltb_lt _ _)) by lia. rewrite fast_popcount64_spec, Hc by done.
    cbn [m_state set_state]. rewrite cast_int64_small by lia. by rewrite u64_small by (change word_size with (2 ^ 64); lia).
  - destruct action; cbn in E; congruence.
Qed.
End loops.
