(* ===== verification/ArrayEqual.v ===== *)
(** [compare_equality] visits the elements that are equal to the value, or different from it. *)

From S2P Require Import Prelude SafeInt NodeHeader PackedArray ArrayFind ChunkFields ArraySearch.

(** ** The first match of a chunk *)

Lemma first_match_exists eq l f : f ∈ l -> zero_match eq f = true -> exists i, first_match eq l i.
Proof.
  induction l as [|g l IH]; intros Hin Hf; [by apply not_elem_of_nil in Hin|]. destruct (zero_match eq g) eqn:Hg.
  - exists 0, g. split_and!; [done..|]. lia.
  - apply elem_of_cons in Hin as [->|Hin]; [congruence|]. destruct (IH Hin Hf) as (i & x & Hi & Ex & Hx & Hb).
    exists (i + 1), x. split_and!; [lia| |done|].
    + replace (Z.to_nat (i + 1)) with (S (Z.to_nat i)) by lia. done.
    + intros j y Hj Ey. destruct (decide (j = 0)) as [->|]; [by injection Ey as ->|].
      replace (Z.to_nat j) with (S (Z.to_nat (j - 1))) in Ey by lia. apply (Hb (j - 1)); [lia|done].
Qed.

Section chunk.
Context `{PrimitivesSpec} (w : Z) (Hw : w ∈ chunk_widths).

(** The condition of the loop over the matches. *)
Definition some_match (eq : bool) (v2 : Z) : bool := if eq then test_zero w v2 else negb (v2 =? 0).

Lemma some_match_spec eq l :
  chunk_of w l -> if some_match eq (pack w l) then exists i, first_match eq l i else forall f, f ∈ l -> zero_match eq f = false.
Proof.
  intros Hc. pose proof Hc as [Hl Hf]. unfold some_match. destruct eq.
  - rewrite test_zero_spec by done. case_bool_decide as Hz; [by apply (first_match_exists true l 0)|].
    intros f Hin. unfold zero_match. destruct (Z.eqb_spec f 0) as [->|]; [done|done].
  - rewrite pack_zero by done. case_bool_decide as Hz; cbn [negb].
    + intros f Hin. rewrite Forall_forall in Hz. by rewrite (Hz f Hin).
    + apply not_Forall_Exists in Hz; [|apply _]. apply Exists_exists in Hz as (f & Hin & Hf0).
      apply (first_match_exists false l f Hin). unfold zero_match. by rewrite (proj2 (Z.eqb_neq _ _)).
Qed.

(** The elements of any word. *)
Lemma word_chunk v : 0 <= v < 2 ^ 64 -> v = pack w (unpack w (per_chunk w) v) /\ chunk_of w (unpack w (per_chunk w) v).
Proof.
  intros Hv. pose proof (chunk_width_pos w Hw) as Hp. split.
  - symmetry. apply pack_unpack; [done|]. by rewrite per_chunk_bits.
  - split; [apply length_unpack|by apply unpack_ok].
Qed.

(** The elements that are left after some were shifted out. *)
Definition rest (k : nat) (l : list Z) : list Z := drop k l ++ rep k 0.

Lemma pack_zeros l k : pack w (l ++ rep k 0) = pack w l.
Proof. rewrite pack_app by by apply chunk_width_pos. rewrite (pack_rep w k 0), Z.mul_0_r. lia. Qed.

Lemma rest_chunk k l : chunk_of w l -> (k <= per_chunk w)%nat -> chunk_of w (rest k l).
Proof.
  intros [Hl Hf] Hk. pose proof (chunk_width_pos w Hw) as Hp. pose proof (pow_w_pos w Hp). unfold rest. split.
  - unfold rep. rewrite length_app, length_drop, length_replicate. lia.
  - apply Forall_app. split; [by apply Forall_drop|apply rep_ok; lia].
Qed.

Lemma rest_shift k t l :
  chunk_of w l -> (k + t < per_chunk w)%nat -> (Z.of_nat t + 1) * w < 64 ->
  shr64 (pack w (rest k l)) ((Z.of_nat t + 1) * w) = pack w (rest (k + t + 1) l).
Proof.
  intros [Hl Hf] Hk Ht. pose proof (chunk_width_pos w Hw) as Hp. unfold shr64. rewrite (proj2 (Z.ltb_lt _ _)) by done.
  unfold rest. rewrite !pack_zeros. replace ((Z.of_nat t + 1) * w) with (w * Z.of_nat (t + 1)) by lia.
  rewrite pack_shift by (done || (by apply Forall_drop) || (rewrite length_drop; lia)). f_equal. rewrite drop_drop. f_equal. lia.
Qed.
End chunk.

Section matches.
Context `{PrimitivesSpec} {C : Type} (callback : Z -> C -> C * bool) (action : Action).
Context (a : Array) (Hok : array_ok a).
Local Abbreviation w := (m_width a).
Local Abbreviation Search := (QueryState * C)%type.
Local Abbreviation do_action := (find_action callback action).
Local Abbreviation visit := (visit callback action).
Local Abbreviation room := (room action).
Local Abbreviation declines := (declines action).

Context (Hw : w ∈ chunk_widths).
Local Abbreviation n := (per_chunk w).

(** A chunk whose first element has the index [start]; [l] tells by zeros which elements satisfy
    the test. *)
Context (start : Z) (l : list Z) (eq : bool) (test : Z -> bool) (b : Z).
Context (Hstart : 0 <= start) (Hend : start + Z.of_nat n <= m_size a) (Hc : chunk_of w l).
Context (Hrel : forall i f, l !! i = Some f -> zero_match eq f = test (elem a (start + Z.of_nat i))).

(** The matches from the [k]-th element of the chunk on. *)
Definition left_hits (k : nat) : list (Z * Z) := hits a test (start + Z.of_nat k) (Z.of_nat (n - k)).

Lemma elems_lookup i m k : 0 <= m -> (Z.of_nat k < m) -> elems a i m !! k = Some (elem a (i + Z.of_nat k)).
Proof. intros Hm Hk. unfold elems. rewrite list_lookup_fmap, (lookup_seqZ_lt i m k) by lia. done. Qed.

Lemma left_hits_none k : (forall j f, (k <= j)%nat -> l !! j = Some f -> zero_match eq f = false) -> left_hits k = [].
Proof.
  intros Hn. apply matches_none. intros j v Ej. pose proof (lookup_lt_Some _ _ _ Ej) as Hj. rewrite length_elems in Hj.
  rewrite elems_lookup in Ej by lia. injection Ej as <-. destruct Hc as [Hl _].
  destruct (lookup_lt_is_Some_2 l (k + j)%nat) as [f Ef]; [lia|].
  replace (start + Z.of_nat k + Z.of_nat j) with (start + Z.of_nat (k + j)) by lia. rewrite <- (Hrel _ f) by done.
  apply (Hn (k + j)%nat f); [lia|done].
Qed.

Lemma left_hits_first k t f :
  (k + t < n)%nat -> l !! (k + t)%nat = Some f -> zero_match eq f = true ->
  (forall j g, (k <= j < k + t)%nat -> l !! j = Some g -> zero_match eq g = false) ->
  left_hits k = (start + Z.of_nat (k + t), elem a (start + Z.of_nat (k + t))) :: left_hits (k + t + 1).
Proof.
  intros Hk Ef Hf Hb. destruct Hc as [Hl _]. unfold left_hits, hits. rewrite (matches_first test _ _ t (elem a (start + Z.of_nat (k + t)))).
  - f_equal; [f_equal; lia|]. f_equal; [lia|].
    replace (Z.of_nat (n - k)) with (Z.of_nat (t + 1) + Z.of_nat (n - (k + t + 1))) by lia. rewrite elems_app by lia.
    rewrite drop_app_length'; [f_equal; lia|]. rewrite length_elems. lia.
  - rewrite elems_lookup by lia. do 2 f_equal. lia.
  - by rewrite <- (Hrel _ f).
  - intros j g Hj Eg. rewrite elems_lookup in Eg by lia. injection Eg as <-.
    destruct (lookup_lt_is_Some_2 l (k + j)%nat) as [x Ex]; [lia|].
    replace (start + Z.of_nat k + Z.of_nat j) with (start + Z.of_nat (k + j)) by lia. rewrite <- (Hrel _ x) by done.
    apply (Hb (k + j)%nat x); [lia|done].
Qed.

Lemma past_end fuel v2 s :
  declines s -> 0 <= v2 < 2 ^ 64 -> equal_matches callback action (S fuel) eq w a start b v2 (Z.of_nat n) s = Ok (s, true).
Proof.
  intros Hd Hv. cbn [equal_matches]. destruct (word_chunk w Hw v2 Hv) as [Ev Hcv]. rewrite Ev. fold (some_match w eq (pack w (unpack w n v2))).
  pose proof (some_match_spec w Hw eq _ Hcv) as Hs. destruct (some_match _ _ _); [|done].
  destruct Hs as (i & Hi). rewrite Hd. rewrite (find_zero_spec w Hw eq _ i Hcv Hi). cbn [mbind result_bind].
  destruct Hi as (_ & Hi & _). rewrite (proj2 (Z.leb_le _ _)); [done|].
  rewrite chunk_size_no0 by done. lia.
Qed.

Lemma no_hits_past_end : left_hits n = [].
Proof. apply left_hits_none. intros j f Hj Ej. pose proof (lookup_lt_Some _ _ _ Ej). destruct Hc as [Hl _]. lia. Qed.

Lemma rest_lookup k j : (k + j < n)%nat -> rest k l !! j = l !! (k + j)%nat.
Proof. intros Hk. destruct Hc as [Hl _]. unfold rest. rewrite lookup_app_l by (rewrite length_drop; lia). apply lookup_drop. Qed.

Lemma equal_matches_declined fuel k s :
  declines s -> room (Z.of_nat (n - k)) s -> (k <= n)%nat -> (n - k + 1 < fuel)%nat ->
  equal_matches callback action fuel eq w a start b (pack w (rest k l)) (Z.of_nat k) s = Ok (visit b (left_hits k) s).
Proof.
  pose proof (per_chunk_bits w Hw) as Hbits. pose proof (chunk_width_pos w Hw) as Hp.
  revert k s. induction fuel as [|fuel IH]; intros k s Hd Hr Hk Hf; [lia|].
  pose proof (rest_chunk w Hw k l Hc Hk) as Hck. destruct (decide (k = n)) as [->|Hkn].
  { rewrite no_hits_past_end. apply past_end; [done|]. by apply chunk_bounds. }
  cbn [equal_matches]. fold (some_match w eq (pack w (rest k l))). pose proof (some_match_spec w Hw eq _ Hck) as Hs.
  destruct (some_match _ _ _).
  - destruct Hs as (i & Hi). rewrite Hd, (find_zero_spec w Hw eq _ i Hck Hi). cbn [mbind result_bind].
    destruct Hi as (f & Hi & Ef & Hm & Hb). rewrite chunk_size_no0 by done.
    destruct (Z.leb_spec (Z.of_nat n) (Z.of_nat k + i)) as [Hge|Hlt].
    + rewrite left_hits_none; [done|]. intros j g Hj Ej. pose proof (lookup_lt_Some _ _ _ Ej) as Hjl. destruct Hc as [Hl _].
      apply (Hb (Z.of_nat (j - k)) g); [lia|]. rewrite Nat2Z.id, rest_lookup by lia. rewrite <- Ej. f_equal. lia.
    + set (t := Z.to_nat i) in *. assert (i = Z.of_nat t) as Ei by lia.
      rewrite rest_lookup in Ef by lia.
      rewrite (left_hits_first k t f) by (done || lia || (intros j g Hj Ej; apply (Hb (Z.of_nat (j - k)) g); [lia|];
        rewrite Nat2Z.id, rest_lookup by lia; rewrite <- Ej; f_equal; lia)).
      rewrite get_elem by (done || lia). cbn [mbind result_bind ArraySearch.visit].
      replace (start + (Z.of_nat k + i)) with (start + Z.of_nat (k + t)) by lia.
      replace (Z.of_nat k + i + start + b) with (start + Z.of_nat (k + t) + b) by lia.
      destruct (do_action _ _ s) as [s' [|]] eqn:E; cbn [and_then]; [|done].
      assert (declines s') as Hd' by (eapply declines_after; [|exact Hd|exact E]; eapply room_weaken; [exact Hr|lia]).
      assert (room (Z.of_nat (n - (k + t + 1))) s') as Hr'.
      { eapply find_action_room; [| |exact E]; [lia|]. eapply room_weaken; [exact Hr|lia]. }
      replace (Z.of_nat k + i + 1) with (Z.of_nat (k + t + 1)) by lia.
      destruct (decide (k + t + 1 = n)%nat) as [En|].
      * rewrite En, no_hits_past_end. destruct fuel as [|fuel]; [lia|]. apply past_end; [done|].
        unfold shr64. destruct (Z.ltb_spec ((i + 1) * w) 64); [|apply oversized_shift_word].
        pose proof (chunk_bounds w _ Hw Hck). rewrite Z.shiftr_div_pow2 by nia. split; [apply Z.div_pos; [lia|apply pow2_pos; nia]|].
        apply Z.div_lt_upper_bound; [apply pow2_pos; nia|]. pose proof (pow2_pos ((i + 1) * w) ltac:(nia)). nia.
      * rewrite Ei, (rest_shift w Hw k t l) by (done || lia || nia). apply IH; [done|done|lia|lia].
  - rewrite left_hits_none; [done|]. intros j f Hj Ej. apply Hs. apply list_elem_of_lookup. exists (j - k)%nat.
    pose proof (lookup_lt_Some _ _ _ Ej). destruct Hc as [Hl _]. rewrite rest_lookup by lia. rewrite <- Ej. f_equal. lia.
Qed.

(** The matches of a chunk. *)
Lemma equal_matches_spec s :
  room 64 s -> equal_matches callback action 66 eq w a start b (pack w l) 0 s = Ok (visit b (hits a test start (Z.of_nat n)) s).
Proof.
  intros Hr. pose proof (per_chunk_bits w Hw) as Hbits. pose proof (chunk_width_pos w Hw) as Hp.
  assert (n <= 64)%nat as Hn64 by nia.
  assert (left_hits 0 = hits a test start (Z.of_nat n)) as Hh by (unfold left_hits; f_equal; lia).
  assert (rest 0 l = l) as Hl0 by (unfold rest; by rewrite app_nil_r).
  destruct (pattern_cases action s) as [Hd|Hcons].
  { rewrite <- Hh. pose proof (equal_matches_declined 66 0 s Hd) as E. rewrite Hl0 in E. apply E; [|lia..].
    eapply room_weaken; [exact Hr|lia]. }
  cbn [equal_matches]. fold (some_match w eq (pack w l)). pose proof (some_match_spec w Hw eq l Hc) as Hs.
  destruct (some_match _ _ _).
  - destruct Hs as (i & f & Hi & Ef & Hm & Hb). destruct (Hcons (cascade w eq (pack w l))) as (s' & E). rewrite E. f_equal.
    assert (popcount (cascade w eq (pack w l)) = Z.of_nat (length (hits a test start (Z.of_nat n)))) as Hpc.
    { rewrite (popcount_cascade w eq l start Hw Hc). f_equal. apply matches_same_length.
      - rewrite length_elems. destruct Hc as [Hl _]. lia.
      - intros k x y Ex Ey. rewrite (Hrel k x) by done. pose proof (lookup_lt_Some _ _ _ Ex). destruct Hc as [Hl _].
        rewrite elems_lookup in Ey by lia. by injection Ey as <-. }
    symmetry. eapply pattern_visits; [|exact Hpc| |exact Hr|exact E]; try done.
    + rewrite cascade_spec by done. apply (chunk_bounds w); [done|]. destruct Hc as [Hl _]. split; [by rewrite length_fmap|].
      apply Forall_fmap, Forall_forall. intros x _. cbn. pose proof (pow_w_pos w Hp). destruct (zero_match eq x); cbn; lia.
    + split.
      * rewrite <- Hh. rewrite (left_hits_first 0 (Z.to_nat i) f); [cbn; lia|..].
        { pose proof (lookup_lt_Some _ _ _ Ef). destruct Hc as [Hl _]. lia. }
        { done. }
        { done. }
        intros j g Hj Ej. apply (Hb (Z.of_nat j) g); [lia|]. by rewrite Nat2Z.id.
      * pose proof (length_matches test start (elems a start (Z.of_nat n))) as Hlm. unfold hits. rewrite length_elems in Hlm. lia.
  - rewrite <- Hh, left_hits_none; [done|]. intros j f _ Ej. apply Hs. by eapply list_elem_of_lookup_2.
Qed.
End matches.

(** ** The loop over the chunks *)

Section array.
Context `{PrimitivesSpec} {C : Type} (callback : Z -> C -> C * bool) (action : Action).
Context (a : Array) (Hok : array_ok a).
Local Abbreviation w := (m_width a).
Local Abbreviation Search := (QueryState * C)%type.
Local Abbreviation visit := (visit callback action).
Local Abbreviation room := (room action).
Local Abbreviation n := (per_chunk w).
Context (Hw : w ∈ chunk_widths).

Lemma read_chunk_spec q :
  0 <= q -> 8 * (q + 1) <= Z.of_nat (length (m_data a)) ->
  read_chunk a (8 * q) = Ok (Z.shiftr (le_value (m_data a)) (64 * q) mod 2 ^ 64).
Proof.
  intros Hq Hl. unfold read_chunk. rewrite read_le_spec by (apply (ok_bytes _ Hok) || lia).
  replace (8 * (8 * q)) with (64 * q) by lia. done.
Qed.

(** The elements of a chunk of the array. *)
Definition chunk_fields (q : Z) : list Z := unpack w n (Z.shiftr (le_value (m_data a)) (64 * q) mod 2 ^ 64).

Lemma chunk_fields_of q : chunk_of w (chunk_fields q).
Proof. split; [apply length_unpack|]. apply unpack_ok. by apply chunk_width_pos. Qed.

Lemma pack_chunk_fields q : pack w (chunk_fields q) = Z.shiftr (le_value (m_data a)) (64 * q) mod 2 ^ 64.
Proof.
  apply pack_unpack; [by apply chunk_width_pos|]. rewrite per_chunk_bits by done. apply Z.mod_pos_bound. done.
Qed.

Lemma chunk_fields_lookup q i f :
  0 <= q -> chunk_fields q !! i = Some f -> interp w f = elem a (q * Z.of_nat n + Z.of_nat i) /\ 0 <= f < 2 ^ w.
Proof.
  intros Hq Ef. pose proof (chunk_width_pos w Hw) as Hp. pose proof (per_chunk_bits w Hw) as Hb.
  pose proof (lookup_lt_Some _ _ _ Ef) as Hi. rewrite (proj1 (chunk_fields_of q)) in Hi.
  unfold chunk_fields, unpack in Ef. rewrite list_lookup_fmap, lookup_seq_lt in Ef by done. injection Ef as <-.
  split; [|apply field_bounds; lia]. unfold elem. rewrite element_interp. f_equal.
  apply Z.bits_inj'. intros j Hj. rewrite !field_bits by nia. destruct (Z.ltb_spec j w); [|done]. cbn [andb].
  rewrite Z.testbit_mod_pow2, Z.shiftr_spec, (proj2 (Z.ltb_lt _ _)) by nia. cbn [andb]. f_equal. nia.
Qed.

Lemma chunk_start q : 0 <= q -> 8 * q / 8 * 8 * 8 / no0 w = q * Z.of_nat n.
Proof.
  intros Hq. pose proof (chunk_width_pos w Hw) as Hp. pose proof (per_chunk_bits w Hw) as Hb.
  rewrite (Z.mul_comm 8 q), Z.div_mul by done. unfold no0. rewrite (proj2 (Z.eqb_neq _ _)) by lia.
  replace (q * 8 * 8) with (q * Z.of_nat n * w) by nia. apply Z.div_mul. lia.
Qed.

(** The condition of the range of a width. *)
Lemma interp_eq f value :
  0 <= f < 2 ^ w -> m_lbound a <= value <= m_ubound a -> interp w f = value <-> f = value mod 2 ^ w.
Proof.
  intros Hf Hv. pose proof (chunk_width_pos w Hw) as Hp. rewrite (ok_lbound _ Hok), (ok_ubound _ Hok) in Hv.
  unfold interp, lower_limit, upper_limit in *. destruct (Z.leb_spec w 4).
  - rewrite Z.mod_small by lia. done.
  - split; [|intros ->; rewrite sext_fits; lia]. intros <-. unfold sext. rewrite (Z.mod_small f) by done.
    destruct (f <? _); [by rewrite Z.mod_small|]. replace (f - 2 ^ w) with (f + (-1) * 2 ^ w) by lia.
    by rewrite Z_mod_plus_full, Z.mod_small.
Qed.

Lemma valuemask_pack value :
  u64 (all_ones / no0 (width_mask w) * Z.land (u64 value) (width_mask w)) = pack w (rep n (value mod 2 ^ w)).
Proof.
  pose proof (chunk_width_pos w Hw) as Hp. pose proof (per_chunk_bits w Hw) as Hb. pose proof (pow_w_pos w Hp).
  rewrite width_mask_ones, land_ones_mod by (done || lia).
  assert (u64 value mod 2 ^ w = value mod 2 ^ w) as ->.
  { unfold u64. change word_size with (2 ^ 64). apply Z.bits_inj'. intros j Hj. rewrite !Z.testbit_mod_pow2 by lia.
    pose proof (chunk_width_le w Hw). destruct (Z.ltb_spec j w); [|done]. by rewrite (proj2 (Z.ltb_lt _ _)) by lia. }
  unfold no0. rewrite (proj2 (Z.eqb_neq _ _)) by lia.
  replace all_ones with (2 ^ (w * Z.of_nat n) - 1) by (by rewrite Hb). rewrite ones_div, <- pack_rep by done.
  apply u64_small. change word_size with (2 ^ 64). apply (chunk_bounds w); [done|].
  split; [unfold rep; by rewrite length_replicate|]. apply rep_ok. apply Z.mod_pos_bound. lia.
Qed.

Lemma xor_chunk (f v : Z) (eq : bool) : zero_match eq (Z.lxor f v) = if eq then f =? v else negb (f =? v).
Proof.
  unfold zero_match. assert ((Z.lxor f v =? 0) = (f =? v)) as ->; [|by destruct eq, (f =? v)].
  destruct (Z.eqb_spec f v) as [->|Hne]; [by rewrite Z.lxor_nilpotent|]. apply Z.eqb_neq. intros E%Z.lxor_eq. done.
Qed.

Definition equal_test (eq : bool) (value v : Z) : bool := if eq then v =? value else negb (v =? value).

Lemma equal_chunks_spec k eq value b q s :
  0 <= q -> m_lbound a <= value <= m_ubound a -> 8 * (q + Z.of_nat k) <= Z.of_nat (length (m_data a)) ->
  (q + Z.of_nat k) * Z.of_nat n <= m_size a -> room (64 * Z.of_nat k) s ->
  equal_chunks callback action k eq w a (pack w (rep n (value mod 2 ^ w))) b (8 * q) s =
  Ok (visit b (hits a (equal_test eq value) (q * Z.of_nat n) (Z.of_nat k * Z.of_nat n)) s).
Proof.
  intros Hq Hv. pose proof (chunk_width_pos w Hw) as Hp. pose proof (per_chunk_bits w Hw) as Hbits. pose proof (pow_w_pos w Hp).
  pose proof (per_chunk_range w Hw).
  revert q s Hq. induction k as [|k IH]; intros q s Hq Hl He Hr; [done|]. cbn [equal_chunks].
  rewrite read_chunk_spec, <- pack_chunk_fields by lia. cbn [mbind result_bind]. rewrite chunk_start by done.
  destruct (chunk_fields_of q) as [Hcl Hcf].
  rewrite pack_lxor; [|done|done|by apply rep_ok, Z.mod_pos_bound; lia|unfold rep; by rewrite length_replicate].
  assert (zip_with Z.lxor (chunk_fields q) (rep n (value mod 2 ^ w)) = (fun f => Z.lxor f (value mod 2 ^ w)) <$> chunk_fields q) as ->
    by (rewrite <- Hcl; apply zip_rep).
  rewrite (equal_matches_spec callback action a Hok Hw (q * Z.of_nat n) _ eq (equal_test eq value)); [|nia|nia| | |eapply room_weaken; [exact Hr|lia]].
  - replace (Z.of_nat (S k) * Z.of_nat n) with (Z.of_nat n + Z.of_nat k * Z.of_nat n) by lia.
    rewrite hits_app, visit_app by lia. destruct (visit b (hits _ _ _ (Z.of_nat n)) s) as [s' [|]] eqn:E; cbn [and_then]; [|done].
    replace (8 * q + 8) with (8 * (q + 1)) by lia. rewrite IH; [do 4 f_equal; lia|lia|lia|nia|].
    eapply visit_room; [| |exact E]; [lia|]. eapply room_weaken; [exact Hr|].
    pose proof (length_matches (equal_test eq value) (q * Z.of_nat n) (elems a (q * Z.of_nat n) (Z.of_nat n))) as Hlm.
    unfold hits. rewrite length_elems in Hlm. lia.
  - split; [by rewrite length_fmap|]. apply Forall_fmap. eapply Forall_impl; [exact Hcf|]. intros f Hf. cbn.
    apply lxor_bounds; [done|done|apply Z.mod_pos_bound; lia].
  - intros i f Ef. rewrite list_lookup_fmap in Ef. destruct (chunk_fields q !! i) as [g|] eqn:Eg; [|done]. injection Ef as <-.
    destruct (chunk_fields_lookup q i g Hq Eg) as [<- Hg]. rewrite xor_chunk. unfold equal_test.
    assert ((g =? value mod 2 ^ w) = (interp w g =? value)) as ->; [|done].
    destruct (Z.eqb_spec (interp w g) value) as [E|E]; [by apply Z.eqb_eq, interp_eq|]. apply Z.eqb_neq. intros ?. by apply E, interp_eq.
Qed.

(** ** [compare_equality] *)

(** The chunks between two positions: from [q] on, to the last that ends before [end_]. *)
Lemma chunk_count_spec q end_ k :
  0 <= q -> q * Z.of_nat n <= end_ -> k = chunk_count (8 * q) (end_ * w / 8 - 8) ->
  (q + Z.of_nat k) * Z.of_nat n <= end_ /\ 8 * (q + Z.of_nat k) <= Z.max (8 * q) (end_ * w / 8).
Proof.
  intros Hq He ->. pose proof (chunk_width_pos w Hw) as Hp. pose proof (per_chunk_bits w Hw) as Hbits. unfold chunk_count.
  pose proof (Z.div_mod (end_ * w) 8 ltac:(lia)). pose proof (Z.mod_pos_bound (end_ * w) 8 ltac:(lia)).
  set (e := end_ * w / 8) in *. pose proof (Z.div_mod (e - 8 - 8 * q + 7) 8 ltac:(lia)).
  pose proof (Z.mod_pos_bound (e - 8 - 8 * q + 7) 8 ltac:(lia)). set (k := (e - 8 - 8 * q + 7) / 8) in *.
  destruct (decide (0 <= k)); [|replace (Z.to_nat k) with 0%nat by lia; rewrite Z.add_0_r; lia].
  rewrite Z2Nat.id by done. split; [|lia]. assert ((q + k) * 64 <= end_ * w) by lia. nia.
Qed.

Lemma first_start start end_ :
  0 <= start <= end_ ->
  let ee := round_up start (64 / no0 w) in
  let ee := if end_ <? ee then end_ else ee in
  start <= ee <= end_ /\ Z.max start ee = ee /\ (ee < end_ -> exists q, 0 <= q /\ ee = q * Z.of_nat n).
Proof.
  intros Hs. cbn zeta. rewrite chunk_size_no0 by done. pose proof (per_chunk_bits w Hw) as Hbits. pose proof (chunk_width_pos w Hw).
  destruct (round_up_spec start (Z.of_nat n) ltac:(lia) ltac:(nia)) as [Hr Hm]. destruct (Z.ltb_spec end_ (round_up start (Z.of_nat n))).
  - split_and!; lia.
  - split_and!; [lia..|]. intros _. apply Z.mod_divide in Hm as [q Hq]; [|nia]. exists q. nia.
Qed.

Lemma scan_range test b i e s :
  0 <= i <= e -> e <= m_size a -> scan callback action (Z.to_nat (e - i)) w a test b i s = Ok (visit b (hits a test i (e - i)) s).
Proof. intros Hi He. rewrite scan_spec by (done || lia). do 3 f_equal. by rewrite Z2Nat.id by lia. Qed.

Lemma visit_split test b i j e s :
  0 <= i <= j -> j <= e ->
  Ok (visit b (hits a test i (e - i)) s) = (Ok (visit b (hits a test i (j - i)) s) &> fun s => Ok (visit b (hits a test j (e - j)) s)).
Proof.
  intros Hi Hj. rewrite <- visit_app. do 2 f_equal. replace (e - i) with ((j - i) + (e - j)) by lia.
  rewrite hits_app by lia. do 2 f_equal. lia.
Qed.

Lemma room_after_visit b test i m k s s' :
  0 <= k -> 0 <= m -> room (k + m) s -> visit b (hits a test i m) s = (s', true) -> room k s'.
Proof.
  intros Hk Hm Hr E. eapply visit_room; [exact Hk| |exact E]. eapply room_weaken; [exact Hr|].
  pose proof (length_matches test i (elems a i m)) as Hl. unfold hits. rewrite length_elems in Hl. lia.
Qed.

(** The course of a comparison: elements up to the first chunk, chunks, and the elements that are
    left, where the chunks are searched right. *)
Lemma compare_course (use_chunks : bool) (chunks : nat -> Z -> Search -> result (Search * bool)) test start end_ b s :
  (forall k q s, 0 <= q -> 8 * (q + Z.of_nat k) <= Z.of_nat (length (m_data a)) -> (q + Z.of_nat k) * Z.of_nat n <= m_size a ->
     room (64 * Z.of_nat k) s -> use_chunks = true ->
     chunks k (8 * q) s = Ok (visit b (hits a test (q * Z.of_nat n) (Z.of_nat k * Z.of_nat n)) s)) ->
  0 <= start <= end_ -> end_ <= m_size a -> room (2 ^ 60) s ->
  (let ee := round_up start (64 / no0 w) in
   let ee := if end_ <? ee then end_ else ee in
   scan callback action (Z.to_nat (ee - start)) w a test b start s &> fun s =>
   let start := Z.max start ee in
   if end_ <=? start then Ok (s, true)
   else if use_chunks then
     let p := start * w / 8 in
     let k := chunk_count p (end_ * w / 8 - 8) in
     chunks k p s &> fun s =>
     let start := (p + 8 * Z.of_nat k) / 8 * 8 * 8 / no0 w in
     scan callback action (Z.to_nat (end_ - start)) w a test b start s
   else scan callback action (Z.to_nat (end_ - start)) w a test b start s) =
  Ok (visit b (hits a test start (end_ - start)) s).
Proof.
  intros Hchunks Hs He Hr. cbn zeta.
  pose proof (chunk_width_pos w Hw) as Hp. pose proof (per_chunk_bits w Hw) as Hbits.
  pose proof (ok_size _ Hok) as Hsz. unfold max_array_size in Hsz. pose proof (ok_data _ Hok) as Hdata.
  destruct (first_start start end_ Hs) as (Hee & -> & Hq). set (ee := if end_ <? _ then _ else _) in *.
  rewrite scan_range by lia. rewrite (visit_split _ _ start ee end_) by lia.
  destruct (visit b (hits a _ start (ee - start)) s) as [s1 [|]] eqn:E1; cbn [and_then]; [|done].
  assert (room (2 ^ 59) s1) as Hr1 by (eapply room_after_visit; [| | |exact E1]; [lia|lia|eapply room_weaken; [exact Hr|lia]]).
  destruct (Z.leb_spec end_ ee) as [|Hlt]; [by replace (end_ - ee) with 0 by lia|].
  destruct use_chunks; [|apply scan_range; lia]. destruct (Hq Hlt) as (q & Hq0 & Eq).
  assert (ee * w / 8 = 8 * q) as -> by (rewrite Eq; replace (q * Z.of_nat n * w) with (8 * q * 8) by nia; by apply Z.div_mul).
  destruct (chunk_count_spec q end_ _ Hq0 ltac:(lia) eq_refl) as [Hk1 Hk2]. set (k := chunk_count _ _) in *.
  assert (end_ * w / 8 <= Z.of_nat (length (m_data a))) by (apply Z.div_le_upper_bound; [lia|nia]).
  assert (8 * q <= Z.of_nat (length (m_data a))) by nia.
  pose proof (per_chunk_range w Hw). assert (Z.of_nat k <= end_) by nia.
  rewrite Hchunks; [|lia|lia|lia|eapply room_weaken; [exact Hr1|lia]|done].
  rewrite <- Eq. rewrite (visit_split _ _ ee ((q + Z.of_nat k) * Z.of_nat n) end_) by nia.
  replace ((q + Z.of_nat k) * Z.of_nat n - ee) with (Z.of_nat k * Z.of_nat n) by lia.
  apply and_then_ext. intros s2. replace (8 * q + 8 * Z.of_nat k) with (8 * (q + Z.of_nat k)) by lia.
  rewrite chunk_start by lia. apply scan_range; nia.
Qed.

Lemma compare_equality_spec eq value start end_ b s :
  0 <= start <= end_ -> end_ <= m_size a -> m_lbound a <= value <= m_ubound a -> room (2 ^ 60) s ->
  compare_equality callback action eq w a value start end_ b s =
  Ok (visit b (hits a (equal_test eq value) start (end_ - start)) s).
Proof.
  intros Hs He Hv Hr. unfold compare_equality. fold (equal_test eq value). rewrite valuemask_pack.
  apply (compare_course _ (fun k p s => equal_chunks callback action k eq w a (pack w (rep n (value mod 2 ^ w))) b p s)); try done.
  intros k q s' Hq Hl Hk Hr' _. by apply equal_chunks_spec.
Qed.
End array.
