(* ===== verification/ArrayRelation.v ===== *)
(** [compare_relation] visits the elements that are greater than the value, or less. *)

From S2P Require Import Prelude SafeInt NodeHeader PackedArray ArrayFind ChunkFields ArraySearch ArrayEqual.

Section relation.
Context `{PrimitivesSpec} {C : Type} (callback : Z -> C -> C * bool) (action : Action).
Context (a : Array) (Hok : array_ok a).
Local Abbreviation w := (m_width a).
Local Abbreviation Search := (QueryState * C)%type.
Local Abbreviation do_action := (find_action callback action).
Local Abbreviation visit := (visit callback action).
Local Abbreviation room := (room action).
Local Abbreviation declines := (declines action).
Local Abbreviation n := (per_chunk w).
Context (Hw : w ∈ chunk_widths).

Definition relation_test (gt : bool) (value v : Z) : bool := if gt then value <? v else v <? value.

Lemma index_of i base b start : base = u64 (start + b) -> u64 (i + base) = u64 (start + i + b).
Proof. intros ->. rewrite u64_add_r. f_equal. lia. Qed.

(** ** Element by element *)

Lemma chunk_element_spec l t f :
  chunk_of w l -> l !! t = Some f -> chunk_element w (pack w l) (Z.of_nat t) = interp w f.
Proof.
  intros [Hl Hf] Ef. pose proof (chunk_width_pos w Hw) as Hp. unfold chunk_element, interp.
  pose proof (field_pack w Hp l t Hf) as E. rewrite Ef in E. change (default 0 (Some f)) with f in E.
  rewrite width_mask_ones, land_ones_mod by (done || lia). fold (field w (pack w l) (Z.of_nat t)). rewrite E.
  destruct (w <=? 4); [done|]. unfold field in E. unfold sext. by rewrite <- E, Zmod_mod.
Qed.

Lemma gtlt_each_spec k gt value q b base t s :
  0 <= q -> base = u64 (q * Z.of_nat n + b) -> (t + k <= n)%nat ->
  gtlt_each callback action k gt w value (pack w (chunk_fields a q)) base (Z.of_nat t) s =
  Ok (visit b (hits a (relation_test gt value) (q * Z.of_nat n + Z.of_nat t) (Z.of_nat k)) s).
Proof.
  intros Hq Eb. revert t s. induction k as [|k IH]; intros t s Ht; [done|]. cbn [gtlt_each].
  pose proof (chunk_fields_of a Hw q) as Hc. destruct (lookup_lt_is_Some_2 (chunk_fields a q) t) as [f Ef]; [destruct Hc; lia|].
  rewrite (chunk_element_spec _ t f Hc Ef). destruct (chunk_fields_lookup a Hw q t f Hq Ef) as [-> _].
  replace (Z.of_nat (S k)) with (1 + Z.of_nat k) by lia. rewrite hits_app, visit_app by lia.
  replace (Z.of_nat t + 1) with (Z.of_nat (t + 1)) by lia. rewrite (index_of _ base b _ Eb).
  unfold hits at 1, elems. change (seqZ ?i 1) with [i]. 
cbn [fmap list_fmap matches].
  fold (relation_test gt value (elem a (q * Z.of_nat n + Z.of_nat t))). destruct (relation_test _ _ _); cbn [ArraySearch.visit].
  - destruct (do_action _ _ s) as [s' [|]]; cbn [and_then]; [|done]. rewrite IH by lia.
    by replace (q * Z.of_nat n + Z.of_nat (t + 1)) with (q * Z.of_nat n + Z.of_nat t + 1) by lia.
  - cbn [and_then]. rewrite IH by lia.
    by replace (q * Z.of_nat n + Z.of_nat (t + 1)) with (q * Z.of_nat n + Z.of_nat t + 1) by lia.
Qed.

Lemma find_gtlt_spec gt value q b s :
  0 <= q ->
  find_gtlt callback action gt w value (pack w (chunk_fields a q)) (u64 (q * Z.of_nat n + b)) s =
  Ok (visit b (hits a (relation_test gt value) (q * Z.of_nat n) (Z.of_nat n)) s).
Proof.
  intros Hq. unfold find_gtlt. rewrite chunk_size_no0, Nat2Z.id by done.
  rewrite (gtlt_each_spec _ _ _ q b _ 0) by (done || lia). by rewrite Z.add_0_r.
Qed.

(** ** The fast comparison *)

Section fast.
Context (value q b : Z) (Hq : 0 <= q) (Hend : q * Z.of_nat n + Z.of_nat n <= m_size a).
Context (Hv : 0 <= value < 2 ^ (w - 1)) (Hw32 : 2 <= w <= 16).
Local Abbreviation l := (chunk_fields a q).
Context (Hlow : Forall (fun f => f < 2 ^ (w - 1)) l).
Local Abbreviation start := (q * Z.of_nat n).
Local Abbreviation test := (relation_test true value).

(** The marks of the elements that are greater, for the lemmas on first matches. *)
Definition marks : list Z := (fun f => Z.b2z (value <? f)) <$> l.

Lemma field_of i f : l !! i = Some f -> elem a (start + Z.of_nat i) = f /\ 0 <= f < 2 ^ (w - 1).
Proof.
  intros Ef. destruct (chunk_fields_lookup a Hw q i f Hq Ef) as [<- Hf]. rewrite Forall_lookup in Hlow. specialize (Hlow i f Ef).
  cbn in Hlow. split; [|lia]. unfold interp. destruct (Z.leb_spec w 4); [done|]. unfold sext.
  rewrite Z.mod_small by done. by rewrite (proj2 (Z.ltb_lt _ _)).
Qed.

Lemma marks_of : chunk_of w marks.
Proof.
  pose proof (chunk_fields_of a Hw q) as [Hl _]. pose proof (pow_w_pos w (chunk_width_pos w Hw)). split; [by unfold marks; rewrite length_fmap|].
  apply Forall_fmap, Forall_forall. intros f _. cbn. destruct (value <? f); cbn; lia.
Qed.

Lemma marks_test i x : marks !! i = Some x -> zero_match false x = test (elem a (start + Z.of_nat i)).
Proof.
  unfold marks. rewrite list_lookup_fmap. destruct (l !! i) as [f|] eqn:Ef; [|done]. intros E. injection E as <-.
  destruct (field_of i f Ef) as [-> _]. unfold relation_test. by destruct (value <? f).
Qed.

Lemma marks_lookup i f : l !! i = Some f -> marks !! i = Some (Z.b2z (value <? f)).
Proof. intros Ef. unfold marks. by rewrite list_lookup_fmap, Ef. Qed.

(** The pattern of the elements from the [k]-th on. *)
Definition pattern_from (k : nat) : Z := pack w (greater_top w value <$> drop k l).

Lemma tops_ok k : fields_ok w (greater_top w value <$> drop k l).
Proof.
  pose proof (pow_top w (chunk_width_pos w Hw)). apply Forall_fmap, Forall_forall. intros f _. cbn. unfold greater_top. destruct (value <? f); lia.
Qed.

Lemma pattern_bounds k : 0 <= pattern_from k < 2 ^ 64.
Proof.
  pose proof (pack_bounds w (chunk_width_pos w Hw) _ (tops_ok k)) as B. rewrite length_fmap, length_drop in B.
  pose proof (chunk_fields_of a Hw q) as [Hl _]. pose proof (per_chunk_bits w Hw) as Hb. pose proof (chunk_width_pos w Hw).
  pose proof (pow2_le (w * Z.of_nat (length l - k)) 64 ltac:(nia)). unfold pattern_from. lia.
Qed.

Lemma pattern_zero k : pattern_from k = 0 -> forall j f, (k <= j)%nat -> l !! j = Some f -> (value <? f) = false.
Proof.
  intros E j f Hj Ef. apply Z.eqb_eq in E. unfold pattern_from in E. rewrite (pack_zero w Hw) in E by apply tops_ok.
  apply bool_decide_eq_true in E. rewrite Forall_forall in E. pose proof (pow2_pos (w - 1) ltac:(lia)).
  assert (greater_top w value f = 0) as E0.
  { apply E. apply list_elem_of_fmap_2. apply list_elem_of_lookup. exists (j - k)%nat. rewrite lookup_drop. rewrite <- Ef. f_equal. lia. }
  unfold greater_top in E0. destruct (value <? f); [lia|done].
Qed.

(** Where the first element is that is greater. *)
Lemma pattern_first k :
  pattern_from k <> 0 -> (k <= n)%nat ->
  exists t f, first_set_bit64 (pattern_from k) / w = Z.of_nat t /\ (k + t < n)%nat /\ l !! (k + t)%nat = Some f /\ (value <? f) = true /\
    forall j g, (k <= j < k + t)%nat -> l !! j = Some g -> (value <? g) = false.
Proof.
  intros Hne Hk. pose proof (pattern_bounds k) as B. pose proof (chunk_width_pos w Hw) as Hp.
  pose proof (first_set_bit64_spec (pattern_from k) ltac:(lia)) as Hf.
  assert (exists j f, l !! j = Some f /\ (k <= j)%nat /\ (value <? f) = true) as (j & f & Ef & Hj & Hgt).
  { destruct (decide (Forall (fun f => (value <? f) = false) (drop k l))) as [Hall|Hnot].
    - exfalso. apply Hne. apply Z.eqb_eq. unfold pattern_from. rewrite (pack_zero w Hw) by apply tops_ok. apply bool_decide_eq_true.
      apply Forall_fmap. eapply Forall_impl; [exact Hall|]. intros x Hx. unfold greater_top. cbn. by rewrite Hx.
    - apply not_Forall_Exists in Hnot; [|apply _]. apply Exists_exists in Hnot as (f & Hin & Hx).
      apply list_elem_of_lookup in Hin as (j & Ej). rewrite lookup_drop in Ej. exists (k + j)%nat, f.
      split_and!; [done|lia|]. by apply not_false_iff_true. }
  destruct (first_match_exists false (drop k marks) (Z.b2z (value <? f))) as (i & x & Hi & Ex & Hm & Hb).
  { apply list_elem_of_lookup. exists (j - k)%nat. rewrite lookup_drop. rewrite <- (marks_lookup j f Ef). f_equal. lia. }
  { by rewrite Hgt. }
  rewrite lookup_drop in Ex. pose proof (lookup_lt_Some _ _ _ Ex) as Hlt. rewrite (proj1 marks_of) in Hlt.
  unfold marks in Ex. rewrite list_lookup_fmap in Ex. destruct (l !! (k + Z.to_nat i)%nat) as [g|] eqn:Eg; [|done]. injection Ex as <-.
  assert ((value <? g) = true) as Hg by (unfold zero_match in Hm; by destruct (value <? g)).
  assert (forall j0 g0, (k <= j0 < k + Z.to_nat i)%nat -> l !! j0 = Some g0 -> (value <? g0) = false) as Hbefore.
  { intros j0 g0 Hj0 Eg0. specialize (Hb (Z.of_nat (j0 - k)) (Z.b2z (value <? g0)) ltac:(lia)). rewrite Nat2Z.id, lookup_drop in Hb.
    replace (k + (j0 - k))%nat with j0 in Hb by lia. specialize (Hb (marks_lookup j0 g0 Eg0)). unfold zero_match in Hb. by destruct (value <? g0). }
  exists (Z.to_nat i), g. split_and!; try done.
  eapply (first_set_top w value (drop k l)); [done|exact Hf| |].
  - intros j0 g0 Hj0 Eg0. rewrite lookup_drop in Eg0. apply (Hbefore (k + j0)%nat); [lia|done].
  - exists g. by rewrite lookup_drop.
Qed.

Lemma pattern_next k t :
  (k + t < n)%nat ->
  (if (Z.of_nat t + 1) * w =? 64 then 0 else shr64 (pattern_from k) ((Z.of_nat t + 1) * w)) = pattern_from (k + t + 1).
Proof.
  intros Hk. pose proof (chunk_width_pos w Hw) as Hp. pose proof (per_chunk_bits w Hw) as Hb.
  pose proof (chunk_fields_of a Hw q) as [Hl _]. destruct (Z.eqb_spec ((Z.of_nat t + 1) * w) 64) as [E|E].
  - assert (k + t + 1 = n)%nat as -> by nia. unfold pattern_from. by rewrite drop_ge by lia.
  - assert ((Z.of_nat t + 1) * w < 64) by nia. unfold shr64. rewrite (proj2 (Z.ltb_lt _ _)) by done.
    replace ((Z.of_nat t + 1) * w) with (w * Z.of_nat (t + 1)) by lia. unfold pattern_from.
    rewrite pack_shift by (done || apply tops_ok || (rewrite length_fmap, length_drop; lia)).
    rewrite <- fmap_drop, drop_drop. do 3 f_equal. lia.
Qed.

Local Abbreviation left := (left_hits a start test).

Lemma gtlt_matches_declined fuel k s :
  declines s -> room (Z.of_nat (n - k)) s -> (k <= n)%nat -> (n - k < fuel)%nat ->
  gtlt_matches callback action fuel w (pack w l) (u64 (start + b)) (pattern_from k) (Z.of_nat k) s = Ok (visit b (left k) s).
Proof.
  pose proof (chunk_width_pos w Hw) as Hp. pose proof (per_chunk_bits w Hw) as Hbits. pose proof (chunk_fields_of a Hw q) as Hc.
  assert (0 <= start) as Hstart by nia.
  revert k s. induction fuel as [|fuel IH]; intros k s Hd Hr Hk Hf; [lia|]. cbn [gtlt_matches].
  destruct (Z.eqb_spec (pattern_from k) 0) as [Ez|Ez].
  - rewrite (left_hits_none a start marks false test marks_of marks_test); [done|].
    intros j x Hj Ex. unfold marks in Ex. rewrite list_lookup_fmap in Ex. destruct (l !! j) as [f|] eqn:Ef; [|done]. injection Ex as <-.
    by rewrite (pattern_zero k Ez j f Hj Ef).
  - rewrite Hd. destruct (pattern_first k Ez Hk) as (t & f & Et & Hkt & Ef & Hgt & Hbefore).
    assert (no0 w = w) as -> by (unfold no0; by rewrite (proj2 (Z.eqb_neq _ _)) by lia). rewrite Et.
    replace (Z.of_nat k + Z.of_nat t) with (Z.of_nat (k + t)) by lia.
    rewrite (Z.mul_comm (Z.of_nat (k + t)) w), shr64_field by (done || lia). rewrite Ef. change (default 0 (Some f)) with f.
    rewrite (left_hits_first a start marks false test marks_of marks_test k t (Z.b2z (value <? f))); cycle 1.
    { done. }
    { by apply marks_lookup. }
    { by rewrite Hgt. }
    { intros j x Hj Ex. unfold marks in Ex. rewrite list_lookup_fmap in Ex. destruct (l !! j) as [g|] eqn:Eg; [|done]. injection Ex as <-.
      by rewrite (Hbefore j g Hj Eg). }
    cbn [ArraySearch.visit]. rewrite (index_of _ _ b start eq_refl). rewrite (proj1 (field_of _ _ Ef)).
    destruct (do_action _ _ s) as [s' [|]] eqn:E; cbn [and_then]; [|done].
    rewrite pattern_next by done. replace (Z.of_nat (k + t) + 1) with (Z.of_nat (k + t + 1)) by lia.
    apply IH; [| |lia|lia].
    + eapply declines_after; [|exact Hd|exact E]; eapply room_weaken; [exact Hr|lia].
    + eapply find_action_room; [| |exact E]; [lia|]. eapply room_weaken; [exact Hr|lia].
Qed.

Lemma find_gtlt_fast_spec s :
  room 64 s ->
  find_gtlt_fast callback action true w (pack w l) (find_gtlt_magic true w value) (u64 (start + b)) s =
  Ok (visit b (hits a test start (Z.of_nat n)) s).
Proof.
  intros Hr. pose proof (chunk_width_pos w Hw) as Hp. pose proof (per_chunk_bits w Hw) as Hbits.
  pose proof (per_chunk_range w Hw) as Hn64. pose proof (chunk_fields_of a Hw q) as Hc. pose proof Hc as [Hl _].
  assert (0 <= start) as Hstart by nia.
  assert (left 0 = hits a test start (Z.of_nat n)) as Hh by (unfold left_hits; f_equal; lia).
  unfold find_gtlt_fast. rewrite gtlt_pattern_spec by (done || lia). change 65%nat with (S 64).
  change (greater_top w value <$> l) with (greater_top w value <$> drop 0 l). fold (pattern_from 0).
  destruct (pattern_cases action s) as [Hd|Hcons].
  { rewrite <- Hh. apply (gtlt_matches_declined 65 0 s Hd); [eapply room_weaken; [exact Hr|lia]|lia|lia]. }
  rewrite <- Hh. generalize 64%nat. intros fuel. cbn [gtlt_matches]. destruct (Z.eqb_spec (pattern_from 0) 0) as [Ez|Ez].
  - rewrite (left_hits_none a start marks false test marks_of marks_test); [done|].
    intros j x Hj Ex. unfold marks in Ex. rewrite list_lookup_fmap in Ex. destruct (l !! j) as [f|] eqn:Ef; [|done]. injection Ex as <-.
    by rewrite (pattern_zero 0 Ez j f Hj Ef).
  - assert (no0 w = w) as -> by (unfold no0; by rewrite (proj2 (Z.eqb_neq _ _)) by lia).
    unfold shr64. rewrite (proj2 (Z.ltb_lt _ _)) by lia. set (m := Z.shiftr (pattern_from 0) (w - 1)).
    destruct (Hcons m) as (s' & E). rewrite E. f_equal. symmetry.
    assert (popcount m = Z.of_nat (length (left 0))) as Hpc.
    { unfold m, pattern_from. rewrite drop_0, (popcount_greater w value l start) by (done || nia). f_equal. rewrite Hh. apply matches_same_length.
      - rewrite length_elems. lia.
      - intros k x y Ex Ey. pose proof (lookup_lt_Some _ _ _ Ex). rewrite elems_lookup in Ey by lia. injection Ey as <-.
        by rewrite (proj1 (field_of k x Ex)). }
    eapply pattern_visits; [|exact Hpc| |exact Hr|exact E].
    + pose proof (pattern_bounds 0). unfold m. rewrite Z.shiftr_div_pow2 by lia. pose proof (pow2_pos (w - 1) ltac:(lia)).
      split; [apply Z.div_pos; lia|]. apply Z.div_lt_upper_bound; [done|]. nia.
    + split.
      * destruct (pattern_first 0 Ez ltac:(lia)) as (t & f & _ & Hkt & Ef & Hgt & Hbefore).
        rewrite (left_hits_first a start marks false test marks_of marks_test 0 t (Z.b2z (value <? f)));
          [cbn; lia|done|by apply marks_lookup|by rewrite Hgt|].
        intros j x Hj Ex. unfold marks in Ex. rewrite list_lookup_fmap in Ex. destruct (l !! j) as [g|] eqn:Eg; [|done]. injection Ex as <-.
        by rewrite (Hbefore j g Hj Eg).
      * pose proof (length_matches test start (elems a start (Z.of_nat n))) as Hlm. rewrite Hh. unfold hits. rewrite length_elems in Hlm. lia.
Qed.
End fast.

(** ** When the fast comparison is used *)

Lemma use_fast_greater value : use_fast true w value = true -> 2 <= w /\ 0 <= value < 2 ^ (w - 1).
Proof.
  pose proof (chunk_width_pos w Hw) as Hp. unfold use_fast. rewrite width_mask_ones by done.
  intros [[[_ Hv%Z.leb_le]%andb_true_iff H2%Z.leb_le]%andb_true_iff Hle%Z.leb_le]%andb_true_iff. split; [done|]. split; [done|].
  pose proof (pow_top w Hp) as Ht. rewrite Z.shiftr_div_pow2 in Hle by lia. change (2 ^ 1) with 2 in Hle.
  pose proof (Z.div_lt_upper_bound (2 ^ w - 1) 2 (2 ^ (w - 1)) ltac:(lia) ltac:(lia)). lia.
Qed.

(** For [Less] the constant is the value itself in each element, and the fast comparison is never
    used. *)
Lemma use_fast_less value : w <= 16 -> use_fast false w value = false.
Proof.
  intros H16. pose proof (chunk_width_pos w Hw) as Hp. pose proof (pow_top w Hp) as Ht. pose proof (pow_w_pos w Hp).
  unfold use_fast. rewrite width_mask_ones by done.
  destruct (Z.leb_spec 0 value) as [Hv|]; [|by rewrite andb_false_r].
  destruct (Z.leb_spec value (Z.shiftr (2 ^ w - 1) 1 - 0)) as [Hle|]; [|by rewrite andb_false_r].
  rewrite Z.shiftr_div_pow2 in Hle by lia. change (2 ^ 1) with 2 in Hle.
  pose proof (Z.div_lt_upper_bound (2 ^ w - 1) 2 (2 ^ (w - 1)) ltac:(lia) ltac:(lia)).
  rewrite magic_pack by (done || lia). rewrite land_ones_mod by lia.
  assert (pack w (rep n value) mod 2 ^ w = value) as ->; [|by rewrite Z.eqb_refl].
  pose proof (per_chunk_range w Hw). destruct n as [|m]; [lia|]. apply pack_cons_mod. lia.
Qed.

Lemma tops_clear l : chunk_of w l -> Z.land (upper_bits w) (pack w l) = 0 -> Forall (fun f => f < 2 ^ (w - 1)) l.
Proof.
  intros [Hl Hf] E. pose proof (chunk_width_pos w Hw) as Hp. pose proof (pow_top w Hp) as Ht. pose proof (pow2_pos (w - 1) ltac:(lia)).
  rewrite Z.land_comm, upper_bits_pack, pack_land in E by (done || (apply top_ok; lia) || (unfold rep; by rewrite length_replicate)).
  rewrite <- Hl, zip_rep in E. apply Z.eqb_eq in E. rewrite (pack_zero w Hw) in E.
  - apply bool_decide_eq_true in E. rewrite Forall_fmap in E. clear Hl. induction Hf as [|f l Hf _ IH]; [constructor|].
    apply Forall_cons in E as [E0 E]. constructor; [|by apply IH]. cbn in E0. rewrite land_top in E0 by done.
    destruct (Z.leb_spec (2 ^ (w - 1)) f); lia.
  - apply Forall_fmap. eapply Forall_impl; [exact Hf|]. intros f Hb. cbn. apply land_bounds; [lia|done|lia].
Qed.

(** ** The loop over the chunks *)

Lemma gtlt_chunks_spec k gt value b q s :
  w <= 16 -> 0 <= q -> 8 * (q + Z.of_nat k) <= Z.of_nat (length (m_data a)) ->
  (q + Z.of_nat k) * Z.of_nat n <= m_size a -> room (64 * Z.of_nat k) s ->
  gtlt_chunks callback action k (use_fast gt w value) gt w a value (find_gtlt_magic gt w value) b (8 * q) s =
  Ok (visit b (hits a (relation_test gt value) (q * Z.of_nat n) (Z.of_nat k * Z.of_nat n)) s).
Proof.
  intros H16. pose proof (chunk_width_pos w Hw) as Hp. pose proof (per_chunk_range w Hw).
  revert q s. induction k as [|k IH]; intros q s Hq Hl He Hr; [done|]. cbn [gtlt_chunks].
  rewrite read_chunk_spec, <- (pack_chunk_fields a Hw) by (done || lia). cbn [mbind result_bind]. rewrite chunk_start by done.
  assert ((if use_fast gt w value && (Z.land (upper_bits w) (pack w (chunk_fields a q)) =? 0)
           then find_gtlt_fast callback action gt w (pack w (chunk_fields a q)) (find_gtlt_magic gt w value) (u64 (q * Z.of_nat n + b)) s
           else find_gtlt callback action gt w value (pack w (chunk_fields a q)) (u64 (q * Z.of_nat n + b)) s) =
          Ok (visit b (hits a (relation_test gt value) (q * Z.of_nat n) (Z.of_nat n)) s)) as ->.
  { destruct (use_fast gt w value && _) eqn:E; [|by apply find_gtlt_spec]. apply andb_true_iff in E as [Ef Et%Z.eqb_eq].
    destruct gt; [|by rewrite use_fast_less in Ef]. destruct (use_fast_greater value Ef) as [H2 Hv].
    apply find_gtlt_fast_spec; try done; try lia; try nia; [apply tops_clear; [apply (chunk_fields_of a Hw)|done]|].
    eapply room_weaken; [exact Hr|lia]. }
  replace (Z.of_nat (S k) * Z.of_nat n) with (Z.of_nat n + Z.of_nat k * Z.of_nat n) by lia.
  rewrite hits_app, visit_app by lia. destruct (visit b (hits _ _ _ (Z.of_nat n)) s) as [s' [|]] eqn:E; cbn [and_then]; [|done].
  replace (8 * q + 8) with (8 * (q + 1)) by lia. rewrite IH; [|lia|lia|nia|].
  - by replace ((q + 1) * Z.of_nat n) with (q * Z.of_nat n + Z.of_nat n) by lia.
  - eapply room_after_visit; [| | |exact E]; [lia|lia|]. eapply room_weaken; [exact Hr|lia].
Qed.

Lemma compare_relation_spec gt value start end_ b s :
  0 <= start <= end_ -> end_ <= m_size a -> room (2 ^ 60) s ->
  compare_relation callback action gt w a value start end_ b s =
  Ok (visit b (hits a (relation_test gt value) start (end_ - start)) s).
Proof.
  intros Hs He Hr. unfold compare_relation. rewrite (proj2 (Z.leb_le start (m_size a))), (proj2 (Z.leb_le end_ (m_size a))) by lia.
  rewrite (proj2 (Z.leb_le start end_)) by lia. cbn [andb orb realm_assert mbind result_bind]. fold (relation_test gt value).
  apply (compare_course _ _ _ Hok Hw (bool_decide (w ∈ [1; 2; 4; 8; 16]))
    (fun k p s => gtlt_chunks callback action k (use_fast gt w value) gt w a value (find_gtlt_magic gt w value) b p s)); try done.
  intros k q s' Hq Hl Hk Hr' Hin%bool_decide_eq_true. apply gtlt_chunks_spec; try done.
  repeat (apply elem_of_cons in Hin as [->|Hin]; [lia|]). by apply not_elem_of_nil in Hin.
Qed.
End relation.
