(* ===== verification/ArrayFindProps.v ===== *)
(** What the actions of a search make of many elements at once (the limit, sums, the best element),
    which is what [find_optimized] relies on where it knows that all elements match; and what the
    search of an array finds: [find_optimized] against a plain definition. *)

From S2P Require Import Prelude SafeInt NodeHeader PackedArray ArrayFind ChunkFields ArraySearch ArrayEqual ArrayRelation.

(** Actions that [find_optimized] takes for all elements at once. *)
Definition takes_all (action : Action) : bool := bool_decide (action ∈ [act_Count; act_Sum; act_Max; act_Min]).

Lemma cast_int64_add x y : cast int64_t (cast int64_t x + y) = cast int64_t (x + y).
Proof.
  assert (forall z, cast int64_t z = (z + 2 ^ 63) mod 2 ^ 64 - 2 ^ 63) as E by (intros z; reflexivity).
  rewrite !E. f_equal. replace ((x + 2 ^ 63) mod 2 ^ 64 - 2 ^ 63 + y + 2 ^ 63) with ((x + 2 ^ 63) mod 2 ^ 64 + y) by lia.
  rewrite Zplus_mod_idemp_l. f_equal. lia.
Qed.

Lemma cast_int64_add_r x y : cast int64_t (x + cast int64_t y) = cast int64_t (x + y).
Proof. rewrite Z.add_comm, cast_int64_add. by rewrite Z.add_comm. Qed.

Section actions.
Context `{Primitives} {C : Type} (callback : Z -> C -> C * bool) (action : Action).
Local Abbreviation Search := (QueryState * C)%type.
Local Abbreviation do_action := (find_action callback action).
Local Abbreviation visit := (visit callback action).
Local Abbreviation room := (room action).

(** ** The limit *)

(** The limit is not reached. *)
Definition ready (s : Search) : Prop := 0 <= m_match_count s.1 < m_limit s.1 /\ m_limit s.1 < 2 ^ 64.

(** It is not after a match at which the action asks for more. *)
Lemma find_action_ready i v s s' :
  room 1 s -> ready s -> do_action i (Some v) s = (s', true) -> ready s'.
Proof.
  intros Hr (Hm & Hl) E. destruct s as [q c]. cbn [fst] in *. unfold ready.
  assert (u64 (m_match_count q + 1) = m_match_count q + 1) as Eu by (apply u64_small; change word_size with (2 ^ 64); lia).
  destruct (decide (action = act_Count)) as [Ha|Ha].
  - rewrite find_action_count in E by done. injection E as <- Hlt%Z.ltb_lt. destruct (Hr Ha) as (Hc & Hn & _). cbn in *. lia.
  - unfold find_action, match_optional, match_value in E. cbn [fst snd] in E.
    assert (forall q', m_match_count q' = m_match_count q + 1 -> m_limit q' = m_limit q ->
              ((q', c), below_limit q') = (s', true) ->
              0 <= m_match_count s'.1 < m_limit s'.1 /\ m_limit s'.1 < 2 ^ 64) as Hdone.
    { intros q' Em El E'. unfold below_limit in E'. rewrite Em, El in E'. injection E' as <- Hlt%Z.ltb_lt. cbn [fst]. rewrite Em, El. lia. }
    destruct action; try done; try (by refine (Hdone _ _ _ E)).
    1, 2: cbn [m_state set_match_count] in E; destruct (_ <? _) in E; by refine (Hdone _ _ _ E).
    destruct (callback i c) as [c' go]. injection E as <- ->. done.
Qed.

Lemma visit_ready b l s s' :
  room (Z.of_nat (length l)) s -> ready s -> visit b l s = (s', true) -> ready s'.
Proof.
  revert s. induction l as [|[i v] l IH]; intros s Hr Hd E; cbn [ArraySearch.visit length] in *; [by injection E as <-|].
  destruct (do_action _ _ s) as [s1 [|]] eqn:E1; [|done]. apply (IH s1); [| |done].
  - eapply find_action_room; [| |exact E1]; [lia|]. eapply room_weaken; [exact Hr|lia].
  - eapply find_action_ready; [| |exact E1]; [eapply room_weaken; [exact Hr|lia]|done].
Qed.

(** As many matches as the limit allows end a search that takes them one by one. *)
Lemma visit_limit b l q c :
  takes_all action = false -> action <> act_CallbackIdx -> 0 <= m_match_count q -> m_limit q < 2 ^ 64 ->
  m_match_count q < m_limit q <= m_match_count q + Z.of_nat (length l) -> exists s', visit b l (q, c) = (s', false).
Proof.
  intros Ht Hcb. revert q. induction l as [|[i v] l IH]; intros q Hm Hl Hn; cbn [ArraySearch.visit length] in *; [lia|].
  assert (u64 (m_match_count q + 1) = m_match_count q + 1) as Eu by (apply u64_small; change word_size with (2 ^ 64); lia).
  destruct (do_action (u64 (i + b)) (Some v) (q, c)) as [s' [|]] eqn:E; [|by eexists].
  assert (exists q', s' = (q', c) /\ m_match_count q' = m_match_count q + 1 /\ m_limit q' = m_limit q /\ m_match_count q' < m_limit q')
    as (q' & -> & Em & El & Hlt); [|apply IH; lia].
  unfold find_action, match_optional, match_value in E. cbn [fst snd] in E.
  destruct action; try done; injection E as <- Hlt%Z.ltb_lt; (eexists; split_and!; [done|exact Eu|done|exact Hlt]).
Qed.

(** ** Sums *)

Lemma visit_sum b l q c :
  action = act_Sum -> l <> [] -> ready (q, c) -> m_match_count q + Z.of_nat (length l) <= m_limit q ->
  visit b l (q, c) =
  ((set_match_count (m_match_count q + Z.of_nat (length l)) (set_state (cast int64_t (m_state q + sum_of l.*2)) q), c),
   m_match_count q + Z.of_nat (length l) <? m_limit q).
Proof.
  intros Ha. revert q. induction l as [|[i v] l IH]; intros q Hne (Hm & Hl) Hb; [done|].
  cbn [ArraySearch.visit length fst snd fmap list_fmap] in *.
  rewrite Ha. unfold find_action, match_optional, match_value. cbn [fst snd]. unfold below_limit. cbn [m_limit m_match_count m_state set_match_count set_state].
  rewrite u64_small by (change word_size with (2 ^ 64); lia). rewrite <- Ha.
  destruct (decide (l = [])) as [->|Hn].
  - cbn. rewrite Z.add_0_r. by destruct (_ <? _).
  - assert (length l <> 0%nat) by (by destruct l). rewrite (proj2 (Z.ltb_lt _ _)) by lia. rewrite IH; [|done|split; cbn; lia|cbn; lia].
    unfold set_match_count, set_state. cbn [m_state m_match_count m_limit m_minmax_index m_key_offset m_key_values m_column].
    rewrite cast_int64_add. replace (m_match_count q + 1 + Z.of_nat (length l)) with (m_match_count q + Z.of_nat (S (length l))) by lia.
    do 4 f_equal. unfold sum_of. cbn [foldr fst snd]. lia.
Qed.

(** ** The best element *)

(** Where the action looks for a better element: [lt] is [<] for the maximum, [>] for the
    minimum. *)
Definition better (lt : Z -> Z -> bool) : Prop := (lt = Z.ltb /\ action = act_Max) \/ (lt = Z.gtb /\ action = act_Min).

Lemma better_trans lt x y z : better lt -> lt x y = true -> lt y z = true -> lt x z = true.
Proof.
  intros [[-> _]|[-> _]]; rewrite ?Z.gtb_ltb, ?Z.ltb_lt; lia.
Qed.

Lemma better_not lt x y z : better lt -> lt x y = false -> lt y z = false -> lt x z = false.
Proof.
  intros [[-> _]|[-> _]]; rewrite ?Z.gtb_ltb, ?Z.ltb_ge; lia.
Qed.

Lemma better_takes_all lt : better lt -> takes_all action = true.
Proof. by intros [[_ ->]|[_ ->]]. Qed.

Section best.
Context (lt : Z -> Z -> bool) (Hlt : better lt).

(** One element, but for the count. *)
Definition take_best (i v : Z) (q : QueryState) : QueryState :=
  if lt (m_state q) v then set_minmax_index (key_of q i) (set_state v q) else q.

Lemma find_action_best i v q c :
  find_action callback action i (Some v) (q, c) =
  let q := take_best i v (set_match_count (u64 (m_match_count q + 1)) q) in ((q, c), below_limit q).
Proof.
  unfold find_action, match_optional, match_value, take_best. cbn [fst snd].
  destruct Hlt as [[-> ->]|[-> ->]]; [done|]. by rewrite Z.gtb_ltb.
Qed.

Lemma take_best_fields i v q :
  m_limit (take_best i v q) = m_limit q /\ m_match_count (take_best i v q) = m_match_count q.
Proof. unfold take_best. by destruct (lt _ _). Qed.

Lemma take_best_count i v n q : take_best i v (set_match_count n q) = set_match_count n (take_best i v q).
Proof. unfold take_best. by destruct q; cbn; destruct (lt _ _). Qed.

Fixpoint take_all (b : Z) (l : list (Z * Z)) (q : QueryState) : QueryState :=
  match l with [] => q | (i, v) :: l => take_all b l (take_best (u64 (i + b)) v q) end.

Lemma take_all_count b l n q : take_all b l (set_match_count n q) = set_match_count n (take_all b l q).
Proof. revert q. induction l as [|[j x] l IH]; intros q; [done|]. cbn [take_all]. by rewrite take_best_count, IH. Qed.

Lemma visit_best b l q c :
  l <> [] -> ready (q, c) -> m_match_count q + Z.of_nat (length l) <= m_limit q ->
  visit b l (q, c) = ((set_match_count (m_match_count q + Z.of_nat (length l)) (take_all b l q), c),
                      m_match_count q + Z.of_nat (length l) <? m_limit q).
Proof.
  revert q. induction l as [|[i v] l IH]; intros q Hne (Hm & Hl) Hb; cbn [fst] in *; [done|].
  cbn [ArraySearch.visit length] in *. rewrite find_action_best. cbn zeta.
  rewrite (u64_small (m_match_count q + 1)) by (change word_size with (2 ^ 64); lia).
  rewrite take_best_count. destruct (take_best_fields (u64 (i + b)) v q) as [El Em].
  unfold below_limit. cbn [m_limit m_match_count set_match_count]. rewrite El.
  destruct (decide (l = [])) as [->|Hn].
  { cbn. by destruct (_ <? _). }
  assert (length l <> 0%nat) by (by destruct l). rewrite (proj2 (Z.ltb_lt _ _)) by lia.
  rewrite IH; [|done|split; cbn; rewrite ?El; lia|cbn; rewrite ?El; lia]. cbn [take_all m_match_count m_limit set_match_count].
  rewrite take_all_count, El. replace (m_match_count q + 1 + Z.of_nat (length l)) with (m_match_count q + Z.of_nat (S (length l))) by lia. done.
Qed.

(** Nothing that comes before the best element, and is worse, matters. *)
Lemma take_before b i r l q :
  (forall p, p ∈ l -> lt p.2 r = true) -> take_best i r (take_all b l q) = take_best i r q.
Proof.
  revert q. induction l as [|[j v] l IH]; intros q Hl; [done|]. cbn [take_all]. rewrite IH by (intros p Hp; apply Hl; by right).
  pose proof (Hl (j, v) ltac:(by left)) as Hv. cbn in Hv. unfold take_best. destruct (lt (m_state q) v) eqn:E; [|done].
  cbn [m_state set_minmax_index set_state]. rewrite Hv, (better_trans lt _ v r Hlt E Hv). by destruct q.
Qed.

(** Nothing that comes after it, and is not better, matters. *)
Lemma take_after b l q : (forall p, p ∈ l -> lt (m_state q) p.2 = false) -> take_all b l q = q.
Proof.
  revert q. induction l as [|[j v] l IH]; intros q Hl; [done|]. cbn [take_all]. pose proof (Hl (j, v) ltac:(by left)) as Hv. cbn in Hv.
  unfold take_best. rewrite Hv. apply IH. intros p Hp. apply Hl. by right.
Qed.

Lemma lt_irrefl x : lt x x = false.
Proof. destruct Hlt as [[-> _]|[-> _]]; [apply Z.ltb_irrefl|]. rewrite Z.gtb_ltb. apply Z.ltb_irrefl. Qed.

(** All elements are worth as much as the first of the best ones. *)
Lemma take_all_best b l1 i r l2 q :
  (forall p, p ∈ l1 -> lt p.2 r = true) -> (forall p, p ∈ l2 -> lt r p.2 = false) ->
  take_all b (l1 ++ (i, r) :: l2) q = take_best (u64 (i + b)) r q.
Proof.
  intros H1 H2. assert (forall l l' q, take_all b (l ++ l') q = take_all b l' (take_all b l q)) as Happ.
  { clear. induction l as [|[j x] l IH]; intros l' q; [done|]. cbn. apply IH. }
  rewrite Happ. cbn [take_all]. rewrite take_before by done. apply take_after. intros p Hp.
  apply (better_not lt _ r); [done| |by apply H2]. unfold take_best. destruct (lt (m_state q) r) eqn:E; [|done]. apply lt_irrefl.
Qed.
End best.
End actions.

(** The condition on an element that is not null. *)
Definition satisfies (c : cond) (value v : Z) : bool := holds_for c v value false false.

Lemma can_match_sound c value v lb ub : lb <= v <= ub -> can_match c value lb ub = false -> satisfies c value v = false.
Proof. intros Hv. unfold satisfies. destruct c; cbn; lia. Qed.

Lemma will_match_sound c value v lb ub : lb <= v <= ub -> will_match c value lb ub = true -> satisfies c value v = true.
Proof. intros Hv. unfold satisfies. destruct c; cbn; lia. Qed.

(** A condition that is left to be compared: the value is in the range of the elements, and the
    elements have a width. *)
Lemma compared_range c value a :
  array_ok a -> can_match c value (m_lbound a) (m_ubound a) = true -> will_match c value (m_lbound a) (m_ubound a) = false ->
  m_width a <> 0 /\ ((c = Equal \/ c = NotEqual) -> m_lbound a <= value <= m_ubound a) /\ (c <> None_ /\ c <> NotNull).
Proof.
  intros Hok Hc Hw. split_and!.
  - intros E. rewrite (ok_lbound _ Hok), (ok_ubound _ Hok), E in *. change (lower_limit 0) with 0 in *. change (upper_limit 0) with 0 in *.
    destruct c; cbn in *; lia.
  - intros [->| ->]; cbn in *; lia.
  - by intros ->.
  - by intros ->.
Qed.

Section find.
Context `{PrimitivesSpec} {C : Type} (callback : Z -> C -> C * bool) (action : Action).
Context (a : Array) (Hok : array_ok a).
Local Abbreviation w := (m_width a).
Local Abbreviation Search := (QueryState * C)%type.
Local Abbreviation visit := (visit callback action).
Local Abbreviation room := (room action).

(** The outcome of a search, against that of visiting the elements: the same, but that a search
    that takes elements all at once may have another count of the matches and ask for more where
    the visit has reached the limit. *)
Definition outcome (r : result (Search * bool)) (p : Search * bool) : Prop :=
  exists q go, r = Ok ((q, p.1.2), go) /\
    (q = p.1.1 /\ go = p.2 \/ takes_all action = true /\ go = true /\ set_match_count 0 q = set_match_count 0 p.1.1).

Lemma outcome_exact p : outcome (Ok p) p.
Proof. exists p.1.1, p.2. destruct p as [[q c] go]. split; [done|by left]. Qed.

Lemma outcome_then b l1 l2 k s :
  (forall s', visit b l1 s = (s', true) -> outcome (k s') (visit b l2 s')) ->
  outcome (Ok (visit b l1 s) &> k) (visit b (l1 ++ l2) s).
Proof.
  intros Hk. pose proof (visit_app callback action b l1 l2 s) as E. destruct (visit b l1 s) as [s' [|]]; cbn [and_then] in *; injection E as ->.
  - by apply Hk.
  - apply outcome_exact.
Qed.

(** ** All elements *)

Lemma hits_all test i n :
  0 <= n -> (forall j, i <= j < i + n -> test (elem a j) = true) -> hits a test i n = (fun j => (j, elem a j)) <$> seqZ i n.
Proof.
  intros Hn. replace n with (Z.of_nat (Z.to_nat n)) by lia. generalize (Z.to_nat n). clear Hn n. intros n. revert i.
  induction n as [|n IH]; intros i Ht; [done|]. replace (Z.of_nat (S n)) with (Z.of_nat n + 1) by lia.
  unfold hits. rewrite elems_cons by lia. cbn [matches]. rewrite Ht by lia. rewrite (seqZ_cons i) by lia.
  replace (Z.pred (Z.of_nat n + 1)) with (Z.of_nat n) by lia. cbn [fmap list_fmap]. f_equal. apply IH. intros j Hj. apply Ht. lia.
Qed.

Lemma hits_none test i n : (forall j, i <= j < i + n -> test (elem a j) = false) -> hits a test i n = [].
Proof.
  intros Ht. apply matches_none. intros k f Ef. unfold elems in Ef. apply list_lookup_fmap_Some_1 in Ef as (j & -> & Ej).
  apply lookup_seqZ in Ej as [-> Hk]. apply Ht. lia.
Qed.

Lemma all_values i n : ((fun j => (j, elem a j)) <$> seqZ i n).*2 = elems a i n.
Proof. unfold elems. rewrite <- list_fmap_compose. done. Qed.

Lemma length_all i n : 0 <= n -> Z.of_nat (length ((fun j => (j, elem a j)) <$> seqZ i n)) = n.
Proof. intros Hn. rewrite length_fmap, length_seqZ. lia. Qed.

(** The first of the best elements among all. *)
Lemma best_of_all lt b start e r q :
  better action lt -> first_best lt a start e r ->
  take_all lt b ((fun j => (j, elem a j)) <$> seqZ start (e - start)) q = take_best lt (u64 (r.2 + b)) r.1 q.
Proof.
  intros Hlt (Hr & Ev & Hbefore & Hafter).
  replace (e - start) with ((r.2 - start) + (1 + (e - r.2 - 1))) by lia. rewrite seqZ_app by lia. rewrite (seqZ_app (start + (r.2 - start))) by lia.
  replace (start + (r.2 - start)) with r.2 by lia. rewrite !fmap_app. change (seqZ r.2 1) with [r.2].
  cbn [fmap list_fmap app]. rewrite <- Ev. apply (take_all_best action lt Hlt).
  - intros p Hp. apply list_elem_of_fmap in Hp as (j & -> & Hj). apply elem_of_seqZ in Hj. apply Hbefore. lia.
  - intros p Hp. apply list_elem_of_fmap in Hp as (j & -> & Hj). apply elem_of_seqZ in Hj. apply Hafter. lia.
Qed.

(** What the bulk cases do, for the elements from [start] to [e] that the limit allows. *)
Section all.
Context (start e b : Z) (Hs : 0 <= start < e) (He : e <= m_size a).
Local Abbreviation all := ((fun j => (j, elem a j)) <$> seqZ start (e - start)).
Local Abbreviation aggregated r q c :=
  (let '((q, c), _) := find_action callback action (u64 (r.2 + b)) (Some r.1) (q, c) in
   ((set_match_count (u64 (m_match_count q + u64 (e - start - 1))) q, c), true)).

Lemma all_length : all <> [] /\ Z.of_nat (length all) = e - start.
Proof.
  pose proof (length_all start (e - start) ltac:(lia)) as Hlen. split; [|done]. intros E. rewrite E in Hlen. cbn in Hlen. lia.
Qed.

(** The same but for the count, and more is asked for. *)
Definition taken_at_once (p p' : Search * bool) : Prop :=
  p.2 = true /\ p.1.2 = p'.1.2 /\ set_match_count 0 p.1.1 = set_match_count 0 p'.1.1.

Lemma all_count q c :
  action = act_Count -> room (2 ^ 59) (q, c) -> m_match_count q + (e - start) <= m_limit q ->
  taken_at_once ((set_state (cast int64_t (m_state q + (e - start))) q, c), true) (visit b all (q, c)).
Proof.
  intros Ha Hr Hb. destruct all_length as [Hne Hlen]. destruct (Hr Ha) as (Ec & Hn & Hbound). cbn [fst] in *.
  pose proof (ok_size _ Hok) as Hsz. unfold max_array_size in Hsz.
  rewrite visit_count; [|done|done|intros _; cbn; lia|lia]. split; [done|]. split; [done|]. cbn [fst]. by rewrite cast_int64_small, Hlen by lia.
Qed.

Lemma all_sum q c :
  action = act_Sum -> ready (q, c) -> m_match_count q + (e - start) <= m_limit q ->
  taken_at_once (aggregated (array_sum a start e, 0) q c) (visit b all (q, c)).
Proof.
  intros Ha Hready Hb. destruct all_length as [Hne Hlen]. rewrite visit_sum by (done || lia).
  rewrite Ha. unfold find_action, match_optional, match_value. cbn [fst snd].
  rewrite all_values, array_sum_spec by (done || lia). split; [done|]. split; [done|]. cbn [fst snd m_state set_match_count set_state]. by rewrite cast_int64_add_r.
Qed.

Lemma all_best lt r q c :
  better action lt -> first_best lt a start e r -> ready (q, c) -> m_match_count q + (e - start) <= m_limit q ->
  taken_at_once (aggregated r q c) (visit b all (q, c)).
Proof.
  intros Hlt Hr Hready Hb. destruct all_length as [Hne Hlen].
  rewrite (visit_best callback action lt Hlt) by (done || lia). rewrite (best_of_all lt b start e r q Hlt Hr).
  rewrite (find_action_best callback action lt Hlt). cbn zeta. rewrite take_best_count. done.
Qed.
End all.

(** A visit that the limit cuts off, and the elements that it allows, taken at once. *)
Lemma bulk_outcome b l1 l2 s p :
  takes_all action = true -> taken_at_once p (visit b l1 s) -> (l2 = [] \/ (visit b l1 s).2 = false) ->
  outcome (Ok p) (visit b (l1 ++ l2) s).
Proof.
  intros Ht (Hgo & Hc & Hq) Hl2. assert (visit b (l1 ++ l2) s = visit b l1 s) as ->.
  { destruct Hl2 as [->|Hf]; [by rewrite app_nil_r|]. pose proof (visit_app callback action b l1 l2 s) as E.
    destruct (visit b l1 s) as [s' [|]]; [done|]. by injection E as ->. }
  destruct p as [[q c] go]. cbn [fst snd] in *. subst. eexists _, _. split; [done|]. by right.
Qed.

Lemma match_all_spec test start e b s :
  0 <= start < e -> e <= m_size a -> (forall i, start <= i < e -> test (elem a i) = true) ->
  room (2 ^ 59) s -> ready s ->
  outcome (match_all callback action w a start e b s) (visit b (hits a test start (e - start)) s).
Proof.
  intros Hs He Ht Hr Hready. rewrite hits_all by (done || (intros; apply Ht; lia) || lia). destruct s as [q c].
  pose proof Hready as (Hm & Hl). cbn [fst] in *. pose proof (ok_size _ Hok) as Hsz. unfold max_array_size in Hsz.
  unfold match_all. rewrite (u64_small (m_limit q - m_match_count q)) by (change word_size with (2 ^ 64); lia).
  set (e' := if m_limit q - m_match_count q <? e - start then start + (m_limit q - m_match_count q) else e).
  assert (start < e' <= e /\ m_match_count q + (e' - start) <= m_limit q \/ e' = e /\ False) as [(He' & Hb')|[_ []]]
    by (left; unfold e'; destruct (Z.ltb_spec (m_limit q - m_match_count q) (e - start)); lia).
  assert (e' = e \/ m_match_count q + (e' - start) = m_limit q) as Hcut
    by (unfold e'; destruct (_ <? _); [right; lia|by left]).
  assert (forall e'', e'' <= e -> start <= e'' -> scan callback action (Z.to_nat (e'' - start)) w a (fun _ => true) b start (q, c) =
            Ok (visit b ((fun j => (j, elem a j)) <$> seqZ start (e'' - start)) (q, c))) as Hscan.
  { intros e'' ? ?. rewrite (scan_range callback action a Hok) by lia. by rewrite hits_all by (done || lia). }
  set (l1 := (fun j => (j, elem a j)) <$> seqZ start (e' - start)).
  set (l2 := (fun j => (j, elem a j)) <$> seqZ e' (e - e')).
  assert ((fun j => (j, elem a j)) <$> seqZ start (e - start) = l1 ++ l2) as Esplit.
  { unfold l1, l2. rewrite <- fmap_app. f_equal. replace (e - start) with ((e' - start) + (e - e')) by lia.
    rewrite seqZ_app by lia. do 2 f_equal. lia. }
  assert (takes_all action = false -> action <> act_CallbackIdx ->
    outcome (scan callback action (Z.to_nat (e' - start)) w a (fun _ => true) b start (q, c))
      (visit b ((fun j => (j, elem a j)) <$> seqZ start (e - start)) (q, c))) as Hlimit.
  { intros Ht' Hcb. rewrite Hscan by lia. destruct Hcut as [->|Hcut]; [apply outcome_exact|]. fold l1. rewrite Esplit.
    pose proof (visit_app callback action b l1 l2 (q, c)) as E.
    destruct (visit_limit callback action b l1 q c Ht' Hcb) as (s' & E'); [lia|lia|unfold l1; rewrite length_all; lia|].
    rewrite E' in E |- *. injection E as ->. apply outcome_exact. }
  assert (forall p, takes_all action = true -> taken_at_once p (visit b l1 (q, c)) ->
    (m_match_count q + (e' - start) = m_limit q -> (visit b l1 (q, c)).2 = false) ->
    outcome (Ok p) (visit b ((fun j => (j, elem a j)) <$> seqZ start (e - start)) (q, c))) as Hbulk.
  { intros p Ht' Hp Hf. rewrite Esplit. apply bulk_outcome; [done..|]. destruct Hcut as [Ee|Hcut]; [left|by right; apply Hf].
    unfold l2. rewrite Ee, Z.sub_diag. done. }
  pose proof (length_all start (e' - start) ltac:(lia)) as Hlen. fold l1 in Hlen.
  assert (l1 <> []) as Hne by (intros E; rewrite E in Hlen; cbn in Hlen; lia).
  pose proof (all_count start e' b ltac:(lia) ltac:(lia) q c) as Hcount. pose proof (all_sum start e' b ltac:(lia) ltac:(lia) q c) as Hsum.
  assert (0 <= start < e') as Hs' by lia. assert (m_match_count q + Z.of_nat (length l1) <= m_limit q) as Hbl by lia.
  pose proof (fun lt r => all_best start e' b Hs' lt r q c) as Hbest. fold l1 in Hcount, Hsum, Hbest.
  pose proof (visit_sum callback action b l1 q c) as Vsum. pose proof (fun lt Hlt => visit_best callback action lt Hlt b l1 q c Hne Hready Hbl) as Vbest.
  pose proof (visit_count callback action b l1 q c) as Vcount. unfold better in Hbest, Vbest.
  destruct action eqn:Ha; rewrite ?decide_False by done; try (by apply Hlimit).
  - specialize (Hsum eq_refl Hready Hb'). cbn [fst snd] in Hsum. destruct (find_action _ _ _ _ _) as [[q' c'] go].
    apply Hbulk; [done|done|]. intros Hcut'. rewrite Vsum by (done || lia). apply Z.ltb_ge. lia.
  - pose proof (array_maximum_spec a start e' Hok ltac:(lia) ltac:(lia)) as Hr'. specialize (Hbest Z.ltb _ ltac:(by left) Hr' Hready Hb').
    destruct (array_maximum a start e') as [res ndx]. cbn [fst snd] in Hbest. destruct (find_action _ _ _ _ _) as [[q' c'] go].
    apply Hbulk; [done|done|]. intros Hcut'. rewrite (Vbest Z.ltb ltac:(by left)). apply Z.ltb_ge. lia.
  - pose proof (array_minimum_spec a start e' Hok ltac:(lia) ltac:(lia)) as Hr'. specialize (Hbest Z.gtb _ ltac:(by right) Hr' Hready Hb').
    destruct (array_minimum a start e') as [res ndx]. cbn [fst snd] in Hbest. destruct (find_action _ _ _ _ _) as [[q' c'] go].
    apply Hbulk; [done|done|]. intros Hcut'. rewrite (Vbest Z.gtb ltac:(by right)). apply Z.ltb_ge. lia.
  - destruct (Hr eq_refl) as (Ec & Hn0 & Hbound). cbn [fst] in *. apply Hbulk; [done|apply Hcount; [done|done|lia]|]. intros Hcut'.
    rewrite Vcount; [|done|done|intros _; cbn; lia|lia]. apply Z.ltb_ge. cbn [fst] in *. lia.
  - rewrite decide_True by done. rewrite Hscan by lia. apply outcome_exact.
Qed.

(** ** The search *)

Lemma compare_spec c value start end_ b s :
  can_match c value (m_lbound a) (m_ubound a) = true -> will_match c value (m_lbound a) (m_ubound a) = false ->
  0 <= start <= end_ -> end_ <= m_size a -> room (2 ^ 60) s ->
  compare callback action c w a value start end_ b s = Ok (visit b (hits a (satisfies c value) start (end_ - start)) s).
Proof.
  intros Hc Hwill Hs He Hr. destruct (compared_range c value a Hok Hc Hwill) as (Hw0 & Hv & Hn1 & Hn2).
  pose proof (nonzero_width _ (ok_width _ Hok) Hw0) as Hw. destruct c; try done; cbn [compare].
  - rewrite (compare_equality_spec callback action a Hok Hw) by auto. done.
  - rewrite (compare_equality_spec callback action a Hok Hw) by auto. done.
  - rewrite (compare_relation_spec callback action a Hok Hw) by auto. done.
  - rewrite (compare_relation_spec callback action a Hok Hw) by auto. done.
Qed.

Lemma test_first_spec c value e b i s :
  0 <= i -> e <= m_size a ->
  test_first callback action c w a value e b i s = Ok (visit b (hits a (satisfies c value) i (if i <? e then 1 else 0)) s).
Proof.
  intros Hi He. unfold test_first. destruct (Z.ltb_spec i (m_size a)).
  - rewrite (get_elem a Hok) by lia. cbn [mbind result_bind]. fold (satisfies c value (elem a i)). destruct (Z.ltb_spec i e).
    + rewrite andb_true_r. change 1 with (0 + 1). unfold hits. rewrite elems_cons by lia. cbn [elems fmap list_fmap matches].
      destruct (satisfies _ _ _); [|done]. cbn [ArraySearch.visit]. by destruct (find_action _ _ _ _ s) as [s' [|]].
    + by rewrite andb_false_r.
  - by rewrite (proj2 (Z.ltb_ge i e)) by lia.
Qed.

Lemma hits_step test start e k :
  0 <= k -> start <= e ->
  hits a test start (Z.min k (e - start)) ++ hits a test (start + k) (if start + k <? e then 1 else 0) = hits a test start (Z.min (k + 1) (e - start)).
Proof.
  intros Hk He. destruct (Z.ltb_spec (start + k) e).
  - rewrite !Z.min_l by lia. by rewrite hits_app by lia.
  - rewrite !Z.min_r by lia. by rewrite app_nil_r.
Qed.

(** The first four elements. *)
Lemma first_four c value start e b s :
  0 <= start <= e -> e <= m_size a ->
  (test_first callback action c w a value e b start s &>
   test_first callback action c w a value e b (start + 1) &>
   test_first callback action c w a value e b (start + 2) &>
   test_first callback action c w a value e b (start + 3)) = Ok (visit b (hits a (satisfies c value) start (Z.min 4 (e - start))) s).
Proof.
  intros Hs He. set (test := satisfies c value).
  assert (forall k r, 0 <= k -> r = Ok (visit b (hits a test start (Z.min k (e - start))) s) ->
            (r &> test_first callback action c w a value e b (start + k)) = Ok (visit b (hits a test start (Z.min (k + 1) (e - start))) s)) as Hstep.
  { intros k r Hk ->. rewrite <- hits_step, visit_app by lia. apply and_then_ext. intros s'. apply test_first_spec; lia. }
  apply (Hstep 3); [lia|]. apply (Hstep 2); [lia|]. apply (Hstep 1); [lia|]. rewrite test_first_spec by lia. fold test.
  assert ((if start <? e then 1 else 0) = Z.min (0 + 1) (e - start)) as ->; [|done]. destruct (Z.ltb_spec start e); lia.
Qed.

(** [find_from] and the plain definition. *)
Lemma find_from_visits c value start e b s :
  0 <= start <= e -> e <= m_size a -> room (2 ^ 61) s -> ready s ->
  outcome (find_from callback action c w a value start e b s) (visit b (hits a (satisfies c value) start (e - start)) s).
Proof.
  intros Hs He Hr Hready. set (test := satisfies c value). pose proof (ok_size _ Hok) as Hsz. unfold max_array_size in Hsz.
  set (n0 := if 0 <? start then Z.min 4 (e - start) else 0). assert (0 <= n0 <= e - start) as Hn0 by (unfold n0; destruct (0 <? start); lia).
  replace (e - start) with (n0 + (e - start - n0)) by lia. rewrite hits_app by lia. unfold find_from.
  assert ((if 0 <? start then
             test_first callback action c w a value e b start s &> test_first callback action c w a value e b (start + 1) &>
             test_first callback action c w a value e b (start + 2) &> test_first callback action c w a value e b (start + 3)
           else Ok (s, true)) = Ok (visit b (hits a test start n0) s)) as ->.
  { unfold n0. destruct (0 <? start); [by apply first_four|done]. }
  apply outcome_then. intros s' E. set (start' := if 0 <? start then start + 4 else start).
  assert (0 <= start') as Hs' by (unfold start'; destruct (0 <? start); lia).
  destruct (Z.ltb_spec start' (m_size a)); cycle 1; [|destruct (Z.ltb_spec start' e); cycle 1].
  1, 2: cbn [andb negb]; replace (e - start - n0) with 0 by (unfold n0, start' in *; destruct (0 <? start); lia); apply outcome_exact.
  cbn [andb negb]. assert (start + n0 = start') as Hsn by (unfold n0, start' in *; destruct (0 <? start); lia). rewrite Hsn.
  replace (e - start - n0) with (e - start') by (unfold n0, start' in *; destruct (0 <? start); lia).
  rewrite (proj2 (Z.eqb_neq e npos)) by (unfold npos; change word_size with (2 ^ 64); lia).
  assert (length (hits a test start n0) <= Z.to_nat n0)%nat as Hlen
    by (pose proof (length_matches test start (elems a start n0)) as Hl; rewrite length_elems in Hl; exact Hl).
  assert (room (2 ^ 61 - n0) s') as Hr'.
  { eapply visit_room; [| |exact E]; [lia|]. eapply room_weaken; [exact Hr|lia]. }
  destruct (can_match c value (m_lbound a) (m_ubound a)) eqn:Hcan; cbn [negb]; cycle 1.
  { rewrite hits_none; [apply outcome_exact|]. intros j Hj. eapply can_match_sound; [|exact Hcan]. by apply elem_limits. }
  destruct (will_match c value (m_lbound a) (m_ubound a)) eqn:Hwill.
  { apply match_all_spec; [lia|done| | |].
    - intros j Hj. eapply will_match_sound; [|exact Hwill]. by apply elem_limits.
    - eapply room_weaken; [exact Hr'|lia].
    - eapply visit_ready; [| |exact E]; [eapply room_weaken; [exact Hr|lia]|done]. }
  rewrite (proj2 (Z.eqb_neq _ _)) by (by destruct (compared_range c value a Hok Hcan Hwill)). cbn [negb realm_assert mbind result_bind].
  rewrite compare_spec; [apply outcome_exact|done..|lia|done|]. eapply room_weaken; [exact Hr'|lia].
Qed.

(** ** Nullable arrays *)

(** The element [i] of a nullable array: the first element of the array stands for null. *)
Definition logical (i : Z) : option Z := if elem a (i + 1) =? elem a 0 then None else Some (elem a (i + 1)).

Definition satisfies_nullable (c : cond) (value : Z) (find_null : bool) (x : option Z) : bool :=
  holds_for c (default 0 x) value (bool_decide (x = None)) find_null.

(** What the action is handed: [Equal] hands it the value that stands for null as it is. *)
Definition handed (c : cond) (i : Z) : option Z := if decide (c = Equal) then Some (elem a (i + 1)) else logical i.

Definition nullable_hits (c : cond) (value : Z) (find_null : bool) (i n : Z) : list (Z * option Z) :=
  omap (fun i => if satisfies_nullable c value find_null (logical i) then Some (i, handed c i) else None) (seqZ i n).

Fixpoint visit_nullable (b : Z) (l : list (Z * option Z)) (s : Search) : Search * bool :=
  match l with
  | [] => (s, true)
  | (i, x) :: l =>
      let '(s, go) := find_action callback action (u64 (i + b)) x s in
      if go then visit_nullable b l s else (s, false)
  end.

Lemma nullable_loop_spec n c value b find_null i s :
  c <> Equal -> 0 <= i -> i + Z.of_nat n + 1 <= m_size a ->
  nullable_loop callback action n c w a value (elem a 0) b find_null i s =
  Ok (visit_nullable b (nullable_hits c value find_null i (Z.of_nat n)) s).
Proof.
  intros Hc. revert i s. induction n as [|n IH]; intros i s Hi Hn; [done|]. cbn [nullable_loop].
  rewrite (get_elem a Hok) by lia. cbn [mbind result_bind]. unfold nullable_hits. rewrite seqZ_cons by lia. cbn [omap list_omap].
  replace (Z.pred (Z.of_nat (S n))) with (Z.of_nat n) by lia. fold (nullable_hits c value find_null (Z.succ i) (Z.of_nat n)).
  assert (holds_for c (elem a (i + 1)) value (elem a (i + 1) =? elem a 0) find_null = satisfies_nullable c value find_null (logical i)) as ->.
  { unfold satisfies_nullable, logical. destruct (_ =? _); [|done]. cbn. by destruct c, find_null. }
  assert (handed c i = logical i) as Eh by (unfold handed; by rewrite decide_False).
  destruct (satisfies_nullable _ _ _ _); [|cbn [and_then]; apply IH; lia]. cbn [visit_nullable]. rewrite Eh. unfold logical at 1.
  destruct (find_action callback action _ _ s) as [s' [|]]; cbn [and_then]; [|done]. apply IH; lia.
Qed.

(** The elements that are equal to a value, in a nullable array and in the array without its
    first element. *)
Lemma equal_hits value find_null i n b s :
  0 <= n -> (find_null = false -> value <> elem a 0) ->
  visit (u64 (b - 1)) (hits a (satisfies Equal (if find_null then elem a 0 else value)) (i + 1) n) s =
  visit_nullable b (nullable_hits Equal value find_null i n) s.
Proof.
  intros Hn Hv. replace n with (Z.of_nat (Z.to_nat n)) by lia. generalize (Z.to_nat n). clear Hn n. intros n. revert i s.
  induction n as [|n IH]; intros i s; [done|]. replace (Z.of_nat (S n)) with (Z.of_nat n + 1) by lia.
  unfold hits, nullable_hits. rewrite elems_cons, (seqZ_cons i) by lia. cbn [matches omap list_omap].
  replace (Z.pred (Z.of_nat n + 1)) with (Z.of_nat n) by lia.
  assert (satisfies Equal (if find_null then elem a 0 else value) (elem a (i + 1)) = satisfies_nullable Equal value find_null (logical i)) as <-.
  { unfold satisfies_nullable, satisfies, logical. cbn. destruct find_null.
    - by destruct (_ =? _).
    - destruct (Z.eqb_spec (elem a (i + 1)) (elem a 0)) as [E|E]; [|done]. cbn. rewrite E. apply Z.eqb_neq. intros <-. by apply Hv. }
  unfold hits, nullable_hits in IH. destruct (satisfies _ _ _); [|apply (IH (i + 1))]. cbn [ArraySearch.visit visit_nullable].
  assert (u64 (i + 1 + u64 (b - 1)) = u64 (i + b)) as -> by (rewrite u64_add_r; f_equal; lia).
  change (handed Equal i) with (Some (elem a (i + 1))). destruct (find_action callback action _ _ s) as [s' [|]]; [|done]. apply (IH (i + 1)).
Qed.

(** An Equal search for the value that stands for null finds nothing. *)
Lemma null_value_hits value i n : value = elem a 0 -> nullable_hits Equal value false i n = [].
Proof.
  intros ->. unfold nullable_hits. induction (seqZ i n) as [|j l IH]; [done|]. cbn [omap list_omap].
  assert (satisfies_nullable Equal (elem a 0) false (logical j) = false) as ->; [|exact IH].
  unfold satisfies_nullable, logical. destruct (elem a (j + 1) =? elem a 0) eqn:E; [done|]. exact E.
Qed.
End find.
