(* ===== verification/ArrayResults.v ===== *)
(** The results of a search of an array: what [find] does for every action, what [find_first]
    returns, what is collected and what is counted. *)

From S2P Require Import Prelude SafeInt NodeHeader PackedArray ArrayFind ChunkFields ArraySearch ArrayFindProps.

(** ** A model of what is compiled elsewhere, for the witnesses *)

Definition lowest_bit (v : Z) : Z := default 0 (head (filter (fun i => Z.testbit v i = true) (seqZ 0 64))).

Fixpoint best_from (lt : Z -> Z -> bool) (a : Array) (n : nat) (i : Z) (r : Z * Z) : Z * Z :=
  match n with
  | O => r
  | S n => best_from lt a n (i + 1) (if lt r.1 (elem a i) then (elem a i, i) else r)
  end.

Definition sample_primitives : Primitives := {|
  char_is_signed := true;
  fast_popcount64 := popcount;
  first_set_bit64 := lowest_bit;
  round_up p align := (p + align - 1) / align * align;
  oversized_shift v n := 0;
  array_sum a s e := cast int64_t (sum_of (elems a s (e - s)));
  array_maximum a s e := best_from Z.ltb a (Z.to_nat (e - s - 1)) (s + 1) (elem a s, s);
  array_minimum a s e := best_from Z.gtb a (Z.to_nat (e - s - 1)) (s + 1) (elem a s, s)
|}.

Lemma best_from_spec lt a s n i r :
  (lt = Z.ltb \/ lt = Z.gtb) -> first_best lt a s i r -> first_best lt a s (i + Z.of_nat n) (best_from lt a n i r).
Proof.
  intros Hlt. revert i r. induction n as [|n IH]; intros i r Hr; [by rewrite Z.add_0_r|]. cbn [best_from].
  replace (i + Z.of_nat (S n)) with (i + 1 + Z.of_nat n) by lia. apply IH. destruct Hr as (Hi & Ev & Hbefore & Hafter).
  destruct (lt r.1 (elem a i)) eqn:E; unfold first_best; cbn [fst snd].
  - split_and!; [lia..|done| |].
    + intros j Hj. destruct (Z.ltb_spec j r.2) as [Hlow|Hhigh].
      * specialize (Hbefore j ltac:(lia)). destruct Hlt as [-> | ->]; rewrite ?Z.gtb_ltb, ?Z.ltb_lt in *; lia.
      * specialize (Hafter j ltac:(lia)). destruct Hlt as [-> | ->]; rewrite ?Z.gtb_ltb, ?Z.ltb_lt, ?Z.ltb_ge in *; lia.
    + intros j Hj. replace j with i by lia. destruct Hlt as [-> | ->]; rewrite ?Z.gtb_ltb; apply Z.ltb_irrefl.
  - split_and!; [lia..|done|done|]. intros j Hj. destruct (Z.eq_dec j i) as [->|]; [done|]. apply Hafter. lia.
Qed.

Lemma first_best_one lt a s : (lt = Z.ltb \/ lt = Z.gtb) -> first_best lt a s (s + 1) (elem a s, s).
Proof.
  intros Hlt. unfold first_best. cbn. split_and!; [lia..|done|lia|]. intros j Hj. replace j with s by lia.
  destruct Hlt as [-> | ->]; rewrite ?Z.gtb_ltb; apply Z.ltb_irrefl.
Qed.

Lemma sample_best lt a s e :
  (lt = Z.ltb \/ lt = Z.gtb) -> s < e -> first_best lt a s e (best_from lt a (Z.to_nat (e - s - 1)) (s + 1) (elem a s, s)).
Proof.
  intros Hlt Hs. pose proof (best_from_spec lt a s (Z.to_nat (e - s - 1)) (s + 1) _ Hlt (first_best_one lt a s Hlt)) as B.
  by replace (s + 1 + Z.of_nat (Z.to_nat (e - s - 1))) with e in B by lia.
Qed.

Lemma lowest_bit_spec v : 0 < v < 2 ^ 64 -> first_set v (lowest_bit v).
Proof.
  intros Hv. assert (exists k, 0 <= k < 64 /\ Z.testbit v k = true) as (k & Hk & Ek).
  { exists (Z.log2 v). pose proof (Z.log2_nonneg v). split; [|apply Z.bit_log2; lia].
    split; [done|]. apply Z.log2_lt_pow2; lia. }
  assert (forall n i, 0 <= i -> i + Z.of_nat n = 64 -> i <= k -> (forall j, 0 <= j < i -> Z.testbit v j = false) ->
            first_set v (default 0 (head (filter (fun i => Z.testbit v i = true) (seqZ i (Z.of_nat n)))))) as Hmain.
  { clear Hv. induction n as [|n IH]; intros i Hi Hn Hik Hb; [lia|]. rewrite seqZ_cons, filter_cons by lia. case_decide as E.
    - unfold first_set. cbn. split_and!; [lia..|done|done].
    - replace (Z.pred (Z.of_nat (S n))) with (Z.of_nat n) by lia. apply not_true_is_false in E.
      assert (i <> k) by congruence. apply IH; [lia..|]. intros j Hj. destruct (Z.eq_dec j i) as [->|]; [done|]. apply Hb. lia. }
  apply (Hmain 64%nat 0); lia.
Qed.

Lemma sample_primitives_spec : PrimitivesSpec (H := sample_primitives).
Proof.
  constructor; cbn.
  - done.
  - apply lowest_bit_spec.
  - intros p align Hp Ha. pose proof (Z.div_mod (p + align - 1) align ltac:(lia)). pose proof (Z.mod_pos_bound (p + align - 1) align Ha).
    split; [lia|]. by rewrite Z_mod_mult.
  - done.
  - done.
  - intros a s e _ Hs _. apply sample_best; [by left|lia].
  - intros a s e _ Hs _. apply sample_best; [by right|lia].
Qed.

(** An array of the elements given. *)
Definition array_of (w : Z) (l : list Z) : Array :=
  MkArray (le_bytes (Z.to_nat ((w * Z.of_nat (length l) + 63) / 64 * 8)) (pack w ((fun v => v mod 2 ^ w) <$> l)))
    w (Z.of_nat (length l)) (lower_limit w) (upper_limit w).

Lemma array_of_ok w l : w ∈ widths -> Z.of_nat (length l) <= max_array_size -> array_ok (array_of w l).
Proof.
  intros Hw Hl. pose proof (widths_nonneg _ Hw). constructor; cbn [m_data m_width m_size m_lbound m_ubound array_of]; try done.
  - apply le_bytes_ok.
  - lia.
  - rewrite length_le_bytes. pose proof (Z.div_mod (w * Z.of_nat (length l) + 63) 64 ltac:(lia)).
    pose proof (Z.mod_pos_bound (w * Z.of_nat (length l) + 63) 64 ltac:(lia)). nia.
Qed.

(** ** The search *)

Lemma state_room action limit (C : Type) (c : C) : room action (2 ^ 61) (make_query_state action limit, c).
Proof. intros ->. cbn. lia. Qed.

Lemma state_ready action limit (C : Type) (c : C) : 0 < limit < 2 ^ 64 -> ready (make_query_state action limit, c).
Proof. intros Hl. split; cbn; lia. Qed.

Section theorems.
Context `{PrimitivesSpec} {C : Type} (callback : Z -> C -> C * bool).

(** C19: searching an array for a condition is visiting, in order, the elements from the first to
    the last index that satisfy it, until the action asks to stop, whatever the width of the
    array, the alignment of the range, the action, and the limit: the search ends, reads nothing
    outside the array, hands every match to the action once, with its index and its value, and has
    the state, the callback's state and the answer of the plain visit.  Only a count, a sum, a
    maximum or a minimum may be taken of all elements at once: then the state is still that of the
    visit, with the limit, but the answer is to go on even if the limit was reached, and the count
    of the matches may be another (see [count_past_limit]).  At the start the limit must not be
    reached, and the state of a count must be its count of matches and far from overflow. *)
Theorem find_visits_matches action c a value start end_ b s :
  let e := if end_ =? npos then m_size a else end_ in
  array_ok a -> 0 <= start <= e -> e <= m_size a -> room action (2 ^ 61) s -> ready s ->
  outcome action (find callback c action a value start end_ b false false s)
    (visit callback action b (hits a (satisfies c value) start (e - start)) s).
Proof.
  intros e Hok Hs He Hr Hready. unfold find, find_optimized. cbn [negb andb realm_assert mbind result_bind]. by apply find_from_visits.
Qed.

(** Searching a nullable array, whose first element stands for null, is visiting the elements
    after it that satisfy the condition on values and nulls: a search for a value never finds a
    null, not even for the value that stands for null, and a search for nulls finds just these. *)
Theorem find_nullable action c a value start end_ b find_null s :
  let e := if end_ =? npos then m_size a - 1 else end_ in
  array_ok a -> 0 <= start <= e -> e + 1 <= m_size a -> room action (2 ^ 61) s -> ready s ->
  outcome action (find callback c action a value start end_ b true find_null s)
    (visit_nullable callback action b (nullable_hits a c value find_null start (e - start)) s).
Proof.
  intros e Hok Hs He Hr Hready. unfold find, find_optimized. rewrite andb_false_r. cbn [negb realm_assert mbind result_bind].
  assert ((if end_ =? npos then u64 (m_size a - 1) else end_) = e) as ->.
  { unfold e. pose proof (ok_size _ Hok) as Hsz. unfold max_array_size in Hsz. destruct (end_ =? npos) eqn:En; [|done]. apply u64_small.
    change word_size with (2 ^ 64). unfold e in *. lia. }
  rewrite (get_elem a Hok) by lia. cbn [mbind result_bind]. case_decide as Hc; [subst c|].
  - destruct (negb find_null && (value =? elem a 0)) eqn:En.
    + destruct find_null; [done|]. rewrite null_value_hits by lia. apply outcome_exact.
    + rewrite <- equal_hits; [|lia|intros ->; by apply Z.eqb_neq].
      replace (e - start) with (e + 1 - (start + 1)) by lia. apply find_from_visits; [done|lia|done|done|].
      by replace (e + 1 - (start + 1)) with (e - start) by lia.
  - rewrite (nullable_loop_spec callback action a Hok) by (done || lia). rewrite Z2Nat.id by lia. apply outcome_exact.
Qed.
End theorems.

(** ** The first match *)

Section results.
Context `{PrimitivesSpec}.

(** The indices of the matches. *)
Definition match_indices (a : Array) (c : cond) (value start n : Z) : list Z :=
  filter (fun i => satisfies c value (elem a i) = true) (seqZ start n).

Lemma hits_indices a c value start n :
  0 <= n -> hits a (satisfies c value) start n = (fun i => (i, elem a i)) <$> match_indices a c value start n.
Proof.
  intros Hn. replace n with (Z.of_nat (Z.to_nat n)) by lia. generalize (Z.to_nat n). clear Hn n. intros n. revert start.
  induction n as [|n IH]; intros start; [done|]. replace (Z.of_nat (S n)) with (Z.of_nat n + 1) by lia.
  unfold hits, match_indices. rewrite elems_cons, (seqZ_cons start) by lia. cbn [matches]. rewrite filter_cons.
  replace (Z.pred (Z.of_nat n + 1)) with (Z.of_nat n) by lia. fold (hits a (satisfies c value) (start + 1) (Z.of_nat n)). rewrite IH.
  case_decide as E; [by rewrite E|]. by rewrite (not_true_is_false _ E).
Qed.

(** [find_first] returns the first index of the range at which the condition holds, and [npos]
    if it holds nowhere. *)
Theorem find_first_exact c a value start end_ :
  let e := if end_ =? npos then m_size a else end_ in
  array_ok a -> 0 <= start <= e -> e <= m_size a ->
  find_first c a value start end_ = Ok (default npos (head (match_indices a c value start (e - start)))).
Proof.
  intros e Hok Hs He. pose proof (ok_size _ Hok) as Hsz. unfold max_array_size in Hsz. unfold find_first.
  assert (((start <=? m_size a) && ((end_ <=? m_size a) || (end_ =? npos)) && (start <=? end_)) = true) as ->.
  { unfold e in *. destruct (Z.eqb_spec end_ npos) as [E|]; [|lia]. rewrite orb_true_r, E. unfold npos. change word_size with (2 ^ 64). lia. }
  cbn [realm_assert mbind result_bind]. unfold find, find_optimized. cbn [negb andb realm_assert mbind result_bind].
  destruct (find_from_visits (fun _ (u : unit) => (u, true)) act_ReturnFirst a Hok c value start e 0 (make_query_state act_ReturnFirst 1, tt))
    as (q & go & Eq & Hq); [done|done|apply state_room|by apply state_ready|].
  rewrite hits_indices in Eq, Hq by lia. fold e. rewrite Eq. cbn [mbind result_bind fst]. destruct Hq as [[-> ->] | [? _]]; [|done].
  destruct (match_indices a c value start (e - start)) as [|i l] eqn:Em; [done|].
  assert (start <= i < e) as Hi.
  { assert (i ∈ match_indices a c value start (e - start)) as Hin by (rewrite Em; left).
    apply list_elem_of_filter in Hin as [_ Hin]. apply elem_of_seqZ in Hin. lia. }
  cbn [fmap list_fmap visit find_action match_optional match_value fst snd m_state set_state head default].
  rewrite Z.add_0_r, (u64_small i), cast_int64_small by (change word_size with (2 ^ 64); lia). by rewrite u64_small by (change word_size with (2 ^ 64); lia).
Qed.

(** ** All matches *)

Definition collect (b : Z) (i : Z) : Z := cast int64_t (u64 (i + b)).

Lemma visit_find_all (C : Type) (callback : Z -> C -> C * bool) b l q c :
  m_key_values q = None -> 0 <= m_match_count q < m_limit q -> m_limit q < 2 ^ 64 ->
  let k := Z.to_nat (m_limit q - m_match_count q) in
  exists q', visit callback act_FindAll b l (q, c) = ((q', c), bool_decide (length l < k)%nat) /\
    m_column q' = m_column q ++ ((fun p => collect b p.1) <$> take k l).
Proof.
  intros Hk. revert q Hk. induction l as [|[i v] l IH]; intros q Hk Hm Hl k.
  - exists q. rewrite bool_decide_true by (cbn; lia). rewrite take_nil, app_nil_r. done.
  - cbn [visit length]. unfold find_action, match_optional, match_value. cbn [fst snd]. set (q1 := set_column _ _).
    assert (m_match_count q1 = m_match_count q + 1) as Em by (cbn; apply u64_small; change word_size with (2 ^ 64); lia).
    assert (m_column q1 = m_column q ++ [collect b i]) as Ec by (unfold q1, key_of, collect; cbn; by rewrite Hk).
    assert (m_limit q1 = m_limit q) as El by done. assert (m_key_values q1 = None) as Ek by done. clearbody q1.
    unfold below_limit. rewrite Em, El. destruct k as [|k'] eqn:Ek'; [lia|]. destruct (Z.ltb_spec (m_match_count q + 1) (m_limit q)).
    + destruct (IH q1 Ek ltac:(lia) ltac:(lia)) as (q' & -> & Eq'). exists q'. rewrite Em, El in Eq' |- *.
      replace (Z.to_nat (m_limit q - (m_match_count q + 1))) with k' in * by lia. split.
      * f_equal. apply bool_decide_ext. lia.
      * rewrite Eq', Ec. cbn [take fmap list_fmap]. by rewrite <- app_assoc.
    + exists q1. rewrite bool_decide_false by lia. split; [done|]. rewrite Ec. replace k' with 0%nat by lia. done.
Qed.

(** A search that collects puts into the column, in order, the indices of the matches, as many
    as the limit allows, and asks for more exactly when the limit is not reached. *)
Theorem find_all_exact c a value start end_ b limit :
  array_ok a -> 0 <= start <= end_ -> end_ <= m_size a -> 0 < limit < 2 ^ 64 ->
  exists q, find (fun _ (u : unit) => (u, true)) c act_FindAll a value start end_ b false false (make_query_state act_FindAll limit, tt) =
      Ok ((q, tt), bool_decide (Z.of_nat (length (match_indices a c value start (end_ - start))) < limit)) /\
    m_column q = collect b <$> take (Z.to_nat limit) (match_indices a c value start (end_ - start)).
Proof.
  intros Hok Hs He Hl. pose proof (ok_size _ Hok) as Hsz. unfold max_array_size in Hsz.
  destruct (find_from_visits (fun _ (u : unit) => (u, true)) act_FindAll a Hok c value start end_ b (make_query_state act_FindAll limit, tt))
    as (q & go & Eq & Hq); [done|done|apply state_room|by apply state_ready|].
  rewrite hits_indices in Eq, Hq by lia.
  destruct (visit_find_all unit (fun _ u => (u, true)) b ((fun i => (i, elem a i)) <$> match_indices a c value start (end_ - start))
    (make_query_state act_FindAll limit) tt) as (q' & Ev & Ec); [done|cbn; lia|cbn; lia|].
  rewrite Ev in Eq, Hq. cbn [fst snd] in *. destruct Hq as [[-> ->] | [? _]]; [|done]. exists q'.
  unfold find, find_optimized. cbn [negb andb realm_assert mbind result_bind].
  rewrite (proj2 (Z.eqb_neq end_ npos)) by (unfold npos; change word_size with (2 ^ 64); lia). rewrite Eq. split.
  - do 2 f_equal. apply bool_decide_ext. rewrite length_fmap. cbn. lia.
  - rewrite Ec. cbn [m_column make_query_state app m_limit m_match_count]. rewrite Z.sub_0_r, <- fmap_take, <- list_fmap_compose. done.
Qed.

(** A search that counts, with no limit in its way, counts the matches, by the bits of the
    chunks' patterns, one by one, or all at once. *)
Theorem count_exact c a value start end_ b limit :
  array_ok a -> 0 <= start <= end_ -> end_ <= m_size a -> end_ - start < limit < 2 ^ 64 ->
  exists q, find (fun _ (u : unit) => (u, true)) c act_Count a value start end_ b false false (make_query_state act_Count limit, tt) =
      Ok ((q, tt), true) /\
    m_state q = Z.of_nat (length (match_indices a c value start (end_ - start))).
Proof.
  intros Hok Hs He Hl. pose proof (ok_size _ Hok) as Hsz. unfold max_array_size in Hsz.
  destruct (find_from_visits (fun _ (u : unit) => (u, true)) act_Count a Hok c value start end_ b (make_query_state act_Count limit, tt))
    as (q & go & Eq & Hq); [done|done|apply state_room|apply state_ready; lia|].
  rewrite hits_indices in Eq, Hq by lia. set (l := match_indices a c value start (end_ - start)) in *.
  assert (Z.of_nat (length l) <= end_ - start) as Hlen.
  { unfold l, match_indices. pose proof (length_filter (fun i => satisfies c value (elem a i) = true) (seqZ start (end_ - start))) as Hf.
    rewrite length_seqZ in Hf. lia. }
  unfold find, find_optimized. cbn [negb andb realm_assert mbind result_bind].
  rewrite (proj2 (Z.eqb_neq end_ npos)) by (unfold npos; change word_size with (2 ^ 64); lia).
  assert (exists q', visit (fun _ (u : unit) => (u, true)) act_Count b ((fun i => (i, elem a i)) <$> l) (make_query_state act_Count limit, tt) = ((q', tt), true) /\
            m_state q' = Z.of_nat (length l)) as (q' & Ev & Est).
  { destruct (decide (l = [])) as [->|Hne]; [by eexists|]. rewrite visit_count; rewrite ?length_fmap; cbn; try done.
    - rewrite (proj2 (Z.ltb_lt _ _)) by lia. by eexists.
    - by intros ->%fmap_nil_inv.
    - intros _. cbn. lia.
    - lia. }
  rewrite Ev in Eq, Hq. cbn [fst snd] in *. rewrite Eq. exists q. destruct Hq as [[-> ->] | (_ & -> & E)]; [done|].
  split; [done|]. apply (f_equal m_state) in E. cbn in E. by rewrite E.
Qed.
End results.

(** ** On an array of four bits an element *)

Definition sample_values : list Z := (fun i => (i * i * 7 + 3 * i) mod 16) <$> seqZ 0 75.
Definition sample_array : Array := array_of 4 sample_values.
#[local] Existing Instance sample_primitives.
#[local] Existing Instance sample_primitives_spec.

Lemma sample_array_ok : array_ok sample_array.
Proof. apply array_of_ok; [unfold widths; set_solver|by vm_compute]. Qed.

Definition record_index (i : Z) (l : list Z) : list Z * bool := (l ++ [i], true).

Lemma find_visits_matches_witness :
  array_ok sample_array /\
  outcome act_CallbackIdx (find record_index Greater act_CallbackIdx sample_array 13 3 70 100 false false (make_query_state act_CallbackIdx npos, []))
    (visit record_index act_CallbackIdx 100 (hits sample_array (satisfies Greater 13) 3 67) (make_query_state act_CallbackIdx npos, [])) /\
  outcome act_Sum (find record_index Less act_Sum sample_array 100 3 70 0 false false (make_query_state act_Sum 9, []))
    (visit record_index act_Sum 0 (hits sample_array (satisfies Less 100) 3 67) (make_query_state act_Sum 9, [])).
Proof.
  split; [exact sample_array_ok|]. split.
  - apply (find_visits_matches record_index act_CallbackIdx Greater sample_array 13 3 70 100 (make_query_state act_CallbackIdx npos, []) sample_array_ok).
    + split; discriminate.
    + discriminate.
    + intros E. discriminate E.
    + split; [split; [discriminate|by vm_compute]|by vm_compute].
  - apply (find_visits_matches record_index act_Sum Less sample_array 100 3 70 0 (make_query_state act_Sum 9, []) sample_array_ok).
    + split; discriminate.
    + discriminate.
    + intros E. discriminate E.
    + split; [split; [discriminate|by vm_compute]|by vm_compute].
Defined.

Lemma find_nullable_witness :
  array_ok sample_array /\
  outcome act_CallbackIdx (find record_index Equal act_CallbackIdx sample_array 5 3 npos 0 true true (make_query_state act_CallbackIdx npos, []))
    (visit_nullable record_index act_CallbackIdx 0 (nullable_hits sample_array Equal 5 true 3 71) (make_query_state act_CallbackIdx npos, [])).
Proof.
  split; [exact sample_array_ok|].
  apply (find_nullable record_index act_CallbackIdx Equal sample_array 5 3 npos 0 true (make_query_state act_CallbackIdx npos, []) sample_array_ok).
  - split; vm_compute; discriminate.
  - vm_compute. discriminate.
  - intros E. discriminate E.
  - split; [split; [discriminate|by vm_compute]|by vm_compute].
Defined.

Lemma find_first_exact_witness :
  array_ok sample_array /\ find_first NotEqual sample_array 0 17 60 = Ok 17 /\ find_first Greater sample_array 13 17 60 = Ok 21.
Proof.
  split; [exact sample_array_ok|]. split.
  - rewrite (find_first_exact NotEqual sample_array 0 17 60 sample_array_ok); [by vm_compute|split; discriminate|discriminate].
  - rewrite (find_first_exact Greater sample_array 13 17 60 sample_array_ok); [by vm_compute|split; discriminate|discriminate].
Defined.

Lemma find_all_exact_witness :
  array_ok sample_array /\
  exists q, find (fun _ (u : unit) => (u, true)) Less act_FindAll sample_array 3 5 75 0 false false (make_query_state act_FindAll 4, tt) = Ok ((q, tt), false) /\
    m_column q = [9; 11; 16; 18].
Proof.
  split; [exact sample_array_ok|].
  destruct (find_all_exact Less sample_array 3 5 75 0 4 sample_array_ok) as (q & E & Ec); [split; discriminate|discriminate|by split|].
  exists q. split; [by rewrite E|]. by rewrite Ec.
Defined.

Lemma count_exact_witness :
  array_ok sample_array /\
  exists q, find (fun _ (u : unit) => (u, true)) Equal act_Count sample_array 0 0 75 0 false false (make_query_state act_Count npos, tt) = Ok ((q, tt), true) /\
    m_state q = Z.of_nat (length (match_indices sample_array Equal 0 0 75)).
Proof.
  split; [exact sample_array_ok|].
  apply (count_exact Equal sample_array 0 0 75 0 npos sample_array_ok); [split; discriminate|discriminate|by split].
Defined.

(** ** What these results do not say *)

(** Matches counted all at once are not in the count that is held against the limit, so a search
    that goes on with the next array counts past the limit. *)
Lemma count_past_limit :
  (r ← find (fun _ (u : unit) => (u, true)) Less act_Count sample_array 100 0 npos 0 false false (make_query_state act_Count 3, tt);
   r ← find (fun _ (u : unit) => (u, true)) Less act_Count sample_array 100 0 npos 75 false false r.1;
   Ok (m_state r.1.1, m_limit r.1.1, r.2)) = Ok (6, 3, true).
Proof. by vm_compute. Qed.

(** The first element, 7, stands for null. *)
Definition sample_nullable : Array := array_of 4 [7; 7; 3; 7; 5; 9].

(** Nulls that are collected do not count towards the limit. *)
Lemma nulls_past_limit :
  (r ← find (fun _ (u : unit) => (u, true)) NotEqual act_FindAll sample_nullable 3 0 npos 0 true false (make_query_state act_FindAll 1, tt);
   Ok (m_column r.1.1)) = Ok [0; 2; 3].
Proof. by vm_compute. Qed.

(** The sum of the nulls that [Equal] finds is that of the values that stand for them; where
    another condition finds a null, the sum passes over it. *)
Lemma sum_of_nulls :
  (r ← find (fun _ (u : unit) => (u, true)) Equal act_Sum sample_nullable 0 0 npos 0 true true (make_query_state act_Sum npos, tt);
   Ok (m_state r.1.1)) = Ok 14 /\
  (r ← find (fun _ (u : unit) => (u, true)) NotEqual act_Sum sample_nullable 3 0 npos 0 true false (make_query_state act_Sum npos, tt);
   Ok (m_state r.1.1)) = Ok (5 + 9).
Proof. split; by vm_compute. Qed.

(** The pattern for [Less] would be wrong: of the elements 0 and 1, it tells both as less than 1,
    because the subtraction of the first borrows from the second.  It is never used:
    [use_fast_less]. *)
Lemma less_pattern_borrows :
  unpack 4 3 (gtlt_pattern false 4 (pack 4 [0; 1; 2]) (find_gtlt_magic false 4 1)) = [8; 8; 0].
Proof. by vm_compute. Qed.
