(* ===== verification/SchemaData.v ===== *)
(** Properties, object types and schemas, [property.hpp], [object_schema.cpp] and [schema.cpp]: the
    data, their lookups, and the facts of these: what orders the types of a schema, and when
    [Schema::find] finds a type by its name. *)

From stdpp Require Export strings.
From S2P Require Import Prelude.
#[local] Open Scope Z_scope.

(** ** Types *)

Inductive PropertyKind := Int | Bool | String_ | Data | Date | Float | Double | Object | LinkingObjects | Any.

#[export] Instance PropertyKind_eq_dec : EqDecision PropertyKind.
Proof. solve_decision. Defined.

Record PropertyType := MkType { kind : PropertyKind; is_nullable : bool; is_array : bool }.

#[export] Instance PropertyType_eq_dec : EqDecision PropertyType.
Proof. solve_decision. Defined.

Definition kind_value (k : PropertyKind) : Z :=
  match k with
  | Int => 0 | Bool => 1 | String_ => 2 | Data => 3 | Date => 4 | Float => 5 | Double => 6 | Object => 7 | LinkingObjects => 8 | Any => 9
  end.

Definition flag_Nullable : Z := 64.
Definition flag_Array : Z := 128.
Definition flag_Flags : Z := Z.lor flag_Nullable flag_Array.

Definition to_underlying (t : PropertyType) : Z :=
  Z.lor (kind_value (kind t)) (Z.lor (if is_nullable t then flag_Nullable else 0) (if is_array t then flag_Array else 0)).

(** [operator==], which ignores the flags. *)
Definition same_kind (a b : PropertyType) : bool := bool_decide (kind a = kind b).
Definition is_kind (t : PropertyType) (k : PropertyKind) : bool := bool_decide (kind t = k).

(** [t | Nullable], [t & ~Nullable] and [t & ~Flags]. *)
Definition with_nullable (t : PropertyType) : PropertyType := MkType (kind t) true (is_array t).
Definition without_nullable (t : PropertyType) : PropertyType := MkType (kind t) false (is_array t).
Definition without_flags (t : PropertyType) : PropertyType := MkType (kind t) false false.

Lemma property_type_bits t u :
  is_nullable t = (Z.land (to_underlying t) flag_Nullable =? flag_Nullable) /\
  is_array t = (Z.land (to_underlying t) flag_Array =? flag_Array) /\
  same_kind t u = (Z.land (to_underlying t) (Z.lnot flag_Flags) =? Z.land (to_underlying u) (Z.lnot flag_Flags)) /\
  to_underlying (with_nullable t) = Z.lor (to_underlying t) flag_Nullable /\
  to_underlying (without_nullable t) = Z.land (to_underlying t) (Z.lnot flag_Nullable) /\
  to_underlying (without_flags t) = Z.land (to_underlying t) (Z.lnot flag_Flags) /\
  (to_underlying t = to_underlying u -> t = u) /\ 0 <= to_underlying t < 256.
Proof.
  destruct t as [k [] []], u as [k' [] []]; destruct k, k'; vm_compute; split_and!; try done; try discriminate.
Qed.

Definition string_for_property_type (t : PropertyType) : string :=
  if is_array t then (if is_kind t LinkingObjects then "linking objects" else "array")
  else
    match kind t with
    | String_ => "string" | Int => "int" | Bool => "bool" | Date => "date" | Data => "data" | Double => "double" | Float => "float"
    | Object => "object" | Any => "any" | LinkingObjects => "linking objects"
    end.

(** ** Properties *)

Record Property := MkProperty {
  p_name : string;
  public_name : string;
  p_type : PropertyType;
  object_type : string;
  link_origin_property_name : string;
  is_primary : bool;
  is_indexed : bool;
  column_key : Z
}.

Definition requires_index (p : Property) : bool := is_primary p || is_indexed p.

Definition type_is_indexable (p : Property) : bool :=
  is_kind (p_type p) Int || is_kind (p_type p) Bool || is_kind (p_type p) Date || is_kind (p_type p) String_.

Definition type_is_nullable (p : Property) : bool :=
  negb (is_array (p_type p) && is_kind (p_type p) Object) && negb (is_kind (p_type p) LinkingObjects).

Definition type_string (p : Property) : string :=
  let t := p_type p in
  if is_array t then
    if is_kind t Object then "array<" +:+ object_type p +:+ ">"
    else if is_kind t LinkingObjects then "linking objects<" +:+ object_type p +:+ ">"
    else "array<" +:+ string_for_property_type (without_flags t) +:+ ">"
  else
    match kind t with
    | Object => "<" +:+ object_type p +:+ ">"
    | LinkingObjects => "linking objects<" +:+ object_type p +:+ ">"
    | _ => string_for_property_type (without_flags t)
    end.

(** [operator==]: the key of the column, the public name and, between properties that need an
    index, the index do not count. *)
Definition property_eq (a b : Property) : bool :=
  (to_underlying (p_type a) =? to_underlying (p_type b)) && Bool.eqb (is_primary a) (is_primary b) &&
  Bool.eqb (requires_index a) (requires_index b) && bool_decide (p_name a = p_name b) && bool_decide (object_type a = object_type b) &&
  bool_decide (link_origin_property_name a = link_origin_property_name b).

(** ** Types of objects *)

Record ObjectSchema := MkObject {
  o_name : string;
  persisted_properties : list Property;
  computed_properties : list Property;
  primary_key : string;
  table_key : Z
}.

(** The constructors from lists of properties; the key of a table that is not known yet is the
    null key, -1. *)
Definition make_object_schema (name : string) (persisted computed : list Property) : ObjectSchema :=
  let primary_key := match List.find is_primary persisted with Some p => p_name p | None => "" end in
  MkObject name persisted computed primary_key (-1).

Definition named (name : string) (p : Property) : bool := bool_decide (p_name p = name).

Definition property_for_name (o : ObjectSchema) (name : string) : option Property :=
  match List.find (named name) (persisted_properties o) with
  | Some p => Some p
  | None => List.find (named name) (computed_properties o)
  end.

Definition publicly_named (name : string) (p : Property) : bool :=
  bool_decide (public_name p = name) || (bool_decide (public_name p = "") && bool_decide (p_name p = name)).

Definition property_for_public_name (o : ObjectSchema) (name : string) : option Property :=
  match List.find (publicly_named name) (persisted_properties o) with
  | Some p => Some p
  | None => List.find (fun p => bool_decide ((if bool_decide (public_name p = "") then p_name p else public_name p) = name)) (computed_properties o)
  end.

Definition primary_key_property (o : ObjectSchema) : option Property := property_for_name o (primary_key o).

Definition property_is_computed (o : ObjectSchema) (p : Property) : bool := existsb (fun c => property_eq c p) (computed_properties o).

(** The first element that satisfies [f], changed in place. *)
Fixpoint update_first {A} (f : A -> bool) (g : A -> A) (l : list A) : list A :=
  match l with
  | [] => []
  | a :: l => if f a then g a :: l else a :: update_first f g l
  end.

(** A change of the property that [property_for_name] returns a pointer to. *)
Definition update_property (name : string) (g : Property -> Property) (o : ObjectSchema) : ObjectSchema :=
  if existsb (named name) (persisted_properties o)
  then MkObject (o_name o) (update_first (named name) g (persisted_properties o)) (computed_properties o) (primary_key o) (table_key o)
  else MkObject (o_name o) (persisted_properties o) (update_first (named name) g (computed_properties o)) (primary_key o) (table_key o).

Definition mark_primary (p : Property) : Property :=
  MkProperty (p_name p) (public_name p) (p_type p) (object_type p) (link_origin_property_name p) true (is_indexed p) (column_key p).

Definition set_primary_key_property (o : ObjectSchema) : ObjectSchema :=
  if bool_decide (primary_key o = "") then o else update_property (primary_key o) mark_primary o.

(** ** Order of strings *)

Definition unsigned_char (c : Ascii.ascii) : Z := Z.of_N (Ascii.N_of_ascii c).
Definition signed_char (c : Ascii.ascii) : Z := let u := unsigned_char c in if u <? 128 then u else u - 256.

(** [std::lexicographical_compare]. *)
Fixpoint lexicographical_compare (value : Ascii.ascii -> Z) (a b : string) : bool :=
  match a, b with
  | _, EmptyString => false
  | EmptyString, String _ _ => true
  | String x a, String y b =>
      if value x <? value y then true else if value y <? value x then false else lexicographical_compare value a b
  end.

(** [operator<] of [std::string] and of [StringData]. *)
Definition string_less : string -> string -> bool := lexicographical_compare unsigned_char.
Definition data_less (char_is_signed : bool) : string -> string -> bool :=
  lexicographical_compare (if char_is_signed then signed_char else unsigned_char).

(** ** Schemas *)

Abbreviation Schema := (list ObjectSchema).

(** [std::sort], on elements of which no two are equivalent: their order is what is sorted. *)
Fixpoint insert_sorted {A} (less : A -> A -> bool) (x : A) (l : list A) : list A :=
  match l with
  | [] => [x]
  | y :: l => if less y x then y :: insert_sorted less x l else x :: y :: l
  end.
Definition std_sort {A} (less : A -> A -> bool) (l : list A) : list A := foldr (insert_sorted less) [] l.

Definition make_schema (types : list ObjectSchema) : Schema := std_sort (fun a b => string_less (o_name a) (o_name b)) types.

(** [std::lower_bound] on the [len] elements from [first]: the index of the element it returns. *)
Fixpoint lower_bound {A} (fuel : nat) (before : A -> bool) (l : list A) (first len : nat) : nat :=
  match fuel with
  | O => first
  | S fuel =>
      if decide (len = 0)%nat then first
      else
        let half := Nat.div2 len in
        match l !! (first + half)%nat with
        | Some x => if before x then lower_bound fuel before l (first + half + 1) (len - (half + 1)) else lower_bound fuel before l first half
        | None => first
        end
  end.

(** [Schema::find].  The types are sorted by [std::string]'s order and searched by
    [StringData]'s. *)
Definition schema_find (char_is_signed : bool) (s : Schema) (name : string) : option ObjectSchema :=
  let it := lower_bound (S (length s)) (fun o => data_less char_is_signed (o_name o) name) s 0 (length s) in
  match s !! it with
  | Some o => if bool_decide (o_name o = name) then Some o else None
  | None => None
  end.

(** [operator==]. *)
Fixpoint list_eqb {A} (eqb : A -> A -> bool) (a b : list A) : bool :=
  match a, b with
  | [], [] => true
  | x :: a, y :: b => eqb x y && list_eqb eqb a b
  | _, _ => false
  end.
Definition object_schema_eq (a b : ObjectSchema) : bool :=
  bool_decide (o_name a = o_name b) && bool_decide (primary_key a = primary_key b) &&
  list_eqb property_eq (persisted_properties a) (persisted_properties b) && list_eqb property_eq (computed_properties a) (computed_properties b).
Definition schema_eq (a b : Schema) : bool := list_eqb object_schema_eq a b.

(** ** The order *)

Class CharOrder (value : Ascii.ascii -> Z) : Prop := value_inj x y : value x = value y -> x = y.

Lemma unsigned_char_range x : 0 <= unsigned_char x < 256.
Proof. unfold unsigned_char. pose proof (Ascii.N_ascii_bounded x). lia. Qed.

#[export] Instance unsigned_order : CharOrder unsigned_char.
Proof.
  intros x y E. unfold unsigned_char in E. apply N2Z.inj in E. by rewrite <- (Ascii.ascii_N_embedding x), <- (Ascii.ascii_N_embedding y), E.
Qed.

#[export] Instance signed_order : CharOrder signed_char.
Proof.
  intros x y E. unfold signed_char in E. pose proof (unsigned_char_range x). pose proof (unsigned_char_range y).
  apply (unsigned_order x y). destruct (Z.ltb_spec (unsigned_char x) 128), (Z.ltb_spec (unsigned_char y) 128); lia.
Qed.

Section order.
Context (value : Ascii.ascii -> Z) `{!CharOrder value}.
Local Abbreviation less := (lexicographical_compare value).

Lemma less_irrefl a : less a a = false.
Proof. induction a as [|x a IH]; [done|]. cbn. by rewrite Z.ltb_irrefl. Qed.

Lemma less_trans a b c : less a b = true -> less b c = true -> less a c = true.
Proof.
  revert b c. induction a as [|x a IH]; intros [|y b] [|z c]; try done. cbn.
  destruct (Z.ltb_spec (value x) (value y)), (Z.ltb_spec (value y) (value x)); try done; try lia;
    destruct (Z.ltb_spec (value y) (value z)), (Z.ltb_spec (value z) (value y)); try done; try lia;
    destruct (Z.ltb_spec (value x) (value z)), (Z.ltb_spec (value z) (value x)); try done; try lia.
  apply IH.
Qed.

Lemma less_total a b : less a b = false -> less b a = false -> a = b.
Proof.
  revert b. induction a as [|x a IH]; intros [|y b]; try done. cbn.
  destruct (Z.ltb_spec (value x) (value y)), (Z.ltb_spec (value y) (value x)); try done. intros H1 H2.
  f_equal; [apply value_inj; lia|by apply IH].
Qed.

Lemma less_asym a b : less a b = true -> less b a = false.
Proof. intros H1. destruct (less b a) eqn:E; [|done]. by rewrite <- (less_irrefl a), (less_trans a b a). Qed.

Lemma not_less_trans a b c : less b a = false -> less c b = false -> less c a = false.
Proof.
  intros H1 H2. destruct (less c a) eqn:E; [|done]. destruct (less a b) eqn:Eab.
  - by rewrite <- H2, (less_trans c a b).
  - rewrite (less_total a b Eab H1) in E. congruence.
Qed.
End order.

Fixpoint is_ascii (s : string) : bool :=
  match s with EmptyString => true | String c s => (unsigned_char c <? 128) && is_ascii s end.

(** Where [StringData] orders strings as [std::string] does. *)
Definition same_order (char_is_signed : bool) (l : list string) : Prop := char_is_signed = false \/ Forall (fun s => is_ascii s = true) l.

Lemma data_less_ascii c a b : is_ascii a = true -> is_ascii b = true -> data_less c a b = string_less a b.
Proof.
  destruct c; [|done]. unfold data_less, string_less. revert b. induction a as [|x a IH]; intros [|y b]; try done. cbn. unfold signed_char.
  intros [Hx Ha]%andb_true_iff [Hy Hb]%andb_true_iff. rewrite Hx, Hy. by rewrite IH.
Qed.

Lemma same_order_less c l a b : same_order c l -> a ∈ l -> b ∈ l -> data_less c a b = string_less a b.
Proof. intros [-> | Hl] Ha Hb; [done|]. rewrite Forall_forall in Hl. apply data_less_ascii; auto. Qed.

(** ** Sorting *)

Section sort.
Context {A : Type} (less : A -> A -> bool).
Context (Htrans : forall a b c, less b a = false -> less c b = false -> less c a = false).
Context (Htotal : forall a b, less a b = true -> less b a = false).

(** No element comes after a greater one. *)
Definition ordered : list A -> Prop := StronglySorted (fun a b => less b a = false).

Lemma insert_sorted_perm x l : insert_sorted less x l ≡ₚ x :: l.
Proof. induction l as [|y l IH]; [done|]. cbn. destruct (less y x); [|done]. rewrite IH. apply Permutation_swap. Qed.

Lemma std_sort_perm l : std_sort less l ≡ₚ l.
Proof. induction l as [|x l IH]; [done|]. cbn. by rewrite insert_sorted_perm, IH. Qed.

Lemma insert_sorted_ordered x l : ordered l -> ordered (insert_sorted less x l).
Proof.
  induction 1 as [|y l Hl IH Hy]; [repeat constructor|]. cbn. destruct (less y x) eqn:E.
  - constructor; [exact IH|]. rewrite insert_sorted_perm. constructor; [by apply Htotal|done].
  - constructor; [by constructor|]. constructor; [done|]. eapply Forall_impl; [exact Hy|]. intros z Hz. cbn in *. by apply (Htrans _ y).
Qed.

Lemma std_sort_ordered l : ordered (std_sort less l).
Proof. induction l as [|x l IH]; [constructor|]. by apply insert_sorted_ordered. Qed.
End sort.

Lemma StronglySorted_lookup {A} (R : A -> A -> Prop) (l : list A) i j x y :
  StronglySorted R l -> (i < j)%nat -> l !! i = Some x -> l !! j = Some y -> R x y.
Proof.
  intros Hs. revert i j. induction Hs as [|z l Hs IH Hz]; intros i j Hij Ei Ej; [done|]. destruct j as [|j]; [lia|]. cbn in Ej.
  destruct i as [|i]; [|apply (IH i j); [lia|done..]]. injection Ei as ->. rewrite Forall_forall in Hz. apply Hz. by eapply list_elem_of_lookup_2.
Qed.

(** ** Search *)

Lemma before_search_spec {A} (before : A -> bool) (l : list A) k fuel first len :
  (forall i x, l !! i = Some x -> before x = bool_decide (i < k)%nat) ->
  (first <= k <= first + len)%nat -> (first + len <= length l)%nat -> (len < fuel)%nat ->
  lower_bound fuel before l first len = k.
Proof.
  intros Hb. revert first len. induction fuel as [|fuel IH]; intros first len Hk Hl Hf; [lia|]. cbn [lower_bound]. case_decide; [lia|].
  pose proof (Nat.div2_div len) as Ed. pose proof (Nat.div_mod_eq len 2). pose proof (Nat.mod_upper_bound len 2 ltac:(lia)).
  rewrite Ed. destruct (lookup_lt_is_Some_2 l (first + len / 2)%nat) as [x Ex]; [lia|]. rewrite Ex, (Hb _ _ Ex). case_bool_decide.
  - apply IH; lia.
  - apply IH; lia.
Qed.

(** In an ordered list the elements before a position are those that the condition holds for. *)
Lemma partition_point {A} (before : A -> bool) (l : list A) :
  (forall i j x y, (i < j)%nat -> l !! i = Some x -> l !! j = Some y -> before y = true -> before x = true) ->
  forall i x, l !! i = Some x -> before x = bool_decide (i < length (List.filter before l))%nat.
Proof.
  induction l as [|y l IH]; intros Hm i x Ei; [done|]. destruct (before y) eqn:Ey; cbn [List.filter]; rewrite Ey.
  - destruct i as [|i]; [injection Ei as <-; rewrite Ey; symmetry; apply bool_decide_eq_true; cbn; lia|].
    rewrite (IH ltac:(intros i' j' x' y' Hlt E1 E2; by apply (Hm (S i') (S j') x' y'); [lia|..])  i x Ei). apply bool_decide_ext. cbn. lia.
  - assert (forall z, z ∈ l -> before z = false) as Hnone.
    { intros z Hz. apply list_elem_of_lookup in Hz as [j Ej]. destruct (before z) eqn:Ez; [|done].
      rewrite <- Ey. symmetry. apply (Hm 0%nat (S j) y z); [lia|done..]. }
    assert (List.filter before l = []) as ->.
    { clear -Hnone. induction l as [|z l IH]; [done|]. cbn. rewrite (Hnone z) by left. apply IH. intros z' Hz'. apply Hnone. by right. }
    rewrite bool_decide_false by (cbn; lia). destruct i as [|i]; [by injection Ei as <-|]. apply Hnone. apply (list_elem_of_lookup_2 l i x Ei).
Qed.

(** ** Schemas *)

Definition object_less (a b : ObjectSchema) : bool := string_less (o_name a) (o_name b).

(** What the constructor makes of types with names of their own. *)
Definition schema_sorted (s : Schema) : Prop := ordered object_less s /\ NoDup (o_name <$> s).

Lemma make_schema_sorted types : NoDup (o_name <$> types) -> schema_sorted (make_schema types).
Proof.
  intros Hn. split.
  - apply std_sort_ordered.
    + intros a b c. apply (not_less_trans unsigned_char).
    + intros a b. apply (less_asym unsigned_char).
  - unfold make_schema. by rewrite std_sort_perm.
Qed.

Lemma make_schema_perm types : make_schema types ≡ₚ types.
Proof. apply std_sort_perm. Qed.

Lemma schema_find_sound c s name o : schema_find c s name = Some o -> o ∈ s /\ o_name o = name.
Proof.
  unfold schema_find. destruct (s !! _) as [o'|] eqn:E; [|done]. case_bool_decide; [|done]. intros [= <-]. split; [|done].
  by eapply list_elem_of_lookup_2.
Qed.

Lemma schema_find_complete c s o :
  schema_sorted s -> same_order c (o_name <$> s) -> o ∈ s -> schema_find c s (o_name o) = Some o.
Proof.
  intros [Hs Hn] Hc Ho. set (before := fun x => data_less c (o_name x) (o_name o)).
  assert (forall x, x ∈ s -> before x = string_less (o_name x) (o_name o)) as Hbefore.
  { intros x Hx. apply (same_order_less c (o_name <$> s)); [done|by apply list_elem_of_fmap_2..]. }
  assert (forall i j x y, (i < j)%nat -> s !! i = Some x -> s !! j = Some y -> string_less (o_name y) (o_name x) = false) as Hord.
  { intros i j x y Hij Ex Ey. exact (StronglySorted_lookup _ _ i j x y Hs Hij Ex Ey). }
  pose proof (partition_point before s) as Hpart. unfold schema_find. fold before.
  assert (forall i x, s !! i = Some x -> before x = bool_decide (i < length (List.filter before s))%nat) as Hp.
  { apply Hpart. intros i j x y Hij Ex Ey Hy. rewrite Hbefore in Hy |- * by by eapply list_elem_of_lookup_2.
    destruct (string_less (o_name x) (o_name o)) eqn:E; [done|].
    pose proof (not_less_trans unsigned_char _ (o_name x) _ E (Hord i j x y Hij Ex Ey)) as F. unfold string_less in *. congruence. }
  set (k := length (List.filter before s)) in *.
  assert (k <= length s)%nat as Hk by apply List.filter_length_le.
  rewrite (before_search_spec before s k) by (done || lia).
  apply list_elem_of_lookup in Ho as [i Ei]. assert (before o = false) as Hoo by (unfold before; apply less_irrefl).
  assert (k <= i)%nat as Hki by (rewrite (Hp i o Ei) in Hoo; apply bool_decide_eq_false in Hoo; lia).
  destruct (decide (k = i)) as [Eki|Hne]; [by rewrite Eki, Ei, bool_decide_true|]. exfalso.
  destruct (lookup_lt_is_Some_2 s k) as [x Ex]; [apply lookup_lt_Some in Ei; lia|].
  pose proof (Hp k x Ex) as Hx. rewrite bool_decide_false in Hx by lia.
  rewrite Hbefore in Hx by by eapply list_elem_of_lookup_2.
  pose proof (less_total unsigned_char _ _ Hx (Hord k i x o ltac:(lia) Ex Ei)) as En.
  apply Hne. eapply (NoDup_lookup (o_name <$> s) k i); [done|by rewrite list_lookup_fmap, Ex|by rewrite list_lookup_fmap, Ei, En].
Qed.

Lemma schema_find_none c s name :
  schema_sorted s -> same_order c (name :: (o_name <$> s)) -> schema_find c s name = None <-> name ∉ o_name <$> s.
Proof.
  intros Hs Hc. split.
  - intros E Hin. apply list_elem_of_fmap in Hin as (o & -> & Ho). rewrite (schema_find_complete c s o) in E; [done|done| |done].
    destruct Hc as [->|Hc]; [by left|]. right. by apply Forall_cons in Hc as [_ Hc].
  - intros Hin. destruct (schema_find c s name) as [o|] eqn:E; [|done]. apply schema_find_sound in E as [Ho <-]. exfalso. apply Hin.
    by apply list_elem_of_fmap_2.
Qed.
