(* ===== verification/SchemaValidation.v ===== *)
(** Validation: [Schema::validate] of [schema.cpp] and [ObjectSchema::validate] of
    [object_schema.cpp], and that they accept exactly the schemas that are well formed.

    An error is the text of the code with the strings that it is formatted with.  The loops over
    sorted sequences are [std::adjacent_find] and [std::set_intersection]. *)

From S2P Require Import Prelude SchemaData.
#[local] Open Scope Z_scope.

Definition message : Type := string * list string.

(** [if (cond) exceptions.emplace_back(...)]. *)
Definition report (cond : bool) (m : message) : list message := if cond then [m] else [].

Definition empty (s : string) : bool := bool_decide (s = ""%string).

Section validate.
Context (char_is_signed : bool).

Definition validate_property (schema : Schema) (object_name : string) (prop : Property) (primary : option Property)
  : option Property * list message :=
  let t := p_type prop in
  let name := [object_name; p_name prop] in
  let typed := (name ++ [string_for_property_type t])%list in
  let errors :=
    (report (is_kind t LinkingObjects && negb (is_array t)) ("Linking Objects property '%1.%2' must be an array.", name) ++
    (if is_nullable t && negb (type_is_nullable prop) then [("Property '%1.%2' of type '%3' cannot be nullable.", typed)]
     else report (is_kind t Object && negb (is_nullable t) && negb (is_array t)) ("Property '%1.%2' of type 'object' must be nullable.", name)) ++
    (if is_primary prop then
       report (negb (is_kind t Int) && negb (is_kind t String_)) ("Property '%1.%2' of type '%3' cannot be made the primary key.", typed) ++
       match primary with
       | Some q => [("Properties '%1' and '%2' are both marked as the primary key of '%3'.", [p_name prop; p_name q; object_name])]
       | None => []
       end
     else []) ++
    report (is_indexed prop && negb (type_is_indexable prop)) ("Property '%1.%2' of type '%3' cannot be indexed.", typed) ++
    (if negb (is_kind t LinkingObjects) && negb (empty (link_origin_property_name prop))
     then [("Property '%1.%2' of type '%3' cannot have an origin property name.", typed)]
     else report (is_kind t LinkingObjects && empty (link_origin_property_name prop))
            ("Property '%1.%2' of type '%3' must have an origin property name.", typed)) ++
    (if negb (is_kind t Object) && negb (is_kind t LinkingObjects) then
       report (negb (empty (object_type prop))) ("Property '%1.%2' of type '%3' cannot have an object type.", name ++ [type_string prop])
     else
       match schema_find char_is_signed schema (object_type prop) with
       | None => [("Property '%1.%2' of type '%3' has unknown object type '%4'", typed ++ [object_type prop])]
       | Some it =>
           if negb (is_kind t LinkingObjects) then []
           else
             let origin := [object_type prop; link_origin_property_name prop; object_name; p_name prop] in
             match property_for_name it (link_origin_property_name prop) with
             | None => [("Property '%1.%2' declared as origin of linking objects property '%3.%4' does not exist", origin)]
             | Some origin_property =>
                 if negb (is_kind (p_type origin_property) Object)
                 then [("Property '%1.%2' declared as origin of linking objects property '%3.%4' is not a link", origin)]
                 else report (negb (bool_decide (object_type origin_property = object_name)))
                        ("Property '%1.%2' declared as origin of linking objects property '%3.%4' links to type '%5'",
                         origin ++ [object_type origin_property])
             end
       end))%list in
  (if is_primary prop then Some prop else primary, errors).

Fixpoint validate_properties (schema : Schema) (object_name : string) (props : list Property) (primary : option Property)
  : option Property * list message :=
  match props with
  | [] => (primary, [])
  | prop :: props =>
      let '(primary, errors) := validate_property schema object_name prop primary in
      let '(primary, more) := validate_properties schema object_name props primary in
      (primary, (errors ++ more)%list)
  end.

(** [for_each_duplicate]: the search goes on after the pair that was found. *)
Fixpoint duplicates (l : list string) : list string :=
  match l with
  | x :: l =>
      match l with
      | y :: l' => if bool_decide (x = y) then x :: duplicates l' else duplicates l
      | [] => []
      end
  | [] => []
  end.

(** [std::set_intersection]. *)
Fixpoint set_intersection (less : string -> string -> bool) (a : list string) : list string -> list string :=
  match a with
  | [] => fun _ => []
  | x :: a' =>
      fix inner (b : list string) : list string :=
        match b with
        | [] => []
        | y :: b' => if less x y then set_intersection less a' b else if less y x then inner b' else x :: set_intersection less a' b'
        end
  end.

Definition internal_names (o : ObjectSchema) : list string := (p_name <$> persisted_properties o) ++ (p_name <$> computed_properties o).
Definition public_names (o : ObjectSchema) : list string :=
  filter (fun n => empty n = false) ((public_name <$> persisted_properties o) ++ (public_name <$> computed_properties o)).

Definition validate_object (schema : Schema) (o : ObjectSchema) : list message :=
  let less := data_less char_is_signed in
  let public_property_names := std_sort less (public_names o) in
  let internal_property_names := std_sort less (internal_names o) in
  let '(primary, errors) := validate_properties schema (o_name o) (persisted_properties o) None in
  let '(primary, more) := validate_properties schema (o_name o) (computed_properties o) primary in
  (((fun n => ("Alias '%1' appears more than once in the schema for type '%2'.", [n; o_name o])) <$> duplicates public_property_names) ++
  ((fun n => ("Property '%1' appears more than once in the schema for type '%2'.", [n; o_name o])) <$> duplicates internal_property_names) ++
  ((fun n => ("Property '%1.%2' has an alias '%3' that conflicts with a property of the same name.",
              [o_name o; default "" (p_name <$> property_for_public_name o n); n]))
     <$> set_intersection less public_property_names internal_property_names) ++
  errors ++ more ++
  report (negb (empty (primary_key o)) && bool_decide (primary = None) && bool_decide (primary_key_property o = None))
    ("Specified primary key '%1.%2' does not exist.", [o_name o; primary_key o]))%list.

(** The names that the next type has too. *)
Fixpoint repeated_types (s : Schema) : list string :=
  match s with
  | a :: s => (match s with b :: _ => if bool_decide (o_name a = o_name b) then [o_name a] else [] | [] => [] end) ++ repeated_types s
  | [] => []
  end.

(** The errors of [Schema::validate]: it throws if there are any. *)
Definition validate (s : Schema) : list message :=
  (((fun n => ("Type '%1' appears more than once in the schema.", [n])) <$> repeated_types s) ++ concat (validate_object s <$> s))%list.
End validate.

#[export] Instance Property_eq_dec : EqDecision Property.
Proof. solve_decision. Defined.

(** ** Well-formed schemas *)

(** A property of a type, on its own and in its schema. *)
Record property_valid (s : Schema) (object_name : string) (p : Property) : Prop := {
  linking_objects_array : kind (p_type p) = LinkingObjects -> is_array (p_type p) = true;
  nullable_allowed : is_nullable (p_type p) = true -> kind (p_type p) <> LinkingObjects /\ (kind (p_type p) = Object -> is_array (p_type p) = false);
  link_nullable : kind (p_type p) = Object -> is_array (p_type p) = false -> is_nullable (p_type p) = true;
  primary_type : is_primary p = true -> kind (p_type p) = Int \/ kind (p_type p) = String_;
  indexed_type : is_indexed p = true -> kind (p_type p) ∈ [Int; Bool; Date; String_];
  origin_named : kind (p_type p) = LinkingObjects <-> link_origin_property_name p <> ""%string;
  target_type : if decide (kind (p_type p) = Object \/ kind (p_type p) = LinkingObjects) then exists target, target ∈ s /\ o_name target = object_type p
                else object_type p = ""%string;
  origin_property : kind (p_type p) = LinkingObjects -> exists target q,
    target ∈ s /\ o_name target = object_type p /\ property_for_name target (link_origin_property_name p) = Some q /\
    kind (p_type q) = Object /\ object_type q = object_name
}.

Definition properties (o : ObjectSchema) : list Property := persisted_properties o ++ computed_properties o.

Record object_valid (s : Schema) (o : ObjectSchema) : Prop := {
  names_unique : NoDup (internal_names o);
  aliases_unique : NoDup (public_names o);
  aliases_apart : forall n, n ∈ public_names o -> n ∉ internal_names o;
  properties_valid : forall p, p ∈ properties o -> property_valid s (o_name o) p;
  one_primary : (length (filter (fun p => is_primary p = true) (properties o)) <= 1)%nat;
  primary_exists : primary_key o <> ""%string -> (exists p, p ∈ properties o /\ is_primary p = true) \/ primary_key_property o <> None
}.

Definition schema_valid (s : Schema) : Prop := NoDup (o_name <$> s) /\ forall o, o ∈ s -> object_valid s o.

(** ** What the loops find *)

Lemma report_nil b m : report b m = [] <-> b = false.
Proof. by destruct b. Qed.

Section loops.
Context (value : Ascii.ascii -> Z) `{!CharOrder value}.
Local Abbreviation less := (lexicographical_compare value).

Lemma sort_ordered l : ordered less (std_sort less l).
Proof. apply std_sort_ordered; [intros a b c; by apply not_less_trans|intros a b; by apply less_asym]. Qed.

Lemma duplicates_nil l : ordered less l -> duplicates l = [] <-> NoDup l.
Proof.
  induction 1 as [|x l Hl IH Hx]; [split; [by constructor|done]|]. cbn [duplicates]. destruct l as [|y l]; [split; [intros _; apply NoDup_singleton|done]|].
  case_bool_decide as E; [subst; split; [done|]; intros [Hn _]%NoDup_cons; exfalso; apply Hn; left|].
  rewrite IH, (NoDup_cons x). split; [|tauto]. intros Hn. split; [|done]. intros [->|Hin]%elem_of_cons; [done|]. apply E.
  apply Forall_cons in Hx as [Hxy Hx]. inversion Hl as [|? ? _ Hy]; subst. rewrite Forall_forall in Hy.
  symmetry. apply (less_total value); [by apply Hxy|by apply Hy].
Qed.

Lemma set_intersection_nil a b : ordered less a -> ordered less b -> set_intersection less a b = [] <-> forall x, x ∈ a -> x ∉ b.
Proof.
  intros Ha. revert b. induction Ha as [|x a Ha IHa Hx]; intros b Hb; [split; [intros _ x Hx; by apply not_elem_of_nil in Hx|done]|].
  cbn [set_intersection]. induction Hb as [|y b Hb IHb Hy]; [split; [intros _ z _ Hz; by apply not_elem_of_nil in Hz|done]|].
  rewrite Forall_forall in Hx, Hy. destruct (less x y) eqn:Exy; [|destruct (less y x) eqn:Eyx].
  - rewrite IHa by (constructor; [done|by apply Forall_forall]). split.
    + intros Hd z [->|Hz]%elem_of_cons; [|by apply Hd]. intros [->|Hz]%elem_of_cons; [by rewrite less_irrefl in Exy|].
      pose proof (Hy x Hz). congruence.
    + intros Hd z Hz. apply Hd. by right.
  - rewrite IHb. split.
    + intros Hd z Hz [->|Hz']%elem_of_cons; [|by apply (Hd z)]. apply elem_of_cons in Hz as [->|Hz]; [by rewrite less_irrefl in Eyx|].
      pose proof (Hx y Hz). congruence.
    + intros Hd z Hz Hz'. apply (Hd z Hz). by right.
  - rewrite (less_total value x y Exy Eyx). split; [done|]. intros Hd. exfalso. apply (Hd y); left.
Qed.
End loops.

#[export] Instance data_order (c : bool) : CharOrder (if c then signed_char else unsigned_char).
Proof. destruct c; apply _. Qed.

Lemma repeated_types_nil s : ordered object_less s -> repeated_types s = [] <-> NoDup (o_name <$> s).
Proof.
  induction 1 as [|a s Hs IH Ha]; [split; [by constructor|done]|]. cbn [repeated_types]. destruct s as [|b s]; [split; [intros _; apply NoDup_singleton|done]|].
  case_bool_decide as E; [split; [done|]; cbn; rewrite E; intros [Hn _]%NoDup_cons; exfalso; apply Hn; left|].
  cbn [app]. rewrite IH. change (o_name <$> a :: b :: s) with (o_name a :: (o_name <$> b :: s)). rewrite (NoDup_cons (o_name a)). split; [|tauto]. intros Hn. split; [|done].
  intros [E2|Hin]%elem_of_cons; [by apply E|]. apply list_elem_of_fmap in Hin as (d & Ed & Hd). apply E.
  apply Forall_cons in Ha as [Hab Ha]. inversion Hs as [|? ? _ Hb]; subst. rewrite Forall_forall in Hb.
  symmetry. apply (less_total unsigned_char); [exact Hab|]. rewrite Ed. by apply Hb.
Qed.

(** ** Exactness *)

Section exact.
Context (char_is_signed : bool).

Lemma app_nil_iff {A} (a b : list A) : a ++ b = [] <-> a = [] /\ b = [].
Proof. split; [apply app_eq_nil|by intros [-> ->]]. Qed.

Lemma fmap_nil_iff {A B} (f : A -> B) (l : list A) : f <$> l = [] <-> l = [].
Proof. by destruct l. Qed.

Lemma is_kind_true t k : is_kind t k = true <-> kind t = k.
Proof. apply bool_decide_eq_true. Qed.
Lemma is_kind_false t k : is_kind t k = false <-> kind t <> k.
Proof. apply bool_decide_eq_false. Qed.
Lemma empty_true s : empty s = true <-> s = ""%string.
Proof. apply bool_decide_eq_true. Qed.
Lemma empty_false s : empty s = false <-> s <> ""%string.
Proof. apply bool_decide_eq_false. Qed.

Section property.
Context (s : Schema) (Hs : schema_sorted s) (object_name : string) (p : Property).
Context (Hsame : same_order char_is_signed (object_type p :: (o_name <$> s))).

Lemma find_target : match schema_find char_is_signed s (object_type p) with
                    | Some it => it ∈ s /\ o_name it = object_type p
                    | None => forall o, o ∈ s -> o_name o <> object_type p end.
Proof.
  destruct (schema_find _ _ _) as [it|] eqn:E; [by apply schema_find_sound in E|].
  apply schema_find_none in E; [|done|done]. intros o Ho En. apply E. rewrite <- En. by apply list_elem_of_fmap_2.
Qed.

Lemma same_target o1 o2 : o1 ∈ s -> o2 ∈ s -> o_name o1 = o_name o2 -> o1 = o2.
Proof.
  intros H1 H2 En. destruct Hs as [_ Hn]. apply list_elem_of_lookup in H1 as [i Ei], H2 as [j Ej].
  assert (i = j) as <-; [|congruence]. apply (NoDup_lookup (o_name <$> s) i j (o_name o1)); [done|by rewrite list_lookup_fmap, Ei|].
  by rewrite list_lookup_fmap, Ej, En.
Qed.

Lemma validate_property_primary primary :
  (validate_property char_is_signed s object_name p primary).1 = if is_primary p then Some p else primary.
Proof. done. Qed.

Lemma validate_property_nil primary :
  (validate_property char_is_signed s object_name p primary).2 = [] <->
  property_valid s object_name p /\ (is_primary p = true -> primary = None).
Proof.
  unfold validate_property. cbn [snd]. rewrite !app_nil_iff, !report_nil. pose proof find_target as Ht.
  split.
  - intros (E1 & E2 & E3 & E4 & E5 & E6). split.
    + constructor.
      * rewrite <- is_kind_true. intros Ek. rewrite Ek in E1. by destruct (is_array _).
      * intros En. rewrite En in E2. unfold type_is_nullable in E2. destruct (is_array (p_type p)) eqn:Ea, (is_kind (p_type p) Object) eqn:Eo, (is_kind (p_type p) LinkingObjects) eqn:El;
          try done; rewrite ?is_kind_true, ?is_kind_false in *; try done.
      * rewrite <- is_kind_true. intros Ek Ea. rewrite Ek, Ea in E2. by destruct (is_nullable _).
      * intros Ep. rewrite Ep in E3. apply app_nil_iff in E3 as [E3 _]. apply report_nil in E3.
        destruct (is_kind (p_type p) Int) eqn:Ei; [left; by apply is_kind_true|]. right. apply is_kind_true. by destruct (is_kind _ String_).
      * intros Ei. rewrite Ei in E4. unfold type_is_indexable in E4. cbn in E4. apply negb_false_iff in E4.
        rewrite !orb_true_iff, !is_kind_true in E4. rewrite !elem_of_cons. tauto.
      * rewrite <- is_kind_true. destruct (is_kind _ LinkingObjects), (empty (link_origin_property_name p)) eqn:Ee; rewrite ?empty_true, ?empty_false in Ee; cbn in E5; try done.
      * destruct (is_kind (p_type p) Object) eqn:Eo; [|destruct (is_kind (p_type p) LinkingObjects) eqn:El]; rewrite ?is_kind_true, ?is_kind_false in *; cbn in E6.
        -- rewrite decide_True by tauto. destruct (schema_find _ _ _) as [it|]; [by exists it|done].
        -- rewrite decide_True by tauto. destruct (schema_find _ _ _) as [it|]; [by exists it|done].
        -- rewrite decide_False by tauto. apply report_nil in E6. apply negb_false_iff in E6. by apply empty_true.
      * rewrite <- is_kind_true. intros El. rewrite El, andb_false_r in E6. cbn in E6. destruct (schema_find _ _ _) as [it|]; [|done].
        destruct (property_for_name it _) as [q|] eqn:Eq; [|done]. destruct (is_kind (p_type q) Object) eqn:Ek; [|done]. cbn in E6.
        apply report_nil, negb_false_iff, bool_decide_eq_true in E6. exists it, q. split_and!; try done; try tauto. by apply is_kind_true.
    + intros Ep. rewrite Ep in E3. apply app_nil_iff in E3 as [_ E3]. by destruct primary.
  - intros [[V1 V2 V3 V4 V5 V6 V7 V8] Hp]. rewrite <- is_kind_true in V1, V3, V6, V8. split_and!.
    + destruct (is_kind _ LinkingObjects); [by rewrite V1|done].
    + unfold type_is_nullable. destruct (is_nullable (p_type p)) eqn:En.
      * destruct (V2 eq_refl) as [Hl Ho]. apply is_kind_false in Hl. rewrite Hl. cbn. destruct (is_kind _ Object) eqn:Ek; [|by rewrite andb_false_r].
        apply is_kind_true in Ek. by rewrite (Ho Ek).
      * cbn. destruct (is_kind _ Object); [|done]. destruct (is_array (p_type p)); [done|]. by discriminate V3.
    + destruct (is_primary p); [|done]. rewrite Hp by done. rewrite app_nil_r. apply report_nil.
      destruct (V4 eq_refl) as [Hk|Hk]; apply is_kind_true in Hk; rewrite Hk; [done|]. by rewrite andb_false_r.
    + destruct (is_indexed p); [|done]. cbn. apply negb_false_iff. unfold type_is_indexable. specialize (V5 eq_refl).
      rewrite !orb_true_iff, !is_kind_true. rewrite !elem_of_cons in V5. destruct V5 as [?|[?|[?|[?|V5]]]]; [tauto..|by apply not_elem_of_nil in V5].
    + destruct (is_kind _ LinkingObjects), (empty (link_origin_property_name p)) eqn:Ee; rewrite ?empty_true, ?empty_false in Ee; cbn; try done.
      * by destruct (proj1 V6 eq_refl).
      * by discriminate (proj2 V6 Ee).
    + destruct (is_kind (p_type p) Object) eqn:Eo; [|destruct (is_kind (p_type p) LinkingObjects) eqn:El]; rewrite ?is_kind_true, ?is_kind_false in Eo; cbn.
      * rewrite decide_True in V7 by tauto. destruct V7 as (it' & Hin & En). destruct (schema_find _ _ _) as [it|]; [|by destruct (Ht it' Hin)].
        assert (is_kind (p_type p) LinkingObjects = false) as -> by (apply is_kind_false; rewrite Eo; done). done.
      * destruct (V8 eq_refl) as (it' & q & Hin & En & Eq & Ek & Et). destruct (schema_find _ _ _) as [it|]; [|by destruct (Ht it' Hin)].
        destruct Ht as [Hit Eit]. rewrite (same_target it it') by (done || congruence). rewrite Eq. apply is_kind_true in Ek. rewrite Ek. cbn.
        apply report_nil, negb_false_iff. by apply bool_decide_eq_true.
      * apply is_kind_false in El. rewrite decide_False in V7 by tauto. apply report_nil, negb_false_iff. by apply empty_true.
Qed.
End property.

Lemma not_inhabited_list {A} (l : list A) : (forall x, x ∉ l) -> l = [].
Proof. destruct l as [|x l]; [done|]. intros Hl. exfalso. apply (Hl x). left. Qed.

(** The names that are compared by the lookups. *)
Definition looked_up (s : Schema) : list string := (o_name <$> s) ++ concat ((fun o => object_type <$> properties o) <$> s).

Lemma same_order_weaken c l l' : (forall x, x ∈ l' -> x ∈ l) -> same_order c l -> same_order c l'.
Proof. intros Hl [->|H1]; [by left|right]. rewrite Forall_forall in *. auto. Qed.

Section object.
Context (s : Schema) (Hs : schema_sorted s) (Hsame : same_order char_is_signed (looked_up s)).

Lemma looked_up_property o p : o ∈ s -> p ∈ properties o -> same_order char_is_signed (object_type p :: (o_name <$> s)).
Proof.
  intros Ho Hp. eapply same_order_weaken; [|exact Hsame]. intros x. unfold looked_up. rewrite elem_of_cons, elem_of_app.
  intros [->|Hx]; [right|by left]. rewrite list_elem_of_In, in_concat. exists (object_type <$> properties o).
  rewrite <- !list_elem_of_In. split; [by apply (list_elem_of_fmap_2 (fun o => object_type <$> properties o))|by apply list_elem_of_fmap_2].
Qed.

Definition count_primary (l : list Property) : nat := length (filter (fun p => is_primary p = true) l).

Lemma count_primary_none l : count_primary l = 0%nat <-> forall p, p ∈ l -> is_primary p = false.
Proof.
  unfold count_primary. induction l as [|p l IH]; [split; [intros _ p Hp; by apply not_elem_of_nil in Hp|done]|].
  rewrite filter_cons. case_decide as Ep; cbn [length].
  - split; [done|]. intros Hl. rewrite (Hl p) in Ep by left. done.
  - rewrite IH. split.
    + intros Hl q [->|Hq]%elem_of_cons; [by destruct (is_primary p)|auto].
    + intros Hl q Hq. apply Hl. by right.
Qed.

Lemma validate_properties_nil n l primary :
  (forall p, p ∈ l -> same_order char_is_signed (object_type p :: (o_name <$> s))) ->
  let r := validate_properties char_is_signed s n l primary in
  (r.2 = [] <-> (forall p, p ∈ l -> property_valid s n p) /\ (count_primary l + (if primary then 1 else 0) <= 1 \/ count_primary l = 0)%nat) /\
  (r.1 = None <-> primary = None /\ count_primary l = 0%nat).
Proof.
  cbn zeta. revert primary. induction l as [|p l IH]; intros primary Hl.
  { cbn. split; [|tauto]. split; [|done]. intros _. split; [|by right]. intros p Hp. by apply not_elem_of_nil in Hp. }
  cbn [validate_properties]. pose proof (validate_property_primary s n p primary) as E1.
  pose proof (validate_property_nil s Hs n p (Hl p ltac:(left)) primary) as E2. destruct (validate_property _ _ _ _ _) as [primary' errors].
  cbn [fst snd] in E1, E2. subst primary'. specialize (IH (if is_primary p then Some p else primary) ltac:(intros q Hq; apply Hl; by right)).
  destruct (validate_properties _ _ _ _ _) as [primary'' more]. cbn [fst snd] in *. destruct IH as [IH1 IH2].
  rewrite app_nil_iff, E2, IH1, IH2. unfold count_primary. rewrite filter_cons. fold (count_primary l).
  assert ((forall q, q ∈ p :: l -> property_valid s n q) <-> property_valid s n p /\ forall q, q ∈ l -> property_valid s n q) as Hall.
  { split; [intros Hq; split; [apply Hq; left|intros q Hin; apply Hq; by right]|]. intros [Hp Hq] q [->|Hin]%elem_of_cons; [done|by apply Hq]. }
  rewrite Hall. destruct (is_primary p) eqn:Ep; rewrite ?decide_True, ?decide_False by done; cbn [length]; fold (count_primary l).
  - destruct primary as [q|]; split; split; intros; destruct_and?; try done; try (split_and!; try done; try lia; intuition congruence); intuition (done || lia || congruence).
  - destruct primary as [q|]; split; split; intros; destruct_and?; split_and?; try done; intuition (done || lia || congruence).
Qed.

Lemma std_sort_elem value `{!CharOrder value} l x : x ∈ std_sort (lexicographical_compare value) l <-> x ∈ l.
Proof. by rewrite (std_sort_perm (lexicographical_compare value) l). Qed.

Lemma sorted_duplicates l : duplicates (std_sort (data_less char_is_signed) l) = [] <-> NoDup l.
Proof. unfold data_less. rewrite (duplicates_nil _ _ (sort_ordered _ l)). by rewrite std_sort_perm. Qed.

Lemma sorted_intersection a b :
  set_intersection (data_less char_is_signed) (std_sort (data_less char_is_signed) a) (std_sort (data_less char_is_signed) b) = [] <-> forall x, x ∈ a -> x ∉ b.
Proof.
  unfold data_less. rewrite (set_intersection_nil _ _ _ (sort_ordered _ a) (sort_ordered _ b)).
  by setoid_rewrite (std_sort_elem (if char_is_signed then signed_char else unsigned_char)).
Qed.

Lemma validate_object_nil o : o ∈ s -> validate_object char_is_signed s o = [] <-> object_valid s o.
Proof.
  intros Ho. unfold validate_object.
  pose proof (validate_properties_nil (o_name o) (persisted_properties o) None
    ltac:(intros p Hp; apply (looked_up_property o p Ho); apply elem_of_app; by left)) as [E1 E1']. cbn zeta in E1, E1'.
  destruct (validate_properties _ _ _ (persisted_properties o) _) as [primary errors]. cbn [fst snd] in *.
  pose proof (validate_properties_nil (o_name o) (computed_properties o) primary
    ltac:(intros p Hp; apply (looked_up_property o p Ho); apply elem_of_app; by right)) as [E2 E2']. cbn zeta in E2, E2'.
  destruct (validate_properties _ _ _ (computed_properties o) _) as [primary' more]. cbn [fst snd] in *.
  rewrite !app_nil_iff, !fmap_nil_iff, !sorted_duplicates, sorted_intersection, report_nil, E1, E2.
  assert (count_primary (properties o) = count_primary (persisted_properties o) + count_primary (computed_properties o))%nat as Hc
    by (unfold count_primary, properties; by rewrite filter_app, length_app).
  assert ((if primary then 1 else 0) = 0 <-> count_primary (persisted_properties o) = 0)%nat as Hp by (destruct primary; intuition congruence).
  assert (bool_decide (primary' = None) = bool_decide (count_primary (properties o) = 0%nat)) as ->.
  { apply bool_decide_ext. rewrite E2', E1', Hc. intuition lia. }
  assert (count_primary (properties o) = 0%nat <-> ~ exists p, p ∈ properties o /\ is_primary p = true) as Hnone.
  { rewrite count_primary_none. split; [intros Hf (p & Hin & Ep); by rewrite Hf in Ep|]. intros Hf p Hin.
    destruct (is_primary p) eqn:Ep; [|done]. exfalso. apply Hf. by exists p. }
  split.
  - intros (D1 & D2 & D3 & (V1 & N1) & (V2 & N2) & Hk). constructor; try done.
    + intros p [Hin|Hin]%elem_of_app; auto.
    + fold (count_primary (properties o)). destruct primary; lia.
    + intros Hne. apply empty_false in Hne. rewrite Hne in Hk. cbn in Hk. apply andb_false_iff in Hk as [Hk|Hk]; apply bool_decide_eq_false in Hk; [|by right].
      left. destruct (decide (Exists (fun p => is_primary p = true) (properties o))) as [He|He]; [by apply Exists_exists in He|].
      exfalso. apply Hk, Hnone. by rewrite <- Exists_exists.
  - intros [D1 D2 D3 V N Hk]. fold (count_primary (properties o)) in N. split_and!; try done.
    + intros p Hin. apply V, elem_of_app. by left.
    + left. lia.
    + intros p Hin. apply V, elem_of_app. by right.
    + destruct primary; lia.
    + destruct (empty (primary_key o)) eqn:Ee; [done|]. cbn. apply empty_false in Ee. apply andb_false_iff.
      destruct (Hk Ee) as [He|He]; [left|right]; apply bool_decide_eq_false; [|exact He]. intros Ez. by apply Hnone in Ez.
Qed.

Lemma validate_nil : validate char_is_signed s = [] <-> schema_valid s.
Proof.
  unfold validate, schema_valid. rewrite app_nil_iff, fmap_nil_iff. rewrite repeated_types_nil by apply Hs.
  split; intros [H1 H2]; split; try done.
  - intros o Ho. apply validate_object_nil; [done|]. apply list_elem_of_In in Ho. destruct (validate_object _ _ _) as [|m l] eqn:E; [done|]. exfalso.
    assert (In m (concat (validate_object char_is_signed s <$> s))) as Hin; [|by rewrite H2 in Hin].
    apply in_concat. exists (validate_object char_is_signed s o). split; [|rewrite E; by left]. by apply in_map.
  - apply not_inhabited_list. intros m Hin. apply list_elem_of_In, in_concat in Hin as (l & Hl & Hm). apply in_map_iff in Hl as (o & <- & Ho).
    apply list_elem_of_In in Ho. rewrite (proj2 (validate_object_nil o Ho)) in Hm by auto. done.
Qed.
End object.
End exact.

(** ** What validation accepts *)

(** C6: validation reports no error for exactly the well-formed schemas: no two types, properties
    or aliases of a type share a name, every property has a type, flags, index and origin that go
    together, links go to types of the schema, linking objects to links back, and there is at most
    one primary key, of a type that can be one; where all names that are looked up are ASCII, or
    characters are unsigned. *)
Theorem validate_exact char_is_signed types :
  same_order char_is_signed (looked_up (make_schema types)) ->
  validate char_is_signed (make_schema types) = [] <-> schema_valid (make_schema types).
Proof.
  intros Hsame. destruct (decide (NoDup (o_name <$> types))) as [Hn|Hn]; [by apply validate_nil; [apply make_schema_sorted|]|].
  assert (~ NoDup (o_name <$> make_schema types)) as Hn' by by rewrite make_schema_perm.
  split; [|by intros [? _]]. unfold validate. rewrite app_nil_iff, fmap_nil_iff, repeated_types_nil; [by intros [? _]|].
  apply std_sort_ordered; [intros a b c; apply (not_less_trans unsigned_char)|intros a b; apply (less_asym unsigned_char)].
Qed.

Definition plain_property (name : string) (t : PropertyType) : Property := MkProperty name "" t "" "" false false (-1).
Definition link_property (name target : string) : Property := MkProperty name "" (MkType Object true false) target "" false false (-1).
Definition key_property (name : string) : Property := MkProperty name "" (MkType String_ false false) "" "" true false (-1).
Definition linking_objects (name target origin : string) : Property :=
  MkProperty name "" (MkType LinkingObjects false true) target origin false false (-1).

Definition sample_types : list ObjectSchema :=
  [make_object_schema "Person" [key_property "id"; plain_property "age" (MkType Int true false)] [linking_objects "dogs" "Dog" "owner"];
   make_object_schema "Dog" [plain_property "name" (MkType String_ false false); link_property "owner" "Person"] []].

Lemma validate_exact_witness :
  same_order true (looked_up (make_schema sample_types)) /\ schema_valid (make_schema sample_types) /\
  (o_name <$> make_schema sample_types) = ["Dog"; "Person"]%string.
Proof.
  assert (same_order true (looked_up (make_schema sample_types))) as Hs by (right; vm_compute; repeat constructor).
  split; [exact Hs|]. split; [|by vm_compute]. apply (validate_exact true sample_types Hs). by vm_compute.
Defined.

(** With signed characters a type is not found when its name is not ASCII and the schema has
    another type: the types are sorted as [std::string] orders their names, and searched as
    [StringData] does. *)
Definition apple : string := String (Ascii.ascii_of_nat 195) (String (Ascii.ascii_of_nat 132) "pfel").
Definition basket_types : list ObjectSchema :=
  [make_object_schema "Basket" [link_property "content" apple] []; make_object_schema apple [plain_property "weight" (MkType Int false false)] []].

Lemma unicode_type_not_found :
  schema_find false (make_schema basket_types) apple <> None /\ schema_find true (make_schema basket_types) apple = None /\
  validate false (make_schema basket_types) = [] /\
  validate true (make_schema basket_types) =
    [("Property '%1.%2' of type '%3' has unknown object type '%4'", ["Basket"; "content"; "object"; apple])]%string.
Proof. split_and!; [by vm_compute|by vm_compute..]. Qed.
