(* ===== verification/SchemaChanges.v ===== *)
(** The changes between two schemas, [Schema::compare] of [schema.cpp], and what the object store
    makes of them before it applies any: [needs_migration], the verification functions and
    [SchemaDifferenceExplainer] of [object_store.cpp].

    A change holds the type and the properties that it points to. *)

From S2P Require Import Prelude SchemaData SchemaValidation.
#[local] Open Scope Z_scope.

Inductive SchemaChange :=
| AddTable (object : ObjectSchema)
| RemoveTable (object : ObjectSchema)
| AddInitialProperties (object : ObjectSchema)
| AddProperty (object : ObjectSchema) (property : Property)
| RemoveProperty (object : ObjectSchema) (property : Property)
| ChangePropertyType (object : ObjectSchema) (old_property new_property : Property)
| MakePropertyNullable (object : ObjectSchema) (property : Property)
| MakePropertyRequired (object : ObjectSchema) (property : Property)
| AddIndex (object : ObjectSchema) (property : Property)
| RemoveIndex (object : ObjectSchema) (property : Property)
| ChangePrimaryKey (object : ObjectSchema) (property : option Property).

(** ** [Schema::compare] *)

(** The changes of one property of the existing type. *)
Definition compare_property (existing target : ObjectSchema) (current_prop : Property) : list SchemaChange :=
  match property_for_name target (p_name current_prop) with
  | None => [RemoveProperty existing current_prop]
  | Some target_prop =>
      if property_is_computed target target_prop then [RemoveProperty existing current_prop]
      else if negb (same_kind (p_type current_prop) (p_type target_prop)) ||
              negb (bool_decide (object_type current_prop = object_type target_prop)) ||
              negb (Bool.eqb (is_array (p_type current_prop)) (is_array (p_type target_prop)))
      then [ChangePropertyType existing current_prop target_prop]
      else
        ((if negb (Bool.eqb (is_nullable (p_type current_prop)) (is_nullable (p_type target_prop))) then
           if is_nullable (p_type current_prop) then [MakePropertyRequired existing current_prop] else [MakePropertyNullable existing current_prop]
         else []) ++
        (if requires_index target_prop then (if negb (is_indexed current_prop) then [AddIndex existing current_prop] else [])
         else if requires_index current_prop then [RemoveIndex existing current_prop] else []))%list
  end.

Definition compare_objects (existing target : ObjectSchema) : list SchemaChange :=
  (concat (compare_property existing target <$> persisted_properties existing) ++
  concat ((fun p => match property_for_name existing (p_name p) with None => [AddProperty existing p] | Some _ => [] end)
            <$> persisted_properties target) ++
  (if bool_decide (primary_key existing = primary_key target) then [] else [ChangePrimaryKey existing (primary_key_property target)]))%list.

(** The calls of [func] by [zip_matching]. *)
Fixpoint zip_matching (a : Schema) : Schema -> list (option ObjectSchema * option ObjectSchema) :=
  match a with
  | [] => fun b => (fun y => (None, Some y)) <$> b
  | x :: a' =>
      fix inner (b : Schema) :=
        match b with
        | [] => (fun x => (Some x, None)) <$> a
        | y :: b' =>
            if bool_decide (o_name x = o_name y) then (Some x, Some y) :: zip_matching a' b'
            else if string_less (o_name x) (o_name y) then (Some x, None) :: zip_matching a' b
            else (None, Some y) :: inner b'
        end
  end.

(** The first pass, over whole tables, and the second, over columns. *)
Definition table_changes (include_table_removals : bool) (pair : option ObjectSchema * option ObjectSchema) : list SchemaChange :=
  match pair with
  | (Some target, None) => [AddTable target]
  | (None, Some existing) => if include_table_removals then [RemoveTable existing] else []
  | _ => []
  end.
Definition column_changes (pair : option ObjectSchema * option ObjectSchema) : list SchemaChange :=
  match pair with
  | (Some target, Some existing) => compare_objects existing target
  | (Some target, None) => [AddInitialProperties target]
  | _ => []
  end.

Definition compare (existing target : Schema) (include_table_removals : bool) : list SchemaChange :=
  let pairs := zip_matching target existing in
  (concat (table_changes include_table_removals <$> pairs) ++ concat (column_changes <$> pairs))%list.

(** ** [Schema::copy_keys_from] *)

Definition with_column_key (key : Z) (p : Property) : Property :=
  MkProperty (p_name p) (public_name p) (p_type p) (object_type p) (link_origin_property_name p) (is_primary p) (is_indexed p) key.
Definition with_table_key (key : Z) (o : ObjectSchema) : ObjectSchema :=
  MkObject (o_name o) (persisted_properties o) (computed_properties o) (primary_key o) key.

Definition copy_object_keys (existing other : ObjectSchema) : ObjectSchema :=
  foldl (fun o p => update_property (p_name p) (with_column_key (column_key p)) o) (with_table_key (table_key other) existing)
    (persisted_properties other).

Definition copy_keys_from (s other : Schema) : Schema :=
  omap (fun pair => match pair with
                    | (Some existing, Some other) => Some (copy_object_keys existing other)
                    | (Some existing, None) => Some existing
                    | (None, _) => None
                    end) (zip_matching s other).

(** ** Errors *)

Inductive SchemaError :=
| SchemaValidationException (errors : list message)
| SchemaMismatchException (errors : list message)
| InvalidSchemaChangeException (errors : list message)
| InvalidExternalSchemaChangeException (errors : list message)
| logic_error (m : message)
| InvalidSchemaVersionException (old_version new_version : Z)
| StoreException   (** thrown by the code that is compiled elsewhere *)
| SchemaAssertion  (** a [REALM_ASSERT] that does not hold *)
| NoSuchObject.    (** not an outcome: the use of a null table or of the end of a schema *)

Inductive schema_result (A : Type) : Type :=
| Fine (a : A)
| Throws (e : SchemaError).
Arguments Fine {_} _.
Arguments Throws {_} _.

#[export] Instance schema_ret : MRet schema_result := fun A a => Fine a.
#[export] Instance schema_bind : MBind schema_result := fun A B k m => match m with Fine a => k a | Throws e => Throws e end.

Definition schema_assert (b : bool) : schema_result unit := if b then Fine tt else Throws SchemaAssertion.

Fixpoint fold_schema {A S} (f : A -> S -> schema_result S) (l : list A) (s : S) : schema_result S :=
  match l with [] => Fine s | a :: l => s ← f a s; fold_schema f l s end.

(** ** The verifications *)

Definition explain (change : SchemaChange) : list message :=
  match change with
  | AddTable o => [("Class '%1' has been added.", [o_name o])]
  | RemoveTable _ | AddInitialProperties _ => []
  | AddProperty o p => [("Property '%1.%2' has been added.", [o_name o; p_name p])]
  | RemoveProperty o p => [("Property '%1.%2' has been removed.", [o_name o; p_name p])]
  | ChangePropertyType o old_property new_property =>
      [("Property '%1.%2' has been changed from '%3' to '%4'.", [o_name o; p_name new_property; type_string old_property; type_string new_property])]
  | MakePropertyNullable o p => [("Property '%1.%2' has been made optional.", [o_name o; p_name p])]
  | MakePropertyRequired o p => [("Property '%1.%2' has been made required.", [o_name o; p_name p])]
  | ChangePrimaryKey o p =>
      match p with
      | Some p => if negb (empty (primary_key o)) then [("Primary Key for class '%1' has changed from '%2' to '%3'.", [o_name o; primary_key o; p_name p])]
                  else [("Primary Key for class '%1' has been added.", [o_name o])]
      | None => [("Primary Key for class '%1' has been removed.", [o_name o])]
      end
  | AddIndex o p => [("Property '%1.%2' has been made indexed.", [o_name o; p_name p])]
  | RemoveIndex o p => [("Property '%1.%2' has been made unindexed.", [o_name o; p_name p])]
  end%string.

Definition verify_no_errors (error : list message -> SchemaError) (verifier : SchemaChange -> list message) (changes : list SchemaChange)
  : schema_result unit :=
  let errors := concat (verifier <$> changes) in
  if decide (errors = []) then Fine tt else Throws (error errors).

Definition needs_migration (changes : list SchemaChange) : bool :=
  existsb (fun change => match change with
    | AddIndex _ _ | AddInitialProperties _ | AddTable _ | RemoveTable _ | RemoveIndex _ _ => false
    | AddProperty _ _ | ChangePrimaryKey _ _ | ChangePropertyType _ _ _ | MakePropertyNullable _ _ | MakePropertyRequired _ _
    | RemoveProperty _ _ => true
    end) changes.

Definition verify_no_changes_required (changes : list SchemaChange) : schema_result unit :=
  verify_no_errors SchemaMismatchException explain changes.

Definition verify_no_migration_required (changes : list SchemaChange) : schema_result unit :=
  verify_no_errors SchemaMismatchException
    (fun change => match change with AddTable _ | AddInitialProperties _ | AddIndex _ _ | RemoveIndex _ _ => [] | _ => explain change end) changes.

Definition verify_valid_additive_changes (changes : list SchemaChange) (update_indexes : bool) : schema_result bool :=
  _ ← verify_no_errors InvalidSchemaChangeException
    (fun change => match change with
      | AddTable _ | AddInitialProperties _ | AddProperty _ _ | RemoveProperty _ _ | AddIndex _ _ | RemoveIndex _ _ => []
      | _ => explain change end) changes;
  let other_changes := existsb (fun change => match change with AddTable _ | AddInitialProperties _ | AddProperty _ _ => true | _ => false end) changes in
  let index_changes := existsb (fun change => match change with AddIndex _ _ | RemoveIndex _ _ => true | _ => false end) changes in
  Fine (other_changes || (index_changes && update_indexes)).

Definition verify_valid_external_changes (changes : list SchemaChange) : schema_result unit :=
  verify_no_errors InvalidExternalSchemaChangeException
    (fun change => match change with
      | AddTable _ | AddInitialProperties _ | AddProperty _ _ | AddIndex _ _ | RemoveIndex _ _ => []
      | RemoveTable o => [("Class '%1' has been removed.", [o_name o])]
      | _ => explain change end)%string changes.

Definition verify_compatible_for_immutable_and_readonly (changes : list SchemaChange) : schema_result unit :=
  verify_no_errors InvalidSchemaChangeException
    (fun change => match change with
      | AddTable _ | AddInitialProperties _ | RemoveProperty _ _ | AddIndex _ _ | RemoveIndex _ _ => []
      | _ => explain change end) changes.

(** ** What [zip_matching] visits *)

Definition pair_of (a b : Schema) (pair : option ObjectSchema * option ObjectSchema) : Prop :=
  match pair with
  | (Some x, Some y) => x ∈ a /\ y ∈ b /\ o_name x = o_name y
  | (Some x, None) => x ∈ a /\ o_name x ∉ o_name <$> b
  | (None, Some y) => y ∈ b /\ o_name y ∉ o_name <$> a
  | (None, None) => False
  end.

Lemma schema_sorted_cons x s :
  schema_sorted (x :: s) -> schema_sorted s /\ (forall y, y ∈ s -> string_less (o_name x) (o_name y) = true) /\ o_name x ∉ o_name <$> s.
Proof.
  intros [Hs [Hx Hn]%NoDup_cons]. inversion Hs as [|? ? Hs' Hx']; subst. split_and!; [by split| |done]. intros y Hy.
  destruct (string_less (o_name x) (o_name y)) eqn:E; [done|]. exfalso. apply Hx. rewrite Forall_forall in Hx'.
  rewrite (less_total unsigned_char _ _ E (Hx' y Hy)). by apply list_elem_of_fmap_2.
Qed.

Lemma not_in_later x y (s : Schema) :
  (forall z, z ∈ s -> string_less (o_name y) (o_name z) = true) -> string_less (o_name x) (o_name y) = true -> o_name x ∉ o_name <$> y :: s.
Proof.
  intros Hs Hxy Hin. apply list_elem_of_fmap in Hin as (z & En & Hz). apply elem_of_cons in Hz as [->|Hz].
  - rewrite En in Hxy. unfold string_less in Hxy. by rewrite less_irrefl in Hxy.
  - pose proof (less_trans unsigned_char _ _ _ Hxy (Hs z Hz)) as Hxz. rewrite En in Hxz. by rewrite less_irrefl in Hxz.
Qed.

(** The first type of both, of one, or of the other. *)
Lemma pair_of_both x a y b pair :
  o_name x = o_name y -> o_name x ∉ o_name <$> a -> o_name y ∉ o_name <$> b ->
  pair_of (x :: a) (y :: b) pair <-> pair = (Some x, Some y) \/ pair_of a b pair.
Proof.
  intros En Hxn Hyn. destruct pair as [[x'|] [y'|]]; cbn [pair_of]; rewrite ?fmap_cons, ?elem_of_cons.
  - split.
    + intros ([->|Hx] & [->|Hy] & Hn); [by left| | |right; by split_and!].
      * exfalso. apply Hyn. rewrite <- En, Hn. by apply list_elem_of_fmap_2.
      * exfalso. apply Hxn. rewrite En, <- Hn. by apply list_elem_of_fmap_2.
    + intros [[= -> ->]|(? & ? & ?)]; [by split_and!; [left|left|]|split_and!; [by right|by right|done]].
  - split.
    + intros ([->|Hx] & Hn); [exfalso; apply Hn; by left|]. right. split; [done|]. intros ?. apply Hn. by right.
    + intros [[=]|(Hx & Hn)]. split; [by right|]. intros [Hn'|?]; [|done]. apply Hxn. rewrite En, <- Hn'. by apply list_elem_of_fmap_2.
  - split.
    + intros ([->|Hy] & Hn); [exfalso; apply Hn; by left|]. right. split; [done|]. intros ?. apply Hn. by right.
    + intros [[=]|(Hy & Hn)]. split; [by right|]. intros [Hn'|?]; [|done]. apply Hyn. rewrite <- En, <- Hn'. by apply list_elem_of_fmap_2.
  - split; [done|]. by intros [[=]|?].
Qed.

Lemma pair_of_left x a b pair :
  o_name x ∉ o_name <$> b -> pair_of (x :: a) b pair <-> pair = (Some x, None) \/ pair_of a b pair.
Proof.
  intros Hx. destruct pair as [[x'|] [y'|]]; cbn [pair_of]; rewrite ?fmap_cons, ?(elem_of_cons a).
  - split.
    + intros ([->|Hx'] & Hy & Hn); [|right; by split_and!]. exfalso. apply Hx. rewrite Hn. by apply list_elem_of_fmap_2.
    + intros [[=]|(? & ? & ?)]. by split_and!; [right|..].
  - split.
    + intros ([->|Hx'] & Hn); [by left|right; by split].
    + intros [[= ->]|(? & ?)]; [by split; [left|]|by split; [right|]].
  - rewrite elem_of_cons. split.
    + intros (Hy & Hn). right. split; [done|]. intros ?. apply Hn. by right.
    + intros [[=]|(Hy & Hn)]. split; [done|]. intros [Hn'|?]; [|done]. apply Hx. rewrite <- Hn'. by apply list_elem_of_fmap_2.
  - split; [done|]. by intros [[=]|?].
Qed.

Definition swap (pair : option ObjectSchema * option ObjectSchema) : option ObjectSchema * option ObjectSchema := (pair.2, pair.1).

Lemma pair_of_swap a b pair : pair_of a b pair <-> pair_of b a (swap pair).
Proof. destruct pair as [[x|] [y|]]; cbn; try done. split; intros (? & ? & ?); by split_and!. Qed.

Lemma pair_of_right a y b pair :
  o_name y ∉ o_name <$> a -> pair_of a (y :: b) pair <-> pair = (None, Some y) \/ pair_of a b pair.
Proof.
  intros Hy. rewrite pair_of_swap, (pair_of_left y b a (swap pair) Hy), (pair_of_swap a b). destruct pair as [p q]. cbn.
  split; (intros [[= -> ->]|?]; [by left|by right]).
Qed.

Lemma zip_matching_pairs a b pair : schema_sorted a -> schema_sorted b -> pair ∈ zip_matching a b <-> pair_of a b pair.
Proof.
  revert b. induction a as [|x a IHa]; intros b Ha Hb.
  { cbn. rewrite list_elem_of_fmap. split.
    - intros (y & -> & Hy). split; [done|apply not_elem_of_nil].
    - destruct pair as [[x|] [y|]]; cbn; intros Hp; destruct_and?; try done; try by apply not_elem_of_nil in Hp as [].
      all: try (by exists y). all: exfalso; by eapply not_elem_of_nil. }
  destruct (schema_sorted_cons x a Ha) as (Ha' & Hxa & Hxn). induction b as [|y b IHb].
  { cbn [zip_matching]. rewrite list_elem_of_fmap. split.
    - intros (z & -> & Hz). split; [done|apply not_elem_of_nil].
    - destruct pair as [[z|] [y|]]; cbn [pair_of]; intros Hp; destruct_and?; try done; [|by exists z|]; exfalso; by eapply not_elem_of_nil. }
  destruct (schema_sorted_cons y b Hb) as (Hb' & Hyb & Hyn). specialize (IHb Hb'). cbn [zip_matching].
  case_bool_decide as En; [|destruct (string_less (o_name x) (o_name y)) eqn:Exy].
  - by rewrite elem_of_cons, (IHa b Ha' Hb'), pair_of_both.
  - rewrite elem_of_cons, (IHa (y :: b) Ha' Hb), pair_of_left; [done|]. by apply not_in_later.
  - assert (string_less (o_name y) (o_name x) = true) as Eyx.
    { destruct (string_less (o_name y) (o_name x)) eqn:E; [done|]. exfalso. apply En. by apply (less_total unsigned_char). }
    rewrite elem_of_cons. change (pair ∈ _) with (pair ∈ zip_matching (x :: a) b). rewrite IHb, pair_of_right; [done|]. by apply not_in_later.
Qed.
