(* ===== verification/SchemaStore.v ===== *)
(** The object store's work on the tables of a file: reading the schema of a group and applying
    changes to it, [object_store.cpp] and the constructor of [ObjectSchema] from a group.

    Groups and tables are compiled elsewhere and an interface here: [tables] is what the functions
    that read a group return, and the operations of [group.hpp] and [table.hpp] that the object
    store calls change a group or throw.  A table is meant by its name, a column by its key. *)

From S2P Require Import Prelude SchemaData SchemaValidation SchemaChanges.
#[local] Open Scope Z_scope.

Inductive DataType :=
| type_Int | type_Bool | type_Float | type_Double | type_String | type_Binary | type_OldDateTime | type_Timestamp
| type_OldTable | type_OldMixed | type_Link | type_LinkList.
#[export] Instance data_type_eq_dec : EqDecision DataType.
Proof. solve_decision. Defined.

Record Column := MkColumn {
  c_key : Z; c_name : string; c_type : DataType; c_nullable : bool; c_list : bool;
  c_target : string;  (** the name of the table that a link goes to *)
  c_indexed : bool
}.

Record Table := MkTable { t_key : Z; t_name : string; t_columns : list Column; t_primary : option Z }.

Class Store := {
  Group : Type;
  tables : Group -> list Table;
  add_table : string -> Group -> schema_result Group;
  add_table_with_primary_key : string -> DataType -> string -> bool -> Group -> schema_result Group;
  get_or_add_table : string -> Group -> schema_result Group;
  remove_table : string -> Group -> schema_result Group;
  add_column : string -> DataType -> string -> bool -> Group -> schema_result (Group * Z);
  add_column_list : string -> DataType -> string -> bool -> Group -> schema_result (Group * Z);
  add_column_link : string -> DataType -> string -> string -> Group -> schema_result (Group * Z);
  remove_column : string -> Z -> Group -> schema_result Group;
  rename_column : string -> Z -> string -> Group -> schema_result Group;
  set_nullability : string -> Z -> bool -> bool -> Group -> schema_result (Group * Z);
  add_search_index : string -> Z -> Group -> schema_result Group;
  remove_search_index : string -> Z -> Group -> schema_result Group;
  set_primary_key_column : string -> option Z -> Group -> schema_result Group;
  validate_primary_columns : Group -> schema_result unit;
  create_object_with_int : string -> string -> Z -> Group -> schema_result Group;
  set_int : string -> Z -> string -> Z -> Group -> schema_result Group;
  get_int : string -> Z -> string -> Group -> Z;
  table_is_empty : string -> Group -> bool;
  clear_less_than : string -> Z -> Z -> Group -> schema_result Group;
  set_up_basic_permissions : bool -> Group -> schema_result Group;
  add_user_to_role : string -> string -> Group -> schema_result Group;
  set_class_permissions_for_role : string -> string -> Z -> Group -> schema_result Group;
  find_first_string : string -> Z -> string -> Group -> option Z;
  set_link : string -> Z -> string -> Z -> Group -> schema_result Group
}.

(** [get_table], [get_column_key] and the column with a key. *)
Definition get_table `{Store} (name : string) (g : Group) : option Table := List.find (fun t => bool_decide (t_name t = name)) (tables g).
Definition column_named (name : string) (t : Table) : option Column := List.find (fun c => bool_decide (c_name c = name)) (t_columns t).
Definition column_of_key (key : Z) (t : Table) : option Column := List.find (fun c => bool_decide (c_key c = key)) (t_columns t).

(** ** Names *)

Definition c_object_table_prefix : string := "class_".

(** The characters from the [n]th on. *)
Fixpoint string_drop (n : nat) (s : string) : string :=
  match n, s with S n, String _ s => string_drop n s | _, _ => s end.

Definition object_type_for_table_name (table_name : string) : string :=
  if String.prefix c_object_table_prefix table_name then string_drop (String.length c_object_table_prefix) table_name else "".
Definition table_name_for_object_type (object_type : string) : string := c_object_table_prefix +:+ object_type.

Section store.
Context `{Store}.

Definition table_for_object_type (object_type : string) (g : Group) : option Table := get_table (table_name_for_object_type object_type) g.

(** ** The schema of a group *)

Definition from_core_type (c : Column) : schema_result PropertyType :=
  let flagged k := Fine (MkType k (c_nullable c) (c_list c)) in
  match c_type c with
  | type_Int => flagged Int
  | type_Float => flagged Float
  | type_Double => flagged Double
  | type_Bool => flagged Bool
  | type_String => flagged String_
  | type_Binary => flagged Data
  | type_Timestamp => flagged Date
  | type_OldMixed => flagged Any
  | type_Link => Fine (MkType Object true false)
  | type_LinkList => Fine (MkType Object false true)
  | type_OldDateTime | type_OldTable => Throws SchemaAssertion
  end.

(** The property of a column; [is_primary] is set afterwards. *)
Definition property_of_column (t : Table) (c : Column) : schema_result Property :=
  type ← from_core_type c;
  let is_indexed := c_indexed c || bool_decide (t_primary t = Some (c_key c)) in
  let object_type := if is_kind type Object then object_type_for_table_name (c_target c) else "" in
  Fine (MkProperty (c_name c) "" type object_type "" false is_indexed (c_key c)).

Fixpoint properties_of_columns (t : Table) (columns : list Column) : schema_result (list Property) :=
  match columns with
  | [] => Fine []
  | c :: columns =>
      if String.prefix "!" (c_name c) then properties_of_columns t columns
      else p ← property_of_column t c; ps ← properties_of_columns t columns; Fine (p :: ps)
  end.

Definition get_primary_key_for_object (object_type : string) (g : Group) : string :=
  match table_for_object_type object_type g with
  | Some t => match t_primary t with Some key => default "" (c_name <$> column_of_key key t) | None => "" end
  | None => ""
  end.

(** [ObjectSchema::ObjectSchema(Group const&, StringData, TableKey)]. *)
Definition object_schema_of_table (name : string) (t : Table) (g : Group) : schema_result ObjectSchema :=
  persisted ← properties_of_columns t (t_columns t);
  Fine (set_primary_key_property (MkObject name persisted [] (get_primary_key_for_object name g) (t_key t))).

Fixpoint object_schemas (ts : list Table) (g : Group) : schema_result (list ObjectSchema) :=
  match ts with
  | [] => Fine []
  | t :: ts =>
      let object_type := object_type_for_table_name (t_name t) in
      if empty object_type then object_schemas ts g
      else o ← object_schema_of_table object_type t g; os ← object_schemas ts g; Fine (o :: os)
  end.

Definition schema_from_group (g : Group) : schema_result Schema :=
  types ← object_schemas (tables g) g;
  Fine (make_schema types).

Definition property_for_column_index (t : Table) (c : Column) : schema_result Property :=
  type ← from_core_type c;
  let object_type := if is_kind type Object then object_type_for_table_name (c_target c) else "" in
  Fine (MkProperty (c_name c) "" type object_type "" (bool_decide (t_primary t = Some (c_key c))) (c_indexed c) (c_key c)).

Definition set_object_keys (g : Group) (o : ObjectSchema) : ObjectSchema :=
  match table_for_object_type (o_name o) g with
  | None => o
  | Some t =>
      MkObject (o_name o) ((fun p => with_column_key (default (-1) (c_key <$> column_named (p_name p) t)) p) <$> persisted_properties o)
        (computed_properties o) (primary_key o) (t_key t)
  end.
Definition set_schema_keys (g : Group) (s : Schema) : Schema := set_object_keys g <$> s.

(** [is_empty]. *)
Definition is_empty (g : Group) : bool :=
  forallb (fun t => let object_type := object_type_for_table_name (t_name t) in
                    empty object_type || String.prefix "__" object_type || table_is_empty (t_name t) g) (tables g).

(** ** Columns and tables *)

Definition to_core_type (t : PropertyType) : schema_result DataType :=
  match kind t with
  | Object | Any => Throws SchemaAssertion
  | Int => Fine type_Int
  | Bool => Fine type_Bool
  | Float => Fine type_Float
  | Double => Fine type_Double
  | String_ => Fine type_String
  | Date => Fine type_Timestamp
  | Data => Fine type_Binary
  | LinkingObjects => Throws NoSuchObject
  end.

(** [add_column] for a property of the table with the name; the key is that of the column. *)
Definition add_property_column (table : string) (property : Property) (g : Group) : schema_result (Group * Z) :=
  _ ← schema_assert (negb (is_kind (p_type property) LinkingObjects));
  match (if is_primary property then get_table table g ≫= column_named (p_name property) else None) with
  | Some col => Fine (g, c_key col)
  | None =>
      if is_kind (p_type property) Object then
        let target_name := table_name_for_object_type (object_type property) in
        _ ← schema_assert (bool_decide (is_Some (get_table target_name g)));
        add_column_link table (if is_array (p_type property) then type_LinkList else type_Link) (p_name property) target_name g
      else if is_array (p_type property) then
        type ← to_core_type (without_flags (p_type property));
        add_column_list table type (p_name property) (is_nullable (p_type property)) g
      else
        type ← to_core_type (p_type property);
        '(g, key) ← add_column table type (p_name property) (is_nullable (p_type property)) g;
        g ← (if requires_index property then add_search_index table key g else Fine g);
        Fine (g, key)
  end.

Definition replace_column (table : string) (old_property new_property : Property) (g : Group) : schema_result Group :=
  g ← remove_column table (column_key old_property) g;
  '(g, _) ← add_property_column table new_property g;
  Fine g.

Definition create_table (o : ObjectSchema) (g : Group) : schema_result Group :=
  let name := table_name_for_object_type (o_name o) in
  match primary_key_property o with
  | Some pk_property =>
      match get_table name g with
      | Some _ => Fine g
      | None => type ← to_core_type (p_type pk_property); add_table_with_primary_key name type (p_name pk_property) (is_nullable (p_type pk_property)) g
      end
  | None => get_or_add_table name g
  end.

Definition add_initial_columns (o : ObjectSchema) (g : Group) : schema_result Group :=
  let name := table_name_for_object_type (o_name o) in
  _ ← (match get_table name g with Some _ => Fine tt | None => Throws NoSuchObject end);
  fold_schema (fun prop g => if is_primary prop then Fine g else '(g, _) ← add_property_column name prop g; Fine g) (persisted_properties o) g.

Definition with_type (t : PropertyType) (p : Property) : Property :=
  MkProperty (p_name p) (public_name p) t (object_type p) (link_origin_property_name p) (is_primary p) (is_indexed p) (column_key p).

(** The properties are copies: the key of the column that takes the place of the old one is not
    kept. *)
Definition make_property_optional (table : string) (property : Property) (g : Group) : schema_result Group :=
  '(g, _) ← set_nullability table (column_key property) true false g;
  Fine g.

Definition make_property_required (table : string) (property : Property) (g : Group) : schema_result Group :=
  let property := with_type (without_nullable (p_type property)) property in
  g ← remove_column table (column_key property) g;
  '(g, _) ← add_property_column table property g;
  Fine g.

Definition set_primary_key_for_object (object_type primary_key : string) (g : Group) : schema_result Group :=
  match table_for_object_type object_type g with
  | None => Throws NoSuchObject
  | Some t =>
      if empty primary_key then set_primary_key_column (t_name t) None g
      else match column_named primary_key t with
           | None => Throws SchemaAssertion
           | Some col => set_primary_key_column (t_name t) (Some (c_key col)) g
           end
  end.

(** ** Versions *)

Definition NotVersioned : Z := 2 ^ 64 - 1.
Definition c_metadataTableName : string := "metadata".
Definition c_versionColumnName : string := "version".

(** The conversion of [uint64_t] to [int64_t] and back. *)
Definition to_int64 (v : Z) : Z := let u := v mod 2 ^ 64 in if u <? 2 ^ 63 then u else u - 2 ^ 64.

Definition create_metadata_tables (g : Group) : schema_result Group :=
  g ← get_or_add_table c_metadataTableName g;
  match get_table c_metadataTableName g with
  | None => Throws NoSuchObject
  | Some t =>
      if bool_decide (t_columns t = []) then
        '(g, _) ← add_column c_metadataTableName type_Int c_versionColumnName false g;
        create_object_with_int c_metadataTableName c_versionColumnName (to_int64 NotVersioned) g
      else Fine g
  end.

Definition put_schema_version (version : Z) (g : Group) : schema_result Group :=
  match get_table c_metadataTableName g with
  | None => Throws NoSuchObject
  | Some _ => set_int c_metadataTableName 0 c_versionColumnName (to_int64 version) g
  end.

Definition set_schema_version (version : Z) (g : Group) : schema_result Group :=
  g ← create_metadata_tables g;
  put_schema_version version g.

Definition get_schema_version (g : Group) : Z :=
  match get_table c_metadataTableName g with
  | None => NotVersioned
  | Some t => if bool_decide (t_columns t = []) then NotVersioned else u64 (get_int c_metadataTableName 0 c_versionColumnName g)
  end.
End store.
