(* ===== verification/SchemaApply.v ===== *)
(** The application of schema changes to a group, [object_store.cpp]: what each pass does with
    each change, [apply_schema_changes] itself, [rename_property], and the permissions that a
    partially synchronized file gets ([partial_sync.cpp]).

    A pass that throws leaves a group that its caller gives up: the write transaction is
    cancelled, so [Throws] holds no group. *)

From S2P Require Import Prelude SchemaData SchemaValidation SchemaChanges SchemaStore.
#[local] Open Scope Z_scope.

Inductive SchemaMode := Automatic | Immutable | ReadOnlyAlternative | ResetFile | Additive | Manual.

#[export] Instance SchemaMode_eq_dec : EqDecision SchemaMode.
Proof. solve_decision. Defined.

Inductive DidRereadSchema := Yes | No.

Section apply.
Context `{Store}.
Context (char_is_signed : bool).

(** ** The passes *)

(** [TableHelper]: the table of a type, which it asserts to exist; the name of it here. *)
Definition table_of (o : ObjectSchema) (g : Group) : schema_result string :=
  match table_for_object_type (o_name o) g with
  | Some t => Fine (t_name t)
  | None => Throws SchemaAssertion
  end.

Definition on_table (o : ObjectSchema) (op : string -> Group -> schema_result Group) (g : Group) : schema_result Group :=
  t ← table_of o g; op t g.

Definition add_property (o : ObjectSchema) (p : Property) : Group -> schema_result Group :=
  on_table o (fun t g => '(g, _) ← add_property_column t p g; Fine g).
Definition add_index (o : ObjectSchema) (p : Property) : Group -> schema_result Group :=
  on_table o (fun t g => add_search_index t (column_key p) g).
Definition remove_index (o : ObjectSchema) (p : Property) : Group -> schema_result Group :=
  on_table o (fun t g => remove_search_index t (column_key p) g).

(** [apply_non_migration_changes]: the changes are made while the errors are collected. *)
Definition non_migration_change (change : SchemaChange) (st : Group * list message) : schema_result (Group * list message) :=
  let '(g, errors) := st in
  match change with
  | AddTable o => g ← create_table o g; Fine (g, errors)
  | AddInitialProperties o => g ← add_initial_columns o g; Fine (g, errors)
  | AddIndex o p => g ← add_index o p g; Fine (g, errors)
  | RemoveIndex o p => g ← remove_index o p g; Fine (g, errors)
  | _ => Fine (g, (errors ++ explain change)%list)
  end.

Definition apply_non_migration_changes (changes : list SchemaChange) (g : Group) : schema_result Group :=
  '(g, errors) ← fold_schema non_migration_change changes (g, []);
  if decide (errors = []) then Fine g else Throws (SchemaMismatchException errors).

Definition initial_change (change : SchemaChange) (g : Group) : schema_result Group :=
  match change with
  | AddTable o => create_table o g
  | RemoveTable _ => Fine g
  | AddInitialProperties o => add_initial_columns o g
  | AddProperty o p => add_property o p g
  | RemoveProperty o p => on_table o (fun t g => remove_column t (column_key p) g) g
  | MakePropertyNullable o p => on_table o (fun t g => make_property_optional t p g) g
  | MakePropertyRequired o p => on_table o (fun t g => make_property_required t p g) g
  | ChangePrimaryKey o p => set_primary_key_for_object (o_name o) (match p with Some p => p_name p | None => ""%string end) g
  | AddIndex o p => add_index o p g
  | RemoveIndex o p => remove_index o p g
  | ChangePropertyType o old_property new_property => on_table o (fun t g => replace_column t old_property new_property g) g
  end.
Definition create_initial_tables (changes : list SchemaChange) (g : Group) : schema_result Group := fold_schema initial_change changes g.

Definition additive_change (update_indexes : bool) (change : SchemaChange) (g : Group) : schema_result Group :=
  match change with
  | AddTable o => create_table o g
  | AddInitialProperties o => add_initial_columns o g
  | AddProperty o p => add_property o p g
  | AddIndex o p => if update_indexes then add_index o p g else Fine g
  | RemoveIndex o p => if update_indexes then remove_index o p g else Fine g
  | RemoveTable _ | RemoveProperty _ _ | ChangePrimaryKey _ _ | ChangePropertyType _ _ _ | MakePropertyNullable _ _ | MakePropertyRequired _ _ => Fine g
  end.
Definition apply_additive_changes (changes : list SchemaChange) (update_indexes : bool) (g : Group) : schema_result Group :=
  fold_schema (additive_change update_indexes) changes g.

Definition pre_migration_change (change : SchemaChange) (g : Group) : schema_result Group :=
  match change with
  | AddTable o => create_table o g
  | RemoveTable _ => Fine g
  | AddInitialProperties o => add_initial_columns o g
  | AddProperty o p => add_property o p g
  | RemoveProperty _ _ => Fine g
  | ChangePropertyType o old_property new_property => on_table o (fun t g => replace_column t old_property new_property g) g
  | MakePropertyNullable o p => on_table o (fun t g => make_property_optional t p g) g
  | MakePropertyRequired o p => on_table o (fun t g => make_property_required t p g) g
  | ChangePrimaryKey o p => on_table o (fun t g => set_primary_key_column t None g) g
  | AddIndex o p => add_index o p g
  | RemoveIndex o p => remove_index o p g
  end.
Definition apply_pre_migration_changes (changes : list SchemaChange) (g : Group) : schema_result Group :=
  fold_schema pre_migration_change changes g.

(** The removal of a property after a migration: it is an error to remove one that the migration
    made.  The type that a change holds is not in [initial_schema] where the migration made the
    table. *)
Definition remove_migrated_property (initial_schema : Schema) (o : ObjectSchema) (p : Property) (g : Group) : schema_result Group :=
  let missing := ("Renamed property '%1.%2' does not exist.", [o_name o; p_name p])%string in
  _ ← (if decide (initial_schema = []) then Fine tt
       else match schema_find char_is_signed initial_schema (o_name o) with
            | None => Throws NoSuchObject
            | Some initial => match property_for_name initial (p_name p) with Some _ => Fine tt | None => Throws (logic_error missing) end
            end);
  match table_for_object_type (o_name o) g with
  | Some t => remove_column (t_name t) (column_key p) g
  | None => Throws NoSuchObject
  end.

Definition post_migration_change (initial_schema : Schema) (did_reread_schema : DidRereadSchema) (change : SchemaChange) (g : Group)
  : schema_result Group :=
  match change with
  | RemoveProperty o p => remove_migrated_property initial_schema o p g
  | ChangePrimaryKey o p =>
      match table_for_object_type (o_name o) g with
      | None => Throws SchemaAssertion
      | Some t =>
          match p with
          | Some p =>
              match column_named (p_name p) t with
              | Some col => set_primary_key_column (t_name t) (Some (c_key col)) g
              | None => Throws SchemaAssertion
              end
          | None => set_primary_key_column (t_name t) None g
          end
      end
  | AddTable o => create_table o g
  | AddInitialProperties o => match did_reread_schema with Yes => add_initial_columns o g | No => Fine g end
  | AddIndex o p => add_index o p g
  | RemoveIndex o p => remove_index o p g
  | RemoveTable _ | ChangePropertyType _ _ _ | MakePropertyNullable _ _ | MakePropertyRequired _ _ | AddProperty _ _ => Fine g
  end.
Definition apply_post_migration_changes (changes : list SchemaChange) (initial_schema : Schema) (did_reread_schema : DidRereadSchema)
  (g : Group) : schema_result Group := fold_schema (post_migration_change initial_schema did_reread_schema) changes g.

(** ** Partial synchronization *)

Definition result_sets_type_name : string := "__ResultSets".
Definition property_expires_at : string := "expires_at".

Definition s_partial_sync_schema : list (string * DataType * bool * bool) :=
  [("query", type_String, false, false); ("matches_property", type_String, false, false); ("status", type_Int, false, false);
   ("error_message", type_String, false, false); ("query_parse_counter", type_Int, false, false); ("name", type_String, false, true);
   ("created_at", type_Timestamp, false, false); ("updated_at", type_Timestamp, false, false); ("time_to_live", type_Int, true, false);
   (property_expires_at, type_Timestamp, true, false)]%string.

Definition cleanup_subscriptions (now : Z) (g : Group) : schema_result Group :=
  match table_for_object_type result_sets_type_name g with
  | Some t => clear_less_than (t_name t) (default (-1) (c_key <$> column_named property_expires_at t)) now g
  | None => Throws NoSuchObject
  end.

Definition add_partial_sync_column (property : string * DataType * bool * bool) (g : Group) : schema_result Group :=
  let '(name, type, nullable, indexed) := property in
  let table := table_name_for_object_type result_sets_type_name in
  match get_table table g with
  | None => Throws NoSuchObject
  | Some t =>
      match column_named name t with
      | Some _ => Fine g
      | None => '(g, key) ← add_column table type name nullable g; if indexed : bool then add_search_index table key g else Fine g
      end
  end.

Definition initialize_schema (now : Z) (g : Group) : schema_result Group :=
  g ← (match get_table (table_name_for_object_type result_sets_type_name) g with
       | Some _ => Fine g
       | None => get_or_add_table (table_name_for_object_type result_sets_type_name) g
       end);
  g ← fold_schema add_partial_sync_column s_partial_sync_schema g;
  cleanup_subscriptions now g.

(** [ComputedPrivileges::All]. *)
Definition All_privileges : Z := Z.shiftl 1 7 - 1.

Definition ensure_private_role_exists_for_user (sync_user_id : string) (g : Group) : schema_result Group :=
  let private_role_name := ("__User:" +:+ sync_user_id)%string in
  let column type name g := match table_for_object_type type g with Some t => Fine (default (-1) (c_key <$> column_named name t)) | None => Throws NoSuchObject end in
  let roles := table_name_for_object_type "__Role" in
  let users := table_name_for_object_type "__User" in
  role_name ← column "__Role"%string "name"%string g;
  match find_first_string roles role_name private_role_name g with
  | Some _ => Fine g
  | None =>
      g ← add_user_to_role sync_user_id private_role_name g;
      role_name ← column "__Role"%string "name"%string g;
      user_id ← column "__User"%string "id"%string g;
      match find_first_string users user_id sync_user_id g with
      | Some user => set_link users user "role" (default (-1) (find_first_string roles role_name private_role_name g)) g
      | None => Throws StoreException
      end
  end.

Definition create_default_permissions (now : Z) (changes : list SchemaChange) (sync_user_id : string) (g : Group) : schema_result Group :=
  g ← initialize_schema now g;
  g ← set_up_basic_permissions true g;
  g ← add_user_to_role sync_user_id "everyone" g;
  g ← ensure_private_role_exists_for_user sync_user_id g;
  fold_schema (fun change g => match change with
    | AddTable o => set_class_permissions_for_role (o_name o) "everyone" All_privileges g
    | _ => Fine g
    end) changes g.

(** ** [apply_schema_changes] *)

(** [now] is the clock, which only partial synchronization looks at.  A migration function works
    on the group and on the target schema. *)
Definition apply_schema_changes (now : Z) (schema_version : Z) (target_schema : Schema) (target_schema_version : Z) (mode : SchemaMode)
  (changes : list SchemaChange) (sync_user_id : option string)
  (migration_function : option (Group -> Schema -> schema_result (Group * Schema))) (g : Group) : schema_result (Group * Schema) :=
  g ← create_metadata_tables g;
  if decide (mode = Additive) then
    let target_schema_is_newer := (schema_version <? target_schema_version) || (schema_version =? NotVersioned) in
    let update_indexes := true in
    g ← apply_additive_changes changes update_indexes g;
    g ← (if target_schema_is_newer then put_schema_version target_schema_version g else Fine g);
    g ← (match sync_user_id with Some id => create_default_permissions now changes id g | None => Fine g end);
    Fine (g, set_schema_keys g target_schema)
  else if schema_version =? NotVersioned then
    g ← create_initial_tables changes g;
    g ← put_schema_version target_schema_version g;
    Fine (g, set_schema_keys g target_schema)
  else if decide (mode = Manual) then
    let target_schema := set_schema_keys g target_schema in
    '(g, target_schema) ← (match migration_function with Some f => f g target_schema | None => Fine (g, target_schema) end);
    schema ← schema_from_group g;
    _ ← verify_no_changes_required (compare schema target_schema false);
    _ ← validate_primary_columns g;
    let target_schema := set_schema_keys g target_schema in
    g ← put_schema_version target_schema_version g;
    Fine (g, target_schema)
  else if schema_version =? target_schema_version then
    g ← apply_non_migration_changes changes g;
    Fine (g, set_schema_keys g target_schema)
  else
    old_schema ← schema_from_group g;
    g ← apply_pre_migration_changes changes g;
    '(g, target_schema) ← (match migration_function with
      | Some f =>
          '(g, target_schema) ← f g (set_schema_keys g target_schema);
          schema ← schema_from_group g;
          g ← apply_post_migration_changes (compare schema target_schema false) old_schema Yes g;
          _ ← validate_primary_columns g;
          Fine (g, target_schema)
      | None =>
          g ← apply_post_migration_changes changes [] No g;
          Fine (g, target_schema)
      end);
    g ← put_schema_version target_schema_version g;
    Fine (g, set_schema_keys g target_schema).

(** ** What a migration function calls *)

Definition delete_data_for_object (object_type : string) (g : Group) : schema_result Group :=
  match table_for_object_type object_type g with
  | Some t => g ← set_primary_key_for_object object_type "" g; remove_table (t_name t) g
  | None => Fine g
  end.

Definition rename_property (object_type_name old_name new_name : string) (g : Group) (target_schema : Schema) : schema_result (Group * Schema) :=
  match table_for_object_type object_type_name g with
  | None => Throws (logic_error ("Cannot rename properties for type '%1' because it does not exist.", [object_type_name])%string)
  | Some table =>
  match schema_find char_is_signed target_schema object_type_name with
  | None => Throws (logic_error ("Cannot rename properties for type '%1' because it has been removed from the Realm.", [object_type_name])%string)
  | Some target_object_schema =>
  match property_for_name target_object_schema old_name with
  | Some _ => Throws (logic_error ("Cannot rename property '%1.%2' to '%3' because the source property still exists.",
                                   [object_type_name; old_name; new_name])%string)
  | None =>
  table_object_schema ← object_schema_of_table object_type_name table g;
  match property_for_name table_object_schema old_name with
  | None => Throws (logic_error ("Cannot rename property '%1.%2' because it does not exist.", [object_type_name; old_name])%string)
  | Some old_property =>
  match property_for_name table_object_schema new_name with
  | None => g ← rename_column (t_name table) (column_key old_property) new_name g; Fine (g, target_schema)
  | Some new_property =>
  if negb (same_kind (p_type old_property) (p_type new_property)) || negb (bool_decide (object_type old_property = object_type new_property))
  then Throws (logic_error ("Cannot rename property '%1.%2' to '%3' because it would change from type '%4' to '%5'.",
                            [object_type_name; old_name; new_name; type_string old_property; type_string new_property])%string)
  else if is_nullable (p_type old_property) && negb (is_nullable (p_type new_property))
  then Throws (logic_error ("Cannot rename property '%1.%2' to '%3' because it would change from optional to required.",
                            [object_type_name; old_name; new_name])%string)
  else
    g ← remove_column (t_name table) (column_key new_property) g;
    g ← rename_column (t_name table) (column_key old_property) new_name g;
    let target_schema := update_first (fun o => bool_decide (o_name o = object_type_name))
                           (update_property new_name (with_column_key (column_key old_property))) target_schema in
    g ← (if is_nullable (p_type new_property) && negb (is_nullable (p_type old_property))
         then make_property_optional (t_name table) (with_column_key (column_key old_property) new_property) g else Fine g);
    Fine (g, target_schema)
  end end end end end.
End apply.
