(* ===== verification/SchemaUpdate.v ===== *)
(** What a Realm does with a schema, [shared_realm.cpp]: whether the file must be written, in
    which modes that is refused, and [update_schema] and [set_schema_subset] themselves.

    [promote] is [promote_to_write], which may advance the Realm to a version with another
    schema and says if it did; [recreate] is the empty group of the file that [reset_file]
    makes; [cached] is the full schema of the coordinator, where that is the one of the
    current version. *)

From S2P Require Import Prelude SchemaData SchemaValidation SchemaChanges SchemaStore SchemaApply.
#[local] Open Scope Z_scope.

(** ** Whether to write *)

Inductive write_decision := no_write | write | reset_and_write.

Definition schema_change_needs_write_transaction (mode : SchemaMode) (m_schema_version : Z) (changes : list SchemaChange) (version : Z)
  : schema_result write_decision :=
  if (version =? m_schema_version) && bool_decide (changes = []) then Fine no_write
  else
    let too_old := (version <? m_schema_version) && negb (m_schema_version =? NotVersioned) in
    let read_only := _ ← verify_compatible_for_immutable_and_readonly changes; Fine no_write in
    match mode with
    | Automatic => if too_old then Throws (InvalidSchemaVersionException m_schema_version version) else Fine write
    | Immutable => if negb (version =? m_schema_version) then Throws (InvalidSchemaVersionException m_schema_version version) else read_only
    | ReadOnlyAlternative => read_only
    | ResetFile =>
        if m_schema_version =? NotVersioned then Fine write
        else if (m_schema_version =? version) && negb (needs_migration changes) then Fine write
        else Fine reset_and_write
    | Additive =>
        let will_apply_index_changes := m_schema_version <? version in
        needed ← verify_valid_additive_changes changes will_apply_index_changes;
        if needed : bool then Fine write else Fine (if version =? m_schema_version then no_write else write)
    | Manual =>
        if too_old then Throws (InvalidSchemaVersionException m_schema_version version)
        else if version =? m_schema_version then _ ← verify_no_changes_required changes; Throws SchemaAssertion
        else Fine write
    end.

Section realm.
Context `{Store}.
Context (char_is_signed : bool) (mode : SchemaMode).

Record RealmState := MkRealm {
  m_group : Group;
  m_schema : Schema;
  m_schema_version : Z;
  m_dynamic_schema : bool
}.

(** [set_schema]. *)
Definition set_schema (reference schema : Schema) (r : RealmState) : RealmState :=
  MkRealm (m_group r) (copy_keys_from schema reference) (m_schema_version r) false.

Definition set_schema_subset (schema : Schema) (r : RealmState) : schema_result RealmState :=
  _ ← schema_assert (m_dynamic_schema r);
  _ ← schema_assert (negb (m_schema_version r =? NotVersioned));
  let changes := compare (m_schema r) schema false in
  _ ← (match mode with
       | Automatic | ResetFile => verify_no_migration_required changes
       | Immutable | ReadOnlyAlternative => verify_compatible_for_immutable_and_readonly changes
       | Additive => _ ← verify_valid_additive_changes changes false; Fine tt
       | Manual => verify_no_changes_required changes
       end);
  Fine (set_schema (m_schema r) schema r).

Definition get_full_schema (cached : option Schema) (r : RealmState) : schema_result Schema :=
  if m_dynamic_schema r then Fine (m_schema r)
  else if decide (mode = Immutable) then schema_from_group (m_group r)
  else match cached with Some schema => Fine schema | None => schema_from_group (m_group r) end.

(** [add_schema_change_handler]: the schema of the file has changed. *)
Definition schema_changed (r : RealmState) : schema_result (RealmState * Schema) :=
  new_schema ← schema_from_group (m_group r);
  Fine (MkRealm (m_group r) (if m_dynamic_schema r then new_schema else copy_keys_from (m_schema r) new_schema)
          (get_schema_version (m_group r)) (m_dynamic_schema r), new_schema).

(** [reset_file]; the changes that the new file needs. *)
Definition reset_file (recreate : Group) (schema : Schema) (r : RealmState) : schema_result (RealmState * list SchemaChange) :=
  s ← schema_from_group recreate;
  Fine (MkRealm recreate s (get_schema_version recreate) (m_dynamic_schema r), compare s schema false).

Definition decide_write (recreate : Group) (schema : Schema) (changes : list SchemaChange) (version : Z) (r : RealmState)
  : schema_result (bool * RealmState * list SchemaChange) :=
  decision ← schema_change_needs_write_transaction mode (m_schema_version r) changes version;
  match decision with
  | no_write => Fine (false, r, changes)
  | write => Fine (true, r, changes)
  | reset_and_write => '(r, changes) ← reset_file recreate schema r; Fine (true, r, changes)
  end.

(** The part of [update_schema] inside the write transaction. *)
Definition write_schema (now : Z) (schema : Schema) (version : Z) (required_changes : list SchemaChange) (sync_user_id : option string)
  (migration_function : option (Group -> Schema -> schema_result (Group * Schema)))
  (initialization_function : option (Group -> schema_result Group)) (r : RealmState) : schema_result RealmState :=
  let old_schema_version := m_schema_version r in
  '(g, schema) ←
    (match migration_function with
     | Some f =>
         if decide (mode = Additive)
         then apply_schema_changes char_is_signed now (m_schema_version r) schema version mode required_changes sync_user_id None (m_group r)
         else apply_schema_changes char_is_signed now (m_schema_version r) schema version mode required_changes None (Some f) (m_group r)
     | None => apply_schema_changes char_is_signed now (m_schema_version r) schema version mode required_changes sync_user_id None (m_group r)
     end);
  g ← (match initialization_function with
       | Some f => if old_schema_version =? NotVersioned then f g else Fine g
       | None => Fine g
       end);
  Fine (MkRealm g schema (get_schema_version g) false).

Definition update_schema (now : Z) (promote : Group -> Group * bool) (recreate : Group) (cached : option Schema) (in_transaction : bool)
  (schema : Schema) (version : Z) (sync_user_id : option string)
  (migration_function : option (Group -> Schema -> schema_result (Group * Schema)))
  (initialization_function : option (Group -> schema_result Group)) (r : RealmState) : schema_result RealmState :=
  _ ← (let errors := validate char_is_signed schema in
       if decide (errors = []) then Fine tt else Throws (SchemaValidationException errors));
  actual_schema ← get_full_schema cached r;
  '(needed, r, required_changes) ← decide_write recreate schema (compare actual_schema schema false) version r;
  let apply changes r := write_schema now schema version changes sync_user_id migration_function initialization_function r in
  if negb needed then Fine (set_schema actual_schema schema r)
  else if in_transaction then apply required_changes r
  else
    let '(g, changed) := promote (m_group r) in
    let r := MkRealm g (m_schema r) (m_schema_version r) (m_dynamic_schema r) in
    if changed : bool then
      '(r, actual_schema) ← schema_changed r;
      '(needed, r, required_changes) ← decide_write recreate schema (compare actual_schema schema false) version r;
      if negb needed then Fine (set_schema actual_schema schema r)
      else apply required_changes r
    else apply required_changes r.
(** [read_schema_from_group_if_needed]; [up_to_date] is that [m_schema_transaction_version] is the
    version that is read. *)
Definition read_schema_from_group_if_needed (up_to_date : bool) (r : RealmState) : schema_result RealmState :=
  if decide (mode = Immutable) then
    if decide (m_schema r = []) then
      schema ← schema_from_group (m_group r);
      Fine (MkRealm (m_group r) schema (get_schema_version (m_group r)) (m_dynamic_schema r))
    else Fine r
  else if up_to_date then Fine r
  else
    schema ← schema_from_group (m_group r);
    let read s := MkRealm (m_group r) s (get_schema_version (m_group r)) (m_dynamic_schema r) in
    if m_dynamic_schema r then
      Fine (read (if schema_eq (m_schema r) schema then copy_keys_from (m_schema r) schema else schema))
    else
      _ ← verify_valid_external_changes (compare (m_schema r) schema false);
      Fine (read (copy_keys_from (m_schema r) schema)).

(** [translate_schema_error]: [newest] is the group of the newest version, [e] the exception that
    is being handled. *)
Definition translate_schema_error (newest : Group) (e : SchemaError) (r : RealmState) : schema_result unit :=
  new_schema ← schema_from_group newest;
  _ ← verify_valid_external_changes (compare (m_schema r) new_schema true);
  Throws e.
End realm.
