(* ===== verification/SchemaLaws.v ===== *)
(** What the object store relies on from groups and tables, the documented behaviour of
    [group.hpp] and [table.hpp], as laws on what a group holds: each operation that succeeds
    changes the columns of one name in one table, and nothing else that can be looked up.

    A table is created with a name that no table has, a column with a name that no column of its
    table has; [set_nullability] may give the column another key; an index is put on a column of
    a type that can have one, and not taken from the primary key.  Where the documentation is
    silent (the key of a new table or column, whether the column of a primary key has an index
    of its own) the laws say nothing. *)

From S2P Require Import Prelude SchemaData SchemaValidation SchemaChanges SchemaStore.
#[local] Open Scope Z_scope.

(** ** Groups that are well formed *)

Record table_wf (t : Table) : Prop := {
  wf_names : NoDup (c_name <$> t_columns t);
  wf_keys : NoDup (c_key <$> t_columns t);
  wf_primary : forall k, t_primary t = Some k -> exists c, c ∈ t_columns t /\ c_key c = k /\ c_name c <> ""%string
}.

Definition tables_wf (ts : list Table) : Prop := NoDup (t_name <$> ts) /\ forall t, t ∈ ts -> table_wf t.

Definition with_nullability (nullable : bool) (key : Z) (c : Column) : Column :=
  MkColumn key (c_name c) (c_type c) nullable (c_list c) (c_target c) (c_indexed c).
Definition with_index (indexed : bool) (c : Column) : Column :=
  MkColumn (c_key c) (c_name c) (c_type c) (c_nullable c) (c_list c) (c_target c) indexed.

(** The types of the columns that [add_column] and [add_column_list] are called with, and of
    those that can have an index. *)
Definition plain_type (ty : DataType) : Prop :=
  ty ∈ [type_Int; type_Bool; type_Float; type_Double; type_String; type_Binary; type_Timestamp].
Definition indexable_type (ty : DataType) : Prop := ty ∈ [type_Int; type_Bool; type_String; type_Timestamp].
Definition primary_key_type (ty : DataType) : Prop := ty ∈ [type_Int; type_String].

Section relations.
Context `{Store}.

(** All that can be looked up outside of the table. *)
Definition elsewhere (T : string) (g g' : Group) : Prop :=
  forall T', T' <> T -> get_table T' g' = get_table T' g /\ table_is_empty T' g' = table_is_empty T' g /\
    forall i col, get_int T' i col g' = get_int T' i col g.

(** The columns named [n] of the table change to [c]. *)
Definition column_set (T n : string) (c : option Column) (g g' : Group) : Prop :=
  elsewhere T g g' /\ table_is_empty T g' = table_is_empty T g /\ exists t t', get_table T g = Some t /\ get_table T g' = Some t' /\ t_key t' = t_key t /\ t_primary t' = t_primary t /\
    column_named n t' = c /\ forall m, m <> n -> column_named m t' = column_named m t.
End relations.

Class StoreSpec `{Store} := {
  group_ok : Group -> Prop;
  table_name_ok : string -> Prop;
  column_name_ok : string -> Prop;
  ok_wf g : group_ok g -> tables_wf (tables g);
  get_or_add_existing name t g : group_ok g -> get_table name g = Some t -> get_or_add_table name g = Fine g;
  get_or_add_new name g : group_ok g -> table_name_ok name -> get_table name g = None ->
    exists g' k, get_or_add_table name g = Fine g' /\ group_ok g' /\ elsewhere name g g' /\
      get_table name g' = Some (MkTable k name [] None) /\ table_is_empty name g' = true;
  add_with_primary_key name ty pk nullable g : group_ok g -> table_name_ok name -> column_name_ok pk -> pk <> ""%string ->
    primary_key_type ty -> get_table name g = None ->
    exists g' k ck indexed, add_table_with_primary_key name ty pk nullable g = Fine g' /\ group_ok g' /\ elsewhere name g g' /\
      get_table name g' = Some (MkTable k name [MkColumn ck pk ty nullable false "" indexed] (Some ck));
  add_column_new T ty n nullable t g : group_ok g -> get_table T g = Some t -> column_name_ok n -> plain_type ty -> column_named n t = None ->
    exists g' k, add_column T ty n nullable g = Fine (g', k) /\ group_ok g' /\
      column_set T n (Some (MkColumn k n ty nullable false "" false)) g g';
  add_column_list_new T ty n nullable t g : group_ok g -> get_table T g = Some t -> column_name_ok n -> plain_type ty -> column_named n t = None ->
    exists g' k, add_column_list T ty n nullable g = Fine (g', k) /\ group_ok g' /\
      column_set T n (Some (MkColumn k n ty nullable true "" false)) g g';
  add_column_link_new T ty n target t g : group_ok g -> get_table T g = Some t -> column_name_ok n -> ty = type_Link \/ ty = type_LinkList ->
    is_Some (get_table target g) -> column_named n t = None ->
    exists g' k nullable is_list, add_column_link T ty n target g = Fine (g', k) /\ group_ok g' /\
      column_set T n (Some (MkColumn k n ty nullable is_list target false)) g g';
  remove_column_law T c t g : group_ok g -> get_table T g = Some t -> column_named (c_name c) t = Some c -> t_primary t <> Some (c_key c) ->
    exists g', remove_column T (c_key c) g = Fine g' /\ group_ok g' /\ column_set T (c_name c) None g g';
  set_nullability_law T c nullable t g : group_ok g -> get_table T g = Some t -> column_named (c_name c) t = Some c ->
    t_primary t <> Some (c_key c) -> c_type c <> type_Link -> c_type c <> type_LinkList ->
    exists g' k, set_nullability T (c_key c) nullable false g = Fine (g', k) /\ group_ok g' /\
      column_set T (c_name c) (Some (with_nullability nullable k c)) g g';
  add_search_index_law T c t g : group_ok g -> get_table T g = Some t -> column_named (c_name c) t = Some c ->
    indexable_type (c_type c) -> c_list c = false ->
    exists g', add_search_index T (c_key c) g = Fine g' /\ group_ok g' /\ column_set T (c_name c) (Some (with_index true c)) g g';
  remove_search_index_law T c t g : group_ok g -> get_table T g = Some t -> column_named (c_name c) t = Some c -> t_primary t <> Some (c_key c) ->
    exists g', remove_search_index T (c_key c) g = Fine g' /\ group_ok g' /\ column_set T (c_name c) (Some (with_index false c)) g g';
  create_object_law T col v t c g : group_ok g -> get_table T g = Some t -> column_named col t = Some c -> c_type c = type_Int ->
    c_nullable c = false -> table_is_empty T g = true ->
    exists g', create_object_with_int T col v g = Fine g' /\ group_ok g' /\ elsewhere T g g' /\ get_table T g' = Some t /\
      table_is_empty T g' = false /\ get_int T 0 col g' = v;
  set_int_law T col v t c g : group_ok g -> get_table T g = Some t -> column_named col t = Some c -> c_type c = type_Int ->
    c_nullable c = false -> table_is_empty T g = false ->
    exists g', set_int T 0 col v g = Fine g' /\ group_ok g' /\ elsewhere T g g' /\ get_table T g' = Some t /\
      table_is_empty T g' = false /\ get_int T 0 col g' = v;
  metadata_name_ok : table_name_ok c_metadataTableName;
  version_name_ok : column_name_ok c_versionColumnName
}.
