(* ===== verification/SchemaRead.v ===== *)
(** What the object store reads from a group: the types and properties of [schema_from_group], by
    the tables and columns they stand for; when a column fits a property; and what
    [Schema::compare] makes of a schema that was read: no change exactly where the columns of every
    type fit its properties. *)

From S2P Require Import Prelude SchemaData SchemaValidation SchemaChanges SchemaStore SchemaLaws.
#[local] Open Scope Z_scope.

(** ** Lookup by a key that no two elements share *)

Section find.
Context {A B : Type} `{EqDecision B} (f : A -> B).

Lemma find_key_sound (l : list A) k x : List.find (fun a => bool_decide (f a = k)) l = Some x -> x ∈ l /\ f x = k.
Proof. intros [Hin E]%find_some. apply bool_decide_eq_true in E. by rewrite <- list_elem_of_In in Hin. Qed.

Lemma find_key (l : list A) k x : NoDup (f <$> l) -> List.find (fun a => bool_decide (f a = k)) l = Some x <-> x ∈ l /\ f x = k.
Proof.
  intros Hn. split; [apply find_key_sound|]. intros [Hx <-]. induction l as [|y l IH]; [by apply not_elem_of_nil in Hx|].
  apply NoDup_cons in Hn as [Hy Hn]. cbn. case_bool_decide as E.
  - apply elem_of_cons in Hx as [->|Hx]; [done|]. exfalso. apply Hy. rewrite E. by apply list_elem_of_fmap_2.
  - apply elem_of_cons in Hx as [->|Hx]; [done|]. by apply IH.
Qed.

Lemma find_key_none (l : list A) k : List.find (fun a => bool_decide (f a = k)) l = None <-> k ∉ f <$> l.
Proof.
  induction l as [|y l IH]; [split; [intros _; apply not_elem_of_nil|done]|]. cbn. rewrite elem_of_cons. case_bool_decide as E.
  - split; [done|]. intros Hk. exfalso. apply Hk. by left.
  - rewrite IH. split; [intros ? [?|?]; [by apply E|done]|tauto].
Qed.

Lemma same_key (l : list A) x y : NoDup (f <$> l) -> x ∈ l -> y ∈ l -> f x = f y -> x = y.
Proof.
  intros Hn Hx Hy E. pose proof (proj2 (find_key l (f x) x Hn) (conj Hx eq_refl)) as E1.
  pose proof (proj2 (find_key l (f x) y Hn) (conj Hy (eq_sym E))) as E2. congruence.
Qed.
End find.

Lemma update_first_elem {A} (test : A -> bool) (g : A -> A) (l : list A) y :
  (forall a b, a ∈ l -> b ∈ l -> test a = true -> test b = true -> a = b) -> NoDup l ->
  y ∈ update_first test g l <-> exists x, x ∈ l /\ y = if test x then g x else x.
Proof.
  induction l as [|x l IH]; intros Ht Hn.
  { cbn. split; [by intros Hy%not_elem_of_nil|]. by intros (x & Hx%not_elem_of_nil & _). }
  apply NoDup_cons in Hn as [Hx Hn]. cbn. destruct (test x) eqn:E.
  - rewrite elem_of_cons. split.
    + intros [->|Hy]; [exists x; rewrite E; split; [left|done]|]. exists y. split; [by right|]. destruct (test y) eqn:Ey; [|done].
      exfalso. apply Hx. rewrite (Ht x y); [done|left|by right|done|done].
    + intros (z & [->|Hz]%elem_of_cons & ->); [rewrite E; by left|]. destruct (test z) eqn:Ez; [|by right].
      exfalso. apply Hx. rewrite (Ht x z); [done|left|by right|done|done].
  - rewrite elem_of_cons, IH by (done || (intros a b Ha Hb; apply Ht; by right)). split.
    + intros [->|(z & Hz & ->)]; [exists x; rewrite E; split; [left|done]|]. exists z. split; [by right|done].
    + intros (z & [->|Hz]%elem_of_cons & ->); [rewrite E; by left|]. right. by exists z.
Qed.

(** ** Names *)

Lemma object_type_of_table_name n : object_type_for_table_name (table_name_for_object_type n) = n.
Proof.
  unfold object_type_for_table_name, table_name_for_object_type. cbn. by destruct n.
Qed.

Lemma table_name_of_object_type name : object_type_for_table_name name <> ""%string -> table_name_for_object_type (object_type_for_table_name name) = name.
Proof.
  unfold object_type_for_table_name. destruct (String.prefix c_object_table_prefix name) eqn:E; [|done]. intros _.
  assert (forall a s, String.prefix a s = true -> (a +:+ string_drop (String.length a) s)%string = s) as Hp; [|by apply Hp].
  clear. intros a. induction a as [|x a IH]; intros s; [by destruct s|]. destruct s as [|y s]; [done|]. cbn.
  destruct (Ascii.ascii_dec x y) as [->|]; [|done]. intros Hp. change (String y (a +:+ string_drop (String.length a) s) = String y s). by rewrite IH.
Qed.

Lemma table_name_inj a b : table_name_for_object_type a = table_name_for_object_type b -> a = b.
Proof. intros E. by rewrite <- (object_type_of_table_name a), E, object_type_of_table_name. Qed.

(** ** The columns of a table *)

Definition hidden (n : string) : bool := String.prefix "!" n.

Definition link_object_type (pt : PropertyType) (c : Column) : string :=
  if is_kind pt Object then object_type_for_table_name (c_target c) else ""%string.

Definition is_primary_column (primary : option Z) (c : Column) : bool := bool_decide (primary = Some (c_key c)).

(** The property that a column is read as. *)
Definition current_property (primary : option Z) (c : Column) (pt : PropertyType) : Property :=
  MkProperty (c_name c) "" pt (link_object_type pt c) "" (is_primary_column primary c) (c_indexed c || is_primary_column primary c) (c_key c).

Definition primary_name (t : Table) : string :=
  match t_primary t with Some key => default ""%string (c_name <$> column_of_key key t) | None => ""%string end.

Definition readable (c : Column) : Prop := hidden (c_name c) = false -> exists pt, from_core_type c = Fine pt.

Section read.
Context `{StoreSpec}.

Lemma get_table_name T g t : get_table T g = Some t -> t ∈ tables g /\ t_name t = T.
Proof. apply find_key_sound. Qed.

Lemma get_table_iff T g t : group_ok g -> get_table T g = Some t <-> t ∈ tables g /\ t_name t = T.
Proof. intros Hg. apply find_key, ok_wf, Hg. Qed.

Lemma get_table_wf T g t : group_ok g -> get_table T g = Some t -> table_wf t.
Proof. intros Hg [Ht _]%get_table_name. by apply (ok_wf g Hg). Qed.

Lemma column_named_iff t n c : table_wf t -> column_named n t = Some c <-> c ∈ t_columns t /\ c_name c = n.
Proof. intros Ht. apply find_key, Ht. Qed.

Lemma column_of_key_iff t k c : table_wf t -> column_of_key k t = Some c <-> c ∈ t_columns t /\ c_key c = k.
Proof. intros Ht. apply find_key, Ht. Qed.

Lemma columns_same t c d : table_wf t -> c ∈ t_columns t -> d ∈ t_columns t -> c_key c = c_key d -> c = d.
Proof. intros Ht. apply same_key, Ht. Qed.

Lemma primary_name_some t c : table_wf t -> c ∈ t_columns t -> t_primary t = Some (c_key c) -> primary_name t = c_name c /\ c_name c <> ""%string.
Proof.
  intros Ht Hc E. unfold primary_name. rewrite E, (proj2 (column_of_key_iff t (c_key c) c Ht)) by done. split; [done|].
  destruct (wf_primary t Ht _ E) as (d & Hd & Ek & En). by rewrite (columns_same t c d).
Qed.

Lemma is_primary_column_name t c : table_wf t -> c ∈ t_columns t ->
  is_primary_column (t_primary t) c = negb (empty (primary_name t)) && bool_decide (c_name c = primary_name t).
Proof.
  intros Ht Hc. unfold is_primary_column. case_bool_decide as E.
  - destruct (primary_name_some t c Ht Hc E) as [-> Hn]. rewrite bool_decide_true by done. apply empty_false in Hn. by rewrite Hn.
  - destruct (t_primary t) as [k|] eqn:Ep; [|by unfold primary_name; rewrite Ep].
    destruct (wf_primary t Ht _ Ep) as (d & Hd & Ek & En).
    assert (t_primary t = Some (c_key d)) as Ed by congruence. destruct (primary_name_some t d Ht Hd Ed) as [-> _].
    rewrite bool_decide_false; [by rewrite andb_false_r|]. intros Hcd. apply E. f_equal.
    rewrite <- Ek. by rewrite (same_key c_name (t_columns t) c d (wf_names t Ht) Hc Hd Hcd).
Qed.

(** [properties_of_columns] succeeds where every column can be read. *)
Lemma properties_of_columns_total t columns :
  (forall c, c ∈ columns -> readable c) -> exists ps, properties_of_columns t columns = Fine ps.
Proof.
  induction columns as [|c l IH]; intros Hr; [by exists []|]. cbn. destruct IH as [ps Eps]; [intros d Hd; apply Hr; by right|].
  destruct (String.prefix "!" (c_name c)) eqn:Eh; [by exists ps|]. destruct (Hr c) as [pt Ept]; [left|done|].
  unfold property_of_column. rewrite Ept. cbn. rewrite Eps. by eexists.
Qed.

Definition unmarked (primary : option Z) (c : Column) (pt : PropertyType) : Property :=
  MkProperty (c_name c) "" pt (link_object_type pt c) "" false (c_indexed c || is_primary_column primary c) (c_key c).

Lemma property_of_column_eq t c p :
  property_of_column t c = Fine p <-> exists pt, from_core_type c = Fine pt /\ p = unmarked (t_primary t) c pt.
Proof.
  unfold property_of_column. destruct (from_core_type c) as [pt|]; cbn; split; try done.
  - intros [= <-]. by exists pt.
  - by intros (pt' & [= <-] & ->).
  - by intros (pt' & [=] & _).
Qed.

Lemma properties_of_columns_elem t columns ps :
  properties_of_columns t columns = Fine ps ->
  (p_name <$> ps) = filter (fun n => hidden n = false) (c_name <$> columns) /\
  (forall p, p ∈ ps <-> exists c pt, c ∈ columns /\ hidden (c_name c) = false /\ from_core_type c = Fine pt /\ p = unmarked (t_primary t) c pt) /\
  (forall c, c ∈ columns -> readable c).
Proof.
  revert ps. induction columns as [|c l IH]; intros ps; cbn [properties_of_columns].
  { intros [= <-]. split_and!; [done| |by intros c Hc%not_elem_of_nil]. intros p. split; [by intros Hp%not_elem_of_nil|].
    by intros (c & pt & Hc%not_elem_of_nil & _). }
  fold (hidden (c_name c)). rewrite fmap_cons, filter_cons. destruct (hidden (c_name c)) eqn:Eh.
  - intros E. destruct (IH ps E) as (E1 & E2 & E3). rewrite decide_False by done. split_and!; [done| |].
    + intros p. rewrite E2. split; intros (d & pt & Hd & Hh & Ed & ->); [exists d, pt; split_and!; [by right|done..]|].
      apply elem_of_cons in Hd as [->|Hd]; [congruence|]. by exists d, pt.
    + intros d [->|Hd]%elem_of_cons; [intros Hn; congruence|by apply E3].
  - destruct (property_of_column t c) as [p|] eqn:Ep; [|done]. cbn. destruct (properties_of_columns t l) as [qs|]; [|done]. cbn.
    intros [= <-]. destruct (IH qs eq_refl) as (E1 & E2 & E3). apply property_of_column_eq in Ep as (pt & Ept & ->).
    rewrite decide_True by done. split_and!; [cbn; by rewrite E1| |].
    + intros p. rewrite elem_of_cons, E2. split.
      * intros [->|(d & pt' & Hd & Hh & Ed & ->)]; [exists c, pt; split_and!; [left|done..]|]. exists d, pt'. split_and!; [by right|done..].
      * intros (d & pt' & [->|Hd]%elem_of_cons & Hh & Ed & ->); [left; congruence|]. right. by exists d, pt'.
    + intros d [->|Hd]%elem_of_cons; [by exists pt|by apply E3].
Qed.

(** ** The type of a table *)

Lemma object_schema_of_table_eq n t g e : get_table (table_name_for_object_type n) g = Some t ->
  object_schema_of_table n t g = Fine e ->
  exists ps, properties_of_columns t (t_columns t) = Fine ps /\ e = set_primary_key_property (MkObject n ps [] (primary_name t) (t_key t)).
Proof.
  unfold object_schema_of_table. destruct (properties_of_columns t _) as [ps|]; [|done]. cbn.
  intros Et [= <-]. exists ps. split; [done|]. unfold get_primary_key_for_object, table_for_object_type. by rewrite Et.
Qed.

Lemma set_primary_fields o : o_name (set_primary_key_property o) = o_name o /\ primary_key (set_primary_key_property o) = primary_key o /\
  table_key (set_primary_key_property o) = table_key o.
Proof. unfold set_primary_key_property, update_property. case_bool_decide; [done|]. by destruct (existsb _ _). Qed.

(** The persisted properties are the visible columns. *)
Lemma object_schema_of_table_spec n t g e : group_ok g -> get_table (table_name_for_object_type n) g = Some t ->
  object_schema_of_table n t g = Fine e ->
  o_name e = n /\ primary_key e = primary_name t /\ table_key e = t_key t /\ NoDup (p_name <$> persisted_properties e) /\
  (forall p, p ∈ persisted_properties e <->
     exists c pt, c ∈ t_columns t /\ hidden (c_name c) = false /\ from_core_type c = Fine pt /\ p = current_property (t_primary t) c pt) /\
  computed_properties e = [] /\ (forall c, c ∈ t_columns t -> readable c).
Proof.
  intros Hg Et Ee. pose proof (get_table_wf _ g t Hg Et) as Ht. destruct (object_schema_of_table_eq n t g e Et Ee) as (ps & Eps & ->).
  destruct (set_primary_fields (MkObject n ps [] (primary_name t) (t_key t))) as (-> & -> & ->).
  destruct (properties_of_columns_elem t _ ps Eps) as (Enames & Hps & Hread).
  assert (NoDup (p_name <$> ps)) as Hn by (rewrite Enames; apply NoDup_filter, Ht).
  split_and!; try done.
  - unfold set_primary_key_property. cbn [primary_key]. case_bool_decide; [done|]. unfold update_property. cbn [persisted_properties].
    destruct (existsb _ ps); [|done]. cbn [persisted_properties].
    assert (forall l, p_name <$> update_first (named (primary_name t)) mark_primary l = p_name <$> l) as ->; [|done].
    clear. intros l. induction l as [|p l IH]; [done|]. cbn. destruct (named _ p); cbn; [done|by rewrite IH].
  - assert (forall c, c ∈ t_columns t -> named (primary_name t) (unmarked (t_primary t) c (MkType Int false false)) = bool_decide (c_name c = primary_name t)) as Hnamed by done.
    assert (forall p, p ∈ persisted_properties (set_primary_key_property (MkObject n ps [] (primary_name t) (t_key t))) <->
              exists q, q ∈ ps /\ p = if negb (empty (primary_name t)) && named (primary_name t) q then mark_primary q else q) as Hmark.
    { intros p. unfold set_primary_key_property. cbn [primary_key]. unfold empty. case_bool_decide as En.
      { cbn. split; [intros Hp; by exists p|by intros (q & Hq & ->)]. }
      cbn [negb andb]. unfold update_property. cbn [persisted_properties]. destruct (existsb (named (primary_name t)) ps) eqn:Ex; cbn [persisted_properties].
      - rewrite update_first_elem; [done| |by eapply NoDup_fmap_1]. intros a b Ha Hb Ea%bool_decide_eq_true Eb%bool_decide_eq_true.
        apply (same_key p_name ps); [done..|congruence].
      - split.
        + intros Hp. exists p. destruct (named (primary_name t) p) eqn:E; [|done]. rewrite list_elem_of_In in Hp.
          assert (existsb (named (primary_name t)) ps = true) by (apply existsb_exists; by exists p). congruence.
        + intros (q & Hq & ->). destruct (named (primary_name t) q) eqn:E; [|done]. pose proof Hq as Hq'. rewrite list_elem_of_In in Hq'.
          assert (existsb (named (primary_name t)) ps = true) by (apply existsb_exists; by exists q). congruence. }
    intros p. rewrite Hmark. clear Hmark.
    assert (forall c pt, c ∈ t_columns t -> (if negb (empty (primary_name t)) && named (primary_name t) (unmarked (t_primary t) c pt)
              then mark_primary (unmarked (t_primary t) c pt) else unmarked (t_primary t) c pt) = current_property (t_primary t) c pt) as Hcur.
    { intros c pt Hc. unfold current_property. pose proof (is_primary_column_name t c Ht Hc) as Ep.
      change (named (primary_name t) (unmarked (t_primary t) c pt)) with (bool_decide (c_name c = primary_name t)). rewrite <- Ep.
      destruct (is_primary_column (t_primary t) c) eqn:E; unfold mark_primary, unmarked; cbn; by rewrite E. }
    split.
    + intros (q & Hq & ->). apply Hps in Hq as (c & pt & Hc & Hh & Ept & ->). exists c, pt. split_and!; [done..|]. by apply Hcur.
    + intros (c & pt & Hc & Hh & Ept & ->). exists (unmarked (t_primary t) c pt). split; [apply Hps; by exists c, pt|]. symmetry. by apply Hcur.
  - unfold set_primary_key_property. cbn [primary_key]. case_bool_decide; [done|]. unfold update_property. by destruct (existsb _ _).
Qed.

(** ** The schema of a group *)

Lemma object_schemas_elem ts g os : object_schemas ts g = Fine os ->
  (o_name <$> os) = filter (fun n => n <> ""%string) ((fun t => object_type_for_table_name (t_name t)) <$> ts) /\
  forall e, e ∈ os <-> exists t, t ∈ ts /\ object_type_for_table_name (t_name t) <> ""%string /\
    object_schema_of_table (object_type_for_table_name (t_name t)) t g = Fine e.
Proof.
  revert os. induction ts as [|t ts IH]; intros os; cbn [object_schemas].
  { intros [= <-]. split; [done|]. intros e. split; [by intros Hp%not_elem_of_nil|]. by intros (t & Ht%not_elem_of_nil & _). }
  rewrite fmap_cons, filter_cons. destruct (empty _) eqn:Ee.
  - intros E. destruct (IH os E) as [E1 E2]. apply empty_true in Ee. rewrite decide_False by tauto. split; [done|]. intros e. rewrite E2.
    split; intros (u & Hu & Hn & Eo); [exists u; split_and!; [by right|done..]|]. apply elem_of_cons in Hu as [->|Hu]; [done|]. by exists u.
  - apply empty_false in Ee. destruct (object_schema_of_table _ t g) as [o|] eqn:Eo; [|done]. cbn.
    destruct (object_schemas ts g) as [os'|]; [|done]. cbn. intros [= <-]. destruct (IH os' eq_refl) as [E1 E2].
    rewrite decide_True by done. split.
    + cbn. rewrite E1. f_equal. unfold object_schema_of_table in Eo. destruct (properties_of_columns t _); [|done]. injection Eo as <-.
      apply set_primary_fields.
    + intros e. rewrite elem_of_cons, E2. split.
      * intros [->|(u & Hu & Hn & Eu)]; [exists t; split_and!; [left|done..]|]. exists u. split_and!; [by right|done..].
      * intros (u & [->|Hu]%elem_of_cons & Hn & Eu); [left; congruence|]. right. by exists u.
Qed.

Lemma schema_from_group_spec g s : group_ok g -> schema_from_group g = Fine s ->
  schema_sorted s /\
  forall e, e ∈ s <-> o_name e <> ""%string /\ exists t, get_table (table_name_for_object_type (o_name e)) g = Some t /\ object_schema_of_table (o_name e) t g = Fine e.
Proof.
  intros Hg. unfold schema_from_group. destruct (object_schemas (tables g) g) as [os|] eqn:E; [|done]. intros [= <-].
  destruct (object_schemas_elem _ g os E) as [E1 E2]. split.
  - apply make_schema_sorted. rewrite E1.
    assert (NoDup (t_name <$> tables g)) as Hn by apply (ok_wf g Hg). clear E E1 E2. induction (tables g) as [|t ts IH]; [constructor|].
    apply NoDup_cons in Hn as [Ht Hn]. rewrite fmap_cons, filter_cons. case_decide as En; [|by apply IH].
    constructor; [|by apply IH]. intros [_ Hin]%list_elem_of_filter. apply list_elem_of_fmap in Hin as (u & Eu & Hu). apply Ht.
    rewrite <- (table_name_of_object_type _ En), Eu, table_name_of_object_type by congruence. by apply list_elem_of_fmap_2.
  - intros e. rewrite make_schema_perm, E2. split.
    + intros (t & Ht & Hn & Eo). assert (o_name e = object_type_for_table_name (t_name t)) as En.
      { unfold object_schema_of_table in Eo. destruct (properties_of_columns t _); [|done]. injection Eo as <-. apply set_primary_fields. }
      rewrite En. split; [done|]. exists t. split; [|done]. apply get_table_iff; [done|]. split; [done|]. symmetry. by apply table_name_of_object_type.
    + intros (Hn & t & [Ht En]%get_table_name & Eo). exists t. rewrite En, object_type_of_table_name. done.
Qed.

Lemma schema_from_group_total g : group_ok g ->
  (forall t c, t ∈ tables g -> object_type_for_table_name (t_name t) <> ""%string -> c ∈ t_columns t -> readable c) ->
  exists s, schema_from_group g = Fine s.
Proof.
  intros Hg Hr. unfold schema_from_group. assert (exists os, object_schemas (tables g) g = Fine os) as [os ->]; [|by eexists].
  generalize g at 2. intros g0. induction (tables g) as [|t ts IH]; [by exists []|]. cbn. destruct IH as [os Eos]; [intros u c Hu; apply Hr; by right|].
  destruct (empty _) eqn:Ee; [by exists os|]. apply empty_false in Ee. unfold object_schema_of_table.
  destruct (properties_of_columns_total t (t_columns t)) as [ps ->]; [intros c Hc; apply (Hr t); [left|done..]|]. cbn. rewrite Eos. by eexists.
Qed.
End read.

(** ** The changes type by type *)

Definition object_named (s : Schema) (n : string) : option ObjectSchema := List.find (fun o => bool_decide (o_name o = n)) s.

Lemma object_named_iff s n o : schema_sorted s -> object_named s n = Some o <-> o ∈ s /\ o_name o = n.
Proof. intros [_ Hn]. by apply (find_key o_name). Qed.

Lemma object_named_none s n : object_named s n = None <-> n ∉ o_name <$> s.
Proof. apply (find_key_none o_name). Qed.

Lemma zip_matching_first a b : omap fst (zip_matching a b) = a.
Proof.
  revert b. induction a as [|x a IHa]; intros b.
  { cbn. induction b as [|y b IH]; [done|]. exact IH. }
  induction b as [|y b IHb].
  { cbn. f_equal. clear. induction a as [|z a IH]; [done|]. cbn. by f_equal. }
  cbn [zip_matching]. case_bool_decide; [cbn; by rewrite IHa|]. destruct (string_less _ _); [cbn; by rewrite IHa|exact IHb].
Qed.

(** Each type of the target is visited once, in order, with the existing type of its name. *)
Lemma zip_matching_targets {A} (h : option ObjectSchema * option ObjectSchema -> list A) target existing :
  schema_sorted target -> schema_sorted existing -> (forall q, h (None, q) = []) ->
  concat (h <$> zip_matching target existing) = target ≫= fun o => h (Some o, object_named existing (o_name o)).
Proof.
  intros Ht He Hh. rewrite <- (zip_matching_first target existing) at 2.
  assert (forall pair, pair ∈ zip_matching target existing -> pair_of target existing pair) as Hp by (intros pair; by apply zip_matching_pairs).
  induction (zip_matching target existing) as [|[[x|] q] ps IH]; [done| |].
  - cbn. rewrite IH by (intros pair Hpair; apply Hp; by right). f_equal. f_equal. f_equal. symmetry.
    pose proof (Hp (Some x, q) ltac:(left)) as Hx. destruct q as [y|]; cbn in Hx.
    + destruct Hx as (_ & Hy & En). apply object_named_iff; [done|]. by rewrite En.
    + destruct Hx as [_ Hx]. by apply object_named_none.
  - cbn. rewrite Hh. cbn. apply IH. intros pair Hpair. apply Hp. by right.
Qed.

Lemma compare_by_type existing target : schema_sorted target -> schema_sorted existing ->
  compare existing target false =
  ((target ≫= fun o => match object_named existing (o_name o) with None => [AddTable o] | Some _ => [] end) ++
   (target ≫= fun o => match object_named existing (o_name o) with Some e => compare_objects e o | None => [AddInitialProperties o] end))%list.
Proof.
  intros Ht He. unfold compare. by rewrite !zip_matching_targets by (done || intros []; done).
Qed.

Lemma concat_bind {A B} (f : A -> list B) l : concat (f <$> l) = l ≫= f.
Proof. induction l as [|x l IH]; [done|]. cbn. by rewrite IH. Qed.

Lemma bind_nil {A B} (f : A -> list B) l : l ≫= f = [] <-> forall x, x ∈ l -> f x = [].
Proof.
  induction l as [|x l IH]; [split; [intros _ x Hx; by apply not_elem_of_nil in Hx|done]|].
  cbn. rewrite app_nil_iff. change (mbind f l = []) with (l ≫= f = []) in IH. split.
  - intros [Hx Hl] y [->|Hy]%elem_of_cons; [done|]. by apply IH.
  - intros Hl. split; [apply Hl; left|]. apply IH. intros y Hy. apply Hl. by right.
Qed.

Lemma compare_nil existing target : schema_sorted target -> schema_sorted existing ->
  compare existing target false = [] <->
  forall o, o ∈ target -> exists e, object_named existing (o_name o) = Some e /\ compare_objects e o = [].
Proof.
  intros Ht He. rewrite compare_by_type, app_nil_iff, !bind_nil by done. split.
  - intros [H1 H2] o Ho. specialize (H1 o Ho). specialize (H2 o Ho). destruct (object_named existing (o_name o)) as [e|]; [by exists e|done].
  - intros Hall. split; intros o Ho; destruct (Hall o Ho) as (e & -> & E); done.
Qed.

(** ** Types that a file can hold as they are *)

Definition persisted_named (o : ObjectSchema) (n : string) : option Property := List.find (named n) (persisted_properties o).

(** What is asked of a type beside its validity: names that columns can have and that the object
    store does not hide, the primary key marked and named alike, no list with an index or as
    primary key, and computed properties that are none but linking objects.  [Any] is the type
    of old files only. *)
Record storable `{StoreSpec} (o : ObjectSchema) : Prop := {
  st_name : o_name o <> ""%string /\ table_name_ok (table_name_for_object_type (o_name o));
  st_columns p : p ∈ persisted_properties o -> column_name_ok (p_name p) /\ hidden (p_name p) = false /\ p_name p <> ""%string;
  st_kinds p : p ∈ persisted_properties o -> kind (p_type p) <> LinkingObjects /\ kind (p_type p) <> Any;
  st_primary p : p ∈ persisted_properties o -> is_primary p = bool_decide (p_name p = primary_key o);
  st_has_primary : primary_key o <> ""%string -> primary_key o ∈ p_name <$> persisted_properties o;
  st_index p : p ∈ persisted_properties o -> requires_index p = true -> is_array (p_type p) = false;
  st_computed p : p ∈ computed_properties o -> kind (p_type p) = LinkingObjects /\ p_name p <> ""%string
}.

Definition column_fits (primary : option Z) (p : Property) (c : Column) : bool :=
  match from_core_type c with
  | Fine pt =>
      same_kind pt (p_type p) && bool_decide (link_object_type pt c = object_type p) && Bool.eqb (is_array pt) (is_array (p_type p)) &&
      Bool.eqb (is_nullable pt) (is_nullable (p_type p)) && Bool.eqb (c_indexed c || is_primary_column primary c) (requires_index p)
  | Throws _ => false
  end.

(** What is to become of a column of a type, by its name. *)
Definition cell_settled (o : ObjectSchema) (primary : option Z) (n : string) (c : option Column) : Prop :=
  match persisted_named o n, c with
  | Some p, Some c => column_fits primary p c = true
  | Some _, None => False
  | None, Some _ => hidden n = true
  | None, None => True
  end.

Section fits.
Context `{StoreSpec} (s : Schema) (o : ObjectSchema) (Ho : storable o) (Hv : object_valid s o).

Lemma persisted_names : NoDup (p_name <$> persisted_properties o).
Proof. pose proof (names_unique s o Hv) as Hn. unfold internal_names in Hn. by apply NoDup_app in Hn as [Hn _]. Qed.

Lemma persisted_named_iff n p : persisted_named o n = Some p <-> p ∈ persisted_properties o /\ p_name p = n.
Proof. apply (find_key p_name), persisted_names. Qed.

Lemma persisted_named_none n : persisted_named o n = None <-> n ∉ p_name <$> persisted_properties o.
Proof. apply (find_key_none p_name). Qed.

Lemma property_not_computed p : p ∈ persisted_properties o -> property_is_computed o p = false.
Proof.
  intros Hp. unfold property_is_computed. destruct (existsb _ _) eqn:E; [|done]. exfalso. apply existsb_exists in E as (c & Hc & E).
  rewrite <- list_elem_of_In in Hc. unfold property_eq in E. repeat (apply andb_true_iff in E as [E _]). apply Z.eqb_eq in E.
  apply (st_kinds o Ho p) in Hp as [Hp _]. apply Hp. rewrite <- (proj1 (st_computed o Ho c Hc)).
  destruct (property_type_bits (p_type c) (p_type p)) as (_ & _ & _ & _ & _ & _ & Hinj & _). by rewrite (Hinj E).
Qed.

Lemma property_computed n p : persisted_named o n = None -> property_for_name o n = Some p -> property_is_computed o p = true.
Proof.
  unfold property_for_name. fold (persisted_named o n). intros -> Hf. apply find_some in Hf as [Hp _]. apply existsb_exists. exists p.
  split; [done|]. unfold property_eq. by rewrite Z.eqb_refl, !eqb_reflx, !bool_decide_true.
Qed.

(** The changes of a current property, by what the type has of its name. *)
Lemma compare_property_cases e cur :
  compare_property e o cur =
  match persisted_named o (p_name cur) with
  | None => [RemoveProperty e cur]
  | Some p =>
      if negb (same_kind (p_type cur) (p_type p)) || negb (bool_decide (object_type cur = object_type p)) ||
         negb (Bool.eqb (is_array (p_type cur)) (is_array (p_type p)))
      then [ChangePropertyType e cur p]
      else
        ((if negb (Bool.eqb (is_nullable (p_type cur)) (is_nullable (p_type p))) then
           if is_nullable (p_type cur) then [MakePropertyRequired e cur] else [MakePropertyNullable e cur]
         else []) ++
        (if requires_index p then (if negb (is_indexed cur) then [AddIndex e cur] else [])
         else if requires_index cur then [RemoveIndex e cur] else []))%list
  end.
Proof.
  unfold compare_property. destruct (persisted_named o (p_name cur)) as [p|] eqn:Ep.
  - assert (property_for_name o (p_name cur) = Some p) as -> by (unfold property_for_name; fold (persisted_named o (p_name cur)); by rewrite Ep).
    apply persisted_named_iff in Ep as [Hp _]. by rewrite property_not_computed.
  - destruct (property_for_name o (p_name cur)) as [q|] eqn:Eq; [|done]. by rewrite (property_computed (p_name cur) q).
Qed.

Lemma compare_property_nil e primary c pt : from_core_type c = Fine pt ->
  compare_property e o (current_property primary c pt) = [] <->
  exists p, persisted_named o (c_name c) = Some p /\ column_fits primary p c = true.
Proof.
  intros Ept. rewrite compare_property_cases. cbn [p_name current_property]. destruct (persisted_named o (c_name c)) as [p|].
  2:{ split; [done|]. by intros (p & [=] & _). }
  trans (column_fits primary p c = true); [|split; [by exists p|by intros (q & [= <-] & Hq)]].
  unfold column_fits. rewrite Ept. cbn [p_type object_type is_indexed current_property]. unfold requires_index at 2. cbn [is_primary is_indexed].
  destruct (same_kind pt (p_type p)); [|done]. destruct (bool_decide _); [|done]. destruct (Bool.eqb (is_array pt) _); [|done].
  cbn. destruct (Bool.eqb (is_nullable pt) _); cbn; [|by destruct (is_nullable pt)].
  destruct (requires_index p), (c_indexed c), (is_primary_column primary c); cbn; done.
Qed.
End fits.

(** ** When a type that was read needs no change *)

Definition cell `{Store} (T n : string) (g : Group) : option Column := get_table T g ≫= column_named n.
Definition primary_of `{Store} (T : string) (g : Group) : option Z := get_table T g ≫= t_primary.

Definition type_settled `{Store} (g : Group) (o : ObjectSchema) : Prop :=
  exists t, get_table (table_name_for_object_type (o_name o)) g = Some t /\ primary_name t = primary_key o /\
    forall n, cell_settled o (t_primary t) n (column_named n t).

Section settled.
Context `{StoreSpec}.

Lemma cell_settled_readable s o primary n c : storable o -> object_valid s o -> cell_settled o primary n (Some c) -> c_name c = n -> readable c.
Proof.
  intros Ho Hv Hc <- Hh. unfold cell_settled in Hc. destruct (persisted_named o (c_name c)) as [p|]; [|congruence].
  unfold column_fits in Hc. destruct (from_core_type c) as [pt|]; [by exists pt|done].
Qed.

Lemma settled_compare s o g t e : group_ok g -> storable o -> object_valid s o ->
  get_table (table_name_for_object_type (o_name o)) g = Some t -> object_schema_of_table (o_name o) t g = Fine e ->
  compare_objects e o = [] <-> primary_name t = primary_key o /\ forall n, cell_settled o (t_primary t) n (column_named n t).
Proof.
  intros Hg Ho Hv Et Ee. pose proof (get_table_wf _ g t Hg Et) as Ht.
  destruct (object_schema_of_table_spec _ t g e Hg Et Ee) as (En & Epk & _ & Hnames & Hps & Hcomp & Hread).
  assert (forall n p, p ∈ persisted_properties e -> p_name p = n -> property_for_name e n = Some p) as Hlook.
  { intros n p Hp Hn. unfold property_for_name. assert (List.find (named n) (persisted_properties e) = Some p) as ->; [|done].
    apply (find_key p_name); done. }
  assert (forall n, n ∉ p_name <$> persisted_properties e -> property_for_name e n = None) as Hnone.
  { intros n Hn. unfold property_for_name. rewrite Hcomp. apply (find_key_none p_name) in Hn. unfold named. by rewrite Hn. }
  unfold compare_objects. rewrite !app_nil_iff, !concat_bind, !bind_nil, Epk.
  assert ((if bool_decide (primary_name t = primary_key o) then [] else [ChangePrimaryKey e (primary_key_property o)]) = []
          <-> primary_name t = primary_key o) as -> by (case_bool_decide; done).
  split.
  - intros (Hcur & Hadd & Hpk). split; [done|]. intros n. unfold cell_settled. destruct (column_named n t) as [c|] eqn:Ec.
    + apply column_named_iff in Ec as [Hc Ecn]; [|done]. destruct (hidden n) eqn:Eh.
      * destruct (persisted_named o n) as [p|] eqn:Ep; [|done]. apply (persisted_named_iff s o Hv) in Ep as [Hp Epn].
        destruct (st_columns o Ho p Hp) as (_ & Hh & _). congruence.
      * subst n. destruct (Hread c Hc Eh) as [pt Ept].
        destruct (proj1 (compare_property_nil s o Ho Hv e (t_primary t) c pt Ept)) as (p & Ep & Hfit); [|by rewrite Ep].
        apply Hcur, Hps. by exists c, pt.
    + destruct (persisted_named o n) as [p|] eqn:Ep; [|done]. apply (persisted_named_iff s o Hv) in Ep as [Hp Epn].
      specialize (Hadd p Hp). cbn in Hadd. rewrite Hnone in Hadd; [done|]. intros Hin. apply list_elem_of_fmap in Hin as (q & Eq & Hq).
      apply Hps in Hq as (c & pt & Hc & _ & _ & ->). cbn in Eq. assert (column_named n t = Some c) as E; [|congruence].
      apply column_named_iff; [done|]. split; [done|congruence].
  - intros [Hpk Hset]. split_and!; [|..|done].
    + intros cur Hcur. apply Hps in Hcur as (c & pt & Hc & Hh & Ept & ->). apply (compare_property_nil s o Ho Hv); [done|].
      specialize (Hset (c_name c)). rewrite (proj2 (column_named_iff t (c_name c) c Ht)) in Hset by done. unfold cell_settled in Hset.
      destruct (persisted_named o (c_name c)) as [p|]; [by exists p|congruence].
    + intros p Hp. cbn. specialize (Hset (p_name p)). unfold cell_settled in Hset.
      rewrite (proj2 (persisted_named_iff s o Hv (p_name p) p)) in Hset by done.
      destruct (column_named (p_name p) t) as [c|] eqn:Ec; [|done]. apply column_named_iff in Ec as [Hc Ecn]; [|done].
      destruct (st_columns o Ho p Hp) as (_ & Hh & _). unfold column_fits in Hset. destruct (from_core_type c) as [pt|] eqn:Ept; [|done].
      rewrite (Hlook _ (current_property (t_primary t) c pt)); [done| |done]. apply Hps. exists c, pt. split_and!; [done|congruence|done..].
Qed.
End settled.
