(* ===== verification/SchemaPasses.v ===== *)
(** The passes over schema changes, column by column: changes to different columns do not meet, and
    a column that is added, replaced, made optional or required, or given or relieved of its index,
    fits its property afterwards. *)

From S2P Require Import Prelude SchemaData SchemaValidation SchemaChanges SchemaStore SchemaApply SchemaLaws SchemaRead.
#[local] Open Scope Z_scope.

Section passes.
Context `{StoreSpec}.

(** ** What stays as it was *)

Abbreviation key := (string * string)%type.

(** Only the columns with the keys change, each the name of a table and of a column. *)
Record frame (keys : list key) (g g' : Group) : Prop := {
  fr_ok : group_ok g';
  fr_cell T n : (T, n) ∉ keys -> cell T n g' = cell T n g;
  fr_primary T : primary_of T g' = primary_of T g;
  fr_name T : primary_name <$> get_table T g' = primary_name <$> get_table T g;
  fr_tables T : is_Some (get_table T g') <-> is_Some (get_table T g);
  fr_rest T : (forall n, (T, n) ∉ keys) -> get_table T g' = get_table T g /\ table_is_empty T g' = table_is_empty T g /\
    forall i col, get_int T i col g' = get_int T i col g
}.

Lemma frame_refl keys g : group_ok g -> frame keys g g.
Proof. by constructor. Qed.

Lemma frame_trans k1 k2 g1 g2 g3 : frame k1 g1 g2 -> frame k2 g2 g3 -> frame (k1 ++ k2) g1 g3.
Proof.
  intros F1 F2. constructor.
  - apply F2.
  - intros T n [H1 H2]%not_elem_of_app. by rewrite (fr_cell _ _ _ F2), (fr_cell _ _ _ F1).
  - intros T. by rewrite (fr_primary _ _ _ F2), (fr_primary _ _ _ F1).
  - intros T. by rewrite (fr_name _ _ _ F2), (fr_name _ _ _ F1).
  - intros T. by rewrite (fr_tables _ _ _ F2), (fr_tables _ _ _ F1).
  - intros T HT. destruct (fr_rest _ _ _ F2 T) as (-> & -> & Hi2); [intros n Hn; apply (HT n), elem_of_app; by right|].
    destruct (fr_rest _ _ _ F1 T) as (-> & -> & Hi1); [intros n Hn; apply (HT n), elem_of_app; by left|].
    split_and!; [done..|]. intros i col. by rewrite Hi2.
Qed.

Lemma frame_weaken k1 k2 g g' : (forall k, k ∈ k1 -> k ∈ k2) -> frame k1 g g' -> frame k2 g g'.
Proof.
  intros Hk F. constructor; try apply F.
  - intros T n Hn. apply (fr_cell _ _ _ F). auto.
  - intros T HT. apply (fr_rest _ _ _ F). intros n Hn. apply (HT n). auto.
Qed.

(** A column can change under the name of the primary key, but the key stays that of this name. *)
Lemma column_set_primary_name t t' n : table_wf t -> table_wf t' -> t_primary t' = t_primary t ->
  (forall m, m <> n -> column_named m t' = column_named m t) -> primary_name t' = primary_name t.
Proof.
  intros Ht Ht' Ep Hm. destruct (t_primary t) as [k|] eqn:E; [|unfold primary_name; by rewrite Ep, E].
  destruct (wf_primary t Ht k E) as (d & Hd & Ed & _), (wf_primary t' Ht' k Ep) as (d' & Hd' & Ed' & _).
  destruct (primary_name_some t d Ht Hd) as [-> _]; [congruence|]. destruct (primary_name_some t' d' Ht' Hd') as [-> _]; [congruence|].
  destruct (decide (c_name d' = n)) as [En'|En'].
  - destruct (decide (c_name d = n)) as [En|En]; [congruence|]. pose proof (Hm (c_name d) En) as Hc.
    rewrite (proj2 (column_named_iff t (c_name d) d Ht)) in Hc by done. apply column_named_iff in Hc as [Hc _]; [|done].
    by rewrite (columns_same t' d d' Ht' Hc Hd' ltac:(congruence)).
  - pose proof (Hm (c_name d') En') as Hc. rewrite (proj2 (column_named_iff t' (c_name d') d' Ht')) in Hc by done. symmetry in Hc.
    apply column_named_iff in Hc as [Hc _]; [|done]. by rewrite (columns_same t d' d Ht Hc Hd ltac:(congruence)).
Qed.

Lemma column_set_frame T n c g g' : group_ok g -> group_ok g' -> column_set T n c g g' -> frame [(T, n)] g g' /\ cell T n g' = c.
Proof.
  intros Hg Hg' (He & _ & t & t' & Et & Et' & Ek & Epk & En & Hm). split; [|unfold cell; by rewrite Et'].
  constructor; [done|..].
  - intros T' m Hk. destruct (decide (T' = T)) as [->|HT].
    + unfold cell. rewrite Et, Et'. cbn. apply Hm. intros ->. apply Hk. left.
    + unfold cell. by destruct (He T' HT) as [-> _].
  - intros T'. unfold primary_of. destruct (decide (T' = T)) as [->|HT]; [by rewrite Et, Et'|]. by destruct (He T' HT) as [-> _].
  - intros T'. destruct (decide (T' = T)) as [->|HT]; [|by destruct (He T' HT) as [-> _]]. rewrite Et, Et'. cbn. f_equal.
    apply (column_set_primary_name t t' n (get_table_wf T g t Hg Et) (get_table_wf T g' t' Hg' Et') Epk Hm).
  - intros T'. destruct (decide (T' = T)) as [->|HT]; [by rewrite Et, Et'|]. by destruct (He T' HT) as [-> _].
  - intros T' HT. apply He. intros ->. apply (HT n). left.
Qed.

Lemma cell_some T n g c : group_ok g -> cell T n g = Some c ->
  exists t, get_table T g = Some t /\ column_named (c_name c) t = Some c /\ c_name c = n /\ t_primary t = primary_of T g.
Proof.
  unfold cell, primary_of. intros Hg Hc. destruct (get_table T g) as [t|] eqn:Et; [|done]. cbn in Hc. exists t.
  pose proof Hc as Hc'. apply column_named_iff in Hc' as [_ En]; [|by eapply get_table_wf]. by rewrite En.
Qed.

(** ** Sequences of steps on columns of their own *)

Lemma fold_schema_app {A S} (f : A -> S -> schema_result S) l1 l2 s :
  fold_schema f (l1 ++ l2) s = (s ← fold_schema f l1 s; fold_schema f l2 s).
Proof. revert s. induction l1 as [|a l1 IH]; intros s; [done|]. cbn. destruct (f a s); [apply IH|done]. Qed.

(** What holds of the group throughout. *)
Record context := { ctx_tables : string -> Prop; ctx_primary : string -> option Z }.
Definition in_context (x : context) (g : Group) : Prop :=
  group_ok g /\ (forall T, is_Some (get_table T g) <-> ctx_tables x T) /\ forall T, primary_of T g = ctx_primary x T.

Lemma in_context_frame x keys g g' : in_context x g -> frame keys g g' -> in_context x g'.
Proof.
  intros (_ & Ht & Hp) F. split_and!; [apply F|..]; intros T; [rewrite (fr_tables _ _ _ F); apply Ht|rewrite (fr_primary _ _ _ F); apply Hp].
Qed.

(** A step: the column it is about, its condition on the column, what it does and how it leaves
    the column. *)
Record step := MkStep { on : key; before : option Column -> Prop; run : Group -> schema_result Group; after : option Column -> Prop }.

Definition cell_at (k : key) : Group -> option Column := cell k.1 k.2.

Definition step_ok (x : context) (b : step) : Prop :=
  forall g, in_context x g -> before b (cell_at (on b) g) ->
    exists g', run b g = Fine g' /\ frame [on b] g g' /\ after b (cell_at (on b) g').

Definition run_steps (bs : list step) : Group -> schema_result Group := fold_schema run bs.

Lemma steps_run x bs : NoDup (on <$> bs) -> (forall b, b ∈ bs -> step_ok x b) -> forall g, in_context x g ->
  (forall b, b ∈ bs -> before b (cell_at (on b) g)) ->
  exists g', run_steps bs g = Fine g' /\ frame (on <$> bs) g g' /\ forall b, b ∈ bs -> after b (cell_at (on b) g').
Proof.
  induction bs as [|b bs IH]; intros Hn Hok g Hg Hpre.
  { exists g. split_and!; [done|apply frame_refl, Hg|by intros b Hb%not_elem_of_nil]. }
  apply NoDup_cons in Hn as [Hb Hn]. destruct (Hok b ltac:(left) g Hg (Hpre b ltac:(left))) as (g1 & E1 & F1 & A1).
  assert (forall d, d ∈ bs -> on d <> on b) as Hne by (intros d Hd E; apply Hb; rewrite <- E; by apply list_elem_of_fmap_2).
  destruct (IH Hn ltac:(intros d Hd; apply Hok; by right) g1 (in_context_frame x _ g g1 Hg F1)) as (g2 & E2 & F2 & A2).
  { intros d Hd. unfold cell_at. rewrite (fr_cell _ _ _ F1); [apply Hpre; by right|]. rewrite list_elem_of_singleton.
    rewrite <- surjective_pairing. by apply Hne. }
  exists g2. split_and!.
  - unfold run_steps. cbn. rewrite E1. exact E2.
  - exact (frame_trans _ _ _ _ _ F1 F2).
  - intros d [->|Hd]%elem_of_cons; [|by apply A2]. unfold cell_at. rewrite (fr_cell _ _ _ F2); [exact A1|]. by rewrite <- surjective_pairing.
Qed.
End passes.

(** ** Types of columns and of properties *)

Lemma core_type_round t : kind t <> Object -> kind t <> LinkingObjects -> kind t <> Any ->
  exists ty, to_core_type t = Fine ty /\ plain_type ty /\
    (forall c, c_type c = ty -> from_core_type c = Fine (MkType (kind t) (c_nullable c) (c_list c))) /\
    (kind t ∈ [Int; Bool; Date; String_] -> indexable_type ty) /\ (kind t = Int \/ kind t = String_ -> primary_key_type ty).
Proof.
  intros H1 H2 H3. unfold to_core_type, plain_type, indexable_type, primary_key_type, from_core_type.
  destruct (kind t) eqn:E; try done; eexists; (split_and!; [reflexivity|by repeat constructor|by intros c ->|..]);
    try (intros _; by repeat constructor); rewrite !elem_of_cons, elem_of_nil; intuition discriminate.
Qed.

Lemma indexable_column c pt : from_core_type c = Fine pt -> kind pt ∈ [Int; Bool; Date; String_] ->
  indexable_type (c_type c) /\ is_array pt = c_list c.
Proof.
  unfold from_core_type, indexable_type. destruct (c_type c); intros [= <-]; cbn [kind is_array]; rewrite !elem_of_cons, elem_of_nil; intuition discriminate.
Qed.

Lemma nullable_column c pt : from_core_type c = Fine pt -> kind pt <> Object ->
  c_type c <> type_Link /\ c_type c <> type_LinkList /\ is_nullable pt = c_nullable c.
Proof. unfold from_core_type. destruct (c_type c); intros [= <-]; cbn; intros; split_and!; congruence. Qed.

Lemma from_core_with_nullability nullable k c pt : from_core_type c = Fine pt -> kind pt <> Object ->
  from_core_type (with_nullability nullable k c) = Fine (MkType (kind pt) nullable (is_array pt)).
Proof. unfold from_core_type. cbn. destruct (c_type c); intros [= <-]; cbn; congruence. Qed.

Section steps.
Context `{StoreSpec} (s : Schema) (x : context).

(** ** The primary key *)

Lemma primary_kept keys g g' T n : group_ok g -> frame keys g g' -> (forall m, (T, m) ∈ keys -> m = n) ->
  (forall c, cell T n g = Some c -> primary_of T g <> Some (c_key c)) ->
  forall c', cell T n g' = Some c' -> primary_of T g' <> Some (c_key c').
Proof.
  intros Hg F Hk Hc c' Ec' Ep. rewrite (fr_primary _ _ _ F) in Ep.
  destruct (cell_some T n g' c' (fr_ok _ _ _ F) Ec') as (t' & Et' & En' & Ecn & _).
  assert (exists t, get_table T g = Some t) as [t Et] by (apply (fr_tables _ _ _ F T); by exists t').
  unfold primary_of in Ep. rewrite Et in Ep. cbn in Ep. pose proof (get_table_wf T g t Hg Et) as Ht.
  destruct (wf_primary t Ht _ Ep) as (d & Hd & Ek & _). assert (column_named (c_name d) t = Some d) as Ed by by apply column_named_iff.
  destruct (decide (c_name d = n)) as [En|En].
  - apply (Hc d); [unfold cell; rewrite Et; cbn; by rewrite <- En|]. unfold primary_of. rewrite Et. cbn. congruence.
  - assert (cell T (c_name d) g' = Some d) as Ed'.
    { rewrite (fr_cell _ _ _ F); [unfold cell; by rewrite Et|]. intros Hin. apply En. by apply Hk. }
    pose proof (get_table_wf T g' t' (fr_ok _ _ _ F) Et') as Ht'. unfold cell in Ed'. rewrite Et' in Ed'. cbn in Ed'.
    apply column_named_iff in Ed' as [Hd' _]; [|done]. apply column_named_iff in En' as [Hc' _]; [|done].
    apply En. by rewrite (columns_same t' d c' Ht' Hd' Hc' Ek).
Qed.

Lemma not_primary_column T g c : primary_of T g <> Some (c_key c) -> is_primary_column (primary_of T g) c = false.
Proof. intros Hp. by apply bool_decide_eq_false. Qed.

(** ** One column *)

Section column.
Context (o : ObjectSchema) (Ho : storable o) (Hv : object_valid s o).
Context (Htables : forall o', o' ∈ s -> ctx_tables x (table_name_for_object_type (o_name o'))) (Hin : o ∈ s).
Local Abbreviation T := (table_name_for_object_type (o_name o)).

Lemma context_table g : in_context x g -> exists t, get_table T g = Some t.
Proof. intros (_ & Ht & _). by apply Ht, Htables. Qed.

Section property.
Context (p : Property) (Hp : p ∈ persisted_properties o).
Local Abbreviation n := (p_name p).

Lemma property_fits : property_valid s (o_name o) p.
Proof. apply (properties_valid s o Hv). unfold properties. rewrite elem_of_app. by left. Qed.

Lemma plain_object_type : kind (p_type p) <> Object -> object_type p = ""%string.
Proof.
  intros Hk. pose proof (target_type _ _ _ property_fits) as Ht. rewrite decide_False in Ht; [done|].
  intros [?|?]; [done|]. by destruct (st_kinds o Ho p Hp).
Qed.

Lemma index_kind : requires_index p = true -> kind (p_type p) ∈ [Int; Bool; Date; String_].
Proof.
  unfold requires_index. intros [Hpk|Hi]%orb_true_iff; [|by apply (indexed_type _ _ _ property_fits)].
  rewrite !elem_of_cons. destruct (primary_type _ _ _ property_fits Hpk); tauto.
Qed.

Lemma link_nullability : kind (p_type p) = Object -> is_nullable (p_type p) = negb (is_array (p_type p)).
Proof.
  intros Hk. destruct (is_array (p_type p)) eqn:Ea; [|by apply (link_nullable _ _ _ property_fits)].
  destruct (is_nullable (p_type p)) eqn:En; [|done]. destruct (nullable_allowed _ _ _ property_fits En) as [_ Hn]. specialize (Hn Hk). congruence.
Qed.

Lemma link_target : kind (p_type p) = Object -> exists o', o' ∈ s /\ o_name o' = object_type p.
Proof. intros Hk. pose proof (target_type _ _ _ property_fits) as Ht. rewrite decide_True in Ht by tauto. exact Ht. Qed.

Lemma link_no_index : kind (p_type p) = Object -> requires_index p = false.
Proof.
  intros Hk. destruct (requires_index p) eqn:E; [|done]. apply index_kind in E. rewrite Hk, !elem_of_cons, elem_of_nil in E. intuition discriminate.
Qed.

(** A property that asks for the column that [p] asks for. *)
Definition like (q : Property) : Prop :=
  p_name q = n /\ p_type q = p_type p /\ object_type q = object_type p /\ requires_index q = requires_index p.

Lemma add_column_fits q g : like q -> in_context x g -> cell T n g = None ->
  exists g' c, add_property_column T q g = Fine (g', c_key c) /\ frame [(T, n)] g g' /\ cell T n g' = Some c /\
    column_fits (ctx_primary x T) p c = true.
Proof.
  intros (Eqn & Eqt & Eqo & Eqi) Hg En. destruct (context_table g Hg) as [t Et]. destruct Hg as (Hok & Htt & Hpk).
  assert (column_named n t = None) as Ent by (unfold cell in En; by rewrite Et in En).
  destruct (st_columns o Ho p Hp) as (Hname & _ & _). destruct (st_kinds o Ho p Hp) as [Hkl Hka].
  unfold add_property_column. rewrite Eqt, Eqn, Et, Eqi, Eqo. apply is_kind_false in Hkl as Ekl. rewrite Ekl. cbn [negb schema_assert mbind schema_bind option_bind]. rewrite Ent.
  assert ((if is_primary q then None else None) = @None Column) as -> by by destruct (is_primary q).
  destruct (is_kind (p_type p) Object) eqn:Eko.
  - apply is_kind_true in Eko. destruct (link_target Eko) as (o' & Ho' & Eo').
    assert (is_Some (get_table (table_name_for_object_type (object_type p)) g)) as Htarget by (rewrite <- Eo'; by apply Htt, Htables).
    rewrite bool_decide_true by done. cbn [schema_assert mbind schema_bind].
    destruct (add_column_link_new T (if is_array (p_type p) then type_LinkList else type_Link) n (table_name_for_object_type (object_type p)) t g)
      as (g' & k & nul & l & E & Hok' & Hset); [done|done|done|destruct (is_array _); tauto|done|done|].
    destruct (column_set_frame T n _ g g' Hok Hok' Hset) as [F Ec]. match type of Ec with _ = Some ?c => exists g', c end. split_and!; [exact E|exact F|exact Ec|].
    assert (is_primary_column (ctx_primary x T) (MkColumn k n (if is_array (p_type p) then type_LinkList else type_Link) nul l
              (table_name_for_object_type (object_type p)) false) = false) as Epk.
    { rewrite <- Hpk, <- (fr_primary _ _ _ F). apply not_primary_column. eapply (primary_kept [(T, n)] g g' T n Hok F); [|congruence|exact Ec].
      intros m Hm. apply list_elem_of_singleton in Hm. congruence. }
    unfold column_fits. rewrite Epk. unfold from_core_type, same_kind, link_object_type. cbn [c_type c_target c_indexed].
    rewrite (link_no_index Eko). pose proof (link_nullability Eko) as Enul. destruct (is_array (p_type p)) eqn:Ea; cbn [kind is_kind is_array is_nullable];
      rewrite Eko, Enul, ?bool_decide_true by done; rewrite ?object_type_of_table_name; by rewrite ?bool_decide_true.
  - apply is_kind_false in Eko. destruct (core_type_round (p_type p) Eko Hkl Hka) as (ty & Ety & Hplain & Hfrom & Hindex & _).
    assert (forall c, c_type c = ty -> c_nullable c = is_nullable (p_type p) -> c_list c = is_array (p_type p) ->
              (c_indexed c || is_primary_column (ctx_primary x T) c) = requires_index p -> column_fits (ctx_primary x T) p c = true) as Hfit.
    { intros c Hc1 Hc2 Hc3 Hc4. unfold column_fits. rewrite (Hfrom c Hc1), Hc2, Hc3, Hc4. unfold same_kind, link_object_type. cbn [kind is_array is_nullable].
      apply is_kind_false in Eko as Eko'. unfold is_kind in *. cbn [kind]. rewrite Eko', (plain_object_type Eko), !bool_decide_true by done. by rewrite !eqb_reflx. }
    assert (forall c g', frame [(T, n)] g g' -> cell T n g' = Some c -> is_primary_column (ctx_primary x T) c = false) as Hnot.
    { intros c g' F Ec. rewrite <- Hpk, <- (fr_primary _ _ _ F). apply not_primary_column. eapply (primary_kept [(T, n)] g g' T n Hok F); [|congruence|exact Ec].
      intros m Hm. apply list_elem_of_singleton in Hm. congruence. }
    destruct (is_array (p_type p)) eqn:Ea.
    + assert (to_core_type (without_flags (p_type p)) = Fine ty) as -> by (unfold to_core_type in *; exact Ety). cbn [mbind schema_bind].
      destruct (add_column_list_new T ty n (is_nullable (p_type p)) t g) as (g' & k & E & Hok' & Hset); [done..|].
      destruct (column_set_frame T n _ g g' Hok Hok' Hset) as [F Ec]. match type of Ec with _ = Some ?c => exists g', c end. split_and!; [exact E|exact F|exact Ec|].
      apply Hfit; [done..|]. rewrite (Hnot _ g' F Ec). destruct (requires_index p) eqn:Ei; [|done].
      rewrite (st_index o Ho p Hp Ei) in Ea. done.
    + rewrite Ety. cbn [mbind schema_bind].
      destruct (add_column_new T ty n (is_nullable (p_type p)) t g) as (g1 & k & E & Hok1 & Hset); [done..|].
      rewrite E. cbn [mbind schema_bind]. destruct (column_set_frame T n _ g g1 Hok Hok1 Hset) as [F Ec]. destruct (requires_index p) eqn:Ei.
      * set (c := MkColumn k n ty (is_nullable (p_type p)) false "" false) in *. destruct (cell_some T n g1 c Hok1 Ec) as (t1 & Et1 & En1 & _ & _).
        destruct (add_search_index_law T c t1 g1 Hok1 Et1 En1) as (g2 & E2 & Hok2 & Hset2); [by apply Hindex, index_kind|done|].
        change (add_search_index T k g1) with (add_search_index T (c_key c) g1). rewrite E2. cbn [mbind schema_bind].
        destruct (column_set_frame T n _ g1 g2 Hok1 Hok2 Hset2) as [F2 Ec2].
        assert (frame [(T, n)] g g2) as F'.
        { eapply frame_weaken; [|exact (frame_trans _ _ _ _ _ F F2)]. intros k'. rewrite elem_of_app. tauto. }
        exists g2, (with_index true c). split_and!; [done|exact F'|exact Ec2|]. apply Hfit; [done..|]. by rewrite (Hnot _ g2 F' Ec2).
      * match type of Ec with _ = Some ?c => exists g1, c end. split_and!; [done|exact F|exact Ec|]. apply Hfit; [done..|]. by rewrite (Hnot _ g1 F Ec).
Qed.
End property.

Lemma remove_column_step c g : in_context x g -> cell T (c_name c) g = Some c -> ctx_primary x T <> Some (c_key c) ->
  exists g', remove_column T (c_key c) g = Fine g' /\ frame [(T, c_name c)] g g' /\ cell T (c_name c) g' = None.
Proof.
  intros (Hok & _ & Hpk) Ec Hn. destruct (cell_some T _ g c Hok Ec) as (t & Et & En & _ & Ep).
  destruct (remove_column_law T c t g Hok Et En) as (g' & E & Hok' & Hset); [by rewrite Ep, Hpk|].
  exists g'. split; [done|]. by apply column_set_frame.
Qed.
End column.
End steps.
