(* ===== verification/SchemaChunks.v ===== *)
(** The changes that [compare] makes of one column, through the pass before a migration and the
    pass after it. *)

From S2P Require Import Prelude SchemaData SchemaValidation SchemaChanges SchemaStore SchemaLaws SchemaRead SchemaApply SchemaPasses.
#[local] Open Scope Z_scope.

(** ** Changes that do not get in each other's way *)

Definition index_change (ch : SchemaChange) : bool := match ch with AddIndex _ _ | RemoveIndex _ _ => true | _ => false end.

Definition indexes (o : ObjectSchema) (p : Property) (ch : SchemaChange) : bool :=
  match ch with
  | AddIndex o' p' | RemoveIndex o' p' => bool_decide (o_name o' = o_name o) && bool_decide (p_name p' = p_name p)
  | _ => false
  end.

(** The primary key stays the same property of the same type, and no property changes both whether
    it is optional and whether it has an index. *)
Definition simple_change (changes : list SchemaChange) (ch : SchemaChange) : bool :=
  match ch with
  | ChangePrimaryKey _ _ => false
  | ChangePropertyType _ p _ => negb (is_primary p)
  | MakePropertyNullable o p | MakePropertyRequired o p => negb (is_primary p) && negb (existsb (indexes o p) changes)
  | _ => true
  end.
Definition simple_changes (changes : list SchemaChange) : bool := forallb (simple_change changes) changes.

(** A pass that does the changes before a migration, and removes properties or leaves them. *)
Definition like_pre_migration `{Store} (removes : bool) (f : SchemaChange -> Group -> schema_result Group) : Prop :=
  forall ch g, match ch with
               | ChangePrimaryKey _ _ => True
               | RemoveProperty e p => f ch g = if removes then on_table e (fun t g => remove_column t (column_key p) g) g else Fine g
               | _ => f ch g = pre_migration_change ch g
               end.

Section chunk.
Context `{StoreSpec} (s : Schema) (x : context) (o : ObjectSchema) (Ho : storable o) (Hv : object_valid s o).
Context (Htables : forall o', o' ∈ s -> ctx_tables x (table_name_for_object_type (o_name o'))) (Hin : o ∈ s).
Local Abbreviation T := (table_name_for_object_type (o_name o)).
Local Abbreviation prim := (ctx_primary x T).

Lemma on_table_run e (op : string -> Group -> schema_result Group) g : o_name e = o_name o -> in_context x g -> on_table e op g = op T g.
Proof.
  intros En Hg. destruct (context_table s x o Htables Hin g Hg) as [t Et]. unfold on_table, table_of, table_for_object_type. rewrite En, Et. cbn.
  by apply get_table_name in Et as [_ ->].
Qed.

Lemma index_step indexed c g : in_context x g -> cell T (c_name c) g = Some c ->
  (if indexed : bool then indexable_type (c_type c) /\ c_list c = false else prim <> Some (c_key c)) ->
  exists g', (if indexed then add_search_index T (c_key c) g else remove_search_index T (c_key c) g) = Fine g' /\
    frame [(T, c_name c)] g g' /\ cell T (c_name c) g' = Some (with_index indexed c).
Proof.
  intros (Hok & _ & Hpk) Ec Hi. destruct (cell_some T _ g c Hok Ec) as (t & Et & En & _ & Ep).
  assert (exists g', (if indexed then add_search_index T (c_key c) g else remove_search_index T (c_key c) g) = Fine g' /\ group_ok g' /\
            column_set T (c_name c) (Some (with_index indexed c)) g g') as (g' & E & Hok' & Hset).
  { destruct indexed; [apply (add_search_index_law T c t); tauto|apply (remove_search_index_law T c t); [done..|]]. by rewrite Ep, Hpk. }
  exists g'. split; [done|]. by apply column_set_frame.
Qed.

Lemma fits_with_index p c indexed : column_fits prim p c = true -> (indexed || is_primary_column prim c) = requires_index p ->
  column_fits prim p (with_index indexed c) = true.
Proof.
  unfold column_fits. change (from_core_type (with_index indexed c)) with (from_core_type c). destruct (from_core_type c) as [pt|]; [|done].
  cbn [c_indexed with_index]. change (is_primary_column prim (with_index indexed c)) with (is_primary_column prim c).
  change (link_object_type pt (with_index indexed c)) with (link_object_type pt c). intros Hf ->.
  apply andb_true_iff in Hf as [-> _]. by rewrite eqb_reflx.
Qed.

(** ** One current column *)

Context (e : ObjectSchema) (He : o_name e = o_name o) (c : Column) (pt : PropertyType) (Hpt : from_core_type c = Fine pt).
Context (Hprim : is_primary_column prim c = true -> c_name c = primary_key o /\ c_name c <> ""%string).
Local Abbreviation n := (c_name c).
Local Abbreviation cur := (current_property prim c pt).
Local Abbreviation chunk := (compare_property e o cur).

Lemma primary_stays p : persisted_named o n = Some p -> is_primary p = false -> prim <> Some (c_key c).
Proof.
  intros Ep Hf E. destruct Hprim as [En _]; [by apply bool_decide_eq_true|]. apply (persisted_named_iff s o Hv) in Ep as [Hp Epn].
  rewrite (st_primary o Ho p Hp), bool_decide_true in Hf by congruence. done.
Qed.

Lemma removed_not_primary : persisted_named o n = None -> prim <> Some (c_key c).
Proof.
  intros Ep E. destruct Hprim as [En Hn]; [by apply bool_decide_eq_true|]. apply (persisted_named_none o) in Ep. apply Ep. rewrite En.
  apply (st_has_primary o Ho). congruence.
Qed.

(** What the first pass leaves. *)
Definition mid (removes : bool) (cell' : option Column) : Prop :=
  match persisted_named o n with
  | None => if removes then cell' = None else cell' = Some c
  | Some p => exists c', cell' = Some c' /\ column_fits prim p c' = true /\ (existsb index_change chunk = true -> c_key c' = c_key c)
  end.

Section first.
Context (removes : bool) (f : SchemaChange -> Group -> schema_result Group) (Hf : like_pre_migration removes f).

Lemma not_primary_simple : is_primary cur = false -> prim <> Some (c_key c).
Proof. intros E. by apply bool_decide_eq_false in E. Qed.

Lemma like_pre ch g : match ch with ChangePrimaryKey _ _ | RemoveProperty _ _ => False | _ => True end -> f ch g = pre_migration_change ch g.
Proof. intros Hch. specialize (Hf ch g). by destruct ch. Qed.

Lemma retype_step p g : in_context x g -> cell T n g = Some c -> persisted_named o n = Some p -> is_primary cur = false ->
  exists g' c', on_table e (fun t g => replace_column t cur p g) g = Fine g' /\ frame [(T, n)] g g' /\ cell T n g' = Some c' /\ column_fits prim p c' = true.
Proof.
  intros Hg Ec Ep Hnp. rewrite on_table_run by done. unfold replace_column. cbn [column_key current_property].
  destruct (remove_column_step x o c g Hg Ec (not_primary_simple Hnp)) as (g1 & E1 & F1 & C1). rewrite E1. cbn [mbind schema_bind].
  apply (persisted_named_iff s o Hv) in Ep as [Hp Epn]. rewrite <- Epn in C1 |- *.
  destruct (add_column_fits s x o Ho Hv Htables Hin p Hp p g1) as (g2 & c2 & E2 & F2 & C2 & Hfit); [done|by eapply in_context_frame|done|].
  rewrite E2. exists g2, c2. split_and!; [done| |done|done]. rewrite <- Epn in F1.
  eapply frame_weaken; [|exact (frame_trans _ _ _ _ _ F1 F2)]. intros k. rewrite elem_of_app. tauto.
Qed.

Lemma optional_step p g : in_context x g -> cell T n g = Some c -> persisted_named o n = Some p -> is_primary cur = false ->
  same_kind pt (p_type p) = true -> link_object_type pt c = object_type p -> is_array pt = is_array (p_type p) -> is_nullable (p_type p) = true ->
  is_nullable pt = false -> c_indexed c = requires_index p ->
  exists g' c', on_table e (fun t g => make_property_optional t cur g) g = Fine g' /\ frame [(T, n)] g g' /\ cell T n g' = Some c' /\ column_fits prim p c' = true.
Proof.
  intros Hg Ec Ep Hnp Hk Hl Ha Hnul Hpn Hi. rewrite on_table_run by done. unfold make_property_optional. cbn [column_key current_property].
  destruct Hg as (Hok & Htt & Hpk). destruct (cell_some T _ g c Hok Ec) as (t & Et & En & _ & Ept).
  apply (persisted_named_iff s o Hv) in Ep as [Hp Epn]. apply bool_decide_eq_true in Hk as Hk'.
  assert (kind pt <> Object) as Hko.
  { intros Hko. pose proof (link_nullability s o Hv p Hp ltac:(congruence)) as Hln. rewrite Hnul in Hln. unfold from_core_type in Hpt.
    destruct (c_type c); try discriminate Hpt; injection Hpt as <-; cbn in Hko, Hpn, Ha; try done; rewrite <- Ha in Hln; done. }
  destruct (nullable_column c pt Hpt Hko) as (Hl1 & Hl2 & _).
  destruct (set_nullability_law T c true t g Hok Et En) as (g' & k & E & Hok' & Hset); [rewrite Ept, Hpk; by apply not_primary_simple|done|done|].
  destruct (column_set_frame T n _ g g' Hok Hok' Hset) as [F C]. rewrite E. eexists g', _. split_and!; [done|exact F|exact C|].
  unfold column_fits. rewrite (from_core_with_nullability true k c pt Hpt Hko). unfold same_kind in *. cbn [kind is_array is_nullable c_indexed with_nullability].
  change (link_object_type (MkType (kind pt) true (is_array pt)) (with_nullability true k c)) with (link_object_type pt c).
  rewrite Hk, Hl, Ha, Hnul, Hi, bool_decide_true, !eqb_reflx by done. cbn [andb].
  assert (is_primary_column prim (with_nullability true k c) = false) as ->; [|by rewrite orb_false_r, eqb_reflx].
  rewrite <- Hpk, <- (fr_primary _ _ _ F). apply not_primary_column. eapply (primary_kept [(T, n)] g g' T n Hok F); [| |exact C].
  - intros m Hm. apply list_elem_of_singleton in Hm. congruence.
  - intros c'. rewrite Ec. intros [= <-]. rewrite Hpk. by apply not_primary_simple.
Qed.

Lemma required_step p g : in_context x g -> cell T n g = Some c -> persisted_named o n = Some p -> is_primary cur = false ->
  same_kind pt (p_type p) = true -> link_object_type pt c = object_type p -> is_array pt = is_array (p_type p) -> is_nullable (p_type p) = false ->
  c_indexed c = requires_index p ->
  exists g' c', on_table e (fun t g => make_property_required t cur g) g = Fine g' /\ frame [(T, n)] g g' /\ cell T n g' = Some c' /\ column_fits prim p c' = true.
Proof.
  intros Hg Ec Ep Hnp Hk Hl Ha Hnul Hi. rewrite on_table_run by done. unfold make_property_required. cbn [column_key with_type current_property].
  destruct (remove_column_step x o c g Hg Ec (not_primary_simple Hnp)) as (g1 & E1 & F1 & C1). rewrite E1. cbn [mbind schema_bind].
  apply (persisted_named_iff s o Hv) in Ep as [Hp Epn].
  assert (like p (with_type (without_nullable (p_type cur)) cur)) as Hlike.
  { unfold like. cbn. split_and!; [done| |done|].
    - apply bool_decide_eq_true in Hk. unfold without_nullable. destruct (p_type p) as [kd nu ar]. cbn in *. congruence.
    - unfold requires_index at 1. cbn. cbn in Hnp. rewrite Hnp. by rewrite orb_false_r. }
  rewrite <- Epn in C1. destruct (add_column_fits s x o Ho Hv Htables Hin p Hp _ g1 Hlike) as (g2 & c2 & E2 & F2 & C2 & Hfit); [by eapply in_context_frame|done|].
  cbn in E2. cbn. rewrite E2. exists g2, c2. rewrite <- Epn. split_and!; [done| |done|done]. rewrite <- Epn in F1.
  eapply frame_weaken; [|exact (frame_trans _ _ _ _ _ F1 F2)]. intros k. rewrite elem_of_app. tauto.
Qed.

(** Where nothing but the index may differ. *)
Lemma fits_but_index p : same_kind pt (p_type p) = true -> link_object_type pt c = object_type p -> is_array pt = is_array (p_type p) ->
  is_nullable pt = is_nullable (p_type p) -> column_fits prim p c = Bool.eqb (c_indexed c || is_primary_column prim c) (requires_index p).
Proof.
  intros Hk Hl Ha Hn. unfold column_fits. rewrite Hpt, Hk, Hl, Ha, Hn, bool_decide_true, !eqb_reflx by done. done.
Qed.

Lemma indexable_current p : p ∈ persisted_properties o -> same_kind pt (p_type p) = true -> is_array pt = is_array (p_type p) ->
  requires_index p = true -> indexable_type (c_type c) /\ c_list c = false.
Proof.
  intros Hp Hk Ha Hi. apply bool_decide_eq_true in Hk. pose proof (index_kind s o Hv p Hp Hi) as Hkind. rewrite <- Hk in Hkind.
  destruct (indexable_column c pt Hpt Hkind) as [Ht <-]. split; [done|]. rewrite Ha. by apply (st_index o Ho p).
Qed.

Lemma add_index_run p g : in_context x g -> cell T n g = Some c -> p ∈ persisted_properties o -> same_kind pt (p_type p) = true ->
  is_array pt = is_array (p_type p) -> requires_index p = true ->
  exists g', f (AddIndex e cur) g = Fine g' /\ frame [(T, n)] g g' /\ cell T n g' = Some (with_index true c).
Proof.
  intros Hg Ec Hp Hk Ha Hi. rewrite like_pre by done. cbn [pre_migration_change]. unfold add_index. rewrite on_table_run by done.
  cbn [column_key current_property]. apply (index_step true c g Hg Ec). by apply (indexable_current p).
Qed.

Lemma remove_index_run p g : in_context x g -> cell T n g = Some c -> persisted_named o n = Some p -> requires_index p = false ->
  exists g', f (RemoveIndex e cur) g = Fine g' /\ frame [(T, n)] g g' /\ cell T n g' = Some (with_index false c) /\ is_primary_column prim c = false.
Proof.
  intros Hg Ec Ep Hi. rewrite like_pre by done. cbn [pre_migration_change]. unfold remove_index. rewrite on_table_run by done.
  cbn [column_key current_property]. assert (prim <> Some (c_key c)) as Hnp by (apply (primary_stays p Ep); by apply orb_false_iff in Hi as [-> _]).
  destruct (index_step false c g Hg Ec Hnp) as (g' & E & F & C). exists g'. split_and!; [done..|]. by apply bool_decide_eq_false.
Qed.

Lemma first_chunk g : (forall ch, ch ∈ chunk -> simple_change chunk ch = true) -> in_context x g -> cell T n g = Some c ->
  exists g', fold_schema f chunk g = Fine g' /\ frame [(T, n)] g g' /\ mid removes (cell T n g').
Proof.
  intros Hsimple Hg Ec. unfold mid. revert Hsimple. rewrite (compare_property_cases s o Ho Hv). cbn [p_name current_property].
  destruct (persisted_named o n) as [p|] eqn:Ep; intros Hsimple0.
  2:{ pose proof (Hf (RemoveProperty e cur) g) as E. cbn in E. cbn [fold_schema]. destruct removes; rewrite E.
    - rewrite on_table_run by done. destruct (remove_column_step x o c g Hg Ec (removed_not_primary Ep)) as (g' & -> & F & C). by exists g'.
    - exists g. split_and!; [done|apply frame_refl, Hg|done]. }
  pose proof Ep as Ep'. apply (persisted_named_iff s o Hv) in Ep' as [Hp Epn]. cbn [p_type object_type current_property] in *.
  destruct (same_kind pt (p_type p)) eqn:Hk, (bool_decide (link_object_type pt c = object_type p)) eqn:Hl, (Bool.eqb (is_array pt) (is_array (p_type p))) eqn:Ha;
    cbn [negb orb] in *; try (
      assert (is_primary cur = false) as Hnp by (specialize (Hsimple0 _ ltac:(left)); cbn in Hsimple0 |- *; by apply negb_true_iff in Hsimple0);
      destruct (retype_step p g Hg Ec Ep Hnp) as (g' & c' & E & F & C & Hfit); exists g'; cbn [fold_schema]; rewrite like_pre by done;
      cbn [pre_migration_change]; rewrite E; split_and!; [done..|]; by exists c').
  apply bool_decide_eq_true in Hl. apply eqb_prop in Ha. cbn [is_indexed current_property] in *. change (requires_index cur) with (is_primary_column prim c || (c_indexed c || is_primary_column prim c)) in *.
  destruct (Bool.eqb (is_nullable pt) (is_nullable (p_type p))) eqn:Hn; cbn [negb app] in *.
  - clear Hsimple0. apply eqb_prop in Hn. pose proof (fits_but_index p Hk Hl Ha Hn) as Hfit. destruct (requires_index p) eqn:Hi.
    + destruct (c_indexed c || is_primary_column prim c) eqn:Hci; cbn [negb].
      * exists g. split_and!; [done|apply frame_refl, Hg|]. by exists c.
      * destruct (add_index_run p g Hg Ec Hp Hk Ha Hi) as (g' & E & F & C). exists g'. cbn [fold_schema]. rewrite E. split_and!; [done..|].
        exists (with_index true c). split_and!; [done| |done]. revert Hi Hci. clear -Hpt Hk Hl Ha Hn. intros Hi Hci.
        unfold column_fits. change (from_core_type (with_index true c)) with (from_core_type c). rewrite Hpt, Hk, Ha, Hn, Hi, !eqb_reflx.
        cbn [c_indexed with_index]. change (link_object_type pt (with_index true c)) with (link_object_type pt c). by rewrite bool_decide_true.
    + destruct (is_primary_column prim c || (c_indexed c || is_primary_column prim c)) eqn:Hci.
      * destruct (remove_index_run p g Hg Ec Ep Hi) as (g' & E & F & C & Hnp). exists g'. cbn [fold_schema]. rewrite E. split_and!; [done..|].
        exists (with_index false c). split_and!; [done| |done].
        unfold column_fits. change (from_core_type (with_index false c)) with (from_core_type c). rewrite Hpt, Hk, Ha, Hn, Hi, !eqb_reflx.
        cbn [c_indexed with_index]. change (link_object_type pt (with_index false c)) with (link_object_type pt c).
        change (is_primary_column prim (with_index false c)) with (is_primary_column prim c). by rewrite Hnp, bool_decide_true.
      * apply orb_false_iff in Hci as [_ Hci]. exists g. split_and!; [done|apply frame_refl, Hg|]. exists c. split_and!; [done| |done]. by rewrite Hfit, Hci.
  - assert (exists ch, (if is_nullable pt then [MakePropertyRequired e cur] else [MakePropertyNullable e cur]) = [ch] /\
              index_change ch = false /\
              forall l, simple_change ([ch] ++ l) ch = true -> is_primary cur = false /\ existsb (indexes e cur) l = false) as (ch & Ech & Hni & Hch).
    { destruct (is_nullable pt); eexists; (split_and!; [reflexivity|done|]); intros l E; cbn in E; apply andb_true_iff in E as [E1 E2];
        split; [by apply negb_true_iff in E1|by apply negb_true_iff in E2|by apply negb_true_iff in E1|by apply negb_true_iff in E2]. }
    rewrite Ech in Hsimple0 |- *. destruct (Hch _ (Hsimple0 ch ltac:(left))) as [Hnp Hno].
    cbn [is_primary current_property] in Hnp. rewrite Hnp in Hno |- *. cbn [orb] in *. rewrite orb_false_r in Hno |- *.
    assert (c_indexed c = requires_index p) as Hi.
    { destruct (requires_index p), (c_indexed c); try done; cbn [negb existsb indexes] in Hno; rewrite !bool_decide_true in Hno by done; done. }
    assert ((if requires_index p then if negb (c_indexed c) then [AddIndex e cur] else [] else if c_indexed c then [RemoveIndex e cur] else []) = []) as ->
      by (rewrite Hi; by destruct (requires_index p)).
    cbn [app fold_schema]. assert (exists g' c', f ch g = Fine g' /\ frame [(T, n)] g g' /\ cell T n g' = Some c' /\ column_fits prim p c' = true)
      as (g' & c' & E & F & C & Hfit).
    { destruct (is_nullable pt) eqn:Hnul; injection Ech as <-; rewrite like_pre by done; cbn [pre_migration_change].
      - apply (required_step p); try done. by destruct (is_nullable (p_type p)).
      - apply (optional_step p); try done. by destruct (is_nullable (p_type p)). }
    rewrite E. exists g'. split_and!; [done..|]. exists c'. split_and!; [done..|]. cbn. by rewrite Hni.
Qed.
End first.

(** The pass after a migration that no function took part in. *)
Lemma second_chunk char_is_signed g : in_context x g -> mid false (cell T n g) -> hidden n = false ->
  exists g', fold_schema (post_migration_change char_is_signed [] No) chunk g = Fine g' /\ frame [(T, n)] g g' /\ cell_settled o prim n (cell T n g').
Proof.
  intros Hg Hmid Hh. unfold mid in Hmid. unfold cell_settled. revert Hmid. rewrite (compare_property_cases s o Ho Hv). cbn [p_name current_property].
  destruct (persisted_named o n) as [p|] eqn:Ep; intros Hmid.
  2:{ destruct (context_table s x o Htables Hin g Hg) as [t Et]. pose proof (get_table_name _ _ _ Et) as [_ Etn].
    cbn [fold_schema post_migration_change]. unfold remove_migrated_property, table_for_object_type. rewrite decide_True by done. cbn [mbind schema_bind].
    rewrite He, Et, Etn. cbn [column_key current_property]. destruct (remove_column_step x o c g Hg Hmid (removed_not_primary Ep)) as (g' & -> & F & C).
    exists g'. split_and!; [done..|]. by rewrite C. }
  destruct Hmid as (c' & Ec' & Hfit & Hkey). pose proof Ep as Ep'. apply (persisted_named_iff s o Hv) in Ep' as [Hp Epn].
  assert (exists g', Fine g = Fine g' /\ frame [(T, n)] g g' /\ match cell T n g' with Some c => column_fits prim p c = true | None => False end) as Hstay.
  { exists g. split_and!; [done|apply frame_refl, Hg|]. by rewrite Ec'. }
  destruct (_ || _ || _); [exact Hstay|]. destruct (cell_some T n g c' (proj1 Hg) Ec') as (_ & _ & _ & Ecn & _).
  assert (c_key c' = c_key c -> exists g', (if requires_index p then add_search_index T (c_key c) g else remove_search_index T (c_key c) g) = Fine g' /\
            frame [(T, n)] g g' /\ match cell T n g' with Some c => column_fits prim p c = true | None => False end) as Hindex.
  { intros Ek. rewrite <- Ek, <- Ecn. rewrite <- Ecn in Ec'.
    assert (if requires_index p then indexable_type (c_type c') /\ c_list c' = false else prim <> Some (c_key c')) as Hcond.
    { destruct (requires_index p) eqn:Hi.
      - unfold column_fits in Hfit. destruct (from_core_type c') as [pt'|] eqn:Ept'; [|done]. rewrite !andb_true_iff in Hfit.
        destruct Hfit as ((((Hk & _) & Ha) & _) & _). apply bool_decide_eq_true in Hk. apply eqb_prop in Ha.
        pose proof (index_kind s o Hv p Hp Hi) as Hkind. rewrite <- Hk in Hkind. destruct (indexable_column c' pt' Ept' Hkind) as [Ht <-].
        split; [done|]. rewrite Ha. by apply (st_index o Ho p).
      - rewrite Ek. apply (primary_stays p Ep). by apply orb_false_iff in Hi as [-> _]. }
    destruct (index_step (requires_index p) c' g Hg Ec' Hcond) as (g' & E & F & C). exists g'. split_and!; [done..|]. rewrite C.
    apply fits_with_index; [done|]. destruct (requires_index p); [done|]. cbn. by apply bool_decide_eq_false. }
  assert (forall l, (forall ch, ch ∈ l -> exists e p, ch = MakePropertyRequired e p \/ ch = MakePropertyNullable e p) -> forall l2,
            fold_schema (post_migration_change char_is_signed [] No) (l ++ l2) g = fold_schema (post_migration_change char_is_signed [] No) l2 g) as Hskip.
  { intros l Hl l2. induction l as [|ch l IH]; [done|]. destruct (Hl ch ltac:(left)) as (e' & p' & [->| ->]); cbn; apply IH; intros ch Hch; apply Hl; by right. }
  rewrite Hskip.
  2:{ intros ch Hch. destruct (negb _); [|by apply not_elem_of_nil in Hch]. destruct (is_nullable _); apply list_elem_of_singleton in Hch as ->; eauto. }
  rewrite existsb_app in Hkey. destruct (requires_index p).
  - destruct (negb (is_indexed _)); [|exact Hstay]. cbn [fold_schema post_migration_change]. unfold add_index. rewrite on_table_run by done.
    cbn [column_key current_property]. destruct Hindex as (g' & E & Hg'); [apply Hkey; cbn; by rewrite orb_true_r|]. rewrite E. by exists g'.
  - destruct (requires_index cur); [|exact Hstay]. cbn [fold_schema post_migration_change]. unfold remove_index. rewrite on_table_run by done.
    cbn [column_key current_property]. destruct Hindex as (g' & E & Hg'); [apply Hkey; cbn; by rewrite orb_true_r|]. rewrite E. by exists g'.
Qed.
End chunk.
