(* ===== verification/SchemaMigration.v ===== *)
(** The passes over all the changes that [compare] finds: new tables, all the changes of a type, and
    where they lead, from a group that is read as the existing schema to one in which the tables
    and columns of the target are settled. *)

From S2P Require Import Prelude SchemaData SchemaValidation SchemaChanges SchemaStore SchemaApply SchemaLaws SchemaRead SchemaPasses SchemaChunks.
#[local] Open Scope Z_scope.

Lemma fold_schema_concat {A S} (f : A -> S -> schema_result S) ls s : fold_schema f (concat ls) s = fold_schema (fold_schema f) ls s.
Proof. revert s. induction ls as [|l ls IH]; intros s; [done|]. cbn. rewrite fold_schema_app. destruct (fold_schema f l s); [apply IH|done]. Qed.

Lemma fold_schema_fmap {A B S} (f : B -> S -> schema_result S) (h : A -> B) l s : fold_schema f (h <$> l) s = fold_schema (fun a => f (h a)) l s.
Proof. revert s. induction l as [|a l IH]; intros s; [done|]. cbn. destruct (f (h a) s); [apply IH|done]. Qed.

Lemma concat_select {A B} (test : A -> option B) {C} (h : A -> C) l :
  concat ((fun a => match test a with None => [h a] | Some _ => [] end) <$> l) = h <$> filter (fun a => test a = None) l.
Proof. induction l as [|a l IH]; [done|]. rewrite filter_cons. cbn. destruct (test a); cbn; [done|by rewrite IH]. Qed.

Section types.
Context `{StoreSpec} (target : Schema) (Htarget : schema_sorted target).
Context (Hvalid : forall o, o ∈ target -> object_valid target o) (Hstorable : forall o, o ∈ target -> storable o).
Local Abbreviation table_of o := (table_name_for_object_type (o_name o)).

(** ** New tables *)

Definition created (o : ObjectSchema) (t : Table) : Prop :=
  exists k, (primary_key o = ""%string /\ t = MkTable k (table_of o) [] None) \/
    (exists p ck ty indexed, persisted_named o (primary_key o) = Some p /\ primary_key o <> ""%string /\ to_core_type (p_type p) = Fine ty /\
       t = MkTable k (table_of o) [MkColumn ck (p_name p) ty (is_nullable (p_type p)) false "" indexed] (Some ck)).

Lemma primary_key_property_none o : o ∈ target -> primary_key o = ""%string -> primary_key_property o = None.
Proof.
  intros Ho E. pose proof (Hstorable o Ho) as Hs. unfold primary_key_property, property_for_name. rewrite E.
  assert (forall n l, (forall p, p ∈ l -> p_name p <> n) -> List.find (named n) l = None) as Hfind.
  { intros n l Hl. apply (find_key_none p_name). intros Hin. apply list_elem_of_fmap in Hin as (p & Ep & Hp). by apply (Hl p). }
  rewrite !Hfind; [done|intros p Hp; by apply (st_computed o Hs)|intros p Hp; by apply (st_columns o Hs)].
Qed.

Lemma primary_key_property_some o : o ∈ target -> primary_key o <> ""%string ->
  exists p, primary_key_property o = Some p /\ persisted_named o (primary_key o) = Some p.
Proof.
  intros Ho E. pose proof (st_has_primary o (Hstorable o Ho) E) as Hin. destruct (persisted_named o (primary_key o)) as [p|] eqn:Ep.
  - exists p. split; [|done]. unfold primary_key_property, property_for_name. fold (persisted_named o (primary_key o)). by rewrite Ep.
  - apply persisted_named_none in Ep. done.
Qed.

Lemma primary_property o p : o ∈ target -> persisted_named o (primary_key o) = Some p ->
  p ∈ persisted_properties o /\ p_name p = primary_key o /\ is_primary p = true /\ is_array (p_type p) = false /\
  (kind (p_type p) = Int \/ kind (p_type p) = String_).
Proof.
  intros Ho Ep. apply (persisted_named_iff target o (Hvalid o Ho)) in Ep as [Hp Epn]. pose proof (Hstorable o Ho) as Hs.
  assert (is_primary p = true) as Hpk by (rewrite (st_primary o Hs p Hp); by apply bool_decide_eq_true).
  split_and!; [done..| |].
  - apply (st_index o Hs p Hp). unfold requires_index. by rewrite Hpk.
  - by apply (primary_type _ _ _ (property_fits target o (Hvalid o Ho) p Hp)).
Qed.

Lemma create_table_new o g : o ∈ target -> group_ok g -> get_table (table_of o) g = None ->
  exists g' t, create_table o g = Fine g' /\ group_ok g' /\ elsewhere (table_of o) g g' /\ get_table (table_of o) g' = Some t /\ created o t.
Proof.
  intros Ho Hg Et. pose proof (Hstorable o Ho) as Hs. destruct (st_name o Hs) as [_ Hname]. unfold create_table.
  destruct (decide (primary_key o = ""%string)) as [E|E].
  - rewrite (primary_key_property_none o Ho E). destruct (get_or_add_new (table_of o) g Hg Hname Et) as (g' & k & Eg & Hg' & He & Et' & _).
    eexists g', _. split_and!; [done..|exact Et'|]. exists k. by left.
  - destruct (primary_key_property_some o Ho E) as (p & -> & Ep). rewrite Et. destruct (primary_property o p Ho Ep) as (Hp & Epn & Hpk & _ & Hkind).
    destruct (st_kinds o Hs p Hp) as [Hk1 Hk2].
    destruct (core_type_round (p_type p)) as (ty & Ety & _ & _ & _ & Hty); [by intros E'; rewrite E' in Hkind; destruct Hkind|done|done|].
    rewrite Ety. cbn [mbind schema_bind]. destruct (st_columns o Hs p Hp) as (Hc & _ & Hn).
    destruct (add_with_primary_key (table_of o) ty (p_name p) (is_nullable (p_type p)) g Hg Hname Hc Hn (Hty Hkind) Et)
      as (g' & k & ck & indexed & Eg & Hg' & He & Et'). eexists g', _. split_and!; [done..|exact Et'|]. exists k. right. by exists p, ck, ty, indexed.
Qed.

Lemma create_table_exists o g t : o ∈ target -> group_ok g -> get_table (table_of o) g = Some t -> create_table o g = Fine g.
Proof.
  intros Ho Hg Et. unfold create_table. destruct (decide (primary_key o = ""%string)) as [E|E].
  - rewrite (primary_key_property_none o Ho E). by apply (get_or_add_existing _ t).
  - destruct (primary_key_property_some o Ho E) as (p & -> & Ep). by rewrite Et.
Qed.

(** The columns of a new table: that of the primary key fits, and there is no other. *)
Lemma created_cells o t n : o ∈ target -> created o t ->
  primary_name t = primary_key o /\
  match column_named n t with
  | Some c => exists p, persisted_named o n = Some p /\ is_primary p = true /\ column_fits (t_primary t) p c = true
  | None => forall p, persisted_named o n = Some p -> is_primary p = false
  end.
Proof.
  intros Ho (k & [[E ->]|(p & ck & ty & indexed & Ep & Hn & Ety & ->)]).
  { split; [by rewrite E|]. cbn. intros p Hp. apply (persisted_named_iff target o (Hvalid o Ho)) in Hp as [Hp <-].
    rewrite (st_primary o (Hstorable o Ho) p Hp). apply bool_decide_eq_false. rewrite E. by apply (st_columns o (Hstorable o Ho)). }
  destruct (primary_property o p Ho Ep) as (Hp & Epn & Hpk & Ha & Hkind). split.
  { unfold primary_name, column_of_key. cbn. by rewrite bool_decide_true. }
  unfold column_named. cbn [t_columns t_primary List.find c_name]. case_bool_decide as En.
  - subst n. exists p. rewrite Epn. split_and!; [done..|]. destruct (st_kinds o (Hstorable o Ho) p Hp) as [Hk1 Hk2].
    assert (kind (p_type p) <> Object) as Hk3 by (intros E'; rewrite E' in Hkind; by destruct Hkind).
    destruct (core_type_round (p_type p) Hk3 Hk1 Hk2) as (ty' & Ety' & _ & Hfrom & _).
    assert (ty' = ty) as -> by congruence. unfold column_fits. rewrite Hfrom by done. unfold same_kind, link_object_type. cbn [kind is_array is_nullable c_list c_nullable c_indexed].
    rewrite Ha, bool_decide_true, !eqb_reflx by done. apply is_kind_false in Hk3 as Ek. unfold is_kind in *. cbn [kind]. rewrite Ek.
    rewrite bool_decide_true; [|by rewrite (plain_object_type target o (Hstorable o Ho) (Hvalid o Ho) p Hp)].
    unfold is_primary_column. cbn [c_key]. rewrite bool_decide_true by done. unfold requires_index. by rewrite Hpk, orb_true_r.
  - intros q Hq. apply (persisted_named_iff target o (Hvalid o Ho)) in Hq as [Hq <-].
    rewrite (st_primary o (Hstorable o Ho) q Hq). apply bool_decide_eq_false. congruence.
Qed.

Lemma table_name_apart o o' : o ∈ target -> o' ∈ target -> table_of o = table_of o' -> o = o'.
Proof. intros Ho Ho' E%table_name_inj. destruct Htarget as [_ Hn]. by apply (same_key o_name target). Qed.

Lemma tables_created f L g : like_pre_migration false f \/ like_pre_migration true f -> (forall o, o ∈ L -> o ∈ target) -> NoDup L ->
  group_ok g -> (forall o, o ∈ L -> get_table (table_of o) g = None) ->
  exists g', fold_schema f (AddTable <$> L) g = Fine g' /\ group_ok g' /\
    (forall o, o ∈ L -> exists t, get_table (table_of o) g' = Some t /\ created o t) /\
    (forall T, (forall o, o ∈ L -> T <> table_of o) -> get_table T g' = get_table T g /\ table_is_empty T g' = table_is_empty T g /\
       forall i col, get_int T i col g' = get_int T i col g).
Proof.
  intros Hf. revert g. induction L as [|o L IH]; intros g HL Hn Hg Hnone.
  { exists g. split_and!; [done|done|by intros o Ho%not_elem_of_nil|done]. }
  apply NoDup_cons in Hn as [Ho Hn]. assert (o ∈ target) as Hot by (apply HL; left).
  destruct (create_table_new o g Hot Hg) as (g1 & t & E & Hg1 & He & Et & Hc); [apply Hnone; left|].
  assert (forall o', o' ∈ L -> table_of o' <> table_of o) as Hne.
  { intros o' Ho' Eo. apply Ho. rewrite <- (table_name_apart o' o); [done|apply HL; by right|done|done]. }
  destruct (IH g1) as (g2 & E2 & Hg2 & Hc2 & He2); [intros o' Ho'; apply HL; by right|done|done| |].
  { intros o' Ho'. destruct (He (table_of o') (Hne o' Ho')) as [-> _]. apply Hnone. by right. }
  exists g2. split_and!; [|done|..].
  - cbn. assert (f (AddTable o) g = create_table o g) as -> by (destruct Hf as [Hf|Hf]; exact (Hf (AddTable o) g)). by rewrite E.
  - intros o' [->|Ho']%elem_of_cons; [|by apply Hc2]. exists t. split; [|done].
    destruct (He2 (table_of o)) as [-> _]; [|done]. intros o' Ho' Eo. by apply (Hne o' Ho').
  - intros T HT. destruct (He2 T) as (-> & -> & Hi2); [intros o' Ho'; apply HT; by right|]. destruct (He T) as (-> & -> & Hi); [apply HT; left|].
    split_and!; [done..|]. intros i col. by rewrite Hi2.
Qed.

Lemma tables_created_again f L g : (forall o g, f (AddTable o) g = create_table o g) -> (forall o, o ∈ L -> o ∈ target) -> group_ok g ->
  (forall o, o ∈ L -> is_Some (get_table (table_of o) g)) -> fold_schema f (AddTable <$> L) g = Fine g.
Proof.
  intros Hf HL Hg Hsome. induction L as [|o L IH]; [done|]. cbn. rewrite Hf. destruct (Hsome o ltac:(left)) as [t Et].
  rewrite (create_table_exists o g t); [|apply HL; left|done|done]. cbn. apply IH; intros o' Ho'; [apply HL|apply Hsome]; by right.
Qed.

(** ** Type by type *)

Lemma types_run (x : context) f (changes_of : ObjectSchema -> list SchemaChange) (R : ObjectSchema -> string -> option Column -> Prop) L g1 :
  (forall o, o ∈ L -> o ∈ target) -> NoDup L ->
  (forall o g, o ∈ L -> in_context x g -> (forall n, cell (table_of o) n g = cell (table_of o) n g1) ->
     exists g' keys, fold_schema f (changes_of o) g = Fine g' /\ frame keys g g' /\ (forall k, k ∈ keys -> k.1 = table_of o) /\
       forall n, R o n (cell (table_of o) n g')) ->
  forall g, in_context x g -> (forall o n, o ∈ L -> cell (table_of o) n g = cell (table_of o) n g1) ->
  exists g' keys, fold_schema f (L ≫= changes_of) g = Fine g' /\ frame keys g g' /\ (forall k, k ∈ keys -> exists o, o ∈ L /\ k.1 = table_of o) /\
    forall o n, o ∈ L -> R o n (cell (table_of o) n g').
Proof.
  induction L as [|o L IH]; intros HL Hn Hrun g Hg Hcells.
  { exists g, []. split_and!; [done|apply frame_refl, Hg|by intros k Hk%not_elem_of_nil|by intros o n Ho%not_elem_of_nil]. }
  apply NoDup_cons in Hn as [Ho Hn]. assert (o ∈ target) as Hot by (apply HL; left).
  destruct (Hrun o g ltac:(left) Hg) as (g2 & k1 & E1 & F1 & K1 & R1); [intros n; apply Hcells; left|].
  assert (forall o', o' ∈ L -> table_of o' <> table_of o) as Hne.
  { intros o' Ho' Eo. apply Ho. rewrite <- (table_name_apart o' o); [done|apply HL; by right|done|done]. }
  destruct (IH ltac:(intros o' Ho'; apply HL; by right) Hn ltac:(intros o' g' Ho'; apply Hrun; by right) g2 (in_context_frame x _ g g2 Hg F1))
    as (g3 & k2 & E2 & F2 & K2 & R2).
  { intros o' n Ho'. rewrite (fr_cell _ _ _ F1); [apply Hcells; by right|]. intros Hk. apply K1 in Hk. by apply (Hne o' Ho'). }
  exists g3, (k1 ++ k2)%list. split_and!.
  - cbn [mbind list_bind]. rewrite fold_schema_app, E1. exact E2.
  - exact (frame_trans _ _ _ _ _ F1 F2).
  - intros k [Hk|Hk]%elem_of_app; [exists o; split; [left|by apply K1]|]. destruct (K2 k Hk) as (o' & Ho' & Ek). exists o'. split; [by right|done].
  - intros o' n [->|Ho']%elem_of_cons; [|by apply R2]. rewrite (fr_cell _ _ _ F2); [apply R1|].
    intros Hk. destruct (K2 _ Hk) as (o' & Ho' & Ek). by apply (Hne o' Ho').
Qed.
End types.

Lemma fold_schema_skip {A S} (test : A -> bool) (f : A -> S -> schema_result S) l s :
  fold_schema (fun a s => if test a then Fine s else f a s) l s = fold_schema f (filter (fun a => test a = false) l) s.
Proof.
  revert s. induction l as [|a l IH]; intros s; [done|]. rewrite filter_cons. cbn [fold_schema]. destruct (test a) eqn:E.
  - rewrite decide_False by congruence. apply IH.
  - rewrite decide_True by done. cbn [fold_schema]. destruct (f a s); [apply IH|done].
Qed.

Lemma NoDup_fmap_filter {A B} (g : A -> B) (P : A -> Prop) `{forall a, Decision (P a)} l : NoDup (g <$> l) -> NoDup (g <$> filter P l).
Proof.
  induction l as [|a l IH]; [done|]. intros [Ha Hn]%NoDup_cons. rewrite filter_cons. case_decide; [|by apply IH]. constructor; [|by apply IH].
  intros Hin. apply Ha. apply list_elem_of_fmap in Hin as (q & -> & [_ Hq]%list_elem_of_filter). by apply list_elem_of_fmap_2.
Qed.

Lemma simple_change_weaken l l' ch : (forall c, c ∈ l -> c ∈ l') -> simple_change l' ch = true -> simple_change l ch = true.
Proof.
  intros Hl. assert (forall o p, existsb (indexes o p) l' = false -> existsb (indexes o p) l = false) as He.
  { intros o p Hf. destruct (existsb (indexes o p) l) eqn:E; [|done]. apply existsb_exists in E as (c & Hc & Ec).
    rewrite <- list_elem_of_In in Hc. assert (existsb (indexes o p) l' = true); [|congruence]. apply existsb_exists. exists c.
    split; [|done]. apply list_elem_of_In. auto. }
  destruct ch as [| | | | | |o p|o p| | |]; try done; cbn; rewrite !andb_true_iff, !negb_true_iff; intros [-> Hf]; (split; [done|by apply He]).
Qed.

Section migration.
Context `{StoreSpec} (target : Schema) (Htarget : schema_sorted target).
Context (Hvalid : forall o, o ∈ target -> object_valid target o) (Hstorable : forall o, o ∈ target -> storable o).
Local Abbreviation table_of o := (table_name_for_object_type (o_name o)).

(** ** Groups with a schema *)

Record reads (g : Group) (s : Schema) : Prop := {
  rd_sorted : schema_sorted s;
  rd_some n t : n <> ""%string -> get_table (table_name_for_object_type n) g = Some t ->
    exists e, object_named s n = Some e /\ object_schema_of_table n t g = Fine e;
  rd_none n : get_table (table_name_for_object_type n) g = None -> object_named s n = None
}.

Lemma schema_from_group_reads g s : group_ok g -> schema_from_group g = Fine s -> reads g s.
Proof.
  intros Hg E. destruct (schema_from_group_spec g s Hg E) as [Hs Hin]. constructor; [done|..].
  - intros n t Hn Et. unfold schema_from_group in E. destruct (object_schemas (tables g) g) as [os|] eqn:Eos; [|done]. injection E as <-.
    destruct (object_schemas_elem _ g os Eos) as [En _]. assert (n ∈ o_name <$> os) as Hno.
    { rewrite En, list_elem_of_filter. split; [done|]. apply get_table_name in Et as [Ht Etn]. rewrite <- (object_type_of_table_name n), <- Etn.
      by apply (list_elem_of_fmap_2 (fun t => object_type_for_table_name (t_name t))). }
    apply list_elem_of_fmap in Hno as (e & -> & He). rewrite <- (make_schema_perm os) in He. exists e. split; [by apply object_named_iff|].
    apply Hin in He as (_ & t' & Et' & Ee). congruence.
  - intros n Et. apply object_named_none. intros Hno. apply list_elem_of_fmap in Hno as (e & -> & He). apply Hin in He as (_ & t & Et' & _). congruence.
Qed.

Lemma object_schema_of_table_same n t g g' : get_table (table_name_for_object_type n) g' = get_table (table_name_for_object_type n) g ->
  object_schema_of_table n t g' = object_schema_of_table n t g.
Proof. intros E. unfold object_schema_of_table, get_primary_key_for_object, table_for_object_type. by rewrite E. Qed.

Lemma reads_same g g' s : (forall n, get_table (table_name_for_object_type n) g' = get_table (table_name_for_object_type n) g) -> reads g s -> reads g' s.
Proof.
  intros E [Hs Hsome Hnone]. constructor; [done|..].
  - intros n t Hn Et. rewrite E in Et. destruct (Hsome n t Hn Et) as (e & Ee & Eo). exists e. split; [done|]. by rewrite (object_schema_of_table_same n t g g').
  - intros n Et. rewrite E in Et. auto.
Qed.

(** A settled group of readable tables needs no change. *)
Lemma settled_compare_nil g s : group_ok g -> schema_from_group g = Fine s ->
  compare s target false = [] <-> forall o, o ∈ target -> type_settled g o.
Proof.
  intros Hg Es. pose proof (schema_from_group_reads g s Hg Es) as Hr. rewrite compare_nil by (done || apply Hr).
  split; intros Hall o Ho; specialize (Hall o Ho); destruct (st_name o (Hstorable o Ho)) as [Hn _].
  - destruct Hall as (e & Ee & Ec). destruct (get_table (table_of o) g) as [t|] eqn:Et; [|by rewrite (rd_none g s Hr _ Et) in Ee].
    destruct (rd_some g s Hr _ t Hn Et) as (e' & Ee' & Eo). assert (e' = e) as -> by congruence. exists t. split; [done|].
    by apply (settled_compare target o g t e Hg (Hstorable o Ho) (Hvalid o Ho)).
  - destruct Hall as (t & Et & Hset). destruct (rd_some g s Hr _ t Hn Et) as (e & Ee & Eo). exists e. split; [done|].
    by apply (settled_compare target o g t e Hg (Hstorable o Ho) (Hvalid o Ho)).
Qed.

(** ** One type, in the first pass *)

Context (x : context) (removes : bool) (f : SchemaChange -> Group -> schema_result Group) (Hf : like_pre_migration removes f).
Context (Htables : forall o', o' ∈ target -> ctx_tables x (table_of o')).

Section one.
Context (o : ObjectSchema) (Ho : o ∈ target).
Local Abbreviation T := (table_of o).
Local Abbreviation prim := (ctx_primary x T).

Definition add_step (p : Property) (doit : Group -> schema_result Group) : step :=
  MkStep (T, p_name p) (fun c => c = None) doit (fun c => exists c', c = Some c' /\ column_fits prim p c' = true).

Lemma add_step_ok p doit : p ∈ persisted_properties o ->
  (forall g, in_context x g -> doit g = ('(g, _) ← add_property_column T p g; Fine g)) -> step_ok x (add_step p doit).
Proof.
  intros Hp Hdo g Hg Hc. cbn in *. rewrite Hdo by done.
  destruct (add_column_fits target x o (Hstorable o Ho) (Hvalid o Ho) Htables Ho p Hp p g) as (g' & c & E & F & C & Hfit); [done..|].
  rewrite E. exists g'. split_and!; [done..|]. by exists c.
Qed.

Lemma new_type g : in_context x g ->
  (forall n, match cell T n g with
             | Some c => exists p, persisted_named o n = Some p /\ is_primary p = true /\ column_fits prim p c = true
             | None => forall p, persisted_named o n = Some p -> is_primary p = false
             end) ->
  exists g' keys, fold_schema f [AddInitialProperties o] g = Fine g' /\ frame keys g g' /\ (forall k, k ∈ keys -> k.1 = T) /\
    forall n, cell_settled o prim n (cell T n g').
Proof.
  intros Hg Hcells. pose proof (Hstorable o Ho) as Hs. pose proof (Hvalid o Ho) as Hv. set (l := filter (fun p => is_primary p = false) (persisted_properties o)).
  assert (forall p, p ∈ l <-> is_primary p = false /\ p ∈ persisted_properties o) as Hl by (intros p; unfold l; by rewrite list_elem_of_filter).
  set (bs := (fun p => add_step p (fun g => '(g, _) ← add_property_column T p g; Fine g)) <$> l).
  assert (forall b, b ∈ bs <-> exists p, b = add_step p (fun g => '(g, _) ← add_property_column T p g; Fine g) /\ p ∈ l) as Hbs
    by (intros b; apply list_elem_of_fmap).
  destruct (steps_run x bs) with (g := g) as (g' & E & F & A); [| |done|..].
  - assert (on <$> bs = (fun n => (T, n)) <$> (p_name <$> l)) as -> by (unfold bs; by rewrite <- !list_fmap_compose). apply NoDup_fmap_2; [by intros ? ? [=]|].
    apply NoDup_fmap_filter, (persisted_names target o Hv).
  - intros b (p & -> & [_ Hp]%Hl)%Hbs. by apply add_step_ok.
  - intros b (p & -> & [Hnp Hp]%Hl)%Hbs. cbn. unfold cell_at. cbn. specialize (Hcells (p_name p)).
    destruct (cell T (p_name p) g) as [c|] eqn:Ec; [|done]. destruct Hcells as (q & Eq & Hq & _).
    rewrite (proj2 (persisted_named_iff target o Hv (p_name p) p)) in Eq by done. congruence.
  - exists g', (on <$> bs). split_and!; [|done|..].
    + cbn [fold_schema]. rewrite (Hf (AddInitialProperties o) g). cbn. unfold add_initial_columns.
      destruct (context_table target x o Htables Ho g Hg) as [t ->]. cbn [mbind schema_bind].
      rewrite (fold_schema_skip is_primary (fun p g => '(g, _) ← add_property_column T p g; Fine g)). fold l.
      unfold run_steps, bs in E. rewrite fold_schema_fmap in E. cbn in E. by rewrite E.
    + intros k Hk. apply list_elem_of_fmap in Hk as (b & -> & (p & -> & _)%Hbs). done.
    + intros n. destruct (decide ((T, n) ∈ on <$> bs)) as [Hin|Hout].
      * apply list_elem_of_fmap in Hin as (b & Eb & Hb). pose proof (A b Hb) as Hafter. apply Hbs in Hb as (p & -> & [_ Hp]%Hl).
        injection Eb as ->. cbn in Hafter. destruct Hafter as (c' & Ec' & Hfit). unfold cell_at in Ec'. cbn in Ec'. rewrite Ec'. unfold cell_settled.
        by rewrite (proj2 (persisted_named_iff target o Hv (p_name p) p)).
      * rewrite (fr_cell _ _ _ F) by done. specialize (Hcells n). unfold cell_settled. destruct (cell T n g) as [c|]; [by destruct Hcells as (p & -> & _ & ?)|].
        destruct (persisted_named o n) as [p|] eqn:Ep; [|done]. specialize (Hcells p eq_refl). apply Hout.
        apply (persisted_named_iff target o Hv) in Ep as [Hp <-]. change (T, p_name p) with (on (add_step p (fun g => '(g, _) ← add_property_column T p g; Fine g))).
        apply list_elem_of_fmap_2, Hbs. exists p. split; [done|]. by apply Hl.
Qed.

(** A type that exists: its table, and what it was read as. *)
Context (gm : Group) (t : Table) (e : ObjectSchema) (Hgm : group_ok gm) (Et : get_table T gm = Some t).
Context (Ee : object_schema_of_table (o_name o) t gm = Fine e) (Hprim : prim = t_primary t).
Context (Hsimple : forall ch, ch ∈ compare_objects e o -> simple_change (compare_objects e o) ch = true).

Lemma same_primary_key : primary_name t = primary_key o /\ primary_key e = primary_key o.
Proof.
  destruct (object_schema_of_table_spec _ t gm e Hgm Et Ee) as (_ & Epk & _). destruct (decide (primary_key e = primary_key o)) as [E|E]; [by split; congruence|].
  exfalso. assert (ChangePrimaryKey e (primary_key_property o) ∈ compare_objects e o) as Hch.
  { unfold compare_objects. rewrite !elem_of_app. right. right. rewrite bool_decide_false by done. left. }
  by specialize (Hsimple _ Hch).
Qed.

Lemma existing_primary c : c ∈ t_columns t -> is_primary_column prim c = true -> c_name c = primary_key o /\ c_name c <> ""%string.
Proof.
  intros Hc E%bool_decide_eq_true. rewrite Hprim in E. destruct (primary_name_some t c (get_table_wf _ _ _ Hgm Et) Hc E) as [E1 E2].
  destruct same_primary_key as [E3 _]. split; [congruence|done].
Qed.

(** The columns that are seen, as the properties of [e]. *)
Definition seen (cur : Property) (c : Column) (pt : PropertyType) : Prop :=
  c ∈ t_columns t /\ hidden (c_name c) = false /\ from_core_type c = Fine pt /\ cur = current_property prim c pt.

Lemma existing_properties : o_name e = o_name o /\ NoDup (p_name <$> persisted_properties e) /\
  (forall cur, cur ∈ persisted_properties e <-> exists c pt, seen cur c pt) /\
  (forall n, property_for_name e n = None <-> n ∉ p_name <$> persisted_properties e).
Proof.
  destruct (object_schema_of_table_spec _ t gm e Hgm Et Ee) as (En & _ & _ & Hn & Hps & Hc & _). split_and!; [done|done| |].
  - intros cur. rewrite Hps. unfold seen. by rewrite Hprim.
  - intros n. unfold property_for_name. rewrite Hc. pose proof (find_key_none p_name (persisted_properties e) n) as Hfind.
    unfold named. rewrite <- Hfind. by destruct (List.find _ _).
Qed.

Lemma seen_cell cur c pt g : seen cur c pt -> cell T (p_name cur) g = column_named (p_name cur) t -> cell T (c_name c) g = Some c.
Proof.
  intros (Hc & _ & _ & ->) Hg. cbn in Hg. rewrite Hg. apply column_named_iff; [by eapply get_table_wf|done].
Qed.

Lemma seen_unique cur c pt c' pt' : seen cur c pt -> c' ∈ t_columns t -> c_name c' = c_name c -> from_core_type c' = Fine pt' -> c' = c /\ pt' = pt.
Proof.
  intros (Hc & _ & Ept & _) Hc' En Ept'. assert (c' = c) as ->; [|split; [done|congruence]].
  apply (same_key c_name (t_columns t)); [apply (get_table_wf _ _ _ Hgm Et)|done..].
Qed.

(** What the first pass leaves of a column, and the second. *)
Definition first_left (n : string) (cell' : option Column) : Prop :=
  match column_named n t with
  | Some c => if hidden n then cell' = Some c else exists pt, from_core_type c = Fine pt /\ mid x o e c pt removes cell'
  | None => cell_settled o prim n cell'
  end.

Definition current_step (run : SchemaChange -> Group -> schema_result Group) (before after : Column -> PropertyType -> option Column -> Prop) (cur : Property) : step :=
  MkStep (T, p_name cur) (fun cell' => exists c pt, seen cur c pt /\ before c pt cell') (fold_schema run (compare_property e o cur))
    (fun cell' => exists c pt, seen cur c pt /\ after c pt cell').

Lemma chunk_in cur ch : cur ∈ persisted_properties e -> ch ∈ compare_property e o cur -> ch ∈ compare_objects e o.
Proof.
  intros Hcur Hch. unfold compare_objects. rewrite elem_of_app. left. rewrite list_elem_of_In, in_concat. exists (compare_property e o cur).
  rewrite <- !list_elem_of_In. split; [by apply list_elem_of_fmap_2|done].
Qed.

Lemma first_step_ok cur : cur ∈ persisted_properties e ->
  step_ok x (current_step f (fun c _ cell' => cell' = Some c) (fun c pt => mid x o e c pt removes) cur).
Proof.
  intros Hcur g Hg (c & pt & Hseen & Hc). destruct existing_properties as (En & _ & _). pose proof Hseen as (Hin & Hh & Ept & ->).
  destruct (first_chunk target x o (Hstorable o Ho) (Hvalid o Ho) Htables Ho e En c pt Ept (existing_primary c Hin) removes f Hf) with (g := g)
    as (g' & E & F & M); [|done|exact Hc|].
  - intros ch Hch. apply (simple_change_weaken _ (compare_objects e o)); [intros ch'; by apply chunk_in|]. apply Hsimple. by apply (chunk_in (current_property prim c pt)).
  - exists g'. split_and!; [done..|]. exists c, pt. by split.
Qed.

Lemma second_step_ok char_is_signed cur : removes = false -> cur ∈ persisted_properties e ->
  step_ok x (current_step (post_migration_change char_is_signed [] No) (fun c pt => mid x o e c pt removes) (fun c _ => cell_settled o prim (c_name c)) cur).
Proof.
  intros Hr Hcur g Hg (c & pt & Hseen & Hc). destruct existing_properties as (En & _ & _). pose proof Hseen as (Hin & Hh & Ept & ->). rewrite Hr in Hc.
  destruct (second_chunk target x o (Hstorable o Ho) (Hvalid o Ho) Htables Ho e En c pt (existing_primary c Hin) char_is_signed g Hg Hc Hh) as (g' & E & F & M).
  exists g'. split_and!; [done..|]. exists c, pt. by split.
Qed.

(** The changes of the type, as steps. *)
Definition added : list Property := filter (fun p => property_for_name e (p_name p) = None) (persisted_properties o).

Lemma fold_compare_objects (run : SchemaChange -> Group -> schema_result Group) g :
  fold_schema run (compare_objects e o) g =
  (g ← fold_schema (fun cur => fold_schema run (compare_property e o cur)) (persisted_properties e) g;
   fold_schema (fun p => run (AddProperty e p)) added g).
Proof.
  unfold compare_objects. destruct same_primary_key as [_ E]. rewrite bool_decide_true by done. rewrite app_nil_r, fold_schema_app, fold_schema_concat, fold_schema_fmap.
  destruct (fold_schema _ (persisted_properties e) g) as [g1|]; [|done]. cbn [mbind schema_bind].
  rewrite (concat_select (fun p => property_for_name e (p_name p)) (AddProperty e)). apply fold_schema_fmap.
Qed.

Lemma added_elem p : p ∈ added <-> p ∈ persisted_properties o /\ p_name p ∉ p_name <$> persisted_properties e.
Proof. unfold added. rewrite list_elem_of_filter. destruct existing_properties as (_ & _ & _ & Hn). rewrite Hn. tauto. Qed.

Lemma step_keys (h : Property -> step) (ps : list Property) : (forall p, on (h p) = (T, p_name p)) -> on <$> (h <$> ps) = (fun n => (T, n)) <$> (p_name <$> ps).
Proof. intros Hh. rewrite <- !list_fmap_compose. apply list_fmap_ext. intros i p _. apply Hh. Qed.

Lemma keys_nodup h1 h2 : (forall p, on (h1 p) = (T, p_name p)) -> (forall p, on (h2 p) = (T, p_name p)) ->
  NoDup (on <$> ((h1 <$> persisted_properties e) ++ (h2 <$> added))%list).
Proof.
  intros H1 H2. rewrite fmap_app, !step_keys by done. rewrite <- fmap_app. apply NoDup_fmap_2; [by intros ? ? [=]|].
  destruct existing_properties as (_ & Hn & _). apply NoDup_app. split_and!; [done|..].
  - intros n Hn1 Hn2. apply list_elem_of_fmap in Hn2 as (p & -> & [_ Hp]%added_elem). done.
  - apply NoDup_fmap_filter, (persisted_names target o (Hvalid o Ho)).
Qed.

(** The cell under a name that no change is about. *)
Lemma untouched n : n ∉ p_name <$> (persisted_properties e ++ added) ->
  match column_named n t with Some _ => hidden n = true | None => persisted_named o n = None end.
Proof.
  destruct existing_properties as (_ & _ & Hps & _). rewrite fmap_app, not_elem_of_app. intros [Hn1 Hn2].
  destruct (column_named n t) as [c|] eqn:Ec.
  - apply column_named_iff in Ec as [Hc <-]; [|by eapply get_table_wf]. destruct (hidden (c_name c)) eqn:Eh; [done|]. exfalso. apply Hn1.
    destruct (object_schema_of_table_spec _ t gm e Hgm Et Ee) as (_ & _ & _ & _ & _ & _ & Hread). destruct (Hread c Hc Eh) as [pt Ept].
    change (c_name c) with (p_name (current_property prim c pt)). apply list_elem_of_fmap_2, Hps. by exists c, pt.
  - destruct (persisted_named o n) as [p|] eqn:Ep; [|done]. exfalso. apply (persisted_named_iff target o (Hvalid o Ho)) in Ep as [Hp <-].
    apply Hn2. apply list_elem_of_fmap_2, added_elem. split; [done|]. done.
Qed.

Lemma seen_named n c : column_named n t = Some c -> hidden n = false -> exists pt, seen (current_property prim c pt) c pt.
Proof.
  intros Ec Hh. apply column_named_iff in Ec as [Hc <-]; [|by eapply get_table_wf].
  destruct (object_schema_of_table_spec _ t gm e Hgm Et Ee) as (_ & _ & _ & _ & _ & _ & Hread). destruct (Hread c Hc Hh) as [pt Ept]. by exists pt.
Qed.

(** A name that a change is about: that of a column that is seen, or of a property to add. *)
Lemma touched n : n ∈ p_name <$> (persisted_properties e ++ added) ->
  (exists cur c pt, cur ∈ persisted_properties e /\ seen cur c pt /\ p_name cur = n /\ c_name c = n /\ column_named n t = Some c /\ hidden n = false) \/
  (exists p, p ∈ added /\ p_name p = n /\ column_named n t = None).
Proof.
  destruct existing_properties as (_ & _ & Hps & _). rewrite fmap_app, elem_of_app. intros [Hn|Hn]; apply list_elem_of_fmap in Hn as (p & -> & Hp).
  - left. pose proof Hp as (c & pt & Hs)%Hps. pose proof Hs as (Hc & Hh & _ & ->). exists (current_property prim c pt), c, pt. split_and!; try done.
    apply column_named_iff; [by eapply get_table_wf|done].
  - right. exists p. split_and!; [done..|]. apply added_elem in Hp as [Hp Hn]. destruct (column_named (p_name p) t) as [c|] eqn:Ec; [|done]. exfalso.
    destruct (st_columns o (Hstorable o Ho) p Hp) as (_ & Hh & _). destruct (seen_named _ c Ec Hh) as [pt Hs]. apply Hn.
    apply column_named_iff in Ec as [_ En]; [|by eapply get_table_wf]. rewrite <- En. change (c_name c) with (p_name (current_property prim c pt)).
    apply list_elem_of_fmap_2, Hps. by exists c, pt.
Qed.

Lemma added_step_ok p : p ∈ added -> step_ok x (add_step p (f (AddProperty e p))).
Proof.
  intros [Hp _]%added_elem. apply add_step_ok; [done|]. intros g Hg. rewrite (Hf (AddProperty e p) g). cbn. unfold add_property.
  destruct existing_properties as (En & _). by rewrite (on_table_run target x o Htables Ho).
Qed.

Lemma existing_first g : in_context x g -> (forall n, cell T n g = column_named n t) ->
  exists g' keys, fold_schema f (compare_objects e o) g = Fine g' /\ frame keys g g' /\ (forall k, k ∈ keys -> k.1 = T) /\
    forall n, first_left n (cell T n g').
Proof.
  intros Hg Hcells. set (h1 := current_step f (fun c _ cell' => cell' = Some c) (fun c pt => mid x o e c pt removes)).
  set (h2 := fun p => add_step p (f (AddProperty e p))).
  destruct (steps_run x ((h1 <$> persisted_properties e) ++ (h2 <$> added))%list (keys_nodup h1 h2 ltac:(done) ltac:(done))) with (g := g) as (g' & E & F & A); [|done|..].
  - intros b [Hb|Hb]%elem_of_app; apply list_elem_of_fmap in Hb as (p & -> & Hp); [by apply first_step_ok|by apply added_step_ok].
  - intros b [Hb|Hb]%elem_of_app; apply list_elem_of_fmap in Hb as (p & -> & Hp); cbn; unfold cell_at; cbn; rewrite Hcells.
    + destruct existing_properties as (_ & _ & Hps & _). pose proof Hp as (c & pt & Hs)%Hps. exists c, pt. split; [done|].
      pose proof Hs as (Hc & _ & _ & ->). apply column_named_iff; [by eapply get_table_wf|done].
    + destruct (touched (p_name p)) as [(cur & c & pt & Hcur & _ & En & _)|(q & _ & _ & Hq)]; [|exfalso|done].
      * apply list_elem_of_fmap_2, elem_of_app. by right.
      * apply added_elem in Hp as [_ Hp]. apply Hp. rewrite <- En. by apply list_elem_of_fmap_2.
  - eexists g', _. split_and!; [|exact F|..].
    + rewrite fold_compare_objects. unfold run_steps in E. rewrite fold_schema_app, fold_schema_fmap in E.
      change (fun a => run (h1 a)) with (fun cur => fold_schema f (compare_property e o cur)) in E.
      destruct (fold_schema _ (persisted_properties e) g) as [g1|]; [|done]. cbn [mbind schema_bind] in *. by rewrite fold_schema_fmap in E.
    + intros k Hk. rewrite fmap_app, !step_keys in Hk by done. rewrite <- fmap_app in Hk. by apply list_elem_of_fmap in Hk as (n & -> & _).
    + intros n. unfold first_left. destruct (decide (n ∈ p_name <$> (persisted_properties e ++ added)%list)) as [Hin|Hout].
      * destruct (touched n Hin) as [(cur & c & pt & Hcur & Hs & <- & En & -> & ->)|(p & Hp & <- & ->)].
        -- destruct (A (h1 cur)) as (c' & pt' & Hs' & Hm); [apply elem_of_app; left; by apply list_elem_of_fmap_2|]. exists pt'. cbn in Hm.
           pose proof Hs' as (Hc' & _ & Ept' & Ecur). destruct (seen_unique cur c pt c' pt' Hs Hc') as [-> ->]; [|done|]; [|split; [apply Hs|done]].
           rewrite En. by rewrite Ecur.
        -- destruct (A (h2 p)) as (c' & Ec' & Hfit); [apply elem_of_app; right; by apply list_elem_of_fmap_2|]. unfold cell_at in Ec'. cbn in Ec'. rewrite Ec'.
           apply added_elem in Hp as [Hp _]. unfold cell_settled. by rewrite (proj2 (persisted_named_iff target o (Hvalid o Ho) (p_name p) p)).
      * rewrite (fr_cell _ _ _ F), Hcells.
        -- pose proof (untouched n Hout) as Hu. destruct (column_named n t); [by rewrite Hu|]. unfold cell_settled. by rewrite Hu.
        -- rewrite fmap_app, !step_keys by done. rewrite <- fmap_app. intros Hk. apply list_elem_of_fmap in Hk as (m & [= ->] & Hm). apply Hout. by rewrite fmap_app.
Qed.

Lemma existing_second char_is_signed g : removes = false -> in_context x g -> (forall n, first_left n (cell T n g)) ->
  exists g' keys, fold_schema (post_migration_change char_is_signed [] No) (compare_objects e o) g = Fine g' /\ frame keys g g' /\
    (forall k, k ∈ keys -> k.1 = T) /\ forall n, cell_settled o prim n (cell T n g').
Proof.
  intros Hr Hg Hcells. set (h := current_step (post_migration_change char_is_signed [] No) (fun c pt => mid x o e c pt removes) (fun c _ => cell_settled o prim (c_name c))).
  destruct existing_properties as (_ & Hnames & Hps & _).
  destruct (steps_run x (h <$> persisted_properties e)) with (g := g) as (g' & E & F & A); [| |done|..].
  - rewrite step_keys by done. apply NoDup_fmap_2; [by intros ? ? [=]|done].
  - intros b Hb. apply list_elem_of_fmap in Hb as (cur & -> & Hcur). by apply second_step_ok.
  - intros b Hb. apply list_elem_of_fmap in Hb as (cur & -> & Hcur). cbn. unfold cell_at. cbn. specialize (Hcells (p_name cur)).
    pose proof Hcur as (c & pt & Hs)%Hps. pose proof Hs as (Hc & Hh & Ept & Ecur). unfold first_left in Hcells.
    rewrite (proj2 (column_named_iff t (p_name cur) c (get_table_wf _ _ _ Hgm Et))) in Hcells by (rewrite Ecur; done).
    assert (hidden (p_name cur) = false) as Hh' by by rewrite Ecur. rewrite Hh' in Hcells. destruct Hcells as (pt' & Ept' & Hm).
    exists c, pt. split; [done|]. by assert (pt' = pt) as -> by congruence.
  - eexists g', _. split_and!; [|exact F|..].
    + rewrite fold_compare_objects. unfold run_steps in E. rewrite fold_schema_fmap in E. cbn [current_step h run] in E. rewrite E. cbn [mbind schema_bind].
      clear. induction added as [|p ps IH]; [done|]. exact IH.
    + intros k Hk. rewrite step_keys in Hk by done. by apply list_elem_of_fmap in Hk as (n & -> & _).
    + intros n. destruct (decide (n ∈ p_name <$> persisted_properties e)) as [Hin|Hout].
      * destruct (touched n) as [(cur & c & pt & Hcur & Hs & <- & En & _)|(p & [_ Hp]%added_elem & <- & _)]; [rewrite fmap_app, elem_of_app; by left| |done].
        destruct (A (h cur)) as (c' & pt' & Hs' & Hm); [by apply list_elem_of_fmap_2|]. cbn in Hm. unfold cell_at in Hm. cbn in Hm.
        pose proof Hs' as (_ & _ & _ & Ecur). by rewrite Ecur in Hm |- *.
      * rewrite (fr_cell _ _ _ F).
        -- specialize (Hcells n). unfold first_left in Hcells. destruct (column_named n t) as [c|] eqn:Ec; [|done].
           destruct (hidden n) eqn:Eh.
           { rewrite Hcells. unfold cell_settled. destruct (persisted_named o n) as [p|] eqn:Ep; [|done].
             apply (persisted_named_iff target o (Hvalid o Ho)) in Ep as [Hp <-]. destruct (st_columns o (Hstorable o Ho) p Hp) as (_ & Hh & _). congruence. }
           exfalso. apply Hout. destruct (seen_named n c Ec Eh) as [pt Hs]. apply column_named_iff in Ec as [_ <-]; [|by eapply get_table_wf].
           change (c_name c) with (p_name (current_property prim c pt)). apply list_elem_of_fmap_2, Hps. by exists c, pt.
        -- rewrite step_keys by done. intros Hk. apply list_elem_of_fmap in Hk as (m & [= ->] & Hm). by apply Hout.
Qed.
End one.
End migration.

Section whole.
Context `{StoreSpec} (target : Schema) (Htarget : schema_sorted target).
Context (Hvalid : forall o, o ∈ target -> object_valid target o) (Hstorable : forall o, o ∈ target -> storable o).
Local Abbreviation table_of o := (table_name_for_object_type (o_name o)).

Context (gm : Group) (existing : Schema) (Hgm : group_ok gm) (Hreads : reads gm existing).
Local Abbreviation changes := (compare existing target false).
Context (Hsimple : simple_changes changes = true).

Definition new_types : list ObjectSchema := filter (fun o => object_named existing (o_name o) = None) target.
Definition changes_of (o : ObjectSchema) : list SchemaChange :=
  match object_named existing (o_name o) with Some e => compare_objects e o | None => [AddInitialProperties o] end.

Lemma changes_split : changes = ((AddTable <$> new_types) ++ (target ≫= changes_of))%list.
Proof.
  rewrite compare_by_type by (done || apply (rd_sorted _ _ Hreads)). f_equal. rewrite <- concat_bind.
  apply (concat_select (fun o => object_named existing (o_name o)) AddTable).
Qed.

Lemma existing_table o : o ∈ target ->
  match object_named existing (o_name o) with
  | Some e => exists t, get_table (table_of o) gm = Some t /\ object_schema_of_table (o_name o) t gm = Fine e
  | None => get_table (table_of o) gm = None
  end.
Proof.
  intros Ho. destruct (st_name o (Hstorable o Ho)) as [Hn _]. destruct (get_table (table_of o) gm) as [t|] eqn:Et.
  - destruct (rd_some _ _ Hreads _ t Hn Et) as (e & -> & Ee). by exists t.
  - by rewrite (rd_none _ _ Hreads _ Et).
Qed.

Lemma simple_of o e : o ∈ target -> object_named existing (o_name o) = Some e ->
  forall ch, ch ∈ compare_objects e o -> simple_change (compare_objects e o) ch = true.
Proof.
  intros Ho Ee. assert (forall ch, ch ∈ compare_objects e o -> ch ∈ changes) as Hin.
  { intros ch Hch. rewrite changes_split, elem_of_app. right. apply list_elem_of_bind. exists o. split; [|done]. unfold changes_of. by rewrite Ee. }
  intros ch Hch. apply (simple_change_weaken _ changes); [done|]. unfold simple_changes in Hsimple. rewrite forallb_forall in Hsimple.
  apply Hsimple. rewrite <- list_elem_of_In. auto.
Qed.

(** What a pass leaves of a column of a type. *)
Definition left_at (x : context) (removes : bool) (o : ObjectSchema) (n : string) (c : option Column) : Prop :=
  match object_named existing (o_name o), get_table (table_of o) gm with
  | Some e, Some t => first_left x removes o t e n c
  | _, _ => cell_settled o (ctx_primary x (table_of o)) n c
  end.

(** A group after a pass: the tables of the target are there with their primary keys, and the other
    tables are as before. *)
Record passed (x : context) (g : Group) : Prop := {
  ps_context : in_context x g;
  ps_tables o : o ∈ target -> exists t, get_table (table_of o) g = Some t /\ primary_name t = primary_key o;
  ps_rest T : (forall o, o ∈ target -> T <> table_of o) -> get_table T g = get_table T gm /\ table_is_empty T g = table_is_empty T gm /\
    forall i col, get_int T i col g = get_int T i col gm
}.

Lemma passed_frame x g g' keys : passed x g -> frame keys g g' -> (forall k, k ∈ keys -> exists o, o ∈ target /\ k.1 = table_of o) -> passed x g'.
Proof.
  intros [Hc Ht Hr] F Hk. constructor.
  - by eapply in_context_frame.
  - intros o Ho. destruct (Ht o Ho) as (t & Et & En). pose proof (fr_name _ _ _ F (table_of o)) as Hn. rewrite Et in Hn. cbn in Hn.
    destruct (get_table (table_of o) g') as [t'|]; [|done]. exists t'. split; [done|]. injection Hn as ->. done.
  - intros T HT. destruct (fr_rest _ _ _ F T) as (-> & -> & Hi).
    { intros n Hn. destruct (Hk _ Hn) as (o & Ho & Eo). by apply (HT o Ho). }
    destruct (Hr T HT) as (-> & -> & Hi'). split_and!; [done..|]. intros i col. by rewrite Hi.
Qed.

Lemma first_pass removes f : like_pre_migration removes f ->
  exists x g', fold_schema f changes gm = Fine g' /\ passed x g' /\
    (forall o t, o ∈ target -> object_named existing (o_name o) <> None -> get_table (table_of o) gm = Some t -> ctx_primary x (table_of o) = t_primary t) /\
    forall o n, o ∈ target -> left_at x removes o n (cell (table_of o) n g').
Proof.
  intros Hf. assert (forall o, o ∈ new_types <-> object_named existing (o_name o) = None /\ o ∈ target) as Hnew
    by (intros o; unfold new_types; by rewrite list_elem_of_filter).
  assert (NoDup target) as Hnd by (destruct Htarget as [_ Hn]; by eapply NoDup_fmap_1).
  destruct (tables_created target Htarget Hvalid Hstorable f new_types gm) as (g1 & E1 & Hg1 & Hcreated & Hkept);
    [destruct removes; tauto|by intros o [_ Ho]%Hnew|by apply NoDup_filter|done| |].
  { intros o [Eo Ho]%Hnew. pose proof (existing_table o Ho) as Hex. by rewrite Eo in Hex. }
  set (x := {| ctx_tables := fun T => is_Some (get_table T g1); ctx_primary := fun T => primary_of T g1 |}).
  assert (in_context x g1) as Hx by by split_and!.
  assert (forall o e, o ∈ target -> object_named existing (o_name o) = Some e -> get_table (table_of o) g1 = get_table (table_of o) gm) as Hsame.
  { intros o e Ho Ee. apply Hkept. intros o' [Eo' Ho']%Hnew Et. rewrite <- (table_name_apart target Htarget o o' Ho Ho' Et) in Eo'. congruence. }
  assert (passed x g1) as Hpassed.
  { constructor; [done|..].
    - intros o Ho. pose proof (existing_table o Ho) as Hex. destruct (object_named existing (o_name o)) as [e|] eqn:Ee.
      + destruct Hex as (t & Et & Eo). exists t. rewrite (Hsame o e Ho Ee). split; [done|].
        assert (ctx_primary x (table_of o) = t_primary t) as Hp by (cbn; unfold primary_of; by rewrite (Hsame o e Ho Ee), Et).
        by apply (same_primary_key o gm t e Hgm Et Eo), (simple_of o e).
      + destruct (Hcreated o) as (t & Et & Hc); [by apply Hnew|]. exists t. split; [done|].
        by destruct (created_cells target Hvalid Hstorable o t "" Ho Hc).
    - intros T HT. apply Hkept. intros o [_ Ho]%Hnew. by apply HT. }
  assert (forall o', o' ∈ target -> ctx_tables x (table_of o')) as Htables by (intros o Ho; destruct (ps_tables _ _ Hpassed o Ho) as (t & Et & _); by exists t).
  destruct (types_run target Htarget x f changes_of (left_at x removes) target g1) with (g := g1) as (g' & keys & E & F & K & R); [done|done| |done|done|].
  - intros o g Ho Hg Hcells. unfold changes_of, left_at. pose proof (existing_table o Ho) as Hex. destruct (object_named existing (o_name o)) as [e|] eqn:Ee.
    + destruct Hex as (t & Et & Eo). rewrite Et. assert (ctx_primary x (table_of o) = t_primary t) as Hp by (cbn; unfold primary_of; by rewrite (Hsame o e Ho Ee), Et).
      apply (existing_first target Hvalid Hstorable x removes f Hf Htables o Ho gm t e Hgm Et Eo Hp); [by apply simple_of|done|].
      intros n. rewrite Hcells. unfold cell. by rewrite (Hsame o e Ho Ee), Et.
    + apply (new_type target Hvalid Hstorable x removes f Hf Htables o Ho g Hg). intros n. rewrite Hcells.
      destruct (Hcreated o) as (t & Et & Hc); [by apply Hnew|]. destruct (created_cells target Hvalid Hstorable o t n Ho Hc) as [_ Hcell].
      unfold cell. cbn. unfold primary_of. by rewrite Et.
  - exists x, g'. split_and!.
    + rewrite changes_split, fold_schema_app, E1. exact E.
    + by apply (passed_frame x g1 g' keys).
    + intros o t Ho Hne Et. destruct (object_named existing (o_name o)) as [e|] eqn:Ee; [|done]. cbn. unfold primary_of. by rewrite (Hsame o e Ho Ee), Et.
    + intros o n Ho. by apply R.
Qed.

Lemma second_pass char_is_signed x g : passed x g ->
  (forall o t, o ∈ target -> object_named existing (o_name o) <> None -> get_table (table_of o) gm = Some t -> ctx_primary x (table_of o) = t_primary t) ->
  (forall o n, o ∈ target -> left_at x false o n (cell (table_of o) n g)) ->
  exists g', fold_schema (post_migration_change char_is_signed [] No) changes g = Fine g' /\ passed x g' /\
    forall o n, o ∈ target -> cell_settled o (ctx_primary x (table_of o)) n (cell (table_of o) n g').
Proof.
  intros Hg Hprim Hleft. assert (forall o', o' ∈ target -> ctx_tables x (table_of o')) as Htables.
  { intros o Ho. destruct (ps_tables _ _ Hg o Ho) as (t & Et & _). apply (ps_context _ _ Hg). by exists t. }
  assert (NoDup target) as Hnd by (destruct Htarget as [_ Hn]; by eapply NoDup_fmap_1).
  rewrite changes_split, fold_schema_app.
  rewrite (tables_created_again target Hstorable (post_migration_change char_is_signed [] No) new_types g); [|done| |apply (ps_context _ _ Hg)|].
  2:{ intros o Ho. unfold new_types in Ho. by apply list_elem_of_filter in Ho as [_ Ho]. }
  2:{ intros o Ho. unfold new_types in Ho. apply list_elem_of_filter in Ho as [_ Ho]. destruct (ps_tables _ _ Hg o Ho) as (t & Et & _). by exists t. }
  cbn [mbind schema_bind].
  destruct (types_run target Htarget x (post_migration_change char_is_signed [] No) changes_of (fun o => cell_settled o (ctx_primary x (table_of o))) target g) with (g := g)
    as (g' & keys & E & F & K & R); [done|done| |apply (ps_context _ _ Hg)|done|].
  - intros o g0 Ho Hg0 Hcells. unfold changes_of. pose proof (existing_table o Ho) as Hex.
    assert (forall n, left_at x false o n (cell (table_of o) n g0)) as Hl by (intros n; rewrite Hcells; by apply Hleft). unfold left_at in Hl.
    destruct (object_named existing (o_name o)) as [e|] eqn:Ee.
    + destruct Hex as (t & Et & Eo). rewrite Et in Hl. apply (existing_second target Hvalid Hstorable x false Htables o Ho gm t e Hgm Et Eo); [apply Hprim; [done|by rewrite Ee|done]|by apply simple_of|done|done|done].
    + exists g0, []. split_and!; [done|apply frame_refl, Hg0|by intros k Hk%not_elem_of_nil|done].
  - exists g'. split_and!; [exact E|by apply (passed_frame x g g' keys)|]. intros o n Ho. by apply R.
Qed.

Lemma passed_settled x g : passed x g -> (forall o n, o ∈ target -> cell_settled o (ctx_primary x (table_of o)) n (cell (table_of o) n g)) ->
  forall o, o ∈ target -> type_settled g o.
Proof.
  intros Hg Hs o Ho. destruct (ps_tables _ _ Hg o Ho) as (t & Et & En). exists t. split_and!; [done..|]. intros n. specialize (Hs o n Ho).
  destruct (ps_context _ _ Hg) as (_ & _ & Hp). rewrite <- Hp in Hs. unfold cell, primary_of in Hs. by rewrite Et in Hs.
Qed.

Lemma first_pass_settles x g : (forall o n, o ∈ target -> left_at x true o n (cell (table_of o) n g)) ->
  forall o n, o ∈ target -> cell_settled o (ctx_primary x (table_of o)) n (cell (table_of o) n g).
Proof.
  intros Hl o n Ho. specialize (Hl o n Ho). unfold left_at in Hl. destruct (object_named existing (o_name o)) as [e|]; [|done].
  destruct (get_table (table_of o) gm) as [t|] eqn:Et; [|done]. unfold first_left in Hl. destruct (column_named n t) as [c|] eqn:Ec; [|done].
  apply column_named_iff in Ec as [_ En]; [|by eapply get_table_wf]. destruct (hidden n) eqn:Eh.
  - rewrite Hl. unfold cell_settled. destruct (persisted_named o n) as [p|] eqn:Ep; [|done].
    apply (persisted_named_iff target o (Hvalid o Ho)) in Ep as [Hp <-]. destruct (st_columns o (Hstorable o Ho) p Hp) as (_ & Hh & _). congruence.
  - destruct Hl as (pt & _ & Hm). unfold mid in Hm. rewrite En in Hm. unfold cell_settled. destruct (persisted_named o n) as [p|].
    + by destruct Hm as (c' & -> & Hfit & _).
    + by rewrite Hm.
Qed.

(** The group can be read afterwards. *)
Lemma passed_readable x g : passed x g ->
  (forall o n c, o ∈ target -> cell (table_of o) n g = Some c -> readable c) -> exists s', schema_from_group g = Fine s'.
Proof.
  intros Hg Hr. apply schema_from_group_total; [apply (ps_context _ _ Hg)|]. intros t c Ht Hn Hc. destruct (ps_context _ _ Hg) as (Hok & _).
  assert (get_table (t_name t) g = Some t) as Et by by apply get_table_iff.
  destruct (decide (object_type_for_table_name (t_name t) ∈ o_name <$> target)) as [Hin|Hout].
  - apply list_elem_of_fmap in Hin as (o & Eo & Ho). apply (Hr o (c_name c) c Ho). unfold cell.
    rewrite <- Eo, (table_name_of_object_type _ Hn), Et. cbn. apply column_named_iff; [by apply (ok_wf g Hok)|done].
  - destruct (ps_rest _ _ Hg (t_name t)) as (Eg & _).
    { intros o Ho E. apply Hout. rewrite E, object_type_of_table_name. by apply list_elem_of_fmap_2. }
    rewrite Et in Eg. symmetry in Eg.
    destruct (rd_some _ _ Hreads (object_type_for_table_name (t_name t)) t Hn) as (e & _ & Ee); [by rewrite table_name_of_object_type|].
    destruct (object_schema_of_table_spec (object_type_for_table_name (t_name t)) t gm e Hgm) as (_ & _ & _ & _ & _ & _ & Hread); [by rewrite table_name_of_object_type|done|]. by apply Hread.
Qed.

(** Before any pass, where only the table of the versions may be new. *)
Lemma reads_readable : exists s, schema_from_group gm = Fine s.
Proof.
  apply schema_from_group_total; [done|]. intros t c Ht Hn Hc.
  assert (get_table (table_name_for_object_type (object_type_for_table_name (t_name t))) gm = Some t) as Et.
  { rewrite table_name_of_object_type by done. by apply get_table_iff. }
  destruct (rd_some _ _ Hreads _ t Hn Et) as (e & _ & Ee).
  destruct (object_schema_of_table_spec (object_type_for_table_name (t_name t)) t gm e Hgm Et Ee) as (_ & _ & _ & _ & _ & _ & Hread). by apply Hread.
Qed.
End whole.
