(* ===== verification/SchemaResult.v ===== *)
(** What [apply_schema_changes] makes of a file: the version that is set is read; after the first
    initialization of a file and after an automatic migration the schema of the file needs no
    change to be the target; in additive mode what is left is properties that the target does not
    have. *)

From S2P Require Import Prelude SchemaData SchemaValidation SchemaChanges SchemaStore SchemaApply SchemaLaws SchemaRead SchemaPasses SchemaChunks SchemaMigration.
#[local] Open Scope Z_scope.

(** ** Versions *)

Lemma to_int64_u64 v : 0 <= v < 2 ^ 64 -> u64 (to_int64 v) = v.
Proof.
  intros Hv. unfold to_int64, u64. change word_size with (2 ^ 64). rewrite (Z.mod_small v) by done. destruct (Z.ltb_spec v (2 ^ 63)).
  - apply Z.mod_small. lia.
  - rewrite <- (Z.mod_add (v - 2 ^ 64) 1 (2 ^ 64)) by lia. replace (v - 2 ^ 64 + 1 * 2 ^ 64) with v by lia. apply Z.mod_small. lia.
Qed.

Section version.
Context `{StoreSpec}.

(** A metadata table that holds a version. *)
Definition versioned (g : Group) : Prop :=
  exists t c, get_table c_metadataTableName g = Some t /\ column_named c_versionColumnName t = Some c /\ c_type c = type_Int /\
    c_nullable c = false /\ table_is_empty c_metadataTableName g = false.

(** A metadata table that is not there, that is new, or that holds a version. *)
Definition metadata_ok (g : Group) : Prop :=
  match get_table c_metadataTableName g with
  | None => True
  | Some t => (t_columns t = [] /\ table_is_empty c_metadataTableName g = true) \/ versioned g
  end.

Definition other_tables_same (g g' : Group) : Prop := forall T, T <> c_metadataTableName -> get_table T g' = get_table T g.

Lemma versioned_columns g t : versioned g -> get_table c_metadataTableName g = Some t -> t_columns t <> [].
Proof. intros (t' & c & Et' & Ec & _) Et E. assert (t' = t) as -> by congruence. unfold column_named in Ec. by rewrite E in Ec. Qed.

Lemma put_version g v : group_ok g -> versioned g -> 0 <= v < 2 ^ 64 ->
  exists g', put_schema_version v g = Fine g' /\ group_ok g' /\ other_tables_same g g' /\ versioned g' /\ get_schema_version g' = v.
Proof.
  intros Hg Hver Hv. pose proof Hver as (t & c & Et & Ec & Hty & Hnul & Hne). unfold put_schema_version. rewrite Et.
  destruct (set_int_law c_metadataTableName c_versionColumnName (to_int64 v) t c g) as (g' & E & Hg' & He & Et' & Hne' & Ei); [done..|].
  assert (versioned g') as Hver' by by exists t, c.
  exists g'. split_and!; [done|done| |done|].
  - intros T HT. by destruct (He T HT) as [-> _].
  - unfold get_schema_version. rewrite Et', Ei, bool_decide_false by (by eapply versioned_columns). by apply to_int64_u64.
Qed.

Lemma metadata_created g : group_ok g -> metadata_ok g ->
  exists g', create_metadata_tables g = Fine g' /\ group_ok g' /\ other_tables_same g g' /\ versioned g' /\
    (versioned g -> g' = g) /\ (~ versioned g -> get_schema_version g' = NotVersioned).
Proof.
  intros Hg Hm. unfold create_metadata_tables, metadata_ok in *.
  assert (forall g0 t, group_ok g0 -> get_table c_metadataTableName g0 = Some t -> t_columns t = [] -> table_is_empty c_metadataTableName g0 = true ->
    exists g', ('(g, _) ← add_column c_metadataTableName type_Int c_versionColumnName false g0;
                create_object_with_int c_metadataTableName c_versionColumnName (to_int64 NotVersioned) g) = Fine g' /\
      group_ok g' /\ other_tables_same g0 g' /\ versioned g' /\ get_schema_version g' = NotVersioned) as Hnew.
  { intros g0 t Hg0 Et Hc He. destruct (add_column_new c_metadataTableName type_Int c_versionColumnName false t g0) as (g1 & k & E & Hg1 & Hels & He1 & t0 & t1 & Et0 & Et1 & _ & _ & Ec & _);
      [done|done|apply version_name_ok|left|unfold column_named; by rewrite Hc|]. rewrite E. cbn [mbind schema_bind].
    destruct (create_object_law c_metadataTableName c_versionColumnName (to_int64 NotVersioned) t1 _ g1 Hg1 Et1 Ec) as (g2 & E2 & Hg2 & He2 & Et2 & Hne & Ei);
      [done|done|congruence|].
    assert (versioned g2) as Hver by by eexists t1, _.
    exists g2. split_and!; [done|done| |done|].
    - intros T HT. destruct (He2 T HT) as [-> _]. by destruct (Hels T HT) as [-> _].
    - unfold get_schema_version. rewrite Et2, Ei, bool_decide_false by (by eapply versioned_columns). by apply to_int64_u64. }
  destruct (get_table c_metadataTableName g) as [t|] eqn:Et.
  - rewrite (get_or_add_existing _ t g Hg Et). cbn [mbind schema_bind]. rewrite Et. destruct Hm as [[Hc He]|Hver].
    + rewrite bool_decide_true by done. destruct (Hnew g t Hg Et Hc He) as (g' & E & Hg' & Ho & Hver & Ev). exists g'. split_and!; try done.
      intros Hver0. by destruct (versioned_columns g t Hver0 Et).
    + rewrite bool_decide_false by by apply (versioned_columns g). exists g. split_and!; try done.
  - destruct (get_or_add_new c_metadataTableName g Hg metadata_name_ok Et) as (g0 & k & E0 & Hg0 & Hels & Et0 & He0). rewrite E0. cbn [mbind schema_bind].
    rewrite Et0. rewrite bool_decide_true by done. destruct (Hnew g0 _ Hg0 Et0 eq_refl He0) as (g' & E & Hg' & Ho & Hver & Ev). exists g'. split_and!; try done.
    + intros T HT. rewrite (Ho T HT). by destruct (Hels T HT) as [-> _].
    + intros (t & c & Et' & _). congruence.
Qed.

(** The version that is set is the version that is read, and the file has one from then on. *)
Theorem version_round_trip g v : group_ok g -> metadata_ok g -> 0 <= v < 2 ^ 64 ->
  exists g', set_schema_version v g = Fine g' /\ group_ok g' /\ other_tables_same g g' /\ versioned g' /\ get_schema_version g' = v.
Proof.
  intros Hg Hm Hv. destruct (metadata_created g Hg Hm) as (g1 & E1 & Hg1 & Ho1 & Hver1 & _).
  destruct (put_version g1 v Hg1 Hver1 Hv) as (g2 & E2 & Hg2 & Ho2 & Hver2 & Ev). exists g2. unfold set_schema_version. rewrite E1. cbn.
  split_and!; try done. intros T HT. by rewrite (Ho2 T HT), (Ho1 T HT).
Qed.
End version.

Lemma fold_schema_ext {A S} (f f' : A -> S -> schema_result S) l s : (forall a s, a ∈ l -> f a s = f' a s) -> fold_schema f l s = fold_schema f' l s.
Proof.
  revert s. induction l as [|a l IH]; intros s Hf; [done|]. cbn. rewrite Hf by left. destruct (f' a s); [|done]. apply IH. intros b s' Hb. apply Hf. by right.
Qed.

Lemma bind_fine {A B} (m : schema_result A) (k : A -> schema_result B) b : m ≫= k = Fine b -> exists a, m = Fine a /\ k a = Fine b.
Proof. destruct m as [a|e]; [|done]. intros E. by exists a. Qed.

(** The changes that the same version allows; with the properties that the target does not have,
    those that additive mode allows, and with new properties. *)
Definition additive_allowed (ch : SchemaChange) : bool :=
  match ch with AddTable _ | AddInitialProperties _ | AddProperty _ _ | RemoveProperty _ _ | AddIndex _ _ | RemoveIndex _ _ => true | _ => false end.

Lemma additive_verified changes update_indexes b : verify_valid_additive_changes changes update_indexes = Fine b ->
  forall ch, ch ∈ changes -> match ch with RemoveTable _ => True | _ => additive_allowed ch = true end.
Proof.
  unfold verify_valid_additive_changes, verify_no_errors. rewrite concat_bind. destruct (decide _) as [E|]; [|done]. intros _ ch Hch.
  rewrite bind_nil in E. specialize (E ch Hch). destruct ch as [| | | | | | | | | |o p]; try done. exfalso. cbn in E.
  destruct p; [|done]. by destruct (negb _).
Qed.

Lemma compare_no_removed_tables existing target : schema_sorted target -> schema_sorted existing -> forall ch, ch ∈ compare existing target false ->
  match ch with RemoveTable _ => False | _ => True end.
Proof.
  intros Ht He ch Hch. rewrite compare_by_type in Hch by done. apply elem_of_app in Hch as [Hch|Hch]; apply list_elem_of_bind in Hch as (o & Hch & _);
    destruct (object_named existing (o_name o)) as [e|]; try by apply not_elem_of_nil in Hch.
  - by apply list_elem_of_singleton in Hch as ->.
  - unfold compare_objects in Hch. rewrite !elem_of_app in Hch. destruct Hch as [Hch|[Hch|Hch]].
    + rewrite concat_bind in Hch. apply list_elem_of_bind in Hch as (cur & Hch & _). unfold compare_property in Hch.
      repeat (case_match; try by apply list_elem_of_singleton in Hch as ->; try by apply not_elem_of_nil in Hch);
        rewrite ?elem_of_app, ?list_elem_of_singleton, ?elem_of_nil in Hch; naive_solver.
    + rewrite concat_bind in Hch. apply list_elem_of_bind in Hch as (cur & Hch & _). case_match; [by apply not_elem_of_nil in Hch|]. by apply list_elem_of_singleton in Hch as ->.
    + case_bool_decide; [by apply not_elem_of_nil in Hch|]. by apply list_elem_of_singleton in Hch as ->.
  - by apply list_elem_of_singleton in Hch as ->.
Qed.

Section result.
Context `{StoreSpec} (char_is_signed : bool).
Local Abbreviation table_of o := (table_name_for_object_type (o_name o)).

Definition keys_resolved (g : Group) (s : Schema) : Prop :=
  forall o, o ∈ s -> exists t, get_table (table_of o) g = Some t /\ table_key o = t_key t /\
    forall p, p ∈ persisted_properties o -> exists c, column_named (p_name p) t = Some c /\ column_key p = c_key c.

(** A file of the version, whose schema can be read and needs no change to be the target but those
    that are left. *)
Definition settled_file (g : Group) (target : Schema) (version : Z) (left : SchemaChange -> bool) : Prop :=
  group_ok g /\ get_schema_version g = version /\
  exists s, schema_from_group g = Fine s /\ forall ch, ch ∈ compare s target false -> left ch = true.

Definition nothing_left (ch : SchemaChange) : bool := false.
Definition properties_left (ch : SchemaChange) : bool := match ch with RemoveProperty _ _ => true | _ => false end.

Lemma settled_file_weaken g target version (left left' : SchemaChange -> bool) :
  (forall ch, left ch = true -> left' ch = true) -> settled_file g target version left -> settled_file g target version left'.
Proof. intros Hl (Hg & Hv & s & Es & Hch). split_and!; [done|done|]. exists s. split; [done|]. intros ch Hin. by apply Hl, Hch. Qed.

(** What additive mode promises to leave: properties that the target does not have, and indexes
    unless the version is newer. *)
Definition additive_left (newer : bool) (ch : SchemaChange) : bool :=
  match ch with RemoveProperty _ _ => true | AddIndex _ _ | RemoveIndex _ _ => negb newer | _ => false end.

Section target.
Context (target : Schema) (Htarget : schema_sorted target) (Hv : schema_valid target) (Hstorable : forall o, o ∈ target -> storable o).
Local Lemma Hvalid o : o ∈ target -> object_valid target o.
Proof. apply Hv. Qed.

(** A column of a type is settled, or is not of the type. *)
Definition cell_left (o : ObjectSchema) (primary : option Z) (n : string) (c : option Column) : Prop :=
  match persisted_named o n, c with
  | Some p, Some c => column_fits primary p c = true
  | Some _, None => False
  | None, _ => True
  end.

Lemma cell_settled_left o primary n c : cell_settled o primary n c -> cell_left o primary n c.
Proof. unfold cell_settled, cell_left. by destruct (persisted_named o n). Qed.

Lemma compare_left g s : group_ok g -> schema_from_group g = Fine s ->
  (forall o, o ∈ target -> exists t, get_table (table_of o) g = Some t /\ primary_name t = primary_key o /\ forall n, cell_left o (t_primary t) n (column_named n t)) ->
  forall ch, ch ∈ compare s target false -> properties_left ch = true.
Proof.
  intros Hg Es Hall ch Hch. pose proof (schema_from_group_reads g s Hg Es) as Hr. rewrite compare_by_type in Hch by (done || apply Hr).
  apply elem_of_app in Hch as [Hch|Hch]; apply list_elem_of_bind in Hch as (o & Hch & Ho); destruct (Hall o Ho) as (t & Et & Epk & Hcells);
    destruct (st_name o (Hstorable o Ho)) as [Hn _]; destruct (rd_some g s Hr _ t Hn Et) as (e & Ee & Eo); rewrite Ee in Hch; [by apply not_elem_of_nil in Hch|].
  pose proof (get_table_wf _ g t Hg Et) as Ht. destruct (object_schema_of_table_spec _ t g e Hg Et Eo) as (_ & Epk' & _ & _ & Hps & Hcomp & Hread).
  unfold compare_objects in Hch. rewrite !concat_bind, bool_decide_true, app_nil_r in Hch by congruence. apply elem_of_app in Hch as [Hch|Hch];
    apply list_elem_of_bind in Hch as (p & Hch & Hp).
  - apply Hps in Hp as (c & pt & Hc & Hh & Ept & ->). specialize (Hcells (c_name c)). rewrite (proj2 (column_named_iff t _ c Ht)) in Hcells by done.
    unfold cell_left in Hcells. destruct (persisted_named o (c_name c)) as [p|] eqn:Ep.
    + rewrite (proj2 (compare_property_nil target o (Hstorable o Ho) (Hvalid o Ho) e (t_primary t) c pt Ept)) in Hch; [by apply not_elem_of_nil in Hch|by exists p].
    + rewrite (compare_property_cases target o (Hstorable o Ho) (Hvalid o Ho)) in Hch. cbn in Hch. rewrite Ep in Hch. by apply list_elem_of_singleton in Hch as ->.
  - destruct (property_for_name e (p_name p)) as [q|] eqn:Eq; [by apply not_elem_of_nil in Hch|]. exfalso. specialize (Hcells (p_name p)). unfold cell_left in Hcells.
    rewrite (proj2 (persisted_named_iff target o (Hvalid o Ho) (p_name p) p)) in Hcells by done.
    destruct (column_named (p_name p) t) as [c|] eqn:Ec; [|done]. apply column_named_iff in Ec as [Hc Ecn]; [|done].
    destruct (st_columns o (Hstorable o Ho) p Hp) as (_ & Hh & _). destruct (Hread c Hc) as [pt Ept]; [by rewrite Ecn|].
    unfold property_for_name in Eq. destruct (List.find (named (p_name p)) (persisted_properties e)) eqn:Ef; [done|]. apply (find_key_none p_name) in Ef. apply Ef.
    rewrite <- Ecn. change (c_name c) with (p_name (current_property (t_primary t) c pt)). apply list_elem_of_fmap_2, Hps. exists c, pt. split_and!; try done. by rewrite Ecn.
Qed.

Lemma set_keys_resolved g :
  (forall o, o ∈ target -> exists t, get_table (table_of o) g = Some t /\ forall n, cell_left o (t_primary t) n (column_named n t)) ->
  keys_resolved g (set_schema_keys g target).
Proof.
  intros Hall o' Ho'. unfold set_schema_keys in Ho'. apply list_elem_of_fmap in Ho' as (o & -> & Ho). destruct (Hall o Ho) as (t & Et & Hcells).
  unfold set_object_keys, table_for_object_type. rewrite Et. exists t. split_and!; [done..|]. intros p Hp. apply list_elem_of_fmap in Hp as (q & -> & Hq).
  cbn [p_name column_key with_column_key]. specialize (Hcells (p_name q)). unfold cell_left in Hcells.
  rewrite (proj2 (persisted_named_iff target o (Hvalid o Ho) (p_name q) q)) in Hcells by done. destruct (column_named (p_name q) t) as [c|]; [|done]. by exists c.
Qed.

(** The version is the last thing that is written. *)
Lemma settled_tables g g' : other_tables_same g g' -> forall n, get_table (table_name_for_object_type n) g' = get_table (table_name_for_object_type n) g.
Proof. intros Ho n. by apply Ho. Qed.

Section group.
Context (g gm : Group) (existing : Schema) (Hgm : group_ok gm) (Hver : versioned gm) (Hreads : reads gm existing).
Local Abbreviation changes := (compare existing target false).

Lemma passed_versioned x g1 : passed target gm x g1 -> versioned g1.
Proof.
  intros Hp. destruct Hver as (t & c & Et & Hc). destruct (ps_rest _ _ _ _ Hp c_metadataTableName) as (Eg & Ee & _); [by intros o Ho|].
  exists t, c. by rewrite Eg, Ee.
Qed.

Lemma finish_file x g1 g' : passed target gm x g1 -> group_ok g' -> other_tables_same g1 g' ->
  (forall o n, o ∈ target -> cell_left o (ctx_primary x (table_of o)) n (cell (table_of o) n g1)) ->
  (forall o n c, o ∈ target -> cell (table_of o) n g1 = Some c -> readable c) ->
  settled_file g' target (get_schema_version g') properties_left /\ keys_resolved g' (set_schema_keys g' target) /\
    forall o, o ∈ target -> type_settled g1 o -> type_settled g' o.
Proof.
  intros Hp Hg' Ho Hleft Hread. destruct (ps_context _ _ _ _ Hp) as (Hg1 & _ & Hprim).
  assert (forall o, o ∈ target -> exists t, get_table (table_of o) g' = Some t /\ primary_name t = primary_key o /\ forall n, cell_left o (t_primary t) n (column_named n t)) as Hcells.
  { intros o Hot. destruct (ps_tables _ _ _ _ Hp o Hot) as (t & Et & En). exists t. rewrite (settled_tables g1 g' Ho). split_and!; [done..|].
    intros n. specialize (Hleft o n Hot). rewrite <- Hprim in Hleft. unfold cell, primary_of in Hleft. by rewrite Et in Hleft. }
  split_and!.
  - split_and!; [done..|]. assert (exists s1, schema_from_group g1 = Fine s1) as [s1 E1] by (by apply (passed_readable target gm existing Hgm Hreads x)).
    pose proof (reads_same g1 g' s1 (settled_tables g1 g' Ho) (schema_from_group_reads g1 s1 Hg1 E1)) as Hr.
    destruct (reads_readable g' s1 Hg' Hr) as [s' Es']. exists s'. split; [done|]. by apply (compare_left g').
  - apply set_keys_resolved. intros o Hot. destruct (Hcells o Hot) as (t & Et & _ & Hc). by exists t.
  - intros o Hot (t & Et & Hs). exists t. by rewrite (settled_tables g1 g' Ho).
Qed.

Lemma finish x g1 v : passed target gm x g1 -> 0 <= v < 2 ^ 64 ->
  (forall o n, o ∈ target -> cell_left o (ctx_primary x (table_of o)) n (cell (table_of o) n g1)) ->
  (forall o n c, o ∈ target -> cell (table_of o) n g1 = Some c -> readable c) ->
  exists g', put_schema_version v g1 = Fine g' /\ settled_file g' target v properties_left /\ keys_resolved g' (set_schema_keys g' target) /\
    forall o, o ∈ target -> type_settled g1 o -> type_settled g' o.
Proof.
  intros Hp Hv0 Hleft Hread. destruct (ps_context _ _ _ _ Hp) as (Hg1 & _).
  destruct (put_version g1 v Hg1 (passed_versioned x g1 Hp) Hv0) as (g' & E & Hg' & Ho & Hver' & Ev). exists g'. split; [done|].
  rewrite <- Ev at 1. by apply (finish_file x g1).
Qed.

Lemma passed_version x g1 : passed target gm x g1 -> get_schema_version g1 = get_schema_version gm.
Proof.
  intros Hp. destruct (ps_rest _ _ _ _ Hp c_metadataTableName) as (Eg & _ & Ei); [by intros o Ho|]. unfold get_schema_version. by rewrite Eg, Ei.
Qed.

Lemma settled_nothing_left g' v : settled_file g' target v properties_left -> (forall o, o ∈ target -> type_settled g' o) -> settled_file g' target v nothing_left.
Proof.
  intros (Hg' & Ev & s & Es & _) Hs. split_and!; [done..|]. exists s. split; [done|].
  rewrite (proj2 (settled_compare_nil target Htarget Hvalid Hstorable g' s Hg' Es) Hs). by intros ch Hch%not_elem_of_nil.
Qed.
End group.

Section apply.
Context (g : Group) (existing : Schema) (Hg : group_ok g) (Hmeta : metadata_ok g) (Hexisting : schema_from_group g = Fine existing).
Local Abbreviation changes := (compare existing target false).

Lemma metadata_step : exists gm, create_metadata_tables g = Fine gm /\ group_ok gm /\ versioned gm /\ reads gm existing.
Proof.
  destruct (metadata_created g Hg Hmeta) as (gm & E & Hgm & Ho & Hver & _). exists gm. split_and!; [done..|].
  apply (reads_same g); [by apply settled_tables|by apply schema_from_group_reads].
Qed.

Lemma settled_readable x (g1 : Group) : group_ok g1 -> (forall o n, o ∈ target -> cell_settled o (ctx_primary x (table_of o)) n (cell (table_of o) n g1)) ->
  forall o n c, o ∈ target -> cell (table_of o) n g1 = Some c -> readable c.
Proof.
  intros Hg1 Hs o n c Ho Ec. specialize (Hs o n Ho). rewrite Ec in Hs. destruct (cell_some _ n g1 c Hg1 Ec) as (_ & _ & _ & En & _).
  by apply (cell_settled_readable target o (ctx_primary x (table_of o)) n c (Hstorable o Ho) (Hvalid o Ho)).
Qed.

Lemma hidden_not_persisted o n : o ∈ target -> hidden n = true -> persisted_named o n = None.
Proof.
  intros Ho Hh. destruct (persisted_named o n) as [p|] eqn:Ep; [|done]. apply (persisted_named_iff target o (Hvalid o Ho)) in Ep as [Hp <-].
  destruct (st_columns o (Hstorable o Ho) p Hp) as (_ & Hh' & _). congruence.
Qed.

Lemma left_cell gm x g1 o n : group_ok gm -> group_ok g1 -> o ∈ target -> left_at gm existing x false o n (cell (table_of o) n g1) ->
  cell_left o (ctx_primary x (table_of o)) n (cell (table_of o) n g1) /\ forall c, cell (table_of o) n g1 = Some c -> readable c.
Proof.
  intros Hgm Hg1 Ho Hl. assert (cell_settled o (ctx_primary x (table_of o)) n (cell (table_of o) n g1) ->
    cell_left o (ctx_primary x (table_of o)) n (cell (table_of o) n g1) /\ forall c, cell (table_of o) n g1 = Some c -> readable c) as Hset.
  { intros Hs. split; [by apply cell_settled_left|]. intros c Ec. rewrite Ec in Hs. destruct (cell_some _ n g1 c Hg1 Ec) as (_ & _ & _ & En & _).
    by apply (cell_settled_readable target o (ctx_primary x (table_of o)) n c (Hstorable o Ho) (Hvalid o Ho)). }
  unfold left_at in Hl. destruct (object_named existing (o_name o)) as [e|]; [|by apply Hset]. destruct (get_table (table_of o) gm) as [t|] eqn:Et; [|by apply Hset].
  unfold first_left in Hl. destruct (column_named n t) as [c|] eqn:Ec; [|by apply Hset].
  apply column_named_iff in Ec as [_ En]; [|exact (get_table_wf _ _ _ Hgm Et)]. destruct (hidden n) eqn:Eh.
  - rewrite Hl. unfold cell_left. rewrite (hidden_not_persisted o n Ho Eh). split; [done|]. intros c' [= <-] Hh. congruence.
  - destruct Hl as (pt & Ept & Hm). unfold mid in Hm. rewrite En in Hm. unfold cell_left. destruct (persisted_named o n) as [p|].
    + destruct Hm as (c' & -> & Hfit & _). split; [done|]. intros c2 [= <-] _. unfold column_fits in Hfit. destruct (from_core_type c') as [pt'|]; [by exists pt'|done].
    + rewrite Hm. split; [done|]. intros c2 [= <-] _. by exists pt.
Qed.

(** After the first initialization of a file, and after an automatic migration that no function
    takes part in, the schema that is read from the file needs no change to be the target, the
    version is that of the target, and the target knows the keys of its tables and columns;
    unless the primary key changes or a property changes its index together with being optional. *)
Lemma target_applied now schema_version target_version mode sync_user_id :
  simple_changes changes = true -> 0 <= target_version < 2 ^ 64 -> mode <> Additive ->
  schema_version = NotVersioned \/ schema_version <> target_version /\ mode <> Manual ->
  exists g', apply_schema_changes char_is_signed now schema_version target target_version mode changes sync_user_id None g = Fine (g', set_schema_keys g' target) /\
    settled_file g' target target_version nothing_left /\ keys_resolved g' (set_schema_keys g' target).
Proof.
  intros Hsimple Hv0 Hadd Hpath. destruct metadata_step as (gm & Em & Hgm & Hver & Hreads). unfold apply_schema_changes. rewrite Em. cbn [mbind schema_bind].
  rewrite decide_False by done.
  assert (forall x g1, passed target gm x g1 -> (forall o n, o ∈ target -> cell_settled o (ctx_primary x (table_of o)) n (cell (table_of o) n g1)) ->
    exists g', put_schema_version target_version g1 = Fine g' /\ settled_file g' target target_version nothing_left /\ keys_resolved g' (set_schema_keys g' target)) as Hfinish.
  { intros x g1 Hp Hs. destruct (finish gm existing Hgm Hver Hreads x g1 target_version Hp Hv0) as (g' & E & Hf & Hk & Ht);
      [intros o n Ho; apply cell_settled_left; by apply Hs|apply (settled_readable x); [apply (ps_context _ _ _ _ Hp)|done]|].
    exists g'. split_and!; [done| |done]. apply settled_nothing_left; [done|]. intros o Ho. apply Ht; [done|]. by apply (passed_settled target gm x g1). }
  destruct (Z.eqb_spec schema_version NotVersioned) as [Ev|Ev].
  - destruct (first_pass target Htarget Hvalid Hstorable gm existing Hgm Hreads Hsimple true initial_change) as (x & g1 & E & Hp & _ & Hl); [by intros []|].
    unfold create_initial_tables. rewrite E. cbn [mbind schema_bind].
    destruct (Hfinish x g1 Hp) as (g' & Ep & Hf); [by apply (first_pass_settles target Hvalid Hstorable gm existing Hgm)|].
    rewrite Ep. cbn [mbind schema_bind]. exists g'. split; [done|exact Hf].
  - destruct Hpath as [|[Hne Hman]]; [done|]. rewrite decide_False by done. destruct (Z.eqb_spec schema_version target_version) as [|_]; [done|].
    destruct (reads_readable gm existing Hgm Hreads) as [old ->]. cbn [mbind schema_bind].
    destruct (first_pass target Htarget Hvalid Hstorable gm existing Hgm Hreads Hsimple false pre_migration_change) as (x & g1 & E & Hp & Hprim & Hl); [by intros []|].
    unfold apply_pre_migration_changes. rewrite E. cbn [mbind schema_bind].
    destruct (second_pass target Htarget Hvalid Hstorable gm existing Hgm Hreads Hsimple char_is_signed x g1 Hp Hprim Hl) as (g2 & E2 & Hp2 & Hs).
    unfold apply_post_migration_changes. rewrite E2. cbn [mbind schema_bind].
    destruct (Hfinish x g2 Hp2 Hs) as (g' & Ep & Hf). rewrite Ep. cbn [mbind schema_bind]. exists g'. split; [done|exact Hf].
Qed.

(** The version that a file has before, when it has one. *)
Lemma version_of_new_file gm : create_metadata_tables g = Fine gm -> get_schema_version g = NotVersioned \/ gm = g.
Proof.
  intros E. destruct (metadata_created g Hg Hmeta) as (gm' & E' & _ & _ & _ & Hsame & _). assert (gm' = gm) as -> by congruence.
  unfold metadata_ok in Hmeta. unfold get_schema_version. destruct (get_table c_metadataTableName g) as [t|]; [|by left]. destruct Hmeta as [[-> _]|Hver]; [by left|].
  right. by apply Hsame.
Qed.

(** All that keeps the file from being the target in additive mode is properties that the target
    does not have: indexes are changed even when the version is not newer. *)
Lemma additive_changes_applied now target_version update_indexes needed migration_function :
  verify_valid_additive_changes changes update_indexes = Fine needed -> 0 <= target_version < 2 ^ 64 ->
  exists g', apply_schema_changes char_is_signed now (get_schema_version g) target target_version Additive changes None migration_function g
             = Fine (g', set_schema_keys g' target) /\
    settled_file g' target (if (get_schema_version g <? target_version) || (get_schema_version g =? NotVersioned) then target_version else get_schema_version g)
      properties_left /\ keys_resolved g' (set_schema_keys g' target).
Proof.
  intros Hver0 Hv0. destruct metadata_step as (gm & Em & Hgm & Hver & Hreads). unfold apply_schema_changes. rewrite Em. cbn [mbind schema_bind].
  rewrite decide_True by done. assert (forall ch, ch ∈ changes -> additive_allowed ch = true) as Hallowed.
  { intros ch Hch. pose proof (additive_verified _ _ _ Hver0 ch Hch) as Ha. pose proof (compare_no_removed_tables existing target Htarget (rd_sorted _ _ Hreads) ch Hch). by destruct ch. }
  assert (simple_changes changes = true) as Hsimple by (apply forallb_forall; intros ch Hch; rewrite <- list_elem_of_In in Hch; specialize (Hallowed ch Hch); by destruct ch).
  destruct (first_pass target Htarget Hvalid Hstorable gm existing Hgm Hreads Hsimple false pre_migration_change) as (x & g1 & E & Hp & Hprim & Hl); [by intros []|].
  unfold apply_additive_changes. rewrite (fold_schema_ext _ pre_migration_change) by (intros ch g0 Hch; specialize (Hallowed ch Hch); by destruct ch).
  rewrite E. cbn [mbind schema_bind]. destruct (ps_context _ _ _ _ Hp) as (Hg1 & _).
  assert (forall o n, o ∈ target -> cell_left o (ctx_primary x (table_of o)) n (cell (table_of o) n g1)) as Hleft by (intros o n Ho; by apply (left_cell gm x g1), Hl).
  assert (forall o n c, o ∈ target -> cell (table_of o) n g1 = Some c -> readable c) as Hread by (intros o n c Ho; by apply (left_cell gm x g1), Hl).
  destruct ((get_schema_version g <? target_version) || (get_schema_version g =? NotVersioned)) eqn:Enew; cbn [mbind schema_bind].
  - destruct (finish gm existing Hgm Hver Hreads x g1 target_version Hp Hv0 Hleft Hread) as (g' & Ep & Hf & Hk & _).
    rewrite Ep. cbn [mbind schema_bind]. by exists g'.
  - exists g1. destruct (finish_file gm existing Hgm Hreads x g1 g1 Hp Hg1 ltac:(done) Hleft Hread) as (Hf & Hk & _). split_and!; [done| |done].
    destruct (version_of_new_file gm Em) as [Enot|Eg]; [by rewrite Enot, Z.eqb_refl, orb_true_r in Enew|]. rewrite <- Eg. by rewrite <- (passed_version gm x g1 Hp).
Qed.

(** C3: In additive mode changes that are verified are made, to a valid target whose types are
    [storable] (see [indexed_list_never_settles]), whatever the migration function: afterwards the
    file has all types and properties of the target, and keeps its version unless the new one is
    greater or it had none.  All that keeps the file from being the target is properties that the
    target does not have and, unless the version is greater, indexes.  The keys of the tables and
    columns of the schema are those of the file. *)
Theorem additive_changes_made now target_version update_indexes needed migration_function :
  verify_valid_additive_changes changes update_indexes = Fine needed -> 0 <= target_version < 2 ^ 64 ->
  let newer := (get_schema_version g <? target_version) || (get_schema_version g =? NotVersioned) in
  exists g', apply_schema_changes char_is_signed now (get_schema_version g) target target_version Additive changes None migration_function g
             = Fine (g', set_schema_keys g' target) /\
    settled_file g' target (if newer then target_version else get_schema_version g) (additive_left newer) /\
    keys_resolved g' (set_schema_keys g' target).
Proof.
  intros Hver Hv0 newer. destruct (additive_changes_applied now target_version update_indexes needed migration_function Hver Hv0) as (g' & E & Hf & Hk).
  exists g'. split_and!; [done| |done]. eapply settled_file_weaken; [|exact Hf]. by intros [].
Qed.

(** ** The same version *)

Lemma non_migration_run l g0 errors : (forall ch, ch ∈ l -> match ch with AddTable _ | AddInitialProperties _ | AddIndex _ _ | RemoveIndex _ _ => True | _ => False end) ->
  fold_schema non_migration_change l (g0, errors) = (g ← fold_schema pre_migration_change l g0; Fine (g, errors)).
Proof.
  revert g0. induction l as [|ch l IH]; intros g0 Hl; [done|]. cbn. assert (forall c, c ∈ l -> match c with AddTable _ | AddInitialProperties _ | AddIndex _ _ | RemoveIndex _ _ => True | _ => False end) as Hl'
    by (intros c Hc; apply Hl; by right).
  specialize (Hl ch ltac:(left)). destruct ch as [o| |o| | | | | |o p|o p|]; try done; cbn [non_migration_change pre_migration_change].
  - destruct (create_table o g0); cbn; [by apply IH|done].
  - destruct (add_initial_columns o g0); cbn; [by apply IH|done].
  - destruct (add_index o p g0); cbn; [by apply IH|done].
  - destruct (remove_index o p g0); cbn; [by apply IH|done].
Qed.

Lemma non_migration_errors l st st' : fold_schema non_migration_change l st = Fine st' ->
  (exists ch, ch ∈ l /\ match ch with AddTable _ | AddInitialProperties _ | AddIndex _ _ | RemoveIndex _ _ => False | _ => explain ch <> [] end) \/ st.2 <> [] -> st'.2 <> [].
Proof.
  revert st. induction l as [|ch l IH]; intros [g0 errors] E Herr.
  { injection E as <-. destruct Herr as [(ch & Hch & _)|]; [by apply not_elem_of_nil in Hch|done]. }
  cbn [fold_schema] in E. destruct (non_migration_change ch (g0, errors)) as [[g2 errors2]|] eqn:E1; [|discriminate E]. cbn [mbind schema_bind] in E. apply (IH _ E). cbn.
  assert (errors <> [] -> errors2 <> []) as Hgrow.
  { intros He. destruct ch; cbn [non_migration_change] in E1; try (apply bind_fine in E1 as (? & _ & [= <- <-]); done);
      injection E1 as <- <-; intros Hnil; apply He; by apply app_eq_nil in Hnil as [? _]. }
  destruct Herr as [(c & [->|Hc]%elem_of_cons & Hne)|Herr]; [right|left; by exists c|right; by apply Hgrow].
  destruct ch; try done; cbn [non_migration_change] in E1; injection E1 as <- <-; intros Hnil; by apply app_eq_nil in Hnil as [_ Hnil].
Qed.

Lemma explained ch : match ch with RemoveTable _ | AddInitialProperties _ => True | _ => explain ch <> [] end.
Proof. destruct ch as [| | | | | | | | | |o p]; try done. cbn. destruct p; [|done]. by destruct (negb _). Qed.

(** Where no property is to be removed, the first pass settles all columns. *)
Lemma left_settled gm x o n c' : group_ok gm -> reads gm existing -> o ∈ target -> (forall e p, RemoveProperty e p ∉ changes) ->
  (forall t, object_named existing (o_name o) <> None -> get_table (table_of o) gm = Some t -> ctx_primary x (table_of o) = t_primary t) ->
  (forall e, object_named existing (o_name o) = Some e -> forall ch, ch ∈ compare_objects e o -> simple_change (compare_objects e o) ch = true) ->
  left_at gm existing x false o n c' -> cell_settled o (ctx_primary x (table_of o)) n c'.
Proof.
  intros Hgm Hreads Ho Hnone Hprim Hsimple Hl. pose proof (existing_table target Hstorable gm existing Hreads o Ho) as Hex. unfold left_at in Hl.
  destruct (object_named existing (o_name o)) as [e|] eqn:Ee; [|done]. destruct Hex as (t & Et & Eo). rewrite Et in Hl. unfold first_left in Hl.
  destruct (column_named n t) as [c|] eqn:Ec; [|done]. destruct (hidden n) eqn:Eh; [rewrite Hl; unfold cell_settled; by rewrite (hidden_not_persisted o n Ho Eh)|].
  destruct Hl as (pt & Ept & Hm). apply column_named_iff in Ec as [Hc En]; [|exact (get_table_wf _ _ _ Hgm Et)]. unfold mid in Hm. rewrite En in Hm. unfold cell_settled.
  destruct (persisted_named o n) as [p|] eqn:Ep; [by destruct Hm as (c2 & -> & Hfit & _)|]. exfalso.
  specialize (Hprim t ltac:(done) Et). set (cur := current_property (ctx_primary x (table_of o)) c pt).
  assert (cur ∈ persisted_properties e) as Hcur.
  { destruct (existing_properties x o gm t e Hgm Et Eo Hprim) as (_ & _ & Hps & _). apply Hps. exists c, pt. unfold seen. split_and!; [done|by rewrite En|done..]. }
  apply (Hnone e cur). rewrite (changes_split target Htarget gm existing Hreads), elem_of_app. right. apply list_elem_of_bind. exists o. split; [|done].
  unfold changes_of. rewrite Ee. apply (chunk_in o e cur); [done|]. rewrite (compare_property_cases target o (Hstorable o Ho) (Hvalid o Ho)). cbn. rewrite En, Ep. left.
Qed.

(** Without a new version changes that need no migration are made: then the file is the target. *)
Lemma same_version_applied now mode sync_user_id migration_function :
  get_schema_version g <> NotVersioned -> mode <> Additive -> mode <> Manual -> needs_migration changes = false ->
  exists g', apply_schema_changes char_is_signed now (get_schema_version g) target (get_schema_version g) mode changes sync_user_id migration_function g
             = Fine (g', set_schema_keys g' target) /\
    settled_file g' target (get_schema_version g) nothing_left /\ keys_resolved g' (set_schema_keys g' target).
Proof.
  intros Hnv Hadd Hman En. destruct metadata_step as (gm & Em & Hgm & Hver & Hreads).
  pose proof (compare_no_removed_tables existing target Htarget (rd_sorted _ _ Hreads)) as Hno.
  unfold apply_schema_changes. rewrite Em. cbn [mbind schema_bind]. rewrite decide_False by done. destruct (Z.eqb_spec (get_schema_version g) NotVersioned) as [|_]; [done|].
  rewrite decide_False, Z.eqb_refl by done. unfold apply_non_migration_changes.
  assert (forall ch, ch ∈ changes -> match ch with AddTable _ | AddInitialProperties _ | AddIndex _ _ | RemoveIndex _ _ => True | _ => False end) as Hallowed.
  { intros ch Hch. specialize (Hno ch Hch). destruct (match ch with AddTable _ | AddInitialProperties _ | AddIndex _ _ | RemoveIndex _ _ => true | _ => false end) eqn:E;
      [by destruct ch|]. exfalso. assert (needs_migration changes = true); [|congruence]. apply existsb_exists. exists ch. rewrite <- list_elem_of_In. split; [done|]. by destruct ch. }
  assert (simple_changes changes = true) as Hsimple by (apply forallb_forall; intros ch Hch; rewrite <- list_elem_of_In in Hch; specialize (Hallowed ch Hch); by destruct ch).
  destruct (first_pass target Htarget Hvalid Hstorable gm existing Hgm Hreads Hsimple false pre_migration_change) as (x & g1 & E & Hp & Hprim & Hl); [by intros []|].
  rewrite (non_migration_run changes gm [] Hallowed), E. cbn [mbind schema_bind]. rewrite decide_True by done. cbn [mbind schema_bind].
  destruct (ps_context _ _ _ _ Hp) as (Hg1 & _).
  assert (forall o n, o ∈ target -> cell_settled o (ctx_primary x (table_of o)) n (cell (table_of o) n g1)) as Hs.
  { intros o n Ho. apply (left_settled gm x o n _ Hgm Hreads Ho); [intros e p Hch; by apply Hallowed in Hch|by intros t; apply Hprim|intros e Ee; by apply (simple_of target Htarget gm existing Hreads Hsimple)|by apply Hl]. }
  destruct (finish_file gm existing Hgm Hreads x g1 g1 Hp Hg1 ltac:(done)) as (Hf & Hk & Ht);
    [intros o n Ho; by apply cell_settled_left, Hs|by apply (settled_readable x)|].
  exists g1. split_and!; [done| |done]. apply settled_nothing_left; [|intros o Ho; by apply (passed_settled target gm x g1)].
  destruct (version_of_new_file gm Em) as [|Eg]; [done|]. rewrite <- Eg. by rewrite <- (passed_version gm x g1 Hp).
Qed.

End apply.
End target.
End result.
