(* ===== verification/SchemaRealm.v ===== *)
(** The schema of a Realm, [shared_realm.cpp]: in which modes and versions the file is written, and
    what [update_schema] leaves in the file and in the Realm. *)

From S2P Require Import Prelude SchemaData SchemaValidation SchemaChanges SchemaStore SchemaLaws SchemaRead SchemaApply SchemaPasses SchemaChunks SchemaResult SchemaUpdate SchemaMigration.
#[local] Open Scope Z_scope.

(** ** The decision *)

Lemma verify_no_changes_nil l : verify_no_changes_required l = Fine tt <-> forall ch, ch ∈ l -> explain ch = [].
Proof.
  unfold verify_no_changes_required, verify_no_errors. rewrite concat_bind. destruct (decide _) as [E|E]; rewrite bind_nil in E; [by split|].
  split; [done|]. intros Hl. by destruct (E Hl).
Qed.

Lemma compare_explained existing target : schema_sorted target -> schema_sorted existing -> compare existing target false <> [] ->
  exists ch, ch ∈ compare existing target false /\ explain ch <> [].
Proof.
  intros Ht He Hne. pose proof (compare_no_removed_tables existing target Ht He) as Hno. rewrite compare_by_type in Hne, Hno |- * by done.
  set (l2 := target ≫= fun o => match object_named existing (o_name o) with Some e => compare_objects e o | None => [AddInitialProperties o] end) in *.
  destruct (target ≫= fun o => match object_named existing (o_name o) with None => [AddTable o] | Some _ => [] end) as [|ch l] eqn:E1.
  - assert (forall o, o ∈ target -> exists e, object_named existing (o_name o) = Some e) as Hall.
    { intros o Ho. rewrite bind_nil in E1. specialize (E1 o Ho). destruct (object_named existing (o_name o)) as [e|]; [by exists e|done]. }
    cbn [app] in *. destruct l2 as [|ch l] eqn:E2; [done|]. exists ch. split; [left|]. assert (ch ∈ l2) as Hch by (rewrite E2; left). unfold l2 in Hch.
    specialize (Hno ch ltac:(left)). pose proof (explained ch) as Hex. destruct ch; try done. exfalso.
    apply list_elem_of_bind in Hch as (o & Hch & Ho). destruct (Hall o Ho) as [e Ee]. rewrite Ee in Hch. unfold compare_objects in Hch.
    rewrite !elem_of_app, !concat_bind in Hch. destruct Hch as [Hch|[Hch|Hch]].
    + apply list_elem_of_bind in Hch as (cur & Hch & _). unfold compare_property in Hch.
      repeat (case_match; try (by apply list_elem_of_singleton in Hch); try by apply not_elem_of_nil in Hch);
        rewrite ?elem_of_app, ?list_elem_of_singleton, ?elem_of_nil in Hch; naive_solver.
    + apply list_elem_of_bind in Hch as (cur & Hch & _). case_match; [by apply not_elem_of_nil in Hch|by apply list_elem_of_singleton in Hch].
    + case_bool_decide; [by apply not_elem_of_nil in Hch|by apply list_elem_of_singleton in Hch].
  - assert (ch ∈ target ≫= fun o => match object_named existing (o_name o) with None => [AddTable o] | Some _ => [] end) as Hch by (rewrite E1; left).
    exists ch. split; [cbn [app]; left|]. apply list_elem_of_bind in Hch as (o & Hch & _). destruct (object_named _ _); [by apply not_elem_of_nil in Hch|].
    by apply list_elem_of_singleton in Hch as ->.
Qed.

Lemma verify_no_errors_cases error verifier l :
  verify_no_errors error verifier l = Fine tt \/ exists errors, verify_no_errors error verifier l = Throws (error errors).
Proof. unfold verify_no_errors. destruct (decide _); [by left|right; by eexists]. Qed.

(** C5: Whether the file has to be written, by mode and versions: the read-only modes never write,
    no mode goes back to an older version but additive mode and one that recreates the file, and
    the place that is marked as unreachable in manual mode is never reached. *)
Theorem write_decisions mode current existing target version :
  schema_sorted target -> schema_sorted existing ->
  let changes := compare existing target false in
  let decision := schema_change_needs_write_transaction mode current changes version in
  decision <> Throws SchemaAssertion /\
  (changes = [] -> version = current -> decision = Fine no_write) /\
  (decision = Fine no_write -> mode = Automatic \/ mode = ResetFile \/ mode = Manual -> changes = [] /\ version = current) /\
  (decision = Fine write -> mode <> Immutable /\ mode <> ReadOnlyAlternative /\
     (mode = Additive \/ mode = ResetFile /\ (version = current \/ current = NotVersioned) \/ current <= version \/ current = NotVersioned)) /\
  (decision = Fine reset_and_write -> mode = ResetFile /\ current <> NotVersioned /\ (version <> current \/ needs_migration changes = true)) /\
  (mode = Immutable -> version <> current -> decision = Throws (InvalidSchemaVersionException current version)).
Proof.
  intros Ht He changes decision. subst decision. unfold schema_change_needs_write_transaction.
  destruct (Z.eqb_spec version current) as [Ev|Ev], (decide (changes = [])) as [Ec|Ec].
  1: { rewrite bool_decide_true by done. cbn. by split_and!. }
  all: rewrite ?bool_decide_false by done; cbn [andb].
  all: destruct (verify_no_errors_cases InvalidSchemaChangeException
      (fun change => match change with AddTable _ | AddInitialProperties _ | RemoveProperty _ _ | AddIndex _ _ | RemoveIndex _ _ => [] | _ => explain change end) changes)
      as [Ero|[errors Ero]];
    fold (verify_compatible_for_immutable_and_readonly changes) in Ero.
  all: assert ((exists b, verify_valid_additive_changes changes (current <? version) = Fine b) \/
      exists errors, verify_valid_additive_changes changes (current <? version) = Throws (InvalidSchemaChangeException errors)) as [[b Eadd]|[errors' Eadd]]
    by (unfold verify_valid_additive_changes; destruct (verify_no_errors_cases InvalidSchemaChangeException
      (fun change => match change with AddTable _ | AddInitialProperties _ | AddProperty _ _ | RemoveProperty _ _ | AddIndex _ _ | RemoveIndex _ _ => []
        | _ => explain change end) changes) as [->|[errs ->]]; [left|right]; by eexists).
  all: assert (changes <> [] -> exists errors, verify_no_changes_required changes = Throws (SchemaMismatchException errors)) as Hver by
    (intros Hne; destruct (verify_no_errors_cases SchemaMismatchException explain changes) as [Ev'|[errs Ev']]; [exfalso|by exists errs];
     destruct (compare_explained existing target Ht He Hne) as (ch & Hch & Hx); by apply Hx, (proj1 (verify_no_changes_nil changes) Ev')).
  all: destruct mode; rewrite ?Ero, ?Eadd; cbn [negb mbind schema_bind].
  all: try (destruct (Hver Ec) as [errs ->]; cbn [mbind schema_bind]).
  all: repeat match goal with
    | |- context [Z.ltb ?a ?b] => destruct (Z.ltb_spec a b)
    | |- context [Z.eqb ?a ?b] => destruct (Z.eqb_spec a b)
    | |- context [if ?b then _ else _] => destruct b eqn:?
    end; cbn [andb negb].
  all: split_and!; intros; try done; try lia.
  all: try (split_and!; [done|done|]; first [by left|right; left; split; [done|tauto]|right; right; left; lia|right; right; right; done]).
  all: try match goal with E : _ \/ _ |- _ = [] /\ _ => by destruct E as [|[|]] end.
  all: split_and!; [done|done|]; destruct (needs_migration changes); [by right|first [left; lia|done]].
Qed.

(** ** The keys of columns *)

Lemma update_first_fmap {A} (test : A -> bool) (f : A -> A) l :
  (forall a b, a ∈ l -> b ∈ l -> test a = true -> test b = true -> a = b) -> NoDup l ->
  update_first test f l = (fun a => if test a then f a else a) <$> l.
Proof.
  induction l as [|a l IH]; intros Ht Hn; [done|]. apply NoDup_cons in Hn as [Ha Hn]. cbn. destruct (test a) eqn:E.
  - f_equal. assert (forall b, b ∈ l -> test b = false) as Hf.
    { intros b Hb. destruct (test b) eqn:Eb; [|done]. exfalso. apply Ha. rewrite (Ht a b); [done|left|by right|done|done]. }
    clear -Hf. induction l as [|b l IH]; [done|]. cbn. rewrite Hf by left. f_equal. apply IH. intros d Hd. apply Hf. by right.
  - f_equal. apply IH; [|done]. intros x y Hx Hy. apply Ht; by right.
Qed.

Definition keyed (others : list Property) (q : Property) : Property :=
  match List.find (named (p_name q)) others with Some p => with_column_key (column_key p) q | None => q end.

Lemma copy_object_keys_persisted existing other :
  NoDup (p_name <$> persisted_properties existing) -> NoDup (p_name <$> persisted_properties other) ->
  persisted_properties (copy_object_keys existing other) = keyed (persisted_properties other) <$> persisted_properties existing /\
  table_key (copy_object_keys existing other) = table_key other /\ o_name (copy_object_keys existing other) = o_name existing.
Proof.
  unfold copy_object_keys. intros He Ho. set (o0 := with_table_key (table_key other) existing).
  assert (forall ps o, NoDup (p_name <$> ps) -> NoDup (p_name <$> persisted_properties o) ->
    let r := foldl (fun o p => update_property (p_name p) (with_column_key (column_key p)) o) o ps in
    persisted_properties r = keyed ps <$> persisted_properties o /\ table_key r = table_key o /\ o_name r = o_name o) as Hfold.
  2:{ destruct (Hfold (persisted_properties other) o0 Ho He) as (-> & -> & ->). done. }
  clear. intros ps. induction ps as [|p ps IH]; intros o Hps Hn; cbn [foldl].
  { split_and!; [|done..]. symmetry. rewrite <- (list_fmap_id (persisted_properties o)) at 2. apply list_fmap_ext. intros i q _. done. }
  apply NoDup_cons in Hps as [Hp Hps]. set (o1 := update_property (p_name p) (with_column_key (column_key p)) o).
  assert (persisted_properties o1 = (fun q => if named (p_name p) q then with_column_key (column_key p) q else q) <$> persisted_properties o /\
          table_key o1 = table_key o /\ o_name o1 = o_name o) as (E1 & E2 & E3).
  { unfold o1, update_property. destruct (existsb (named (p_name p)) (persisted_properties o)) eqn:Ex; cbn [persisted_properties table_key o_name].
    - split_and!; [|done..]. apply update_first_fmap; [|by eapply NoDup_fmap_1]. intros a b Ha Hb Ea%bool_decide_eq_true Eb%bool_decide_eq_true.
      apply (same_key p_name (persisted_properties o)); [done..|congruence].
    - split_and!; [|done..]. rewrite <- (list_fmap_id (persisted_properties o)) at 1. apply list_fmap_ext. intros i q Hq. cbn.
      destruct (named (p_name p) q) eqn:E; [|done]. apply list_elem_of_lookup_2, list_elem_of_In in Hq.
      assert (existsb (named (p_name p)) (persisted_properties o) = true); [|congruence]. apply existsb_exists. by exists q. }
  destruct (IH o1 Hps) as (R1 & -> & ->).
  { rewrite E1, <- list_fmap_compose. erewrite list_fmap_ext; [exact Hn|]. intros i q _. cbn. by destruct (named _ q). }
  rewrite R1, E1, <- list_fmap_compose. split_and!; [|done..]. apply list_fmap_ext. intros i q _. cbn. unfold keyed, named. cbn [List.find].
  destruct (bool_decide (p_name q = p_name p)) eqn:E.
  - apply bool_decide_eq_true in E. cbn. rewrite (bool_decide_true (p_name p = p_name q)) by done.
    assert (List.find (fun p0 => bool_decide (p_name p0 = p_name q)) ps = None) as ->; [|done]. apply (find_key_none p_name). by rewrite E.
  - apply bool_decide_eq_false in E. by rewrite (bool_decide_false (p_name p = p_name q)) by congruence.
Qed.

Lemma copy_keys_from_elem s other o : schema_sorted s -> schema_sorted other -> o ∈ copy_keys_from s other ->
  exists o', o' ∈ s /\ match object_named other (o_name o') with Some e => o = copy_object_keys o' e | None => o = o' end.
Proof.
  intros Hs Ho Hin. unfold copy_keys_from in Hin. apply list_elem_of_omap in Hin as ([[x|] q] & Hp & E); [|done]. exists x.
  apply zip_matching_pairs in Hp; [|done|done]. destruct q as [e|]; cbn in Hp; injection E as <-.
  - destruct Hp as (Hx & He & En). split; [done|]. by rewrite (proj2 (object_named_iff other (o_name x) e Ho)).
  - destruct Hp as (Hx & Hn). split; [done|]. by rewrite (proj2 (object_named_none other (o_name x))).
Qed.

(** ** [update_schema] *)

Section update.
Context `{StoreSpec} (char_is_signed : bool) (target : Schema).
Context (Htarget : schema_sorted target) (Hvalid : validate char_is_signed target = []) (Hv : schema_valid target) (Hstorable : forall o, o ∈ target -> storable o).

(** A Realm that has read the file it is at. *)
Definition realm_current (r : RealmState) : Prop :=
  group_ok (m_group r) /\ metadata_ok (m_group r) /\ m_schema_version r = get_schema_version (m_group r).

Lemma target_keys_copied g existing : group_ok g -> schema_from_group g = Fine existing -> compare existing target false = [] ->
  keys_resolved g (copy_keys_from target existing).
Proof.
  intros Hg Es Ec o' Ho'. pose proof (schema_from_group_reads g existing Hg Es) as Hr.
  destruct (copy_keys_from_elem target existing o' Htarget (rd_sorted _ _ Hr) Ho') as (o & Ho & Eo).
  pose proof (proj1 (settled_compare_nil target Htarget (proj2 Hv) Hstorable g existing Hg Es) Ec o Ho) as (t & Et & Epk & Hcells).
  destruct (st_name o (Hstorable o Ho)) as [Hn _]. destruct (rd_some g existing Hr _ t Hn Et) as (e & Ee & Eobj). rewrite Ee in Eo. subst o'.
  pose proof (get_table_wf _ g t Hg Et) as Ht. destruct (object_schema_of_table_spec _ t g e Hg Et Eobj) as (_ & _ & Ekey & Hnames & Hps & _ & Hread).
  destruct (copy_object_keys_persisted o e (persisted_names target o (proj2 Hv o Ho)) Hnames) as (Ep & Ek & En).
  exists t. rewrite En, Ek, Ekey, Ep. split_and!; [done..|]. intros p Hp. apply list_elem_of_fmap in Hp as (q & -> & Hq).
  specialize (Hcells (p_name q)). unfold cell_settled in Hcells. rewrite (proj2 (persisted_named_iff target o (proj2 Hv o Ho) (p_name q) q)) in Hcells by done.
  destruct (column_named (p_name q) t) as [c|] eqn:Ec'; [|done]. apply column_named_iff in Ec' as [Hc Ecn]; [|done].
  destruct (st_columns o (Hstorable o Ho) q Hq) as (_ & Hh & _). destruct (Hread c Hc) as [pt Ept]; [by rewrite Ecn|].
  assert (List.find (named (p_name q)) (persisted_properties e) = Some (current_property (t_primary t) c pt)) as Ef.
  { apply (find_key p_name); [done|]. split; [|done]. apply Hps. exists c, pt. split_and!; try done. by rewrite Ecn. }
  unfold keyed. rewrite Ef. exists c. split; [|done]. apply column_named_iff; [done|]. by split.
Qed.

End update.
