(* ===== verification/SchemaSamples.v ===== *)
(** The schema of a Realm at work: a store kept in memory, and the schemas of files in it.

    The store is the least that does what the object store relies on.  It instantiates the interface
    of groups and tables, so that what is proved over the interface can be applied to a file, and
    shows that the laws of the interface can hold together.  The key of a new column is one that no
    column has had, also of the column that [set_nullability] puts in the place of another.

    The files are a new one and migrations from it to other schemas; these are the inputs at which
    the theorems on schemas are applied, and what keeps an update from its target. *)

From S2P Require Import Prelude SchemaData SchemaValidation SchemaChanges SchemaStore SchemaApply SchemaUpdate SchemaLaws SchemaRead SchemaChunks SchemaResult SchemaRealm.
#[local] Open Scope Z_scope.

(** The objects of a table, by its name, are the values of their integer columns. *)
Record MemoryGroup := MkMemory { memory_tables : list Table; memory_next : Z; memory_objects : string -> list (string -> Z) }.

Definition empty_memory : MemoryGroup := MkMemory [] 0 (fun _ => []).

Section operations.
Implicit Types (T n : string) (g : MemoryGroup) (t : Table).

Definition memory_table T g : option Table := List.find (fun t => bool_decide (t_name t = T)) (memory_tables g).

(** The table takes the place of the one of its name; the next key; the objects of a table. *)
Definition memory_put t (next : Z) g : MemoryGroup :=
  MkMemory ((fun u => if bool_decide (t_name u = t_name t) then t else u) <$> memory_tables g) next (memory_objects g).
Definition memory_new t (next : Z) g : MemoryGroup := MkMemory (memory_tables g ++ [t]) next (memory_objects g).
Definition memory_put_objects T (objects : list (string -> Z)) g : MemoryGroup :=
  MkMemory (memory_tables g) (memory_next g) (fun U => if bool_decide (U = T) then objects else memory_objects g U).

Definition with_columns (cs : list Column) t : Table := MkTable (t_key t) (t_name t) cs (t_primary t).
Definition memory_on_table {A} T g (f : Table -> schema_result A) : schema_result A :=
  match memory_table T g with Some t => f t | None => Throws NoSuchObject end.
Definition memory_on_column {A} T (key : Z) g (f : Table -> Column -> schema_result A) : schema_result A :=
  memory_on_table T g (fun t => match column_of_key key t with Some c => f t c | None => Throws NoSuchObject end).

Definition memory_add_column T (c : Z -> Column) g : schema_result (MemoryGroup * Z) :=
  memory_on_table T g (fun t =>
    let c := c (memory_next g) in
    match column_named (c_name c) t with
    | Some _ => Throws SchemaAssertion
    | None => Fine (memory_put (with_columns (t_columns t ++ [c]) t) (memory_next g + 1) g, memory_next g)
    end).

Definition memory_change_column T key (f : Column -> Column) (next : Z) g : schema_result MemoryGroup :=
  memory_on_column T key g (fun t _ =>
    Fine (memory_put (with_columns ((fun c => if bool_decide (c_key c = key) then f c else c) <$> t_columns t) t) next g)).

Definition memory_remove_column T key g : schema_result MemoryGroup :=
  memory_on_column T key g (fun t _ =>
    let primary := if bool_decide (t_primary t = Some key) then None else t_primary t in
    Fine (memory_put (MkTable (t_key t) (t_name t) (List.filter (fun c => negb (bool_decide (c_key c = key))) (t_columns t)) primary) (memory_next g) g)).

Definition memory_set_nullability T key (nullable : bool) g : schema_result (MemoryGroup * Z) :=
  g' ← memory_change_column T key (with_nullability nullable (memory_next g)) (memory_next g + 1) g;
  Fine (g', memory_next g).

Definition memory_rename_column T key n g : schema_result MemoryGroup :=
  memory_change_column T key (fun c => MkColumn (c_key c) n (c_type c) (c_nullable c) (c_list c) (c_target c) (c_indexed c)) (memory_next g) g.

Definition memory_add_with_primary_key T (ty : DataType) pk nullable g : schema_result MemoryGroup :=
  match memory_table T g with
  | Some _ => Throws SchemaAssertion
  | None =>
      let c := MkColumn (memory_next g) pk ty nullable false "" true in
      Fine (memory_new (MkTable (memory_next g + 1) T [c] (Some (c_key c))) (memory_next g + 2) g)
  end.

Definition memory_get_or_add T g : schema_result MemoryGroup :=
  match memory_table T g with
  | Some _ => Fine g
  | None => Fine (memory_new (MkTable (memory_next g) T [] None) (memory_next g + 1) g)
  end.

Definition memory_set_int T (i : Z) n (v : Z) g : schema_result MemoryGroup :=
  match memory_objects g T !! Z.to_nat i with
  | Some f => Fine (memory_put_objects T (<[Z.to_nat i := fun m => if bool_decide (m = n) then v else f m]> (memory_objects g T)) g)
  | None => Throws NoSuchObject
  end.
End operations.

#[export] Instance memory_store : Store := {|
  Group := MemoryGroup;
  tables := memory_tables;
  add_table T g := match memory_table T g with Some _ => Throws SchemaAssertion | None => memory_get_or_add T g end;
  add_table_with_primary_key := memory_add_with_primary_key;
  get_or_add_table := memory_get_or_add;
  remove_table T g := Fine (MkMemory (List.filter (fun t => negb (bool_decide (t_name t = T))) (memory_tables g)) (memory_next g)
                              (memory_objects (memory_put_objects T [] g)));
  add_column T ty n nullable g := memory_add_column T (fun k => MkColumn k n ty nullable false "" false) g;
  add_column_list T ty n nullable g := memory_add_column T (fun k => MkColumn k n ty nullable true "" false) g;
  add_column_link T ty n target g := memory_add_column T (fun k => MkColumn k n ty (bool_decide (ty = type_Link)) (bool_decide (ty = type_LinkList)) target false) g;
  remove_column := memory_remove_column;
  rename_column := memory_rename_column;
  set_nullability T key nullable _ g := memory_set_nullability T key nullable g;
  add_search_index T key g := memory_change_column T key (with_index true) (memory_next g) g;
  remove_search_index T key g := memory_change_column T key (with_index false) (memory_next g) g;
  set_primary_key_column T key g := memory_on_table T g (fun t => Fine (memory_put (MkTable (t_key t) (t_name t) (t_columns t) key) (memory_next g) g));
  validate_primary_columns _ := Fine tt;
  create_object_with_int T n v g := Fine (memory_put_objects T (memory_objects g T ++ [fun m => if bool_decide (m = n) then v else 0]) g);
  set_int := memory_set_int;
  get_int T i n g := match memory_objects g T !! Z.to_nat i with Some f => f n | None => 0 end;
  table_is_empty T g := bool_decide (memory_objects g T = []);
  clear_less_than _ _ _ g := Fine g;
  set_up_basic_permissions _ g := Fine g;
  add_user_to_role _ _ g := Fine g;
  set_class_permissions_for_role _ _ _ g := Fine g;
  find_first_string _ _ _ _ := None;
  set_link _ _ _ _ g := Fine g
|}.

(** ** The laws *)

Definition memory_ok (g : MemoryGroup) : Prop :=
  tables_wf (memory_tables g) /\ (forall t c, t ∈ memory_tables g -> c ∈ t_columns t -> c_key c < memory_next g) /\
  forall T, memory_objects g T <> [] -> T ∈ t_name <$> memory_tables g.

Section laws.
Implicit Types (T n : string) (g : MemoryGroup) (t : Table).

Lemma memory_wf g t : memory_ok g -> t ∈ memory_tables g -> table_wf t.
Proof. intros [[_ Hwf] _]. apply Hwf. Qed.

Lemma memory_table_iff T g t : memory_ok g -> get_table T g = Some t <-> t ∈ memory_tables g /\ t_name t = T.
Proof. intros [[Hn _] _]. unfold get_table. by apply (find_key t_name). Qed.

Lemma memory_column_found {A} T c t g (f : Table -> Column -> schema_result A) :
  memory_ok g -> get_table T g = Some t -> column_named (c_name c) t = Some c -> memory_on_column T (c_key c) g f = f t c.
Proof.
  intros Hg Et Ec. apply (memory_table_iff T g t Hg) in Et as Ht. unfold memory_on_column, memory_on_table, memory_table. unfold get_table in Et. cbn in Et. rewrite Et. clear Et.
  destruct Ht as [Ht <-]. pose proof (memory_wf g t Hg Ht) as Hwf. rewrite (proj2 (column_of_key_iff t (c_key c) c Hwf)); [done|]. split; [|done].
  by apply column_named_iff in Ec as [? _].
Qed.

(** What is looked up after a table is put in the place of the one of its name. *)
Lemma get_put T t t0 next g : get_table (t_name t) g = Some t0 ->
  get_table T (memory_put t next g) = if bool_decide (T = t_name t) then Some t else get_table T g.
Proof.
  unfold get_table. cbn. induction (memory_tables g) as [|u us IH]; [done|]. cbn. intros E.
  destruct (bool_decide_reflect (t_name u = t_name t)) as [Eu|Eu].
  - rewrite Eu. destruct (bool_decide_reflect (t_name t = T)) as [ET|ET].
    + rewrite bool_decide_true by done. done.
    + rewrite bool_decide_false by done. clear IH E. induction us as [|v vs IH]; [done|]. cbn. destruct (bool_decide_reflect (t_name v = t_name t)) as [Ev|Ev]; [|by rewrite IH].
      rewrite (bool_decide_false (t_name t = T)), (bool_decide_false (t_name v = T)) by congruence. exact IH.
  - destruct (bool_decide_reflect (t_name u = T)) as [ET|ET]; [by rewrite (bool_decide_false (T = t_name t)) by congruence|]. by apply IH.
Qed.

Lemma memory_put_ok t t0 next g : memory_ok g -> get_table (t_name t) g = Some t0 -> table_wf t -> memory_next g <= next ->
  (forall c, c ∈ t_columns t -> c_key c < next) -> memory_ok (memory_put t next g).
Proof.
  intros [[Hn Hwf] [Hk Hobj]] Et Ht Hnext Hkeys. assert (t_name <$> memory_tables (memory_put t next g) = t_name <$> memory_tables g) as Hnames.
  { cbn. rewrite <- list_fmap_compose. apply list_fmap_ext. intros i u _. cbn. by case_bool_decide. }
  split_and!; [split; [by rewrite Hnames|]| |by rewrite Hnames]; cbn.
  - intros u Hu. apply list_elem_of_fmap in Hu as (v & -> & Hv). case_bool_decide; [done|by apply Hwf].
  - intros u c Hu Hc. apply list_elem_of_fmap in Hu as (v & -> & Hv). case_bool_decide; [by apply Hkeys|]. specialize (Hk v c Hv Hc). lia.
Qed.

(** A change to the columns of one name. *)
Lemma memory_column_set T n oc t cs next g : memory_ok g -> get_table T g = Some t -> table_wf (with_columns cs t) -> memory_next g <= next ->
  (forall c, c ∈ cs -> c_key c < next) -> column_named n (with_columns cs t) = oc -> (forall m, m <> n -> column_named m (with_columns cs t) = column_named m t) ->
  memory_ok (memory_put (with_columns cs t) next g) /\ column_set T n oc g (memory_put (with_columns cs t) next g).
Proof.
  intros Hg Et Hwf Hnext Hkeys Hn Hm. apply (memory_table_iff T g t Hg) in Et as Ht. destruct Ht as [Ht <-].
  split; [by eapply memory_put_ok|]. assert (forall T', get_table T' (memory_put (with_columns cs t) next g) = if bool_decide (T' = t_name t) then Some (with_columns cs t) else get_table T' g) as Hget
    by (intros T'; by apply (get_put T' (with_columns cs t) t next g)). split_and!.
  - intros T' HT. rewrite Hget, bool_decide_false by done. done.
  - done.
  - exists t, (with_columns cs t). rewrite Hget, bool_decide_true by done. by split_and!.
Qed.

Lemma column_named_app n t c : column_named n (with_columns (t_columns t ++ [c]) t) =
  match column_named n t with Some d => Some d | None => if bool_decide (c_name c = n) then Some c else None end.
Proof. unfold column_named. cbn. induction (t_columns t) as [|d ds IH]; [done|]. cbn. by destruct (bool_decide (c_name d = n)). Qed.

Lemma memory_add T n (c : Z -> Column) t g : memory_ok g -> get_table T g = Some t -> column_named n t = None -> (forall k, c_name (c k) = n /\ c_key (c k) = k) ->
  exists g' k, memory_add_column T c g = Fine (g', k) /\ memory_ok g' /\ column_set T n (Some (c k)) g g'.
Proof.
  intros Hg Et En Hc. destruct (Hc (memory_next g)) as [Hcn Hck]. apply (memory_table_iff T g t Hg) in Et as Ht. destruct Ht as [Ht ET]. pose proof (memory_wf g t Hg Ht) as Hwf.
  unfold memory_add_column, memory_on_table, memory_table. unfold get_table in Et. cbn in Et. rewrite Et. cbn zeta. rewrite Hcn, En. eexists _, _. split; [done|].
  assert (forall k, k ∈ c_key <$> t_columns t -> k < memory_next g) as Hold.
  { intros k Hk. apply list_elem_of_fmap in Hk as (d & -> & Hd). by apply (proj1 (proj2 Hg) t). }
  apply (memory_column_set T n _ t); [done|done| |lia| | |].
  - destruct Hwf as [Hn Hk Hp]. constructor; cbn; rewrite ?fmap_app.
    + apply NoDup_app. split_and!; [done| |apply NoDup_singleton]. intros m Hm Hm2%list_elem_of_singleton. subst m. rewrite Hcn in Hm.
      apply (find_key_none c_name) in En. done.
    + apply NoDup_app. split_and!; [done| |apply NoDup_singleton]. intros k Hkin Hk2%list_elem_of_singleton. subst k. apply Hold in Hkin. lia.
    + intros k E. destruct (Hp k E) as (d & Hd & ?). exists d. split; [|done]. apply elem_of_app. by left.
  - intros d Hd. apply elem_of_app in Hd as [Hd|Hd%list_elem_of_singleton]; [|subst d; lia]. specialize (Hold (c_key d)). rewrite list_elem_of_fmap in Hold.
    specialize (Hold ltac:(by exists d)). lia.
  - by rewrite column_named_app, En, Hcn, bool_decide_true.
  - intros m Hm. rewrite column_named_app, Hcn, bool_decide_false by done. by destruct (column_named m t).
Qed.

(** A column that is changed in place, and keeps its name. *)
Lemma memory_change T c (f : Column -> Column) next t g : memory_ok g -> get_table T g = Some t -> column_named (c_name c) t = Some c ->
  t_primary t <> Some (c_key c) \/ c_key (f c) = c_key c -> memory_next g <= next -> c_name (f c) = c_name c ->
  c_key (f c) = c_key c \/ memory_next g <= c_key (f c) < next ->
  exists g', memory_change_column T (c_key c) f next g = Fine g' /\ memory_ok g' /\ column_set T (c_name c) (Some (f c)) g g'.
Proof.
  intros Hg Et Ec Hprim Hnext Hname Hkey. unfold memory_change_column. rewrite (memory_column_found T c t g _ Hg Et Ec). eexists. split; [done|].
  apply (memory_table_iff T g t Hg) in Et as Ht. destruct Ht as [Ht ET]. pose proof (memory_wf g t Hg Ht) as Hwf.
  apply column_named_iff in Ec as [Hc _]; [|done].
  assert (forall d, d ∈ t_columns t -> c_key d < memory_next g) as Hold by (intros d; by apply (proj1 (proj2 Hg) t)).
  assert ((fun d => if bool_decide (c_key d = c_key c) then f d else d) <$> t_columns t =
          (fun d => if bool_decide (c_key d = c_key c) then f c else d) <$> t_columns t) as ->.
  { apply list_fmap_ext. intros i d Hd%list_elem_of_lookup_2. cbn. case_bool_decide as E; [|done]. f_equal.
    by apply (same_key c_key (t_columns t)); [apply Hwf|..]. }
  set (cs := _ <$> t_columns t).
  assert (c_name <$> cs = c_name <$> t_columns t) as Hnames.
  { unfold cs. rewrite <- list_fmap_compose. apply list_fmap_ext. intros i d Hd%list_elem_of_lookup_2. cbn. case_bool_decide as E; [|done].
    rewrite Hname. f_equal. by apply (same_key c_key (t_columns t)); [apply Hwf|..]. }
  assert (forall d, d ∈ cs <-> (exists e, e ∈ t_columns t /\ c_key e <> c_key c /\ d = e) \/ d = f c) as Hin.
  { intros d. unfold cs. rewrite list_elem_of_fmap. split.
    - intros (e & -> & He). case_bool_decide; [by right|left; by exists e].
    - intros [(e & He & Hne & ->)| ->]; [exists e; by rewrite bool_decide_false|exists c; by rewrite bool_decide_true]. }
  assert (table_wf (with_columns cs t)) as Hwf'.
  { constructor; cbn; [by rewrite Hnames; apply Hwf| |].
    - apply NoDup_fmap_2_strong; [|apply (NoDup_fmap_1 c_name); rewrite Hnames; apply Hwf]. intros a b Ha Hb E. apply Hin in Ha, Hb.
      destruct Ha as [(a' & Ha & Hna & ->)| ->], Hb as [(b' & Hb & Hnb & ->)| ->]; [|exfalso..|done].
      + by apply (same_key c_key (t_columns t)); [apply Hwf|..].
      + specialize (Hold a' Ha). destruct Hkey; [congruence|lia].
      + specialize (Hold b' Hb). destruct Hkey; [congruence|lia].
    - intros k Ek. destruct (wf_primary _ Hwf k Ek) as (d & Hd & Edk & Edn). destruct (decide (c_key d = c_key c)) as [E|E].
      + assert (d = c) as -> by (by apply (same_key c_key (t_columns t)); [apply Hwf|..]). destruct Hprim as [Hprim|Hprim]; [congruence|].
        exists (f c). rewrite Hname, Hprim. split; [|done]. apply Hin. by right.
      + exists d. split; [|done]. apply Hin. left. by exists d. }
  apply (memory_column_set T (c_name c) _ t); [done|done|done|done| | |].
  - intros d Hd. apply Hin in Hd as [(e & He & _ & ->)| ->]; [specialize (Hold e He); lia|]. specialize (Hold c Hc). destruct Hkey; lia.
  - apply column_named_iff; [done|]. cbn. split; [|done]. apply Hin. by right.
  - intros m Hm. destruct (column_named m t) as [d|] eqn:Ed.
    + apply column_named_iff in Ed as [Hd Edn]; [|done]. apply column_named_iff; [done|]. cbn. split; [|done]. apply Hin. left. exists d. split_and!; [done| |done].
      intros E. apply Hm. rewrite <- Edn. f_equal. by apply (same_key c_key (t_columns t)); [apply Hwf|..].
    + unfold column_named in *. cbn. apply (find_key_none c_name). rewrite Hnames. by apply (find_key_none c_name).
Qed.

Lemma memory_remove T c t g : memory_ok g -> get_table T g = Some t -> column_named (c_name c) t = Some c -> t_primary t <> Some (c_key c) ->
  exists g', memory_remove_column T (c_key c) g = Fine g' /\ memory_ok g' /\ column_set T (c_name c) None g g'.
Proof.
  intros Hg Et Ec Hprim. unfold memory_remove_column. rewrite (memory_column_found T c t g _ Hg Et Ec). cbn zeta. rewrite bool_decide_false by done. eexists. split; [done|].
  apply (memory_table_iff T g t Hg) in Et as Ht. destruct Ht as [Ht ET]. pose proof (memory_wf g t Hg Ht) as Hwf.
  apply column_named_iff in Ec as [Hc _]; [|done]. set (cs := List.filter _ _). change (MkTable _ _ cs _) with (with_columns cs t).
  assert (forall d, d ∈ cs <-> d ∈ t_columns t /\ c_key d <> c_key c) as Hin.
  { intros d. unfold cs. rewrite list_elem_of_In, filter_In, <- list_elem_of_In, negb_true_iff, bool_decide_eq_false. done. }
  assert (forall B (h : Column -> B), NoDup (h <$> t_columns t) -> NoDup (h <$> cs)) as Hsub.
  { intros B h Hn. refine (sublist_NoDup _ _ Hn _). apply fmap_sublist. unfold cs. generalize (t_columns t). induction l as [|d ds IH]; [done|].
    cbn. destruct (negb _); by constructor. }
  apply (memory_column_set T (c_name c) None t); [done|done| |done| | |].
  - constructor; cbn; [apply Hsub, Hwf|apply Hsub, Hwf|]. intros k Ek. destruct (wf_primary _ Hwf k Ek) as (d & Hd & Edk & Edn).
    exists d. split; [|done]. apply Hin. split; [done|congruence].
  - intros d Hd. apply Hin in Hd as [Hd _]. by apply (proj1 (proj2 Hg) t).
  - unfold column_named. apply (find_key_none c_name). cbn. intros Hn. apply list_elem_of_fmap in Hn as (d & E & Hd). apply Hin in Hd as [Hd Hk].
    apply Hk. f_equal. by apply (same_key c_name (t_columns t)); [apply Hwf|..].
  - intros m Hm. destruct (column_named m t) as [d|] eqn:Ed.
    + apply column_named_iff in Ed as [Hd Edn]; [|done]. apply (find_key c_name); [cbn; apply Hsub, Hwf|]. split; [|done]. cbn. apply Hin. split; [done|].
      intros E. apply Hm. rewrite <- Edn. f_equal. by apply (same_key c_key (t_columns t)); [apply Hwf|..].
    + unfold column_named in *. cbn. apply (find_key_none c_name). intros Hn. apply list_elem_of_fmap in Hn as (d & -> & Hd). apply Hin in Hd as [Hd _].
      apply (find_key_none c_name) in Ed. apply Ed. by apply list_elem_of_fmap_2.
Qed.

(** A table that is new, with columns of keys that no column has had. *)
Lemma memory_create T t next g : memory_ok g -> get_table T g = None -> t_name t = T -> table_wf t -> memory_next g <= next ->
  (forall c, c ∈ t_columns t -> c_key c < next) ->
  let g' := memory_new t next g in
  memory_ok g' /\ elsewhere T g g' /\ get_table T g' = Some t /\ table_is_empty T g' = true.
Proof.
  intros Hg Et En Hwf Hnext Hkeys g'. assert (forall T', get_table T' g' = match get_table T' g with Some u => Some u | None => if bool_decide (t_name t = T') then Some t else None end) as Hget.
  { intros T'. unfold get_table. cbn. induction (memory_tables g) as [|u us IH]; [done|]. cbn. by destruct (bool_decide (t_name u = T')). }
  apply (find_key_none t_name) in Et as Hnew. destruct Hg as [[Hn Hwfs] [Hold Hobj]]. split_and!.
  - split; [split|split]; cbn.
    + rewrite fmap_app. apply NoDup_app. split_and!; [done| |apply NoDup_singleton]. intros m Hm E%list_elem_of_singleton. subst m. by rewrite En in Hm.
    + intros u Hu. apply elem_of_app in Hu as [Hu|Hu%list_elem_of_singleton]; [by apply Hwfs|by subst u].
    + intros u c Hu Hc. apply elem_of_app in Hu as [Hu|Hu%list_elem_of_singleton]; [specialize (Hold u c Hu Hc); lia|subst u; by apply Hkeys].
    + intros U HU. rewrite fmap_app. apply elem_of_app. left. by apply Hobj.
  - intros T' HT. rewrite Hget. split_and!; [|done|done]. case_match; [done|]. by rewrite bool_decide_false by congruence.
  - by rewrite Hget, Et, bool_decide_true.
  - cbn. apply bool_decide_eq_true. destruct (decide (memory_objects g T = [])) as [|Hne]; [done|]. by apply Hobj in Hne.
Qed.

(** Objects change nothing of the tables, and those of one table nothing of another. *)
Lemma memory_objects_put T objects t g : memory_ok g -> get_table T g = Some t -> objects <> [] ->
  let g' := memory_put_objects T objects g in
  memory_ok g' /\ elsewhere T g g' /\ get_table T g' = Some t /\ table_is_empty T g' = false.
Proof.
  intros Hg Et Hne g'. apply (memory_table_iff T g t Hg) in Et as Ht. destruct Ht as [Ht En]. split; [|split; [|split; [done|]]].
  - destruct Hg as (Hwf & Hk & Hobj). split; [done|split; [done|]]. intros U. cbn. case_bool_decide as E; [intros _|apply Hobj]. subst U. rewrite <- En. by apply list_elem_of_fmap_2.
  - intros T' HT. split_and!; [done| |]; intros; cbn; by rewrite (bool_decide_false (T' = T)).
  - cbn. by rewrite (bool_decide_true (T = T)), bool_decide_false.
Qed.
End laws.

(** Names of at most 63 bytes. *)
Definition memory_name_ok (n : string) : Prop := (String.length n <= 63)%nat.

#[export] Instance memory_store_spec : StoreSpec.
Proof.
  refine {| group_ok := memory_ok : Group -> Prop; table_name_ok := memory_name_ok; column_name_ok := memory_name_ok |}.
  - by intros g [? _].
  - intros T t g Hg Et. cbn. unfold memory_get_or_add, memory_table. unfold get_table in Et. cbn in Et. by rewrite Et.
  - intros T g Hg _ Et. pose (t := MkTable (memory_next g) T [] None).
    destruct (memory_create T t (memory_next g + 1) g Hg Et) as (Hok & Hels & Hnew & Hempty); [done|constructor; [constructor..|done]|lia|by intros c Hc%not_elem_of_nil|].
    eexists _, _. cbn. unfold memory_get_or_add, memory_table. unfold get_table in Et. cbn in Et. by rewrite Et.
  - intros T ty pk nullable g Hg _ _ Hpk _ Et. set (c := MkColumn (memory_next g) pk ty nullable false "" true).
    destruct (memory_create T (MkTable (memory_next g + 1) T [c] (Some (memory_next g))) (memory_next g + 2) g Hg Et) as (Hok & Hels & Hnew & _); [done| |lia| |].
    { constructor; [apply NoDup_singleton..|]. intros k [= <-]. exists c. split; [left|done]. }
    { intros d Hd%list_elem_of_singleton. subst d. cbn. lia. }
    eexists _, _, _, _. cbn. unfold memory_add_with_primary_key, memory_table. unfold get_table in Et. cbn in Et. rewrite Et. split_and!; done.
  - intros T ty n nullable t g Hg Et _ _ En. by apply (memory_add T n (fun k => MkColumn k n ty nullable false "" false) t g).
  - intros T ty n nullable t g Hg Et _ _ En. by apply (memory_add T n (fun k => MkColumn k n ty nullable true "" false) t g).
  - intros T ty n target t g Hg Et _ _ _ En.
    destruct (memory_add T n (fun k => MkColumn k n ty (bool_decide (ty = type_Link)) (bool_decide (ty = type_LinkList)) target false) t g Hg Et En) as (g' & k & E & Hok & Hset); [done|].
    by eexists _, _, _, _.
  - intros T c t g. apply memory_remove.
  - intros T c nullable t g Hg Et Ec Hp _ _.
    destruct (memory_change T c (with_nullability nullable (memory_next g)) (memory_next g + 1) t g Hg Et Ec) as (g' & E & Hok & Hset); [by left|lia|done|right; cbn; lia|].
    eexists _, _. cbn. unfold memory_set_nullability. by rewrite E.
  - intros T c t g Hg Et Ec _ _. apply (memory_change T c (with_index true) (memory_next g) t g Hg Et Ec); [by right|lia|done|by left].
  - intros T c t g Hg Et Ec _. apply (memory_change T c (with_index false) (memory_next g) t g Hg Et Ec); [by right|lia|done|by left].
  - intros T col v t c g Hg Et Ec _ _ He. apply bool_decide_eq_true in He. eexists. split; [done|]. rewrite He. cbn [app].
    destruct (memory_objects_put T [fun m => if bool_decide (m = col) then v else 0] t g Hg Et) as (Hok & Hels & Hsame & Hne); [done|].
    split_and!; try done. cbn. rewrite (bool_decide_true (T = T)) by done. change (Z.to_nat 0) with 0%nat. cbn. by rewrite bool_decide_true.
  - intros T col v t c g Hg Et Ec _ _ He. apply bool_decide_eq_false in He. destruct (memory_objects g T) as [|f fs] eqn:Ef; [done|]. cbn. unfold memory_set_int. rewrite Ef. cbn.
    eexists. split; [done|]. destruct (memory_objects_put T ((fun m => if bool_decide (m = col) then v else f m) :: fs) t g Hg Et) as (Hok & Hels & Hsame & Hne); [done|].
    split_and!; try done. cbn. rewrite (bool_decide_true (T = T)) by done. change (Z.to_nat 0) with 0%nat. cbn. by rewrite bool_decide_true.
  - vm_compute. lia.
  - vm_compute. lia.
Defined.

Lemma empty_memory_ok : group_ok empty_memory.
Proof.
  split_and!; [split; [constructor|]|..]; cbn; [by intros t Ht%not_elem_of_nil|by intros t c Ht%not_elem_of_nil|done].
Qed.

(** ** Types that the store can keep *)

Definition storable_property (o : ObjectSchema) (p : Property) : Prop :=
  (memory_name_ok (p_name p) /\ hidden (p_name p) = false /\ p_name p <> ""%string) /\
  (kind (p_type p) <> LinkingObjects /\ kind (p_type p) <> Any) /\ is_primary p = bool_decide (p_name p = primary_key o) /\
  (requires_index p = true -> is_array (p_type p) = false).

Definition storable_type (o : ObjectSchema) : Prop :=
  (o_name o <> ""%string /\ memory_name_ok (table_name_for_object_type (o_name o))) /\ Forall (storable_property o) (persisted_properties o) /\
  (primary_key o <> ""%string -> primary_key o ∈ p_name <$> persisted_properties o) /\
  Forall (fun p => kind (p_type p) = LinkingObjects /\ p_name p <> ""%string) (computed_properties o).

#[export] Instance storable_property_dec o p : Decision (storable_property o p).
Proof. unfold storable_property, memory_name_ok. apply _. Defined.
#[export] Instance storable_type_dec o : Decision (storable_type o).
Proof. unfold storable_type, memory_name_ok. apply _. Defined.

Lemma storable_checked s : bool_decide (Forall storable_type s) = true -> forall o, o ∈ s -> storable o.
Proof.
  intros Hs%bool_decide_eq_true o Ho. rewrite Forall_forall in Hs. destruct (Hs o Ho) as (Hn & Hps & Hpk & Hc). rewrite Forall_forall in Hps, Hc.
  constructor; [done|..|done|intros p Hp; by apply Hps|done]; intros p Hp; by apply (Hps p Hp).
Qed.

(** ** A new file *)

Definition indexed_property (name : string) (t : PropertyType) : Property := MkProperty name "" t "" "" false true (-1).

Definition first_types : list ObjectSchema :=
  [make_object_schema "Person" [key_property "id"; plain_property "age" (MkType Int true false); indexed_property "nick" (MkType String_ false false)]
     [linking_objects "dogs" "Dog" "owner"];
   make_object_schema "Dog" [plain_property "name" (MkType String_ false false); link_property "owner" "Person"] []].

(** A required age, no nickname, an address with an index, another type for the name of a dog, a
    list of its tricks, and a new type. *)
Definition second_types : list ObjectSchema :=
  [make_object_schema "Person" [key_property "id"; plain_property "age" (MkType Int false false); indexed_property "email" (MkType String_ true false)]
     [linking_objects "dogs" "Dog" "owner"];
   make_object_schema "Dog" [plain_property "name" (MkType Data true false); link_property "owner" "Person"; plain_property "tricks" (MkType String_ false true)] [];
   make_object_schema "Cat" [plain_property "lives" (MkType Int false false)] []].

Definition first_schema : Schema := make_schema first_types.
Definition second_schema : Schema := make_schema second_types.

Record usable (s : Schema) : Prop := {
  usable_sorted : schema_sorted s;
  usable_validate : validate true s = [];
  usable_valid : schema_valid s;
  usable_storable : forall o, o ∈ s -> storable o
}.

Lemma make_schema_usable types : NoDup (o_name <$> types) -> same_order true (looked_up (make_schema types)) -> validate true (make_schema types) = [] ->
  bool_decide (Forall storable_type (make_schema types)) = true -> usable (make_schema types).
Proof.
  intros Hn Hsame Hv Hs. constructor; [by apply make_schema_sorted|done| |by apply storable_checked]. by apply (validate_nil true); [apply make_schema_sorted|..].
Qed.

Lemma first_usable : usable first_schema.
Proof. apply make_schema_usable; [apply (bool_decide_unpack _); vm_compute; exact I|right; vm_compute; repeat constructor|by vm_compute|by vm_compute]. Qed.
Lemma second_usable : usable second_schema.
Proof. apply make_schema_usable; [apply (bool_decide_unpack _); vm_compute; exact I|right; vm_compute; repeat constructor|by vm_compute|by vm_compute]. Qed.

(** The file that [update_schema] makes for the first types. *)
Definition file_after (r : schema_result (MemoryGroup * Schema)) : MemoryGroup := match r with Fine (g, _) => g | Throws _ => empty_memory end.
Definition first_file : MemoryGroup :=
  file_after (apply_schema_changes true 0 NotVersioned first_schema 1 Automatic (compare [] first_schema false) None None empty_memory).

Definition read_schema (g : MemoryGroup) : Schema := match schema_from_group g with Fine s => s | Throws _ => [] end.

Record ready (g : MemoryGroup) (version : Z) : Prop := {
  ready_ok : group_ok g;
  ready_metadata : metadata_ok g;
  ready_version : get_schema_version g = version;
  ready_schema : schema_from_group g = Fine (read_schema g)
}.

Lemma first_file_ready : ready first_file 1.
Proof.
  destruct first_usable as [Hs Hval Hv Hst].
  destruct (target_applied true first_schema Hs Hv Hst empty_memory [] empty_memory_ok I eq_refl 0 NotVersioned 1 Automatic None) as (g' & E & (Hg & Hver & s & Es & _) & _);
    [vm_compute; exact eq_refl|done|done|by left|].
  assert (first_file = g') as Eg by (unfold first_file; by rewrite E). rewrite Eg. constructor; [done| |done|by unfold read_schema; rewrite Es].
  assert (versioned g') as Hversioned by (rewrite <- Eg; eexists _, _; split_and!; vm_compute; reflexivity).
  unfold metadata_ok. case_match; [by right|done].
Qed.

(** ** Witnesses *)

Lemma version_round_trip_witness :
  group_ok empty_memory /\ metadata_ok empty_memory /\ get_schema_version empty_memory = NotVersioned /\
  exists g', set_schema_version (2 ^ 63 + 7) empty_memory = Fine g' /\ get_schema_version g' = 2 ^ 63 + 7.
Proof.
  split_and!; [apply empty_memory_ok|done|done|]. destruct (@version_round_trip memory_store memory_store_spec empty_memory (2 ^ 63 + 7)) as (g' & E & _ & _ & _ & Ev);
    [apply empty_memory_ok|done|lia|]. by exists g'.
Defined.

(** In additive mode the nickname stays. *)
Definition additive_types : list ObjectSchema :=
  [make_object_schema "Person" [key_property "id"; plain_property "age" (MkType Int true false); indexed_property "email" (MkType String_ true false)]
     [linking_objects "dogs" "Dog" "owner"];
   make_object_schema "Dog" [plain_property "name" (MkType String_ false false); link_property "owner" "Person"] []].
Definition additive_schema : Schema := make_schema additive_types.

Lemma additive_usable : usable additive_schema.
Proof. apply make_schema_usable; [apply (bool_decide_unpack _); vm_compute; exact I|right; vm_compute; repeat constructor|by vm_compute|by vm_compute]. Qed.

Lemma additive_changes_made_witness :
  exists g', apply_schema_changes true 0 1 additive_schema 2 Additive (compare (read_schema first_file) additive_schema false) None None first_file
             = Fine (g', set_schema_keys g' additive_schema) /\
    get_schema_version g' = 2 /\ (p_name <$> concat (persisted_properties <$> read_schema g')) = ["name"; "owner"; "id"; "age"; "nick"; "email"]%string.
Proof.
  pose proof first_file_ready as R. destruct additive_usable as [Hs Hval Hv Hst].
  assert (exists b, verify_valid_additive_changes (compare (read_schema first_file) additive_schema false) true = Fine b) as [b Hb] by (eexists; by vm_compute).
  destruct (additive_changes_made true additive_schema Hs Hv Hst first_file _ (ready_ok _ _ R) (ready_metadata _ _ R) (ready_schema _ _ R) 0 2 true b None Hb) as (g' & E & (Hg' & Ev & _) & _); [lia|].
  rewrite (ready_version _ _ R) in E, Ev. exists g'. split; [exact E|]. split; [exact Ev|].
  assert (g' = file_after (apply_schema_changes true 0 1 additive_schema 2 Additive (compare (read_schema first_file) additive_schema false) None None first_file)) as -> by (rewrite E; reflexivity).
  vm_compute. reflexivity.
Defined.

(** The index of the nickname is removed though the version is the one of the file: the changes are
    made as soon as something else, here a new property, makes the update write. *)
Definition unindexed_schema : Schema := make_schema
  [make_object_schema "Person" [key_property "id"; plain_property "age" (MkType Int true false); plain_property "nick" (MkType String_ false false);
      plain_property "email" (MkType String_ true false)] [linking_objects "dogs" "Dog" "owner"];
   make_object_schema "Dog" [plain_property "name" (MkType String_ false false); link_property "owner" "Person"] []].

Lemma indexes_changed_without_version :
  let changes := compare (read_schema first_file) unindexed_schema false in
  get_schema_version first_file = 1 /\ schema_change_needs_write_transaction Additive 1 changes 1 = Fine write /\
  existsb index_change changes = true /\
  exists g s, apply_schema_changes true 0 1 unindexed_schema 1 Additive changes None None first_file = Fine (g, s) /\
    existsb index_change (compare (read_schema g) unindexed_schema false) = false.
Proof. cbv zeta. split_and!; [by vm_compute..|]. eexists _, _. split; vm_compute; reflexivity. Qed.

(** A new version is needed for a new property, and none for a new type. *)
Definition more_types : list ObjectSchema := first_types ++ [make_object_schema "Cat" [plain_property "lives" (MkType Int false false)] []].
Definition more_schema : Schema := make_schema more_types.

Lemma more_usable : usable more_schema.
Proof. apply make_schema_usable; [apply (bool_decide_unpack _); vm_compute; exact I|right; vm_compute; repeat constructor|by vm_compute|by vm_compute]. Qed.


Lemma write_decisions_witness :
  schema_sorted second_schema /\ schema_sorted [] /\
  (schema_change_needs_write_transaction Immutable 1 (compare [] second_schema false) 2 = Throws (InvalidSchemaVersionException 1 2)).
Proof.
  destruct second_usable as [Hs _ _ _]. assert (schema_sorted []) as He by (split; constructor). split_and!; [done|done|].
  apply (write_decisions Immutable 1 [] second_schema 2 Hs He); done.
Defined.

(** ** The update of a Realm *)

Definition first_realm : RealmState := MkRealm first_file first_schema 1 false.


(** ** What keeps an update from its target *)

Definition migrated (target : Schema) : schema_result (MemoryGroup * Schema) :=
  apply_schema_changes true 0 1 target 2 Automatic (compare (read_schema first_file) target false) None None first_file.

(** An age that becomes required and has an index: the column that is required is a new one, and
    the index is to be put on the key of the old one. *)
Definition required_and_indexed : Schema := make_schema
  [make_object_schema "Person" [key_property "id"; indexed_property "age" (MkType Int false false); indexed_property "nick" (MkType String_ false false)]
     [linking_objects "dogs" "Dog" "owner"];
   make_object_schema "Dog" [plain_property "name" (MkType String_ false false); link_property "owner" "Person"] []].

Lemma stale_column_key : validate true required_and_indexed = [] /\ migrated required_and_indexed = Throws NoSuchObject.
Proof. split; vm_compute; reflexivity. Qed.

(** A list with an index passes the validation, and the file that is made for it lacks the index. *)
Definition indexed_list : Schema := make_schema [make_object_schema "Dog" [indexed_property "tricks" (MkType String_ false true)] []].

Lemma indexed_list_never_settles : validate true indexed_list = [] /\
  exists g s, apply_schema_changes true 0 NotVersioned indexed_list 1 Automatic (compare [] indexed_list false) None None empty_memory = Fine (g, s) /\
    exists o p, compare (read_schema g) indexed_list false = [AddIndex o p] /\ p_name p = "tricks"%string.
Proof. split; [vm_compute; reflexivity|]. eexists _, _. split; [vm_compute; reflexivity|]. eexists _, _. split; vm_compute; reflexivity. Qed.

(** A primary key of another type: its column is replaced, and the new one is not the primary key. *)
Definition integer_key : Schema := make_schema
  [make_object_schema "Person" [MkProperty "id" "" (MkType Int false false) "" "" true false (-1); plain_property "age" (MkType Int true false); indexed_property "nick" (MkType String_ false false)]
     [linking_objects "dogs" "Dog" "owner"];
   make_object_schema "Dog" [plain_property "name" (MkType String_ false false); link_property "owner" "Person"] []].

Lemma primary_key_lost : validate true integer_key = [] /\
  exists g s, migrated integer_key = Fine (g, s) /\ get_schema_version g = 2 /\ get_primary_key_for_object "Person" first_file = "id"%string /\
    get_primary_key_for_object "Person" g = ""%string.
Proof. split; [vm_compute; reflexivity|]. eexists _, _. split; [vm_compute; reflexivity|]. split_and!; vm_compute; reflexivity. Qed.

(** A property takes the place of one that is a list of its type. *)
Definition listed : MemoryGroup :=
  file_after (apply_schema_changes true 0 NotVersioned (make_schema [make_object_schema "Dog"
      [plain_property "name" (MkType String_ false false); plain_property "names" (MkType String_ false true)] []]) 1 Automatic
    (compare [] (make_schema [make_object_schema "Dog" [plain_property "name" (MkType String_ false false); plain_property "names" (MkType String_ false true)] []]) false)
    None None empty_memory).

Lemma list_flag_not_compared :
  exists g s t c, rename_property true "Dog" "name" "names" listed (make_schema [make_object_schema "Dog" [plain_property "names" (MkType String_ false true)] []]) = Fine (g, s) /\
    get_table "class_Dog" g = Some t /\ column_named "names" t = Some c /\ c_list c = false.
Proof. eexists _, _, _, _. split_and!; vm_compute; reflexivity. Qed.
